(* ===== verification/_CoqProject ===== *)
-Q . S2P
Prelude.v
Order.v
BTree.v
Apportion.v
Bytes.v
Crates.v
Payee.v
PoolBuilder.v
CoinbaseTx.v
PayoutManifest.v
PrismError.v
CtvTx.v
WindowCut.v
RewardWindow.v
ByProgram.v
PayoutPolicy.v
Maturity.v
Settlement.v
FanoutFee.v
CtvHash.v
Fanout.v
Covenant.v
FanoutSet.v
PagedWindow.v
OrderedChunks.v
RewardParallel.v
OrderedJson.v
AuditBundle.v
AuditBuild.v
AuditVerify.v
AuditFacts.v
AuditCtv.v
AuditExample.v
F64.v
F64Facts.v
Codec.v
CodecFacts.v
TargetFacts.v
MiningJob.v
JobFacts.v
JobExample.v
Admission.v
RetainedJobs.v
RetainedFacts.v
Vardiff.v
VardiffFacts.v
DifficultySession.v
Broadcast.v
AuditBodyRef.v
BodyRefFacts.v
BodyRefExample.v
Waiting.v
Capacity.v
CapacityFacts.v
CapacityExample.v
SnapshotDelta.v
SnapshotFacts.v
TipState.v
TipFacts.v
ChainObservation.v
ClockedFlight.v
IssuedBatcher.v
Divergence.v
CarryGate.v
OfferReservation.v
CandidateOutbox.v
CarryOwner.v
CarryTransfer.v
CarryPair.v
