(* ===== verification/Prelude.v ===== *)
(** * Verification of the qbit PRISM mining pool

    The repository is a mining pool for qbit.  The pool keeps a ledger of
    accepted shares, pays a block to the shares that earned it, and publishes
    for every block an audit bundle from which anyone can recompute the
    payment.  This library models the code that decides who is paid what and
    the code that lets others check it, and proves both.

    ** The program and this library

    The Rust crates are under [src/crates/].

    - [qbit-pool-builder] builds a coinbase.  [PoolBuilder]: [allocate_outputs]
      splits the coinbase value over weighted entitlements.  [CoinbaseTx]:
      [build_coinbase], the transaction bytes and the witness commitment.
      [PayoutManifest]: the manifest that discloses the outputs, signed.
    - [qbit-prism] decides the entitlements.  [RewardWindow] (lib.rs): the
      accepted shares are ordered newest first and credited until the window's
      weight is reached.  [RewardParallel] and [OrderedChunks] (parallel.rs):
      the same fold on a worker pool.  [PagedWindow] (window.rs): the window
      kept incrementally.  [WindowCut] (window_cut.rs): its cut when two nodes
      write the ledger.  [ByProgram], [PayoutPolicy], [Maturity] (lib.rs): pool
      fee, output floor, on-chain selection, carry-forward balances and their
      ledger entries.
    - [qbit-prism] also settles what does not fit the coinbase.  [Settlement]
      and [FanoutFee] (settlement.rs): direct recipients, fanout chunks, the
      fee the recipients bear.  [CtvTx], [CtvHash], [Fanout], [Covenant],
      [FanoutSet] (ctv.rs): transaction codec, template hash, precommitment,
      manifest and manifest set of the CTV covenant that pays the chunks.
      [Broadcast] (broadcast.rs): the fee-paying child a fanout is broadcast
      with.
    - [qbit-prism] audits.  [OrderedJson] (parallel.rs, lib.rs): canonical JSON
      written in chunks.  [AuditBundle] (lib.rs, audit_hash.rs): the bundle and
      its split hash.  [AuditBuild], [AuditVerify] (lib.rs): builders and
      verifier.  [AuditFacts], [AuditCtv]: what a successful verification
      implies and that built bundles verify.  [AuditExample]: whole blocks
      evaluated.  [AuditBodyRef], [BodyRefFacts], [BodyRefExample]
      (audit_body_ref.rs): the storage envelopes that keep a bundle's shares
      in parts.
    - [qbit-prism-server] serves the miners.  [Codec], [F64] (codec.rs): the
      structural walk of a transaction, witness stripping, block readers,
      merkle branch, targets.  [MiningJob] (codec.rs): a job made of a manifest
      and a template, reassigned to a connection, and the block assembled from
      a submission.  [Admission] (readiness/admission.rs, dual_writer.rs,
      server.rs): whether the frontend admits miners.  [RetainedJobs]
      (stratum/retained_jobs.rs, stale_grace.rs, stratum.rs): the work a
      session still honours.  [Vardiff] (vardiff.rs, stratum.rs): the difficulty
      controller and a session's difficulty.  [Waiting] (waiting.rs): what timed
      work is waiting on.  [Capacity] (capacity.rs): validation of capacity
      evidence.  [CodecFacts], [TargetFacts], [JobFacts], [RetainedFacts],
      [F64Facts], [VardiffFacts], [DifficultySession], [CapacityFacts] hold
      their theorems, [JobExample] a block and [CapacityExample] an evidence
      document worked through.
    - [qbit-prism-server] also decides which work is current.  [TipState],
      [TipFacts] (coordinator/tip_observation.rs, publication_authority.rs):
      observed and published tips, replacement leases, issuance proofs.
      [ChainObservation] (coordinator/chain_observation.rs, ledger/window.rs):
      the accepted tip of a cluster.  [ClockedFlight] (coordinator/
      clocked_flight.rs): deadlines from shared reads of the database clock.
      [IssuedBatcher] (coordinator/issued_batcher.rs): the collector of issued
      jobs.  [SnapshotDelta], [SnapshotFacts] (ledger/window.rs, window/
      snapshot_delta.rs, window/cut.rs): the share window of a refresh, advanced
      from the retained one or scanned.
    - [qbit-prism-server] guards carried balances.  [Divergence],
      [OfferReservation] (ledger/divergence.rs): the debt a superseded block
      creates and the reservation that bounds it.  [CandidateOutbox] (ledger/
      candidates.rs, ledger/blocks.rs, coordinator.rs): the life of a found
      block's row and its one offer.  [CarryGate] (ledger/carry.rs,
      node_identity.rs): the gate between paying and carry-free work and its
      fence.  [CarryOwner] (carry_owner.rs), [CarryTransfer] (carry_owner/
      transfer.rs) and [CarryPair]: the guard's decision, the operator's
      transfer, and the two nodes together.

    [Order], [BTree], [Apportion], [Bytes], [Payee] hold what the components
    share: comparators and the stable [sort_by], [BTreeMap], the arithmetic of
    largest-remainder splits, bytes and text, the payee fields.

    The flow of a block: the window yields entitlements ([RewardWindow]); the
    policy turns them and the prior balances into payouts ([PayoutPolicy]); the
    settlement decides which payouts the coinbase makes and which a fanout
    makes ([Settlement], [FanoutFee], [Fanout]); the builder makes the coinbase
    ([PoolBuilder], [CoinbaseTx]); the audit bundle records it all
    ([AuditBuild]) and the verifier repeats it ([AuditVerify]).

    ** How the code is modelled

    A function is a Rocq function of the same name; a struct is a record whose
    fields carry a short prefix; an enum is an inductive type.  Fallible code
    returns [result E A] below: [Ok], [Err], and [Panic] for an [expect], a
    slice or index out of range or an arithmetic overflow, so that "does not
    panic" is a statement.  Machine integers are [Z] with the checked,
    saturating or wrapping operation the code uses written out at its width.
    [BTreeMap]s are key-sorted association lists ([BTree]), other maps stdpp's
    [gmap].  Recursion that is not structural takes fuel, always the length of
    the list it consumes (merkle levels, selection and fee loops, pages,
    chunks) or the count it decreases (jobs of the pool, retained entries); the
    theorems about those loops are stated for that fuel and are total, so the
    fuel never decides a result.  The worker pool is a step relation
    ([OrderedChunks]); its theorems hold of every schedule.

    Crates outside the repository are class parameters with the laws the code
    relies on: [HexCrate]/[HexLaws], [Sha256Crate]/[Sha256Laws],
    [Ed25519Crate]/[Ed25519Laws], [ToJson]/[JsonArray]/[JsonNames] for
    serde_json, and [ChunkRunner] between the pool and its clients.  [Crates]
    and [AuditExample] instantiate them to evaluate examples.  SHA-256 is never
    assumed injective: theorems that need it say so of the two inputs at hand,
    or conclude with a collision.

    ** What is proved

    - Audit: a bundle that verifies has a coinbase paying what its shares
      earned; every bundle the builders return verifies, with and without CTV
      settlement; the split hash is the hash of the canonical bytes; the
      verifier trusts a declared gross amount (a defect).  A stored envelope
      loads exactly when its parts are one contiguous run under the declared
      hash, a bundle split into parts reloads, and a window proof binds the
      shares and the reward manifest.
    - Allocation and policy: outputs are the exact largest-remainder split, the
      policy conserves value account by account, its request is paid exactly,
      replaying the ledger entries gives the policy's balances and reversal
      restores the earlier ones; no branch panics.
    - Window: the fold credits the newest shares, is total, and agrees with the
      parallel fold and with the incrementally maintained window, whose digest
      binds its content.
    - Worker pool: every schedule ends, and with the serial result.
    - Settlement: recipients are partitioned, priority and budget hold, fees
      are deducted exactly; a precommitment finalises, a verified manifest pays
      its list, and the covenant binds every spender to it.
    - Codecs: the coinbase parses back, accepted transactions are canonical and
      serialisation round-trips.
    - Server: the transaction walk accepts exactly its grammar and stripping
      agrees with the fanout parser; a share target is the exact quotient; every
      well-formed submission assembles, keeps the payouts of the manifest and
      gives a block that reads back with a header committing to it; admission
      is exactly "ready within the grace, no fault since" and its signal is
      never old; a session's work is bounded and superseded work earns nothing;
      the fee-bump child is the documented transaction.
    - Difficulty: with binary64 rounding, a retarget is one allowed step within
      the bounds, every reachable session stays between its floor and the
      maximum without a panic, and a failed delivery leaves no trace but the
      shares accepted meanwhile.
    - Waiting: a reading says the database exactly when a database step is open
      on the work or on shared work it follows.
    - Capacity: accepted evidence has the phases, rates, sums, latencies and
      deployment binding it claims, and no document makes the validator panic.
    - Refresh windows: whatever commits between the statements of a refresh, as
      long as the row its cut ends with stays attached, a window it advances to
      is the newest eligible rows of the ledger, and what the next refresh may
      advance from is such a window.
    - Tips: stamps change exactly with publications, a lease is fixed when its
      tip is first left and commits only under its own publication, and a
      revalidated issuance proof still names its epoch, tip and revision; the
      accepted chain only gains work or is replaced by a witness of the tip it
      replaces, boundedly often; a joined clock read never outlives the
      database's expiry; the collector loses and repeats no entry.
    - Carried balances: a block creates at most the debt its issued float
      bounds, one that is offered at most the configured ceiling; carry-free
      work creates none.  A found block is offered at most once, however its
      claims move and its offers are returned.  A carry-paying block that is
      sent was reserved and sent under one opening of its gate, and built under
      it unless it was reserved in the instant after a failed commit of a fence,
      which [failed_fence_window] shows to be real; and of the two nodes at most one builds carry-paying work, in every interleaving
      of checks, syncs, restarts, releases and transfers.  A passed transfer has
      walked a linked chain to the tip and found every pool block confirmed.

    ** Not modelled

    The rest of the coordinator, the stratum and HTTP servers, the RPC client,
    peer synchronisation and the broadcaster service are asynchronous I/O around
    the modelled computations; the rest of the ledger, partitions and rollups are
    SQL whose behaviour is Postgres's; the command-line programs parse arguments;
    the load generator, the dual-writer simulator and the test gate are test
    harnesses.  Within modelled
    files: log lines, metrics, the command line and the health JSON are left
    out, and a step that reads the clock several times takes one instant.  SQL
    statements of the modelled operations are functions on the rows they read
    and write, one database per statement or transaction; row locks and the
    settlement lock are guards of the step relations.  [CarryPair] assumes that
    no journal is rolled back and that one operator command runs at a time.
    [OrderedChunks] takes a condition-variable wait for the condition it waits
    for, so a lost wake-up cannot be expressed in it.  Unchecked additions that
    untrusted input can overflow wrap as in the release build ([AuditBodyRef]).
    The page loops of [SnapshotDelta] take as fuel
    the number of sequence values between the cursor and the end of the range,
    which every page narrows, and its merge the number of rows to merge; the
    walk of [CarryTransfer], which a moving chain can keep busy, takes any
    number of rounds, and [still_chain_walk_ends] gives its result on a chain
    that stands still.
    *)
From Stdlib Require Import ZArith Lia Sorting.Sorted.
From Stdlib Require String.
From stdpp Require Import base list strings gmap sorting.

Open Scope Z_scope.

(** * Outcomes

    [Ok] and [Err] are Rust's [Result]; [Panic] is what an [expect], an
    out-of-range index or an overflowing unchecked operator would do.  It is a
    value of its own so that "never panics" can be stated and proved. *)
Inductive result (E A : Type) : Type :=
| Ok (a : A)
| Err (e : E)
| Panic (msg : string).

Arguments Ok {E A} a.
Arguments Err {E A} e.
Arguments Panic {E A} msg.

#[export] Instance result_ret {E} : MRet (result E) := fun _ a => Ok a.
#[export] Instance result_bind {E} : MBind (result E) := fun _ _ f r =>
  match r with Ok a => f a | Err e => Err e | Panic m => Panic m end.
#[export] Instance result_fmap {E} : FMap (result E) := fun _ _ f r =>
  match r with Ok a => Ok (f a) | Err e => Err e | Panic m => Panic m end.

(** [Option::ok_or] and [Option::expect]. *)
Definition ok_or {E A} (o : option A) (e : E) : result E A :=
  match o with Some a => Ok a | None => Err e end.
Definition expect {E A} (o : option A) (msg : string) : result E A :=
  match o with Some a => Ok a | None => Panic msg end.
(** [Result::map_err]. *)
Definition map_err {E F A} (f : E -> F) (r : result E A) : result F A :=
  match r with Ok a => Ok a | Err e => Err (f e) | Panic m => Panic m end.

(** [Iterator::try_fold] and the [for] loops that return early. *)
Fixpoint try_fold {E A B} (f : B -> A -> result E B) (acc : B) (l : list A)
  : result E B :=
  match l with
  | [] => Ok acc
  | x :: l => b ← f acc x; try_fold f b l
  end.

(** [iter().map(f).collect::<Result<Vec<_>, _>>()]: the first error wins. *)
Fixpoint collect {E A B} (f : A -> result E B) (l : list A) : result E (list B) :=
  match l with
  | [] => Ok []
  | x :: l => y ← f x; ys ← collect f l; Ok (y :: ys)
  end.

Definition is_ok {E A} (r : result E A) : bool :=
  match r with Ok _ => true | _ => false end.
Definition not_panic {E A} (r : result E A) : Prop := ∀ m, r ≠ Panic m.

(** * Machine integers

    A w-bit integer is a [Z]; every checked, saturating or truncating
    operation of the source is written out. *)
Inductive int_ty := U8 | U16 | U32 | U64 | U128 | I64 | I128.
(** The shipped targets are 64-bit. *)
Definition Usize : int_ty := U64.

Definition int_min (t : int_ty) : Z :=
  match t with I64 => - 2 ^ 63 | I128 => - 2 ^ 127 | _ => 0 end.
Definition int_max (t : int_ty) : Z :=
  match t with
  | U8 => 2 ^ 8 - 1 | U16 => 2 ^ 16 - 1 | U32 => 2 ^ 32 - 1 | U64 => 2 ^ 64 - 1
  | U128 => 2 ^ 128 - 1 | I64 => 2 ^ 63 - 1 | I128 => 2 ^ 127 - 1
  end.

Definition fits (t : int_ty) (z : Z) : bool := (int_min t <=? z) && (z <=? int_max t).
(** The result of a [checked_*] operation or of a [try_from] conversion. *)
Definition checked (t : int_ty) (z : Z) : option Z := if fits t z then Some z else None.
Definition checked_add (t : int_ty) (a b : Z) : option Z := checked t (a + b).
Definition checked_sub (t : int_ty) (a b : Z) : option Z := checked t (a - b).
Definition checked_mul (t : int_ty) (a b : Z) : option Z := checked t (a * b).
Definition saturating (t : int_ty) (z : Z) : Z := Z.max (int_min t) (Z.min (int_max t) z).
Definition saturating_add (t : int_ty) (a b : Z) : Z := saturating t (a + b).
Definition saturating_sub (t : int_ty) (a b : Z) : Z := saturating t (a - b).
(** Plain [+], [-] and [*]: overflow is a panic (or a wrapped value, which is
    never wanted), so the model stops there. *)
Definition arith {E} (t : int_ty) (z : Z) : result E Z :=
  expect (checked t z) "arithmetic overflow".

Lemma fits_iff t z : fits t z = true ↔ int_min t ≤ z ≤ int_max t.
Proof. unfold fits. rewrite andb_true_iff, !Z.leb_le. done. Qed.

Lemma checked_Some t z z' : checked t z = Some z' ↔ z' = z ∧ fits t z = true.
Proof. unfold checked. destruct (fits t z); naive_solver. Qed.

Lemma checked_fits t z : fits t z = true → checked t z = Some z.
Proof. intros H. unfold checked. by rewrite H. Qed.

Lemma fits_between t a b z :
  fits t a = true → fits t b = true → a ≤ z ≤ b → fits t z = true.
Proof. rewrite !fits_iff. lia. Qed.

(** Unfold the widths in the goal and the hypotheses, then [lia]. *)
Ltac widths :=
  rewrite ?fits_iff in *; unfold Usize in *; cbn [int_min int_max] in *; lia.

(** ** Reasoning about outcomes *)
Section result_lemmas.
Context {E : Type}.

Lemma is_ok_ex {A} (r : result E A) : is_ok r = true → ∃ a, r = Ok a.
Proof. destruct r; [eauto|done..]. Qed.

Lemma Ok_inj {A} (a b : A) : @Ok E A a = Ok b → a = b.
Proof. by intros [= ->]. Qed.

Lemma bind_Ok {A B} (r : result E A) (f : A -> result E B) b :
  (r ≫= f) = Ok b ↔ ∃ a, r = Ok a ∧ f a = Ok b.
Proof. destruct r; cbn; naive_solver. Qed.

Lemma ok_or_Ok {A} (o : option A) (e : E) a : ok_or o e = Ok a ↔ o = Some a.
Proof. destruct o; naive_solver. Qed.

Lemma expect_Ok {A} (o : option A) m a : @expect E A o m = Ok a ↔ o = Some a.
Proof. destruct o; naive_solver. Qed.

Lemma map_err_Ok {F A} (f : F -> E) (r : result F A) a :
  map_err f r = Ok a ↔ r = Ok a.
Proof. destruct r; naive_solver. Qed.

Lemma try_fold_app {A B} (f : B -> A -> result E B) b l1 l2 :
  try_fold f b (l1 ++ l2) = (b' ← try_fold f b l1; try_fold f b' l2).
Proof.
  revert b; induction l1 as [|x l1 IH]; intros b; [done|].
  cbn. destruct (f b x); cbn; [apply IH|done..].
Qed.

Lemma try_fold_fmap {A A' B} (f : B -> A' -> result E B) (g : A -> A') b l :
  try_fold f b (g <$> l) = try_fold (fun b x => f b (g x)) b l.
Proof. revert b; induction l as [|x l IH]; intros b; [done|]. cbn. destruct (f b (g x)); cbn; [apply IH|done..]. Qed.

(** A loop over [iter().enumerate()]: its last turn. *)
Lemma try_fold_enumerate_snoc {A B} (f : B -> nat * A -> result E B) b l x :
  try_fold f b (imap pair (l ++ [x])) =
  (b' ← try_fold f b (imap pair l); f b' (length l, x)).
Proof.
  rewrite imap_app, try_fold_app. cbn. rewrite Nat.add_0_r.
  destruct (try_fold f b (imap pair l)); cbn; [|done..]. by destruct (f a (length l, x)).
Qed.

(** A fold that goes through keeps an invariant of its accumulator. *)
Lemma try_fold_inv {A B} (P : B -> Prop) (f : B -> A -> result E B) b l b' :
  P b → (∀ b x b', x ∈ l → P b → f b x = Ok b' → P b') →
  try_fold f b l = Ok b' → P b'.
Proof.
  revert b; induction l as [|x l IH]; intros b Hb Hstep; cbn.
  - intros [= <-]. done.
  - intros (b1 & Hf & Hl)%bind_Ok. eapply IH; [|set_solver|done].
    eapply (Hstep b x); [set_solver|done..].
Qed.

Lemma collect_Forall2 {A B} (f : A -> result E B) l l' :
  collect f l = Ok l' ↔ Forall2 (fun x y => f x = Ok y) l l'.
Proof.
  revert l'; induction l as [|x l IH]; intros l'; cbn.
  - split; [intros [= <-]; constructor|by inversion 1].
  - rewrite bind_Ok. split.
    + intros (y & Hy & (ys & Hys & [= <-])%bind_Ok).
      constructor; [done|]. by apply IH.
    + inversion 1 as [|?? ? ? Hy Hys]; simplify_eq. exists y; split; [done|].
      apply bind_Ok. exists l'0. by rewrite IH.
Qed.

Lemma collect_fmap {A B} (f : A -> result E B) (g : A -> B) l :
  (∀ x, x ∈ l → f x = Ok (g x)) → collect f l = Ok (g <$> l).
Proof.
  induction l as [|x l IH]; intros H; [done|]. cbn.
  rewrite (H x) by set_solver. cbn. rewrite IH by set_solver. done.
Qed.

Lemma collect_fmap_inv {A B} (f : A -> result E B) (g : A -> B) l l' :
  (∀ x y, x ∈ l → f x = Ok y → y = g x) → collect f l = Ok l' → l' = g <$> l.
Proof.
  intros Hg Hl%collect_Forall2. induction Hl as [|x y l l' Hx Hl IH]; [done|].
  cbn. f_equal; [apply Hg; [set_solver|done]|apply IH; set_solver].
Qed.

Lemma collect_is_ok {A B} (f : A -> result E B) l l' :
  collect f l = Ok l' → Forall (fun x => is_ok (f x) = true) l.
Proof.
  intros Hl%collect_Forall2. induction Hl as [|x y l l' Hx _ IH]; constructor; [by rewrite Hx|done].
Qed.

Lemma collect_app {A B} (f : A -> result E B) l1 l2 :
  collect f (l1 ++ l2) = (ys1 ← collect f l1; ys2 ← collect f l2; Ok (ys1 ++ ys2)).
Proof.
  induction l1 as [|x l1 IH]; cbn; [by destruct (collect f l2)|]. destruct (f x); cbn; [|done..].
  rewrite IH. destruct (collect f l1); cbn; [|done..]. by destruct (collect f l2).
Qed.
Lemma collect_length {A B} (f : A -> result E B) l l' : collect f l = Ok l' → length l' = length l.
Proof. intros H%collect_Forall2. symmetry. by eapply Forall2_length. Qed.

Lemma not_panic_bind {A B} (r : result E A) (f : A -> result E B) :
  not_panic r → (∀ a, r = Ok a → not_panic (f a)) → not_panic (r ≫= f).
Proof. unfold not_panic. destruct r; cbn; naive_solver. Qed.

Lemma not_panic_ok_or {A} (o : option A) (e : E) : not_panic (ok_or o e).
Proof. by destruct o. Qed.

Lemma not_panic_Ok {A} (a : A) : not_panic (@Ok E A a).
Proof. done. Qed.

Lemma not_panic_Err {A} (e : E) : not_panic (@Err E A e).
Proof. done. Qed.

Lemma not_panic_collect {A B} (f : A -> result E B) l :
  (∀ x, x ∈ l → not_panic (f x)) → not_panic (collect f l).
Proof.
  induction l as [|x l IH]; intros H; [done|]. cbn.
  apply not_panic_bind; [apply H; set_solver|]. intros y _.
  apply not_panic_bind; [apply IH; set_solver|done].
Qed.

Lemma not_panic_try_fold {A B} (f : B -> A -> result E B) b l :
  (∀ b x, x ∈ l → not_panic (f b x)) → not_panic (try_fold f b l).
Proof.
  revert b; induction l as [|x l IH]; intros b H; [done|]. cbn.
  apply not_panic_bind; [apply H; set_solver|]. intros y _. apply IH; set_solver.
Qed.
End result_lemmas.

Create HintDb outcome.
#[export] Hint Resolve not_panic_ok_or not_panic_Ok not_panic_Err : outcome.

(** Close [not_panic] goals of straight-line code. *)
Ltac calm :=
  repeat first
    [ progress auto with outcome
    | apply not_panic_bind; [|intros]
    | match goal with |- not_panic (if ?b then _ else _) => destruct b end ].

(** Take a hypothesis [... = Ok _] apart into the successes it is made of. *)
Ltac res_step :=
  match goal with
  | H : mbind _ _ = Ok _ |- _ => apply bind_Ok in H as (? & ? & ?)
  | H : ok_or _ _ = Ok _ |- _ => apply ok_or_Ok in H
  | H : expect _ _ = Ok _ |- _ => apply expect_Ok in H
  | H : map_err _ _ = Ok _ |- _ => apply map_err_Ok in H
  | H : checked_add _ _ _ = Some _ |- _ => unfold checked_add in H
  | H : checked_sub _ _ _ = Some _ |- _ => unfold checked_sub in H
  | H : checked_mul _ _ _ = Some _ |- _ => unfold checked_mul in H
  | H : checked _ _ = Some _ |- _ => apply checked_Some in H as [-> H]
  | H : Ok _ = Ok _ |- _ => apply Ok_inj in H
  | H : Err _ = Ok _ |- _ => discriminate H
  | H : Panic _ = Ok _ |- _ => discriminate H
  | H : (if ?b then _ else _) = Ok _ |- _ =>
      let Hb := fresh "Hb" in destruct b eqn:Hb
  end.
Ltac res_inv := repeat res_step; subst.

(** The value of a computation on concrete input. *)
Ltac ok_of r :=
  let v := eval vm_compute in r in
  match v with Ok ?x => exact x end.

(** * Sums *)
Definition zsum (l : list Z) : Z := foldr Z.add 0 l.
Definition sum_of {A} (f : A -> Z) (l : list A) : Z := zsum (f <$> l).
Arguments zsum : simpl never.
Arguments sum_of : simpl never.

Lemma zsum_cons x l : zsum (x :: l) = x + zsum l.
Proof. done. Qed.

Section sums.
Context {A : Type}.
Implicit Types (f g : A -> Z) (l : list A).

Lemma sum_of_nil f : sum_of f [] = 0.
Proof. done. Qed.
Lemma sum_of_cons f x l : sum_of f (x :: l) = f x + sum_of f l.
Proof. done. Qed.
Lemma sum_of_app f l1 l2 : sum_of f (l1 ++ l2) = sum_of f l1 + sum_of f l2.
Proof.
  induction l1 as [|x l1 IH]; [done|].
  cbn [app]. rewrite !sum_of_cons, IH. lia.
Qed.
Lemma sum_of_perm f l1 l2 : l1 ≡ₚ l2 → sum_of f l1 = sum_of f l2.
Proof. induction 1; rewrite ?sum_of_cons; lia. Qed.
Lemma sum_of_ext f g l : (∀ x, x ∈ l → f x = g x) → sum_of f l = sum_of g l.
Proof.
  induction l as [|x l IH]; intros H; [done|]. rewrite !sum_of_cons.
  rewrite (H x), IH; set_solver.
Qed.
Lemma sum_of_fmap {B} f (h : B -> A) (l : list B) :
  sum_of f (h <$> l) = sum_of (fun x => f (h x)) l.
Proof. unfold sum_of. by rewrite <- list_fmap_compose. Qed.
Lemma sum_of_nonneg f l : (∀ x, x ∈ l → 0 ≤ f x) → 0 ≤ sum_of f l.
Proof.
  induction l as [|x l IH]; intros H; [done|]. rewrite sum_of_cons.
  pose proof (H x ltac:(set_solver)). pose proof (IH ltac:(set_solver)). lia.
Qed.
Lemma sum_of_le f g l : (∀ x, x ∈ l → f x ≤ g x) → sum_of f l ≤ sum_of g l.
Proof.
  induction l as [|x l IH]; intros H; [done|]. rewrite !sum_of_cons.
  pose proof (H x ltac:(set_solver)). pose proof (IH ltac:(set_solver)). lia.
Qed.
Lemma sum_of_elem_le f l x : (∀ x, x ∈ l → 0 ≤ f x) → x ∈ l → f x ≤ sum_of f l.
Proof.
  induction l as [|y l IH]; intros H Hx; [set_solver|]. rewrite sum_of_cons.
  pose proof (H y ltac:(set_solver)).
  pose proof (sum_of_nonneg f l ltac:(set_solver)).
  apply elem_of_cons in Hx as [->|Hx]; [lia|]. specialize (IH ltac:(set_solver) Hx). lia.
Qed.
Lemma sum_of_add f g l : sum_of (fun x => f x + g x) l = sum_of f l + sum_of g l.
Proof. induction l as [|x l IH]; [done|]. rewrite !sum_of_cons, IH. lia. Qed.
Lemma sum_of_sub f g l : sum_of (fun x => f x - g x) l = sum_of f l - sum_of g l.
Proof. induction l as [|x l IH]; [done|]. rewrite !sum_of_cons, IH. lia. Qed.
Lemma sum_of_scale c f l : sum_of (fun x => c * f x) l = c * sum_of f l.
Proof. induction l as [|x l IH]; [rewrite !sum_of_nil; lia|]. rewrite !sum_of_cons, IH. lia. Qed.
Lemma sum_of_zero f l : (∀ x, x ∈ l → f x = 0) → sum_of f l = 0.
Proof.
  induction l as [|x l IH]; intros H; [done|]. rewrite sum_of_cons.
  rewrite (H x) by set_solver. rewrite IH; set_solver.
Qed.
Lemma sum_of_filter_split f (P : A -> bool) l :
  sum_of f l = sum_of f (filter P l) + sum_of f (filter (fun x => negb (P x)) l).
Proof.
  induction l as [|x l IH]; [done|]. rewrite !filter_cons, sum_of_cons, IH.
  destruct (P x); repeat case_decide; try done; rewrite sum_of_cons; lia.
Qed.

Lemma sum_of_insert f l i x y :
  l !! i = Some x → sum_of f (<[i := y]> l) = sum_of f l - f x + f y.
Proof.
  revert i; induction l as [|z l IH]; intros [|i] Hi; simplify_eq/=;
    rewrite ?sum_of_cons; [lia|]. rewrite IH by done. lia.
Qed.

(** [try_fold] of checked additions is the sum, when the sum fits. *)
Lemma try_sum_Ok {E} (t : int_ty) (e : E) f l acc s :
  try_fold (fun s x => ok_or (checked_add t s (f x)) e) acc l = Ok s →
  s = acc + sum_of f l.
Proof.
  revert acc; induction l as [|x l IH]; intros acc; cbn.
  - intros [= <-]. rewrite sum_of_nil. lia.
  - intros H. res_inv. apply IH in H0. rewrite sum_of_cons. lia.
Qed.

Lemma try_sum_fits {E} (t : int_ty) (e : E) f l acc s :
  fits t acc = true →
  try_fold (fun s x => ok_or (checked_add t s (f x)) e) acc l = Ok s →
  fits t s = true.
Proof.
  intros Ha. apply (try_fold_inv (fun s => fits t s = true)); [done|]. intros b x b' _ Hb H. by res_inv.
Qed.

Lemma try_sum_total {E} (t : int_ty) (e : E) f l acc :
  fits t acc = true → int_min t ≤ 0 →
  (∀ x, x ∈ l → 0 ≤ f x) → fits t (acc + sum_of f l) = true →
  try_fold (fun s x => ok_or (checked_add t s (f x)) e) acc l = Ok (acc + sum_of f l).
Proof.
  intros Ha Hmin. revert acc Ha; induction l as [|x l IH]; intros acc Ha H Hf; cbn.
  - rewrite sum_of_nil. f_equal. lia.
  - rewrite sum_of_cons in *. unfold checked_add.
    pose proof (H x ltac:(set_solver)).
    pose proof (sum_of_nonneg f l ltac:(set_solver)).
    assert (fits t (acc + f x) = true) by (eapply (fits_between t acc); [done..|lia]).
    rewrite checked_fits by done. cbn. rewrite IH; [f_equal; lia|done|set_solver|].
    by replace (acc + f x + sum_of f l) with (acc + (f x + sum_of f l)) by lia.
Qed.
(** The same for [iter().sum()], which panics on overflow. *)
Lemma try_arith_total {E} (t : int_ty) f l acc :
  fits t acc = true → int_min t ≤ 0 →
  (∀ x, x ∈ l → 0 ≤ f x) → fits t (acc + sum_of f l) = true →
  try_fold (fun s x => arith t (s + f x)) acc l = @Ok E _ (acc + sum_of f l).
Proof.
  intros Ha Hmin. revert acc Ha; induction l as [|x l IH]; intros acc Ha H Hf; cbn.
  - rewrite sum_of_nil. f_equal. lia.
  - rewrite sum_of_cons in *. unfold arith.
    pose proof (H x ltac:(set_solver)).
    pose proof (sum_of_nonneg f l ltac:(set_solver)).
    assert (fits t (acc + f x) = true) by (eapply (fits_between t acc); [done..|lia]).
    rewrite checked_fits by done. cbn. rewrite IH; [f_equal; lia|done|set_solver|].
    by replace (acc + f x + sum_of f l) with (acc + (f x + sum_of f l)) by lia.
Qed.

End sums.

Lemma sum_of_mjoin {A} (f : A -> Z) (ls : list (list A)) : sum_of f (mjoin ls) = sum_of (sum_of f) ls.
Proof.
  induction ls as [|l ls IH]; [done|]. rewrite sum_of_cons, <- IH, <- sum_of_app. done.
Qed.

Lemma length_sum {A} (ls : list (list A)) :
  sum_of (fun l => Z.of_nat (length l)) ls = Z.of_nat (length (mjoin ls)).
Proof.
  induction ls as [|l ls IH]; [done|]. rewrite sum_of_cons, IH.
  change (mjoin (l :: ls)) with (l ++ mjoin ls). rewrite length_app. lia.
Qed.
Create Rewrite HintDb sums.
#[export] Hint Rewrite @sum_of_nil @sum_of_cons @sum_of_app : sums.

(** * Lists *)
Lemma elem_of_take_sub {A} (x : A) n l : x ∈ take n l → x ∈ l.
Proof. intros (i & Hi & _)%elem_of_take. by eapply list_elem_of_lookup_2. Qed.

Lemma take_plus {A} n m (l : list A) : take (n + m) l = take n l ++ take m (drop n l).
Proof. revert l; induction n as [|n IH]; intros [|x l]; cbn; [done|done|by destruct m|by rewrite IH]. Qed.

Lemma Permutation_Forall_iff {A} (P : A -> Prop) l l' : l ≡ₚ l' → Forall P l ↔ Forall P l'.
Proof. by intros ->. Qed.

(** Induction two elements at a time. *)
Lemma list_pair_ind {A} (P : list A -> Prop) :
  P [] → (∀ x, P [x]) → (∀ x y l, P l → P (x :: y :: l)) → ∀ l, P l.
Proof. intros H0 H1 H2. fix IH 1. intros [|x [|y l]]; [done|apply H1|apply H2, IH]. Qed.

Lemma mjoin_fmap {A B} (f : A -> list B) (l : list A) : mjoin (f <$> l) = l ≫= f.
Proof. induction l as [|x l IH]; [done|]. rewrite bind_cons, <- IH. done. Qed.

Lemma filter_all {A} (P : A -> Prop) `{∀ x, Decision (P x)} (l : list A) : Forall P l → filter P l = l.
Proof. induction 1 as [|x l Hx _ IH]; [done|]. by rewrite filter_cons_True, IH. Qed.

Lemma filter_ext_elem {A} (P Q : A -> Prop) `{∀ x, Decision (P x)}
    `{∀ x, Decision (Q x)} (l : list A) :
  (∀ x, x ∈ l → P x ↔ Q x) → filter P l = filter Q l.
Proof.
  induction l as [|x l IH]; intros HPQ; [done|]. rewrite !filter_cons.
  rewrite IH by set_solver. specialize (HPQ x ltac:(set_solver)).
  repeat case_decide; naive_solver.
Qed.

(** [enumerate().filter(p).map(index)]: the indices of the elements that pass,
    in order. *)
Lemma indices_where {A} (p : A -> bool) (l : list A) :
  let r := omap (fun '(i, a) => if p a then Some i else None) (imap pair l) in
  NoDup r ∧ ∀ i, i ∈ r ↔ ∃ a, l !! i = Some a ∧ p a = true.
Proof.
  cbn zeta. induction l as [|a l [IHn IHi]] using rev_ind.
  { split; [constructor|]. intros i. split; [set_solver|]. by intros (? & ? & _). }
  rewrite imap_app, omap_app. cbn. rewrite Nat.add_0_r.
  assert (∀ i, (∃ x, (l ++ [a]) !! i = Some x ∧ p x = true) ↔
    (∃ x, l !! i = Some x ∧ p x = true) ∨ i = length l ∧ p a = true) as Hsplit.
  { intros i. destruct (decide (i < length l)%nat).
    - rewrite lookup_app_l by done. naive_solver lia.
    - rewrite lookup_app_r, (lookup_ge_None_2 l i) by lia.
      destruct (decide (i = length l)) as [->|]; [rewrite Nat.sub_diag; cbn; naive_solver|].
      rewrite lookup_ge_None_2 by (cbn; lia). naive_solver. }
  split.
  - destruct (p a); [|by rewrite app_nil_r]. apply NoDup_app. split_and!; [done| |apply NoDup_singleton].
    intros i (x & Hx & _)%IHi ->%list_elem_of_singleton. apply lookup_lt_Some in Hx. lia.
  - intros i. rewrite Hsplit, elem_of_app, IHi. destruct (p a); set_solver.
Qed.

Lemma filter_fmap_NoDup {A B} (f : A -> B) (P : A -> Prop) `{∀ x, Decision (P x)} (l : list A) :
  NoDup (f <$> l) → NoDup (f <$> filter P l).
Proof.
  induction l as [|a l IH]; [done|]. rewrite fmap_cons, NoDup_cons. intros [Ha Hl].
  rewrite filter_cons. case_decide; [|by apply IH]. rewrite fmap_cons, NoDup_cons. split; [|by apply IH].
  intros (b & Heq & [_ Hb]%list_elem_of_filter)%list_elem_of_fmap. apply Ha.
  rewrite Heq. by apply list_elem_of_fmap_2.
Qed.

(** With distinct keys, the sum at a key is its one element's. *)
Lemma sum_at_key {A} (key : A -> string) (f : A -> Z) (l : list A) a :
  NoDup (key <$> l) → a ∈ l → sum_of (fun x => if decide (key x = key a) then f x else 0) l = f a.
Proof.
  induction l as [|x l IH]; [set_solver|]. rewrite fmap_cons, NoDup_cons, elem_of_cons.
  intros [Hx Hl] Ha. rewrite sum_of_cons. destruct (decide (key x = key a)) as [Heq|Hne].
  - rewrite sum_of_zero.
    + destruct Ha as [->|Ha]; [lia|]. exfalso. apply Hx. rewrite Heq. by apply list_elem_of_fmap_2.
    + intros y Hy. rewrite decide_False; [done|]. intros Hya. apply Hx. rewrite Heq, <- Hya.
      by apply list_elem_of_fmap_2.
  - destruct Ha as [->|Ha]; [done|]. rewrite IH by done. lia.
Qed.

Lemma match_nonempty {A B} (l : list A) (x y : B) :
  l ≠ [] → match l with [] => x | _ :: _ => y end = y.
Proof. by destruct l. Qed.

Lemma imap_pair_snd {A} (l : list A) : (imap pair l).*2 = l.
Proof. apply list_eq. intros i. rewrite list_lookup_fmap, list_lookup_imap. by destruct (l !! i). Qed.

Lemma sum_of_filter {A} (f : A -> Z) (P : A -> Prop) `{∀ x, Decision (P x)} (l : list A) :
  sum_of f (filter P l) = sum_of (fun x => if decide (P x) then f x else 0) l.
Proof.
  induction l as [|x l IH]; [done|]. rewrite filter_cons, sum_of_cons, <- IH.
  case_decide; [by rewrite sum_of_cons|lia].
Qed.
