(* ===== verification/Order.v ===== *)
(** Total orders as Rust's [Ord]/[sort_by] uses them: comparators returning
    [comparison], their combinators ([then_with], [Reverse], sort keys), the
    stable [sort_by], and [BTreeMap] as a key-sorted association list. *)
From Stdlib Require Import ZArith Lia Sorting.Sorted.
From Stdlib Require String.
From stdpp Require Import base list strings gmap sorting.
From S2P Require Import Prelude.

Open Scope Z_scope.

(** * Comparators *)
Class CmpOrder {A} (cmp : A -> A -> comparison) : Prop := {
  cmp_refl x : cmp x x = Eq;
  cmp_antisym x y : cmp y x = CompOpp (cmp x y);
  cmp_trans x y z : cmp x y ≠ Gt → cmp y z ≠ Gt → cmp x z ≠ Gt;
}.

Arguments cmp_refl {A} cmp {_} x.
Arguments cmp_antisym {A} cmp {_} x y.
Arguments cmp_trans {A} cmp {_} x y z.

(** [a] is not after [b]. *)
Definition cmp_le {A} (cmp : A -> A -> comparison) (a b : A) : Prop := cmp a b ≠ Gt.

(** [Ordering::then_with]. *)
Definition then_with (c d : comparison) : comparison :=
  match c with Eq => d | c => c end.
(** The order of a sort key, a reversed order and the derived order on [Option]. *)
Definition cmp_on {A B} (f : A -> B) (cmp : B -> B -> comparison) (x y : A) : comparison :=
  cmp (f x) (f y).
Definition cmp_rev {A} (cmp : A -> A -> comparison) (x y : A) : comparison := cmp y x.
Definition cmp_then {A} (c d : A -> A -> comparison) (x y : A) : comparison :=
  then_with (c x y) (d x y).
Definition cmp_option {A} (cmp : A -> A -> comparison) (x y : option A) : comparison :=
  match x, y with
  | None, None => Eq
  | None, Some _ => Lt
  | Some _, None => Gt
  | Some a, Some b => cmp a b
  end.

Lemma StronglySorted_remove {A} (R : relation A) l1 x l2 :
  StronglySorted R (l1 ++ x :: l2) → StronglySorted R (l1 ++ l2).
Proof.
  induction l1 as [|y l1 IH]; cbn; inversion 1 as [|? ? Hs Hf]; subst; [done|].
  constructor; [by apply IH|]. rewrite Forall_app in *. destruct Hf as [? Hf].
  inversion Hf. done.
Qed.

#[global] Typeclasses Opaque cmp_on cmp_rev cmp_then cmp_option.

Lemma StronglySorted_lookup_2 {A} (R : relation A) l :
  (∀ i j x y, l !! i = Some x → l !! j = Some y → (i < j)%nat → R x y) → StronglySorted R l.
Proof.
  induction l as [|a l IH]; intros Hl; constructor.
  - apply IH. intros i j x y Hx Hy Hij. apply (Hl (S i) (S j)); [done..|lia].
  - apply Forall_lookup. intros j y Hy. apply (Hl 0%nat (S j)); [done..|lia].
Qed.
Lemma StronglySorted_weaken {A} (R R' : relation A) l :
  (∀ a b, a ∈ l → b ∈ l → R a b → R' a b) → StronglySorted R l → StronglySorted R' l.
Proof.
  intros H Hl. induction Hl as [|x l Hl IH Hx]; constructor; [apply IH; set_solver|].
  rewrite Forall_forall in *. intros y Hy. apply H; set_solver.
Qed.

Section cmp_facts.
Context {A} (cmp : A -> A -> comparison) `{!CmpOrder cmp}.

Lemma cmp_le_refl x : cmp_le cmp x x.
Proof. unfold cmp_le. by rewrite (cmp_refl cmp). Qed.

Lemma cmp_gt_lt x y : cmp x y = Gt ↔ cmp y x = Lt.
Proof. rewrite (cmp_antisym cmp x y). destruct (cmp x y); done. Qed.

Lemma cmp_eq_sym x y : cmp x y = Eq → cmp y x = Eq.
Proof. rewrite (cmp_antisym cmp x y). by intros ->. Qed.

Lemma cmp_le_total x y : cmp_le cmp x y ∨ cmp_le cmp y x.
Proof.
  unfold cmp_le. rewrite (cmp_antisym cmp x y). destruct (cmp x y); cbn; auto.
Qed.

Lemma cmp_lt_le_trans x y z : cmp x y = Lt → cmp y z ≠ Gt → cmp x z = Lt.
Proof.
  intros H1 H2. pose proof (cmp_trans cmp x y z ltac:(congruence) H2) as H.
  destruct (cmp x z) eqn:Hxz; [|done..]. exfalso.
  apply cmp_eq_sym in Hxz. pose proof (cmp_trans cmp y z x H2 ltac:(congruence)) as Hyx.
  apply Hyx. rewrite (cmp_antisym cmp x y), H1. done.
Qed.

Lemma cmp_le_lt_trans x y z : cmp x y ≠ Gt → cmp y z = Lt → cmp x z = Lt.
Proof.
  intros H1 H2. pose proof (cmp_trans cmp x y z H1 ltac:(congruence)) as H.
  destruct (cmp x z) eqn:Hxz; [|done..]. exfalso.
  apply cmp_eq_sym in Hxz. pose proof (cmp_trans cmp z x y ltac:(congruence) H1) as Hzy.
  apply Hzy. rewrite (cmp_antisym cmp y z), H2. done.
Qed.

Lemma cmp_lt_trans x y z : cmp x y = Lt → cmp y z = Lt → cmp x z = Lt.
Proof. intros H1 H2. apply (cmp_lt_le_trans x y); congruence. Qed.

Lemma cmp_eq_trans x y z : cmp x y = Eq → cmp y z = Eq → cmp x z = Eq.
Proof.
  intros H1 H2. pose proof (cmp_trans cmp x y z ltac:(congruence) ltac:(congruence)) as H.
  destruct (cmp x z) eqn:Hxz; [done| |done]. exfalso.
  apply cmp_eq_sym in H1, H2.
  apply (cmp_trans cmp z y x ltac:(congruence) ltac:(congruence)).
  rewrite (cmp_antisym cmp x z), Hxz. done.
Qed.

#[export] Instance cmp_le_transitive : Transitive (cmp_le cmp).
Proof. intros x y z. apply (cmp_trans cmp). Qed.
#[export] Instance cmp_le_reflexive : Reflexive (cmp_le cmp).
Proof. intros x. apply cmp_le_refl. Qed.
End cmp_facts.

#[export] Instance cmp_Z : CmpOrder Z.compare.
Proof.
  constructor; [apply Z.compare_refl|intros; apply Z.compare_antisym|].
  intros x y z; rewrite !Z.compare_le_iff; lia.
Qed.

Lemma ascii_compare_N c d : Ascii.compare c d = N.compare (Ascii.N_of_ascii c) (Ascii.N_of_ascii d).
Proof. done. Qed.

#[export] Instance cmp_string : CmpOrder String.compare.
Proof.
  constructor.
  - intros s; induction s as [|c s IH]; [done|].
    cbn. by rewrite ascii_compare_N, N.compare_refl.
  - intros; apply String.compare_antisym.
  - intros x; induction x as [|a x IH]; intros [|b y] [|c z]; try done.
    cbn. rewrite !ascii_compare_N.
    generalize (Ascii.N_of_ascii a) (Ascii.N_of_ascii b) (Ascii.N_of_ascii c).
    intros i j k. specialize (IH y z).
    destruct (N.compare_spec i j), (N.compare_spec j k), (N.compare_spec i k);
      subst; try done; try (exfalso; lia); auto.
Qed.

#[export] Instance cmp_on_order {A B} (f : A -> B) (cmp : B -> B -> comparison) :
  CmpOrder cmp → CmpOrder (cmp_on f cmp).
Proof.
  intros []. constructor; unfold cmp_on; intros; [done|auto|].
  eapply cmp_trans0; eassumption.
Qed.

#[export] Instance cmp_rev_order {A} (cmp : A -> A -> comparison) :
  CmpOrder cmp → CmpOrder (cmp_rev cmp).
Proof.
  intros []. constructor; unfold cmp_rev; intros; [done|auto|].
  eapply cmp_trans0; eassumption.
Qed.

#[export] Instance cmp_then_order {A} (c d : A -> A -> comparison) :
  CmpOrder c → CmpOrder d → CmpOrder (cmp_then c d).
Proof.
  intros Hc Hd. constructor; unfold cmp_then, then_with.
  - intros x. by rewrite (cmp_refl c), (cmp_refl d).
  - intros x y. rewrite (cmp_antisym c x y).
    destruct (c x y); cbn; [apply (cmp_antisym d)|done..].
  - intros x y z H1 H2.
    destruct (c x y) eqn:Hxy, (c y z) eqn:Hyz; try done.
    + rewrite (cmp_eq_trans c x y z) by done. eapply (cmp_trans d); eassumption.
    + rewrite (cmp_le_lt_trans c x y z) by congruence. done.
    + rewrite (cmp_lt_le_trans c x y z) by congruence. done.
    + rewrite (cmp_lt_trans c x y z) by congruence. done.
Qed.

#[export] Instance cmp_option_order {A} (cmp : A -> A -> comparison) :
  CmpOrder cmp → CmpOrder (cmp_option cmp).
Proof.
  intros []. constructor.
  - intros []; cbn; auto.
  - intros [] []; cbn; auto.
  - intros [x|] [y|] [z|]; cbn; try done. eapply cmp_trans0.
Qed.

(** * [slice::sort_by]

    Insertion from the back: an element goes before the ones it is equal to,
    which is the stable order Rust's [sort_by] guarantees. *)
Fixpoint insert_by {A} (cmp : A -> A -> comparison) (x : A) (l : list A) : list A :=
  match l with
  | [] => [x]
  | y :: l' => match cmp x y with Gt => y :: insert_by cmp x l' | _ => x :: l end
  end.
Definition sort_by {A} (cmp : A -> A -> comparison) (l : list A) : list A :=
  foldr (insert_by cmp) [] l.
Arguments sort_by : simpl never.

Section sort_by.
Context {A : Type} (cmp : A -> A -> comparison).

Lemma insert_by_perm x l : insert_by cmp x l ≡ₚ x :: l.
Proof.
  induction l as [|y l IH]; [done|]. cbn. destruct (cmp x y); [done..|].
  rewrite IH. apply Permutation_swap.
Qed.

Lemma sort_by_cons x l : sort_by cmp (x :: l) = insert_by cmp x (sort_by cmp l).
Proof. done. Qed.

Lemma sort_by_perm l : sort_by cmp l ≡ₚ l.
Proof. induction l as [|x l IH]; [done|]. by rewrite sort_by_cons, insert_by_perm, IH. Qed.

Lemma sort_by_length l : length (sort_by cmp l) = length l.
Proof. apply Permutation_length, sort_by_perm. Qed.

Lemma elem_of_sort_by x l : x ∈ sort_by cmp l ↔ x ∈ l.
Proof. by rewrite sort_by_perm. Qed.

Lemma sort_by_Forall P l : Forall P (sort_by cmp l) ↔ Forall P l.
Proof. by rewrite sort_by_perm. Qed.

Context `{!CmpOrder cmp}.

Lemma insert_by_sorted x l :
  StronglySorted (cmp_le cmp) l → StronglySorted (cmp_le cmp) (insert_by cmp x l).
Proof.
  induction 1 as [|y l Hl IH Hy]; cbn; [repeat constructor|].
  assert (cmp x y ≠ Gt → Forall (cmp_le cmp x) (y :: l)) as Hle.
  { intros Hxy. constructor; [done|]. eapply Forall_impl; [exact Hy|].
    intros z Hz. eapply (cmp_trans cmp); eassumption. }
  destruct (cmp x y) eqn:Hxy; constructor; auto; try by constructor.
  rewrite insert_by_perm. constructor; [|done].
  unfold cmp_le. apply (cmp_gt_lt cmp) in Hxy. congruence.
Qed.

Lemma sort_by_sorted l : StronglySorted (cmp_le cmp) (sort_by cmp l).
Proof. induction l; [constructor|]. rewrite sort_by_cons. by apply insert_by_sorted. Qed.

Lemma sort_by_id l : StronglySorted (cmp_le cmp) l → sort_by cmp l = l.
Proof.
  induction 1 as [|x l Hl IH Hx]; [done|]. rewrite sort_by_cons, IH.
  destruct l as [|y l]; [done|]. cbn.
  apply Forall_cons in Hx as [Hx _]. unfold cmp_le in Hx.
  by destruct (cmp x y).
Qed.

(** Two sorted arrangements of the same elements agree when the order
    separates the elements. *)
Lemma sorted_perm_eq l1 l2 :
  (∀ x y, x ∈ l1 → y ∈ l1 → cmp x y = Eq → x = y) →
  StronglySorted (cmp_le cmp) l1 → StronglySorted (cmp_le cmp) l2 →
  l1 ≡ₚ l2 → l1 = l2.
Proof.
  intros Hsep H1 H2 Hp. apply (StronglySorted_unique_strong (cmp_le cmp)); try done.
  intros x y Hx Hy Hxy Hyx. apply Hsep; [done|by rewrite Hp|].
  unfold cmp_le in *. rewrite (cmp_antisym cmp x y) in Hyx.
  by destruct (cmp x y).
Qed.

Lemma sort_by_perm_eq l1 l2 :
  (∀ x y, x ∈ l1 → y ∈ l1 → cmp x y = Eq → x = y) →
  l1 ≡ₚ l2 → sort_by cmp l1 = sort_by cmp l2.
Proof.
  intros Hsep Hp. apply sorted_perm_eq; auto using sort_by_sorted.
  - intros x y. rewrite !elem_of_sort_by. apply Hsep.
  - by rewrite !sort_by_perm.
Qed.

(** Stability: elements the order identifies keep their relative order. *)
Lemma insert_by_stable x z l :
  StronglySorted (cmp_le cmp) l →
  filter (fun y => cmp z y = Eq) (insert_by cmp x l) =
  filter (fun y => cmp z y = Eq) (x :: l).
Proof.
  induction 1 as [|y l Hl IH Hy]; [done|]. cbn [insert_by].
  destruct (cmp x y) eqn:Hxy; [done..|].
  rewrite filter_cons, IH, !filter_cons.
  destruct (decide (cmp z x = Eq)) as [Hzx|], (decide (cmp z y = Eq)) as [Hzy|]; try done.
  exfalso. apply (cmp_eq_sym cmp) in Hzx. pose proof (cmp_eq_trans cmp x z y Hzx Hzy). congruence.
Qed.

Lemma sort_by_stable z l :
  filter (fun y => cmp z y = Eq) (sort_by cmp l) = filter (fun y => cmp z y = Eq) l.
Proof.
  induction l as [|x l IH]; [done|].
  rewrite sort_by_cons, insert_by_stable by apply sort_by_sorted.
  rewrite !filter_cons, IH. done.
Qed.
End sort_by.
