(* ===== verification/BTree.v ===== *)
(** [BTreeMap] as the association list its iterators yield: keys strictly
    increasing.  Sets are maps to [unit] or, where only membership matters,
    stdpp's [gset]. *)
From Stdlib Require Import ZArith Lia Sorting.Sorted.
From stdpp Require Import base list strings gmap sorting.
From S2P Require Import Prelude Order.

Open Scope Z_scope.

(** The order separates keys: [Ord] agrees with [Eq]. *)
Class CmpEq {A} (cmp : A -> A -> comparison) : Prop :=
  cmp_eq x y : cmp x y = Eq → x = y.

#[export] Instance cmp_eq_string : CmpEq String.compare.
Proof. intros x y. apply String.compare_eq_iff. Qed.
#[export] Instance cmp_eq_Z : CmpEq Z.compare.
Proof. intros x y. apply Z.compare_eq. Qed.

(** The derived order on tuples. *)
Definition cmp_pair {A B} (c : A -> A -> comparison) (d : B -> B -> comparison)
  : A * B -> A * B -> comparison := cmp_then (cmp_on fst c) (cmp_on snd d).

#[global] Typeclasses Opaque cmp_pair.

#[export] Instance cmp_pair_order {A B} (c : A -> A -> comparison) (d : B -> B -> comparison) :
  CmpOrder c → CmpOrder d → CmpOrder (cmp_pair c d).
Proof. intros. unfold cmp_pair. apply _. Qed.
#[export] Instance cmp_eq_pair {A B} (c : A -> A -> comparison) (d : B -> B -> comparison) :
  CmpEq c → CmpEq d → CmpEq (cmp_pair c d).
Proof.
  intros Hc Hd [x1 x2] [y1 y2]. unfold cmp_pair, cmp_then, cmp_on, then_with; cbn.
  destruct (c x1 y1) eqn:H; try done. intros. f_equal; auto.
Qed.

Section btree.
Context {K V : Type} (cmp : K -> K -> comparison).

Fixpoint bt_get (k : K) (m : list (K * V)) : option V :=
  match m with
  | [] => None
  | (k', v) :: m => match cmp k k' with Eq => Some v | _ => bt_get k m end
  end.
Fixpoint bt_insert (k : K) (v : V) (m : list (K * V)) : list (K * V) :=
  match m with
  | [] => [(k, v)]
  | (k', v') :: m' =>
      match cmp k k' with
      | Lt => (k, v) :: m
      | Eq => (k, v) :: m'
      | Gt => (k', v') :: bt_insert k v m'
      end
  end.

Definition key_lt (a b : K * V) : Prop := cmp a.1 b.1 = Lt.
Definition bt_wf (m : list (K * V)) : Prop := StronglySorted key_lt m.

Context `{!CmpOrder cmp, !CmpEq cmp}.

Lemma bt_get_insert_eq k v m : bt_get k (bt_insert k v m) = Some v.
Proof.
  induction m as [|[k' v'] m IH]; cbn; [by rewrite (cmp_refl cmp)|].
  destruct (cmp k k') eqn:H; cbn; rewrite ?(cmp_refl cmp), ?H; done.
Qed.

Lemma bt_get_insert_ne k k' v m : k ≠ k' → bt_get k' (bt_insert k v m) = bt_get k' m.
Proof.
  intros Hne. assert (cmp k' k ≠ Eq) as Hc by (intros Heq%cmp_eq; done).
  induction m as [|[k2 v2] m IH]; cbn; [by destruct (cmp k' k)|].
  destruct (cmp k k2) eqn:H; cbn.
  - apply cmp_eq in H as ->. by destruct (cmp k' k2).
  - by destruct (cmp k' k).
  - by rewrite IH.
Qed.

Lemma bt_get_cons_eq k v m : bt_get k ((k, v) :: m) = Some v.
Proof. cbn. by rewrite (cmp_refl cmp). Qed.
Lemma bt_get_cons_ne k k' v m : k ≠ k' → bt_get k ((k', v) :: m) = bt_get k m.
Proof. intros Hne. cbn. destruct (cmp k k') eqn:H; [by apply cmp_eq in H|done..]. Qed.

Lemma bt_insert_keys k v m k' : k' ∈ (bt_insert k v m).*1 ↔ k' = k ∨ k' ∈ m.*1.
Proof.
  induction m as [|[k2 v2] m IH]; cbn; [set_solver|].
  destruct (cmp k k2) eqn:H; cbn; rewrite ?elem_of_cons.
  - apply cmp_eq in H as ->. set_solver.
  - done.
  - rewrite IH. set_solver.
Qed.

Lemma bt_insert_wf k v m : bt_wf m → bt_wf (bt_insert k v m).
Proof.
  unfold bt_wf. induction 1 as [|[k' v'] m Hm IH Hk]; cbn; [repeat constructor|].
  destruct (cmp k k') eqn:H; constructor.
  - done.
  - apply cmp_eq in H as ->. done.
  - by constructor.
  - constructor; [done|]. eapply Forall_impl; [exact Hk|].
    intros [k2 v2]. unfold key_lt; cbn. by apply (cmp_lt_trans cmp).
  - done.
  - apply Forall_forall. intros [k2 v2] Hin. unfold key_lt; cbn.
    assert (k2 ∈ (bt_insert k v m).*1) as [->|Hk2]%bt_insert_keys.
    { apply list_elem_of_fmap. by exists (k2, v2). }
    + by apply (cmp_gt_lt cmp).
    + apply list_elem_of_fmap in Hk2 as ([k3 v3] & -> & Hin3).
      rewrite Forall_forall in Hk. by apply (Hk (k3, v3)).
Qed.

Lemma bt_get_None k m : bt_get k m = None ↔ k ∉ m.*1.
Proof.
  induction m as [|[k' v] m IH]; cbn; [set_solver|].
  destruct (cmp k k') eqn:H.
  - apply cmp_eq in H as ->. set_solver.
  - rewrite IH, not_elem_of_cons. split; [|naive_solver]. intros Hm. split; [|done].
    intros ->. rewrite (cmp_refl cmp) in H. done.
  - rewrite IH, not_elem_of_cons. split; [|naive_solver]. intros Hm. split; [|done].
    intros ->. rewrite (cmp_refl cmp) in H. done.
Qed.

Lemma bt_wf_NoDup m : bt_wf m → NoDup m.*1.
Proof.
  unfold bt_wf. induction 1 as [|[k v] m Hm IH Hk]; cbn; constructor; [|done].
  intros ([k' v'] & Heq & Hin)%list_elem_of_fmap. cbn in Heq; subst.
  rewrite Forall_forall in Hk. specialize (Hk _ Hin). unfold key_lt in Hk; cbn in Hk.
  by rewrite (cmp_refl cmp) in Hk.
Qed.

Lemma bt_get_elem k v m : bt_wf m → bt_get k m = Some v ↔ (k, v) ∈ m.
Proof.
  intros Hwf%bt_wf_NoDup. induction m as [|[k' v'] m IH]; cbn; [set_solver|].
  apply NoDup_cons in Hwf as [Hk' Hm]. specialize (IH Hm). cbn in *.
  rewrite elem_of_cons. destruct (cmp k k') eqn:H.
  - apply cmp_eq in H as ->. split; [intros [= ->]; by left|].
    intros [[= ->]|Hin]; [done|]. exfalso. apply Hk'.
    apply list_elem_of_fmap. by exists (k', v).
  - rewrite IH. split; [by right|]. intros [[= -> ->]|?]; [|done].
    by rewrite (cmp_refl cmp) in H.
  - rewrite IH. split; [by right|]. intros [[= -> ->]|?]; [|done].
    by rewrite (cmp_refl cmp) in H.
Qed.

(** Two well-formed maps with the same lookups are the same list. *)
Lemma bt_ext m1 m2 :
  bt_wf m1 → bt_wf m2 → (∀ k, bt_get k m1 = bt_get k m2) → m1 = m2.
Proof.
  intros H1 H2 Hget.
  apply (sorted_perm_eq (cmp_on fst cmp)).
  - intros [k1 v1] [k2 v2] Hin1 Hin2 Heq. unfold cmp_on in Heq; cbn in Heq.
    apply cmp_eq in Heq as ->. apply bt_get_elem in Hin1, Hin2; congruence.
  - eapply StronglySorted_weaken; [|exact H1]. intros a b _ _ Hab.
    unfold cmp_le, cmp_on. unfold key_lt in Hab. congruence.
  - eapply StronglySorted_weaken; [|exact H2]. intros a b _ _ Hab.
    unfold cmp_le, cmp_on. unfold key_lt in Hab. congruence.
  - apply NoDup_Permutation; [by eapply NoDup_fmap_1, bt_wf_NoDup..|].
    intros [k v]. rewrite <- !bt_get_elem by done. by rewrite Hget.
Qed.

(** Replacing a value changes a sum over the values by the difference. *)
Lemma bt_insert_sum (f : V -> Z) k v m :
  bt_wf m →
  sum_of f (bt_insert k v m).*2 = sum_of f m.*2 - from_option f 0 (bt_get k m) + f v.
Proof.
  intros Hwf. induction m as [|[k' v'] m IH]; cbn.
  - rewrite sum_of_cons, sum_of_nil. lia.
  - inversion Hwf as [|?? Hm Hk]; subst.
    destruct (cmp k k') eqn:H; cbn [fmap list_fmap snd fst]; rewrite ?sum_of_cons; cbn.
    + lia.
    + assert (bt_get k m = None) as ->; [|cbn; lia].
      apply bt_get_None. intros ([k2 v2] & -> & Hin)%list_elem_of_fmap.
      rewrite Forall_forall in Hk. specialize (Hk _ Hin). unfold key_lt in Hk; cbn in *.
      apply (cmp_gt_lt cmp) in Hk. congruence.
    + rewrite IH by done. lia.
Qed.

Lemma bt_sum_key `{EqDecision K} (f : V -> Z) k m :
  bt_wf m →
  sum_of (fun kv => if decide (kv.1 = k) then f kv.2 else 0) m = from_option f 0 (bt_get k m).
Proof.
  induction m as [|[k' v] m IH]; intros Hw; [done|]. rewrite sum_of_cons. cbn.
  inversion Hw as [|? ? Hm Hlt]; subst. rewrite IH by done. rewrite Forall_forall in Hlt.
  destruct (decide (k' = k)) as [->|Hne].
  - rewrite (cmp_refl cmp). cbn. assert (bt_get k m = None) as ->; [|cbn; lia].
    apply bt_get_None. intros ([k2 v2] & Hk & Hin)%list_elem_of_fmap. cbn in Hk. subst k2.
    specialize (Hlt _ Hin). unfold key_lt in Hlt. cbn in Hlt. by rewrite (cmp_refl cmp) in Hlt.
  - destruct (cmp k k') eqn:Hc; [|lia..]. apply cmp_eq in Hc. congruence.
Qed.

Lemma bt_insert_Forall (P : V -> Prop) k v m :
  P v → Forall P m.*2 → Forall P (bt_insert k v m).*2.
Proof.
  intros Hv. induction m as [|[k' v'] m IH]; cbn; intros Hm; [by constructor|].
  inversion Hm; subst. destruct (cmp k k'); cbn; constructor; auto.
Qed.

Lemma bt_get_Forall (P : V -> Prop) k v m : Forall P m.*2 → bt_get k m = Some v → P v.
Proof.
  induction m as [|[k' v'] m IH]; cbn; [done|]. intros Hm. inversion Hm; subst.
  destruct (cmp k k'); auto. by intros [= <-].
Qed.
End btree.

Arguments bt_get {K V} cmp k m : simpl never.
Arguments bt_insert {K V} cmp k v m : simpl never.
