(* ===== verification/Apportion.v ===== *)
(** Largest-remainder apportionment, the arithmetic three components share:
    the coinbase builder's [allocate_outputs], the payout policy's
    [allocate_weighted_amounts] and the fanout's [allocate_proportional_fee].
    Each computes [T * w / W] per account, then hands the [T - sum] units left
    over to the accounts with the largest [T * w mod W].  This file states
    what such a split is ([apportioned]) and proves the loop's arithmetic once. *)
From Stdlib Require Import ZArith Lia Sorting.Sorted.
From stdpp Require Import base list strings gmap sorting.
From S2P Require Import Prelude Order.

Open Scope Z_scope.

(** * The specification

    [xs] splits [T] over the weights [ws] by largest remainder. *)
Definition quota (T W w : Z) : Z := T * w / W.
Definition remainder (T W w : Z) : Z := T * w mod W.

Record apportioned (T : Z) (ws xs : list Z) : Prop := {
  app_length : length xs = length ws;
  app_total : zsum xs = T;
  app_quota i w x : ws !! i = Some w → xs !! i = Some x →
    x = quota T (zsum ws) w ∨
    x = quota T (zsum ws) w + 1 ∧ 0 < remainder T (zsum ws) w;
  app_fair i j wi xi wj xj :
    ws !! i = Some wi → xs !! i = Some xi → ws !! j = Some wj → xs !! j = Some xj →
    xi = quota T (zsum ws) wi + 1 → xj = quota T (zsum ws) wj →
    remainder T (zsum ws) wj ≤ remainder T (zsum ws) wi;
}.

Section apportioned_facts.
Context (T : Z) (ws xs : list Z).
Hypothesis Hw : Forall (Z.le 0) ws.
Hypothesis HT : 0 ≤ T.
Hypothesis HW : 0 < zsum ws.
Hypothesis Happ : apportioned T ws xs.

Lemma apportioned_bounds i w x :
  ws !! i = Some w → xs !! i = Some x → 0 ≤ x ∧ T * w - zsum ws < x * zsum ws < T * w + zsum ws.
Proof.
  intros Hi Hx. pose proof (app_quota _ _ _ Happ i w x Hi Hx) as Hq.
  assert (0 ≤ w) by (rewrite Forall_forall in Hw; apply Hw; by eapply list_elem_of_lookup_2).
  unfold quota, remainder in Hq.
  pose proof (Z.div_mod (T * w) (zsum ws) ltac:(lia)).
  pose proof (Z.mod_pos_bound (T * w) (zsum ws) ltac:(lia)).
  pose proof (Z.div_pos (T * w) (zsum ws) ltac:(nia) ltac:(lia)).
  destruct Hq as [->|[-> ?]]; split; nia.
Qed.

(** Nobody gets more than their weight when the pot is no larger than the weights. *)
Lemma apportioned_le i w x :
  T ≤ zsum ws → ws !! i = Some w → xs !! i = Some x → x ≤ w.
Proof.
  intros HTW Hi Hx. pose proof (app_quota _ _ _ Happ i w x Hi Hx) as Hq.
  assert (0 ≤ w) by (rewrite Forall_forall in Hw; apply Hw; by eapply list_elem_of_lookup_2).
  unfold quota, remainder in Hq.
  pose proof (Z.div_mod (T * w) (zsum ws) ltac:(lia)).
  pose proof (Z.mod_pos_bound (T * w) (zsum ws) ltac:(lia)).
  destruct Hq as [->|[-> ?]]; nia.
Qed.

(** A pot equal to the total weight is split into exactly the weights. *)
Lemma apportioned_exact : T = zsum ws → xs = ws.
Proof.
  intros ->. apply list_eq_same_length with (length ws);
    [done|apply (app_length _ _ _ Happ)|].
  intros i x w _ Hx Hi. pose proof (app_quota _ _ _ Happ i w x Hi Hx) as Hq.
  unfold quota, remainder in Hq.
  rewrite Z.mul_comm, Z.div_mul, Z.mod_mul in Hq by lia. lia.
Qed.
End apportioned_facts.

(** * Picking the largest remainders *)

(** In a descending list of numbers below [W] whose sum is at least [k * W],
    there are at least [k] of them and the first [k] are positive. *)
Lemma top_positive W k (rs : list Z) :
  0 < W → Forall (fun r => 0 ≤ r < W) rs → StronglySorted (fun a b => b ≤ a) rs →
  Z.of_nat k * W ≤ zsum rs →
  (k ≤ length rs)%nat ∧ Forall (Z.lt 0) (take k rs).
Proof.
  intros HW Hrs Hs. revert k. induction Hs as [|r rs Hs IH Hr]; intros k Hk.
  - assert (k = 0%nat) as -> by (change (zsum []) with 0 in Hk; nia).
    split; [done|constructor].
  - inversion Hrs as [|?? Hr0 Hrs']; subst. destruct k as [|k]; [split; [cbn; lia|constructor]|].
    rewrite zsum_cons in Hk. assert (0 < r).
    { destruct (decide (0 < r)); [done|]. exfalso.
      assert (sum_of id rs = 0) as H0.
      { apply sum_of_zero. intros x Hx. rewrite Forall_forall in Hr, Hrs'.
        specialize (Hr _ Hx). specialize (Hrs' _ Hx). unfold id. cbn in *. lia. }
      unfold sum_of in H0. rewrite list_fmap_id in H0. nia. }
    destruct (IH Hrs' k) as [Hlen Hpos]; [nia|].
    split; [cbn; lia|]. cbn. by constructor.
Qed.

(** * Updating chosen indices in place *)

(** [items[i] = f(items[i])?], for an index the caller believes in range. *)
Definition update_at {E A} (f : A -> result E A) (l : list A) (i : nat) : result E (list A) :=
  x ← expect (l !! i) "index out of bounds"; y ← f x; Ok (<[i := y]> l).

(** The list with the chosen indices changed. *)
Definition changed {A} (g : A -> A) (chosen : list nat) (l : list A) : list A :=
  imap (fun i x => if decide (i ∈ chosen) then g x else x) l.

Section changed.
Context {A : Type} (g : A -> A).

Lemma changed_length chosen l : length (changed g chosen l) = length l.
Proof. apply length_imap. Qed.

Lemma changed_lookup chosen l i x :
  l !! i = Some x →
  changed g chosen l !! i = Some (if decide (i ∈ chosen) then g x else x).
Proof. intros H. unfold changed. by rewrite list_lookup_imap, H. Qed.

Lemma changed_lookup_inv chosen l i y :
  changed g chosen l !! i = Some y →
  ∃ x, l !! i = Some x ∧ y = if decide (i ∈ chosen) then g x else x.
Proof. unfold changed. rewrite list_lookup_imap. destruct (l !! i); naive_solver. Qed.

Lemma changed_fmap {B} (h : A -> B) chosen l :
  (∀ x, h (g x) = h x) → h <$> changed g chosen l = h <$> l.
Proof.
  intros Hh. apply list_eq. intros i. rewrite !list_lookup_fmap. unfold changed.
  rewrite list_lookup_imap. destruct (l !! i); [|done]. cbn. by case_decide; rewrite ?Hh.
Qed.

Lemma changed_insert i chosen l x :
  i ∉ chosen → l !! i = Some x →
  changed g chosen (<[i := g x]> l) = changed g (i :: chosen) l.
Proof.
  intros Hi Hx. apply list_eq. intros j. unfold changed. rewrite !list_lookup_imap.
  pose proof (lookup_lt_Some _ _ _ Hx). destruct (decide (i = j)) as [->|Hne].
  - rewrite list_lookup_insert_eq, Hx by done. cbn.
    rewrite decide_False, decide_True by set_solver. done.
  - rewrite list_lookup_insert_ne by done. destruct (l !! j); [cbn|done].
    f_equal. repeat case_decide; set_solver.
Qed.

Lemma update_all {E} (f : A -> result E A) chosen l :
  NoDup chosen →
  (∀ i, i ∈ chosen → ∃ x, l !! i = Some x ∧ f x = Ok (g x)) →
  try_fold (update_at f) l chosen = Ok (changed g chosen l).
Proof.
  intros Hnd. revert l. induction Hnd as [|i chosen Hi Hnd IH]; intros l H.
  - cbn. f_equal. apply list_eq. intros j. unfold changed. rewrite list_lookup_imap.
    destruct (l !! j); done.
  - destruct (H i) as (x & Hx & Hf); [set_solver|]. cbn [try_fold].
    assert (update_at f l i = Ok (<[i := g x]> l)) as ->.
    { unfold update_at. rewrite Hx. cbn. by rewrite Hf. }
    cbn [mbind result_bind]. rewrite IH.
    + f_equal. by apply changed_insert.
    + intros j Hj. destruct (H j) as (y & Hy & Hfy); [set_solver|].
      exists y. split; [|done]. rewrite list_lookup_insert_ne; [done|set_solver].
Qed.

Lemma changed_sum (f : A -> Z) chosen l :
  NoDup chosen → (∀ i, i ∈ chosen → (i < length l)%nat) →
  (∀ x, f (g x) = f x + 1) →
  sum_of f (changed g chosen l) = sum_of f l + Z.of_nat (length chosen).
Proof.
  intros Hnd Hlt Hf. revert l Hlt. induction Hnd as [|i chosen Hi Hnd IH]; intros l Hlt.
  - assert (changed g [] l = l) as ->; [|cbn; lia].
    apply list_eq. intros j. unfold changed. rewrite list_lookup_imap.
    destruct (l !! j); done.
  - destruct (lookup_lt_is_Some_2 l i) as [x Hx]; [apply Hlt; set_solver|].
    rewrite <- (changed_insert i chosen l x) by done. rewrite IH.
    + assert (sum_of f (<[i:=g x]> l) = sum_of f l + 1) as ->; [|cbn; lia].
      rewrite insert_take_drop by (by eapply lookup_lt_Some).
      rewrite <- (take_drop_middle l i x Hx) at 3.
      rewrite !sum_of_app, !sum_of_cons, Hf. lia.
    + intros j Hj. rewrite length_insert. apply Hlt. set_solver.
Qed.
End changed.

Lemma omap_seq_lookup {A B} (f : A -> B) (l : list A) :
  omap (fun i => f <$> l !! i) (seq 0 (length l)) = f <$> l.
Proof.
  induction l as [|x l IH] using rev_ind; [done|].
  rewrite length_app, seq_app, omap_app, fmap_app. cbn.
  rewrite lookup_app_r, Nat.sub_diag by lia. cbn. f_equal.
  rewrite <- IH. apply list_omap_ext, Forall_Forall2_diag, Forall_forall.
  intros i [_ Hi]%elem_of_seq. by rewrite lookup_app_l by lia.
Qed.

(** * The shared loop

    [items] carry an amount (the floors) and a remainder; [by_remainder] sorts
    indices by descending remainder. *)
Section distribute.
Context {A : Type} (amt rem : A -> Z).
Context (by_remainder : nat -> nat -> comparison) `{!CmpOrder by_remainder}.
Context (items : list A) (T W : Z).

Definition chosen_indices (k : Z) : list nat :=
  take (Z.to_nat k) (sort_by by_remainder (seq 0 (length items))).

Hypothesis HW : 0 < W.
Hypothesis Hrem : ∀ x, x ∈ items → 0 ≤ rem x < W.
Hypothesis Hsum : sum_of amt items * W + sum_of rem items = T * W.
Hypothesis Horder : ∀ i j x y,
  items !! i = Some x → items !! j = Some y → by_remainder i j ≠ Gt → rem y ≤ rem x.

Let k := T - sum_of amt items.

Lemma order_rems :
  omap (fun i => rem <$> items !! i) (sort_by by_remainder (seq 0 (length items)))
  ≡ₚ rem <$> items.
Proof.
  rewrite sort_by_perm. by rewrite omap_seq_lookup.
Qed.

Lemma order_in_range i :
  i ∈ sort_by by_remainder (seq 0 (length items)) ↔ (i < length items)%nat.
Proof. rewrite elem_of_sort_by, elem_of_seq. lia. Qed.

(** The indices in remainder order, with their remainders read off. *)
Lemma order_fmap (d : Z) :
  let order := sort_by by_remainder (seq 0 (length items)) in
  (fun i => from_option rem d (items !! i)) <$> order ≡ₚ rem <$> items.
Proof.
  intros order. rewrite <- order_rems. fold order.
  assert (∀ i, i ∈ order → (i < length items)%nat) as H by (intros i; apply order_in_range).
  clear Horder Hrem Hsum. induction order as [|i order IH]; [done|].
  cbn. destruct (lookup_lt_is_Some_2 items i) as [x ->]; [apply H; set_solver|].
  cbn. rewrite IH; [done|set_solver].
Qed.

Lemma leftover_bounds : 0 ≤ k ∧ k * W = sum_of rem items.
Proof.
  unfold k. assert (0 ≤ sum_of rem items) by (apply sum_of_nonneg; intros; by apply Hrem).
  split; nia.
Qed.

Lemma chosen_spec :
  NoDup (chosen_indices k) ∧ Z.of_nat (length (chosen_indices k)) = k ∧
  (∀ i, i ∈ chosen_indices k → ∃ x, items !! i = Some x ∧ 0 < rem x) ∧
  (∀ i j, i ∈ chosen_indices k → j ∉ chosen_indices k → (j < length items)%nat →
     by_remainder i j ≠ Gt).
Proof.
  destruct leftover_bounds as [Hk HkW].
  pose proof (sort_by_sorted by_remainder (seq 0 (length items))) as Hsorted.
  pose proof (order_fmap 0) as Hperm. cbn zeta in Hperm.
  set (order := sort_by by_remainder (seq 0 (length items))) in *.
  set (r := fun i => from_option rem 0 (items !! i)) in *.
  assert (∀ i, i ∈ order → ∃ x, items !! i = Some x) as Hin.
  { intros i Hi%order_in_range. by apply lookup_lt_is_Some_2. }
  destruct (top_positive W (Z.to_nat k) (r <$> order)) as [Hlen Hpos]; [done|..].
  - apply Forall_fmap, Forall_forall. intros i Hi. destruct (Hin i Hi) as [x Hx].
    unfold r; cbn. rewrite Hx. cbn. apply Hrem. by eapply list_elem_of_lookup_2.
  - apply (StronglySorted_fmap r (fun i j => r j ≤ r i)); [done|].
    eapply StronglySorted_weaken; [|exact Hsorted].
    intros i j Hi Hj Hij. destruct (Hin i Hi) as [x Hx], (Hin j Hj) as [y Hy].
    unfold r. rewrite Hx, Hy. cbn. by eapply Horder.
  - change (zsum (r <$> order)) with (sum_of r order).
    rewrite Z2Nat.id, HkW by done.
    assert (zsum (r <$> order) = zsum (rem <$> items)) as Heq; [|unfold sum_of; lia].
    rewrite <- (list_fmap_id (r <$> order)), <- (list_fmap_id (rem <$> items)).
    by apply (sum_of_perm id).
  - rewrite length_fmap in Hlen. rewrite <- fmap_take, Forall_fmap, Forall_forall in Hpos.
    assert (NoDup order) as Hnd by (unfold order; rewrite sort_by_perm; apply NoDup_seq).
    unfold chosen_indices. fold order. split_and!.
    + rewrite <- (take_drop (Z.to_nat k) order) in Hnd. by apply NoDup_app in Hnd as [? _].
    + rewrite length_take. lia.
    + intros i Hi. destruct (Hin i) as [x Hx]; [by eapply elem_of_take_sub|].
      exists x. split; [done|]. specialize (Hpos i Hi). unfold r in Hpos; cbn in Hpos.
      by rewrite Hx in Hpos.
    + intros i j Hi Hj Hjl. rewrite <- (take_drop (Z.to_nat k) order) in Hsorted.
      eapply (StronglySorted_app_1_elem_of (cmp_le by_remainder)); [exact Hsorted|done|].
      apply order_in_range in Hjl. fold order in Hjl.
      rewrite <- (take_drop (Z.to_nat k) order) in Hjl. set_solver.
Qed.

(** The whole loop: it goes through, adds up to [T] and only rounds up
    accounts with a remainder, larger remainders first. *)
Lemma distribute_spec {E} (f : A -> result E A) (g : A -> A) :
  (∀ x, x ∈ items → 0 < rem x → f x = Ok (g x)) →
  (∀ x, amt (g x) = amt x + 1) →
  try_fold (update_at f) items (chosen_indices k) = Ok (changed g (chosen_indices k) items) ∧
  sum_of amt (changed g (chosen_indices k) items) = T.
Proof.
  intros Hf Hg. destruct chosen_spec as (Hnd & Hlen & Hpos & _). split.
  - apply update_all; [done|]. intros i Hi. destruct (Hpos i Hi) as (x & Hx & Hr).
    exists x. split; [done|]. apply Hf; [|done]. by eapply list_elem_of_lookup_2.
  - rewrite changed_sum; [unfold k in *; lia|done| |done].
    intros i Hi. destruct (Hpos i Hi) as (x & Hx & _). by eapply lookup_lt_Some.
Qed.
End distribute.

(** * The loop meets the specification *)
Section split.
Context {E A : Type} (wt amt rem : A -> Z) (f : A -> result E A) (g : A -> A).
Context (by_remainder : nat -> nat -> comparison) `{!CmpOrder by_remainder}.
Context (items : list A) (T : Z).
Let W := sum_of wt items.

Hypothesis HT : 0 ≤ T.
Hypothesis HW : 0 < W.
Hypothesis Hamt : ∀ x, x ∈ items → amt x = quota T W (wt x).
Hypothesis Hremq : ∀ x, x ∈ items → rem x = remainder T W (wt x).
Hypothesis Horder : ∀ i j x y,
  items !! i = Some x → items !! j = Some y → by_remainder i j ≠ Gt → rem y ≤ rem x.
Hypothesis Hf : ∀ x, x ∈ items → 0 < rem x → f x = Ok (g x).
Hypothesis Hg : ∀ x, amt (g x) = amt x + 1.
Hypothesis Hgw : ∀ x, wt (g x) = wt x.

Let k := T - sum_of amt items.
Let final := changed g (chosen_indices by_remainder items k) items.

Lemma split_rem x : x ∈ items → 0 ≤ rem x < W.
Proof. intros Hx. rewrite Hremq by done. by apply Z.mod_pos_bound. Qed.

Lemma split_sum : sum_of amt items * W + sum_of rem items = T * W.
Proof.
  transitivity (sum_of (fun x => W * amt x + rem x) items).
  { rewrite sum_of_add, sum_of_scale. lia. }
  transitivity (sum_of (fun x => T * wt x) items); [|by rewrite sum_of_scale].
  apply sum_of_ext. intros x Hx. rewrite Hamt, Hremq by done. unfold quota, remainder.
  rewrite <- Z.div_mod by lia. done.
Qed.

Lemma split_leftover : 0 ≤ k.
Proof. apply (leftover_bounds amt rem items T W HW split_rem split_sum). Qed.

Lemma split_loop :
  try_fold (update_at f) items (chosen_indices by_remainder items k) = Ok final ∧
  sum_of amt final = T.
Proof. eapply (distribute_spec amt rem by_remainder items T W); eauto using split_rem, split_sum. Qed.

Lemma split_weights : wt <$> final = wt <$> items.
Proof. by apply changed_fmap. Qed.

Lemma split_apportioned : apportioned T (wt <$> items) (amt <$> final).
Proof.
  destruct (chosen_spec amt rem by_remainder items T W HW split_rem split_sum Horder)
    as (_ & _ & Hpos & Hfair).
  assert (∀ i w x, (wt <$> items) !! i = Some w → (amt <$> final) !! i = Some x →
    ∃ it, items !! i = Some it ∧ w = wt it ∧
          x = (if decide (i ∈ chosen_indices by_remainder items k) then quota T W w + 1
               else quota T W w)) as Hat.
  { intros i w x Hw Hx. rewrite list_lookup_fmap in *.
    apply fmap_Some in Hw as (it & Hit & ->). apply fmap_Some in Hx as (fx & Hfx & ->).
    unfold final in Hfx. rewrite (changed_lookup g _ items i it) in Hfx by done.
    injection Hfx as <-. exists it. split_and!; [done..|].
    assert (it ∈ items) by (by eapply list_elem_of_lookup_2).
    case_decide; rewrite ?Hg, Hamt by done; done. }
  constructor.
  - by rewrite !length_fmap; unfold final; rewrite changed_length.
  - apply split_loop.
  - intros i w x Hw Hx. destruct (Hat i w x Hw Hx) as (it & Hit & -> & ->). fold W.
    case_decide as Hin; [right|by left]. split; [done|].
    destruct (Hpos i Hin) as (y & Hy & Hr). simplify_eq.
    rewrite <- Hremq; [done|by eapply list_elem_of_lookup_2].
  - intros i j wi xi wj xj Hwi Hxi Hwj Hxj Hi Hj.
    destruct (Hat i wi xi Hwi Hxi) as (a & Ha & -> & ->).
    destruct (Hat j wj xj Hwj Hxj) as (b & Hb & -> & ->).
    change (zsum (wt <$> items)) with W in *.
    rewrite <- !Hremq by (by eapply list_elem_of_lookup_2).
    repeat case_decide; try lia.
    apply (Horder i j); [done..|]. apply Hfair; [done..|]. by eapply lookup_lt_Some.
Qed.
End split.

(** * The loop over a list already in remainder order

    [allocate_proportional_fee] sorts the items themselves and rounds up a
    prefix. *)
#[export] Instance cmp_nat : CmpOrder Nat.compare.
Proof.
  constructor.
  - apply Nat.compare_refl.
  - intros x y. apply Nat.compare_antisym.
  - intros x y z. rewrite !Nat.compare_le_iff. lia.
Qed.

Lemma changed_prefix {A} (g : A -> A) k (l : list A) :
  changed g (take k (seq 0 (length l))) l = (g <$> take k l) ++ drop k l.
Proof.
  apply list_eq. intros i. unfold changed. rewrite list_lookup_imap, take_seq.
  destruct (decide (i < k)%nat) as [Hlt|Hge].
  - destruct (l !! i) as [x|] eqn:Hx.
    + pose proof (lookup_lt_Some _ _ _ Hx). cbn.
      rewrite decide_True by (apply elem_of_seq; lia).
      rewrite lookup_app_l by (rewrite length_fmap, length_take; lia).
      by rewrite list_lookup_fmap, lookup_take_lt, Hx.
    + apply lookup_ge_None in Hx. cbn. symmetry. apply lookup_ge_None.
      rewrite length_app, length_fmap, length_take, length_drop. lia.
  - destruct (l !! i) as [x|] eqn:Hx; cbn.
    + pose proof (lookup_lt_Some _ _ _ Hx).
      rewrite decide_False by (rewrite elem_of_seq; lia).
      rewrite lookup_app_r by (rewrite length_fmap, length_take; lia).
      rewrite length_fmap, length_take, lookup_drop. rewrite <- Hx. f_equal. lia.
    + apply lookup_ge_None in Hx. symmetry. apply lookup_ge_None.
      rewrite length_app, length_fmap, length_take, length_drop. lia.
Qed.

Section split_sorted.
Context {E A : Type} (wt amt rem : A -> Z) (f : A -> result E A) (g : A -> A).
Context (items : list A) (T : Z).
Let W := sum_of wt items.

Hypothesis HW : 0 < W.
Hypothesis Hamt : ∀ x, x ∈ items → amt x = quota T W (wt x).
Hypothesis Hremq : ∀ x, x ∈ items → rem x = remainder T W (wt x).
Hypothesis Hsorted : StronglySorted (fun x y => rem y ≤ rem x) items.
Hypothesis Hf : ∀ x, x ∈ items → 0 < rem x → f x = Ok (g x).
Hypothesis Hg : ∀ x, amt (g x) = amt x + 1.
Let k := T - sum_of amt items.

Lemma sorted_order i j x y :
  items !! i = Some x → items !! j = Some y → Nat.compare i j ≠ Gt → rem y ≤ rem x.
Proof.
  intros Hx Hy Hij. apply Nat.compare_le_iff in Hij. destruct (decide (i = j)) as [->|Hne]; [simplify_eq; lia|].
  rewrite <- (take_drop_middle items i x Hx) in Hsorted.
  eapply (StronglySorted_app_1_elem_of (fun x y => rem y ≤ rem x) (take i items ++ [x]) (drop (S i) items)).
  - by rewrite <- app_assoc.
  - set_solver.
  - apply (list_elem_of_lookup_2 _ (j - S i)). rewrite lookup_drop. by replace (S i + (j - S i))%nat with j by lia.
Qed.

Lemma sorted_chosen : chosen_indices Nat.compare items k = take (Z.to_nat k) (seq 0 (length items)).
Proof.
  unfold chosen_indices. f_equal. apply (sort_by_id Nat.compare). clear.
  generalize 0%nat. induction (length items) as [|n IH]; intros s; [constructor|]. cbn. constructor; [apply IH|].
  apply Forall_forall. intros y Hy%elem_of_seq. unfold cmp_le. apply Nat.compare_le_iff. lia.
Qed.

Lemma split_sorted :
  0 ≤ k ∧ collect f (take (Z.to_nat k) items) = Ok (g <$> take (Z.to_nat k) items) ∧
  apportioned T (wt <$> items) (amt <$> ((g <$> take (Z.to_nat k) items) ++ drop (Z.to_nat k) items)).
Proof.
  pose proof sorted_order as Hord.
  split_and!.
  - by apply (split_leftover wt amt rem items T).
  - apply collect_fmap. intros x Hx.
    apply list_elem_of_lookup in Hx as (i & Hi). apply lookup_take_Some in Hi as [Hi Hlt].
    apply Hf; [by eapply list_elem_of_lookup_2|].
    destruct (chosen_spec amt rem Nat.compare items T W HW (split_rem wt rem items T HW Hremq)
      (split_sum wt amt rem items T HW Hamt Hremq) Hord) as (_ & _ & Hpos & _).
    fold k in Hpos. rewrite sorted_chosen in Hpos. destruct (Hpos i) as (y & Hy & Hr); [|simplify_eq; done].
    rewrite take_seq. apply elem_of_seq. apply lookup_lt_Some in Hi. lia.
  - rewrite <- (changed_prefix g), <- sorted_chosen.
    by apply (split_apportioned wt amt rem f g Nat.compare items T HW Hamt Hremq Hord Hf Hg).
Qed.
End split_sorted.

(** The specification does not depend on the order the pairs are listed in. *)
Lemma apportioned_perm {A} (w x : A -> Z) T (l l' : list A) :
  l ≡ₚ l' → apportioned T (w <$> l) (x <$> l) → apportioned T (w <$> l') (x <$> l').
Proof.
  intros Hp [Hl Ht Hq Hfair].
  assert (zsum (w <$> l') = zsum (w <$> l)) as Hw by (symmetry; by apply (sum_of_perm w)).
  assert (∀ i a b, (w <$> l') !! i = Some a → (x <$> l') !! i = Some b →
    ∃ j, (w <$> l) !! j = Some a ∧ (x <$> l) !! j = Some b) as Hat.
  { intros i a b Ha Hb. rewrite list_lookup_fmap in Ha, Hb.
    apply fmap_Some in Ha as (e & He & ->). rewrite He in Hb. injection Hb as <-.
    apply list_elem_of_lookup_2 in He. rewrite <- Hp in He. apply list_elem_of_lookup in He as (j & Hj).
    exists j. by rewrite !list_lookup_fmap, Hj. }
  constructor.
  - by rewrite !length_fmap.
  - rewrite <- Ht. symmetry. by apply (sum_of_perm x).
  - intros i a b Ha Hb. rewrite Hw. destruct (Hat i a b Ha Hb) as (j & ? & ?). by eapply Hq.
  - intros i j a b a' b' Ha Hb Ha' Hb'. rewrite Hw.
    destruct (Hat i a b Ha Hb) as (i' & ? & ?), (Hat j a' b' Ha' Hb') as (j' & ? & ?). by eapply Hfair.
Qed.
