(* ===== verification/Bytes.v ===== *)
(** Bytes and text as the source handles them, and the interfaces of the
    third-party crates it calls ([hex], [sha2], [serde_json],
    [ed25519_dalek]).  Those crates are not part of the repository: their
    operations are class members and the documented behaviour the code relies
    on is stated as laws. *)
From Stdlib Require Import ZArith Lia.
From Stdlib Require Ascii String.
From coqutil Require Import Byte Word.LittleEndianList.
From stdpp Require Import base list strings.
From S2P Require Import Prelude Order BTree.

Open Scope Z_scope.

#[export] Instance byte_eq_dec : EqDecision byte := Byte.byte_eq_dec.

(** [to_le_bytes] and [to_be_bytes] of an n-byte integer (two's complement for
    the signed ones). *)
Definition le_bytes (n : nat) (z : Z) : list byte := le_split n z.
Definition be_bytes (n : nat) (z : Z) : list byte := reverse (le_bytes n z).

Lemma le_bytes_length n z : length (le_bytes n z) = n.
Proof. apply length_le_split. Qed.
Lemma be_bytes_length n z : length (be_bytes n z) = n.
Proof. unfold be_bytes. by rewrite length_reverse, le_bytes_length. Qed.

Lemma le_bytes_inj n a b :
  0 ≤ a < 2 ^ (Z.of_nat n * 8) → 0 ≤ b < 2 ^ (Z.of_nat n * 8) →
  le_bytes n a = le_bytes n b → a = b.
Proof.
  intros Ha Hb H%(f_equal le_combine). unfold le_bytes in H.
  rewrite !le_combine_split, !Z.mod_small in H by done. done.
Qed.

(** Arithmetic forms of the little-endian encodings. *)
Lemma le_combine_cons b bs : le_combine (b :: bs) = byte.unsigned b + 256 * le_combine bs.
Proof.
  change (Z.lor (byte.unsigned b) (Z.shiftl (le_combine bs) 8) = byte.unsigned b + 256 * le_combine bs).
  pose proof (byte.unsigned_range b).
  assert (Z.land (byte.unsigned b) (Z.shiftl (le_combine bs) 8) = 0) as Hland.
  { apply Z.bits_inj'. intros n Hn. rewrite Z.land_spec, Z.shiftl_spec, Z.bits_0 by done.
    destruct (decide (n < 8)).
    - rewrite (Z.testbit_neg_r _ (n - 8)) by lia. apply andb_false_r.
    - rewrite <- (Z.mod_small (byte.unsigned b) (2 ^ 8)) by lia.
      by rewrite Z.mod_pow2_bits_high by lia. }
  rewrite <- (Z.lxor_lor _ _ Hland), <- (Z.add_nocarry_lxor _ _ Hland).
  rewrite Z.shiftl_mul_pow2 by lia. lia.
Qed.

Lemma pow256 n : 2 ^ (8 * Z.of_nat (S n)) = 256 * 2 ^ (8 * Z.of_nat n).
Proof. rewrite Nat2Z.inj_succ, Z.mul_succ_r, Z.pow_add_r by lia. lia. Qed.

Lemma le_combine_snoc bs b :
  le_combine (bs ++ [b]) = le_combine bs + 2 ^ (8 * Z.of_nat (length bs)) * byte.unsigned b.
Proof.
  induction bs as [|a bs IH]; [cbn [app length]; rewrite le_combine_cons, le_combine_nil, Z.mul_0_r, Z.pow_0_r; lia|].
  cbn [app length]. rewrite !le_combine_cons, IH, pow256. lia.
Qed.

Lemma le_combine_le_bytes n z :
  0 ≤ z < 2 ^ (Z.of_nat n * 8) → le_combine (le_bytes n z) = z.
Proof. intros H. unfold le_bytes. rewrite le_combine_split. by apply Z.mod_small. Qed.

Lemma unsigned_of_Z_small z : 0 ≤ z < 256 → byte.unsigned (byte.of_Z z) = z.
Proof. intros H. rewrite byte.unsigned_of_Z. unfold byte.wrap. by apply Z.mod_small. Qed.

Lemma byte_low7 b : Z.land (byte.unsigned b) 0x80 = if 128 <=? byte.unsigned b then 128 else 0.
Proof. by destruct b. Qed.
Lemma byte_set_high b :
  byte.unsigned b < 128 → Z.lor (byte.unsigned b) 0x80 = byte.unsigned b + 128.
Proof. by destruct b. Qed.

(** [str::as_bytes]. *)
Definition str_bytes (s : string) : list byte := String.list_byte_of_string s.

Lemma str_bytes_inj a b : str_bytes a = str_bytes b → a = b.
Proof.
  intros H%(f_equal String.string_of_list_byte). unfold str_bytes in H.
  by rewrite !String.string_of_list_byte_of_string in H.
Qed.

(** Equal encodings of one width denote values equal modulo that width, and
    fixed-width prefixes come off a concatenation. *)
Lemma be_bytes_mod n a b :
  be_bytes n a = be_bytes n b → a mod 2 ^ (Z.of_nat n * 8) = b mod 2 ^ (Z.of_nat n * 8).
Proof.
  intros H%(f_equal (fun l => le_combine (reverse l))). unfold be_bytes, le_bytes in H.
  by rewrite !reverse_involutive, !le_combine_split in H.
Qed.

Lemma be_bytes_app_inv n a b x y :
  be_bytes n a ++ x = be_bytes n b ++ y →
  a mod 2 ^ (Z.of_nat n * 8) = b mod 2 ^ (Z.of_nat n * 8) ∧ x = y.
Proof.
  intros [H ->]%app_inj_1; [|by rewrite !be_bytes_length]. split; [by apply be_bytes_mod|done].
Qed.

Lemma mod_eq_unsigned w a b : 0 ≤ a < w → 0 ≤ b < w → a mod w = b mod w → a = b.
Proof. intros Ha Hb. by rewrite !Z.mod_small. Qed.

Lemma mod_eq_signed w a b :
  0 < w → - w ≤ 2 * a < w → - w ≤ 2 * b < w → a mod w = b mod w → a = b.
Proof.
  intros Hw Ha Hb H. pose proof (Z.div_mod a w ltac:(lia)). pose proof (Z.div_mod b w ltac:(lia)).
  assert (a - b = w * (a / w - b / w)) by lia.
  assert (a / w - b / w = 0) by nia. nia.
Qed.

(** Lexicographic order on slices. *)
Fixpoint cmp_list {A} (cmp : A -> A -> comparison) (x y : list A) : comparison :=
  match x, y with
  | [], [] => Eq
  | [], _ => Lt
  | _, [] => Gt
  | a :: x, b :: y => then_with (cmp a b) (cmp_list cmp x y)
  end.
#[global] Typeclasses Opaque cmp_list.

#[export] Instance cmp_list_order {A} (cmp : A -> A -> comparison) :
  CmpOrder cmp → CmpOrder (cmp_list cmp).
Proof.
  intros Hc. constructor.
  - intros x; induction x as [|a x IH]; [done|]. cbn. by rewrite (cmp_refl cmp).
  - intros x; induction x as [|a x IH]; intros [|b y]; [done..|]. cbn.
    rewrite (cmp_antisym cmp a b), (IH y). by destruct (cmp a b).
  - intros x; induction x as [|a x IH]; intros [|b y] [|c z]; cbn; try done.
    intros H1 H2. destruct (cmp a b) eqn:Hab, (cmp b c) eqn:Hbc; try done; cbn in *.
    + rewrite (cmp_eq_trans cmp a b c) by done. cbn. by eapply IH.
    + by rewrite (cmp_le_lt_trans cmp a b c) by congruence.
    + by rewrite (cmp_lt_le_trans cmp a b c) by congruence.
    + by rewrite (cmp_lt_trans cmp a b c) by congruence.
Qed.

Definition byte_cmp : byte -> byte -> comparison := cmp_on byte.unsigned Z.compare.
Definition bytes_cmp : list byte -> list byte -> comparison := cmp_list byte_cmp.
#[export] Instance bytes_cmp_order : CmpOrder bytes_cmp.
Proof. unfold bytes_cmp, byte_cmp. apply _. Qed.

(** [to_ascii_lowercase] and [eq_ignore_ascii_case]. *)
Definition ascii_lower (c : Ascii.ascii) : Ascii.ascii :=
  let n := Ascii.N_of_ascii c in
  if ((65 <=? n) && (n <=? 90))%N then Ascii.ascii_of_N (n + 32) else c.
Fixpoint to_ascii_lowercase (s : string) : string :=
  match s with
  | EmptyString => EmptyString
  | String c s => String (ascii_lower c) (to_ascii_lowercase s)
  end.
Definition eq_ignore_ascii_case (a b : string) : bool :=
  String.eqb (to_ascii_lowercase a) (to_ascii_lowercase b).

Lemma ascii_lower_idem c : ascii_lower (ascii_lower c) = ascii_lower c.
Proof. by destruct c as [[] [] [] [] [] [] [] []]. Qed.
Lemma to_ascii_lowercase_idem s :
  to_ascii_lowercase (to_ascii_lowercase s) = to_ascii_lowercase s.
Proof. induction s as [|c s IH]; [done|]. cbn. by rewrite ascii_lower_idem, IH. Qed.
Lemma eq_ignore_ascii_case_refl s : eq_ignore_ascii_case s s = true.
Proof. apply String.eqb_refl. Qed.
Lemma eq_ignore_ascii_case_iff a b :
  eq_ignore_ascii_case a b = true ↔ to_ascii_lowercase a = to_ascii_lowercase b.
Proof. apply String.eqb_eq. Qed.

(** * Third-party interfaces

    An error of these crates is carried as its [Display] text. *)
(** Two lower-case digits a byte. *)
Definition hex_digit (n : Z) : Ascii.ascii :=
  Ascii.ascii_of_N (Z.to_N (if n <? 10 then 48 + n else 87 + n)).
Fixpoint encode_hex (bs : list byte) : string :=
  match bs with
  | [] => EmptyString
  | b :: bs =>
      String (hex_digit (byte.unsigned b / 16))
        (String (hex_digit (byte.unsigned b mod 16)) (encode_hex bs))
  end.

Class HexCrate := {
  hex_encode : list byte -> string;
  hex_decode : string -> string + list byte;
}.
(** [hex]: lower-case output, case-insensitive input, two digits a byte. *)
Class HexLaws `{HexCrate} : Prop := {
  hex_encode_digits bs : hex_encode bs = encode_hex bs;
  hex_decode_encode bs : hex_decode (hex_encode bs) = inr bs;
  hex_encode_decode s bs : hex_decode s = inr bs → hex_encode bs = to_ascii_lowercase s;
  hex_decode_lower s bs : hex_decode s = inr bs → hex_decode (to_ascii_lowercase s) = inr bs;
  hex_decode_case s bs : hex_decode (to_ascii_lowercase s) = inr bs → hex_decode s = inr bs;
}.

(** [sha2::Sha256]: 32 bytes out. *)
Class Sha256Crate := { sha256 : list byte -> list byte }.
Class Sha256Laws `{Sha256Crate} : Prop := {
  sha256_length bs : length (sha256 bs) = 32%nat;
}.

(** [ed25519_dalek]: 32-byte keys, 64-byte signatures, signatures verify. *)
Class Ed25519Crate := {
  SigningKey : Type;
  VerifyingKey : Type;
  signing_key_from_bytes : list byte -> SigningKey;
  verifying_key : SigningKey -> VerifyingKey;
  verifying_key_to_bytes : VerifyingKey -> list byte;
  verifying_key_from_bytes : list byte -> option VerifyingKey;
  ed25519_sign : SigningKey -> list byte -> list byte;
  ed25519_verify : VerifyingKey -> list byte -> list byte -> bool;
}.
Class Ed25519Laws `{Ed25519Crate} : Prop := {
  verifying_key_length k : length (verifying_key_to_bytes (verifying_key k)) = 32%nat;
  verifying_key_bytes k :
    verifying_key_from_bytes (verifying_key_to_bytes (verifying_key k)) = Some (verifying_key k);
  ed25519_sign_length k m : length (ed25519_sign k m) = 64%nat;
  ed25519_sign_verify k m : ed25519_verify (verifying_key k) m (ed25519_sign k m) = true;
}.

(** [serde_json::to_vec] of one type: deterministic, and it may fail. *)
Class ToJson (A : Type) := { json_to_vec : A -> string + list byte }.
