(* ===== verification/Crates.v ===== *)
(** Executable instances of the third-party interfaces, for evaluating the
    model on concrete inputs: a hex codec that satisfies [HexLaws] and a
    fixed-length stand-in for SHA-256 that satisfies [Sha256Laws].  The
    theorems never mention them; only the concrete examples do. *)
From Stdlib Require Import ZArith Lia.
From Stdlib Require Ascii String.
From coqutil Require Import Byte.
From stdpp Require Import base list strings gmap.
From S2P Require Import Prelude Order BTree Bytes.

Open Scope Z_scope.

Definition hex_value (c : Ascii.ascii) : option Z :=
  let n := Z.of_N (Ascii.N_of_ascii c) in
  if (48 <=? n) && (n <=? 57) then Some (n - 48)
  else if (97 <=? n) && (n <=? 102) then Some (n - 87)
  else if (65 <=? n) && (n <=? 70) then Some (n - 55)
  else None.

Fixpoint decode_hex (s : string) : option (list byte) :=
  match s with
  | EmptyString => Some []
  | String _ EmptyString => None
  | String c (String d s) =>
      hi ← hex_value c; lo ← hex_value d; bs ← decode_hex s;
      Some (byte.of_Z (16 * hi + lo) :: bs)
  end.

#[export] Instance example_hex : HexCrate := {|
  hex_encode := encode_hex;
  hex_decode s := match decode_hex s with Some bs => inr bs | None => inl "invalid hex" end;
|}.

Lemma hex_value_digit n : 0 ≤ n < 16 → hex_value (hex_digit n) = Some n.
Proof.
  intros Hn. unfold hex_value, hex_digit.
  rewrite Ascii.N_ascii_embedding by (destruct (n <? 10); lia).
  destruct (Z.ltb_spec n 10); rewrite Z2N.id by lia.
  - rewrite !(proj2 (Z.leb_le _ _)) by lia. cbn. f_equal. lia.
  - rewrite (proj2 (Z.leb_gt (87 + n) 57)), andb_false_r by lia.
    rewrite !(proj2 (Z.leb_le _ _)) by lia. cbn. f_equal. lia.
Qed.

Definition hex_value_ok (c : Ascii.ascii) : bool :=
  match hex_value c with
  | None => true
  | Some n =>
      Ascii.eqb (hex_digit n) (ascii_lower c) && (0 <=? n) && (n <? 16) &&
      match hex_value (ascii_lower c) with Some m => m =? n | None => false end
  end.

Lemma hex_value_lower c n :
  hex_value c = Some n → hex_digit n = ascii_lower c ∧ 0 ≤ n < 16 ∧ hex_value (ascii_lower c) = Some n.
Proof.
  assert (hex_value_ok c = true) as Hok by (destruct c as [[] [] [] [] [] [] [] []]; reflexivity).
  unfold hex_value_ok in Hok. intros Hn. rewrite Hn in Hok.
  rewrite !andb_true_iff, Ascii.eqb_eq in Hok.
  destruct (hex_value (ascii_lower c)); destruct_and!; [|done].
  split_and!; [done|lia..|f_equal; lia].
Qed.

Lemma decode_hex_ind (P : string -> Prop) :
  P EmptyString → (∀ c, P (String c EmptyString)) →
  (∀ c d s, P s → P (String c (String d s))) → ∀ s, P s.
Proof.
  intros H0 H1 H2. assert (∀ s, P s ∧ ∀ c, P (String c s)); [|naive_solver].
  induction s as [|d s [IH1 IH2]]; [auto|]. split; [done|]. intros c. by apply H2.
Qed.

Lemma unsigned_of_nibbles hi lo :
  0 ≤ hi < 16 → 0 ≤ lo < 16 → byte.unsigned (byte.of_Z (16 * hi + lo)) = 16 * hi + lo.
Proof. intros. rewrite byte.unsigned_of_Z. unfold byte.wrap. rewrite Z.mod_small; lia. Qed.

Lemma decode_encode_hex bs : decode_hex (encode_hex bs) = Some bs.
Proof.
  induction bs as [|b bs IH]; [done|]. cbn [encode_hex decode_hex].
  pose proof (byte.unsigned_range b).
  rewrite !hex_value_digit
    by first [apply Z.mod_pos_bound; lia
             |split; [apply Z.div_pos|apply Z.div_lt_upper_bound]; lia].
  cbn. rewrite IH. cbn. do 2 f_equal. rewrite <- Z.div_mod by lia. apply byte.of_Z_unsigned.
Qed.

Lemma encode_decode_hex s : ∀ bs, decode_hex s = Some bs →
  encode_hex bs = to_ascii_lowercase s ∧ decode_hex (to_ascii_lowercase s) = Some bs.
Proof.
  induction s as [|c|c d s IH] using decode_hex_ind; intros bs Hbs; [by simplify_eq/=|done|].
  cbn [decode_hex] in Hbs. destruct (hex_value c) as [hi|] eqn:Hc; [|done]. cbn in Hbs.
  destruct (hex_value d) as [lo|] eqn:Hd; [|done]. cbn in Hbs.
  destruct (decode_hex s) as [bs'|] eqn:Hs; [|done]. cbn in Hbs. injection Hbs as <-.
  apply hex_value_lower in Hc as (Hc & Hhi & Hc'), Hd as (Hd & Hlo & Hd').
  destruct (IH bs' eq_refl) as [He Hl]. cbn [encode_hex to_ascii_lowercase decode_hex].
  rewrite Hc', Hd', Hl. split; [|done]. rewrite unsigned_of_nibbles by done.
  replace (16 * hi + lo) with (hi * 16 + lo) by lia.
  rewrite Z.div_add_l, Z.div_small, Z.add_0_r by lia.
  rewrite Z.add_comm, Z.mod_add, Z.mod_small by lia. by rewrite Hc, Hd, He.
Qed.

Lemma hex_value_case c : hex_value (ascii_lower c) = hex_value c.
Proof. by destruct c as [[] [] [] [] [] [] [] []]. Qed.

Lemma decode_hex_case s : decode_hex (to_ascii_lowercase s) = decode_hex s.
Proof.
  induction s as [|c|c d s IH] using decode_hex_ind; [done..|].
  cbn [to_ascii_lowercase decode_hex]. by rewrite !hex_value_case, IH.
Qed.

#[export] Instance example_hex_laws : HexLaws.
Proof.
  constructor; cbn.
  - done.
  - intros bs. by rewrite decode_encode_hex.
  - intros s bs. destruct (decode_hex s) eqn:Hs; [|done]. intros [= <-]. by apply encode_decode_hex.
  - intros s bs. destruct (decode_hex s) eqn:Hs; [|done]. intros [= <-].
    by destruct (encode_decode_hex s l Hs) as [_ ->].
  - intros s bs. by rewrite decode_hex_case.
Qed.

#[export] Instance example_sha256 : Sha256Crate :=
  {| sha256 bs := take 32 (reverse bs ++ replicate 32 Byte.x00) |}.
#[export] Instance example_sha256_laws : Sha256Laws.
Proof.
  constructor. intros bs. unfold sha256, example_sha256.
  rewrite length_take, length_app, length_replicate. lia.
Qed.

(** A signature is the key repeated twice; it verifies under the same key. *)
#[export] Instance example_ed25519 : Ed25519Crate := {|
  SigningKey := list byte; VerifyingKey := list byte;
  signing_key_from_bytes bs := bs;
  verifying_key k := take 32 (k ++ replicate 32 Byte.x00);
  verifying_key_to_bytes k := k;
  verifying_key_from_bytes bs := Some bs;
  ed25519_sign k m := take 32 (k ++ replicate 32 Byte.x00) ++ sha256 m;
  ed25519_verify k m s := bool_decide (s = k ++ sha256 m);
|}.
#[export] Instance example_ed25519_laws : Ed25519Laws.
Proof.
  constructor; cbn -[sha256 replicate take]; intros.
  - rewrite length_take, length_app, length_replicate. lia.
  - done.
  - rewrite length_app, sha256_length, length_take, length_app, length_replicate. lia.
  - by apply bool_decide_eq_true.
Qed.
