(* ===== verification/Payee.v ===== *)
(** The account identity shared by entitlements, outputs, settlement and
    fanout recipients: a recipient id, an order key and a P2MR program in hex.
    Five structs of the source carry these three fields and order themselves
    by [(order_key, recipient_id, p2mr_program_hex)]. *)
From Stdlib Require Import ZArith.
From stdpp Require Import base list strings.
From S2P Require Import Prelude Order BTree.

Class Payee (A : Type) := {
  recipient_id : A -> string;
  order_key : A -> string;
  p2mr_program_hex : A -> string;
}.

Section payee.
Context {A : Type} `{Payee A}.

(** [a.order_key.cmp(&b.order_key).then_with(..recipient_id..).then_with(..program..)]. *)
Definition canonical_cmp : A -> A -> comparison :=
  cmp_then (cmp_on order_key String.compare)
    (cmp_then (cmp_on recipient_id String.compare) (cmp_on p2mr_program_hex String.compare)).

#[export] Instance canonical_cmp_order : CmpOrder canonical_cmp.
Proof. unfold canonical_cmp. apply _. Qed.

(** The identity as a key. *)
Definition payee_key (a : A) : string * string * string :=
  (order_key a, recipient_id a, p2mr_program_hex a).

Lemma canonical_cmp_eq a b : canonical_cmp a b = Eq ↔ payee_key a = payee_key b.
Proof.
  unfold canonical_cmp, cmp_then, cmp_on, then_with, payee_key. split.
  - destruct (String.compare (order_key a) _) eqn:H1; [|done..].
    destruct (String.compare (recipient_id a) _) eqn:H2; [|done..].
    intros H3. apply String.compare_eq_iff in H1, H2, H3. congruence.
  - intros [= -> -> ->]. by rewrite !(cmp_refl String.compare).
Qed.
End payee.
#[global] Typeclasses Opaque canonical_cmp.

Definition string_triple_cmp : string * string * string -> string * string * string -> comparison :=
  cmp_pair (cmp_pair String.compare String.compare) String.compare.
#[export] Instance string_triple_cmp_order : CmpOrder string_triple_cmp.
Proof. unfold string_triple_cmp. apply _. Qed.
#[export] Instance string_triple_cmp_eq : CmpEq string_triple_cmp.
Proof. unfold string_triple_cmp. apply _. Qed.
#[global] Typeclasses Opaque string_triple_cmp.
