(* ===== verification/PoolBuilder.v ===== *)
(** The coinbase builder's data and its output allocation
    (crates/qbit-pool-builder/src/lib.rs): [allocate_outputs] orders the
    entitlements, moves a pinned one to vout 0, and splits the coinbase value
    over them by largest remainder. *)
From Stdlib Require Import ZArith Lia Sorting.Sorted.
From Stdlib Require String.
From coqutil Require Import Byte.
From stdpp Require Import base list strings pretty gmap sorting.
From S2P Require Import Prelude Order BTree Apportion Bytes Crates Payee.

Open Scope Z_scope.

(** * Constants and data *)
Definition P2MR_SCRIPT_LEN : nat := 34.
Definition P2MR_PROGRAM_LEN : nat := 32.
Definition P2MR_WITNESS_VERSION_OPCODE : byte := Byte.x52.
Definition MAX_BLOCK_WEIGHT : Z := 2000000.
Definition MAX_COINBASE_SCRIPT_SIG_LEN : Z := 100.

Inductive BuilderError : Type :=
| EmptyCoinbaseValue
| EmptyEntitlements
| ZeroWeight (recipient : string)
| WeightOverflow
| AllocationOverflow
| AllocationTotalMismatch (allocated coinbase_value : Z)
| InvalidP2mrProgram (recipient reason : string)
| PinnedFirstOutputMissing (recipient : string)
| PinnedFirstOutputAmbiguous (recipient : string)
| HeightOverflow
| CoinbaseScriptSigTooLong (len : Z)
| CoinbaseWeightTooHigh (weight max_weight : Z)
| Hex (display : string)
| Json (display : string)
| InvalidSigningSeedLength (len : Z)
| InvalidPublicKeyLength (len : Z)
| InvalidSignatureLength (len : Z)
| SignatureVerificationFailed.

Record WeightedEntitlement := {
  we_recipient_id : string;
  we_order_key : string;
  we_p2mr_program_hex : string;
  we_weight : Z;
}.
#[export] Instance we_payee : Payee WeightedEntitlement :=
  {| recipient_id := we_recipient_id; order_key := we_order_key;
     p2mr_program_hex := we_p2mr_program_hex |}.
#[export] Instance we_eq_dec : EqDecision WeightedEntitlement.
Proof. solve_decision. Defined.

Record PinnedFirstOutput := {
  pfo_recipient_id : string;
  pfo_order_key : string;
  pfo_p2mr_program_hex : string;
}.

Record CoinbaseBuildRequest := {
  cbr_block_height : Z;
  cbr_coinbase_value_sats : Z;
  cbr_entitlements : list WeightedEntitlement;
  cbr_witness_nonce_hex : option string;
  cbr_witness_merkle_leaves_hex : list string;
  cbr_coinbase_script_sig_suffix_hex : option string;
  cbr_pinned_first_output : option PinnedFirstOutput;
}.

Record AllocatedOutput := {
  ao_recipient_id : string;
  ao_order_key : string;
  ao_p2mr_program : list byte;
  ao_script_pubkey : list byte;
  ao_weight : Z;
  ao_amount_sats : Z;
}.

(** * Operations *)
Definition p2mr_script_pubkey (program : list byte) : list byte :=
  P2MR_WITNESS_VERSION_OPCODE :: byte.of_Z (Z.of_nat P2MR_PROGRAM_LEN) :: program.

Definition is_p2mr_script_pubkey (script : list byte) : bool :=
  match script with
  | v :: l :: _ =>
      (length script =? P2MR_SCRIPT_LEN)%nat && Byte.eqb v P2MR_WITNESS_VERSION_OPCODE &&
      Byte.eqb l (byte.of_Z (Z.of_nat P2MR_PROGRAM_LEN))
  | _ => false
  end.

Definition compare_entitlements : WeightedEntitlement -> WeightedEntitlement -> comparison :=
  canonical_cmp.

Definition pinned_matches (pinned : PinnedFirstOutput) (e : WeightedEntitlement) : bool :=
  String.eqb (we_recipient_id e) (pfo_recipient_id pinned) &&
  String.eqb (we_order_key e) (pfo_order_key pinned) &&
  eq_ignore_ascii_case (we_p2mr_program_hex e) (pfo_p2mr_program_hex pinned).

Definition pinned_entitlement_index (entitlements : list WeightedEntitlement)
    (pinned : PinnedFirstOutput) : result BuilderError nat :=
  let matches := omap (fun '(i, e) => if pinned_matches pinned e then Some i else None)
                   (imap pair entitlements) in
  match matches with
  | [] => Err (PinnedFirstOutputMissing (pfo_recipient_id pinned))
  | [i] => Ok i
  | _ :: _ :: _ => Err (PinnedFirstOutputAmbiguous (pfo_recipient_id pinned))
  end.

(** [entitlements[..=i].rotate_right(1)]. *)
Definition rotate_to_front {A} (i : nat) (l : list A) : list A :=
  match l !! i with Some x => x :: take i l ++ drop (S i) l | None => l end.

(** The output order: canonical, with a pinned entitlement moved to the front. *)
Definition arrange_entitlements (request : CoinbaseBuildRequest)
  : result BuilderError (list WeightedEntitlement) :=
  let entitlements := sort_by compare_entitlements (cbr_entitlements request) in
  match cbr_pinned_first_output request with
  | Some pinned =>
      i ← pinned_entitlement_index entitlements pinned;
      Ok (rotate_to_front i entitlements)
  | None => Ok entitlements
  end.

Section builder.
Context `{HexCrate}.

Definition parse_p2mr_program (e : WeightedEntitlement) : result BuilderError (list byte) :=
  match hex_decode (we_p2mr_program_hex e) with
  | inl error => Err (InvalidP2mrProgram (we_recipient_id e) error)
  | inr program =>
      if (length program =? P2MR_PROGRAM_LEN)%nat then Ok program
      else Err (InvalidP2mrProgram (we_recipient_id e)
                  ("expected 32 bytes, got " +:+ pretty (length program)))
  end.

Definition provisional_output (value total_weight : Z) (e : WeightedEntitlement)
  : result BuilderError (AllocatedOutput * Z) :=
  program ← parse_p2mr_program e;
  product ← ok_or (checked_mul U128 value (we_weight e)) AllocationOverflow;
  amount_sats ← ok_or (checked U64 (product / total_weight)) AllocationOverflow;
  Ok ({| ao_recipient_id := we_recipient_id e; ao_order_key := we_order_key e;
         ao_p2mr_program := program; ao_script_pubkey := p2mr_script_pubkey program;
         ao_weight := we_weight e; ao_amount_sats := amount_sats |},
      product mod total_weight).

(** The comparator of [remainder_order]: descending remainder, then the
    account order, on the outputs the two indices name. *)
Definition remainder_cmp : AllocatedOutput * Z -> AllocatedOutput * Z -> comparison :=
  cmp_then (cmp_rev (cmp_on snd Z.compare))
    (cmp_then (cmp_on (fun p => ao_order_key p.1) String.compare)
       (cmp_then (cmp_on (fun p => ao_recipient_id p.1) String.compare)
          (cmp_on (fun p => ao_p2mr_program p.1) bytes_cmp))).
Definition remainder_order (provisional : list (AllocatedOutput * Z)) : list nat :=
  sort_by (cmp_on (fun i => provisional !! i) (cmp_option remainder_cmp))
    (seq 0 (length provisional)).

Definition with_amount (o : AllocatedOutput) (amount : Z) : AllocatedOutput :=
  {| ao_recipient_id := ao_recipient_id o; ao_order_key := ao_order_key o;
     ao_p2mr_program := ao_p2mr_program o; ao_script_pubkey := ao_script_pubkey o;
     ao_weight := ao_weight o; ao_amount_sats := amount |}.
Definition add_one_sat (p : AllocatedOutput * Z) : result BuilderError (AllocatedOutput * Z) :=
  amount ← ok_or (checked_add U64 (ao_amount_sats p.1) 1) AllocationOverflow;
  Ok (with_amount p.1 amount, p.2).

Definition allocate_outputs (request : CoinbaseBuildRequest)
  : result BuilderError (list AllocatedOutput) :=
  let value := cbr_coinbase_value_sats request in
  if value =? 0 then Err EmptyCoinbaseValue else
  match cbr_entitlements request with [] => Err EmptyEntitlements | _ =>
  entitlements ← arrange_entitlements request;
  total_weight ← try_fold (fun sum e =>
      if we_weight e =? 0 then Err (ZeroWeight (we_recipient_id e))
      else ok_or (checked_add U128 sum (we_weight e)) WeightOverflow) 0 entitlements;
  provisional ← collect (provisional_output value total_weight) entitlements;
  allocated ← try_fold (fun sum p =>
      ok_or (checked_add U64 sum (ao_amount_sats p.1)) AllocationOverflow) 0 provisional;
  remainder_sats ← ok_or (checked_sub U64 value allocated) AllocationOverflow;
  provisional ← try_fold (update_at add_one_sat) provisional
      (take (Z.to_nat remainder_sats) (remainder_order provisional));
  let outputs := fst <$> provisional in
  final_total ← try_fold (fun sum o =>
      ok_or (checked_add U64 sum (ao_amount_sats o)) AllocationOverflow) 0 outputs;
  if final_total =? value then Ok outputs
  else Err (AllocationTotalMismatch final_total value)
  end.
End builder.

(** * Ordering and pinning *)
Lemma rotate_to_front_perm {A} i (l : list A) : rotate_to_front i l ≡ₚ l.
Proof.
  unfold rotate_to_front. destruct (l !! i) as [x|] eqn:Hx; [|done].
  rewrite <- (take_drop_middle l i x Hx) at 3. by rewrite Permutation_middle.
Qed.

Lemma arrange_entitlements_perm request es :
  arrange_entitlements request = Ok es → es ≡ₚ cbr_entitlements request.
Proof.
  unfold arrange_entitlements. destruct (cbr_pinned_first_output request) as [p|]; intros H.
  - res_inv. by rewrite rotate_to_front_perm, sort_by_perm.
  - res_inv. by rewrite sort_by_perm.
Qed.

Lemma pinned_entitlement_index_Ok es pinned i :
  pinned_entitlement_index es pinned = Ok i →
  (∃ e, es !! i = Some e ∧ pinned_matches pinned e = true) ∧
  ∀ j e, es !! j = Some e → pinned_matches pinned e = true → j = i.
Proof.
  unfold pinned_entitlement_index. intros H.
  destruct (indices_where (pinned_matches pinned) es) as [_ Hin].
  destruct (omap _ _) as [|i' [|]] eqn:Hm in H, Hin; simplify_eq. split.
  - apply Hin. set_solver.
  - intros j e Hj He. assert (j ∈ [i]) by (apply Hin; eauto). set_solver.
Qed.

Lemma pinned_entitlement_index_total es pinned i e :
  es !! i = Some e → pinned_matches pinned e = true →
  (∀ j e', es !! j = Some e' → pinned_matches pinned e' = true → j = i) →
  pinned_entitlement_index es pinned = Ok i.
Proof.
  intros He Hm Hu. unfold pinned_entitlement_index.
  destruct (indices_where (pinned_matches pinned) es) as [Hnd Hin].
  destruct (omap _ _) as [|a [|b l]] eqn:Hl in Hnd, Hin |- *.
  - assert (i ∈ []) by (apply Hin; eauto). set_solver.
  - assert (i ∈ [a]) by (apply Hin; eauto). f_equal. set_solver.
  - assert (a = i ∧ b = i) as [-> ->].
    { split; [destruct (proj1 (Hin a)) as (x & ? & ?)|destruct (proj1 (Hin b)) as (x & ? & ?)];
        [set_solver|by eapply Hu|set_solver|by eapply Hu]. }
    apply NoDup_cons in Hnd as [Hnd _]. set_solver.
Qed.

(** * Allocation *)

(** The widths the request's fields have as Rust values. *)
Record wf_request (request : CoinbaseBuildRequest) : Prop := {
  wfr_value : fits U64 (cbr_coinbase_value_sats request) = true;
  wfr_weights : Forall (fun e => fits U128 (we_weight e) = true) (cbr_entitlements request);
  wfr_height : fits U64 (cbr_block_height request) = true;
}.

Section allocation.
Context `{HexCrate}.

(** The output [o] is entitlement [e]'s: same account, its parsed program,
    the P2MR script of that program, its weight. *)
Definition output_of (e : WeightedEntitlement) (o : AllocatedOutput) : Prop :=
  ao_recipient_id o = we_recipient_id e ∧ ao_order_key o = we_order_key e ∧
  hex_decode (we_p2mr_program_hex e) = inr (ao_p2mr_program o) ∧
  length (ao_p2mr_program o) = P2MR_PROGRAM_LEN ∧
  ao_script_pubkey o = p2mr_script_pubkey (ao_p2mr_program o) ∧
  ao_weight o = we_weight e.

#[local] Instance remainder_cmp_order : CmpOrder remainder_cmp.
Proof. unfold remainder_cmp. apply _. Qed.

Lemma total_weight_Ok es a W :
  try_fold (fun sum e =>
      if we_weight e =? 0 then Err (ZeroWeight (we_recipient_id e))
      else ok_or (checked_add U128 sum (we_weight e)) WeightOverflow) a es = Ok W ↔
  Forall (fun e => we_weight e ≠ 0) es ∧
  try_fold (fun sum e => ok_or (checked_add U128 sum (we_weight e)) WeightOverflow) a es = Ok W.
Proof.
  revert a; induction es as [|e es IH]; intros a; [cbn; naive_solver|].
  cbn [try_fold]. rewrite Forall_cons, !bind_Ok. destruct (we_weight e =? 0) eqn:Hz.
  - split; [naive_solver|]. intros [[? _] _]. lia.
  - setoid_rewrite IH. apply Z.eqb_neq in Hz. naive_solver.
Qed.

Section core.
Context (value W : Z) (es : list WeightedEntitlement) (prov : list (AllocatedOutput * Z)).
Hypothesis Hvalue : 0 ≤ value ∧ fits U64 value = true.
Hypothesis Hweights : Forall (fun e => 0 ≤ we_weight e) es.
Hypothesis HW : W = sum_of we_weight es.
Hypothesis HWpos : 0 < W.
Hypothesis Hprov : collect (provisional_output value W) es = Ok prov.

Lemma provisional_facts :
  Forall2 (fun e p => output_of e p.1 ∧
    ao_amount_sats p.1 = quota value W (we_weight e) ∧
    p.2 = remainder value W (we_weight e)) es prov.
Proof.
  apply collect_Forall2 in Hprov. eapply Forall2_impl; [exact Hprov|].
  intros e p Hp. unfold provisional_output, parse_p2mr_program in Hp.
  destruct (hex_decode (we_p2mr_program_hex e)) as [err|prog] eqn:Hd; [done|].
  res_inv. unfold output_of; cbn. apply Nat.eqb_eq in Hb. done.
Qed.

Lemma provisional_weights : (fun p => ao_weight p.1) <$> prov = we_weight <$> es.
Proof.
  pose proof provisional_facts as HF. clear Hprov Hweights HW.
  induction HF as [|e p es' prov' Hp _ IH]; [done|].
  cbn. f_equal; [|done]. by destruct Hp as [(?&?&?&?&?&?) _].
Qed.

Lemma provisional_elem p : p ∈ prov → ∃ e, e ∈ es ∧ output_of e p.1 ∧
  ao_amount_sats p.1 = quota value W (ao_weight p.1) ∧
  p.2 = remainder value W (ao_weight p.1) ∧ 0 ≤ ao_weight p.1 ≤ W.
Proof.
  intros (i & Hi)%list_elem_of_lookup.
  destruct (Forall2_lookup_r _ _ _ _ _ provisional_facts Hi) as (e & He & Ho & Ha & Hr).
  assert (e ∈ es) as Hin by (by eapply list_elem_of_lookup_2).
  pose proof Ho as (?&?&?&?&?&Hw). rewrite Hw. exists e. split_and!; try done.
  - rewrite Forall_forall in Hweights. by apply Hweights.
  - rewrite HW. apply sum_of_elem_le; [|done].
    rewrite Forall_forall in Hweights. exact Hweights.
Qed.

Let amt := fun p : AllocatedOutput * Z => ao_amount_sats p.1.
Let bump := fun p : AllocatedOutput * Z => (with_amount p.1 (ao_amount_sats p.1 + 1), p.2).

Lemma add_one_sat_Ok p : p ∈ prov → 0 < p.2 → add_one_sat p = Ok (bump p).
Proof.
  intros Hp Hr. destruct (provisional_elem p Hp) as (e & _ & _ & Ha & Hrem & Hw).
  unfold add_one_sat, checked_add. rewrite checked_fits; [done|].
  rewrite Ha. rewrite Hrem in Hr. unfold quota, remainder in *.
  pose proof (Z.div_mod (value * ao_weight p.1) W ltac:(lia)).
  pose proof (Z.div_pos (value * ao_weight p.1) W ltac:(nia) ltac:(lia)).
  eapply (fits_between U64 0 value); [done|apply Hvalue|]. nia.
Qed.

Lemma split_builder :
  let left := value - sum_of amt prov in
  let final := changed bump (take (Z.to_nat left) (remainder_order prov)) prov in
  0 ≤ left ∧
  try_fold (update_at add_one_sat) prov (take (Z.to_nat left) (remainder_order prov)) = Ok final ∧
  sum_of amt final = value ∧
  apportioned value (we_weight <$> es) (amt <$> final).
Proof.
  assert (sum_of (fun p => ao_weight p.1) prov = W) as HsumW.
  { unfold sum_of. rewrite provisional_weights. by rewrite HW. }
  assert (∀ i j x y, prov !! i = Some x → prov !! j = Some y →
    cmp_on (fun i => prov !! i) (cmp_option remainder_cmp) i j ≠ Gt → y.2 ≤ x.2) as Hord.
  { intros i j x y Hx Hy. unfold cmp_on. rewrite Hx, Hy.
    unfold cmp_option, remainder_cmp, cmp_then, cmp_rev, cmp_on, then_with; cbn.
    destruct (Z.compare_spec y.2 x.2); cbn; [lia..|done]. }
  assert (∀ x, x ∈ prov → amt x = quota value (sum_of (fun p => ao_weight p.1) prov) (ao_weight x.1)) as H1.
  { intros x Hx. rewrite HsumW. by destruct (provisional_elem x Hx) as (?&?&?&?&?&?). }
  assert (∀ x, x ∈ prov → x.2 = remainder value (sum_of (fun p => ao_weight p.1) prov) (ao_weight x.1)) as H2.
  { intros x Hx. rewrite HsumW. by destruct (provisional_elem x Hx) as (?&?&?&?&?&?). }
  assert (0 < sum_of (fun p => ao_weight p.1) prov) as H3 by (by rewrite HsumW).
  rewrite <- provisional_weights. split_and!.
  - by apply (split_leftover (fun p => ao_weight p.1) amt snd prov value).
  - by apply (split_loop (fun p => ao_weight p.1) amt snd add_one_sat bump _ prov value
                H3 H1 H2 Hord add_one_sat_Ok).
  - by apply (split_loop (fun p => ao_weight p.1) amt snd add_one_sat bump _ prov value
                H3 H1 H2 Hord add_one_sat_Ok).
  - by apply (split_apportioned (fun p => ao_weight p.1) amt snd add_one_sat bump _ prov value
                H3 H1 H2 Hord add_one_sat_Ok).
Qed.

Lemma final_outputs_of (chosen : list nat) :
  Forall2 output_of es (fst <$> changed bump chosen prov).
Proof.
  pose proof provisional_facts as HF. apply Forall2_fmap_r.
  apply Forall2_lookup. intros i. rewrite Forall2_lookup in HF. specialize (HF i).
  unfold changed. rewrite list_lookup_imap.
  destruct HF as [e p Hp|]; cbn; constructor. destruct Hp as [Ho _]. by case_decide.
Qed.
End core.
End allocation.

Section allocation_theorems.
Context `{HexCrate}.
Implicit Types (request : CoinbaseBuildRequest) (outputs : list AllocatedOutput).

(** What the allocation needs of a request whose order is settled. *)
Definition allocatable (value : Z) (es : list WeightedEntitlement) : Prop :=
  Forall (fun e => we_weight e ≠ 0) es ∧ fits U128 (sum_of we_weight es) = true ∧
  Forall (fun e => is_ok (parse_p2mr_program e) = true ∧
                   fits U128 (value * we_weight e) = true) es.

#[export] Instance allocatable_proper value : Proper ((≡ₚ) ==> iff) (allocatable value).
Proof.
  intros l l' Hp. unfold allocatable. rewrite (sum_of_perm _ _ _ Hp).
  by rewrite !(Permutation_Forall_iff _ _ _ Hp).
Qed.

Lemma arranged_weights request es :
  wf_request request → arrange_entitlements request = Ok es →
  Forall (fun e => 0 ≤ we_weight e) es.
Proof.
  intros [_ Hw _] Hes%arrange_entitlements_perm. rewrite Hes.
  eapply Forall_impl; [exact Hw|]. cbn. intros e He. widths.
Qed.

Lemma positive_total es :
  es ≠ [] → Forall (fun e => 0 ≤ we_weight e) es → Forall (fun e => we_weight e ≠ 0) es →
  0 < sum_of we_weight es.
Proof.
  destruct es as [|e es]; [done|]. intros _ H1 H2. inversion H1; inversion H2; subst.
  rewrite sum_of_cons. assert (0 ≤ sum_of we_weight es); [|lia].
  apply sum_of_nonneg. by rewrite <- Forall_forall.
Qed.

(** Once the weights add up and the provisional amounts exist, the rest of
    the allocation is total. *)
Lemma allocate_outputs_core request es prov :
  wf_request request → cbr_coinbase_value_sats request ≠ 0 → cbr_entitlements request ≠ [] →
  arrange_entitlements request = Ok es →
  Forall (fun e => we_weight e ≠ 0) es → fits U128 (sum_of we_weight es) = true →
  collect (provisional_output (cbr_coinbase_value_sats request) (sum_of we_weight es)) es = Ok prov →
  ∃ outputs, allocate_outputs request = Ok outputs ∧ Forall2 output_of es outputs ∧
    apportioned (cbr_coinbase_value_sats request) (we_weight <$> es) (ao_amount_sats <$> outputs).
Proof.
  intros Hwf Hv Hne Hes Hnz Hfit Hprov. pose proof (wfr_value _ Hwf) as Hv64.
  assert (0 ≤ cbr_coinbase_value_sats request) as Hv0 by widths.
  pose proof (arranged_weights _ _ Hwf Hes) as Hw.
  assert (es ≠ []) as Hne' by (intros ->; apply arrange_entitlements_perm, Permutation_nil_l in Hes; done).
  pose proof (positive_total es Hne' Hw Hnz) as HWpos.
  destruct (split_builder _ _ es prov (conj Hv0 Hv64) Hw eq_refl HWpos Hprov)
    as (Hleft & Hloop & Hsum & Happ).
  exists (fst <$> changed (fun p => (with_amount p.1 (ao_amount_sats p.1 + 1), p.2))
    (take (Z.to_nat (cbr_coinbase_value_sats request - sum_of (fun p => ao_amount_sats p.1) prov))
       (remainder_order prov)) prov).
  split_and!.
  - unfold allocate_outputs. rewrite (proj2 (Z.eqb_neq _ _) Hv).
    destruct (cbr_entitlements request) eqn:Hce; [done|]. rewrite Hes. cbn [mbind result_bind].
    assert (try_fold (fun sum e =>
      if we_weight e =? 0 then Err (ZeroWeight (we_recipient_id e))
      else ok_or (checked_add U128 sum (we_weight e)) WeightOverflow) 0 es
      = Ok (sum_of we_weight es)) as ->.
    { apply total_weight_Ok. split; [done|].
      rewrite try_sum_total; [done|done|done| |done]. by rewrite <- Forall_forall. }
    cbn [mbind result_bind]. rewrite Hprov. cbn [mbind result_bind].
    assert (∀ p, p ∈ prov → 0 ≤ ao_amount_sats p.1) as Hpos.
    { intros p Hp. destruct (provisional_elem _ _ _ _ Hw eq_refl HWpos Hprov p Hp)
        as (?&_&_&->&_&?). apply Z.div_pos; nia. }
    rewrite try_sum_total; [|done|done|done|].
    2:{ pose proof (sum_of_nonneg (fun p => ao_amount_sats p.1) prov Hpos). widths. }
    cbn [mbind result_bind]. rewrite Z.add_0_l. unfold checked_sub.
    rewrite checked_fits; [|pose proof (sum_of_nonneg (fun p => ao_amount_sats p.1) prov Hpos); widths].
    cbn [ok_or mbind result_bind]. rewrite Hloop. cbn [mbind result_bind].
    rewrite try_sum_total; rewrite ?sum_of_fmap, ?Hsum; [| |done| |done]; [|done|].
    + cbn. by rewrite Z.eqb_refl.
    + intros o (p & -> & (i & Hi)%list_elem_of_lookup)%list_elem_of_fmap.
      apply changed_lookup_inv in Hi as (q & Hq & ->).
      apply list_elem_of_lookup_2, Hpos in Hq. case_decide; cbn; lia.
  - by eapply final_outputs_of.
  - rewrite <- list_fmap_compose. exact Happ.
Qed.

Lemma provisional_total value es :
  Forall (fun e => 0 ≤ we_weight e) es → 0 < sum_of we_weight es →
  0 ≤ value → fits U64 value = true →
  Forall (fun e => is_ok (parse_p2mr_program e) = true ∧
                   fits U128 (value * we_weight e) = true) es →
  ∃ prov, collect (provisional_output value (sum_of we_weight es)) es = Ok prov.
Proof.
  intros Hw HW Hv Hv64 Hok.
  assert (Forall (fun e => ∃ p, provisional_output value (sum_of we_weight es) e = Ok p) es) as HF.
  { rewrite Forall_forall in *. intros e He. destruct (Hok e He) as [Hp Hm].
    unfold provisional_output. destruct (parse_p2mr_program e); [|done..]. cbn.
    unfold checked_mul. rewrite (checked_fits U128) by done. cbn.
    rewrite checked_fits; [eexists; done|].
    pose proof (sum_of_elem_le we_weight es e Hw He). pose proof (Hw e He) as Hwe. cbn in Hwe.
    eapply (fits_between U64 0 value); [done..|]. split; [apply Z.div_pos; nia|].
    apply Z.div_le_upper_bound; nia. }
  apply Forall_exists_Forall2_l in HF as [prov Hprov]. exists prov. by apply collect_Forall2.
Qed.

Lemma allocate_outputs_inv request outputs :
  allocate_outputs request = Ok outputs →
  cbr_coinbase_value_sats request ≠ 0 ∧ cbr_entitlements request ≠ [] ∧
  ∃ es prov, arrange_entitlements request = Ok es ∧
    Forall (fun e => we_weight e ≠ 0) es ∧ fits U128 (sum_of we_weight es) = true ∧
    collect (provisional_output (cbr_coinbase_value_sats request) (sum_of we_weight es)) es = Ok prov.
Proof.
  intros Ha. unfold allocate_outputs in Ha.
  destruct (cbr_coinbase_value_sats request =? 0) eqn:Hv; [done|]. apply Z.eqb_neq in Hv.
  destruct (cbr_entitlements request) as [|e0 es0] eqn:Hce; [done|].
  apply bind_Ok in Ha as (es & Hes & Ha). apply bind_Ok in Ha as (W & HW & Ha).
  apply total_weight_Ok in HW as [Hnz HW]. apply bind_Ok in Ha as (prov & Hprov & _).
  pose proof (try_sum_fits U128 _ we_weight es 0 W eq_refl HW) as Hfit.
  apply try_sum_Ok in HW. rewrite Z.add_0_l in HW. subst W.
  split_and!; [done..|]. by exists es, prov.
Qed.

Lemma allocate_outputs_split request outputs :
  wf_request request → allocate_outputs request = Ok outputs →
  ∃ es, arrange_entitlements request = Ok es ∧ es ≡ₚ cbr_entitlements request ∧
    Forall2 output_of es outputs ∧
    apportioned (cbr_coinbase_value_sats request) (we_weight <$> es) (ao_amount_sats <$> outputs).
Proof.
  intros Hwf Ha. pose proof Ha as Ha'.
  apply allocate_outputs_inv in Ha' as (Hv & Hne & es & prov & Hes & Hnz & Hfit & Hprov).
  destruct (allocate_outputs_core request es prov Hwf Hv Hne Hes Hnz Hfit Hprov)
    as (outs & Hout & HF & Happ).
  rewrite Hout in Ha. injection Ha as ->. exists es. eauto using arrange_entitlements_perm.
Qed.

Lemma outputs_weights es outputs :
  Forall2 output_of es outputs → ao_weight <$> outputs = we_weight <$> es.
Proof.
  induction 1 as [|e o es outs Ho _ IH]; [done|].
  cbn. f_equal; [|done]. by destruct Ho as (?&?&?&?&?&?).
Qed.

Lemma allocated_amount_bounds request outputs o :
  wf_request request → allocate_outputs request = Ok outputs → o ∈ outputs →
  0 ≤ ao_amount_sats o ≤ cbr_coinbase_value_sats request.
Proof.
  intros Hwf Ha Ho. pose proof (allocate_outputs_inv _ _ Ha) as (_ & Hne & es' & _ & Hes' & Hnz & _).
  destruct (allocate_outputs_split _ _ Hwf Ha) as (es & Hes & Hp & HF & Happ).
  assert (es' = es) as -> by congruence.
  pose proof (wfr_value _ Hwf) as Hv. pose proof (arranged_weights _ _ Hwf Hes) as Hw.
  assert (es ≠ []) as Hne' by (intros ->; by apply Hne, Permutation_nil).
  pose proof (positive_total _ Hne' Hw Hnz) as Hpos.
  assert (∀ o', o' ∈ outputs → 0 ≤ ao_amount_sats o') as Hnn.
  { intros o' (i & Hi)%list_elem_of_lookup.
    destruct (Forall2_lookup_r _ _ _ _ _ HF Hi) as (e & He & _).
    eapply (apportioned_bounds (cbr_coinbase_value_sats request) (we_weight <$> es)
              (ao_amount_sats <$> outputs)); [by apply Forall_fmap|widths|done|done| |];
      rewrite list_lookup_fmap, ?He, ?Hi; done. }
  split; [by apply Hnn|]. rewrite <- (app_total _ _ _ Happ). by apply sum_of_elem_le.
Qed.

Lemma allocate_outputs_total_iff request :
  wf_request request →
  is_ok (allocate_outputs request) = true ↔
  cbr_coinbase_value_sats request ≠ 0 ∧ cbr_entitlements request ≠ [] ∧
  is_ok (arrange_entitlements request) = true ∧
  allocatable (cbr_coinbase_value_sats request) (cbr_entitlements request).
Proof.
  intros Hwf. split.
  - destruct (allocate_outputs request) as [outs| |] eqn:Ha; [intros _|done..].
    apply allocate_outputs_inv in Ha as (Hv & Hne & es & prov & Hes & Hnz & Hfit & Hprov).
    split_and!; [done..|by rewrite Hes|].
    rewrite <- (arrange_entitlements_perm _ _ Hes). unfold allocatable. split_and!; [done..|].
    apply collect_Forall2 in Hprov. rewrite Forall_forall. intros e (i & Hi)%list_elem_of_lookup.
    destruct (Forall2_lookup_l _ _ _ _ _ Hprov Hi) as (p & _ & Hp').
    unfold provisional_output in Hp'. destruct (parse_p2mr_program e); [|done..]. by res_inv.
  - intros (Hv & Hne & Hok & Hall).
    destruct (arrange_entitlements request) as [es| |] eqn:Hes; [|done..].
    pose proof (arrange_entitlements_perm _ _ Hes) as Hp.
    rewrite <- Hp in Hall. destruct Hall as (Hnz & Hfit & Hall).
    pose proof (arranged_weights _ _ Hwf Hes) as Hw. pose proof (wfr_value _ Hwf) as Hv64.
    assert (es ≠ []) as Hne' by (intros ->; by apply Permutation_nil_l in Hp).
    destruct (provisional_total (cbr_coinbase_value_sats request) es) as [prov Hprov];
      auto using positive_total; [widths|].
    destruct (allocate_outputs_core request es prov Hwf Hv Hne Hes Hnz Hfit Hprov)
      as (outs & -> & _). done.
Qed.

Lemma allocate_exact_of request outputs es :
  wf_request request → allocate_outputs request = Ok outputs → arrange_entitlements request = Ok es →
  sum_of we_weight (cbr_entitlements request) = cbr_coinbase_value_sats request →
  Forall2 (fun e o => output_of e o ∧ ao_amount_sats o = we_weight e) es outputs.
Proof.
  intros Hwf Ha Hes Hsum. pose proof (allocate_outputs_inv _ _ Ha) as (Hv & _).
  destruct (allocate_outputs_split _ _ Hwf Ha) as (es' & Hes' & Hp & HF & Happ).
  assert (es' = es) as -> by congruence. pose proof (wfr_value _ Hwf) as Hv64.
  rewrite <- (sum_of_perm _ _ _ Hp) in Hsum.
  assert (ao_amount_sats <$> outputs = we_weight <$> es) as Heq.
  { eapply apportioned_exact; [| |exact Happ|]; unfold sum_of in Hsum; rewrite ?Hsum; widths || done. }
  clear -HF Heq. induction HF as [|e o es outs Ho _ IH]; [constructor|].
  rewrite !fmap_cons in Heq. injection Heq as H1 H2. constructor; auto.
Qed.

(** C32: a successful allocation is the largest-remainder split of the coinbase
    value over the arranged entitlements: the amounts add up to the coinbase
    value exactly, each is the floor of its share or one more, and an extra
    sat only goes to an account with a remainder at least as large as every
    account left without one. Outputs come in the arranged order, each paying
    the P2MR script of its own program. *)
Theorem allocate_outputs_apportions request outputs :
  wf_request request → allocate_outputs request = Ok outputs →
  ∃ es, arrange_entitlements request = Ok es ∧ es ≡ₚ cbr_entitlements request ∧
    Forall2 output_of es outputs ∧
    apportioned (cbr_coinbase_value_sats request) (we_weight <$> es) (ao_amount_sats <$> outputs).
Proof. intros Hwf Ha. by apply allocate_outputs_split. Qed.

(** The allocation succeeds exactly on the requests it documents: a
    positive value, at least one entitlement, a resolvable pin, positive
    weights whose total and whose products with the value fit u128, and
    programs of 32 bytes. Its other error paths ([AllocationTotalMismatch],
    u64 overflow) and the slice indexing of its remainder loop are
    unreachable. *)
Theorem allocate_outputs_total request :
  wf_request request →
  is_ok (allocate_outputs request) = true ↔
  cbr_coinbase_value_sats request ≠ 0 ∧ cbr_entitlements request ≠ [] ∧
  is_ok (arrange_entitlements request) = true ∧
  allocatable (cbr_coinbase_value_sats request) (cbr_entitlements request).
Proof. apply allocate_outputs_total_iff. Qed.

(** a pinned entitlement is the coinbase's first output; the entitlements
    after it keep the canonical account order and none of them matches the
    pin. *)
Theorem pinned_output_is_first request pinned es :
  cbr_pinned_first_output request = Some pinned →
  arrange_entitlements request = Ok es →
  ∃ e rest, es = e :: rest ∧ pinned_matches pinned e = true ∧
    StronglySorted (cmp_le compare_entitlements) rest ∧
    Forall (fun e' => pinned_matches pinned e' = false) rest.
Proof.
  intros Hpin Hes. unfold arrange_entitlements in Hes. rewrite Hpin in Hes.
  apply bind_Ok in Hes as (i & Hi & [= <-]).
  set (l := sort_by compare_entitlements (cbr_entitlements request)) in *.
  apply pinned_entitlement_index_Ok in Hi as [(e & He & Hm) Huniq].
  exists e, (take i l ++ drop (S i) l). unfold rotate_to_front. rewrite He. split_and!; [done..| |].
  - pose proof (sort_by_sorted compare_entitlements (cbr_entitlements request)) as Hs.
    fold l in Hs. rewrite <- (take_drop_middle l i e He) in Hs. by apply StronglySorted_remove in Hs.
  - apply Forall_forall. intros e' He'. destruct (pinned_matches pinned e') eqn:Hm'; [|done].
    exfalso. apply elem_of_app in He' as [He'|He'].
    + apply elem_of_take in He' as (j & Hj & Hlt). specialize (Huniq j e' Hj Hm'). lia.
    + apply list_elem_of_lookup in He' as (j & Hj). rewrite lookup_drop in Hj.
      specialize (Huniq _ e' Hj Hm'). lia.
Qed.
End allocation_theorems.

(** * A concrete request

    Three accounts share 1000 sats; the pool-fee account is pinned first
    although it sorts last, with its program spelled in upper case. *)
Fixpoint repeat_string (n : nat) (s : string) : string :=
  match n with O => EmptyString | S n => s +:+ repeat_string n s end.
Definition example_entitlement (id key digits : string) (weight : Z) : WeightedEntitlement :=
  {| we_recipient_id := id; we_order_key := key;
     we_p2mr_program_hex := repeat_string 32 digits; we_weight := weight |}.
Definition example_request : CoinbaseBuildRequest := {|
  cbr_block_height := 17;
  cbr_coinbase_value_sats := 1000;
  cbr_entitlements :=
    [example_entitlement "pool" "z" "cc" 1; example_entitlement "alice" "a" "aa" 1;
     example_entitlement "bob" "b" "bb" 1];
  cbr_witness_nonce_hex := None;
  cbr_witness_merkle_leaves_hex := [];
  cbr_coinbase_script_sig_suffix_hex := None;
  cbr_pinned_first_output :=
    Some {| pfo_recipient_id := "pool"; pfo_order_key := "z";
            pfo_p2mr_program_hex := repeat_string 32 "CC" |};
|}.

Lemma example_request_wf : wf_request example_request.
Proof. constructor; cbn; repeat constructor. Qed.

Example example_request_amounts :
  (outputs ← allocate_outputs example_request;
   Ok (map (fun o => (ao_recipient_id o, ao_amount_sats o)) outputs))
  = Ok [("pool", 333); ("alice", 334); ("bob", 333)].
Proof. vm_compute. reflexivity. Qed.

Lemma allocate_outputs_apportions_witness :
  ∃ outputs, allocate_outputs example_request = Ok outputs ∧
  ∃ es, arrange_entitlements example_request = Ok es ∧ es ≡ₚ cbr_entitlements example_request ∧
    Forall2 output_of es outputs ∧
    apportioned 1000 (we_weight <$> es) (ao_amount_sats <$> outputs).
Proof.
  eexists. split; [vm_compute; reflexivity|].
  apply (allocate_outputs_apportions example_request);
    [exact example_request_wf|vm_compute; reflexivity].
Defined.

Lemma allocate_outputs_total_witness :
  is_ok (allocate_outputs example_request) = true ∧
  allocatable 1000 (cbr_entitlements example_request).
Proof.
  assert (is_ok (allocate_outputs example_request) = true) as Hok by (vm_compute; reflexivity).
  split; [exact Hok|].
  exact (proj2 (proj2 (proj2
    (proj1 (allocate_outputs_total example_request example_request_wf) Hok)))).
Defined.

Lemma pinned_output_is_first_witness :
  ∃ es e rest, arrange_entitlements example_request = Ok es ∧ es = e :: rest ∧
    StronglySorted (cmp_le compare_entitlements) rest.
Proof.
  destruct (pinned_output_is_first example_request
    {| pfo_recipient_id := "pool"; pfo_order_key := "z";
       pfo_p2mr_program_hex := repeat_string 32 "CC" |}
    [example_entitlement "pool" "z" "cc" 1; example_entitlement "alice" "a" "aa" 1;
     example_entitlement "bob" "b" "bb" 1])
    as (e & rest & Hes & _ & Hs & _); [reflexivity|vm_compute; reflexivity|].
  eexists. exists e, rest. split; [vm_compute; reflexivity|]. split; assumption.
Defined.
