(* ===== verification/CoinbaseTx.v ===== *)
(** The coinbase transaction of the pool builder
    (crates/qbit-pool-builder/src/lib.rs): the height script, the input and
    output serialisation, the witness merkle root and commitment, and
    [build_coinbase]. *)
From Stdlib Require Import ZArith Lia.
From Stdlib Require String.
From coqutil Require Import Byte Word.LittleEndianList.
From stdpp Require Import base list strings pretty gmap.
From S2P Require Import Prelude Order Bytes Crates Payee Apportion PoolBuilder.

Open Scope Z_scope.

(** * Constants *)
Definition OP_RETURN : byte := Byte.x6a.
Definition WITNESS_COMMITMENT_HEADER : list byte := [Byte.xaa; Byte.x21; Byte.xa9; Byte.xed].
Definition WITNESS_COMMITMENT_SCRIPT_PREFIX : list byte := [OP_RETURN; byte.of_Z 36].
Definition DEFAULT_WITNESS_NONCE : list byte := repeat Byte.x00 32.
Definition MAX_SEQUENCE_NONFINAL : Z := 0xfffffffe.

Record BuiltCoinbase := {
  bc_tx_with_witness : list byte;
  bc_tx_without_witness : list byte;
  bc_txid : list byte;
  bc_wtxid : list byte;
  bc_witness_commitment_script : list byte;
  bc_outputs : list AllocatedOutput;
  bc_total_weight : Z;
  bc_coinbase_weight_bytes : Z;
}.

(** * Integer encodings *)
Definition compact_size (value : Z) : list byte :=
  if value <? 253 then [byte.of_Z value]
  else if value <=? 0xffff then byte.of_Z 253 :: le_bytes 2 value
  else if value <=? 0xffffffff then byte.of_Z 254 :: le_bytes 4 value
  else byte.of_Z 255 :: le_bytes 8 value.

(** [while abs_value > 0 { result.push(abs_value & 0xff); abs_value >>= 8 }];
    a u64 is exhausted after eight rounds. *)
Fixpoint script_num_bytes (fuel : nat) (abs_value : Z) : list byte :=
  match fuel with
  | O => []
  | S fuel =>
      if 0 <? abs_value
      then byte.of_Z (Z.land abs_value 0xff) :: script_num_bytes fuel (Z.shiftr abs_value 8)
      else []
  end.

Definition minimal_script_num (value : Z) : result BuilderError (list byte) :=
  if value =? 0 then Ok [] else
  let negative := value <? 0 in
  abs_value ← (if negative then arith I64 (- value) else Ok value);
  let num := script_num_bytes 8 abs_value in
  last_byte ← expect (last num) "non-zero values have a byte";
  Ok (if negb (Z.land (byte.unsigned last_byte) 0x80 =? 0)
      then num ++ [if negative then Byte.x80 else Byte.x00]
      else if negative
      then removelast num ++ [byte.of_Z (Z.lor (byte.unsigned last_byte) 0x80)]
      else num).

Definition compact_push (len : Z) : list byte :=
  if len <=? 75 then [byte.of_Z len]
  else if len <=? 0xff then [byte.of_Z 76; byte.of_Z len]
  else if len <=? 0xffff then byte.of_Z 77 :: le_bytes 2 len
  else byte.of_Z 78 :: le_bytes 4 len.

Definition coinbase_height_script (height : Z) : result BuilderError (list byte) :=
  if int_max U32 <? height then Err HeightOverflow
  else if height <=? 16 then Ok [byte.of_Z (0x50 + height); Byte.x00]
  else encoded ← minimal_script_num height;
       Ok (compact_push (Z.of_nat (length encoded)) ++ encoded).

Definition coinbase_lock_time (height : Z) : result BuilderError Z :=
  if (height =? 0) || (int_max U32 <? height) then Err HeightOverflow else Ok (height - 1).

(** * Hashes *)
Section hashing.
Context `{Sha256Crate}.

Definition hash256 (data : list byte) : list byte := sha256 (sha256 data).
Definition hash256_pair (l r : list byte) : list byte := hash256 (l ++ r).

(** One round of the loop: [hashes.chunks(2)], an odd tail paired with itself. *)
Fixpoint merkle_level (hashes : list (list byte)) : list (list byte) :=
  match hashes with
  | [] => []
  | [x] => [hash256_pair x x]
  | x :: y :: rest => hash256_pair x y :: merkle_level rest
  end.

(** [while hashes.len() > 1]; [None] is running out of fuel. *)
Fixpoint merkle_loop (fuel : nat) (hashes : list (list byte)) : option (list (list byte)) :=
  match hashes with
  | [] | [_] => Some hashes
  | _ => match fuel with O => None | S fuel => merkle_loop fuel (merkle_level hashes) end
  end.

Definition merkle_root (hashes : list (list byte)) : result BuilderError (list byte) :=
  hashes ← expect (merkle_loop (length hashes) hashes) "merkle loop did not finish";
  expect (head hashes) "index out of bounds".

Definition witness_merkle_root (extra_witness_leaves : list (list byte))
  : result BuilderError (list byte) :=
  merkle_root (repeat Byte.x00 32 :: extra_witness_leaves).

Definition witness_commitment_script (extra_witness_leaves : list (list byte))
    (nonce : list byte) : result BuilderError (list byte) :=
  witness_root ← witness_merkle_root extra_witness_leaves;
  Ok (WITNESS_COMMITMENT_SCRIPT_PREFIX ++ WITNESS_COMMITMENT_HEADER ++
      hash256_pair witness_root nonce).
End hashing.

(** * Request fields *)
Section fields.
Context `{HexCrate}.

(** [hex::decode(raw)?]: the crate's error becomes [BuilderError::Hex]. *)
Definition hex_decode_or (raw : string) : result BuilderError (list byte) :=
  match hex_decode raw with inl e => Err (Hex e) | inr b => Ok b end.

Definition decode_32 (name raw : string) : result BuilderError (list byte) :=
  decoded ← hex_decode_or raw;
  if (length decoded =? 32)%nat then Ok decoded
  else Err (InvalidP2mrProgram name ("expected 32 bytes, got " +:+ pretty (length decoded))).

Definition witness_nonce (request : CoinbaseBuildRequest) : result BuilderError (list byte) :=
  match cbr_witness_nonce_hex request with
  | Some raw => decode_32 "witness_nonce" raw
  | None => Ok DEFAULT_WITNESS_NONCE
  end.

Definition witness_leaves (request : CoinbaseBuildRequest)
  : result BuilderError (list (list byte)) :=
  collect (fun '(i, raw) => decode_32 ("witness_merkle_leaf[" +:+ pretty i +:+ "]") raw)
    (imap pair (cbr_witness_merkle_leaves_hex request)).

Definition coinbase_script_sig_suffix (request : CoinbaseBuildRequest)
  : result BuilderError (list byte) :=
  match cbr_coinbase_script_sig_suffix_hex request with
  | Some raw => hex_decode_or raw
  | None => Ok []
  end.

Definition coinbase_script_sig (request : CoinbaseBuildRequest)
  : result BuilderError (list byte) :=
  script ← coinbase_height_script (cbr_block_height request);
  suffix ← coinbase_script_sig_suffix request;
  let script := script ++ suffix in
  if MAX_COINBASE_SCRIPT_SIG_LEN <? Z.of_nat (length script)
  then Err (CoinbaseScriptSigTooLong (Z.of_nat (length script)))
  else Ok script.

(** * Serialisation

    [out.extend_from_slice(..)] on a fresh vector is the bytes in order. *)
Definition coinbase_input_bytes (script_sig : list byte) : list byte :=
  compact_size 1 ++ repeat Byte.x00 32 ++ le_bytes 4 0xffffffff ++
  compact_size (Z.of_nat (length script_sig)) ++ script_sig ++
  le_bytes 4 MAX_SEQUENCE_NONFINAL.

Definition serialize_coinbase_input (request : CoinbaseBuildRequest)
  : result BuilderError (list byte) :=
  script_sig ← coinbase_script_sig request; Ok (coinbase_input_bytes script_sig).

Definition serialize_coinbase_prefix (request : CoinbaseBuildRequest)
  : result BuilderError (list byte) :=
  input ← serialize_coinbase_input request; Ok (le_bytes 4 2 ++ input).

Definition serialize_output (amount_sats : Z) (script : list byte) : list byte :=
  le_bytes 8 amount_sats ++ compact_size (Z.of_nat (length script)) ++ script.

Definition serialize_outputs (outputs : list AllocatedOutput) (commitment : list byte)
  : list byte :=
  compact_size (Z.of_nat (length outputs + 1)) ++
  (outputs ≫= fun o => serialize_output (ao_amount_sats o) (ao_script_pubkey o)) ++
  serialize_output 0 commitment.

Definition serialize_witness (nonce : list byte) : list byte :=
  compact_size 1 ++ compact_size (Z.of_nat (length nonce)) ++ nonce.

Context `{Sha256Crate}.

Definition build_coinbase (request : CoinbaseBuildRequest) : result BuilderError BuiltCoinbase :=
  outputs ← allocate_outputs request;
  nonce ← witness_nonce request;
  leaves ← witness_leaves request;
  commitment ← witness_commitment_script leaves nonce;
  prefix ← serialize_coinbase_prefix request;
  lock_time ← coinbase_lock_time (cbr_block_height request);
  let tx_without_witness :=
    prefix ++ serialize_outputs outputs commitment ++ le_bytes 4 lock_time in
  input ← serialize_coinbase_input request;
  lock_time ← coinbase_lock_time (cbr_block_height request);
  let tx_with_witness :=
    le_bytes 4 2 ++ [Byte.x00; Byte.x01] ++ input ++ serialize_outputs outputs commitment ++
    serialize_witness nonce ++ le_bytes 4 lock_time in
  let weight := Z.of_nat (length tx_with_witness) in
  if MAX_BLOCK_WEIGHT <? weight then Err (CoinbaseWeightTooHigh weight MAX_BLOCK_WEIGHT) else
  allocated ← try_fold (fun sum o =>
      ok_or (checked_add U64 sum (ao_amount_sats o)) AllocationOverflow) 0 outputs;
  if negb (allocated =? cbr_coinbase_value_sats request)
  then Err (AllocationTotalMismatch allocated (cbr_coinbase_value_sats request)) else
  total_weight ← try_fold (fun sum o =>
      ok_or (checked_add U128 sum (ao_weight o)) WeightOverflow) 0 outputs;
  Ok {| bc_tx_with_witness := tx_with_witness; bc_tx_without_witness := tx_without_witness;
        bc_txid := hash256 tx_without_witness; bc_wtxid := hash256 tx_with_witness;
        bc_witness_commitment_script := commitment; bc_outputs := outputs;
        bc_total_weight := total_weight; bc_coinbase_weight_bytes := weight |}.
End fields.

(** * Script numbers and the height push *)

(** The number a script-number push stands for: little-endian magnitude, the
    top bit of the last byte is the sign. *)
Definition script_num_value (bs : list byte) : Z :=
  match last bs with
  | None => 0
  | Some b =>
      if 128 <=? byte.unsigned b
      then - (le_combine bs - 128 * 2 ^ (8 * Z.of_nat (length bs - 1)))
      else le_combine bs
  end.

(** The height a BIP34 validator reads off the front of a coinbase scriptSig. *)
Definition script_height (script : list byte) : option Z :=
  match script with
  | [] => None
  | op :: rest =>
      let n := byte.unsigned op in
      if (0x51 <=? n) && (n <=? 0x60) then Some (n - 0x50)
      else if (n <=? 75) && (n <=? Z.of_nat (length rest))
      then Some (script_num_value (take (Z.to_nat n) rest)) else None
  end.

Lemma script_num_value_snoc bs b :
  script_num_value (bs ++ [b]) =
  if 128 <=? byte.unsigned b
  then - (le_combine bs + 2 ^ (8 * Z.of_nat (length bs)) * (byte.unsigned b - 128))
  else le_combine bs + 2 ^ (8 * Z.of_nat (length bs)) * byte.unsigned b.
Proof.
  unfold script_num_value. rewrite last_snoc, le_combine_snoc, length_app. cbn [length].
  replace (length bs + 1 - 1)%nat with (length bs) by lia. destruct (_ <=? _); lia.
Qed.

(** A script number of n bytes has magnitude below [2^(8n-1)]. *)
Lemma script_num_value_bound bs :
  bs ≠ [] → 2 * Z.abs (script_num_value bs) < 2 ^ (8 * Z.of_nat (length bs)).
Proof.
  destruct bs as [|b bs _] using rev_ind; [done|]. intros _.
  rewrite script_num_value_snoc, length_app, Nat.add_1_r, pow256.
  pose proof (le_combine_bound bs). pose proof (byte.unsigned_range b).
  set (P := 2 ^ (8 * Z.of_nat (length bs))) in *. destruct (_ <=? _) eqn:Hs; nia.
Qed.

Lemma script_num_bytes_spec fuel a :
  0 ≤ a < 2 ^ (8 * Z.of_nat fuel) →
  let bs := script_num_bytes fuel a in
  le_combine bs = a ∧ (length bs ≤ fuel)%nat ∧
  (0 < a → ∃ init b, bs = init ++ [b] ∧ 2 ^ (8 * Z.of_nat (length init)) ≤ a).
Proof.
  revert a; induction fuel as [|fuel IH]; intros a Ha; cbn [script_num_bytes].
  - change (2 ^ (8 * Z.of_nat 0)) with 1 in Ha. rewrite le_combine_nil.
    split_and!; [lia|done|intros ?; lia].
  - destruct (0 <? a) eqn:Hp; [|rewrite le_combine_nil; split_and!; [lia|cbn; lia|intros ?; lia]].
    rewrite pow256 in Ha. rewrite Z.shiftr_div_pow2 by lia. change (2 ^ 8) with 256.
    assert (0 ≤ a / 256 < 2 ^ (8 * Z.of_nat fuel)) as Hd.
    { split; [apply Z.div_pos; lia|]. apply Z.div_lt_upper_bound; lia. }
    destruct (IH _ Hd) as (Hc & Hlen & Hinit).
    change 255 with (Z.ones 8). rewrite Z.land_ones by lia. change (2 ^ 8) with 256.
    pose proof (Z.div_mod a 256 ltac:(lia)). pose proof (Z.mod_pos_bound a 256 ltac:(lia)).
    split_and!.
    + rewrite le_combine_cons, unsigned_of_Z_small, Hc by done. lia.
    + cbn [length]. lia.
    + intros _. destruct (decide (0 < a / 256)) as [Hpos|Hz].
      * destruct (Hinit Hpos) as (init & b & -> & Hle).
        exists (byte.of_Z (a mod 256) :: init), b. split; [done|].
        cbn [length]. rewrite pow256. nia.
      * exists [], (byte.of_Z (a mod 256)). split; [|cbn; lia].
        replace (a / 256) with 0 by lia. by destruct fuel.
Qed.

Lemma script_num_sign_free (negative : bool) init b a :
  le_combine (init ++ [b]) = a →
  script_num_value
    (if negb (Z.land (byte.unsigned b) 0x80 =? 0)
     then (init ++ [b]) ++ [if negative then Byte.x80 else Byte.x00]
     else if negative then init ++ [byte.of_Z (Z.lor (byte.unsigned b) 0x80)] else init ++ [b])
  = if negative then - a else a.
Proof.
  intros <-. pose proof (byte.unsigned_range b). rewrite byte_low7.
  destruct (128 <=? byte.unsigned b) eqn:Hb; cbn [negb Z.eqb].
  - rewrite script_num_value_snoc. destruct negative; cbn; lia.
  - apply Z.leb_gt in Hb. destruct negative; rewrite script_num_value_snoc.
    + rewrite byte_set_high, unsigned_of_Z_small by lia.
      rewrite (proj2 (Z.leb_le 128 _)) by lia. rewrite le_combine_snoc. lia.
    + rewrite (proj2 (Z.leb_gt _ _)) by done. by rewrite le_combine_snoc.
Qed.

(** [minimal_script_num] is total on every i64 but [i64::MIN], decodes back to
    its argument, and no script number of fewer bytes denotes the same value. *)
Lemma minimal_script_num_spec value :
  - 2 ^ 63 < value < 2 ^ 63 →
  ∃ bs, minimal_script_num value = Ok bs ∧ script_num_value bs = value ∧
    (length bs ≤ 9)%nat ∧
    ∀ bs', script_num_value bs' = value → (length bs ≤ length bs')%nat.
Proof.
  intros Hv. unfold minimal_script_num. destruct (value =? 0) eqn:Hz.
  { exists []. apply Z.eqb_eq in Hz. split_and!; [done|by subst|cbn; lia|cbn; lia]. }
  apply Z.eqb_neq in Hz.
  assert ((if value <? 0 then @arith BuilderError I64 (- value) else Ok value) = Ok (Z.abs value))
    as ->.
  { destruct (value <? 0) eqn:Hn; [|f_equal; lia]. unfold arith.
    rewrite checked_fits by widths. cbn. f_equal. lia. }
  cbn [mbind result_bind].
  destruct (script_num_bytes_spec 8 (Z.abs value)) as (Hc & Hlen & Hinit); [cbn; lia|].
  destruct Hinit as (init & b & Hbs & Hle); [lia|]. rewrite Hbs in *.
  rewrite last_snoc. cbn [expect mbind result_bind].
  rewrite removelast_last. eexists; split; [done|].
  pose proof (script_num_sign_free (value <? 0) init b _ Hc) as Hval.
  replace (if value <? 0 then - Z.abs value else Z.abs value) with value in Hval
    by (destruct (value <? 0) eqn:?; lia).
  split; [exact Hval|]. rewrite length_app in Hlen. cbn [length] in Hlen. split.
  { repeat case_match; rewrite !length_app; cbn; lia. }
  intros bs' Hbs'. assert (bs' ≠ []) as Hne by (intros ->; cbn in Hbs'; lia).
  pose proof (script_num_value_bound bs' Hne) as Hb. rewrite Hbs' in Hb.
  assert (length init < length bs')%nat as Hlt.
  { apply Nat.nle_gt. intros Hle'.
    pose proof (Z.pow_le_mono_r 2 (8 * Z.of_nat (length bs')) (8 * Z.of_nat (length init))). lia. }
  rewrite byte_low7. destruct (128 <=? byte.unsigned b) eqn:Hhi; cbn [negb Z.eqb].
  - rewrite !length_app. cbn [length]. apply Nat.nlt_ge. intros Hlt'.
    assert (length bs' = S (length init)) as Heq by lia. rewrite Heq, pow256 in Hb.
    rewrite le_combine_snoc in Hc. pose proof (le_combine_bound init). nia.
  - destruct (value <? 0); rewrite !length_app; cbn [length]; lia.
Qed.

Lemma height_num_length h bs :
  0 ≤ h < 2 ^ 32 → minimal_script_num h = Ok bs → (length bs ≤ 5)%nat.
Proof.
  intros Hh Hbs. destruct (minimal_script_num_spec h) as (bs' & Hbs' & _ & _ & Hmin); [lia|].
  assert (bs' = bs) as -> by congruence.
  specialize (Hmin (le_bytes 4 h ++ [Byte.x00])). rewrite length_app, le_bytes_length in Hmin.
  apply Hmin. rewrite script_num_value_snoc, le_combine_le_bytes by (cbn; lia). cbn. lia.
Qed.

(** A block at any height from 1 to [u32::MAX] gets a height script of two
    to six bytes from which a BIP34 validator reads the height back, whatever
    data follows it in the scriptSig. *)
Theorem coinbase_height_script_roundtrip h :
  1 ≤ h ≤ int_max U32 →
  ∃ script, coinbase_height_script h = Ok script ∧ (2 ≤ length script ≤ 6)%nat ∧
    ∀ suffix, script_height (script ++ suffix) = Some h.
Proof.
  intros Hh. cbn [int_max] in Hh. unfold coinbase_height_script. cbn [int_max].
  rewrite (proj2 (Z.ltb_ge _ _)) by lia. destruct (h <=? 16) eqn:Hsmall.
  { eexists; split; [done|]. split; [cbn; lia|]. intros suffix. cbn -[byte.unsigned byte.of_Z].
    rewrite unsigned_of_Z_small by lia.
    rewrite (proj2 (Z.leb_le 81 _)), (proj2 (Z.leb_le _ 96)) by lia. cbn. f_equal. lia. }
  apply Z.leb_gt in Hsmall.
  destruct (minimal_script_num_spec h) as (bs & Hbs & Hval & _ & _); [lia|].
  pose proof (height_num_length h bs ltac:(lia) Hbs) as Hlen.
  assert (bs ≠ []) as Hne by (intros ->; cbn in Hval; lia).
  assert (0 < length bs)%nat as Hpos by (destruct bs; [done|cbn; lia]).
  rewrite Hbs. cbn [mbind result_bind]. eexists; split; [done|].
  unfold compact_push. rewrite (proj2 (Z.leb_le _ 75)) by lia.
  split; [cbn; lia|]. intros suffix.
  unfold script_height. cbn [app]. rewrite unsigned_of_Z_small by lia.
  rewrite (proj2 (Z.leb_gt 81 _)) by lia. cbn [andb].
  rewrite (proj2 (Z.leb_le _ 75)), length_app, (proj2 (Z.leb_le _ _)) by lia. cbn [andb].
  by rewrite Nat2Z.id, take_app_length, Hval.
Qed.

Lemma coinbase_height_script_roundtrip_witness :
  ∃ script, coinbase_height_script 840000 = Ok script ∧
    script_height (script ++ [Byte.xff]) = Some 840000.
Proof.
  destruct (coinbase_height_script_roundtrip 840000) as (s & Hs & _ & Hd); [cbn; lia|].
  exists s. split; [exact Hs|apply Hd].
Defined.

(** * Merkle root *)
Section merkle.
Context `{Sha256Crate}.

(** The node at height [k] and position [i] of the tree over [l]; a node
    without a right child is paired with itself. *)
Fixpoint merkle_node (l : list (list byte)) (k i : nat) : option (list byte) :=
  match k with
  | O => l !! i
  | S k =>
      left ← merkle_node l k (2 * i);
      Some (hash256_pair left (default left (merkle_node l k (2 * i + 1))))
  end.

Lemma merkle_level_lookup l i :
  merkle_level l !! i =
  (x ← l !! (2 * i)%nat; Some (hash256_pair x (default x (l !! (2 * i + 1)%nat)))).
Proof.
  revert i. induction l as [| |x y l IH] using list_pair_ind; intros i.
  - done.
  - destruct i as [|i]; [done|]. cbn [merkle_level].
    replace (2 * S i)%nat with (S (S (2 * i))) by lia. done.
  - destruct i as [|i]; [done|]. cbn [merkle_level].
    replace (2 * S i)%nat with (S (S (2 * i))) by lia.
    replace (S (S (2 * i)) + 1)%nat with (S (S (2 * i + 1))) by lia. apply IH.
Qed.

Lemma merkle_node_level l k i : merkle_node (merkle_level l) k i = merkle_node l (S k) i.
Proof.
  revert i. induction k as [|k IH]; intros i; [apply merkle_level_lookup|].
  cbn [merkle_node] in *. by rewrite !IH.
Qed.

Lemma merkle_level_length l : length (merkle_level l) = ((length l + 1) / 2)%nat.
Proof.
  induction l as [| |x y l IH] using list_pair_ind; [done..|].
  cbn [merkle_level length]. rewrite IH.
  replace (S (S (length l)) + 1)%nat with (1 * 2 + (length l + 1))%nat by lia.
  rewrite Nat.div_add_l by lia. lia.
Qed.

Lemma log2_up_half n : (2 ≤ n)%nat → Nat.log2_up n = S (Nat.log2_up ((n + 1) / 2)).
Proof.
  intros Hn. apply Nat.log2_up_unique; [lia|]. cbn [pred].
  set (m := ((n + 1) / 2)%nat).
  pose proof (Nat.div_mod (n + 1) 2 ltac:(lia)) as Hm. fold m in Hm. clearbody m.
  pose proof (Nat.mod_upper_bound (n + 1) 2 ltac:(lia)).
  destruct (decide (m = 1%nat)) as [Hm1|Hm1].
  { rewrite Hm1 in *. cbn. lia. }
  destruct (Nat.log2_up_spec m ltac:(lia)) as [Hlo Hhi].
  assert (Nat.log2_up m <> 0)%nat by (intros Hz0; rewrite Hz0 in Hhi; cbn in Hhi; lia).
  rewrite Nat.pow_succ_r'. split; [|lia].
  destruct (Nat.log2_up m) as [|j] eqn:Hj; [done|]. cbn [pred] in Hlo.
  rewrite Nat.pow_succ_r'. lia.
Qed.

Lemma merkle_loop_node fuel l :
  l ≠ [] → (length l ≤ fuel)%nat →
  ∃ x, merkle_loop fuel l = Some [x] ∧ merkle_node l (Nat.log2_up (length l)) 0 = Some x.
Proof.
  revert l; induction fuel as [|fuel IH]; intros [|x [|y l]] Hne Hlen;
    [done|cbn in Hlen; lia..|done|exists x; by split|].
  cbn [merkle_loop]. rewrite log2_up_half, <- merkle_node_level, <- merkle_level_length by (cbn; lia).
  apply IH; [done|]. rewrite merkle_level_length. cbn [length] in *.
  apply Nat.lt_succ_r, Nat.Div0.div_lt_upper_bound; lia.
Qed.

Lemma merkle_root_total hashes : hashes ≠ [] → ∃ root, merkle_root hashes = Ok root.
Proof.
  intros Hne. destruct (merkle_loop_node (length hashes) hashes Hne) as (x & Hl & _); [done|].
  exists x. unfold merkle_root. by rewrite Hl.
Qed.
(** The merkle loop terminates on every non-empty list of hashes, and its
    root is the node at height ceil(log2 n) of the recursive tree definition. *)
Theorem merkle_root_is_tree_root hashes :
  hashes ≠ [] →
  ∃ root, merkle_root hashes = Ok root ∧
    merkle_node hashes (Nat.log2_up (length hashes)) 0 = Some root.
Proof.
  intros Hne. destruct (merkle_loop_node (length hashes) hashes Hne) as (x & Hl & Hn); [done|].
  exists x. unfold merkle_root. by rewrite Hl.
Qed.

End merkle.

Lemma merkle_root_is_tree_root_witness :
  ∃ root, merkle_root [str_bytes "a"; str_bytes "b"; str_bytes "c"] = Ok root ∧
    root = hash256_pair (hash256_pair (str_bytes "a") (str_bytes "b"))
                        (hash256_pair (str_bytes "c") (str_bytes "c")).
Proof.
  destruct (merkle_root_is_tree_root [str_bytes "a"; str_bytes "b"; str_bytes "c"])
    as (root & Hr & Hn); [discriminate|].
  exists root. split; [exact Hr|]. cbn [merkle_node] in Hn. injection Hn as <-. reflexivity.
Defined.

(** * The coinbase transaction *)
Section coinbase.
Context `{HexCrate, Sha256Crate}.

(** What a successful build is made of. *)
Record coinbase_parts (request : CoinbaseBuildRequest) (built : BuiltCoinbase)
    (script nonce : list byte) (leaves : list (list byte)) : Prop := {
  cp_outputs : allocate_outputs request = Ok (bc_outputs built);
  cp_script : coinbase_script_sig request = Ok script;
  cp_nonce : witness_nonce request = Ok nonce;
  cp_leaves : witness_leaves request = Ok leaves;
  cp_commitment : witness_commitment_script leaves nonce = Ok (bc_witness_commitment_script built);
  cp_height : cbr_block_height request ≠ 0 ∧ cbr_block_height request ≤ int_max U32;
  cp_without : bc_tx_without_witness built =
    le_bytes 4 2 ++ coinbase_input_bytes script ++
    serialize_outputs (bc_outputs built) (bc_witness_commitment_script built) ++
    le_bytes 4 (cbr_block_height request - 1);
  cp_with : bc_tx_with_witness built =
    le_bytes 4 2 ++ [Byte.x00; Byte.x01] ++ coinbase_input_bytes script ++
    serialize_outputs (bc_outputs built) (bc_witness_commitment_script built) ++
    serialize_witness nonce ++ le_bytes 4 (cbr_block_height request - 1);
  cp_weight : bc_coinbase_weight_bytes built = Z.of_nat (length (bc_tx_with_witness built));
  cp_weight_max : bc_coinbase_weight_bytes built ≤ MAX_BLOCK_WEIGHT;
  cp_txid : bc_txid built = hash256 (bc_tx_without_witness built);
  cp_wtxid : bc_wtxid built = hash256 (bc_tx_with_witness built);
  cp_value : sum_of ao_amount_sats (bc_outputs built) = cbr_coinbase_value_sats request;
  cp_total_weight : bc_total_weight built = sum_of ao_weight (bc_outputs built);
}.

Lemma build_coinbase_inv request built :
  build_coinbase request = Ok built →
  ∃ script nonce leaves, coinbase_parts request built script nonce leaves.
Proof.
  intros Hb. unfold build_coinbase, serialize_coinbase_prefix, serialize_coinbase_input,
    coinbase_lock_time in Hb.
  res_inv. repeat match goal with H : ?x = Ok ?a, H' : ?x = Ok ?b |- _ =>
    assert (b = a) as -> by congruence; clear H' end.
  repeat match goal with H : try_fold _ _ _ = Ok _ |- _ => apply try_sum_Ok in H end.
  repeat match goal with H : _ || _ = false |- _ => apply orb_false_iff in H as [??] end.
  do 3 eexists. constructor; cbn [bc_outputs bc_tx_without_witness bc_tx_with_witness
    bc_witness_commitment_script bc_coinbase_weight_bytes bc_txid bc_wtxid bc_total_weight];
    try done; try lia; by rewrite <- ?app_assoc.
Qed.

Lemma decode_32_length name raw bs : decode_32 name raw = Ok bs → length bs = 32%nat.
Proof. unfold decode_32. intros Hd. res_inv. by apply Nat.eqb_eq. Qed.

Lemma witness_nonce_length request nonce :
  witness_nonce request = Ok nonce → length nonce = 32%nat.
Proof.
  unfold witness_nonce. destruct (cbr_witness_nonce_hex request); [apply decode_32_length|].
  by intros [= <-].
Qed.

Lemma coinbase_script_sig_length request script :
  coinbase_script_sig request = Ok script →
  Z.of_nat (length script) ≤ MAX_COINBASE_SCRIPT_SIG_LEN.
Proof. unfold coinbase_script_sig. intros Hs. res_inv. lia. Qed.

Lemma compact_size_small n : n < 253 → compact_size n = [byte.of_Z n].
Proof. intros Hn. unfold compact_size. by rewrite (proj2 (Z.ltb_lt _ _)). Qed.

Lemma outputs_script_length request outputs o :
  wf_request request → allocate_outputs request = Ok outputs → o ∈ outputs →
  length (ao_script_pubkey o) = P2MR_SCRIPT_LEN.
Proof.
  intros Hwf Ha (i & Hi)%list_elem_of_lookup.
  destruct (allocate_outputs_split _ _ Hwf Ha) as (es & _ & _ & HF & _).
  destruct (Forall2_lookup_r _ _ _ _ _ HF Hi) as (e & _ & _ & _ & _ & Hlen & -> & _).
  unfold p2mr_script_pubkey. cbn. by rewrite Hlen.
Qed.

Lemma payouts_length os :
  (∀ o, o ∈ os → length (ao_script_pubkey o) = P2MR_SCRIPT_LEN) →
  length (os ≫= fun o => serialize_output (ao_amount_sats o) (ao_script_pubkey o)) =
  (43 * length os)%nat.
Proof.
  intros Hlen. induction os as [|o os IH]; [done|]. rewrite bind_cons, length_app, IH by set_solver.
  unfold serialize_output. rewrite !length_app, le_bytes_length, Hlen by set_solver.
  rewrite compact_size_small by done. cbn [length]. unfold P2MR_SCRIPT_LEN. lia.
Qed.

Context `{!Sha256Laws}.

Lemma witness_commitment_script_length leaves nonce script :
  witness_commitment_script leaves nonce = Ok script → length script = 38%nat.
Proof.
  unfold witness_commitment_script. intros Hs. res_inv. unfold hash256_pair, hash256.
  by rewrite !length_app, sha256_length.
Qed.

(** The coinbase weight is a closed formula of the scriptSig length and the
    number of outputs, 43 bytes a payout, and a build that succeeds keeps it
    within the block weight limit. *)
Theorem coinbase_weight_formula request built :
  wf_request request → build_coinbase request = Ok built →
  ∃ script, coinbase_script_sig request = Ok script ∧
    let n := Z.of_nat (length (bc_outputs built)) in
    bc_coinbase_weight_bytes built =
      133 + Z.of_nat (length script) + Z.of_nat (length (compact_size (n + 1))) + 43 * n ∧
    bc_coinbase_weight_bytes built ≤ MAX_BLOCK_WEIGHT.
Proof.
  intros Hwf Hb. destruct (build_coinbase_inv _ _ Hb) as (script & nonce & leaves & Hp).
  exists script. split; [apply Hp|]. split; [|apply Hp].
  rewrite (cp_weight _ _ _ _ _ Hp), (cp_with _ _ _ _ _ Hp).
  pose proof (coinbase_script_sig_length _ _ (cp_script _ _ _ _ _ Hp)) as Hs.
  unfold MAX_COINBASE_SCRIPT_SIG_LEN in Hs.
  pose proof (witness_nonce_length _ _ (cp_nonce _ _ _ _ _ Hp)) as Hn.
  pose proof (witness_commitment_script_length _ _ _ (cp_commitment _ _ _ _ _ Hp)) as Hc.
  pose proof (payouts_length (bc_outputs built)
    (fun o => outputs_script_length _ _ o Hwf (cp_outputs _ _ _ _ _ Hp))) as Hout.
  unfold coinbase_input_bytes, serialize_outputs, serialize_witness, serialize_output at 2.
  rewrite !length_app, !le_bytes_length, Hout, Hn, Hc, !(compact_size_small 1) by lia.
  rewrite (compact_size_small (Z.of_nat (length script))) by lia.
  rewrite (compact_size_small (Z.of_nat 38)), (compact_size_small (Z.of_nat 32)) by done.
  rewrite repeat_length, (Nat2Z.inj_add (length (bc_outputs built)) 1). change (Z.of_nat 1) with 1. cbn [length]. lia.
Qed.
End coinbase.

Lemma coinbase_weight_formula_witness :
  ∃ built, build_coinbase example_request = Ok built ∧
    ∃ script, coinbase_script_sig example_request = Ok script ∧
      bc_coinbase_weight_bytes built =
        133 + Z.of_nat (length script) +
        Z.of_nat (length (compact_size (Z.of_nat (length (bc_outputs built)) + 1))) +
        43 * Z.of_nat (length (bc_outputs built)).
Proof.
  assert (is_ok (build_coinbase example_request) = true) as Hok by (vm_compute; reflexivity).
  apply is_ok_ex in Hok as [built Hb].
  exists built. split; [exact Hb|].
  destruct (coinbase_weight_formula example_request built example_request_wf Hb)
    as (script & Hs & Hw & _).
  exists script. split; assumption.
Defined.
