(* ===== verification/PayoutManifest.v ===== *)
(** The payout manifest and its signature
    (crates/qbit-pool-builder/src/lib.rs): [build_manifest],
    [build_signed_manifest], [verify_signed_manifest]. *)
From Stdlib Require Import ZArith Lia.
From Stdlib Require String.
From coqutil Require Import Byte.
From stdpp Require Import base list strings gmap.
From S2P Require Import Prelude Order Bytes Crates Payee Apportion PoolBuilder CoinbaseTx.

Open Scope Z_scope.

Record PayoutOutput := {
  po_vout : Z;
  po_recipient_id : string;
  po_order_key : string;
  po_p2mr_program_hex : string;
  po_script_pubkey_hex : string;
  po_weight : Z;
  po_amount_sats : Z;
}.
#[export] Instance po_payee : Payee PayoutOutput :=
  {| recipient_id := po_recipient_id; order_key := po_order_key;
     p2mr_program_hex := po_p2mr_program_hex |}.

Record PayoutManifest := {
  pm_schema : string;
  pm_block_height : Z;
  pm_coinbase_value_sats : Z;
  pm_total_weight : Z;
  pm_coinbase_weight_bytes : Z;
  pm_payout_count : Z;
  pm_coinbase_tx_hex : string;
  pm_coinbase_txid : string;
  pm_coinbase_wtxid : string;
  pm_coinbase_script_sig_hex : string;
  pm_coinbase_script_sig_suffix_hex : string;
  pm_witness_nonce_hex : string;
  pm_witness_commitment_script_hex : string;
  pm_outputs : list PayoutOutput;
}.

Record ManifestSignature := {
  ms_algorithm : string;
  ms_public_key_hex : string;
  ms_signature_hex : string;
}.

Record SignedPayoutManifest := {
  spm_manifest : PayoutManifest;
  spm_signature : ManifestSignature;
}.

Section manifest.
Context `{HexCrate, Sha256Crate}.

(** [write!(hex, "{byte:02x}")] of the bytes in reverse order: two lower-case
    digits a byte, as [hex::encode] prints them. *)
Definition display_hash_hex (internal_le_hash : list byte) : string :=
  hex_encode (reverse internal_le_hash).

Definition payout_output (vout : nat) (o : AllocatedOutput) : PayoutOutput :=
  {| po_vout := Z.of_nat vout; po_recipient_id := ao_recipient_id o;
     po_order_key := ao_order_key o; po_p2mr_program_hex := hex_encode (ao_p2mr_program o);
     po_script_pubkey_hex := hex_encode (ao_script_pubkey o); po_weight := ao_weight o;
     po_amount_sats := ao_amount_sats o |}.

Definition build_manifest (request : CoinbaseBuildRequest) : result BuilderError PayoutManifest :=
  built ← build_coinbase request;
  script_sig ← coinbase_script_sig request;
  script_sig_suffix ← coinbase_script_sig_suffix request;
  let outputs := imap payout_output (bc_outputs built) in
  nonce ← witness_nonce request;
  Ok {| pm_schema := "qbit.prism.coinbase-manifest.v1";
        pm_block_height := cbr_block_height request;
        pm_coinbase_value_sats := cbr_coinbase_value_sats request;
        pm_total_weight := bc_total_weight built;
        pm_coinbase_weight_bytes := bc_coinbase_weight_bytes built;
        pm_payout_count := Z.of_nat (length outputs);
        pm_coinbase_tx_hex := hex_encode (bc_tx_with_witness built);
        pm_coinbase_txid := display_hash_hex (bc_txid built);
        pm_coinbase_wtxid := display_hash_hex (bc_wtxid built);
        pm_coinbase_script_sig_hex := hex_encode script_sig;
        pm_coinbase_script_sig_suffix_hex := hex_encode script_sig_suffix;
        pm_witness_nonce_hex := hex_encode nonce;
        pm_witness_commitment_script_hex := hex_encode (bc_witness_commitment_script built);
        pm_outputs := outputs |}.

Context `{Ed25519Crate, !ToJson PayoutManifest}.

Definition canonical_manifest_bytes (manifest : PayoutManifest)
  : result BuilderError (list byte) :=
  match json_to_vec manifest with inl e => Err (Json e) | inr bs => Ok bs end.

(** [ManifestSigningKey] wraps the crate's key. *)
Definition from_seed_hex (seed_hex : string) : result BuilderError SigningKey :=
  seed ← hex_decode_or seed_hex;
  if negb (length seed =? 32)%nat
  then Err (InvalidSigningSeedLength (Z.of_nat (length seed)))
  else Ok (signing_key_from_bytes seed).
Definition public_key_hex (key : SigningKey) : string :=
  hex_encode (verifying_key_to_bytes (verifying_key key)).
Definition sign_message_hex (key : SigningKey) (message : list byte) : string :=
  hex_encode (ed25519_sign key message).

Definition build_signed_manifest (request : CoinbaseBuildRequest) (key : SigningKey)
  : result BuilderError SignedPayoutManifest :=
  manifest ← build_manifest request;
  canonical_manifest ← canonical_manifest_bytes manifest;
  let signature := ed25519_sign key canonical_manifest in
  Ok {| spm_manifest := manifest;
        spm_signature :=
          {| ms_algorithm := "ed25519"; ms_public_key_hex := public_key_hex key;
             ms_signature_hex := hex_encode signature |} |}.

Definition verify_ed25519_message (public_key_hex : string) (message : list byte)
    (signature_hex : string) : result BuilderError () :=
  public_key_bytes ← hex_decode_or public_key_hex;
  if negb (length public_key_bytes =? 32)%nat
  then Err (InvalidPublicKeyLength (Z.of_nat (length public_key_bytes))) else
  public_key ← ok_or (verifying_key_from_bytes public_key_bytes) SignatureVerificationFailed;
  signature_bytes ← hex_decode_or signature_hex;
  if negb (length signature_bytes =? 64)%nat
  then Err (InvalidSignatureLength (Z.of_nat (length signature_bytes))) else
  if ed25519_verify public_key message signature_bytes then Ok ()
  else Err SignatureVerificationFailed.

Definition verify_signed_manifest (signed : SignedPayoutManifest) : result BuilderError () :=
  if negb (String.eqb (ms_algorithm (spm_signature signed)) "ed25519")
  then Err SignatureVerificationFailed else
  message ← canonical_manifest_bytes (spm_manifest signed);
  verify_ed25519_message (ms_public_key_hex (spm_signature signed)) message
    (ms_signature_hex (spm_signature signed)).
End manifest.

(** * Theorems *)
Section facts.
Context `{HexCrate, Sha256Crate, !HexLaws}.

Lemma hex_decode_or_encode bs : hex_decode_or (hex_encode bs) = Ok bs.
Proof. unfold hex_decode_or. by rewrite hex_decode_encode. Qed.

Lemma build_manifest_inv request manifest :
  build_manifest request = Ok manifest →
  ∃ built, build_coinbase request = Ok built ∧
    pm_outputs manifest = imap payout_output (bc_outputs built) ∧
    pm_coinbase_tx_hex manifest = hex_encode (bc_tx_with_witness built) ∧
    pm_coinbase_txid manifest = display_hash_hex (bc_txid built) ∧
    pm_total_weight manifest = bc_total_weight built ∧
    pm_payout_count manifest = Z.of_nat (length (bc_outputs built)) ∧
    pm_block_height manifest = cbr_block_height request ∧
    pm_coinbase_value_sats manifest = cbr_coinbase_value_sats request.
Proof.
  unfold build_manifest. intros Hm. res_inv. eexists; split; [done|]. cbn.
  rewrite length_imap. done.
Qed.

Lemma payout_output_sum (f : PayoutOutput -> Z) (g : AllocatedOutput -> Z) os :
  (∀ i o, f (payout_output i o) = g o) → sum_of f (imap payout_output os) = sum_of g os.
Proof.
  intros Hfg. unfold sum_of. f_equal. apply list_eq. intros i.
  rewrite !list_lookup_fmap, list_lookup_imap. destruct (os !! i); cbn; [by rewrite Hfg|done].
Qed.

(** A manifest discloses the whole coinbase: its outputs are numbered from
    vout 0 without gaps, its payout count is their number, their amounts sum to
    the coinbase value and their weights to the total weight, and every listed
    script is the P2MR script of the listed program. *)
Theorem manifest_discloses_coinbase request manifest :
  wf_request request → build_manifest request = Ok manifest →
  sum_of po_amount_sats (pm_outputs manifest) = cbr_coinbase_value_sats request ∧
  sum_of po_weight (pm_outputs manifest) = pm_total_weight manifest ∧
  pm_payout_count manifest = Z.of_nat (length (pm_outputs manifest)) ∧
  ∀ i o, pm_outputs manifest !! i = Some o →
    po_vout o = Z.of_nat i ∧
    ∃ program, hex_decode (po_p2mr_program_hex o) = inr program ∧
      length program = P2MR_PROGRAM_LEN ∧
      hex_decode (po_script_pubkey_hex o) = inr (p2mr_script_pubkey program).
Proof.
  intros Hwf Hm. destruct (build_manifest_inv _ _ Hm) as (built & Hb & -> & _ & _ & -> & -> & _).
  destruct (build_coinbase_inv _ _ Hb) as (script & nonce & leaves & Hp).
  rewrite length_imap, (cp_total_weight _ _ _ _ _ Hp), <- (cp_value _ _ _ _ _ Hp).
  split_and!; [by apply payout_output_sum..|done|].
  intros i o Ho. rewrite list_lookup_imap in Ho.
  destruct (bc_outputs built !! i) as [a|] eqn:Ha; [|done]. cbn in Ho. injection Ho as <-.
  cbn. split; [done|].
  destruct (allocate_outputs_split _ _ Hwf (cp_outputs _ _ _ _ _ Hp)) as (es & _ & _ & HF & _).
  destruct (Forall2_lookup_r _ _ _ _ _ HF Ha) as (e & _ & _ & _ & _ & Hlen & Hs & _).
  exists (ao_p2mr_program a). by rewrite Hs, !hex_decode_encode.
Qed.

Context `{Ed25519Crate, !Ed25519Laws, !ToJson PayoutManifest}.

Lemma verify_signed_message key message :
  verify_ed25519_message (public_key_hex key) message (sign_message_hex key message) = Ok ().
Proof.
  unfold verify_ed25519_message, public_key_hex, sign_message_hex.
  rewrite (hex_decode_or_encode (verifying_key_to_bytes _)). cbn [mbind result_bind].
  rewrite verifying_key_length. cbn [negb Nat.eqb]. rewrite verifying_key_bytes.
  cbn [ok_or mbind result_bind]. rewrite hex_decode_or_encode. cbn [mbind result_bind].
  by rewrite ed25519_sign_length, ed25519_sign_verify.
Qed.

(** Every manifest the builder signs passes [verify_signed_manifest]. *)
Theorem signed_manifest_verifies request key signed :
  build_signed_manifest request key = Ok signed →
  verify_signed_manifest signed = Ok ().
Proof.
  unfold build_signed_manifest, verify_signed_manifest. intros Hs. res_inv. cbn.
  match goal with H : canonical_manifest_bytes _ = Ok _ |- _ => rewrite H end. cbn.
  apply verify_signed_message.
Qed.
End facts.

(** * Witnesses *)
#[export] Instance example_manifest_json : ToJson PayoutManifest :=
  {| json_to_vec m := inr (str_bytes (pm_coinbase_tx_hex m)) |}.

Lemma manifest_discloses_coinbase_witness :
  ∃ manifest, build_manifest example_request = Ok manifest ∧
    sum_of po_amount_sats (pm_outputs manifest) = 1000.
Proof.
  assert (is_ok (build_manifest example_request) = true) as Hok by (vm_compute; reflexivity).
  apply is_ok_ex in Hok as [manifest Hm]. exists manifest. split; [exact Hm|].
  exact (proj1 (manifest_discloses_coinbase example_request manifest example_request_wf Hm)).
Defined.

Lemma signed_manifest_verifies_witness :
  ∃ signed, build_signed_manifest example_request (replicate 32 Byte.x07) = Ok signed ∧
    verify_signed_manifest signed = Ok ().
Proof.
  assert (is_ok (build_signed_manifest example_request (replicate 32 Byte.x07)) = true) as Hok
    by (vm_compute; reflexivity).
  apply is_ok_ex in Hok as [signed Hs]. exists signed. split; [exact Hs|].
  exact (signed_manifest_verifies example_request (replicate 32 Byte.x07) signed Hs).
Defined.
