(* ===== verification/PrismError.v ===== *)
(** The error type of the prism crate (crates/qbit-prism/src/lib.rs) and the
    conversions the [?] operator applies.  Errors of third-party crates carry
    their [Display] text. *)
From Stdlib Require Import ZArith.
From stdpp Require Import base strings.
From S2P Require Import Prelude PoolBuilder.

Inductive PrismError : Type :=
| ZeroNetworkDifficulty
| ZeroShareDifficulty (share_seq : Z)
| DuplicateShareId (share_id : string)
| ShareOutsideWindowCut (share_seq : Z)
| WindowOverflow
| PayoutPolicyOverflow
| InvalidMinOutputFloor
| PoolFeeBpsTooHigh (fee_bps : Z)
| DuplicatePoolFeeAccount
| PoolFeeFirstRequiresPoolFee
| EmptyWindow (anchor_job_issued_at_ms : Z)
| DuplicateCarryForward (recipient : string)
| CoinbaseBelowFloor (coinbase_value_sats min_output_sats : Z)
| NoOnchainRecipients
| PayoutExceedsCandidateBalance (coinbase_value_sats selected_candidate_balance_sats : Z)
| PayoutBelowFloor (recipient : string) (amount_sats min_output_sats : Z)
| MaturePayoutDisconnect (block_hash : string)
| Builder (e : BuilderError)
| PrismJson (display : string)
| AuditMismatch (artifact : string)
| AuditCoinbaseTxMismatch
| ExpectedCoinbaseValueMismatch (expected_coinbase_value_sats actual_coinbase_value_sats : Z)
| LedgerAttestationKeyReuse
| InvalidCtvFanoutManifest (reason : string)
| InvalidAuditCommitment (reason : string)
| SettlementModeSelection (reason : string).

Definition invalid_ctv_manifest {A} (reason : string) : result PrismError A :=
  Err (InvalidCtvFanoutManifest reason).

(** [if !holds { return Err(invalid_ctv_manifest(reason)) }]. *)
Definition require_ctv (holds : bool) (reason : string) : result PrismError unit :=
  if holds then Ok () else invalid_ctv_manifest reason.

Lemma require_ctv_Ok holds reason u : require_ctv holds reason = Ok u ↔ holds = true.
Proof. destruct holds, u; naive_solver. Qed.

(** A check goes through when it holds. *)
Lemma require_ctv_pass {A} holds reason (k : unit -> result PrismError A) :
  holds = true → (require_ctv holds reason ≫= k) = k ().
Proof. by intros ->. Qed.

(** [res_inv] that also takes the checks apart. *)
Ltac ctv_step :=
  match goal with
  | H : require_ctv _ _ = Ok _ |- _ => apply require_ctv_Ok in H
  | H : invalid_ctv_manifest _ = Ok _ |- _ => discriminate H
  | H : negb _ = true |- _ => apply negb_true_iff in H
  | H : bool_decide _ = true |- _ => apply bool_decide_eq_true in H
  | H : bool_decide _ = false |- _ => apply bool_decide_eq_false in H
  | H : (_ =? _)%Z = true |- _ => apply Z.eqb_eq in H
  | H : (_ =? _)%Z = false |- _ => apply Z.eqb_neq in H
  | H : (_ =? _)%nat = true |- _ => apply Nat.eqb_eq in H
  | H : (_ <=? _)%Z = true |- _ => apply Z.leb_le in H
  | H : (_ <? _)%Z = true |- _ => apply Z.ltb_lt in H
  | u : unit |- _ => destruct u
  | _ => res_step
  end.
Ltac ctv_inv := repeat ctv_step.
