(* ===== verification/CtvTx.v ===== *)
(** The transaction codec of the CTV fanout module
    (crates/qbit-prism/src/ctv.rs): [TxReader], [parse_transaction] and
    [serialize_tx_hex]. *)
From Stdlib Require Import ZArith Lia.
From Stdlib Require String.
From coqutil Require Import Byte Word.LittleEndianList.
From stdpp Require Import base list strings pretty gmap.
From S2P Require Import Prelude Order Bytes Crates Payee Apportion PoolBuilder CoinbaseTx PrismError.

Open Scope Z_scope.

Definition QBIT_MAX_MONEY_SATS : Z := 210000000 * 100000000.

(** * Data *)
Record ParsedTxIn := {
  pti_prev_txid_hex : string;
  pti_prev_vout : Z;
  pti_script_sig : list byte;
  pti_sequence : Z;
}.
Record ParsedTxOut := {
  pto_amount_sats : Z;
  pto_script_pubkey : list byte;
}.
Record ParsedTransaction := {
  ptx_version : Z;
  ptx_inputs : list ParsedTxIn;
  ptx_outputs : list ParsedTxOut;
  ptx_lock_time : Z;
  ptx_witness_stacks : option (list (list (list byte)));
  ptx_tx_without_witness : list byte;
}.
Record TxInputSpec := {
  tis_prev_txid_hex : string;
  tis_prev_vout : Z;
  tis_script_sig : list byte;
  tis_sequence : Z;
  tis_witness_stack : list (list byte);
}.
Record TxOutputSpec := {
  tos_amount_sats : Z;
  tos_script_pubkey : list byte;
}.

(** * The reader: a byte slice and an offset into it *)
Record TxReader := {
  tr_bytes : list byte;
  tr_offset : Z;
  tr_field_name : string;
}.
Definition reader_new (bytes : list byte) (field_name : string) : TxReader :=
  {| tr_bytes := bytes; tr_offset := 0; tr_field_name := field_name |}.
Definition reader_at (r : TxReader) (offset : Z) : TxReader :=
  {| tr_bytes := tr_bytes r; tr_offset := offset; tr_field_name := tr_field_name r |}.

(** A [&mut self] method: it returns the reader it leaves behind. *)
Definition read (A : Type) : Type := TxReader -> result PrismError (A * TxReader).
#[export] Instance read_ret : MRet read := fun _ a r => Ok (a, r).
#[export] Instance read_bind : MBind read := fun _ _ f m r => '(a, r) ← m r; f a r.

Definition truncated {A} (r : TxReader) : result PrismError A :=
  invalid_ctv_manifest (tr_field_name r +:+ " transaction is truncated").
Definition read_fail {A} (reason : string) : read A :=
  fun r => invalid_ctv_manifest (tr_field_name r +:+ reason).

Definition peek_u8 : read byte := fun r =>
  match tr_bytes r !! Z.to_nat (tr_offset r) with
  | Some b => Ok (b, r)
  | None => truncated r
  end.
Definition read_u8 : read byte := fun r =>
  '(b, r) ← peek_u8 r; Ok (b, reader_at r (tr_offset r + 1)).

(** [self.bytes.get(self.offset..end)]. *)
Definition read_bytes (len : Z) : read (list byte) := fun r =>
  match checked_add Usize (tr_offset r) len with
  | None => truncated r
  | Some end_ =>
      if end_ <=? Z.of_nat (length (tr_bytes r))
      then Ok (take (Z.to_nat len) (drop (Z.to_nat (tr_offset r)) (tr_bytes r)), reader_at r end_)
      else truncated r
  end.

Definition read_u32 : read Z := bs ← read_bytes 4; mret (le_combine bs).
(** [i64::from_le_bytes] is negative when the top bit is set. *)
Definition read_i64_nonnegative : read Z :=
  bs ← read_bytes 8;
  let value := le_combine bs in
  if 2 ^ 63 <=? value then read_fail " has negative transaction output value" else
  if QBIT_MAX_MONEY_SATS <? value
  then read_fail " has transaction output value above MAX_MONEY" else mret value.

Definition read_sized (n lo : Z) : read Z :=
  raw ← read_bytes n;
  let value := le_combine raw in
  if value <? lo then read_fail " has non-canonical compact size" else mret value.
Definition read_compact_size : read Z :=
  first ← read_u8;
  let first := byte.unsigned first in
  if first <=? 0xfc then mret first
  else if first =? 0xfd then read_sized 2 0xfd
  else if first =? 0xfe then read_sized 4 (0xffff + 1)
  else read_sized 8 (0xffffffff + 1).

Definition remaining (r : TxReader) : Z :=
  saturating_sub Usize (Z.of_nat (length (tr_bytes r))) (tr_offset r).
(** A u64 always converts to the 64-bit usize. *)
Definition read_compact_size_as_usize : read Z := fun r =>
  '(value, r) ← read_compact_size r;
  if remaining r <? value then truncated r else Ok (value, r).
Definition read_var_bytes : read (list byte) :=
  len ← read_compact_size_as_usize; read_bytes len.
Definition expect_finished : read () := fun r =>
  if tr_offset r =? Z.of_nat (length (tr_bytes r)) then Ok ((), r)
  else invalid_ctv_manifest (tr_field_name r +:+ " has trailing transaction bytes").

(** [for _ in 0..n { v.push(f()?) }]. *)
Fixpoint read_n {A} (n : nat) (f : read A) : read (list A) :=
  match n with
  | O => mret []
  | S n => x ← f; xs ← read_n n f; mret (x :: xs)
  end.

(** * Parsing and serialising *)
(** [compact_size] of this module: the pool builder's, written a second time. *)
Definition ctv_compact_size (size : Z) : list byte :=
  if size <? 253 then [byte.of_Z size]
  else if size <=? int_max U16 then byte.of_Z 0xfd :: le_bytes 2 size
  else if size <=? int_max U32 then byte.of_Z 0xfe :: le_bytes 4 size
  else byte.of_Z 0xff :: le_bytes 8 size.

(** [ParsedTxOut::serialize]. *)
Definition serialize_txout (o : ParsedTxOut) : list byte :=
  le_bytes 8 (pto_amount_sats o) ++
  ctv_compact_size (Z.of_nat (length (pto_script_pubkey o))) ++ pto_script_pubkey o.

Section codec.
Context `{HexCrate}.

Definition read_input : read ParsedTxIn :=
  prev_txid_raw ← read_bytes 32;
  prev_vout ← read_u32;
  script_sig ← read_var_bytes;
  sequence ← read_u32;
  mret {| pti_prev_txid_hex := hex_encode (reverse prev_txid_raw); pti_prev_vout := prev_vout;
          pti_script_sig := script_sig; pti_sequence := sequence |}.
Definition read_output : read ParsedTxOut :=
  amount_sats ← read_i64_nonnegative;
  script_pubkey ← read_var_bytes;
  mret {| pto_amount_sats := amount_sats; pto_script_pubkey := script_pubkey |}.
Definition read_stack : read (list (list byte)) :=
  item_count ← read_compact_size_as_usize;
  read_n (Z.to_nat item_count) read_var_bytes.

(** The marker and flag of a segregated-witness serialisation. *)
Definition read_witness_flag : read bool :=
  marker ← peek_u8;
  if byte.unsigned marker =? 0 then
    _ ← read_u8;
    flag ← read_u8;
    if byte.unsigned flag =? 0 then read_fail " has invalid witness flag 0" else mret true
  else mret false.

Definition input_without_witness (i : ParsedTxIn) : result PrismError (list byte) :=
  prev_txid ← match hex_decode (pti_prev_txid_hex i) with
              | inl _ => Panic "display txid hex" | inr bs => Ok bs end;
  Ok (reverse prev_txid ++ le_bytes 4 (pti_prev_vout i) ++
      ctv_compact_size (Z.of_nat (length (pti_script_sig i))) ++ pti_script_sig i ++
      le_bytes 4 (pti_sequence i)).

Definition without_witness (version : Z) (inputs : list ParsedTxIn) (outputs : list ParsedTxOut)
    (lock_time : Z) : result PrismError (list byte) :=
  ins ← collect input_without_witness inputs;
  Ok (le_bytes 4 version ++ ctv_compact_size (Z.of_nat (length inputs)) ++ mjoin ins ++
      ctv_compact_size (Z.of_nat (length outputs)) ++ (outputs ≫= serialize_txout) ++
      le_bytes 4 lock_time).

Definition read_body (version : Z) (has_witness : bool)
  : read (Z * list ParsedTxIn * list ParsedTxOut * option (list (list (list byte))) * Z) :=
  input_count ← read_compact_size_as_usize;
  if input_count =? 0 then read_fail " has no inputs" else
  inputs ← read_n (Z.to_nat input_count) read_input;
  output_count ← read_compact_size_as_usize;
  outputs ← read_n (Z.to_nat output_count) read_output;
  witness_stacks ← (if has_witness
                    then stacks ← read_n (Z.to_nat input_count) read_stack; mret (Some stacks)
                    else mret None);
  lock_time ← read_u32;
  _ ← expect_finished;
  mret (version, inputs, outputs, witness_stacks, lock_time).

Definition read_transaction
  : read (Z * list ParsedTxIn * list ParsedTxOut * option (list (list (list byte))) * Z) :=
  version ← read_u32;
  has_witness ← read_witness_flag;
  read_body version has_witness.

Definition parse_transaction (bytes : list byte) (field_name : string)
  : result PrismError ParsedTransaction :=
  '(tx, _) ← read_transaction (reader_new bytes field_name);
  let '(version, inputs, outputs, witness_stacks, lock_time) := tx in
  tx_without_witness ← without_witness version inputs outputs lock_time;
  Ok {| ptx_version := version; ptx_inputs := inputs; ptx_outputs := outputs;
        ptx_lock_time := lock_time; ptx_witness_stacks := witness_stacks;
        ptx_tx_without_witness := tx_without_witness |}.

Definition parse_transaction_hex (tx_hex field_name : string)
  : result PrismError ParsedTransaction :=
  match hex_decode tx_hex with
  | inl err => invalid_ctv_manifest (field_name +:+ " is not valid hex: " +:+ err)
  | inr tx_bytes => parse_transaction tx_bytes field_name
  end.

Definition input_spec_bytes (i : TxInputSpec) : result PrismError (list byte) :=
  match hex_decode (tis_prev_txid_hex i) with
  | inl err => invalid_ctv_manifest ("prev txid must be hex: " +:+ err)
  | inr prev_txid =>
      if negb (length prev_txid =? 32)%nat then invalid_ctv_manifest "prev txid must be 32 bytes"
      else Ok (reverse prev_txid ++ le_bytes 4 (tis_prev_vout i) ++
               ctv_compact_size (Z.of_nat (length (tis_script_sig i))) ++ tis_script_sig i ++
               le_bytes 4 (tis_sequence i))
  end.
Definition output_spec_bytes (o : TxOutputSpec) : list byte :=
  le_bytes 8 (tos_amount_sats o) ++
  ctv_compact_size (Z.of_nat (length (tos_script_pubkey o))) ++ tos_script_pubkey o.
Definition item_bytes (item : list byte) : list byte :=
  ctv_compact_size (Z.of_nat (length item)) ++ item.
Definition stack_bytes (stack : list (list byte)) : list byte :=
  ctv_compact_size (Z.of_nat (length stack)) ++ (stack ≫= item_bytes).

Definition serialize_tx_hex (version : Z) (inputs : list TxInputSpec)
    (outputs : list TxOutputSpec) (lock_time : Z) (with_witness : bool)
  : result PrismError string :=
  ins ← collect input_spec_bytes inputs;
  Ok (hex_encode (
    le_bytes 4 version ++ (if with_witness then [Byte.x00; Byte.x01] else []) ++
    ctv_compact_size (Z.of_nat (length inputs)) ++ mjoin ins ++
    ctv_compact_size (Z.of_nat (length outputs)) ++ (outputs ≫= output_spec_bytes) ++
    (if with_witness then inputs ≫= fun i => stack_bytes (tis_witness_stack i) else []) ++
    le_bytes 4 lock_time)).

(** [ParsedTransaction::txid_hex]. *)
Context `{Sha256Crate}.
Definition txid_hex (tx : ParsedTransaction) : string :=
  hex_encode (reverse (sha256 (sha256 (ptx_tx_without_witness tx)))).
End codec.

(** * Reader lemmas

    [ahead r l]: the bytes from the reader's offset to the end are [l]. *)
Definition ahead (r : TxReader) (l : list byte) : Prop :=
  0 ≤ tr_offset r ∧ tr_offset r + Z.of_nat (length l) = Z.of_nat (length (tr_bytes r)) ∧
  drop (Z.to_nat (tr_offset r)) (tr_bytes r) = l ∧
  Z.of_nat (length (tr_bytes r)) ≤ int_max Usize.

(** [m] reads [a] off the front when the input starts with [bs]. *)
Definition reads {A} (m : read A) (bs : list byte) (a : A) : Prop :=
  ∀ r rest, ahead r (bs ++ rest) → ∃ r', m r = Ok (a, r') ∧ ahead r' rest.

(** Whatever [m] reads, it consumed bytes that encode it. *)
Definition yields {A} (m : read A) (enc : A -> list byte -> Prop) : Prop :=
  ∀ r l a r', ahead r l → m r = Ok (a, r') →
    ∃ bs rest, l = bs ++ rest ∧ enc a bs ∧ ahead r' rest.

Lemma ahead_new bytes name :
  Z.of_nat (length bytes) ≤ int_max Usize → ahead (reader_new bytes name) bytes.
Proof. intros Hl. unfold ahead, reader_new. cbn. split_and!; try done. Qed.

Lemma ahead_step r bs rest :
  ahead r (bs ++ rest) → ahead (reader_at r (tr_offset r + Z.of_nat (length bs))) rest.
Proof.
  intros (Ho & Hl & Hd & Hb). unfold ahead, reader_at; cbn. rewrite length_app in Hl.
  split_and!; [lia|lia| |done].
  rewrite Z2Nat.inj_add, Nat2Z.id by lia. rewrite <- drop_drop, Hd. apply drop_app_length.
Qed.

Lemma reads_ret {A} (a : A) : reads (mret a) [] a.
Proof. intros r rest H. by exists r. Qed.

Lemma reads_bind {A B} (m : read A) (f : A -> read B) bs bs' a b :
  reads m bs a → reads (f a) bs' b → reads (m ≫= f) (bs ++ bs') b.
Proof.
  intros Hm Hf r rest Hr. rewrite <- app_assoc in Hr.
  destruct (Hm _ _ Hr) as (r1 & H1 & Hr1). destruct (Hf _ _ Hr1) as (r2 & H2 & Hr2).
  exists r2. split; [|done]. unfold mbind, read_bind. rewrite H1. cbn. exact H2.
Qed.

Lemma reads_ret_bind {A B} (m : read A) (g : A -> B) bs a :
  reads m bs a → reads (x ← m; mret (g x)) bs (g a).
Proof.
  intros Hm. rewrite <- (app_nil_r bs). eapply reads_bind; [done|]. apply reads_ret.
Qed.

Lemma yields_ret {A} (a : A) (enc : A -> list byte -> Prop) : enc a [] → yields (mret a) enc.
Proof. intros He r l a' r' Hr [= <- <-]. by exists [], l. Qed.

Lemma yields_bind {A B} (m : read A) (f : A -> read B) (enc : A -> list byte -> Prop)
    (enc' : B -> list byte -> Prop) :
  yields m enc → (∀ a bs, enc a bs → yields (f a) (fun b bs' => enc' b (bs ++ bs'))) →
  yields (m ≫= f) enc'.
Proof.
  intros Hm Hf r l b r' Hr H. unfold mbind, read_bind in H.
  apply bind_Ok in H as ([a r1] & H1 & H2).
  destruct (Hm _ _ _ _ Hr H1) as (bs & rest & -> & He & Hr1).
  destruct (Hf a bs He _ _ _ _ Hr1 H2) as (bs' & rest' & -> & He' & Hr').
  exists (bs ++ bs'), rest'. by rewrite <- app_assoc.
Qed.

Lemma yields_weaken {A} (m : read A) (enc enc' : A -> list byte -> Prop) :
  yields m enc → (∀ a bs, enc a bs → enc' a bs) → yields m enc'.
Proof.
  intros Hm Hw r l a r' Hr H. destruct (Hm _ _ _ _ Hr H) as (bs & rest & -> & He & Hr').
  exists bs, rest. eauto.
Qed.

Lemma yields_fail {A} reason (enc : A -> list byte -> Prop) : yields (read_fail reason) enc.
Proof. by intros r l a r' _ H. Qed.

(** ** Fixed-size reads *)
Lemma read_bytes_Ok r l n :
  ahead r l → 0 ≤ n →
  read_bytes n r = if n <=? Z.of_nat (length l)
                   then Ok (take (Z.to_nat n) l, reader_at r (tr_offset r + n)) else truncated r.
Proof.
  intros (Ho & Hl & Hd & Hb) Hn. unfold read_bytes, checked_add, checked. rewrite Hd.
  destruct (n <=? Z.of_nat (length l)) eqn:Hle.
  - rewrite (proj2 (fits_iff _ _)) by widths. by rewrite (proj2 (Z.leb_le _ _)) by lia.
  - destruct (fits _ _); [|done]. by rewrite (proj2 (Z.leb_gt _ _)) by lia.
Qed.

Lemma reads_bytes bs : reads (read_bytes (Z.of_nat (length bs))) bs bs.
Proof.
  intros r rest Hr. rewrite (read_bytes_Ok _ _ _ Hr) by lia. rewrite length_app.
  rewrite (proj2 (Z.leb_le _ _)) by lia. rewrite Nat2Z.id, take_app_length.
  eexists; split; [done|]. by apply ahead_step.
Qed.

Lemma reads_le_bytes n (k : nat) z :
  n = Z.of_nat k → reads (read_bytes n) (le_bytes k z) (le_bytes k z).
Proof. intros ->. rewrite <- (le_bytes_length k z) at 1. apply reads_bytes. Qed.

Lemma yields_bytes n : 0 ≤ n →
  yields (read_bytes n) (fun a bs => bs = a ∧ Z.of_nat (length a) = n).
Proof.
  intros Hn r l a r' Hr H. rewrite (read_bytes_Ok _ _ _ Hr) in H by done.
  destruct (n <=? Z.of_nat (length l)) eqn:Hle; [|done]. injection H as <- <-.
  assert (Z.of_nat (length (take (Z.to_nat n) l)) = n) as Hlen by (rewrite length_take; lia).
  exists (take (Z.to_nat n) l), (drop (Z.to_nat n) l). rewrite take_drop.
  split_and!; try done. rewrite <- Hlen at 1. apply ahead_step. by rewrite take_drop.
Qed.

Lemma peek_u8_ahead r b rest : ahead r (b :: rest) → peek_u8 r = Ok (b, r).
Proof.
  intros (_ & _ & Hd & _). unfold peek_u8.
  rewrite <- (Nat.add_0_r (Z.to_nat (tr_offset r))), <- lookup_drop, Hd. done.
Qed.

Lemma peek_u8_inv r l b r' : ahead r l → peek_u8 r = Ok (b, r') → r' = r ∧ ∃ rest, l = b :: rest.
Proof.
  intros (_ & _ & Hd & _) H. unfold peek_u8 in H.
  rewrite <- (Nat.add_0_r (Z.to_nat (tr_offset r))), <- lookup_drop, Hd in H.
  destruct l as [|c l]; [done|]. cbn in H. injection H as <- <-. eauto.
Qed.

Lemma reads_u8 b : reads read_u8 [b] b.
Proof.
  intros r rest Hr. unfold read_u8. rewrite (peek_u8_ahead _ _ _ Hr). cbn.
  eexists; split; [done|]. by apply (ahead_step r [b]).
Qed.

Lemma yields_u8 : yields read_u8 (fun b bs => bs = [b]).
Proof.
  intros r l b r' Hr H. unfold read_u8 in H. apply bind_Ok in H as ([c r1] & H1 & H2).
  destruct (peek_u8_inv _ _ _ _ Hr H1) as (-> & rest & ->). injection H2 as <- <-.
  exists [c], rest. split_and!; [done..|]. by apply (ahead_step r [c]).
Qed.

Lemma le_bytes_combine n bs : length bs = n → le_bytes n (le_combine bs) = bs.
Proof. apply split_le_combine'. Qed.

Lemma le_combine_range bs n :
  Z.of_nat (length bs) = n → 0 ≤ le_combine bs < 2 ^ (8 * n).
Proof. intros <-. apply le_combine_bound. Qed.

Lemma reads_u32 z : fits U32 z = true → reads read_u32 (le_bytes 4 z) z.
Proof.
  intros Hz. unfold read_u32. apply fits_iff in Hz. cbn [int_min int_max] in Hz.
  rewrite <- (le_combine_le_bytes 4 z) at 2 by (cbn; lia).
  apply reads_ret_bind. by apply (reads_le_bytes 4 4).
Qed.

Lemma yields_u32 : yields read_u32 (fun z bs => bs = le_bytes 4 z ∧ fits U32 z = true).
Proof.
  unfold read_u32. eapply yields_bind; [by apply yields_bytes|].
  intros bs ? [-> Hlen]. apply yields_ret. rewrite app_nil_r.
  pose proof (le_combine_range bs 4 Hlen). split; [|widths].
  symmetry. apply le_bytes_combine. lia.
Qed.

Definition money_ok (z : Z) : Prop := 0 ≤ z ≤ QBIT_MAX_MONEY_SATS.

Lemma reads_i64 z : money_ok z → reads read_i64_nonnegative (le_bytes 8 z) z.
Proof.
  unfold money_ok, QBIT_MAX_MONEY_SATS. intros Hz. unfold read_i64_nonnegative.
  rewrite <- (app_nil_r (le_bytes 8 z)). eapply reads_bind.
  - by apply (reads_le_bytes 8 8).
  - rewrite le_combine_le_bytes by (cbn; lia). unfold QBIT_MAX_MONEY_SATS.
    rewrite (proj2 (Z.leb_gt _ _)), (proj2 (Z.ltb_ge _ _)) by lia. apply reads_ret.
Qed.

Lemma yields_i64 : yields read_i64_nonnegative (fun z bs => bs = le_bytes 8 z ∧ money_ok z).
Proof.
  unfold read_i64_nonnegative. eapply yields_bind; [by apply yields_bytes|].
  intros bs ? [-> Hlen]. pose proof (le_combine_range bs 8 Hlen).
  destruct (2 ^ 63 <=? le_combine bs) eqn:Hneg; [apply yields_fail|].
  destruct (QBIT_MAX_MONEY_SATS <? le_combine bs) eqn:Hmax; [apply yields_fail|].
  apply yields_ret. rewrite app_nil_r. unfold money_ok. split; [|lia].
  symmetry. apply le_bytes_combine. lia.
Qed.

(** ** Compact sizes *)
Lemma reads_sized n (k : nat) lo z :
  n = Z.of_nat k → lo ≤ z → 0 ≤ z < 2 ^ (Z.of_nat k * 8) → reads (read_sized n lo) (le_bytes k z) z.
Proof.
  intros -> Hlo Hz. unfold read_sized. rewrite <- (app_nil_r (le_bytes k z)). eapply reads_bind.
  - by apply reads_le_bytes.
  - rewrite le_combine_le_bytes by done. rewrite (proj2 (Z.ltb_ge _ _)) by lia. apply reads_ret.
Qed.

Lemma yields_sized n (k : nat) lo :
  n = Z.of_nat k →
  yields (read_sized n lo) (fun z bs => bs = le_bytes k z ∧ lo ≤ z ∧ 0 ≤ z < 2 ^ (8 * n)).
Proof.
  intros ->. unfold read_sized. eapply yields_bind; [apply yields_bytes; lia|].
  intros bs ? [-> Hlen]. pose proof (le_combine_range bs _ Hlen).
  destruct (le_combine bs <? lo) eqn:Hlo; [apply yields_fail|].
  apply yields_ret. rewrite app_nil_r. split; [|lia]. symmetry. apply le_bytes_combine. lia.
Qed.

(** The pool builder's [compact_size] and this module's agree. *)
Lemma ctv_compact_size_eq n : ctv_compact_size n = compact_size n.
Proof. done. Qed.

Lemma reads_compact_size n : 0 ≤ n ≤ int_max U64 → reads read_compact_size (compact_size n) n.
Proof.
  intros Hn. cbn [int_max] in Hn. unfold read_compact_size, compact_size.
  destruct (n <? 253) eqn:H1; [|destruct (n <=? 0xffff) eqn:H2; [|destruct (n <=? 0xffffffff) eqn:H3]].
  - rewrite <- (app_nil_r [_]). eapply reads_bind; [apply reads_u8|].
    rewrite unsigned_of_Z_small by lia. rewrite (proj2 (Z.leb_le _ _)) by lia. apply reads_ret.
  - change (byte.of_Z 253 :: le_bytes 2 n) with ([byte.of_Z 253] ++ le_bytes 2 n).
    eapply reads_bind; [apply reads_u8|]. by apply reads_sized; [|lia|cbn; lia].
  - change (byte.of_Z 254 :: le_bytes 4 n) with ([byte.of_Z 254] ++ le_bytes 4 n).
    eapply reads_bind; [apply reads_u8|]. by apply reads_sized; [|lia|cbn; lia].
  - change (byte.of_Z 255 :: le_bytes 8 n) with ([byte.of_Z 255] ++ le_bytes 8 n).
    eapply reads_bind; [apply reads_u8|]. by apply reads_sized; [|lia|cbn; lia].
Qed.

Lemma yields_compact_size :
  yields read_compact_size (fun n bs => bs = compact_size n ∧ 0 ≤ n ≤ int_max U64).
Proof.
  unfold read_compact_size. eapply yields_bind; [apply yields_u8|]. intros b ? ->.
  pose proof (byte.unsigned_range b). cbn [int_max].
  destruct (byte.unsigned b <=? 0xfc) eqn:H1.
  { apply yields_ret. split; [|lia]. unfold compact_size.
    rewrite (proj2 (Z.ltb_lt _ _)) by lia. by rewrite byte.of_Z_unsigned. }
  rewrite <- (byte.of_Z_unsigned b).
  destruct (byte.unsigned b =? 0xfd) eqn:H2; [|destruct (byte.unsigned b =? 0xfe) eqn:H3].
  - apply Z.eqb_eq in H2. rewrite H2. eapply yields_weaken; [by apply (yields_sized 2 2)|].
    intros z bs (-> & Hlo & Hz). change (2 ^ (8 * 2)) with 65536 in Hz. split; [|lia].
    unfold compact_size. by rewrite (proj2 (Z.ltb_ge _ _)), (proj2 (Z.leb_le _ _)) by lia.
  - apply Z.eqb_eq in H3. rewrite H3. eapply yields_weaken; [by apply (yields_sized 4 4)|].
    intros z bs (-> & Hlo & Hz). change (2 ^ (8 * 4)) with (2 ^ 32) in Hz. split; [|lia].
    unfold compact_size. rewrite (proj2 (Z.ltb_ge _ _)), (proj2 (Z.leb_gt _ _)) by lia.
    by rewrite (proj2 (Z.leb_le _ _)) by lia.
  - replace (byte.unsigned b) with 0xff by lia. eapply yields_weaken; [by apply (yields_sized 8 8)|].
    intros z bs (-> & Hlo & Hz). change (2 ^ (8 * 8)) with (2 ^ 64) in Hz. split; [|lia].
    unfold compact_size. rewrite (proj2 (Z.ltb_ge _ _)), (proj2 (Z.leb_gt _ _)) by lia.
    by rewrite (proj2 (Z.leb_gt _ _)) by lia.
Qed.

Lemma remaining_ahead r l : ahead r l → remaining r = Z.of_nat (length l).
Proof.
  intros (Ho & Hl & _ & Hb). unfold remaining, saturating_sub, saturating. widths.
Qed.

(** A count followed by at least that many bytes passes the allocation bound. *)
Lemma reads_count {B} n bs (f : Z -> read B) b :
  0 ≤ n ≤ Z.of_nat (length bs) → n ≤ int_max U64 → reads (f n) bs b →
  reads (read_compact_size_as_usize ≫= f) (compact_size n ++ bs) b.
Proof.
  intros Hn Hmax Hf r rest Hr. rewrite <- app_assoc in Hr.
  destruct (reads_compact_size n ltac:(lia) _ _ Hr) as (r1 & H1 & Hr1).
  destruct (Hf _ _ Hr1) as (r2 & H2 & Hr2). exists r2. split; [|done].
  unfold mbind, read_bind, read_compact_size_as_usize. rewrite H1. cbn.
  rewrite (remaining_ahead _ _ Hr1), length_app, (proj2 (Z.ltb_ge _ _)) by lia. exact H2.
Qed.

Lemma yields_count :
  yields read_compact_size_as_usize (fun n bs => bs = compact_size n ∧ 0 ≤ n ≤ int_max U64).
Proof.
  intros r l n r' Hr H. unfold read_compact_size_as_usize in H.
  apply bind_Ok in H as ([m r1] & H1 & H2). destruct (_ <? _); [done|]. injection H2 as <- <-.
  by eapply yields_compact_size.
Qed.

Definition size_ok {A} (l : list A) : Prop := Z.of_nat (length l) ≤ int_max U64.

Lemma reads_var_bytes bs : size_ok bs → reads read_var_bytes (item_bytes bs) bs.
Proof.
  intros Hs. unfold read_var_bytes, item_bytes. rewrite ctv_compact_size_eq.
  apply reads_count; [lia|done|apply reads_bytes].
Qed.

Lemma yields_var_bytes :
  yields read_var_bytes (fun bs l => l = item_bytes bs ∧ size_ok bs).
Proof.
  unfold read_var_bytes. eapply yields_bind; [apply yields_count|]. intros n ? [-> Hn].
  eapply yields_weaken; [apply yields_bytes; lia|]. intros a bs [-> <-].
  unfold item_bytes, size_ok. split; [done|lia].
Qed.

(** ** Repetition *)
Lemma reads_n {A} (f : read A) (enc : A -> list byte) xs :
  (∀ x, x ∈ xs → reads f (enc x) x) → reads (read_n (length xs) f) (xs ≫= enc) xs.
Proof.
  induction xs as [|x xs IH]; intros Hf; [apply reads_ret|]. cbn [length read_n].
  rewrite bind_cons. eapply reads_bind; [apply Hf; set_solver|].
  apply reads_ret_bind. apply IH. set_solver.
Qed.

Lemma yields_n {A} (f : read A) (enc : A -> list byte) (P : A -> Prop) n :
  yields f (fun a bs => bs = enc a ∧ P a) →
  yields (read_n n f) (fun xs bs => bs = xs ≫= enc ∧ length xs = n ∧ Forall P xs).
Proof.
  intros Hf. induction n as [|n IH]; [by apply yields_ret|]. cbn [read_n].
  eapply yields_bind; [apply Hf|]. intros a ? [-> Ha].
  eapply yields_bind; [apply IH|]. intros xs ? (-> & Hlen & Hxs).
  apply yields_ret. rewrite app_nil_r, bind_cons. split_and!; [done|cbn; lia|by constructor].
Qed.

Lemma bind_length_ge {A} (enc : A -> list byte) xs :
  (∀ x, x ∈ xs → (1 ≤ length (enc x))%nat) → (length xs ≤ length (xs ≫= enc))%nat.
Proof.
  induction xs as [|x xs IH]; intros H; [done|]. rewrite bind_cons, length_app.
  pose proof (H x ltac:(set_solver)). pose proof (IH ltac:(set_solver)). cbn. lia.
Qed.

(** ** Reading to the end of the slice *)
Definition reads_end {A} (m : read A) (bs : list byte) (a : A) : Prop :=
  ∀ r, ahead r bs → ∃ r', m r = Ok (a, r').
Definition yields_end {A} (m : read A) (enc : A -> list byte -> Prop) : Prop :=
  ∀ r l a r', ahead r l → m r = Ok (a, r') → enc a l.

Lemma reads_end_bind {A B} (m : read A) (f : A -> read B) bs bs' a b :
  reads m bs a → reads_end (f a) bs' b → reads_end (m ≫= f) (bs ++ bs') b.
Proof.
  intros Hm Hf r Hr. destruct (Hm _ _ Hr) as (r1 & H1 & Hr1). destruct (Hf _ Hr1) as (r2 & H2).
  exists r2. unfold mbind, read_bind. rewrite H1. exact H2.
Qed.

Lemma reads_end_count {B} n bs (f : Z -> read B) b :
  0 ≤ n ≤ Z.of_nat (length bs) → n ≤ int_max U64 → reads_end (f n) bs b →
  reads_end (read_compact_size_as_usize ≫= f) (compact_size n ++ bs) b.
Proof.
  intros Hn Hmax Hf r Hr.
  destruct (reads_compact_size n ltac:(lia) _ _ Hr) as (r1 & H1 & Hr1).
  destruct (Hf _ Hr1) as (r2 & H2). exists r2.
  unfold mbind, read_bind, read_compact_size_as_usize. rewrite H1. cbn.
  rewrite (remaining_ahead _ _ Hr1), (proj2 (Z.ltb_ge _ _)) by lia. exact H2.
Qed.

Lemma reads_end_finished {A} (a : A) : reads_end (_ ← expect_finished; mret a) [] a.
Proof.
  intros r (_ & Hl & _). exists r. unfold mbind, read_bind, expect_finished.
  cbn in Hl. rewrite Z.add_0_r in Hl. by rewrite Hl, Z.eqb_refl.
Qed.

Lemma yields_end_bind {A B} (m : read A) (f : A -> read B) (enc : A -> list byte -> Prop)
    (enc' : B -> list byte -> Prop) :
  yields m enc → (∀ a bs, enc a bs → yields_end (f a) (fun b l => enc' b (bs ++ l))) →
  yields_end (m ≫= f) enc'.
Proof.
  intros Hm Hf r l b r' Hr H. unfold mbind, read_bind in H.
  apply bind_Ok in H as ([a r1] & H1 & H2).
  destruct (Hm _ _ _ _ Hr H1) as (bs & rest & -> & He & Hr1). exact (Hf a bs He _ _ _ _ Hr1 H2).
Qed.

Lemma yields_end_finished {A} (a : A) (enc : A -> list byte -> Prop) :
  enc a [] → yields_end (_ ← expect_finished; mret a) enc.
Proof.
  intros He r l b r' (_ & Hl & _) H. unfold mbind, read_bind, expect_finished in H.
  destruct (tr_offset r =? Z.of_nat (length (tr_bytes r))) eqn:Ho; [|done].
  cbn in H. injection H as <- _. assert (l = []) as -> by (destruct l; [done|cbn in Hl; lia]). done.
Qed.

Lemma yields_end_fail {A} reason (enc : A -> list byte -> Prop) :
  yields_end (read_fail reason) enc.
Proof. by intros r l a r' _ H. Qed.

(** * Transactions *)
Section transactions.
Context `{HexCrate, !HexLaws}.

(** The 32 raw bytes behind a displayed txid. *)
Definition raw_txid (display : string) : list byte :=
  match hex_decode display with inr bs => reverse bs | inl _ => [] end.
Definition txin_bytes (i : ParsedTxIn) : list byte :=
  raw_txid (pti_prev_txid_hex i) ++ le_bytes 4 (pti_prev_vout i) ++
  item_bytes (pti_script_sig i) ++ le_bytes 4 (pti_sequence i).

Record wf_txin (i : ParsedTxIn) : Prop := {
  wfi_txid : ∃ raw, pti_prev_txid_hex i = hex_encode (reverse raw) ∧ length raw = 32%nat;
  wfi_vout : fits U32 (pti_prev_vout i) = true;
  wfi_script : size_ok (pti_script_sig i);
  wfi_sequence : fits U32 (pti_sequence i) = true;
}.
Definition wf_txout (o : ParsedTxOut) : Prop :=
  money_ok (pto_amount_sats o) ∧ size_ok (pto_script_pubkey o).
Definition wf_stack (s : list (list byte)) : Prop := size_ok s ∧ Forall size_ok s.

Record wf_tx (version : Z) (ins : list ParsedTxIn) (outs : list ParsedTxOut)
    (stacks : option (list (list (list byte)))) (lock : Z) : Prop := {
  wft_version : fits U32 version = true;
  wft_lock : fits U32 lock = true;
  wft_some : ins ≠ [];
  wft_ins : Forall wf_txin ins;
  wft_outs : Forall wf_txout outs;
  wft_ins_size : size_ok ins;
  wft_outs_size : size_ok outs;
  wft_stacks : match stacks with
               | Some ss => length ss = length ins ∧ Forall wf_stack ss | None => True end;
}.

(** The wire format, with the witness flag byte a parser may meet. *)
Definition tx_bytes (flag : byte) (version : Z) (ins : list ParsedTxIn) (outs : list ParsedTxOut)
    (stacks : option (list (list (list byte)))) (lock : Z) : list byte :=
  le_bytes 4 version ++ (match stacks with Some _ => [Byte.x00; flag] | None => [] end) ++
  compact_size (Z.of_nat (length ins)) ++ (ins ≫= txin_bytes) ++
  compact_size (Z.of_nat (length outs)) ++ (outs ≫= serialize_txout) ++
  (match stacks with Some ss => ss ≫= stack_bytes | None => [] end) ++ le_bytes 4 lock.

Lemma raw_txid_encode raw : raw_txid (hex_encode (reverse raw)) = raw.
Proof. unfold raw_txid. by rewrite hex_decode_encode, reverse_involutive. Qed.

Lemma reads_input i : wf_txin i → reads read_input (txin_bytes i) i.
Proof.
  intros [(raw & Hraw & Hlen) Hv Hs Hq]. destruct i as [txid vout script seq]. cbn in *.
  unfold read_input, txin_bytes. cbn. subst txid. rewrite raw_txid_encode.
  eapply reads_bind; [replace 32 with (Z.of_nat (length raw)) by lia; apply reads_bytes|].
  eapply reads_bind; [by apply reads_u32|]. eapply reads_bind; [by apply reads_var_bytes|].
  apply (reads_ret_bind read_u32 (fun q => {| pti_sequence := q |})). by apply reads_u32.
Qed.

Lemma yields_input : yields read_input (fun i bs => bs = txin_bytes i ∧ wf_txin i).
Proof.
  unfold read_input. eapply yields_bind; [by apply yields_bytes|]. intros raw ? [-> Hlen].
  eapply yields_bind; [apply yields_u32|]. intros vout ? [-> Hv].
  eapply yields_bind; [apply yields_var_bytes|]. intros script ? [-> Hs].
  eapply yields_bind; [apply yields_u32|]. intros seq ? [-> Hq].
  apply yields_ret. unfold txin_bytes. cbn. rewrite raw_txid_encode, app_nil_r. split; [done|].
  constructor; cbn; try done. exists raw. split; [done|lia].
Qed.

Lemma reads_output o : wf_txout o → reads read_output (serialize_txout o) o.
Proof.
  intros [Hm Hs]. destruct o as [amount script]. cbn in *. unfold read_output, serialize_txout. cbn.
  eapply reads_bind; [by apply reads_i64|].
  apply (reads_ret_bind read_var_bytes (fun q => {| pto_script_pubkey := q |})).
  by apply reads_var_bytes.
Qed.

Lemma yields_output : yields read_output (fun o bs => bs = serialize_txout o ∧ wf_txout o).
Proof.
  unfold read_output. eapply yields_bind; [apply yields_i64|]. intros amount ? [-> Hm].
  eapply yields_bind; [apply yields_var_bytes|]. intros script ? [-> Hs].
  apply yields_ret. by rewrite app_nil_r.
Qed.

Lemma compact_size_nonempty n : (1 ≤ length (compact_size n))%nat.
Proof. unfold compact_size. repeat case_match; cbn; lia. Qed.

Lemma reads_stack s : wf_stack s → reads read_stack (stack_bytes s) s.
Proof.
  intros [Hs Hitems]. unfold read_stack, stack_bytes. rewrite ctv_compact_size_eq.
  pose proof (bind_length_ge item_bytes s) as Hge. apply reads_count; [|done|].
  - specialize (Hge ltac:(intros x _; unfold item_bytes; rewrite length_app;
      pose proof (compact_size_nonempty (Z.of_nat (length x))); rewrite ctv_compact_size_eq; lia)). lia.
  - rewrite Nat2Z.id. apply reads_n. intros x Hx. apply reads_var_bytes.
    rewrite Forall_forall in Hitems. by apply Hitems.
Qed.

Lemma yields_stack : yields read_stack (fun s bs => bs = stack_bytes s ∧ wf_stack s).
Proof.
  unfold read_stack. eapply yields_bind; [apply yields_count|]. intros n ? [-> Hn].
  eapply yields_weaken; [apply yields_n, yields_var_bytes|].
  intros s bs (-> & Hlen & Hs). unfold stack_bytes, wf_stack, size_ok.
  replace (Z.of_nat (length s)) with n by lia. split; [done|]. split; [lia|done].
Qed.

Lemma reads_flag flag : byte.unsigned flag ≠ 0 → reads read_witness_flag [Byte.x00; flag] true.
Proof.
  intros Hf r rest Hr. unfold read_witness_flag, mbind, read_bind.
  rewrite (peek_u8_ahead _ _ _ Hr). cbn -[read_u8 byte.unsigned].
  change (byte.unsigned Byte.x00 =? 0) with true. cbn -[read_u8 byte.unsigned].
  destruct (reads_u8 _ _ _ Hr) as (r1 & -> & Hr1). cbn -[read_u8 byte.unsigned].
  destruct (reads_u8 _ _ _ Hr1) as (r2 & -> & Hr2). cbn -[read_u8 byte.unsigned].
  apply Z.eqb_neq in Hf. rewrite Hf. by exists r2.
Qed.

(** Without the marker nothing is consumed. *)
Lemma reads_no_flag {B} (f : bool -> read B) c bs b :
  byte.unsigned c ≠ 0 → reads_end (f false) (c :: bs) b →
  reads_end (read_witness_flag ≫= f) (c :: bs) b.
Proof.
  intros Hc Hf r Hr. destruct (Hf r Hr) as (r' & H'). exists r'.
  unfold read_witness_flag, mbind, read_bind. rewrite (peek_u8_ahead _ _ _ Hr).
  cbn -[byte.unsigned]. apply Z.eqb_neq in Hc. by rewrite Hc.
Qed.

Lemma yields_flag : yields read_witness_flag (fun w bs =>
  if w then ∃ flag, byte.unsigned flag ≠ 0 ∧ bs = [Byte.x00; flag] else bs = []).
Proof.
  intros r l w r' Hr Hw. unfold read_witness_flag, mbind, read_bind in Hw.
  apply bind_Ok in Hw as ([c r1] & H1 & H2). destruct (peek_u8_inv _ _ _ _ Hr H1) as (-> & rest & ->).
  destruct (byte.unsigned c =? 0) eqn:Hc.
  - apply bind_Ok in H2 as ([c' r2] & H2 & H3). apply bind_Ok in H3 as ([flag r3] & H3 & H4).
    destruct (yields_u8 _ _ _ _ Hr H2) as (bs & rest' & Hl & -> & Hr2).
    destruct (yields_u8 _ _ _ _ Hr2 H3) as (bs & rest'' & -> & -> & Hr3).
    destruct (byte.unsigned flag =? 0) eqn:Hflag; [done|]. injection H4 as <- <-.
    injection Hl as <- ->. exists [c; flag], rest''. split_and!; [done| |done].
    exists flag. apply Z.eqb_eq in Hc. apply Z.eqb_neq in Hflag. split; [done|].
    f_equal. by apply byte.unsigned_inj.
  - injection H2 as <- <-. exists [], (c :: rest). done.
Qed.

Lemma compact_size_head n : 0 < n →
  ∃ c bs, compact_size n = c :: bs ∧ byte.unsigned c ≠ 0.
Proof.
  intros Hn. unfold compact_size. repeat case_match; eexists _, _; (split; [done|]);
    rewrite unsigned_of_Z_small by lia; lia.
Qed.

Lemma without_witness_bytes version ins outs lock flag :
  Forall wf_txin ins →
  without_witness version ins outs lock = Ok (tx_bytes flag version ins outs None lock).
Proof.
  intros Hins. unfold without_witness, tx_bytes.
  assert (collect input_without_witness ins = Ok (txin_bytes <$> ins)) as ->.
  { apply collect_fmap. intros i Hi. rewrite Forall_forall in Hins.
    destruct (Hins i Hi) as [(raw & Hraw & _) _ _ _].
    unfold input_without_witness, txin_bytes. rewrite Hraw, raw_txid_encode, hex_decode_encode.
    cbn [mbind result_bind]. unfold item_bytes.
    by rewrite reverse_involutive, <- !app_assoc. }
  cbn [mbind result_bind]. by rewrite mjoin_fmap.
Qed.

Lemma txin_bytes_nonempty i : (1 ≤ length (txin_bytes i))%nat.
Proof. unfold txin_bytes. rewrite !length_app, !le_bytes_length. lia. Qed.
Lemma serialize_txout_nonempty o : (1 ≤ length (serialize_txout o))%nat.
Proof. unfold serialize_txout. rewrite !length_app, le_bytes_length. lia. Qed.

Lemma reads_witness ins stacks :
  match stacks with
  | Some ss => length ss = length ins ∧ Forall wf_stack ss | None => True end →
  reads (if (match stacks with Some _ => true | None => false end : bool)
         then ss ← read_n (length (ins : list ParsedTxIn)) read_stack; mret (Some ss)
         else mret None)
    (match stacks with Some ss => ss ≫= stack_bytes | None => [] end) stacks.
Proof.
  destruct stacks as [ss|]; [|intros _; apply reads_ret]. intros [Hlen Hss].
  apply reads_ret_bind. rewrite <- Hlen. apply reads_n. intros x Hx. apply reads_stack.
  rewrite Forall_forall in Hss. by apply Hss.
Qed.

Lemma reads_body version ins outs stacks lock :
  wf_tx version ins outs stacks lock →
  reads_end (read_body version (match stacks with Some _ => true | None => false end))
    (compact_size (Z.of_nat (length ins)) ++ (ins ≫= txin_bytes) ++
     compact_size (Z.of_nat (length outs)) ++ (outs ≫= serialize_txout) ++
     (match stacks with Some ss => ss ≫= stack_bytes | None => [] end) ++ le_bytes 4 lock)
    (version, ins, outs, stacks, lock).
Proof.
  intros [Hv Hl Hne Hins Houts Hsi Hso Hst]. unfold read_body.
  rewrite Forall_forall in Hins. rewrite Forall_forall in Houts.
  pose proof (bind_length_ge txin_bytes ins (fun i _ => txin_bytes_nonempty i)) as H1.
  pose proof (bind_length_ge serialize_txout outs (fun o _ => serialize_txout_nonempty o)) as H2.
  apply reads_end_count; [rewrite length_app; lia|done|].
  rewrite (proj2 (Z.eqb_neq _ _)) by (destruct ins; [done|cbn; lia]). rewrite Nat2Z.id.
  eapply reads_end_bind; [apply reads_n; intros i Hi; apply reads_input, Hins, Hi|].
  apply reads_end_count; [rewrite length_app; lia|done|]. rewrite Nat2Z.id.
  eapply reads_end_bind; [apply reads_n; intros o Ho; apply reads_output, Houts, Ho|].
  eapply reads_end_bind; [by apply reads_witness|].
  rewrite <- (app_nil_r (le_bytes 4 lock)). eapply reads_end_bind; [by apply reads_u32|].
  apply reads_end_finished.
Qed.

Definition parsed (flag : byte) version ins outs stacks lock : ParsedTransaction :=
  {| ptx_version := version; ptx_inputs := ins; ptx_outputs := outs; ptx_lock_time := lock;
     ptx_witness_stacks := stacks;
     ptx_tx_without_witness := tx_bytes flag version ins outs None lock |}.

Lemma parse_tx_bytes flag version ins outs stacks lock name :
  wf_tx version ins outs stacks lock → byte.unsigned flag ≠ 0 →
  Z.of_nat (length (tx_bytes flag version ins outs stacks lock)) ≤ int_max Usize →
  parse_transaction (tx_bytes flag version ins outs stacks lock) name =
  Ok (parsed flag version ins outs stacks lock).
Proof.
  intros Hwf Hflag Hlen. unfold parse_transaction.
  assert (reads_end read_transaction (tx_bytes flag version ins outs stacks lock)
            (version, ins, outs, stacks, lock)) as Hread.
  { unfold read_transaction, tx_bytes. eapply reads_end_bind; [apply reads_u32, Hwf|].
    pose proof (reads_body _ _ _ _ _ Hwf) as Hbody. destruct stacks as [ss|].
    - eapply reads_end_bind; [by apply reads_flag|]. exact Hbody.
    - pose proof (wft_some _ _ _ _ _ Hwf) as Hne.
      destruct (compact_size_head (Z.of_nat (length ins))) as (c & bs & Hc & Hnz);
        [destruct ins; [done|cbn; lia]|].
      rewrite Hc in *. cbn [app] in *. by apply reads_no_flag. }
  destruct (Hread _ (ahead_new _ name Hlen)) as (r' & ->). cbn [mbind result_bind].
  rewrite (without_witness_bytes _ _ _ _ flag) by apply Hwf. done.
Qed.

Lemma yields_body version has_witness :
  fits U32 version = true →
  yields_end (read_body version has_witness) (fun '(v, ins, outs, stacks, lock) l =>
    v = version ∧ wf_tx version ins outs stacks lock ∧
    has_witness = (match stacks with Some _ => true | None => false end) ∧
    l = compact_size (Z.of_nat (length ins)) ++ (ins ≫= txin_bytes) ++
        compact_size (Z.of_nat (length outs)) ++ (outs ≫= serialize_txout) ++
        (match stacks with Some ss => ss ≫= stack_bytes | None => [] end) ++ le_bytes 4 lock).
Proof.
  intros Hv. unfold read_body. eapply yields_end_bind; [apply yields_count|]. intros n ? [-> Hn].
  destruct (n =? 0) eqn:Hn0; [apply yields_end_fail|].
  eapply yields_end_bind; [apply yields_n, yields_input|]. intros ins ? (-> & Hilen & Hins).
  eapply yields_end_bind; [apply yields_count|]. intros m ? [-> Hm].
  eapply yields_end_bind; [apply yields_n, yields_output|]. intros outs ? (-> & Holen & Houts).
  eapply (yields_end_bind _ _ (fun stacks bs =>
    has_witness = (match stacks with Some _ => true | None => false end) ∧
    (match stacks with Some ss => length ss = length ins ∧ Forall wf_stack ss | None => True end) ∧
    bs = match stacks with Some ss => ss ≫= stack_bytes | None => [] end)).
  { destruct has_witness; [|by apply yields_ret].
    eapply yields_bind; [apply yields_n, yields_stack|]. intros ss ? (-> & Hlen & Hss).
    apply yields_ret. rewrite app_nil_r. split_and!; [done|lia|done|done]. }
  intros stacks ? (-> & Hst & ->).
  eapply yields_end_bind; [apply yields_u32|]. intros lock ? [-> Hlock].
  apply yields_end_finished. split_and!; [done| |done|].
  - constructor; try done; [intros ->; cbn in Hilen; lia|unfold size_ok; lia..].
  - rewrite app_nil_r. replace (Z.of_nat (length ins)) with n by lia.
    replace (Z.of_nat (length outs)) with m by lia. done.
Qed.

Lemma parse_inv bytes name tx :
  Z.of_nat (length bytes) ≤ int_max Usize → parse_transaction bytes name = Ok tx →
  ∃ flag version ins outs stacks lock,
    byte.unsigned flag ≠ 0 ∧ wf_tx version ins outs stacks lock ∧
    tx = parsed flag version ins outs stacks lock ∧
    bytes = tx_bytes flag version ins outs stacks lock.
Proof.
  intros Hlen Hp. unfold parse_transaction in Hp.
  apply bind_Ok in Hp as ([t r] & Hread & Hp).
  assert (yields_end read_transaction (fun '(v, ins, outs, stacks, lock) l =>
    ∃ flag, byte.unsigned flag ≠ 0 ∧ wf_tx v ins outs stacks lock ∧
      l = tx_bytes flag v ins outs stacks lock)) as Hy.
  { unfold read_transaction. eapply yields_end_bind; [apply yields_u32|]. intros v ? [-> Hv].
    eapply yields_end_bind; [apply yields_flag|]. intros w bs Hw.
    intros r0 l [[[[v' ins] outs] stacks] lock] r0' Hr0 Hr0b.
    destruct (yields_body v w Hv _ _ _ _ Hr0 Hr0b) as (-> & Hwf & -> & ->).
    destruct stacks as [ss|].
    - destruct Hw as (flag & Hf & ->). by exists flag.
    - subst bs. by exists Byte.x01. }
  pose proof (Hy _ _ _ _ (ahead_new bytes name Hlen) Hread) as Ht.
  destruct t as [[[[v ins] outs] stacks] lock]. destruct Ht as (flag & Hf & Hwf & ->).
  rewrite (without_witness_bytes _ _ _ _ flag) in Hp by apply Hwf. cbn in Hp. injection Hp as <-.
  exists flag, v, ins, outs, stacks, lock. done.
Qed.

(** [parse_transaction] accepts only the canonical wire format: the bytes it
    accepts are the serialisation of what it returns (up to the value of the
    non-zero witness flag), every amount it returns is in the money range, and
    [tx_without_witness], the preimage of the txid, is that serialisation with
    the witness left out. *)
Theorem parse_transaction_canonical bytes name tx :
  Z.of_nat (length bytes) ≤ int_max Usize → parse_transaction bytes name = Ok tx →
  ptx_inputs tx ≠ [] ∧ Forall (fun o => money_ok (pto_amount_sats o)) (ptx_outputs tx) ∧
  ∃ flag, byte.unsigned flag ≠ 0 ∧
    bytes = tx_bytes flag (ptx_version tx) (ptx_inputs tx) (ptx_outputs tx)
              (ptx_witness_stacks tx) (ptx_lock_time tx) ∧
    ptx_tx_without_witness tx =
      tx_bytes flag (ptx_version tx) (ptx_inputs tx) (ptx_outputs tx) None (ptx_lock_time tx).
Proof.
  intros Hlen Hp. destruct (parse_inv _ _ _ Hlen Hp) as (flag & v & ins & outs & st & lock & Hf & Hwf & -> & ->).
  cbn. split_and!; [apply Hwf| |by exists flag].
  eapply Forall_impl; [apply Hwf|]. by intros o [Ho _].
Qed.

(** ** Serialise, then parse *)
Definition txin_of_spec (i : TxInputSpec) : ParsedTxIn :=
  {| pti_prev_txid_hex := to_ascii_lowercase (tis_prev_txid_hex i);
     pti_prev_vout := tis_prev_vout i; pti_script_sig := tis_script_sig i;
     pti_sequence := tis_sequence i |}.
Definition txout_of_spec (o : TxOutputSpec) : ParsedTxOut :=
  {| pto_amount_sats := tos_amount_sats o; pto_script_pubkey := tos_script_pubkey o |}.

Record wf_input_spec (i : TxInputSpec) : Prop := {
  wfs_vout : fits U32 (tis_prev_vout i) = true;
  wfs_script : size_ok (tis_script_sig i);
  wfs_sequence : fits U32 (tis_sequence i) = true;
  wfs_stack : wf_stack (tis_witness_stack i);
}.
Definition wf_output_spec (o : TxOutputSpec) : Prop := wf_txout (txout_of_spec o).

Lemma input_spec_bytes_Ok i bs :
  wf_input_spec i → input_spec_bytes i = Ok bs →
  bs = txin_bytes (txin_of_spec i) ∧ wf_txin (txin_of_spec i).
Proof.
  intros Hi Hb. unfold input_spec_bytes in Hb.
  destruct (hex_decode (tis_prev_txid_hex i)) as [e|raw] eqn:Hd; [done|].
  destruct (length raw =? 32)%nat eqn:Hlen; [|done]. cbn in Hb. injection Hb as <-.
  apply Nat.eqb_eq in Hlen. split.
  - unfold txin_bytes, txin_of_spec, raw_txid, item_bytes. cbn.
    rewrite (hex_decode_lower _ _ Hd). by rewrite <- !app_assoc.
  - constructor; cbn; [|apply Hi..]. exists (reverse raw).
    by rewrite reverse_involutive, (hex_encode_decode _ _ Hd), length_reverse.
Qed.

Lemma serialize_tx_hex_bytes version inputs outputs lock (w : bool) hex :
  inputs ≠ [] → Forall wf_input_spec inputs → Forall wf_output_spec outputs →
  fits U32 version = true → fits U32 lock = true → size_ok inputs → size_ok outputs →
  serialize_tx_hex version inputs outputs lock w = Ok hex →
  let stacks := if w then Some (tis_witness_stack <$> inputs) else None in
  wf_tx version (txin_of_spec <$> inputs) (txout_of_spec <$> outputs) stacks lock ∧
  hex = hex_encode (tx_bytes Byte.x01 version (txin_of_spec <$> inputs)
                      (txout_of_spec <$> outputs) stacks lock).
Proof.
  intros Hne Hins Houts Hv Hl Hsi Hso Hs stacks. unfold serialize_tx_hex in Hs. res_inv.
  assert (Forall wf_txin (txin_of_spec <$> inputs) ∧
          mjoin x = (txin_of_spec <$> inputs) ≫= txin_bytes) as [Hwf Hjoin].
  { apply collect_Forall2 in H1. clear Hne Hsi stacks.
    induction H1 as [|i bs inputs x Hi _ IH]; [done|]. inversion Hins; subst.
    destruct (input_spec_bytes_Ok i bs) as [-> Hw]; [done..|].
    destruct IH as [IH1 IH2]; [done|]. rewrite fmap_cons, bind_cons, <- IH2. by split; [constructor|]. }
  split.
  - constructor; try done.
    + by destruct inputs.
    + by apply Forall_fmap.
    + unfold size_ok. by rewrite length_fmap.
    + unfold size_ok. by rewrite length_fmap.
    + unfold stacks. destruct w; [|done]. rewrite !length_fmap. split; [done|].
      apply Forall_fmap. eapply Forall_impl; [exact Hins|]. by intros i [].
  - f_equal. unfold tx_bytes. rewrite !length_fmap, <- Hjoin.
    assert ((txout_of_spec <$> outputs) ≫= serialize_txout = outputs ≫= output_spec_bytes) as ->
      by (by rewrite list_fmap_bind).
    unfold stacks. destruct w; [|done]. by rewrite list_fmap_bind.
Qed.

(** What [serialize_tx_hex] writes, [parse_transaction_hex] reads back: the
    same version, inputs, outputs, lock time and witness stacks, and the txid
    preimage does not depend on the witness. *)
Theorem serialize_parse_roundtrip version inputs outputs lock (w : bool) hex name :
  inputs ≠ [] → Forall wf_input_spec inputs → Forall wf_output_spec outputs →
  fits U32 version = true → fits U32 lock = true → size_ok inputs → size_ok outputs →
  (∀ bs, hex_decode hex = inr bs → size_ok bs) →
  serialize_tx_hex version inputs outputs lock w = Ok hex →
  ∃ tx, parse_transaction_hex hex name = Ok tx ∧
    ptx_version tx = version ∧ ptx_lock_time tx = lock ∧
    ptx_inputs tx = txin_of_spec <$> inputs ∧ ptx_outputs tx = txout_of_spec <$> outputs ∧
    ptx_witness_stacks tx = (if w then Some (tis_witness_stack <$> inputs) else None) ∧
    ∀ hex', serialize_tx_hex version inputs outputs lock false = Ok hex' →
      hex_encode (ptx_tx_without_witness tx) = hex'.
Proof.
  intros Hne Hins Houts Hv Hl Hsi Hso Hsize Hs.
  destruct (serialize_tx_hex_bytes _ _ _ _ _ _ Hne Hins Houts Hv Hl Hsi Hso Hs) as [Hwf ->].
  unfold parse_transaction_hex. specialize (Hsize _ (hex_decode_encode _)).
  rewrite hex_decode_encode, (parse_tx_bytes Byte.x01 _ _ _ _ _ name Hwf) by done.
  eexists; split; [done|]. cbn. split_and!; try done.
  intros hex' Hs'.
  by destruct (serialize_tx_hex_bytes _ _ _ _ _ _ Hne Hins Houts Hv Hl Hsi Hso Hs') as [_ ->].
Qed.

(** ** The builder's coinbase *)
Context `{Sha256Crate, !Sha256Laws}.

Definition coinbase_txin (script : list byte) : ParsedTxIn :=
  {| pti_prev_txid_hex := hex_encode (repeat Byte.x00 32); pti_prev_vout := 0xffffffff;
     pti_script_sig := script; pti_sequence := MAX_SEQUENCE_NONFINAL |}.
Definition txout_of_allocated (o : AllocatedOutput) : ParsedTxOut :=
  {| pto_amount_sats := ao_amount_sats o; pto_script_pubkey := ao_script_pubkey o |}.
Definition coinbase_txouts (built : BuiltCoinbase) : list ParsedTxOut :=
  (txout_of_allocated <$> bc_outputs built) ++
  [{| pto_amount_sats := 0; pto_script_pubkey := bc_witness_commitment_script built |}].

Lemma coinbase_txin_bytes script : txin_bytes (coinbase_txin script) =
  repeat Byte.x00 32 ++ le_bytes 4 0xffffffff ++ item_bytes script ++ le_bytes 4 MAX_SEQUENCE_NONFINAL.
Proof. unfold txin_bytes, raw_txid, coinbase_txin. cbn [pti_prev_txid_hex]. by rewrite hex_decode_encode. Qed.

Lemma coinbase_outputs_bytes built :
  serialize_outputs (bc_outputs built) (bc_witness_commitment_script built) =
  compact_size (Z.of_nat (length (coinbase_txouts built))) ++
  (coinbase_txouts built ≫= serialize_txout).
Proof.
  unfold serialize_outputs, coinbase_txouts. rewrite length_app, length_fmap, bind_app.
  cbn [length]. f_equal. by rewrite list_fmap_bind, bind_singleton.
Qed.

Lemma coinbase_bytes request built script nonce leaves :
  coinbase_parts request built script nonce leaves →
  bc_tx_with_witness built =
    tx_bytes Byte.x01 2 [coinbase_txin script] (coinbase_txouts built) (Some [[nonce]])
      (cbr_block_height request - 1) ∧
  bc_tx_without_witness built =
    tx_bytes Byte.x01 2 [coinbase_txin script] (coinbase_txouts built) None
      (cbr_block_height request - 1).
Proof.
  intros Hp. rewrite (cp_with _ _ _ _ _ Hp), (cp_without _ _ _ _ _ Hp), coinbase_outputs_bytes.
  unfold tx_bytes. rewrite !bind_singleton, coinbase_txin_bytes.
  unfold coinbase_input_bytes, serialize_witness, stack_bytes, item_bytes. cbn [length].
  rewrite bind_singleton, <- !app_assoc. done.
Qed.

Lemma coinbase_wf_tx request built script nonce leaves :
  wf_request request → cbr_coinbase_value_sats request ≤ QBIT_MAX_MONEY_SATS →
  coinbase_parts request built script nonce leaves →
  wf_tx 2 [coinbase_txin script] (coinbase_txouts built) (Some [[nonce]])
    (cbr_block_height request - 1).
Proof.
  intros Hwf Hmax Hp. destruct (cp_height _ _ _ _ _ Hp) as [Hh1 Hh2]. pose proof (wfr_height _ Hwf) as Hh.
  pose proof (coinbase_script_sig_length _ _ (cp_script _ _ _ _ _ Hp)) as Hs.
  unfold MAX_COINBASE_SCRIPT_SIG_LEN in Hs.
  pose proof (witness_nonce_length _ _ (cp_nonce _ _ _ _ _ Hp)) as Hn.
  pose proof (witness_commitment_script_length _ _ _ (cp_commitment _ _ _ _ _ Hp)) as Hc.
  assert (Z.of_nat (length (coinbase_txouts built)) ≤ MAX_BLOCK_WEIGHT) as Hw.
  { pose proof (cp_weight_max _ _ _ _ _ Hp) as Hw. rewrite (cp_weight _ _ _ _ _ Hp) in Hw.
    rewrite (cp_with _ _ _ _ _ Hp), coinbase_outputs_bytes in Hw.
    pose proof (bind_length_ge serialize_txout (coinbase_txouts built)
      (fun o _ => serialize_txout_nonempty o)). rewrite !length_app in Hw. lia. }
  unfold MAX_BLOCK_WEIGHT in Hw. constructor; try done.
  - widths.
  - apply Forall_singleton. constructor; cbn -[repeat]; [|done|unfold size_ok; widths|done].
    exists (repeat Byte.x00 32). split; [|done]. f_equal.
  - unfold coinbase_txouts. apply Forall_app. split.
    + apply Forall_fmap, Forall_forall. intros o Ho. unfold wf_txout, money_ok, size_ok. cbn.
      rewrite (outputs_script_length _ _ o Hwf (cp_outputs _ _ _ _ _ Hp) Ho).
      pose proof (allocated_amount_bounds _ _ o Hwf (cp_outputs _ _ _ _ _ Hp) Ho). split; [lia|done].
    + apply Forall_singleton. unfold wf_txout, money_ok, size_ok. cbn. rewrite Hc. done.
  - unfold size_ok. widths.
  - split; [done|]. repeat constructor; unfold size_ok; cbn; [done|]. rewrite Hn. done.
Qed.

Lemma coinbase_reparses request built name :
  wf_request request → cbr_coinbase_value_sats request ≤ QBIT_MAX_MONEY_SATS →
  build_coinbase request = Ok built →
  ∃ script nonce, coinbase_script_sig request = Ok script ∧ witness_nonce request = Ok nonce ∧
    parse_transaction (bc_tx_with_witness built) name =
    Ok {| ptx_version := 2; ptx_inputs := [coinbase_txin script];
          ptx_outputs := coinbase_txouts built; ptx_lock_time := cbr_block_height request - 1;
          ptx_witness_stacks := Some [[nonce]];
          ptx_tx_without_witness := bc_tx_without_witness built |}.
Proof.
  intros Hwf Hmax Hb. destruct (build_coinbase_inv _ _ Hb) as (script & nonce & leaves & Hp).
  exists script, nonce. split_and!; [apply Hp..|].
  destruct (coinbase_bytes _ _ _ _ _ Hp) as [Hwith Hwithout].
  pose proof (cp_weight_max _ _ _ _ _ Hp) as Hw. rewrite (cp_weight _ _ _ _ _ Hp) in Hw.
  unfold MAX_BLOCK_WEIGHT in Hw. rewrite Hwith in *.
  rewrite (parse_tx_bytes Byte.x01 _ _ _ _ _ name (coinbase_wf_tx _ _ _ _ _ Hwf Hmax Hp));
    [|done|widths].
  unfold parsed. by rewrite Hwithout.
Qed.

(** The coinbase the pool builder emits parses back with the fanout
    module's parser: version 2, one null-outpoint input carrying the scriptSig,
    the allocated outputs in order followed by the zero-value witness
    commitment, lock time height - 1, the nonce as its witness, and the txid
    preimage the builder hashed. *)
Theorem coinbase_parses_back request built name :
  wf_request request → cbr_coinbase_value_sats request ≤ QBIT_MAX_MONEY_SATS →
  build_coinbase request = Ok built →
  ∃ script nonce, coinbase_script_sig request = Ok script ∧ witness_nonce request = Ok nonce ∧
    parse_transaction (bc_tx_with_witness built) name =
    Ok {| ptx_version := 2; ptx_inputs := [coinbase_txin script];
          ptx_outputs := coinbase_txouts built; ptx_lock_time := cbr_block_height request - 1;
          ptx_witness_stacks := Some [[nonce]];
          ptx_tx_without_witness := bc_tx_without_witness built |}.
Proof. apply coinbase_reparses. Qed.
End transactions.

(** * Witnesses *)
Definition example_spec : TxInputSpec :=
  {| tis_prev_txid_hex := repeat_string 32 "Ab"; tis_prev_vout := 1; tis_script_sig := [];
     tis_sequence := 2 ^ 31; tis_witness_stack := [str_bytes "leaf"; [Byte.xc1]] |}.
Definition example_out : TxOutputSpec :=
  {| tos_amount_sats := 5000; tos_script_pubkey := p2mr_script_pubkey (repeat Byte.x07 32) |}.

Definition example_tx_hex : string := Eval vm_compute in
  match serialize_tx_hex 3 [example_spec] [example_out] 840000 true with Ok h => h | _ => EmptyString end.

Definition example_tx_wire : list byte := Eval vm_compute in
  match hex_decode example_tx_hex with inr bs => bs | inl _ => [] end.

Lemma serialize_parse_roundtrip_witness :
  ∃ tx, serialize_tx_hex 3 [example_spec] [example_out] 840000 true = Ok example_tx_hex ∧
    parse_transaction_hex example_tx_hex "fanout" = Ok tx ∧
    ptx_outputs tx = [txout_of_spec example_out].
Proof.
  assert (serialize_tx_hex 3 [example_spec] [example_out] 840000 true = Ok example_tx_hex) as Hhex
    by (vm_compute; reflexivity).
  assert (hex_decode example_tx_hex = inr example_tx_wire) as Hwire by (vm_compute; reflexivity).
  destruct (serialize_parse_roundtrip 3 [example_spec] [example_out] 840000 true example_tx_hex "fanout")
    as (tx & Hp & _ & _ & _ & Hout & _).
  - discriminate.
  - repeat constructor; try reflexivity; unfold size_ok; cbn; lia.
  - apply Forall_singleton. split; [split|]; vm_compute; discriminate.
  - reflexivity.
  - reflexivity.
  - unfold size_ok; cbn; lia.
  - unfold size_ok; cbn; lia.
  - intros bs Hbs. rewrite Hwire in Hbs. injection Hbs as <-. vm_compute. discriminate.
  - exact Hhex.
  - exists tx. split; [exact Hhex|]. split; [exact Hp|exact Hout].
Defined.

Definition example_tx_bytes : list byte :=
  tx_bytes Byte.x01 3 [txin_of_spec example_spec] [txout_of_spec example_out] None 840000.
Lemma parse_transaction_canonical_witness :
  ∃ tx, parse_transaction example_tx_bytes "tx" = Ok tx ∧
    Forall (fun o => money_ok (pto_amount_sats o)) (ptx_outputs tx).
Proof.
  assert (is_ok (parse_transaction example_tx_bytes "tx") = true) as Hok by (vm_compute; reflexivity).
  apply is_ok_ex in Hok as [tx Htx]. exists tx. split; [exact Htx|].
  refine (proj1 (proj2 (parse_transaction_canonical example_tx_bytes "tx" tx _ Htx))).
  vm_compute. discriminate.
Defined.

Lemma coinbase_parses_back_witness :
  ∃ built tx, build_coinbase example_request = Ok built ∧
    parse_transaction (bc_tx_with_witness built) "coinbase" = Ok tx ∧ ptx_lock_time tx = 16.
Proof.
  assert (is_ok (build_coinbase example_request) = true) as Hok by (vm_compute; reflexivity).
  apply is_ok_ex in Hok as [built Hb]. exists built.
  destruct (coinbase_parses_back example_request built "coinbase" example_request_wf
    ltac:(vm_compute; discriminate) Hb) as (script & nonce & _ & _ & Hp).
  eexists. split; [exact Hb|]. split; [exact Hp|reflexivity].
Defined.
