(* ===== verification/WindowCut.v ===== *)
(** The per-node cut of a dual-writer payout window
    (crates/qbit-prism/src/window_cut.rs). *)
From Stdlib Require Import ZArith Lia.
From Stdlib Require String.
From stdpp Require Import base list strings option.
From S2P Require Import Prelude Order.

Open Scope Z_scope.

Record WindowCut := {
  node_0 : option Z;
  node_1 : option Z;
}.
#[export] Instance window_cut_eq_dec : EqDecision WindowCut.
Proof. solve_decision. Defined.

Inductive WindowCutError := ZeroEntry | UnknownNode (node : Z).

Definition is_zero_entry (entry : option Z) : bool :=
  match entry with Some z => z =? 0 | None => false end.

(** [WindowCut::new]. *)
Definition cut_new (n0 n1 : option Z) : result WindowCutError WindowCut :=
  if is_zero_entry n0 || is_zero_entry n1 then Err ZeroEntry
  else Ok {| node_0 := n0; node_1 := n1 |}.

Definition cut_get (cut : WindowCut) (node : Z) : result WindowCutError (option Z) :=
  if node =? 0 then Ok (node_0 cut)
  else if node =? 1 then Ok (node_1 cut)
  else Err (UnknownNode node).

Definition cut_with (cut : WindowCut) (node : Z) (entry : option Z)
  : result WindowCutError WindowCut :=
  if node =? 0 then cut_new entry (node_1 cut)
  else if node =? 1 then cut_new (node_0 cut) entry
  else Err (UnknownNode node).

(** [Option::max] and [Option]'s [>=]: [None] is below every [Some]. *)
Definition opt_max (a b : option Z) : option Z :=
  match cmp_option Z.compare a b with Gt => a | _ => b end.
Definition opt_ge (a b : option Z) : bool :=
  match cmp_option Z.compare a b with Lt => false | _ => true end.

Definition top (cut : WindowCut) : option Z := opt_max (node_0 cut) (node_1 cut).

Definition admits (cut : WindowCut) (origin_node share_seq : Z) : bool :=
  match cut_get cut origin_node with
  | Ok (Some entry) => share_seq <=? entry
  | _ => false
  end.

Definition covers (cut earlier : WindowCut) : bool :=
  opt_ge (node_0 cut) (node_0 earlier) && opt_ge (node_1 cut) (node_1 earlier).

(** * Deserialisation

    [serde]'s map access is the list of keys with their decoded values; a value
    that is not an [Option<u64>] is an error of the deserialiser. *)
Inductive CutFieldError :=
| UnknownField (name : string)
| DuplicateField (name : string)
| MissingField (name : string)
| Custom (e : WindowCutError)
| InvalidValue (display : string).

Definition map_entry : Type := string * (string + option Z).

(** [*slot = Some(entry)] after the duplicate and zero checks. *)
Definition fill_slot (slot : option (option Z)) (name : string) (value : string + option Z)
  : result CutFieldError (option (option Z)) :=
  match slot with
  | Some _ => Err (DuplicateField name)
  | None =>
      match value with
      | inl e => Err (InvalidValue e)
      | inr entry => if is_zero_entry entry then Err (Custom ZeroEntry) else Ok (Some entry)
      end
  end.

Definition visit_entry (slots : option (option Z) * option (option Z)) (e : map_entry)
  : result CutFieldError (option (option Z) * option (option Z)) :=
  let '(key, value) := e in
  if String.eqb key "0" then n0 ← fill_slot slots.1 "0" value; Ok (n0, slots.2)
  else if String.eqb key "1" then n1 ← fill_slot slots.2 "1" value; Ok (slots.1, n1)
  else Err (UnknownField key).

Definition visit_map (map : list map_entry) : result CutFieldError WindowCut :=
  '(n0, n1) ← try_fold visit_entry (None, None) map;
  n0 ← ok_or n0 (MissingField "0");
  n1 ← ok_or n1 (MissingField "1");
  Ok {| node_0 := n0; node_1 := n1 |}.

(** The derived [Serialize]: a two-entry map in declaration order. *)
Definition serialize_cut (cut : WindowCut) : list map_entry :=
  [("0", inr (node_0 cut)); ("1", inr (node_1 cut))].

(** * Theorems *)

(** Every entry is a share_seq of at least 1 and fits a u64. *)
Definition entry_ok (entry : option Z) : Prop :=
  match entry with Some z => 1 ≤ z ≤ int_max U64 | None => True end.
Definition wf_cut (cut : WindowCut) : Prop := entry_ok (node_0 cut) ∧ entry_ok (node_1 cut).

Lemma is_zero_entry_ok e : entry_ok e → is_zero_entry e = false.
Proof. destruct e as [z|]; [|done]. cbn. lia. Qed.

Lemma cut_new_Ok n0 n1 : entry_ok n0 → entry_ok n1 →
  cut_new n0 n1 = Ok {| node_0 := n0; node_1 := n1 |}.
Proof. intros H0 H1. unfold cut_new. by rewrite !is_zero_entry_ok. Qed.

Lemma opt_ge_iff a b : entry_ok a → entry_ok b →
  opt_ge a b = true ↔
  ∀ s, 1 ≤ s → (∃ y, b = Some y ∧ s ≤ y) → ∃ x, a = Some x ∧ s ≤ x.
Proof.
  unfold opt_ge. destruct a as [x|], b as [y|]; cbn; intros Ha Hb.
  - destruct (Z.compare_spec x y) as [Hxy|Hxy|Hxy]; (split; [intros Hc; try discriminate Hc; clear Hc|try done]).
    + intros s Hs (y' & [= ->] & Hy). exists x. split; [done|lia].
    + intros H. destruct (H y) as (x' & [= ->] & Hx); [lia| |lia]. exists y. split; [done|lia].
    + intros s Hs (y' & [= ->] & Hy). exists x. split; [done|lia].
  - split; [|done]. intros _ s _ (y & ? & _). done.
  - split; [done|]. intros H. destruct (H y) as (x & ? & _); [lia|by exists y|done].
  - split; [|done]. intros _ s _ (y & ? & _). done.
Qed.

Lemma admits_entry cut node s :
  admits cut node s = true ↔
  ∃ e, (node = 0 ∧ node_0 cut = Some e ∨ node = 1 ∧ node_1 cut = Some e) ∧ s ≤ e.
Proof.
  unfold admits, cut_get. destruct (node =? 0) eqn:H0; [apply Z.eqb_eq in H0 as ->|].
  - destruct (node_0 cut); rewrite ?Z.leb_le; naive_solver.
  - apply Z.eqb_neq in H0. destruct (node =? 1) eqn:H1; [apply Z.eqb_eq in H1 as ->|].
    + destruct (node_1 cut); rewrite ?Z.leb_le; naive_solver.
    + apply Z.eqb_neq in H1. naive_solver.
Qed.

Lemma top_admits cut t : top cut = Some t →
  (∃ node, admits cut node t = true) ∧ ∀ node s, admits cut node s = true → s ≤ t.
Proof.
  setoid_rewrite admits_entry. unfold top, opt_max.
  destruct (node_0 cut) as [a|], (node_1 cut) as [b|]; cbn; [|intros [= <-]..|done].
  - destruct (Z.compare_spec a b); intros [= <-]; (split; [|naive_solver lia]);
      [exists 1, b|exists 1, b|exists 0, a]; (split; [auto|lia]).
  - split; [exists 0, a; split; [auto|lia]|naive_solver lia].
  - split; [exists 1, b; split; [auto|lia]|naive_solver lia].
Qed.

Lemma top_iff cut t : top cut = Some t ↔
  (∃ node, admits cut node t = true) ∧ ∀ node s, admits cut node s = true → s ≤ t.
Proof.
  split; [apply top_admits|]. intros [[node Hnode] Hle].
  destruct (top cut) as [t'|] eqn:Ht.
  - destruct (top_admits _ _ Ht) as [[node' Hnode'] Hle']. f_equal.
    specialize (Hle _ _ Hnode'). specialize (Hle' _ _ Hnode). lia.
  - apply admits_entry in Hnode as (e & He & _). unfold top, opt_max in Ht.
    destruct (node_0 cut), (node_1 cut); cbn in Ht; repeat case_match; naive_solver.
Qed.

(** [covers] is inclusion of the admitted rows, and [top] bounds the rows a
    cut admits: it is the largest one, and it is [None] exactly when none is. *)
Theorem covers_is_inclusion later earlier :
  wf_cut later → wf_cut earlier →
  (covers later earlier = true ↔
   ∀ node s, 1 ≤ s → admits earlier node s = true → admits later node s = true) ∧
  (∀ t, top later = Some t ↔
    (∃ node, admits later node t = true) ∧
    ∀ node s, admits later node s = true → s ≤ t).
Proof.
  intros [Hl0 Hl1] [He0 He1]. split.
  - unfold covers. rewrite andb_true_iff, !opt_ge_iff by done. setoid_rewrite admits_entry. split.
    + intros [H0 H1] node s Hs (e & [[-> He]|[-> He]] & Hse).
      * destruct (H0 s Hs) as (x & Hx & Hsx); [eauto|]. exists x. eauto.
      * destruct (H1 s Hs) as (x & Hx & Hsx); [eauto|]. exists x. eauto.
    + intros H. split; intros s Hs (y & Hy & Hsy).
      * destruct (H 0 s Hs) as (x & [[_ Hx]|[? _]] & Hsx); [exists y; eauto|eauto|lia].
      * destruct (H 1 s Hs) as (x & [[? _]|[_ Hx]] & Hsx); [exists y; eauto|lia|eauto].
  - intros t. apply top_iff.
Qed.


(** The entries a cut can be read from: the two keys in either order, neither
    value zero. *)
Definition cut_entries (map : list map_entry) (cut : WindowCut) : Prop :=
  (map = [("0", inr (node_0 cut)); ("1", inr (node_1 cut))] ∨
   map = [("1", inr (node_1 cut)); ("0", inr (node_0 cut))]) ∧
  is_zero_entry (node_0 cut) = false ∧ is_zero_entry (node_1 cut) = false.

Lemma visit_entry_Ok slots e slots' :
  visit_entry slots e = Ok slots' →
  ∃ entry, is_zero_entry entry = false ∧
    (e = ("0", inr entry) ∧ slots.1 = None ∧ slots' = (Some entry, slots.2) ∨
     e = ("1", inr entry) ∧ slots.2 = None ∧ slots' = (slots.1, Some entry)).
Proof.
  destruct e as [key value]. unfold visit_entry.
  destruct (String.eqb_spec key "0") as [->|_];
    [|destruct (String.eqb_spec key "1") as [->|_]; [|done]];
    intros (n & Hn & [= <-])%bind_Ok; unfold fill_slot in Hn;
    repeat case_match; simplify_eq; eexists; eauto 10.
Qed.

Lemma full_slots n0 n1 map slots :
  try_fold visit_entry (Some n0, Some n1) map = Ok slots → map = [] ∧ slots = (Some n0, Some n1).
Proof.
  destruct map as [|e map]; [by intros [= <-]|]. cbn.
  intros (s & (entry & _ & [(_ & ? & _)|(_ & ? & _)])%visit_entry_Ok & _)%bind_Ok; done.
Qed.

(** [WindowCut] deserialises exactly from the map with both keys once and no
    zero entry; in particular a serialised cut round-trips and no cut has a
    second spelling up to key order. *)
Theorem visit_map_exact map cut :
  visit_map map = Ok cut ↔ cut_entries map cut.
Proof.
  unfold visit_map, cut_entries. split.
  - intros ([n0 n1] & Hf & H)%bind_Ok. res_inv.
    destruct map as [|e1 [|e2 rest]]; cbn in Hf.
    + done.
    + apply bind_Ok in Hf as (s1 & Hs1%visit_entry_Ok & Hs).
      destruct Hs1 as (v & _ & [(_ & _ & ->)|(_ & _ & ->)]); done.
    + apply bind_Ok in Hf as (s1 & Hs1%visit_entry_Ok & Hf).
      apply bind_Ok in Hf as (s2 & Hs2%visit_entry_Ok & Hf).
      destruct Hs1 as (v & Hv & [(-> & _ & ->)|(-> & _ & ->)]), Hs2 as (w & Hw & [(-> & Hn & ->)|(-> & Hn & ->)]);
        cbn in *; try done; apply full_slots in Hf as [-> [= -> ->]]; cbn; auto.
  - destruct cut as [[z0|] [z1|]]; cbn; intros [[-> | ->] [H0 H1]]; cbn;
      rewrite ?H0, ?H1; cbn; rewrite ?H0, ?H1; done.
Qed.

(** * Witnesses *)
Lemma covers_is_inclusion_witness :
  covers {| node_0 := Some 9; node_1 := Some 4 |} {| node_0 := Some 7; node_1 := None |} = true ∧
  admits {| node_0 := Some 9; node_1 := Some 4 |} 0 7 = true.
Proof.
  assert (wf_cut {| node_0 := Some 9; node_1 := Some 4 |}) as H1 by (split; cbn; lia).
  assert (wf_cut {| node_0 := Some 7; node_1 := None |}) as H2 by (split; cbn; [lia|exact I]).
  split; [reflexivity|].
  apply (proj1 (proj1 (covers_is_inclusion _ _ H1 H2)) eq_refl 0 7); [lia|reflexivity].
Defined.
