(* ===== verification/RewardWindow.v ===== *)
(** The PRISM reward window (crates/qbit-prism/src/lib.rs): eligibility and
    newest-first ordering of accepted shares, the fold that credits them until
    the requested weight is reached, the entitlements per miner, and the
    reward manifest with its restore. *)
From Stdlib Require Import ZArith Lia Sorting.Sorted.
From Stdlib Require String.
From coqutil Require Import Byte.
From stdpp Require Import base list strings gmap sorting.
From S2P Require Import Prelude Order BTree Bytes Crates Payee Apportion PoolBuilder.
From S2P Require Import PrismError WindowCut.

Open Scope Z_scope.

Definition PRISM_WINDOW_MULTIPLIER : Z := 8.

(** * Data *)
Record AcceptedShare := {
  as_share_seq : Z;
  as_share_id : string;
  as_miner_id : string;
  as_order_key : string;
  as_p2mr_program_hex : string;
  as_share_difficulty : Z;
  as_network_difficulty : Z;
  as_template_height : Z;
  as_job_id : string;
  as_job_issued_at_ms : Z;
  as_accepted_at_ms : Z;
  as_ntime : Z;
  as_credit_policy : option string;
}.
#[export] Instance accepted_share_eq_dec : EqDecision AcceptedShare.
Proof. solve_decision. Defined.

Record FoundBlock := {
  fb_block_height : Z;
  fb_coinbase_value_sats : Z;
  fb_network_difficulty : Z;
  fb_anchor_job_issued_at_ms : Z;
}.

Record CountedShare := {
  cs_share_seq : Z;
  cs_share_id : string;
  cs_miner_id : string;
  cs_order_key : string;
  cs_p2mr_program_hex : string;
  cs_share_difficulty : Z;
  cs_counted_difficulty : Z;
  cs_job_issued_at_ms : Z;
  cs_accepted_at_ms : Z;
  cs_credit_policy : option string;
}.
#[export] Instance counted_share_eq_dec : EqDecision CountedShare.
Proof. solve_decision. Defined.

Record PrismWindow := {
  pw_anchor_job_issued_at_ms : Z;
  pw_anchor_share_seq : Z;
  pw_requested_window_weight : Z;
  pw_counted_window_weight : Z;
  pw_shares : list CountedShare;
  pw_entitlements : list WeightedEntitlement;
}.

Record PrismRewardManifest := {
  rm_schema : string;
  rm_block_height : Z;
  rm_coinbase_value_sats : Z;
  rm_network_difficulty : Z;
  rm_window_multiplier : Z;
  rm_requested_window_weight : Z;
  rm_counted_window_weight : Z;
  rm_anchor_job_issued_at_ms : Z;
  rm_anchor_share_seq : Z;
  rm_newest_share_seq : Z;
  rm_oldest_share_seq : Z;
  rm_cut : option WindowCut;
  rm_included_share_count : Z;
  rm_share_slice_digest_hex : string;
  rm_shares : list CountedShare;
  rm_entitlements : list WeightedEntitlement;
}.

Record PrismRewardManifestHeader := {
  rh_schema : string;
  rh_block_height : Z;
  rh_coinbase_value_sats : Z;
  rh_network_difficulty : Z;
  rh_window_multiplier : Z;
  rh_requested_window_weight : Z;
  rh_counted_window_weight : Z;
  rh_anchor_job_issued_at_ms : Z;
  rh_anchor_share_seq : Z;
  rh_newest_share_seq : Z;
  rh_oldest_share_seq : Z;
  rh_cut : option WindowCut;
  rh_included_share_count : Z;
  rh_share_slice_digest_hex : string;
  rh_entitlements : list WeightedEntitlement;
}.
#[export] Instance reward_header_eq_dec : EqDecision PrismRewardManifestHeader.
Proof. solve_decision. Defined.

(** * Eligibility and order *)

(** [slice.windows(2).all(|pair| ok(pair[0], pair[1]))]. *)
Fixpoint windows_all {A} (ok : A -> A -> bool) (l : list A) : bool :=
  match l with
  | x :: (y :: _) as rest => ok x y && windows_all ok rest
  | _ => true
  end.

(** The newest-first order: reverse an ascending snapshot, keep a descending
    one, stable sort anything else. *)
Definition by_seq_desc : AcceptedShare -> AcceptedShare -> comparison :=
  cmp_rev (cmp_on as_share_seq Z.compare).
Definition newest_first (eligible : list AcceptedShare) : list AcceptedShare :=
  if windows_all (fun a b => as_share_seq a <? as_share_seq b) eligible then reverse eligible
  else if negb (windows_all (fun a b => as_share_seq b <? as_share_seq a) eligible)
  then sort_by by_seq_desc eligible
  else eligible.

Definition is_eligible (found_block : FoundBlock) (share : AcceptedShare) : bool :=
  (as_job_issued_at_ms share <=? fb_anchor_job_issued_at_ms found_block) &&
  (as_accepted_at_ms share <=? fb_anchor_job_issued_at_ms found_block).

(** [top.is_none_or(|top| share.share_seq > top)] when a cut is given. *)
Definition outside_cut (cut : option WindowCut) (share : AcceptedShare) : bool :=
  match cut with
  | None => false
  | Some cut => match top cut with None => true | Some t => t <? as_share_seq share end
  end.

Definition admit_share (cut : option WindowCut) (found_block : FoundBlock)
    (acc : gset string * list AcceptedShare) (share : AcceptedShare)
  : result PrismError (gset string * list AcceptedShare) :=
  let '(seen_share_ids, eligible) := acc in
  if as_share_difficulty share =? 0 then Err (ZeroShareDifficulty (as_share_seq share)) else
  if outside_cut cut share then Err (ShareOutsideWindowCut (as_share_seq share)) else
  if decide (as_share_id share ∈ seen_share_ids) then Err (DuplicateShareId (as_share_id share)) else
  Ok ({[as_share_id share]} ∪ seen_share_ids,
      if is_eligible found_block share then eligible ++ [share] else eligible).

Definition eligible_window (shares : list AcceptedShare) (found_block : FoundBlock)
    (cut : option WindowCut) : result PrismError (list AcceptedShare * Z) :=
  if fb_network_difficulty found_block =? 0 then Err ZeroNetworkDifficulty else
  '(_, eligible) ← try_fold (admit_share cut found_block) (∅, []) shares;
  requested_window_weight ←
    ok_or (checked_mul U128 (fb_network_difficulty found_block) PRISM_WINDOW_MULTIPLIER)
      WindowOverflow;
  Ok (newest_first eligible, requested_window_weight).

(** * The fold *)
Definition counted_share (share : AcceptedShare) (counted : Z) : CountedShare :=
  {| cs_share_seq := as_share_seq share; cs_share_id := as_share_id share;
     cs_miner_id := as_miner_id share; cs_order_key := as_order_key share;
     cs_p2mr_program_hex := as_p2mr_program_hex share;
     cs_share_difficulty := as_share_difficulty share; cs_counted_difficulty := counted;
     cs_job_issued_at_ms := as_job_issued_at_ms share;
     cs_accepted_at_ms := as_accepted_at_ms share; cs_credit_policy := as_credit_policy share |}.

Fixpoint count_shares (remaining : Z) (eligible : list AcceptedShare) : list CountedShare :=
  match eligible with
  | [] => []
  | share :: rest =>
      if remaining =? 0 then [] else
      let counted := Z.min (as_share_difficulty share) remaining in
      counted_share share counted :: count_shares (remaining - counted) rest
  end.

(** [MinerKey] in its derived order. *)
Definition MinerKey : Type := string * string * string.
Definition miner_key (share : CountedShare) : MinerKey :=
  (cs_miner_id share, cs_order_key share, cs_p2mr_program_hex share).

(** [*entry(key).or_insert(0) += amount], checked. *)
Definition add_weight (weights : list (MinerKey * Z)) (key : MinerKey) (amount : Z)
  : result PrismError (list (MinerKey * Z)) :=
  let existing := default 0 (bt_get string_triple_cmp key weights) in
  weight ← ok_or (checked_add U128 existing amount) WindowOverflow;
  Ok (bt_insert string_triple_cmp key weight weights).

Definition entitlement_of (kw : MinerKey * Z) : WeightedEntitlement :=
  let '((miner_id, order_key, p2mr_program_hex), weight) := kw in
  {| we_recipient_id := miner_id; we_order_key := order_key;
     we_p2mr_program_hex := p2mr_program_hex; we_weight := weight |}.

Definition aggregate_entitlements (counted_shares : list CountedShare)
  : result PrismError (list WeightedEntitlement) :=
  weights ← try_fold (fun weights share =>
      add_weight weights (miner_key share) (cs_counted_difficulty share)) [] counted_shares;
  Ok (entitlement_of <$> (weights : list (MinerKey * Z))).

Definition compute_prism_window_in_cut (shares : list AcceptedShare) (found_block : FoundBlock)
    (cut : option WindowCut) : result PrismError PrismWindow :=
  '(eligible, requested_window_weight) ← eligible_window shares found_block cut;
  let counted_shares := count_shares requested_window_weight eligible in
  match counted_shares with
  | [] => Err (EmptyWindow (fb_anchor_job_issued_at_ms found_block))
  | first :: _ =>
      counted_window_weight ← try_fold (fun sum share =>
          ok_or (checked_add U128 sum (cs_counted_difficulty share)) WindowOverflow) 0 counted_shares;
      entitlements ← aggregate_entitlements counted_shares;
      Ok {| pw_anchor_job_issued_at_ms := fb_anchor_job_issued_at_ms found_block;
            pw_anchor_share_seq := cs_share_seq first;
            pw_requested_window_weight := requested_window_weight;
            pw_counted_window_weight := counted_window_weight;
            pw_shares := counted_shares; pw_entitlements := entitlements |}
  end.

Definition compute_prism_window (shares : list AcceptedShare) (found_block : FoundBlock)
  : result PrismError PrismWindow := compute_prism_window_in_cut shares found_block None.

(** The window's entitlements go to the pool builder as they are. *)
Definition build_prism_coinbase_request (shares : list AcceptedShare) (found_block : FoundBlock)
  : result PrismError (CoinbaseBuildRequest * PrismWindow) :=
  window ← compute_prism_window shares found_block;
  Ok ({| cbr_block_height := fb_block_height found_block;
         cbr_coinbase_value_sats := fb_coinbase_value_sats found_block;
         cbr_entitlements := pw_entitlements window;
         cbr_witness_nonce_hex := None; cbr_witness_merkle_leaves_hex := [];
         cbr_coinbase_script_sig_suffix_hex := None; cbr_pinned_first_output := None |}, window).

(** * The slice digest *)
Definition update_u64 (value : Z) : list byte := be_bytes 8 value.
Definition update_i64 (value : Z) : list byte := be_bytes 8 value.
Definition update_u128 (value : Z) : list byte := be_bytes 16 value.
Definition update_i128 (value : Z) : list byte := be_bytes 16 value.
Definition update_string (value : string) : list byte :=
  update_u64 (Z.of_nat (length (str_bytes value))) ++ str_bytes value.

(** The bytes one share feeds the hasher (or the buffer standing in for it). *)
Definition update_slice_digest (share : CountedShare) : list byte :=
  update_u64 (cs_share_seq share) ++ update_string (cs_share_id share) ++
  update_string (cs_miner_id share) ++ update_string (cs_order_key share) ++
  update_string (cs_p2mr_program_hex share) ++ update_u128 (cs_share_difficulty share) ++
  update_u128 (cs_counted_difficulty share) ++ update_i64 (cs_job_issued_at_ms share) ++
  update_i64 (cs_accepted_at_ms share) ++
  match cs_credit_policy share with
  | Some credit_policy => update_string "credit_policy" ++ update_string credit_policy
  | None => []
  end.

Section manifest.
Context `{HexCrate, Sha256Crate}.

Definition share_slice_digest_hex (shares : list CountedShare) : string :=
  hex_encode (sha256 (shares ≫= update_slice_digest)).

Definition build_prism_reward_manifest_with_cut (shares : list AcceptedShare)
    (found_block : FoundBlock) (cut : option WindowCut) : result PrismError PrismRewardManifest :=
  window ← compute_prism_window_in_cut shares found_block cut;
  newest ← expect (head (pw_shares window)) "index out of bounds";
  oldest ← expect (last (pw_shares window)) "non-empty PRISM windows have a last share";
  Ok {| rm_schema := "qbit.prism.reward-manifest.v1";
        rm_block_height := fb_block_height found_block;
        rm_coinbase_value_sats := fb_coinbase_value_sats found_block;
        rm_network_difficulty := fb_network_difficulty found_block;
        rm_window_multiplier := PRISM_WINDOW_MULTIPLIER;
        rm_requested_window_weight := pw_requested_window_weight window;
        rm_counted_window_weight := pw_counted_window_weight window;
        rm_anchor_job_issued_at_ms := pw_anchor_job_issued_at_ms window;
        rm_anchor_share_seq := pw_anchor_share_seq window;
        rm_newest_share_seq := cs_share_seq newest;
        rm_oldest_share_seq := cs_share_seq oldest;
        rm_cut := cut;
        rm_included_share_count := Z.of_nat (length (pw_shares window));
        rm_share_slice_digest_hex := share_slice_digest_hex (pw_shares window);
        rm_shares := pw_shares window;
        rm_entitlements := pw_entitlements window |}.

Definition build_prism_reward_manifest (shares : list AcceptedShare) (found_block : FoundBlock)
  : result PrismError PrismRewardManifest :=
  build_prism_reward_manifest_with_cut shares found_block None.

(** [PrismRewardManifest::into_parts] and [PrismRewardManifestHeader::into_manifest]. *)
Definition manifest_into_parts (m : PrismRewardManifest)
  : PrismRewardManifestHeader * list CountedShare :=
  ({| rh_schema := rm_schema m; rh_block_height := rm_block_height m;
      rh_coinbase_value_sats := rm_coinbase_value_sats m;
      rh_network_difficulty := rm_network_difficulty m;
      rh_window_multiplier := rm_window_multiplier m;
      rh_requested_window_weight := rm_requested_window_weight m;
      rh_counted_window_weight := rm_counted_window_weight m;
      rh_anchor_job_issued_at_ms := rm_anchor_job_issued_at_ms m;
      rh_anchor_share_seq := rm_anchor_share_seq m;
      rh_newest_share_seq := rm_newest_share_seq m;
      rh_oldest_share_seq := rm_oldest_share_seq m; rh_cut := rm_cut m;
      rh_included_share_count := rm_included_share_count m;
      rh_share_slice_digest_hex := rm_share_slice_digest_hex m;
      rh_entitlements := rm_entitlements m |}, rm_shares m).

Definition into_manifest (h : PrismRewardManifestHeader) (shares : list CountedShare)
  : PrismRewardManifest :=
  {| rm_schema := rh_schema h; rm_block_height := rh_block_height h;
     rm_coinbase_value_sats := rh_coinbase_value_sats h;
     rm_network_difficulty := rh_network_difficulty h;
     rm_window_multiplier := rh_window_multiplier h;
     rm_requested_window_weight := rh_requested_window_weight h;
     rm_counted_window_weight := rh_counted_window_weight h;
     rm_anchor_job_issued_at_ms := rh_anchor_job_issued_at_ms h;
     rm_anchor_share_seq := rh_anchor_share_seq h;
     rm_newest_share_seq := rh_newest_share_seq h;
     rm_oldest_share_seq := rh_oldest_share_seq h; rm_cut := rh_cut h;
     rm_included_share_count := rh_included_share_count h;
     rm_share_slice_digest_hex := rh_share_slice_digest_hex h;
     rm_shares := shares; rm_entitlements := rh_entitlements h |}.

Definition restore_reward_manifest (header : PrismRewardManifestHeader)
    (shares : list AcceptedShare) (found_block : FoundBlock)
  : result PrismError PrismRewardManifest :=
  built ← build_prism_reward_manifest_with_cut shares found_block (rh_cut header);
  let '(rebuilt, window) := manifest_into_parts built in
  if negb (bool_decide (rebuilt = header)) then Err (AuditMismatch "reward_manifest")
  else Ok (into_manifest rebuilt window).
End manifest.

(** * Ordering *)
#[export] Instance by_seq_desc_order : CmpOrder by_seq_desc.
Proof. unfold by_seq_desc. apply _. Qed.
#[global] Typeclasses Opaque by_seq_desc.

Lemma by_seq_desc_le a b : cmp_le by_seq_desc a b ↔ as_share_seq b ≤ as_share_seq a.
Proof. unfold cmp_le, by_seq_desc, cmp_rev, cmp_on. rewrite Z.compare_gt_iff. lia. Qed.
Lemma by_seq_desc_eq a b : by_seq_desc a b = Eq ↔ as_share_seq a = as_share_seq b.
Proof. unfold by_seq_desc, cmp_rev, cmp_on. rewrite Z.compare_eq_iff. lia. Qed.

Lemma windows_all_sorted {A} (ok : A -> A -> bool) l :
  (∀ a b c, ok a b = true → ok b c = true → ok a c = true) →
  windows_all ok l = true → StronglySorted (fun a b => ok a b = true) l.
Proof.
  intros Htr H. apply Sorted_StronglySorted; [exact Htr|].
  induction l as [|x [|y l] IH]; [constructor|by constructor|].
  cbn in H. apply andb_true_iff in H as [Hxy Hl]. constructor; [by apply IH|by constructor].
Qed.

Lemma StronglySorted_reverse {A} (R : relation A) l :
  StronglySorted R l → StronglySorted (flip R) (reverse l).
Proof.
  induction 1 as [|x l Hl IH Hx]; [constructor|]. rewrite reverse_cons.
  apply StronglySorted_app. split_and!; [|done|by repeat constructor].
  intros a b Ha Hb%list_elem_of_singleton. subst. rewrite elem_of_reverse in Ha.
  rewrite Forall_forall in Hx. exact (Hx _ Ha).
Qed.

Lemma strict_unique (l : list AcceptedShare) x y :
  StronglySorted (fun a b => (as_share_seq a <? as_share_seq b) = true) l →
  x ∈ l → y ∈ l → as_share_seq x = as_share_seq y → x = y.
Proof.
  induction 1 as [|z l Hl IH Hz]; intros Hx Hy Heq; [set_solver|].
  rewrite Forall_forall in Hz.
  apply elem_of_cons in Hx as [->|Hx], Hy as [->|Hy]; [done| | |by apply IH].
  - specialize (Hz _ Hy). lia.
  - specialize (Hz _ Hx). lia.
Qed.

(** The three branches of [newest_first] are one stable sort. *)
Lemma newest_first_sort l : newest_first l = sort_by by_seq_desc l.
Proof.
  unfold newest_first. destruct (windows_all _ l) eqn:Hasc.
  - apply windows_all_sorted in Hasc; [|intros; lia]. symmetry.
    apply (sorted_perm_eq by_seq_desc).
    + intros x y Hx Hy He%by_seq_desc_eq. rewrite elem_of_sort_by in Hx, Hy.
      by apply (strict_unique l).
    + apply sort_by_sorted. apply _.
    + eapply StronglySorted_weaken; [|by apply StronglySorted_reverse].
      intros a b _ _ Hab. cbn in Hab. apply by_seq_desc_le. lia.
    + by rewrite sort_by_perm, reverse_Permutation.
  - destruct (windows_all (fun a b => as_share_seq b <? as_share_seq a) l) eqn:Hdesc; [|done].
    cbn. apply windows_all_sorted in Hdesc; [|intros; lia]. symmetry. apply sort_by_id.
    eapply StronglySorted_weaken; [|done]. intros a b _ _ Hab. cbn in Hab. apply by_seq_desc_le. lia.
Qed.

(** * Eligibility *)
Definition admissible (cut : option WindowCut) (shares : list AcceptedShare) : Prop :=
  Forall (fun s => as_share_difficulty s ≠ 0 ∧ outside_cut cut s = false) shares ∧
  NoDup (as_share_id <$> shares).

Lemma admit_fold cut fb seen el shares el' :
  (∃ seen', try_fold (admit_share cut fb) (seen, el) shares = Ok (seen', el')) ↔
  admissible cut shares ∧ Forall (fun s => as_share_id s ∉ seen) shares ∧
  el' = el ++ filter (fun s => is_eligible fb s) shares.
Proof.
  unfold admissible. revert seen el. induction shares as [|s shares IH]; intros seen el; cbn [try_fold].
  { split.
    - intros (seen' & [= _ <-]). rewrite app_nil_r. split_and!; try constructor.
    - intros (_ & _ & ->). exists seen. by rewrite app_nil_r. }
  unfold admit_share at 2. rewrite fmap_cons, !Forall_cons, NoDup_cons, filter_cons.
  destruct (as_share_difficulty s =? 0) eqn:Hz.
  { apply Z.eqb_eq in Hz. split; [by intros (? & ?)|]. intros ([[[? _] _] _] & _). done. }
  apply Z.eqb_neq in Hz. destruct (outside_cut cut s) eqn:Hcut.
  { split; [by intros (? & ?)|]. intros ([[[_ ?] _] _] & _). done. }
  case_decide as Hseen.
  { split; [by intros (? & ?)|]. intros (_ & [? _] & _). done. }
  cbn [mbind result_bind]. rewrite IH.
  assert (el' = (if is_eligible fb s then el ++ [s] else el) ++ filter (fun s => is_eligible fb s) shares ↔
          el' = el ++ (if decide (is_eligible fb s) then s :: filter (fun s => is_eligible fb s) shares
                 else filter (fun s => is_eligible fb s) shares)) as ->.
  { destruct (is_eligible fb s); case_decide; try done. by rewrite <- app_assoc. }
  rewrite !Forall_forall. setoid_rewrite list_elem_of_fmap. set_solver.
Qed.

Lemma eligible_window_Ok shares fb cut el req :
  eligible_window shares fb cut = Ok (el, req) ↔
  fb_network_difficulty fb ≠ 0 ∧ admissible cut shares ∧
  el = sort_by by_seq_desc (filter (fun s => is_eligible fb s) shares) ∧
  req = fb_network_difficulty fb * PRISM_WINDOW_MULTIPLIER ∧ fits U128 req = true.
Proof.
  unfold eligible_window. destruct (fb_network_difficulty fb =? 0) eqn:Hz.
  { apply Z.eqb_eq in Hz. naive_solver. }
  apply Z.eqb_neq in Hz. split.
  - intros ([seen e] & Hf & H)%bind_Ok. res_inv. simplify_eq.
    rewrite newest_first_sort. pose proof (proj1 (admit_fold cut fb ∅ [] shares e)) as Ha.
    destruct Ha as (? & _ & ->); [eauto|]. done.
  - intros (_ & Hadm & -> & -> & Hfit).
    destruct (proj2 (admit_fold cut fb ∅ [] shares (filter (fun s => is_eligible fb s) shares)))
      as (seen & ->); [split_and!; [done|by apply Forall_true; set_solver|done]|].
    cbn. unfold checked_mul. rewrite checked_fits by done. cbn. by rewrite newest_first_sort.
Qed.

(** * The fold *)
Definition full_share (s : AcceptedShare) : CountedShare := counted_share s (as_share_difficulty s).

(** The newest shares are credited in full; at most one more, the oldest, is
    cut down to what was left of the requested weight. *)
Inductive credited (requested : Z) (el : list AcceptedShare) : list CountedShare -> Prop :=
| credited_all :
    sum_of as_share_difficulty el ≤ requested → credited requested el (full_share <$> el)
| credited_cut full s rest taken :
    el = full ++ s :: rest → 0 < taken ≤ as_share_difficulty s →
    sum_of as_share_difficulty full + taken = requested →
    credited requested el ((full_share <$> full) ++ [counted_share s taken]).

Lemma count_shares_credited rem el :
  0 ≤ rem → Forall (fun s => 0 < as_share_difficulty s) el → (rem = 0 → el = []) →
  credited rem el (count_shares rem el).
Proof.
  revert rem. induction el as [|s el IH]; intros rem Hrem Hpos Hz; cbn [count_shares].
  { apply credited_all. rewrite sum_of_nil. done. }
  inversion Hpos as [|? ? Hs Hel]; subst.
  destruct (rem =? 0) eqn:Hr0; [apply Z.eqb_eq in Hr0; by specialize (Hz Hr0)|].
  apply Z.eqb_neq in Hr0.
  destruct (decide (as_share_difficulty s < rem)) as [Hlt|Hge].
  - rewrite Z.min_l by lia.
    destruct (IH (rem - as_share_difficulty s)) as [Hsum|full s' rest taken -> Ht Heq]; [lia|done|lia| |].
    + change (credited rem (s :: el) (full_share <$> (s :: el))). apply credited_all. rewrite sum_of_cons. lia.
    + apply (credited_cut _ _ (s :: full) s' rest); [done|done|]. rewrite sum_of_cons. lia.
  - rewrite Z.min_r, Z.sub_diag by lia.
    replace (count_shares 0 el) with (@nil CountedShare) by (by destruct el).
    apply (credited_cut _ _ [] s el); [done|lia|]. rewrite sum_of_nil. lia.
Qed.

Lemma full_share_sum l :
  sum_of cs_counted_difficulty (full_share <$> l) = sum_of as_share_difficulty l.
Proof. by rewrite sum_of_fmap. Qed.

Lemma credited_sum rem el cs :
  Forall (fun s => 0 < as_share_difficulty s) el → credited rem el cs →
  sum_of cs_counted_difficulty cs = Z.min rem (sum_of as_share_difficulty el) ∧
  Forall (fun c => 0 < cs_counted_difficulty c ≤ cs_share_difficulty c) cs.
Proof.
  intros Hpos [Hsum|full s rest taken -> Ht Heq].
  - rewrite full_share_sum. split; [lia|]. apply Forall_fmap.
    eapply Forall_impl; [exact Hpos|]. cbn. lia.
  - apply Forall_app in Hpos as [Hfull Hrest]. inversion Hrest as [|? ? Hs Hr]; subst.
    rewrite !sum_of_app, full_share_sum, !sum_of_cons, sum_of_nil. cbn.
    assert (0 ≤ sum_of as_share_difficulty rest).
    { apply sum_of_nonneg. rewrite <- Forall_forall. eapply Forall_impl; [exact Hr|]. cbn. lia. }
    split; [lia|]. apply Forall_app. split; [|by constructor].
    apply Forall_fmap. eapply Forall_impl; [exact Hfull|]. cbn. lia.
Qed.

(** * Aggregation *)
Definition key_weight (key : MinerKey) (shares : list CountedShare) : Z :=
  sum_of (fun s => if decide (miner_key s = key) then cs_counted_difficulty s else 0) shares.

Definition weights_of (shares : list CountedShare) (m : list (MinerKey * Z)) : Prop :=
  bt_wf string_triple_cmp m ∧
  ∀ k, bt_get string_triple_cmp k m =
       if decide (k ∈ miner_key <$> shares) then Some (key_weight k shares) else None.

Lemma key_weight_app k l1 l2 : key_weight k (l1 ++ l2) = key_weight k l1 + key_weight k l2.
Proof. apply sum_of_app. Qed.

Lemma key_weight_notin k l : k ∉ miner_key <$> l → key_weight k l = 0.
Proof.
  intros Hk. apply sum_of_zero. intros s Hs. case_decide as Hd; [|done].
  exfalso. apply Hk. rewrite list_elem_of_fmap. eauto.
Qed.

Lemma weights_of_default shares m k :
  weights_of shares m → default 0 (bt_get string_triple_cmp k m) = key_weight k shares.
Proof.
  intros [_ Hg]. rewrite Hg. case_decide; [done|]. cbn. by rewrite key_weight_notin.
Qed.

Lemma weights_of_unique shares m m' : weights_of shares m → weights_of shares m' → m = m'.
Proof.
  intros [Hw Hg] [Hw' Hg']. apply (bt_ext string_triple_cmp); [done..|]. intros k. by rewrite Hg, Hg'.
Qed.

Lemma weights_of_nil : weights_of [] [].
Proof. split; [constructor|]. intros k. case_decide as Hk; [set_solver|done]. Qed.

(** Adding [amount] for one key is appending any shares of that key worth it. *)
Lemma add_weight_spec shares m key amount m' extra :
  weights_of shares m → extra ≠ [] → Forall (fun s => miner_key s = key) extra →
  sum_of cs_counted_difficulty extra = amount →
  add_weight m key amount = Ok m' → weights_of (shares ++ extra) m'.
Proof.
  intros Hm Hne Hkey Hsum Ha. unfold add_weight in Ha. res_inv.
  rewrite (weights_of_default _ _ _ Hm). destruct Hm as [Hw Hg].
  assert (key_weight key extra = sum_of cs_counted_difficulty extra) as Hkw.
  { apply sum_of_ext. intros s Hs. rewrite Forall_forall in Hkey. by rewrite decide_True by auto. }
  split; [by apply (bt_insert_wf string_triple_cmp)|]. intros k. destruct (decide (k = key)) as [->|Hk].
  - rewrite (bt_get_insert_eq string_triple_cmp). rewrite decide_True.
    + by rewrite key_weight_app, Hkw.
    + destruct extra as [|s extra]; [done|]. inversion Hkey; subst. rewrite fmap_app. set_solver.
  - rewrite (bt_get_insert_ne string_triple_cmp) by done. rewrite Hg.
    assert (k ∉ miner_key <$> extra) as Hnot.
    { rewrite list_elem_of_fmap. intros (s & -> & Hs). rewrite Forall_forall in Hkey. by apply Hk, Hkey. }
    rewrite key_weight_app, (key_weight_notin _ _ Hnot), Z.add_0_r, fmap_app.
    repeat case_decide; set_solver.
Qed.

Lemma add_weight_total shares m key amount :
  weights_of shares m → 0 ≤ amount → Forall (fun c => 0 ≤ cs_counted_difficulty c) shares →
  fits U128 (sum_of cs_counted_difficulty shares + amount) = true →
  ∃ m', add_weight m key amount = Ok m'.
Proof.
  intros Hm Ha Hpos Hfit. unfold add_weight. rewrite (weights_of_default _ _ _ Hm).
  rewrite Forall_forall in Hpos.
  assert (0 ≤ key_weight key shares ≤ sum_of cs_counted_difficulty shares).
  { split; [apply sum_of_nonneg|apply sum_of_le]; intros s Hs; specialize (Hpos s Hs); case_decide; lia. }
  unfold checked_add. rewrite checked_fits by widths. cbn. eauto.
Qed.

Lemma aggregate_fold shares l m m' :
  weights_of shares m →
  try_fold (fun w s => add_weight w (miner_key s) (cs_counted_difficulty s)) m l = Ok m' →
  weights_of (shares ++ l) m'.
Proof.
  revert shares m. induction l as [|s l IH]; intros shares m Hm; cbn.
  - intros [= <-]. by rewrite app_nil_r.
  - intros (m1 & H1 & H2)%bind_Ok. rewrite cons_middle, app_assoc. eapply IH; [|done].
    eapply add_weight_spec; [done|done|by constructor| |done]. rewrite sum_of_cons, sum_of_nil. lia.
Qed.

Lemma aggregate_total shares l m :
  weights_of shares m → Forall (fun c => 0 ≤ cs_counted_difficulty c) (shares ++ l) →
  fits U128 (sum_of cs_counted_difficulty (shares ++ l)) = true →
  ∃ m', try_fold (fun w s => add_weight w (miner_key s) (cs_counted_difficulty s)) m l = Ok m'.
Proof.
  revert shares m. induction l as [|s l IH]; intros shares m Hm Hpos Hfit; cbn; [eauto|].
  pose proof Hpos as [Hp1 Hp2]%Forall_app. inversion Hp2 as [|? ? Hs Hl]; subst.
  assert (0 ≤ sum_of cs_counted_difficulty l) by (apply sum_of_nonneg; by rewrite <- Forall_forall).
  assert (0 ≤ sum_of cs_counted_difficulty shares) by (apply sum_of_nonneg; by rewrite <- Forall_forall).
  destruct (add_weight_total shares m (miner_key s) (cs_counted_difficulty s)) as [m1 H1]; [done..| |].
  { rewrite sum_of_app, sum_of_cons in Hfit. widths. }
  rewrite H1. cbn. rewrite cons_middle, app_assoc in Hpos, Hfit. eapply IH; [|done|done].
  eapply add_weight_spec; [done|done|by constructor| |done]. rewrite sum_of_cons, sum_of_nil. lia.
Qed.

Lemma aggregate_sum l m m' :
  bt_wf string_triple_cmp m →
  try_fold (fun w s => add_weight w (miner_key s) (cs_counted_difficulty s)) m l = Ok m' →
  sum_of id m'.*2 = sum_of id m.*2 + sum_of cs_counted_difficulty l.
Proof.
  revert m. induction l as [|s l IH]; intros m Hm; cbn.
  - intros [= <-]. by rewrite sum_of_nil, Z.add_0_r.
  - intros (m1 & H1 & H2)%bind_Ok. unfold add_weight in H1. res_inv.
    apply IH in H2; [|by apply (bt_insert_wf string_triple_cmp)].
    rewrite H2, (bt_insert_sum string_triple_cmp), sum_of_cons by done. cbn.
    destruct (bt_get _ _ _); cbn; lia.
Qed.

Lemma key_weight_pos k l :
  Forall (fun c => 0 < cs_counted_difficulty c) l → k ∈ miner_key <$> l → 0 < key_weight k l.
Proof.
  intros Hpos (s & -> & Hs)%list_elem_of_fmap. rewrite Forall_forall in Hpos.
  pose proof (sum_of_elem_le
    (fun s' => if decide (miner_key s' = miner_key s) then cs_counted_difficulty s' else 0) l s) as Hle.
  cbn beta in Hle. rewrite decide_True in Hle by done.
  specialize (Hpos s Hs) as Hs'. unfold key_weight.
  eapply Z.lt_le_trans; [exact Hs'|]. apply Hle; [|done]. intros x Hx. specialize (Hpos x Hx). case_decide; lia.
Qed.

(** * The window *)
Record wf_share (s : AcceptedShare) : Prop := {
  wfs_difficulty : fits U128 (as_share_difficulty s) = true;
}.
Record wf_found (fb : FoundBlock) : Prop := {
  wff_network : fits U128 (fb_network_difficulty fb) = true;
  wff_height : fits U64 (fb_block_height fb) = true;
  wff_value : fits U64 (fb_coinbase_value_sats fb) = true;
}.

(** The eligible shares, newest first. *)
Definition eligible_shares (fb : FoundBlock) (shares : list AcceptedShare) : list AcceptedShare :=
  sort_by by_seq_desc (filter (fun s => is_eligible fb s) shares).

Lemma eligible_positive cut fb shares :
  Forall wf_share shares → admissible cut shares →
  Forall (fun s => 0 < as_share_difficulty s) (eligible_shares fb shares).
Proof.
  intros Hwf [Hadm _]. unfold eligible_shares. apply sort_by_Forall, Forall_forall.
  intros s [_ Hs]%list_elem_of_filter. rewrite Forall_forall in Hwf, Hadm.
  destruct (Hwf s Hs) as [Hfit]. destruct (Hadm s Hs) as [Hnz _]. widths.
Qed.

(** What a computed window is. *)
Record window_facts (shares : list AcceptedShare) (fb : FoundBlock) (cut : option WindowCut)
    (w : PrismWindow) (weights : list (MinerKey * Z)) : Prop := {
  wf_network : fb_network_difficulty fb ≠ 0;
  wf_admissible : admissible cut shares;
  wf_requested : pw_requested_window_weight w = fb_network_difficulty fb * PRISM_WINDOW_MULTIPLIER;
  wf_requested_fits : fits U128 (pw_requested_window_weight w) = true;
  wf_shares : pw_shares w = count_shares (pw_requested_window_weight w) (eligible_shares fb shares);
  wf_anchor : ∃ first rest, pw_shares w = first :: rest ∧ pw_anchor_share_seq w = cs_share_seq first;
  wf_anchor_ms : pw_anchor_job_issued_at_ms w = fb_anchor_job_issued_at_ms fb;
  wf_counted : pw_counted_window_weight w = sum_of cs_counted_difficulty (pw_shares w);
  wf_weights : try_fold (fun w s => add_weight w (miner_key s) (cs_counted_difficulty s)) []
                 (pw_shares w) = Ok weights;
  wf_entitlements : pw_entitlements w = entitlement_of <$> weights;
}.

Lemma compute_inv shares fb cut w :
  compute_prism_window_in_cut shares fb cut = Ok w → ∃ weights, window_facts shares fb cut w weights.
Proof.
  unfold compute_prism_window_in_cut, aggregate_entitlements.
  intros ([el req] & Hel & H)%bind_Ok. apply eligible_window_Ok in Hel as (Hnd & Hadm & -> & -> & Hfit).
  fold (eligible_shares fb shares) in H.
  destruct (count_shares _ (eligible_shares fb shares)) as [|first rest] eqn:Hc; [done|]. res_inv.
  match goal with Hs : try_fold _ 0 _ = Ok _ |- _ => apply try_sum_Ok in Hs as -> end.
  eexists. constructor; cbn; try done. eauto.
Qed.

(** C39: A computed window credits the eligible shares newest first (a stable
    order by sequence), each in full until the requested weight, eight times
    the network difficulty, is reached; the last one may be cut down; the
    counted weight is the requested weight or all there is, whichever is less. *)
Theorem window_credits_newest shares fb cut w :
  Forall wf_share shares → wf_found fb → compute_prism_window_in_cut shares fb cut = Ok w →
  pw_requested_window_weight w = 8 * fb_network_difficulty fb ∧
  credited (pw_requested_window_weight w) (eligible_shares fb shares) (pw_shares w) ∧
  pw_counted_window_weight w =
    Z.min (pw_requested_window_weight w) (sum_of as_share_difficulty (eligible_shares fb shares)) ∧
  0 < pw_counted_window_weight w ∧
  ∃ newest, head (eligible_shares fb shares) = Some newest ∧
    pw_anchor_share_seq w = as_share_seq newest ∧
    Forall (fun s => is_eligible fb s → as_share_seq s ≤ as_share_seq newest) shares.
Proof.
  intros Hwf Hfb Hc. destruct (compute_inv _ _ _ _ Hc) as [weights F].
  pose proof (eligible_positive _ fb _ Hwf (wf_admissible _ _ _ _ _ F)) as Hpos.
  pose proof (wff_network _ Hfb) as Hn. pose proof (wf_network _ _ _ _ _ F) as Hnz.
  pose proof (wf_requested _ _ _ _ _ F) as Hreq. unfold PRISM_WINDOW_MULTIPLIER in Hreq.
  assert (0 < pw_requested_window_weight w) as Hreqpos by widths.
  assert (credited (pw_requested_window_weight w) (eligible_shares fb shares) (pw_shares w)) as Hcr.
  { rewrite (wf_shares _ _ _ _ _ F). apply count_shares_credited; [lia|done|lia]. }
  destruct (credited_sum _ _ _ Hpos Hcr) as [Hsum Hall].
  destruct (wf_anchor _ _ _ _ _ F) as (first & rest & Hshares & Hseq).
  rewrite (wf_counted _ _ _ _ _ F), Hsum. split_and!; [lia|done|done| |].
  - rewrite <- Hsum, Hshares, sum_of_cons. rewrite Hshares in Hall.
    inversion Hall as [|? ? Hf Hr]; subst.
    pose proof (sum_of_nonneg cs_counted_difficulty rest).
    rewrite Forall_forall in Hr. specialize (H ltac:(intros x Hx; specialize (Hr x Hx); cbn in Hr; lia)).
    cbn in Hf. lia.
  - rewrite (wf_shares _ _ _ _ _ F) in Hshares.
    pose proof (sort_by_sorted by_seq_desc (filter (fun s => is_eligible fb s) shares)) as Hsort.
    fold (eligible_shares fb shares) in Hsort.
    destruct (eligible_shares fb shares) as [|newest el] eqn:Hel; [done|].
    cbn in Hshares. destruct (_ =? 0); [done|]. injection Hshares as <- _.
    exists newest. split_and!; [done|done|]. apply Forall_forall. intros s Hs He.
    assert (s ∈ newest :: el) as Hin.
    { rewrite <- Hel. unfold eligible_shares. apply elem_of_sort_by, list_elem_of_filter. done. }
    apply elem_of_cons in Hin as [->|Hin]; [lia|]. inversion Hsort as [|? ? _ Hf]; subst.
    rewrite Forall_forall in Hf. by apply by_seq_desc_le, Hf.
Qed.

Lemma window_shares_positive shares fb cut w :
  Forall wf_share shares → wf_found fb → compute_prism_window_in_cut shares fb cut = Ok w →
  Forall (fun c => 0 < cs_counted_difficulty c) (pw_shares w).
Proof.
  intros Hwf Hfb Hc. destruct (compute_inv _ _ _ _ Hc) as [weights F].
  pose proof (eligible_positive _ fb _ Hwf (wf_admissible _ _ _ _ _ F)) as Hpos.
  pose proof (wff_network _ Hfb) as Hn. pose proof (wf_network _ _ _ _ _ F) as Hnz.
  pose proof (wf_requested _ _ _ _ _ F) as Hreq. unfold PRISM_WINDOW_MULTIPLIER in Hreq.
  rewrite (wf_shares _ _ _ _ _ F).
  assert (0 < pw_requested_window_weight w) by widths.
  eapply Forall_impl; [eapply credited_sum; [exact Hpos|apply count_shares_credited; [lia|done|lia]]|].
  cbn. lia.
Qed.

Definition entitlement_key (e : WeightedEntitlement) : MinerKey :=
  (we_recipient_id e, we_order_key e, we_p2mr_program_hex e).

Lemma entitlement_of_key kw : entitlement_key (entitlement_of kw) = kw.1.
Proof. by destruct kw as [[[??]?]?]. Qed.
Lemma entitlement_of_weight kw : we_weight (entitlement_of kw) = kw.2.
Proof. by destruct kw as [[[??]?]?]. Qed.

Lemma window_entitlements shares fb cut w weights :
  window_facts shares fb cut w weights →
  sum_of we_weight (pw_entitlements w) = pw_counted_window_weight w ∧
  NoDup (entitlement_key <$> pw_entitlements w) ∧
  (∀ e, e ∈ pw_entitlements w →
     entitlement_key e ∈ miner_key <$> pw_shares w ∧
     we_weight e = key_weight (entitlement_key e) (pw_shares w)) ∧
  (∀ c, c ∈ pw_shares w → miner_key c ∈ entitlement_key <$> pw_entitlements w).
Proof.
  intros F. pose proof (aggregate_fold [] _ _ _ weights_of_nil (wf_weights _ _ _ _ _ F)) as [Hw Hg].
  pose proof (aggregate_sum _ _ _ (SSorted_nil _) (wf_weights _ _ _ _ _ F)) as Hsum.
  cbn [app] in Hg. rewrite (wf_entitlements _ _ _ _ _ F), (wf_counted _ _ _ _ _ F).
  assert (entitlement_key <$> (entitlement_of <$> weights) = weights.*1) as Hkeys.
  { rewrite <- list_fmap_compose. apply list_fmap_ext. intros i kw _. apply entitlement_of_key. }
  rewrite Hkeys. split_and!.
  - rewrite sum_of_fmap, (sum_of_ext _ snd) by (intros; apply entitlement_of_weight).
    unfold sum_of in Hsum at 1 2. rewrite list_fmap_id in Hsum. exact Hsum.
  - by apply (bt_wf_NoDup string_triple_cmp).
  - intros e (kw & -> & Hkw)%list_elem_of_fmap. destruct kw as [k v].
    apply (bt_get_elem string_triple_cmp) in Hkw; [|done]. rewrite Hg in Hkw.
    rewrite entitlement_of_key, entitlement_of_weight. cbn.
    case_decide; [|done]. by injection Hkw as <-.
  - intros c Hc. destruct (decide (miner_key c ∈ weights.*1)) as [|Hn]; [done|].
    apply (bt_get_None string_triple_cmp) in Hn. rewrite Hg, decide_True in Hn; [done|].
    rewrite list_elem_of_fmap. eauto.
Qed.

Lemma window_weights_fit shares fb cut w :
  Forall wf_share shares → wf_found fb → compute_prism_window_in_cut shares fb cut = Ok w →
  Forall (fun e => fits U128 (we_weight e) = true) (pw_entitlements w).
Proof.
  intros Hwf Hfb Hc. destruct (compute_inv _ _ _ _ Hc) as [weights F].
  destruct (window_entitlements _ _ _ _ _ F) as (Hsum & _ & He & _).
  assert (fits U128 (pw_counted_window_weight w) = true) as Hfit.
  { unfold compute_prism_window_in_cut in Hc. apply bind_Ok in Hc as ([el req] & _ & Hc).
    destruct (count_shares req el); [done|]. res_inv. cbn [pw_counted_window_weight].
    match goal with Hs : try_fold _ 0 _ = Ok _ |- _ => exact (try_sum_fits U128 WindowOverflow _ _ 0 _ eq_refl Hs) end. }
  assert (∀ e, e ∈ pw_entitlements w → 0 ≤ we_weight e) as Hnn.
  { intros e Hin. destruct (He e Hin) as [Hk ->]. apply Z.lt_le_incl, key_weight_pos; [|done].
    by eapply window_shares_positive. }
  apply Forall_forall. intros e Hin. pose proof (Hnn e Hin). pose proof (sum_of_elem_le we_weight _ e Hnn Hin).
  rewrite Hsum in *. widths.
Qed.

(** The entitlements of a window are its credited work per miner: one
    entitlement for each (miner, order key, program) that has a counted share,
    its weight the positive sum of that key's counted difficulty, and all of
    them together the counted window weight. *)
Theorem entitlements_conserve_weight shares fb cut w :
  Forall wf_share shares → wf_found fb → compute_prism_window_in_cut shares fb cut = Ok w →
  sum_of we_weight (pw_entitlements w) = pw_counted_window_weight w ∧
  NoDup (entitlement_key <$> pw_entitlements w) ∧
  (∀ c, c ∈ pw_shares w → miner_key c ∈ entitlement_key <$> pw_entitlements w) ∧
  ∀ e, e ∈ pw_entitlements w →
    we_weight e = key_weight (entitlement_key e) (pw_shares w) ∧ 0 < we_weight e.
Proof.
  intros Hwf Hfb Hc. destruct (compute_inv _ _ _ _ Hc) as [weights F].
  destruct (window_entitlements _ _ _ _ _ F) as (Hsum & Hnd & He & Hall).
  split_and!; [done..|]. intros e Hin. destruct (He e Hin) as [Hk Hv]. split; [done|].
  rewrite Hv. apply key_weight_pos; [|done]. by eapply window_shares_positive.
Qed.

Lemma compute_total shares fb cut :
  Forall wf_share shares → wf_found fb →
  fb_network_difficulty fb ≠ 0 → admissible cut shares →
  fits U128 (fb_network_difficulty fb * PRISM_WINDOW_MULTIPLIER) = true →
  eligible_shares fb shares ≠ [] → is_ok (compute_prism_window_in_cut shares fb cut) = true.
Proof.
  intros Hwf Hfb Hnd Hadm Hfit Hne. unfold compute_prism_window_in_cut.
  set (req := fb_network_difficulty fb * PRISM_WINDOW_MULTIPLIER) in *.
  assert (eligible_window shares fb cut = Ok (eligible_shares fb shares, req)) as ->
    by (apply eligible_window_Ok; done). cbn [mbind result_bind].
  pose proof (eligible_positive _ fb _ Hwf Hadm) as Hpos.
  pose proof (wff_network _ Hfb) as Hn. assert (0 < req) by (unfold req, PRISM_WINDOW_MULTIPLIER; widths).
  assert (credited req (eligible_shares fb shares) (count_shares req (eligible_shares fb shares))) as Hcr
    by (apply count_shares_credited; [lia|done|lia]).
  destruct (credited_sum _ _ _ Hpos Hcr) as [Hsum Hall].
  destruct (count_shares req (eligible_shares fb shares)) as [|first rest] eqn:Hc.
  { destruct (eligible_shares fb shares); [done|]. cbn in Hc.
    rewrite (proj2 (Z.eqb_neq req 0)) in Hc by lia. done. }
  rewrite <- Hc in *.
  assert (Forall (fun c => 0 ≤ cs_counted_difficulty c) (count_shares req (eligible_shares fb shares))) as Hnn
    by (eapply Forall_impl; [exact Hall|]; cbn; lia).
  assert (0 ≤ sum_of as_share_difficulty (eligible_shares fb shares)).
  { apply sum_of_nonneg. rewrite <- Forall_forall. eapply Forall_impl; [exact Hpos|]. cbn. lia. }
  rewrite (try_sum_total U128); [|done|done|by rewrite <- Forall_forall|rewrite Hsum; widths].
  cbn [mbind result_bind]. unfold aggregate_entitlements.
  destruct (aggregate_total [] (count_shares req (eligible_shares fb shares)) [] weights_of_nil) as [m Hm];
    [done|cbn [app]; rewrite Hsum; widths|]. rewrite Hm. done.
Qed.

(** The window is computed exactly when the network difficulty is positive
    and its eightfold fits, every share has positive difficulty and lies under
    the cut, no share id repeats and some share is eligible: the sums over the
    counted shares never overflow, whatever the difficulties add up to. *)
Theorem compute_window_total shares fb cut :
  Forall wf_share shares → wf_found fb →
  is_ok (compute_prism_window_in_cut shares fb cut) = true ↔
  fb_network_difficulty fb ≠ 0 ∧ admissible cut shares ∧
  fits U128 (fb_network_difficulty fb * PRISM_WINDOW_MULTIPLIER) = true ∧
  ∃ s, s ∈ shares ∧ is_eligible fb s = true.
Proof.
  intros Hwf Hfb. split.
  - intros [w Hw]%is_ok_ex. destruct (compute_inv _ _ _ _ Hw) as [weights F].
    split_and!; [apply F|apply F|rewrite <- (wf_requested _ _ _ _ _ F); apply F|].
    destruct (wf_anchor _ _ _ _ _ F) as (first & rest & Hs & _). rewrite (wf_shares _ _ _ _ _ F) in Hs.
    destruct (eligible_shares fb shares) as [|s el] eqn:Hel; [done|].
    assert (s ∈ eligible_shares fb shares) as Hin by (rewrite Hel; set_solver).
    apply elem_of_sort_by, list_elem_of_filter in Hin as [He Hs']. exists s. split; [done|].
    by apply Is_true_true.
  - intros (Hnd & Hadm & Hfit & s & Hs & He). apply compute_total; try done. intros Hnil.
    assert (s ∈ eligible_shares fb shares) as Hin; [|rewrite Hnil in Hin; set_solver].
    apply elem_of_sort_by, list_elem_of_filter. split; [by apply Is_true_true|done].
Qed.

Lemma eligible_shares_perm fb shares shares' :
  NoDup (as_share_seq <$> shares) → shares ≡ₚ shares' →
  eligible_shares fb shares = eligible_shares fb shares'.
Proof.
  intros Hnd Hp. unfold eligible_shares. apply (sort_by_perm_eq by_seq_desc); [|by rewrite Hp].
  intros x y [_ Hx]%list_elem_of_filter [_ Hy]%list_elem_of_filter Heq%by_seq_desc_eq.
  apply list_elem_of_lookup in Hx as [i Hi], Hy as [j Hj].
  assert (i = j) as ->; [|congruence].
  eapply NoDup_lookup; [exact Hnd| |]; rewrite list_lookup_fmap, ?Hi, ?Hj; cbn; by rewrite ?Heq.
Qed.

(** With distinct sequence numbers, the window does not depend on the order
    in which the shares are presented. *)
Theorem window_order_independent shares shares' fb cut w :
  Forall wf_share shares → wf_found fb →
  NoDup (as_share_seq <$> shares) → shares ≡ₚ shares' →
  compute_prism_window_in_cut shares fb cut = Ok w →
  compute_prism_window_in_cut shares' fb cut = Ok w.
Proof.
  intros Hwf Hfb Hnd Hp Hw. destruct (compute_inv _ _ _ _ Hw) as [weights F].
  assert (eligible_window shares' fb cut = eligible_window shares fb cut) as Hel.
  { trans (@Ok PrismError _ (eligible_shares fb shares, pw_requested_window_weight w)); [|symmetry];
      apply eligible_window_Ok; (split_and!; [apply F| | |apply F..]);
      [|by rewrite (eligible_shares_perm fb shares shares')|apply F|done].
    destruct (wf_admissible _ _ _ _ _ F) as [H1 H2]. unfold admissible. by rewrite <- Hp. }
  unfold compute_prism_window_in_cut in *. by rewrite Hel.
Qed.

(** * Restoring a manifest *)
Section restore.
Context `{HexCrate, Sha256Crate}.

Lemma into_manifest_parts m : into_manifest (manifest_into_parts m).1 (manifest_into_parts m).2 = m.
Proof. by destruct m. Qed.

Lemma build_manifest_cut shares fb cut m :
  build_prism_reward_manifest_with_cut shares fb cut = Ok m → rm_cut m = cut.
Proof. unfold build_prism_reward_manifest_with_cut. intros Hm. by res_inv. Qed.

(** What the manifest takes from the block and from the window. *)
Lemma build_manifest_parts shares fb cut m :
  build_prism_reward_manifest_with_cut shares fb cut = Ok m →
  rm_block_height m = fb_block_height fb ∧ rm_coinbase_value_sats m = fb_coinbase_value_sats fb ∧
  rm_network_difficulty m = fb_network_difficulty fb ∧
  rm_anchor_job_issued_at_ms m = fb_anchor_job_issued_at_ms fb ∧ rm_cut m = cut ∧
  ∃ w, compute_prism_window_in_cut shares fb cut = Ok w ∧ rm_entitlements m = pw_entitlements w.
Proof.
  unfold build_prism_reward_manifest_with_cut. intros (w & Hw & Hm)%bind_Ok. destruct (compute_inv _ _ _ _ Hw) as [ws F].
  res_inv. cbn. split_and!; eauto. apply (wf_anchor_ms _ _ _ _ _ F).
Qed.

(** A stored header restores exactly to the manifest the builder makes from
    the same shares, block and cut: [restore_reward_manifest] returns that
    manifest when its header is the stored one, and nothing otherwise. *)
Theorem restore_reward_manifest_exact header shares fb m :
  restore_reward_manifest header shares fb = Ok m ↔
  build_prism_reward_manifest_with_cut shares fb (rh_cut header) = Ok m ∧
  (manifest_into_parts m).1 = header.
Proof.
  unfold restore_reward_manifest. split.
  - intros (built & Hb & Hm)%bind_Ok. destruct (manifest_into_parts built) as [rebuilt window] eqn:Hp.
    destruct (bool_decide (rebuilt = header)) eqn:Hd; [|done]. apply bool_decide_eq_true in Hd.
    cbn in Hm. injection Hm as <-.
    pose proof (into_manifest_parts built) as Hid. rewrite Hp in Hid. cbn in Hid.
    rewrite Hid, Hp. done.
  - intros [Hb Hh]. rewrite Hb. cbn [mbind result_bind].
    pose proof (into_manifest_parts m) as Hid.
    destruct (manifest_into_parts m) as [rebuilt window]. cbn in Hh, Hid. subst rebuilt.
    rewrite bool_decide_eq_true_2 by done. cbn. by rewrite Hid.
Qed.
End restore.

(** * The slice digest's preimage *)
Record wf_counted_share (c : CountedShare) : Prop := {
  wcs_seq : fits U64 (cs_share_seq c) = true;
  wcs_difficulty : fits U128 (cs_share_difficulty c) = true;
  wcs_counted : fits U128 (cs_counted_difficulty c) = true;
  wcs_job : fits I64 (cs_job_issued_at_ms c) = true;
  wcs_accepted : fits I64 (cs_accepted_at_ms c) = true;
  wcs_strings : Forall (fun s => Z.of_nat (length (str_bytes s)) < 2 ^ 62)
    [cs_share_id c; cs_miner_id c; cs_order_key c; cs_p2mr_program_hex c];
  wcs_credit : ∀ s, cs_credit_policy c = Some s → Z.of_nat (length (str_bytes s)) < 2 ^ 62;
}.

Lemma u64_app_inv a b x y :
  fits U64 a = true → fits U64 b = true → update_u64 a ++ x = update_u64 b ++ y → a = b ∧ x = y.
Proof.
  intros Ha Hb [Hm ->]%be_bytes_app_inv. split; [|done].
  eapply mod_eq_unsigned; [| |exact Hm]; change (2 ^ (Z.of_nat 8 * 8)) with (2 ^ 64); widths.
Qed.
Lemma u128_app_inv a b x y :
  fits U128 a = true → fits U128 b = true → update_u128 a ++ x = update_u128 b ++ y → a = b ∧ x = y.
Proof.
  intros Ha Hb [Hm ->]%be_bytes_app_inv. split; [|done].
  eapply mod_eq_unsigned; [| |exact Hm]; change (2 ^ (Z.of_nat 16 * 8)) with (2 ^ 128); widths.
Qed.
Lemma i64_app_inv a b x y :
  fits I64 a = true → fits I64 b = true → update_i64 a ++ x = update_i64 b ++ y → a = b ∧ x = y.
Proof.
  intros Ha Hb [Hm ->]%be_bytes_app_inv. split; [|done].
  eapply mod_eq_signed; [| | |exact Hm]; change (2 ^ (Z.of_nat 8 * 8)) with (2 ^ 64); widths.
Qed.
Lemma string_app_inv a b x y :
  Z.of_nat (length (str_bytes a)) < 2 ^ 62 → Z.of_nat (length (str_bytes b)) < 2 ^ 62 →
  update_string a ++ x = update_string b ++ y → a = b ∧ x = y.
Proof.
  intros Ha Hb. unfold update_string. rewrite <- !app_assoc.
  intros [Hl H]%u64_app_inv; [|widths..]. apply app_inj_1 in H as [H ->]; [|lia].
  split; [by apply str_bytes_inj|done].
Qed.

(** What can follow a share: nothing, or a sequence number and the length of a
    share id. *)
Definition share_tail (l : list byte) : Prop :=
  l = [] ∨ ∃ seq len rest, fits U64 seq = true ∧ 0 ≤ len < 2 ^ 62 ∧
    l = update_u64 seq ++ update_u64 len ++ rest.

Lemma slice_tail cs : Forall wf_counted_share cs → share_tail (cs ≫= update_slice_digest).
Proof.
  destruct cs as [|c cs]; [by left|]. intros Hc. inversion Hc as [|? ? Hw _]; subst. right.
  rewrite bind_cons. unfold update_slice_digest at 1, update_string at 1. rewrite <- !app_assoc.
  exists (cs_share_seq c), (Z.of_nat (length (str_bytes (cs_share_id c)))). eexists.
  pose proof (wcs_strings _ Hw) as Hs. inversion Hs; subst.
  split_and!; [apply Hw|lia|done|done].
Qed.

(** The length prefix and tag of a credit policy cannot be read as a share. *)
Lemma credit_tag_not_tail s x l :
  share_tail l → update_string "credit_policy" ++ update_string s ++ x ≠ l.
Proof.
  intros [->|(seq & len & rest & Hseq & Hlen & ->)]; [done|].
  unfold update_string at 1. rewrite <- app_assoc. intros [_ H]%u64_app_inv; [|done|done].
  apply (f_equal (take 8)) in H. rewrite take_app_le in H by (vm_compute; lia).
  rewrite take_app_length' in H by (unfold update_u64; by rewrite be_bytes_length).
  unfold update_u64 in H.
  assert (take 8 (str_bytes "credit_policy") = be_bytes 8 0x6372656469745f70) as Htag
    by (vm_compute; reflexivity).
  rewrite Htag in H. apply be_bytes_mod in H. change (2 ^ (Z.of_nat 8 * 8)) with (2 ^ 64) in H.
  rewrite !Z.mod_small in H by lia. lia.
Qed.

Lemma share_app_inv c c' x y :
  wf_counted_share c → wf_counted_share c' → share_tail x → share_tail y →
  update_slice_digest c ++ x = update_slice_digest c' ++ y → c = c' ∧ x = y.
Proof.
  intros Hc Hc' Hx Hy. pose proof (wcs_strings _ Hc) as Hs. pose proof (wcs_strings _ Hc') as Hs'.
  rewrite !Forall_cons in Hs, Hs'. destruct_and!.
  unfold update_slice_digest. rewrite <- !app_assoc.
  intros [E1 HH]%u64_app_inv; [|apply Hc|apply Hc'].
  apply string_app_inv in HH as [E2 HH]; [|done..]. apply string_app_inv in HH as [E3 HH]; [|done..].
  apply string_app_inv in HH as [E4 HH]; [|done..]. apply string_app_inv in HH as [E5 HH]; [|done..].
  apply u128_app_inv in HH as [E6 HH]; [|apply Hc|apply Hc'].
  apply u128_app_inv in HH as [E7 HH]; [|apply Hc|apply Hc'].
  apply i64_app_inv in HH as [E8 HH]; [|apply Hc|apply Hc'].
  apply i64_app_inv in HH as [E9 HH]; [|apply Hc|apply Hc'].
  assert (cs_credit_policy c = cs_credit_policy c' ∧ x = y) as [E10 ->].
  { destruct (cs_credit_policy c) as [s|] eqn:Hp, (cs_credit_policy c') as [s'|] eqn:Hp'.
    - rewrite <- !app_assoc in HH. apply app_inv_head in HH.
      apply string_app_inv in HH as [-> ->]; [done|by apply (wcs_credit _ Hc)|by apply (wcs_credit _ Hc')].
    - rewrite <- !app_assoc in HH. exfalso. exact (credit_tag_not_tail s x y Hy HH).
    - rewrite <- !app_assoc in HH. exfalso. exact (credit_tag_not_tail s' y x Hx (eq_sym HH)).
    - by split. }
  destruct c, c'. cbn in *. by subst.
Qed.

Lemma slice_bytes_inj cs cs' :
  Forall wf_counted_share cs → Forall wf_counted_share cs' →
  cs ≫= update_slice_digest = cs' ≫= update_slice_digest → cs = cs'.
Proof.
  assert (∀ c : CountedShare, update_slice_digest c ≠ []) as Hne by done.
  revert cs'. induction cs as [|c cs IH]; intros [|c' cs'] Hw Hw' H; [done| | |].
  - rewrite bind_cons in H. symmetry in H. by apply app_nil in H as [? _].
  - rewrite bind_cons in H. by apply app_nil in H as [? _].
  - inversion Hw; inversion Hw'; subst. rewrite !bind_cons in H.
    apply share_app_inv in H as [-> H]; [|done|done|by apply slice_tail..].
    f_equal. by apply IH.
Qed.

(** The slice digest commits to the counted shares: the bytes hashed for two
    different windows differ, so two windows with one digest are a collision of
    SHA-256. (Field lengths stay below 2^62 bytes.) *)
Theorem slice_digest_binding `{HexCrate, Sha256Crate, !HexLaws} cs cs' :
  Forall wf_counted_share cs → Forall wf_counted_share cs' →
  share_slice_digest_hex cs = share_slice_digest_hex cs' →
  cs = cs' ∨ ∃ m m', m ≠ m' ∧ sha256 m = sha256 m'.
Proof.
  intros Hw Hw' Hd. unfold share_slice_digest_hex in Hd.
  apply (f_equal hex_decode) in Hd. rewrite !hex_decode_encode in Hd. injection Hd as Hd.
  destruct (decide (cs = cs')) as [->|Hne]; [by left|right].
  eexists _, _. split; [|exact Hd]. intros He. by apply Hne, slice_bytes_inj.
Qed.

(** * Witnesses *)
Definition example_share (seq : Z) (id miner key byte_hex : string) (difficulty at_ms : Z)
  : AcceptedShare :=
  {| as_share_seq := seq; as_share_id := id; as_miner_id := miner; as_order_key := key;
     as_p2mr_program_hex := repeat_string 32 byte_hex; as_share_difficulty := difficulty;
     as_network_difficulty := 10; as_template_height := 100; as_job_id := "job";
     as_job_issued_at_ms := at_ms; as_accepted_at_ms := at_ms; as_ntime := 0;
     as_credit_policy := None |}.
Definition example_shares : list AcceptedShare :=
  [example_share 1 "s1" "alice" "a" "aa" 50 100; example_share 2 "s2" "bob" "b" "bb" 40 200;
   example_share 3 "s3" "alice" "a" "aa" 30 300; example_share 4 "s4" "bob" "b" "bb" 9 900].
Definition example_block : FoundBlock :=
  {| fb_block_height := 101; fb_coinbase_value_sats := 100000; fb_network_difficulty := 10;
     fb_anchor_job_issued_at_ms := 500 |}.

Lemma example_shares_wf : Forall wf_share example_shares.
Proof. repeat constructor. Qed.
Lemma example_block_wf : wf_found example_block.
Proof. constructor; reflexivity. Qed.

(** The newest share is past the anchor; bob's 40 and alice's 30 count in full
    and alice's oldest share is cut to 10 of the 80 requested. *)
Example example_window :
  (w ← compute_prism_window example_shares example_block;
   Ok (map (fun c => (cs_share_id c, cs_counted_difficulty c)) (pw_shares w),
       map (fun e => (we_recipient_id e, we_weight e)) (pw_entitlements w)))
  = Ok ([("s3", 30); ("s2", 40); ("s1", 10)], [("alice", 40); ("bob", 40)]).
Proof. vm_compute. reflexivity. Qed.

Lemma window_credits_newest_witness :
  ∃ w, compute_prism_window_in_cut example_shares example_block None = Ok w ∧
    pw_counted_window_weight w =
      Z.min (pw_requested_window_weight w)
        (sum_of as_share_difficulty (eligible_shares example_block example_shares)).
Proof.
  assert (is_ok (compute_prism_window_in_cut example_shares example_block None) = true) as Hok
    by (vm_compute; reflexivity).
  apply is_ok_ex in Hok as [w Hw]. exists w. split; [exact Hw|].
  exact (proj1 (proj2 (proj2 (window_credits_newest example_shares example_block None w
    example_shares_wf example_block_wf Hw)))).
Defined.

Lemma entitlements_conserve_weight_witness :
  ∃ w, compute_prism_window_in_cut example_shares example_block None = Ok w ∧
    sum_of we_weight (pw_entitlements w) = pw_counted_window_weight w.
Proof.
  assert (is_ok (compute_prism_window_in_cut example_shares example_block None) = true) as Hok
    by (vm_compute; reflexivity).
  apply is_ok_ex in Hok as [w Hw]. exists w. split; [exact Hw|].
  exact (proj1 (entitlements_conserve_weight example_shares example_block None w
    example_shares_wf example_block_wf Hw)).
Defined.

Lemma compute_window_total_witness :
  is_ok (compute_prism_window_in_cut example_shares example_block None) = true ∧
  admissible None example_shares.
Proof.
  assert (is_ok (compute_prism_window_in_cut example_shares example_block None) = true) as Hok
    by (vm_compute; reflexivity).
  split; [exact Hok|].
  exact (proj1 (proj2 (proj1 (compute_window_total example_shares example_block None
    example_shares_wf example_block_wf) Hok))).
Defined.

Lemma window_order_independent_witness :
  ∃ w, compute_prism_window_in_cut example_shares example_block None = Ok w ∧
    compute_prism_window_in_cut (reverse example_shares) example_block None = Ok w.
Proof.
  assert (is_ok (compute_prism_window_in_cut example_shares example_block None) = true) as Hok
    by (vm_compute; reflexivity).
  apply is_ok_ex in Hok as [w Hw]. exists w. split; [exact Hw|].
  refine (window_order_independent example_shares (reverse example_shares) example_block None w
    example_shares_wf example_block_wf _ _ Hw).
  - vm_compute. repeat constructor; set_solver.
  - symmetry. apply reverse_Permutation.
Defined.

Lemma slice_digest_binding_witness :
  let cs := [counted_share (example_share 1 "s1" "alice" "a" "aa" 50 100) 50] in
  cs = cs ∨ ∃ m m', m ≠ m' ∧ sha256 m = sha256 m'.
Proof.
  intros cs.
  assert (Forall wf_counted_share cs) as Hw.
  { apply Forall_singleton. constructor; try reflexivity; [|discriminate].
    repeat constructor; vm_compute; reflexivity. }
  exact (slice_digest_binding cs cs Hw Hw eq_refl).
Defined.
