(* ===== verification/ByProgram.v ===== *)
(** Grouping of accounts by payout program, the step the reward crate repeats
    for entitlements, carry-forward balances and maturity replay
    (crates/qbit-prism/src/lib.rs): a [BTreeMap] keyed by the lower-cased P2MR
    program, whose entry keeps the least [(order_key, recipient_id)] and the
    checked sum of the balances. *)
From Stdlib Require Import ZArith Lia Sorting.Sorted.
From Stdlib Require String.
From stdpp Require Import base list strings gmap.
From S2P Require Import Prelude Order BTree Bytes Payee.

Open Scope Z_scope.

Definition payout_program_key (program_hex : string) : string := to_ascii_lowercase program_hex.

(** An account: a payee with a balance, and the updates the loops make. *)
Class Account (A : Type) `{Payee A} := {
  balance : A -> Z;
  with_balance : A -> Z -> A;
  with_identity : A -> string -> string -> A;
}.
Class AccountLaws (A : Type) `{Account A} : Prop := {
  balance_with_balance a z : balance (with_balance a z) = z;
  balance_with_identity a r o : balance (with_identity a r o) = balance a;
  program_with_balance a z : p2mr_program_hex (with_balance a z) = p2mr_program_hex a;
  program_with_identity a r o : p2mr_program_hex (with_identity a r o) = p2mr_program_hex a;
  identity_with_balance a z :
    (order_key (with_balance a z), recipient_id (with_balance a z)) = (order_key a, recipient_id a);
  identity_with_identity a r o :
    (order_key (with_identity a r o), recipient_id (with_identity a r o)) = (o, r);
}.

Section by_program.
Context {E A : Type} `{Account A} (add : Z -> Z -> result E Z).

Definition program_key (a : A) : string := payout_program_key (p2mr_program_hex a).

(** [(a.order_key, a.recipient_id) < (b.order_key, b.recipient_id)]. *)
Definition identity_cmp : A -> A -> comparison :=
  cmp_on (fun a => (order_key a, recipient_id a)) (cmp_pair String.compare String.compare).

(** One round of the loop: [entry(key).or_insert(identity with zero balance)],
    adopt the smaller identity, add the balance. *)
Definition merge_account (m : list (string * A)) (x : A) : result E (list (string * A)) :=
  let key := program_key x in
  let entry := default (with_balance x 0) (bt_get String.compare key m) in
  let entry := match identity_cmp x entry with
               | Lt => with_identity entry (recipient_id x) (order_key x) | _ => entry end in
  total ← add (balance entry) (balance x);
  Ok (bt_insert String.compare key (with_balance entry total) m).

Definition merge_accounts (l : list A) : result E (list (string * A)) :=
  try_fold merge_account [] l.
End by_program.
#[global] Typeclasses Opaque identity_cmp.

Section facts.
Context {E A : Type} `{AccountLaws A} (add : Z -> Z -> result E Z).
Hypothesis Hadd : ∀ a b c, add a b = Ok c → c = a + b.

Definition program_sum (k : string) (l : list A) : Z :=
  sum_of (fun x => if decide (program_key x = k) then balance x else 0) l.

(** The entry for [k] stands for the accounts [l] of that program. *)
Record group_of (l : list A) (k : string) (e : A) : Prop := {
  go_in : k ∈ program_key <$> l;
  go_key : program_key e = k;
  go_sum : balance e = program_sum k l;
  go_least : ∀ x, x ∈ l → program_key x = k → identity_cmp e x ≠ Gt;
}.
Definition grouped (l : list A) (m : list (string * A)) : Prop :=
  bt_wf String.compare m ∧
  ∀ k, match bt_get String.compare k m with
       | Some e => group_of l k e | None => k ∉ program_key <$> l end.

#[export] Instance identity_cmp_order : CmpOrder (identity_cmp (A := A)).
Proof. unfold identity_cmp. apply _. Qed.

Lemma program_sum_app k l1 l2 : program_sum k (l1 ++ l2) = program_sum k l1 + program_sum k l2.
Proof. apply sum_of_app. Qed.

Lemma program_sum_notin k l : k ∉ program_key <$> l → program_sum k l = 0.
Proof.
  intros Hk. apply sum_of_zero. intros s Hs. case_decide as Hd; [|done].
  exfalso. apply Hk. rewrite list_elem_of_fmap. eauto.
Qed.

Lemma identity_cmp_with_balance a z b : identity_cmp (with_balance a z) b = identity_cmp a b.
Proof. unfold identity_cmp, cmp_on. by rewrite identity_with_balance. Qed.

Lemma grouped_nil : grouped [] [].
Proof. split; [constructor|]. intros k. cbn. set_solver. Qed.

Lemma merge_account_grouped l m x m' :
  grouped l m → merge_account add m x = Ok m' → grouped (l ++ [x]) m'.
Proof.
  intros [Hw Hg] Hm. unfold merge_account in Hm. apply bind_Ok in Hm as (total & Ht & [= <-]).
  apply Hadd in Ht. split; [by apply (bt_insert_wf String.compare)|].
  set (entry := default (with_balance x 0) (bt_get String.compare (program_key x) m)) in *.
  set (entry' := match identity_cmp x entry with
                 | Lt => with_identity entry (recipient_id x) (order_key x) | _ => entry end) in *.
  pose proof (Hg (program_key x)) as Hx. intros k. destruct (decide (k = program_key x)) as [->|Hk].
  - rewrite (bt_get_insert_eq String.compare).
    assert (program_key entry = program_key x ∧ balance entry = program_sum (program_key x) l ∧
            ∀ y, y ∈ l → program_key y = program_key x → identity_cmp entry y ≠ Gt) as (He1 & He2 & He3).
    { unfold entry. destruct (bt_get String.compare (program_key x) m) as [e|]; cbn.
      - destruct Hx as [_ ? ? ?]. done.
      - split_and!.
        + unfold program_key. by rewrite program_with_balance.
        + by rewrite balance_with_balance, program_sum_notin.
        + intros y Hy Hyk. exfalso. apply Hx. rewrite list_elem_of_fmap. eauto. }
    assert (program_key entry' = program_key x ∧ balance entry' = balance entry ∧
            identity_cmp entry' x ≠ Gt ∧ (∀ y, identity_cmp entry y ≠ Gt → identity_cmp entry' y ≠ Gt))
      as (Hp1 & Hp2 & Hp3 & Hp4).
    { unfold entry'. destruct (identity_cmp x entry) eqn:Hc.
      - split_and!; [done|done| |done]. by rewrite (cmp_eq_sym _ _ _ Hc).
      - assert (∀ y, identity_cmp (with_identity entry (recipient_id x) (order_key x)) y =
                     identity_cmp x y) as Hid.
        { intros y. unfold identity_cmp, cmp_on. by rewrite identity_with_identity. }
        split_and!.
        + unfold program_key in *. by rewrite program_with_identity.
        + by rewrite balance_with_identity.
        + rewrite Hid. by rewrite (cmp_refl identity_cmp).
        + intros y Hy. rewrite Hid. rewrite (cmp_lt_le_trans _ _ _ _ Hc Hy). done.
      - split_and!; [done|done| |done]. apply cmp_gt_lt in Hc; [|apply _]. by rewrite Hc. }
    constructor.
    + rewrite fmap_app. set_solver.
    + unfold program_key in *. by rewrite program_with_balance.
    + rewrite balance_with_balance, Ht, Hp2, He2, program_sum_app. unfold program_sum at 3.
      rewrite sum_of_cons, sum_of_nil, decide_True by done. lia.
    + intros y [Hy|Hy%list_elem_of_singleton]%elem_of_app Hyk; rewrite identity_cmp_with_balance.
      * by apply Hp4, He3.
      * by subst.
  - rewrite (bt_get_insert_ne String.compare) by done. specialize (Hg k).
    assert (program_sum k [x] = 0) as Hz by (apply program_sum_notin; set_solver).
    destruct (bt_get String.compare k m) as [e|].
    + destruct Hg as [? ? ? Hleast]. constructor; [rewrite fmap_app; set_solver|done| |].
      * rewrite program_sum_app. lia.
      * intros y [Hy|Hy%list_elem_of_singleton]%elem_of_app Hyk; [by apply Hleast|subst; done].
    + rewrite fmap_app. set_solver.
Qed.

Lemma merge_accounts_grouped l m : merge_accounts add l = Ok m → grouped l m.
Proof.
  unfold merge_accounts.
  assert (∀ l0 m0, grouped l0 m0 → try_fold (merge_account add) m0 l = Ok m → grouped (l0 ++ l) m) as Hgen.
  { induction l as [|x l IH]; intros l0 m0 Hm0; cbn.
    - intros [= <-]. by rewrite app_nil_r.
    - intros (m1 & Hm1 & Hm2)%bind_Ok. rewrite cons_middle, app_assoc. eapply IH; [|done].
      by eapply merge_account_grouped. }
  intros Hl. apply (Hgen [] []); [apply grouped_nil|done].
Qed.

(** The groups partition the total. *)
Lemma merge_accounts_sum l m :
  merge_accounts add l = Ok m → sum_of balance m.*2 = sum_of balance l.
Proof.
  unfold merge_accounts.
  assert (∀ m0, bt_wf String.compare m0 → try_fold (merge_account add) m0 l = Ok m →
    sum_of balance m.*2 = sum_of balance m0.*2 + sum_of balance l) as Hgen.
  { induction l as [|x l IH]; intros m0 Hw; cbn.
    - intros [= <-]. by rewrite sum_of_nil, Z.add_0_r.
    - intros (m1 & Hm1 & Hm2)%bind_Ok. unfold merge_account in Hm1.
      apply bind_Ok in Hm1 as (total & Ht & [= <-]). apply Hadd in Ht.
      apply IH in Hm2; [|by apply (bt_insert_wf String.compare)].
      rewrite Hm2, (bt_insert_sum String.compare), sum_of_cons, balance_with_balance, Ht by done.
      assert (∀ e r o (c : comparison), balance (match c with Lt => with_identity e r o | _ => e end)
        = balance e) as -> by (intros ? ? ? []; [done|apply balance_with_identity|done]).
      destruct (bt_get _ _ _); cbn; rewrite ?balance_with_balance; lia. }
  intros Hl. rewrite (Hgen [] (SSorted_nil _) Hl). done.
Qed.

Lemma grouped_elem l m e : grouped l m → e ∈ m.*2 → group_of l (program_key e) e.
Proof.
  intros [Hw Hg] ([k e'] & -> & Hke)%list_elem_of_fmap. cbn.
  apply (bt_get_elem String.compare) in Hke; [|done]. specialize (Hg k). rewrite Hke in Hg.
  by rewrite (go_key _ _ _ Hg).
Qed.

Lemma grouped_fst l m : grouped l m → program_key <$> m.*2 = m.*1.
Proof.
  intros [Hw Hg]. rewrite <- list_fmap_compose. apply list_fmap_ext. intros i [k e] Hi. cbn.
  apply list_elem_of_lookup_2, (bt_get_elem String.compare) in Hi; [|done].
  specialize (Hg k). rewrite Hi in Hg. apply Hg.
Qed.

Lemma grouped_keys l m : grouped l m → NoDup (program_key <$> m.*2).
Proof. intros Hm. rewrite (grouped_fst l m Hm). apply (bt_wf_NoDup String.compare), Hm. Qed.

Lemma grouped_lookup l m k :
  grouped l m → from_option balance 0 (bt_get String.compare k m) = program_sum k l.
Proof.
  intros [_ Hg]. specialize (Hg k). destruct (bt_get String.compare k m); cbn; [apply Hg|].
  by rewrite program_sum_notin.
Qed.

Lemma grouped_program_sum l m k : grouped l m → program_sum k m.*2 = program_sum k l.
Proof.
  intros Hg. rewrite <- (grouped_lookup l m k Hg).
  rewrite <- (bt_sum_key String.compare balance k m (proj1 Hg)). unfold program_sum.
  rewrite sum_of_fmap. apply sum_of_ext. intros [k' e] Hin. cbn.
  apply (bt_get_elem String.compare) in Hin; [|apply Hg]. pose proof (proj2 Hg k') as Hk. rewrite Hin in Hk.
  by rewrite (go_key _ _ _ Hk).
Qed.

Lemma grouped_cover l m x : grouped l m → x ∈ l → ∃ e, e ∈ m.*2 ∧ program_key e = program_key x.
Proof.
  intros [Hw Hg] Hx. specialize (Hg (program_key x)).
  destruct (bt_get String.compare (program_key x) m) as [e|] eqn:He.
  - exists e. split; [|apply Hg]. apply (bt_get_elem String.compare) in He; [|done].
    rewrite list_elem_of_fmap. by exists (program_key x, e).
  - exfalso. apply Hg. rewrite list_elem_of_fmap. eauto.
Qed.
End facts.
