(* ===== verification/PayoutPolicy.v ===== *)
(** The payout policy (crates/qbit-prism/src/lib.rs): the output floor, the pool
    fee, the split of the miner reward, the selection of on-chain accounts, the
    carry-forward of what stays below the floor, and the coinbase request made
    of it. *)
From Stdlib Require Import ZArith Lia Sorting.Sorted.
From Stdlib Require String.
From stdpp Require Import base list strings pretty gmap sorting.
From S2P Require Import Prelude Order BTree Bytes Crates Payee Apportion PoolBuilder PrismError.
From S2P Require Import WindowCut RewardWindow ByProgram.

Open Scope Z_scope.

Definition DEFAULT_P2MR_SPEND_INPUT_BYTES : Z := 3680.
Definition DEFAULT_MIN_OUTPUT_FEERATE_SATS_PER_BYTE : Z := 1.
Definition DEFAULT_MIN_OUTPUT_SAFETY_MULTIPLIER : Z := 4.

(** * Data *)
Inductive CoinbaseOutputPolicy := Canonical | PoolFeeFirst.
#[export] Instance coinbase_output_policy_eq_dec : EqDecision CoinbaseOutputPolicy.
Proof. solve_decision. Defined.

Record PoolFeePolicy := {
  pfp_fee_bps : Z;
  pfp_recipient_id : string;
  pfp_order_key : string;
  pfp_p2mr_program_hex : string;
}.
Record PayoutPolicy := {
  pp_p2mr_spend_input_bytes : Z;
  pp_target_feerate_sats_per_byte : Z;
  pp_safety_multiplier : Z;
  pp_min_output_sats : option Z;
  pp_pool_fee_policy : option PoolFeePolicy;
  pp_coinbase_output_policy : CoinbaseOutputPolicy;
}.
Record CarryForwardBalance := {
  cfb_recipient_id : string;
  cfb_order_key : string;
  cfb_p2mr_program_hex : string;
  cfb_balance_sats : Z;
}.
#[export] Instance cfb_payee : Payee CarryForwardBalance :=
  {| recipient_id := cfb_recipient_id; order_key := cfb_order_key;
     p2mr_program_hex := cfb_p2mr_program_hex |}.
#[export] Instance cfb_eq_dec : EqDecision CarryForwardBalance.
Proof. solve_decision. Defined.

Inductive PayoutPolicyAccountType := Miner | PoolFee.
Inductive PayoutPolicyAction := Onchain | Accrued.
#[export] Instance account_type_eq_dec : EqDecision PayoutPolicyAccountType.
Proof. solve_decision. Defined.
#[export] Instance policy_action_eq_dec : EqDecision PayoutPolicyAction.
Proof. solve_decision. Defined.

Record PayoutPolicyAccount := {
  ppa_account_type : PayoutPolicyAccountType;
  ppa_recipient_id : string;
  ppa_order_key : string;
  ppa_p2mr_program_hex : string;
  ppa_gross_amount_sats : Z;
  ppa_prior_balance_sats : Z;
  ppa_candidate_balance_sats : Z;
  ppa_onchain_amount_sats : Z;
  ppa_settlement_fee_sats : Z;
  ppa_carry_forward_balance_sats : Z;
  ppa_action : PayoutPolicyAction;
}.
#[export] Instance ppa_payee : Payee PayoutPolicyAccount :=
  {| recipient_id := ppa_recipient_id; order_key := ppa_order_key;
     p2mr_program_hex := ppa_p2mr_program_hex |}.
#[export] Instance ppa_eq_dec : EqDecision PayoutPolicyAccount.
Proof. solve_decision. Defined.

Record PoolFeeManifest := {
  pf_fee_bps : Z;
  pf_earned_pool_fee_sats : Z;
  pf_swept_dust_liability_sats : Z;
  pf_amount_sats : Z;
  pf_recipient_id : string;
  pf_order_key : string;
  pf_p2mr_program_hex : string;
}.
#[export] Instance pf_payee : Payee PoolFeeManifest :=
  {| recipient_id := pf_recipient_id; order_key := pf_order_key;
     p2mr_program_hex := pf_p2mr_program_hex |}.
#[export] Instance pf_eq_dec : EqDecision PoolFeeManifest.
Proof. solve_decision. Defined.

Record PayoutPolicyManifest := {
  ppm_schema : string;
  ppm_block_height : Z;
  ppm_coinbase_value_sats : Z;
  ppm_min_output_sats : Z;
  ppm_floor_formula : string;
  ppm_coinbase_output_policy : CoinbaseOutputPolicy;
  ppm_pool_fee : option PoolFeeManifest;
  ppm_accounts : list PayoutPolicyAccount;
  ppm_onchain_entitlements : list WeightedEntitlement;
}.
#[export] Instance ppm_eq_dec : EqDecision PayoutPolicyManifest.
Proof. solve_decision. Defined.

Record PolicyAccountSeed := {
  seed_recipient_id : string;
  seed_order_key : string;
  seed_p2mr_program_hex : string;
  seed_gross_amount_sats : Z;
  seed_prior_balance_sats : Z;
}.
#[export] Instance seed_payee : Payee PolicyAccountSeed :=
  {| recipient_id := seed_recipient_id; order_key := seed_order_key;
     p2mr_program_hex := seed_p2mr_program_hex |}.

(** Entitlements and carry-forward balances are accounts grouped by program. *)
#[export] Instance we_account : Account WeightedEntitlement := {|
  balance := we_weight;
  with_balance e w := {| we_recipient_id := we_recipient_id e; we_order_key := we_order_key e;
    we_p2mr_program_hex := we_p2mr_program_hex e; we_weight := w |};
  with_identity e r o := {| we_recipient_id := r; we_order_key := o;
    we_p2mr_program_hex := we_p2mr_program_hex e; we_weight := we_weight e |};
|}.
#[export] Instance we_account_laws : AccountLaws WeightedEntitlement.
Proof. by constructor. Qed.
#[export] Instance cfb_account : Account CarryForwardBalance := {|
  balance := cfb_balance_sats;
  with_balance e w := {| cfb_recipient_id := cfb_recipient_id e; cfb_order_key := cfb_order_key e;
    cfb_p2mr_program_hex := cfb_p2mr_program_hex e; cfb_balance_sats := w |};
  with_identity e r o := {| cfb_recipient_id := r; cfb_order_key := o;
    cfb_p2mr_program_hex := cfb_p2mr_program_hex e; cfb_balance_sats := cfb_balance_sats e |};
|}.
#[export] Instance cfb_account_laws : AccountLaws CarryForwardBalance.
Proof. by constructor. Qed.

(** * Floor and fee *)
Definition day_one_default : PayoutPolicy := {|
  pp_p2mr_spend_input_bytes := DEFAULT_P2MR_SPEND_INPUT_BYTES;
  pp_target_feerate_sats_per_byte := DEFAULT_MIN_OUTPUT_FEERATE_SATS_PER_BYTE;
  pp_safety_multiplier := DEFAULT_MIN_OUTPUT_SAFETY_MULTIPLIER;
  pp_min_output_sats := None;
  pp_pool_fee_policy := None;
  pp_coinbase_output_policy := Canonical;
|}.

Definition min_output_sats (policy : PayoutPolicy) : result PrismError Z :=
  match pp_min_output_sats policy with
  | Some m => if m =? 0 then Err InvalidMinOutputFloor else Ok m
  | None =>
      v ← ok_or (checked_mul U64 (pp_p2mr_spend_input_bytes policy)
                   (pp_target_feerate_sats_per_byte policy)) PayoutPolicyOverflow;
      ok_or (checked_mul U64 v (pp_safety_multiplier policy)) PayoutPolicyOverflow
  end.

Definition floor_formula (policy : PayoutPolicy) : string :=
  match pp_min_output_sats policy with
  | Some m => "configured fixed floor: " +:+ pretty m +:+ " sats"
  | None => pretty (pp_p2mr_spend_input_bytes policy) +:+ " bytes/input * " +:+
            pretty (pp_target_feerate_sats_per_byte policy) +:+ " sat/byte * " +:+
            pretty (pp_safety_multiplier policy) +:+ "x safety"
  end.

Definition pool_fee_manifest (coinbase_value_sats : Z) (policy : PayoutPolicy)
  : result PrismError (option PoolFeeManifest) :=
  match pp_pool_fee_policy policy with
  | None => Ok None
  | Some p =>
      if 10000 <? pfp_fee_bps p then Err (PoolFeeBpsTooHigh (pfp_fee_bps p)) else
      product ← ok_or (checked_mul U128 coinbase_value_sats (pfp_fee_bps p)) PayoutPolicyOverflow;
      fee_sats ← ok_or (checked U64 (product / 10000)) PayoutPolicyOverflow;
      Ok (Some {| pf_fee_bps := pfp_fee_bps p; pf_earned_pool_fee_sats := fee_sats;
                  pf_swept_dust_liability_sats := 0; pf_amount_sats := fee_sats;
                  pf_recipient_id := pfp_recipient_id p; pf_order_key := pfp_order_key p;
                  pf_p2mr_program_hex := pfp_p2mr_program_hex p |})
  end.

Definition add_swept_dust_to_pool_fee (pool_fee : option PoolFeeManifest) (swept_dust_sats : Z)
  : result PrismError (option PoolFeeManifest) :=
  if swept_dust_sats =? 0 then Ok pool_fee else
  p ← ok_or pool_fee PayoutPolicyOverflow;
  swept ← ok_or (checked_add U64 (pf_swept_dust_liability_sats p) swept_dust_sats)
            PayoutPolicyOverflow;
  amount ← ok_or (checked_add U64 (pf_earned_pool_fee_sats p) swept) PayoutPolicyOverflow;
  Ok (Some {| pf_fee_bps := pf_fee_bps p; pf_earned_pool_fee_sats := pf_earned_pool_fee_sats p;
              pf_swept_dust_liability_sats := swept; pf_amount_sats := amount;
              pf_recipient_id := pf_recipient_id p; pf_order_key := pf_order_key p;
              pf_p2mr_program_hex := pf_p2mr_program_hex p |}).

(** * Grouping *)
Definition carry_forward_by_payout_program (balances : list CarryForwardBalance)
  : result PrismError (list (string * CarryForwardBalance)) :=
  merge_accounts (fun a b => ok_or (checked_add I128 a b) PayoutPolicyOverflow) balances.

Definition aggregate_entitlements_by_payout_program (entitlements : list WeightedEntitlement)
  : result PrismError (list WeightedEntitlement) :=
  by_program ← merge_accounts (fun a b => ok_or (checked_add U128 a b) PayoutPolicyOverflow)
                 entitlements;
  Ok (by_program : list (string * WeightedEntitlement)).*2.

(** * Allocation *)
Definition weighted_share (total_sats total_weight : Z) (e : WeightedEntitlement)
  : result PrismError (WeightedEntitlement * Z * Z) :=
  product ← ok_or (checked_mul U128 total_sats (we_weight e)) PayoutPolicyOverflow;
  amount ← ok_or (checked U64 (product / total_weight)) PayoutPolicyOverflow;
  Ok (e, amount, product mod total_weight).

Definition weighted_remainder_cmp
  : WeightedEntitlement * Z * Z -> WeightedEntitlement * Z * Z -> comparison :=
  cmp_then (cmp_rev (cmp_on snd Z.compare)) (cmp_on (fun p => p.1.1) canonical_cmp).
Definition weighted_remainder_order (provisional : list (WeightedEntitlement * Z * Z)) : list nat :=
  sort_by (cmp_on (fun i => provisional !! i) (cmp_option weighted_remainder_cmp))
    (seq 0 (length provisional)).

Definition weighted_add_one (p : WeightedEntitlement * Z * Z)
  : result PrismError (WeightedEntitlement * Z * Z) :=
  let '(e, amount, remainder) := p in
  amount ← ok_or (checked_add U64 amount 1) PayoutPolicyOverflow;
  Ok (e, amount, remainder).

Definition allocate_weighted_amounts (total_sats : Z) (entitlements : list WeightedEntitlement)
  : result PrismError (list (WeightedEntitlement * Z)) :=
  let ordered := sort_by canonical_cmp entitlements in
  total_weight ← try_fold (fun sum e =>
      ok_or (checked_add U128 sum (we_weight e)) PayoutPolicyOverflow) 0 ordered;
  if total_weight =? 0 then Err PayoutPolicyOverflow else
  provisional ← collect (weighted_share total_sats total_weight) ordered;
  allocated ← try_fold (fun sum p => ok_or (checked_add U64 sum p.1.2) PayoutPolicyOverflow) 0
                (provisional : list (WeightedEntitlement * Z * Z));
  remainder_sats ← ok_or (checked_sub U64 total_sats allocated) PayoutPolicyOverflow;
  provisional ← try_fold (update_at weighted_add_one) provisional
      (take (Z.to_nat remainder_sats) (weighted_remainder_order provisional));
  Ok (provisional : list (WeightedEntitlement * Z * Z)).*1.

(** * Selection of on-chain accounts *)
Definition account_key (a : PayoutPolicyAccount) : string :=
  ppa_recipient_id a +:+ String.String Ascii.zero (ppa_order_key a +:+
    String.String Ascii.zero (ppa_p2mr_program_hex a)).
Definition entitlement_account_key (e : WeightedEntitlement) : string :=
  we_recipient_id e +:+ String.String Ascii.zero (we_order_key e +:+
    String.String Ascii.zero (we_p2mr_program_hex e)).

Definition eligible_onchain_accounts (accounts : list PayoutPolicyAccount) (floor : Z) : list nat :=
  omap (fun '(i, a) => if floor <=? ppa_candidate_balance_sats a then Some i else None)
    (imap pair accounts).

(** [accounts[*index]]. *)
Definition account_at (accounts : list PayoutPolicyAccount) (i : nat)
  : result PrismError PayoutPolicyAccount := expect (accounts !! i) "index out of bounds".

Definition selected_candidate_balance_sum (accounts : list PayoutPolicyAccount)
    (selected : list nat) : result PrismError Z :=
  try_fold (fun sum i =>
    a ← account_at accounts i;
    candidate ← ok_or (checked U128 (ppa_candidate_balance_sats a)) PayoutPolicyOverflow;
    ok_or (checked_add U128 sum candidate) PayoutPolicyOverflow) 0 selected.

(** [as u128] of an i128 wraps negative values. *)
Definition as_u128 (z : Z) : Z := z mod 2 ^ 128.

Definition candidate_entitlement (a : PayoutPolicyAccount) : WeightedEntitlement :=
  {| we_recipient_id := ppa_recipient_id a; we_order_key := ppa_order_key a;
     we_p2mr_program_hex := ppa_p2mr_program_hex a;
     we_weight := as_u128 (ppa_candidate_balance_sats a) |}.

(** The [loop]; [None] is running out of fuel. *)
Fixpoint select_loop (fuel : nat) (accounts : list PayoutPolicyAccount)
    (coinbase_value_sats floor : Z) (selected : list nat)
  : option (result PrismError (list nat)) :=
  match fuel with
  | O => None
  | S fuel =>
      match selected with [] => Some (Err NoOnchainRecipients) | _ =>
      match selected_candidate_balance_sum accounts selected with
      | Err e => Some (Err e) | Panic m => Some (Panic m)
      | Ok sum =>
      if sum <? coinbase_value_sats
      then Some (Err (PayoutExceedsCandidateBalance coinbase_value_sats sum)) else
      match (weights ← collect (fun i => a ← account_at accounts i; Ok (candidate_entitlement a)) selected;
             allocate_weighted_amounts coinbase_value_sats weights) with
      | Err e => Some (Err e) | Panic m => Some (Panic m)
      | Ok allocations =>
      let under_floor := (fun ea => entitlement_account_key ea.1) <$>
        filter (fun ea => ea.2 < floor) allocations in
      match under_floor with
      | [] => Some (Ok selected)
      | _ =>
          match collect (fun i => a ← account_at accounts i; Ok (i, account_key a)) selected with
          | Err e => Some (Err e) | Panic m => Some (Panic m)
          | Ok keyed => select_loop fuel accounts coinbase_value_sats floor
              (filter (fun ik => ik.2 ∉ under_floor) keyed).*1
          end
      end end end end
  end.

Definition select_onchain_accounts (accounts : list PayoutPolicyAccount)
    (coinbase_value_sats floor : Z) : result PrismError (list nat) :=
  let selected := eligible_onchain_accounts accounts floor in
  match select_loop (S (length selected)) accounts coinbase_value_sats floor selected with
  | Some r => r
  | None => Panic "select loop did not finish"
  end.

(** * [apply_payout_policy], step by step *)

(** A miner's seed: its gross amount and what its program carried forward. *)
Definition entitlement_seed (prior_by_program : list (string * CarryForwardBalance))
    (eg : WeightedEntitlement * Z) : PolicyAccountSeed :=
  let '(e, gross) := eg in
  {| seed_recipient_id := we_recipient_id e; seed_order_key := we_order_key e;
     seed_p2mr_program_hex := we_p2mr_program_hex e; seed_gross_amount_sats := gross;
     seed_prior_balance_sats :=
       from_option cfb_balance_sats 0
         (bt_get String.compare (payout_program_key (we_p2mr_program_hex e)) prior_by_program) |}.

Definition push_prior_seed (acc : list PolicyAccountSeed * gset string) (b : CarryForwardBalance)
  : list PolicyAccountSeed * gset string :=
  let '(seeds, seen) := acc in
  let key := payout_program_key (cfb_p2mr_program_hex b) in
  if decide (key ∈ seen) then (seeds, seen) else
  (seeds ++ [{| seed_recipient_id := cfb_recipient_id b; seed_order_key := cfb_order_key b;
                seed_p2mr_program_hex := cfb_p2mr_program_hex b; seed_gross_amount_sats := 0;
                seed_prior_balance_sats := cfb_balance_sats b |}],
   {[key]} ∪ seen).

Definition policy_seeds (gross_amounts : list (WeightedEntitlement * Z))
    (prior_by_program : list (string * CarryForwardBalance))
  : list PolicyAccountSeed * gset string :=
  let seeds := entitlement_seed prior_by_program <$> gross_amounts in
  let seen := list_to_set ((fun eg => payout_program_key (we_p2mr_program_hex eg.1)) <$> gross_amounts) in
  foldl push_prior_seed (seeds, seen) prior_by_program.*2.

Definition seed_account (s : PolicyAccountSeed) : result PrismError PayoutPolicyAccount :=
  candidate ← ok_or (checked_add I128 (seed_prior_balance_sats s) (seed_gross_amount_sats s))
                PayoutPolicyOverflow;
  Ok {| ppa_account_type := Miner; ppa_recipient_id := seed_recipient_id s;
        ppa_order_key := seed_order_key s; ppa_p2mr_program_hex := seed_p2mr_program_hex s;
        ppa_gross_amount_sats := seed_gross_amount_sats s;
        ppa_prior_balance_sats := seed_prior_balance_sats s;
        ppa_candidate_balance_sats := candidate; ppa_onchain_amount_sats := 0;
        ppa_settlement_fee_sats := 0; ppa_carry_forward_balance_sats := candidate;
        ppa_action := Accrued |}.

(** The account's whole candidate balance, when the reward covers all of them. *)
Definition full_payout (accounts : list PayoutPolicyAccount) (i : nat)
  : result PrismError (WeightedEntitlement * Z) :=
  a ← account_at accounts i;
  amount ← ok_or (checked U64 (ppa_candidate_balance_sats a)) PayoutPolicyOverflow;
  Ok ({| we_recipient_id := ppa_recipient_id a; we_order_key := ppa_order_key a;
         we_p2mr_program_hex := ppa_p2mr_program_hex a; we_weight := amount |}, amount).

(** Who is paid on chain, how much, and the pool fee with the dust swept into it. *)
Definition onchain_amounts (accounts : list PayoutPolicyAccount) (pool_fee : option PoolFeeManifest)
    (miner_reward_value_sats floor : Z)
  : result PrismError (list (WeightedEntitlement * Z) * option PoolFeeManifest) :=
  let eligible_indices := eligible_onchain_accounts accounts floor in
  match eligible_indices with
  | [] =>
      match pool_fee with
      | None => Err NoOnchainRecipients
      | Some _ => fee ← add_swept_dust_to_pool_fee pool_fee miner_reward_value_sats; Ok ([], fee)
      end
  | _ =>
      eligible_candidate_sum ← selected_candidate_balance_sum accounts eligible_indices;
      if eligible_candidate_sum <? miner_reward_value_sats then
        match pool_fee with
        | None => Err (PayoutExceedsCandidateBalance miner_reward_value_sats eligible_candidate_sum)
        | Some _ =>
            sum ← ok_or (checked U64 eligible_candidate_sum) PayoutPolicyOverflow;
            swept ← ok_or (checked_sub U64 miner_reward_value_sats sum) PayoutPolicyOverflow;
            fee ← add_swept_dust_to_pool_fee pool_fee swept;
            amounts ← collect (full_payout accounts) eligible_indices;
            Ok (amounts, fee)
        end
      else
        emitted ← select_onchain_accounts accounts miner_reward_value_sats floor;
        weights ← collect (fun i => a ← account_at accounts i; Ok (candidate_entitlement a)) emitted;
        amounts ← allocate_weighted_amounts miner_reward_value_sats weights;
        Ok (amounts, pool_fee)
  end.

Definition same_account (e : WeightedEntitlement) (a : PayoutPolicyAccount) : Prop :=
  ppa_recipient_id a = we_recipient_id e ∧ ppa_order_key a = we_order_key e ∧
  ppa_p2mr_program_hex a = we_p2mr_program_hex e.
#[export] Instance same_account_dec e a : Decision (same_account e a).
Proof. unfold same_account. apply _. Defined.

Definition pay_account (a : PayoutPolicyAccount) (amount carry : Z) : PayoutPolicyAccount :=
  {| ppa_account_type := ppa_account_type a; ppa_recipient_id := ppa_recipient_id a;
     ppa_order_key := ppa_order_key a; ppa_p2mr_program_hex := ppa_p2mr_program_hex a;
     ppa_gross_amount_sats := ppa_gross_amount_sats a;
     ppa_prior_balance_sats := ppa_prior_balance_sats a;
     ppa_candidate_balance_sats := ppa_candidate_balance_sats a;
     ppa_onchain_amount_sats := amount; ppa_settlement_fee_sats := ppa_settlement_fee_sats a;
     ppa_carry_forward_balance_sats := carry; ppa_action := Onchain |}.

Definition apply_onchain (coinbase_value_sats floor : Z) (accounts : list PayoutPolicyAccount)
    (ea : WeightedEntitlement * Z) : result PrismError (list PayoutPolicyAccount) :=
  let '(e, amount_sats) := ea in
  if amount_sats <? floor then Err (PayoutBelowFloor (we_recipient_id e) amount_sats floor) else
  '(i, a) ← expect (list_find (same_account e) accounts) "selected on-chain account must exist";
  if ppa_candidate_balance_sats a <? amount_sats then
    c ← ok_or (checked U128 (ppa_candidate_balance_sats a)) PayoutPolicyOverflow;
    Err (PayoutExceedsCandidateBalance coinbase_value_sats c)
  else
    carry ← ok_or (checked_sub I128 (ppa_candidate_balance_sats a) amount_sats) PayoutPolicyOverflow;
    Ok (<[i := pay_account a amount_sats carry]> accounts).

Definition pool_fee_account (p : PoolFeeManifest) : PayoutPolicyAccount :=
  {| ppa_account_type := PoolFee; ppa_recipient_id := pf_recipient_id p;
     ppa_order_key := pf_order_key p; ppa_p2mr_program_hex := pf_p2mr_program_hex p;
     ppa_gross_amount_sats := pf_amount_sats p; ppa_prior_balance_sats := 0;
     ppa_candidate_balance_sats := pf_amount_sats p; ppa_onchain_amount_sats := pf_amount_sats p;
     ppa_settlement_fee_sats := 0; ppa_carry_forward_balance_sats := 0; ppa_action := Onchain |}.

Definition push_pool_fee (pool_fee : option PoolFeeManifest) (seen : gset string)
    (accounts : list PayoutPolicyAccount) : result PrismError (list PayoutPolicyAccount) :=
  match pool_fee with
  | None => Ok accounts
  | Some p =>
      if decide (payout_program_key (pf_p2mr_program_hex p) ∈ seen) then Err DuplicatePoolFeeAccount
      else Ok (accounts ++ [pool_fee_account p])
  end.

Definition onchain_entitlement (a : PayoutPolicyAccount) : WeightedEntitlement :=
  {| we_recipient_id := ppa_recipient_id a; we_order_key := ppa_order_key a;
     we_p2mr_program_hex := ppa_p2mr_program_hex a; we_weight := ppa_onchain_amount_sats a |}.

Definition apply_payout_policy (reward_manifest : PrismRewardManifest)
    (prior_balances : list CarryForwardBalance) (policy : PayoutPolicy)
  : result PrismError PayoutPolicyManifest :=
  let coinbase_value_sats := rm_coinbase_value_sats reward_manifest in
  floor ← min_output_sats policy;
  pool_fee ← pool_fee_manifest coinbase_value_sats policy;
  if bool_decide (pp_coinbase_output_policy policy = PoolFeeFirst) &&
     bool_decide (pool_fee = None)
  then Err PoolFeeFirstRequiresPoolFee else
  let fee_amount_sats := from_option pf_amount_sats 0 pool_fee in
  miner_reward_value_sats ← ok_or (checked_sub U64 coinbase_value_sats fee_amount_sats)
                              PayoutPolicyOverflow;
  if miner_reward_value_sats <? floor then Err (CoinbaseBelowFloor miner_reward_value_sats floor) else
  settlement_entitlements ← aggregate_entitlements_by_payout_program (rm_entitlements reward_manifest);
  gross_amounts ← allocate_weighted_amounts miner_reward_value_sats settlement_entitlements;
  prior_by_program ← carry_forward_by_payout_program prior_balances;
  let '(seeds, seen) := policy_seeds gross_amounts prior_by_program in
  accounts ← collect seed_account seeds;
  '(amounts, pool_fee) ← onchain_amounts accounts pool_fee miner_reward_value_sats floor;
  accounts ← try_fold (apply_onchain coinbase_value_sats floor) accounts amounts;
  accounts ← push_pool_fee pool_fee seen accounts;
  let onchain_entitlements :=
    onchain_entitlement <$> filter (fun a => 0 < ppa_onchain_amount_sats a) accounts in
  onchain_sum ← try_fold (fun sum e =>
      w ← ok_or (checked U64 (we_weight e)) PayoutPolicyOverflow;
      ok_or (checked_add U64 sum w) PayoutPolicyOverflow) 0 onchain_entitlements;
  if negb (onchain_sum =? coinbase_value_sats) then Err PayoutPolicyOverflow else
  Ok {| ppm_schema := "qbit.prism.payout-policy.v1";
        ppm_block_height := rm_block_height reward_manifest;
        ppm_coinbase_value_sats := coinbase_value_sats; ppm_min_output_sats := floor;
        ppm_floor_formula := floor_formula policy;
        ppm_coinbase_output_policy := pp_coinbase_output_policy policy;
        ppm_pool_fee := pool_fee; ppm_accounts := sort_by canonical_cmp accounts;
        ppm_onchain_entitlements := onchain_entitlements |}.

(** * The coinbase request *)
Definition pool_fee_first_output (manifest : PayoutPolicyManifest) : option PoolFeeManifest :=
  if bool_decide (ppm_coinbase_output_policy manifest ≠ PoolFeeFirst) then None
  else match ppm_pool_fee manifest with
       | Some p => if 0 <? pf_amount_sats p then Some p else None
       | None => None
       end.

Definition pinned_first_output_for_policy (manifest : PayoutPolicyManifest)
  : option PinnedFirstOutput :=
  (fun p => {| pfo_recipient_id := pf_recipient_id p; pfo_order_key := pf_order_key p;
               pfo_p2mr_program_hex := pf_p2mr_program_hex p |}) <$> pool_fee_first_output manifest.

Definition build_policy_coinbase_request_with_coinbase_options (reward_manifest : PrismRewardManifest)
    (prior_balances : list CarryForwardBalance) (policy : PayoutPolicy)
    (coinbase_script_sig_suffix_hex : option string) (witness_merkle_leaves_hex : list string)
  : result PrismError (CoinbaseBuildRequest * PayoutPolicyManifest) :=
  manifest ← apply_payout_policy reward_manifest prior_balances policy;
  Ok ({| cbr_block_height := rm_block_height reward_manifest;
         cbr_coinbase_value_sats := rm_coinbase_value_sats reward_manifest;
         cbr_entitlements := ppm_onchain_entitlements manifest;
         cbr_witness_nonce_hex := None;
         cbr_witness_merkle_leaves_hex := witness_merkle_leaves_hex;
         cbr_coinbase_script_sig_suffix_hex := coinbase_script_sig_suffix_hex;
         cbr_pinned_first_output := pinned_first_output_for_policy manifest |}, manifest).
Definition build_policy_coinbase_request_with_coinbase_script_sig_suffix
    (reward_manifest : PrismRewardManifest) (prior_balances : list CarryForwardBalance)
    (policy : PayoutPolicy) (coinbase_script_sig_suffix_hex : option string)
  : result PrismError (CoinbaseBuildRequest * PayoutPolicyManifest) :=
  build_policy_coinbase_request_with_coinbase_options reward_manifest prior_balances policy
    coinbase_script_sig_suffix_hex [].
Definition build_policy_coinbase_request (reward_manifest : PrismRewardManifest)
    (prior_balances : list CarryForwardBalance) (policy : PayoutPolicy)
  : result PrismError (CoinbaseBuildRequest * PayoutPolicyManifest) :=
  build_policy_coinbase_request_with_coinbase_script_sig_suffix reward_manifest prior_balances
    policy None.

(** * Allocation lemmas *)
#[export] Instance weighted_remainder_cmp_order : CmpOrder weighted_remainder_cmp.
Proof. unfold weighted_remainder_cmp. apply _. Qed.
#[global] Typeclasses Opaque weighted_remainder_cmp.

Section allocate.
Context (total W : Z) (es : list WeightedEntitlement) (prov : list (WeightedEntitlement * Z * Z)).
Hypothesis Htotal : fits U64 total = true.
Hypothesis Hweights : Forall (fun e => 0 ≤ we_weight e) es.
Hypothesis HW : W = sum_of we_weight es.
Hypothesis HWpos : 0 < W.
Hypothesis Hprov : collect (weighted_share total W) es = Ok prov.

Let wt := fun p : WeightedEntitlement * Z * Z => we_weight p.1.1.
Let amt := fun p : WeightedEntitlement * Z * Z => p.1.2.
Let bump := fun p : WeightedEntitlement * Z * Z => (p.1.1, p.1.2 + 1, p.2).

Lemma weighted_facts : prov = (fun e => (e, quota total W (we_weight e), remainder total W (we_weight e))) <$> es.
Proof.
  eapply collect_fmap_inv; [|exact Hprov]. intros e p _ Hp. unfold weighted_share in Hp. by res_inv.
Qed.

Lemma weighted_wt : wt <$> prov = we_weight <$> es.
Proof. rewrite weighted_facts, <- list_fmap_compose. done. Qed.

Lemma weighted_elem p : p ∈ prov →
  amt p = quota total W (wt p) ∧ p.2 = remainder total W (wt p) ∧ 0 ≤ wt p ≤ W.
Proof.
  rewrite weighted_facts. intros (e & -> & He)%list_elem_of_fmap. cbn. split_and!; try done.
  - rewrite Forall_forall in Hweights. by apply Hweights.
  - rewrite HW. apply (sum_of_elem_le we_weight es e); [|done]. rewrite Forall_forall in Hweights. done.
Qed.

Lemma weighted_add_one_Ok p : p ∈ prov → 0 < p.2 → weighted_add_one p = Ok (bump p).
Proof.
  intros Hp Hr. destruct (weighted_elem p Hp) as (Ha & Hrem & Hw). destruct p as [[e a] r].
  unfold weighted_add_one, checked_add, bump, amt, wt in *. cbn in *. rewrite checked_fits; [done|].
  subst r a. unfold quota, remainder in *.
  pose proof (Z.div_mod (total * we_weight e) W ltac:(lia)).
  assert (0 ≤ total) by widths.
  pose proof (Z.div_pos (total * we_weight e) W ltac:(nia) ltac:(lia)).
  eapply (fits_between U64 0 total); [done|done|]. nia.
Qed.

Lemma weighted_split :
  let left := total - sum_of amt prov in
  let final := changed bump (take (Z.to_nat left) (weighted_remainder_order prov)) prov in
  0 ≤ left ∧
  try_fold (update_at weighted_add_one) prov (take (Z.to_nat left) (weighted_remainder_order prov))
    = Ok final ∧
  final.*1.*1 = es ∧ apportioned total (we_weight <$> es) final.*1.*2.
Proof.
  assert (0 ≤ total) as Ht by widths.
  assert (sum_of wt prov = W) as HsumW by (unfold sum_of; rewrite weighted_wt; by rewrite HW).
  assert (∀ i j x y, prov !! i = Some x → prov !! j = Some y →
    cmp_on (fun i => prov !! i) (cmp_option weighted_remainder_cmp) i j ≠ Gt → y.2 ≤ x.2) as Hord.
  { intros i j x y Hx Hy. unfold cmp_on. rewrite Hx, Hy.
    unfold cmp_option, weighted_remainder_cmp, cmp_then, cmp_rev, cmp_on, then_with; cbn.
    destruct (Z.compare_spec y.2 x.2); cbn; [lia..|done]. }
  assert (∀ x, x ∈ prov → amt x = quota total (sum_of wt prov) (wt x)) as H1.
  { intros x Hx. rewrite HsumW. by apply weighted_elem. }
  assert (∀ x, x ∈ prov → x.2 = remainder total (sum_of wt prov) (wt x)) as H2.
  { intros x Hx. rewrite HsumW. by apply weighted_elem. }
  assert (0 < sum_of wt prov) as H3 by (by rewrite HsumW).
  intros left final. split_and!.
  - by apply (split_leftover wt amt snd prov total).
  - by apply (split_loop wt amt snd weighted_add_one bump _ prov total H3 H1 H2 Hord weighted_add_one_Ok).
  - rewrite <- list_fmap_compose. unfold final.
    rewrite (changed_fmap bump (fst ∘ fst)) by done.
    rewrite weighted_facts, <- list_fmap_compose. apply list_fmap_id.
  - rewrite <- weighted_wt, <- list_fmap_compose.
    by apply (split_apportioned wt amt snd weighted_add_one bump _ prov total H3 H1 H2 Hord weighted_add_one_Ok).
Qed.
End allocate.

Lemma allocate_weighted_Ok total es res :
  fits U64 total = true → Forall (fun e => 0 ≤ we_weight e) es →
  allocate_weighted_amounts total es = Ok res →
  res.*1 = sort_by canonical_cmp es ∧ 0 < sum_of we_weight es ∧
  apportioned total (we_weight <$> sort_by canonical_cmp es) res.*2.
Proof.
  intros Ht Hw Ha. unfold allocate_weighted_amounts in Ha.
  apply bind_Ok in Ha as (W & HW & Ha). apply try_sum_Ok in HW. rewrite Z.add_0_l in HW.
  destruct (W =? 0) eqn:Hz; [done|]. apply Z.eqb_neq in Hz.
  apply bind_Ok in Ha as (prov & Hprov & Ha). apply bind_Ok in Ha as (alloc & Hs & Ha).
  apply try_sum_Ok in Hs. rewrite Z.add_0_l in Hs. res_inv.
  assert (Forall (fun e => 0 ≤ we_weight e) (sort_by canonical_cmp es)) as Hw' by (by apply sort_by_Forall).
  assert (sum_of we_weight (sort_by canonical_cmp es) = sum_of we_weight es) as Hsum
    by (apply sum_of_perm, sort_by_perm).
  assert (0 ≤ sum_of we_weight es) by (apply sum_of_nonneg; by rewrite <- Forall_forall).
  destruct (weighted_split total _ _ prov Ht Hw' eq_refl ltac:(lia) Hprov) as (_ & Hl & Hres & Happ).
  match goal with H : try_fold (update_at _) _ _ = Ok _ |- _ =>
    rewrite Hl in H; apply Ok_inj in H as <- end.
  split_and!; [done|lia|done].
Qed.

Lemma allocate_weighted_total total es :
  fits U64 total = true → Forall (fun e => 0 ≤ we_weight e) es →
  0 < sum_of we_weight es → fits U128 (sum_of we_weight es) = true →
  Forall (fun e => fits U128 (total * we_weight e) = true) es →
  ∃ res, allocate_weighted_amounts total es = Ok res.
Proof.
  intros Ht Hw Hpos Hfit Hprod. unfold allocate_weighted_amounts.
  set (os := sort_by canonical_cmp es).
  assert (Forall (fun e => 0 ≤ we_weight e) os) as Hw' by (by apply sort_by_Forall).
  assert (Forall (fun e => fits U128 (total * we_weight e) = true) os) as Hprod' by (by apply sort_by_Forall).
  assert (sum_of we_weight os = sum_of we_weight es) as Hsum by (apply sum_of_perm, sort_by_perm).
  rewrite <- Hsum in *. rewrite (try_sum_total U128); [|done|done|by rewrite <- Forall_forall|done].
  cbn [mbind result_bind]. rewrite Z.add_0_l, (proj2 (Z.eqb_neq _ 0)) by lia.
  assert (∃ prov, collect (weighted_share total (sum_of we_weight os)) os = Ok prov) as [prov Hprov].
  { exists ((fun e => (e, quota total (sum_of we_weight os) (we_weight e),
                      remainder total (sum_of we_weight os) (we_weight e))) <$> os).
    apply collect_fmap. intros e He. unfold weighted_share, checked_mul.
    rewrite Forall_forall in Hprod', Hw'. rewrite checked_fits by auto. cbn.
    rewrite checked_fits; [done|]. assert (we_weight e ≤ sum_of we_weight os) by (by apply sum_of_elem_le).
    specialize (Hw' e He). assert (0 ≤ total) by widths.
    eapply (fits_between U64 0 total); [done|done|]. split.
    - apply Z.div_pos; [nia|lia].
    - apply Z.div_le_upper_bound; nia. }
  rewrite Hprov. cbn [mbind result_bind].
  destruct (weighted_split total _ os prov Ht Hw' eq_refl Hpos Hprov) as (Hleft & Hl & _ & _).
  assert (0 ≤ sum_of (fun p => p.1.2) prov) as Hnn.
  { apply sum_of_nonneg. intros p Hp.
    destruct (weighted_elem total _ os prov Hw' eq_refl Hpos Hprov p Hp) as (-> & _ & ?).
    unfold quota. apply Z.div_pos; [|lia]. assert (0 ≤ total) by widths. nia. }
  rewrite (try_sum_total U64); [|done|done| |].
  - cbn [mbind result_bind]. rewrite Z.add_0_l. unfold checked_sub. rewrite checked_fits by widths.
    cbn [mbind result_bind ok_or]. rewrite Hl. cbn. eauto.
  - intros p Hp. destruct (weighted_elem total _ os prov Hw' eq_refl Hpos Hprov p Hp) as (-> & _ & ?).
    unfold quota. apply Z.div_pos; [|lia]. assert (0 ≤ total) by widths. nia.
  - widths.
Qed.

Lemma allocate_weighted_not_panic value es :
  fits U64 value = true → Forall (fun e => 0 ≤ we_weight e) es →
  not_panic (allocate_weighted_amounts value es).
Proof.
  intros Hvalue Hnn. unfold allocate_weighted_amounts. set (os := sort_by canonical_cmp _).
  assert (Forall (fun e => 0 ≤ we_weight e) os) as Hw' by (by apply sort_by_Forall).
  assert (0 ≤ sum_of we_weight os) by (apply sum_of_nonneg; by rewrite <- Forall_forall).
  apply not_panic_bind; [apply not_panic_try_fold; auto with outcome|].
  intros W HW%try_sum_Ok. rewrite Z.add_0_l in HW. subst W.
  destruct (_ =? 0) eqn:Hz; [done|]. apply Z.eqb_neq in Hz.
  apply not_panic_bind; [apply not_panic_collect; intros x _; unfold weighted_share; calm|].
  intros prov Hprov. apply not_panic_bind; [apply not_panic_try_fold; auto with outcome|].
  intros alloc Ha%try_sum_Ok. rewrite Z.add_0_l in Ha. subst alloc.
  apply not_panic_bind; [auto with outcome|]. intros rem Hrem. res_inv.
  destruct (weighted_split value _ os prov Hvalue Hw' eq_refl ltac:(lia) Hprov) as (_ & Hl & _).
  cbn beta in Hl. rewrite Hl. cbn. auto with outcome.
Qed.

(** * Selection lemmas *)
Section selection.
Context (accounts : list PayoutPolicyAccount) (floor : Z).
Hypothesis Hfloor : 0 ≤ floor.
Hypothesis Hcand : Forall (fun a => fits I128 (ppa_candidate_balance_sats a) = true) accounts.

(** Indices of accounts whose candidate balance reaches the floor. *)
Definition selectable (selected : list nat) : Prop :=
  NoDup selected ∧
  ∀ i, i ∈ selected → ∃ a, accounts !! i = Some a ∧ floor ≤ ppa_candidate_balance_sats a.

Definition candidate_at (i : nat) : Z := from_option ppa_candidate_balance_sats 0 (accounts !! i).
Definition entitlement_at (i : nat) : WeightedEntitlement :=
  from_option candidate_entitlement (Build_WeightedEntitlement "" "" "" 0) (accounts !! i).
Definition key_at (i : nat) : string := from_option account_key "" (accounts !! i).

Lemma eligible_elem i :
  i ∈ eligible_onchain_accounts accounts floor ↔
  ∃ a, accounts !! i = Some a ∧ floor ≤ ppa_candidate_balance_sats a.
Proof.
  pose proof (proj2 (indices_where (fun a => floor <=? ppa_candidate_balance_sats a) accounts) i) as He.
  setoid_rewrite Z.leb_le in He. exact He.
Qed.

Lemma eligible_selectable : selectable (eligible_onchain_accounts accounts floor).
Proof.
  split; [|intros i; by rewrite eligible_elem].
  exact (proj1 (indices_where (fun a => floor <=? ppa_candidate_balance_sats a) accounts)).
Qed.

Lemma selectable_candidate selected i :
  selectable selected → i ∈ selected → floor ≤ candidate_at i ∧ fits U128 (candidate_at i) = true.
Proof.
  intros [_ Hs] Hi. destruct (Hs i Hi) as (a & Ha & Hf). unfold candidate_at. rewrite Ha. cbn.
  rewrite Forall_forall in Hcand. specialize (Hcand a ltac:(by eapply list_elem_of_lookup_2)).
  split; [done|]. widths.
Qed.

Lemma selected_sum_Ok selected s :
  selectable selected → selected_candidate_balance_sum accounts selected = Ok s →
  s = sum_of candidate_at selected ∧ fits U128 s = true.
Proof.
  intros [_ Hs] Hok. unfold selected_candidate_balance_sum in Hok.
  assert (∀ acc l, fits U128 acc = true → (∀ i, i ∈ l → i ∈ selected) →
    try_fold (fun sum i =>
      a ← account_at accounts i;
      candidate ← ok_or (checked U128 (ppa_candidate_balance_sats a)) PayoutPolicyOverflow;
      ok_or (checked_add U128 sum candidate) PayoutPolicyOverflow) acc l = Ok s →
    s = acc + sum_of candidate_at l ∧ fits U128 s = true) as Hgen.
  { intros acc l; revert acc; induction l as [|i l IH]; intros acc Hacc Hl; cbn.
    - intros [= <-]. rewrite sum_of_nil. split; [lia|done].
    - intros (s1 & H1 & H2)%bind_Ok. unfold account_at in H1. res_inv.
      apply IH in H2 as [-> Hf]; [|done|set_solver]. split; [|done].
      rewrite sum_of_cons. unfold candidate_at at 2. rewrite H. cbn. lia. }
  destruct (Hgen 0 selected) as [-> Hf]; [done|done|done|]. split; [lia|done].
Qed.

Lemma selected_sum_not_panic selected :
  selectable selected → not_panic (selected_candidate_balance_sum accounts selected).
Proof.
  intros [_ Hs]. apply not_panic_try_fold. intros b i Hi. destruct (Hs i Hi) as (a & Ha & _).
  unfold account_at. rewrite Ha. cbn. apply not_panic_bind; auto with outcome.
Qed.

Lemma collect_at {B} (f : PayoutPolicyAccount -> B) (d : B) selected :
  selectable selected →
  collect (fun i => a ← account_at accounts i; Ok (f a)) selected =
  @Ok PrismError _ ((fun i => from_option f d (accounts !! i)) <$> selected).
Proof.
  intros [_ Hs]. apply collect_fmap. intros i Hi. destruct (Hs i Hi) as (a & Ha & _).
  unfold account_at. by rewrite Ha.
Qed.

Lemma collect_keys selected :
  selectable selected →
  collect (fun i => a ← account_at accounts i; Ok (i, account_key a)) selected =
  @Ok PrismError _ ((fun i => (i, key_at i)) <$> selected).
Proof.
  intros [_ Hs]. apply collect_fmap. intros i Hi. destruct (Hs i Hi) as (a & Ha & _).
  unfold account_at, key_at. by rewrite Ha.
Qed.

Lemma filter_keys (under : list string) selected :
  (filter (fun ik => ik.2 ∉ under) ((fun i => (i, key_at i)) <$> selected)).*1 =
  filter (fun i => key_at i ∉ under) selected.
Proof.
  induction selected as [|i l IH]; [done|]. rewrite fmap_cons, !filter_cons. cbn.
  case_decide; cbn; by rewrite IH.
Qed.

Lemma entitlement_at_weight selected i :
  selectable selected → i ∈ selected → we_weight (entitlement_at i) = candidate_at i.
Proof.
  intros Hs Hi. destruct (selectable_candidate _ _ Hs Hi) as [Hf Hu].
  unfold entitlement_at, candidate_at in *. destruct (accounts !! i); [|done]. cbn in *.
  unfold as_u128. rewrite Z.mod_small; [done|]. widths.
Qed.
End selection.

Section select_loop.
Context (accounts : list PayoutPolicyAccount) (value floor : Z).
Hypothesis Hfloor : 0 ≤ floor.
Hypothesis Hvalue : fits U64 value = true.
Hypothesis Hcand : Forall (fun a => fits I128 (ppa_candidate_balance_sats a) = true) accounts.

Lemma entitlements_nonneg selected :
  selectable accounts floor selected →
  Forall (fun e => 0 ≤ we_weight e) (entitlement_at accounts <$> selected).
Proof.
  intros Hs. apply Forall_fmap, Forall_forall. intros i Hi. cbn.
  rewrite (entitlement_at_weight accounts floor Hfloor Hcand selected i Hs Hi).
  pose proof (selectable_candidate accounts floor Hfloor Hcand selected i Hs Hi). lia.
Qed.

Lemma allocation_not_panic selected :
  selectable accounts floor selected →
  not_panic (allocate_weighted_amounts value (entitlement_at accounts <$> selected)).
Proof. intros Hs. apply allocate_weighted_not_panic; [done|]. by apply entitlements_nonneg. Qed.

(** What a finished selection satisfies. *)
Record selection_ok (selected : list nat) : Prop := {
  sel_selectable : selectable accounts floor selected;
  sel_nonempty : selected ≠ [];
  sel_covers : value ≤ sum_of (candidate_at accounts) selected;
  sel_floor : ∀ allocations,
    allocate_weighted_amounts value (entitlement_at accounts <$> selected) = Ok allocations →
    Forall (fun ea => floor ≤ ea.2) allocations;
  sel_allocates : is_ok (allocate_weighted_amounts value (entitlement_at accounts <$> selected)) = true;
}.

Lemma under_floor_shrinks selected allocations :
  selectable accounts floor selected →
  allocate_weighted_amounts value (entitlement_at accounts <$> selected) = Ok allocations →
  let under := (fun ea => entitlement_account_key ea.1) <$> filter (fun ea => ea.2 < floor) allocations in
  under ≠ [] →
  (length (filter (fun i => key_at accounts i ∉ under) selected) < length selected)%nat.
Proof.
  intros Hs Ha under Hne.
  destruct (allocate_weighted_Ok _ _ _ Hvalue (entitlements_nonneg _ Hs) Ha) as (Hes & _).
  destruct (filter (fun ea => ea.2 < floor) allocations) as [|[e z] l] eqn:Hf; [done|].
  assert ((e, z) ∈ allocations) as Hin.
  { assert ((e, z) ∈ filter (fun ea => ea.2 < floor) allocations) as Hx by (rewrite Hf; set_solver).
    by apply list_elem_of_filter in Hx as [_ Hx]. }
  assert (e ∈ allocations.*1) as He by (rewrite list_elem_of_fmap; by exists (e, z)).
  rewrite Hes, elem_of_sort_by in He. apply list_elem_of_fmap in He as (i & -> & Hi).
  apply (length_filter_lt _ _ i); [done|]. intros Hnot. apply Hnot.
  unfold under. cbn. rewrite elem_of_cons. left.
  destruct Hs as [_ Hs]. destruct (Hs i Hi) as (a & Hacc & _).
  unfold key_at, entitlement_at. by rewrite Hacc.
Qed.

Lemma selectable_filter (P : nat -> Prop) `{∀ i, Decision (P i)} selected :
  selectable accounts floor selected → selectable accounts floor (filter P selected).
Proof.
  intros [Hnd Hs]. split; [by apply NoDup_filter|]. intros i [_ Hi]%list_elem_of_filter. by apply Hs.
Qed.

Lemma select_loop_spec fuel selected :
  (length selected < fuel)%nat → selectable accounts floor selected →
  ∃ r, select_loop fuel accounts value floor selected = Some r ∧ not_panic r ∧
    ∀ sel, r = Ok sel → selection_ok sel.
Proof.
  revert selected; induction fuel as [|fuel IH]; intros selected Hlen Hs; [lia|]. cbn [select_loop].
  destruct selected as [|i0 rest] eqn:Hsel; [by eexists|]. rewrite <- Hsel in *.
  pose proof (selected_sum_not_panic accounts floor selected Hs) as Hnp.
  destruct (selected_candidate_balance_sum accounts selected) as [s|e|m] eqn:Hsum;
    [|by eexists|by destruct (Hnp m)].
  destruct (selected_sum_Ok accounts floor Hfloor Hcand selected s Hs Hsum) as [-> _].
  destruct (_ <? value) eqn:Hlt; [by eexists|]. apply Z.ltb_ge in Hlt.
  rewrite (collect_at accounts floor candidate_entitlement (Build_WeightedEntitlement "" "" "" 0) selected Hs).
  cbn [mbind result_bind]. change (fun i => from_option candidate_entitlement _ (accounts !! i))
    with (entitlement_at accounts).
  pose proof (allocation_not_panic _ Hs) as Hnpa.
  destruct (allocate_weighted_amounts value (entitlement_at accounts <$> selected)) as [al|e|m] eqn:Hal;
    [|by eexists|by destruct (Hnpa m)].
  destruct ((fun ea => entitlement_account_key ea.1) <$> filter (fun ea => ea.2 < floor) al)
    as [|u us] eqn:Hu.
  - eexists; split; [done|]. split; [done|]. intros sel [= <-]. constructor.
    + done.
    + by rewrite Hsel.
    + lia.
    + rewrite Hal. intros al' [= <-]. apply Forall_forall. intros ea Hea.
      destruct (decide (ea.2 < floor)) as [Hf|]; [|lia].
      apply fmap_nil_inv in Hu. assert (ea ∈ filter (fun ea => ea.2 < floor) al) as Hx
        by (by apply list_elem_of_filter). rewrite Hu in Hx. set_solver.
    + by rewrite Hal.
  - rewrite <- Hu. rewrite (collect_keys accounts floor selected Hs).
    rewrite filter_keys. apply IH.
    + pose proof (under_floor_shrinks selected al Hs Hal) as Hshr. cbn zeta in Hshr.
      rewrite Hu in Hshr at 1. specialize (Hshr ltac:(done)). lia.
    + by apply selectable_filter.
Qed.

Lemma select_onchain_accounts_spec :
  not_panic (select_onchain_accounts accounts value floor) ∧
  ∀ sel, select_onchain_accounts accounts value floor = Ok sel → selection_ok sel.
Proof.
  unfold select_onchain_accounts.
  destruct (select_loop_spec (S (length (eligible_onchain_accounts accounts floor)))
    (eligible_onchain_accounts accounts floor)) as (r & -> & Hnp & Hok); [lia| |done].
  by apply eligible_selectable.
Qed.
End select_loop.

(** * The on-chain amounts *)
Definition fresh_fee (p : PoolFeeManifest) : Prop :=
  pf_swept_dust_liability_sats p = 0 ∧ pf_amount_sats p = pf_earned_pool_fee_sats p ∧
  0 ≤ pf_earned_pool_fee_sats p.
Definition with_dust (p : PoolFeeManifest) (dust : Z) : PoolFeeManifest :=
  {| pf_fee_bps := pf_fee_bps p; pf_earned_pool_fee_sats := pf_earned_pool_fee_sats p;
     pf_swept_dust_liability_sats := dust; pf_amount_sats := pf_earned_pool_fee_sats p + dust;
     pf_recipient_id := pf_recipient_id p; pf_order_key := pf_order_key p;
     pf_p2mr_program_hex := pf_p2mr_program_hex p |}.

Lemma with_dust_0 p : fresh_fee p → with_dust p 0 = p.
Proof. destruct p. unfold fresh_fee, with_dust. cbn. intros (-> & -> & _). f_equal. lia. Qed.

Lemma add_swept_dust_Ok p dust fee :
  fresh_fee p → add_swept_dust_to_pool_fee (Some p) dust = Ok fee → fee = Some (with_dust p dust).
Proof.
  intros Hp. unfold add_swept_dust_to_pool_fee. destruct (dust =? 0) eqn:Hz.
  - apply Z.eqb_eq in Hz as ->. intros [= <-]. by rewrite with_dust_0.
  - intros Ha. res_inv. cbn in *. simplify_eq. destruct Hp as (Hs & _ & _). rewrite Hs in *.
    rewrite Z.add_0_l. done.
Qed.

Definition paid_at (accounts : list PayoutPolicyAccount) (floor : Z) (i : nat)
    (ea : WeightedEntitlement * Z) : Prop :=
  ∃ a, accounts !! i = Some a ∧ same_account ea.1 a ∧
    0 ≤ ea.2 ∧ floor ≤ ea.2 ≤ ppa_candidate_balance_sats a.

(** Who is paid: distinct accounts, each between the floor and its candidate
    balance; what is left of the reward is the dust swept to the pool fee. *)
Record payout_plan (accounts : list PayoutPolicyAccount) (pool_fee : option PoolFeeManifest)
    (reward floor : Z) (amounts : list (WeightedEntitlement * Z))
    (pool_fee' : option PoolFeeManifest) (idxs : list nat) (dust : Z) : Prop := {
  plan_distinct : NoDup idxs;
  plan_paid : Forall2 (paid_at accounts floor) idxs amounts;
  plan_total : sum_of snd amounts + dust = reward;
  plan_dust : 0 ≤ dust;
  plan_fee : match pool_fee with
             | None => dust = 0 ∧ pool_fee' = None
             | Some p => pool_fee' = Some (with_dust p dust) end;
}.

Section plan.
Context (accounts : list PayoutPolicyAccount) (reward floor : Z).
Hypothesis Hfloor : 0 ≤ floor.
Hypothesis Hreward : fits U64 reward = true.
Hypothesis Hcand : Forall (fun a => fits I128 (ppa_candidate_balance_sats a) = true) accounts.

Lemma same_account_entitlement_at i a :
  accounts !! i = Some a → same_account (entitlement_at accounts i) a.
Proof. intros Ha. unfold entitlement_at. by rewrite Ha. Qed.

Lemma selection_plan sel amounts :
  selection_ok accounts reward floor sel →
  allocate_weighted_amounts reward (entitlement_at accounts <$> sel) = Ok amounts →
  ∃ idxs, NoDup idxs ∧ Forall2 (paid_at accounts floor) idxs amounts ∧ sum_of snd amounts = reward.
Proof.
  intros Hsel Hal. pose proof (sel_selectable _ _ _ _ Hsel) as Hs.
  pose proof (entitlements_nonneg accounts floor Hfloor Hcand sel Hs) as Hnn.
  destruct (allocate_weighted_Ok _ _ _ Hreward Hnn Hal) as (Hes & Hpos & Happ).
  assert (∃ idxs, sort_by canonical_cmp (entitlement_at accounts <$> sel) =
                  entitlement_at accounts <$> idxs ∧ sel ≡ₚ idxs) as (idxs & Heq & Hp)
    by (apply Permutation_map_inv, sort_by_perm).
  rewrite Heq in Hes, Happ. destruct Hs as [Hnd Hsl]. exists idxs. split_and!.
  - by rewrite <- Hp.
  - apply Forall2_same_length_lookup. split.
    { by rewrite <- (length_fmap (entitlement_at accounts) idxs), <- Hes, length_fmap. }
    intros k i [e z] Hi Hea.
    assert (i ∈ sel) as Hin by (rewrite Hp; by eapply list_elem_of_lookup_2).
    destruct (Hsl i Hin) as (a & Ha & Hfa). exists a. split; [done|]. cbn.
    assert (e = entitlement_at accounts i) as ->.
    { apply (f_equal (.!! k)) in Hes. rewrite !list_lookup_fmap, Hi, Hea in Hes. by injection Hes. }
    pose proof (sel_floor _ _ _ _ Hsel _ Hal) as Hfl. rewrite Forall_forall in Hfl.
    specialize (Hfl (entitlement_at accounts i, z) ltac:(by eapply list_elem_of_lookup_2)). cbn in Hfl.
    split; [by apply same_account_entitlement_at|].
    assert ((we_weight <$> (entitlement_at accounts <$> idxs)) !! k = Some (candidate_at accounts i)) as Hw.
    { rewrite !list_lookup_fmap, Hi. cbn. f_equal.
      exact (entitlement_at_weight accounts floor Hfloor Hcand sel i (conj Hnd Hsl) Hin). }
    assert (amounts.*2 !! k = Some z) as Hz by (by rewrite list_lookup_fmap, Hea).
    assert (Forall (Z.le 0) (we_weight <$> (entitlement_at accounts <$> idxs))) as Hnn'.
    { apply Forall_fmap. rewrite <- Heq. by apply sort_by_Forall. }
    assert (zsum (we_weight <$> (entitlement_at accounts <$> idxs)) =
            sum_of (candidate_at accounts) sel) as Hzs.
    { change (zsum (we_weight <$> ?l)) with (sum_of we_weight l).
      rewrite sum_of_fmap, (sum_of_perm _ _ _ (Permutation_sym Hp)). apply sum_of_ext. intros j Hj.
      exact (entitlement_at_weight accounts floor Hfloor Hcand sel j (conj Hnd Hsl) Hj). }
    pose proof (sel_covers _ _ _ _ Hsel) as Hcov.
    assert (0 ≤ reward) by widths.
    assert (0 < zsum (we_weight <$> (entitlement_at accounts <$> idxs))) as Hzp.
    { rewrite <- Heq. change (zsum (we_weight <$> ?l)) with (sum_of we_weight l).
      by rewrite (sum_of_perm _ _ _ (sort_by_perm _ _)). }
    pose proof (apportioned_bounds _ _ _ Hnn' ltac:(done) Hzp Happ k _ _ Hw Hz) as [Hz0 _].
    pose proof (apportioned_le _ _ _ Hnn' Hzp Happ k _ _ ltac:(lia) Hw Hz) as Hle.
    unfold candidate_at in Hle. rewrite Ha in Hle. cbn in Hle. lia.
  - exact (app_total _ _ _ Happ).
Qed.

Lemma full_plan idxs amounts :
  selectable accounts floor idxs → collect (full_payout accounts) idxs = Ok amounts →
  Forall2 (paid_at accounts floor) idxs amounts ∧
  sum_of snd amounts = sum_of (candidate_at accounts) idxs.
Proof.
  intros [_ Hs] Hc%collect_Forall2. clear Hreward Hcand.
  induction Hc as [|i ea idxs amounts Hi Hc IH]; [split; [constructor|done]|].
  destruct IH as [IH1 IH2]; [set_solver|]. destruct (Hs i) as (a & Ha & Hf); [set_solver|].
  unfold full_payout, account_at in Hi. rewrite Ha in Hi. cbn in Hi. res_inv. split.
  - constructor; [|done]. exists a. split; [done|]. cbn. split; [by unfold same_account|]. lia.
  - rewrite !sum_of_cons, IH2. unfold candidate_at at 2. rewrite Ha. done.
Qed.

Lemma onchain_amounts_plan pool_fee amounts pool_fee' :
  (∀ p, pool_fee = Some p → fresh_fee p) →
  onchain_amounts accounts pool_fee reward floor = Ok (amounts, pool_fee') →
  ∃ idxs dust, payout_plan accounts pool_fee reward floor amounts pool_fee' idxs dust.
Proof.
  intros Hfresh Ho. unfold onchain_amounts in Ho. assert (0 ≤ reward) by widths.
  pose proof (eligible_selectable accounts floor) as Hsel.
  destruct (eligible_onchain_accounts accounts floor) as [|i0 rest] eqn:Hel.
  { destruct pool_fee as [p|]; [|done]. apply bind_Ok in Ho as (fee & Hfee & Ho).
    injection Ho as <- <-. apply add_swept_dust_Ok in Hfee; [|by apply Hfresh].
    exists [], reward. constructor; [constructor|constructor|by rewrite sum_of_nil|done|done]. }
  rewrite <- Hel in *. apply bind_Ok in Ho as (s & Hsum & Ho).
  destruct (selected_sum_Ok accounts floor Hfloor Hcand _ s Hsel Hsum) as [-> _].
  destruct (_ <? reward) eqn:Hlt.
  - destruct pool_fee as [p|]; [|done]. res_inv. simplify_eq.
    match goal with H : add_swept_dust_to_pool_fee _ _ = Ok _ |- _ =>
      apply add_swept_dust_Ok in H; [|by apply Hfresh] end.
    match goal with H : collect _ _ = Ok _ |- _ =>
      destruct (full_plan _ _ Hsel H) as [Hpaid Htot] end.
    eexists _, _. constructor; [apply Hsel|done| | |done]; lia.
  - apply bind_Ok in Ho as (sel & Hs & Ho). apply bind_Ok in Ho as (ws & Hws & Ho).
    apply bind_Ok in Ho as (am & Ham & Ho). injection Ho as <- <-.
    pose proof (proj2 (select_onchain_accounts_spec accounts reward floor Hfloor Hreward Hcand) _ Hs) as Hok.
    rewrite (collect_at accounts floor candidate_entitlement (Build_WeightedEntitlement "" "" "" 0) sel
      (sel_selectable _ _ _ _ Hok)) in Hws. injection Hws as <-.
    destruct (selection_plan sel am Hok Ham) as (idxs & Hnd & Hpaid & Htot).
    exists idxs, 0. constructor; [done|done|lia|done|].
    destruct pool_fee as [p|]; [|done]. by rewrite with_dust_0 by (by apply Hfresh).
Qed.
End plan.

(** * Booking the amounts *)
Definition fresh_account (a : PayoutPolicyAccount) : Prop :=
  ppa_onchain_amount_sats a = 0 ∧ ppa_settlement_fee_sats a = 0 ∧
  ppa_carry_forward_balance_sats a = ppa_candidate_balance_sats a ∧ ppa_action a = Accrued ∧
  ppa_account_type a = Miner.
Definition account_program (a : PayoutPolicyAccount) : string :=
  payout_program_key (ppa_p2mr_program_hex a).

(** An account before and after the booking loop. *)
Definition settled (floor : Z) (a a' : PayoutPolicyAccount) : Prop :=
  a' = a ∨ ∃ z, 0 ≤ z ∧ floor ≤ z ≤ ppa_candidate_balance_sats a ∧
    a' = pay_account a z (ppa_candidate_balance_sats a - z).

Lemma list_find_unique {A} (P : A -> Prop) `{∀ x, Decision (P x)} l i x :
  l !! i = Some x → P x → (∀ j y, l !! j = Some y → P y → j = i) →
  list_find P l = Some (i, x).
Proof.
  intros Hi Hx Hu. apply list_find_Some. split_and!; [done..|]. intros j y Hj Hlt Hy.
  specialize (Hu j y Hj Hy). lia.
Qed.

Section booking.
Context (accounts : list PayoutPolicyAccount) (value floor : Z).
Hypothesis Hkeys : NoDup (account_program <$> accounts).
Hypothesis Hcand : Forall (fun a => fits I128 (ppa_candidate_balance_sats a) = true) accounts.

Lemma settled_program a a' : settled floor a a' → account_program a' = account_program a.
Proof. by intros [->|(z & _ & _ & ->)]. Qed.

Lemma settled_keys cur :
  Forall2 (settled floor) accounts cur → account_program <$> cur = account_program <$> accounts.
Proof.
  clear. induction 1 as [|a a' l l' Ha _ IH]; [done|]. cbn. f_equal; [|done]. by apply settled_program.
Qed.

Lemma find_account cur i a e :
  Forall2 (settled floor) accounts cur → cur !! i = Some a → same_account e a →
  list_find (same_account e) cur = Some (i, a).
Proof.
  intros Hc Ha He. apply list_find_unique; [done..|]. intros j b Hj Hb.
  assert (NoDup (account_program <$> cur)) as Hnd by (by rewrite (settled_keys _ Hc)).
  eapply NoDup_lookup; [exact Hnd| |]; rewrite list_lookup_fmap, ?Hj, ?Ha; [done|].
  cbn. unfold account_program. destruct He as (_ & _ & ->), Hb as (_ & _ & ->). done.
Qed.

Lemma booking_loop idxs amounts cur :
  NoDup idxs → Forall2 (paid_at accounts floor) idxs amounts →
  Forall2 (settled floor) accounts cur → (∀ i, i ∈ idxs → cur !! i = accounts !! i) →
  (∀ i a, i ∈ idxs → accounts !! i = Some a → ppa_onchain_amount_sats a = 0) →
  ∃ final, try_fold (apply_onchain value floor) cur amounts = Ok final ∧
    Forall2 (settled floor) accounts final ∧
    sum_of ppa_onchain_amount_sats final = sum_of ppa_onchain_amount_sats cur + sum_of snd amounts.
Proof.
  intros Hnd HF. revert cur. induction HF as [|i [e z] idxs amounts Hp HF IH]; intros cur Hc Hsame Hz.
  { exists cur. rewrite sum_of_nil. split_and!; [done..|lia]. }
  apply NoDup_cons in Hnd as [Hi Hnd]. destruct Hp as (a & Ha & He & Hz0 & Hfl).
  cbn [fst snd try_fold] in *.
  assert (cur !! i = Some a) as Hcur by (rewrite Hsame by set_solver; done).
  assert (apply_onchain value floor cur (e, z) =
          Ok (<[i := pay_account a z (ppa_candidate_balance_sats a - z)]> cur)) as ->.
  { unfold apply_onchain. rewrite (proj2 (Z.ltb_ge _ _)) by lia. rewrite (find_account _ _ _ _ Hc Hcur He).
    cbn. rewrite (proj2 (Z.ltb_ge _ _)) by lia. unfold checked_sub. rewrite checked_fits; [done|].
    rewrite Forall_forall in Hcand. specialize (Hcand a ltac:(by eapply list_elem_of_lookup_2)). widths. }
  cbn [mbind result_bind]. destruct (IH Hnd (<[i := pay_account a z (ppa_candidate_balance_sats a - z)]> cur))
    as (final & Hf & Hs & Hsum).
  - apply Forall2_same_length_lookup. split; [rewrite length_insert; by eapply Forall2_length|].
    intros j b b' Hb Hb'. destruct (decide (i = j)) as [<-|Hne].
    + rewrite list_lookup_insert_eq in Hb' by (by eapply lookup_lt_Some). simplify_eq.
      right. exists z. done.
    + rewrite list_lookup_insert_ne in Hb' by done. by eapply Forall2_lookup_lr.
  - intros j Hj. rewrite list_lookup_insert_ne by set_solver. apply Hsame. set_solver.
  - intros j b Hj. apply Hz. set_solver.
  - exists final. split_and!; [done..|]. rewrite Hsum, (sum_of_insert _ _ _ a) by done.
    rewrite sum_of_cons. cbn. rewrite (Hz i a) by (done || set_solver). lia.
Qed.
End booking.

(** * The account seeds *)
Definition seed_program (s : PolicyAccountSeed) : string :=
  payout_program_key (seed_p2mr_program_hex s).
Definition prior_seed (b : CarryForwardBalance) : PolicyAccountSeed :=
  {| seed_recipient_id := cfb_recipient_id b; seed_order_key := cfb_order_key b;
     seed_p2mr_program_hex := cfb_p2mr_program_hex b; seed_gross_amount_sats := 0;
     seed_prior_balance_sats := cfb_balance_sats b |}.

Lemma push_prior_seeds bs seeds (seen : gset string) :
  NoDup (program_key <$> bs) →
  foldl push_prior_seed (seeds, seen) bs =
  (seeds ++ (prior_seed <$> filter (fun b => program_key b ∉ seen) bs),
   list_to_set (program_key <$> bs) ∪ seen).
Proof.
  revert seeds seen; induction bs as [|b bs IH]; intros seeds seen Hnd; cbn [foldl fmap list_fmap].
  { cbn. rewrite app_nil_r. f_equal. set_solver. }
  rewrite fmap_cons, NoDup_cons in Hnd. destruct Hnd as [Hb Hnd]. cbn [push_prior_seed].
  change (payout_program_key (cfb_p2mr_program_hex b)) with (program_key b).
  rewrite filter_cons. destruct (decide (program_key b ∈ seen)) as [Hin|Hin].
  - rewrite IH by done. rewrite decide_False by tauto. f_equal. cbn. set_solver.
  - rewrite IH by done. rewrite decide_True by done. cbn. f_equal; [|set_solver].
    rewrite <- app_assoc. cbn. f_equal. f_equal. f_equal.
    apply filter_ext_elem. intros x Hx. rewrite not_elem_of_union, not_elem_of_singleton. split; [tauto|].
    intros Hs. split; [|done]. intros Heq. apply Hb. rewrite list_elem_of_fmap. eauto.
Qed.

(** Every entry of a grouped map is counted once: at the keys that look it up
    or among the rest. *)
Lemma lookup_cover (m : list (string * CarryForwardBalance)) (ks : list string) :
  bt_wf String.compare m → NoDup ks →
  sum_of (fun k => from_option cfb_balance_sats 0 (bt_get String.compare k m)) ks +
  sum_of (fun kv => if decide (kv.1 ∈ ks) then 0 else cfb_balance_sats kv.2) m =
  sum_of cfb_balance_sats m.*2.
Proof.
  intros Hw. induction ks as [|k ks IH]; intros Hnd.
  - rewrite sum_of_nil, sum_of_fmap. apply sum_of_ext. intros kv _. by rewrite decide_False by set_solver.
  - apply NoDup_cons in Hnd as [Hk Hnd]. rewrite <- (IH Hnd), sum_of_cons.
    rewrite <- (bt_sum_key String.compare cfb_balance_sats k m Hw).
    match goal with |- ?C + ?K + ?A = ?K' + ?B => assert (A + C = B) as Heq; [|lia] end.
    rewrite <- sum_of_add. apply sum_of_ext. intros [k' b] _. cbn.
    destruct (decide (k' = k)) as [->|Hne].
    + rewrite decide_True by set_solver. rewrite decide_False by done. lia.
    + destruct (decide (k' ∈ ks)); [rewrite decide_True by set_solver|rewrite decide_False by set_solver]; lia.
Qed.

(** What the seeds add up to: one per payout program, the whole reward as
    gross amounts, every prior balance exactly once. *)
Record seeds_ok (reward : Z) (prior_balances : list CarryForwardBalance)
    (seeds : list PolicyAccountSeed) (seen : gset string) : Prop := {
  so_keys : NoDup (seed_program <$> seeds);
  so_seen : ∀ s, s ∈ seeds → seed_program s ∈ seen;
  so_gross : sum_of seed_gross_amount_sats seeds = reward;
  so_gross_nonneg : Forall (fun s => 0 ≤ seed_gross_amount_sats s) seeds;
  so_prior : sum_of seed_prior_balance_sats seeds = sum_of cfb_balance_sats prior_balances;
  so_prior_each : Forall (fun s =>
    seed_prior_balance_sats s = program_sum (seed_program s) prior_balances) seeds;
}.

Lemma policy_seeds_ok gross prior_by prior_balances reward seeds seen :
  grouped prior_balances prior_by → sum_of cfb_balance_sats prior_by.*2 = sum_of cfb_balance_sats prior_balances →
  NoDup (program_key <$> gross.*1) →
  Forall (fun eg => 0 ≤ eg.2) gross → sum_of snd gross = reward →
  policy_seeds gross prior_by = (seeds, seen) → seeds_ok reward prior_balances seeds seen.
Proof.
  intros Hg Hbal Hnd Hnn Hsum Hs. unfold policy_seeds in Hs.
  rewrite push_prior_seeds in Hs by (by eapply grouped_keys). injection Hs as <- <-.
  set (ks := program_key <$> gross.*1) in *.
  assert ((fun eg => payout_program_key (we_p2mr_program_hex eg.1)) <$> gross = ks) as ->
    by (unfold ks; by rewrite <- list_fmap_compose).
  set (rest := filter _ prior_by.*2).
  assert ((seed_program <$> (entitlement_seed prior_by <$> gross)) = ks) as Hk1.
  { unfold ks. rewrite <- !list_fmap_compose. apply list_fmap_ext. by intros i [e z] _. }
  assert (seed_program <$> (prior_seed <$> rest) = program_key <$> rest) as Hk2
    by (by rewrite <- list_fmap_compose).
  assert (∀ b, b ∈ rest → (program_key b ∉ ks) ∧ b ∈ prior_by.*2) as Hrest.
  { intros b [Hb1 Hb2]%list_elem_of_filter. split; [|done]. by rewrite elem_of_list_to_set in Hb1. }
  constructor.
  - rewrite fmap_app, Hk1, Hk2. apply NoDup_app. split_and!; [done| |].
    + intros k Hk (b & -> & Hb)%list_elem_of_fmap. by apply (Hrest b).
    + apply filter_fmap_NoDup. by eapply grouped_keys.
  - intros s [Hs|Hs]%elem_of_app; apply (list_elem_of_fmap_2 seed_program) in Hs.
    + rewrite Hk1 in Hs. set_solver.
    + rewrite Hk2 in Hs. apply list_elem_of_fmap in Hs as (b & -> & Hb). destruct (Hrest b Hb) as [_ Hb'].
      apply (list_elem_of_fmap_2 program_key) in Hb'. set_solver.
  - rewrite sum_of_app, !sum_of_fmap. rewrite (sum_of_zero _ rest) by done.
    rewrite Z.add_0_r, <- Hsum. apply sum_of_ext. by intros [e z].
  - apply Forall_app. split; apply Forall_fmap; [|by apply Forall_forall].
    eapply Forall_impl; [exact Hnn|]. by intros [e z].
  - rewrite <- Hbal, <- (lookup_cover prior_by ks (proj1 Hg) Hnd).
    rewrite sum_of_app. f_equal; rewrite sum_of_fmap.
    + unfold ks. rewrite !sum_of_fmap. apply sum_of_ext. by intros [e z].
    + cbn. unfold rest. rewrite sum_of_filter, sum_of_fmap. apply sum_of_ext. intros [k b] Hkb.
      assert (program_key b = k) as Hkk.
      { apply (bt_get_elem String.compare) in Hkb; [|apply Hg]. pose proof (proj2 Hg k) as Hgk.
        rewrite Hkb in Hgk. apply Hgk. }
      cbn [fst snd]. rewrite Hkk. destruct (decide (k ∈ ks)); case_decide; try done; set_solver.
  - apply Forall_app. split; apply Forall_fmap, Forall_forall.
    + intros [e z] _. cbn. by rewrite <- (grouped_lookup prior_balances prior_by _ Hg).
    + intros b Hb. cbn. destruct (Hrest b Hb) as [_ Hb']. by apply (go_sum _ _ _ (grouped_elem _ _ _ Hg Hb')).
Qed.

(** The accounts the seeds become. *)
Lemma seed_accounts_ok seeds accounts :
  collect seed_account seeds = Ok accounts →
  account_program <$> accounts = seed_program <$> seeds ∧
  Forall fresh_account accounts ∧
  Forall (fun a => fits I128 (ppa_candidate_balance_sats a) = true) accounts ∧
  Forall2 (fun s a => ppa_prior_balance_sats a = seed_prior_balance_sats s ∧
    ppa_gross_amount_sats a = seed_gross_amount_sats s ∧
    ppa_candidate_balance_sats a = seed_prior_balance_sats s + seed_gross_amount_sats s) seeds accounts.
Proof.
  intros Hc%collect_Forall2. induction Hc as [|s a seeds accounts Ha _ IH]; [done|].
  destruct IH as (H1 & H2 & H3 & H4). unfold seed_account in Ha. res_inv.
  split_and!; [cbn; f_equal; done|constructor; done|constructor; done|constructor; done].
Qed.

(** * The whole policy *)

(** The widths of the inputs. *)
Record wf_policy_input (rm : PrismRewardManifest) (policy : PayoutPolicy) : Prop := {
  wpi_value : fits U64 (rm_coinbase_value_sats rm) = true;
  wpi_weights : Forall (fun e => fits U128 (we_weight e) = true) (rm_entitlements rm);
  wpi_bytes : fits U64 (pp_p2mr_spend_input_bytes policy) = true;
  wpi_feerate : fits U64 (pp_target_feerate_sats_per_byte policy) = true;
  wpi_multiplier : fits U64 (pp_safety_multiplier policy) = true;
  wpi_floor : ∀ m, pp_min_output_sats policy = Some m → fits U64 m = true;
  wpi_fee : ∀ p, pp_pool_fee_policy policy = Some p → fits U16 (pfp_fee_bps p) = true;
}.

Lemma min_output_sats_nonneg rm policy floor :
  wf_policy_input rm policy → min_output_sats policy = Ok floor → 0 ≤ floor.
Proof.
  intros Hwf Hm. unfold min_output_sats in Hm. destruct (pp_min_output_sats policy) eqn:Hp.
  - res_inv. pose proof (wpi_floor _ _ Hwf _ Hp). widths.
  - res_inv. widths.
Qed.

Lemma pool_fee_manifest_fresh rm policy p :
  wf_policy_input rm policy → pool_fee_manifest (rm_coinbase_value_sats rm) policy = Ok (Some p) →
  fresh_fee p ∧ pf_amount_sats p ≤ rm_coinbase_value_sats rm.
Proof.
  intros Hwf Hf. unfold pool_fee_manifest in Hf. pose proof (wpi_value _ _ Hwf).
  destruct (pp_pool_fee_policy policy) as [q|] eqn:Hq; [|done]. pose proof (wpi_fee _ _ Hwf _ Hq).
  res_inv. match goal with H : Some _ = Some p |- _ => injection H as <- end.
  unfold fresh_fee. cbn in *. apply Z.ltb_ge in Hb. assert (0 ≤ rm_coinbase_value_sats rm) by widths.
  assert (0 ≤ pfp_fee_bps q) by widths.
  split_and!; [done..|apply Z.div_pos; [by apply Z.mul_nonneg_nonneg|done]|].
  apply Z.div_le_upper_bound; [done|]. nia.
Qed.

Lemma aggregated_facts es aggregated :
  aggregate_entitlements_by_payout_program es = Ok aggregated →
  ∃ m, grouped es m ∧ aggregated = m.*2 ∧ sum_of we_weight aggregated = sum_of we_weight es.
Proof.
  intros (m & Hm & [= <-])%bind_Ok.
  assert (∀ a b c, ok_or (checked_add U128 a b) PayoutPolicyOverflow = Ok c → c = a + b) as Hadd
    by (intros; by res_inv).
  exists m. split_and!; [exact (merge_accounts_grouped _ Hadd es m Hm)|done|].
  exact (merge_accounts_sum _ Hadd es m Hm).
Qed.

Lemma carry_forward_facts bs m :
  carry_forward_by_payout_program bs = Ok m →
  grouped bs m ∧ sum_of cfb_balance_sats m.*2 = sum_of cfb_balance_sats bs.
Proof.
  assert (∀ a b c, ok_or (checked_add I128 a b) PayoutPolicyOverflow = Ok c → c = a + b) as Hadd
    by (intros; by res_inv).
  intros Hm. split; [exact (merge_accounts_grouped _ Hadd bs m Hm)|]. exact (merge_accounts_sum _ Hadd bs m Hm).
Qed.

Lemma aggregated_nonneg es m :
  Forall (fun e => fits U128 (we_weight e) = true) es → grouped es m →
  Forall (fun e => 0 ≤ we_weight e) m.*2.
Proof.
  intros Hes Hm. apply Forall_forall. intros e He. change (we_weight e) with (balance e).
  rewrite (go_sum _ _ _ (grouped_elem _ _ _ Hm He)). apply sum_of_nonneg. intros x Hx.
  rewrite Forall_forall in Hes. specialize (Hes x Hx). case_decide; [cbn|done]. widths.
Qed.

(** What the gross split is: one entry per payout program, adding up to the reward. *)
Lemma gross_facts es aggregated reward gross :
  fits U64 reward = true → Forall (fun e => fits U128 (we_weight e) = true) es →
  aggregate_entitlements_by_payout_program es = Ok aggregated →
  allocate_weighted_amounts reward aggregated = Ok gross →
  NoDup (program_key <$> gross.*1) ∧ Forall (fun eg => 0 ≤ eg.2) gross ∧ sum_of snd gross = reward ∧
  apportioned reward (we_weight <$> sort_by canonical_cmp aggregated) gross.*2.
Proof.
  intros Hr Hes Hag Hal. destruct (aggregated_facts _ _ Hag) as (m & Hm & -> & _).
  pose proof (aggregated_nonneg _ _ Hes Hm) as Hnn.
  destruct (allocate_weighted_Ok _ _ _ Hr Hnn Hal) as (Hg1 & Hpos & Happ). split_and!; [| | |done].
  - rewrite Hg1, (sort_by_perm canonical_cmp). by eapply grouped_keys.
  - apply Forall_forall. intros [e z] (i & Hi)%list_elem_of_lookup. cbn.
    assert (gross.*1 !! i = Some e) as H1 by (by rewrite list_lookup_fmap, Hi).
    rewrite Hg1 in H1.
    eapply (apportioned_bounds reward _ _); [| | |exact Happ| |].
    + apply Forall_fmap. by apply sort_by_Forall.
    + widths.
    + change (zsum (we_weight <$> ?l)) with (sum_of we_weight l).
      by rewrite (sum_of_perm _ _ _ (sort_by_perm canonical_cmp _)).
    + rewrite list_lookup_fmap, H1. done.
    + rewrite list_lookup_fmap, Hi. done.
  - exact (app_total _ _ _ Happ).
Qed.

(** A miner's account: what it earned and carried is what it is paid and
    carries on, and a payment respects the floor and the balance. *)
Record miner_account_ok (floor : Z) (prior_balances : list CarryForwardBalance)
    (a : PayoutPolicyAccount) : Prop := {
  ma_type : ppa_account_type a = Miner;
  ma_prior : ppa_prior_balance_sats a = program_sum (account_program a) prior_balances;
  ma_gross : 0 ≤ ppa_gross_amount_sats a;
  ma_candidate : ppa_candidate_balance_sats a = ppa_prior_balance_sats a + ppa_gross_amount_sats a;
  ma_balance : ppa_candidate_balance_sats a =
    ppa_onchain_amount_sats a + ppa_carry_forward_balance_sats a;
  ma_fits : fits I128 (ppa_candidate_balance_sats a) = true;
  ma_no_fee : ppa_settlement_fee_sats a = 0;
  ma_action : match ppa_action a with
    | Onchain => 0 ≤ ppa_onchain_amount_sats a ∧
        floor ≤ ppa_onchain_amount_sats a ≤ ppa_candidate_balance_sats a
    | Accrued => ppa_onchain_amount_sats a = 0 end;
}.

Definition fee_accounts (fee : option PoolFeeManifest) : list PayoutPolicyAccount :=
  option_list (pool_fee_account <$> fee).

Record policy_outcome (rm : PrismRewardManifest) (prior_balances : list CarryForwardBalance)
    (policy : PayoutPolicy) (manifest : PayoutPolicyManifest)
    (miners : list PayoutPolicyAccount) (earned dust : Z) : Prop := {
  po_floor : min_output_sats policy = Ok (ppm_min_output_sats manifest);
  po_value : ppm_coinbase_value_sats manifest = rm_coinbase_value_sats rm;
  po_policy : ppm_coinbase_output_policy manifest = pp_coinbase_output_policy policy;
  po_accounts : ppm_accounts manifest =
    sort_by canonical_cmp (miners ++ fee_accounts (ppm_pool_fee manifest));
  po_entitlements : ppm_onchain_entitlements manifest = onchain_entitlement <$>
    filter (fun a => 0 < ppa_onchain_amount_sats a) (miners ++ fee_accounts (ppm_pool_fee manifest));
  po_programs : NoDup (account_program <$> (miners ++ fee_accounts (ppm_pool_fee manifest)));
  po_miners : Forall (miner_account_ok (ppm_min_output_sats manifest) prior_balances) miners;
  po_gross : sum_of ppa_gross_amount_sats miners + earned = rm_coinbase_value_sats rm;
  po_prior : sum_of ppa_prior_balance_sats miners = sum_of cfb_balance_sats prior_balances;
  po_onchain : sum_of ppa_onchain_amount_sats miners + earned + dust = rm_coinbase_value_sats rm;
  po_nonneg : 0 ≤ earned ∧ 0 ≤ dust;
  po_fee : match ppm_pool_fee manifest with
    | None => earned = 0 ∧ dust = 0 ∧ pp_coinbase_output_policy policy = Canonical
    | Some p => pf_earned_pool_fee_sats p = earned ∧ pf_swept_dust_liability_sats p = dust ∧
        pf_amount_sats p = earned + dust end;
}.

Lemma settled_miner floor prior_balances s a a' :
  fresh_account a → fits I128 (ppa_candidate_balance_sats a) = true → 0 ≤ seed_gross_amount_sats s →
  seed_prior_balance_sats s = program_sum (seed_program s) prior_balances →
  account_program a = seed_program s →
  ppa_prior_balance_sats a = seed_prior_balance_sats s ∧
    ppa_gross_amount_sats a = seed_gross_amount_sats s ∧
    ppa_candidate_balance_sats a = seed_prior_balance_sats s + seed_gross_amount_sats s →
  settled floor a a' →
  miner_account_ok floor prior_balances a' ∧
  ppa_gross_amount_sats a' = seed_gross_amount_sats s ∧
  ppa_prior_balance_sats a' = seed_prior_balance_sats s.
Proof.
  intros (Hon & Hfee & Hcar & Hact & Hty) Hfit Hg Hp Hk (Hap & Hag & Hac) Hs.
  pose proof (settled_program _ _ _ Hs) as Hk'.
  destruct Hs as [->|(z & Hz0 & Hz & ->)].
  - split; [|done]. constructor; rewrite ?Hact; try done; [congruence|lia..].
  - split; [|done]. constructor; rewrite ?Hk'; cbn; try done; [congruence|lia..].
Qed.

Lemma settled_miners floor prior_balances seeds accounts final :
  Forall (fun s => 0 ≤ seed_gross_amount_sats s) seeds →
  Forall (fun s => seed_prior_balance_sats s = program_sum (seed_program s) prior_balances) seeds →
  collect seed_account seeds = Ok accounts → Forall2 (settled floor) accounts final →
  Forall (miner_account_ok floor prior_balances) final ∧
  sum_of ppa_gross_amount_sats final = sum_of seed_gross_amount_sats seeds ∧
  sum_of ppa_prior_balance_sats final = sum_of seed_prior_balance_sats seeds.
Proof.
  intros Hg Hp Hc Hs. destruct (seed_accounts_ok _ _ Hc) as (Hk & Hf & Hfit & Hb). clear Hc.
  revert final Hs. induction Hb as [|s a seeds accounts Ha _ IH]; intros final Hs.
  { apply Forall2_nil_inv_l in Hs as ->. done. }
  apply Forall2_cons_inv_l in Hs as (a' & final' & Hs & Hs' & ->).
  apply Forall_cons in Hg, Hp, Hf, Hfit. rewrite !fmap_cons in Hk. injection Hk as Hk1 Hk2.
  destruct (IH (proj2 Hg) (proj2 Hp) Hk2 (proj2 Hf) (proj2 Hfit) final' Hs') as (I1 & I2 & I3).
  destruct (settled_miner floor prior_balances s a a') as (J1 & J2 & J3); try tauto.
  rewrite !sum_of_cons. split; [by constructor|lia].
Qed.

Lemma push_pool_fee_Ok fee seen accounts accounts' :
  push_pool_fee fee seen accounts = Ok accounts' →
  accounts' = accounts ++ fee_accounts fee ∧
  ∀ p, fee = Some p → payout_program_key (pf_p2mr_program_hex p) ∉ seen.
Proof.
  unfold push_pool_fee, fee_accounts. destruct fee as [p|].
  - case_decide; [done|]. intros [= <-]. naive_solver.
  - intros [= <-]. cbn. by rewrite app_nil_r.
Qed.

Lemma fee_program_fresh fee seen accounts :
  NoDup (account_program <$> accounts) → (∀ a, a ∈ accounts → account_program a ∈ seen) →
  (∀ p, fee = Some p → payout_program_key (pf_p2mr_program_hex p) ∉ (seen : gset string)) →
  NoDup (account_program <$> (accounts ++ fee_accounts fee)).
Proof.
  intros Hnd Hin Hfee. rewrite fmap_app. destruct fee as [p|]; cbn; [|by rewrite app_nil_r].
  apply NoDup_app. split_and!; [done| |apply NoDup_singleton].
  intros k (a & -> & Ha)%list_elem_of_fmap Hk%list_elem_of_singleton.
  apply (Hfee p eq_refl).
  rewrite <- (Hk : account_program a = payout_program_key (pf_p2mr_program_hex p)). by apply Hin.
Qed.

Lemma booked accounts fee reward floor value amounts fee' :
  0 ≤ floor → fits U64 reward = true →
  Forall (fun a => fits I128 (ppa_candidate_balance_sats a) = true) accounts →
  NoDup (account_program <$> accounts) → Forall fresh_account accounts →
  (∀ p, fee = Some p → fresh_fee p) →
  onchain_amounts accounts fee reward floor = Ok (amounts, fee') →
  ∃ final dust, try_fold (apply_onchain value floor) accounts amounts = Ok final ∧
    Forall2 (settled floor) accounts final ∧
    sum_of ppa_onchain_amount_sats final + dust = reward ∧ 0 ≤ dust ∧
    match fee with
    | None => dust = 0 ∧ fee' = None
    | Some p => fee' = Some (with_dust p dust) end.
Proof.
  intros Hf0 Hreward Hcand Hnd Hfr Hfresh Ham.
  destruct (onchain_amounts_plan accounts reward floor Hf0 Hreward Hcand _ _ _ Hfresh Ham)
    as (idxs & dust & [Hi Hpaid Htot Hdust Hfee]).
  assert (∀ a, a ∈ accounts → ppa_onchain_amount_sats a = 0) as Hz.
  { rewrite Forall_forall in Hfr. intros a Hin. by apply Hfr. }
  destruct (booking_loop accounts value floor Hnd Hcand idxs amounts accounts Hi Hpaid)
    as (final & Hf & Hs & Hsum).
  { apply Forall2_same_length_lookup. split; [done|]. intros i x y. left. congruence. }
  { done. } { intros i a _ Ha. by eapply Hz, list_elem_of_lookup_2. }
  rewrite (sum_of_zero _ accounts Hz) in Hsum. exists final, dust. split_and!; [done|done|lia|done|done].
Qed.

Lemma apply_payout_policy_outcome rm prior_balances policy manifest :
  wf_policy_input rm policy → apply_payout_policy rm prior_balances policy = Ok manifest →
  ∃ miners earned dust, policy_outcome rm prior_balances policy manifest miners earned dust.
Proof.
  intros Hwf Ha. unfold apply_payout_policy in Ha.
  apply bind_Ok in Ha as (floor & Hfloor & Ha). apply bind_Ok in Ha as (fee & Hfee & Ha).
  destruct (bool_decide _ && bool_decide _) eqn:Hpf; [done|].
  apply bind_Ok in Ha as (reward & Hrw & Ha). apply ok_or_Ok in Hrw. unfold checked_sub in Hrw.
  apply checked_Some in Hrw as [-> Hreward]. set (reward := _ - _) in *.
  destruct (reward <? floor) eqn:Hrf; [done|].
  apply bind_Ok in Ha as (agg & Hagg & Ha). apply bind_Ok in Ha as (gross & Hgross & Ha).
  apply bind_Ok in Ha as (pby & Hpby & Ha). destruct (policy_seeds gross pby) as [seeds seen] eqn:Hseeds.
  apply bind_Ok in Ha as (accounts & Hacc & Ha). apply bind_Ok in Ha as ([amounts fee'] & Ham & Ha).
  apply bind_Ok in Ha as (final & Hfin & Ha). apply bind_Ok in Ha as (all & Hall & Ha).
  apply bind_Ok in Ha as (osum & Hosum & Ha). destruct (negb _) eqn:Hos; [done|]. injection Ha as <-.
  pose proof (min_output_sats_nonneg _ _ _ Hwf Hfloor) as Hf0.
  assert (∀ p, fee = Some p → fresh_fee p) as Hfresh.
  { intros p ->. by destruct (pool_fee_manifest_fresh _ _ _ Hwf Hfee). }
  destruct (gross_facts _ _ _ _ Hreward (wpi_weights _ _ Hwf) Hagg Hgross) as (Hgk & Hgn & Hgs & _).
  destruct (carry_forward_facts _ _ Hpby) as [Hgr Hcs].
  pose proof (policy_seeds_ok _ _ _ _ _ _ Hgr Hcs Hgk Hgn Hgs Hseeds) as Hso.
  destruct (seed_accounts_ok _ _ Hacc) as (Hk & Hfr & Hcand & _).
  assert (NoDup (account_program <$> accounts)) as Hnd by (rewrite Hk; apply (so_keys _ _ _ _ Hso)).
  destruct (booked _ _ _ _ (rm_coinbase_value_sats rm) _ _ Hf0 Hreward Hcand Hnd Hfr Hfresh Ham)
    as (final' & dust & Hf' & Hs & Hpt & Hdust & Hpfee).
  rewrite Hf' in Hfin. apply Ok_inj in Hfin as ->.
  destruct (settled_miners _ _ _ _ _ (so_gross_nonneg _ _ _ _ Hso) (so_prior_each _ _ _ _ Hso) Hacc Hs)
    as (Hmin & Hg & Hp).
  apply push_pool_fee_Ok in Hall as [-> Hffresh].
  exists final, (from_option pf_amount_sats 0 fee), dust.
  constructor; cbn; try done.
  - apply (fee_program_fresh _ seen); [by rewrite (settled_keys _ _ _ Hs)| |done].
    intros a Hin%(list_elem_of_fmap_2 account_program). rewrite (settled_keys _ _ _ Hs), Hk in Hin.
    apply list_elem_of_fmap in Hin as (s & -> & Hin). by apply (so_seen _ _ _ _ Hso).
  - rewrite Hg, (so_gross _ _ _ _ Hso). unfold reward. lia.
  - by rewrite Hp, (so_prior _ _ _ _ Hso).
  - unfold reward in Hpt. lia.
  - split; [|done]. destruct fee as [p|]; [|done]. cbn. destruct (Hfresh p eq_refl). lia.
  - destruct fee as [p|]; cbn in *.
    + subst fee'. destruct (Hfresh p eq_refl) as (_ & -> & ?). done.
    + destruct Hpfee as [-> ->]. split_and!; [done..|]. rewrite andb_false_iff, !bool_decide_eq_false in Hpf.
      destruct (pp_coinbase_output_policy policy); naive_solver.
Qed.

(** ** No panics *)
Lemma merge_accounts_not_panic {A} `{Account A} (t : int_ty) (e : PrismError) (l : list A) :
  not_panic (merge_accounts (fun a b => ok_or (checked_add t a b) e) l).
Proof. apply not_panic_try_fold. intros m x _. unfold merge_account. calm. Qed.

Lemma add_swept_dust_not_panic fee dust : not_panic (add_swept_dust_to_pool_fee fee dust).
Proof. unfold add_swept_dust_to_pool_fee. calm. Qed.
#[export] Hint Resolve merge_accounts_not_panic add_swept_dust_not_panic : outcome.

Lemma onchain_amounts_not_panic accounts fee reward floor :
  0 ≤ floor → fits U64 reward = true →
  Forall (fun a => fits I128 (ppa_candidate_balance_sats a) = true) accounts →
  not_panic (onchain_amounts accounts fee reward floor).
Proof.
  intros Hf Hr Hc. unfold onchain_amounts.
  pose proof (eligible_selectable accounts floor) as Hsel.
  destruct (eligible_onchain_accounts accounts floor) as [|i l] eqn:He; [destruct fee; calm|].
  rewrite <- He in *. apply not_panic_bind; [by eapply selected_sum_not_panic|]. intros s _.
  destruct (s <? reward).
  - destruct fee; [|calm]. calm. apply not_panic_collect. intros j Hj.
    destruct (proj2 Hsel j Hj) as (acc & Hacc & _). unfold full_payout, account_at. rewrite Hacc. cbn. calm.
  - destruct (select_onchain_accounts_spec accounts reward floor Hf Hr Hc) as [Hnp Hok].
    apply not_panic_bind; [done|]. intros sel Hs%Hok.
    rewrite (collect_at accounts floor candidate_entitlement (Build_WeightedEntitlement "" "" "" 0) sel
      (sel_selectable _ _ _ _ Hs)). cbn [mbind result_bind].
    apply not_panic_bind; [|auto with outcome]. apply (allocation_not_panic accounts reward floor Hf Hr Hc).
    apply Hs.
Qed.

Lemma apply_payout_policy_not_panic rm prior_balances policy :
  wf_policy_input rm policy → not_panic (apply_payout_policy rm prior_balances policy).
Proof.
  intros Hwf. unfold apply_payout_policy.
  apply not_panic_bind; [unfold min_output_sats; destruct (pp_min_output_sats policy); calm|].
  intros floor Hfloor. apply not_panic_bind; [unfold pool_fee_manifest; destruct (pp_pool_fee_policy policy); calm|].
  intros fee Hfee. destruct (_ && _); [calm|]. apply not_panic_bind; [calm|]. intros reward Hrw. res_inv.
  rename Hrw into Hreward. set (reward := _ - _) in *.
  destruct (_ <? floor); [calm|]. apply not_panic_bind; [unfold aggregate_entitlements_by_payout_program; calm|].
  intros agg Hagg. destruct (aggregated_facts _ _ Hagg) as (m & Hm & Hmeq & _).
  apply not_panic_bind.
  { apply allocate_weighted_not_panic; [done|]. subst agg. by eapply aggregated_nonneg; [apply Hwf|]. }
  intros gross Hgross. apply not_panic_bind; [unfold carry_forward_by_payout_program; calm|].
  intros pby Hpby. destruct (policy_seeds gross pby) as [seeds seen] eqn:Hseeds.
  apply not_panic_bind; [apply not_panic_collect; intros; unfold seed_account; calm|].
  intros accounts Hacc. pose proof (min_output_sats_nonneg _ _ _ Hwf Hfloor) as Hf0.
  destruct (gross_facts _ _ _ _ Hreward (wpi_weights _ _ Hwf) Hagg Hgross) as (Hgk & Hgn & Hgs & _).
  destruct (carry_forward_facts _ _ Hpby) as [Hgr Hcs].
  pose proof (policy_seeds_ok _ _ _ _ _ _ Hgr Hcs Hgk Hgn Hgs Hseeds) as Hso.
  destruct (seed_accounts_ok _ _ Hacc) as (Hk & Hfr & Hcand & _).
  apply not_panic_bind; [by apply onchain_amounts_not_panic|]. intros [amounts fee'] Ham.
  assert (NoDup (account_program <$> accounts)) as Hnd by (rewrite Hk; apply (so_keys _ _ _ _ Hso)).
  assert (∀ p, fee = Some p → fresh_fee p) as Hfresh.
  { intros p ->. by destruct (pool_fee_manifest_fresh _ _ _ Hwf Hfee). }
  destruct (booked _ _ _ _ (rm_coinbase_value_sats rm) _ _ Hf0 Hreward Hcand Hnd Hfr Hfresh Ham)
    as (final & dust & Hf & _).
  rewrite Hf. cbn [mbind result_bind].
  apply not_panic_bind; [unfold push_pool_fee; destruct fee'; calm|]. intros all _.
  apply not_panic_bind; [apply not_panic_try_fold; intros; calm|]. intros osum _. calm.
Qed.

(** ** What the entitlements handed to the builder are *)
Lemma outcome_weights rm prior_balances policy manifest miners earned dust :
  policy_outcome rm prior_balances policy manifest miners earned dust →
  Forall (fun e => 0 < we_weight e) (ppm_onchain_entitlements manifest) ∧
  sum_of we_weight (ppm_onchain_entitlements manifest) = rm_coinbase_value_sats rm ∧
  sum_of ppa_onchain_amount_sats (ppm_accounts manifest) = rm_coinbase_value_sats rm ∧
  NoDup (program_key <$> ppm_onchain_entitlements manifest).
Proof.
  intros Ho. set (all := miners ++ fee_accounts (ppm_pool_fee manifest)) in *.
  assert (sum_of ppa_onchain_amount_sats all = rm_coinbase_value_sats rm) as Hall.
  { pose proof (po_onchain _ _ _ _ _ _ _ Ho) as Hs. pose proof (po_fee _ _ _ _ _ _ _ Ho) as Hf.
    unfold all. rewrite sum_of_app. unfold fee_accounts.
    destruct (ppm_pool_fee manifest) as [p|]; cbn; autorewrite with sums; [cbn; lia|lia]. }
  assert (∀ a, a ∈ all → 0 ≤ ppa_onchain_amount_sats a) as Hnn.
  { intros a [Ha|Ha]%elem_of_app.
    - pose proof (po_miners _ _ _ _ _ _ _ Ho) as Hm. rewrite Forall_forall in Hm.
      pose proof (ma_action _ _ _ (Hm a Ha)). destruct (ppa_action a); lia.
    - pose proof (po_fee _ _ _ _ _ _ _ Ho) as Hf. pose proof (po_nonneg _ _ _ _ _ _ _ Ho).
      unfold fee_accounts in Ha. destruct (ppm_pool_fee manifest) as [p|]; cbn in Ha; [|set_solver].
      apply list_elem_of_singleton in Ha as ->. cbn. lia. }
  rewrite (po_entitlements _ _ _ _ _ _ _ Ho). fold all. split_and!.
  - apply Forall_fmap, Forall_forall. by intros a [Ha _]%list_elem_of_filter.
  - rewrite sum_of_fmap, sum_of_filter, <- Hall. apply sum_of_ext. intros a Ha. cbn.
    specialize (Hnn a Ha). case_decide; lia.
  - by rewrite (po_accounts _ _ _ _ _ _ _ Ho), (sum_of_perm _ _ _ (sort_by_perm canonical_cmp _)).
  - rewrite <- list_fmap_compose. pose proof (po_programs _ _ _ _ _ _ _ Ho) as Hnd. fold all in Hnd.
    change (program_key ∘ onchain_entitlement) with account_program. by apply filter_fmap_NoDup.
Qed.

Lemma fee_entitlement_listed rm prior_balances policy manifest miners earned dust p :
  policy_outcome rm prior_balances policy manifest miners earned dust →
  pool_fee_first_output manifest = Some p →
  onchain_entitlement (pool_fee_account p) ∈ ppm_onchain_entitlements manifest.
Proof.
  intros Ho Hp. unfold pool_fee_first_output in Hp. case_bool_decide; [done|].
  destruct (ppm_pool_fee manifest) as [q|] eqn:Hq; [|done]. destruct (0 <? pf_amount_sats q) eqn:Hpos; [|done].
  injection Hp as ->. rewrite (po_entitlements _ _ _ _ _ _ _ Ho). apply list_elem_of_fmap_2, list_elem_of_filter.
  rewrite Hq. split; [cbn; lia|]. apply elem_of_app. right. cbn. set_solver.
Qed.

Lemma arrange_policy_request rm prior_balances policy manifest miners earned dust request :
  policy_outcome rm prior_balances policy manifest miners earned dust →
  cbr_entitlements request = ppm_onchain_entitlements manifest →
  cbr_pinned_first_output request = pinned_first_output_for_policy manifest →
  ∃ es, arrange_entitlements request = Ok es ∧
    match pool_fee_first_output manifest with
    | Some p => ∃ rest, es = onchain_entitlement (pool_fee_account p) :: rest
    | None => es = sort_by canonical_cmp (ppm_onchain_entitlements manifest) end.
Proof.
  intros Ho He Hpin. unfold arrange_entitlements. rewrite Hpin, He. unfold pinned_first_output_for_policy.
  destruct (pool_fee_first_output manifest) as [p|] eqn:Hp; cbn [fmap option_fmap option_map]; [|eauto].
  pose proof (fee_entitlement_listed _ _ _ _ _ _ _ _ Ho Hp) as Hin.
  destruct (outcome_weights _ _ _ _ _ _ _ Ho) as (_ & _ & _ & Hnd).
  rewrite <- (sort_by_perm compare_entitlements) in Hin, Hnd.
  apply list_elem_of_lookup in Hin as (i & Hi).
  rewrite (pinned_entitlement_index_total _ _ i _ Hi).
  - cbn. eexists. split; [done|]. unfold rotate_to_front. rewrite Hi. eauto.
  - unfold pinned_matches. cbn. by rewrite !String.eqb_refl.
  - intros j e' Hj Hm. unfold pinned_matches in Hm. apply andb_true_iff in Hm as [_ Hm].
    apply eq_ignore_ascii_case_iff in Hm. eapply NoDup_lookup; [exact Hnd| |].
    + rewrite list_lookup_fmap, Hj. done.
    + rewrite list_lookup_fmap, Hi. cbn. f_equal. done.
Qed.

(** * Theorems *)

(** C2: no sat is lost or made up. What the accounts are paid on chain adds up
    to the coinbase value, and what they carry forward is what they carried in
    plus the dust the pool fee has swept: the manifest's liability field is
    exactly what the pool owes its miners from this block. *)
Theorem policy_conserves_value rm prior_balances policy manifest :
  wf_policy_input rm policy → apply_payout_policy rm prior_balances policy = Ok manifest →
  sum_of ppa_onchain_amount_sats (ppm_accounts manifest) = rm_coinbase_value_sats rm ∧
  sum_of we_weight (ppm_onchain_entitlements manifest) = rm_coinbase_value_sats rm ∧
  sum_of ppa_carry_forward_balance_sats (ppm_accounts manifest) =
    sum_of cfb_balance_sats prior_balances +
    from_option pf_swept_dust_liability_sats 0 (ppm_pool_fee manifest).
Proof.
  intros Hwf Ha. destruct (apply_payout_policy_outcome _ _ _ _ Hwf Ha) as (miners & earned & dust & Ho).
  destruct (outcome_weights _ _ _ _ _ _ _ Ho) as (_ & Hw & Hon & _). split_and!; [done..|].
  rewrite (po_accounts _ _ _ _ _ _ _ Ho), (sum_of_perm _ _ _ (sort_by_perm canonical_cmp _)), sum_of_app.
  rewrite <- (po_prior _ _ _ _ _ _ _ Ho).
  assert (sum_of ppa_carry_forward_balance_sats miners =
    sum_of (fun a => ppa_prior_balance_sats a + ppa_gross_amount_sats a - ppa_onchain_amount_sats a) miners) as ->.
  { apply sum_of_ext. intros a Hin. pose proof (po_miners _ _ _ _ _ _ _ Ho) as Hm. rewrite Forall_forall in Hm.
    destruct (Hm a Hin). lia. }
  rewrite sum_of_sub, sum_of_add. pose proof (po_gross _ _ _ _ _ _ _ Ho).
  pose proof (po_onchain _ _ _ _ _ _ _ Ho). pose proof (po_fee _ _ _ _ _ _ _ Ho) as Hf.
  unfold fee_accounts. destruct (ppm_pool_fee manifest); cbn; autorewrite with sums; cbn; lia.
Qed.

(** Every account of the manifest is balanced. A miner's account starts
    from the sum of its program's prior balances, its candidate balance is
    prior plus gross and equals payment plus carry-forward; it is either paid
    at least the floor and at most its candidate balance, or paid nothing and
    accrued. The pool fee's account is paid its whole amount. Accounts are one
    per payout program, whatever the case its hex is written in. *)
Theorem policy_accounts_balanced rm prior_balances policy manifest :
  wf_policy_input rm policy → apply_payout_policy rm prior_balances policy = Ok manifest →
  NoDup (account_program <$> ppm_accounts manifest) ∧
  Forall (fun a => match ppa_account_type a with
    | Miner => miner_account_ok (ppm_min_output_sats manifest) prior_balances a
    | PoolFee => ∃ p, ppm_pool_fee manifest = Some p ∧ a = pool_fee_account p ∧
        pf_amount_sats p = pf_earned_pool_fee_sats p + pf_swept_dust_liability_sats p
    end) (ppm_accounts manifest).
Proof.
  intros Hwf Ha. destruct (apply_payout_policy_outcome _ _ _ _ Hwf Ha) as (miners & earned & dust & Ho).
  rewrite (po_accounts _ _ _ _ _ _ _ Ho). split.
  - rewrite (sort_by_perm canonical_cmp). apply (po_programs _ _ _ _ _ _ _ Ho).
  - apply sort_by_Forall, Forall_app. split.
    + eapply Forall_impl; [apply (po_miners _ _ _ _ _ _ _ Ho)|]. intros a Hm. by rewrite (ma_type _ _ _ Hm).
    + pose proof (po_fee _ _ _ _ _ _ _ Ho) as Hf. unfold fee_accounts.
      destruct (ppm_pool_fee manifest) as [p|]; cbn; [|constructor].
      apply Forall_singleton. cbn. exists p. split_and!; [done..|lia].
Qed.

(** the policy never panics: the lookup of the account an amount is booked
    to always finds it, the indices of the selection are in range, and the
    selection loop ends. *)
Theorem policy_never_panics rm prior_balances policy :
  wf_policy_input rm policy → not_panic (apply_payout_policy rm prior_balances policy).
Proof. apply apply_payout_policy_not_panic. Qed.

(** the selection of on-chain accounts ends within one round per account
    (its fuel is never exhausted), without panicking, and what it selects is
    non-empty, in range, covers the reward and splits it with nobody below the
    floor. *)
Theorem selection_meets_floor accounts value floor sel :
  0 ≤ floor → fits U64 value = true →
  Forall (fun a => fits I128 (ppa_candidate_balance_sats a) = true) accounts →
  not_panic (select_onchain_accounts accounts value floor) ∧
  (select_onchain_accounts accounts value floor = Ok sel → selection_ok accounts value floor sel).
Proof.
  intros Hf Hv Hc. destruct (select_onchain_accounts_spec accounts value floor Hf Hv Hc) as [Hnp Hok].
  split; [done|]. apply Hok.
Qed.

(** The coinbase request made of a policy always allocates, and pays each
    account exactly its policy amount: the builder's rounding never touches
    them. Under [PoolFeeFirst] a positive pool fee is output 0. *)
Theorem policy_request_pays_exactly `{HexCrate} rm prior_balances policy suffix leaves request manifest :
  wf_policy_input rm policy → fits U64 (rm_block_height rm) = true → rm_coinbase_value_sats rm ≠ 0 →
  build_policy_coinbase_request_with_coinbase_options rm prior_balances policy suffix leaves
    = Ok (request, manifest) →
  Forall (fun e => is_ok (parse_p2mr_program e) = true) (ppm_onchain_entitlements manifest) →
  ∃ es outputs, allocate_outputs request = Ok outputs ∧ es ≡ₚ ppm_onchain_entitlements manifest ∧
    Forall2 (fun e o => output_of e o ∧ ao_amount_sats o = we_weight e) es outputs ∧
    match pool_fee_first_output manifest with
    | Some p => ∃ rest, es = onchain_entitlement (pool_fee_account p) :: rest
    | None => es = sort_by canonical_cmp (ppm_onchain_entitlements manifest) end.
Proof.
  intros Hwf Hh Hv (m & Ha & [= <- <-])%bind_Ok Hhex.
  destruct (apply_payout_policy_outcome _ _ _ _ Hwf Ha) as (miners & earned & dust & Ho).
  destruct (outcome_weights _ _ _ _ _ _ _ Ho) as (Hpos & Hsum & _ & _).
  pose proof (wpi_value _ _ Hwf) as Hval. match goal with |- context [allocate_outputs ?r] => set (req := r) end.
  destruct (arrange_policy_request _ _ _ _ _ _ _ req Ho eq_refl eq_refl) as (es & Hes & Hfirst).
  pose proof (arrange_entitlements_perm _ _ Hes) as Hp. change (cbr_entitlements req) with (ppm_onchain_entitlements m) in Hp.
  assert (∀ e, e ∈ ppm_onchain_entitlements m → 0 < we_weight e ≤ rm_coinbase_value_sats rm) as Hw.
  { intros e He. rewrite Forall_forall in Hpos. split; [by apply Hpos|]. rewrite <- Hsum.
    apply sum_of_elem_le; [|done]. intros x Hx. specialize (Hpos x Hx). cbn in Hpos. lia. }
  assert (wf_request req) as Hreq.
  { constructor; [done| |done]. apply Forall_forall. intros e He. specialize (Hw e He). widths. }
  assert (is_ok (allocate_outputs req) = true) as [outputs Hout]%is_ok_ex.
  { apply (allocate_outputs_total_iff req Hreq). split_and!; [done| |by rewrite Hes|].
    - cbn. intros Hnil. rewrite Hnil in Hsum. rewrite sum_of_nil in Hsum. by subst.
    - cbn. unfold allocatable. rewrite Hsum. split_and!.
      + eapply Forall_impl; [exact Hpos|]. cbn. lia.
      + widths.
      + apply Forall_forall. intros e He. rewrite Forall_forall in Hhex. split; [by apply Hhex|].
        specialize (Hw e He). rewrite fits_iff in *. cbn [int_min int_max] in *. nia. }
  exists es, outputs. split_and!; [done..| |done].
  pose proof (allocate_exact_of req outputs es Hreq Hout Hes Hsum) as HF. exact HF.
Qed.

(** * A concrete block

    Alice, Bob and Carol earn 10000 sats less a 2% pool fee; Bob's program is
    also written in upper case by another worker, Carol stays below the floor,
    Dave only has a prior balance and Bob owes one. *)
Definition example_reward_manifest : PrismRewardManifest := {|
  rm_schema := "qbit.prism.reward-manifest.v1"; rm_block_height := 17;
  rm_coinbase_value_sats := 10000; rm_network_difficulty := 100; rm_window_multiplier := 8;
  rm_requested_window_weight := 800; rm_counted_window_weight := 100;
  rm_anchor_job_issued_at_ms := 0; rm_anchor_share_seq := 9; rm_newest_share_seq := 9;
  rm_oldest_share_seq := 1; rm_cut := None; rm_included_share_count := 4;
  rm_share_slice_digest_hex := ""; rm_entitlements :=
    [example_entitlement "alice" "a" "aa" 60; example_entitlement "bob" "b" "bb" 20;
     example_entitlement "bob2" "b2" "BB" 15; example_entitlement "carol" "c" "cc" 5];
  rm_shares := []
|}.
Definition example_balance (id key digits : string) (sats : Z) : CarryForwardBalance :=
  {| cfb_recipient_id := id; cfb_order_key := key; cfb_p2mr_program_hex := repeat_string 32 digits;
     cfb_balance_sats := sats |}.
Definition example_prior_balances : list CarryForwardBalance :=
  [example_balance "dave" "d" "dd" 1700; example_balance "bob" "b" "bb" (-130)].
Definition example_policy : PayoutPolicy := {|
  pp_p2mr_spend_input_bytes := 3680; pp_target_feerate_sats_per_byte := 1;
  pp_safety_multiplier := 4; pp_min_output_sats := Some 1000;
  pp_pool_fee_policy := Some {| pfp_fee_bps := 200; pfp_recipient_id := "pool";
    pfp_order_key := "z"; pfp_p2mr_program_hex := repeat_string 32 "ff" |};
  pp_coinbase_output_policy := PoolFeeFirst;
|}.

Lemma example_policy_wf : wf_policy_input example_reward_manifest example_policy.
Proof.
  constructor; try reflexivity; [repeat constructor|intros m [= <-]|intros p [= <-]]; reflexivity.
Qed.

Example example_policy_accounts :
  (manifest ← apply_payout_policy example_reward_manifest example_prior_balances example_policy;
   Ok (map (fun a => (ppa_recipient_id a, ppa_candidate_balance_sats a, ppa_onchain_amount_sats a,
                      ppa_carry_forward_balance_sats a)) (ppm_accounts manifest)))
  = Ok [("alice", 5880, 5296, 584); ("bob", 3300, 2973, 327); ("carol", 490, 0, 490);
        ("dave", 1700, 1531, 169); ("pool", 200, 200, 0)].
Proof. vm_compute. reflexivity. Qed.

Lemma policy_conserves_value_witness :
  ∃ manifest, apply_payout_policy example_reward_manifest example_prior_balances example_policy
      = Ok manifest ∧
    sum_of ppa_onchain_amount_sats (ppm_accounts manifest) = 10000.
Proof.
  assert (is_ok (apply_payout_policy example_reward_manifest example_prior_balances example_policy) = true)
    as Hok by (vm_compute; reflexivity).
  apply is_ok_ex in Hok as [m Hm]. exists m. split; [exact Hm|].
  exact (proj1 (policy_conserves_value _ _ _ m example_policy_wf Hm)).
Defined.

Lemma policy_accounts_balanced_witness :
  ∃ manifest, apply_payout_policy example_reward_manifest example_prior_balances example_policy
      = Ok manifest ∧ NoDup (account_program <$> ppm_accounts manifest).
Proof.
  assert (is_ok (apply_payout_policy example_reward_manifest example_prior_balances example_policy) = true)
    as Hok by (vm_compute; reflexivity).
  apply is_ok_ex in Hok as [m Hm]. exists m. split; [exact Hm|].
  exact (proj1 (policy_accounts_balanced _ _ _ m example_policy_wf Hm)).
Defined.

Lemma policy_never_panics_witness :
  not_panic (apply_payout_policy example_reward_manifest example_prior_balances example_policy).
Proof. exact (policy_never_panics _ _ _ example_policy_wf). Defined.

Definition example_accounts : list PayoutPolicyAccount :=
  match collect seed_account
    [Build_PolicyAccountSeed "alice" "a" "aa" 5000 0; Build_PolicyAccountSeed "bob" "b" "bb" 1000 500;
     Build_PolicyAccountSeed "carol" "c" "cc" 1100 0] with
  | Ok accounts => accounts | _ => [] end.

(** Splitting 6000 puts Carol below the floor of 950, so a second round pays
    the other two. *)
Lemma selection_meets_floor_witness :
  select_onchain_accounts example_accounts 6000 950 = Ok [0%nat; 1%nat] ∧
  selection_ok example_accounts 6000 950 [0%nat; 1%nat].
Proof.
  assert (select_onchain_accounts example_accounts 6000 950 = Ok [0%nat; 1%nat]) as Hs
    by (vm_compute; reflexivity).
  split; [exact Hs|].
  refine (proj2 (selection_meets_floor example_accounts 6000 950 [0%nat; 1%nat] _ _ _) Hs).
  - discriminate.
  - reflexivity.
  - repeat constructor.
Defined.

Lemma policy_request_pays_exactly_witness :
  ∃ request manifest, build_policy_coinbase_request example_reward_manifest example_prior_balances
      example_policy = Ok (request, manifest) ∧
    ∃ outputs, allocate_outputs request = Ok outputs.
Proof.
  assert (is_ok (build_policy_coinbase_request example_reward_manifest example_prior_balances
    example_policy) = true) as Hok by (vm_compute; reflexivity).
  apply is_ok_ex in Hok as [[request manifest] Hm]. exists request, manifest. split; [exact Hm|].
  assert (match build_policy_coinbase_request example_reward_manifest example_prior_balances example_policy with
    | Ok (_, m) => is_ok (collect parse_p2mr_program (ppm_onchain_entitlements m))
    | _ => false end = true) as Hhex by (vm_compute; reflexivity).
  rewrite Hm in Hhex. apply is_ok_ex in Hhex as [ps Hps].
  destruct (policy_request_pays_exactly example_reward_manifest example_prior_balances example_policy
    None [] request manifest example_policy_wf eq_refl ltac:(discriminate) Hm)
    as (es & outputs & Hout & _); [|exists outputs; exact Hout].
  apply (collect_is_ok _ _ _ Hps).
Defined.
