(* ===== verification/Maturity.v ===== *)
(** Payout maturity (crates/qbit-prism/src/lib.rs): the entries a block's payout
    leaves in the ledger, their maturing and reversal, and the replay of the
    entries into the current carry-forward balances. *)
From Stdlib Require Import ZArith Lia Sorting.Sorted.
From Stdlib Require String.
From stdpp Require Import base list strings gmap.
From S2P Require Import Prelude Order BTree Bytes Crates Payee Apportion PoolBuilder PrismError.
From S2P Require Import WindowCut RewardWindow ByProgram PayoutPolicy.

Open Scope Z_scope.

Definition QBIT_COINBASE_MATURITY_BLOCKS : Z := 1000.

(** * Data *)
Inductive PayoutMaturityState := Immature | Mature | Reversed.
#[export] Instance maturity_state_eq_dec : EqDecision PayoutMaturityState.
Proof. solve_decision. Defined.

Record PayoutMaturityEntry := {
  pme_block_hash : string;
  pme_block_height : Z;
  pme_account_type : PayoutPolicyAccountType;
  pme_recipient_id : string;
  pme_order_key : string;
  pme_p2mr_program_hex : string;
  pme_gross_amount_sats : Z;
  pme_prior_balance_sats : Z;
  pme_candidate_balance_sats : Z;
  pme_onchain_amount_sats : Z;
  pme_settlement_fee_sats : Z;
  pme_carry_forward_balance_sats : Z;
  pme_action : PayoutPolicyAction;
  pme_state : PayoutMaturityState;
}.

(** [let mut updated = entry.clone(); updated.state = state]. *)
Definition with_state (e : PayoutMaturityEntry) (state : PayoutMaturityState) : PayoutMaturityEntry :=
  {| pme_block_hash := pme_block_hash e; pme_block_height := pme_block_height e;
     pme_account_type := pme_account_type e; pme_recipient_id := pme_recipient_id e;
     pme_order_key := pme_order_key e; pme_p2mr_program_hex := pme_p2mr_program_hex e;
     pme_gross_amount_sats := pme_gross_amount_sats e;
     pme_prior_balance_sats := pme_prior_balance_sats e;
     pme_candidate_balance_sats := pme_candidate_balance_sats e;
     pme_onchain_amount_sats := pme_onchain_amount_sats e;
     pme_settlement_fee_sats := pme_settlement_fee_sats e;
     pme_carry_forward_balance_sats := pme_carry_forward_balance_sats e;
     pme_action := pme_action e; pme_state := state |}.

(** * Operations *)
Definition maturity_entry (block_hash : string) (block_height : Z) (account : PayoutPolicyAccount)
  : PayoutMaturityEntry :=
  {| pme_block_hash := block_hash; pme_block_height := block_height;
     pme_account_type := ppa_account_type account; pme_recipient_id := ppa_recipient_id account;
     pme_order_key := ppa_order_key account; pme_p2mr_program_hex := ppa_p2mr_program_hex account;
     pme_gross_amount_sats := ppa_gross_amount_sats account;
     pme_prior_balance_sats := ppa_prior_balance_sats account;
     pme_candidate_balance_sats := ppa_candidate_balance_sats account;
     pme_onchain_amount_sats := ppa_onchain_amount_sats account;
     pme_settlement_fee_sats := ppa_settlement_fee_sats account;
     pme_carry_forward_balance_sats := ppa_carry_forward_balance_sats account;
     pme_action := ppa_action account; pme_state := Immature |}.
Definition build_maturity_entries (block_hash : string) (block_height : Z)
    (policy_manifest : PayoutPolicyManifest) : list PayoutMaturityEntry :=
  maturity_entry block_hash block_height <$> ppm_accounts policy_manifest.

Definition maturity_height (e : PayoutMaturityEntry) : Z :=
  saturating_add U64 (pme_block_height e) QBIT_COINBASE_MATURITY_BLOCKS.

Definition update_maturity_state (active_tip_height : Z) (e : PayoutMaturityEntry)
  : PayoutMaturityEntry :=
  if bool_decide (pme_state e = Immature) && (maturity_height e <=? active_tip_height)
  then with_state e Mature else e.
Definition update_maturity_states (entries : list PayoutMaturityEntry) (active_tip_height : Z)
  : list PayoutMaturityEntry := update_maturity_state active_tip_height <$> entries.

Definition reverse_entry (disconnected_block_hashes : list string) (active_tip_height : Z)
    (e : PayoutMaturityEntry) : result PrismError PayoutMaturityEntry :=
  if bool_decide (pme_block_hash e ∈ disconnected_block_hashes) then
    if maturity_height e <=? active_tip_height then Err (MaturePayoutDisconnect (pme_block_hash e))
    else match pme_state e with
         | Immature => Ok (with_state e Reversed)
         | Mature => Err (MaturePayoutDisconnect (pme_block_hash e))
         | Reversed => Ok e
         end
  else Ok e.
Definition reverse_disconnected_blocks (entries : list PayoutMaturityEntry)
    (disconnected_block_hashes : list string) (active_tip_height : Z)
  : result PrismError (list PayoutMaturityEntry) :=
  collect (reverse_entry disconnected_block_hashes active_tip_height) entries.

(** One round of the replay. The function has no error value; its two
    [expect]s are the only ways it can fail. *)
Definition replay_entry (balances : list (string * CarryForwardBalance)) (e : PayoutMaturityEntry)
  : result Empty_set (list (string * CarryForwardBalance)) :=
  if bool_decide (pme_state e = Reversed) || bool_decide (pme_account_type e = PoolFee)
  then Ok balances
  else
    delta_sats ← expect (checked_sub I128 (pme_gross_amount_sats e) (pme_onchain_amount_sats e))
                   "u64 on-chain amount always fits i128";
    merge_account (fun a b => expect (checked_add I128 a b)
        "carry-forward delta replay should not overflow i128") balances
      {| cfb_recipient_id := pme_recipient_id e; cfb_order_key := pme_order_key e;
         cfb_p2mr_program_hex := pme_p2mr_program_hex e; cfb_balance_sats := delta_sats |}.

Definition current_carry_forward_balances (entries : list PayoutMaturityEntry)
  : result Empty_set (list CarryForwardBalance) :=
  balances ← try_fold replay_entry [] entries;
  Ok (filter (fun b => cfb_balance_sats b ≠ 0)
        (balances : list (string * CarryForwardBalance)).*2).

Definition owed_balances_for_display (entries : list PayoutMaturityEntry)
  : result Empty_set (list CarryForwardBalance) :=
  balances ← current_carry_forward_balances entries;
  Ok ((fun b => {| cfb_recipient_id := cfb_recipient_id b; cfb_order_key := cfb_order_key b;
                   cfb_p2mr_program_hex := cfb_p2mr_program_hex b;
                   cfb_balance_sats := Z.max (cfb_balance_sats b) 0 |})
      <$> (balances : list CarryForwardBalance)).

(** * Replay lemmas *)

(** An entry that counts, and what it adds to its program. *)
Definition active (e : PayoutMaturityEntry) : bool :=
  negb (bool_decide (pme_state e = Reversed) || bool_decide (pme_account_type e = PoolFee)).
Definition entry_program (e : PayoutMaturityEntry) : string := payout_program_key (pme_p2mr_program_hex e).
Definition entry_delta (e : PayoutMaturityEntry) : Z :=
  pme_gross_amount_sats e - pme_onchain_amount_sats e.
Definition delta_balance (e : PayoutMaturityEntry) : CarryForwardBalance :=
  {| cfb_recipient_id := pme_recipient_id e; cfb_order_key := pme_order_key e;
     cfb_p2mr_program_hex := pme_p2mr_program_hex e; cfb_balance_sats := entry_delta e |}.
Definition deltas (entries : list PayoutMaturityEntry) : list CarryForwardBalance :=
  delta_balance <$> filter active entries.

(** What the active entries add up to for one program. *)
Definition replay_sum (k : string) (entries : list PayoutMaturityEntry) : Z :=
  program_sum k (deltas entries).

Definition replay_add : Z -> Z -> result Empty_set Z := fun a b =>
  expect (checked_add I128 a b) "carry-forward delta replay should not overflow i128".
Lemma replay_add_sum a b c : replay_add a b = Ok c → c = a + b.
Proof. intros H. unfold replay_add in H. by res_inv. Qed.

(** The replay is the grouping of the active deltas. *)
Lemma replay_merge m entries m' :
  try_fold replay_entry m entries = Ok m' → try_fold (merge_account replay_add) m (deltas entries) = Ok m'.
Proof.
  revert m; induction entries as [|e l IH]; intros m; [done|]. cbn [try_fold].
  intros (m1 & H1 & H2)%bind_Ok. unfold deltas. rewrite filter_cons. unfold replay_entry in H1.
  destruct (bool_decide _ || bool_decide _) eqn:Hact.
  - injection H1 as <-. rewrite decide_False by (unfold active; rewrite Hact; by intros []). by apply IH.
  - rewrite decide_True by (unfold active; by rewrite Hact). rewrite fmap_cons. cbn [try_fold].
    apply bind_Ok in H1 as (d & Hd & H1). res_inv. apply bind_Ok. exists m1. split; [exact H1|]. by apply IH.
Qed.

Definition entry_fits (e : PayoutMaturityEntry) : Prop :=
  active e = true → fits I128 (entry_delta e) = true.

Lemma merge_replay m entries m' :
  Forall entry_fits entries →
  try_fold (merge_account replay_add) m (deltas entries) = Ok m' → try_fold replay_entry m entries = Ok m'.
Proof.
  revert m; induction entries as [|e l IH]; intros m Hf; [done|]. apply Forall_cons in Hf as [He Hl].
  unfold deltas. rewrite filter_cons. cbn [try_fold]. unfold replay_entry.
  destruct (bool_decide _ || bool_decide _) eqn:Hact.
  - rewrite decide_False by (unfold active; rewrite Hact; by intros []). by apply IH.
  - rewrite decide_True by (unfold active; by rewrite Hact). rewrite fmap_cons. cbn [try_fold].
    intros (m1 & H1 & H2)%bind_Ok. unfold checked_sub. rewrite checked_fits by (apply He; unfold active; by rewrite Hact).
    cbn [expect mbind result_bind].
    apply bind_Ok. exists m1. split; [exact H1|]. by apply IH.
Qed.

Lemma replay_grouped entries m :
  try_fold replay_entry [] entries = Ok m → grouped (deltas entries) m.
Proof. intros Hm%replay_merge. exact (merge_accounts_grouped _ replay_add_sum _ _ Hm). Qed.

Lemma nonzero_program_sum k (bs : list CarryForwardBalance) :
  program_sum k (filter (fun b => cfb_balance_sats b ≠ 0) bs) = program_sum k bs.
Proof.
  unfold program_sum. rewrite sum_of_filter. apply sum_of_ext. intros b _.
  destruct (decide (cfb_balance_sats b ≠ 0)); [done|]. case_decide; cbn; lia.
Qed.

(** The balances replayed for a program are the sum of its active deltas. *)
Lemma current_program_sum entries bs k :
  current_carry_forward_balances entries = Ok bs → program_sum k bs = replay_sum k entries.
Proof.
  intros (m & Hm & [= <-])%bind_Ok. rewrite nonzero_program_sum.
  apply grouped_program_sum. by apply replay_grouped.
Qed.

Lemma deltas_app l1 l2 : deltas (l1 ++ l2) = deltas l1 ++ deltas l2.
Proof. unfold deltas. by rewrite filter_app, fmap_app. Qed.
Lemma replay_sum_app k l1 l2 : replay_sum k (l1 ++ l2) = replay_sum k l1 + replay_sum k l2.
Proof. unfold replay_sum. by rewrite deltas_app, program_sum_app. Qed.

(** Merging accounts of distinct programs only needs each program's own total
    to fit. *)
Lemma merge_distinct m l0 (l : list CarryForwardBalance) :
  grouped l0 m → NoDup (program_key <$> l) →
  (∀ x, x ∈ l → fits I128 (program_sum (program_key x) l0 + cfb_balance_sats x) = true) →
  is_ok (try_fold (merge_account replay_add) m l) = true.
Proof.
  revert m l0; induction l as [|x l IH]; intros m l0 Hg Hnd Hfit; [done|].
  rewrite fmap_cons, NoDup_cons in Hnd. destruct Hnd as [Hx Hnd]. cbn [try_fold].
  assert (is_ok (merge_account replay_add m x) = true) as [m1 Hm1]%is_ok_ex.
  { unfold merge_account. match goal with |- context [replay_add ?a ?b] => assert (replay_add a b = Ok (a + b)) as -> end; [|done].
    unfold replay_add, checked_add. rewrite checked_fits; [done|].
    match goal with |- fits _ (?a + _) = _ => assert (a = program_sum (program_key x) l0) as -> end; [|apply Hfit; set_solver].
    rewrite <- (grouped_lookup l0 m (program_key x) Hg).
    assert (∀ (c : comparison) e r o, balance (match c with Lt => with_identity e r o | _ => e end) = balance (e : CarryForwardBalance)) as ->
      by (by intros []). by destruct (bt_get _ _ _). }
  rewrite Hm1. cbn [mbind result_bind]. apply (IH m1 (l0 ++ [x])); [by eapply merge_account_grouped; [apply replay_add_sum|..]|done|].
  intros y Hy. rewrite program_sum_app, (program_sum_notin _ [x]), Z.add_0_r; [apply Hfit; set_solver|].
  intros (x' & Heq & ->%list_elem_of_singleton)%list_elem_of_fmap. apply Hx. rewrite <- Heq.
  by apply list_elem_of_fmap_2.
Qed.

(** ** A new block's entries *)
Definition is_miner (a : PayoutPolicyAccount) : bool := bool_decide (ppa_account_type a = Miner).

Lemma built_deltas hash height manifest :
  deltas (build_maturity_entries hash height manifest) =
  (fun a => delta_balance (maturity_entry hash height a)) <$> filter is_miner (ppm_accounts manifest).
Proof.
  unfold deltas, build_maturity_entries. induction (ppm_accounts manifest) as [|a l IH]; [done|].
  rewrite fmap_cons, !filter_cons.
  assert (active (maturity_entry hash height a) = is_miner a) as Heq
    by (unfold active, is_miner; cbn; by destruct (ppa_account_type a)).
  destruct (is_miner a) eqn:Hm.
  - rewrite !decide_True by (by rewrite ?Heq, ?Hm). rewrite !fmap_cons. f_equal. exact IH.
  - rewrite !decide_False by (rewrite ?Heq, ?Hm; by intros []). exact IH.
Qed.

Section replay.
Context (rm : PrismRewardManifest) (policy : PayoutPolicy) (prior : list CarryForwardBalance).
Context (manifest : PayoutPolicyManifest) (hash : string) (height : Z).
Hypothesis Hwf : wf_policy_input rm policy.
Hypothesis Happly : apply_payout_policy rm prior policy = Ok manifest.
Let built := build_maturity_entries hash height manifest.

Lemma policy_account_facts a :
  a ∈ filter is_miner (ppm_accounts manifest) →
  miner_account_ok (ppm_min_output_sats manifest) prior a ∧
  fits U64 (ppa_gross_amount_sats a) = true ∧ fits U64 (ppa_onchain_amount_sats a) = true.
Proof.
  intros [Hm Ha]%list_elem_of_filter. apply bool_decide_unpack in Hm.
  destruct (apply_payout_policy_outcome _ _ _ _ Hwf Happly) as (miners & earned & dust & Ho).
  rewrite (po_accounts _ _ _ _ _ _ _ Ho), elem_of_sort_by in Ha. apply elem_of_app in Ha as [Ha|Ha].
  2:{ unfold fee_accounts in Ha. destruct (ppm_pool_fee manifest); cbn in Ha; [|set_solver].
      apply list_elem_of_singleton in Ha as ->. done. }
  pose proof (po_miners _ _ _ _ _ _ _ Ho) as Hok. rewrite Forall_forall in Hok.
  assert (∀ x, x ∈ miners → 0 ≤ ppa_onchain_amount_sats x) as Hon.
  { intros x Hx. pose proof (ma_action _ _ _ (Hok x Hx)). destruct (ppa_action x); lia. }
  assert (∀ x, x ∈ miners → 0 ≤ ppa_gross_amount_sats x) as Hgr.
  { intros x Hx. apply (ma_gross _ _ _ (Hok x Hx)). }
  pose proof (sum_of_elem_le _ _ _ Hon Ha). pose proof (sum_of_elem_le _ _ _ Hgr Ha).
  pose proof (po_onchain _ _ _ _ _ _ _ Ho). pose proof (po_gross _ _ _ _ _ _ _ Ho).
  pose proof (po_nonneg _ _ _ _ _ _ _ Ho). pose proof (wpi_value _ _ Hwf).
  pose proof (Hon a Ha). pose proof (Hgr a Ha). split_and!; [by apply Hok|widths..].
Qed.

Lemma policy_programs : NoDup (account_program <$> ppm_accounts manifest).
Proof.
  destruct (apply_payout_policy_outcome _ _ _ _ Hwf Happly) as (miners & earned & dust & Ho).
  rewrite (po_accounts _ _ _ _ _ _ _ Ho), (sort_by_perm canonical_cmp). apply (po_programs _ _ _ _ _ _ _ Ho).
Qed.

Lemma built_program_sum a :
  a ∈ filter is_miner (ppm_accounts manifest) →
  replay_sum (account_program a) built = ppa_gross_amount_sats a - ppa_onchain_amount_sats a.
Proof.
  intros Ha. unfold replay_sum, built. rewrite built_deltas. unfold program_sum. rewrite sum_of_fmap.
  rewrite <- (sum_at_key account_program (fun a => ppa_gross_amount_sats a - ppa_onchain_amount_sats a)
    (filter is_miner (ppm_accounts manifest)) a); [done| |done].
  apply filter_fmap_NoDup, policy_programs.
Qed.

Lemma built_program_sum_other k :
  k ∉ account_program <$> filter is_miner (ppm_accounts manifest) → replay_sum k built = 0.
Proof.
  intros Hk. apply program_sum_notin. unfold built. by rewrite built_deltas, <- list_fmap_compose.
Qed.

Lemma replay_policy entries :
  current_carry_forward_balances entries = Ok prior →
  ∃ bs, current_carry_forward_balances (entries ++ built) = Ok bs ∧
    ∀ k, program_sum k bs = program_sum k prior + replay_sum k built.
Proof.
  intros Hc. pose proof Hc as (m & Hm & _)%bind_Ok.
  assert (is_ok (try_fold (merge_account replay_add) m (deltas built)) = true) as [m' Hm']%is_ok_ex.
  { apply (merge_distinct m (deltas entries)); [by apply replay_grouped| |].
    - unfold built. rewrite built_deltas, <- list_fmap_compose. apply filter_fmap_NoDup, policy_programs.
    - unfold built. rewrite built_deltas. intros x (a & -> & Ha)%list_elem_of_fmap.
      destruct (policy_account_facts a Ha) as (Hok & _ & Hon).
      change (program_key (delta_balance (maturity_entry hash height a))) with (account_program a).
      change (program_sum (account_program a) (deltas entries)) with (replay_sum (account_program a) entries).
      rewrite <- (current_program_sum _ _ _ Hc), <- (ma_prior _ _ _ Hok).
      unfold delta_balance, entry_delta. cbn.
      pose proof (ma_candidate _ _ _ Hok). pose proof (ma_fits _ _ _ Hok).
      pose proof (ma_action _ _ _ Hok). destruct (ppa_action a); widths. }
  assert (try_fold replay_entry [] (entries ++ built) = Ok m') as Hall.
  { rewrite try_fold_app, Hm. cbn [mbind result_bind]. apply merge_replay; [|done].
    apply Forall_fmap, Forall_forall. intros a Ha Hact. unfold entry_delta. cbn.
    destruct (policy_account_facts a) as (_ & Hg & Ho); [|widths].
    apply list_elem_of_filter. split; [|done]. unfold active in Hact. cbn in Hact. unfold is_miner.
    by destruct (ppa_account_type a). }
  exists (filter (fun b => cfb_balance_sats b ≠ 0) m'.*2).
  assert (current_carry_forward_balances (entries ++ built) =
          Ok (filter (fun b => cfb_balance_sats b ≠ 0) m'.*2)) as Hnew.
  { unfold current_carry_forward_balances. by rewrite Hall. }
  split; [done|]. intros k. rewrite (current_program_sum _ _ _ Hnew), (current_program_sum _ _ _ Hc).
  apply replay_sum_app.
Qed.
End replay.

(** * Reversal lemmas *)
Lemma reverse_entry_Ok hashes tip e e' :
  reverse_entry hashes tip e = Ok e' →
  (pme_block_hash e ∈ hashes ∧ tip < maturity_height e ∧ pme_state e ≠ Mature ∧ e' = with_state e Reversed) ∨
  (pme_block_hash e ∉ hashes) ∧ e' = e.
Proof.
  unfold reverse_entry. case_bool_decide; [|intros [= <-]; by right].
  destruct (_ <=? _) eqn:Ht; [done|]. apply Z.leb_gt in Ht.
  destruct (pme_state e) eqn:Hs; [intros [= <-]; left; by split_and!|done|intros [= <-]; left].
  split_and!; try done. destruct e. cbn in Hs. by subst.
Qed.

Lemma reverse_entry_total hashes tip e :
  (pme_block_hash e ∈ hashes → tip < maturity_height e ∧ pme_state e ≠ Mature) →
  is_ok (reverse_entry hashes tip e) = true.
Proof.
  intros He. unfold reverse_entry. case_bool_decide; [|done]. destruct He as [Ht Hs]; [done|].
  rewrite (proj2 (Z.leb_gt _ _) Ht). by destruct (pme_state e).
Qed.

(** Entries with the given hashes marked, the rest untouched. *)
Definition mark_reversed (hashes : list string) (e : PayoutMaturityEntry) : PayoutMaturityEntry :=
  if decide (pme_block_hash e ∈ hashes) then with_state e Reversed else e.

Lemma reverse_marks hashes tip entries entries' :
  reverse_disconnected_blocks entries hashes tip = Ok entries' →
  entries' = mark_reversed hashes <$> entries ∧
  ∀ e, e ∈ entries → pme_block_hash e ∈ hashes → tip < maturity_height e ∧ pme_state e ≠ Mature.
Proof.
  intros Hr. split.
  - eapply collect_fmap_inv; [|exact Hr]. intros e e' _ He. unfold mark_reversed.
    destruct (reverse_entry_Ok _ _ _ _ He) as [(Hin & _ & _ & ->)|[Hin ->]];
      [by rewrite decide_True|by rewrite decide_False].
  - apply collect_Forall2 in Hr. intros e (i & Hi)%list_elem_of_lookup Hh.
    destruct (Forall2_lookup_l _ _ _ _ _ Hr Hi) as (e' & _ & He).
    destruct (reverse_entry_Ok _ _ _ _ He) as [(_ & ? & ? & _)|[? _]]; done.
Qed.

Lemma replay_marked hashes m entries :
  try_fold replay_entry m (mark_reversed hashes <$> entries) =
  try_fold replay_entry m (filter (fun e => pme_block_hash e ∉ hashes) entries).
Proof.
  revert m; induction entries as [|e l IH]; intros m; [done|]. rewrite fmap_cons, filter_cons.
  cbn [try_fold]. destruct (decide (pme_block_hash e ∈ hashes)) as [Hin|Hin].
  - assert (replay_entry m (mark_reversed hashes e) = Ok m) as ->
      by (unfold mark_reversed; by rewrite decide_True).
    rewrite decide_False by tauto. apply IH.
  - assert (mark_reversed hashes e = e) as -> by (unfold mark_reversed; by rewrite decide_False).
    rewrite decide_True by done. cbn [try_fold]. destruct (replay_entry m e); cbn; [apply IH|done..].
Qed.

(** * The ledger as a state machine

    What a client does with the entries: connect a block, follow the tip,
    undo disconnected blocks. *)
Inductive ledger_step (entries : list PayoutMaturityEntry) : list PayoutMaturityEntry -> Prop :=
| connect_block hash height manifest :
    hash ∉ pme_block_hash <$> entries →
    ledger_step entries (entries ++ build_maturity_entries hash height manifest)
| advance_tip tip : ledger_step entries (update_maturity_states entries tip)
| disconnect_blocks hashes tip entries' :
    reverse_disconnected_blocks entries hashes tip = Ok entries' → ledger_step entries entries'.

(** All entries of one block are in one state. *)
Definition block_uniform (entries : list PayoutMaturityEntry) : Prop :=
  ∀ e1 e2, e1 ∈ entries → e2 ∈ entries → pme_block_hash e1 = pme_block_hash e2 →
    pme_block_height e1 = pme_block_height e2 ∧ pme_state e1 = pme_state e2.

(** An entry after some steps: same record, its state kept or moved out of
    [Immature]. *)
Definition evolved (e e' : PayoutMaturityEntry) : Prop :=
  e' = with_state e (pme_state e') ∧ (pme_state e ≠ Immature → pme_state e' = pme_state e).

Lemma with_state_same e : with_state e (pme_state e) = e.
Proof. by destruct e. Qed.
Lemma evolved_refl e : evolved e e.
Proof. split; [by rewrite with_state_same|done]. Qed.
Lemma evolved_trans e1 e2 e3 : evolved e1 e2 → evolved e2 e3 → evolved e1 e3.
Proof.
  intros [H1 H1'] [H2 H2']. split; [rewrite H2, H1 at 1; by destruct e1|].
  intros Hs. rewrite H2'; auto. rewrite H1'; auto.
Qed.

Lemma update_state_eq tip e :
  update_maturity_state tip e = with_state e
    (match pme_state e with Immature => if maturity_height e <=? tip then Mature else Immature | s => s end).
Proof.
  unfold update_maturity_state. destruct e; cbn.
  match goal with |- context [bool_decide (?s = Immature)] => destruct s end; cbn; [|done..].
  by destruct (_ <=? _).
Qed.

Lemma block_uniform_fmap (f : PayoutMaturityEntry -> PayoutMaturityEntry) entries :
  (∀ e, pme_block_hash (f e) = pme_block_hash e ∧ pme_block_height (f e) = pme_block_height e) →
  (∀ e1 e2, pme_block_hash e1 = pme_block_hash e2 → pme_block_height e1 = pme_block_height e2 →
     pme_state e1 = pme_state e2 → pme_state (f e1) = pme_state (f e2)) →
  block_uniform entries → block_uniform (f <$> entries).
Proof.
  intros Hf Hs Hu e1 e2 (x1 & -> & H1)%list_elem_of_fmap (x2 & -> & H2)%list_elem_of_fmap Hh.
  rewrite !(proj1 (Hf _)) in Hh. destruct (Hu x1 x2 H1 H2 Hh). rewrite !(proj2 (Hf _)). auto.
Qed.

Lemma ledger_step_uniform entries entries' :
  ledger_step entries entries' → block_uniform entries → block_uniform entries'.
Proof.
  intros [hash height manifest Hfresh|tip|hashes tip l' Hr] Hu.
  - assert (∀ e, e ∈ entries → pme_block_hash e ≠ hash) as Hold
      by (intros e He <-; by apply Hfresh, list_elem_of_fmap_2).
    intros e1 e2 [H1|H1]%elem_of_app [H2|H2]%elem_of_app Hh; [by apply Hu|..];
      repeat match goal with H : _ ∈ build_maturity_entries _ _ _ |- _ =>
        apply list_elem_of_fmap in H as (? & -> & _) end; cbn in Hh |- *; [|symmetry in Hh|done];
      by destruct (Hold _ ltac:(eassumption)).
  - apply block_uniform_fmap; [intros e; by rewrite update_state_eq|intros e1 e2 _ Hh Hs|done].
    rewrite !update_state_eq. cbn. unfold maturity_height. by rewrite Hh, Hs.
  - apply reverse_marks in Hr as [-> _]. apply block_uniform_fmap; [| |done].
    + intros e. unfold mark_reversed. by case_decide.
    + intros e1 e2 Hh _ Hs. unfold mark_reversed. rewrite Hh. by case_decide.
Qed.

Lemma ledger_step_evolved entries entries' :
  ledger_step entries entries' → ∃ l new, entries' = l ++ new ∧ Forall2 evolved entries l.
Proof.
  assert (∀ f, (∀ e, e ∈ entries → evolved e (f e)) → Forall2 evolved entries (f <$> entries)) as Hmap.
  { intros f Hf. apply Forall2_fmap_r. apply Forall_Forall2_diag. by apply Forall_forall. }
  intros [hash height manifest Hfresh|tip|hashes tip l' Hr].
  - eexists _, _. split; [done|]. apply Forall_Forall2_diag, Forall_forall. intros e _. apply evolved_refl.
  - eexists _, []. split; [by rewrite app_nil_r|]. apply Hmap. intros e _. rewrite update_state_eq.
    split; [by destruct e|]. cbn. by destruct (pme_state e).
  - apply reverse_marks in Hr as [-> Hr]. eexists _, []. split; [by rewrite app_nil_r|]. apply Hmap.
    intros e He. unfold mark_reversed. case_decide as Hin; [|apply evolved_refl].
    destruct (Hr e He Hin) as [_ Hs]. split; [done|]. cbn. by destruct (pme_state e).
Qed.

(** * Theorems *)

(** C33: replaying the ledger gives the policy's own carry-forward. When a
    block's policy is computed from the balances the ledger replays to, then
    after its entries are appended the replay goes through without overflow
    and yields, for every miner account of the manifest, exactly the
    carry-forward balance the manifest committed to; programs without a miner
    account keep their balance. *)
Theorem replay_matches_policy rm policy prior manifest entries hash height :
  wf_policy_input rm policy →
  current_carry_forward_balances entries = Ok prior →
  apply_payout_policy rm prior policy = Ok manifest →
  ∃ bs, current_carry_forward_balances (entries ++ build_maturity_entries hash height manifest) = Ok bs ∧
    (∀ a, a ∈ ppm_accounts manifest → ppa_account_type a = Miner →
       program_sum (account_program a) bs = ppa_carry_forward_balance_sats a) ∧
    (∀ k, k ∉ account_program <$> filter is_miner (ppm_accounts manifest) →
       program_sum k bs = program_sum k prior).
Proof.
  intros Hwf Hc Ha. destruct (replay_policy rm policy prior manifest hash height Hwf Ha entries Hc)
    as (bs & Hbs & Hsum).
  exists bs. split_and!; [done| |].
  - intros a Hin Hm. rewrite Hsum.
    assert (a ∈ filter is_miner (ppm_accounts manifest)) as Hf
      by (apply list_elem_of_filter; split; [by apply bool_decide_pack|done]).
    rewrite (built_program_sum rm policy prior) by done.
    destruct (policy_account_facts rm policy prior manifest Hwf Ha a Hf) as (Hok & _).
    destruct Hok. lia.
  - intros k Hk. rewrite Hsum, built_program_sum_other by done. lia.
Qed.

(** A reorganisation leaves no trace. If the disconnected blocks can be
    reversed, the balances afterwards are those of a ledger that never held
    them: the replay of the entries of the other blocks. *)
Theorem reversal_restores_balances entries hashes tip entries' :
  reverse_disconnected_blocks entries hashes tip = Ok entries' →
  current_carry_forward_balances entries' =
  current_carry_forward_balances (filter (fun e => pme_block_hash e ∉ hashes) entries).
Proof.
  intros [-> _]%reverse_marks. unfold current_carry_forward_balances. by rewrite replay_marked.
Qed.

(** a reversal is refused exactly when it would undo a mature payout:
    some entry of a disconnected block is marked mature or its block is a
    full maturity period below the tip. Otherwise it marks those entries
    reversed, keeps the others, and doing it again changes nothing. *)
Theorem reversal_exact entries hashes tip :
  (is_ok (reverse_disconnected_blocks entries hashes tip) = true ↔
   ∀ e, e ∈ entries → pme_block_hash e ∈ hashes → tip < maturity_height e ∧ pme_state e ≠ Mature) ∧
  ∀ entries', reverse_disconnected_blocks entries hashes tip = Ok entries' →
    entries' = mark_reversed hashes <$> entries ∧
    reverse_disconnected_blocks entries' hashes tip = Ok entries'.
Proof.
  split; [split|].
  - intros [l Hl]%is_ok_ex. by apply reverse_marks in Hl as [_ ?].
  - intros He. unfold reverse_disconnected_blocks.
    induction entries as [|e l IH]; [done|]. cbn [collect].
    destruct (is_ok_ex _ (reverse_entry_total hashes tip e (He e ltac:(set_solver)))) as [e' ->].
    cbn [mbind result_bind]. specialize (IH ltac:(set_solver)). apply is_ok_ex in IH as [l' ->]. done.
  - intros l' [-> He]%reverse_marks. split; [done|]. unfold reverse_disconnected_blocks.
    rewrite (collect_fmap _ id); [by rewrite list_fmap_id|].
    intros e' (e & -> & Hin)%list_elem_of_fmap. unfold mark_reversed, reverse_entry, id.
    case_decide as Hd.
    + destruct (He e Hin Hd) as [Ht _]. cbn. rewrite bool_decide_eq_true_2 by done.
      unfold maturity_height in *. cbn. by rewrite (proj2 (Z.leb_gt _ _) Ht).
    + by rewrite bool_decide_eq_false_2.
Qed.

(** in every ledger reachable by connecting blocks with fresh hashes,
    advancing the tip and disconnecting blocks, the entries of a block agree
    on its height and state: a block is never half matured or half reversed. *)
Theorem reachable_blocks_uniform entries : rtc ledger_step [] entries → block_uniform entries.
Proof.
  assert (block_uniform []) as H0 by (intros e1 e2 H1; set_solver). revert H0.
  induction 2 as [l|l1 l2 l3 H12 _ IH]; [done|]. by apply IH, (ledger_step_uniform l1).
Qed.

(** entries are never dropped or rewritten, only appended to, and a state
    once left [Immature] is final: a mature payout is never reversed and a
    reversed one never matures. *)
Theorem maturity_is_final entries entries' :
  rtc ledger_step entries entries' → ∃ l new, entries' = l ++ new ∧ Forall2 evolved entries l.
Proof.
  induction 1 as [l|l1 l2 l3 H12 _ (l & new & -> & HF)].
  - exists l, []. split; [by rewrite app_nil_r|]. apply Forall_Forall2_diag, Forall_forall. intros e _. apply evolved_refl.
  - apply ledger_step_evolved in H12 as (l' & new' & -> & HF').
    apply Forall2_app_inv_l in HF as (k1 & k2 & Hk1 & Hk2 & ->).
    exists k1, (k2 ++ new). split; [by rewrite app_assoc|].
    eapply Forall2_trans; [apply evolved_trans|exact HF'|exact Hk1].
Qed.

(** * A concrete ledger *)
Definition example_manifest : PayoutPolicyManifest :=
  match apply_payout_policy example_reward_manifest [] example_policy with
  | Ok m => m | _ => Build_PayoutPolicyManifest "" 0 0 0 "" Canonical None [] [] end.
Definition example_ledger : list PayoutMaturityEntry := build_maturity_entries "block-a" 17 example_manifest.

Lemma replay_matches_policy_witness :
  ∃ prior manifest bs, current_carry_forward_balances example_ledger = Ok prior ∧
    apply_payout_policy example_reward_manifest prior example_policy = Ok manifest ∧
    current_carry_forward_balances (example_ledger ++ build_maturity_entries "block-b" 18 manifest) = Ok bs.
Proof.
  assert (is_ok (current_carry_forward_balances example_ledger) = true) as Hp by (vm_compute; reflexivity).
  assert (match current_carry_forward_balances example_ledger with
    | Ok p => is_ok (apply_payout_policy example_reward_manifest p example_policy)
    | _ => false end = true) as Hm by (vm_compute; reflexivity).
  apply is_ok_ex in Hp as [prior Hp]. rewrite Hp in Hm. apply is_ok_ex in Hm as [manifest Hm].
  destruct (replay_matches_policy example_reward_manifest example_policy prior manifest example_ledger
    "block-b" 18 example_policy_wf Hp Hm) as (bs & Hbs & _).
  exists prior, manifest, bs. split; [exact Hp|]. split; [exact Hm|exact Hbs].
Defined.

Lemma reversal_restores_balances_witness :
  ∃ entries', reverse_disconnected_blocks example_ledger ["block-a"] 500 = Ok entries' ∧
    current_carry_forward_balances entries' = Ok [].
Proof.
  assert (is_ok (reverse_disconnected_blocks example_ledger ["block-a"] 500) = true) as Hok
    by (vm_compute; reflexivity).
  apply is_ok_ex in Hok as [l Hl]. exists l. split; [exact Hl|].
  rewrite (reversal_restores_balances _ _ _ _ Hl). vm_compute. reflexivity.
Defined.

Lemma example_ledger_reachable : rtc ledger_step [] (update_maturity_states example_ledger 1017).
Proof.
  eapply rtc_l; [apply (connect_block [] "block-a" 17 example_manifest); set_solver|].
  eapply rtc_l; [apply (advance_tip _ 1017)|]. constructor.
Qed.

Lemma reachable_blocks_uniform_witness : block_uniform (update_maturity_states example_ledger 1017).
Proof. exact (reachable_blocks_uniform _ example_ledger_reachable). Defined.

Lemma maturity_is_final_witness :
  ∃ l new, update_maturity_states example_ledger 1017 = l ++ new ∧ Forall2 evolved example_ledger l.
Proof. exact (maturity_is_final _ _ (rtc_once _ _ (advance_tip example_ledger 1017))). Defined.
