(* ===== verification/Settlement.v ===== *)
(** The settlement partition (crates/qbit-prism/src/settlement.rs): which
    recipients the coinbase pays directly and how the others are cut into
    fanout chunks. *)
From Stdlib Require Import ZArith Lia Sorting.Sorted.
From Stdlib Require String.
From stdpp Require Import base list strings pretty gmap sorting.
From S2P Require Import Prelude Order BTree Bytes Crates Payee Apportion PoolBuilder PrismError.

Open Scope Z_scope.

Definition MAX_COINBASE_SETTLEMENT_OUTPUTS : Z := 500.
Definition DEFAULT_MAX_COINBASE_SETTLEMENT_OUTPUTS : Z := 16.
Definition MAX_DIRECT_COINBASE_OUTPUTS : Z := MAX_COINBASE_SETTLEMENT_OUTPUTS.
Definition DEFAULT_MAX_DIRECT_COINBASE_OUTPUTS : Z := 12.
Definition OCEAN_ONCHAIN_PAYOUT_THRESHOLD_SATS : Z := 1048576.
Definition DEFAULT_DIRECT_COINBASE_PAYOUT_FLOOR_SATS : Z := OCEAN_ONCHAIN_PAYOUT_THRESHOLD_SATS * 10.
Definition QBIT_TRUC_MAX_TX_WEIGHT_BYTES : Z := 50000.
Definition CTV_FANOUT_P2MR_OUTPUT_BYTES : Z := 43.
Definition CTV_FANOUT_FIXED_WEIGHT_BYTES : Z := 90.
Definition MAX_CTV_FANOUT_RECIPIENTS_PER_TRANSACTION : Z := 1160.
Definition DEFAULT_MAX_CTV_FANOUT_RECIPIENTS_PER_TRANSACTION : Z := 1000.

(** * Data *)
Inductive SettlementMode := DirectCoinbase | HybridCoinbaseCtvFanout | CtvFanout.

Record SettlementModeConfig := {
  max_coinbase_settlement_outputs : Z;
  max_direct_coinbase_outputs : Z;
  max_fanout_recipients_per_transaction : Z;
  reserved_coinbase_outputs : Z;
}.
Definition settlement_mode_config_default : SettlementModeConfig := {|
  max_coinbase_settlement_outputs := DEFAULT_MAX_COINBASE_SETTLEMENT_OUTPUTS;
  max_direct_coinbase_outputs := DEFAULT_MAX_DIRECT_COINBASE_OUTPUTS;
  max_fanout_recipients_per_transaction := DEFAULT_MAX_CTV_FANOUT_RECIPIENTS_PER_TRANSACTION;
  reserved_coinbase_outputs := 0;
|}.

Record SettlementRecipient := {
  sr_recipient_id : string;
  sr_order_key : string;
  sr_p2mr_program_hex : string;
  sr_amount_sats : Z;
}.
#[export] Instance sr_payee : Payee SettlementRecipient :=
  {| recipient_id := sr_recipient_id; order_key := sr_order_key;
     p2mr_program_hex := sr_p2mr_program_hex |}.
#[export] Instance sr_eq_dec : EqDecision SettlementRecipient.
Proof. solve_decision. Defined.

Record SettlementFanoutChunk := {
  sfc_chunk_index : Z;
  sfc_recipient_count : Z;
  sfc_amount_sats : Z;
  sfc_recipients : list SettlementRecipient;
}.

Record SettlementModeDecision := {
  smd_mode : SettlementMode;
  smd_direct_recipients : list SettlementRecipient;
  smd_fanout_chunks : list SettlementFanoutChunk;
  smd_direct_recipient_count : Z;
  smd_fanout_recipient_count : Z;
  smd_fanout_chunk_count : Z;
  smd_direct_amount_sats : Z;
  smd_fanout_amount_sats : Z;
  smd_total_amount_sats : Z;
  smd_coinbase_settlement_output_count : Z;
  smd_reserved_coinbase_output_count : Z;
  smd_reason : string;
}.

(** [SettlementAccountKey], whose derived order is lexicographic in
    [(order_key, recipient_id, p2mr_program_hex)]. *)
Definition SettlementAccountKey : Type := string * string * string.
Definition settlement_account_key (r : SettlementRecipient) : SettlementAccountKey := payee_key r.

Definition settlement_error {A} (reason : string) : result PrismError A :=
  Err (SettlementModeSelection reason).

(** * Checks and helpers *)
Definition compact_size_len (value : Z) : Z :=
  if value <? 253 then 1 else if value <=? int_max U16 then 3
  else if value <=? int_max U32 then 5 else 9.

Definition estimated_ctv_fanout_weight_bytes (recipient_count : Z) : result PrismError Z :=
  ok_or (base ← checked_add Usize CTV_FANOUT_FIXED_WEIGHT_BYTES (compact_size_len recipient_count);
         outputs ← checked_mul Usize recipient_count CTV_FANOUT_P2MR_OUTPUT_BYTES;
         checked_add Usize base outputs)
    (SettlementModeSelection "fanout weight estimate overflowed").

Definition validate_config (config : SettlementModeConfig) : result PrismError unit :=
  if max_coinbase_settlement_outputs config =? 0
  then settlement_error "max_coinbase_settlement_outputs must be positive" else
  if MAX_COINBASE_SETTLEMENT_OUTPUTS <? max_coinbase_settlement_outputs config
  then settlement_error ("max_coinbase_settlement_outputs must be <= " +:+
                         pretty MAX_COINBASE_SETTLEMENT_OUTPUTS) else
  if MAX_DIRECT_COINBASE_OUTPUTS <? max_direct_coinbase_outputs config
  then settlement_error ("max_direct_coinbase_outputs must be <= " +:+
                         pretty MAX_DIRECT_COINBASE_OUTPUTS) else
  if max_fanout_recipients_per_transaction config =? 0
  then settlement_error "max_fanout_recipients_per_transaction must be positive" else
  if MAX_CTV_FANOUT_RECIPIENTS_PER_TRANSACTION <? max_fanout_recipients_per_transaction config
  then settlement_error ("max_fanout_recipients_per_transaction must be <= " +:+
                         pretty MAX_CTV_FANOUT_RECIPIENTS_PER_TRANSACTION) else
  weight ← estimated_ctv_fanout_weight_bytes (max_fanout_recipients_per_transaction config);
  if QBIT_TRUC_MAX_TX_WEIGHT_BYTES <? weight
  then settlement_error ("max_fanout_recipients_per_transaction exceeds qbit TRUC weight limit " +:+
                         pretty QBIT_TRUC_MAX_TX_WEIGHT_BYTES) else
  if max_coinbase_settlement_outputs config <? reserved_coinbase_outputs config
  then settlement_error "reserved_coinbase_outputs exceeds max_coinbase_settlement_outputs"
  else Ok tt.

Definition sum_amounts (recipients : list SettlementRecipient) : result PrismError Z :=
  try_fold (fun sum r => ok_or (checked_add U64 sum (sr_amount_sats r))
                           (SettlementModeSelection "settlement amount overflowed")) 0 recipients.

Fixpoint validate_recipients_from (seen : gset SettlementAccountKey)
    (recipients : list SettlementRecipient) : result PrismError unit :=
  match recipients with
  | [] => Ok tt
  | r :: rest =>
      if sr_amount_sats r =? 0
      then settlement_error ("recipient " +:+ sr_recipient_id r +:+ " amount must be positive") else
      if decide (settlement_account_key r ∈ seen)
      then settlement_error ("duplicate settlement recipient " +:+ sr_recipient_id r)
      else validate_recipients_from ({[settlement_account_key r]} ∪ seen) rest
  end.
Definition validate_recipients (recipients : list SettlementRecipient) : result PrismError unit :=
  validate_recipients_from ∅ recipients.

Definition canonical_recipient_cmp : SettlementRecipient -> SettlementRecipient -> comparison :=
  canonical_cmp.
Definition direct_priority_cmp : SettlementRecipient -> SettlementRecipient -> comparison :=
  cmp_then (cmp_rev (cmp_on sr_amount_sats Z.compare)) canonical_recipient_cmp.

#[export] Instance canonical_recipient_cmp_order : CmpOrder canonical_recipient_cmp.
Proof. unfold canonical_recipient_cmp. apply _. Qed.
#[export] Instance direct_priority_cmp_order : CmpOrder direct_priority_cmp.
Proof. unfold direct_priority_cmp. apply _. Qed.
#[global] Typeclasses Opaque canonical_recipient_cmp direct_priority_cmp.

Definition fanout_chunk_count (recipient_count max_recipients_per_chunk : Z) : result PrismError Z :=
  if recipient_count =? 0 then Ok 0 else
  spare ← arith Usize (max_recipients_per_chunk - 1);
  adjusted ← ok_or (checked_add Usize recipient_count spare)
               (SettlementModeSelection "fanout chunk count overflowed");
  Ok (adjusted / max_recipients_per_chunk).

(** One round of [for direct_count in (0..=max_direct).rev()]: the number of
    coinbase outputs with [direct_count] direct recipients besides the pinned one. *)
Definition partition_outputs (total_recipient_count : Z) (config : SettlementModeConfig)
    (pinned_direct_count direct_count : Z) : result PrismError Z :=
  fanout_recipient_count ← ok_or
    (count ← checked_sub Usize total_recipient_count pinned_direct_count;
     checked_sub Usize count direct_count)
    (SettlementModeSelection "direct recipient count exceeded total recipients");
  chunk_count ← fanout_chunk_count fanout_recipient_count
                  (max_fanout_recipients_per_transaction config);
  ok_or (count ← checked_add Usize (reserved_coinbase_outputs config) pinned_direct_count;
         count ← checked_add Usize count direct_count;
         checked_add Usize count chunk_count)
    (SettlementModeSelection "coinbase settlement output count overflowed").

Fixpoint select_direct_count_from (total_recipient_count : Z) (config : SettlementModeConfig)
    (pinned_direct_count : Z) (direct_count : nat) : result PrismError Z :=
  coinbase_outputs ← partition_outputs total_recipient_count config pinned_direct_count
                       (Z.of_nat direct_count);
  if coinbase_outputs <=? max_coinbase_settlement_outputs config then Ok (Z.of_nat direct_count)
  else match direct_count with
       | O => settlement_error ("recipient partition requires more than " +:+
                pretty (max_coinbase_settlement_outputs config) +:+ " coinbase settlement outputs")
       | S direct_count =>
           select_direct_count_from total_recipient_count config pinned_direct_count direct_count
       end.
Definition select_direct_count (total_recipient_count direct_candidate_count : Z)
    (config : SettlementModeConfig) (pinned_direct_count : Z) : result PrismError Z :=
  let max_direct := Z.min direct_candidate_count
    (saturating_sub Usize (max_direct_coinbase_outputs config) pinned_direct_count) in
  select_direct_count_from total_recipient_count config pinned_direct_count (Z.to_nat max_direct).

Definition decision_reason (direct_count fanout_count fanout_chunks direct_floor_sats
    coinbase_settlement_outputs : Z) (config : SettlementModeConfig) (pinned_direct_count : Z) : string :=
  let reason :=
    if fanout_count =? 0 then
      pretty direct_count +:+ " recipients meet the " +:+ pretty direct_floor_sats +:+
      "-sat direct floor and fit within the " +:+
      pretty (max_coinbase_settlement_outputs config) +:+ "-output coinbase settlement cap"
    else if direct_count =? 0 then
      pretty fanout_count +:+ " recipients routed to " +:+ pretty fanout_chunks +:+
      " CTV fanout chunk(s) capped at " +:+
      pretty (max_fanout_recipients_per_transaction config) +:+ " recipients each; " +:+
      pretty coinbase_settlement_outputs +:+ " coinbase settlement outputs used"
    else
      pretty direct_count +:+ " recipients paid directly by largest-liability priority; " +:+
      pretty fanout_count +:+ " recipients routed to " +:+ pretty fanout_chunks +:+
      " CTV fanout chunk(s); " +:+ pretty coinbase_settlement_outputs +:+ " of " +:+
      pretty (max_coinbase_settlement_outputs config) +:+ " coinbase settlement outputs used" in
  if pinned_direct_count =? 0 then reason
  else reason +:+ "; " +:+ pretty pinned_direct_count +:+
       " direct settlement slot(s) pinned by the coinbase output policy".

(** [slice::chunks]. *)
Fixpoint chunks_from {A} (fuel n : nat) (l : list A) : list (list A) :=
  match fuel, l with
  | _, [] | O, _ => []
  | S fuel, _ => take n l :: chunks_from fuel n (drop n l)
  end.
Definition chunks {A} (n : nat) (l : list A) : list (list A) := chunks_from (length l) n l.

Section select.
Context `{HexCrate}.

Definition with_program (r : SettlementRecipient) (program_hex : string) : SettlementRecipient :=
  {| sr_recipient_id := sr_recipient_id r; sr_order_key := sr_order_key r;
     sr_p2mr_program_hex := program_hex; sr_amount_sats := sr_amount_sats r |}.

Definition normalize_recipient (r : SettlementRecipient) : result PrismError SettlementRecipient :=
  match hex_decode (sr_p2mr_program_hex r) with
  | inl err => settlement_error ("recipient " +:+ sr_recipient_id r +:+
                                 " p2mr_program_hex must be hex: " +:+ err)
  | inr bytes =>
      if (length bytes =? P2MR_PROGRAM_LEN)%nat then Ok (with_program r (hex_encode bytes))
      else settlement_error ("recipient " +:+ sr_recipient_id r +:+ " p2mr_program_hex must be " +:+
             pretty P2MR_PROGRAM_LEN +:+ " bytes, got " +:+ pretty (length bytes))
  end.
Definition normalize_recipient_p2mr_programs (recipients : list SettlementRecipient)
  : result PrismError (list SettlementRecipient) := collect normalize_recipient recipients.

Definition resolve_pinned_direct_key (canonical : list SettlementRecipient)
    (pinned : SettlementRecipient) (config : SettlementModeConfig)
  : result PrismError SettlementAccountKey :=
  if max_direct_coinbase_outputs config =? 0
  then settlement_error "pinned direct recipient requires max_direct_coinbase_outputs >= 1" else
  normalized ← normalize_recipient pinned;
  let key := settlement_account_key normalized in
  if existsb (fun r => bool_decide (settlement_account_key r = key)) canonical then Ok key
  else settlement_error ("pinned direct recipient " +:+ sr_recipient_id pinned +:+
         " is not among the settlement recipients").

(** [pinned_direct.map(..).transpose()?]. *)
Definition resolve_pin (canonical : list SettlementRecipient)
    (pinned_direct : option SettlementRecipient) (config : SettlementModeConfig)
  : result PrismError (option SettlementAccountKey) :=
  match pinned_direct with
  | Some pinned => k ← resolve_pinned_direct_key canonical pinned config; Ok (Some k)
  | None => Ok None
  end.
Definition pinned_count (pinned_key : option SettlementAccountKey) : Z :=
  if pinned_key is Some _ then 1 else 0.

(** The account stays out of the fanout: pinned, or among the selected keys. *)
Definition settles_directly (pinned_key : option SettlementAccountKey)
    (selected_direct_keys : gset SettlementAccountKey) (r : SettlementRecipient) : bool :=
  bool_decide (pinned_key = Some (settlement_account_key r)) ||
  bool_decide (settlement_account_key r ∈ selected_direct_keys).

Definition fanout_chunk (ic : nat * list SettlementRecipient)
  : result PrismError SettlementFanoutChunk :=
  let '(chunk_index, recipients) := ic in
  amount_sats ← sum_amounts recipients;
  Ok {| sfc_chunk_index := Z.of_nat chunk_index;
        sfc_recipient_count := Z.of_nat (length recipients);
        sfc_amount_sats := amount_sats; sfc_recipients := recipients |}.

(** The recipients in canonical form and order, checked. *)
Definition canonical_recipients (recipients : list SettlementRecipient)
  : result PrismError (list SettlementRecipient) :=
  normalized ← normalize_recipient_p2mr_programs recipients;
  let canonical := sort_by canonical_recipient_cmp normalized in
  _ ← validate_recipients canonical;
  Ok canonical.

Definition direct_candidates (canonical : list SettlementRecipient) (direct_floor_sats : Z)
    (pinned_key : option SettlementAccountKey) : list SettlementRecipient :=
  sort_by direct_priority_cmp
    (filter (fun r => direct_floor_sats ≤ sr_amount_sats r ∧
                      pinned_key ≠ Some (settlement_account_key r)) canonical).

Definition select_settlement_mode_with_pinned_direct (recipients : list SettlementRecipient)
    (direct_floor_sats : Z) (config : SettlementModeConfig)
    (pinned_direct : option SettlementRecipient) : result PrismError SettlementModeDecision :=
  _ ← validate_config config;
  match recipients with [] => settlement_error "no recipients to settle" | _ =>
  canonical ← canonical_recipients recipients;
  pinned_key ← resolve_pin canonical pinned_direct config;
  let pinned_direct_count := pinned_count pinned_key in
  total_amount_sats ← sum_amounts canonical;
  let candidates := direct_candidates canonical direct_floor_sats pinned_key in
  direct_count ← select_direct_count (Z.of_nat (length recipients))
                   (Z.of_nat (length candidates)) config pinned_direct_count;
  let selected_direct_keys : gset SettlementAccountKey :=
    list_to_set (settlement_account_key <$> take (Z.to_nat direct_count) candidates) in
  let direct_recipients := filter (settles_directly pinned_key selected_direct_keys) canonical in
  let fanout_recipients :=
    filter (fun r => negb (settles_directly pinned_key selected_direct_keys r)) canonical in
  direct_amount_sats ← sum_amounts direct_recipients;
  fanout_amount_sats ← sum_amounts fanout_recipients;
  partition_sats ← ok_or (checked_add U64 direct_amount_sats fanout_amount_sats)
                     (SettlementModeSelection "settlement amount overflowed");
  if negb (partition_sats =? total_amount_sats)
  then settlement_error "settlement partition lost value" else
  if max_fanout_recipients_per_transaction config =? 0 then Panic "chunk size must be non-zero" else
  fanout_chunks ← collect fanout_chunk
    (imap pair (chunks (Z.to_nat (max_fanout_recipients_per_transaction config)) fanout_recipients));
  mode ← match direct_recipients, fanout_chunks with
         | _ :: _, [] => Ok DirectCoinbase
         | [], _ :: _ => Ok CtvFanout
         | _ :: _, _ :: _ => Ok HybridCoinbaseCtvFanout
         | [], [] => settlement_error "settlement partition is empty"
         end;
  fanout_recipient_count ← try_fold (fun s c => arith Usize (s + sfc_recipient_count c)) 0 fanout_chunks;
  coinbase_settlement_output_count ← ok_or
    (count ← checked_add Usize (reserved_coinbase_outputs config) (Z.of_nat (length direct_recipients));
     checked_add Usize count (Z.of_nat (length fanout_chunks)))
    (SettlementModeSelection "coinbase settlement output count overflowed");
  Ok {| smd_mode := mode;
        smd_direct_recipients := direct_recipients; smd_fanout_chunks := fanout_chunks;
        smd_direct_recipient_count := Z.of_nat (length direct_recipients);
        smd_fanout_recipient_count := fanout_recipient_count;
        smd_fanout_chunk_count := Z.of_nat (length fanout_chunks);
        smd_direct_amount_sats := direct_amount_sats; smd_fanout_amount_sats := fanout_amount_sats;
        smd_total_amount_sats := total_amount_sats;
        smd_coinbase_settlement_output_count := coinbase_settlement_output_count;
        smd_reserved_coinbase_output_count := reserved_coinbase_outputs config;
        smd_reason := decision_reason (Z.of_nat (length direct_recipients)) fanout_recipient_count
          (Z.of_nat (length fanout_chunks)) direct_floor_sats coinbase_settlement_output_count config
          pinned_direct_count |}
  end.

Definition select_settlement_mode (recipients : list SettlementRecipient) (direct_floor_sats : Z)
    (config : SettlementModeConfig) : result PrismError SettlementModeDecision :=
  select_settlement_mode_with_pinned_direct recipients direct_floor_sats config None.
End select.

(** * Chunks *)
Section chunks_facts.
Context {A : Type} (n : nat).
Hypothesis Hn : (0 < n)%nat.

Lemma chunks_from_spec fuel (l : list A) :
  (length l ≤ fuel)%nat →
  mjoin (chunks_from fuel n l) = l ∧
  Forall (fun c => c ≠ [] ∧ (length c ≤ n)%nat) (chunks_from fuel n l) ∧
  Z.of_nat (length (chunks_from fuel n l)) = (Z.of_nat (length l) + (Z.of_nat n - 1)) / Z.of_nat n.
Proof.
  revert l; induction fuel as [|fuel IH]; intros [|x l] Hl; try (cbn in Hl; lia).
  1,2: split_and!; [done|constructor|cbn; rewrite Z.div_small; lia].
  cbn [chunks_from]. destruct (IH (drop n (x :: l))) as (H1 & H2 & H3).
  { rewrite length_drop. cbn in *. lia. }
  split_and!.
  - etransitivity; [|apply (take_drop n (x :: l))]. rewrite <- H1 at 2. done.
  - constructor; [|done]. split; [destruct n; [lia|done]|]. rewrite length_take. lia.
  - cbn [length]. rewrite Nat2Z.inj_succ, H3, length_drop. cbn [length].
    destruct (decide (n ≤ S (length l))%nat) as [Hle|Hgt].
    + rewrite Nat2Z.inj_sub by done.
      replace (Z.of_nat (S (length l)) + (Z.of_nat n - 1))
        with (Z.of_nat (S (length l)) - Z.of_nat n + (Z.of_nat n - 1) + 1 * Z.of_nat n) by lia.
      rewrite Z.div_add by lia. lia.
    + rewrite (proj2 (Nat.sub_0_le _ _)) by lia.
      rewrite Z.div_small by lia.
      apply Z.div_unique with (Z.of_nat (S (length l)) - 1); lia.
Qed.

Lemma chunks_spec (l : list A) :
  mjoin (chunks n l) = l ∧ Forall (fun c => c ≠ [] ∧ (length c ≤ n)%nat) (chunks n l) ∧
  Z.of_nat (length (chunks n l)) = (Z.of_nat (length l) + (Z.of_nat n - 1)) / Z.of_nat n.
Proof. by apply chunks_from_spec. Qed.
End chunks_facts.

(** * Validation *)
Lemma validate_recipients_from_Ok seen l :
  is_ok (validate_recipients_from seen l) = true ↔
  Forall (fun r => sr_amount_sats r ≠ 0) l ∧ NoDup (settlement_account_key <$> l) ∧
  (∀ r, r ∈ l → settlement_account_key r ∉ seen).
Proof.
  revert seen; induction l as [|r l IH]; intros seen.
  { cbn. split; [intros _|done]. split_and!; [constructor|constructor|set_solver]. }
  cbn [validate_recipients_from]. rewrite fmap_cons, Forall_cons, NoDup_cons.
  destruct (sr_amount_sats r =? 0) eqn:Hz.
  { apply Z.eqb_eq in Hz. cbn. split; [done|naive_solver]. }
  apply Z.eqb_neq in Hz. case_decide as Hin.
  { cbn. split; [done|]. intros (_ & _ & Hs). exfalso. apply (Hs r); [set_solver|done]. }
  rewrite IH. split.
  - intros (H1 & H2 & H3). split_and!; [done..| |done|].
    + intros (r' & Heq & Hr')%list_elem_of_fmap. apply (H3 r' Hr'). rewrite Heq. set_solver.
    + intros r' [->|Hr']%elem_of_cons; [done|]. specialize (H3 r' Hr'). set_solver.
  - intros ([_ H1] & [H2 H3] & H4). split_and!; [done..|]. intros r' Hr'.
    rewrite not_elem_of_union, not_elem_of_singleton. split; [|apply H4; set_solver].
    intros Heq. apply H2. rewrite <- Heq. by apply list_elem_of_fmap_2.
Qed.

Lemma validate_recipients_Ok l :
  is_ok (validate_recipients l) = true ↔
  Forall (fun r => sr_amount_sats r ≠ 0) l ∧ NoDup (settlement_account_key <$> l).
Proof.
  unfold validate_recipients. rewrite validate_recipients_from_Ok. split; [naive_solver|].
  intros [H1 H2]. split_and!; [done..|]. set_solver.
Qed.

Record config_ok (config : SettlementModeConfig) : Prop := {
  co_outputs : 0 < max_coinbase_settlement_outputs config ≤ MAX_COINBASE_SETTLEMENT_OUTPUTS;
  co_direct : 0 ≤ max_direct_coinbase_outputs config ≤ MAX_DIRECT_COINBASE_OUTPUTS;
  co_fanout : 0 < max_fanout_recipients_per_transaction config
                ≤ MAX_CTV_FANOUT_RECIPIENTS_PER_TRANSACTION;
  co_reserved : 0 ≤ reserved_coinbase_outputs config ≤ max_coinbase_settlement_outputs config;
}.
Record wf_config (config : SettlementModeConfig) : Prop := {
  wfc_outputs : fits Usize (max_coinbase_settlement_outputs config) = true;
  wfc_direct : fits Usize (max_direct_coinbase_outputs config) = true;
  wfc_fanout : fits Usize (max_fanout_recipients_per_transaction config) = true;
  wfc_reserved : fits Usize (reserved_coinbase_outputs config) = true;
}.

Lemma fanout_weight_value n :
  0 ≤ n ≤ MAX_CTV_FANOUT_RECIPIENTS_PER_TRANSACTION →
  estimated_ctv_fanout_weight_bytes n =
    Ok (CTV_FANOUT_FIXED_WEIGHT_BYTES + compact_size_len n + n * CTV_FANOUT_P2MR_OUTPUT_BYTES) ∧
  CTV_FANOUT_FIXED_WEIGHT_BYTES + compact_size_len n + n * CTV_FANOUT_P2MR_OUTPUT_BYTES
    ≤ QBIT_TRUC_MAX_TX_WEIGHT_BYTES.
Proof.
  unfold MAX_CTV_FANOUT_RECIPIENTS_PER_TRANSACTION. intros Hn.
  assert (1 ≤ compact_size_len n ≤ 3) as Hc.
  { unfold compact_size_len. destruct (n <? 253); [lia|]. rewrite (proj2 (Z.leb_le _ _)); cbn; lia. }
  unfold estimated_ctv_fanout_weight_bytes, checked_add, checked_mul, CTV_FANOUT_FIXED_WEIGHT_BYTES,
    CTV_FANOUT_P2MR_OUTPUT_BYTES, QBIT_TRUC_MAX_TX_WEIGHT_BYTES.
  split; [|lia]. rewrite checked_fits by widths. cbn. rewrite checked_fits by widths. cbn.
  rewrite checked_fits by widths. done.
Qed.

Lemma validate_config_Ok config :
  wf_config config → is_ok (validate_config config) = true ↔ config_ok config.
Proof.
  intros [H1 H2 H3 H4]. unfold validate_config.
  destruct (max_coinbase_settlement_outputs config =? 0) eqn:E1; [split; [done|intros []; lia]|].
  destruct (_ <? max_coinbase_settlement_outputs config) eqn:E2; [split; [done|intros []; lia]|].
  destruct (_ <? max_direct_coinbase_outputs config) eqn:E3; [split; [done|intros []; lia]|].
  destruct (max_fanout_recipients_per_transaction config =? 0) eqn:E4; [split; [done|intros []; lia]|].
  destruct (_ <? max_fanout_recipients_per_transaction config) eqn:E5; [split; [done|intros []; lia]|].
  destruct (fanout_weight_value (max_fanout_recipients_per_transaction config)) as [-> Hw]; [widths|].
  cbn [mbind result_bind]. rewrite (proj2 (Z.ltb_ge _ _) Hw).
  destruct (_ <? reserved_coinbase_outputs config) eqn:E6; [split; [done|intros []; lia]|].
  split; [intros _|done]. constructor; widths.
Qed.

(** * The direct count *)
Definition chunks_needed (n m : Z) : Z := (n + (m - 1)) / m.
Definition outputs_needed (n : Z) (config : SettlementModeConfig) (pinned d : Z) : Z :=
  reserved_coinbase_outputs config + pinned + d +
  chunks_needed (n - pinned - d) (max_fanout_recipients_per_transaction config).

Section direct_count.
Context (config : SettlementModeConfig) (n pinned : Z).
Hypothesis Hconfig : config_ok config.
Hypothesis Hn : 0 ≤ n ≤ 2 ^ 63.
Hypothesis Hpinned : 0 ≤ pinned ≤ 1.

Lemma partition_outputs_value d :
  0 ≤ d → pinned + d ≤ n → partition_outputs n config pinned d = Ok (outputs_needed n config pinned d).
Proof.
  intros Hd Hle. destruct Hconfig as [Ho _ Hf Hr]. unfold partition_outputs.
  unfold MAX_COINBASE_SETTLEMENT_OUTPUTS, MAX_CTV_FANOUT_RECIPIENTS_PER_TRANSACTION in *.
  unfold checked_sub. rewrite checked_fits by widths. cbn. rewrite checked_fits by widths. cbn.
  set (m := max_fanout_recipients_per_transaction config) in *.
  assert (0 ≤ chunks_needed (n - pinned - d) m ≤ n - pinned - d) as Hc.
  { unfold chunks_needed. split; [apply Z.div_pos; lia|].
    destruct (decide (n - pinned - d = 0)) as [->|]; [rewrite Z.div_small by lia; lia|].
    apply Z.div_le_upper_bound; nia. }
  assert (fanout_chunk_count (n - pinned - d) m = Ok (chunks_needed (n - pinned - d) m)) as ->.
  { unfold fanout_chunk_count, chunks_needed in *. destruct (_ =? 0) eqn:Hz.
    - apply Z.eqb_eq in Hz. rewrite Hz. by rewrite Z.div_small by lia.
    - unfold arith, checked_add. rewrite checked_fits by widths. cbn. rewrite checked_fits by widths. done. }
  cbn [mbind result_bind]. unfold checked_add, outputs_needed. fold m.
  rewrite checked_fits by widths. cbn. rewrite checked_fits by widths. cbn. rewrite checked_fits by widths. done.
Qed.

Lemma select_direct_count_from_spec k :
  pinned + Z.of_nat k ≤ n →
  not_panic (select_direct_count_from n config pinned k) ∧
  (is_ok (select_direct_count_from n config pinned k) = true ↔
   ∃ d, 0 ≤ d ≤ Z.of_nat k ∧ outputs_needed n config pinned d ≤ max_coinbase_settlement_outputs config) ∧
  ∀ d, select_direct_count_from n config pinned k = Ok d →
    0 ≤ d ≤ Z.of_nat k ∧ outputs_needed n config pinned d ≤ max_coinbase_settlement_outputs config ∧
    ∀ d', d < d' ≤ Z.of_nat k → max_coinbase_settlement_outputs config < outputs_needed n config pinned d'.
Proof.
  induction k as [|k IH]; intros Hk; cbn [select_direct_count_from];
    rewrite partition_outputs_value by lia; cbn [mbind result_bind];
    destruct (_ <=? _) eqn:Ho; (apply Z.leb_le in Ho || apply Z.leb_gt in Ho).
  - split_and!; [done|split; [intros _; by exists 0|done]|]. intros d [= <-]. split_and!; [lia..|done|intros; lia].
  - split_and!; [done| |done]. split; [done|]. intros (d & Hd & Hle).
    assert (d = 0) as -> by lia. change (Z.of_nat 0) with 0 in Ho. lia.
  - split_and!; [done|split; [intros _; exists (Z.of_nat (S k)); split; [lia|done]|done]|].
    intros d [= <-]. split_and!; [lia..|done|intros; lia].
  - destruct IH as (I1 & I2 & I3); [lia|]. split_and!; [done| |].
    + rewrite I2. split; intros (d & Hd & Hle); exists d; (split; [|done]); [lia|].
      assert (d ≠ Z.of_nat (S k)) by (intros ->; lia). lia.
    + intros d Hd. destruct (I3 d Hd) as (J1 & J2 & J3). split_and!; [lia..|done|].
      intros d' Hd'. destruct (decide (d' = Z.of_nat (S k))) as [->|]; [lia|]. apply J3. lia.
Qed.
End direct_count.

(** * Canonical recipients *)
Section canonical.
Context `{HexCrate}.

Lemma normalize_recipient_Ok r r' :
  normalize_recipient r = Ok r' →
  ∃ program, hex_decode (sr_p2mr_program_hex r) = inr program ∧ length program = P2MR_PROGRAM_LEN ∧
    r' = with_program r (hex_encode program).
Proof.
  unfold normalize_recipient. destruct (hex_decode _) as [e|bs]; [done|].
  destruct (_ =? _)%nat eqn:Hl; [|done]. intros [= <-]. apply Nat.eqb_eq in Hl. eauto.
Qed.

Record canonical_ok (recipients canonical : list SettlementRecipient) : Prop := {
  ca_normalized : ∃ normalized, normalize_recipient_p2mr_programs recipients = Ok normalized ∧
    canonical ≡ₚ normalized;
  ca_sorted : StronglySorted (cmp_le canonical_recipient_cmp) canonical;
  ca_keys : NoDup (settlement_account_key <$> canonical);
  ca_nonzero : Forall (fun r => sr_amount_sats r ≠ 0) canonical;
  ca_length : length canonical = length recipients;
  ca_amounts : sr_amount_sats <$> canonical ≡ₚ sr_amount_sats <$> recipients;
}.

Lemma canonical_recipients_Ok recipients canonical :
  canonical_recipients recipients = Ok canonical → canonical_ok recipients canonical.
Proof.
  intros (normalized & Hn & Hc)%bind_Ok. apply bind_Ok in Hc as ([] & Hv & [= <-]).
  assert (is_ok (validate_recipients (sort_by canonical_recipient_cmp normalized)) = true) as Hok
    by (by rewrite Hv).
  apply validate_recipients_Ok in Hok as [Hnz Hnd].
  pose proof (sort_by_perm canonical_recipient_cmp normalized) as Hp.
  assert (sr_amount_sats <$> normalized = sr_amount_sats <$> recipients) as Ham.
  { apply collect_Forall2 in Hn. clear -Hn. induction Hn as [|r r' l l' Hr _ IH]; [done|].
    apply normalize_recipient_Ok in Hr as (? & _ & _ & ->). cbn. by f_equal. }
  constructor; try done.
  - by exists normalized.
  - apply (sort_by_sorted canonical_recipient_cmp).
  - apply (f_equal length) in Ham. rewrite !length_fmap in Ham. by rewrite (Permutation_length Hp).
  - rewrite Hp. by rewrite Ham.
Qed.
End canonical.

Lemma sum_amounts_Ok l s : sum_amounts l = Ok s → s = sum_of sr_amount_sats l ∧ fits U64 s = true.
Proof.
  intros Hs. split; [|by eapply try_sum_fits; [|exact Hs]].
  apply try_sum_Ok in Hs. lia.
Qed.
Lemma sum_amounts_total l :
  Forall (fun r => 0 ≤ sr_amount_sats r) l → fits U64 (sum_of sr_amount_sats l) = true →
  sum_amounts l = Ok (sum_of sr_amount_sats l).
Proof. intros Hl Hf. unfold sum_amounts. rewrite (try_sum_total U64); [done|done|done|by rewrite <- Forall_forall|done]. Qed.

(** * The partition *)
Section partition.
Context (canonical : list SettlementRecipient) (floor : Z) (pk : option SettlementAccountKey) (d : nat).
Hypothesis Hkeys : NoDup (settlement_account_key <$> canonical).
Hypothesis Hpk : ∀ k, pk = Some k → ∃ r, r ∈ canonical ∧ settlement_account_key r = k.
Let cands := direct_candidates canonical floor pk.
Let keys : gset SettlementAccountKey := list_to_set (settlement_account_key <$> take d cands).
Let direct := filter (settles_directly pk keys) canonical.
Let fanout := filter (fun r => negb (settles_directly pk keys r)) canonical.

Lemma key_inj r1 r2 :
  r1 ∈ canonical → r2 ∈ canonical → settlement_account_key r1 = settlement_account_key r2 → r1 = r2.
Proof.
  intros (i & Hi)%list_elem_of_lookup (j & Hj)%list_elem_of_lookup Heq.
  assert (i = j) as ->; [|congruence].
  eapply NoDup_lookup; [exact Hkeys| |]; rewrite list_lookup_fmap, ?Hi, ?Hj; [done|]. cbn. by rewrite Heq.
Qed.

Lemma cands_elem r :
  r ∈ cands ↔ r ∈ canonical ∧ floor ≤ sr_amount_sats r ∧ pk ≠ Some (settlement_account_key r).
Proof. unfold cands, direct_candidates. rewrite elem_of_sort_by, list_elem_of_filter. tauto. Qed.

Lemma cands_NoDup : NoDup cands.
Proof.
  unfold cands, direct_candidates. rewrite sort_by_perm. apply NoDup_filter. by eapply NoDup_fmap_1.
Qed.

Lemma settles_iff r :
  r ∈ canonical →
  settles_directly pk keys r = true ↔ pk = Some (settlement_account_key r) ∨ r ∈ take d cands.
Proof.
  intros Hr. unfold settles_directly. rewrite orb_true_iff, !bool_decide_eq_true.
  apply or_iff_compat_l. unfold keys. rewrite elem_of_list_to_set, list_elem_of_fmap. split; [|eauto].
  intros (r' & Heq & Hr'). assert (r = r') as ->; [|done].
  apply key_inj; [done| |done]. by apply elem_of_take_sub, cands_elem in Hr' as [? _].
Qed.

Lemma partition_perm : direct ++ fanout ≡ₚ canonical.
Proof.
  unfold direct, fanout. generalize keys. clear. intros ks.
  induction canonical as [|r l IH]; [done|]. rewrite !filter_cons.
  destruct (settles_directly pk ks r); repeat case_decide; try done; cbn.
  - by apply perm_skip.
  - etransitivity; [symmetry; apply Permutation_middle|]. by apply perm_skip.
Qed.

Lemma direct_elem r :
  r ∈ direct ↔ r ∈ canonical ∧ (pk = Some (settlement_account_key r) ∨ r ∈ take d cands).
Proof.
  unfold direct. rewrite list_elem_of_filter. split.
  - intros [Hs Hr]. split; [done|]. apply settles_iff; [done|]. by apply Is_true_true.
  - intros [Hr Hs]. split; [|done]. apply Is_true_true. by apply settles_iff.
Qed.

Lemma fanout_elem r :
  r ∈ fanout ↔ r ∈ canonical ∧ pk ≠ Some (settlement_account_key r) ∧ (r ∉ take d cands).
Proof.
  unfold fanout. rewrite list_elem_of_filter. split.
  - intros [Hs Hr]. split; [done|]. apply negb_prop_elim in Hs. rewrite Is_true_true in Hs.
    rewrite settles_iff in Hs by done. tauto.
  - intros [Hr Hs]. split; [|done]. apply negb_prop_intro. rewrite Is_true_true, settles_iff by done. tauto.
Qed.

(** The recipients paid directly: the pinned one and the first [d] candidates. *)
Lemma direct_perm :
  ∃ pinned, direct ≡ₚ pinned ++ take d cands ∧ Z.of_nat (length pinned) = pinned_count pk.
Proof.
  assert (NoDup direct) as Hd by (apply NoDup_filter; by eapply NoDup_fmap_1).
  assert (NoDup (take d cands)) as Ht.
  { pose proof cands_NoDup as Hn. rewrite <- (take_drop d cands) in Hn. by apply NoDup_app in Hn as [? _]. }
  assert (pk = None ∨ ∃ k, pk = Some k) as [Hk|[k Hk]] by (destruct pk; eauto).
  - exists []. rewrite Hk. split; [|done]. apply NoDup_Permutation; [done..|].
    intros x. rewrite direct_elem. cbn. split.
    + intros [_ [Heq|?]]; [by rewrite Hk in Heq|done].
    + intros Hx. split; [|by right]. by apply elem_of_take_sub, cands_elem in Hx as [? _].
  - destruct (Hpk k Hk) as (r & Hr & <-). exists [r]. split; [|by rewrite Hk].
    apply NoDup_Permutation; [done| |].
    + cbn. apply NoDup_cons. split; [|done]. intros Hin%elem_of_take_sub. by apply cands_elem in Hin as (_ & _ & Hne).
    + intros x. rewrite direct_elem. cbn. rewrite elem_of_cons. split.
      * intros [Hx [Heq|?]]; [left|by right]. apply key_inj; congruence.
      * intros [->|Hx]; [split; [done|]; by left|]. split; [|by right].
        by apply elem_of_take_sub, cands_elem in Hx as [? _].
Qed.

Lemma direct_length :
  (d ≤ length cands)%nat → Z.of_nat (length direct) = pinned_count pk + Z.of_nat d.
Proof.
  intros Hle. destruct direct_perm as (pinned & Hp & Hl). rewrite Hp, length_app, length_take. lia.
Qed.

(** Whoever is left to the fanout although above the floor is owed no more
    than anyone selected. *)
Lemma direct_priority r f :
  r ∈ direct → pk ≠ Some (settlement_account_key r) → f ∈ fanout → floor ≤ sr_amount_sats f →
  floor ≤ sr_amount_sats r ∧ sr_amount_sats f ≤ sr_amount_sats r.
Proof.
  intros [Hr Hd]%direct_elem Hnp (Hf & Hfp & Hft)%fanout_elem Hfl.
  destruct Hd as [?|Hd]; [done|].
  assert (f ∈ cands) as Hfc by (by apply cands_elem).
  pose proof (elem_of_take_sub _ _ _ Hd) as (_ & ? & _)%cands_elem. split; [done|].
  pose proof (sort_by_sorted direct_priority_cmp (filter (fun r => floor ≤ sr_amount_sats r ∧
    pk ≠ Some (settlement_account_key r)) canonical)) as Hs.
  change (sort_by direct_priority_cmp _) with cands in Hs.
  rewrite <- (take_drop d cands) in Hfc. apply elem_of_app in Hfc as [?|Hfd]; [done|].
  rewrite <- (take_drop d cands) in Hs.
  pose proof (StronglySorted_app_1_elem_of _ _ _ _ _ Hs Hd Hfd) as Hcmp.
  unfold cmp_le, direct_priority_cmp, cmp_then, cmp_rev, cmp_on, then_with in Hcmp.
  destruct (Z.compare_spec (sr_amount_sats f) (sr_amount_sats r)); [lia|lia|done].
Qed.
End partition.

(** * The decision *)
Definition chunk_of (ic : nat * list SettlementRecipient) : SettlementFanoutChunk :=
  {| sfc_chunk_index := Z.of_nat ic.1; sfc_recipient_count := Z.of_nat (length ic.2);
     sfc_amount_sats := sum_of sr_amount_sats ic.2; sfc_recipients := ic.2 |}.

Lemma fanout_chunks_Ok n l :
  (0 < n)%nat → Forall (fun r => 0 ≤ sr_amount_sats r) l → fits U64 (sum_of sr_amount_sats l) = true →
  collect fanout_chunk (imap pair (chunks n l)) = Ok (chunk_of <$> imap pair (chunks n l)).
Proof.
  intros Hn Hl Hf. destruct (chunks_spec n Hn l) as (Hj & _ & _). apply collect_fmap.
  intros [i c] (j & c' & [= -> ->] & Hc)%elem_of_lookup_imap. unfold fanout_chunk.
  apply list_elem_of_lookup_2 in Hc. rewrite Forall_forall in Hl.
  assert (∀ c r, c ∈ chunks n l → r ∈ c → 0 ≤ sr_amount_sats r) as Hnn.
  { intros c r Hin Hr. apply Hl. rewrite <- Hj. apply list_elem_of_join. eauto. }
  rewrite sum_amounts_total; [done|apply Forall_forall; intros; by eapply Hnn|].
  rewrite <- Hj, sum_of_mjoin in Hf.
  assert (0 ≤ sum_of sr_amount_sats c') by (apply sum_of_nonneg; intros; by eapply Hnn).
  assert (sum_of sr_amount_sats c' ≤ sum_of (sum_of sr_amount_sats) (chunks n l)).
  { apply sum_of_elem_le; [|done]. intros c Hin. apply sum_of_nonneg. intros; by eapply Hnn. }
  widths.
Qed.

Record wf_recipients (recipients : list SettlementRecipient) : Prop := {
  wr_amounts : Forall (fun r => fits U64 (sr_amount_sats r) = true) recipients;
  wr_length : Z.of_nat (length recipients) ≤ 2 ^ 63;
}.

Section decision.
Context `{HexCrate} (recipients canonical : list SettlementRecipient) (floor : Z).
Context (config : SettlementModeConfig) (pin : option SettlementRecipient).
Context (pk : option SettlementAccountKey).
Hypothesis Hwf : wf_recipients recipients.
Hypothesis Hconfig : config_ok config.
Hypothesis Hne : recipients ≠ [].
Hypothesis Hcan : canonical_recipients recipients = Ok canonical.
Hypothesis Hpin : resolve_pin canonical pin config = Ok pk.
Let cands := direct_candidates canonical floor pk.
Let max_direct := Z.min (Z.of_nat (length cands))
  (saturating_sub Usize (max_direct_coinbase_outputs config) (pinned_count pk)).
Let n := Z.of_nat (length recipients).

Definition direct_of (d : Z) : list SettlementRecipient :=
  filter (settles_directly pk (list_to_set (settlement_account_key <$> take (Z.to_nat d) cands))) canonical.
Definition fanout_of (d : Z) : list SettlementRecipient :=
  filter (fun r => negb (settles_directly pk
    (list_to_set (settlement_account_key <$> take (Z.to_nat d) cands)) r)) canonical.
Definition chunks_of (d : Z) : list (list SettlementRecipient) :=
  chunks (Z.to_nat (max_fanout_recipients_per_transaction config)) (fanout_of d).

Lemma resolved_pin k : pk = Some k → ∃ r, r ∈ canonical ∧ settlement_account_key r = k.
Proof.
  intros ->. unfold resolve_pin in Hpin. destruct pin as [p|]; [|done].
  apply bind_Ok in Hpin as (k' & Hk & [= ->]). unfold resolve_pinned_direct_key, settlement_error in Hk. res_inv.
  match goal with H : existsb _ _ = true |- _ => apply existsb_exists in H as (r & Hr & Heq) end.
  apply bool_decide_eq_true in Heq. exists r. split; [by apply list_elem_of_In|done].
Qed.

Lemma pinned_bounds : 0 ≤ pinned_count pk ≤ 1 ∧ pinned_count pk ≤ n.
Proof.
  unfold n, pinned_count. destruct pk; [|lia]. destruct recipients; [done|]. cbn [length]. lia.
Qed.

Lemma max_direct_bounds : 0 ≤ max_direct ≤ Z.of_nat (length cands) ∧ pinned_count pk + max_direct ≤ n.
Proof.
  pose proof (canonical_recipients_Ok _ _ Hcan) as Hc.
  assert (Z.of_nat (length cands) + pinned_count pk ≤ n).
  { destruct (direct_perm canonical floor pk (length cands) (ca_keys _ _ Hc) resolved_pin) as (p & Hp & Hl).
    fold cands in Hp. rewrite firstn_all in Hp. unfold n. rewrite <- (ca_length _ _ Hc), <- Hl.
    rewrite <- Nat2Z.inj_add, Nat.add_comm, <- length_app, <- Hp. apply inj_le, length_filter. }
  unfold max_direct, saturating_sub, saturating. pose proof (co_direct _ Hconfig).
  unfold MAX_DIRECT_COINBASE_OUTPUTS, MAX_COINBASE_SETTLEMENT_OUTPUTS in *. unfold Usize. cbn [int_min int_max]. lia.
Qed.

Lemma direct_count_spec :
  not_panic (select_direct_count n (Z.of_nat (length cands)) config (pinned_count pk)) ∧
  (is_ok (select_direct_count n (Z.of_nat (length cands)) config (pinned_count pk)) = true ↔
   ∃ d, 0 ≤ d ≤ max_direct ∧
     outputs_needed n config (pinned_count pk) d ≤ max_coinbase_settlement_outputs config) ∧
  ∀ d, select_direct_count n (Z.of_nat (length cands)) config (pinned_count pk) = Ok d →
    0 ≤ d ≤ max_direct ∧
    outputs_needed n config (pinned_count pk) d ≤ max_coinbase_settlement_outputs config ∧
    ∀ d', d < d' ≤ max_direct →
      max_coinbase_settlement_outputs config < outputs_needed n config (pinned_count pk) d'.
Proof.
  pose proof max_direct_bounds as Hm. pose proof pinned_bounds as Hp. pose proof (wr_length _ Hwf).
  pose proof (select_direct_count_from_spec config n (pinned_count pk) Hconfig ltac:(unfold n; lia)
    (proj1 Hp) (Z.to_nat max_direct) ltac:(lia)) as Hs.
  rewrite Z2Nat.id in Hs by lia. exact Hs.
Qed.

Lemma canonical_nonneg : Forall (fun r => 0 ≤ sr_amount_sats r) canonical.
Proof.
  pose proof (ca_amounts _ _ (canonical_recipients_Ok _ _ Hcan)) as Hp.
  assert (Forall (Z.le 0) (sr_amount_sats <$> canonical)) as HF; [|by rewrite Forall_fmap in HF].
  rewrite Hp. apply Forall_fmap. eapply Forall_impl; [apply (wr_amounts _ Hwf)|]. intros r Hr. cbn. widths.
Qed.

Lemma canonical_total : sum_of sr_amount_sats canonical = sum_of sr_amount_sats recipients.
Proof.
  pose proof (ca_amounts _ _ (canonical_recipients_Ok _ _ Hcan)) as Hp.
  unfold sum_of. rewrite <- (list_fmap_id (sr_amount_sats <$> canonical)),
    <- (list_fmap_id (sr_amount_sats <$> recipients)). by apply (sum_of_perm id).
Qed.

(** What a decision with [d] direct recipients besides the pinned one holds. *)
Record decision_of (d : Z) (decision : SettlementModeDecision) : Prop := {
  do_direct : smd_direct_recipients decision = direct_of d;
  do_chunks : smd_fanout_chunks decision = chunk_of <$> imap pair (chunks_of d);
  do_direct_count : smd_direct_recipient_count decision = Z.of_nat (length (direct_of d));
  do_fanout_count : smd_fanout_recipient_count decision = Z.of_nat (length (fanout_of d));
  do_chunk_count : smd_fanout_chunk_count decision = Z.of_nat (length (chunks_of d));
  do_direct_amount : smd_direct_amount_sats decision = sum_of sr_amount_sats (direct_of d);
  do_fanout_amount : smd_fanout_amount_sats decision = sum_of sr_amount_sats (fanout_of d);
  do_total : smd_total_amount_sats decision = sum_of sr_amount_sats recipients;
  do_outputs : smd_coinbase_settlement_output_count decision =
    outputs_needed n config (pinned_count pk) d;
  do_reserved : smd_reserved_coinbase_output_count decision = reserved_coinbase_outputs config;
  do_mode : smd_mode decision = match direct_of d, fanout_of d with
    | _, [] => DirectCoinbase | [], _ => CtvFanout | _, _ => HybridCoinbaseCtvFanout end;
}.

Section one_count.
Context (d : Z).
Hypothesis Hd : 0 ≤ d ≤ max_direct.
Hypothesis Hbudget : outputs_needed n config (pinned_count pk) d ≤ max_coinbase_settlement_outputs config.

Lemma partition_sizes :
  Z.of_nat (length (direct_of d)) = pinned_count pk + d ∧
  Z.of_nat (length (fanout_of d)) = n - pinned_count pk - d ∧
  Z.of_nat (length (chunks_of d)) =
    chunks_needed (n - pinned_count pk - d) (max_fanout_recipients_per_transaction config).
Proof.
  pose proof (canonical_recipients_Ok _ _ Hcan) as Hc. pose proof max_direct_bounds as Hm.
  pose proof (co_fanout _ Hconfig).
  assert (Z.of_nat (length (direct_of d)) = pinned_count pk + d) as H1.
  { transitivity (pinned_count pk + Z.of_nat (Z.to_nat d)); [|lia].
    apply (direct_length canonical floor pk (Z.to_nat d) (ca_keys _ _ Hc) resolved_pin). fold cands. lia. }
  assert (Z.of_nat (length (fanout_of d)) = n - pinned_count pk - d) as H2.
  { pose proof (Permutation_length (partition_perm canonical floor pk (Z.to_nat d))) as Hp.
    fold cands in Hp. rewrite length_app in Hp. fold (direct_of d) (fanout_of d) in Hp.
    rewrite (ca_length _ _ Hc) in Hp. unfold n. lia. }
  split_and!; [done..|]. unfold chunks_of.
  destruct (chunks_spec (Z.to_nat (max_fanout_recipients_per_transaction config)) ltac:(lia) (fanout_of d))
    as (_ & _ & ->).
  rewrite H2, Z2Nat.id by lia. done.
Qed.

Lemma fanout_nil : chunks_of d = [] ↔ fanout_of d = [].
Proof.
  pose proof (co_fanout _ Hconfig). unfold chunks_of. split; [|by intros ->].
  intros Hn. destruct (chunks_spec (Z.to_nat (max_fanout_recipients_per_transaction config)) ltac:(lia) (fanout_of d))
    as (Hj & _). by rewrite Hn in Hj.
Qed.

Lemma decision_total :
  fits U64 (sum_of sr_amount_sats recipients) = true →
  select_direct_count n (Z.of_nat (length cands)) config (pinned_count pk) = Ok d →
  validate_config config = Ok tt →
  ∃ decision, select_settlement_mode_with_pinned_direct recipients floor config pin = Ok decision ∧
    decision_of d decision.
Proof.
  intros Hfit Hsel Hval. destruct partition_sizes as (Hs1 & Hs2 & Hs3).
  pose proof canonical_nonneg as Hnn. pose proof canonical_total as Htot.
  pose proof (wr_length _ Hwf). pose proof (co_fanout _ Hconfig). pose proof pinned_bounds as Hpb.
  assert (sum_of sr_amount_sats (direct_of d) + sum_of sr_amount_sats (fanout_of d)
          = sum_of sr_amount_sats recipients) as Hsum.
  { rewrite <- Htot, <- sum_of_app. apply sum_of_perm, partition_perm. }
  assert (Forall (fun r => 0 ≤ sr_amount_sats r) (direct_of d) ∧
          Forall (fun r => 0 ≤ sr_amount_sats r) (fanout_of d)) as [Hn1 Hn2].
  { split; apply Forall_forall; intros r [_ Hr]%list_elem_of_filter; rewrite Forall_forall in Hnn; by apply Hnn. }
  assert (0 ≤ sum_of sr_amount_sats (direct_of d)) by (apply sum_of_nonneg; by rewrite <- Forall_forall).
  assert (0 ≤ sum_of sr_amount_sats (fanout_of d)) by (apply sum_of_nonneg; by rewrite <- Forall_forall).
  unfold select_settlement_mode_with_pinned_direct. rewrite Hval. cbn [mbind result_bind].
  rewrite (match_nonempty recipients _ _ Hne). rewrite Hcan. cbn [mbind result_bind].
  rewrite Hpin. cbn [mbind result_bind]. rewrite sum_amounts_total by (done || by rewrite Htot).
  cbn [mbind result_bind]. fold cands n. rewrite Hsel. cbn [mbind result_bind].
  fold (direct_of d) (fanout_of d).
  rewrite sum_amounts_total by (done || widths). cbn [mbind result_bind].
  rewrite sum_amounts_total by (done || widths). cbn [mbind result_bind].
  assert (checked_add U64 (sum_of sr_amount_sats (direct_of d)) (sum_of sr_amount_sats (fanout_of d))
          = Some (sum_of sr_amount_sats recipients)) as ->
    by (unfold checked_add; rewrite Hsum; by apply checked_fits).
  cbn [ok_or mbind result_bind]. rewrite Htot, Z.eqb_refl. cbn [negb].
  rewrite (proj2 (Z.eqb_neq _ 0)) by lia.
  rewrite fanout_chunks_Ok by (lia || done || widths). fold (chunks_of d). cbn [mbind result_bind].
  set (cs := chunk_of <$> imap pair (chunks_of d)).
  assert (length cs = length (chunks_of d)) as Hlen by (unfold cs; by rewrite length_fmap, length_imap).
  set (mode := match direct_of d, fanout_of d with
    | _, [] => DirectCoinbase | [], _ => CtvFanout | _, _ => HybridCoinbaseCtvFanout end).
  match goal with |- context [match direct_of d with [] => ?x | _ :: _ => ?y end] =>
    assert (match direct_of d with [] => x | _ :: _ => y end = Ok mode) as -> end.
  { assert (0 < n) by (unfold n; destruct recipients; [done|cbn [length]; lia]).
    pose proof fanout_nil as Hnil. unfold mode. destruct (direct_of d), (fanout_of d), cs, (chunks_of d);
      cbn in Hlen, Hs1, Hs2; try done; try (exfalso; destruct Hnil; naive_solver); lia. }
  cbn [mbind result_bind].
  assert (sum_of sfc_recipient_count cs = Z.of_nat (length (fanout_of d))) as Hcount.
  { unfold cs. rewrite sum_of_fmap.
    assert (mjoin (chunks_of d) = fanout_of d) as <- by (by apply chunks_spec; lia).
    rewrite <- length_sum. transitivity (sum_of (fun l => Z.of_nat (length l)) (imap pair (chunks_of d)).*2).
    - by rewrite sum_of_fmap.
    - by rewrite imap_pair_snd. }
  rewrite try_arith_total; [|done|done|..].
  2:{ intros c (ic & -> & _)%list_elem_of_fmap. cbn. lia. }
  2:{ rewrite Hcount. widths. }
  rewrite Hcount, Z.add_0_l. cbn [mbind result_bind]. pose proof (co_outputs _ Hconfig). pose proof (co_reserved _ Hconfig).
  unfold MAX_COINBASE_SETTLEMENT_OUTPUTS, outputs_needed in *. rewrite Hlen, Hs1, Hs3.
  unfold checked_add. rewrite checked_fits by widths. cbn [mbind option_bind].
  rewrite checked_fits by widths. cbn [ok_or mbind result_bind].
  eexists. split; [done|]. constructor; cbn; rewrite ?Hlen, ?Hs1; unfold outputs_needed; try done; try lia.
Qed.
End one_count.
End decision.

Section theorems.
Context `{HexCrate}.
Implicit Types (recipients : list SettlementRecipient) (config : SettlementModeConfig).

(** How many candidates may be paid directly at most. *)
Definition direct_limit (canonical : list SettlementRecipient) (floor : Z)
    (pk : option SettlementAccountKey) config : Z :=
  Z.min (Z.of_nat (length (direct_candidates canonical floor pk)))
    (saturating_sub Usize (max_direct_coinbase_outputs config) (pinned_count pk)).

(** The inputs a settlement exists for. *)
Record settleable recipients (floor : Z) config (pin : option SettlementRecipient)
    (canonical : list SettlementRecipient) (pk : option SettlementAccountKey) (d : Z) : Prop := {
  se_config : config_ok config;
  se_nonempty : recipients ≠ [];
  se_canonical : canonical_recipients recipients = Ok canonical;
  se_pin : resolve_pin canonical pin config = Ok pk;
  se_total : fits U64 (sum_of sr_amount_sats recipients) = true;
  se_count : 0 ≤ d ≤ direct_limit canonical floor pk config;
  se_budget : outputs_needed (Z.of_nat (length recipients)) config (pinned_count pk) d
                ≤ max_coinbase_settlement_outputs config;
}.

Lemma select_inv recipients floor config pin decision :
  wf_recipients recipients → wf_config config →
  select_settlement_mode_with_pinned_direct recipients floor config pin = Ok decision →
  ∃ canonical pk d, settleable recipients floor config pin canonical pk d ∧
    (∀ d', d < d' ≤ direct_limit canonical floor pk config → max_coinbase_settlement_outputs config <
       outputs_needed (Z.of_nat (length recipients)) config (pinned_count pk) d') ∧
    decision_of recipients canonical floor config pk d decision.
Proof.
  intros Hwf Hwc Hs. pose proof Hs as Hs'. unfold select_settlement_mode_with_pinned_direct in Hs'.
  apply bind_Ok in Hs' as ([] & Hv & Hs').
  assert (config_ok config) as Hc by (apply validate_config_Ok; [done|by rewrite Hv]).
  destruct (decide (recipients = [])) as [->|Hne]; [done|]. rewrite (match_nonempty recipients _ _ Hne) in Hs'.
  apply bind_Ok in Hs' as (canonical & Hcan & Hs'). apply bind_Ok in Hs' as (pk & Hpin & Hs').
  apply bind_Ok in Hs' as (total & Htot & Hs'). apply sum_amounts_Ok in Htot as [-> Hfit].
  rewrite (canonical_total recipients canonical Hcan) in Hfit.
  apply bind_Ok in Hs' as (d & Hd & _).
  destruct (direct_count_spec recipients canonical floor config pin pk Hwf Hc Hne Hcan Hpin) as (_ & _ & Hspec).
  destruct (Hspec d Hd) as (Hd1 & Hd2 & Hd3).
  destruct (decision_total recipients canonical floor config pin pk Hwf Hc Hne Hcan Hpin d Hd1 Hd2 Hfit Hd Hv)
    as (decision' & Hdec & Hof).
  rewrite Hdec in Hs. apply Ok_inj in Hs as ->. exists canonical, pk, d. done.
Qed.

Lemma settleable_total recipients floor config pin canonical pk d :
  wf_recipients recipients → wf_config config → settleable recipients floor config pin canonical pk d →
  is_ok (select_settlement_mode_with_pinned_direct recipients floor config pin) = true.
Proof.
  intros Hwf Hwc [Hc Hne Hcan Hpin Hfit Hd Hb].
  destruct (direct_count_spec recipients canonical floor config pin pk Hwf Hc Hne Hcan Hpin) as (_ & Hok & Hspec).
  assert (is_ok (select_direct_count (Z.of_nat (length recipients))
    (Z.of_nat (length (direct_candidates canonical floor pk))) config (pinned_count pk)) = true) as [d' Hd']%is_ok_ex
    by (apply Hok; by exists d).
  destruct (Hspec d' Hd') as (Hd1 & Hd2 & _).
  assert (is_ok (validate_config config) = true) as [[] Hv]%is_ok_ex by (by apply validate_config_Ok).
  destruct (decision_total recipients canonical floor config pin pk Hwf Hc Hne Hcan Hpin d' Hd1 Hd2 Hfit Hd' Hv)
    as (decision & -> & _). done.
Qed.

Lemma settlement_error_not_panic {A} reason : not_panic (@settlement_error A reason).
Proof. done. Qed.
#[local] Hint Resolve settlement_error_not_panic : outcome.

Lemma validate_config_not_panic config : not_panic (validate_config config).
Proof. unfold validate_config, estimated_ctv_fanout_weight_bytes. calm. Qed.
Lemma normalize_not_panic r : not_panic (normalize_recipient r).
Proof. unfold normalize_recipient. destruct (hex_decode _); calm. Qed.
Lemma validate_recipients_not_panic seen l : not_panic (validate_recipients_from seen l).
Proof.
  revert seen; induction l as [|r l IH]; intros seen; [done|]. cbn [validate_recipients_from].
  destruct (_ =? 0); [calm|]. case_decide; [calm|apply IH].
Qed.
Lemma sum_amounts_not_panic l : not_panic (sum_amounts l).
Proof. apply not_panic_try_fold. auto with outcome. Qed.
#[local] Hint Resolve validate_config_not_panic normalize_not_panic validate_recipients_not_panic
  sum_amounts_not_panic : outcome.

Lemma canonical_not_panic recipients : not_panic (canonical_recipients recipients).
Proof.
  unfold canonical_recipients, normalize_recipient_p2mr_programs, validate_recipients.
  apply not_panic_bind; [apply not_panic_collect; auto with outcome|]. intros. calm.
Qed.
Lemma resolve_pin_not_panic canonical pin config : not_panic (resolve_pin canonical pin config).
Proof. unfold resolve_pin, resolve_pinned_direct_key. destruct pin; calm. Qed.

Lemma select_not_panic recipients floor config pin :
  wf_recipients recipients → wf_config config →
  not_panic (select_settlement_mode_with_pinned_direct recipients floor config pin).
Proof.
  intros Hwf Hwc m Hm. pose proof Hm as Hm'. unfold select_settlement_mode_with_pinned_direct in Hm'.
  pose proof (validate_config_not_panic config) as Hnp.
  destruct (validate_config config) as [[]|e|m'] eqn:Hv; cbn [mbind result_bind] in Hm'; [|done|by destruct (Hnp m')].
  assert (config_ok config) as Hc by (apply validate_config_Ok; [done|by rewrite Hv]).
  destruct (decide (recipients = [])) as [->|Hne]; [done|]. rewrite (match_nonempty recipients _ _ Hne) in Hm'.
  pose proof (canonical_not_panic recipients) as Hnp1.
  destruct (canonical_recipients recipients) as [canonical|e|m'] eqn:Hcan; cbn [mbind result_bind] in Hm';
    [|done|by destruct (Hnp1 m')].
  pose proof (resolve_pin_not_panic canonical pin config) as Hnp2.
  destruct (resolve_pin canonical pin config) as [pk|e|m'] eqn:Hpin; cbn [mbind result_bind] in Hm';
    [|done|by destruct (Hnp2 m')].
  pose proof (sum_amounts_not_panic canonical) as Hnp3.
  destruct (sum_amounts canonical) as [total|e|m'] eqn:Htot; cbn [mbind result_bind] in Hm';
    [|done|by destruct (Hnp3 m')].
  apply sum_amounts_Ok in Htot as [-> Hfit]. rewrite (canonical_total recipients canonical Hcan) in Hfit.
  destruct (direct_count_spec recipients canonical floor config pin pk Hwf Hc Hne Hcan Hpin) as (Hnp4 & _ & Hspec).
  destruct (select_direct_count _ _ _ _) as [d|e|m'] eqn:Hd in Hm'; cbn [mbind result_bind] in Hm';
    [|done|by destruct (Hnp4 m')].
  destruct (Hspec d Hd) as (Hd1 & Hd2 & _).
  destruct (decision_total recipients canonical floor config pin pk Hwf Hc Hne Hcan Hpin d Hd1 Hd2 Hfit Hd Hv)
    as (decision & Hdec & _). congruence.
Qed.

Lemma StronglySorted_filter {A} (R : relation A) (P : A -> Prop) `{∀ x, Decision (P x)} l :
  StronglySorted R l → StronglySorted R (filter P l).
Proof.
  induction 1 as [|x l Hl IH Hx]; [constructor|]. rewrite filter_cons. case_decide; [|done].
  constructor; [done|]. apply Forall_forall. intros y [_ Hy]%list_elem_of_filter.
  rewrite Forall_forall in Hx. by apply Hx.
Qed.

Lemma decision_fanout recipients canonical floor config pk d decision :
  config_ok config → decision_of recipients canonical floor config pk d decision →
  mjoin (sfc_recipients <$> smd_fanout_chunks decision) = fanout_of canonical floor pk d.
Proof.
  intros Hc Ho. rewrite (do_chunks _ _ _ _ _ _ _ Ho), <- list_fmap_compose.
  change (sfc_recipients ∘ chunk_of) with (snd : nat * list SettlementRecipient → _).
  rewrite imap_pair_snd. pose proof (co_fanout _ Hc). apply chunks_spec. lia.
Qed.

(** C38: settlement loses nobody and no value. The direct recipients and the
    fanout chunks together are exactly the canonical recipients, in canonical
    order on each side; the amounts reported for the two sides and for the
    chunks are the sums of their recipients and add up to the total owed. *)
Theorem settlement_partitions recipients floor config pin decision :
  wf_recipients recipients → wf_config config →
  select_settlement_mode_with_pinned_direct recipients floor config pin = Ok decision →
  let direct := smd_direct_recipients decision in
  let fanout := mjoin (sfc_recipients <$> smd_fanout_chunks decision) in
  ∃ canonical, canonical_recipients recipients = Ok canonical ∧ direct ++ fanout ≡ₚ canonical ∧
    StronglySorted (cmp_le canonical_recipient_cmp) direct ∧
    StronglySorted (cmp_le canonical_recipient_cmp) fanout ∧
    smd_direct_amount_sats decision = sum_of sr_amount_sats direct ∧
    smd_fanout_amount_sats decision = sum_of sr_amount_sats fanout ∧
    sum_of sfc_amount_sats (smd_fanout_chunks decision) = sum_of sr_amount_sats fanout ∧
    smd_total_amount_sats decision = sum_of sr_amount_sats recipients ∧
    smd_direct_amount_sats decision + smd_fanout_amount_sats decision = smd_total_amount_sats decision.
Proof.
  intros Hwf Hwc Hs direct fanout. destruct (select_inv _ _ _ _ _ Hwf Hwc Hs) as (canonical & pk & d & Hse & _ & Ho).
  pose proof (canonical_recipients_Ok _ _ (se_canonical _ _ _ _ _ _ _ Hse)) as Hc.
  assert (fanout = fanout_of canonical floor pk d) as Hfo by (eapply decision_fanout; [apply Hse|exact Ho]).
  assert (direct = direct_of canonical floor pk d) as Hdi by apply (do_direct _ _ _ _ _ _ _ Ho).
  pose proof (partition_perm canonical floor pk (Z.to_nat d)) as Hp.
  change (direct_of canonical floor pk d ++ fanout_of canonical floor pk d ≡ₚ canonical) in Hp.
  rewrite <- Hdi, <- Hfo in Hp.
  exists canonical. split_and!; [apply Hse|done| | | | | | |].
  - rewrite Hdi. apply StronglySorted_filter, Hc.
  - rewrite Hfo. apply StronglySorted_filter, Hc.
  - by rewrite Hdi, (do_direct_amount _ _ _ _ _ _ _ Ho).
  - by rewrite Hfo, (do_fanout_amount _ _ _ _ _ _ _ Ho).
  - unfold fanout. rewrite sum_of_mjoin, sum_of_fmap. apply sum_of_ext. intros c Hin.
    rewrite (do_chunks _ _ _ _ _ _ _ Ho) in Hin. by apply list_elem_of_fmap in Hin as (ic & -> & _).
  - apply (do_total _ _ _ _ _ _ _ Ho).
  - rewrite (do_direct_amount _ _ _ _ _ _ _ Ho), (do_fanout_amount _ _ _ _ _ _ _ Ho), (do_total _ _ _ _ _ _ _ Ho).
    rewrite <- Hdi, <- Hfo, <- (canonical_total _ _ (se_canonical _ _ _ _ _ _ _ Hse)), <- sum_of_app.
    by apply sum_of_perm.
Qed.

(** settlement stays within its budgets. The coinbase outputs (reserved,
    direct and one per fanout chunk) are within the configured maximum and the
    500-output cap, direct recipients within theirs; every chunk is non-empty,
    within the configured size, reports its own count and amount, and its
    estimated transaction weight is within the TRUC limit. *)
Theorem settlement_within_budget recipients floor config pin decision :
  wf_recipients recipients → wf_config config →
  select_settlement_mode_with_pinned_direct recipients floor config pin = Ok decision →
  smd_coinbase_settlement_output_count decision =
    reserved_coinbase_outputs config + Z.of_nat (length (smd_direct_recipients decision)) +
    Z.of_nat (length (smd_fanout_chunks decision)) ∧
  smd_coinbase_settlement_output_count decision ≤ max_coinbase_settlement_outputs config
    ≤ MAX_COINBASE_SETTLEMENT_OUTPUTS ∧
  Z.of_nat (length (smd_direct_recipients decision)) ≤ max_direct_coinbase_outputs config ∧
  Forall (fun c =>
    1 ≤ sfc_recipient_count c ≤ max_fanout_recipients_per_transaction config ∧
    sfc_recipient_count c = Z.of_nat (length (sfc_recipients c)) ∧
    sfc_amount_sats c = sum_of sr_amount_sats (sfc_recipients c) ∧
    ∃ w, estimated_ctv_fanout_weight_bytes (sfc_recipient_count c) = Ok w ∧
      w ≤ QBIT_TRUC_MAX_TX_WEIGHT_BYTES) (smd_fanout_chunks decision).
Proof.
  intros Hwf Hwc Hs. destruct (select_inv _ _ _ _ _ Hwf Hwc Hs) as (canonical & pk & d & Hse & _ & Ho).
  pose proof Hse as [Hc Hne Hcan Hpin Hfit Hd Hb].
  destruct (partition_sizes recipients canonical floor config pin pk Hc Hcan Hpin d Hd)
    as (H1 & H2 & H3).
  rewrite (do_outputs _ _ _ _ _ _ _ Ho), (do_direct _ _ _ _ _ _ _ Ho), (do_chunks _ _ _ _ _ _ _ Ho).
  rewrite length_fmap, length_imap, H1, H3. pose proof (co_outputs _ Hc). pose proof (co_fanout _ Hc).
  split_and!; [unfold outputs_needed; lia|done|lia| |].
  - unfold direct_limit, saturating_sub, saturating in Hd. pose proof (co_direct _ Hc).
    assert (pinned_count pk ≤ max_direct_coinbase_outputs config) as Hpm.
    { unfold resolve_pin, resolve_pinned_direct_key, settlement_error in Hpin. unfold pinned_count.
      destruct pk; [|lia]. destruct pin; [|done]. apply bind_Ok in Hpin as (k & Hk & _). res_inv. lia. }
    unfold MAX_DIRECT_COINBASE_OUTPUTS, MAX_COINBASE_SETTLEMENT_OUTPUTS, Usize in *. cbn [int_min int_max] in Hd.
    assert (0 ≤ pinned_count pk) by (unfold pinned_count; destruct pk; lia). lia.
  - apply Forall_fmap, Forall_forall. intros ic Hic. cbn.
    assert (ic.2 ∈ (imap pair (chunks_of canonical floor config pk d)).*2) as Hin by (by apply list_elem_of_fmap_2).
    rewrite imap_pair_snd in Hin.
    destruct (chunks_spec (Z.to_nat (max_fanout_recipients_per_transaction config)) ltac:(lia)
      (fanout_of canonical floor pk d)) as (_ & Hch & _).
    rewrite Forall_forall in Hch. destruct (Hch _ Hin) as [Hcn Hcl].
    assert (1 ≤ Z.of_nat (length ic.2)) by (destruct ic.2; [done|cbn [length]; lia]).
    split_and!; [done|lia|done|done|].
    destruct (fanout_weight_value (Z.of_nat (length ic.2))) as [-> Hw]; [lia|]. eauto.
Qed.

Lemma pinned_is_direct recipients canonical floor config pin pk d decision k :
  settleable recipients floor config pin canonical pk d →
  decision_of recipients canonical floor config pk d decision → pk = Some k →
  (∃ r, r ∈ smd_direct_recipients decision ∧ settlement_account_key r = k) ∧
  k ∉ settlement_account_key <$> mjoin (sfc_recipients <$> smd_fanout_chunks decision).
Proof.
  intros [Hc Hne Hcan Hpin Hfit Hd Hb] Ho Hpk. pose proof (ca_keys _ _ (canonical_recipients_Ok _ _ Hcan)) as Hk.
  rewrite (decision_fanout _ _ _ _ _ _ _ Hc Ho), (do_direct _ _ _ _ _ _ _ Ho).
  destruct (resolved_pin canonical floor config pin pk Hpin k Hpk) as (r & Hr & Hrk). split.
  - exists r. split; [|done]. apply (direct_elem canonical floor pk (Z.to_nat d) Hk). split; [done|]. left. congruence.
  - intros (f & -> & Hf)%list_elem_of_fmap.
    by apply (fanout_elem canonical floor pk (Z.to_nat d) Hk) in Hf as (_ & Hnp & _).
Qed.

(** Who is paid directly. A pinned recipient always is and never lands in
    a fanout; every other direct recipient is owed at least the floor, and at
    least as much as any recipient above the floor left to the fanout; and one
    more direct recipient would not have fitted the output budget. *)
Theorem settlement_priority recipients floor config pin decision :
  wf_recipients recipients → wf_config config →
  select_settlement_mode_with_pinned_direct recipients floor config pin = Ok decision →
  let direct := smd_direct_recipients decision in
  let fanout := mjoin (sfc_recipients <$> smd_fanout_chunks decision) in
  ∃ canonical pk, canonical_recipients recipients = Ok canonical ∧
    resolve_pin canonical pin config = Ok pk ∧
    (∀ k, pk = Some k → (∃ r, r ∈ direct ∧ settlement_account_key r = k) ∧
       k ∉ settlement_account_key <$> fanout) ∧
    (∀ r, r ∈ direct → pk ≠ Some (settlement_account_key r) → floor ≤ sr_amount_sats r ∧
       ∀ f, f ∈ fanout → floor ≤ sr_amount_sats f → sr_amount_sats f ≤ sr_amount_sats r) ∧
    (∀ d, Z.of_nat (length direct) - pinned_count pk < d ≤ direct_limit canonical floor pk config →
       max_coinbase_settlement_outputs config <
       outputs_needed (Z.of_nat (length recipients)) config (pinned_count pk) d).
Proof.
  intros Hwf Hwc Hs direct fanout. destruct (select_inv _ _ _ _ _ Hwf Hwc Hs) as (canonical & pk & d & Hse & Hmax & Ho).
  pose proof Hse as [Hc Hne Hcan Hpin Hfit Hd Hb]. pose proof (ca_keys _ _ (canonical_recipients_Ok _ _ Hcan)) as Hk.
  assert (fanout = fanout_of canonical floor pk d) as Hfo by (eapply decision_fanout; [done|exact Ho]).
  assert (direct = direct_of canonical floor pk d) as Hdi by apply (do_direct _ _ _ _ _ _ _ Ho).
  exists canonical, pk. split_and!; [done..| | |].
  - intros k Hpk. by eapply pinned_is_direct.
  - intros r Hr Hnp. rewrite Hdi in Hr. split.
    + apply (direct_elem canonical floor pk (Z.to_nat d) Hk) in Hr as [_ [?|Hr]]; [done|].
      by apply elem_of_take_sub, cands_elem in Hr as (_ & ? & _).
    + intros f Hf Hfl. rewrite Hfo in Hf.
      by apply (direct_priority canonical floor pk (Z.to_nat d) Hk r f).
  - destruct (partition_sizes recipients canonical floor config pin pk Hc Hcan Hpin d Hd) as (H1 & _).
    rewrite Hdi, H1. intros d' Hd'. apply Hmax. lia.
Qed.

(** Settlement never panics and succeeds exactly on the inputs it is
    documented for: a valid configuration, at least one recipient, 32-byte hex
    programs, positive amounts, distinct accounts, a total that fits u64, a
    pin that is among the recipients, and some number of direct recipients
    with which the partition fits the output budget. Its internal errors
    (lost value, empty partition, overflowing counts) are unreachable. *)
Theorem settlement_exists_iff recipients floor config pin :
  wf_recipients recipients → wf_config config →
  not_panic (select_settlement_mode_with_pinned_direct recipients floor config pin) ∧
  (is_ok (select_settlement_mode_with_pinned_direct recipients floor config pin) = true ↔
   ∃ canonical pk d, settleable recipients floor config pin canonical pk d).
Proof.
  intros Hwf Hwc. split; [by apply select_not_panic|]. split.
  - intros [decision Hs]%is_ok_ex. destruct (select_inv _ _ _ _ _ Hwf Hwc Hs) as (c & pk & d & Hse & _). eauto.
  - intros (c & pk & d & Hse). by eapply settleable_total.
Qed.
End theorems.

(** * A concrete settlement

    Four recipients, a budget of three outputs: the pinned pool fee below the
    floor, the largest miner, and one fanout for the rest. *)
Definition example_recipient (id key digits : string) (sats : Z) : SettlementRecipient :=
  {| sr_recipient_id := id; sr_order_key := key; sr_p2mr_program_hex := repeat_string 32 digits;
     sr_amount_sats := sats |}.
Definition example_recipients : list SettlementRecipient :=
  [example_recipient "alice" "a" "AA" 500; example_recipient "bob" "b" "bb" 900;
   example_recipient "carol" "c" "cc" 20; example_recipient "pool" "z" "ff" 10].
Definition example_config : SettlementModeConfig := {|
  max_coinbase_settlement_outputs := 3; max_direct_coinbase_outputs := 12;
  max_fanout_recipients_per_transaction := 1000; reserved_coinbase_outputs := 0 |}.
Definition example_pin : option SettlementRecipient := Some (example_recipient "pool" "z" "FF" 10).

Lemma example_recipients_wf : wf_recipients example_recipients.
Proof. constructor; [repeat constructor|cbn; lia]. Qed.
Lemma example_config_wf : wf_config example_config.
Proof. by constructor. Qed.

Example example_settlement :
  (d ← select_settlement_mode_with_pinned_direct example_recipients 100 example_config example_pin;
   Ok (map sr_recipient_id (smd_direct_recipients d),
       map (fun c => map sr_recipient_id (sfc_recipients c)) (smd_fanout_chunks d)))
  = Ok (["bob"; "pool"], [["alice"; "carol"]]).
Proof. vm_compute. reflexivity. Qed.

Lemma example_settles :
  ∃ decision, select_settlement_mode_with_pinned_direct example_recipients 100 example_config example_pin
    = Ok decision.
Proof.
  apply is_ok_ex. vm_compute. reflexivity.
Qed.

Lemma settlement_partitions_witness :
  ∃ decision, select_settlement_mode_with_pinned_direct example_recipients 100 example_config example_pin
      = Ok decision ∧
    smd_direct_amount_sats decision + smd_fanout_amount_sats decision = smd_total_amount_sats decision.
Proof.
  destruct example_settles as [d Hd]. exists d. split; [exact Hd|].
  destruct (settlement_partitions example_recipients 100 example_config example_pin d
    example_recipients_wf example_config_wf Hd) as (_ & _ & _ & _ & _ & _ & _ & _ & _ & Hsum). exact Hsum.
Defined.

Lemma settlement_within_budget_witness :
  ∃ decision, select_settlement_mode_with_pinned_direct example_recipients 100 example_config example_pin
      = Ok decision ∧ smd_coinbase_settlement_output_count decision ≤ 3.
Proof.
  destruct example_settles as [d Hd]. exists d. split; [exact Hd|].
  exact (proj1 (proj1 (proj2 (settlement_within_budget example_recipients 100 example_config example_pin d
    example_recipients_wf example_config_wf Hd)))).
Defined.

Lemma settlement_priority_witness :
  ∃ decision canonical pk, select_settlement_mode_with_pinned_direct example_recipients 100 example_config
      example_pin = Ok decision ∧
    resolve_pin canonical example_pin example_config = Ok pk.
Proof.
  destruct example_settles as [d Hd].
  destruct (settlement_priority example_recipients 100 example_config example_pin d
    example_recipients_wf example_config_wf Hd) as (canonical & pk & _ & Hpk & _).
  exists d, canonical, pk. split; [exact Hd|exact Hpk].
Defined.

Lemma settlement_exists_iff_witness :
  ∃ canonical pk d, settleable example_recipients 100 example_config example_pin canonical pk d.
Proof.
  apply (proj2 (settlement_exists_iff example_recipients 100 example_config example_pin
    example_recipients_wf example_config_wf)).
  vm_compute. reflexivity.
Defined.
