(* ===== verification/FanoutFee.v ===== *)
(** The fanout transaction fee (crates/qbit-prism/src/settlement.rs): its
    estimate and its proportional deduction from the recipients that can bear
    it. *)
From Stdlib Require Import ZArith Lia Sorting.Sorted.
From Stdlib Require String.
From stdpp Require Import base list strings pretty gmap sorting.
From S2P Require Import Prelude Order BTree Bytes Crates Payee Apportion PoolBuilder PrismError.
From S2P Require Import Settlement.
From Stdlib Require Import Sorting.Permutation.

Open Scope Z_scope.

Definition DEFAULT_CTV_FANOUT_FEE_PREMIUM_BPS : Z := 12000.

(** * Data *)
Record FanoutFeeRatePolicy := {
  market_fee_rate_sats_per_1000_weight : Z;
  premium_bps : Z;
}.
Record FanoutFeeRecipient := {
  ffr_recipient_id : string;
  ffr_order_key : string;
  ffr_p2mr_program_hex : string;
  ffr_gross_amount_sats : Z;
  ffr_fee_sats : Z;
  ffr_net_amount_sats : Z;
}.
#[export] Instance ffr_payee : Payee FanoutFeeRecipient :=
  {| recipient_id := ffr_recipient_id; order_key := ffr_order_key;
     p2mr_program_hex := ffr_p2mr_program_hex |}.
#[export] Instance ffr_eq_dec : EqDecision FanoutFeeRecipient.
Proof. solve_decision. Defined.
Record FanoutFeeDecision := {
  ffd_total_gross_sats : Z;
  ffd_requested_fee_sats : Z;
  ffd_applied_fee_sats : Z;
  ffd_payable_recipients : list FanoutFeeRecipient;
  ffd_carry_forward_recipients : list FanoutFeeRecipient;
}.

(** * Estimate *)
Definition estimate_ctv_fanout_fee_sats (recipient_count : Z) (policy : FanoutFeeRatePolicy)
  : result PrismError Z :=
  if recipient_count =? 0 then settlement_error "fanout recipient count must be positive" else
  if market_fee_rate_sats_per_1000_weight policy =? 0
  then settlement_error "market_fee_rate_sats_per_1000_weight must be positive" else
  if premium_bps policy =? 0 then settlement_error "premium_bps must be positive" else
  fanout_weight ← estimated_ctv_fanout_weight_bytes recipient_count;
  numerator ← ok_or (value ← checked_mul U128 fanout_weight (market_fee_rate_sats_per_1000_weight policy);
                     checked_mul U128 value (premium_bps policy))
                (SettlementModeSelection "fanout fee estimate overflowed");
  let denominator := 1000 * 10000 in
  adjusted ← ok_or (checked_add U128 numerator (denominator - 1))
               (SettlementModeSelection "fanout fee estimate overflowed");
  ok_or (checked U64 (adjusted / denominator))
    (SettlementModeSelection "fanout fee estimate exceeds uint64").

(** * Allocation *)
Definition fanout_fee_recipient_cmp : FanoutFeeRecipient -> FanoutFeeRecipient -> comparison :=
  canonical_cmp.
#[export] Instance fanout_fee_recipient_cmp_order : CmpOrder fanout_fee_recipient_cmp.
Proof. unfold fanout_fee_recipient_cmp. apply _. Qed.
#[global] Typeclasses Opaque fanout_fee_recipient_cmp.

Definition fee_share (fee_sats total_gross_sats : Z) (r : SettlementRecipient)
  : result PrismError (FanoutFeeRecipient * Z) :=
  fee_product ← ok_or (checked_mul U128 fee_sats (sr_amount_sats r))
                  (SettlementModeSelection "fanout fee allocation overflowed");
  if total_gross_sats =? 0 then Panic "attempt to divide by zero" else
  fee ← ok_or (checked U64 (fee_product / total_gross_sats))
          (SettlementModeSelection "fanout fee share exceeds uint64");
  net ← ok_or (checked_sub U64 (sr_amount_sats r) fee)
          (SettlementModeSelection "fanout fee exceeds recipient amount");
  Ok ({| ffr_recipient_id := sr_recipient_id r; ffr_order_key := sr_order_key r;
         ffr_p2mr_program_hex := sr_p2mr_program_hex r; ffr_gross_amount_sats := sr_amount_sats r;
         ffr_fee_sats := fee; ffr_net_amount_sats := net |}, fee_product mod total_gross_sats).

Definition with_fee (r : FanoutFeeRecipient) (fee net : Z) : FanoutFeeRecipient :=
  {| ffr_recipient_id := ffr_recipient_id r; ffr_order_key := ffr_order_key r;
     ffr_p2mr_program_hex := ffr_p2mr_program_hex r;
     ffr_gross_amount_sats := ffr_gross_amount_sats r; ffr_fee_sats := fee; ffr_net_amount_sats := net |}.
Definition charge_one (p : FanoutFeeRecipient * Z) : result PrismError (FanoutFeeRecipient * Z) :=
  let '(r, remainder) := p in
  fee ← ok_or (checked_add U64 (ffr_fee_sats r) 1) (SettlementModeSelection "fanout fee share overflowed");
  net ← ok_or (checked_sub U64 (ffr_gross_amount_sats r) fee)
          (SettlementModeSelection "fanout fee exceeds recipient amount");
  Ok (with_fee r fee net, remainder).

Definition fee_remainder_cmp : FanoutFeeRecipient * Z -> FanoutFeeRecipient * Z -> comparison :=
  cmp_then (cmp_rev (cmp_on snd Z.compare)) (cmp_on fst fanout_fee_recipient_cmp).
#[export] Instance fee_remainder_cmp_order : CmpOrder fee_remainder_cmp.
Proof. unfold fee_remainder_cmp. apply _. Qed.
#[global] Typeclasses Opaque fee_remainder_cmp.

Definition allocate_proportional_fee (recipients : list SettlementRecipient)
    (fee_sats total_gross_sats : Z) : result PrismError (list FanoutFeeRecipient) :=
  allocated ← collect (fee_share fee_sats total_gross_sats) recipients;
  floor_fee_sum ← try_fold (fun s (p : FanoutFeeRecipient * Z) => arith U64 (s + ffr_fee_sats p.1)) 0 allocated;
  remainder_fee_sats ← ok_or (checked_sub U64 fee_sats floor_fee_sum)
      (SettlementModeSelection "fanout fee floor allocation exceeded total fee");
  let allocated := sort_by fee_remainder_cmp allocated in
  charged ← collect charge_one (take (Z.to_nat remainder_fee_sats) allocated);
  Ok (charged ++ drop (Z.to_nat remainder_fee_sats) allocated).*1.

Definition carried_fanout_fee_recipient (r : SettlementRecipient) : FanoutFeeRecipient :=
  {| ffr_recipient_id := sr_recipient_id r; ffr_order_key := sr_order_key r;
     ffr_p2mr_program_hex := sr_p2mr_program_hex r; ffr_gross_amount_sats := sr_amount_sats r;
     ffr_fee_sats := 0; ffr_net_amount_sats := sr_amount_sats r |}.

(** * The loop *)
Definition fee_decision (total_gross_sats requested applied : Z)
    (payable carry_forward : list FanoutFeeRecipient) : FanoutFeeDecision :=
  {| ffd_total_gross_sats := total_gross_sats; ffd_requested_fee_sats := requested;
     ffd_applied_fee_sats := applied;
     ffd_payable_recipients := sort_by fanout_fee_recipient_cmp payable;
     ffd_carry_forward_recipients := sort_by fanout_fee_recipient_cmp carry_forward |}.

(** [None] is running out of fuel. *)
Fixpoint fanout_fee_loop (fuel : nat) (total_gross_sats fee_sats min_output_sats : Z)
    (candidates : list SettlementRecipient) (carry_forward : list FanoutFeeRecipient)
  : option (result PrismError FanoutFeeDecision) :=
  match fuel with
  | O => None
  | S fuel =>
      match candidates with
      | [] => Some (Ok (fee_decision total_gross_sats fee_sats 0 [] carry_forward))
      | _ =>
      match sum_amounts candidates with
      | Err e => Some (Err e) | Panic m => Some (Panic m)
      | Ok candidate_sum =>
      if candidate_sum <=? fee_sats then
        Some (Ok (fee_decision total_gross_sats fee_sats 0 []
                    (carry_forward ++ (carried_fanout_fee_recipient <$> candidates))))
      else
      match allocate_proportional_fee candidates fee_sats candidate_sum with
      | Err e => Some (Err e) | Panic m => Some (Panic m)
      | Ok allocated =>
      let payable := filter (fun r => min_output_sats ≤ ffr_net_amount_sats r) allocated in
      let below_floor := filter (fun r => ¬ min_output_sats ≤ ffr_net_amount_sats r) allocated in
      match below_floor with
      | [] => Some (Ok (fee_decision total_gross_sats fee_sats fee_sats payable carry_forward))
      | _ =>
          let below_floor_keys : gset SettlementAccountKey := list_to_set (payee_key <$> below_floor) in
          fanout_fee_loop fuel total_gross_sats fee_sats min_output_sats
            (filter (fun r => settlement_account_key r ∉ below_floor_keys) candidates)
            (carry_forward ++
               ((fun r => with_fee r 0 (ffr_gross_amount_sats r)) <$> below_floor))
      end end end end
  end.

Section apply_fee.
Context `{HexCrate}.

Definition apply_proportional_fanout_fee (recipients : list SettlementRecipient)
    (fee_sats min_output_sats : Z) : result PrismError FanoutFeeDecision :=
  if min_output_sats =? 0 then settlement_error "min_output_sats must be positive" else
  match recipients with [] => settlement_error "no fanout recipients to charge" | _ =>
  candidates ← canonical_recipients recipients;
  total_gross_sats ← sum_amounts candidates;
  match fanout_fee_loop (S (length candidates)) total_gross_sats fee_sats min_output_sats candidates [] with
  | Some r => r
  | None => Panic "fanout fee loop did not finish"
  end
  end.

Definition apply_estimated_proportional_fanout_fee (recipients : list SettlementRecipient)
    (min_output_sats : Z) (policy : FanoutFeeRatePolicy) : result PrismError FanoutFeeDecision :=
  fee_sats ← estimate_ctv_fanout_fee_sats (Z.of_nat (length recipients)) policy;
  apply_proportional_fanout_fee recipients fee_sats min_output_sats.
End apply_fee.

(** * Allocation lemmas *)

(** Who is owed what, before and after the fee. *)
Definition recipient_view (r : SettlementRecipient) : SettlementAccountKey * Z :=
  (settlement_account_key r, sr_amount_sats r).
Definition fee_view (r : FanoutFeeRecipient) : SettlementAccountKey * Z :=
  (payee_key r, ffr_gross_amount_sats r).
Definition charged_ok (r : FanoutFeeRecipient) : Prop :=
  ffr_gross_amount_sats r = ffr_fee_sats r + ffr_net_amount_sats r ∧ 0 ≤ ffr_fee_sats r.

Section allocate_fee.
Context (cands : list SettlementRecipient) (fee : Z).
Let W := sum_of sr_amount_sats cands.
Hypothesis Hamounts : Forall (fun r => fits U64 (sr_amount_sats r) = true) cands.
Hypothesis HW : fits U64 W = true.
Hypothesis Hfee : 0 ≤ fee < W.

Let share_of (r : SettlementRecipient) : FanoutFeeRecipient * Z :=
  ({| ffr_recipient_id := sr_recipient_id r; ffr_order_key := sr_order_key r;
      ffr_p2mr_program_hex := sr_p2mr_program_hex r; ffr_gross_amount_sats := sr_amount_sats r;
      ffr_fee_sats := quota fee W (sr_amount_sats r);
      ffr_net_amount_sats := sr_amount_sats r - quota fee W (sr_amount_sats r) |},
   remainder fee W (sr_amount_sats r)).
Let wt := fun p : FanoutFeeRecipient * Z => ffr_gross_amount_sats p.1.
Let amt := fun p : FanoutFeeRecipient * Z => ffr_fee_sats p.1.
Let bump := fun p : FanoutFeeRecipient * Z =>
  (with_fee p.1 (ffr_fee_sats p.1 + 1) (ffr_gross_amount_sats p.1 - (ffr_fee_sats p.1 + 1)), p.2).
Let items := sort_by fee_remainder_cmp (share_of <$> cands).

Lemma share_bounds w :
  0 ≤ w → 0 ≤ quota fee W w ≤ w ∧ (0 < remainder fee W w → quota fee W w + 1 ≤ w).
Proof.
  intros Hw. unfold quota, remainder. pose proof (Z.div_mod (fee * w) W ltac:(lia)).
  pose proof (Z.mod_pos_bound (fee * w) W ltac:(lia)).
  pose proof (Z.div_pos (fee * w) W ltac:(nia) ltac:(lia)). split; [split; nia|]. intros. nia.
Qed.

Lemma shares_Ok : collect (fee_share fee W) cands = Ok (share_of <$> cands).
Proof.
  apply collect_fmap. intros r Hr. rewrite Forall_forall in Hamounts. specialize (Hamounts r Hr).
  destruct (share_bounds (sr_amount_sats r)) as [Hq _]; [widths|].
  unfold fee_share, checked_mul, checked_sub. rewrite checked_fits.
  2:{ rewrite fits_iff in *. cbn [int_min int_max] in *. nia. }
  cbn [ok_or mbind result_bind]. rewrite (proj2 (Z.eqb_neq _ 0)) by lia. unfold quota in Hq.
  rewrite checked_fits by widths. cbn [ok_or mbind result_bind]. rewrite checked_fits by widths. done.
Qed.

Lemma items_elem p : p ∈ items → ∃ r, r ∈ cands ∧ p = share_of r ∧ fits U64 (sr_amount_sats r) = true.
Proof.
  unfold items. rewrite elem_of_sort_by, list_elem_of_fmap. intros (r & -> & Hr).
  rewrite Forall_forall in Hamounts. eauto.
Qed.

Lemma items_perm : items ≡ₚ share_of <$> cands.
Proof. apply (sort_by_perm fee_remainder_cmp). Qed.

Lemma items_weight : sum_of wt items = W.
Proof. rewrite (sum_of_perm _ _ _ items_perm), sum_of_fmap. done. Qed.

Lemma items_split :
  let k := fee - sum_of amt items in
  0 ≤ k ∧ collect charge_one (take (Z.to_nat k) items) = Ok (bump <$> take (Z.to_nat k) items) ∧
  apportioned fee (wt <$> items) (amt <$> ((bump <$> take (Z.to_nat k) items) ++ drop (Z.to_nat k) items)).
Proof.
  apply (split_sorted wt amt snd charge_one bump items fee); rewrite ?items_weight.
  - lia.
  - intros p (r & _ & -> & _)%items_elem. done.
  - intros p (r & _ & -> & _)%items_elem. done.
  - pose proof (sort_by_sorted fee_remainder_cmp (share_of <$> cands)) as Hs. fold items in Hs.
    eapply StronglySorted_weaken; [|exact Hs]. intros x y _ _. unfold cmp_le, fee_remainder_cmp, cmp_then, cmp_rev, cmp_on, then_with.
    destruct (Z.compare_spec y.2 x.2); [lia..|done].
  - intros p (r & _ & -> & Hf)%items_elem Hr. cbn in Hr.
    destruct (share_bounds (sr_amount_sats r)) as [Hq Hq1]; [widths|]. specialize (Hq1 Hr).
    unfold charge_one. cbn [share_of ffr_fee_sats ffr_gross_amount_sats]. unfold checked_add, checked_sub.
    rewrite checked_fits by widths. cbn [ok_or mbind result_bind]. rewrite checked_fits by widths. done.
  - done.
Qed.

Lemma allocate_fee_Ok :
  ∃ allocated, allocate_proportional_fee cands fee W = Ok allocated ∧
    fee_view <$> allocated ≡ₚ recipient_view <$> cands ∧ Forall charged_ok allocated ∧
    apportioned fee (ffr_gross_amount_sats <$> allocated) (ffr_fee_sats <$> allocated).
Proof.
  destruct items_split as (Hk & Hc & Happ). set (k := fee - sum_of amt items) in *.
  set (final := (bump <$> take (Z.to_nat k) items) ++ drop (Z.to_nat k) items) in *.
  assert (∀ {B} (h : FanoutFeeRecipient * Z -> B), (∀ p, h (bump p) = h p) → h <$> final = h <$> items) as Hfin.
  { intros B h Hh. unfold final. rewrite fmap_app, <- list_fmap_compose.
    rewrite <- (take_drop (Z.to_nat k) items) at 3. rewrite fmap_app. f_equal.
    apply list_fmap_ext. intros i p _. apply Hh. }
  assert (sum_of (fun p => ffr_fee_sats p.1) (share_of <$> cands) = sum_of amt items) as Hsum
    by (symmetry; apply (sum_of_perm amt), items_perm).
  assert (∀ p, p ∈ share_of <$> cands → 0 ≤ ffr_fee_sats p.1) as Hnn.
  { intros p (r & -> & Hr)%list_elem_of_fmap. cbn. apply share_bounds.
    rewrite Forall_forall in Hamounts. specialize (Hamounts r Hr). widths. }
  assert (0 ≤ sum_of amt items) by (rewrite <- Hsum; by apply sum_of_nonneg).
  exists final.*1. split_and!.
  - unfold allocate_proportional_fee. rewrite shares_Ok. cbn [mbind result_bind].
    rewrite try_arith_total; [|done|done|done|rewrite Hsum; unfold k in Hk; widths].
    cbn [mbind result_bind]. rewrite Hsum, Z.add_0_l. unfold checked_sub.
    rewrite checked_fits by (unfold k in Hk; widths). cbn [ok_or mbind result_bind].
    fold items. fold k. rewrite Hc. done.
  - rewrite <- list_fmap_compose, (Hfin _ (fee_view ∘ fst)) by done.
    rewrite items_perm, <- !list_fmap_compose. done.
  - apply Forall_fmap, Forall_app. split.
    + apply Forall_fmap, Forall_forall. intros p Hp%elem_of_take_sub. apply items_elem in Hp as (r & Hr & -> & Hf).
      destruct (share_bounds (sr_amount_sats r)) as [Hq _]; [widths|]. split; cbn; lia.
    + apply Forall_forall. intros p Hp. assert (p ∈ items) as (r & Hr & -> & Hf)%items_elem
        by (rewrite <- (take_drop (Z.to_nat k) items); set_solver).
      destruct (share_bounds (sr_amount_sats r)) as [Hq _]; [widths|]. split; cbn; lia.
  - rewrite <- !list_fmap_compose. rewrite (Hfin _ (ffr_gross_amount_sats ∘ fst)) by done. exact Happ.
Qed.
End allocate_fee.

(** * The loop ends with a fair decision *)
Definition carried_ok (r : FanoutFeeRecipient) : Prop :=
  ffr_fee_sats r = 0 ∧ ffr_net_amount_sats r = ffr_gross_amount_sats r.

Record fee_outcome (cands : list SettlementRecipient) (carry : list FanoutFeeRecipient)
    (total fee floor : Z) (dec : FanoutFeeDecision) : Prop := {
  fo_total : ffd_total_gross_sats dec = total;
  fo_requested : ffd_requested_fee_sats dec = fee;
  fo_views : fee_view <$> (ffd_payable_recipients dec ++ ffd_carry_forward_recipients dec) ≡ₚ
    (fee_view <$> carry) ++ (recipient_view <$> cands);
  fo_payable : Forall (fun r => charged_ok r ∧ floor ≤ ffr_net_amount_sats r) (ffd_payable_recipients dec);
  fo_carry : Forall carried_ok (ffd_carry_forward_recipients dec);
  fo_applied : ffd_payable_recipients dec = [] ∧ ffd_applied_fee_sats dec = 0 ∨
    ffd_payable_recipients dec ≠ [] ∧ ffd_applied_fee_sats dec = fee ∧
    apportioned fee (ffr_gross_amount_sats <$> ffd_payable_recipients dec)
      (ffr_fee_sats <$> ffd_payable_recipients dec);
}.

Lemma filter_split_perm {A} (P : A -> Prop) `{∀ x, Decision (P x)} (l : list A) :
  filter P l ++ filter (fun x => ¬ P x) l ≡ₚ l.
Proof.
  induction l as [|x l IH]; [done|]. rewrite !filter_cons. destruct (decide (P x)).
  - rewrite (decide_False (P := ¬ P x)) by tauto. by apply perm_skip.
  - rewrite (decide_True (P := ¬ P x)) by tauto. etransitivity; [symmetry; apply Permutation_middle|].
    by apply perm_skip.
Qed.

Lemma filter_fmap_key {A B} (f : A -> B) (P : B -> Prop) `{∀ x, Decision (P x)} (l : list A) :
  f <$> filter (fun x => P (f x)) l = filter P (f <$> l).
Proof.
  induction l as [|x l IH]; [done|]. rewrite fmap_cons, !filter_cons. case_decide; rewrite ?fmap_cons, IH; done.
Qed.

Lemma fee_decision_outcome cands carry total fee floor applied payable rest :
  Forall carried_ok carry → Forall (fun r => charged_ok r ∧ floor ≤ ffr_net_amount_sats r) payable →
  Forall carried_ok rest → fee_view <$> (payable ++ rest) ≡ₚ recipient_view <$> cands →
  (payable = [] ∧ applied = 0 ∨ payable ≠ [] ∧ applied = fee ∧
    apportioned fee (ffr_gross_amount_sats <$> payable) (ffr_fee_sats <$> payable)) →
  fee_outcome cands carry total fee floor (fee_decision total fee applied payable (carry ++ rest)).
Proof.
  intros Hc Hp Hr Hv Ha.
  pose proof (sort_by_perm fanout_fee_recipient_cmp payable) as Hsp.
  constructor; cbn; try done.
  - rewrite (sort_by_perm fanout_fee_recipient_cmp (carry ++ rest)), Hsp, <- Hv, !fmap_app.
    rewrite !app_assoc. by rewrite (Permutation_app_comm (fee_view <$> payable)).
  - by apply sort_by_Forall.
  - apply sort_by_Forall, Forall_app. done.
  - destruct Ha as [[-> ->]|(Hne & -> & Ha)]; [by left|right]. split_and!; [|done|].
    + intros Hnil. apply Hne. rewrite Hnil in Hsp. by apply Permutation_nil in Hsp.
    + eapply apportioned_perm; [symmetry; exact Hsp|done].
Qed.

Lemma fanout_fee_loop_spec total fee floor :
  0 ≤ fee → ∀ fuel cands carry,
  (length cands < fuel)%nat → Forall (fun r => fits U64 (sr_amount_sats r) = true) cands →
  fits U64 (sum_of sr_amount_sats cands) = true → NoDup (settlement_account_key <$> cands) →
  Forall carried_ok carry →
  ∃ dec, fanout_fee_loop fuel total fee floor cands carry = Some (Ok dec) ∧
    fee_outcome cands carry total fee floor dec.
Proof.
  intros Hfee. induction fuel as [|fuel IH]; intros cands carry Hlen Hcs Hsum Hkeys Hcarry; [lia|].
  cbn [fanout_fee_loop]. destruct cands as [|c0 cs] eqn:Hcands.
  { eexists. split; [done|]. rewrite <- (app_nil_r carry) at 2. apply fee_decision_outcome; try done. by left. }
  rewrite <- Hcands in *. assert (Forall (fun r => 0 ≤ sr_amount_sats r) cands) as Hnn.
  { eapply Forall_impl; [exact Hcs|]. cbn. intros r Hr. widths. }
  rewrite sum_amounts_total by done. destruct (_ <=? fee) eqn:Hle.
  { eexists. split; [done|]. apply fee_decision_outcome; try done.
    - apply Forall_fmap. by apply Forall_forall.
    - cbn. by rewrite <- list_fmap_compose.
    - by left. }
  apply Z.leb_gt in Hle.
  destruct (allocate_fee_Ok cands fee Hcs Hsum ltac:(lia)) as (al & -> & Hview & Hch & Happ).
  pose proof (filter_split_perm (fun r => floor ≤ ffr_net_amount_sats r) al) as Hsplit.
  set (payable := filter (fun r => floor ≤ ffr_net_amount_sats r) al) in *.
  destruct (filter (fun r => ¬ floor ≤ ffr_net_amount_sats r) al) as [|b0 bs] eqn:Hbelow.
  - eexists. split; [done|]. rewrite app_nil_r in Hsplit. rewrite <- (app_nil_r carry) at 2.
    apply fee_decision_outcome; try done.
    + apply Forall_forall. intros r [Hf Hr]%list_elem_of_filter. rewrite Forall_forall in Hch. auto.
    + by rewrite app_nil_r, Hsplit.
    + right. split_and!; [|done|by eapply apportioned_perm].
      intros Hnil. rewrite Hnil in Hsplit. apply Permutation_nil in Hsplit. rewrite Hsplit in Hview.
      apply Permutation_nil_l in Hview. by rewrite Hcands in Hview.
  - rewrite <- Hbelow in *. set (below := filter (fun r => ¬ floor ≤ ffr_net_amount_sats r) al) in *.
    set (bk := list_to_set (payee_key <$> below) : gset SettlementAccountKey).
    set (cands' := filter (fun r => settlement_account_key r ∉ bk) cands).
    assert (fee_view <$> payable ≡ₚ recipient_view <$> cands') as Hpay.
    { assert (recipient_view <$> cands' = filter (fun v => v.1 ∉ bk) (recipient_view <$> cands)) as ->
        by exact (filter_fmap_key recipient_view (fun v => v.1 ∉ bk) cands).
      rewrite <- Hview. rewrite <- (filter_fmap_key fee_view (fun v => v.1 ∉ bk) al).
      apply reflexive_eq. unfold payable. f_equal.
      apply filter_ext_elem. intros r Hr. cbn. unfold bk. rewrite elem_of_list_to_set, list_elem_of_fmap. split.
      - intros Hf (r' & Heq & [Hf' Hr']%list_elem_of_filter). assert (r = r') as <-; [|done].
        assert (NoDup (payee_key <$> al)) as Hnd.
        { change (payee_key <$> al) with ((fst ∘ fee_view) <$> al). rewrite list_fmap_compose, Hview, <- list_fmap_compose. done. }
        apply list_elem_of_lookup in Hr as (i & Hi), Hr' as (j & Hj).
        assert (i = j) as ->; [|congruence].
        eapply NoDup_lookup; [exact Hnd| |]; rewrite list_lookup_fmap, ?Hi, ?Hj; [done|]. cbn. by rewrite Heq.
      - intros Hn. destruct (decide (floor ≤ ffr_net_amount_sats r)); [done|]. exfalso. apply Hn.
        exists r. split; [done|]. by apply list_elem_of_filter. }
    destruct (IH cands' (carry ++ ((fun r => with_fee r 0 (ffr_gross_amount_sats r)) <$> below)))
      as (dec & -> & Ho).
    + apply Permutation_length in Hpay, Hsplit, Hview. rewrite !length_fmap in *. rewrite length_app in Hsplit.
      assert (0 < length below)%nat by (rewrite Hbelow; cbn; lia). lia.
    + apply Forall_forall. intros r [_ Hr]%list_elem_of_filter. rewrite Forall_forall in Hcs. auto.
    + unfold cands'. rewrite sum_of_filter. rewrite Forall_forall in Hnn.
      assert (sum_of (fun x => if decide (settlement_account_key x ∉ bk) then sr_amount_sats x else 0) cands
        ≤ sum_of sr_amount_sats cands) by (apply sum_of_le; intros x Hx; specialize (Hnn x Hx); case_decide; lia).
      assert (0 ≤ sum_of (fun x => if decide (settlement_account_key x ∉ bk) then sr_amount_sats x else 0) cands)
        by (apply sum_of_nonneg; intros x Hx; specialize (Hnn x Hx); case_decide; lia).
      widths.
    + by apply filter_fmap_NoDup.
    + apply Forall_app. split; [done|]. apply Forall_fmap. by apply Forall_forall.
    + eexists. split; [done|]. destruct Ho. constructor; try done.
      rewrite fo_views0, fmap_app, <- app_assoc. apply Permutation_app_head.
      rewrite <- Hview, <- Hsplit, fmap_app, Hpay, <- list_fmap_compose.
      rewrite Permutation_app_comm. done.
Qed.

Section theorems.
Context `{HexCrate}.

Lemma canonical_fits recipients canonical :
  wf_recipients recipients → canonical_recipients recipients = Ok canonical →
  Forall (fun r => fits U64 (sr_amount_sats r) = true) canonical.
Proof.
  intros Hwf Hc%canonical_recipients_Ok. pose proof (ca_amounts _ _ Hc) as Hp.
  assert (Forall (fun a => fits U64 a = true) (sr_amount_sats <$> canonical)) as HF; [|by rewrite Forall_fmap in HF].
  rewrite Hp. apply Forall_fmap, Hwf.
Qed.

Lemma apply_fee_total recipients fee floor canonical :
  wf_recipients recipients → 0 ≤ fee → floor ≠ 0 → recipients ≠ [] →
  canonical_recipients recipients = Ok canonical → fits U64 (sum_of sr_amount_sats canonical) = true →
  ∃ dec, apply_proportional_fanout_fee recipients fee floor = Ok dec ∧
    fee_outcome canonical [] (sum_of sr_amount_sats recipients) fee floor dec.
Proof.
  intros Hwf Hfee Hfl Hne Hcan Hfit. pose proof (canonical_fits _ _ Hwf Hcan) as Hcf.
  destruct (fanout_fee_loop_spec (sum_of sr_amount_sats canonical) fee floor Hfee (S (length canonical)) canonical [])
    as (dec & Hl & Ho); [lia|done|done|apply (canonical_recipients_Ok _ _ Hcan)|constructor|].
  exists dec. rewrite <- (canonical_total _ _ Hcan). split; [|done].
  unfold apply_proportional_fanout_fee. rewrite (proj2 (Z.eqb_neq _ _) Hfl), (match_nonempty recipients _ _ Hne), Hcan.
  cbn [mbind result_bind]. rewrite sum_amounts_total; [|eapply Forall_impl; [exact Hcf|]; cbn; intros; widths|done].
  cbn [mbind result_bind]. by rewrite Hl.
Qed.

Lemma apply_fee_inv recipients fee floor dec :
  wf_recipients recipients → fits U64 fee = true →
  apply_proportional_fanout_fee recipients fee floor = Ok dec →
  ∃ canonical, canonical_recipients recipients = Ok canonical ∧
    fee_outcome canonical [] (sum_of sr_amount_sats recipients) fee floor dec.
Proof.
  intros Hwf Hfee Ha. pose proof Ha as Ha'. unfold apply_proportional_fanout_fee, settlement_error in Ha'.
  destruct (floor =? 0) eqn:Hfl; [done|]. apply Z.eqb_neq in Hfl.
  destruct (decide (recipients = [])) as [->|Hne]; [done|]. rewrite (match_nonempty recipients _ _ Hne) in Ha'.
  apply bind_Ok in Ha' as (canonical & Hcan & Ha'). apply bind_Ok in Ha' as (total & Htot & _).
  apply sum_amounts_Ok in Htot as [-> Hfit]. assert (0 ≤ fee) as Hf0 by widths.
  destruct (apply_fee_total recipients fee floor canonical Hwf Hf0 Hfl Hne Hcan Hfit) as (dec' & Hd & Ho).
  assert (dec' = dec) as -> by congruence. eauto.
Qed.

(** The fanout fee is deducted from the recipients that stay in the
    fanout, proportionally and exactly. The charged and the carried recipients
    together are the canonical recipients with their amounts; whoever is
    charged has gross = fee + net with net at or above the floor; the carried
    pay nothing; the fees are the largest-remainder split of the requested fee
    over the gross amounts, so they add up to the applied fee; if nobody can
    pay, nobody is charged. *)
Theorem fanout_fee_deducts recipients fee floor dec :
  wf_recipients recipients → fits U64 fee = true →
  apply_proportional_fanout_fee recipients fee floor = Ok dec →
  ∃ canonical, canonical_recipients recipients = Ok canonical ∧
    fee_outcome canonical [] (sum_of sr_amount_sats recipients) fee floor dec ∧
    sum_of ffr_fee_sats (ffd_payable_recipients dec) = ffd_applied_fee_sats dec ∧
    sum_of ffr_net_amount_sats (ffd_payable_recipients dec) + ffd_applied_fee_sats dec =
      sum_of ffr_gross_amount_sats (ffd_payable_recipients dec).
Proof.
  intros Hwf Hfee Ha. destruct (apply_fee_inv _ _ _ _ Hwf Hfee Ha) as (canonical & Hcan & Ho).
  assert (sum_of ffr_fee_sats (ffd_payable_recipients dec) = ffd_applied_fee_sats dec) as Hsum.
  { destruct (fo_applied _ _ _ _ _ _ Ho) as [[-> ->]|(_ & -> & Happ)]; [done|exact (app_total _ _ _ Happ)]. }
  exists canonical. split_and!; [done..|]. rewrite <- Hsum, Z.add_comm, <- sum_of_add. apply sum_of_ext. intros r Hr.
  pose proof (fo_payable _ _ _ _ _ _ Ho) as Hp. rewrite Forall_forall in Hp. destruct (Hp r Hr) as [[Hg _] _]. lia.
Qed.

(** the deduction terminates and succeeds exactly when the floor is
    positive and the recipients are a non-empty list of valid, distinct
    accounts whose total fits u64; it never panics, and its overflow errors
    are unreachable. *)
Theorem fanout_fee_total recipients fee floor :
  wf_recipients recipients → fits U64 fee = true →
  not_panic (apply_proportional_fanout_fee recipients fee floor) ∧
  (is_ok (apply_proportional_fanout_fee recipients fee floor) = true ↔
   floor ≠ 0 ∧ recipients ≠ [] ∧ is_ok (canonical_recipients recipients) = true ∧
   fits U64 (sum_of sr_amount_sats recipients) = true).
Proof.
  intros Hwf Hfee. assert (0 ≤ fee) as Hf0 by widths.
  destruct (decide (floor = 0)) as [->|Hfl]; [split; [done|naive_solver]|].
  destruct (decide (recipients = [])) as [->|Hne].
  { unfold apply_proportional_fanout_fee. rewrite (proj2 (Z.eqb_neq _ _) Hfl). split; [done|naive_solver]. }
  destruct (canonical_recipients recipients) as [canonical| |m] eqn:Hcan.
  3:{ by destruct (canonical_not_panic recipients m). }
  2:{ unfold apply_proportional_fanout_fee.
      rewrite (proj2 (Z.eqb_neq _ _) Hfl), (match_nonempty recipients _ _ Hne), Hcan. split; [done|naive_solver]. }
  rewrite <- (canonical_total _ _ Hcan).
  destruct (fits U64 (sum_of sr_amount_sats canonical)) eqn:Hfit.
  - destruct (apply_fee_total recipients fee floor canonical Hwf Hf0 Hfl Hne Hcan Hfit) as (dec & -> & _).
    split; [done|naive_solver].
  - unfold apply_proportional_fanout_fee. rewrite (proj2 (Z.eqb_neq _ _) Hfl), (match_nonempty recipients _ _ Hne), Hcan.
    cbn [mbind result_bind]. pose proof (sum_amounts_not_panic canonical) as Hnp.
    destruct (sum_amounts canonical) as [s| |m] eqn:Hs; cbn; [|split; [done|naive_solver]|by destruct (Hnp m)].
    apply sum_amounts_Ok in Hs as [-> Hs]. congruence.
Qed.
End theorems.

(** the fee estimate is the market rate times the premium on the
    estimated transaction weight, rounded up: it never under-reserves and
    never exceeds the exact fee by a whole sat. *)
Theorem fanout_fee_rounds_up count policy fee :
  0 ≤ count ≤ MAX_CTV_FANOUT_RECIPIENTS_PER_TRANSACTION →
  estimate_ctv_fanout_fee_sats count policy = Ok fee →
  ∃ weight, estimated_ctv_fanout_weight_bytes count = Ok weight ∧
    (fee - 1) * 10000000 < weight * market_fee_rate_sats_per_1000_weight policy * premium_bps policy
      ≤ fee * 10000000.
Proof.
  intros Hc He. destruct (fanout_weight_value count Hc) as [Hw _]. unfold estimate_ctv_fanout_fee_sats in He.
  unfold settlement_error in He. rewrite Hw in He.
  destruct (count =? 0); [done|]. destruct (_ =? 0); [done|]. destruct (_ =? 0); [done|].
  cbn [mbind result_bind] in He. apply bind_Ok in He as (num & Hn & He). apply ok_or_Ok in Hn.
  apply bind_Some in Hn as (v & Hv & Hn). apply checked_Some in Hv as [-> _]. apply checked_Some in Hn as [-> _].
  apply bind_Ok in He as (adj & Hadj & He). res_inv.
  eexists. split; [exact Hw|]. set (x := _ * _ * premium_bps policy) in *. change (1000 * 10000) with 10000000 in *.
  pose proof (Z.div_mod (x + (10000000 - 1)) 10000000 ltac:(lia)).
  pose proof (Z.mod_pos_bound (x + (10000000 - 1)) 10000000 ltac:(lia)). lia.
Qed.

(** * A concrete fanout

    A fee of 310 would leave Carol under the floor of 15, so the other two
    bear it. *)
Definition example_fanout_recipients : list SettlementRecipient :=
  [example_recipient "alice" "a" "AA" 500; example_recipient "bob" "b" "bb" 900;
   example_recipient "carol" "c" "cc" 16].

Lemma example_fanout_recipients_wf : wf_recipients example_fanout_recipients.
Proof. constructor; [repeat constructor|cbn; lia]. Qed.

Example example_fanout_fee :
  (d ← apply_proportional_fanout_fee example_fanout_recipients 310 15;
   Ok (ffd_applied_fee_sats d, map ffr_fee_sats (ffd_payable_recipients d),
       map ffr_recipient_id (ffd_carry_forward_recipients d)))
  = Ok (310, [111; 199], ["carol"]).
Proof. vm_compute. reflexivity. Qed.

Lemma fanout_fee_deducts_witness :
  ∃ dec, apply_proportional_fanout_fee example_fanout_recipients 310 15 = Ok dec ∧
    sum_of ffr_fee_sats (ffd_payable_recipients dec) = ffd_applied_fee_sats dec.
Proof.
  assert (is_ok (apply_proportional_fanout_fee example_fanout_recipients 310 15) = true) as Hok
    by (vm_compute; reflexivity).
  apply is_ok_ex in Hok as [d Hd]. exists d. split; [exact Hd|].
  destruct (fanout_fee_deducts example_fanout_recipients 310 15 d example_fanout_recipients_wf eq_refl Hd)
    as (_ & _ & _ & Hs & _). exact Hs.
Defined.

Lemma fanout_fee_total_witness :
  is_ok (apply_proportional_fanout_fee example_fanout_recipients 310 15) = true ∧
  not_panic (apply_proportional_fanout_fee example_fanout_recipients 310 0).
Proof.
  split; [vm_compute; reflexivity|].
  exact (proj1 (fanout_fee_total example_fanout_recipients 310 0 example_fanout_recipients_wf eq_refl)).
Defined.

Lemma fanout_fee_rounds_up_witness :
  let policy := Build_FanoutFeeRatePolicy 1000 DEFAULT_CTV_FANOUT_FEE_PREMIUM_BPS in
  estimate_ctv_fanout_fee_sats 3 policy = Ok 264 ∧
  ∃ weight, estimated_ctv_fanout_weight_bytes 3 = Ok weight.
Proof.
  intros policy. assert (estimate_ctv_fanout_fee_sats 3 policy = Ok 264) as He by (vm_compute; reflexivity).
  split; [exact He|].
  destruct (fanout_fee_rounds_up 3 policy 264) as (w & Hw & _); [|exact He|exists w; exact Hw].
  unfold MAX_CTV_FANOUT_RECIPIENTS_PER_TRANSACTION. lia.
Defined.
