(* ===== verification/CtvHash.v ===== *)
(** The OP_CHECKTEMPLATEVERIFY hash of a fanout transaction and the P2MR
    covenant built from it (crates/qbit-prism/src/ctv.rs): the template
    preimage, the leaf script, the tapleaf hash, and what the hash binds. *)
From Stdlib Require Import ZArith Lia.
From Stdlib Require String.
From coqutil Require Import Byte Word.LittleEndianList.
From stdpp Require Import base list strings pretty gmap.
From S2P Require Import Prelude Order Bytes Crates PoolBuilder PrismError CtvTx.

Open Scope Z_scope.

Definition QBIT_P2MR_LEAF_VERSION : Z := 0xc0.
Definition QBIT_P2MR_CONTROL_BLOCK : Z := Z.lor QBIT_P2MR_LEAF_VERSION 1.
Definition QBIT_OP_CHECKTEMPLATEVERIFY : Z := 0xbb.
Definition QBIT_CTV_INPUT_INDEX : Z := 0.

Section ctv_hash.
Context `{Sha256Crate}.

(** The three byte strings hashed into the template. *)
Definition scripts_bytes (tx : ParsedTransaction) : list byte :=
  ptx_inputs tx ≫= fun i =>
    ctv_compact_size (Z.of_nat (length (pti_script_sig i))) ++ pti_script_sig i.
Definition sequences_bytes (tx : ParsedTransaction) : list byte :=
  ptx_inputs tx ≫= fun i => le_bytes 4 (pti_sequence i).
Definition outputs_bytes (tx : ParsedTransaction) : list byte :=
  ptx_outputs tx ≫= serialize_txout.
Definition has_script_sig (tx : ParsedTransaction) : bool :=
  existsb (fun i => match pti_script_sig i with [] => false | _ => true end) (ptx_inputs tx).

Definition u32_bytes (n : Z) (reason : string) : result PrismError (list byte) :=
  n ← ok_or (checked U32 n) (InvalidCtvFanoutManifest reason);
  Ok (le_bytes 4 n).

Definition ctv_preimage (tx : ParsedTransaction) (input_index : Z)
  : result PrismError (list byte) :=
  if Z.of_nat (length (ptx_inputs tx)) <=? input_index
  then invalid_ctv_manifest "CTV input index out of range" else
  input_count ← u32_bytes (Z.of_nat (length (ptx_inputs tx))) "CTV input count exceeds uint32";
  output_count ← u32_bytes (Z.of_nat (length (ptx_outputs tx))) "CTV output count exceeds uint32";
  index ← u32_bytes input_index "CTV input index exceeds uint32";
  Ok (le_bytes 4 (ptx_version tx) ++ le_bytes 4 (ptx_lock_time tx) ++
      (if has_script_sig tx then sha256 (scripts_bytes tx) else []) ++
      input_count ++ sha256 (sequences_bytes tx) ++
      output_count ++ sha256 (outputs_bytes tx) ++ index).

Definition default_ctv_hash_for_parsed_tx (tx : ParsedTransaction) (input_index : Z)
  : result PrismError (list byte) :=
  preimage ← ctv_preimage tx input_index; Ok (sha256 preimage).

Definition ctv_leaf_script (ctv_hash : list byte) : list byte :=
  [byte.of_Z 32] ++ ctv_hash ++ [byte.of_Z QBIT_OP_CHECKTEMPLATEVERIFY].

Definition tagged_hash (tag : string) (payload : list byte) : list byte :=
  let tag_hash := sha256 (str_bytes tag) in
  sha256 (tag_hash ++ tag_hash ++ payload).

Definition p2mr_tapleaf_hash (leaf_script : list byte) : list byte :=
  tagged_hash "P2MRLeaf"
    ([byte.of_Z QBIT_P2MR_LEAF_VERSION] ++
     ctv_compact_size (Z.of_nat (length leaf_script)) ++ leaf_script).

(** The byte strings hashed on the way to a transaction's template hash. *)
Definition hashed_for_template (tx : ParsedTransaction) (input_index : Z) : list (list byte) :=
  scripts_bytes tx :: sequences_bytes tx :: outputs_bytes tx ::
  match ctv_preimage tx input_index with Ok p => [p] | _ => [] end.

(** The byte string hashed into the covenant program of a leaf script. *)
Definition tapleaf_preimage (leaf_script : list byte) : list byte :=
  sha256 (str_bytes "P2MRLeaf") ++ sha256 (str_bytes "P2MRLeaf") ++
  [byte.of_Z QBIT_P2MR_LEAF_VERSION] ++
  ctv_compact_size (Z.of_nat (length leaf_script)) ++ leaf_script.
(** Everything hashed on the way from a transaction to its covenant script. *)
Definition hashed_for_covenant (tx : ParsedTransaction) (input_index : Z) : list (list byte) :=
  match default_ctv_hash_for_parsed_tx tx input_index with
  | Ok h => [tapleaf_preimage (ctv_leaf_script h)] | _ => [] end ++
  hashed_for_template tx input_index.

(** No two of the given byte strings collide under SHA-256. *)
Definition no_collision (l : list (list byte)) : Prop :=
  ∀ x y, x ∈ l → y ∈ l → sha256 x = sha256 y → x = y.
Definition no_collisionb (l : list (list byte)) : bool :=
  forallb (fun x => forallb (fun y =>
    bool_decide (sha256 x = sha256 y → x = y)) l) l.

Lemma no_collisionb_sound l : no_collisionb l = true → no_collision l.
Proof.
  intros Hl x y Hx Hy. unfold no_collisionb in Hl. rewrite forallb_forall in Hl.
  apply list_elem_of_In in Hx, Hy. specialize (Hl _ Hx). rewrite forallb_forall in Hl.
  apply (bool_decide_eq_true_1 _ (Hl _ Hy)).
Qed.
End ctv_hash.

(** * Unique decoding *)

(** What a reader reads off a byte string is determined by the byte string. *)
Lemma reads_functional {A} (m : read A) bs a b :
  size_ok bs → reads m bs a → reads m bs b → a = b.
Proof.
  intros Hs Ha Hb.
  assert (ahead (reader_new bs "") (bs ++ [])) as Hr by (rewrite app_nil_r; by apply ahead_new).
  destruct (Ha _ _ Hr) as (r1 & H1 & _). destruct (Hb _ _ Hr) as (r2 & H2 & _). congruence.
Qed.

Lemma encodings_inj {A} (f : read A) (enc : A -> list byte) xs ys :
  (∀ x, x ∈ xs → reads f (enc x) x) → (∀ y, y ∈ ys → reads f (enc y) y) →
  size_ok (xs ≫= enc) → length xs = length ys → xs ≫= enc = ys ≫= enc → xs = ys.
Proof.
  intros Hx Hy Hs Hlen Heq. eapply reads_functional; [exact Hs|by apply reads_n|].
  rewrite Heq, Hlen. by apply reads_n.
Qed.

(** Membership in a list written out. *)
Ltac in_list := repeat rewrite ?elem_of_app, ?elem_of_cons; tauto.

Section binding.
Context `{HexCrate, !HexLaws, Sha256Crate, !Sha256Laws}.

(** What a template commits to. *)
Definition template (tx : ParsedTransaction) :=
  (ptx_version tx, ptx_lock_time tx, pti_script_sig <$> ptx_inputs tx,
   pti_sequence <$> ptx_inputs tx, ptx_outputs tx).

Lemma has_script_sig_false tx :
  has_script_sig tx = false ↔ pti_script_sig <$> ptx_inputs tx = replicate (length (ptx_inputs tx)) [].
Proof.
  unfold has_script_sig. induction (ptx_inputs tx) as [|i l IH]; [done|]. cbn.
  destruct (pti_script_sig i); cbn; [rewrite IH|]; split; congruence.
Qed.

Lemma u32_bytes_Ok n reason bs : u32_bytes n reason = Ok bs → bs = le_bytes 4 n ∧ fits U32 n = true.
Proof. intros Hn. unfold u32_bytes in Hn. by res_inv. Qed.

Record parts_of (tx : ParsedTransaction) (input_index : Z) (p : list byte) : Prop := {
  po_index : input_index < Z.of_nat (length (ptx_inputs tx));
  po_index_fits : fits U32 input_index = true;
  po_in_fits : fits U32 (Z.of_nat (length (ptx_inputs tx))) = true;
  po_out_fits : fits U32 (Z.of_nat (length (ptx_outputs tx))) = true;
  po_eq : p = le_bytes 4 (ptx_version tx) ++ le_bytes 4 (ptx_lock_time tx) ++
      (if has_script_sig tx then sha256 (scripts_bytes tx) else []) ++
      le_bytes 4 (Z.of_nat (length (ptx_inputs tx))) ++ sha256 (sequences_bytes tx) ++
      le_bytes 4 (Z.of_nat (length (ptx_outputs tx))) ++ sha256 (outputs_bytes tx) ++
      le_bytes 4 input_index;
}.

Lemma ctv_preimage_Ok tx i p : ctv_preimage tx i = Ok p → parts_of tx i p.
Proof.
  intros Hp. unfold ctv_preimage, invalid_ctv_manifest in Hp. res_inv.
  repeat match goal with H : u32_bytes _ _ = Ok _ |- _ => apply u32_bytes_Ok in H as [-> ?] end.
  constructor; [lia|done..].
Qed.

Lemma le4_inj a b : fits U32 a = true → fits U32 b = true → le_bytes 4 a = le_bytes 4 b → a = b.
Proof.
  intros Ha Hb Heq. apply (le_bytes_inj 4) in Heq; [done|widths..].
Qed.

(** Two preimages of the same bytes have the same parts. *)
Lemma preimage_parts a b i j p :
  fits U32 (ptx_version a) = true → fits U32 (ptx_version b) = true →
  fits U32 (ptx_lock_time a) = true → fits U32 (ptx_lock_time b) = true →
  parts_of a i p → parts_of b j p →
  ptx_version a = ptx_version b ∧ ptx_lock_time a = ptx_lock_time b ∧ i = j ∧
  length (ptx_inputs a) = length (ptx_inputs b) ∧ length (ptx_outputs a) = length (ptx_outputs b) ∧
  has_script_sig a = has_script_sig b ∧
  (has_script_sig a = true → sha256 (scripts_bytes a) = sha256 (scripts_bytes b)) ∧
  sha256 (sequences_bytes a) = sha256 (sequences_bytes b) ∧
  sha256 (outputs_bytes a) = sha256 (outputs_bytes b).
Proof.
  intros Hva Hvb Hla Hlb Ha Hb. pose proof (po_eq _ _ _ Ha) as Heq. rewrite (po_eq _ _ _ Hb) in Heq.
  assert (has_script_sig a = has_script_sig b) as Hs.
  { apply (f_equal length) in Heq. rewrite !length_app, !le_bytes_length, !sha256_length in Heq.
    destruct (has_script_sig a), (has_script_sig b); rewrite ?sha256_length in Heq; cbn in Heq; (done || lia). }
  rewrite Hs in Heq.
  apply app_inj_1 in Heq as [Hv Heq]; [|by rewrite !le_bytes_length].
  apply app_inj_1 in Heq as [Hl Heq]; [|by rewrite !le_bytes_length].
  apply app_inj_1 in Heq as [Hsc Heq]; [|destruct (has_script_sig b); by rewrite ?sha256_length].
  apply app_inj_1 in Heq as [Hin Heq]; [|by rewrite !le_bytes_length].
  apply app_inj_1 in Heq as [Hsq Heq]; [|by rewrite !sha256_length].
  apply app_inj_1 in Heq as [Hon Heq]; [|by rewrite !le_bytes_length].
  apply app_inj_1 in Heq as [Hou Hix]; [|by rewrite !sha256_length].
  apply le4_inj in Hv, Hl, Hin, Hon, Hix; [|first [apply Ha|apply Hb|done]..].
  split_and!; try done; try lia. rewrite Hs. intros Ht. by rewrite Ht in Hsc.
Qed.

(** A transaction the parser returned is well formed and its parts fit a usize. *)
Lemma parsed_parts bytes name tx :
  Z.of_nat (length bytes) ≤ int_max Usize → parse_transaction bytes name = Ok tx →
  fits U32 (ptx_version tx) = true ∧ fits U32 (ptx_lock_time tx) = true ∧
  Forall wf_txin (ptx_inputs tx) ∧ Forall wf_txout (ptx_outputs tx) ∧
  size_ok (scripts_bytes tx) ∧ size_ok (sequences_bytes tx) ∧ size_ok (outputs_bytes tx).
Proof.
  intros Hlen Hp. destruct (parse_inv _ _ _ Hlen Hp) as (flag & v & ins & outs & st & lock & _ & Hwf & -> & ->).
  cbn. split_and!; try apply Hwf; unfold size_ok, outputs_bytes, scripts_bytes, sequences_bytes in *; cbn.
  all: unfold tx_bytes in Hlen; rewrite !length_app in Hlen.
  - assert (length (ins ≫= fun i => ctv_compact_size (Z.of_nat (length (pti_script_sig i))) ++ pti_script_sig i)
            ≤ length (ins ≫= txin_bytes))%nat; [|widths].
    clear. induction ins as [|i ins IH]; [done|]. rewrite !bind_cons, !length_app.
    unfold txin_bytes at 1, item_bytes. rewrite !length_app. lia.
  - assert (length (ins ≫= fun i => le_bytes 4 (pti_sequence i)) ≤ length (ins ≫= txin_bytes))%nat; [|widths].
    clear. induction ins as [|i ins IH]; [done|]. rewrite !bind_cons, !length_app.
    unfold txin_bytes at 1, item_bytes. rewrite !length_app. lia.
  - widths.
Qed.

(** Equal template hashes of two parsed transactions, with no collision among
    the byte strings hashed for them, mean equal templates. *)
Lemma template_bound bytes_a bytes_b name_a name_b a b i j h :
  Z.of_nat (length bytes_a) ≤ int_max Usize → Z.of_nat (length bytes_b) ≤ int_max Usize →
  parse_transaction bytes_a name_a = Ok a → parse_transaction bytes_b name_b = Ok b →
  default_ctv_hash_for_parsed_tx a i = Ok h → default_ctv_hash_for_parsed_tx b j = Ok h →
  no_collision (hashed_for_template a i ++ hashed_for_template b j) →
  template a = template b ∧ i = j.
Proof.
  intros Hla Hlb Hpa Hpb Ha Hb Hfree. unfold default_ctv_hash_for_parsed_tx in Ha, Hb.
  apply bind_Ok in Ha as (pa & Hpra & [= <-]), Hb as (pb & Hprb & [= Hhash]).
  unfold hashed_for_template in Hfree. rewrite Hpra, Hprb in Hfree.
  assert (pb = pa) as -> by (apply Hfree; [in_list..|done]).
  destruct (parsed_parts _ _ _ Hla Hpa) as (Hva & Hka & Hia & Hoa & Hsa1 & Hsa2 & Hsa3).
  destruct (parsed_parts _ _ _ Hlb Hpb) as (Hvb & Hkb & Hib & Hob & _ & _ & _).
  destruct (preimage_parts a b i j pa) as (Hv & Hl & -> & Hin & Hout & Hss & Hsc & Hsq & Hou);
    [done..|by apply ctv_preimage_Ok|by apply ctv_preimage_Ok|].
  apply Hfree in Hsq, Hou; [|in_list..]. split; [|done]. unfold template.
  assert (pti_script_sig <$> ptx_inputs a = pti_script_sig <$> ptx_inputs b) as ->.
  { destruct (has_script_sig a) eqn:Ha.
    - specialize (Hsc eq_refl). apply Hfree in Hsc; [|in_list..]. unfold scripts_bytes in *.
      eapply (encodings_inj read_var_bytes item_bytes); rewrite ?length_fmap, ?list_fmap_bind; [| |done..].
      all: intros x (t & -> & Ht)%list_elem_of_fmap; apply reads_var_bytes.
      + rewrite Forall_forall in Hia. apply (Hia _ Ht).
      + rewrite Forall_forall in Hib. apply (Hib _ Ht).
    - symmetry in Hss. apply has_script_sig_false in Ha, Hss. congruence. }
  assert (pti_sequence <$> ptx_inputs a = pti_sequence <$> ptx_inputs b) as ->.
  { unfold sequences_bytes in *.
    eapply (encodings_inj read_u32 (le_bytes 4)); rewrite ?length_fmap, ?list_fmap_bind; [| |done..].
    all: intros x (t & -> & Ht)%list_elem_of_fmap; apply reads_u32.
    + rewrite Forall_forall in Hia. apply (Hia _ Ht).
    + rewrite Forall_forall in Hib. apply (Hib _ Ht). }
  assert (ptx_outputs a = ptx_outputs b) as ->.
  { eapply (encodings_inj read_output serialize_txout); [| |done..].
    all: intros x Hx; apply reads_output.
    + rewrite Forall_forall in Hoa. apply (Hoa _ Hx).
    + rewrite Forall_forall in Hob. apply (Hob _ Hx). }
  congruence.
Qed.

Lemma tapleaf_preimage_inj h h' :
  length h = length h' →
  tapleaf_preimage (ctv_leaf_script h) = tapleaf_preimage (ctv_leaf_script h') → h = h'.
Proof.
  intros Hl Heq. unfold tapleaf_preimage in Heq. rewrite !app_assoc in Heq.
  assert (length (ctv_leaf_script h) = length (ctv_leaf_script h')) as Hls
    by (unfold ctv_leaf_script; rewrite !length_app; lia).
  apply app_inj_2 in Heq as [_ Heq]; [|done]. unfold ctv_leaf_script in Heq.
  apply app_inj_1 in Heq as [_ Heq]; [|done]. by apply app_inj_1 in Heq as [Heq _].
Qed.

Lemma ctv_hash_length tx i h : default_ctv_hash_for_parsed_tx tx i = Ok h → length h = 32%nat.
Proof. intros Hh. unfold default_ctv_hash_for_parsed_tx in Hh. res_inv. apply sha256_length. Qed.

(** The template hash sees only the template: not the outpoint spent, not the
    witness. *)
Lemma ctv_hash_template a b i :
  template a = template b →
  default_ctv_hash_for_parsed_tx a i = default_ctv_hash_for_parsed_tx b i.
Proof.
  unfold template. intros [= Hv Hl Hsc Hsq Ho].
  assert (length (ptx_inputs a) = length (ptx_inputs b)) as Hlen
    by (by rewrite <- (length_fmap pti_sequence), Hsq, length_fmap).
  assert (has_script_sig a = has_script_sig b) as Hs.
  { apply eq_true_iff_eq. rewrite <- !not_false_iff_true, !has_script_sig_false, Hsc, Hlen. done. }
  assert (scripts_bytes a = scripts_bytes b) as Hsb.
  { apply (f_equal (fun l => l ≫= item_bytes)) in Hsc. by rewrite !list_fmap_bind in Hsc. }
  assert (sequences_bytes a = sequences_bytes b) as Hqb.
  { apply (f_equal (fun l => l ≫= le_bytes 4)) in Hsq. by rewrite !list_fmap_bind in Hsq. }
  unfold default_ctv_hash_for_parsed_tx, ctv_preimage, outputs_bytes.
  by rewrite Hlen, Hs, Hsb, Hqb, Hv, Hl, Ho.
Qed.
End binding.
