(* ===== verification/Fanout.v ===== *)
(** CTV fanout precommitments and manifests (crates/qbit-prism/src/ctv.rs):
    the canonical payout list, the pre-mining commitment, the manifest that
    spends a mined coinbase, and the structural verifier. *)
From Stdlib Require Import ZArith Lia.
From Stdlib Require String.
From coqutil Require Import Byte Word.LittleEndianList.
From stdpp Require Import base list strings pretty gmap sorting.
From S2P Require Import Prelude Order Bytes Crates Payee PoolBuilder CoinbaseTx PrismError.
From S2P Require Import CtvTx CtvHash Settlement.
From Stdlib Require Import Sorting.Permutation.

Open Scope Z_scope.

Definition CTV_FANOUT_MANIFEST_SCHEMA : string := "qbit.prism.ctv-fanout-manifest.v1".
Definition CTV_FANOUT_PRECOMMITMENT_SCHEMA : string := "qbit.prism.ctv-fanout-precommitment.v1".
Definition CTV_FANOUT_COMMITMENT_LEAF_TAG : string := "qbit.prism.ctv-fanout.commitment.v1".
Definition COINBASE_PREVOUT_VOUT : Z := int_max U32.
Definition P2A_ANCHOR_SCRIPT_PUBKEY_HEX : string := "51024e73".
Definition CTV_FANOUT_ANCHOR_VALUE_SATS : Z := 0.
Definition CTV_FANOUT_TX_VERSION : Z := 3.
Definition SEQUENCE_LOCKTIME_DISABLE_FLAG : Z := Z.shiftl 1 31.
Definition CTV_FANOUT_SEQUENCE_BASE : Z := SEQUENCE_LOCKTIME_DISABLE_FLAG.

(** * Data *)
#[export] Instance settlement_mode_eq_dec : EqDecision SettlementMode.
Proof. solve_decision. Defined.

Record CtvFanoutPayout := {
  cfp_recipient_id : string;
  cfp_order_key : string;
  cfp_p2mr_program_hex : string;
  cfp_gross_amount_sats : Z;
  cfp_fee_sats : Z;
  cfp_amount_sats : Z;
}.

Record CtvFanoutManifestInput := {
  cfi_block_height : Z;
  cfi_chunk_index : Z;
  cfi_chunk_count : Z;
  cfi_coinbase_value_sats : Z;
  cfi_settlement_mode : SettlementMode;
  cfi_fanout_tx_template_hex : string;
  cfi_parent_coinbase_tx_hex : string;
  cfi_parent_coinbase_vout : Z;
  cfi_fanout_tx_hex : string;
  cfi_reward_manifest_sha256_hex : string;
  cfi_payout_policy_manifest_sha256_hex : string;
  cfi_payouts : list CtvFanoutPayout;
}.

Record CtvFanoutPrecommitmentInput := {
  cpi_block_height : Z;
  cpi_chunk_index : Z;
  cpi_chunk_count : Z;
  cpi_coinbase_value_sats : Z;
  cpi_settlement_mode : SettlementMode;
  cpi_reward_manifest_sha256_hex : string;
  cpi_payout_policy_manifest_sha256_hex : string;
  cpi_payouts : list CtvFanoutPayout;
}.

Record CtvFanoutOutput := {
  cfo_vout : Z;
  cfo_recipient_id : string;
  cfo_order_key : string;
  cfo_p2mr_program_hex : string;
  cfo_script_pubkey_hex : string;
  cfo_gross_amount_sats : Z;
  cfo_fee_sats : Z;
  cfo_amount_sats : Z;
}.

Record CtvFanoutPrecommitment := {
  cpc_schema : string;
  cpc_block_height : Z;
  cpc_chunk_index : Z;
  cpc_chunk_count : Z;
  cpc_coinbase_value_sats : Z;
  cpc_settlement_mode : SettlementMode;
  cpc_covenant_output_value_sats : Z;
  cpc_covenant_script_pubkey_hex : string;
  cpc_fanout_tx_template_hex : string;
  cpc_fanout_input_index : Z;
  cpc_fanout_sequence : Z;
  cpc_fanout_lock_time : Z;
  cpc_fanout_output_sum_sats : Z;
  cpc_fanout_fee_sats : Z;
  cpc_anchor_vout : option Z;
  cpc_ctv_hash_hex : string;
  cpc_ctv_leaf_script_hex : string;
  cpc_p2mr_program_hex : string;
  cpc_p2mr_control_block_hex : string;
  cpc_reward_manifest_sha256_hex : string;
  cpc_payout_policy_manifest_sha256_hex : string;
  cpc_outputs : list CtvFanoutOutput;
}.

Record PreparedCtvFanout := {
  pcf_precommitment : CtvFanoutPrecommitment;
  pcf_precommitment_sha256_hex : string;
  pcf_commitment_witness_leaf_hex : string;
  pcf_covenant_recipient_id : string;
  pcf_covenant_order_key : string;
  pcf_covenant_p2mr_program_hex : string;
  pcf_covenant_output_value_sats : Z;
}.

Record CtvFanoutManifest := {
  cfm_schema : string;
  cfm_precommitment : CtvFanoutPrecommitment;
  cfm_precommitment_sha256_hex : string;
  cfm_commitment_witness_leaf_hex : string;
  cfm_parent_coinbase_txid : string;
  cfm_parent_coinbase_tx_hex : string;
  cfm_parent_coinbase_vout : Z;
  cfm_covenant_output_value_sats : Z;
  cfm_covenant_script_pubkey_hex : string;
  cfm_fanout_tx_hex : string;
  cfm_fanout_txid : string;
}.

(** [as u32]. *)
Definition as_u32 (z : Z) : Z := z mod 2 ^ 32.
(** [format!("{:08}")]. *)
Definition pad8 (z : Z) : string :=
  let s := pretty z in repeat_string (8 - String.length s) "0" +:+ s.

Definition CtvErr {A} (r : string + A) (prefix : string) : result PrismError A :=
  match r with inl err => invalid_ctv_manifest (prefix +:+ err) | inr a => Ok a end.

Section fanout.
Context `{HexCrate, Sha256Crate, ToJson CtvFanoutPrecommitment}.

(** * Hex fields *)
Definition normalize_hex (value : string) : result PrismError string :=
  bytes ← CtvErr (hex_decode value) "invalid transaction hex: "; Ok (hex_encode bytes).

(** [bytes.try_into()] to a 32-byte array. *)
Definition decode_hash_hex (value field_name : string) : result PrismError (list byte) :=
  bytes ← CtvErr (hex_decode value) (field_name +:+ " must be hex: ");
  _ ← require_ctv (length bytes =? 32)%nat
        (field_name +:+ " must be 32 bytes, got " +:+ pretty (length bytes));
  Ok bytes.
Definition decode_program_hex (value field_name : string) : result PrismError (list byte) :=
  bytes ← CtvErr (hex_decode value) (field_name +:+ " must be hex: ");
  _ ← require_ctv (length bytes =? P2MR_PROGRAM_LEN)%nat
        (field_name +:+ " must be " +:+ pretty P2MR_PROGRAM_LEN +:+ " bytes, got " +:+
         pretty (length bytes));
  Ok bytes.
Definition normalize_txid_hex (value field_name : string) : result PrismError string :=
  bytes ← CtvErr (hex_decode value) (field_name +:+ " must be hex: ");
  _ ← require_ctv (length bytes =? 32)%nat
        (field_name +:+ " must be 32 bytes, got " +:+ pretty (length bytes));
  Ok (hex_encode bytes).

Definition validate_sha256_hex (value field_name : string) : result PrismError unit :=
  _ ← decode_hash_hex value field_name; Ok ().
Definition validate_canonical_sha256_hex (value field_name : string) : result PrismError unit :=
  hash ← decode_hash_hex value field_name;
  require_ctv (bool_decide (value = hex_encode hash))
    (field_name +:+ " must be lowercase canonical hex").
Definition validate_canonical_hex (value field_name : string) : result PrismError unit :=
  bytes ← CtvErr (hex_decode value) (field_name +:+ " must be hex: ");
  require_ctv (bool_decide (value = hex_encode bytes))
    (field_name +:+ " must be lowercase canonical hex").
Definition canonical_p2mr_program_hex (value field_name : string) : result PrismError string :=
  program ← decode_program_hex value field_name; Ok (hex_encode program).

Definition sha256_hex (bytes : list byte) : string := hex_encode (sha256 bytes).
Definition commitment_witness_leaf_hex (precommitment_sha256_hex : string)
  : result PrismError string :=
  precommitment_hash ← decode_hash_hex precommitment_sha256_hex "precommitment_sha256_hex";
  Ok (hex_encode (sha256 (str_bytes CTV_FANOUT_COMMITMENT_LEAF_TAG ++ precommitment_hash))).
Definition canonical_precommitment_bytes (p : CtvFanoutPrecommitment)
  : result PrismError (list byte) :=
  match json_to_vec p with inl display => Err (PrismJson display) | inr bytes => Ok bytes end.

(** * Shape checks *)
Definition validate_chunk_identity (chunk_index chunk_count : Z) : result PrismError unit :=
  _ ← require_ctv (negb (chunk_count =? 0)) "fanout chunk_count must be positive";
  require_ctv (chunk_index <? chunk_count) "fanout chunk_index must be less than chunk_count".
Definition expected_fanout_sequence (chunk_index : Z) : result PrismError Z :=
  ok_or (checked_add U32 CTV_FANOUT_SEQUENCE_BASE chunk_index)
    (InvalidCtvFanoutManifest "fanout sequence overflowed").

Definition ensure_coinbase_shape (tx : ParsedTransaction) : result PrismError unit :=
  _ ← require_ctv (length (ptx_inputs tx) =? 1)%nat "parent coinbase must have exactly one input";
  input ← expect (ptx_inputs tx !! 0%nat) "index out of bounds";
  require_ctv (bool_decide (pti_prev_txid_hex input = repeat_string 32 "00") &&
               (pti_prev_vout input =? COINBASE_PREVOUT_VOUT))
    "parent coinbase input must spend the null outpoint".
Definition validate_fanout_template (tx : ParsedTransaction) : result PrismError unit :=
  _ ← require_ctv (ptx_version tx =? CTV_FANOUT_TX_VERSION)
        "fanout template must be a version 3 (TRUC) transaction";
  _ ← require_ctv (length (ptx_inputs tx) =? 1)%nat
        "fanout template transaction must have exactly one input";
  _ ← require_ctv (bool_decide (ptx_witness_stacks tx = None))
        "fanout template transaction must not include witness data";
  input ← expect (ptx_inputs tx !! Z.to_nat QBIT_CTV_INPUT_INDEX) "index out of bounds";
  require_ctv (bool_decide (pti_script_sig input = []))
    "fanout template input scriptSig must be empty".

Definition fanout_has_cpfp_anchor (fanout_fee_sats : Z) : bool := fanout_fee_sats =? 0.
Definition anchor_vout_for_fee (output_count : nat) (fanout_fee_sats : Z)
  : result PrismError (option Z) :=
  if negb (fanout_has_cpfp_anchor fanout_fee_sats) then Ok None else
  vout ← ok_or (checked U32 (Z.of_nat output_count))
           (InvalidCtvFanoutManifest "fanout anchor vout exceeds uint32");
  Ok (Some vout).
Definition p2a_anchor_script_pubkey : result PrismError (list byte) :=
  match hex_decode P2A_ANCHOR_SCRIPT_PUBKEY_HEX with
  | inr script => Ok script | inl _ => Panic "static P2A script hex" end.
Definition ensure_fee_anchor_output (output : ParsedTxOut) (declared_vout : Z) (expected_index : nat)
  : result PrismError unit :=
  _ ← require_ctv (declared_vout =? Z.of_nat expected_index) "fee anchor vout mismatch";
  _ ← require_ctv (pto_amount_sats output =? CTV_FANOUT_ANCHOR_VALUE_SATS) "fee anchor value must be zero";
  script ← p2a_anchor_script_pubkey;
  require_ctv (bool_decide (pto_script_pubkey output = script)) "fee anchor must use the P2A scriptPubKey".

Definition verify_fanout_witness (tx : ParsedTransaction) (leaf_script : list byte)
  : result PrismError unit :=
  witness ← ok_or (ptx_witness_stacks tx)
              (InvalidCtvFanoutManifest "fanout transaction must include P2MR witness");
  input_witness ← ok_or (witness !! Z.to_nat QBIT_CTV_INPUT_INDEX)
              (InvalidCtvFanoutManifest "fanout witness input 0 is missing");
  _ ← require_ctv (length input_witness =? 2)%nat
        "fanout P2MR witness must contain leaf script and control block";
  item0 ← expect (input_witness !! 0%nat) "index out of bounds";
  _ ← require_ctv (bool_decide (item0 = leaf_script)) "fanout witness leaf script mismatch";
  item1 ← expect (input_witness !! 1%nat) "index out of bounds";
  require_ctv (bool_decide (item1 = [byte.of_Z QBIT_P2MR_CONTROL_BLOCK]))
    "fanout witness control block mismatch".

(** * The canonical payout list *)
Definition program_normalized (payout : CtvFanoutPayout) : result PrismError CtvFanoutPayout :=
  program ← canonical_p2mr_program_hex (cfp_p2mr_program_hex payout) "payout p2mr_program_hex";
  Ok {| cfp_recipient_id := cfp_recipient_id payout; cfp_order_key := cfp_order_key payout;
        cfp_p2mr_program_hex := program; cfp_gross_amount_sats := cfp_gross_amount_sats payout;
        cfp_fee_sats := cfp_fee_sats payout; cfp_amount_sats := cfp_amount_sats payout |}.

Definition payout_key (payout : CtvFanoutPayout) : string * string * string :=
  (cfp_order_key payout, cfp_recipient_id payout, cfp_p2mr_program_hex payout).
Definition compare_payouts : CtvFanoutPayout -> CtvFanoutPayout -> comparison :=
  cmp_then (cmp_on payout_key string_triple_cmp) (cmp_on cfp_amount_sats Z.compare).

Definition payout_gross (payout : CtvFanoutPayout) : Z :=
  if cfp_gross_amount_sats payout =? 0 then cfp_amount_sats payout
  else cfp_gross_amount_sats payout.

(** The closure of the [map]; [seen] is the set it captures. *)
Definition fanout_output (acc : list CtvFanoutOutput * gset (string * string * string))
    (indexed : nat * CtvFanoutPayout)
  : result PrismError (list CtvFanoutOutput * gset (string * string * string)) :=
  let '(outputs, seen) := acc in
  let '(index, payout) := indexed in
  _ ← require_ctv (negb (cfp_amount_sats payout =? 0)) "fanout payout amount must be positive";
  gross ← ok_or (checked_add U64 (cfp_amount_sats payout) (cfp_fee_sats payout))
            (InvalidCtvFanoutManifest "fanout payout gross amount overflowed");
  _ ← require_ctv (gross =? payout_gross payout)
        "fanout payout gross amount must equal amount plus fee";
  p2mr_program ← decode_program_hex (cfp_p2mr_program_hex payout) "payout p2mr_program_hex";
  _ ← require_ctv (negb (bool_decide (payout_key payout ∈ seen)))
        "duplicate fanout payout recipient";
  Ok (outputs ++
      [{| cfo_vout := as_u32 (Z.of_nat index);
          cfo_recipient_id := cfp_recipient_id payout; cfo_order_key := cfp_order_key payout;
          cfo_p2mr_program_hex := cfp_p2mr_program_hex payout;
          cfo_script_pubkey_hex := hex_encode (p2mr_script_pubkey p2mr_program);
          cfo_gross_amount_sats := payout_gross payout;
          cfo_fee_sats := cfp_fee_sats payout; cfo_amount_sats := cfp_amount_sats payout |}],
      {[payout_key payout]} ∪ seen).

Definition canonical_fanout_outputs (payouts : list CtvFanoutPayout)
  : result PrismError (list CtvFanoutOutput) :=
  _ ← require_ctv (negb (bool_decide (payouts = []))) "fanout must have at least one payout";
  payouts ← collect program_normalized payouts;
  '(outputs, _) ← try_fold fanout_output ([], ∅) (imap pair (sort_by compare_payouts payouts));
  Ok outputs.

(** * Fanout transactions *)
Definition output_spec_from_fanout_output (output : CtvFanoutOutput)
  : result PrismError TxOutputSpec :=
  script ← CtvErr (hex_decode (cfo_script_pubkey_hex output))
             "fanout output scriptPubKey must be canonical hex: ";
  Ok {| tos_amount_sats := cfo_amount_sats output; tos_script_pubkey := script |}.
Definition p2a_anchor_output_spec : result PrismError TxOutputSpec :=
  script ← p2a_anchor_script_pubkey;
  Ok {| tos_amount_sats := CTV_FANOUT_ANCHOR_VALUE_SATS; tos_script_pubkey := script |}.
Definition output_specs_with_anchor (outputs : list CtvFanoutOutput)
  : result PrismError (list TxOutputSpec) :=
  all ← collect output_spec_from_fanout_output outputs;
  anchor ← p2a_anchor_output_spec;
  Ok (all ++ [anchor]).
Definition fanout_output_specs (outputs : list CtvFanoutOutput) (include_anchor : bool)
  : result PrismError (list TxOutputSpec) :=
  if include_anchor then output_specs_with_anchor outputs
  else collect output_spec_from_fanout_output outputs.

Definition unsigned_fanout_tx_hex (parent_txid_hex : string) (parent_vout : Z)
    (outputs : list CtvFanoutOutput) (include_anchor : bool) (lock_time sequence : Z)
  : result PrismError string :=
  prev_txid ← normalize_txid_hex parent_txid_hex "fanout parent txid";
  specs ← fanout_output_specs outputs include_anchor;
  serialize_tx_hex CTV_FANOUT_TX_VERSION
    [{| tis_prev_txid_hex := prev_txid; tis_prev_vout := parent_vout; tis_script_sig := [];
        tis_sequence := sequence; tis_witness_stack := [] |}]
    specs lock_time false.
Definition witnessed_fanout_tx_hex (parent_txid_hex : string) (parent_vout : Z)
    (outputs : list CtvFanoutOutput) (include_anchor : bool) (lock_time sequence : Z)
    (leaf_script : list byte) : result PrismError string :=
  prev_txid ← normalize_txid_hex parent_txid_hex "fanout parent txid";
  specs ← fanout_output_specs outputs include_anchor;
  serialize_tx_hex CTV_FANOUT_TX_VERSION
    [{| tis_prev_txid_hex := prev_txid; tis_prev_vout := parent_vout; tis_script_sig := [];
        tis_sequence := sequence;
        tis_witness_stack := [leaf_script; [byte.of_Z QBIT_P2MR_CONTROL_BLOCK]] |}]
    specs lock_time true.

Definition default_ctv_hash_hex (tx_hex : string) (input_index : Z) : result PrismError string :=
  tx ← parse_transaction_hex tx_hex "tx_hex";
  hash ← default_ctv_hash_for_parsed_tx tx input_index;
  Ok (hex_encode hash).
Definition ctv_leaf_script_hex (ctv_hash_hex : string) : result PrismError string :=
  ctv_hash ← decode_hash_hex ctv_hash_hex "ctv_hash_hex";
  Ok (hex_encode (ctv_leaf_script ctv_hash)).
Definition p2mr_program_for_ctv_leaf_hex (ctv_leaf_script_hex : string)
  : result PrismError string :=
  leaf_script ← CtvErr (hex_decode ctv_leaf_script_hex) "invalid ctv_leaf_script_hex: ";
  Ok (hex_encode (p2mr_tapleaf_hash leaf_script)).

(** * Verifying a precommitment *)
Definition verify_precommitment_encoding (p : CtvFanoutPrecommitment) : result PrismError unit :=
  _ ← require_ctv (bool_decide (cpc_schema p = CTV_FANOUT_PRECOMMITMENT_SCHEMA))
        "unexpected fanout precommitment schema";
  _ ← validate_canonical_hex (cpc_covenant_script_pubkey_hex p) "precommitment covenant_script_pubkey_hex";
  _ ← validate_canonical_hex (cpc_fanout_tx_template_hex p) "precommitment fanout_tx_template_hex";
  _ ← validate_canonical_sha256_hex (cpc_ctv_hash_hex p) "precommitment ctv_hash_hex";
  _ ← validate_canonical_hex (cpc_ctv_leaf_script_hex p) "precommitment ctv_leaf_script_hex";
  program ← canonical_p2mr_program_hex (cpc_p2mr_program_hex p) "precommitment p2mr_program_hex";
  _ ← require_ctv (bool_decide (cpc_p2mr_program_hex p = program))
        "precommitment p2mr_program_hex must be lowercase canonical hex";
  _ ← validate_canonical_hex (cpc_p2mr_control_block_hex p) "precommitment p2mr_control_block_hex";
  _ ← validate_canonical_sha256_hex (cpc_reward_manifest_sha256_hex p)
        "precommitment reward_manifest_sha256_hex";
  _ ← validate_canonical_sha256_hex (cpc_payout_policy_manifest_sha256_hex p)
        "precommitment payout_policy_manifest_sha256_hex";
  _ ← validate_chunk_identity (cpc_chunk_index p) (cpc_chunk_count p);
  sequence ← expected_fanout_sequence (cpc_chunk_index p);
  _ ← require_ctv (cpc_fanout_sequence p =? sequence) "fanout sequence must equal the chunk index";
  require_ctv (cpc_fanout_lock_time p =? as_u32 (cpc_block_height p))
    "fanout lock_time must equal block height for unique CTV context".

(** One turn of the loop over the outputs: the two sums and the [seen] set. *)
Definition verify_output (acc : Z * Z * gset (string * string * string))
    (indexed : nat * CtvFanoutOutput)
  : result PrismError (Z * Z * gset (string * string * string)) :=
  let '(expected_sum, expected_fee_sats, seen) := acc in
  let '(index, output) := indexed in
  _ ← require_ctv (cfo_vout output =? as_u32 (Z.of_nat index))
        ("fanout output " +:+ pretty index +:+ " vout mismatch");
  _ ← require_ctv (negb (cfo_amount_sats output =? 0))
        ("fanout output " +:+ pretty index +:+ " amount must be positive");
  program_hex ← canonical_p2mr_program_hex (cfo_p2mr_program_hex output) "precommitment p2mr_program_hex";
  let key := (cfo_order_key output, cfo_recipient_id output, program_hex) in
  _ ← require_ctv (negb (bool_decide (key ∈ seen))) "duplicate fanout payout recipient";
  expected_program ← decode_program_hex (cfo_p2mr_program_hex output) "precommitment p2mr_program_hex";
  _ ← require_ctv (bool_decide (cfo_p2mr_program_hex output = hex_encode expected_program))
        "precommitment p2mr_program_hex must be lowercase canonical hex";
  _ ← require_ctv (bool_decide (hex_encode (p2mr_script_pubkey expected_program) =
                                cfo_script_pubkey_hex output))
        ("fanout output " +:+ pretty index +:+ " scriptPubKey mismatch");
  expected_sum ← ok_or (checked_add U64 expected_sum (cfo_amount_sats output))
                   (InvalidCtvFanoutManifest "fanout output sum overflowed");
  expected_fee_sats ← ok_or (checked_add U64 expected_fee_sats (cfo_fee_sats output))
                        (InvalidCtvFanoutManifest "fanout fee sum overflowed");
  Ok (expected_sum, expected_fee_sats, {[key]} ∪ seen).

Definition verify_fee_anchor (p : CtvFanoutPrecommitment) : result PrismError unit :=
  if cpc_fanout_fee_sats p =? 0 then
    match cpc_anchor_vout p with
    | Some anchor_vout =>
        if anchor_vout =? Z.of_nat (length (cpc_outputs p)) then Ok ()
        else invalid_ctv_manifest "fee anchor vout must follow the payouts"
    | None => invalid_ctv_manifest "zero-fee fanout must include a CPFP anchor"
    end
  else
    match cpc_anchor_vout p with
    | Some _ => invalid_ctv_manifest "built-in-fee fanout must not include a CPFP anchor"
    | None => Ok ()
    end.

Definition verify_precommitment (p : CtvFanoutPrecommitment) : result PrismError unit :=
  _ ← verify_precommitment_encoding p;
  _ ← require_ctv (negb (bool_decide (cpc_outputs p = []))) "fanout precommitment has no outputs";
  '(expected_sum, expected_fee_sats, _) ← try_fold verify_output (0, 0, ∅) (imap pair (cpc_outputs p));
  _ ← require_ctv (expected_sum =? cpc_fanout_output_sum_sats p) "fanout output sum mismatch";
  _ ← require_ctv (expected_fee_sats =? cpc_fanout_fee_sats p) "fanout fee sum mismatch";
  funded_value_sats ← ok_or (checked_add U64 expected_sum expected_fee_sats)
                        (InvalidCtvFanoutManifest "fanout funded value overflowed");
  _ ← require_ctv (funded_value_sats =? cpc_covenant_output_value_sats p)
        "fanout payouts plus fee do not equal covenant output value";
  verify_fee_anchor p.

(** * Preparing a precommitment *)
Definition sum_output_amounts (outputs : list CtvFanoutOutput) : result PrismError Z :=
  try_fold (fun sum output => ok_or (checked_add U64 sum (cfo_amount_sats output))
    (InvalidCtvFanoutManifest "fanout output sum overflowed")) 0 outputs.
Definition sum_output_fees (outputs : list CtvFanoutOutput) : result PrismError Z :=
  try_fold (fun sum output => ok_or (checked_add U64 sum (cfo_fee_sats output))
    (InvalidCtvFanoutManifest "fanout fee sum overflowed")) 0 outputs.

Definition prepare_ctv_fanout_precommitment (input : CtvFanoutPrecommitmentInput)
  : result PrismError PreparedCtvFanout :=
  _ ← require_ctv (cpi_block_height input <=? int_max U32) "block height must fit fanout lock_time";
  _ ← require_ctv (negb (bool_decide (cpi_settlement_mode input = DirectCoinbase)))
        "direct_coinbase mode cannot include a CTV fanout precommitment";
  _ ← validate_chunk_identity (cpi_chunk_index input) (cpi_chunk_count input);
  _ ← validate_sha256_hex (cpi_reward_manifest_sha256_hex input) "reward_manifest_sha256_hex";
  _ ← validate_sha256_hex (cpi_payout_policy_manifest_sha256_hex input)
        "payout_policy_manifest_sha256_hex";
  outputs ← canonical_fanout_outputs (cpi_payouts input);
  fanout_output_sum_sats ← sum_output_amounts outputs;
  fanout_fee_sats ← sum_output_fees outputs;
  covenant_output_value_sats ← ok_or (checked_add U64 fanout_output_sum_sats fanout_fee_sats)
    (InvalidCtvFanoutManifest "fanout covenant value overflowed");
  sequence ← expected_fanout_sequence (cpi_chunk_index input);
  fanout_tx_template_hex ← unsigned_fanout_tx_hex (repeat_string 32 "00") 0 outputs
    (fanout_has_cpfp_anchor fanout_fee_sats) (as_u32 (cpi_block_height input)) sequence;
  ctv_hash_hex ← default_ctv_hash_hex fanout_tx_template_hex QBIT_CTV_INPUT_INDEX;
  leaf_hex ← ctv_leaf_script_hex ctv_hash_hex;
  p2mr_program_hex ← p2mr_program_for_ctv_leaf_hex leaf_hex;
  program ← decode_program_hex p2mr_program_hex "p2mr_program_hex";
  anchor_vout ← anchor_vout_for_fee (length outputs) fanout_fee_sats;
  let precommitment := {|
    cpc_schema := CTV_FANOUT_PRECOMMITMENT_SCHEMA;
    cpc_block_height := cpi_block_height input;
    cpc_chunk_index := cpi_chunk_index input;
    cpc_chunk_count := cpi_chunk_count input;
    cpc_coinbase_value_sats := cpi_coinbase_value_sats input;
    cpc_settlement_mode := cpi_settlement_mode input;
    cpc_covenant_output_value_sats := covenant_output_value_sats;
    cpc_covenant_script_pubkey_hex := hex_encode (p2mr_script_pubkey program);
    cpc_fanout_tx_template_hex := fanout_tx_template_hex;
    cpc_fanout_input_index := QBIT_CTV_INPUT_INDEX;
    cpc_fanout_sequence := sequence;
    cpc_fanout_lock_time := as_u32 (cpi_block_height input);
    cpc_fanout_output_sum_sats := fanout_output_sum_sats;
    cpc_fanout_fee_sats := fanout_fee_sats;
    cpc_anchor_vout := anchor_vout;
    cpc_ctv_hash_hex := ctv_hash_hex;
    cpc_ctv_leaf_script_hex := leaf_hex;
    cpc_p2mr_program_hex := p2mr_program_hex;
    cpc_p2mr_control_block_hex := hex_encode [byte.of_Z QBIT_P2MR_CONTROL_BLOCK];
    cpc_reward_manifest_sha256_hex := to_ascii_lowercase (cpi_reward_manifest_sha256_hex input);
    cpc_payout_policy_manifest_sha256_hex :=
      to_ascii_lowercase (cpi_payout_policy_manifest_sha256_hex input);
    cpc_outputs := outputs |} in
  _ ← verify_precommitment precommitment;
  bytes ← canonical_precommitment_bytes precommitment;
  leaf ← commitment_witness_leaf_hex (sha256_hex bytes);
  Ok {| pcf_precommitment := precommitment;
        pcf_precommitment_sha256_hex := sha256_hex bytes;
        pcf_commitment_witness_leaf_hex := leaf;
        pcf_covenant_recipient_id := "ctv-fanout-" +:+ pretty (cpi_chunk_index input);
        pcf_covenant_order_key := "ctv-fanout-" +:+ pad8 (cpi_chunk_index input);
        pcf_covenant_p2mr_program_hex := p2mr_program_hex;
        pcf_covenant_output_value_sats := covenant_output_value_sats |}.

(** * Verifying a manifest *)
Definition verify_manifest_encoding (m : CtvFanoutManifest) : result PrismError unit :=
  let p := cfm_precommitment m in
  _ ← require_ctv (bool_decide (cfm_schema m = CTV_FANOUT_MANIFEST_SCHEMA))
        "unexpected fanout manifest schema";
  _ ← verify_precommitment p;
  _ ← validate_canonical_sha256_hex (cfm_precommitment_sha256_hex m) "manifest precommitment_sha256_hex";
  _ ← validate_canonical_sha256_hex (cfm_commitment_witness_leaf_hex m)
        "manifest commitment_witness_leaf_hex";
  _ ← validate_canonical_sha256_hex (cfm_parent_coinbase_txid m) "manifest parent_coinbase_txid";
  _ ← validate_canonical_hex (cfm_parent_coinbase_tx_hex m) "manifest parent_coinbase_tx_hex";
  _ ← validate_canonical_hex (cfm_covenant_script_pubkey_hex m) "manifest covenant_script_pubkey_hex";
  _ ← validate_canonical_hex (cfm_fanout_tx_hex m) "manifest fanout_tx_hex";
  _ ← validate_canonical_sha256_hex (cfm_fanout_txid m) "manifest fanout_txid";
  _ ← require_ctv (negb (bool_decide (cpc_settlement_mode p = DirectCoinbase)))
        "direct_coinbase mode cannot include a CTV fanout manifest";
  _ ← validate_chunk_identity (cpc_chunk_index p) (cpc_chunk_count p);
  bytes ← canonical_precommitment_bytes p;
  _ ← require_ctv (bool_decide (cfm_precommitment_sha256_hex m = sha256_hex bytes))
        "fanout precommitment hash mismatch";
  leaf ← commitment_witness_leaf_hex (cfm_precommitment_sha256_hex m);
  _ ← require_ctv (bool_decide (cfm_commitment_witness_leaf_hex m = leaf))
        "fanout commitment witness leaf mismatch";
  _ ← require_ctv (cpc_fanout_input_index p =? QBIT_CTV_INPUT_INDEX)
        "only fanout input index 0 is supported";
  _ ← require_ctv (cpc_block_height p <=? int_max U32) "block height must fit fanout lock_time";
  _ ← validate_sha256_hex (cpc_reward_manifest_sha256_hex p) "reward_manifest_sha256_hex";
  _ ← validate_sha256_hex (cpc_payout_policy_manifest_sha256_hex p) "payout_policy_manifest_sha256_hex";
  require_ctv (bool_decide (cpc_p2mr_control_block_hex p = hex_encode [byte.of_Z QBIT_P2MR_CONTROL_BLOCK]))
    "P2MR control block mismatch".

Definition verify_parent (m : CtvFanoutManifest) : result PrismError unit :=
  let p := cfm_precommitment m in
  parent ← parse_transaction_hex (cfm_parent_coinbase_tx_hex m) "manifest parent_coinbase_tx_hex";
  _ ← ensure_coinbase_shape parent;
  _ ← require_ctv (bool_decide (txid_hex parent = cfm_parent_coinbase_txid m))
        "parent coinbase txid mismatch";
  covenant_output ← ok_or (ptx_outputs parent !! Z.to_nat (cfm_parent_coinbase_vout m))
        (InvalidCtvFanoutManifest "parent coinbase vout is out of range");
  _ ← require_ctv (pto_amount_sats covenant_output =? cfm_covenant_output_value_sats m)
        "covenant output value mismatch";
  _ ← require_ctv (pto_amount_sats covenant_output =? cpc_covenant_output_value_sats p)
        "parent covenant value does not match precommitment";
  _ ← require_ctv (bool_decide (hex_encode (pto_script_pubkey covenant_output) =
                                cfm_covenant_script_pubkey_hex m))
        "covenant scriptPubKey mismatch";
  require_ctv (bool_decide (cfm_covenant_script_pubkey_hex m = cpc_covenant_script_pubkey_hex p))
    "parent covenant scriptPubKey does not match precommitment".

Definition verify_fanout_input (m : CtvFanoutManifest) (fanout : ParsedTransaction)
  : result PrismError unit :=
  let p := cfm_precommitment m in
  _ ← require_ctv (bool_decide (txid_hex fanout = cfm_fanout_txid m)) "fanout txid mismatch";
  _ ← require_ctv (length (ptx_inputs fanout) =? 1)%nat
        "CTV fanout transaction must spend exactly one input";
  fanout_input ← expect (ptx_inputs fanout !! Z.to_nat QBIT_CTV_INPUT_INDEX) "index out of bounds";
  _ ← require_ctv (bool_decide (pti_script_sig fanout_input = [])) "fanout input scriptSig must be empty";
  _ ← require_ctv (bool_decide (pti_prev_txid_hex fanout_input = cfm_parent_coinbase_txid m))
        "fanout prevout txid mismatch";
  _ ← require_ctv (pti_prev_vout fanout_input =? cfm_parent_coinbase_vout m)
        "fanout prevout vout mismatch";
  _ ← require_ctv (pti_sequence fanout_input =? cpc_fanout_sequence p) "fanout sequence mismatch";
  sequence ← expected_fanout_sequence (cpc_chunk_index p);
  _ ← require_ctv (pti_sequence fanout_input =? sequence) "fanout sequence must equal the chunk index";
  _ ← require_ctv (ptx_lock_time fanout =? cpc_fanout_lock_time p) "fanout lock_time mismatch";
  require_ctv (cpc_fanout_lock_time p =? as_u32 (cpc_block_height p))
    "fanout lock_time must equal block height for unique CTV context".

Definition verify_covenant (m : CtvFanoutManifest) (fanout_template fanout : ParsedTransaction)
  : result PrismError unit :=
  let p := cfm_precommitment m in
  template_ctv_hash ← default_ctv_hash_for_parsed_tx fanout_template (cpc_fanout_input_index p);
  _ ← require_ctv (bool_decide (hex_encode template_ctv_hash = cpc_ctv_hash_hex p))
        "precommitment CTV hash mismatch";
  ctv_hash ← default_ctv_hash_for_parsed_tx fanout (cpc_fanout_input_index p);
  _ ← require_ctv (bool_decide (ctv_hash = template_ctv_hash)) "CTV hash mismatch";
  let leaf_script := ctv_leaf_script ctv_hash in
  _ ← require_ctv (bool_decide (hex_encode leaf_script = cpc_ctv_leaf_script_hex p))
        "CTV leaf script mismatch";
  let p2mr_program := p2mr_tapleaf_hash leaf_script in
  _ ← require_ctv (bool_decide (hex_encode p2mr_program = cpc_p2mr_program_hex p))
        "P2MR program mismatch";
  _ ← require_ctv (bool_decide (hex_encode (p2mr_script_pubkey p2mr_program) =
                                cfm_covenant_script_pubkey_hex m))
        "covenant scriptPubKey does not match CTV leaf";
  verify_fanout_witness fanout leaf_script.

(** One turn of the loop that zips the transaction's outputs with the payouts. *)
Definition verify_payout (acc : Z * Z) (indexed : nat * (ParsedTxOut * CtvFanoutOutput))
  : result PrismError (Z * Z) :=
  let '(fanout_output_sum_sats, fanout_fee_sats) := acc in
  let '(index, (output, payout)) := indexed in
  fanout_output_sum_sats ← ok_or (checked_add U64 fanout_output_sum_sats (pto_amount_sats output))
    (InvalidCtvFanoutManifest "fanout output sum overflowed");
  fanout_fee_sats ← ok_or (checked_add U64 fanout_fee_sats (cfo_fee_sats payout))
    (InvalidCtvFanoutManifest "fanout fee sum overflowed");
  _ ← require_ctv (cfo_vout payout =? as_u32 (Z.of_nat index))
        ("fanout output " +:+ pretty index +:+ " vout mismatch");
  _ ← require_ctv (pto_amount_sats output =? cfo_amount_sats payout)
        ("fanout output " +:+ pretty index +:+ " amount mismatch");
  expected_program ← decode_program_hex (cfo_p2mr_program_hex payout) "payout p2mr_program_hex";
  let expected_script := p2mr_script_pubkey expected_program in
  _ ← require_ctv (bool_decide (pto_script_pubkey output = expected_script))
        ("fanout output " +:+ pretty index +:+ " scriptPubKey mismatch");
  _ ← require_ctv (bool_decide (hex_encode expected_script = cfo_script_pubkey_hex payout))
        ("fanout output " +:+ pretty index +:+ " manifest scriptPubKey mismatch");
  Ok (fanout_output_sum_sats, fanout_fee_sats).

Definition verify_payouts (m : CtvFanoutManifest) (fanout : ParsedTransaction)
  : result PrismError unit :=
  let p := cfm_precommitment m in
  let has_cpfp_anchor := bool_decide (is_Some (cpc_anchor_vout p)) in
  let expected_output_count :=
    if has_cpfp_anchor then (length (cpc_outputs p) + 1)%nat else length (cpc_outputs p) in
  _ ← require_ctv (length (ptx_outputs fanout) =? expected_output_count)%nat
        (if has_cpfp_anchor
         then "fanout must have exactly the payouts plus one fee anchor output"
         else "built-in-fee fanout must have exactly the payout outputs");
  '(fanout_output_sum_sats, fanout_fee_sats) ←
    try_fold verify_payout (0, 0) (imap pair (zip (ptx_outputs fanout) (cpc_outputs p)));
  _ ← require_ctv (fanout_output_sum_sats =? cpc_fanout_output_sum_sats p) "fanout output sum mismatch";
  _ ← require_ctv (fanout_fee_sats =? cpc_fanout_fee_sats p) "fanout fee sum mismatch";
  _ ← match cpc_anchor_vout p with
      | Some anchor_vout =>
          anchor ← expect (ptx_outputs fanout !! length (cpc_outputs p)) "index out of bounds";
          ensure_fee_anchor_output anchor anchor_vout (length (cpc_outputs p))
      | None => Ok ()
      end;
  funded_value_sats ← ok_or (checked_add U64 fanout_output_sum_sats fanout_fee_sats)
    (InvalidCtvFanoutManifest "fanout funded value overflowed");
  require_ctv (funded_value_sats =? cfm_covenant_output_value_sats m)
    "fanout payouts plus fee do not equal covenant output value".

Definition verify_ctv_fanout_manifest_structure (m : CtvFanoutManifest) : result PrismError unit :=
  _ ← verify_manifest_encoding m;
  _ ← verify_parent m;
  fanout_template ← parse_transaction_hex (cpc_fanout_tx_template_hex (cfm_precommitment m))
                      "manifest fanout_tx_template_hex";
  _ ← validate_fanout_template fanout_template;
  fanout ← parse_transaction_hex (cfm_fanout_tx_hex m) "manifest fanout_tx_hex";
  _ ← verify_fanout_input m fanout;
  _ ← verify_covenant m fanout_template fanout;
  verify_payouts m fanout.

Definition verify_ctv_fanout_manifest_commitment_leaf (m : CtvFanoutManifest)
    (audit_commitment_leaves_hex : list string) : result PrismError unit :=
  _ ← verify_ctv_fanout_manifest_structure m;
  let expected := to_ascii_lowercase (cfm_commitment_witness_leaf_hex m) in
  require_ctv (existsb (fun leaf => bool_decide (to_ascii_lowercase leaf = expected))
                 audit_commitment_leaves_hex)
    "fanout precommitment witness leaf is missing".

(** * Building a manifest *)
Definition build_ctv_fanout_manifest (input : CtvFanoutManifestInput)
  : result PrismError CtvFanoutManifest :=
  _ ← require_ctv (cfi_block_height input <=? int_max U32) "block height must fit fanout lock_time";
  _ ← require_ctv (negb (bool_decide (cfi_settlement_mode input = DirectCoinbase)))
        "direct_coinbase mode cannot include a CTV fanout manifest";
  _ ← validate_chunk_identity (cfi_chunk_index input) (cfi_chunk_count input);
  _ ← validate_sha256_hex (cfi_reward_manifest_sha256_hex input) "reward_manifest_sha256_hex";
  _ ← validate_sha256_hex (cfi_payout_policy_manifest_sha256_hex input)
        "payout_policy_manifest_sha256_hex";
  parent ← parse_transaction_hex (cfi_parent_coinbase_tx_hex input) "parent_coinbase_tx_hex";
  _ ← ensure_coinbase_shape parent;
  fanout_template ← parse_transaction_hex (cfi_fanout_tx_template_hex input) "fanout_tx_template_hex";
  fanout ← parse_transaction_hex (cfi_fanout_tx_hex input) "fanout_tx_hex";
  _ ← validate_fanout_template fanout_template;
  covenant_output ← ok_or (ptx_outputs parent !! Z.to_nat (cfi_parent_coinbase_vout input))
    (InvalidCtvFanoutManifest "parent coinbase vout is out of range");
  ctv_hash ← default_ctv_hash_for_parsed_tx fanout_template QBIT_CTV_INPUT_INDEX;
  final_ctv_hash ← default_ctv_hash_for_parsed_tx fanout QBIT_CTV_INPUT_INDEX;
  _ ← require_ctv (bool_decide (final_ctv_hash = ctv_hash))
        "fanout transaction does not match committed CTV template";
  let leaf_script := ctv_leaf_script ctv_hash in
  let p2mr_program := p2mr_tapleaf_hash leaf_script in
  let covenant_script_pubkey := p2mr_script_pubkey p2mr_program in
  fanout_input ← ok_or (ptx_inputs fanout !! Z.to_nat QBIT_CTV_INPUT_INDEX)
    (InvalidCtvFanoutManifest "fanout transaction must have input 0");
  expected_sequence ← expected_fanout_sequence (cfi_chunk_index input);
  _ ← require_ctv (pti_sequence fanout_input =? expected_sequence)
        "fanout sequence must equal the chunk index";
  outputs ← canonical_fanout_outputs (cfi_payouts input);
  fanout_output_sum_sats ← sum_output_amounts outputs;
  fanout_fee_sats ← sum_output_fees outputs;
  anchor_vout ← anchor_vout_for_fee (length outputs) fanout_fee_sats;
  template_hex ← normalize_hex (cfi_fanout_tx_template_hex input);
  let precommitment := {|
    cpc_schema := CTV_FANOUT_PRECOMMITMENT_SCHEMA;
    cpc_block_height := cfi_block_height input;
    cpc_chunk_index := cfi_chunk_index input;
    cpc_chunk_count := cfi_chunk_count input;
    cpc_coinbase_value_sats := cfi_coinbase_value_sats input;
    cpc_settlement_mode := cfi_settlement_mode input;
    cpc_covenant_output_value_sats := pto_amount_sats covenant_output;
    cpc_covenant_script_pubkey_hex := hex_encode covenant_script_pubkey;
    cpc_fanout_tx_template_hex := template_hex;
    cpc_fanout_input_index := QBIT_CTV_INPUT_INDEX;
    cpc_fanout_sequence := pti_sequence fanout_input;
    cpc_fanout_lock_time := ptx_lock_time fanout;
    cpc_fanout_output_sum_sats := fanout_output_sum_sats;
    cpc_fanout_fee_sats := fanout_fee_sats;
    cpc_anchor_vout := anchor_vout;
    cpc_ctv_hash_hex := hex_encode ctv_hash;
    cpc_ctv_leaf_script_hex := hex_encode leaf_script;
    cpc_p2mr_program_hex := hex_encode p2mr_program;
    cpc_p2mr_control_block_hex := hex_encode [byte.of_Z QBIT_P2MR_CONTROL_BLOCK];
    cpc_reward_manifest_sha256_hex := to_ascii_lowercase (cfi_reward_manifest_sha256_hex input);
    cpc_payout_policy_manifest_sha256_hex :=
      to_ascii_lowercase (cfi_payout_policy_manifest_sha256_hex input);
    cpc_outputs := outputs |} in
  bytes ← canonical_precommitment_bytes precommitment;
  leaf ← commitment_witness_leaf_hex (sha256_hex bytes);
  parent_hex ← normalize_hex (cfi_parent_coinbase_tx_hex input);
  fanout_hex ← normalize_hex (cfi_fanout_tx_hex input);
  let manifest := {|
    cfm_schema := CTV_FANOUT_MANIFEST_SCHEMA;
    cfm_precommitment := precommitment;
    cfm_precommitment_sha256_hex := sha256_hex bytes;
    cfm_commitment_witness_leaf_hex := leaf;
    cfm_parent_coinbase_txid := txid_hex parent;
    cfm_parent_coinbase_tx_hex := parent_hex;
    cfm_parent_coinbase_vout := cfi_parent_coinbase_vout input;
    cfm_covenant_output_value_sats := pto_amount_sats covenant_output;
    cfm_covenant_script_pubkey_hex := hex_encode covenant_script_pubkey;
    cfm_fanout_tx_hex := fanout_hex;
    cfm_fanout_txid := txid_hex fanout |} in
  _ ← verify_ctv_fanout_manifest_structure manifest;
  Ok manifest.

Definition payout_of_output (output : CtvFanoutOutput) : CtvFanoutPayout :=
  {| cfp_recipient_id := cfo_recipient_id output; cfp_order_key := cfo_order_key output;
     cfp_p2mr_program_hex := cfo_p2mr_program_hex output;
     cfp_gross_amount_sats := cfo_gross_amount_sats output;
     cfp_fee_sats := cfo_fee_sats output; cfp_amount_sats := cfo_amount_sats output |}.

Definition build_ctv_fanout_manifest_from_precommitment (p : CtvFanoutPrecommitment)
    (parent_coinbase_tx_hex : string) (parent_coinbase_vout : Z)
  : result PrismError CtvFanoutManifest :=
  _ ← verify_precommitment p;
  parent ← parse_transaction_hex parent_coinbase_tx_hex "parent_coinbase_tx_hex";
  _ ← ensure_coinbase_shape parent;
  leaf_script ← CtvErr (hex_decode (cpc_ctv_leaf_script_hex p)) "ctv_leaf_script_hex must be hex: ";
  fanout_tx_hex ← witnessed_fanout_tx_hex (txid_hex parent) parent_coinbase_vout (cpc_outputs p)
    (bool_decide (is_Some (cpc_anchor_vout p))) (cpc_fanout_lock_time p) (cpc_fanout_sequence p)
    leaf_script;
  build_ctv_fanout_manifest {|
    cfi_block_height := cpc_block_height p;
    cfi_chunk_index := cpc_chunk_index p;
    cfi_chunk_count := cpc_chunk_count p;
    cfi_coinbase_value_sats := cpc_coinbase_value_sats p;
    cfi_settlement_mode := cpc_settlement_mode p;
    cfi_fanout_tx_template_hex := cpc_fanout_tx_template_hex p;
    cfi_parent_coinbase_tx_hex := parent_coinbase_tx_hex;
    cfi_parent_coinbase_vout := parent_coinbase_vout;
    cfi_fanout_tx_hex := fanout_tx_hex;
    cfi_reward_manifest_sha256_hex := cpc_reward_manifest_sha256_hex p;
    cfi_payout_policy_manifest_sha256_hex := cpc_payout_policy_manifest_sha256_hex p;
    cfi_payouts := payout_of_output <$> cpc_outputs p |}.
End fanout.

(** * What the checks establish *)
Section checks.
Context `{HexCrate, !HexLaws, Sha256Crate, !Sha256Laws, !ToJson CtvFanoutPrecommitment}.

Lemma CtvErr_Ok {A} (r : string + A) prefix a : CtvErr r prefix = Ok a ↔ r = inr a.
Proof. destruct r; naive_solver. Qed.

Lemma decode_hash_hex_Ok v f bs :
  decode_hash_hex v f = Ok bs ↔ hex_decode v = inr bs ∧ length bs = 32%nat.
Proof.
  unfold decode_hash_hex. split.
  - intros Hd. ctv_inv. rewrite CtvErr_Ok in *. by subst.
  - intros [-> Hl]. cbn. by rewrite Hl.
Qed.
Lemma decode_program_hex_Ok v f bs :
  decode_program_hex v f = Ok bs ↔ hex_decode v = inr bs ∧ length bs = 32%nat.
Proof.
  unfold decode_program_hex. split.
  - intros Hd. ctv_inv. rewrite CtvErr_Ok in *. by subst.
  - intros [-> Hl]. cbn. by rewrite Hl.
Qed.
Lemma canonical_program_Ok v f s :
  canonical_p2mr_program_hex v f = Ok s ↔
  ∃ bs, hex_decode v = inr bs ∧ length bs = 32%nat ∧ s = hex_encode bs.
Proof.
  unfold canonical_p2mr_program_hex. rewrite bind_Ok. setoid_rewrite decode_program_hex_Ok. naive_solver.
Qed.

(** The program a payout names, and the output script that pays it. *)
Definition pays_program (o : CtvFanoutOutput) (program : list byte) : Prop :=
  length program = P2MR_PROGRAM_LEN ∧ cfo_p2mr_program_hex o = hex_encode program ∧
  cfo_script_pubkey_hex o = hex_encode (p2mr_script_pubkey program).
Definition output_key (o : CtvFanoutOutput) : string * string * string :=
  (cfo_order_key o, cfo_recipient_id o, cfo_p2mr_program_hex o).
Definition output_ok (i : nat) (o : CtvFanoutOutput) : Prop :=
  cfo_vout o = as_u32 (Z.of_nat i) ∧ cfo_amount_sats o ≠ 0 ∧ ∃ program, pays_program o program.

Lemma pays_program_decode o program :
  pays_program o program → hex_decode (cfo_p2mr_program_hex o) = inr program.
Proof. intros (_ & -> & _). apply hex_decode_encode. Qed.

(** One turn of the loop, and the whole loop. *)
Lemma verify_output_Ok sum fee seen i o acc :
  verify_output (sum, fee, seen) (i, o) = Ok acc ↔
  output_ok i o ∧ (output_key o ∉ seen) ∧
  fits U64 (sum + cfo_amount_sats o) = true ∧ fits U64 (fee + cfo_fee_sats o) = true ∧
  acc = (sum + cfo_amount_sats o, fee + cfo_fee_sats o, {[output_key o]} ∪ seen).
Proof.
  unfold verify_output, output_ok. split.
  - intros Hv. ctv_inv. rewrite canonical_program_Ok, decode_program_hex_Ok in *.
    destruct H5 as (bs & Hbs & Hlen & ->), H7 as [Hbs' _]. rewrite Hbs in Hbs'. injection Hbs' as <-.
    unfold output_key, pays_program. rewrite H8. subst acc. split_and!; eauto 10.
  - intros ((Hv & Ha & program & Hp) & Hk & Hs & Hf & ->).
    pose proof (pays_program_decode _ _ Hp) as Hd. destruct Hp as (Hl & Hh & Hsc).
    rewrite Hv, Z.eqb_refl. cbn [require_ctv mbind result_bind].
    apply Z.eqb_neq in Ha. rewrite Ha. cbn [negb require_ctv].
    assert (canonical_p2mr_program_hex (cfo_p2mr_program_hex o) "precommitment p2mr_program_hex" =
      Ok (cfo_p2mr_program_hex o)) as ->.
    { apply canonical_program_Ok. by exists program. }
    cbn [mbind result_bind]. rewrite bool_decide_eq_false_2 by done. cbn [negb require_ctv].
    assert (decode_program_hex (cfo_p2mr_program_hex o) "precommitment p2mr_program_hex" = Ok program) as ->.
    { by apply decode_program_hex_Ok. }
    cbn [mbind result_bind]. rewrite !bool_decide_eq_true_2 by done. cbn [require_ctv].
    unfold checked_add. by rewrite !checked_fits.
Qed.

Record outputs_ok (outputs : list CtvFanoutOutput) : Prop := {
  oo_each i o : outputs !! i = Some o → output_ok i o;
  oo_distinct : NoDup (output_key <$> outputs);
}.

Lemma outputs_ok_snoc outputs o :
  outputs_ok (outputs ++ [o]) ↔
  outputs_ok outputs ∧ output_ok (length outputs) o ∧ (output_key o ∉ output_key <$> outputs).
Proof.
  split.
  - intros [He Hd]. rewrite fmap_app, NoDup_app in Hd. destruct Hd as (Hd & Hn & _). split_and!.
    + constructor; [|done]. intros i x Hi. apply He. by apply lookup_app_l_Some.
    + apply He. by rewrite lookup_app_r, Nat.sub_diag.
    + intros Hin. apply (Hn _ Hin). set_solver.
  - intros ([He Hd] & Ho & Hn). constructor.
    + intros i x Hi. apply lookup_snoc_Some in Hi as [[_ Hi]|[-> <-]]; [by apply He|done].
    + rewrite fmap_app. apply NoDup_app. split_and!; [done| |apply NoDup_singleton].
      intros k Hk ->%list_elem_of_singleton. done.
Qed.

(** The checked sums of the loop, from either direction. *)
Definition sums_fit (f : CtvFanoutOutput -> Z) (outputs : list CtvFanoutOutput) : Prop :=
  ∀ k, fits U64 (sum_of f (take k outputs)) = true.

Lemma sums_fit_snoc f outputs o :
  sums_fit f (outputs ++ [o]) ↔ sums_fit f outputs ∧ fits U64 (sum_of f (outputs ++ [o])) = true.
Proof.
  unfold sums_fit. split.
  - intros Hk. split; [intros k|].
    + destruct (decide (k ≤ length outputs)%nat).
      * specialize (Hk k). by rewrite take_app_le in Hk.
      * rewrite take_ge by lia. specialize (Hk (length outputs)). by rewrite take_app_length in Hk.
    + specialize (Hk (length (outputs ++ [o]))). by rewrite take_ge in Hk.
  - intros [Hk Hs] k. destruct (decide (k ≤ length outputs)%nat).
    + rewrite take_app_le by lia. apply Hk.
    + rewrite take_ge by (rewrite length_app; cbn; lia). done.
Qed.

Lemma sums_fit_total f outputs : sums_fit f outputs → fits U64 (sum_of f outputs) = true.
Proof. intros Hs. specialize (Hs (length outputs)). by rewrite take_ge in Hs. Qed.

Lemma verify_outputs_Ok outputs acc :
  try_fold verify_output (0, 0, ∅) (imap pair outputs) = Ok acc ↔
  outputs_ok outputs ∧ sums_fit cfo_amount_sats outputs ∧ sums_fit cfo_fee_sats outputs ∧
  acc = (sum_of cfo_amount_sats outputs, sum_of cfo_fee_sats outputs,
         list_to_set (output_key <$> outputs)).
Proof.
  revert acc. induction outputs as [|o outputs IH] using rev_ind; intros acc.
  { cbn. split; [intros [= <-]|by intros (_ & _ & _ & ->)]. split_and!; try done.
    - constructor; [done|constructor].
    - intros [|k]; done.
    - intros [|k]; done. }
  rewrite try_fold_enumerate_snoc, bind_Ok, outputs_ok_snoc, !sums_fit_snoc. setoid_rewrite IH.
  rewrite !sum_of_app, !sum_of_cons, !sum_of_nil, !Z.add_0_r, fmap_app, list_to_set_app_L. cbn [fmap list_fmap].
  assert (list_to_set (C := gset (string * string * string)) [output_key o] = {[output_key o]}) as ->
    by set_solver.
  rewrite (union_comm_L (list_to_set (output_key <$> outputs))). split.
  - intros ([[sum fee] seen] & (Ho & Ha & Hf & [= -> -> ->]) & Hv).
    apply verify_output_Ok in Hv as (H1' & Hk & H2' & H3' & ->). rewrite elem_of_list_to_set in Hk. done.
  - intros ((Ho & Ho' & Hk) & (Ha & Ha') & (Hf & Hf') & ->). eexists. split; [done|].
    apply verify_output_Ok. by rewrite elem_of_list_to_set.
Qed.

(** What a verified precommitment promises about its payouts. *)
Record committed (p : CtvFanoutPrecommitment) : Prop := {
  co_outputs : outputs_ok (cpc_outputs p);
  co_some : cpc_outputs p ≠ [];
  co_sum : cpc_fanout_output_sum_sats p = sum_of cfo_amount_sats (cpc_outputs p);
  co_fee : cpc_fanout_fee_sats p = sum_of cfo_fee_sats (cpc_outputs p);
  co_value : cpc_covenant_output_value_sats p =
             cpc_fanout_output_sum_sats p + cpc_fanout_fee_sats p;
  co_value_fits : fits U64 (cpc_covenant_output_value_sats p) = true;
  co_anchor : cpc_anchor_vout p =
    if cpc_fanout_fee_sats p =? 0 then Some (Z.of_nat (length (cpc_outputs p))) else None;
  co_sequence : expected_fanout_sequence (cpc_chunk_index p) = Ok (cpc_fanout_sequence p);
  co_lock : cpc_fanout_lock_time p = as_u32 (cpc_block_height p);
  co_chunk : cpc_chunk_index p < cpc_chunk_count p;
}.

Lemma verify_fee_anchor_Ok p u :
  verify_fee_anchor p = Ok u →
  cpc_anchor_vout p =
    if cpc_fanout_fee_sats p =? 0 then Some (Z.of_nat (length (cpc_outputs p))) else None.
Proof.
  unfold verify_fee_anchor. intros Hv.
  destruct (cpc_fanout_fee_sats p =? 0), (cpc_anchor_vout p); ctv_inv; by subst.
Qed.

Lemma verify_precommitment_encoding_Ok p u :
  verify_precommitment_encoding p = Ok u →
  expected_fanout_sequence (cpc_chunk_index p) = Ok (cpc_fanout_sequence p) ∧
  cpc_fanout_lock_time p = as_u32 (cpc_block_height p) ∧ cpc_chunk_index p < cpc_chunk_count p.
Proof.
  unfold verify_precommitment_encoding, validate_chunk_identity. intros Hv.
  repeat match goal with
  | H : validate_canonical_hex _ _ = Ok _ |- _ => clear H
  | H : validate_canonical_sha256_hex _ _ = Ok _ |- _ => clear H
  | _ => ctv_step
  end. split_and!; congruence.
Qed.

Lemma verify_precommitment_Ok p u : verify_precommitment p = Ok u → committed p.
Proof.
  unfold verify_precommitment. intros Hv. apply bind_Ok in Hv as (u1 & He & Hv).
  apply verify_precommitment_encoding_Ok in He as (Hs & Hl & Hc).
  apply bind_Ok in Hv as (u2 & Hne & Hv). apply require_ctv_Ok in Hne. ctv_step. ctv_step.
  apply bind_Ok in Hv as ([[sum fee] seen] & Ho & Hv).
  apply verify_outputs_Ok in Ho as (Ho & _ & _ & [= -> -> ->]). ctv_inv.
  constructor; try done; try congruence.
  eapply verify_fee_anchor_Ok. done.
Qed.

(** ** The manifest *)

(** The output that pays a committed payout. *)
Definition txout_of_payout (o : CtvFanoutOutput) (t : ParsedTxOut) : Prop :=
  pto_amount_sats t = cfo_amount_sats o ∧
  ∃ program, pays_program o program ∧ pto_script_pubkey t = p2mr_script_pubkey program.

Lemma verify_payout_Ok sum fee i t o acc :
  verify_payout (sum, fee) (i, (t, o)) = Ok acc →
  pto_amount_sats t = cfo_amount_sats o ∧
  acc = (sum + cfo_amount_sats o, fee + cfo_fee_sats o) ∧
  ∃ program, hex_decode (cfo_p2mr_program_hex o) = inr program ∧
    pto_script_pubkey t = p2mr_script_pubkey program.
Proof.
  unfold verify_payout. intros Hv. ctv_inv.
  match goal with H : decode_program_hex _ _ = Ok _ |- _ => apply decode_program_hex_Ok in H as [Hd _] end.
  split_and!; [done|congruence|]. eauto.
Qed.

Lemma verify_payouts_loop outs os acc :
  (∀ i o, os !! i = Some o → output_ok i o) → (length os ≤ length outs)%nat →
  try_fold verify_payout (0, 0) (imap pair (zip outs os)) = Ok acc →
  Forall2 txout_of_payout os (take (length os) outs) ∧
  acc = (sum_of cfo_amount_sats os, sum_of cfo_fee_sats os).
Proof.
  revert outs acc. induction os as [|o os IH] using rev_ind; intros outs acc Ho Hlen Hv.
  { rewrite zip_with_nil_r in Hv. cbn in Hv. ctv_inv. subst. split; [constructor|done]. }
  rewrite length_app in *. cbn [length] in *.
  destruct (lookup_lt_is_Some_2 outs (length os)) as [t Ht]; [lia|].
  rewrite <- (take_drop_middle outs (length os) t Ht) in Hv.
  rewrite zip_with_app in Hv by (rewrite length_take; lia).
  cbn [zip_with] in Hv. rewrite zip_with_nil_r, try_fold_enumerate_snoc in Hv.
  apply bind_Ok in Hv as ([sum fee] & Hl & Hv). rewrite length_zip_with, length_take in Hv.
  assert (zip (take (length os) outs) os = zip outs os) as Hz.
  { rewrite <- (take_drop (length os) outs) at 2.
    rewrite <- (app_nil_r os) at 5. rewrite zip_with_app by (rewrite length_take; lia).
    by rewrite zip_with_nil_r, app_nil_r. }
  rewrite Hz in Hl. apply IH in Hl as [HF [= -> ->]]; [| |lia].
  2: { intros i x Hi. apply Ho. by apply lookup_app_l_Some. }
  apply verify_payout_Ok in Hv as (Ha & -> & program & Hd & Hs).
  destruct (Ho (length os) o) as (_ & _ & program' & Hp); [by rewrite lookup_app_r, Nat.sub_diag|].
  pose proof (pays_program_decode _ _ Hp) as Hd'. rewrite Hd in Hd'. injection Hd' as <-.
  split.
  - rewrite Nat.add_1_r, (take_S_r _ _ t) by done. apply Forall2_app; [done|].
    constructor; [|constructor]. split; [done|]. by exists program.
  - by rewrite !sum_of_app, !sum_of_cons, !sum_of_nil, !Z.add_0_r.
Qed.

(** What the verifier establishes: [parent] and [fanout] are the two
    transactions the manifest carries. *)
Record settles (m : CtvFanoutManifest) (parent fanout : ParsedTransaction) (hash : list byte) : Prop := {
  se_committed : committed (cfm_precommitment m);
  se_parent : parse_transaction_hex (cfm_parent_coinbase_tx_hex m) "manifest parent_coinbase_tx_hex" = Ok parent;
  se_parent_txid : txid_hex parent = cfm_parent_coinbase_txid m;
  se_covenant : ptx_outputs parent !! Z.to_nat (cfm_parent_coinbase_vout m) =
    Some {| pto_amount_sats := cfm_covenant_output_value_sats m;
            pto_script_pubkey := p2mr_script_pubkey (p2mr_tapleaf_hash (ctv_leaf_script hash)) |};
  se_value : cfm_covenant_output_value_sats m = cpc_covenant_output_value_sats (cfm_precommitment m);
  se_fanout : parse_transaction_hex (cfm_fanout_tx_hex m) "manifest fanout_tx_hex" = Ok fanout;
  se_fanout_txid : txid_hex fanout = cfm_fanout_txid m;
  se_input : ptx_inputs fanout =
    [{| pti_prev_txid_hex := cfm_parent_coinbase_txid m; pti_prev_vout := cfm_parent_coinbase_vout m;
        pti_script_sig := []; pti_sequence := cpc_fanout_sequence (cfm_precommitment m) |}];
  se_lock : ptx_lock_time fanout = cpc_fanout_lock_time (cfm_precommitment m);
  se_hash : default_ctv_hash_for_parsed_tx fanout QBIT_CTV_INPUT_INDEX = Ok hash;
  se_hash_hex : hex_encode hash = cpc_ctv_hash_hex (cfm_precommitment m);
  se_payouts : ∃ paid rest, ptx_outputs fanout = paid ++ rest ∧
    Forall2 txout_of_payout (cpc_outputs (cfm_precommitment m)) paid ∧
    rest = if cpc_fanout_fee_sats (cfm_precommitment m) =? 0
           then [{| pto_amount_sats := 0; pto_script_pubkey := [Byte.x51; Byte.x02; Byte.x4e; Byte.x73] |}]
           else [];
  se_index : cpc_fanout_input_index (cfm_precommitment m) = QBIT_CTV_INPUT_INDEX;
  se_height : cpc_block_height (cfm_precommitment m) ≤ int_max U32;
  se_mode : cpc_settlement_mode (cfm_precommitment m) ≠ DirectCoinbase;
}.

Lemma hex_encode_inj a b : hex_encode a = hex_encode b → a = b.
Proof. intros Heq%(f_equal hex_decode). rewrite !hex_decode_encode in Heq. by injection Heq. Qed.

Lemma p2a_anchor_script_Ok : p2a_anchor_script_pubkey = Ok [Byte.x51; Byte.x02; Byte.x4e; Byte.x73].
Proof.
  unfold p2a_anchor_script_pubkey.
  assert (P2A_ANCHOR_SCRIPT_PUBKEY_HEX = hex_encode [Byte.x51; Byte.x02; Byte.x4e; Byte.x73]) as ->
    by (by rewrite hex_encode_digits).
  by rewrite hex_decode_encode.
Qed.

Lemma verify_payouts_Ok m fanout u :
  committed (cfm_precommitment m) → verify_payouts m fanout = Ok u →
  ∃ paid rest, ptx_outputs fanout = paid ++ rest ∧
    Forall2 txout_of_payout (cpc_outputs (cfm_precommitment m)) paid ∧
    rest = if cpc_fanout_fee_sats (cfm_precommitment m) =? 0
           then [{| pto_amount_sats := 0; pto_script_pubkey := [Byte.x51; Byte.x02; Byte.x4e; Byte.x73] |}]
           else [].
Proof.
  intros Hc Hv. set (p := cfm_precommitment m) in *. unfold verify_payouts in Hv. fold p in Hv.
  apply bind_Ok in Hv as (? & Hlen & Hv). apply require_ctv_Ok, Nat.eqb_eq in Hlen.
  apply bind_Ok in Hv as ([sum fee] & Hl & Hv).
  apply verify_payouts_loop in Hl as [HF _]; [|apply Hc|rewrite Hlen; case_bool_decide; lia].
  exists (take (length (cpc_outputs p)) (ptx_outputs fanout)), (drop (length (cpc_outputs p)) (ptx_outputs fanout)).
  split_and!; [by rewrite take_drop|done|].
  repeat (apply bind_Ok in Hv as (? & ? & Hv)).
  rewrite (co_anchor _ Hc) in *. destruct (cpc_fanout_fee_sats p =? 0).
  - rewrite bool_decide_eq_true_2 in Hlen by eauto.
    match goal with H : (mbind _ (expect _ _)) = Ok _ |- _ =>
      apply bind_Ok in H as (a & Ha & Hen) end.
    unfold ensure_fee_anchor_output in Hen. rewrite p2a_anchor_script_Ok in Hen.
    ctv_inv. rewrite (drop_S _ a) by done. rewrite drop_ge by lia. f_equal.
    destruct a; cbn in *. unfold CTV_FANOUT_ANCHOR_VALUE_SATS in *. by subst.
  - rewrite bool_decide_eq_false_2 in Hlen by (by intros []). apply drop_ge. lia.
Qed.

Lemma verify_manifest_encoding_Ok m u :
  verify_manifest_encoding m = Ok u →
  let p := cfm_precommitment m in
  committed p ∧ cpc_settlement_mode p ≠ DirectCoinbase ∧
  cpc_fanout_input_index p = QBIT_CTV_INPUT_INDEX ∧ cpc_block_height p ≤ int_max U32 ∧
  ∃ bytes, canonical_precommitment_bytes p = Ok bytes ∧
    cfm_precommitment_sha256_hex m = sha256_hex bytes ∧
    commitment_witness_leaf_hex (sha256_hex bytes) = Ok (cfm_commitment_witness_leaf_hex m).
Proof.
  intros Hv p. unfold verify_manifest_encoding in Hv. fold p in Hv.
  apply bind_Ok in Hv as (? & _ & Hv). apply bind_Ok in Hv as (? & Hp%verify_precommitment_Ok & Hv).
  repeat (apply bind_Ok in Hv as (? & ? & Hv)).
  repeat match goal with H : require_ctv _ _ = Ok _ |- _ => apply require_ctv_Ok in H end.
  ctv_inv. split_and!; try done. eexists. split_and!; [done|done|]. congruence.
Qed.

Lemma singleton_of_length {A} (l : list A) x : length l = 1%nat → l !! 0%nat = Some x → l = [x].
Proof. destruct l as [|y [|]]; naive_solver. Qed.

Lemma verify_fanout_input_Ok m fanout u :
  verify_fanout_input m fanout = Ok u →
  txid_hex fanout = cfm_fanout_txid m ∧
  ptx_inputs fanout =
    [{| pti_prev_txid_hex := cfm_parent_coinbase_txid m; pti_prev_vout := cfm_parent_coinbase_vout m;
        pti_script_sig := []; pti_sequence := cpc_fanout_sequence (cfm_precommitment m) |}] ∧
  ptx_lock_time fanout = cpc_fanout_lock_time (cfm_precommitment m).
Proof.
  unfold verify_fanout_input. intros Hv. ctv_inv. split_and!; [done| |done].
  rewrite (singleton_of_length _ x) by done. f_equal.
  destruct x; cbn in *. congruence.
Qed.

Lemma structure_settles m u :
  verify_ctv_fanout_manifest_structure m = Ok u → ∃ parent fanout hash, settles m parent fanout hash.
Proof.
  unfold verify_ctv_fanout_manifest_structure. intros Hv.
  apply bind_Ok in Hv as (? & He & Hv).
  apply verify_manifest_encoding_Ok in He as (Hc & Hm & Hix & Hh & _).
  apply bind_Ok in Hv as (? & Hpar & Hv). apply bind_Ok in Hv as (tmpl & _ & Hv).
  apply bind_Ok in Hv as (? & _ & Hv). apply bind_Ok in Hv as (fanout & Hf & Hv).
  apply bind_Ok in Hv as (? & (Htx & Hin & Hl)%verify_fanout_input_Ok & Hv).
  apply bind_Ok in Hv as (? & Hcov & Hpay). apply verify_payouts_Ok in Hpay; [|done].
  unfold verify_covenant in Hcov. rewrite Hix in Hcov.
  apply bind_Ok in Hcov as (th & _ & Hcov). apply bind_Ok in Hcov as (? & Hthx & Hcov).
  apply bind_Ok in Hcov as (hash & Hhash & Hcov). apply bind_Ok in Hcov as (? & Heq & Hcov).
  do 3 (apply bind_Ok in Hcov as (? & ? & Hcov)).
  unfold verify_parent in Hpar. apply bind_Ok in Hpar as (parent & Hp & Hpar).
  apply bind_Ok in Hpar as (? & _ & Hpar). clear Hcov.
  ctv_inv. subst. exists parent, fanout, th. constructor; try done.
  - match goal with H : ptx_outputs parent !! _ = Some ?o |- _ => rewrite H; destruct o end.
    cbn in *. f_equal. subst. f_equal. apply hex_encode_inj. congruence.
  - congruence.
Qed.
End checks.
