(* ===== verification/Covenant.v ===== *)
(** The covenant's life cycle (crates/qbit-prism/src/ctv.rs): a prepared
    precommitment can always be finalised over the coinbase that funds it, a
    verified manifest pays exactly the listed payouts, and the covenant binds
    every transaction that can spend it to those payouts. *)
From Stdlib Require Import ZArith Lia.
From Stdlib Require String.
From coqutil Require Import Byte Word.LittleEndianList.
From stdpp Require Import base list strings pretty gmap sorting.
From S2P Require Import Prelude Order Bytes Crates Payee PoolBuilder CoinbaseTx PrismError.
From S2P Require Import CtvTx CtvHash Settlement Fanout.
From Stdlib Require Import Sorting.Permutation.

Open Scope Z_scope.

Section canonical.
Context `{HexCrate, !HexLaws}.

(** * The canonical payout list is a fixed point *)
Definition payout_program (payout : CtvFanoutPayout) : list byte :=
  match hex_decode (cfp_p2mr_program_hex payout) with inr program => program | inl _ => [] end.
Definition output_of (index : nat) (payout : CtvFanoutPayout) : CtvFanoutOutput :=
  {| cfo_vout := as_u32 (Z.of_nat index);
     cfo_recipient_id := cfp_recipient_id payout; cfo_order_key := cfp_order_key payout;
     cfo_p2mr_program_hex := cfp_p2mr_program_hex payout;
     cfo_script_pubkey_hex := hex_encode (p2mr_script_pubkey (payout_program payout));
     cfo_gross_amount_sats := payout_gross payout;
     cfo_fee_sats := cfp_fee_sats payout; cfo_amount_sats := cfp_amount_sats payout |}.
Record payout_ok (payout : CtvFanoutPayout) : Prop := {
  pk_amount : cfp_amount_sats payout ≠ 0;
  pk_fits : fits U64 (cfp_amount_sats payout + cfp_fee_sats payout) = true;
  pk_gross : cfp_amount_sats payout + cfp_fee_sats payout = payout_gross payout;
  pk_program : hex_decode (cfp_p2mr_program_hex payout) = inr (payout_program payout);
  pk_length : length (payout_program payout) = 32%nat;
}.

Lemma fanout_output_Ok outs seen i payout acc :
  fanout_output (outs, seen) (i, payout) = Ok acc ↔
  payout_ok payout ∧ (payout_key payout ∉ seen) ∧
  acc = (outs ++ [output_of i payout], {[payout_key payout]} ∪ seen).
Proof.
  unfold fanout_output. split.
  - intros Hf. ctv_inv. subst acc.
    match goal with H : decode_program_hex _ _ = Ok ?bs |- _ =>
      apply decode_program_hex_Ok in H as [Hd Hl];
      assert (payout_program payout = bs) as Hx by (unfold payout_program; by rewrite Hd) end.
    unfold output_of. rewrite Hx. split_and!; [|done|done].
    constructor; rewrite ?Hx; done.
  - intros ([Ha Hf Hg Hp Hl] & Hk & ->). apply Z.eqb_neq in Ha. rewrite Ha. cbn [negb require_ctv mbind result_bind].
    unfold checked_add. rewrite checked_fits by done. cbn [ok_or mbind result_bind].
    rewrite Hg, Z.eqb_refl. cbn [require_ctv].
    assert (decode_program_hex (cfp_p2mr_program_hex payout) "payout p2mr_program_hex" =
      Ok (payout_program payout)) as -> by (by apply decode_program_hex_Ok).
    cbn [mbind result_bind]. by rewrite bool_decide_eq_false_2.
Qed.

Lemma fanout_outputs_loop ps acc :
  try_fold fanout_output ([], ∅) (imap pair ps) = Ok acc ↔
  Forall payout_ok ps ∧ NoDup (payout_key <$> ps) ∧
  acc = (imap output_of ps, list_to_set (payout_key <$> ps)).
Proof.
  revert acc. induction ps as [|x ps IH] using rev_ind; intros acc.
  { cbn. split; [intros [= <-]; split_and!; [constructor..|done]|by intros (_ & _ & ->)]. }
  rewrite try_fold_enumerate_snoc, bind_Ok. setoid_rewrite IH.
  rewrite Forall_app, Forall_singleton, fmap_app, NoDup_app, imap_app, list_to_set_app_L.
  cbn [fmap list_fmap imap]. unfold compose. rewrite Nat.add_0_r.
  assert (list_to_set (C := gset (string * string * string)) [payout_key x] = {[payout_key x]}) as ->
    by set_solver.
  rewrite (union_comm_L (list_to_set (payout_key <$> ps))). split.
  - intros ([outs seen] & (Hp & Hd & [= -> ->]) & Hf). apply fanout_output_Ok in Hf as (Hx & Hk & ->).
    rewrite elem_of_list_to_set in Hk. split_and!; [done|done|done| |apply NoDup_singleton|done].
    intros k Hk1 ->%list_elem_of_singleton. done.
  - intros ((Hp & Hx) & (Hd & Hn & _) & ->). eexists. split; [done|]. apply fanout_output_Ok.
    rewrite elem_of_list_to_set. split_and!; [done| |done].
    intros Hk. apply (Hn _ Hk). by apply list_elem_of_singleton.
Qed.

#[local] Instance compare_payouts_order : CmpOrder compare_payouts.
Proof. unfold compare_payouts. typeclasses eauto. Qed.

(** What [canonical_fanout_outputs] returns comes from a sorted list of
    normalised payouts. *)
Lemma canonical_fanout_outputs_Ok payouts outputs :
  canonical_fanout_outputs payouts = Ok outputs →
  ∃ ps, outputs = imap output_of ps ∧ Forall payout_ok ps ∧ NoDup (payout_key <$> ps) ∧
    StronglySorted (cmp_le compare_payouts) ps ∧ ps ≠ [] ∧ length ps = length payouts ∧
    Forall (fun x => cfp_p2mr_program_hex x = hex_encode (payout_program x)) ps.
Proof.
  unfold canonical_fanout_outputs. intros Hc. apply bind_Ok in Hc as (? & Hne & Hc).
  apply bind_Ok in Hc as (ps & Hn & Hc). apply bind_Ok in Hc as ([outs seen] & Hl & [= <-]).
  apply fanout_outputs_loop in Hl as (Hok & Hd & [= -> ->]).
  exists (sort_by compare_payouts ps). ctv_inv.
  apply collect_Forall2 in Hn. pose proof (Forall2_length _ _ _ Hn) as Hlen.
  split_and!; try done.
  - apply (sort_by_sorted compare_payouts).
  - intros Hs%(f_equal length). rewrite (sort_by_length compare_payouts) in Hs. destruct payouts; [done|]. cbn in *. lia.
  - by rewrite (sort_by_length compare_payouts).
  - apply (sort_by_Forall compare_payouts). clear -Hn H0. induction Hn as [|x y l k Hx _ IH]; constructor; [|done].
    unfold program_normalized in Hx. apply bind_Ok in Hx as (s & Hs & [= <-]). cbn.
    apply canonical_program_Ok in Hs as (bs & Hd & _ & ->). unfold payout_program. cbn.
    by rewrite hex_decode_encode.
Qed.

(** The outputs are the payouts, in canonical order: nobody is added, dropped
    or paid a different amount. *)
Definition payout_terms (x : CtvFanoutPayout) : string * string * Z * Z :=
  (cfp_recipient_id x, cfp_order_key x, cfp_amount_sats x, cfp_fee_sats x).
Definition output_terms (o : CtvFanoutOutput) : string * string * Z * Z :=
  (cfo_recipient_id o, cfo_order_key o, cfo_amount_sats o, cfo_fee_sats o).

Lemma canonical_fanout_outputs_perm payouts outputs :
  canonical_fanout_outputs payouts = Ok outputs → output_terms <$> outputs ≡ₚ payout_terms <$> payouts.
Proof.
  unfold canonical_fanout_outputs. intros Hc. apply bind_Ok in Hc as (? & _ & Hc).
  apply bind_Ok in Hc as (ps & Hn & Hc). apply bind_Ok in Hc as ([outs seen] & Hl & [= <-]).
  apply fanout_outputs_loop in Hl as (_ & _ & [= -> _]).
  assert (payout_terms <$> payouts = payout_terms <$> ps) as ->.
  { apply collect_Forall2 in Hn. induction Hn as [|a b l k Hx _ IH]; [done|]. cbn. rewrite IH. f_equal.
    unfold program_normalized in Hx. by apply bind_Ok in Hx as (s & _ & [= <-]). }
  assert (output_terms <$> imap output_of (sort_by compare_payouts ps) =
          payout_terms <$> sort_by compare_payouts ps) as ->.
  { apply list_eq. intros i. rewrite !list_lookup_fmap, list_lookup_imap.
    by destruct (sort_by compare_payouts ps !! i). }
  apply fmap_Permutation, (sort_by_perm compare_payouts).
Qed.

(** A payout read back from its output: the gross amount is filled in. *)
Definition regrossed (payout : CtvFanoutPayout) : CtvFanoutPayout :=
  {| cfp_recipient_id := cfp_recipient_id payout; cfp_order_key := cfp_order_key payout;
     cfp_p2mr_program_hex := cfp_p2mr_program_hex payout;
     cfp_gross_amount_sats := payout_gross payout;
     cfp_fee_sats := cfp_fee_sats payout; cfp_amount_sats := cfp_amount_sats payout |}.

Lemma payouts_of_outputs ps : payout_of_output <$> imap output_of ps = regrossed <$> ps.
Proof. rewrite fmap_imap. apply list_eq. intros i. rewrite list_lookup_imap, list_lookup_fmap. done. Qed.

Lemma regrossed_gross payout :
  cfp_amount_sats payout ≠ 0 → payout_gross (regrossed payout) = payout_gross payout.
Proof.
  intros Ha. unfold payout_gross at 1. cbn. unfold payout_gross.
  destruct (Z.eqb_spec (cfp_gross_amount_sats payout) 0) as [Hg|Hg].
  - by destruct (Z.eqb_spec (cfp_amount_sats payout) 0).
  - by destruct (Z.eqb_spec (cfp_gross_amount_sats payout) 0).
Qed.

Lemma regrossed_ok payout : payout_ok payout → payout_ok (regrossed payout).
Proof.
  intros [Ha Hf Hg Hp Hl]. constructor; try done. by rewrite regrossed_gross.
Qed.

Lemma output_of_regrossed i payout : payout_ok payout → output_of i (regrossed payout) = output_of i payout.
Proof. intros Hp. unfold output_of. by rewrite regrossed_gross by apply Hp. Qed.

(** Feeding the outputs back in reproduces them. *)
Lemma canonical_fanout_outputs_again payouts outputs :
  canonical_fanout_outputs payouts = Ok outputs →
  canonical_fanout_outputs (payout_of_output <$> outputs) = Ok outputs.
Proof.
  intros (ps & -> & Hok & Hd & Hs & Hne & _ & Hcan)%canonical_fanout_outputs_Ok.
  rewrite payouts_of_outputs. unfold canonical_fanout_outputs.
  rewrite bool_decide_eq_false_2 by (by destruct ps). cbn [negb require_ctv mbind result_bind].
  rewrite (collect_fmap _ id).
  2: { intros x (y & -> & Hy)%list_elem_of_fmap. unfold program_normalized, canonical_p2mr_program_hex.
    rewrite Forall_forall in Hok, Hcan. specialize (Hok _ Hy). specialize (Hcan _ Hy).
    assert (decode_program_hex (cfp_p2mr_program_hex (regrossed y)) "payout p2mr_program_hex" =
      Ok (payout_program y)) as -> by (apply decode_program_hex_Ok; split; apply Hok).
    cbn. by rewrite <- Hcan. }
  cbn [mbind result_bind]. rewrite list_fmap_id, (sort_by_id compare_payouts).
  2: { clear -Hs. induction Hs as [|x l _ IH Hx]; constructor; [done|]. apply Forall_fmap.
    eapply Forall_impl; [exact Hx|]. intros y Hy. exact Hy. }
  assert (try_fold fanout_output ([], ∅) (imap pair (regrossed <$> ps)) =
    Ok (imap output_of (regrossed <$> ps), list_to_set (payout_key <$> (regrossed <$> ps)))) as ->.
  { apply fanout_outputs_loop. split_and!; [|by rewrite <- list_fmap_compose|done].
    apply Forall_fmap. eapply Forall_impl; [exact Hok|]. intros x. apply regrossed_ok. }
  cbn. f_equal. apply list_eq. intros i. rewrite !list_lookup_imap, list_lookup_fmap.
  destruct (ps !! i) as [x|] eqn:Hx; [|done]. cbn. f_equal. apply output_of_regrossed.
  rewrite Forall_forall in Hok. apply Hok. by eapply list_elem_of_lookup_2.
Qed.

(** * Fanout transactions parse back *)
Definition specs_of (outputs : list CtvFanoutOutput) (anchor : bool) : list ParsedTxOut :=
  ((fun o => {| pto_amount_sats := cfo_amount_sats o;
                pto_script_pubkey := match hex_decode (cfo_script_pubkey_hex o) with
                                     | inr script => script | inl _ => [] end |}) <$> outputs) ++
  (if anchor then [{| pto_amount_sats := 0; pto_script_pubkey := [Byte.x51; Byte.x02; Byte.x4e; Byte.x73] |}]
   else []).

Lemma output_ok_script i o : output_ok i o →
  ∃ program, pays_program o program ∧
    hex_decode (cfo_script_pubkey_hex o) = inr (p2mr_script_pubkey program).
Proof.
  intros (_ & _ & program & Hp). exists program. split; [done|]. destruct Hp as (_ & _ & ->).
  apply hex_decode_encode.
Qed.

Lemma fanout_specs_Ok outputs anchor :
  outputs_ok outputs →
  ∃ specs, fanout_output_specs outputs anchor = Ok specs ∧ txout_of_spec <$> specs = specs_of outputs anchor.
Proof.
  intros [Ho _].
  assert (∃ specs, collect output_spec_from_fanout_output outputs = Ok specs ∧
    txout_of_spec <$> specs = specs_of outputs false) as (specs & Hs & He).
  { exists ((fun t => {| tos_amount_sats := pto_amount_sats t; tos_script_pubkey := pto_script_pubkey t |})
      <$> specs_of outputs false). split.
    - unfold specs_of. rewrite app_nil_r, <- list_fmap_compose. apply collect_fmap.
      intros o (i & Hi)%list_elem_of_lookup_1. destruct (output_ok_script _ _ (Ho _ _ Hi)) as (pr & _ & Hd).
      unfold output_spec_from_fanout_output. cbn. by rewrite Hd.
    - rewrite <- list_fmap_compose. rewrite <- (list_fmap_id (specs_of outputs false)) at 2.
      apply list_fmap_ext. by intros ? []. }
  unfold fanout_output_specs, output_specs_with_anchor. destruct anchor; [|eauto].
  rewrite Hs. unfold p2a_anchor_output_spec. rewrite p2a_anchor_script_Ok. cbn. eexists. split; [done|].
  rewrite fmap_app, He. unfold specs_of. by rewrite app_nil_r.
Qed.

Lemma p2mr_script_length program : length program = 32%nat → length (p2mr_script_pubkey program) = 34%nat.
Proof. intros Hl. unfold p2mr_script_pubkey. cbn. by rewrite Hl. Qed.

(** Every output of a fanout transaction is in range and at most 43 bytes long. *)
Definition txout_small (t : ParsedTxOut) : Prop :=
  wf_txout t ∧ (length (serialize_txout t) ≤ 43)%nat.

Lemma specs_small outputs anchor :
  outputs_ok outputs → Forall (fun o => money_ok (cfo_amount_sats o)) outputs →
  Forall txout_small (specs_of outputs anchor).
Proof.
  intros [Ho _] Hm. apply Forall_app. split.
  - apply Forall_fmap, Forall_forall. intros o Hin.
    pose proof (proj1 (Forall_forall _ _) Hm _ Hin) as Hmo.
    apply list_elem_of_lookup_1 in Hin as (i & Hi).
    destruct (output_ok_script _ _ (Ho _ _ Hi)) as (program & (Hl & _ & _) & Hd).
    pose proof (p2mr_script_length _ Hl) as H34.
    unfold txout_small, wf_txout, size_ok, serialize_txout. cbn. rewrite Hd.
    rewrite !length_app, le_bytes_length, H34. split; [split; [done|vm_compute; discriminate]|vm_compute; lia].
  - destruct anchor; constructor; [|constructor]. split; [|vm_compute; lia].
    split; unfold money_ok, size_ok; cbn; vm_compute; intuition discriminate.
Qed.

Lemma small_bytes_length ts :
  Forall txout_small ts → (length (ts ≫= serialize_txout) ≤ 43 * length ts)%nat.
Proof.
  induction 1 as [|t ts [_ Ht] _ IH]; [done|]. rewrite bind_cons, length_app. cbn [length]. lia.
Qed.

Lemma compact_size_length n : (length (compact_size n) ≤ 9)%nat.
Proof. unfold compact_size. repeat case_match; cbn [length]; rewrite ?le_bytes_length; lia. Qed.

(** The transaction a fanout spends the covenant with. *)
Definition fanout_txin (raw : list byte) (vout sequence : Z) : ParsedTxIn :=
  {| pti_prev_txid_hex := hex_encode raw; pti_prev_vout := vout; pti_script_sig := [];
     pti_sequence := sequence |}.
Definition fanout_parsed (raw : list byte) (vout sequence lock : Z) (ts : list ParsedTxOut)
    (stack : option (list (list byte))) : ParsedTransaction :=
  parsed Byte.x01 CTV_FANOUT_TX_VERSION [fanout_txin raw vout sequence] ts
    ((fun s => [s]) <$> stack) lock.

Lemma fanout_bytes_small raw vout sequence lock ts stack :
  length raw = 32%nat → Forall txout_small ts → Z.of_nat (length ts) ≤ 2 ^ 33 →
  Forall (fun item => (length item ≤ 100)%nat) (default [] stack) →
  (length (default [] stack) ≤ 2)%nat →
  Z.of_nat (length (tx_bytes Byte.x01 CTV_FANOUT_TX_VERSION [fanout_txin raw vout sequence] ts
    ((fun s => [s]) <$> stack) lock)) ≤ int_max Usize.
Proof.
  intros Hraw Hts Hn Hst Hst2. pose proof (small_bytes_length _ Hts) as Hb.
  assert (length (txin_bytes (fanout_txin raw vout sequence)) ≤ 100)%nat as Hin.
  { unfold txin_bytes, raw_txid, fanout_txin, item_bytes. cbn [pti_prev_txid_hex pti_prev_vout pti_script_sig pti_sequence].
    rewrite hex_decode_encode, !length_app, length_reverse, !le_bytes_length, Hraw, ctv_compact_size_eq.
    match goal with |- context [compact_size ?n] => pose proof (compact_size_length n) end.
    cbn [length] in *. lia. }
  assert (length (match (fun s => [s]) <$> stack with Some ss => ss ≫= stack_bytes | None => [] end) ≤ 300)%nat as Hw.
  { destruct stack as [st|]; [|cbn; lia]. cbn [fmap option_fmap option_map].
    rewrite bind_singleton. unfold stack_bytes. rewrite ctv_compact_size_eq, length_app.
    pose proof (compact_size_length (Z.of_nat (length st))). cbn [default id] in *.
    assert (length (st ≫= item_bytes) ≤ 109 * length st)%nat; [|lia].
    clear -Hst. induction Hst as [|x l Hx _ IH]; [done|]. rewrite bind_cons, length_app. unfold item_bytes at 1.
    rewrite ctv_compact_size_eq, length_app. pose proof (compact_size_length (Z.of_nat (length x))). cbn [length]. lia. }
  unfold tx_bytes. rewrite bind_singleton, !length_app, !le_bytes_length.
  pose proof (compact_size_length (Z.of_nat (length [fanout_txin raw vout sequence]))).
  pose proof (compact_size_length (Z.of_nat (length ts))).
  assert (length (match (fun s => [s]) <$> stack with Some _ => [Byte.x00; Byte.x01] | None => [] end) ≤ 2)%nat
    by (destruct stack; cbn; lia).
  widths.
Qed.

(** Both fanout builders, run on checked outputs, succeed and parse back. *)
Lemma fanout_tx_parses txid raw vout sequence lock outputs anchor stack (w : bool) :
  hex_decode txid = inr raw → length raw = 32%nat → fits U32 vout = true →
  fits U32 sequence = true → fits U32 lock = true → outputs_ok outputs →
  Forall (fun o => money_ok (cfo_amount_sats o)) outputs → Z.of_nat (length outputs) ≤ int_max U32 →
  Forall (fun item => (length item ≤ 100)%nat) stack → (length stack ≤ 2)%nat →
  let tx := fanout_parsed raw vout sequence lock (specs_of outputs anchor) (if w then Some stack else None) in
  ∃ bytes,
    (prev_txid ← normalize_txid_hex txid "fanout parent txid";
     specs ← fanout_output_specs outputs anchor;
     serialize_tx_hex CTV_FANOUT_TX_VERSION
       [{| tis_prev_txid_hex := prev_txid; tis_prev_vout := vout; tis_script_sig := [];
           tis_sequence := sequence; tis_witness_stack := stack |}] specs lock w) = Ok (hex_encode bytes) ∧
    ∀ name, parse_transaction bytes name = Ok tx.
Proof.
  intros Hraw Hlen Hv Hs Hl Ho Hm Hn Hst Hst2 tx.
  unfold normalize_txid_hex. rewrite Hraw. cbn [CtvErr mbind result_bind]. rewrite Hlen. cbn [Nat.eqb require_ctv].
  destruct (fanout_specs_Ok outputs anchor Ho) as (specs & -> & Hspecs). cbn [mbind result_bind].
  set (spec := {| tis_prev_txid_hex := hex_encode raw; tis_prev_vout := vout; tis_script_sig := [];
                  tis_sequence := sequence; tis_witness_stack := stack |}).
  pose proof (specs_small outputs anchor Ho Hm) as Hsmall.
  assert (length (specs_of outputs anchor) ≤ length outputs + 1)%nat as Hcount.
  { unfold specs_of. rewrite length_app, length_fmap. destruct anchor; cbn; lia. }
  assert (∃ hex, serialize_tx_hex CTV_FANOUT_TX_VERSION [spec] specs lock w = Ok hex) as [hex Hhex].
  { unfold serialize_tx_hex. cbn [collect]. unfold input_spec_bytes. cbn [spec tis_prev_txid_hex].
    rewrite hex_decode_encode, Hlen. cbn. eauto. }
  assert (txin_of_spec spec = fanout_txin raw vout sequence) as Hin.
  { unfold txin_of_spec, fanout_txin, spec. cbn. f_equal.
    by rewrite <- (hex_encode_decode _ _ (hex_decode_encode raw)). }
  destruct (serialize_tx_hex_bytes CTV_FANOUT_TX_VERSION [spec] specs lock w hex) as [Hwf ->]; try done.
  - constructor; [|constructor]. constructor; try done.
    split; [unfold size_ok, spec; cbn; widths|]. eapply Forall_impl; [exact Hst|].
    intros x Hx. unfold size_ok. widths.
  - assert (Forall wf_txout (txout_of_spec <$> specs)) as Hwfs; [|rewrite Forall_fmap in Hwfs; exact Hwfs].
    rewrite Hspecs. eapply Forall_impl; [exact Hsmall|]. by intros t [? _].
  - unfold size_ok. rewrite <- (length_fmap txout_of_spec), Hspecs. widths.
  - rewrite Hspecs in Hwf. cbn [fmap list_fmap] in Hwf. rewrite Hin in Hwf.
    eexists. split; [exact Hhex|]. intros name. rewrite Hspecs. cbn [fmap list_fmap]. rewrite Hin.
    assert ((if w then Some [stack] else None) = (fun s => [s]) <$> (if w then Some stack else None)) as Hstk
      by (by destruct w).
    cbn [spec tis_witness_stack] in *. rewrite Hstk in *. apply parse_tx_bytes; [done|done|].
    apply fanout_bytes_small; [done|done|widths|destruct w; [done|constructor]|destruct w; cbn; lia].
Qed.
End canonical.

(** * Finalising a prepared fanout *)
Section checks_pass.
Context `{HexCrate, !HexLaws, Sha256Crate, !Sha256Laws, !ToJson CtvFanoutPrecommitment}.

Lemma decode_hash_encode bs f : length bs = 32%nat → decode_hash_hex (hex_encode bs) f = Ok bs.
Proof. intros Hl. apply decode_hash_hex_Ok. by rewrite hex_decode_encode. Qed.
Lemma decode_program_encode bs f : length bs = 32%nat → decode_program_hex (hex_encode bs) f = Ok bs.
Proof. intros Hl. apply decode_program_hex_Ok. by rewrite hex_decode_encode. Qed.
Lemma canonical_sha_pass bs f : length bs = 32%nat → validate_canonical_sha256_hex (hex_encode bs) f = Ok ().
Proof.
  intros Hl. unfold validate_canonical_sha256_hex. rewrite decode_hash_encode by done. cbn.
  by rewrite bool_decide_eq_true_2.
Qed.
Lemma canonical_hex_pass bs f : validate_canonical_hex (hex_encode bs) f = Ok ().
Proof.
  unfold validate_canonical_hex. rewrite hex_decode_encode. cbn. by rewrite bool_decide_eq_true_2.
Qed.
Lemma normalize_hex_encode bs : normalize_hex (hex_encode bs) = Ok (hex_encode bs).
Proof. unfold normalize_hex. by rewrite hex_decode_encode. Qed.

Lemma canonical_sha_fixed v f u :
  validate_canonical_sha256_hex v f = Ok u → validate_sha256_hex v f = Ok () ∧ to_ascii_lowercase v = v.
Proof.
  unfold validate_canonical_sha256_hex. intros Hv. ctv_inv.
  match goal with H : decode_hash_hex _ _ = Ok _ |- _ => pose proof H as Hd; apply decode_hash_hex_Ok in H as [Hx _] end.
  unfold validate_sha256_hex. rewrite Hd. split; [done|].
  rewrite <- (hex_encode_decode _ _ Hx). congruence.
Qed.

(** On well-sized input the field name only shows up in errors. *)
Lemma parse_any_name bytes name name' tx :
  Z.of_nat (length bytes) ≤ int_max Usize →
  parse_transaction bytes name = Ok tx → parse_transaction bytes name' = Ok tx.
Proof.
  intros Hlen Hp. destruct (parse_inv _ _ _ Hlen Hp) as (flag & v & ins & outs & st & lock & Hf & Hwf & -> & ->).
  by apply parse_tx_bytes.
Qed.

(** The fields a verified precommitment has in canonical form. *)
Lemma verified_fields p u :
  verify_precommitment p = Ok u →
  validate_chunk_identity (cpc_chunk_index p) (cpc_chunk_count p) = Ok () ∧
  (∀ f, validate_sha256_hex (cpc_reward_manifest_sha256_hex p) f = Ok ()) ∧
  (∀ f, validate_sha256_hex (cpc_payout_policy_manifest_sha256_hex p) f = Ok ()) ∧
  to_ascii_lowercase (cpc_reward_manifest_sha256_hex p) = cpc_reward_manifest_sha256_hex p ∧
  to_ascii_lowercase (cpc_payout_policy_manifest_sha256_hex p) = cpc_payout_policy_manifest_sha256_hex p.
Proof.
  unfold verify_precommitment. intros Hv. apply bind_Ok in Hv as (? & Hv & _).
  unfold verify_precommitment_encoding in Hv. do 8 (apply bind_Ok in Hv as (? & _ & Hv)).
  apply bind_Ok in Hv as (? & Hr & Hv). apply bind_Ok in Hv as (? & Hpp & Hv).
  apply bind_Ok in Hv as ([] & Hch & _).
  assert (∀ v f f', validate_sha256_hex v f = Ok () → validate_sha256_hex v f' = Ok ()) as Hany.
  { unfold validate_sha256_hex. intros v f f' Hx. apply bind_Ok in Hx as (bs & Hb & _).
    apply decode_hash_hex_Ok in Hb. assert (decode_hash_hex v f' = Ok bs) as -> by (by apply decode_hash_hex_Ok).
    done. }
  apply canonical_sha_fixed in Hr as [Hr1 Hr2], Hpp as [Hp1 Hp2]. split_and!; eauto.
Qed.

Lemma leaf_hex_canonical encoded L :
  commitment_witness_leaf_hex (sha256_hex encoded) = Ok L →
  ∃ bs, length bs = 32%nat ∧ L = hex_encode bs.
Proof.
  unfold commitment_witness_leaf_hex. intros Hl. ctv_inv. eexists; split; [|done]. apply sha256_length.
Qed.

Lemma txid_decodes tx : hex_decode (txid_hex tx) = inr (reverse (sha256 (sha256 (ptx_tx_without_witness tx)))).
Proof. apply hex_decode_encode. Qed.
Lemma txid_raw_length tx : length (reverse (sha256 (sha256 (ptx_tx_without_witness tx)))) = 32%nat.
Proof. by rewrite length_reverse, sha256_length. Qed.

Lemma prevout_unseen raw raw' vout vout' sequence lock ts stack stack' :
  template (fanout_parsed raw vout sequence lock ts stack) =
  template (fanout_parsed raw' vout' sequence lock ts stack').
Proof. done. Qed.

Lemma template_valid raw vout sequence lock ts :
  validate_fanout_template (fanout_parsed raw vout sequence lock ts None) = Ok ().
Proof. reflexivity. Qed.
End checks_pass.

Section finalize.
Context `{HexCrate, !HexLaws, Sha256Crate, !Sha256Laws, !ToJson CtvFanoutPrecommitment}.

(** A precommitment as [prepare_ctv_fanout_precommitment] leaves it: [template]
    is its parsed template transaction and [hash] the template's CTV hash. *)
Record ready (p : CtvFanoutPrecommitment) (zeros hash encoded : list byte) : Prop := {
  re_verified : verify_precommitment p = Ok ();
  re_mode : cpc_settlement_mode p ≠ DirectCoinbase;
  re_height : cpc_block_height p ≤ int_max U32;
  re_index : cpc_fanout_input_index p = QBIT_CTV_INPUT_INDEX;
  re_zeros : length zeros = 32%nat;
  re_template : unsigned_fanout_tx_hex (hex_encode zeros) 0 (cpc_outputs p)
    (fanout_has_cpfp_anchor (cpc_fanout_fee_sats p)) (cpc_fanout_lock_time p) (cpc_fanout_sequence p) =
    Ok (cpc_fanout_tx_template_hex p);
  re_hash : ∀ tx, parse_transaction_hex (cpc_fanout_tx_template_hex p) "tx_hex" = Ok tx →
    default_ctv_hash_for_parsed_tx tx QBIT_CTV_INPUT_INDEX = Ok hash;
  re_hash_hex : cpc_ctv_hash_hex p = hex_encode hash;
  re_leaf_hex : cpc_ctv_leaf_script_hex p = hex_encode (ctv_leaf_script hash);
  re_program_hex : cpc_p2mr_program_hex p = hex_encode (p2mr_tapleaf_hash (ctv_leaf_script hash));
  re_script_hex : cpc_covenant_script_pubkey_hex p =
    hex_encode (p2mr_script_pubkey (p2mr_tapleaf_hash (ctv_leaf_script hash)));
  re_control : cpc_p2mr_control_block_hex p = hex_encode [byte.of_Z QBIT_P2MR_CONTROL_BLOCK];
  re_schema : cpc_schema p = CTV_FANOUT_PRECOMMITMENT_SCHEMA;
  re_canonical : canonical_fanout_outputs (payout_of_output <$> cpc_outputs p) = Ok (cpc_outputs p);
  re_sum : sum_output_amounts (cpc_outputs p) = Ok (cpc_fanout_output_sum_sats p);
  re_fee : sum_output_fees (cpc_outputs p) = Ok (cpc_fanout_fee_sats p);
  re_anchor : anchor_vout_for_fee (length (cpc_outputs p)) (cpc_fanout_fee_sats p) = Ok (cpc_anchor_vout p);
  re_encoded : canonical_precommitment_bytes p = Ok encoded;
  re_count : Z.of_nat (length (cpc_outputs p)) ≤ int_max U32;
  re_typed : Forall (fun o => 0 ≤ cfo_amount_sats o ∧ 0 ≤ cfo_fee_sats o) (cpc_outputs p);
}.

Lemma prepare_ready input prep :
  prepare_ctv_fanout_precommitment input = Ok prep →
  Z.of_nat (length (cpi_payouts input)) ≤ int_max U32 →
  Forall (fun o => 0 ≤ cfo_amount_sats o ∧ 0 ≤ cfo_fee_sats o) (cpc_outputs (pcf_precommitment prep)) →
  ∃ zeros hash encoded, ready (pcf_precommitment prep) zeros hash encoded ∧
    pcf_precommitment_sha256_hex prep = sha256_hex encoded ∧
    pcf_covenant_p2mr_program_hex prep = cpc_p2mr_program_hex (pcf_precommitment prep) ∧
    pcf_covenant_output_value_sats prep = cpc_covenant_output_value_sats (pcf_precommitment prep) ∧
    commitment_witness_leaf_hex (sha256_hex encoded) = Ok (pcf_commitment_witness_leaf_hex prep).
Proof.
  intros Hp Hcount. unfold prepare_ctv_fanout_precommitment in Hp.
  apply bind_Ok in Hp as (? & Hh & Hp). apply bind_Ok in Hp as (? & Hm & Hp).
  do 3 (apply bind_Ok in Hp as (? & _ & Hp)).
  apply bind_Ok in Hp as (outputs & Ho & Hp). apply bind_Ok in Hp as (sum & Hs & Hp).
  apply bind_Ok in Hp as (fee & Hf & Hp). apply bind_Ok in Hp as (value & _ & Hp).
  apply bind_Ok in Hp as (sequence & Hq & Hp). apply bind_Ok in Hp as (tmpl & Ht & Hp).
  apply bind_Ok in Hp as (hh & Hhash & Hp). apply bind_Ok in Hp as (leaf_hex & Hleaf & Hp).
  apply bind_Ok in Hp as (program_hex & Hprog & Hp). apply bind_Ok in Hp as (program & Hpd & Hp).
  apply bind_Ok in Hp as (anchor & Ha & Hp). apply bind_Ok in Hp as ([] & Hv & Hp).
  apply bind_Ok in Hp as (encoded & He & Hp). apply bind_Ok in Hp as (leaf & Hl & [= <-]). cbn.
  intros Htyped.
  unfold default_ctv_hash_hex in Hhash. apply bind_Ok in Hhash as (tx & Htx & Hhash).
  apply bind_Ok in Hhash as (hash & Hhash & [= <-]). pose proof (ctv_hash_length _ _ _ Hhash) as Hlen.
  unfold ctv_leaf_script_hex in Hleaf. rewrite decode_hash_encode in Hleaf by done. injection Hleaf as <-.
  unfold p2mr_program_for_ctv_leaf_hex in Hprog. rewrite hex_decode_encode in Hprog. injection Hprog as <-.
  rewrite decode_program_encode in Hpd by apply sha256_length. injection Hpd as <-.
  exists (repeat Byte.x00 32), hash, encoded. split_and!; try done.
  assert (repeat_string 32 "00" = hex_encode (repeat Byte.x00 32)) as Hz by (by rewrite hex_encode_digits).
  rewrite Hz in Ht. ctv_inv. constructor; cbn; try done.
  - intros tx' Htx'. rewrite Htx in Htx'. by injection Htx' as <-.
  - by eapply canonical_fanout_outputs_again.
  - apply canonical_fanout_outputs_Ok in Ho as (ps & -> & _ & _ & _ & _ & Hpl & _).
    rewrite length_imap, Hpl. done.
Qed.

(** ** Over a coinbase that funds the covenant *)
Section funded.
Context (p : CtvFanoutPrecommitment) (zeros hash encoded : list byte).
Hypothesis Hready : ready p zeros hash encoded.
Context (parent_bytes : list byte) (parent : ParsedTransaction) (vout : Z).
Hypothesis Hsize : Z.of_nat (length parent_bytes) ≤ int_max Usize.
Hypothesis Hparse : parse_transaction parent_bytes "parent_coinbase_tx_hex" = Ok parent.
Hypothesis Hshape : ensure_coinbase_shape parent = Ok ().
Hypothesis Hvout : fits U32 vout = true.
Hypothesis Hfunded : ptx_outputs parent !! Z.to_nat vout =
  Some {| pto_amount_sats := cpc_covenant_output_value_sats p;
          pto_script_pubkey := p2mr_script_pubkey (p2mr_tapleaf_hash (ctv_leaf_script hash)) |}.

Let Hc : committed p := verify_precommitment_Ok p () (re_verified _ _ _ _ Hready).

Lemma funded_amounts : Forall (fun o => money_ok (cfo_amount_sats o)) (cpc_outputs p).
Proof.
  destruct (parsed_parts _ _ _ Hsize Hparse) as (_ & _ & _ & Houts & _).
  pose proof (proj1 (Forall_lookup _ _) Houts _ _ Hfunded) as [[_ Hmax] _]. cbn in Hmax.
  pose proof (re_typed _ _ _ _ Hready) as Htyped. rewrite Forall_forall in Htyped.
  apply Forall_forall. intros o Ho. split; [by apply Htyped|].
  rewrite (co_value _ Hc), (co_sum _ Hc), (co_fee _ Hc) in Hmax.
  pose proof (sum_of_elem_le cfo_amount_sats (cpc_outputs p) o (fun x Hx => proj1 (Htyped x Hx)) Ho).
  pose proof (sum_of_nonneg cfo_fee_sats (cpc_outputs p) (fun x Hx => proj2 (Htyped x Hx))). lia.
Qed.

Let anchor : bool := fanout_has_cpfp_anchor (cpc_fanout_fee_sats p).
Let leaf_script : list byte := ctv_leaf_script hash.
Let stack : list (list byte) := [leaf_script; [byte.of_Z QBIT_P2MR_CONTROL_BLOCK]].
Let raw : list byte := reverse (sha256 (sha256 (ptx_tx_without_witness parent))).
Let template_tx : ParsedTransaction :=
  fanout_parsed zeros 0 (cpc_fanout_sequence p) (cpc_fanout_lock_time p) (specs_of (cpc_outputs p) anchor) None.
Let fanout_tx : ParsedTransaction :=
  fanout_parsed raw vout (cpc_fanout_sequence p) (cpc_fanout_lock_time p) (specs_of (cpc_outputs p) anchor)
    (Some stack).

Lemma sequence_fits : fits U32 (cpc_fanout_sequence p) = true.
Proof. pose proof (co_sequence _ Hc) as Hs. unfold expected_fanout_sequence in Hs. ctv_inv. by rewrite <- Hs. Qed.
Lemma lock_fits : fits U32 (cpc_fanout_lock_time p) = true.
Proof.
  rewrite (co_lock _ Hc). unfold as_u32. pose proof (Z.mod_pos_bound (cpc_block_height p) (2 ^ 32) ltac:(lia)). widths.
Qed.

Lemma template_parses : ∃ bytes, cpc_fanout_tx_template_hex p = hex_encode bytes ∧
  ∀ name, parse_transaction bytes name = Ok template_tx.
Proof.
  destruct (fanout_tx_parses (hex_encode zeros) zeros 0 (cpc_fanout_sequence p) (cpc_fanout_lock_time p)
    (cpc_outputs p) anchor [] false) as (bytes & Hb & Hpb); try done.
  - apply hex_decode_encode.
  - apply (re_zeros _ _ _ _ Hready).
  - apply sequence_fits.
  - apply lock_fits.
  - apply (co_outputs _ Hc).
  - apply funded_amounts.
  - apply (re_count _ _ _ _ Hready).
  - cbn; lia.
  - exists bytes. split; [|done]. pose proof (re_template _ _ _ _ Hready) as Ht.
    unfold unsigned_fanout_tx_hex in Ht. fold anchor in Ht. rewrite Hb in Ht. by injection Ht.
Qed.

Lemma leaf_script_length : length leaf_script = 34%nat.
Proof.
  unfold leaf_script, ctv_leaf_script. rewrite !length_app. cbn.
  destruct template_parses as (bytes & Ht & Hpb).
  assert (length hash = 32%nat) as ->; [|done].
  eapply (ctv_hash_length template_tx). apply (re_hash _ _ _ _ Hready). rewrite Ht.
  unfold parse_transaction_hex. rewrite hex_decode_encode. apply Hpb.
Qed.

Lemma fanout_parses : ∃ bytes,
  witnessed_fanout_tx_hex (txid_hex parent) vout (cpc_outputs p) anchor (cpc_fanout_lock_time p)
    (cpc_fanout_sequence p) leaf_script = Ok (hex_encode bytes) ∧
  ∀ name, parse_transaction bytes name = Ok fanout_tx.
Proof.
  destruct (fanout_tx_parses (txid_hex parent) raw vout (cpc_fanout_sequence p) (cpc_fanout_lock_time p)
    (cpc_outputs p) anchor stack true) as (bytes & Hb & Hpb); try done.
  - apply txid_decodes.
  - apply txid_raw_length.
  - apply sequence_fits.
  - apply lock_fits.
  - apply (co_outputs _ Hc).
  - apply funded_amounts.
  - apply (re_count _ _ _ _ Hready).
  - unfold stack. rewrite !Forall_cons, leaf_script_length. split_and!; [lia|cbn; lia|constructor].
  - by exists bytes.
Qed.

Lemma hash_of_template : default_ctv_hash_for_parsed_tx template_tx QBIT_CTV_INPUT_INDEX = Ok hash.
Proof.
  destruct template_parses as (bytes & Ht & Hpb). apply (re_hash _ _ _ _ Hready). rewrite Ht.
  unfold parse_transaction_hex. rewrite hex_decode_encode. apply Hpb.
Qed.
Lemma hash_of_fanout : default_ctv_hash_for_parsed_tx fanout_tx QBIT_CTV_INPUT_INDEX = Ok hash.
Proof. rewrite <- hash_of_template. apply ctv_hash_template, prevout_unseen. Qed.

Lemma anchor_is_some : bool_decide (is_Some (cpc_anchor_vout p)) = anchor.
Proof.
  rewrite (co_anchor _ Hc). unfold anchor, fanout_has_cpfp_anchor.
  destruct (cpc_fanout_fee_sats p =? 0); [by apply bool_decide_eq_true_2|].
  apply bool_decide_eq_false_2. by intros [].
Qed.

(** The payouts of the finalised transaction check out. *)
Lemma payouts_loop_pass os ts :
  (∀ i o, os !! i = Some o → output_ok i o) → ts = specs_of os false →
  (∀ k, fits U64 (sum_of cfo_amount_sats (take k os)) = true) →
  (∀ k, fits U64 (sum_of cfo_fee_sats (take k os)) = true) →
  try_fold verify_payout (0, 0) (imap pair (zip ts os)) =
  Ok (sum_of cfo_amount_sats os, sum_of cfo_fee_sats os).
Proof.
  revert ts. induction os as [|o os IH] using rev_ind; intros ts Ho -> Ha Hf; [done|].
  unfold specs_of in *. rewrite app_nil_r, fmap_app, zip_with_app by (by rewrite length_fmap).
  cbn [fmap list_fmap zip_with]. rewrite try_fold_enumerate_snoc, length_zip_with, length_fmap, Nat.min_id.
  apply sums_fit_snoc in Ha as [Ha Ha'], Hf as [Hf Hf'].
  rewrite IH; [|intros i x Hi; apply Ho; by apply lookup_app_l_Some|by rewrite app_nil_r|done|done].
  cbn [mbind result_bind]. destruct (Ho (length os) o) as (Hv & _ & program & Hp);
    [by rewrite lookup_app_r, Nat.sub_diag|].
  pose proof (pays_program_decode _ _ Hp) as Hd. destruct Hp as (Hl & Hh & Hs).
  rewrite !sum_of_app, !sum_of_cons, !sum_of_nil, !Z.add_0_r in *.
  unfold verify_payout, checked_add. cbn [pto_amount_sats pto_script_pubkey].
  rewrite !checked_fits by done. cbn [ok_or mbind result_bind]. rewrite Hv, !Z.eqb_refl. cbn [require_ctv].
  assert (decode_program_hex (cfo_p2mr_program_hex o) "payout p2mr_program_hex" = Ok program) as ->
    by (by apply decode_program_hex_Ok).
  cbn [mbind result_bind]. rewrite Hs, hex_decode_encode, !bool_decide_eq_true_2 by done. done.
Qed.

Section manifest.
Context (L : string) (fanout_bytes : list byte).
Hypothesis HL : commitment_witness_leaf_hex (sha256_hex encoded) = Ok L.
Hypothesis Hfp : ∀ name, parse_transaction fanout_bytes name = Ok fanout_tx.

Definition finalized : CtvFanoutManifest := {|
  cfm_schema := CTV_FANOUT_MANIFEST_SCHEMA;
  cfm_precommitment := p;
  cfm_precommitment_sha256_hex := sha256_hex encoded;
  cfm_commitment_witness_leaf_hex := L;
  cfm_parent_coinbase_txid := txid_hex parent;
  cfm_parent_coinbase_tx_hex := hex_encode parent_bytes;
  cfm_parent_coinbase_vout := vout;
  cfm_covenant_output_value_sats := cpc_covenant_output_value_sats p;
  cfm_covenant_script_pubkey_hex :=
    hex_encode (p2mr_script_pubkey (p2mr_tapleaf_hash (ctv_leaf_script hash)));
  cfm_fanout_tx_hex := hex_encode fanout_bytes;
  cfm_fanout_txid := txid_hex fanout_tx |}.

Lemma encoding_pass : verify_manifest_encoding finalized = Ok ().
Proof.
  destruct (verified_fields p () (re_verified _ _ _ _ Hready)) as (Hch & Hr & Hpp & _ & _).
  destruct (leaf_hex_canonical _ _ HL) as (bs & Hbs & HLe).
  unfold verify_manifest_encoding, finalized.
  cbn [cfm_schema cfm_precommitment cfm_precommitment_sha256_hex cfm_commitment_witness_leaf_hex
    cfm_parent_coinbase_txid cfm_parent_coinbase_tx_hex cfm_covenant_script_pubkey_hex cfm_fanout_tx_hex
    cfm_fanout_txid].
  rewrite require_ctv_pass by (by apply bool_decide_eq_true_2).
  rewrite (re_verified _ _ _ _ Hready). cbn [mbind result_bind].
  assert (∀ f, validate_canonical_sha256_hex (sha256_hex encoded) f = Ok ()) as Hshf
    by (intros f; apply canonical_sha_pass, sha256_length).
  rewrite Hshf. cbn [mbind result_bind].
  assert (∀ f, validate_canonical_sha256_hex L f = Ok ()) as HLf
    by (intros f; rewrite HLe; by apply canonical_sha_pass).
  rewrite HLf. cbn [mbind result_bind].
  assert (∀ tx f, validate_canonical_sha256_hex (txid_hex tx) f = Ok ()) as Htxf
    by (intros tx f; apply canonical_sha_pass, txid_raw_length).
  rewrite !Htxf. cbn [mbind result_bind]. rewrite !canonical_hex_pass. cbn [mbind result_bind].
  rewrite require_ctv_pass by (rewrite bool_decide_eq_false_2; [done|apply Hready]).
  rewrite Hch. cbn [mbind result_bind]. rewrite (re_encoded _ _ _ _ Hready). cbn [mbind result_bind].
  rewrite require_ctv_pass by (by apply bool_decide_eq_true_2). rewrite HL. cbn [mbind result_bind].
  rewrite require_ctv_pass by (by apply bool_decide_eq_true_2).
  rewrite require_ctv_pass by (rewrite (re_index _ _ _ _ Hready); done).
  rewrite require_ctv_pass by (apply Z.leb_le, Hready).
  rewrite Hr, Hpp. cbn [mbind result_bind].
  rewrite bool_decide_eq_true_2 by apply Hready. done.
Qed.

Lemma parent_pass : verify_parent finalized = Ok ().
Proof.
  unfold verify_parent, finalized. cbn [cfm_parent_coinbase_tx_hex cfm_precommitment cfm_parent_coinbase_txid
    cfm_parent_coinbase_vout cfm_covenant_output_value_sats cfm_covenant_script_pubkey_hex].
  unfold parse_transaction_hex. rewrite hex_decode_encode, (parse_any_name _ _ _ _ Hsize Hparse).
  cbn [mbind result_bind]. rewrite Hshape. cbn [mbind result_bind].
  rewrite require_ctv_pass by (by apply bool_decide_eq_true_2).
  rewrite Hfunded. cbn [ok_or mbind result_bind pto_amount_sats pto_script_pubkey].
  rewrite !require_ctv_pass by apply Z.eqb_refl.
  rewrite require_ctv_pass by (by apply bool_decide_eq_true_2).
  rewrite bool_decide_eq_true_2; [done|]. symmetry. apply Hready.
Qed.

Lemma input_pass : verify_fanout_input finalized fanout_tx = Ok ().
Proof.
  unfold verify_fanout_input, finalized. cbn [cfm_precommitment cfm_fanout_txid cfm_parent_coinbase_txid
    cfm_parent_coinbase_vout]. rewrite require_ctv_pass by (by apply bool_decide_eq_true_2).
  cbn [fanout_tx fanout_parsed parsed ptx_inputs ptx_lock_time length Nat.eqb].
  rewrite require_ctv_pass by done.
  change ([fanout_txin raw vout (cpc_fanout_sequence p)] !! Z.to_nat QBIT_CTV_INPUT_INDEX)
    with (Some (fanout_txin raw vout (cpc_fanout_sequence p))). cbn [expect mbind result_bind].
  cbn [fanout_txin pti_script_sig pti_prev_txid_hex pti_prev_vout pti_sequence].
  rewrite require_ctv_pass by done. rewrite require_ctv_pass by (by apply bool_decide_eq_true_2).
  rewrite !require_ctv_pass by apply Z.eqb_refl. rewrite (co_sequence _ Hc). cbn [mbind result_bind].
  rewrite !require_ctv_pass by apply Z.eqb_refl. rewrite (co_lock _ Hc), Z.eqb_refl. done.
Qed.

Lemma covenant_pass : verify_covenant finalized template_tx fanout_tx = Ok ().
Proof.
  unfold verify_covenant, finalized. cbn [cfm_precommitment cfm_covenant_script_pubkey_hex].
  rewrite (re_index _ _ _ _ Hready), hash_of_template. cbn [mbind result_bind].
  rewrite require_ctv_pass by (apply bool_decide_eq_true_2; symmetry; apply Hready).
  rewrite hash_of_fanout. cbn [mbind result_bind].
  rewrite require_ctv_pass by (by apply bool_decide_eq_true_2).
  rewrite require_ctv_pass by (apply bool_decide_eq_true_2; symmetry; apply Hready).
  rewrite require_ctv_pass by (apply bool_decide_eq_true_2; symmetry; apply Hready).
  rewrite require_ctv_pass by (by apply bool_decide_eq_true_2).
  unfold verify_fanout_witness. cbn [fanout_tx fanout_parsed parsed ptx_witness_stacks ok_or mbind result_bind
    fmap option_fmap option_map].
  change ([stack] !! Z.to_nat QBIT_CTV_INPUT_INDEX) with (Some stack).
  cbn [ok_or mbind result_bind]. rewrite require_ctv_pass by done.
  change (stack !! 0%nat) with (Some leaf_script). cbn [expect mbind result_bind].
  rewrite require_ctv_pass by (by apply bool_decide_eq_true_2).
  change (stack !! 1%nat) with (Some [byte.of_Z QBIT_P2MR_CONTROL_BLOCK]). cbn [expect mbind result_bind].
  by rewrite bool_decide_eq_true_2.
Qed.

Lemma sum_take_fits (f : CtvFanoutOutput -> Z) k :
  (∀ o, o ∈ cpc_outputs p → 0 ≤ f o) → sum_of f (cpc_outputs p) ≤ cpc_covenant_output_value_sats p →
  fits U64 (sum_of f (take k (cpc_outputs p))) = true.
Proof.
  intros Hf Hs. pose proof (co_value_fits _ Hc) as Hv.
  assert (0 ≤ sum_of f (take k (cpc_outputs p))).
  { apply sum_of_nonneg. intros o Ho. apply Hf. by eapply elem_of_take_sub. }
  assert (0 ≤ sum_of f (drop k (cpc_outputs p))).
  { apply sum_of_nonneg. intros o Ho. apply Hf. rewrite <- (take_drop k (cpc_outputs p)). set_solver. }
  rewrite <- (take_drop k (cpc_outputs p)), sum_of_app in Hs at 1. widths.
Qed.

Lemma payouts_pass : verify_payouts finalized fanout_tx = Ok ().
Proof.
  unfold verify_payouts, finalized. cbn [cfm_precommitment cfm_covenant_output_value_sats].
  rewrite anchor_is_some. cbn [fanout_tx fanout_parsed parsed ptx_outputs].
  pose proof (re_typed _ _ _ _ Hready) as Ht. rewrite Forall_forall in Ht.
  pose proof (co_value _ Hc) as Hval. rewrite (co_sum _ Hc), (co_fee _ Hc) in Hval.
  pose proof (sum_of_nonneg cfo_amount_sats (cpc_outputs p) (fun o Ho => proj1 (Ht o Ho))).
  pose proof (sum_of_nonneg cfo_fee_sats (cpc_outputs p) (fun o Ho => proj2 (Ht o Ho))).
  rewrite require_ctv_pass.
  2: { apply Nat.eqb_eq. unfold specs_of. rewrite length_app, length_fmap. destruct anchor; cbn; lia. }
  assert (zip (specs_of (cpc_outputs p) anchor) (cpc_outputs p) =
          zip (specs_of (cpc_outputs p) false) (cpc_outputs p)) as ->.
  { unfold specs_of. rewrite app_nil_r. rewrite <- (app_nil_r (cpc_outputs p)) at 2.
    rewrite zip_with_app by (by rewrite length_fmap). by rewrite zip_with_nil_r, app_nil_r. }
  rewrite payouts_loop_pass; [|apply (co_outputs _ Hc)|done| |].
  2,3: intros k; apply sum_take_fits; [intros o Ho; by apply Ht|lia].
  cbn [mbind result_bind].
  rewrite require_ctv_pass by (rewrite (co_sum _ Hc); apply Z.eqb_refl).
  rewrite require_ctv_pass by (rewrite (co_fee _ Hc); apply Z.eqb_refl).
  assert (match cpc_anchor_vout p with
    | Some a => output ← expect (specs_of (cpc_outputs p) anchor !! length (cpc_outputs p)) "index out of bounds";
        ensure_fee_anchor_output output a (length (cpc_outputs p))
    | None => Ok () end = Ok ()) as ->.
  { rewrite (co_anchor _ Hc). unfold anchor, fanout_has_cpfp_anchor.
    destruct (cpc_fanout_fee_sats p =? 0); [|done]. unfold specs_of.
    rewrite lookup_app_r, length_fmap, Nat.sub_diag by (by rewrite length_fmap). cbn.
    unfold ensure_fee_anchor_output. rewrite p2a_anchor_script_Ok. cbn.
    rewrite require_ctv_pass by apply Z.eqb_refl. by rewrite bool_decide_eq_true_2. }
  cbn [mbind result_bind]. unfold checked_add. rewrite <- Hval, checked_fits by apply Hc.
  cbn [ok_or mbind result_bind]. by rewrite Z.eqb_refl.
Qed.

Lemma structure_pass : verify_ctv_fanout_manifest_structure finalized = Ok ().
Proof.
  unfold verify_ctv_fanout_manifest_structure. rewrite encoding_pass. cbn [mbind result_bind].
  rewrite parent_pass. cbn [mbind result_bind].
  destruct template_parses as (tb & Htb & Htp). cbn [finalized cfm_precommitment cfm_fanout_tx_hex].
  unfold parse_transaction_hex. rewrite Htb, !hex_decode_encode, Htp. cbn [mbind result_bind].
  assert (validate_fanout_template template_tx = Ok ()) as -> by apply template_valid. cbn [mbind result_bind]. rewrite Hfp. cbn [mbind result_bind].
  rewrite input_pass. cbn [mbind result_bind]. rewrite covenant_pass. cbn [mbind result_bind]. apply payouts_pass.
Qed.

(** The rebuilt precommitment is the prepared one. *)
Lemma precommitment_rebuilt : {|
    cpc_schema := CTV_FANOUT_PRECOMMITMENT_SCHEMA;
    cpc_block_height := cpc_block_height p;
    cpc_chunk_index := cpc_chunk_index p;
    cpc_chunk_count := cpc_chunk_count p;
    cpc_coinbase_value_sats := cpc_coinbase_value_sats p;
    cpc_settlement_mode := cpc_settlement_mode p;
    cpc_covenant_output_value_sats := cpc_covenant_output_value_sats p;
    cpc_covenant_script_pubkey_hex :=
      hex_encode (p2mr_script_pubkey (p2mr_tapleaf_hash (ctv_leaf_script hash)));
    cpc_fanout_tx_template_hex := cpc_fanout_tx_template_hex p;
    cpc_fanout_input_index := QBIT_CTV_INPUT_INDEX;
    cpc_fanout_sequence := cpc_fanout_sequence p;
    cpc_fanout_lock_time := cpc_fanout_lock_time p;
    cpc_fanout_output_sum_sats := cpc_fanout_output_sum_sats p;
    cpc_fanout_fee_sats := cpc_fanout_fee_sats p;
    cpc_anchor_vout := cpc_anchor_vout p;
    cpc_ctv_hash_hex := hex_encode hash;
    cpc_ctv_leaf_script_hex := hex_encode (ctv_leaf_script hash);
    cpc_p2mr_program_hex := hex_encode (p2mr_tapleaf_hash (ctv_leaf_script hash));
    cpc_p2mr_control_block_hex := hex_encode [byte.of_Z QBIT_P2MR_CONTROL_BLOCK];
    cpc_reward_manifest_sha256_hex := to_ascii_lowercase (cpc_reward_manifest_sha256_hex p);
    cpc_payout_policy_manifest_sha256_hex :=
      to_ascii_lowercase (cpc_payout_policy_manifest_sha256_hex p);
    cpc_outputs := cpc_outputs p |} = p.
Proof.
  destruct (verified_fields p () (re_verified _ _ _ _ Hready)) as (_ & _ & _ & -> & ->).
  destruct Hready. by destruct p; cbn in *; subst.
Qed.

Lemma build_pass parent_hex (Hhex : hex_decode parent_hex = inr parent_bytes) : build_ctv_fanout_manifest {|
    cfi_block_height := cpc_block_height p;
    cfi_chunk_index := cpc_chunk_index p;
    cfi_chunk_count := cpc_chunk_count p;
    cfi_coinbase_value_sats := cpc_coinbase_value_sats p;
    cfi_settlement_mode := cpc_settlement_mode p;
    cfi_fanout_tx_template_hex := cpc_fanout_tx_template_hex p;
    cfi_parent_coinbase_tx_hex := parent_hex;
    cfi_parent_coinbase_vout := vout;
    cfi_fanout_tx_hex := hex_encode fanout_bytes;
    cfi_reward_manifest_sha256_hex := cpc_reward_manifest_sha256_hex p;
    cfi_payout_policy_manifest_sha256_hex := cpc_payout_policy_manifest_sha256_hex p;
    cfi_payouts := payout_of_output <$> cpc_outputs p |} = Ok finalized.
Proof.
  destruct (verified_fields p () (re_verified _ _ _ _ Hready)) as (Hch & Hr & Hpp & _ & _).
  destruct template_parses as (tb & Htb & Htp).
  unfold build_ctv_fanout_manifest.
  cbn [cfi_block_height cfi_chunk_index cfi_chunk_count cfi_coinbase_value_sats cfi_settlement_mode
    cfi_fanout_tx_template_hex cfi_parent_coinbase_tx_hex cfi_parent_coinbase_vout cfi_fanout_tx_hex
    cfi_reward_manifest_sha256_hex cfi_payout_policy_manifest_sha256_hex cfi_payouts].
  rewrite require_ctv_pass by (apply Z.leb_le, Hready).
  rewrite require_ctv_pass by (rewrite bool_decide_eq_false_2; [done|apply Hready]).
  rewrite Hch, Hr, Hpp. cbn [mbind result_bind].
  unfold parse_transaction_hex. rewrite Hhex, Htb, !hex_decode_encode, Hparse. cbn [mbind result_bind].
  rewrite Hshape. cbn [mbind result_bind]. rewrite Htp. cbn [mbind result_bind]. rewrite Hfp.
  cbn [mbind result_bind].
  assert (validate_fanout_template template_tx = Ok ()) as -> by apply template_valid. cbn [mbind result_bind].
  rewrite Hfunded. cbn [ok_or mbind result_bind pto_amount_sats].
  rewrite hash_of_template. cbn [mbind result_bind]. rewrite hash_of_fanout. cbn [mbind result_bind].
  rewrite require_ctv_pass by (by apply bool_decide_eq_true_2).
  change (ptx_inputs fanout_tx !! Z.to_nat QBIT_CTV_INPUT_INDEX)
    with (Some (fanout_txin raw vout (cpc_fanout_sequence p))). cbn [ok_or mbind result_bind].
  rewrite (co_sequence _ Hc). cbn [mbind result_bind fanout_txin pti_sequence].
  rewrite require_ctv_pass by apply Z.eqb_refl.
  rewrite (re_canonical _ _ _ _ Hready). cbn [mbind result_bind].
  rewrite (re_sum _ _ _ _ Hready). cbn [mbind result_bind].
  rewrite (re_fee _ _ _ _ Hready). cbn [mbind result_bind].
  rewrite (re_anchor _ _ _ _ Hready). cbn [mbind result_bind].
  rewrite (normalize_hex_encode tb). cbn [mbind result_bind]. rewrite <- Htb.
  change (ptx_lock_time fanout_tx) with (cpc_fanout_lock_time p).
  cbn zeta. rewrite precommitment_rebuilt, (re_encoded _ _ _ _ Hready). cbn [mbind result_bind].
  rewrite HL. cbn [mbind result_bind]. unfold normalize_hex. rewrite Hhex, hex_decode_encode.
  cbn [CtvErr mbind result_bind].
  fold finalized. rewrite structure_pass. done.
Qed.
End manifest.

(** Finalising over the funding coinbase succeeds and keeps the commitment. *)
Lemma funded_finalizes L parent_hex :
  commitment_witness_leaf_hex (sha256_hex encoded) = Ok L → hex_decode parent_hex = inr parent_bytes →
  ∃ fanout_bytes, build_ctv_fanout_manifest_from_precommitment p parent_hex vout =
    Ok (finalized L fanout_bytes) ∧
    ∀ name, parse_transaction fanout_bytes name = Ok fanout_tx.
Proof.
  intros HL Hhex. destruct fanout_parses as (fb & Hfb & Hfp). exists fb. split; [|done].
  unfold build_ctv_fanout_manifest_from_precommitment.
  rewrite (re_verified _ _ _ _ Hready). cbn [mbind result_bind].
  unfold parse_transaction_hex at 1. rewrite Hhex, Hparse. cbn [mbind result_bind]. rewrite Hshape.
  cbn [mbind result_bind]. rewrite (re_leaf_hex _ _ _ _ Hready), hex_decode_encode. cbn [CtvErr mbind result_bind].
  rewrite anchor_is_some. unfold leaf_script in Hfb. rewrite Hfb. cbn [mbind result_bind].
  by apply build_pass.
Qed.
End funded.

Lemma prepared_finalizes input prep parent_hex parent_bytes parent vout program :
  prepare_ctv_fanout_precommitment input = Ok prep →
  Forall (fun x => 0 ≤ cfp_amount_sats x ∧ 0 ≤ cfp_fee_sats x) (cpi_payouts input) →
  Z.of_nat (length (cpi_payouts input)) ≤ int_max U32 →
  hex_decode parent_hex = inr parent_bytes → Z.of_nat (length parent_bytes) ≤ int_max Usize →
  parse_transaction parent_bytes "parent_coinbase_tx_hex" = Ok parent →
  ensure_coinbase_shape parent = Ok () → fits U32 vout = true →
  hex_decode (pcf_covenant_p2mr_program_hex prep) = inr program →
  ptx_outputs parent !! Z.to_nat vout =
    Some {| pto_amount_sats := pcf_covenant_output_value_sats prep;
            pto_script_pubkey := p2mr_script_pubkey program |} →
  ∃ m, build_ctv_fanout_manifest_from_precommitment (pcf_precommitment prep) parent_hex vout = Ok m ∧
    verify_ctv_fanout_manifest_structure m = Ok () ∧
    cfm_precommitment m = pcf_precommitment prep ∧
    cfm_precommitment_sha256_hex m = pcf_precommitment_sha256_hex prep ∧
    cfm_commitment_witness_leaf_hex m = pcf_commitment_witness_leaf_hex prep.
Proof.
  intros Hp Htyped Hcount Hhex Hsize Hparse Hshape Hvout Hprog Hfund.
  destruct (prepare_ready input prep Hp Hcount) as (zeros & hash & encoded & Hready & Hsha & Hprg & Hval & HL).
  { clear -Hp Htyped H0. unfold prepare_ctv_fanout_precommitment in Hp.
    do 5 (apply bind_Ok in Hp as (? & _ & Hp)). apply bind_Ok in Hp as (outputs & Ho & Hp).
    do 12 (apply bind_Ok in Hp as (? & _ & Hp)). apply bind_Ok in Hp as (? & _ & [= <-]). cbn.
    apply canonical_fanout_outputs_perm in Ho.
    assert (Forall (fun t : string * string * Z * Z => 0 ≤ t.1.2 ∧ 0 ≤ t.2) (payout_terms <$> cpi_payouts input)) as Hf
      by (by apply Forall_fmap).
    rewrite <- Ho in Hf. by rewrite Forall_fmap in Hf. }
  rewrite Hprg, (re_program_hex _ _ _ _ Hready), hex_decode_encode in Hprog. injection Hprog as <-.
  rewrite Hval in Hfund.
  destruct (funded_finalizes _ _ _ _ Hready _ _ _ Hsize Hparse Hshape Hvout Hfund _ _ HL Hhex)
    as (fb & Hb & Hfp).
  eexists. split; [exact Hb|]. split.
  { by eapply structure_pass. }
  by rewrite Hsha.
Qed.

(** C34: A prepared fanout can always be settled: over any coinbase whose output
    [vout] pays the covenant value to the covenant program, finalising the
    precommitment succeeds, the manifest passes the structural verifier, and it
    carries the very precommitment, precommitment hash and witness leaf that
    were committed before mining. *)
Theorem precommitment_finalizes input prep parent_hex parent_bytes parent vout program :
  prepare_ctv_fanout_precommitment input = Ok prep →
  Forall (fun x => 0 ≤ cfp_amount_sats x ∧ 0 ≤ cfp_fee_sats x) (cpi_payouts input) →
  Z.of_nat (length (cpi_payouts input)) ≤ int_max U32 →
  hex_decode parent_hex = inr parent_bytes → Z.of_nat (length parent_bytes) ≤ int_max Usize →
  parse_transaction parent_bytes "parent_coinbase_tx_hex" = Ok parent →
  ensure_coinbase_shape parent = Ok () → fits U32 vout = true →
  hex_decode (pcf_covenant_p2mr_program_hex prep) = inr program →
  ptx_outputs parent !! Z.to_nat vout =
    Some {| pto_amount_sats := pcf_covenant_output_value_sats prep;
            pto_script_pubkey := p2mr_script_pubkey program |} →
  ∃ m, build_ctv_fanout_manifest_from_precommitment (pcf_precommitment prep) parent_hex vout = Ok m ∧
    verify_ctv_fanout_manifest_structure m = Ok () ∧
    cfm_precommitment m = pcf_precommitment prep ∧
    cfm_precommitment_sha256_hex m = pcf_precommitment_sha256_hex prep ∧
    cfm_commitment_witness_leaf_hex m = pcf_commitment_witness_leaf_hex prep.
Proof. apply prepared_finalizes. Qed.

(** C35: A manifest that passes the structural verifier settles the covenant
    exactly: its fanout transaction has one input, spending output
    [parent_coinbase_vout] of the coinbase it carries; it pays every listed
    payout its amount at the P2MR script of its program, in order, to
    distinct recipients and never zero, plus a zero-value anchor exactly when there is no fee;
    and what it pays plus the fee is the value of the output it spends. *)
Theorem verified_manifest_pays m u :
  verify_ctv_fanout_manifest_structure m = Ok u →
  let p := cfm_precommitment m in
  ∃ parent fanout covenant,
    parse_transaction_hex (cfm_parent_coinbase_tx_hex m) "manifest parent_coinbase_tx_hex" = Ok parent ∧
    parse_transaction_hex (cfm_fanout_tx_hex m) "manifest fanout_tx_hex" = Ok fanout ∧
    (fun i => (pti_prev_txid_hex i, pti_prev_vout i)) <$> ptx_inputs fanout =
      [(txid_hex parent, cfm_parent_coinbase_vout m)] ∧
    ptx_outputs parent !! Z.to_nat (cfm_parent_coinbase_vout m) = Some covenant ∧
    Forall2 txout_of_payout (cpc_outputs p) (take (length (cpc_outputs p)) (ptx_outputs fanout)) ∧
    length (ptx_outputs fanout) =
      (length (cpc_outputs p) + (if (cpc_fanout_fee_sats p =? 0)%Z then 1 else 0))%nat ∧
    NoDup (output_key <$> cpc_outputs p) ∧
    Forall (fun o => cfo_amount_sats o ≠ 0) (cpc_outputs p) ∧
    sum_of pto_amount_sats (ptx_outputs fanout) + sum_of cfo_fee_sats (cpc_outputs p) =
      pto_amount_sats covenant.
Proof.
  intros Hv p. apply structure_settles in Hv as (parent & fanout & hash & [Hc Hp Htx Hcov Hval Hf _ Hin _ _ _ Hpay _ _ _]).
  destruct Hpay as (paid & rest & Hout & HF & Hrest). fold p in Hc, HF, Hrest, Hval.
  pose proof (Forall2_length _ _ _ HF) as Hn.
  assert (sum_of pto_amount_sats paid = sum_of cfo_amount_sats (cpc_outputs p)) as Hsum.
  { clear -HF. induction HF as [|o t os ts [Ha _] _ IH]; [done|]. rewrite !sum_of_cons, IH. lia. }
  exists parent, fanout, {| pto_amount_sats := cfm_covenant_output_value_sats m;
    pto_script_pubkey := p2mr_script_pubkey (p2mr_tapleaf_hash (ctv_leaf_script hash)) |}.
  split_and!; try done.
  - rewrite Hin, Htx. done.
  - by rewrite Hout, Hn, take_app_length.
  - rewrite Hout, length_app, Hn, Hrest. by destruct (cpc_fanout_fee_sats p =? 0).
  - apply Hc.
  - apply Forall_lookup. intros i o Hi. by destruct (oo_each _ (co_outputs _ Hc) _ _ Hi) as (_ & Ha & _).
  - rewrite Hout, sum_of_app, Hsum, Hrest. cbn. rewrite Hval, (co_value _ Hc), (co_sum _ Hc), (co_fee _ Hc).
    destruct (sum_of cfo_fee_sats (cpc_outputs p) =? 0); rewrite ?sum_of_cons, sum_of_nil; cbn; lia.
Qed.

(** C36: The covenant leaves no choice to whoever spends it: a transaction whose
    own CTV leaf hashes to the script of the covenant output pays exactly the
    listed payouts, at the committed version, lock time and sequence, unless
    SHA-256 collides on one of the byte strings hashed for the two. *)
Theorem covenant_binds_payouts m u parent covenant fanout_bytes fanout bytes name spend i h :
  verify_ctv_fanout_manifest_structure m = Ok u →
  parse_transaction_hex (cfm_parent_coinbase_tx_hex m) "manifest parent_coinbase_tx_hex" = Ok parent →
  ptx_outputs parent !! Z.to_nat (cfm_parent_coinbase_vout m) = Some covenant →
  hex_decode (cfm_fanout_tx_hex m) = inr fanout_bytes →
  Z.of_nat (length fanout_bytes) ≤ int_max Usize →
  parse_transaction fanout_bytes "manifest fanout_tx_hex" = Ok fanout →
  Z.of_nat (length bytes) ≤ int_max Usize → parse_transaction bytes name = Ok spend →
  default_ctv_hash_for_parsed_tx spend i = Ok h →
  pto_script_pubkey covenant = p2mr_script_pubkey (p2mr_tapleaf_hash (ctv_leaf_script h)) →
  no_collision (hashed_for_covenant spend i ++ hashed_for_covenant fanout QBIT_CTV_INPUT_INDEX) →
  i = QBIT_CTV_INPUT_INDEX ∧ ptx_outputs spend = ptx_outputs fanout ∧
  ptx_version spend = ptx_version fanout ∧ ptx_lock_time spend = ptx_lock_time fanout ∧
  pti_sequence <$> ptx_inputs spend = [cpc_fanout_sequence (cfm_precommitment m)] ∧
  Forall2 txout_of_payout (cpc_outputs (cfm_precommitment m))
    (take (length (cpc_outputs (cfm_precommitment m))) (ptx_outputs spend)).
Proof.
  intros Hv Hp Hcov Hd Hfl Hfp Hbl Hbp Hh Hscript Hfree.
  apply structure_settles in Hv as (parent' & fanout' & hash & Hs).
  pose proof (se_parent _ _ _ _ Hs) as Hp'. rewrite Hp in Hp'. injection Hp' as <-.
  pose proof (se_fanout _ _ _ _ Hs) as Hf'. unfold parse_transaction_hex in Hf'. rewrite Hd, Hfp in Hf'.
  injection Hf' as <-. pose proof (se_covenant _ _ _ _ Hs) as Hc'. rewrite Hcov in Hc'. injection Hc' as ->.
  cbn in Hscript. pose proof (se_hash _ _ _ _ Hs) as Hhash.
  unfold hashed_for_covenant in Hfree. rewrite Hh, Hhash in Hfree.
  assert (hash = h) as ->.
  { apply tapleaf_preimage_inj; [by rewrite (ctv_hash_length _ _ _ Hh), (ctv_hash_length _ _ _ Hhash)|].
    apply Hfree; [in_list..|]. injection Hscript as Heq. exact Heq. }
  destruct (template_bound bytes fanout_bytes name "manifest fanout_tx_hex" spend fanout i QBIT_CTV_INPUT_INDEX h)
    as [Ht ->]; try done.
  { intros x y Hx Hy. rewrite elem_of_app in Hx, Hy. apply Hfree; in_list. }
  injection Ht as Hver Hlock _ Hseq Hout. rewrite (se_input _ _ _ _ Hs) in Hseq.
  destruct (se_payouts _ _ _ _ Hs) as (paid & rest & Hpr & HF & _).
  split_and!; try done. rewrite Hout, Hpr, (Forall2_length _ _ _ HF), take_app_length. done.
Qed.
End finalize.

(** * Examples *)
#[export] Instance example_precommitment_json : ToJson CtvFanoutPrecommitment :=
  {| json_to_vec p := inr (str_bytes (cpc_ctv_hash_hex p)) |}.

Definition example_payout (key digits : string) (amount : Z) : CtvFanoutPayout :=
  {| cfp_recipient_id := "miner-" +:+ key; cfp_order_key := key;
     cfp_p2mr_program_hex := repeat_string 32 digits; cfp_gross_amount_sats := 0;
     cfp_fee_sats := 0; cfp_amount_sats := amount |}.
Definition example_fanout_input : CtvFanoutPrecommitmentInput := {|
  cpi_block_height := 840000; cpi_chunk_index := 0; cpi_chunk_count := 1;
  cpi_coinbase_value_sats := 5000; cpi_settlement_mode := CtvFanout;
  cpi_reward_manifest_sha256_hex := repeat_string 32 "Aa";
  cpi_payout_policy_manifest_sha256_hex := repeat_string 32 "bB";
  cpi_payouts := [example_payout "b" "Cd" 3000; example_payout "a" "ef" 2000] |}.
Definition example_prepared : PreparedCtvFanout.
Proof. ok_of (prepare_ctv_fanout_precommitment example_fanout_input). Defined.
Definition example_covenant_program : list byte := Eval vm_compute in
  match hex_decode (pcf_covenant_p2mr_program_hex example_prepared) with inr bs => bs | inl _ => [] end.
Definition example_parent_hex : string := Eval vm_compute in
  match serialize_tx_hex 2
    [{| tis_prev_txid_hex := repeat_string 32 "00"; tis_prev_vout := COINBASE_PREVOUT_VOUT;
        tis_script_sig := [Byte.x01]; tis_sequence := 0; tis_witness_stack := [] |}]
    [{| tos_amount_sats := 5000; tos_script_pubkey := p2mr_script_pubkey example_covenant_program |}] 839999 false with
  | Ok hex => hex | _ => EmptyString end.
Definition example_parent_bytes : list byte := Eval vm_compute in
  match hex_decode example_parent_hex with inr bs => bs | inl _ => [] end.
Definition example_parent : ParsedTransaction.
Proof. ok_of (parse_transaction example_parent_bytes "parent_coinbase_tx_hex"). Defined.
Definition example_fanout_manifest : CtvFanoutManifest.
Proof. ok_of (build_ctv_fanout_manifest_from_precommitment (pcf_precommitment example_prepared)
             example_parent_hex 0). Defined.
Definition example_fanout_bytes : list byte := Eval vm_compute in
  match hex_decode (cfm_fanout_tx_hex example_fanout_manifest) with inr bs => bs | inl _ => [] end.
Definition example_fanout_tx : ParsedTransaction.
Proof. ok_of (parse_transaction example_fanout_bytes "manifest fanout_tx_hex"). Defined.

Lemma precommitment_finalizes_witness :
  ∃ m, build_ctv_fanout_manifest_from_precommitment (pcf_precommitment example_prepared)
         example_parent_hex 0 = Ok m ∧ verify_ctv_fanout_manifest_structure m = Ok ().
Proof.
  destruct (precommitment_finalizes example_fanout_input example_prepared example_parent_hex
    example_parent_bytes example_parent 0 example_covenant_program) as (m & Hm & Hv & _).
  - vm_compute. reflexivity.
  - apply Forall_forall. intros x Hx. vm_compute in Hx. 
    repeat (apply elem_of_cons in Hx as [->|Hx]; [cbn; lia|]). by apply elem_of_nil in Hx.
  - vm_compute. discriminate.
  - vm_compute. reflexivity.
  - vm_compute. discriminate.
  - vm_compute. reflexivity.
  - vm_compute. reflexivity.
  - vm_compute. reflexivity.
  - vm_compute. reflexivity.
  - vm_compute. reflexivity.
  - exists m. split; [exact Hm|exact Hv].
Defined.

Lemma verified_manifest_pays_witness :
  verify_ctv_fanout_manifest_structure example_fanout_manifest = Ok () ∧
  NoDup (output_key <$> cpc_outputs (cfm_precommitment example_fanout_manifest)).
Proof.
  assert (verify_ctv_fanout_manifest_structure example_fanout_manifest = Ok ()) as Hv
    by (vm_compute; reflexivity).
  split; [exact Hv|].
  destruct (verified_manifest_pays example_fanout_manifest () Hv)
    as (parent & fanout & covenant & _ & _ & _ & _ & _ & _ & Hnd & _).
  exact Hnd.
Defined.

(** A second transaction with the same template: it spends another outpoint and
    carries no witness. *)
Definition example_spend_bytes : list byte := Eval vm_compute in
  match serialize_tx_hex 3
    [{| tis_prev_txid_hex := repeat_string 32 "5a"; tis_prev_vout := 7; tis_script_sig := [];
        tis_sequence := 2 ^ 31; tis_witness_stack := [] |}]
    ((fun t => {| tos_amount_sats := pto_amount_sats t; tos_script_pubkey := pto_script_pubkey t |})
       <$> ptx_outputs example_fanout_tx) 840000 false with
  | Ok hex => match hex_decode hex with inr bs => bs | inl _ => [] end | _ => [] end.
Definition example_spend_tx : ParsedTransaction.
Proof. ok_of (parse_transaction example_spend_bytes "spend"). Defined.
Definition example_spend_hash : list byte.
Proof. ok_of (default_ctv_hash_for_parsed_tx example_spend_tx 0). Defined.

Lemma covenant_binds_payouts_witness :
  ptx_outputs example_spend_tx = ptx_outputs example_fanout_tx.
Proof.
  refine (proj1 (proj2 (covenant_binds_payouts example_fanout_manifest () example_parent
    {| pto_amount_sats := 5000; pto_script_pubkey := p2mr_script_pubkey example_covenant_program |}
    example_fanout_bytes example_fanout_tx example_spend_bytes "spend" example_spend_tx 0
    example_spend_hash _ _ _ _ _ _ _ _ _ _ _))).
  - vm_compute. reflexivity.
  - vm_compute. reflexivity.
  - vm_compute. reflexivity.
  - vm_compute. reflexivity.
  - vm_compute. discriminate.
  - vm_compute. reflexivity.
  - vm_compute. discriminate.
  - vm_compute. reflexivity.
  - vm_compute. reflexivity.
  - vm_compute. reflexivity.
  - apply no_collisionb_sound. vm_compute. reflexivity.
Defined.
