(* ===== verification/FanoutSet.v ===== *)
(** The set of fanout manifests of one block (crates/qbit-prism/src/ctv.rs):
    its builder and its verifier.  A verified set is the contiguous list of the
    block's chunks, all spending different outputs of one coinbase, and its
    totals are the totals of its chunks. *)
From Stdlib Require Import ZArith Lia.
From Stdlib Require String.
From coqutil Require Import Byte.
From stdpp Require Import base list strings pretty gmap sorting.
From S2P Require Import Prelude Order Bytes Crates PrismError CtvTx CtvHash Settlement Fanout Covenant PoolBuilder.
From Stdlib Require Import Sorting.Permutation.

Open Scope Z_scope.

Definition CTV_FANOUT_MANIFEST_SET_SCHEMA : string := "qbit.prism.ctv-fanout-manifest-set.v1".

Record CtvFanoutManifestSet := {
  cfs_schema : string;
  cfs_block_height : Z;
  cfs_coinbase_value_sats : Z;
  cfs_settlement_mode : SettlementMode;
  cfs_reward_manifest_sha256_hex : string;
  cfs_payout_policy_manifest_sha256_hex : string;
  cfs_parent_coinbase_txid : string;
  cfs_fanout_count : Z;
  cfs_fanout_output_sum_sats : Z;
  cfs_fanout_fee_sats : Z;
  cfs_covenant_output_value_sats : Z;
  cfs_manifests : list CtvFanoutManifest;
}.

Section manifest_set.
Context `{HexCrate, Sha256Crate, !ToJson CtvFanoutPrecommitment, !ToJson CtvFanoutManifestSet}.

(** The four sets and three sums the loop carries. *)
Record SetAcc := {
  sa_parent_vouts : gset Z;
  sa_ctv_hashes : gset string;
  sa_fanout_txids : gset string;
  sa_commitment_leaves : gset string;
  sa_output_sum : Z;
  sa_fee_sum : Z;
  sa_covenant_sum : Z;
}.
Definition set_acc_new : SetAcc := {|
  sa_parent_vouts := ∅; sa_ctv_hashes := ∅; sa_fanout_txids := ∅; sa_commitment_leaves := ∅;
  sa_output_sum := 0; sa_fee_sum := 0; sa_covenant_sum := 0 |}.

(** The chunk belongs to this set at this position. *)
Definition chunk_matches (set : CtvFanoutManifestSet) (expected_index : nat) (m : CtvFanoutManifest)
  : result PrismError unit :=
  let p := cfm_precommitment m in
  _ ← require_ctv (cpc_chunk_index p =? as_u32 (Z.of_nat expected_index))
        "fanout manifest set chunks must be contiguous and canonical";
  _ ← require_ctv (cpc_chunk_count p =? cfs_fanout_count set) "fanout chunk count mismatch";
  _ ← require_ctv (cpc_block_height p =? cfs_block_height set) "fanout set block height mismatch";
  _ ← require_ctv (cpc_coinbase_value_sats p =? cfs_coinbase_value_sats set)
        "fanout set coinbase value mismatch";
  _ ← require_ctv (bool_decide (cpc_settlement_mode p = cfs_settlement_mode set))
        "fanout set settlement mode mismatch";
  _ ← require_ctv (bool_decide (cpc_reward_manifest_sha256_hex p = cfs_reward_manifest_sha256_hex set))
        "fanout set reward manifest mismatch";
  _ ← require_ctv (bool_decide (cpc_payout_policy_manifest_sha256_hex p =
                                cfs_payout_policy_manifest_sha256_hex set))
        "fanout set payout policy manifest mismatch";
  require_ctv (bool_decide (cfm_parent_coinbase_txid m = cfs_parent_coinbase_txid set))
    "fanout set parent coinbase mismatch".

Definition verify_chunk (set : CtvFanoutManifestSet) (acc : SetAcc) (indexed : nat * CtvFanoutManifest)
  : result PrismError SetAcc :=
  let '(expected_index, m) := indexed in
  _ ← verify_ctv_fanout_manifest_structure m;
  let p := cfm_precommitment m in
  _ ← chunk_matches set expected_index m;
  _ ← require_ctv (negb (bool_decide (cfm_parent_coinbase_vout m ∈ sa_parent_vouts acc)))
        "duplicate fanout parent coinbase vout";
  _ ← require_ctv (negb (bool_decide (cpc_ctv_hash_hex p ∈ sa_ctv_hashes acc)))
        "duplicate fanout CTV hash";
  _ ← require_ctv (negb (bool_decide (cfm_fanout_txid m ∈ sa_fanout_txids acc)))
        "duplicate fanout txid";
  _ ← require_ctv (negb (bool_decide (cfm_commitment_witness_leaf_hex m ∈ sa_commitment_leaves acc)))
        "duplicate fanout commitment witness leaf";
  output_sum ← ok_or (checked_add U64 (sa_output_sum acc) (cpc_fanout_output_sum_sats p))
    (InvalidCtvFanoutManifest "fanout set output sum overflowed");
  fee_sum ← ok_or (checked_add U64 (sa_fee_sum acc) (cpc_fanout_fee_sats p))
    (InvalidCtvFanoutManifest "fanout set fee sum overflowed");
  covenant_sum ← ok_or (checked_add U64 (sa_covenant_sum acc) (cfm_covenant_output_value_sats m))
    (InvalidCtvFanoutManifest "fanout set covenant value overflowed");
  Ok {| sa_parent_vouts := {[cfm_parent_coinbase_vout m]} ∪ sa_parent_vouts acc;
        sa_ctv_hashes := {[cpc_ctv_hash_hex p]} ∪ sa_ctv_hashes acc;
        sa_fanout_txids := {[cfm_fanout_txid m]} ∪ sa_fanout_txids acc;
        sa_commitment_leaves := {[cfm_commitment_witness_leaf_hex m]} ∪ sa_commitment_leaves acc;
        sa_output_sum := output_sum; sa_fee_sum := fee_sum; sa_covenant_sum := covenant_sum |}.

Definition verify_ctv_fanout_manifest_set (set : CtvFanoutManifestSet) : result PrismError unit :=
  _ ← require_ctv (bool_decide (cfs_schema set = CTV_FANOUT_MANIFEST_SET_SCHEMA))
        "unexpected fanout manifest set schema";
  _ ← require_ctv (negb (bool_decide (cfs_manifests set = []))) "fanout manifest set is empty";
  _ ← require_ctv (cfs_fanout_count set =? Z.of_nat (length (cfs_manifests set)))
        "fanout manifest set count mismatch";
  _ ← require_ctv (negb (bool_decide (cfs_settlement_mode set = DirectCoinbase)))
        "direct_coinbase mode cannot include a CTV fanout manifest set";
  _ ← validate_canonical_sha256_hex (cfs_reward_manifest_sha256_hex set)
        "fanout set reward_manifest_sha256_hex";
  _ ← validate_canonical_sha256_hex (cfs_payout_policy_manifest_sha256_hex set)
        "fanout set payout_policy_manifest_sha256_hex";
  _ ← validate_canonical_sha256_hex (cfs_parent_coinbase_txid set) "fanout set parent_coinbase_txid";
  acc ← try_fold (verify_chunk set) set_acc_new (imap pair (cfs_manifests set));
  _ ← require_ctv (sa_output_sum acc =? cfs_fanout_output_sum_sats set) "fanout set output sum mismatch";
  _ ← require_ctv (sa_fee_sum acc =? cfs_fanout_fee_sats set) "fanout set fee sum mismatch";
  _ ← require_ctv (sa_covenant_sum acc =? cfs_covenant_output_value_sats set)
        "fanout set covenant value mismatch";
  funded_value_sats ← ok_or (checked_add U64 (sa_output_sum acc) (sa_fee_sum acc))
    (InvalidCtvFanoutManifest "fanout set funded value overflowed");
  require_ctv (funded_value_sats =? sa_covenant_sum acc)
    "fanout set payouts plus fee do not equal covenant value".

Definition set_sum (f : CtvFanoutManifest -> Z) (reason : string) (manifests : list CtvFanoutManifest)
  : result PrismError Z :=
  try_fold (fun sum m => ok_or (checked_add U64 sum (f m)) (InvalidCtvFanoutManifest reason)) 0 manifests.

Definition build_ctv_fanout_manifest_set (manifests : list CtvFanoutManifest)
  : result PrismError CtvFanoutManifestSet :=
  _ ← require_ctv (negb (bool_decide (manifests = []))) "fanout manifest set is empty";
  let manifests := sort_by (cmp_on (fun m => cpc_chunk_index (cfm_precommitment m)) Z.compare) manifests in
  first ← expect (manifests !! 0%nat) "index out of bounds";
  let p := cfm_precommitment first in
  output_sum ← set_sum (fun m => cpc_fanout_output_sum_sats (cfm_precommitment m))
                 "fanout set output sum overflowed" manifests;
  fee_sum ← set_sum (fun m => cpc_fanout_fee_sats (cfm_precommitment m))
                 "fanout set fee sum overflowed" manifests;
  covenant_sum ← set_sum cfm_covenant_output_value_sats "fanout set covenant value overflowed" manifests;
  fanout_count ← ok_or (checked U32 (Z.of_nat (length manifests)))
    (InvalidCtvFanoutManifest "fanout manifest count exceeds uint32");
  let set := {|
    cfs_schema := CTV_FANOUT_MANIFEST_SET_SCHEMA;
    cfs_block_height := cpc_block_height p;
    cfs_coinbase_value_sats := cpc_coinbase_value_sats p;
    cfs_settlement_mode := cpc_settlement_mode p;
    cfs_reward_manifest_sha256_hex := cpc_reward_manifest_sha256_hex p;
    cfs_payout_policy_manifest_sha256_hex := cpc_payout_policy_manifest_sha256_hex p;
    cfs_parent_coinbase_txid := cfm_parent_coinbase_txid first;
    cfs_fanout_count := fanout_count;
    cfs_fanout_output_sum_sats := output_sum;
    cfs_fanout_fee_sats := fee_sum;
    cfs_covenant_output_value_sats := covenant_sum;
    cfs_manifests := manifests |} in
  _ ← verify_ctv_fanout_manifest_set set;
  Ok set.

Definition canonical_ctv_fanout_manifest_set_bytes (set : CtvFanoutManifestSet)
  : result PrismError (list byte) :=
  _ ← verify_ctv_fanout_manifest_set set;
  match json_to_vec set with inl display => Err (PrismJson display) | inr bytes => Ok bytes end.
Definition ctv_fanout_manifest_set_sha256_hex (set : CtvFanoutManifestSet) : result PrismError string :=
  bytes ← canonical_ctv_fanout_manifest_set_bytes set; Ok (sha256_hex bytes).
End manifest_set.

(** * What a verified set is *)
Section facts.
Context `{HexCrate, !HexLaws, Sha256Crate, !Sha256Laws, !ToJson CtvFanoutPrecommitment}.
Implicit Types (ms : list CtvFanoutManifest) (m : CtvFanoutManifest).

Record chunk_of (set : CtvFanoutManifestSet) (i : nat) (m : CtvFanoutManifest) : Prop := {
  ch_verified : verify_ctv_fanout_manifest_structure m = Ok ();
  ch_index : cpc_chunk_index (cfm_precommitment m) = as_u32 (Z.of_nat i);
  ch_height : cpc_block_height (cfm_precommitment m) = cfs_block_height set;
  ch_mode : cpc_settlement_mode (cfm_precommitment m) = cfs_settlement_mode set;
  ch_parent : cfm_parent_coinbase_txid m = cfs_parent_coinbase_txid set;
}.

Definition ctv_hash_of m := cpc_ctv_hash_hex (cfm_precommitment m).
Definition output_sum_of m := cpc_fanout_output_sum_sats (cfm_precommitment m).
Definition fee_sum_of m := cpc_fanout_fee_sats (cfm_precommitment m).

(** The accumulator after the chunks [ms]. *)
Definition acc_of ms : SetAcc := {|
  sa_parent_vouts := list_to_set (cfm_parent_coinbase_vout <$> ms);
  sa_ctv_hashes := list_to_set (ctv_hash_of <$> ms);
  sa_fanout_txids := list_to_set (cfm_fanout_txid <$> ms);
  sa_commitment_leaves := list_to_set (cfm_commitment_witness_leaf_hex <$> ms);
  sa_output_sum := sum_of output_sum_of ms;
  sa_fee_sum := sum_of fee_sum_of ms;
  sa_covenant_sum := sum_of cfm_covenant_output_value_sats ms |}.

Record chunks_ok (set : CtvFanoutManifestSet) ms : Prop := {
  ck_each i m : ms !! i = Some m → chunk_of set i m;
  ck_vouts : NoDup (cfm_parent_coinbase_vout <$> ms);
  ck_hashes : NoDup (ctv_hash_of <$> ms);
  ck_txids : NoDup (cfm_fanout_txid <$> ms);
  ck_leaves : NoDup (cfm_commitment_witness_leaf_hex <$> ms);
}.

Lemma NoDup_fmap_snoc {A B} `{!EqDecision B} (f : A -> B) l x :
  NoDup (f <$> l) → (f x ∉ f <$> l) → NoDup (f <$> l ++ [x]).
Proof.
  intros Hl Hx. rewrite fmap_app. apply NoDup_app. split_and!; [done| |apply NoDup_singleton].
  intros y Hy ->%list_elem_of_singleton. done.
Qed.

Lemma list_to_set_snoc {A B} `{Countable B} (f : A -> B) l x :
  {[f x]} ∪ list_to_set (C := gset B) (f <$> l) = list_to_set (f <$> l ++ [x]).
Proof. apply set_eq. intros y. rewrite fmap_app. set_solver. Qed.

Lemma verify_chunk_Ok set ms m acc :
  verify_chunk set (acc_of ms) (length ms, m) = Ok acc → chunks_ok set ms →
  acc = acc_of (ms ++ [m]) ∧ chunks_ok set (ms ++ [m]).
Proof.
  intros Hv Hms. unfold verify_chunk, chunk_matches in Hv. cbn [acc_of sa_parent_vouts sa_ctv_hashes
    sa_fanout_txids sa_commitment_leaves sa_output_sum sa_fee_sum sa_covenant_sum] in Hv.
  ctv_inv.
  repeat match goal with H : _ ∉ list_to_set _ |- _ => rewrite elem_of_list_to_set in H end. split.
  - subst acc. unfold acc_of. rewrite !list_to_set_snoc.
    change (cpc_ctv_hash_hex (cfm_precommitment m)) with (ctv_hash_of m).
    rewrite !list_to_set_snoc, !sum_of_app, !sum_of_cons, !sum_of_nil, !Z.add_0_r. done.
  - destruct Hms as [He Hv1 Hv2 Hv3 Hv4]. constructor; [|by apply NoDup_fmap_snoc..].
    intros i x Hi. apply lookup_snoc_Some in Hi as [[_ Hi]|[-> <-]]; [by apply He|]. by constructor.
Qed.

Lemma verify_chunks_Ok set ms acc :
  try_fold (verify_chunk set) set_acc_new (imap pair ms) = Ok acc → acc = acc_of ms ∧ chunks_ok set ms.
Proof.
  revert acc. induction ms as [|m ms IH] using rev_ind; intros acc Hv.
  { cbn in Hv. injection Hv as <-. split; [done|]. constructor; [done|constructor..]. }
  rewrite try_fold_enumerate_snoc in Hv. apply bind_Ok in Hv as (acc' & Hl & Hv).
  apply IH in Hl as [-> Hms]. by apply verify_chunk_Ok in Hv.
Qed.

Lemma verify_set_Ok set u :
  verify_ctv_fanout_manifest_set set = Ok u →
  chunks_ok set (cfs_manifests set) ∧ cfs_manifests set ≠ [] ∧
  cfs_fanout_count set = Z.of_nat (length (cfs_manifests set)) ∧
  cfs_fanout_output_sum_sats set = sum_of output_sum_of (cfs_manifests set) ∧
  cfs_fanout_fee_sats set = sum_of fee_sum_of (cfs_manifests set) ∧
  cfs_covenant_output_value_sats set = sum_of cfm_covenant_output_value_sats (cfs_manifests set) ∧
  cfs_covenant_output_value_sats set = cfs_fanout_output_sum_sats set + cfs_fanout_fee_sats set.
Proof.
  unfold verify_ctv_fanout_manifest_set. intros Hv. do 7 (apply bind_Ok in Hv as (? & ? & Hv)).
  apply bind_Ok in Hv as (acc & Hl & Hv). apply verify_chunks_Ok in Hl as [-> Hms].
  unfold acc_of in Hv. cbn [sa_output_sum sa_fee_sum sa_covenant_sum] in Hv.
  repeat match goal with H : validate_canonical_sha256_hex _ _ = Ok _ |- _ => clear H end.
  ctv_inv. split_and!; try done; lia.
Qed.

(** A verified manifest set accounts for the whole settlement of its block:
    its chunks are numbered 0, 1, ... without gaps, every chunk passes the
    structural verifier and spends its own output of the one parent coinbase,
    no two chunks share a CTV hash, txid or commitment leaf, and the set's
    totals are the sums over every listed payout of every chunk, with the
    covenant value equal to payouts plus fees. *)
Theorem verified_set_accounts set u :
  fits U32 (cfs_fanout_count set) = true →
  verify_ctv_fanout_manifest_set set = Ok u →
  (fun m => cpc_chunk_index (cfm_precommitment m)) <$> cfs_manifests set =
    Z.of_nat <$> seq 0 (length (cfs_manifests set)) ∧
  Forall (fun m => verify_ctv_fanout_manifest_structure m = Ok () ∧
                   cfm_parent_coinbase_txid m = cfs_parent_coinbase_txid set) (cfs_manifests set) ∧
  NoDup (cfm_parent_coinbase_vout <$> cfs_manifests set) ∧
  NoDup (ctv_hash_of <$> cfs_manifests set) ∧ NoDup (cfm_fanout_txid <$> cfs_manifests set) ∧
  NoDup (cfm_commitment_witness_leaf_hex <$> cfs_manifests set) ∧
  cfs_fanout_output_sum_sats set =
    sum_of cfo_amount_sats (cfs_manifests set ≫= fun m => cpc_outputs (cfm_precommitment m)) ∧
  cfs_fanout_fee_sats set =
    sum_of cfo_fee_sats (cfs_manifests set ≫= fun m => cpc_outputs (cfm_precommitment m)) ∧
  cfs_covenant_output_value_sats set = cfs_fanout_output_sum_sats set + cfs_fanout_fee_sats set.
Proof.
  intros Hfit Hv. apply verify_set_Ok in Hv as (Hms & _ & Hn & Hout & Hfee & _ & Hval).
  assert (∀ m, m ∈ cfs_manifests set → committed (cfm_precommitment m)) as Hcom.
  { intros m (i & Hi)%list_elem_of_lookup_1.
    destruct (structure_settles m () (ch_verified _ _ _ (ck_each _ _ Hms _ _ Hi))) as (? & ? & ? & Hs).
    apply Hs. }
  split_and!; try apply Hms; try done.
  - apply list_eq. intros i. rewrite !list_lookup_fmap.
    destruct (cfs_manifests set !! i) as [m|] eqn:Hi.
    + pose proof (lookup_lt_Some _ _ _ Hi) as Hlt. rewrite lookup_seq_lt by done. cbn. f_equal.
      rewrite (ch_index _ _ _ (ck_each _ _ Hms _ _ Hi)). unfold as_u32. apply Z.mod_small. widths.
    + by rewrite (lookup_ge_None_2 (seq _ _)) by (rewrite length_seq; by apply lookup_ge_None).
  - apply Forall_lookup. intros i m Hi. split; apply (ck_each _ _ Hms _ _ Hi).
  - rewrite Hout, <- mjoin_fmap, sum_of_mjoin, sum_of_fmap. apply sum_of_ext. intros m Hm. apply (Hcom m Hm).
  - rewrite Hfee, <- mjoin_fmap, sum_of_mjoin, sum_of_fmap. apply sum_of_ext. intros m Hm. apply (Hcom m Hm).
Qed.

(** The builder only returns verified sets, and the order the chunks are handed
    in does not matter. *)
Lemma built_set_verified ms set :
  build_ctv_fanout_manifest_set ms = Ok set →
  verify_ctv_fanout_manifest_set set = Ok () ∧
  cfs_manifests set = sort_by (cmp_on (fun m => cpc_chunk_index (cfm_precommitment m)) Z.compare) ms ∧
  fits U32 (cfs_fanout_count set) = true.
Proof. unfold build_ctv_fanout_manifest_set. intros Hb. ctv_inv. by subst. Qed.

Lemma build_set_order_independent ms ms' set :
  build_ctv_fanout_manifest_set ms = Ok set → ms ≡ₚ ms' → build_ctv_fanout_manifest_set ms' = Ok set.
Proof.
  intros Hb Hp. destruct (built_set_verified _ _ Hb) as (Hv & Hms & Hfit).
  destruct (verify_set_Ok _ _ Hv) as (Hck & _ & Hn & _).
  set (key := cmp_on (fun m => cpc_chunk_index (cfm_precommitment m)) Z.compare) in *.
  assert (sort_by key ms = sort_by key ms') as Hsort.
  { apply (sort_by_perm_eq key); [|done]. intros x y Hx Hy Heq.
    rewrite <- (elem_of_sort_by key), <- Hms in Hx, Hy.
    apply list_elem_of_lookup_1 in Hx as (i & Hi), Hy as (j & Hj).
    apply Z.compare_eq in Heq. cbn in Heq.
    rewrite (ch_index _ _ _ (ck_each _ _ Hck _ _ Hi)), (ch_index _ _ _ (ck_each _ _ Hck _ _ Hj)) in Heq.
    pose proof (lookup_lt_Some _ _ _ Hi). pose proof (lookup_lt_Some _ _ _ Hj).
    unfold as_u32 in Heq. rewrite !Z.mod_small in Heq by widths. assert (i = j) as -> by lia. congruence. }
  unfold build_ctv_fanout_manifest_set in *. fold key in Hb |- *. rewrite <- Hsort.
  apply bind_Ok in Hb as (? & Hne & Hb).
  rewrite require_ctv_pass; [exact Hb|]. ctv_inv. rewrite bool_decide_eq_false_2; [done|].
  intros ->. by apply Permutation_nil_r in Hp.
Qed.
End facts.

(** * Example: a block settled by two chunks *)
Definition example_chunk_input (index : Z) (digits : string) : CtvFanoutPrecommitmentInput := {|
  cpi_block_height := 840000; cpi_chunk_index := index; cpi_chunk_count := 2;
  cpi_coinbase_value_sats := 10000; cpi_settlement_mode := CtvFanout;
  cpi_reward_manifest_sha256_hex := repeat_string 32 "aa";
  cpi_payout_policy_manifest_sha256_hex := repeat_string 32 "bb";
  cpi_payouts := [{| cfp_recipient_id := "miner"; cfp_order_key := "k";
    cfp_p2mr_program_hex := repeat_string 32 digits; cfp_gross_amount_sats := 5000;
    cfp_fee_sats := 100; cfp_amount_sats := 4900 |}] |}.
Definition example_chunk_0 : PreparedCtvFanout.
Proof. ok_of (prepare_ctv_fanout_precommitment (example_chunk_input 0 "c0")). Defined.
Definition example_chunk_1 : PreparedCtvFanout.
Proof. ok_of (prepare_ctv_fanout_precommitment (example_chunk_input 1 "d1")). Defined.
Definition example_covenant_out (prep : PreparedCtvFanout) : TxOutputSpec :=
  {| tos_amount_sats := pcf_covenant_output_value_sats prep;
     tos_script_pubkey := match hex_decode (cpc_covenant_script_pubkey_hex (pcf_precommitment prep)) with
                          | inr script => script | inl _ => [] end |}.
Definition example_set_parent_hex : string.
Proof.
  ok_of (serialize_tx_hex 2
    [{| tis_prev_txid_hex := repeat_string 32 "00"; tis_prev_vout := COINBASE_PREVOUT_VOUT;
        tis_script_sig := [Byte.x01]; tis_sequence := 0; tis_witness_stack := [] |}]
    [example_covenant_out example_chunk_0; example_covenant_out example_chunk_1] 839999 false).
Defined.
Definition example_manifest_0 : CtvFanoutManifest.
Proof.
  ok_of (build_ctv_fanout_manifest_from_precommitment (pcf_precommitment example_chunk_0)
    example_set_parent_hex 0).
Defined.
Definition example_manifest_1 : CtvFanoutManifest.
Proof.
  ok_of (build_ctv_fanout_manifest_from_precommitment (pcf_precommitment example_chunk_1)
    example_set_parent_hex 1).
Defined.
Definition example_set : CtvFanoutManifestSet.
Proof. ok_of (build_ctv_fanout_manifest_set [example_manifest_1; example_manifest_0]). Defined.

Lemma verified_set_accounts_witness :
  verify_ctv_fanout_manifest_set example_set = Ok () ∧
  cfs_covenant_output_value_sats example_set = 10000 ∧
  NoDup (cfm_parent_coinbase_vout <$> cfs_manifests example_set).
Proof.
  assert (verify_ctv_fanout_manifest_set example_set = Ok ()) as Hv by (vm_compute; reflexivity).
  split; [exact Hv|]. split; [reflexivity|].
  exact (proj1 (proj2 (proj2 (verified_set_accounts example_set () ltac:(reflexivity) Hv)))).
Defined.
