(* ===== verification/PagedWindow.v ===== *)
(** The paged payout window (crates/qbit-prism/src/window.rs): the fold of a
    full snapshot, the incremental advance with its byte-level delta, the
    canonical encoding and digest, and the width classifier of a request.  A
    window that was advanced step by step is the window of the full snapshot. *)
From Stdlib Require Import ZArith Lia Sorting.Sorted.
From Stdlib Require Ascii String.
From coqutil Require Import Byte.
From stdpp Require Import base list strings pretty gmap sorting.
From S2P Require Import Prelude Order Bytes Crates PrismError PoolBuilder WindowCut RewardWindow.
From Stdlib Require Import Sorting.Permutation.

Open Scope Z_scope.

Definition DEFAULT_WINDOW_PAGE_SIZE : nat := 512.

(** * Errors *)
Inductive WindowFoldError :=
| NonPositiveWindowWeight
| NonPositivePageSize
| FoldDuplicateShareSeq
| FoldDuplicateShareId
| FoldNonPositiveDifficulty
| FoldDifficultyOverflow.

Inductive WindowAdvanceError :=
| AnchorMovedBackwards
| DeltaNonPositiveDifficulty
| IneligibleAtNewAnchor
| RepeatsPreviouslyEligible
| NotAnAppend
| DeltaOrderNotIncreasing
| AdvanceDifficultyOverflow.

Definition fold_rejection_category (e : WindowFoldError) : option string :=
  match e with
  | NonPositiveWindowWeight => Some "non_positive_window_weight"
  | NonPositivePageSize => Some "non_positive_page_size"
  | FoldDuplicateShareSeq => Some "duplicate_share_seq"
  | FoldDuplicateShareId => Some "duplicate_share_id"
  | FoldNonPositiveDifficulty => Some "non_positive_difficulty"
  | FoldDifficultyOverflow => None
  end.
Definition advance_rejection_category (e : WindowAdvanceError) : option string :=
  match e with
  | AnchorMovedBackwards => Some "anchor_regression"
  | DeltaNonPositiveDifficulty => Some "delta_non_positive_difficulty"
  | IneligibleAtNewAnchor => Some "delta_ineligible_at_anchor"
  | RepeatsPreviouslyEligible => Some "delta_repeats_eligible_share"
  | NotAnAppend => Some "delta_not_append"
  | DeltaOrderNotIncreasing => Some "delta_order_not_increasing"
  | AdvanceDifficultyOverflow => None
  end.

(** * The canonical encoding of a record *)

(** [str::chars] of the UTF-8 text a Rust [String] holds: code points. *)
Definition cont (c : Ascii.ascii) : Z := Z.land (Z.of_N (Ascii.N_of_ascii c)) 0x3f.
Fixpoint chars (s : string) : list Z :=
  match s with
  | EmptyString => []
  | String a s1 =>
      let lead := Z.of_N (Ascii.N_of_ascii a) in
      if lead <? 0x80 then lead :: chars s1 else
      match s1 with
      | EmptyString => []
      | String b s2 =>
          if lead <? 0xe0 then Z.lor (Z.shiftl (Z.land lead 0x1f) 6) (cont b) :: chars s2 else
          match s2 with
          | EmptyString => []
          | String c s3 =>
              if lead <? 0xf0
              then Z.lor (Z.shiftl (Z.land lead 0x0f) 12) (Z.lor (Z.shiftl (cont b) 6) (cont c)) :: chars s3
              else match s3 with
                   | EmptyString => []
                   | String d s4 =>
                       Z.lor (Z.shiftl (Z.land lead 0x07) 18)
                         (Z.lor (Z.shiftl (cont b) 12) (Z.lor (Z.shiftl (cont c) 6) (cont d))) :: chars s4
                   end
          end
      end
  end.

Definition hex_char (n : Z) : byte :=
  byte.of_Z (Z.of_N (Ascii.N_of_ascii (hex_digit (Z.land n 0xf)))).
Definition push_u16_escape (unit_ : Z) : list byte :=
  str_bytes "\u" ++
  [hex_char (Z.shiftr unit_ 12); hex_char (Z.shiftr unit_ 8); hex_char (Z.shiftr unit_ 4); hex_char unit_].
(** [char::encode_utf16] of a code point outside the BMP. *)
Definition surrogates (code_point : Z) : list Z :=
  let v := code_point - 0x10000 in
  [Z.lor 0xd800 (Z.shiftr v 10); Z.lor 0xdc00 (Z.land v 0x3ff)].
Definition escape_char (code_point : Z) : list byte :=
  if code_point =? 0x22 then [byte.of_Z 0x5c; byte.of_Z 0x22]
  else if code_point =? 0x5c then [byte.of_Z 0x5c; byte.of_Z 0x5c]
  else if code_point =? 0x08 then str_bytes "\b"
  else if code_point =? 0x09 then str_bytes "\t"
  else if code_point =? 0x0a then str_bytes "\n"
  else if code_point =? 0x0c then str_bytes "\f"
  else if code_point =? 0x0d then str_bytes "\r"
  else if (0x20 <=? code_point) && (code_point <? 0x7f) then [byte.of_Z code_point]
  else if code_point <? 0x10000 then push_u16_escape code_point
  else surrogates code_point ≫= push_u16_escape.
Definition push_python_json_escaped_contents (value : string) : list byte := chars value ≫= escape_char.
Definition push_python_json_escaped (value : string) : list byte :=
  [byte.of_Z 0x22] ++ push_python_json_escaped_contents value ++ [byte.of_Z 0x22].

(** A JSON key with its quotes and colon. *)
Definition json_key (name : string) : list byte :=
  [byte.of_Z 0x22] ++ str_bytes name ++ [byte.of_Z 0x22; byte.of_Z 0x3a].
Definition int_bytes (z : Z) : list byte := str_bytes (pretty z).
Definition comma : byte := byte.of_Z 0x2c.

Definition canonical_share_fragment (share : AcceptedShare) : list byte :=
  [byte.of_Z 0x7b] ++ json_key "accepted_at_ms" ++ int_bytes (as_accepted_at_ms share) ++
  match as_credit_policy share with
  | Some credit_policy =>
      [comma] ++ json_key "credit_policy" ++ push_python_json_escaped credit_policy
  | None => []
  end ++
  [comma] ++ json_key "job_id" ++ push_python_json_escaped (as_job_id share) ++
  [comma] ++ json_key "job_issued_at_ms" ++ int_bytes (as_job_issued_at_ms share) ++
  [comma] ++ json_key "miner_id" ++ push_python_json_escaped (as_miner_id share) ++
  [comma] ++ json_key "network_difficulty" ++ int_bytes (as_network_difficulty share) ++
  [comma] ++ json_key "ntime" ++ int_bytes (as_ntime share) ++
  [comma] ++ json_key "order_key" ++ push_python_json_escaped (as_order_key share) ++
  [comma] ++ json_key "p2mr_program_hex" ++ push_python_json_escaped (as_p2mr_program_hex share) ++
  [comma] ++ json_key "share_difficulty" ++ int_bytes (as_share_difficulty share) ++
  [comma] ++ json_key "share_id" ++ push_python_json_escaped (as_share_id share) ++
  [comma] ++ json_key "share_seq" ++ int_bytes (as_share_seq share) ++
  [comma] ++ json_key "template_height" ++ int_bytes (as_template_height share) ++
  [byte.of_Z 0x7d].

(** * Pages and windows *)
Record WindowPage := {
  wp_records : list AcceptedShare;
  wp_fragments : list (list byte);
  wp_total_difficulty : Z;
}.
Record PayoutWindow := {
  pv_anchor_job_issued_at_ms : Z;
  pv_window_weight : Z;
  pv_page_size : nat;
  pv_pages : list WindowPage;
  pv_total_difficulty : Z;
}.
Record WindowAdvanceStats := {
  wa_added_rows : nat;
  wa_expired_rows : nat;
  wa_touched_pages : nat;
}.
Record WindowAdvanceByteDelta := {
  wb_retained_drop_bytes : nat;
  wb_appended_items : list byte;
}.

Definition saturating_total (records : list AcceptedShare) : Z :=
  foldl (fun total record => saturating_add U128 total (as_share_difficulty record)) 0 records.
Definition from_records (records : list AcceptedShare) : WindowPage :=
  {| wp_records := records; wp_fragments := canonical_share_fragment <$> records;
     wp_total_difficulty := saturating_total records |}.
Definition from_retained (records : list AcceptedShare) (fragments : list (list byte)) : WindowPage :=
  {| wp_records := records; wp_fragments := fragments;
     wp_total_difficulty := saturating_total records |}.

Definition eligible_at (anchor : Z) (record : AcceptedShare) : bool :=
  (as_job_issued_at_ms record <=? anchor) && (as_accepted_at_ms record <=? anchor).
Definition by_seq_asc : AcceptedShare -> AcceptedShare -> comparison := cmp_on as_share_seq Z.compare.

Definition check_record (acc : option Z * gset string) (record : AcceptedShare)
  : result WindowFoldError (option Z * gset string) :=
  let '(prior_seq, share_ids) := acc in
  if match prior_seq with Some prior => as_share_seq record <=? prior | None => false end
  then Err FoldDuplicateShareSeq else
  if decide (as_share_id record ∈ share_ids) then Err FoldDuplicateShareId else
  if as_share_difficulty record =? 0 then Err FoldNonPositiveDifficulty else
  Ok (Some (as_share_seq record), {[as_share_id record]} ∪ share_ids).

(** [for index in (0..eligible.len()).rev()]: the rows newest first with their
    indices; the loop breaks once the weight is reached. *)
Fixpoint retain_newest (window_weight : Z) (newest : list (nat * AcceptedShare)) (start : nat)
    (retained_weight : Z) : result WindowFoldError (nat * Z) :=
  match newest with
  | [] => Ok (start, retained_weight)
  | (index, record) :: older =>
      if window_weight <=? retained_weight then Ok (start, retained_weight) else
      retained_weight ← ok_or (checked_add U128 retained_weight (as_share_difficulty record))
                          FoldDifficultyOverflow;
      retain_newest window_weight older index retained_weight
  end.

(** The paging loop; every turn takes at least one record, so as many turns as
    records are enough. *)
Fixpoint paginate (fuel page_size : nat) (records : list AcceptedShare) : list WindowPage :=
  match fuel with
  | O => []
  | S fuel =>
      let page_len := Nat.min (length records) page_size in
      if (page_len =? 0)%nat then []
      else from_records (take page_len records) :: paginate fuel page_size (drop page_len records)
  end.

Definition from_full_snapshot (records : list AcceptedShare) (anchor window_weight : Z)
    (page_size : nat) : result WindowFoldError PayoutWindow :=
  if window_weight =? 0 then Err NonPositiveWindowWeight else
  if (page_size =? 0)%nat then Err NonPositivePageSize else
  let eligible := sort_by by_seq_asc (filter (eligible_at anchor) records) in
  _ ← try_fold check_record (None, ∅) eligible;
  '(start, retained_weight) ←
    retain_newest window_weight (reverse (imap pair eligible)) (length eligible) 0;
  let retained := drop start eligible in
  Ok {| pv_anchor_job_issued_at_ms := anchor; pv_window_weight := window_weight;
        pv_page_size := page_size;
        pv_pages := paginate (length retained) page_size retained;
        pv_total_difficulty := retained_weight |}.

Definition shares_for_build (w : PayoutWindow) : list AcceptedShare := pv_pages w ≫= wp_records.
Definition record_count (w : PayoutWindow) : nat :=
  sum_list_with (fun page => length (wp_records page)) (pv_pages w).
Definition fragment_lengths (w : PayoutWindow) : list nat := length <$> (pv_pages w ≫= wp_fragments).

(** Fragments joined with commas; [first] tells whether one was written. *)
Definition push_separated (acc : list byte * bool) (fragment : list byte) : list byte * bool :=
  let '(out, needs_separator) := acc in
  (out ++ (if needs_separator then [comma] else []) ++ fragment, true).
Definition canonical_items_bytes (w : PayoutWindow) : list byte :=
  (foldl (fun acc page => foldl push_separated acc (wp_fragments page)) ([], false) (pv_pages w)).1.

Definition digest_page (acc : list byte * bool) (page : WindowPage) : list byte * bool :=
  let '(out, needs_separator) := acc in
  match wp_fragments page with
  | [] => (out, needs_separator)
  | fragments =>
      (out ++ (if needs_separator then [comma] else []) ++
       (foldl push_separated ([], false) fragments).1, true)
  end.
(** [write!("{byte:02x}")] of every digest byte is lower-case hex. *)
Definition canonical_digest_hex `{Sha256Crate} (w : PayoutWindow) : string :=
  encode_hex (sha256 ([byte.of_Z 0x5b] ++ (foldl digest_page ([], false) (pv_pages w)).1 ++ [byte.of_Z 0x5d])).

(** * The incremental advance *)
Definition check_delta (old_anchor anchor : Z) (prior_seq prior_delta_seq : option Z)
    (record : AcceptedShare) : result WindowAdvanceError (option Z) :=
  if as_share_difficulty record =? 0 then Err DeltaNonPositiveDifficulty else
  if (anchor <? as_job_issued_at_ms record) || (anchor <? as_accepted_at_ms record)
  then Err IneligibleAtNewAnchor else
  if (as_job_issued_at_ms record <=? old_anchor) && (as_accepted_at_ms record <=? old_anchor)
  then Err RepeatsPreviouslyEligible else
  if match prior_seq with Some prior => as_share_seq record <=? prior | None => false end
  then Err NotAnAppend else
  if match prior_delta_seq with Some prior => as_share_seq record <=? prior | None => false end
  then Err DeltaOrderNotIncreasing else
  Ok (Some (as_share_seq record)).

(** The delta's records with their fragments, as the two iterators walk them. *)
Definition page_of_delta (rows : list (AcceptedShare * list byte)) : WindowPage :=
  from_retained rows.*1 rows.*2.
Definition merge_page (last : WindowPage) (rows : list (AcceptedShare * list byte)) : WindowPage :=
  from_retained (wp_records last ++ rows.*1) (wp_fragments last ++ rows.*2).

(** Fill the last page up to [page_size]: the pages, the rows left over and
    whether an existing page was touched. *)
Definition fill_last_page (page_size : nat) (pages : list WindowPage)
    (rows : list (AcceptedShare * list byte))
  : list WindowPage * list (AcceptedShare * list byte) * bool :=
  match last pages with
  | Some last_page =>
      if (length (wp_records last_page) <? page_size)%nat then
        let n := Nat.min (page_size - length (wp_records last_page)) (length rows) in
        if (0 <? n)%nat
        then (<[(length pages - 1)%nat := merge_page last_page (take n rows)]> pages, drop n rows, true)
        else (pages, rows, false)
      else (pages, rows, false)
  | None => (pages, rows, false)
  end.

Fixpoint append_pages (fuel page_size : nat) (rows : list (AcceptedShare * list byte)) : list WindowPage :=
  match fuel with
  | O => []
  | S fuel =>
      let n := Nat.min page_size (length rows) in
      if (n =? 0)%nat then []
      else page_of_delta (take n rows) :: append_pages fuel page_size (drop n rows)
  end.

(** The whole pages that can go: what is left, the difficulty left, the rows
    expired and the number of pages dropped. *)
Fixpoint expire_pages (window_weight total_difficulty : Z) (expired_rows dropped : nat)
    (pages : list WindowPage)
  : result WindowAdvanceError (list WindowPage * Z * nat * nat) :=
  match pages with
  | [] => Ok ([], total_difficulty, expired_rows, dropped)
  | page :: rest =>
      left ← arith U128 (total_difficulty - wp_total_difficulty page);
      if window_weight <=? left
      then expire_pages window_weight left (expired_rows + length (wp_records page)) (S dropped) rest
      else Ok (pages, total_difficulty, expired_rows, dropped)
  end.

Fixpoint expire_rows (window_weight total_difficulty : Z) (partial_expired : nat)
    (records : list AcceptedShare) : result WindowAdvanceError (Z * nat) :=
  match records with
  | [] => Ok (total_difficulty, partial_expired)
  | record :: rest =>
      left ← arith U128 (total_difficulty - as_share_difficulty record);
      if window_weight <=? left then expire_rows window_weight left (S partial_expired) rest
      else Ok (total_difficulty, partial_expired)
  end.

(** The partial expiry at the old edge: pages, difficulty, rows expired there. *)
Definition expire_edge (window_weight total_difficulty : Z) (pages : list WindowPage)
  : result WindowAdvanceError (list WindowPage * Z * nat) :=
  match pages with
  | [] => Ok ([], total_difficulty, 0%nat)
  | first_page :: rest =>
      '(total_difficulty, partial_expired) ←
        expire_rows window_weight total_difficulty 0 (wp_records first_page);
      if (0 <? partial_expired)%nat
      then Ok (from_retained (drop partial_expired (wp_records first_page))
                 (drop partial_expired (wp_fragments first_page)) :: rest, total_difficulty, partial_expired)
      else Ok (pages, total_difficulty, 0%nat)
  end.

(** Subtraction of lengths: below zero it would panic. *)
Definition nat_sub (a b : nat) : option nat := if (a <? b)%nat then None else Some (a - b)%nat.
(** Skip the retained rows, then write each survivor behind its comma. *)
Definition push_survivor (retained_old : nat) (acc : nat * bool * list byte) (fragment : list byte)
  : nat * bool * list byte :=
  let '(skip, first, out) := acc in
  match skip with
  | S skip => (skip, first, out)
  | O => (0%nat, false,
          out ++ (if negb first || (0 <? retained_old)%nat then [comma] else []) ++ fragment)
  end.
Definition advance_byte_delta (old_fragment_lengths : list nat) (advanced : PayoutWindow)
    (old_count expired_rows : nat) : result WindowAdvanceError WindowAdvanceByteDelta :=
  let dropped_old := Nat.min expired_rows old_count in
  let retained_old := (old_count - dropped_old)%nat in
  let retained_drop_bytes :=
    if (dropped_old =? 0)%nat then 0%nat else
    let dropped_bytes := sum_list (take dropped_old old_fragment_lengths) in
    if (0 <? retained_old)%nat then (dropped_bytes + dropped_old)%nat
    else (dropped_bytes + (old_count - 1))%nat in
  surviving_new ← expect (nat_sub (record_count advanced) retained_old) "attempt to subtract with overflow";
  Ok {| wb_retained_drop_bytes := retained_drop_bytes;
        wb_appended_items :=
          if (0 <? surviving_new)%nat
          then (foldl (push_survivor retained_old) (retained_old, true, [])
                  (pv_pages advanced ≫= wp_fragments)).2
          else [] |}.

Definition advance (w : PayoutWindow) (delta : list AcceptedShare) (anchor : Z)
  : result WindowAdvanceError (PayoutWindow * WindowAdvanceStats * WindowAdvanceByteDelta) :=
  if anchor <? pv_anchor_job_issued_at_ms w then Err AnchorMovedBackwards else
  let prior_seq := last_page ← last (pv_pages w); record ← last (wp_records last_page);
                   Some (as_share_seq record) in
  _ ← try_fold (check_delta (pv_anchor_job_issued_at_ms w) anchor prior_seq) None delta;
  delta_difficulty ← try_fold (fun sum record =>
      ok_or (checked_add U128 sum (as_share_difficulty record)) AdvanceDifficultyOverflow) 0 delta;
  total_difficulty ← ok_or (checked_add U128 (pv_total_difficulty w) delta_difficulty)
                       AdvanceDifficultyOverflow;
  let old_fragment_lengths := fragment_lengths w in
  let old_count := length old_fragment_lengths in
  let rows := (fun record => (record, canonical_share_fragment record)) <$> delta in
  let '(pages, rows, merged) := fill_last_page (pv_page_size w) (pv_pages w) rows in
  let touched : gset nat := if (merged : bool) then {[(length (pv_pages w) - 1)%nat]} else ∅ in
  let pages := pages ++ append_pages (length rows) (pv_page_size w) rows in
  '(pages, total_difficulty, expired_rows, original_page_offset) ←
    expire_pages (pv_window_weight w) total_difficulty 0 0 pages;
  '(pages, total_difficulty, partial_expired) ← expire_edge (pv_window_weight w) total_difficulty pages;
  let expired_rows := (expired_rows + partial_expired)%nat in
  let touched := if (0 <? partial_expired)%nat && (original_page_offset <? length (pv_pages w))%nat
                 then {[original_page_offset]} ∪ touched else touched in
  let advanced := {|
    pv_anchor_job_issued_at_ms := anchor; pv_window_weight := pv_window_weight w;
    pv_page_size := pv_page_size w; pv_pages := pages; pv_total_difficulty := total_difficulty |} in
  byte_delta ← advance_byte_delta old_fragment_lengths advanced old_count expired_rows;
  Ok (advanced,
      {| wa_added_rows := length delta; wa_expired_rows := expired_rows;
         wa_touched_pages := size touched |}, byte_delta).

(** * The width classifier *)
Inductive DeclaredWidth := WU32 | WU64 | WU128 | WI64.
Definition width_name (w : DeclaredWidth) : string :=
  match w with WU32 => "u32" | WU64 => "u64" | WU128 => "u128" | WI64 => "i64" end.
Definition width_ty (w : DeclaredWidth) : int_ty :=
  match w with WU32 => U32 | WU64 => U64 | WU128 => U128 | WI64 => I64 end.

Definition digit (c : Ascii.ascii) : option Z :=
  let n := Z.of_N (Ascii.N_of_ascii c) in
  if (48 <=? n) && (n <=? 57) then Some (n - 48) else None.
Definition plus_sign : Ascii.ascii := Ascii.ascii_of_N 43.
Definition minus_sign : Ascii.ascii := Ascii.ascii_of_N 45.
Fixpoint digits_value (acc : Z) (s : string) : option Z :=
  match s with
  | EmptyString => Some acc
  | String c s => d ← digit c; digits_value (10 * acc + d) s
  end.
Definition nonempty_digits (s : string) : option Z :=
  match s with EmptyString => None | _ => digits_value 0 s end.
(** [str::parse] for an integer type: an optional [+], for signed types an
    optional [-], then digits, within the type's range. *)
Definition parse_int (t : int_ty) (literal : string) : option Z :=
  match literal with
  | EmptyString => None
  | String c digits =>
      if Ascii.eqb c plus_sign then v ← nonempty_digits digits; checked t v
      else if Ascii.eqb c minus_sign
      then if int_min t <? 0 then v ← nonempty_digits digits; checked t (- v) else None
      else v ← nonempty_digits literal; checked t v
  end.
Definition width_admits (w : DeclaredWidth) (literal : string) : bool :=
  match parse_int (width_ty w) literal with Some _ => true | None => false end.

Definition strip_minus (literal : string) : string :=
  match literal with
  | String c digits => if Ascii.eqb c minus_sign then digits else literal
  | EmptyString => literal
  end.
Definition is_integer_literal (literal : string) : bool :=
  match nonempty_digits (strip_minus literal) with Some _ => true | None => false end.

(** [serde_json::Value] with numbers kept as their literals. *)
#[warnings="-register-all"]
Inductive Json :=
| JNull
| JBool (b : bool)
| JNumber (literal : string)
| JString (s : string)
| JArray (items : list Json)
| JObject (fields : list (string * Json)).
Definition json_get (value : Json) (field : string) : option Json :=
  match value with
  | JObject fields => snd <$> List.find (fun kv => String.eqb kv.1 field) fields
  | _ => None
  end.

Record OutOfRangeField := {
  oor_field : string;
  oor_literal : string;
  oor_width : DeclaredWidth;
}.
Definition ACCEPTED_SHARE_WIDTHS : list (string * DeclaredWidth) :=
  [("share_seq", WU64); ("share_difficulty", WU128); ("network_difficulty", WU128);
   ("template_height", WU64); ("job_issued_at_ms", WI64); ("accepted_at_ms", WI64); ("ntime", WU32)].
Definition PREPARE_WINDOW_REQUEST_WIDTHS : list (string * DeclaredWidth) :=
  [("window_weight", WU128); ("page_size", WU64); ("anchor_job_issued_at_ms", WI64);
   ("append_invalidation_epoch", WU64)].

Definition out_of_range_field (value : option Json) (field : string) (width : DeclaredWidth)
  : option OutOfRangeField :=
  match value with
  | Some (JNumber literal) =>
      if is_integer_literal literal && negb (width_admits width literal)
      then Some {| oor_field := field; oor_literal := literal; oor_width := width |}
      else None
  | _ => None
  end.
(** The first hit of a [for] loop that returns from the function. *)
Fixpoint find_map {A B} (f : A -> option B) (l : list A) : option B :=
  match l with
  | [] => None
  | x :: l => match f x with Some b => Some b | None => find_map f l end
  end.
Definition prepare_window_out_of_range (request : Json) : option OutOfRangeField :=
  match find_map (fun '(field, width) => out_of_range_field (json_get request field) field width)
          PREPARE_WINDOW_REQUEST_WIDTHS with
  | Some found => Some found
  | None =>
      match json_get request "records" with
      | Some (JArray records) =>
          find_map (fun '(index, record) =>
            find_map (fun '(field, width) =>
              out_of_range_field (json_get record field)
                ("records[" +:+ pretty (index : nat) +:+ "]." +:+ field) width) ACCEPTED_SHARE_WIDTHS)
            (imap pair records)
      | _ => None
      end
  end.

(** * Specification: the shortest newest suffix that reaches the weight *)
Definition weight_of (l : list AcceptedShare) : Z := sum_of as_share_difficulty l.
Definition positive (s : AcceptedShare) : Prop := 0 < as_share_difficulty s.
Definition seq_lt (a b : AcceptedShare) : Prop := as_share_seq a < as_share_seq b.

Record retained (weight : Z) (all kept : list AcceptedShare) : Prop := {
  rt_suffix : ∃ dropped, all = dropped ++ kept ∧ (dropped = [] ∨ weight ≤ weight_of kept);
  rt_tight : ∀ x rest, kept = x :: rest → weight_of rest < weight;
}.

Lemma weight_of_nonneg l : Forall positive l → 0 ≤ weight_of l.
Proof. intros Hl. apply sum_of_nonneg. rewrite Forall_forall in Hl. intros x Hx. specialize (Hl x Hx). unfold positive in Hl. lia. Qed.
Lemma weight_of_app l1 l2 : weight_of (l1 ++ l2) = weight_of l1 + weight_of l2.
Proof. apply sum_of_app. Qed.
Lemma weight_of_cons x l : weight_of (x :: l) = as_share_difficulty x + weight_of l.
Proof. apply sum_of_cons. Qed.

(** A suffix that leaves something out and is shorter than another one cannot
    be the shorter of two retained suffixes. *)
Lemma retained_longer weight all k1 k2 :
  Forall positive all → retained weight all k1 → retained weight all k2 → (length k1 ≤ length k2)%nat → k1 = k2.
Proof.
  intros Hpos [(d1 & H1 & Hw1) _] [(d2 & H2 & _) Ht2] Hlen.
  assert (∃ d, k2 = d ++ k1) as [d ->].
  { rewrite H1 in H2. apply app_eq_inv in H2 as [(k & -> & Hk)|(k & -> & ->)]; [by exists k|].
    rewrite length_app in Hlen. exists []. destruct k; [done|cbn in Hlen; lia]. }
  destruct d as [|x d]; [done|]. specialize (Ht2 x (d ++ k1) eq_refl). rewrite weight_of_app in Ht2.
  assert (0 ≤ weight_of d).
  { apply weight_of_nonneg. rewrite H2 in Hpos. apply Forall_app in Hpos as [_ Hpos].
    inversion Hpos; subst. by apply Forall_app in H4 as [? _]. }
  destruct Hw1 as [->|Hw1]; [|lia]. apply (f_equal length) in H1, H2.
  rewrite length_app in H1, H2. cbn in H1, H2. rewrite length_app in H2. lia.
Qed.
Lemma retained_unique weight all k1 k2 :
  Forall positive all → retained weight all k1 → retained weight all k2 → k1 = k2.
Proof.
  intros Hpos H1 H2. destruct (Nat.le_ge_cases (length k1) (length k2)); [|symmetry]; by eapply retained_longer.
Qed.

(** Old history that was already dropped never comes back. *)
Lemma retained_extend weight all kept delta kept' :
  Forall positive (all ++ delta) → retained weight all kept →
  retained weight (kept ++ delta) kept' → retained weight (all ++ delta) kept'.
Proof.
  intros Hpos [(d0 & -> & Hw0) _] [(d1 & H1 & Hw1) Ht]. constructor; [|done].
  exists (d0 ++ d1). rewrite <- !app_assoc, <- H1. split; [done|].
  destruct Hw1 as [->|?]; [|by right]. cbn in H1. subst kept'.
  destruct Hw0 as [->|?]; [by left|right]. rewrite weight_of_app.
  apply Forall_app in Hpos as [_ Hd]. pose proof (weight_of_nonneg _ Hd). lia.
Qed.

Lemma retained_Forall P weight all kept : Forall P all → retained weight all kept → Forall P kept.
Proof. intros Ha [(d & -> & _) _]. by apply Forall_app in Ha as [_ ?]. Qed.

(** * The full fold *)
Lemma retain_newest_spec weight l1 l2 start total :
  (∀ x rest, l2 = x :: rest → weight_of rest < weight) →
  retain_newest weight (reverse (imap pair l1)) (length l1) (weight_of l2) = Ok (start, total) →
  retained weight (l1 ++ l2) (drop start (l1 ++ l2)) ∧ total = weight_of (drop start (l1 ++ l2)).
Proof.
  revert l2. induction l1 as [|x l1 IH] using rev_ind; intros l2 Ht Hr.
  { cbn in Hr. injection Hr as <- <-. rewrite drop_0. split; [|done]. constructor; [|done].
    exists []. split; [done|by left]. }
  rewrite imap_app, reverse_app in Hr. cbn in Hr. rewrite Nat.add_0_r in Hr.
  destruct (weight <=? weight_of l2) eqn:Hw.
  - injection Hr as <- <-. rewrite drop_app_length. split; [|done]. constructor; [|done].
    exists (l1 ++ [x]). split; [done|right; lia].
  - apply bind_Ok in Hr as (total' & Htotal & Hr). res_inv. rewrite Z.add_comm, <- weight_of_cons in Hr.
    apply IH in Hr.
    + by rewrite <- app_assoc.
    + intros y rest [= <- <-]. lia.
Qed.

Lemma retain_newest_fits weight newest start total start' total' :
  fits U128 total = true → retain_newest weight newest start total = Ok (start', total') → fits U128 total' = true.
Proof.
  revert start total. induction newest as [|[i x] newest IH]; intros start total Ht H; cbn in H.
  { by injection H as <- <-. }
  destruct (weight <=? total); [by injection H as <- <-|].
  apply bind_Ok in H as (t & Ht' & H). res_inv. by eapply IH.
Qed.

Lemma retain_newest_total weight d k l2 :
  Forall positive k → (d = [] ∨ weight ≤ weight_of (k ++ l2)) → fits U128 (weight_of (k ++ l2)) = true →
  0 ≤ weight_of l2 →
  is_ok (retain_newest weight (reverse (imap pair (d ++ k))) (length (d ++ k)) (weight_of l2)) = true.
Proof.
  revert l2. induction k as [|x k IH] using rev_ind; intros l2 Hpos Hd Hfit Hl2.
  - rewrite app_nil_r. destruct d as [|x d _] using rev_ind; [done|].
    rewrite imap_app, reverse_app. cbn. destruct Hd as [Hd|Hd]; [by destruct d|].
    cbn in Hd. by rewrite (proj2 (Z.leb_le _ _) Hd).
  - rewrite app_assoc, imap_app, reverse_app. cbn. rewrite Nat.add_0_r.
    destruct (weight <=? weight_of l2); [done|].
    rewrite Forall_app, Forall_singleton in Hpos. destruct Hpos as [Hk Hx]. unfold positive in Hx.
    rewrite <- app_assoc in Hd, Hfit. cbn in Hd, Hfit. rewrite weight_of_app, weight_of_cons in Hfit.
    pose proof (weight_of_nonneg _ Hk). unfold checked_add. rewrite checked_fits by widths. cbn.
    rewrite Z.add_comm, <- weight_of_cons.
    apply (IH (x :: l2)); [done|done| |]; rewrite ?weight_of_app, weight_of_cons; [done|lia].
Qed.

(** ** The checks of the full fold *)
Lemma sorted_snoc (l : list AcceptedShare) x :
  StronglySorted seq_lt (l ++ [x]) ↔
  StronglySorted seq_lt l ∧ ∀ y, last l = Some y → seq_lt y x.
Proof.
  induction l as [|a l IH]; cbn [app].
  { split; [|repeat constructor]. intros _. split; [constructor|done]. }
  split.
  - intros [Hl Ha]%StronglySorted_inv. apply IH in Hl as [Hl Hy]. rewrite Forall_app, Forall_singleton in Ha. destruct Ha as [Ha Hx]. split; [by constructor|]. intros y.
    destruct l as [|b l]; [by intros [= <-]|]. apply Hy.
  - intros [[Hl Ha]%StronglySorted_inv Hy]. constructor.
    + apply IH. split; [done|]. intros y Hl'. apply Hy. destruct l; [done|]. by rewrite last_cons_cons.
    + apply Forall_app. split; [done|]. apply Forall_singleton. destruct l as [|b l _] using rev_ind.
      * by apply Hy.
      * specialize (Hy b). rewrite app_comm_cons, last_snoc in Hy. rewrite Forall_app, Forall_singleton in Ha. destruct Ha as [_ Ha]. specialize (Hy eq_refl). unfold seq_lt in *. lia.
Qed.

Lemma check_records_Ok l acc : try_fold check_record (None, ∅) l = Ok acc ↔
  acc = (as_share_seq <$> last l, list_to_set (as_share_id <$> l)) ∧
  StronglySorted seq_lt l ∧ NoDup (as_share_id <$> l) ∧ Forall (fun s => as_share_difficulty s ≠ 0) l.
Proof.
  revert acc. induction l as [|x l IH] using rev_ind; intros acc.
  { cbn. split; [intros [= <-]; split_and!; [done|constructor..]|by intros (-> & _)]. }
  rewrite try_fold_app, bind_Ok. setoid_rewrite IH. rewrite sorted_snoc, fmap_app, last_snoc.
  rewrite NoDup_app, Forall_app, Forall_singleton, list_to_set_app_L. cbn. split.
  - intros (a & (-> & Hs & Hn & Hd) & Hx). cbn in Hx.
    destruct (match as_share_seq <$> last l with Some prior => as_share_seq x <=? prior | None => false end) eqn:Hseq; [done|].
    case_decide as Hid; [done|]. destruct (as_share_difficulty x =? 0) eqn:Hz; [done|]. injection Hx as <-.
    split_and!; [f_equal; set_solver|done| |done|set_solver|apply NoDup_singleton|done|lia].
    intros y Hy. rewrite Hy in Hseq. cbn in Hseq. unfold seq_lt. lia.
  - intros (-> & [Hs Hy] & (Hn & Hid & _) & Hd & Hz). eexists. split; [by split_and!|]. cbn.
    replace (match as_share_seq <$> last l with Some prior => as_share_seq x <=? prior | None => false end) with false.
    2: { destruct (last l) as [y|]; [|done]. specialize (Hy y eq_refl). unfold seq_lt in Hy. cbn. lia. }
    rewrite decide_False by set_solver. rewrite (proj2 (Z.eqb_neq _ _) Hz). cbn. do 2 f_equal. set_solver.
Qed.

(** ** Pages *)
Record page_ok (page_size : nat) (page : WindowPage) : Prop := {
  pk_fragments : wp_fragments page = canonical_share_fragment <$> wp_records page;
  pk_total : wp_total_difficulty page = weight_of (wp_records page);
  pk_length : (1 ≤ length (wp_records page) ≤ page_size)%nat;
}.
Definition flat (pages : list WindowPage) : list AcceptedShare := pages ≫= wp_records.

Lemma flat_app p1 p2 : flat (p1 ++ p2) = flat p1 ++ flat p2.
Proof. apply bind_app. Qed.
Lemma flat_cons p ps : flat (p :: ps) = wp_records p ++ flat ps.
Proof. done. Qed.

(** The saturating fold never saturates below the checked window total. *)
Lemma saturating_total_exact l :
  Forall positive l → weight_of l ≤ int_max U128 → saturating_total l = weight_of l.
Proof.
  intros Hl Hfit. unfold saturating_total. induction l as [|x l IH] using rev_ind; [done|].
  rewrite Forall_app, Forall_singleton in Hl. destruct Hl as [Hl Hx]. rewrite weight_of_app, weight_of_cons in *.
  unfold positive in Hx. change (weight_of []) with 0 in *. pose proof (weight_of_nonneg _ Hl).
  rewrite foldl_app. cbn [foldl]. rewrite IH by (try done; lia). unfold saturating_add, saturating. cbn [int_min int_max] in *. lia.
Qed.
Lemma weight_of_take_le n l : Forall positive l → weight_of (take n l) ≤ weight_of l.
Proof.
  intros Hl. rewrite <- (take_drop n l) at 2. rewrite weight_of_app.
  pose proof (weight_of_nonneg (drop n l) ltac:(by apply Forall_drop)). lia.
Qed.
Lemma weight_of_drop_le n l : Forall positive l → weight_of (drop n l) ≤ weight_of l.
Proof.
  intros Hl. rewrite <- (take_drop n l) at 2. rewrite weight_of_app.
  pose proof (weight_of_nonneg (take n l) ltac:(by apply Forall_take)). lia.
Qed.

Lemma from_retained_ok page_size l :
  Forall positive l → weight_of l ≤ int_max U128 → (1 ≤ length l ≤ page_size)%nat →
  page_ok page_size (from_retained l (canonical_share_fragment <$> l)).
Proof. intros Hl Hfit Hlen. constructor; [done| |done]. by apply saturating_total_exact. Qed.

Definition encoded (l : list AcceptedShare) : list (AcceptedShare * list byte) :=
  (fun record => (record, canonical_share_fragment record)) <$> l.
Lemma encoded_fst l : (encoded l).*1 = l.
Proof. unfold encoded. rewrite <- list_fmap_compose. apply list_fmap_id. Qed.
Lemma encoded_snd l : (encoded l).*2 = canonical_share_fragment <$> l.
Proof. unfold encoded. by rewrite <- list_fmap_compose. Qed.
Lemma encoded_take n l : take n (encoded l) = encoded (take n l).
Proof. unfold encoded. by rewrite fmap_take. Qed.
Lemma encoded_drop n l : drop n (encoded l) = encoded (drop n l).
Proof. unfold encoded. by rewrite fmap_drop. Qed.
Lemma encoded_length l : length (encoded l) = length l.
Proof. apply length_fmap. Qed.
Lemma page_of_encoded l : page_of_delta (encoded l) = from_records l.
Proof. unfold page_of_delta. by rewrite encoded_fst, encoded_snd. Qed.

(** The delta is paged exactly as the full fold pages its records. *)
Lemma append_pages_paginate fuel page_size l :
  append_pages fuel page_size (encoded l) = paginate fuel page_size l.
Proof.
  revert l. induction fuel as [|fuel IH]; intros l; [done|]. cbn. rewrite encoded_length, Nat.min_comm.
  destruct (_ =? 0)%nat; [done|]. by rewrite encoded_take, page_of_encoded, encoded_drop, IH.
Qed.

Lemma paginate_spec fuel page_size l :
  Forall positive l → weight_of l ≤ int_max U128 → (0 < page_size)%nat → (length l ≤ fuel)%nat →
  flat (paginate fuel page_size l) = l ∧ Forall (page_ok page_size) (paginate fuel page_size l).
Proof.
  revert l. induction fuel as [|fuel IH]; intros l Hl Hfit Hsize Hfuel.
  { by destruct l; [|cbn in Hfuel; lia]. }
  cbn. destruct (Nat.eqb_spec (Nat.min (length l) page_size) 0) as [H0|H0].
  { destruct l; [done|rewrite length_cons in H0; lia]. }
  set (n := Nat.min (length l) page_size) in *.
  pose proof (weight_of_take_le n l Hl). pose proof (weight_of_drop_le n l Hl).
  destruct (IH (drop n l)) as [IH1 IH2]; [by apply Forall_drop|lia|done|rewrite length_drop; lia|].
  split.
  - rewrite flat_cons, IH1. cbn. apply take_drop.
  - constructor; [|done]. apply from_retained_ok; [by apply Forall_take|lia|rewrite length_take; lia].
Qed.

(** ** The invariant of a prepared window *)
Record window_ok (w : PayoutWindow) : Prop := {
  wk_size : (0 < pv_page_size w)%nat;
  wk_weight : 0 < pv_window_weight w;
  wk_pages : Forall (page_ok (pv_page_size w)) (pv_pages w);
  wk_total : pv_total_difficulty w = weight_of (shares_for_build w);
  wk_fits : pv_total_difficulty w ≤ int_max U128;
  wk_positive : Forall positive (shares_for_build w);
  wk_sorted : StronglySorted seq_lt (shares_for_build w);
  wk_eligible : Forall (fun s => eligible_at (pv_anchor_job_issued_at_ms w) s = true) (shares_for_build w);
  wk_tight : ∀ x rest, shares_for_build w = x :: rest → weight_of rest < pv_window_weight w;
}.

(** Difficulties are unsigned. *)
Definition typed_share (s : AcceptedShare) : Prop := 0 ≤ as_share_difficulty s.

Lemma sorted_app_iff (l1 l2 : list AcceptedShare) :
  StronglySorted seq_lt (l1 ++ l2) ↔
  StronglySorted seq_lt l1 ∧ StronglySorted seq_lt l2 ∧ ∀ x y, x ∈ l1 → y ∈ l2 → seq_lt x y.
Proof.
  induction l1 as [|a l1 IH]; cbn [app].
  { split; [|tauto]. intros H. split_and!; [constructor|done|set_solver]. }
  split.
  - intros [(H1 & H2 & H3)%IH Ha]%StronglySorted_inv. rewrite Forall_app, !Forall_forall in Ha.
    destruct Ha as [Ha1 Ha2]. split_and!; [|done|set_solver]. constructor; [done|by apply Forall_forall].
  - intros ([H1 Ha]%StronglySorted_inv & H2 & H3). constructor; [apply IH; set_solver|].
    rewrite Forall_app. split; [done|]. apply Forall_forall. set_solver.
Qed.
Lemma sorted_retained weight all kept :
  StronglySorted seq_lt all → retained weight all kept → StronglySorted seq_lt kept.
Proof. intros Hs [(d & -> & _) _]. by apply sorted_app_iff in Hs as (_ & ? & _). Qed.

Lemma sorted_seq_cmp l : StronglySorted seq_lt l → StronglySorted (cmp_le by_seq_asc) l.
Proof.
  apply StronglySorted_weaken. intros x y _ _ H. unfold cmp_le, by_seq_asc, cmp_on, seq_lt in *.
  by rewrite (proj2 (Z.compare_lt_iff _ _) H).
Qed.

(** What a full snapshot computes. *)
Lemma from_full_snapshot_spec records anchor weight page_size w :
  Forall typed_share records → 0 ≤ weight → from_full_snapshot records anchor weight page_size = Ok w →
  let all := sort_by by_seq_asc (filter (eligible_at anchor) records) in
  window_ok w ∧ retained weight all (shares_for_build w) ∧ StronglySorted seq_lt all ∧
  NoDup (as_share_id <$> all) ∧ Forall positive all ∧
  pv_anchor_job_issued_at_ms w = anchor ∧ pv_window_weight w = weight ∧ pv_page_size w = page_size.
Proof.
  intros Htyped Hweight H all. unfold from_full_snapshot in H. fold all in H.
  destruct (Z.eqb_spec weight 0); [done|]. destruct (Nat.eqb_spec page_size 0); [done|].
  apply bind_Ok in H as (acc & (_ & Hs & Hn & Hnz)%check_records_Ok & H).
  apply bind_Ok in H as ([start total] & Hr & [= <-]).
  assert (Forall positive all) as Hpos.
  { rewrite Forall_forall in Hnz, Htyped |- *. intros s Hs'. specialize (Hnz s Hs').
    unfold all in Hs'. rewrite elem_of_sort_by, list_elem_of_filter in Hs'.
    specialize (Htyped s (proj2 Hs')). unfold typed_share, positive in *. lia. }
  assert (fits U128 total = true) as Hfit by by eapply (retain_newest_fits _ _ _ 0).
  change 0 with (weight_of []) in Hr. apply retain_newest_spec in Hr as [Hk ->]; [|done].
  rewrite app_nil_r in *. set (kept := drop start all) in *.
  pose proof (retained_Forall _ _ _ _ Hpos Hk) as Hkpos.
  destruct (paginate_spec (length kept) page_size kept) as [Hflat Hpages]; [done|widths|lia|done|].
  assert (shares_for_build {| pv_anchor_job_issued_at_ms := anchor; pv_window_weight := weight;
        pv_page_size := page_size; pv_pages := paginate (length kept) page_size kept;
        pv_total_difficulty := weight_of kept |} = kept) as Heq by done.
  split_and!; try done; [|by rewrite Heq]. constructor; rewrite ?Heq; cbn; try done; try lia; try widths.
  - by eapply sorted_retained.
  - eapply retained_Forall; [|done]. apply Forall_forall. intros s Hs'. unfold all in Hs'.
    rewrite elem_of_sort_by, list_elem_of_filter in Hs'. by apply Is_true_true, Hs'.
  - apply Hk.
Qed.

(** ** Expiry at the old edge *)
Definition tight (weight : Z) (l : list AcceptedShare) : Prop :=
  ∀ x rest, l = x :: rest → weight_of rest < weight.

Lemma page_ok_positive page_size page : page_ok page_size page → wp_records page ≠ [].
Proof. intros [_ _ Hl] H. rewrite H in Hl. cbn in Hl. lia. Qed.

Lemma expire_pages_spec weight page_size pages expired dropped :
  Forall (page_ok page_size) pages → Forall positive (flat pages) → weight_of (flat pages) ≤ int_max U128 →
  ∃ gone kept, pages = gone ++ kept ∧
    expire_pages weight (weight_of (flat pages)) expired dropped pages =
      Ok (kept, weight_of (flat kept), (expired + length (flat gone))%nat, (dropped + length gone)%nat) ∧
    (gone = [] ∨ weight ≤ weight_of (flat kept)) ∧
    (∀ page rest, kept = page :: rest → weight_of (flat rest) < weight).
Proof.
  revert expired dropped. induction pages as [|page pages IH]; intros expired dropped Hok Hpos Hfit.
  { exists [], []. cbn. rewrite !Nat.add_0_r. split_and!; [done..|by left|done]. }
  inversion Hok as [|?? Hp Hok']; subst. rewrite flat_cons in *. rewrite Forall_app in Hpos. destruct Hpos as [Hp1 Hp2].
  rewrite weight_of_app in *. pose proof (weight_of_nonneg _ Hp1). pose proof (weight_of_nonneg _ Hp2).
  cbn. rewrite (pk_total _ _ Hp). unfold arith. rewrite checked_fits by widths. cbn.
  replace (weight_of (wp_records page) + weight_of (flat pages) - weight_of (wp_records page))
    with (weight_of (flat pages)) by lia.
  destruct (Z.leb_spec weight (weight_of (flat pages))).
  - destruct (IH (expired + length (wp_records page))%nat (S dropped)) as (gone & kept & -> & -> & Hw & Ht); [done..|lia|].
    exists (page :: gone), kept. split_and!; [done| | |done].
    + rewrite flat_cons, length_app. cbn. by rewrite !Nat.add_assoc, <- Nat.add_succ_comm.
    + right. destruct Hw as [->|?]; [done|lia].
  - exists [], (page :: pages). rewrite flat_cons, weight_of_app. cbn. rewrite !Nat.add_0_r.
    split_and!; [done..|by left|]. by intros ? ? [= <- <-].
Qed.

Lemma expire_rows_spec weight l tail m :
  Forall positive (l ++ tail) → weight_of (l ++ tail) ≤ int_max U128 →
  ∃ n, (n ≤ length l)%nat ∧ expire_rows weight (weight_of (l ++ tail)) m l = Ok (weight_of (drop n l ++ tail), (m + n)%nat) ∧
    (n = 0%nat ∨ weight ≤ weight_of (drop n l ++ tail)) ∧
    (∀ x rest, drop n l = x :: rest → weight_of (rest ++ tail) < weight).
Proof.
  revert m. induction l as [|x l IH]; intros m Hpos Hfit.
  { exists 0%nat. cbn. rewrite Nat.add_0_r. split_and!; [lia|done|by left|done]. }
  cbn [app] in *. inversion Hpos as [|?? Hx Hpos']; subst. rewrite weight_of_cons in *.
  pose proof (weight_of_nonneg _ Hpos'). unfold positive in Hx. cbn. unfold arith.
  rewrite checked_fits by widths. cbn.
  replace (as_share_difficulty x + weight_of (l ++ tail) - as_share_difficulty x) with (weight_of (l ++ tail)) by lia.
  destruct (Z.leb_spec weight (weight_of (l ++ tail))).
  - destruct (IH (S m)) as (n & Hn & -> & Hw & Ht); [done|lia|]. exists (S n).
    split_and!; [cbn; lia|by rewrite <- Nat.add_succ_comm| |done]. right. destruct Hw as [->|?]; [done|done].
  - exists 0%nat. cbn. rewrite weight_of_cons, Nat.add_0_r. split_and!; [lia|done|by left|]. by intros ? ? [= <- <-].
Qed.

Lemma expire_edge_spec weight page_size pages :
  0 < weight → Forall (page_ok page_size) pages → Forall positive (flat pages) → weight_of (flat pages) ≤ int_max U128 →
  (∀ page rest, pages = page :: rest → weight_of (flat rest) < weight) →
  ∃ n pages', (n ≤ length (flat pages))%nat ∧
    expire_edge weight (weight_of (flat pages)) pages = Ok (pages', weight_of (flat pages'), n) ∧
    flat pages' = drop n (flat pages) ∧ Forall (page_ok page_size) pages' ∧
    (n = 0%nat ∨ weight ≤ weight_of (flat pages')) ∧ tight weight (flat pages').
Proof.
  intros Hw0 Hok Hpos Hfit Htail. destruct pages as [|page pages].
  { exists 0%nat, []. cbn. split_and!; [lia|done..|by left|done]. }
  specialize (Htail _ _ eq_refl). rewrite flat_cons in *. inversion Hok as [|?? Hp Hok']; subst.
  destruct (expire_rows_spec weight (wp_records page) (flat pages) 0 Hpos Hfit) as (n & Hn & Hr & Hw & Ht).
  assert (n < length (wp_records page))%nat as Hlt.
  { destruct (decide (n < length (wp_records page))%nat) as [?|Hge]; [done|]. exfalso.
    rewrite drop_ge in Hw by lia. pose proof (pk_length _ _ Hp). cbn in Hw. destruct Hw; lia. }
  assert (tight weight (drop n (wp_records page) ++ flat pages)) as Htight.
  { intros x rest. destruct (drop n (wp_records page)) as [|y l] eqn:Hd.
    - apply (f_equal length) in Hd. rewrite length_drop in Hd. cbn in Hd. lia.
    - cbn. intros [= <- <-]. by eapply Ht. }
  unfold expire_edge. rewrite Hr. cbn [mbind result_bind Nat.add].
  destruct (Nat.ltb_spec 0 n).
  - exists n, (from_retained (drop n (wp_records page)) (drop n (wp_fragments page)) :: pages).
    rewrite length_app, flat_cons. cbn [wp_records from_retained].
    split_and!; [lia|done|symmetry; apply drop_app_le; lia| |done|done].
    constructor; [|done]. rewrite (pk_fragments _ _ Hp), <- fmap_drop. rewrite Forall_app in Hpos.
    rewrite weight_of_app in Hfit. pose proof (weight_of_nonneg _ (proj2 Hpos)).
    pose proof (weight_of_drop_le n _ (proj1 Hpos)). pose proof (pk_length _ _ Hp).
    apply from_retained_ok; [apply Forall_drop, Hpos|lia|rewrite length_drop; lia].
  - assert (n = 0%nat) as -> by lia. rewrite drop_0 in *. exists 0%nat, (page :: pages).
    rewrite flat_cons, drop_0. split_and!; [lia|done..|by left|done].
Qed.

(** ** Fragments joined with commas *)
Definition separator (b : bool) : list byte := if b then [comma] else [].
Definition nonempty {A} (l : list A) : bool := match l with [] => false | _ => true end.
Fixpoint joined (fragments : list (list byte)) : list byte :=
  match fragments with
  | [] => []
  | f :: rest => f ++ separator (nonempty rest) ++ joined rest
  end.

Lemma nonempty_app {A} (l1 l2 : list A) : nonempty (l1 ++ l2) = nonempty l1 || nonempty l2.
Proof. by destruct l1. Qed.
Lemma nonempty_length {A} (l : list A) : nonempty l = (0 <? length l)%nat.
Proof. by destruct l. Qed.

Lemma joined_app l1 l2 : joined (l1 ++ l2) = joined l1 ++ separator (nonempty l1 && nonempty l2) ++ joined l2.
Proof.
  induction l1 as [|f l1 IH]; [done|]. cbn. rewrite IH, nonempty_app, <- !app_assoc. f_equal.
  destruct l1; cbn; [|done]. by destruct l2.
Qed.
Lemma joined_length l : length (joined l) = (sum_list (length <$> l) + (length l - 1))%nat.
Proof.
  induction l as [|f l IH]; [done|]. cbn. rewrite !length_app, IH. destruct l; cbn; lia.
Qed.

Lemma foldl_push_separated out sep l :
  foldl push_separated (out, sep) l = (out ++ separator (sep && nonempty l) ++ joined l, sep || nonempty l).
Proof.
  revert out sep. induction l as [|f l IH]; intros out sep; cbn.
  { by rewrite andb_false_r, orb_false_r, !app_nil_r. }
  rewrite IH. cbn. by rewrite andb_true_r, orb_true_r, <- !app_assoc.
Qed.

(** Page layout is invisible in the items stream and in the digest. *)
Lemma canonical_items_joined w : canonical_items_bytes w = joined (pv_pages w ≫= wp_fragments).
Proof.
  unfold canonical_items_bytes. transitivity (foldl push_separated ([], false) (pv_pages w ≫= wp_fragments)).1.
  - generalize (@nil byte, false). induction (pv_pages w) as [|page pages IH]; intros acc; [done|].
    cbn [foldl]. rewrite IH, bind_cons, foldl_app. done.
  - by rewrite foldl_push_separated.
Qed.
Lemma foldl_digest_page pages out sep :
  foldl digest_page (out, sep) pages =
  (out ++ separator (sep && nonempty (pages ≫= wp_fragments)) ++ joined (pages ≫= wp_fragments),
   sep || nonempty (pages ≫= wp_fragments)).
Proof.
  revert out sep. induction pages as [|page pages IH]; intros out sep.
  { cbn. by rewrite andb_false_r, orb_false_r, !app_nil_r. }
  cbn [foldl]. rewrite bind_cons, joined_app, nonempty_app. unfold digest_page at 2.
  destruct (wp_fragments page) as [|f fs] eqn:Hf; [apply IH|]. rewrite IH, foldl_push_separated.
  cbn [nonempty andb orb app]. rewrite andb_true_r, orb_true_r. unfold separator at 2. by rewrite <- !app_assoc.
Qed.
Lemma canonical_digest_joined `{Sha256Crate} w :
  canonical_digest_hex w =
  encode_hex (sha256 ([byte.of_Z 0x5b] ++ canonical_items_bytes w ++ [byte.of_Z 0x5d])).
Proof. unfold canonical_digest_hex. rewrite foldl_digest_page, canonical_items_joined. done. Qed.

(** ** The byte delta *)
Lemma push_survivor_skip r first out l1 l2 :
  foldl (push_survivor r) (length l1, first, out) (l1 ++ l2) = foldl (push_survivor r) (0%nat, first, out) l2.
Proof. induction l1 as [|f l1 IH]; [done|]. cbn. apply IH. Qed.
Lemma push_survivor_joined r first out l :
  (foldl (push_survivor r) (0%nat, first, out) l).2 =
  out ++ separator ((negb first || (0 <? r)%nat) && nonempty l) ++ joined l.
Proof.
  revert first out. induction l as [|f l IH]; intros first out; cbn [foldl push_survivor].
  { by rewrite andb_false_r, !app_nil_r. }
  rewrite IH. cbn. by rewrite andb_true_r, <- !app_assoc.
Qed.

(** Dropping the first [d] fragments and their separators. *)
Definition dropped_length (d : nat) (l : list (list byte)) : nat :=
  if (d =? 0)%nat then 0%nat else
  if (0 <? length l - d)%nat then (sum_list (take d (length <$> l)) + d)%nat
  else (sum_list (take d (length <$> l)) + (length l - 1))%nat.
Lemma drop_joined d l :
  (d ≤ length l)%nat → drop (dropped_length d l) (joined l) = joined (drop d l).
Proof.
  intros Hd. unfold dropped_length. destruct (Nat.eqb_spec d 0) as [->|Hd0]; [by rewrite !drop_0|].
  assert (length (take d l) = d) as Hlen by (rewrite length_take; lia).
  destruct (Nat.ltb_spec 0 (length l - d)) as [Hr|Hr].
  - replace (joined l) with (joined (take d l ++ drop d l)) by by rewrite take_drop. rewrite joined_app, !nonempty_length, Hlen, length_drop.
    rewrite (proj2 (Nat.ltb_lt 0 d)), (proj2 (Nat.ltb_lt 0 (length l - d))) by lia. cbn [andb separator].
    rewrite app_assoc. apply drop_app_length'. rewrite length_app, joined_length, Hlen, <- fmap_take. cbn. lia.
  - assert (d = length l) as -> by lia. rewrite drop_all. apply drop_ge. rewrite joined_length.
    rewrite firstn_all2; [lia|by rewrite length_fmap].
Qed.

Lemma advance_byte_delta_spec old advanced gone new :
  let kept := drop gone (old ++ new) in
  pv_pages advanced ≫= wp_fragments = kept → record_count advanced = length kept → (gone ≤ length old + length new)%nat →
  ∃ byte_delta, advance_byte_delta (length <$> old) advanced (length old) gone = Ok byte_delta ∧
    joined kept = drop (wb_retained_drop_bytes byte_delta) (joined old) ++ wb_appended_items byte_delta.
Proof.
  intros kept Hfrag Hcount Hgone. unfold advance_byte_delta. rewrite Hfrag, Hcount.
  set (d := Nat.min gone (length old)). set (r := (length old - d)%nat).
  assert (kept = drop d old ++ drop (gone - length old) new) as Hkept.
  { unfold kept. rewrite drop_app. f_equal. unfold d. destruct (Nat.le_ge_cases gone (length old)).
    - by rewrite Nat.min_l.
    - by rewrite Nat.min_r, !drop_ge by lia. }
  set (g := drop (gone - length old) new) in *.
  assert (length (drop d old) = r) as Hr by (rewrite length_drop; done).
  assert (nat_sub (length kept) r = Some (length g)) as ->.
  { unfold nat_sub. rewrite Hkept, length_app, Hr. rewrite (proj2 (Nat.ltb_ge (r + length g) r)) by lia. f_equal. lia. }
  cbn [expect mbind result_bind]. eexists. split; [done|]. cbn [wb_retained_drop_bytes wb_appended_items].
  match goal with |- _ = drop ?n _ ++ _ => change n with (dropped_length d old) end.
  rewrite drop_joined by lia. rewrite Hkept, joined_app. f_equal.
  rewrite <- nonempty_length, (nonempty_length (drop d old)), Hr.
  replace (foldl (push_survivor r) (r, true, []) (drop d old ++ g))
    with (foldl (push_survivor r) (length (drop d old), true, []) (drop d old ++ g)) by by rewrite Hr.
  rewrite push_survivor_skip, push_survivor_joined. cbn. by destruct g; rewrite ?andb_false_r.
Qed.

(** ** Advancing *)
Lemma fragments_of_pages page_size pages :
  Forall (page_ok page_size) pages → pages ≫= wp_fragments = canonical_share_fragment <$> flat pages.
Proof.
  induction 1 as [|page pages Hp _ IH]; [done|]. by rewrite bind_cons, flat_cons, fmap_app, IH, (pk_fragments _ _ Hp).
Qed.
Lemma record_count_flat w : record_count w = length (shares_for_build w).
Proof.
  unfold record_count, shares_for_build. induction (pv_pages w) as [|p ps IH]; [done|].
  rewrite bind_cons, length_app, <- IH. done.
Qed.
Lemma last_flat page_size pages :
  Forall (page_ok page_size) pages →
  (page ← last pages; record ← last (wp_records page); Some (as_share_seq record)) = as_share_seq <$> last (flat pages).
Proof.
  intros Hok. destruct pages as [|page pages _] using rev_ind; [done|].
  rewrite last_snoc, flat_app. cbn. rewrite app_nil_r. rewrite Forall_app, Forall_singleton in Hok.
  pose proof (page_ok_positive _ _ (proj2 Hok)) as Hne.
  destruct (wp_records page) as [|r rs _] using rev_ind; [done|]. by rewrite app_assoc, !last_snoc.
Qed.

Lemma fill_last_page_spec page_size pages l :
  Forall (page_ok page_size) pages → Forall positive (flat pages ++ l) → weight_of (flat pages ++ l) ≤ int_max U128 →
  ∃ pages' n merged, fill_last_page page_size pages (encoded l) = (pages', encoded (drop n l), merged) ∧
    Forall (page_ok page_size) pages' ∧ flat pages' = flat pages ++ take n l.
Proof.
  intros Hok Hpos Hfit. unfold fill_last_page. rewrite encoded_length.
  assert (∃ pages' n merged, (pages, encoded l, false) = (pages', encoded (drop n l), merged) ∧
    Forall (page_ok page_size) pages' ∧ flat pages' = flat pages ++ take n l) as Hsame.
  { exists pages, 0%nat, false. by rewrite take_0, drop_0, app_nil_r. }
  destruct pages as [|page pages _] using rev_ind; [done|]. rewrite last_snoc.
  destruct (Nat.ltb_spec (length (wp_records page)) page_size) as [Hlt|]; [|done].
  set (n := Nat.min _ _). destruct (Nat.ltb_spec 0 n) as [Hn|]; [|done]. clear Hsame.
  rewrite Forall_app, Forall_singleton in Hok. destruct Hok as [Hok Hp].
  eexists _, n, true. rewrite encoded_drop. split; [done|].
  rewrite length_app, Nat.add_sub. rewrite insert_app_r_alt, Nat.sub_diag by lia. cbn [list_insert].
  unfold merge_page. rewrite encoded_take, encoded_fst, encoded_snd, (pk_fragments _ _ Hp), <- fmap_app.
  rewrite !flat_app, !flat_cons, <- !app_assoc in *. change (flat []) with (@nil AcceptedShare) in *. cbn [app] in *.
  split; [|cbn; by rewrite app_nil_r].
  rewrite Forall_app in Hpos. destruct Hpos as [Hpos0 Hpos]. rewrite weight_of_app in Hfit.
  pose proof (weight_of_nonneg _ Hpos0). rewrite Forall_app in Hpos. destruct Hpos as [Hpos1 Hpos2].
  pose proof (weight_of_take_le n _ Hpos2). rewrite weight_of_app in Hfit.
  apply Forall_app. split; [done|]. constructor; [|constructor].
  apply from_retained_ok; rewrite ?Forall_app, ?weight_of_app, ?length_app, ?length_take.
  - split; [done|by apply Forall_take].
  - lia.
  - lia.
Qed.

(** What a delta must satisfy to be appended. *)
Definition delta_ok (old_anchor anchor : Z) (held delta : list AcceptedShare) : Prop :=
  Forall (fun s => as_share_difficulty s ≠ 0 ∧ eligible_at anchor s = true ∧ eligible_at old_anchor s = false) delta ∧
  StronglySorted seq_lt delta ∧ (∀ y s, last held = Some y → s ∈ delta → seq_lt y s).

Lemma check_delta_Ok old_anchor anchor held delta last_seq :
  try_fold (check_delta old_anchor anchor (as_share_seq <$> last held)) None delta = Ok last_seq ↔
  last_seq = as_share_seq <$> last delta ∧ delta_ok old_anchor anchor held delta.
Proof.
  unfold delta_ok. revert last_seq. induction delta as [|x l IH] using rev_ind; intros last_seq.
  { cbn. split; [intros [= <-]; split_and!; [done|constructor|constructor|set_solver]|by intros (-> & _)]. }
  rewrite try_fold_app, bind_Ok. setoid_rewrite IH. rewrite Forall_app, Forall_singleton, sorted_snoc, last_snoc.
  unfold eligible_at. cbn. unfold check_delta. split.
  - intros (a & (-> & Hall & Hs & Ha) & Hx). apply bind_Ok in Hx as (b & Hx & [= <-]). res_inv.
    rewrite orb_false_iff, !Z.ltb_ge in Hb0. rewrite Z.eqb_neq in Hb.
    split_and!; [done|done|done|apply andb_true_iff; lia|done|done| |].
    + intros y Hy. rewrite Hy in Hb3. cbn in Hb3. unfold seq_lt. lia.
    + intros y s Hy Hs'. rewrite elem_of_app, list_elem_of_singleton in Hs'. destruct Hs' as [Hs'| ->]; [by eapply Ha|].
      rewrite Hy in Hb2. cbn in Hb2. unfold seq_lt. lia.
  - intros (-> & (Hall & Hd & He & Ho) & (Hs & Hl) & Ha).
    eexists. split; [split_and!; [done..|]; intros; eapply Ha; set_solver|].
    rewrite (proj2 (Z.eqb_neq _ _) Hd), Ho. apply andb_true_iff in He.
    rewrite (proj2 (Z.ltb_ge anchor _)), (proj2 (Z.ltb_ge anchor _)) by lia. cbn.
    assert (∀ o : option AcceptedShare, (∀ y, o = Some y → seq_lt y x) →
      match as_share_seq <$> o with Some prior => as_share_seq x <=? prior | None => false end = false) as Hcase.
    { intros [y|] Hy; [|done]. specialize (Hy y eq_refl). unfold seq_lt in Hy. cbn. lia. }
    rewrite !Hcase; [done|done|]. intros y Hy. eapply Ha; set_solver.
Qed.

(** What an advance promises about the new window, the statistics and the bytes. *)
Record advanced_from (w : PayoutWindow) (delta : list AcceptedShare) (anchor : Z) (w' : PayoutWindow)
    (stats : WindowAdvanceStats) (byte_delta : WindowAdvanceByteDelta) : Prop := {
  af_ok : window_ok w';
  af_anchor : pv_anchor_job_issued_at_ms w' = anchor;
  af_weight : pv_window_weight w' = pv_window_weight w;
  af_page_size : pv_page_size w' = pv_page_size w;
  af_retained : retained (pv_window_weight w) (shares_for_build w ++ delta) (shares_for_build w');
  af_added : wa_added_rows stats = length delta;
  af_expired : (wa_expired_rows stats + length (shares_for_build w') = length (shares_for_build w) + length delta)%nat;
  af_touched : (wa_touched_pages stats ≤ 2)%nat;
  af_bytes : canonical_items_bytes w' =
    drop (wb_retained_drop_bytes byte_delta) (canonical_items_bytes w) ++ wb_appended_items byte_delta;
}.

(** The pages after appending and expiring: a suffix of what was there. *)
Lemma expire_spec weight page_size pages :
  0 < weight → Forall (page_ok page_size) pages → Forall positive (flat pages) → weight_of (flat pages) ≤ int_max U128 →
  ∃ mid pages' gone_rows gone_pages n,
    expire_pages weight (weight_of (flat pages)) 0 0 pages = Ok (mid, weight_of (flat mid), gone_rows, gone_pages) ∧
    expire_edge weight (weight_of (flat mid)) mid = Ok (pages', weight_of (flat pages'), n) ∧
    Forall (page_ok page_size) pages' ∧ retained weight (flat pages) (flat pages') ∧
    flat pages' = drop (gone_rows + n) (flat pages) ∧ (gone_rows + n ≤ length (flat pages))%nat.
Proof.
  intros Hw Hok Hpos Hfit.
  destruct (expire_pages_spec weight page_size pages 0 0) as (gone & mid & -> & He & Hgone & Hmid); [done..|].
  rewrite flat_app in *. rewrite !Forall_app in *. rewrite weight_of_app in Hfit. destruct Hok as [_ Hok]. destruct Hpos as [Hpg Hpm].
  pose proof (weight_of_nonneg _ Hpg).
  destruct (expire_edge_spec weight page_size mid) as (n & pages' & Hn & Hedge & Hflat & Hok' & Hreach & Htight);
    [done|done|done|lia|done|].
  exists mid, pages', (length (flat gone)), (length gone), n. split_and!; [done|done|done| | |rewrite length_app; lia].
  - constructor; [|done]. exists (flat gone ++ take n (flat mid)).
    split; [by rewrite <- app_assoc, Hflat, take_drop|].
    destruct Hreach as [->|?]; [|by right]. rewrite drop_0 in Hflat. rewrite Hflat, take_0, app_nil_r.
    destruct Hgone as [->|?]; [by left|by right].
  - by rewrite Hflat, drop_app_add.
Qed.

Lemma append_delta_spec page_size pages l :
  (0 < page_size)%nat → Forall (page_ok page_size) pages → Forall positive (flat pages ++ l) →
  weight_of (flat pages ++ l) ≤ int_max U128 →
  ∃ pages' rest merged, fill_last_page page_size pages (encoded l) = (pages', rest, merged) ∧
    let all := pages' ++ append_pages (length rest) page_size rest in
    Forall (page_ok page_size) all ∧ flat all = flat pages ++ l.
Proof.
  intros Hsize Hok Hpos Hfit.
  destruct (fill_last_page_spec page_size pages l) as (pages' & n & merged & Hfill & Hok' & Hflat); [done..|].
  exists pages', (encoded (drop n l)), merged. split; [done|]. cbn zeta. rewrite Forall_app in Hpos. destruct Hpos as [Hp Hl].
  rewrite weight_of_app in Hfit. pose proof (weight_of_nonneg _ Hp). pose proof (weight_of_drop_le n _ Hl).
  rewrite encoded_length, append_pages_paginate.
  destruct (paginate_spec (length (drop n l)) page_size (drop n l)) as [Hf Hk]; [by apply Forall_drop|lia|done|done|].
  rewrite Forall_app, flat_app, Hf, Hflat, <- app_assoc, take_drop. done.
Qed.

Lemma touched_le (a b : bool) (i j : nat) :
  (size (if a then {[i]} ∪ (if b then {[j]} else ∅) else if b then {[j]} else ∅ : gset nat) ≤ 2)%nat.
Proof.
  transitivity (size ({[i]} ∪ {[j]} : gset nat)); [apply subseteq_size; destruct a, b; set_solver|].
  rewrite size_union_alt, size_singleton. pose proof (subseteq_size ({[j]} ∖ {[i]} : gset nat) {[j]} ltac:(set_solver)).
  rewrite size_singleton in *. lia.
Qed.

Lemma sorted_follow all delta :
  StronglySorted seq_lt all → StronglySorted seq_lt delta →
  (∀ y s, last all = Some y → s ∈ delta → seq_lt y s) → StronglySorted seq_lt (all ++ delta).
Proof.
  intros Ha Hd Hl. apply sorted_app_iff. split_and!; [done..|]. intros x y Hx Hy.
  destruct all as [|z l _] using rev_ind; [set_solver|].
  rewrite last_snoc in Hl. specialize (Hl z y eq_refl Hy). apply sorted_app_iff in Ha as (_ & _ & Hlt).
  rewrite elem_of_app, list_elem_of_singleton in Hx. destruct Hx as [Hx| ->]; [|done].
  specialize (Hlt x z Hx ltac:(set_solver)). unfold seq_lt in *. lia.
Qed.

Lemma delta_positive old_anchor anchor held delta :
  Forall typed_share delta → delta_ok old_anchor anchor held delta → Forall positive delta.
Proof.
  intros Htyped (Hd & _). rewrite Forall_forall in Hd, Htyped |- *. intros s Hs.
  specialize (Hd s Hs). specialize (Htyped s Hs). unfold typed_share, positive in *. lia.
Qed.

Lemma held_last_lt w delta old_anchor anchor :
  window_ok w → delta_ok old_anchor anchor (shares_for_build w) delta →
  StronglySorted seq_lt (shares_for_build w ++ delta).
Proof. intros Hw (_ & Hs & Ha). apply sorted_follow; [apply Hw|done..]. Qed.

Lemma rebuilt_ok w delta anchor pages :
  window_ok w → pv_anchor_job_issued_at_ms w ≤ anchor → Forall positive delta →
  delta_ok (pv_anchor_job_issued_at_ms w) anchor (shares_for_build w) delta →
  weight_of (shares_for_build w) + weight_of delta ≤ int_max U128 →
  Forall (page_ok (pv_page_size w)) pages →
  retained (pv_window_weight w) (shares_for_build w ++ delta) (flat pages) →
  window_ok {| pv_anchor_job_issued_at_ms := anchor; pv_window_weight := pv_window_weight w;
               pv_page_size := pv_page_size w; pv_pages := pages; pv_total_difficulty := weight_of (flat pages) |}.
Proof.
  intros Hw Ha Hdpos Hdelta Hfit Hok Hret.
  assert (Forall positive (shares_for_build w ++ delta)) as Hpos by (apply Forall_app; split; [apply Hw|done]).
  constructor; cbn; unfold shares_for_build; cbn; try fold (flat pages); try done; try apply Hw.
  - destruct Hret as [(d & Heq & _) _]. rewrite <- weight_of_app, Heq, weight_of_app in Hfit.
    rewrite Heq, Forall_app in Hpos. pose proof (weight_of_nonneg _ (proj1 Hpos)). cbn in Hfit. lia.
  - by eapply retained_Forall.
  - eapply sorted_retained; [|done]. by eapply held_last_lt.
  - eapply retained_Forall; [|done]. apply Forall_app. split.
    + eapply Forall_impl; [apply (wk_eligible _ Hw)|]. intros s. cbn. unfold eligible_at. rewrite !andb_true_iff. lia.
    + eapply Forall_impl; [apply Hdelta|]. cbn. tauto.
  - apply Hret.
Qed.

Lemma advance_succeeds w delta anchor :
  window_ok w → pv_anchor_job_issued_at_ms w ≤ anchor → Forall typed_share delta →
  delta_ok (pv_anchor_job_issued_at_ms w) anchor (shares_for_build w) delta →
  weight_of (shares_for_build w ++ delta) ≤ int_max U128 →
  ∃ w' stats byte_delta, advance w delta anchor = Ok (w', stats, byte_delta) ∧
    advanced_from w delta anchor w' stats byte_delta.
Proof.
  intros Hw Ha Htyped Hdelta Hfit. unfold advance. rewrite (proj2 (Z.ltb_ge _ _) Ha).
  rewrite (last_flat _ _ (wk_pages _ Hw)). change (flat (pv_pages w)) with (shares_for_build w).
  change ((fun record => (record, canonical_share_fragment record)) <$> delta) with (encoded delta).
  rewrite (proj2 (check_delta_Ok _ _ _ _ _) (conj eq_refl Hdelta)). cbn [mbind result_bind].
  pose proof (delta_positive _ _ _ _ Htyped Hdelta) as Hdpos.
  pose proof (wk_positive _ Hw) as Hwpos. pose proof (weight_of_nonneg _ Hdpos). pose proof (weight_of_nonneg _ Hwpos).
  assert (Forall positive (flat (pv_pages w) ++ delta)) as Hpos by by apply Forall_app.
  rewrite weight_of_app in Hfit.
  rewrite try_sum_total; [|done|done|intros s Hs; rewrite Forall_forall in Htyped; by apply Htyped|].
  2: { change (sum_of as_share_difficulty delta) with (weight_of delta). widths. }
  cbn [mbind result_bind]. change (sum_of as_share_difficulty delta) with (weight_of delta).
  rewrite (wk_total _ Hw). unfold checked_add. rewrite checked_fits by widths. cbn [mbind result_bind ok_or].
  destruct (append_delta_spec (pv_page_size w) (pv_pages w) delta) as (pages & rest & merged & -> & Hok & Hflat);
    [apply Hw|apply Hw|done|rewrite weight_of_app; exact Hfit|].
  set (all := pages ++ append_pages (length rest) (pv_page_size w) rest) in *.
  destruct (expire_spec (pv_window_weight w) (pv_page_size w) all) as (mid & pages' & rows & npages & n & He & Hedge & Hok' & Hret & Hdrop & Hlen);
    [apply Hw|done|by rewrite Hflat|rewrite Hflat, weight_of_app; exact Hfit|].
  replace (weight_of (shares_for_build w) + (0 + weight_of delta)) with (weight_of (flat all))
    by (rewrite Hflat, weight_of_app; unfold shares_for_build; fold (flat (pv_pages w)); lia).
  rewrite He. cbn [mbind result_bind]. rewrite Hedge. cbn [mbind result_bind].
  set (w' := {| pv_anchor_job_issued_at_ms := anchor; pv_window_weight := pv_window_weight w;
                pv_page_size := pv_page_size w; pv_pages := pages'; pv_total_difficulty := weight_of (flat pages') |}).
  assert (window_ok w') as Hw'.
  { apply (rebuilt_ok w delta anchor pages'); try done. by rewrite Hflat in Hret. }
  destruct (advance_byte_delta_spec (canonical_share_fragment <$> shares_for_build w) w' (rows + n)
    (canonical_share_fragment <$> delta)) as (byte_delta & Hbd & Hjoin).
  { change (pv_pages w') with pages'. rewrite (fragments_of_pages _ _ Hok'), Hdrop, Hflat, <- fmap_app. apply fmap_drop. }
  { rewrite record_count_flat, <- fmap_app, <- fmap_drop, length_fmap.
    change (shares_for_build w') with (flat pages'). by rewrite Hdrop, Hflat. }
  { rewrite !length_fmap, <- length_app. by rewrite Hflat in Hlen. }
  unfold fragment_lengths. rewrite (fragments_of_pages _ _ (wk_pages _ Hw)). rewrite length_fmap.
  change (flat (pv_pages w)) with (shares_for_build w). rewrite Hbd. cbn [mbind result_bind].
  eexists _, _, _. split; [done|]. constructor; try done.
  - cbn. by rewrite Hflat in Hret.
  - cbn [wa_expired_rows]. change (shares_for_build w') with (flat pages'). rewrite Hdrop, length_drop, Hflat, length_app. rewrite Hflat, length_app in Hlen.
    unfold shares_for_build. fold (flat (pv_pages w)). lia.
  - apply touched_le.
  - rewrite !canonical_items_joined. change (pv_pages w') with pages'.
    rewrite (fragments_of_pages _ _ Hok'), (fragments_of_pages _ _ (wk_pages _ Hw)), Hdrop, Hflat.
    change (flat (pv_pages w)) with (shares_for_build w). by rewrite <- Hjoin, fmap_drop, fmap_app.
Qed.

Lemma advance_conditions w delta anchor x :
  window_ok w → advance w delta anchor = Ok x →
  pv_anchor_job_issued_at_ms w ≤ anchor ∧
  delta_ok (pv_anchor_job_issued_at_ms w) anchor (shares_for_build w) delta ∧
  weight_of (shares_for_build w ++ delta) ≤ int_max U128.
Proof.
  intros Hw H. unfold advance in H. destruct (Z.ltb_spec anchor (pv_anchor_job_issued_at_ms w)) as [|Ha]; [done|].
  rewrite (last_flat _ _ (wk_pages _ Hw)) in H. change (flat (pv_pages w)) with (shares_for_build w) in H.
  apply bind_Ok in H as (s & (_ & Hd)%check_delta_Ok & H). apply bind_Ok in H as (dd & Hdd%try_sum_Ok & H).
  apply bind_Ok in H as (t & Ht & _). res_inv. split_and!; [done|done|].
  rewrite weight_of_app, <- (wk_total _ Hw). unfold weight_of. widths.
Qed.

Lemma advance_calm w delta anchor :
  window_ok w → Forall typed_share delta → not_panic (advance w delta anchor).
Proof.
  intros Hw Htyped.
  destruct (decide (pv_anchor_job_issued_at_ms w ≤ anchor)) as [Ha|Ha].
  2: { unfold advance. rewrite (proj2 (Z.ltb_lt _ _)) by lia. done. }
  destruct (try_fold (check_delta (pv_anchor_job_issued_at_ms w) anchor (as_share_seq <$> last (shares_for_build w)))
    None delta) as [s|e|m] eqn:Hd.
  - apply check_delta_Ok in Hd as [_ Hd].
    destruct (decide (weight_of (shares_for_build w ++ delta) ≤ int_max U128)) as [Hfit|Hfit].
    { by destruct (advance_succeeds w delta anchor) as (? & ? & ? & -> & _). }
    unfold advance. rewrite (proj2 (Z.ltb_ge _ _)) by lia. rewrite (last_flat _ _ (wk_pages _ Hw)).
    change (flat (pv_pages w)) with (shares_for_build w).
    rewrite (proj2 (check_delta_Ok _ _ _ _ _) (conj eq_refl Hd)). cbn [mbind result_bind].
    destruct (try_fold _ 0 delta) as [dd|e|m] eqn:Hdd; [|done|].
    + apply try_sum_Ok in Hdd as ->. cbn [mbind result_bind]. unfold checked_add, checked.
      destruct (fits U128 _) eqn:Hf; [|done]. exfalso. apply Hfit. rewrite weight_of_app, <- (wk_total _ Hw).
      unfold weight_of. widths.
    + exfalso. revert m Hdd. apply not_panic_try_fold. intros. apply not_panic_ok_or.
  - unfold advance. rewrite (proj2 (Z.ltb_ge _ _)) by lia. rewrite (last_flat _ _ (wk_pages _ Hw)).
    change (flat (pv_pages w)) with (shares_for_build w). by rewrite Hd.
  - exfalso. revert m Hd. apply not_panic_try_fold. intros b x _. unfold check_delta. calm.
Qed.

Lemma advance_spec w delta anchor w' stats byte_delta :
  window_ok w → Forall typed_share delta → advance w delta anchor = Ok (w', stats, byte_delta) →
  advanced_from w delta anchor w' stats byte_delta.
Proof.
  intros Hw Htyped H. destruct (advance_conditions _ _ _ _ Hw H) as (Ha & Hd & Hfit).
  destruct (advance_succeeds w delta anchor) as (? & ? & ? & Heq & Haf); [done..|].
  rewrite Heq in H. by injection H as <- <- <-.
Qed.

(** Advancing a well-formed window never panics and is accepted exactly when
    the anchor does not move back, every delta share has positive difficulty,
    becomes eligible between the two anchors and follows in sequence order, and
    the combined difficulty fits in u128.  The new window is well formed, holds
    the shortest newest suffix of the old rows and the delta that reaches the
    window weight, and the byte delta turns the old items stream into the new one. *)
Theorem advance_exact w delta anchor :
  window_ok w → Forall typed_share delta →
  not_panic (advance w delta anchor) ∧
  (is_ok (advance w delta anchor) = true ↔
   pv_anchor_job_issued_at_ms w ≤ anchor ∧
   delta_ok (pv_anchor_job_issued_at_ms w) anchor (shares_for_build w) delta ∧
   weight_of (shares_for_build w ++ delta) ≤ int_max U128) ∧
  (∀ w' stats byte_delta, advance w delta anchor = Ok (w', stats, byte_delta) →
   advanced_from w delta anchor w' stats byte_delta).
Proof.
  intros Hw Htyped. split_and!; [by apply advance_calm| |].
  - split.
    + intros [x Hx]%is_ok_ex. by eapply advance_conditions.
    + intros (Ha & Hd & Hfit). by destruct (advance_succeeds w delta anchor) as (? & ? & ? & -> & _).
  - intros w' stats bd. by apply advance_spec.
Qed.

(** * A maintained window is the window of the full snapshot *)

(** A window prepared from a snapshot and advanced any number of times, with
    the history of shares that were ever eligible in it. *)
Inductive maintained (weight : Z) : list AcceptedShare -> PayoutWindow -> Prop :=
| maintained_snapshot records anchor page_size w :
    Forall typed_share records → from_full_snapshot records anchor weight page_size = Ok w →
    maintained weight (filter (eligible_at anchor) records) w
| maintained_advance history w delta anchor w' stats byte_delta :
    maintained weight history w → Forall typed_share delta →
    advance w delta anchor = Ok (w', stats, byte_delta) → maintained weight (history ++ delta) w'.

(** The history in order, and the window's rows as its retained suffix. *)
Record holds (weight : Z) (history : list AcceptedShare) (w : PayoutWindow) (all : list AcceptedShare) : Prop := {
  ho_perm : all ≡ₚ history;
  ho_sorted : StronglySorted seq_lt all;
  ho_positive : Forall positive all;
  ho_eligible : Forall (fun s => eligible_at (pv_anchor_job_issued_at_ms w) s = true) all;
  ho_retained : retained weight all (shares_for_build w);
  ho_ok : window_ok w;
  ho_weight : pv_window_weight w = weight;
}.

Lemma retained_last weight all kept : 0 < weight → retained weight all kept → last kept = last all.
Proof.
  intros Hw [(d & -> & Hd) _]. destruct kept as [|x kept _] using rev_ind.
  - destruct Hd as [->|Hd]; [done|]. change (weight_of []) with 0 in Hd. lia.
  - by rewrite app_assoc, !last_snoc.
Qed.
Lemma maintained_holds weight history w :
  0 ≤ weight → maintained weight history w → ∃ all, holds weight history w all.
Proof.
  intros Hweight. induction 1 as [records anchor page_size w Htyped Hw|history w delta anchor w' stats bd _ IH Htyped Ha].
  - apply from_full_snapshot_spec in Hw as (Hok & Hret & Hs & _ & Hpos & <- & <- & <-); [|done..].
    exists (sort_by by_seq_asc (filter (eligible_at (pv_anchor_job_issued_at_ms w)) records)).
    constructor; try done; [by rewrite sort_by_perm|].
    apply sort_by_Forall, Forall_forall. intros s [Hs' _]%list_elem_of_filter. by apply Is_true_true.
  - destruct IH as [all [Hp Hs Hpos Hel Hret Hok <-]]. exists (all ++ delta).
    destruct (advance_conditions _ _ _ _ Hok Ha) as (Hanchor & Hd & _).
    destruct (advance_spec _ _ _ _ _ _ Hok Htyped Ha) as [Hok' Ha' Hw' _ Hret' _ _ _ _].
    pose proof (delta_positive _ _ _ _ Htyped Hd) as Hdpos.
    assert (Forall positive (all ++ delta)) by by apply Forall_app.
    constructor; try done; [by rewrite Hp| | |by eapply retained_extend].
    + apply sorted_follow; [done|apply Hd|]. rewrite <- (retained_last _ _ _ (wk_weight _ Hok) Hret). apply Hd.
    + rewrite Ha'. apply Forall_app. split; (eapply Forall_impl; [first [apply Hel|apply Hd]|]); cbn; [|tauto].
      intros s. unfold eligible_at. rewrite !andb_true_iff. lia.
Qed.

#[export] Instance by_seq_asc_order : CmpOrder by_seq_asc.
Proof. unfold by_seq_asc. apply _. Qed.

Lemma sorted_seq_unique l x y :
  StronglySorted seq_lt l → x ∈ l → y ∈ l → as_share_seq x = as_share_seq y → x = y.
Proof.
  intros Hl. apply strict_unique. eapply StronglySorted_weaken; [|done]. intros a b _ _ H. unfold seq_lt in H. lia.
Qed.
Lemma sort_asc_eq l all : StronglySorted seq_lt all → l ≡ₚ all → sort_by by_seq_asc l = all.
Proof.
  intros Hs Hp. rewrite <- (sort_by_id by_seq_asc all) by by apply sorted_seq_cmp.
  apply (sort_by_perm_eq by_seq_asc); [|done]. intros x y Hx Hy Heq. rewrite Hp in Hx, Hy.
  eapply sorted_seq_unique; [done..|]. by apply Z.compare_eq_iff.
Qed.

(** What a rebuild from a full snapshot yields for a history in order. *)
Lemma rebuild_Ok records anchor weight page_size all kept :
  0 < weight → page_size ≠ 0%nat → filter (eligible_at anchor) records ≡ₚ all →
  StronglySorted seq_lt all → Forall positive all → NoDup (as_share_id <$> all) →
  retained weight all kept → weight_of kept ≤ int_max U128 →
  ∃ fresh, from_full_snapshot records anchor weight page_size = Ok fresh ∧
    shares_for_build fresh = kept ∧ pv_total_difficulty fresh = weight_of kept ∧
    Forall (page_ok page_size) (pv_pages fresh).
Proof.
  intros Hw Hsize Hp Hs Hpos Hid Hret Hfit. unfold from_full_snapshot.
  rewrite (proj2 (Z.eqb_neq _ _)), (proj2 (Nat.eqb_neq _ _) Hsize) by lia.
  rewrite (sort_asc_eq _ all) by done.
  rewrite (proj2 (check_records_Ok all _)) by
    (split_and!; [done..|]; eapply Forall_impl; [exact Hpos|]; unfold positive; cbn; lia).
  cbn [mbind result_bind]. pose proof (retained_Forall _ _ _ _ Hpos Hret) as Hkpos.
  pose proof (weight_of_nonneg _ Hkpos) as Hk0.
  assert (∃ start total, retain_newest weight (reverse (imap pair all)) (length all) 0 = Ok (start, total)) as (start & total & Hr).
  { destruct Hret as [(d & -> & Hd) _].
    pose proof (retain_newest_total weight d kept [] Hkpos) as Ht. rewrite app_nil_r in Ht.
    destruct (is_ok_ex _ (Ht Hd ltac:(widths) ltac:(done))) as [[start total] H]. eauto. }
  rewrite Hr. cbn [mbind result_bind]. change 0 with (weight_of []) in Hr.
  apply retain_newest_spec in Hr as [Hr ->]; [|done]. rewrite app_nil_r in *.
  assert (drop start all = kept) as -> by exact (retained_unique _ _ _ _ Hpos Hr Hret).
  destruct (paginate_spec (length kept) page_size kept) as [Hflat Hpages]; [done|done|lia|done|].
  eexists. split; [done|]. by split_and!.
Qed.

(** C37: However often a prepared window was advanced, it holds the rows, the
    total, the canonical items and the digest of the window that a fold of the
    full snapshot yields at its anchor, whatever the page size of either. *)
Theorem maintained_matches_rebuild `{Sha256Crate} weight history w records page_size :
  0 ≤ weight → maintained weight history w → NoDup (as_share_id <$> history) →
  filter (eligible_at (pv_anchor_job_issued_at_ms w)) records ≡ₚ history → page_size ≠ 0%nat →
  ∃ fresh, from_full_snapshot records (pv_anchor_job_issued_at_ms w) weight page_size = Ok fresh ∧
    shares_for_build fresh = shares_for_build w ∧ pv_total_difficulty fresh = pv_total_difficulty w ∧
    canonical_items_bytes fresh = canonical_items_bytes w ∧ canonical_digest_hex fresh = canonical_digest_hex w.
Proof.
  intros Hw Hm Hid Hp Hsize. destruct (maintained_holds _ _ _ Hw Hm) as [all [Hall Hs Hpos _ Hret Hok <-]].
  destruct (rebuild_Ok records (pv_anchor_job_issued_at_ms w) (pv_window_weight w) page_size all (shares_for_build w))
    as (fresh & Hf & Hrows & Htotal & Hpages); try done.
  - apply Hok.
  - by rewrite Hp, Hall.
  - by rewrite Hall.
  - rewrite <- (wk_total _ Hok). apply Hok.
  - assert (canonical_items_bytes fresh = canonical_items_bytes w) as Hitems.
    { rewrite !canonical_items_joined, (fragments_of_pages _ _ Hpages), (fragments_of_pages _ _ (wk_pages _ Hok)).
      by do 2 f_equal. }
    exists fresh. rewrite !canonical_digest_joined, Hitems, Htotal, (wk_total _ Hok). done.
Qed.

(** * The reward window reads the same from the prepared rows *)
Lemma count_shares_reach remaining l1 l2 :
  Forall positive l1 → 0 ≤ remaining ≤ weight_of l1 → count_shares remaining (l1 ++ l2) = count_shares remaining l1.
Proof.
  revert remaining. induction l1 as [|x l1 IH]; intros remaining Hpos Hrem.
  { change (weight_of []) with 0 in Hrem. assert (remaining = 0) as -> by lia. by destruct l2. }
  inversion Hpos as [|?? Hx Hpos']; subst. unfold positive in Hx. rewrite weight_of_cons in Hrem.
  cbn. destruct (remaining =? 0); [done|]. f_equal. pose proof (weight_of_nonneg _ Hpos'). apply IH; [done|lia].
Qed.

Lemma eligible_shares_sorted fb l all :
  StronglySorted seq_lt all → filter (is_eligible fb) l ≡ₚ all → eligible_shares fb l = reverse all.
Proof.
  intros Hs Hp. unfold eligible_shares. rewrite <- (sort_by_id by_seq_desc (reverse all)).
  - apply (sort_by_perm_eq by_seq_desc); [|by rewrite reverse_Permutation].
    intros x y Hx Hy Heq%by_seq_desc_eq. rewrite Hp in Hx, Hy. by eapply sorted_seq_unique.
  - eapply StronglySorted_weaken; [|by apply StronglySorted_reverse]. intros a b _ _ Hab.
    apply by_seq_desc_le. unfold flip, seq_lt in Hab. lia.
Qed.

Lemma eligible_window_admissible cut fb shares :
  admissible cut shares → eligible_window shares fb cut =
  if fb_network_difficulty fb =? 0 then Err ZeroNetworkDifficulty else
  requested ← ok_or (checked_mul U128 (fb_network_difficulty fb) PRISM_WINDOW_MULTIPLIER) WindowOverflow;
  Ok (eligible_shares fb shares, requested).
Proof.
  intros Hadm. unfold eligible_window. destruct (_ =? 0); [done|].
  destruct (proj2 (admit_fold cut fb ∅ [] shares (filter (fun s => is_eligible fb s) shares))) as (seen & ->);
    [split_and!; [done|by apply Forall_true; set_solver|done]|].
  cbn [mbind result_bind]. by rewrite newest_first_sort.
Qed.
Lemma compute_window_eligible cut fb shares shares' :
  admissible cut shares → admissible cut shares' →
  (let req := fb_network_difficulty fb * PRISM_WINDOW_MULTIPLIER in
   count_shares req (eligible_shares fb shares) = count_shares req (eligible_shares fb shares')) →
  compute_prism_window_in_cut shares fb cut = compute_prism_window_in_cut shares' fb cut.
Proof.
  intros H1 H2 Hcount. unfold compute_prism_window_in_cut. rewrite !eligible_window_admissible by done.
  destruct (_ =? 0); [done|]. unfold checked_mul, checked. destruct (fits U128 _); [|done].
  cbn [mbind result_bind ok_or]. cbn zeta in Hcount. by rewrite Hcount.
Qed.

(** The reward window of a block whose anchor is the prepared window's, and
    whose eight network difficulties stay within the window weight, is the same
    from the prepared rows as from all accepted shares, errors included. *)
Theorem prepared_rows_suffice weight history w records fb cut :
  0 ≤ weight → maintained weight history w →
  fb_anchor_job_issued_at_ms fb = pv_anchor_job_issued_at_ms w →
  filter (eligible_at (pv_anchor_job_issued_at_ms w)) records ≡ₚ history →
  admissible cut records → 0 ≤ 8 * fb_network_difficulty fb ≤ weight →
  compute_prism_window_in_cut (shares_for_build w) fb cut = compute_prism_window_in_cut records fb cut.
Proof.
  intros Hw Hm Hanchor Hp Hadm Hreq. destruct (maintained_holds _ _ _ Hw Hm) as [all [Hall Hs Hpos Hel Hret Hok Hweight]].
  assert (∀ s, is_eligible fb s = eligible_at (pv_anchor_job_issued_at_ms w) s) as Helig
    by (intros s; unfold is_eligible, eligible_at; by rewrite Hanchor).
  assert (filter (is_eligible fb) records ≡ₚ all) as Hrec.
  { rewrite Hall, <- Hp. match goal with |- ?a ≡ₚ ?b => assert (a = b) as ->; [|done] end. apply filter_ext_elem. intros s _. by rewrite Helig. }
  assert (filter (is_eligible fb) (shares_for_build w) = shares_for_build w) as Hkept.
  { apply filter_all. apply Forall_forall. intros s Hs'. rewrite Helig. apply Is_true_true.
    pose proof (wk_eligible _ Hok) as He. rewrite Forall_forall in He. by apply He. }
  apply compute_window_eligible; [|done|].
  - destruct Hret as [(d & -> & _) _]. destruct Hadm as [Ha Hn]. split.
    + rewrite Forall_forall in Ha |- *. intros s Hs'. apply Ha.
      assert (s ∈ filter (is_eligible fb) records) as [_ ?]%list_elem_of_filter by (rewrite Hrec; set_solver). done.
    + pose proof (filter_fmap_NoDup _ (is_eligible fb) _ Hn) as Hn'. rewrite Hrec, fmap_app in Hn'.
      by apply NoDup_app in Hn' as (_ & _ & ?).
  - cbn zeta. rewrite (eligible_shares_sorted fb records all), (eligible_shares_sorted fb (shares_for_build w) (shares_for_build w)); try done.
    + destruct Hret as [(d & -> & Hd) _]. rewrite reverse_app. destruct Hd as [->|Hd]; [by rewrite app_nil_r|].
      symmetry. apply count_shares_reach.
      * apply Forall_reverse. by apply Forall_app in Hpos as [_ ?].
      * unfold weight_of. rewrite (sum_of_perm _ (reverse (shares_for_build w)) (shares_for_build w)) by apply reverse_Permutation.
        unfold PRISM_WINDOW_MULTIPLIER. unfold weight_of in Hd. lia.
    + by eapply sorted_retained.
    + by rewrite Hkept.
Qed.

(** * The width of a literal *)
Definition literal_value (literal : string) : option Z :=
  match literal with
  | String c digits => if Ascii.eqb c minus_sign then Z.opp <$> nonempty_digits digits else nonempty_digits literal
  | EmptyString => None
  end.
Lemma literal_value_integer literal : is_integer_literal literal = true ↔ is_Some (literal_value literal).
Proof.
  unfold is_integer_literal, strip_minus, literal_value. destruct literal as [|c s]; [by split; [|intros [??]]|].
  destruct (Ascii.eqb c minus_sign).
  - rewrite fmap_is_Some. destruct (nonempty_digits s); by split; [|intros [??]].
  - destruct (nonempty_digits (String c s)); by split; [|intros [??]].
Qed.
Definition minus_literal (literal : string) : bool :=
  match literal with String c _ => Ascii.eqb c minus_sign | EmptyString => false end.

(** A declared width admits an integer literal exactly when the literal's
    value lies in the range of the type; a literal with a minus sign is never
    admitted at an unsigned width, whatever its value. *)
Theorem width_admits_exact w literal v :
  literal_value literal = Some v →
  width_admits w literal = fits (width_ty w) v && (negb (minus_literal literal) || (int_min (width_ty w) <? 0)).
Proof.
  intros Hv. unfold width_admits, parse_int, literal_value, minus_literal in *. destruct literal as [|c s]; [done|].
  destruct (Ascii.eqb_spec c plus_sign) as [->|Hplus].
  { replace (Ascii.eqb plus_sign minus_sign) with false in Hv by done. by cbn in Hv. }
  destruct (Ascii.eqb c minus_sign) eqn:Hminus; cbn [negb orb].
  - apply fmap_Some in Hv as (d & Hd & ->). rewrite Hd. cbn [mbind option_bind].
    destruct (int_min (width_ty w) <? 0); rewrite ?andb_true_r, ?andb_false_r; [|done].
    unfold checked. by destruct (fits _ _).
  - rewrite Hv, andb_true_r. cbn [mbind option_bind]. unfold checked. by destruct (fits _ _).
Qed.

(** Minus zero is representable at every width, but no unsigned one admits it. *)
Example minus_zero_refused : literal_value "-0" = Some 0 ∧ fits U64 0 = true ∧ width_admits WU64 "-0" = false.
Proof. by vm_compute. Qed.

(** * Witnesses *)
Definition prepared_example : PayoutWindow.
Proof. ok_of (from_full_snapshot example_shares 500 80 2). Defined.
Definition delta_example : list AcceptedShare := [example_share 5 "s5" "carol" "c" "cc" 60 900].
Definition advanced_example : PayoutWindow * WindowAdvanceStats * WindowAdvanceByteDelta.
Proof. ok_of (advance prepared_example delta_example 1000). Defined.

Example prepared_example_rows :
  as_share_seq <$> shares_for_build prepared_example = [1; 2; 3] ∧ pv_total_difficulty prepared_example = 120 ∧
  length (pv_pages prepared_example) = 2%nat.
Proof. by vm_compute. Qed.
Example advanced_example_rows :
  as_share_seq <$> shares_for_build advanced_example.1.1 = [3; 5] ∧ wa_expired_rows advanced_example.1.2 = 2%nat ∧
  wa_touched_pages advanced_example.1.2 = 1%nat.
Proof. by vm_compute. Qed.

Lemma prepared_example_Ok : from_full_snapshot example_shares 500 80 2 = Ok prepared_example.
Proof. by vm_compute. Qed.
Lemma advanced_example_Ok :
  advance prepared_example delta_example 1000 = Ok advanced_example.
Proof. by vm_compute. Qed.
Lemma example_shares_typed : Forall typed_share example_shares ∧ Forall typed_share delta_example.
Proof. split; repeat constructor; done. Qed.
Lemma prepared_example_window_ok : window_ok prepared_example.
Proof. exact (proj1 (from_full_snapshot_spec _ _ 80 _ _ (proj1 example_shares_typed) ltac:(done) prepared_example_Ok)). Qed.
Lemma maintained_example :
  maintained 80 (filter (eligible_at 500) example_shares ++ delta_example) advanced_example.1.1.
Proof.
  pose proof (maintained_snapshot 80 example_shares 500 2 prepared_example (proj1 example_shares_typed) prepared_example_Ok) as H.
  eapply maintained_advance; [exact H|apply example_shares_typed|]. exact advanced_example_Ok.
Qed.

Lemma advance_exact_witness :
  is_ok (advance prepared_example delta_example 1000) = true ∧
  weight_of (shares_for_build prepared_example ++ delta_example) ≤ int_max U128 ∧
  advanced_from prepared_example delta_example 1000 advanced_example.1.1 advanced_example.1.2 advanced_example.2.
Proof.
  destruct (advance_exact prepared_example delta_example 1000 prepared_example_window_ok (proj2 example_shares_typed))
    as (_ & [Hok _] & Hadv).
  assert (is_ok (advance prepared_example delta_example 1000) = true) as H by (vm_compute; reflexivity).
  split; [exact H|]. split; [exact (proj2 (proj2 (Hok H)))|]. apply Hadv. exact advanced_example_Ok.
Defined.

(** All accepted shares, in another order. *)
Definition ledger_example : list AcceptedShare := reverse (take 3 example_shares ++ delta_example).
Lemma ledger_example_history :
  filter (eligible_at 1000) ledger_example ≡ₚ filter (eligible_at 500) example_shares ++ delta_example.
Proof. vm_compute. apply (reverse_Permutation [_; _; _; _]). Qed.

Lemma maintained_matches_rebuild_witness :
  ∃ fresh, from_full_snapshot ledger_example 1000 80 512 = Ok fresh ∧
    canonical_digest_hex fresh = canonical_digest_hex advanced_example.1.1.
Proof.
  destruct (maintained_matches_rebuild 80 (filter (eligible_at 500) example_shares ++ delta_example)
    advanced_example.1.1 ledger_example 512) as (fresh & Hf & _ & _ & _ & Hd);
    [lia|exact maintained_example|vm_compute; repeat constructor; set_solver|exact ledger_example_history|lia|].
  exists fresh. split; [exact Hf|exact Hd].
Defined.

Definition next_block : FoundBlock :=
  {| fb_block_height := 102; fb_coinbase_value_sats := 100000; fb_network_difficulty := 10;
     fb_anchor_job_issued_at_ms := 1000 |}.
Lemma prepared_rows_suffice_witness :
  compute_prism_window_in_cut (shares_for_build advanced_example.1.1) next_block None =
  compute_prism_window_in_cut ledger_example next_block None.
Proof.
  apply (prepared_rows_suffice 80 (filter (eligible_at 500) example_shares ++ delta_example));
    [lia|exact maintained_example|reflexivity|exact ledger_example_history| |cbn; lia].
  split; [repeat constructor; cbn; lia|vm_compute; repeat constructor; set_solver].
Defined.

Lemma width_admits_exact_witness :
  literal_value "4294967296" = Some 4294967296 ∧ width_admits WU32 "4294967296" = false.
Proof.
  assert (literal_value "4294967296" = Some 4294967296) as H by (vm_compute; reflexivity).
  split; [exact H|]. rewrite (width_admits_exact WU32 "4294967296" 4294967296 H). reflexivity.
Defined.
