(* ===== verification/OrderedChunks.v ===== *)
(** The builder's ordered worker pool (crates/qbit-prism/src/parallel.rs):
    [ordered_chunks] produces chunks on pool threads and consumes them in
    index order on the calling thread.  The pool run is a step relation over
    the state the jobs and the consumer share; whatever the schedule, it ends,
    and it ends with what the serial loop computes. *)
From Stdlib Require Import ZArith Lia.
From stdpp Require Import base list strings gmap relations.
From S2P Require Import Prelude.

(** * Parallelism *)
Record Parallelism := {
  par_workers : Z;
  par_chunk_len : Z;
}.
Definition MAX_WORKERS : Z := 8.
Definition DEFAULT_CHUNK_LEN : Z := 4096.
Definition serial : Parallelism := {| par_workers := 1; par_chunk_len := int_max Usize |}.
Definition new_parallelism (workers chunk_len : Z) : Parallelism :=
  {| par_workers := Z.max workers 1; par_chunk_len := Z.max chunk_len 1 |}.
(** [builder_threads] is what the process configured or detected. *)
Definition detect (builder_threads : Z) : Parallelism :=
  if (builder_threads =? 0)%Z then serial
  else new_parallelism (Z.min builder_threads MAX_WORKERS) DEFAULT_CHUNK_LEN.
Definition is_serial (p : Parallelism) : bool := (par_workers p <=? 1)%Z.

(** * The run of one call *)
Section ordered_chunks.
Context {C E S : Type}.
Context (count workers : nat) (produce : nat -> result E C) (consume : S -> nat -> C -> result E S).

(** The path taken without a pool: one chunk at a time on the calling thread. *)
Definition serial_chunks (s0 : S) : result E S :=
  try_fold (fun s index => chunk ← produce index; consume s index chunk) s0 (seq 0 count).

(** Where the calling thread is. *)
Inductive Phase :=
| Submitting
| Waiting
| Consuming (chunk : C)
| Draining
| Unwinding (msg : string)
| Finished (outcome : result E S).

Record Run := {
  run_phase : Phase;
  run_index : nat;
  run_next : nat;
  (** Submitted jobs that have not reported; [outstanding] is its size. *)
  run_running : gset nat;
  run_ready : gmap nat C;
  run_failed : option E;
  run_panicked : option string;
  run_acc : S;
}.

Definition max_inflight : nat := (Nat.max 1 (Nat.min workers count) * 2)%nat.
Definition stopping (r : Run) : bool :=
  match run_failed r, run_panicked r with None, None => false | _, _ => true end.
Definition get_or_insert {A} (o : option A) (a : A) : option A :=
  match o with Some x => Some x | None => Some a end.

Definition start (s0 : S) : Run :=
  {| run_phase := Submitting; run_index := 0; run_next := 0; run_running := ∅;
     run_ready := ∅; run_failed := None; run_panicked := None; run_acc := s0 |}.

(** The submission loop, under one lock; [next] grows every turn, so [count]
    turns are enough. *)
Fixpoint submit_jobs (fuel index next : nat) (running : gset nat) : nat * gset nat :=
  match fuel with
  | O => (next, running)
  | Datatypes.S fuel =>
      if (next <? count)%nat && (next - index <? max_inflight)%nat
      then submit_jobs fuel index (next + 1) ({[next]} ∪ running)
      else (next, running)
  end.
Definition submit (r : Run) : Run :=
  let '(next, running) :=
    if stopping r then (run_next r, run_running r)
    else submit_jobs count (run_index r) (run_next r) (run_running r) in
  {| run_phase := Waiting; run_index := run_index r; run_next := next; run_running := running;
     run_ready := run_ready r; run_failed := run_failed r; run_panicked := run_panicked r;
     run_acc := run_acc r |}.

(** A job reports under the lock: its chunk, its error or its panic. *)
Definition report (r : Run) (i : nat) : Run :=
  let outcome := produce i in
  {| run_phase := run_phase r; run_index := run_index r; run_next := run_next r;
     run_running := run_running r ∖ {[i]};
     run_ready := match outcome with Ok c => <[i := c]> (run_ready r) | _ => run_ready r end;
     run_failed := match outcome with Err e => get_or_insert (run_failed r) e | _ => run_failed r end;
     run_panicked := match outcome with Panic m => get_or_insert (run_panicked r) m | _ => run_panicked r end;
     run_acc := run_acc r |}.

Definition with_phase (r : Run) (phase : Phase) (ready : gmap nat C) : Run :=
  {| run_phase := phase; run_index := run_index r; run_next := run_next r;
     run_running := run_running r; run_ready := ready; run_failed := run_failed r;
     run_panicked := run_panicked r; run_acc := run_acc r |}.
(** The consumer looks for its chunk, stops, or sleeps on the condition. *)
Definition take_chunk (r : Run) : option Run :=
  match run_ready r !! run_index r with
  | Some chunk => Some (with_phase r (Consuming chunk) (delete (run_index r) (run_ready r)))
  | None => if stopping r then Some (with_phase r Draining (run_ready r)) else None
  end.

Definition consumed (r : Run) (chunk : C) : Run :=
  match consume (run_acc r) (run_index r) chunk with
  | Ok s =>
      {| run_phase := if (run_index r + 1 <? count)%nat then Submitting else Draining;
         run_index := run_index r + 1; run_next := run_next r; run_running := run_running r;
         run_ready := run_ready r; run_failed := run_failed r; run_panicked := run_panicked r;
         run_acc := s |}
  | Err e =>
      {| run_phase := Draining; run_index := run_index r; run_next := run_next r;
         run_running := run_running r; run_ready := run_ready r;
         run_failed := get_or_insert (run_failed r) e; run_panicked := run_panicked r;
         run_acc := run_acc r |}
  | Panic m => with_phase r (Unwinding m) (run_ready r)
  end.

Definition outcome_of (r : Run) : result E S :=
  match run_panicked r, run_failed r with
  | Some m, _ => Panic m
  | None, Some e => Err e
  | None, None => Ok (run_acc r)
  end.

(** One atomic section of a job or of the calling thread. *)
Inductive step (r : Run) : Run -> Prop :=
| step_submit : run_phase r = Submitting → step r (submit r)
| step_report i : i ∈ run_running r → step r (report r i)
| step_take r' : run_phase r = Waiting → take_chunk r = Some r' → step r r'
| step_consume chunk : run_phase r = Consuming chunk → step r (consumed r chunk)
| step_drain : run_phase r = Draining → run_running r = ∅ →
    step r (with_phase r (Finished (outcome_of r)) ∅)
| step_unwind m : run_phase r = Unwinding m → run_running r = ∅ →
    step r (with_phase r (Finished (Panic m)) ∅).

(** What a call may return: at once for no chunks, serially without a usable
    pool, or whatever a pool run ends with. *)
Inductive ordered_chunks (s0 : S) : result E S -> Prop :=
| chunks_none : count = 0%nat → ordered_chunks s0 (Ok s0)
| chunks_serial : ordered_chunks s0 (serial_chunks s0)
| chunks_pool r outcome : (0 < count)%nat → rtc step (start s0) r → run_phase r = Finished outcome →
    ordered_chunks s0 outcome.
End ordered_chunks.


(** * What a run keeps *)
Section facts.
Context {C E S : Type}.
Context (count workers : nat) (produce : nat -> result E C) (consume : S -> nat -> C -> result E S) (s0 : S).

Abbreviation Run := (@Run C E S).
Abbreviation step := (step count workers produce consume).
Abbreviation stopping := (@stopping C E S).
Abbreviation prefix n := (try_fold (fun s index => chunk ← produce index; consume s index chunk) s0 (seq 0 n)).

(** The first index whose chunk has not been handed to the consumer. *)
Definition pending_from (r : Run) : nat :=
  match run_phase r with Consuming _ => run_index r + 1 | _ => run_index r end.
(** Inside the consumer's loop. *)
Definition looping (r : Run) : bool :=
  match run_phase r with Submitting | Waiting | Consuming _ => true | _ => false end.
(** Errors and panics come from a producer or from the consumer in its turn. *)
Definition consumer_outcome (o : result E S) : Prop :=
  ∃ n s c, (n < count)%nat ∧ prefix n = Ok s ∧ produce n = Ok c ∧ consume s n c = o.
Definition fails_with (e : E) : Prop :=
  (∃ i, (i < count)%nat ∧ produce i = Err e) ∨ consumer_outcome (Err e).
Definition panics_with (m : string) : Prop :=
  (∃ i, (i < count)%nat ∧ produce i = Panic m) ∨ consumer_outcome (Panic m).

Record run_ok (r : Run) : Prop := {
  rk_index : (run_index r ≤ run_next r ≤ count)%nat;
  rk_inflight : (run_next r ≤ run_index r + max_inflight count workers)%nat;
  rk_acc : prefix (run_index r) = Ok (run_acc r);
  rk_running i : i ∈ run_running r → (pending_from r ≤ i < run_next r)%nat ∧ run_ready r !! i = None;
  rk_ready i c : run_ready r !! i = Some c → (pending_from r ≤ i < run_next r)%nat ∧ produce i = Ok c;
  rk_accounted i : looping r = true → stopping r = false → (pending_from r ≤ i < run_next r)%nat →
    i ∈ run_running r ∨ is_Some (run_ready r !! i);
  rk_failed e : run_failed r = Some e → fails_with e;
  rk_panicked m : run_panicked r = Some m → panics_with m;
  rk_phase : match run_phase r with
    | Submitting => (run_index r < count)%nat
    | Waiting => (run_index r < count)%nat ∧ (stopping r = true ∨ (run_index r < run_next r)%nat)
    | Consuming c => (run_index r < run_next r)%nat ∧ produce (run_index r) = Ok c
    | Draining => stopping r = true ∨ run_index r = count
    | Unwinding m => panics_with m
    | Finished o => run_running r = ∅ ∧
        (∀ s, o = Ok s → prefix count = Ok s) ∧ (∀ e, o = Err e → fails_with e) ∧ (∀ m, o = Panic m → panics_with m)
    end;
}.

Lemma start_ok : (0 < count)%nat → run_ok (start s0).
Proof.
  intros Hc. constructor; cbn; try done; try lia.
Qed.

Lemma submit_jobs_spec fuel index next running next' running' :
  submit_jobs count workers fuel index next running = (next', running') →
  (next ≤ count → index ≤ next → next ≤ index + max_inflight count workers → count - next ≤ fuel →
   next ≤ next' ≤ count ∧ next' ≤ index + max_inflight count workers ∧
   (next' = count ∨ next' = index + max_inflight count workers) ∧
   ∀ i, i ∈ running' ↔ i ∈ running ∨ next ≤ i < next')%nat.
Proof.
  revert next running. induction fuel as [|fuel IH]; intros next running Hs Hn Hi Hm Hf; cbn [submit_jobs] in Hs.
  { injection Hs as <- <-. split_and!; [lia..| |]; [lia|]. intros i. split; [tauto|]. intros [?|?]; [done|lia]. }
  destruct (Nat.ltb_spec next count), (Nat.ltb_spec (next - index) (max_inflight count workers)); cbn [andb] in Hs.
  { apply IH in Hs as (? & ? & ? & Hin); [|lia..]. split_and!; [lia..|done|].
    intros i. rewrite Hin, elem_of_union, elem_of_singleton. split; [intros [[->|?]|?]|intros [?|?]]; try (right; lia); try tauto.
    destruct (decide (i = next)); [tauto|right; lia]. }
  all: injection Hs as <- <-; split_and!; [lia..|intros i; split; [tauto|intros [?|?]; [done|lia]]].
Qed.

Lemma max_inflight_pos : (0 < max_inflight count workers)%nat.
Proof. unfold max_inflight. lia. Qed.

Lemma submit_ok r : run_ok r → run_phase r = Submitting → run_ok (submit count workers r).
Proof.
  intros [Hi Hm Hacc Hrun Hready Hall Hf Hp Hphase] Hr. unfold submit, pending_from, looping in *. rewrite Hr in *.
  destruct (stopping r) eqn:Hstop.
  { constructor; cbn; try done; [|by split; [|left]]. intros i _ Hns. exfalso. clear -Hns Hstop. unfold OrderedChunks.stopping in *. cbn in Hns. by rewrite Hstop in Hns. }
  destruct (submit_jobs _ _ _ _ _ _) as [next running] eqn:Hs.
  apply submit_jobs_spec in Hs as (Hnext & Hnext' & Hfull & Hin); [|lia..]. pose proof max_inflight_pos.
  constructor; cbn; try done; try lia.
  - intros i Hi'. apply Hin in Hi' as [Hi'|Hi']; [split; [|by apply Hrun]; apply Hrun in Hi'; lia|].
    split; [lia|]. destruct (run_ready r !! i) eqn:Hri; [|done]. apply Hready in Hri. lia.
  - intros i c Hc. destruct (Hready i c Hc). split; [lia|done].
  - intros i _ _ Hi'. rewrite Hin. destruct (decide (i < run_next r)%nat); [|left; right; lia].
    destruct (Hall i eq_refl eq_refl) as [?|?]; [lia|tauto..].
Qed.

Lemma stopping_report r i : stopping r = true → stopping (report produce r i) = true.
Proof. unfold OrderedChunks.stopping, report. cbn. destruct (produce i), (run_failed r), (run_panicked r); done. Qed.

Lemma get_or_insert_Some {A} (o : option A) a x : get_or_insert o a = Some x → o = Some x ∨ (o = None ∧ x = a).
Proof. destruct o; cbn; intros [= <-]; auto. Qed.

Lemma report_ok r i : run_ok r → i ∈ run_running r → run_ok (report produce r i).
Proof.
  intros [Hi Hm Hacc Hrun Hready Hall Hf Hp Hphase] Hri. destruct (Hrun i Hri) as [Hb Hnone].
  assert (pending_from (report produce r i) = pending_from r) as Hpf by done.
  assert ((i < count)%nat) as Hic by lia.
  constructor; rewrite ?Hpf; cbn [report run_index run_next run_running run_ready run_failed run_panicked run_acc]; try done.
  - intros j [Hj Hne]%elem_of_difference. rewrite elem_of_singleton in Hne. destruct (Hrun j Hj) as [? Hj'].
    split; [done|]. destruct (produce i); [|done..]. by rewrite lookup_insert_ne.
  - intros j c Hc. destruct (produce i) as [c'|e|m] eqn:Ho; [|by apply Hready..].
    destruct (decide (i = j)) as [->|Hne]; [|rewrite lookup_insert_ne in Hc by done; by apply Hready].
    rewrite lookup_insert in Hc. rewrite decide_True in Hc by done. injection Hc as ->. done.
  - intros j Hl Hns Hj. assert (stopping r = false) as Hns'.
    { destruct (stopping r) eqn:Hs; [|done]. by rewrite stopping_report in Hns. }
    destruct (decide (j = i)) as [->|Hne].
    + right. unfold OrderedChunks.stopping in Hns. cbn in Hns. destruct (produce i) as [c|e|m] eqn:Ho.
      * rewrite lookup_insert, decide_True by done. eauto.
      * by destruct (run_failed r).
      * by destruct (run_failed r), (run_panicked r).
    + destruct (Hall j Hl Hns' Hj) as [?|?]; [left; set_solver|right].
      destruct (produce i); [|done..]. by rewrite lookup_insert_ne.
  - intros e He. destruct (produce i) as [c|e'|m] eqn:Ho; [by apply Hf| |by apply Hf].
    apply get_or_insert_Some in He as [?|[_ ->]]; [by apply Hf|]. left. eauto.
  - intros m He. destruct (produce i) as [c|e'|m'] eqn:Ho; [by apply Hp|by apply Hp|].
    apply get_or_insert_Some in He as [?|[_ ->]]; [by apply Hp|]. left. eauto.
  - change (run_phase (report produce r i)) with (run_phase r). destruct (run_phase r); try exact Hphase.
    + destruct Hphase as [? [Hs|?]]; [|tauto]. split; [done|left; by apply stopping_report].
    + destruct Hphase as [Hs|?]; [|tauto]. left; by apply stopping_report.
    + destruct Hphase as [Hempty _]. rewrite Hempty in Hri. set_solver.
Qed.

Lemma prefix_snoc n : prefix (n + 1) = (s ← prefix n; chunk ← produce n; consume s n chunk).
Proof.
  rewrite seq_app, try_fold_app. cbn. destruct (prefix n); cbn; [|done..].
  destruct (produce n); cbn; [|done..]. by destruct (consume a n a0).
Qed.

Lemma take_ok r r' : run_ok r → run_phase r = Waiting → take_chunk r = Some r' → run_ok r'.
Proof.
  intros [Hi Hm Hacc Hrun Hready Hall Hf Hp Hphase] Hr Ht. unfold take_chunk, pending_from, looping in *. rewrite Hr in *.
  destruct (run_ready r !! run_index r) as [c|] eqn:Hc.
  - injection Ht as <-. destruct (Hready _ _ Hc) as [Hb Ho].
    constructor; cbn; try done.
    + intros i Hi'. destruct (Hrun i Hi') as [Hb' Hn]. destruct (decide (i = run_index r)) as [->|]; [congruence|].
      split; [lia|]. by rewrite lookup_delete_ne.
    + intros i c' [Hne Hc']%lookup_delete_Some. destruct (Hready _ _ Hc'). split; [lia|done].
    + intros i _ Hns Hi'. rewrite lookup_delete_ne by lia. apply Hall; [done|exact Hns|lia].
    + split; [lia|done].
  - destruct (stopping r) eqn:Hs; [|done]. injection Ht as <-. constructor; cbn; try done. by left.
Qed.

Lemma consumed_ok r chunk :
  run_ok r → run_phase r = Consuming chunk → run_ok (consumed count consume r chunk).
Proof.
  intros [Hi Hm Hacc Hrun Hready Hall Hf Hp Hphase] Hr. unfold consumed, pending_from, looping in *. rewrite Hr in *.
  destruct Hphase as [Hlt Hchunk].
  destruct (consume (run_acc r) (run_index r) chunk) as [s|e|m] eqn:Hc.
  - assert (prefix (run_index r + 1) = Ok s) as Hacc' by (rewrite prefix_snoc, Hacc; cbn; by rewrite Hchunk).
    destruct (Nat.ltb_spec (run_index r + 1) count); constructor; cbn; try done; try lia.
  - assert (fails_with e) as He by (right; exists (run_index r), (run_acc r), chunk; split_and!; [lia|done..]).
    constructor; cbn; try done; try lia.
    + intros i Hi'. destruct (Hrun i Hi'). split; [lia|done].
    + intros i c Hc'. destruct (Hready i c Hc'). split; [lia|done].
    + intros e' He'. apply get_or_insert_Some in He' as [?|[_ ->]]; [by apply Hf|done].
    + left. unfold OrderedChunks.stopping. cbn. by destruct (run_failed r).
  - assert (panics_with m) as Hpm by (right; exists (run_index r), (run_acc r), chunk; split_and!; [lia|done..]).
    constructor; cbn; try done; try lia.
    + intros i Hi'. destruct (Hrun i Hi'). split; [lia|done].
    + intros i c Hc'. destruct (Hready i c Hc'). split; [lia|done].
Qed.

Lemma finished_ok r o :
  run_ok r → run_running r = ∅ →
  (∀ s, o = Ok s → prefix count = Ok s) → (∀ e, o = Err e → fails_with e) → (∀ m, o = Panic m → panics_with m) →
  run_ok (with_phase r (Finished o) ∅).
Proof.
  intros [Hi Hm Hacc Hrun Hready Hall Hf Hp Hphase] Hempty H1 H2 H3. constructor; cbn; try done.
  rewrite Hempty. set_solver.
Qed.
Lemma drain_ok r :
  run_ok r → run_phase r = Draining → run_running r = ∅ → run_ok (with_phase r (Finished (outcome_of r)) ∅).
Proof.
  intros Hok Hr Hempty. pose proof (rk_phase _ Hok) as Hphase. rewrite Hr in Hphase.
  apply finished_ok; [done..| | |]; unfold outcome_of.
  - intros s Hs. destruct (run_panicked r) eqn:Hp; [done|]. destruct (run_failed r) eqn:Hf; [done|].
    injection Hs as <-. destruct Hphase as [Hstop|<-]; [|apply Hok].
    unfold OrderedChunks.stopping in Hstop. by rewrite Hf, Hp in Hstop.
  - intros e He. destruct (run_panicked r) eqn:Hp; [done|]. destruct (run_failed r) eqn:Hf; [|done].
    injection He as <-. by apply (rk_failed _ Hok).
  - intros m Hm. destruct (run_panicked r) eqn:Hp; [|by destruct (run_failed r)].
    injection Hm as <-. by apply (rk_panicked _ Hok).
Qed.

Lemma step_ok r r' : run_ok r → step r r' → run_ok r'.
Proof.
  intros Hok [Hr|i Hi|r'' Hr Ht|c Hr|Hr He|m Hr He].
  - by apply submit_ok.
  - by apply report_ok.
  - by eapply take_ok.
  - by apply consumed_ok.
  - by apply drain_ok.
  - apply finished_ok; try done. intros m' [= <-]. pose proof (rk_phase _ Hok) as Hp. by rewrite Hr in Hp.
Qed.
Lemma reachable_ok r : (0 < count)%nat → rtc step (start s0) r → run_ok r.
Proof.
  intros Hc Hr. apply (rtc_ind_r run_ok (start s0)) in Hr; [done|by apply start_ok|].
  intros y z _ Hs Hy. by eapply step_ok.
Qed.

(** ** Every schedule ends *)
Definition rank (phase : @Phase C E S) : nat :=
  match phase with
  | Submitting => 4 | Waiting => 3 | Consuming _ => 2 | Draining | Unwinding _ => 1 | Finished _ => 0
  end.
Definition work_left (r : Run) : nat :=
  5 * (count - run_index r) + rank (run_phase r) + size (run_running r) + 2 * (count - run_next r).

Lemma size_window (X : gset nat) a b : (∀ i, i ∈ X → a ≤ i < b)%nat → (size X ≤ b - a)%nat.
Proof.
  intros H. rewrite <- (size_set_seq (C := gset nat) a (b - a)). apply subseteq_size.
  intros i Hi. apply elem_of_set_seq. specialize (H i Hi). lia.
Qed.
Lemma size_split (X Y : gset nat) a b :
  (∀ i, i ∈ X → i ∈ Y ∨ a ≤ i < b)%nat → (size X ≤ size Y + (b - a))%nat.
Proof.
  intros H. pose proof (size_window (X ∖ Y) a b) as Hd.
  assert (size X ≤ size (Y ∪ X))%nat by (apply subseteq_size; set_solver).
  rewrite size_union_alt in *. assert (size (X ∖ Y) ≤ b - a)%nat; [|lia]. apply Hd.
  intros i [Hi Hn]%elem_of_difference. destruct (H i Hi); [done|lia].
Qed.

Lemma submit_decreases r :
  run_ok r → run_phase r = Submitting → (work_left (submit count workers r) < work_left r)%nat.
Proof.
  intros [Hi Hm _ _ _ _ _ _ _] Hr. unfold submit, work_left. rewrite Hr.
  destruct (stopping r); [cbn; lia|]. destruct (submit_jobs _ _ _ _ _ _) as [next running] eqn:Hs.
  apply submit_jobs_spec in Hs as (Hnext & _ & _ & Hin); [|lia..]. cbn [run_index run_phase run_running run_next rank].
  pose proof (size_split running (run_running r) (run_next r) next (fun i Hi' => proj1 (Hin i) Hi')). lia.
Qed.
Lemma report_decreases r i : i ∈ run_running r → (work_left (report produce r i) < work_left r)%nat.
Proof.
  intros Hi. unfold work_left, report. cbn [run_index run_phase run_running run_next].
  rewrite size_difference by set_solver. rewrite size_singleton.
  assert (size ({[i]} : gset nat) ≤ size (run_running r))%nat by (apply subseteq_size; set_solver).
  rewrite size_singleton in *. lia.
Qed.
Lemma step_decreases r r' : run_ok r → step r r' → (work_left r' < work_left r)%nat.
Proof.
  intros Hok [Hr|i Hi|r'' Hr Ht|c Hr|Hr He|m Hr He].
  - by apply submit_decreases.
  - by apply report_decreases.
  - unfold take_chunk in Ht. unfold work_left. destruct (run_ready r !! run_index r); [|destruct (stopping r); [|done]];
      injection Ht as <-; rewrite Hr; cbn; lia.
  - pose proof (rk_phase _ Hok) as Hp. pose proof (rk_index _ Hok). rewrite Hr in Hp.
    unfold consumed, work_left. rewrite Hr. destruct (consume _ _ _); cbn [run_index run_phase run_running run_next rank with_phase];
      [destruct (_ <? _)%nat; cbn; lia|lia..].
  - unfold work_left. rewrite Hr. cbn. lia.
  - unfold work_left. rewrite Hr. cbn. lia.
Qed.

Lemma run_ok_sn r : run_ok r → sn step r.
Proof.
  intros Hok. induction (well_founded_ltof _ work_left r) as [r _ IH]. constructor.
  intros r' Hs. exact (IH r' (step_decreases r r' Hok Hs) (step_ok r r' Hok Hs)).
Qed.
Lemma run_ok_progress r : run_ok r → nf step r → ∃ o, run_phase r = Finished o.
Proof.
  intros Hok Hnf. pose proof (rk_phase _ Hok) as Hp.
  assert (run_running r = ∅) as Hempty.
  { apply set_eq. intros i. split; [|set_solver]. intros Hi. exfalso. apply Hnf. eexists. by apply step_report. }
  destruct (run_phase r) as [| |c| |m|o] eqn:Hr; [| | | | |by eauto]; exfalso; apply Hnf.
  - eexists. by apply step_submit.
  - destruct (take_chunk r) as [r'|] eqn:Ht; [eexists; by eapply step_take|]. exfalso. unfold take_chunk in Ht.
    destruct (run_ready r !! run_index r) eqn:Hc; [done|]. destruct (stopping r) eqn:Hs; [done|].
    destruct Hp as [_ [?|Hlt]]; [done|].
    destruct (rk_accounted _ Hok (run_index r)) as [Hin|[c Hc']]; [by unfold looping; rewrite Hr|done|unfold pending_from; rewrite Hr; lia| |congruence].
    rewrite Hempty in Hin. set_solver.
  - eexists. by eapply step_consume.
  - eexists. by apply step_drain.
  - eexists. by eapply step_unwind.
Qed.

(** A serial loop that goes through leaves no room for a failure. *)
Lemma serial_prefix n s : (n ≤ count)%nat → prefix count = Ok s → ∃ s', prefix n = Ok s'.
Proof.
  intros Hn H. replace count with (n + (count - n))%nat in H by lia. rewrite seq_app, try_fold_app in H.
  apply bind_Ok in H as (s' & H & _). eauto.
Qed.
Lemma serial_turn n s : (n < count)%nat → prefix count = Ok s →
  ∃ s' c s'', prefix n = Ok s' ∧ produce n = Ok c ∧ consume s' n c = Ok s''.
Proof.
  intros Hn H. destruct (serial_prefix (n + 1) s) as [s'' Hs]; [lia|done|]. rewrite prefix_snoc in Hs.
  apply bind_Ok in Hs as (s' & ? & Hs). apply bind_Ok in Hs as (c & ? & ?). eauto 10.
Qed.
Lemma serial_no_consumer s o : prefix count = Ok s → consumer_outcome o → is_ok o = true.
Proof.
  intros H (n & s1 & c & Hn & Hp & Hc & <-). destruct (serial_turn n s Hn H) as (s' & c' & s'' & H1 & H2 & H3).
  rewrite Hp in H1. rewrite Hc in H2. simplify_eq. by rewrite H3.
Qed.
Lemma serial_no_failure s : prefix count = Ok s → (∀ e, ¬ fails_with e) ∧ (∀ m, ¬ panics_with m).
Proof.
  intros H. split; intros ? [(i & Hi & Ho)|Ho].
  1, 3: destruct (serial_turn i s Hi H) as (? & ? & ? & _ & ? & _); congruence.
  all: by apply (serial_no_consumer s) in Ho.
Qed.
Lemma serial_failures n :
  (n ≤ count)%nat → (∀ e, prefix n = Err e → fails_with e) ∧ (∀ m, prefix n = Panic m → panics_with m).
Proof.
  induction n as [|n IH]; intros Hn; [done|]. destruct (IH ltac:(lia)) as [IH1 IH2].
  replace (Datatypes.S n) with (n + 1)%nat by lia. rewrite prefix_snoc. destruct (prefix n) as [s|e|m] eqn:Hp; cbn.
  - destruct (produce n) as [c|e|m] eqn:Hc; cbn; (split; [intros e' He|intros m' Hm]); try done.
    + right. exists n, s, c. split_and!; [lia|done..].
    + right. exists n, s, c. split_and!; [lia|done..].
    + left. exists n. injection He as ->. split; [lia|done].
    + left. exists n. injection Hm as ->. split; [lia|done].
  - split; [|done]. intros e' [= <-]. by apply IH1.
  - split; [done|]. intros m' [= <-]. by apply IH2.
Qed.

Lemma ordered_chunks_Ok o s :
  ordered_chunks count workers produce consume s0 o → prefix count = Ok s → o = Ok s.
Proof.
  intros [Hc| |r o' Hc Hr Ho] Hs; [rewrite Hc in Hs; by injection Hs as <-|done|].
  pose proof (rk_phase _ (reachable_ok r Hc Hr)) as Hp. rewrite Ho in Hp. destruct Hp as (_ & H1 & H2 & H3).
  destruct (serial_no_failure s Hs) as [Hne Hnp]. destruct o' as [s'|e|m].
  - specialize (H1 s' eq_refl). congruence.
  - exfalso. by apply (Hne e), H2.
  - exfalso. by apply (Hnp m), H3.
Qed.

Lemma ordered_chunks_iff o s :
  ordered_chunks count workers produce consume s0 o → o = Ok s ↔ prefix count = Ok s.
Proof.
  intros Hrun. split; [|by apply ordered_chunks_Ok]. destruct Hrun as [Hc| |r o' Hc Hr Ho]; [by rewrite Hc|done|].
  pose proof (rk_phase _ (reachable_ok r Hc Hr)) as Hp. rewrite Ho in Hp. apply Hp.
Qed.

(** C31: Whatever the schedule of the pool threads, a call that consumes chunks
    in order ends with the state of the serial loop exactly when the serial
    loop goes through, and any error or panic it reports is one of a producer
    or of the consumer on the state the serial loop would have reached. *)
Theorem ordered_chunks_serial o :
  ordered_chunks count workers produce consume s0 o →
  (∀ s, o = Ok s ↔ serial_chunks count produce consume s0 = Ok s) ∧
  (∀ e, o = Err e → fails_with e) ∧ (∀ m, o = Panic m → panics_with m).
Proof.
  change (serial_chunks count produce consume s0) with (prefix count).
  intros Hrun. split; [intros s; by apply ordered_chunks_iff|]. destruct Hrun as [Hc| |r o' Hc Hr Ho].
  - done.
  - by apply serial_failures.
  - pose proof (rk_phase _ (reachable_ok r Hc Hr)) as Hp. rewrite Ho in Hp. split; apply Hp.
Qed.

(** C40: Every schedule of the pool ends: from any reachable state all runs are
    finite, and a run that cannot go on has returned.  Nothing deadlocks. *)
Theorem ordered_chunks_ends r :
  (0 < count)%nat → rtc step (start s0) r →
  sn step r ∧ (nf step r → ∃ o, run_phase r = Finished o).
Proof.
  intros Hc Hr. pose proof (reachable_ok r Hc Hr) as Hok. split; [by apply run_ok_sn|by apply run_ok_progress].
Qed.

(** At most twice as many chunks as workers are ever submitted ahead of the
    consumer, running or ready. *)
Theorem ordered_chunks_bounded r :
  (0 < count)%nat → rtc step (start s0) r →
  (size (run_running r) + size (run_ready r) ≤ 2 * Nat.max 1 (Nat.min workers count))%nat.
Proof.
  intros Hc Hr. pose proof (reachable_ok r Hc Hr) as Hok. rewrite <- size_dom.
  rewrite <- size_union.
  - transitivity (run_next r - run_index r)%nat.
    + apply size_window. intros i [Hi|[c Hi]%elem_of_dom]%elem_of_union.
      * destruct (rk_running _ Hok i Hi) as [Hb _]. unfold pending_from in Hb. destruct (run_phase r); lia.
      * destruct (rk_ready _ Hok i c Hi) as [Hb _]. unfold pending_from in Hb. destruct (run_phase r); lia.
    + pose proof (rk_inflight _ Hok). unfold max_inflight in *. lia.
  - intros i Hi [c Hc']%elem_of_dom. destruct (rk_running _ Hok i Hi) as [_ Hn]. congruence.
Qed.
End facts.

(** * The interface the builders use

    A runner returns one of the outcomes a call may have; clients are proved
    against this and hold for every schedule. *)
Class ChunkRunner := {
  run_chunks {C E S} (count workers : nat) (produce : nat -> result E C)
    (consume : S -> nat -> C -> result E S) (s0 : S) : result E S;
  run_chunks_outcome {C E S} count workers (produce : nat -> result E C) (consume : S -> nat -> C -> result E S) s0 :
    ordered_chunks count workers produce consume s0 (run_chunks count workers produce consume s0);
}.

(** A client gets the serial loop's result from any runner. *)
Lemma run_chunks_iff `{ChunkRunner} {C E S} count workers (produce : nat -> result E C)
    (consume : S -> nat -> C -> result E S) s0 s :
  run_chunks count workers produce consume s0 = Ok s ↔ serial_chunks count produce consume s0 = Ok s.
Proof. apply ordered_chunks_iff with (workers := workers), run_chunks_outcome. Qed.
Lemma run_chunks_ok `{ChunkRunner} {C E S} count workers (produce : nat -> result E C)
    (consume : S -> nat -> C -> result E S) s0 s :
  serial_chunks count produce consume s0 = Ok s → run_chunks count workers produce consume s0 = Ok s.
Proof. apply run_chunks_iff. Qed.

(** Without a usable pool every call is the serial loop. *)
#[export] Instance serial_runner : ChunkRunner := {|
  run_chunks _ _ _ count _ produce consume s0 := serial_chunks count produce consume s0;
  run_chunks_outcome _ _ _ count workers produce consume s0 := chunks_serial count workers produce consume s0;
|}.

(** * Witnesses *)

(** Two chunks; the second job reports before the first. *)
Definition example_produce (i : nat) : result string Z := Ok (Z.of_nat i + 10)%Z.
Definition example_consume (s : list Z) (i : nat) (c : Z) : result string (list Z) := Ok (s ++ [c]).
Definition example_outcome : result string (list Z) := Ok [10; 11]%Z.
Lemma example_run : ∃ r,
  rtc (step 2 2 example_produce example_consume) (start []) r ∧ run_phase r = Finished example_outcome.
Proof.
  eexists. split.
  - eapply rtc_l; [apply step_submit; reflexivity|].
    eapply rtc_l; [apply (step_report _ _ _ _ _ 1); vm_compute; reflexivity|].
    eapply rtc_l; [apply (step_report _ _ _ _ _ 0); vm_compute; reflexivity|].
    eapply rtc_l; [eapply step_take; reflexivity|].
    eapply rtc_l; [eapply step_consume; reflexivity|].
    eapply rtc_l; [apply step_submit; reflexivity|].
    eapply rtc_l; [eapply step_take; reflexivity|].
    eapply rtc_l; [eapply step_consume; reflexivity|].
    eapply rtc_l; [apply step_drain; reflexivity|]. apply rtc_refl.
  - reflexivity.
Qed.

Lemma ordered_chunks_serial_witness :
  ordered_chunks 2 2 example_produce example_consume [] example_outcome ∧
  serial_chunks 2 example_produce example_consume [] = example_outcome.
Proof.
  assert (ordered_chunks 2 2 example_produce example_consume [] example_outcome) as H.
  { destruct example_run as (r & Hr & Ho). by apply (chunks_pool _ _ _ _ _ r); [lia|..]. }
  split; [exact H|].
  exact (proj1 (proj1 (ordered_chunks_serial 2 2 example_produce example_consume [] example_outcome H) [10; 11]%Z) eq_refl).
Defined.
Lemma ordered_chunks_ends_witness :
  sn (step 2 2 example_produce example_consume) (start []).
Proof.
  refine (proj1 (ordered_chunks_ends 2 2 example_produce example_consume [] (start []) _ _)); [lia|apply rtc_refl].
Defined.
Lemma ordered_chunks_bounded_witness :
  ∃ r, rtc (step 2 2 example_produce example_consume) (start []) r ∧
    (size (run_running r) + size (run_ready r) ≤ 4)%nat.
Proof.
  destruct example_run as (r & Hr & _). exists r. split; [exact Hr|].
  refine (ordered_chunks_bounded 2 2 example_produce example_consume [] r _ Hr). lia.
Defined.
