(* ===== verification/RewardParallel.v ===== *)
(** The builder's parallel fold of the reward window and its ordered
    serialisation (crates/qbit-prism/src/lib.rs, [compute_prism_window_parallel]
    to [reward_manifest_sha256], and the array writer of
    crates/qbit-prism/src/parallel.rs).  The chunks go through any runner of
    [OrderedChunks]; the result is the serial one. *)
From Stdlib Require Import ZArith Lia Sorting.Sorted.
From Stdlib Require String.
From coqutil Require Import Byte.
From stdpp Require Import base list strings gmap sorting.
From S2P Require Import Prelude Order BTree Bytes Crates Payee PrismError PoolBuilder WindowCut RewardWindow OrderedChunks.

Open Scope Z_scope.

(** [slice[a..b]]: out of range is a panic. *)
Definition slice {A E} (l : list A) (a b : nat) : result E (list A) :=
  if (a <=? b)%nat && (b <=? length l)%nat then Ok (take (b - a) (drop a l))
  else Panic "range out of bounds".
(** [usize::div_ceil]. *)
Definition div_ceil {E} (a b : nat) : result E nat :=
  match b with O => Panic "attempt to divide by zero" | _ => Ok ((a + b - 1) / b)%nat end.

(** The counted difficulties, decided serially. *)
Fixpoint counted_amounts (remaining : Z) (eligible : list AcceptedShare) : list Z :=
  match eligible with
  | [] => []
  | share :: rest =>
      if remaining =? 0 then [] else
      let taken := Z.min (as_share_difficulty share) remaining in
      taken :: counted_amounts (remaining - taken) rest
  end.

Section parallel.
Context `{HexCrate, Sha256Crate, ChunkRunner}.

(** One chunk: its counted shares, their digest bytes, its partial weights. *)
Definition WindowChunk : Type := list CountedShare * list byte * list (MinerKey * Z).
Definition fold_share (acc : WindowChunk) (sc : AcceptedShare * Z) : result PrismError WindowChunk :=
  let '(chunk, digest_bytes, chunk_weights) := acc in
  let share := counted_share sc.1 sc.2 in
  chunk_weights ← add_weight chunk_weights (miner_key share) sc.2;
  Ok (chunk ++ [share], digest_bytes ++ update_slice_digest share, chunk_weights).
Definition produce_chunk (taken : list AcceptedShare) (counted : list Z) (chunk_len index : nat)
  : result PrismError WindowChunk :=
  let first := (index * chunk_len)%nat in
  let past := Nat.min ((index + 1) * chunk_len) (length taken) in
  shares ← slice taken first past;
  credited ← slice counted first past;
  try_fold fold_share ([], [], []) (zip shares credited).
(** The digest thread hashes the buffers in the order they were sent.  It ends
    only once the sender is dropped, so no send finds it stopped. *)
Definition merge_chunk (acc : WindowChunk) (index : nat) (chunk : WindowChunk)
  : result PrismError WindowChunk :=
  let '(counted_shares, digested, weights) := acc in
  let '(shares, digest_bytes, chunk_weights) := chunk in
  weights ← try_fold (fun weights kw => add_weight weights kw.1 kw.2) weights chunk_weights;
  Ok (counted_shares ++ shares, digested ++ digest_bytes, weights).

Definition compute_prism_window_parallel (shares : list AcceptedShare) (found_block : FoundBlock)
    (cut : option WindowCut) (parallelism : Parallelism) : result PrismError (PrismWindow * string) :=
  '(eligible, requested_window_weight) ← eligible_window shares found_block cut;
  let counted := counted_amounts requested_window_weight eligible in
  match counted with
  | [] => Err (EmptyWindow (fb_anchor_job_issued_at_ms found_block))
  | _ :: _ =>
      counted_window_weight ← try_fold (fun sum taken =>
          ok_or (checked_add U128 sum taken) WindowOverflow) 0 counted;
      taken ← slice eligible 0 (length counted);
      anchor ← expect (head taken) "index out of bounds";
      let chunk_len := Z.to_nat (Z.min (par_chunk_len parallelism) (Z.of_nat (length taken))) in
      chunks ← div_ceil (length taken) chunk_len;
      '(counted_shares, digested, weights) ←
        run_chunks chunks (Z.to_nat (par_workers parallelism))
          (produce_chunk taken counted chunk_len) merge_chunk ([], [], []);
      Ok ({| pw_anchor_job_issued_at_ms := fb_anchor_job_issued_at_ms found_block;
             pw_anchor_share_seq := as_share_seq anchor;
             pw_requested_window_weight := requested_window_weight;
             pw_counted_window_weight := counted_window_weight;
             pw_shares := counted_shares; pw_entitlements := entitlement_of <$> weights |},
          hex_encode (sha256 digested))
  end.

Definition build_prism_reward_manifest_parallel (shares : list AcceptedShare)
    (found_block : FoundBlock) (cut : option WindowCut) (parallelism : Parallelism)
  : result PrismError PrismRewardManifest :=
  if is_serial parallelism then build_prism_reward_manifest_with_cut shares found_block cut else
  '(window, share_slice_digest_hex) ← compute_prism_window_parallel shares found_block cut parallelism;
  newest ← expect (head (pw_shares window)) "index out of bounds";
  oldest ← expect (last (pw_shares window)) "non-empty PRISM windows have a last share";
  Ok {| rm_schema := "qbit.prism.reward-manifest.v1";
        rm_block_height := fb_block_height found_block;
        rm_coinbase_value_sats := fb_coinbase_value_sats found_block;
        rm_network_difficulty := fb_network_difficulty found_block;
        rm_window_multiplier := PRISM_WINDOW_MULTIPLIER;
        rm_requested_window_weight := pw_requested_window_weight window;
        rm_counted_window_weight := pw_counted_window_weight window;
        rm_anchor_job_issued_at_ms := pw_anchor_job_issued_at_ms window;
        rm_anchor_share_seq := pw_anchor_share_seq window;
        rm_newest_share_seq := cs_share_seq newest;
        rm_oldest_share_seq := cs_share_seq oldest;
        rm_cut := cut;
        rm_included_share_count := Z.of_nat (length (pw_shares window));
        rm_share_slice_digest_hex := share_slice_digest_hex;
        rm_shares := pw_shares window;
        rm_entitlements := pw_entitlements window |}.
End parallel.

(** * The fold's parts *)
Lemma counted_amounts_length remaining el : (length (counted_amounts remaining el) ≤ length el)%nat.
Proof.
  revert remaining. induction el as [|s el IH]; intros remaining; cbn; [done|].
  destruct (_ =? 0); cbn; [lia|]. specialize (IH (remaining - Z.min (as_share_difficulty s) remaining)). lia.
Qed.
Lemma counted_amounts_shares remaining el :
  zip_with counted_share (take (length (counted_amounts remaining el)) el) (counted_amounts remaining el) =
  count_shares remaining el.
Proof.
  revert remaining. induction el as [|s el IH]; intros remaining; cbn; [done|].
  destruct (_ =? 0); cbn; [done|]. by rewrite IH.
Qed.
Lemma counted_amounts_eq remaining el :
  counted_amounts remaining el = cs_counted_difficulty <$> count_shares remaining el.
Proof.
  revert remaining. induction el as [|s el IH]; intros remaining; cbn; [done|].
  destruct (_ =? 0); cbn; [done|]. by rewrite IH.
Qed.
Lemma count_shares_length remaining el :
  length (count_shares remaining el) = length (counted_amounts remaining el).
Proof. by rewrite counted_amounts_eq, length_fmap. Qed.

Lemma slice_Ok {A E} (l : list A) a b :
  (a ≤ b ≤ length l)%nat → @slice A E l a b = Ok (take (b - a) (drop a l)).
Proof. intros H. unfold slice. rewrite !(proj2 (Nat.leb_le _ _)) by lia. done. Qed.

Lemma fold_share_Ok l shares bytes m :
  weights_of shares m → Forall (fun c => 0 ≤ cs_counted_difficulty c) (shares ++ (uncurry counted_share <$> l)) →
  fits U128 (sum_of cs_counted_difficulty (shares ++ (uncurry counted_share <$> l))) = true →
  ∃ m', try_fold fold_share (shares, bytes, m) l =
      Ok (shares ++ (uncurry counted_share <$> l), bytes ++ ((uncurry counted_share <$> l) ≫= update_slice_digest), m') ∧
    weights_of (shares ++ (uncurry counted_share <$> l)) m'.
Proof.
  revert shares bytes m. induction l as [|[s c] l IH]; intros shares bytes m Hm Hpos Hfit.
  { exists m. cbn. by rewrite !app_nil_r. }
  rewrite fmap_cons in *. cbn [uncurry] in *. rewrite cons_middle, app_assoc in Hpos, Hfit.
  pose proof Hpos as [Hp1 Hp2]%Forall_app. pose proof Hp1 as [Hp0 Hc]%Forall_app.
  inversion Hc as [|?? Hc' _]; subst. cbn in Hc'. rewrite Forall_forall in Hp2.
  pose proof (sum_of_nonneg cs_counted_difficulty _ Hp2) as Hnn.
  pose proof (sum_of_nonneg cs_counted_difficulty shares) as Hnn'. rewrite Forall_forall in Hp0. specialize (Hnn' Hp0).
  destruct (add_weight_total shares m (miner_key (counted_share s c)) c) as [m1 H1]; [done|done|by apply Forall_forall| |].
  { rewrite !sum_of_app, sum_of_cons, sum_of_nil in Hfit. cbn in Hfit. widths. }
  cbn. rewrite H1. cbn.
  destruct (IH (shares ++ [counted_share s c]) (bytes ++ update_slice_digest (counted_share s c)) m1) as (m' & Hf & Hw);
    [|done|done|].
  { eapply add_weight_spec; [done|done|by constructor| |done]. rewrite sum_of_cons, sum_of_nil. cbn. lia. }
  exists m'. rewrite Hf. rewrite <- !app_assoc in *. by split.
Qed.

(** Merging one chunk's partial weights. *)
Lemma merge_weights_Ok m mc :
  bt_wf string_triple_cmp m → bt_wf string_triple_cmp mc →
  (∀ k v, bt_get string_triple_cmp k mc = Some v →
     fits U128 (default 0 (bt_get string_triple_cmp k m) + v) = true) →
  ∃ m', try_fold (fun weights kw => add_weight weights kw.1 kw.2) m mc = Ok m' ∧
    bt_wf string_triple_cmp m' ∧
    ∀ k, bt_get string_triple_cmp k m' =
      match bt_get string_triple_cmp k mc with
      | Some v => Some (default 0 (bt_get string_triple_cmp k m) + v)
      | None => bt_get string_triple_cmp k m
      end.
Proof.
  revert m. induction mc as [|[k0 v0] mc IH]; intros m Hm Hmc Hfit.
  { exists m. by split_and!. }
  pose proof (bt_wf_NoDup string_triple_cmp _ Hmc) as Hnd. cbn in Hnd. apply NoDup_cons in Hnd as [Hk0 _].
  pose proof (proj2 (bt_get_None string_triple_cmp k0 mc) Hk0) as Hnone.
  apply StronglySorted_inv in Hmc as [Hmc Hlt].
  cbn [try_fold]. unfold add_weight at 2. cbn [fst snd]. unfold checked_add.
  rewrite checked_fits by (apply Hfit; apply (bt_get_cons_eq string_triple_cmp)). cbn [ok_or mbind result_bind].
  set (m1 := bt_insert _ _ _ _). 
  destruct (IH m1) as (m' & Hf & Hw & Hg).
  - by apply (bt_insert_wf string_triple_cmp).
  - done.
  - intros k v Hkv. assert (k ≠ k0) as Hk by congruence.
    unfold m1. rewrite (bt_get_insert_ne string_triple_cmp) by done. apply Hfit.
    by rewrite (bt_get_cons_ne string_triple_cmp).
  - exists m'. split_and!; [done|done|]. intros k. rewrite Hg. destruct (decide (k = k0)) as [->|Hk].
    + rewrite Hnone, (bt_get_cons_eq string_triple_cmp). unfold m1. by rewrite (bt_get_insert_eq string_triple_cmp).
    + rewrite (bt_get_cons_ne string_triple_cmp) by done. unfold m1. by rewrite (bt_get_insert_ne string_triple_cmp) by done.
Qed.

Lemma merge_weights_of prev chunk m mc :
  weights_of prev m → weights_of chunk mc →
  Forall (fun c => 0 ≤ cs_counted_difficulty c) (prev ++ chunk) →
  fits U128 (sum_of cs_counted_difficulty (prev ++ chunk)) = true →
  ∃ m', try_fold (fun weights kw => add_weight weights kw.1 kw.2) m mc = Ok m' ∧ weights_of (prev ++ chunk) m'.
Proof.
  intros Hm Hmc Hpos Hfit. rewrite Forall_forall in Hpos.
  assert (∀ k, 0 ≤ key_weight k (prev ++ chunk) ≤ sum_of cs_counted_difficulty (prev ++ chunk)) as Hkw.
  { intros k. split; [apply sum_of_nonneg|apply sum_of_le]; intros s Hs; specialize (Hpos s Hs); case_decide; lia. }
  destruct (merge_weights_Ok m mc) as (m' & Hf & Hw & Hg); [apply Hm|apply Hmc| |].
  - intros k v Hkv. rewrite (weights_of_default _ _ _ Hm). rewrite (proj2 Hmc) in Hkv.
    case_decide; [|done]. injection Hkv as <-. rewrite <- key_weight_app. specialize (Hkw k). widths.
  - exists m'. split; [done|]. split; [done|]. intros k. rewrite Hg, (weights_of_default _ _ _ Hm).
    rewrite (proj2 Hmc), (proj2 Hm), fmap_app, key_weight_app.
    destruct (decide (k ∈ miner_key <$> chunk)) as [Hk|Hk].
    + rewrite decide_True by (apply elem_of_app; by right). done.
    + rewrite (key_weight_notin k chunk Hk), Z.add_0_r. repeat case_decide; set_solver.
Qed.

(** * The chunks in order *)
Section chunks.
Context (taken : list AcceptedShare) (counted : list Z) (chunk_len : nat).
Context (Hlen : length taken = length counted) (Hchunk : (0 < chunk_len)%nat).
Let cs : list CountedShare := zip_with counted_share taken counted.
Context (Hpos : Forall (fun c => 0 ≤ cs_counted_difficulty c) cs).
Context (Hfit : fits U128 (sum_of cs_counted_difficulty cs) = true).

Lemma cs_length : length cs = length taken.
Proof. unfold cs. rewrite length_zip_with. lia. Qed.

Lemma sum_piece l1 l2 l3 :
  cs = l1 ++ l2 ++ l3 →
  Forall (fun c => 0 ≤ cs_counted_difficulty c) (l1 ++ l2) ∧ fits U128 (sum_of cs_counted_difficulty (l1 ++ l2)) = true ∧
  Forall (fun c => 0 ≤ cs_counted_difficulty c) l2 ∧ fits U128 (sum_of cs_counted_difficulty l2) = true.
Proof.
  intros Heq. clear Hlen. revert Hpos Hfit. rewrite Heq. clear Heq. rewrite app_assoc.
  intros [H12 H3]%Forall_app Hf. pose proof H12 as [H1 H2]%Forall_app.
  assert (∀ l, Forall (fun c => 0 ≤ cs_counted_difficulty c) l → 0 ≤ sum_of cs_counted_difficulty l) as Hnn.
  { intros l Hl. apply sum_of_nonneg. by rewrite <- Forall_forall. }
  pose proof (Hnn _ H1). pose proof (Hnn _ H2). pose proof (Hnn _ H3). rewrite !sum_of_app in *.
  split_and!; [done|widths|done|widths].
Qed.

Lemma produce_chunk_Ok n :
  (n * chunk_len < length taken)%nat →
  ∃ m, produce_chunk taken counted chunk_len n =
      Ok (take chunk_len (drop (n * chunk_len) cs), take chunk_len (drop (n * chunk_len) cs) ≫= update_slice_digest, m) ∧
    weights_of (take chunk_len (drop (n * chunk_len) cs)) m.
Proof.
  intros Hn. unfold produce_chunk.
  set (b := Nat.min ((n + 1) * chunk_len) (length taken)). set (a := (n * chunk_len)%nat) in *.
  assert (a ≤ b)%nat by (unfold a, b; lia).
  rewrite !slice_Ok by (unfold b; lia). cbn [mbind result_bind].
  assert (uncurry counted_share <$> zip (take (b - a) (drop a taken)) (take (b - a) (drop a counted)) =
    take chunk_len (drop a cs)) as Hcs.
  { rewrite <- zip_with_zip, <- zip_with_take, <- zip_with_drop. fold cs.
    destruct (decide (chunk_len ≤ length taken - a)%nat).
    - f_equal. unfold b, a in *. lia.
    - rewrite !take_ge; [done|rewrite length_drop, cs_length; lia..]. }
  destruct (fold_share_Ok (zip (take (b - a) (drop a taken)) (take (b - a) (drop a counted))) [] [] [] weights_of_nil)
    as (m & Hf & Hw).
  - cbn [app]. rewrite Hcs. eapply (sum_piece (take a cs) _ (drop chunk_len (drop a cs))). by rewrite !take_drop.
  - cbn [app]. rewrite Hcs. eapply (sum_piece (take a cs) _ (drop chunk_len (drop a cs))). by rewrite !take_drop.
  - exists m. cbn [app] in Hf, Hw. rewrite Hcs in *. done.
Qed.

Lemma chunks_serial_fold n :
  ((n - 1) * chunk_len < length taken)%nat →
  ∃ m, serial_chunks n (produce_chunk taken counted chunk_len) merge_chunk ([], [], []) =
      Ok (take (n * chunk_len) cs, take (n * chunk_len) cs ≫= update_slice_digest, m) ∧
    weights_of (take (n * chunk_len) cs) m.
Proof.
  induction n as [|n IH]; intros Hn. { exists []. split; [done|apply weights_of_nil]. }
  replace (S n - 1)%nat with n in Hn by lia.
  destruct IH as (m & Hs & Hm); [destruct n; cbn in *; lia|].
  destruct (produce_chunk_Ok n Hn) as (mc & Hp & Hmc).
  assert (take (S n * chunk_len) cs = take (n * chunk_len) cs ++ take chunk_len (drop (n * chunk_len) cs)) as Htake.
  { replace (S n * chunk_len)%nat with (n * chunk_len + chunk_len)%nat by lia. apply take_plus. }
  destruct (merge_weights_of (take (n * chunk_len) cs) (take chunk_len (drop (n * chunk_len) cs)) m mc) as (m' & Hf & Hm'); [done|done| | |].
  1, 2: eapply (sum_piece (take (n * chunk_len) cs) (take chunk_len (drop (n * chunk_len) cs)) (drop chunk_len (drop (n * chunk_len) cs))); by rewrite !take_drop.
  exists m'. unfold serial_chunks in *. replace (S n) with (n + 1)%nat by lia.
  rewrite (prefix_snoc _ _ _ n). unfold WindowChunk in *. rewrite Hs. cbn [mbind result_bind]. rewrite Hp. cbn [mbind result_bind].
  unfold merge_chunk. rewrite Hf. cbn [mbind result_bind]. replace (n + 1)%nat with (S n) by lia.
  rewrite Htake, bind_app. done.
Qed.
End chunks.

(** * The parallel fold is the serial fold *)
Lemma count_shares_nonneg remaining el :
  0 ≤ remaining → Forall (fun s => 0 < as_share_difficulty s) el →
  Forall (fun c => 0 ≤ cs_counted_difficulty c) (count_shares remaining el).
Proof.
  revert remaining. induction el as [|s el IH]; intros remaining Hr Hpos; cbn; [constructor|].
  inversion Hpos as [|?? Hs Hel]; subst. destruct (_ =? 0); constructor; cbn; [lia|]. apply IH; [lia|done].
Qed.

Lemma div_ceil_covers n len :
  (0 < n)%nat → (0 < len ≤ n)%nat →
  ∃ chunks, @div_ceil PrismError n len = Ok chunks ∧ ((chunks - 1) * len < n)%nat ∧ (n ≤ chunks * len)%nat.
Proof.
  intros Hn Hlen. exists ((n + len - 1) / len)%nat. unfold div_ceil. destruct len as [|len]; [lia|].
  split; [done|]. set (b := S len) in *. pose proof (Nat.div_mod_eq (n + b - 1) b).
  pose proof (Nat.mod_upper_bound (n + b - 1) b ltac:(lia)). split; nia.
Qed.

Section equivalence.
Context `{HexCrate, Sha256Crate, ChunkRunner}.

Lemma parallel_fold_Ok taken counted chunk_len workers :
  length taken = length counted → taken ≠ [] → (0 < chunk_len ≤ length taken)%nat →
  let cs := zip_with counted_share taken counted in
  Forall (fun c => 0 ≤ cs_counted_difficulty c) cs → fits U128 (sum_of cs_counted_difficulty cs) = true →
  ∃ m, (chunks ← div_ceil (length taken) chunk_len;
        run_chunks chunks workers (produce_chunk taken counted chunk_len) merge_chunk ([], [], [])) =
       Ok (cs, cs ≫= update_slice_digest, m) ∧ weights_of cs m.
Proof.
  intros Hlen Hne Hchunk cs Hpos Hfit.
  destruct (div_ceil_covers (length taken) chunk_len) as (chunks & -> & Hlast & Hcover);
    [destruct taken; [done|cbn; lia]|lia|]. cbn [mbind result_bind].
  destruct (chunks_serial_fold taken counted chunk_len Hlen ltac:(lia) Hpos Hfit chunks Hlast) as (m & Hs & Hm).
  fold cs in Hs, Hm. rewrite (take_ge cs) in Hs, Hm by (unfold cs; rewrite length_zip_with; lia).
  exists m. split; [|done]. by apply run_chunks_ok.
Qed.

Lemma compute_parallel_serial shares fb cut p :
  Forall wf_share shares → wf_found fb → 1 ≤ par_chunk_len p →
  compute_prism_window_parallel shares fb cut p =
  (w ← compute_prism_window_in_cut shares fb cut; Ok (w, share_slice_digest_hex (pw_shares w))).
Proof.
  intros Hwf Hfb Hp. unfold compute_prism_window_parallel, compute_prism_window_in_cut.
  destruct (eligible_window shares fb cut) as [[el req]|e|m] eqn:Hel; cbn [mbind result_bind]; [|done..].
  apply eligible_window_Ok in Hel as (Hnd & Hadm & -> & -> & Hfit). fold (eligible_shares fb shares).
  set (el := eligible_shares fb shares). set (req := fb_network_difficulty fb * PRISM_WINDOW_MULTIPLIER) in *.
  pose proof (eligible_positive cut fb shares Hwf Hadm) as Hpos. fold el in Hpos.
  assert (0 ≤ req) as Hreq by widths. pose proof (count_shares_nonneg req el Hreq Hpos) as Hnn.
  pose proof (counted_amounts_length req el) as Hle. pose proof (counted_amounts_shares req el) as Hzip.
  pose proof (count_shares_length req el) as Hlen. set (counted := counted_amounts req el) in *.
  destruct counted as [|c0 counted'] eqn:Hcounted; [by destruct (count_shares req el)|].
  destruct (count_shares req el) as [|first rest] eqn:Hcs; [done|]. rewrite <- Hcs, <- Hcounted in *.
  replace counted with (cs_counted_difficulty <$> count_shares req el) at 1
    by (unfold counted; by rewrite counted_amounts_eq).
  rewrite try_fold_fmap.
  destruct (try_fold _ 0 (count_shares req el)) as [total|e|m] eqn:Hsum; cbn [mbind result_bind]; [|done..].
  pose proof (try_sum_fits U128 WindowOverflow _ _ 0 _ eq_refl Hsum) as Hsfit. apply try_sum_Ok in Hsum as ->.
  rewrite slice_Ok by lia. rewrite Nat.sub_0_r, drop_0. cbn [mbind result_bind].
  set (taken := take (length counted) el) in *.
  assert (length taken = length counted) as Htl by (unfold taken; rewrite length_take; lia).
  assert (∃ s0 taken', taken = s0 :: taken' ∧ as_share_seq s0 = cs_share_seq first) as (s0 & taken' & Ht & Hseq).
  { rewrite Hcs, Hcounted in Hzip. destruct taken as [|s0 taken']; [done|]. injection Hzip as <- _. eauto. }
  rewrite Ht at 1. cbn [head expect mbind result_bind].
  destruct (parallel_fold_Ok taken counted (Z.to_nat (Z.min (par_chunk_len p) (Z.of_nat (length taken))))
    (Z.to_nat (par_workers p))) as (m & Hrun & Hm); [done|by rewrite Ht|rewrite Ht; cbn [length]; lia|by rewrite Hzip|by rewrite Hzip|].
  rewrite Hzip in Hrun, Hm. apply bind_Ok in Hrun as (chunks & -> & Hrun). cbn [mbind result_bind].
  unfold WindowChunk in *. rewrite Hrun. cbn [mbind result_bind].
  unfold aggregate_entitlements.
  destruct (aggregate_total [] (count_shares req el) [] weights_of_nil Hnn Hsfit) as [m' Hm'].
  rewrite Hm'. cbn [mbind result_bind]. apply (aggregate_fold []) in Hm'; [|apply weights_of_nil]. cbn [app] in Hm'.
  rewrite (weights_of_unique _ _ _ Hm Hm'), Hseq. done.
Qed.

Lemma parallel_manifest_eq shares fb cut p :
  Forall wf_share shares → wf_found fb → 1 ≤ par_chunk_len p →
  build_prism_reward_manifest_parallel shares fb cut p = build_prism_reward_manifest_with_cut shares fb cut.
Proof.
  intros Hwf Hfb Hp. unfold build_prism_reward_manifest_parallel, build_prism_reward_manifest_with_cut.
  destruct (is_serial p); [done|]. rewrite compute_parallel_serial by done.
  by destruct (compute_prism_window_in_cut shares fb cut).
Qed.

(** C30: The reward manifest the builder makes on worker threads is the one the
    serial code makes, for every parallelism, every schedule of the pool and
    every input, errors included. *)
Theorem parallel_manifest_serial shares fb cut p :
  Forall wf_share shares → wf_found fb → 1 ≤ par_chunk_len p →
  build_prism_reward_manifest_parallel shares fb cut p = build_prism_reward_manifest_with_cut shares fb cut.
Proof. apply parallel_manifest_eq. Qed.
End equivalence.

(** Parallelism values always have a positive chunk length. *)
Lemma new_parallelism_chunk_len workers chunk_len : 1 ≤ par_chunk_len (new_parallelism workers chunk_len).
Proof. cbn. lia. Qed.
Lemma detect_chunk_len threads : 1 ≤ par_chunk_len (detect threads).
Proof. unfold detect. destruct (threads =? 0); cbn; lia. Qed.

(** * Witnesses *)
Lemma parallel_manifest_serial_witness :
  build_prism_reward_manifest_parallel example_shares example_block None (new_parallelism 4 1) =
  build_prism_reward_manifest_with_cut example_shares example_block None.
Proof.
  apply parallel_manifest_serial; [exact example_shares_wf|exact example_block_wf|cbn; lia].
Defined.
(** Three chunks of one share each, through the runner. *)
Example example_parallel_window :
  is_serial (new_parallelism 4 1) = false ∧
  (w ← compute_prism_window_parallel example_shares example_block None (new_parallelism 4 1);
   Ok (map (fun c => (cs_share_id c, cs_counted_difficulty c)) (pw_shares w.1),
       map (fun e => (we_recipient_id e, we_weight e)) (pw_entitlements w.1)))
  = Ok ([("s3", 30); ("s2", 40); ("s1", 10)], [("alice", 40); ("bob", 40)]).
Proof. vm_compute. done. Qed.
