(* ===== verification/OrderedJson.v ===== *)
(** Canonical JSON written in ordered chunks (crates/qbit-prism/src/parallel.rs,
    [write_array] and [StructSplice], and [write_reward_manifest] of
    crates/qbit-prism/src/lib.rs).  Struct framing follows the derived
    serialisers; the values themselves are written by [serde_json]. *)
From Stdlib Require Import ZArith Lia.
From Stdlib Require String.
From coqutil Require Import Byte.
From stdpp Require Import base list strings sets.
From S2P Require Import Prelude Bytes Crates PrismError PoolBuilder WindowCut RewardWindow PagedWindow OrderedChunks RewardParallel.

Open Scope Z_scope.
#[local] Arguments Nat.ltb : simpl never.

Definition open_bracket : byte := byte.of_Z 0x5b.
Definition close_bracket : byte := byte.of_Z 0x5d.
Definition open_brace : byte := byte.of_Z 0x7b.
Definition close_brace : byte := byte.of_Z 0x7d.
Definition colon : byte := byte.of_Z 0x3a.

(** [serde_json::to_writer] into a growing buffer. *)
Definition to_writer {A} `{ToJson A} (a : A) : result string (list byte) :=
  match json_to_vec a with inl e => Err e | inr bytes => Ok bytes end.

(** [serde_json] writes a sequence as its elements between brackets, with a
    comma between two, and stops at the first element that fails. *)
Class JsonArray (A : Type) `{ToJson A, ToJson (list A)} : Prop := {
  json_array_framing (items : list A) :
    to_writer items = (parts ← collect to_writer items; Ok ([open_bracket] ++ joined parts ++ [close_bracket]));
}.

(** * Arrays *)
Section arrays.
Context `{ChunkRunner}.
Context {A : Type} `{!ToJson A, !ToJson (list A)}.

Definition push_item (index : nat) (buffer : list byte) (pi : nat * A) : result string (list byte) :=
  let '(position, item) := pi in
  bytes ← to_writer item;
  Ok (buffer ++ separator ((0 <? position)%nat || (0 <? index)%nat) ++ bytes).
Definition array_chunk (items : list A) (chunk_len index : nat) : result string (list byte) :=
  chunk ← slice items (index * chunk_len) (Nat.min ((index + 1) * chunk_len) (length items));
  try_fold (push_item index) [] (imap pair chunk).
(** The frames as they reach the writer, one after another. *)
Definition write_array_frames (items : list A) (parallelism : Parallelism) : result string (list byte) :=
  let chunk_len :=
    Z.to_nat (Z.max 1 (Z.min (par_chunk_len parallelism) (Z.of_nat (length items)))) in
  if is_serial parallelism || (length items <=? chunk_len)%nat then to_writer items else
  chunks ← div_ceil (length items) chunk_len;
  body ← run_chunks chunks (Z.to_nat (par_workers parallelism)) (array_chunk items chunk_len)
           (fun written _ buffer => Ok (written ++ buffer)) [open_bracket];
  Ok (body ++ [close_bracket]).
Definition write_array (items : list A) (parallelism : Parallelism) : result string (list byte) :=
  if is_serial parallelism || (Z.of_nat (length items) <=? par_chunk_len parallelism)
  then to_writer items else write_array_frames items parallelism.

(** ** Chunks *)
Definition after_comma (parts : list (list byte)) : list byte := parts ≫= (fun p => comma :: p).
Lemma joined_after p1 p2 : p1 ≠ [] → joined (p1 ++ p2) = joined p1 ++ after_comma p2.
Proof.
  intros Hne. rewrite joined_app. f_equal. destruct p1 as [|x p1]; [done|]. cbn [nonempty andb]. clear.
  induction p2 as [|y p2 IH]; [done|]. cbn in *. by rewrite IH.
Qed.

Lemma push_items_from index l position buffer :
  (0 < position)%nat ∨ (0 < index)%nat →
  try_fold (push_item index) buffer (imap (fun i x => (position + i, x))%nat l) =
  (parts ← collect to_writer l; Ok (buffer ++ after_comma parts)).
Proof.
  revert position buffer. induction l as [|x l IH]; intros position buffer Hp; cbn [imap try_fold collect].
  { cbn. by rewrite app_nil_r. }
  cbn. rewrite Nat.add_0_r. destruct (to_writer x) as [bytes|e|m]; cbn; [|done..].
  rewrite (imap_ext _ (fun i x => (S position + i, x))%nat) by (intros; cbn; f_equal; lia).
  rewrite IH by lia. destruct (collect to_writer l) as [parts|e|m]; cbn; [|done..].
  assert ((0 <? position)%nat || (0 <? index)%nat = true) as ->.
  { destruct Hp as [Hp|Hp]; apply Nat.ltb_lt in Hp; rewrite Hp; [done|by rewrite orb_true_r]. }
  cbn. by rewrite <- app_assoc.
Qed.
Lemma push_items_joined index l :
  try_fold (push_item index) [] (imap pair l) =
  (parts ← collect to_writer l; Ok (if (0 <? index)%nat then after_comma parts else joined parts)).
Proof.
  destruct (Nat.ltb_spec 0 index) as [Hi|Hi].
  { rewrite (imap_ext pair (fun i x => (0 + i, x))%nat) by done. by rewrite push_items_from by (by right). }
  destruct l as [|x l]; [done|]. assert (index = 0%nat) as -> by lia. cbn.
  destruct (to_writer x) as [bytes|e|m]; cbn; [|done..].
  rewrite (imap_ext _ (fun i x => (1 + i, x))%nat) by done.
  rewrite push_items_from by (left; lia). destruct (collect to_writer l) as [parts|e|m]; cbn; [|done..].
  f_equal. change (bytes ++ separator (nonempty parts) ++ joined parts) with (joined ([bytes] ++ parts)).
  rewrite joined_after by done. cbn. by rewrite app_nil_r.
Qed.

Lemma array_chunk_eq items chunk_len n :
  (n * chunk_len < length items)%nat →
  array_chunk items chunk_len n =
  (parts ← collect to_writer (take chunk_len (drop (n * chunk_len) items));
   Ok (if (0 <? n)%nat then after_comma parts else joined parts)).
Proof.
  intros Hn. unfold array_chunk. set (a := (n * chunk_len)%nat) in *.
  rewrite slice_Ok by (unfold a in *; nia). cbn [mbind result_bind]. rewrite push_items_joined.
  replace (take (Nat.min ((n + 1) * chunk_len) (length items) - a) (drop a items)) with (take chunk_len (drop a items)); [done|].
  destruct (decide (chunk_len ≤ length items - a)%nat).
  - f_equal. unfold a in *. nia.
  - rewrite !take_ge; [done|rewrite length_drop; unfold a in *; nia..].
Qed.

Lemma array_chunks_serial items chunk_len n :
  (0 < chunk_len)%nat → ((n - 1) * chunk_len < length items)%nat →
  serial_chunks n (array_chunk items chunk_len) (fun written _ buffer => Ok (written ++ buffer)) [open_bracket] =
  (parts ← collect to_writer (take (n * chunk_len) items); Ok ([open_bracket] ++ joined parts)).
Proof.
  intros Hc. induction n as [|n IH]; intros Hn; [done|].
  unfold serial_chunks in *. replace (S n) with (n + 1)%nat by lia.
  rewrite (prefix_snoc _ _ _ n), IH by (destruct n; cbn in *; lia).
  rewrite array_chunk_eq by (replace (S n - 1)%nat with n in Hn by lia; done).
  replace ((n + 1) * chunk_len)%nat with (n * chunk_len + chunk_len)%nat by lia.
  rewrite take_plus, collect_app.
  destruct (collect to_writer (take (n * chunk_len) items)) as [p1|e|m] eqn:H1; cbn [mbind result_bind]; [|done..].
  destruct (collect to_writer (take chunk_len (drop (n * chunk_len) items))) as [p2|e|m]; cbn [mbind result_bind]; [|done..].
  destruct (Nat.ltb_spec 0 n) as [Hpos|Hz].
  - rewrite joined_after; [by rewrite <- app_assoc|]. apply collect_length in H1. rewrite length_take in H1.
    intros ->. cbn in H1. nia.
  - assert (n = 0%nat) as -> by lia. cbn in H1. injection H1 as <-. done.
Qed.

Lemma write_frames_iff `{!JsonArray A} items p bytes :
  write_array_frames items p = Ok bytes ↔ to_writer items = Ok bytes.
Proof.
  unfold write_array_frames. set (chunk_len := Z.to_nat _).
  destruct (is_serial p || (length items <=? chunk_len)%nat) eqn:Hser; [done|].
  apply orb_false_iff in Hser as [_ Hlen]. apply Nat.leb_gt in Hlen.
  assert (0 < chunk_len)%nat by (unfold chunk_len; lia).
  destruct (div_ceil_covers (length items) chunk_len) as (chunks & Hdiv & Hlast & Hcover); [lia|lia|].
  assert (@div_ceil string (length items) chunk_len = Ok chunks) as -> by (unfold div_ceil in *; destruct chunk_len; congruence).
  cbn [mbind result_bind]. rewrite json_array_framing.
  pose proof (array_chunks_serial items chunk_len chunks ltac:(lia) Hlast) as Hs. rewrite take_ge in Hs by lia.
  rewrite bind_Ok. setoid_rewrite run_chunks_iff. rewrite Hs. rewrite bind_Ok. split.
  - intros (body & (parts & Hp & [= <-])%bind_Ok & [= <-]). exists parts. split; [done|]. done.
  - intros (parts & Hp & [= <-]). exists ([open_bracket] ++ joined parts). split; [|done].
    apply bind_Ok. eauto.
Qed.
Lemma write_array_iff `{!JsonArray A} items p bytes : write_array items p = Ok bytes ↔ to_writer items = Ok bytes.
Proof. unfold write_array. destruct (_ || _); [done|]. apply write_frames_iff. Qed.
End arrays.

(** * Structs *)

(** A field as the derived serialiser hands it over: its name and the bytes
    [serde_json] writes for its value.  Skipped fields are not handed over. *)
Definition Field : Type := string * result string (list byte).
Section structs.
Context `{ToJson string}.

Definition write_field (acc : list byte * bool) (f : Field) : result string (list byte * bool) :=
  let '(out, first) := acc in
  key ← to_writer f.1;
  value ← f.2;
  Ok (out ++ separator (negb first) ++ key ++ [colon] ++ value, false).
(** The compact object [serde_json] writes for a struct. *)
Definition json_object (opening : list byte) (fields : list Field) : result string (list byte) :=
  '(out, _) ← try_fold write_field (opening, true) fields;
  Ok (out ++ [close_brace]).

(** [SpliceFields::serialize_field]: the named field's bytes come from
    [splice], which may be taken once. *)
Definition splice_field (field : string) (acc : list byte * bool * option (result string (list byte)))
    (f : Field) : result string (list byte * bool * option (result string (list byte))) :=
  let '(out, first, splice) := acc in
  key ← to_writer f.1;
  let out := out ++ separator (negb first) ++ key ++ [colon] in
  if String.eqb f.1 field then
    match splice with
    | Some spliced => value ← spliced; Ok (out ++ value, false, None)
    | None => Err "spliced field serialized twice"
    end
  else value ← f.2; Ok (out ++ value, false, splice).
Definition splice_object (opening : list byte) (field : string) (spliced : result string (list byte))
    (fields : list Field) : result string (list byte) :=
  '(out, _, _) ← try_fold (splice_field field) (opening, true, Some spliced) fields;
  Ok (out ++ [close_brace]).

(** Splicing the bytes a field would have written changes nothing. *)
Lemma splice_other field out first splice fields :
  field ∉ fields.*1 →
  try_fold (splice_field field) (out, first, splice) fields =
  ('(out, first) ← try_fold write_field (out, first) fields; Ok (out, first, splice)).
Proof.
  revert out first. induction fields as [|[k v] fields IH]; intros out first Hn; [done|].
  cbn in Hn. apply not_elem_of_cons in Hn as [Hk Hn]. cbn. destruct (to_writer k) as [key|e|m]; cbn; [|done..].
  destruct (String.eqb_spec k field) as [->|_]; [done|]. destruct v as [value|e|m]; cbn; [|done..].
  rewrite IH by done. by rewrite <- !app_assoc.
Qed.
Lemma splice_object_iff opening field spliced value before after bytes :
  field ∉ before.*1 → field ∉ after.*1 → (∀ b, spliced = Ok b ↔ value = Ok b) →
  splice_object opening field spliced (before ++ (field, value) :: after) = Ok bytes ↔
  json_object opening (before ++ (field, value) :: after) = Ok bytes.
Proof.
  intros Hb Ha Hv. unfold splice_object, json_object. rewrite !try_fold_app, splice_other by done.
  destruct (try_fold write_field (opening, true) before) as [[out first]|e|m]; cbn [mbind result_bind]; [|done..].
  cbn [try_fold splice_field write_field fst snd]. destruct (to_writer field) as [key|e|m]; cbn [mbind result_bind]; [|done..].
  rewrite String.eqb_refl.
  assert (∀ b, (r ← Ok (((out ++ separator (negb first) ++ key ++ [colon]) ++ b, false, None));
     try_fold (splice_field field) r after) =
    ('(o, f) ← try_fold write_field (out ++ separator (negb first) ++ key ++ [colon] ++ b, false) after; Ok (o, f, None))) as Hrest.
  { intros b. cbn [mbind result_bind]. rewrite splice_other by done. by rewrite <- !app_assoc. }
  destruct spliced as [b|e|m], value as [b'|e'|m']; cbn [mbind result_bind]; [|try done..].
  - injection (proj1 (Hv b) eq_refl) as <-. specialize (Hrest b'). cbn [mbind result_bind] in Hrest. rewrite Hrest.
    by destruct (try_fold write_field _ after) as [[? ?]|?|?].
  - discriminate (proj1 (Hv b) eq_refl).
  - discriminate (proj1 (Hv b) eq_refl).
  - discriminate (proj2 (Hv b') eq_refl).
  - discriminate (proj2 (Hv b') eq_refl).
Qed.

(** The two objects differ only in their opening byte. *)
Lemma json_object_opening opening opening' fields bytes :
  json_object (opening ++ opening') fields = Ok bytes ↔
  ∃ rest, json_object opening' fields = Ok rest ∧ bytes = opening ++ rest.
Proof.
  unfold json_object.
  assert (∀ out first, try_fold write_field (opening ++ out, first) fields =
    ('(o, f) ← try_fold write_field (out, first) fields; Ok (opening ++ o, f))) as Hfold.
  { induction fields as [|[k v] fields IH]; intros out first; [done|]. cbn.
    destruct (to_writer k) as [key|e|m]; cbn; [|done..]. destruct v as [value|e|m]; cbn; [|done..].
    by rewrite <- app_assoc, IH. }
  rewrite Hfold. destruct (try_fold write_field (opening', true) fields) as [[o f]|e|m]; cbn; [|naive_solver..].
  split; [intros [= <-]|intros (? & [= <-] & ->)]; [exists (o ++ [close_brace])|]; by rewrite <- app_assoc.
Qed.
End structs.

(** * The reward manifest *)

(** What [serde_json] writes for a struct: the object of its fields.  Writing
    into a buffer never panics, so the last case is only there for totality. *)
Definition object_to_vec `{ToJson string} (fields : list Field) : string + list byte :=
  match json_object [open_brace] fields with Ok bytes => inr bytes | Err e => inl e | Panic m => inl m end.
(** [skip_serializing_if = "Option::is_none"]. *)
Definition optional_field {A} `{ToJson A} (name : string) (o : option A) : list Field :=
  match o with Some a => [(name, to_writer a)] | None => [] end.

Section reward_manifest.
Context `{!ToJson string, !ToJson Z, !ToJson WindowCut, !ToJson CountedShare, !ToJson (list CountedShare)}.
Context `{!ToJson (list WeightedEntitlement)}.

Definition reward_manifest_head (m : PrismRewardManifest) : list Field :=
  [("schema", to_writer (rm_schema m));
   ("block_height", to_writer (rm_block_height m));
   ("coinbase_value_sats", to_writer (rm_coinbase_value_sats m));
   ("network_difficulty", to_writer (rm_network_difficulty m));
   ("window_multiplier", to_writer (rm_window_multiplier m));
   ("requested_window_weight", to_writer (rm_requested_window_weight m));
   ("counted_window_weight", to_writer (rm_counted_window_weight m));
   ("anchor_job_issued_at_ms", to_writer (rm_anchor_job_issued_at_ms m));
   ("anchor_share_seq", to_writer (rm_anchor_share_seq m));
   ("newest_share_seq", to_writer (rm_newest_share_seq m));
   ("oldest_share_seq", to_writer (rm_oldest_share_seq m))] ++
  optional_field "cut" (rm_cut m) ++
  [("included_share_count", to_writer (rm_included_share_count m));
   ("share_slice_digest_hex", to_writer (rm_share_slice_digest_hex m))].
Definition reward_manifest_fields (m : PrismRewardManifest) : list Field :=
  reward_manifest_head m ++ ("shares", to_writer (rm_shares m)) ::
  [("entitlements", to_writer (rm_entitlements m))].
#[export] Instance reward_manifest_json : ToJson PrismRewardManifest :=
  {| json_to_vec m := object_to_vec (reward_manifest_fields m) |}.

Context `{ChunkRunner, Sha256Crate}.
Definition write_reward_manifest (manifest : PrismRewardManifest) (parallelism : Parallelism) : result string (list byte) :=
  if is_serial parallelism then to_writer manifest else
  splice_object [open_brace] "shares" (write_array (rm_shares manifest) parallelism) (reward_manifest_fields manifest).
Definition reward_manifest_sha256 (manifest : PrismRewardManifest) (parallelism : Parallelism) : result string (list byte) :=
  bytes ← write_reward_manifest manifest parallelism; Ok (sha256 bytes).

Lemma object_to_vec_Ok fields bytes : object_to_vec fields = inr bytes ↔ json_object [open_brace] fields = Ok bytes.
Proof. unfold object_to_vec. destruct (json_object _ fields); naive_solver. Qed.
Lemma to_writer_Ok {A} `{ToJson A} (a : A) bytes : to_writer a = Ok bytes ↔ json_to_vec a = inr bytes.
Proof. unfold to_writer. destruct (json_to_vec a); naive_solver. Qed.

Lemma write_reward_manifest_iff `{!JsonArray CountedShare} m p bytes :
  write_reward_manifest m p = Ok bytes ↔ to_writer m = Ok bytes.
Proof.
  unfold write_reward_manifest. destruct (is_serial p); [done|].
  rewrite to_writer_Ok. cbn [json_to_vec reward_manifest_json]. rewrite object_to_vec_Ok.
  apply splice_object_iff.
  - unfold reward_manifest_head. destruct (rm_cut m); cbn; set_solver.
  - cbn. set_solver.
  - intros b. apply write_array_iff.
Qed.

(** The digest the builder commits to, taken over a manifest whose share
    array is written in chunks by the worker pool, is the SHA-256 of the
    manifest's canonical bytes. *)
Theorem reward_manifest_sha256_canonical `{!JsonArray CountedShare} m p digest :
  reward_manifest_sha256 m p = Ok digest ↔ ∃ bytes, to_writer m = Ok bytes ∧ digest = sha256 bytes.
Proof.
  unfold reward_manifest_sha256. rewrite bind_Ok. setoid_rewrite write_reward_manifest_iff. naive_solver.
Qed.
End reward_manifest.

(** * Witnesses *)
(** Executable serialisers, visible only where the module is imported. *)
Module ExampleJson.
(** Any element serialiser extends to sequences. *)
#[export] Instance example_array_json {A} `{ToJson A} : ToJson (list A) := {|
  json_to_vec items :=
    match collect to_writer items with
    | Ok parts => inr ([open_bracket] ++ joined parts ++ [close_bracket])
    | Err e => inl e
    | Panic m => inl m
    end |}.
#[export] Instance example_array_framing {A} `{ToJson A} : JsonArray A.
Proof.
  constructor. intros items. unfold to_writer at 1. cbn [json_to_vec example_array_json].
  destruct (collect to_writer items) as [parts|e|m] eqn:Hc; [reflexivity..|]. exfalso.
  revert m Hc. induction items as [|x items IH]; [done|]. intros m. cbn.
  destruct (to_writer x) as [b|e|m'] eqn:Hx; cbn; [|done|by unfold to_writer in Hx; destruct (json_to_vec x)].
  destruct (collect to_writer items) as [ps|e|m']; [done..|]. intros _. by eapply IH.
Qed.
#[export] Instance example_string_json : ToJson string :=
  {| json_to_vec s := inr ([byte.of_Z 0x22] ++ str_bytes s ++ [byte.of_Z 0x22]) |}.
#[export] Instance example_Z_json : ToJson Z := {| json_to_vec z := inr (le_bytes 16 z) |}.
#[export] Instance example_cut_json : ToJson WindowCut := {| json_to_vec _ := inr [] |}.
#[export] Instance example_counted_share_json : ToJson CountedShare :=
  {| json_to_vec c := inr (str_bytes (cs_share_id c)) |}.
#[export] Instance example_entitlement_json : ToJson WeightedEntitlement :=
  {| json_to_vec e := inr (str_bytes (we_recipient_id e)) |}.
End ExampleJson.
Import ExampleJson.

Definition example_manifest_bytes : result PrismError (PrismRewardManifest * list byte) :=
  m ← build_prism_reward_manifest_with_cut example_shares example_block None;
  bytes ← map_err PrismJson (to_writer m); Ok (m, bytes).
Lemma reward_manifest_sha256_canonical_witness :
  match example_manifest_bytes with
  | Ok (m, bytes) => reward_manifest_sha256 m (new_parallelism 4 1) = Ok (sha256 bytes)
  | _ => False
  end.
Proof.
  destruct example_manifest_bytes as [[m bytes]|e|msg] eqn:He; [|vm_compute in He; discriminate He..].
  apply reward_manifest_sha256_canonical. exists bytes. split; [|reflexivity].
  apply bind_Ok in He as (m' & _ & (bytes' & Hb & [= <- <-])%bind_Ok). by apply map_err_Ok in Hb.
Defined.
