(* ===== verification/AuditBundle.v ===== *)
(** The audit bundle, its canonical bytes and their split hashing
    (crates/qbit-prism/src/lib.rs, [AuditBundle] to [canonical_audit_bundle_bytes],
    and crates/qbit-prism/src/audit_hash.rs).  The builder hashes the share
    window while the body is still being built and finishes the digest with
    the body; the digest is that of the whole bundle. *)
From Stdlib Require Import ZArith Lia.
From Stdlib Require String.
From coqutil Require Import Byte.
From stdpp Require Import base list strings sets.
From S2P Require Import Prelude Bytes Crates PrismError PoolBuilder PayoutManifest WindowCut RewardWindow.
From S2P Require Import PayoutPolicy Settlement FanoutFee Fanout FanoutSet PagedWindow OrderedChunks RewardParallel OrderedJson.

Open Scope Z_scope.

Definition PRISM_AUDIT_COMMITMENT_LEAF_TAG : string := "qbit.prism.audit.commitment.v1".
Definition AUDIT_BUNDLE_SCHEMA_V1 : string := "qbit.prism.audit-bundle.v1".
Definition AUDIT_BUNDLE_SCHEMA_V1_1 : string := "qbit.prism.audit-bundle.v1.1".

(** * Data *)
Record LedgerWindowAttestation := {
  lwa_schema : string;
  lwa_block_height : Z;
  lwa_coinbase_value_sats : Z;
  lwa_anchor_job_issued_at_ms : Z;
  lwa_network_difficulty : Z;
  lwa_share_slice_digest_hex : string;
  lwa_prior_balances_digest_hex : string;
  lwa_signature : ManifestSignature;
}.

Record AuditBundleBody := {
  abb_schema : string;
  abb_found_block : FoundBlock;
  abb_prior_balances : list CarryForwardBalance;
  abb_payout_policy : PayoutPolicy;
  abb_coinbase_script_sig_suffix_hex : option string;
  abb_witness_merkle_leaves_hex : list string;
  abb_audit_commitment_leaves_hex : list string;
  abb_audit_commitment_root_hex : option string;
  abb_ledger_window_attestation : LedgerWindowAttestation;
  abb_reward_manifest : PrismRewardManifest;
  abb_payout_policy_manifest : PayoutPolicyManifest;
  abb_settlement_mode_decision : option SettlementModeDecision;
  abb_ctv_fanout_fee_policy : option FanoutFeeRatePolicy;
  abb_ctv_fanout_manifest_set : option CtvFanoutManifestSet;
  abb_signed_coinbase_manifest : SignedPayoutManifest;
}.

(** [AuditBundleRef], the borrowed view, has the same fields. *)
Record AuditBundle := {
  ab_schema : string;
  ab_shares : list AcceptedShare;
  ab_found_block : FoundBlock;
  ab_prior_balances : list CarryForwardBalance;
  ab_payout_policy : PayoutPolicy;
  ab_coinbase_script_sig_suffix_hex : option string;
  ab_witness_merkle_leaves_hex : list string;
  ab_audit_commitment_leaves_hex : list string;
  ab_audit_commitment_root_hex : option string;
  ab_ledger_window_attestation : LedgerWindowAttestation;
  ab_reward_manifest : PrismRewardManifest;
  ab_payout_policy_manifest : PayoutPolicyManifest;
  ab_settlement_mode_decision : option SettlementModeDecision;
  ab_ctv_fanout_fee_policy : option FanoutFeeRatePolicy;
  ab_ctv_fanout_manifest_set : option CtvFanoutManifestSet;
  ab_signed_coinbase_manifest : SignedPayoutManifest;
}.

Definition into_parts (b : AuditBundle) : AuditBundleBody * list AcceptedShare :=
  ({| abb_schema := ab_schema b; abb_found_block := ab_found_block b;
      abb_prior_balances := ab_prior_balances b; abb_payout_policy := ab_payout_policy b;
      abb_coinbase_script_sig_suffix_hex := ab_coinbase_script_sig_suffix_hex b;
      abb_witness_merkle_leaves_hex := ab_witness_merkle_leaves_hex b;
      abb_audit_commitment_leaves_hex := ab_audit_commitment_leaves_hex b;
      abb_audit_commitment_root_hex := ab_audit_commitment_root_hex b;
      abb_ledger_window_attestation := ab_ledger_window_attestation b;
      abb_reward_manifest := ab_reward_manifest b;
      abb_payout_policy_manifest := ab_payout_policy_manifest b;
      abb_settlement_mode_decision := ab_settlement_mode_decision b;
      abb_ctv_fanout_fee_policy := ab_ctv_fanout_fee_policy b;
      abb_ctv_fanout_manifest_set := ab_ctv_fanout_manifest_set b;
      abb_signed_coinbase_manifest := ab_signed_coinbase_manifest b |}, ab_shares b).
(** [AuditBundleRef::from_parts] lends the same fields. *)
Definition into_bundle (b : AuditBundleBody) (shares : list AcceptedShare) : AuditBundle :=
  {| ab_schema := abb_schema b; ab_shares := shares; ab_found_block := abb_found_block b;
     ab_prior_balances := abb_prior_balances b; ab_payout_policy := abb_payout_policy b;
     ab_coinbase_script_sig_suffix_hex := abb_coinbase_script_sig_suffix_hex b;
     ab_witness_merkle_leaves_hex := abb_witness_merkle_leaves_hex b;
     ab_audit_commitment_leaves_hex := abb_audit_commitment_leaves_hex b;
     ab_audit_commitment_root_hex := abb_audit_commitment_root_hex b;
     ab_ledger_window_attestation := abb_ledger_window_attestation b;
     ab_reward_manifest := abb_reward_manifest b;
     ab_payout_policy_manifest := abb_payout_policy_manifest b;
     ab_settlement_mode_decision := abb_settlement_mode_decision b;
     ab_ctv_fanout_fee_policy := abb_ctv_fanout_fee_policy b;
     ab_ctv_fanout_manifest_set := abb_ctv_fanout_manifest_set b;
     ab_signed_coinbase_manifest := abb_signed_coinbase_manifest b |}.

Definition audit_bundle_schema_for_shares (shares : list AcceptedShare) : string :=
  if existsb (fun share => bool_decide (is_Some (as_credit_policy share))) shares
  then AUDIT_BUNDLE_SCHEMA_V1_1 else AUDIT_BUNDLE_SCHEMA_V1.

(** * Canonical bytes *)
Definition quote : byte := byte.of_Z 0x22.
Definition quoted (s : string) : list byte := [quote] ++ str_bytes s ++ [quote].
(** JSON writes a plain identifier between quotes, unescaped. *)
Class JsonNames `{ToJson string} : Prop := {
  json_name_schema : to_writer "schema" = Ok (quoted "schema");
  json_name_shares : to_writer "shares" = Ok (quoted "shares");
}.
(** [skip_serializing_if] for an empty sequence. *)
Definition nonempty_field {A} `{ToJson (list A)} (name : string) (l : list A) : list Field :=
  match l with [] => [] | _ => [(name, to_writer l)] end.

(** The audit hash state: the bytes the digest has absorbed. *)
Record CanonicalAuditHashPrefix := {
  chp_absorbed : list byte;
  chp_schema : string;
}.

Section bundle.
Context `{!ToJson string, !ToJson Z, !ToJson WindowCut, !ToJson CountedShare, !ToJson (list CountedShare)}.
Context `{!ToJson (list WeightedEntitlement), !ToJson AcceptedShare, !ToJson (list AcceptedShare)}.
Context `{!ToJson FoundBlock, !ToJson (list CarryForwardBalance), !ToJson PayoutPolicy, !ToJson (list string)}.
Context `{!ToJson LedgerWindowAttestation, !ToJson PayoutPolicyManifest, !ToJson SettlementModeDecision}.
Context `{!ToJson FanoutFeeRatePolicy, !ToJson CtvFanoutManifestSet, !ToJson SignedPayoutManifest}.

(** [AuditBundleRef::serialize_suffix]: the fields after the share array. *)
Definition suffix_before (b : AuditBundleBody) : list Field :=
  [("found_block", to_writer (abb_found_block b));
   ("prior_balances", to_writer (abb_prior_balances b));
   ("payout_policy", to_writer (abb_payout_policy b))] ++
  optional_field "coinbase_script_sig_suffix_hex" (abb_coinbase_script_sig_suffix_hex b) ++
  nonempty_field "witness_merkle_leaves_hex" (abb_witness_merkle_leaves_hex b) ++
  nonempty_field "audit_commitment_leaves_hex" (abb_audit_commitment_leaves_hex b) ++
  optional_field "audit_commitment_root_hex" (abb_audit_commitment_root_hex b) ++
  [("ledger_window_attestation", to_writer (abb_ledger_window_attestation b))].
Definition suffix_after (b : AuditBundleBody) : list Field :=
  [("payout_policy_manifest", to_writer (abb_payout_policy_manifest b))] ++
  optional_field "settlement_mode_decision" (abb_settlement_mode_decision b) ++
  optional_field "ctv_fanout_fee_policy" (abb_ctv_fanout_fee_policy b) ++
  optional_field "ctv_fanout_manifest_set" (abb_ctv_fanout_manifest_set b) ++
  [("signed_coinbase_manifest", to_writer (abb_signed_coinbase_manifest b))].
Definition serialize_suffix (b : AuditBundleBody) : list Field :=
  suffix_before b ++ ("reward_manifest", to_writer (abb_reward_manifest b)) :: suffix_after b.
Definition bundle_fields (b : AuditBundle) : list Field :=
  [("schema", to_writer (ab_schema b)); ("shares", to_writer (ab_shares b))] ++
  serialize_suffix (into_parts b).1.
#[export] Instance audit_bundle_json : ToJson AuditBundle :=
  {| json_to_vec b := object_to_vec (bundle_fields b) |}.

Definition canonical_audit_bundle_bytes (b : AuditBundle) : result string (list byte) := to_writer b.
Definition canonical_audit_bundle_bytes_from_parts (body : AuditBundleBody) (shares : list AcceptedShare)
  : result string (list byte) := canonical_audit_bundle_bytes (into_bundle body shares).

(** * Split hashing *)
(** The opening brace becomes a comma. *)
Definition continue_object (bytes : list byte) : result string (list byte) :=
  match bytes with
  | [] => Ok []
  | b :: rest =>
      if bool_decide (b = open_brace) then Ok ([comma] ++ rest)
      else Err "audit suffix must be an object"
  end.
Definition write_prefix_header (schema : string) : result string (list byte) :=
  value ← to_writer schema;
  Ok ([open_brace] ++ quoted "schema" ++ [colon] ++ value ++ [comma] ++ quoted "shares" ++ [colon]).
Definition write_prefix (schema : string) (shares : list AcceptedShare) : result string (list byte) :=
  header ← write_prefix_header schema;
  array ← to_writer shares;
  Ok (header ++ array).
Definition write_suffix (body : AuditBundleBody) : result string (list byte) :=
  bytes ← json_object [open_brace] (serialize_suffix body);
  continue_object bytes.

Context `{ChunkRunner, Sha256Crate, HexCrate}.
Definition write_suffix_with (body : AuditBundleBody) (parallelism : Parallelism) : result string (list byte) :=
  if is_serial parallelism then write_suffix body else
  splice_object [comma] "reward_manifest" (write_reward_manifest (abb_reward_manifest body) parallelism)
    (serialize_suffix body).

(** [CanonicalAuditHashPrefix::new]. *)
Definition hash_prefix_new (shares : list AcceptedShare) : result string CanonicalAuditHashPrefix :=
  let schema := audit_bundle_schema_for_shares shares in
  bytes ← write_prefix schema shares;
  Ok {| chp_absorbed := bytes; chp_schema := schema |}.
Definition new_with (shares : list AcceptedShare) (parallelism : Parallelism)
  : result string CanonicalAuditHashPrefix :=
  let schema := audit_bundle_schema_for_shares shares in
  header ← write_prefix_header schema;
  array ← write_array shares parallelism;
  Ok {| chp_absorbed := header ++ array; chp_schema := schema |}.
(** Every array byte reaches the prefix state and the bare array digest. *)
Definition new_with_share_digest (shares : list AcceptedShare) (parallelism : Parallelism)
  : result string (CanonicalAuditHashPrefix * list byte) :=
  let schema := audit_bundle_schema_for_shares shares in
  header ← write_prefix_header schema;
  array ← (if is_serial parallelism then write_array shares parallelism
           else write_array_frames shares parallelism);
  Ok ({| chp_absorbed := header ++ array; chp_schema := schema |}, sha256 array).
Definition finish_with (prefix : CanonicalAuditHashPrefix) (body : AuditBundleBody)
    (parallelism : Parallelism) : result PrismError string :=
  if negb (String.eqb (abb_schema body) (chp_schema prefix)) then Err (AuditMismatch "schema") else
  suffix ← map_err PrismJson (write_suffix_with body parallelism);
  Ok (hex_encode (sha256 (chp_absorbed prefix ++ suffix))).
Definition finish (prefix : CanonicalAuditHashPrefix) (body : AuditBundleBody) : result PrismError string :=
  finish_with prefix body serial.
End bundle.

(** * The split digest is the bundle's *)
Section facts.
Context `{!ToJson string, !ToJson Z, !ToJson WindowCut, !ToJson CountedShare, !ToJson (list CountedShare)}.
Context `{!ToJson (list WeightedEntitlement), !ToJson AcceptedShare, !ToJson (list AcceptedShare)}.
Context `{!ToJson FoundBlock, !ToJson (list CarryForwardBalance), !ToJson PayoutPolicy, !ToJson (list string)}.
Context `{!ToJson LedgerWindowAttestation, !ToJson PayoutPolicyManifest, !ToJson SettlementModeDecision}.
Context `{!ToJson FanoutFeeRatePolicy, !ToJson CtvFanoutManifestSet, !ToJson SignedPayoutManifest}.
Context `{ChunkRunner, Sha256Crate, HexCrate}.
Context `{!JsonNames, !JsonArray CountedShare, !JsonArray AcceptedShare}.

Lemma into_parts_bundle body shares : into_parts (into_bundle body shares) = (body, shares).
Proof. by destruct body. Qed.

(** A later field opens the rest of the object with its comma. *)
Lemma later_fields out fields :
  fields ≠ [] → try_fold write_field (out, false) fields = try_fold write_field (out ++ [comma], true) fields.
Proof.
  destruct fields as [|[k v] fields]; [done|]. intros _. cbn.
  destruct (to_writer k) as [key|e|m]; cbn; [|done..]. destruct v as [value|e|m]; cbn; [|done..].
  by rewrite <- app_assoc.
Qed.

Lemma suffix_ne body : serialize_suffix body ≠ [].
Proof. unfold serialize_suffix. by destruct (suffix_before body). Qed.

Lemma bundle_bytes body shares bytes :
  canonical_audit_bundle_bytes_from_parts body shares = Ok bytes ↔
  ∃ header array suffix, write_prefix_header (abb_schema body) = Ok header ∧ to_writer shares = Ok array ∧
    json_object [comma] (serialize_suffix body) = Ok suffix ∧ bytes = header ++ array ++ suffix.
Proof.
  unfold canonical_audit_bundle_bytes_from_parts, canonical_audit_bundle_bytes. rewrite to_writer_Ok.
  cbn [json_to_vec audit_bundle_json]. rewrite object_to_vec_Ok. unfold bundle_fields. rewrite into_parts_bundle.
  cbn [fst]. unfold json_object at 1. cbn [app try_fold write_field fst snd ab_schema ab_shares into_bundle].
  rewrite json_name_schema. unfold write_prefix_header. cbn [mbind result_bind].
  destruct (to_writer (abb_schema body)) as [value|e|m]; cbn [mbind result_bind]; [|split; [done|naive_solver]..].
  cbn [separator negb app try_fold write_field fst snd]. rewrite json_name_shares. cbn [mbind result_bind].
  destruct (to_writer shares) as [array|e|m]; cbn [mbind result_bind]; [|split; [done|naive_solver]..].
  rewrite later_fields by apply suffix_ne.
  match goal with |- ('(_, _) ← try_fold write_field (?o ++ [comma], true) _; _) = _ ↔ _ => set (out := o) end.
  match goal with |- ?l = _ ↔ _ => change l with (json_object (out ++ [comma]) (serialize_suffix body)) end.
  rewrite json_object_opening. unfold out. cbn [app]. split.
  - intros (rest & Hr & ->). do 3 eexists. split_and!; [reflexivity..|exact Hr|]. cbn. by rewrite <- !app_assoc.
  - intros (? & ? & rest & [= <-] & [= <-] & Hr & ->). exists rest. split; [done|]. cbn. by rewrite <- !app_assoc.
Qed.

Lemma write_suffix_iff body bytes :
  write_suffix body = Ok bytes ↔ json_object [comma] (serialize_suffix body) = Ok bytes.
Proof.
  unfold write_suffix. rewrite bind_Ok. setoid_rewrite (json_object_opening [open_brace] []).
  rewrite (json_object_opening [comma] []). split.
  - intros (? & (rest & Hr & ->) & [= <-]). eauto.
  - intros (rest & Hr & ->). exists ([open_brace] ++ rest). split; [eauto|]. done.
Qed.
Lemma suffix_with_iff body p bytes :
  write_suffix_with body p = Ok bytes ↔ json_object [comma] (serialize_suffix body) = Ok bytes.
Proof.
  unfold write_suffix_with. destruct (is_serial p); [apply write_suffix_iff|]. apply splice_object_iff.
  - unfold suffix_before, optional_field, nonempty_field.
    destruct (abb_coinbase_script_sig_suffix_hex body), (abb_witness_merkle_leaves_hex body),
      (abb_audit_commitment_leaves_hex body), (abb_audit_commitment_root_hex body); cbn; set_solver.
  - unfold suffix_after, optional_field. destruct (abb_settlement_mode_decision body),
      (abb_ctv_fanout_fee_policy body), (abb_ctv_fanout_manifest_set body); cbn; set_solver.
  - intros b. apply write_reward_manifest_iff.
Qed.

Lemma new_with_iff shares p prefix :
  new_with shares p = Ok prefix ↔
  ∃ header array, write_prefix_header (audit_bundle_schema_for_shares shares) = Ok header ∧
    to_writer shares = Ok array ∧
    prefix = {| chp_absorbed := header ++ array; chp_schema := audit_bundle_schema_for_shares shares |}.
Proof.
  unfold new_with. rewrite bind_Ok. setoid_rewrite bind_Ok. setoid_rewrite write_array_iff. naive_solver.
Qed.
Lemma new_with_serial shares prefix : hash_prefix_new shares = Ok prefix ↔ new_with shares serial = Ok prefix.
Proof.
  rewrite new_with_iff. unfold hash_prefix_new, write_prefix. rewrite bind_Ok. setoid_rewrite bind_Ok.
  setoid_rewrite bind_Ok. naive_solver.
Qed.

(** The digest the builder takes in two parts, the share window hashed while
    the body is built and the body's fields after it, each serialised in chunks
    on worker threads, is the SHA-256 of the canonical bytes of the whole
    bundle, and is produced whenever those bytes exist and the schema is the
    one the window calls for; the bare share-array digest taken from the same
    pass is the SHA-256 of the array's own bytes. *)
Theorem split_hash_canonical shares body p q :
  (∀ hash, (prefix ← map_err PrismJson (new_with shares p); finish_with prefix body q) = Ok hash ↔
    abb_schema body = audit_bundle_schema_for_shares shares ∧
    ∃ bytes, canonical_audit_bundle_bytes_from_parts body shares = Ok bytes ∧ hash = hex_encode (sha256 bytes)) ∧
  (∀ prefix digest, new_with_share_digest shares p = Ok (prefix, digest) ↔
    new_with shares p = Ok prefix ∧ ∃ array, to_writer shares = Ok array ∧ digest = sha256 array).
Proof.
  split.
  - intros hash. rewrite bind_Ok. setoid_rewrite map_err_Ok. setoid_rewrite new_with_iff. unfold finish_with. split.
    + intros (prefix & (header & array & Hh & Ha & ->) & Hf). cbn [chp_absorbed chp_schema] in Hf.
      destruct (String.eqb_spec (abb_schema body) (audit_bundle_schema_for_shares shares)) as [Hs|]; [|done].
      cbn [negb] in Hf. apply bind_Ok in Hf as (suffix & Hsuf%map_err_Ok%suffix_with_iff & [= <-]).
      split; [done|]. exists (header ++ array ++ suffix). rewrite bundle_bytes, Hs, app_assoc. split; [|done].
      rewrite <- app_assoc. eauto 10.
    + intros (Hs & bytes & (header & array & suffix & Hh & Ha & Hsuf & ->)%bundle_bytes & ->).
      rewrite Hs in *. eexists. split; [eauto|]. cbn [chp_absorbed chp_schema]. rewrite String.eqb_refl. cbn [negb].
      apply bind_Ok. exists suffix. rewrite map_err_Ok, suffix_with_iff, app_assoc. done.
  - intros prefix digest. rewrite new_with_iff. unfold new_with_share_digest. rewrite bind_Ok.
    setoid_rewrite bind_Ok. assert (∀ array,
      (if is_serial p then write_array shares p else write_array_frames shares p) = Ok array ↔
      to_writer shares = Ok array) as Harray by (intros; destruct (is_serial p); [apply write_array_iff|apply write_frames_iff]).
    setoid_rewrite Harray. split.
    + intros (header & Hh & array & Ha & [= <- <-]). eauto 10.
    + intros ((header & array & Hh & Ha & ->) & array' & Ha' & ->).
      rewrite Ha in Ha'. injection Ha' as <-. eauto 10.
Qed.
End facts.
