(* ===== verification/AuditBuild.v ===== *)
(** The audit bundle builders (crates/qbit-prism/src/lib.rs): the audit
    commitment leaves and root, the ledger window attestation, the direct
    builder and the CTV settlement builder with its fee accounting. *)
From Stdlib Require Import ZArith Lia.
From Stdlib Require Ascii String.
From coqutil Require Import Byte.
From stdpp Require Import base list strings pretty gmap.
From S2P Require Import Prelude Order Bytes Crates Payee PrismError PoolBuilder CoinbaseTx PayoutManifest WindowCut RewardWindow.
From S2P Require Import PayoutPolicy Settlement FanoutFee CtvTx Fanout FanoutSet OrderedChunks RewardParallel OrderedJson AuditBundle.

Open Scope Z_scope.

(** * Keys *)
(** [account_key], with its NUL separators. *)
Definition account_key_of (recipient_id order_key p2mr_program_hex : string) : string :=
  recipient_id +:+ String.String Ascii.zero (order_key +:+
    String.String Ascii.zero p2mr_program_hex).
Definition recipient_account_key (r : SettlementRecipient) : string :=
  account_key_of (sr_recipient_id r) (sr_order_key r) (sr_p2mr_program_hex r).
Definition fee_recipient_account_key (r : FanoutFeeRecipient) : string :=
  account_key_of (ffr_recipient_id r) (ffr_order_key r) (ffr_p2mr_program_hex r).

(** * Fee accounting *)
Definition FeeRecipients : Type := gmap string FanoutFeeRecipient.
Definition with_settlement_fee (a : PayoutPolicyAccount) (fee : Z) : PayoutPolicyAccount :=
  {| ppa_account_type := ppa_account_type a; ppa_recipient_id := ppa_recipient_id a;
     ppa_order_key := ppa_order_key a; ppa_p2mr_program_hex := ppa_p2mr_program_hex a;
     ppa_gross_amount_sats := ppa_gross_amount_sats a;
     ppa_prior_balance_sats := ppa_prior_balance_sats a;
     ppa_candidate_balance_sats := ppa_candidate_balance_sats a;
     ppa_onchain_amount_sats := ppa_onchain_amount_sats a; ppa_settlement_fee_sats := fee;
     ppa_carry_forward_balance_sats := ppa_carry_forward_balance_sats a; ppa_action := ppa_action a |}.
Definition with_accounts (m : PayoutPolicyManifest) (accounts : list PayoutPolicyAccount)
  : PayoutPolicyManifest :=
  {| ppm_schema := ppm_schema m; ppm_block_height := ppm_block_height m;
     ppm_coinbase_value_sats := ppm_coinbase_value_sats m; ppm_min_output_sats := ppm_min_output_sats m;
     ppm_floor_formula := ppm_floor_formula m;
     ppm_coinbase_output_policy := ppm_coinbase_output_policy m; ppm_pool_fee := ppm_pool_fee m;
     ppm_accounts := accounts; ppm_onchain_entitlements := ppm_onchain_entitlements m |}.

Definition settlement_recipients_from_entitlements (entitlements : list WeightedEntitlement)
  : result PrismError (list SettlementRecipient) :=
  collect (fun e =>
    amount_sats ← ok_or (checked U64 (we_weight e)) PayoutPolicyOverflow;
    Ok {| sr_recipient_id := we_recipient_id e; sr_order_key := we_order_key e;
          sr_p2mr_program_hex := we_p2mr_program_hex e; sr_amount_sats := amount_sats |}) entitlements.
Definition pinned_settlement_recipient_for_policy (manifest : PayoutPolicyManifest)
  : option SettlementRecipient :=
  (fun p => {| sr_recipient_id := pf_recipient_id p; sr_order_key := pf_order_key p;
               sr_p2mr_program_hex := pf_p2mr_program_hex p; sr_amount_sats := pf_amount_sats p |})
  <$> pool_fee_first_output manifest.
Definition entitlement_of_recipient (r : SettlementRecipient) : WeightedEntitlement :=
  {| we_recipient_id := sr_recipient_id r; we_order_key := sr_order_key r;
     we_p2mr_program_hex := sr_p2mr_program_hex r; we_weight := sr_amount_sats r |}.
Definition entitlement_of_fanout (f : PreparedCtvFanout) : WeightedEntitlement :=
  {| we_recipient_id := pcf_covenant_recipient_id f; we_order_key := pcf_covenant_order_key f;
     we_p2mr_program_hex := pcf_covenant_p2mr_program_hex f;
     we_weight := pcf_covenant_output_value_sats f |}.
Definition ctv_settlement_coinbase_entitlements (decision : SettlementModeDecision)
    (prepared_fanouts : list PreparedCtvFanout) : result PrismError (list WeightedEntitlement) :=
  if negb (length prepared_fanouts =? length (smd_fanout_chunks decision))%nat
  then Err (AuditMismatch "ctv_fanout_chunk_count")
  else Ok ((entitlement_of_recipient <$> smd_direct_recipients decision) ++
           (entitlement_of_fanout <$> prepared_fanouts)).
Definition find_coinbase_output_vout (manifest : PayoutManifest)
    (recipient_id order_key p2mr_program_hex : string) (amount_sats : Z) : result PrismError Z :=
  output ← ok_or (List.find (fun o => String.eqb (po_recipient_id o) recipient_id &&
      String.eqb (po_order_key o) order_key && String.eqb (po_p2mr_program_hex o) p2mr_program_hex &&
      (po_amount_sats o =? amount_sats)) (pm_outputs manifest)) (AuditMismatch "ctv_coinbase_output");
  ok_or (checked U32 (po_vout output)) (AuditMismatch "ctv_coinbase_output_vout").

Section build.
Context `{HexCrate, Sha256Crate}.

Definition record_fee_recipient (recipients_by_key : FeeRecipients) (r : FanoutFeeRecipient)
  : result PrismError FeeRecipients :=
  let key := fee_recipient_account_key r in
  match recipients_by_key !! key with
  | Some _ => settlement_error "duplicate fanout fee recipient"
  | None => Ok (<[key := r]> recipients_by_key)
  end.
Definition record_chunk_fees (fee_policy : FanoutFeeRatePolicy) (min_output_sats : Z)
    (recipients_by_key : FeeRecipients) (chunk : SettlementFanoutChunk) : result PrismError FeeRecipients :=
  fanout_fee_sats ← estimate_ctv_fanout_fee_sats (Z.of_nat (length (sfc_recipients chunk))) fee_policy;
  fee_decision ← apply_proportional_fanout_fee (sfc_recipients chunk) fanout_fee_sats min_output_sats;
  if negb (bool_decide (ffd_carry_forward_recipients fee_decision = []))
  then settlement_error "fanout fee would push a recipient below the payout floor"
  else try_fold record_fee_recipient recipients_by_key (ffd_payable_recipients fee_decision).
Definition charge_account (recipients_by_key : FeeRecipients) (a : PayoutPolicyAccount)
  : result PrismError PayoutPolicyAccount :=
  match recipients_by_key !! account_key a with
  | Some r =>
      if negb (ppa_onchain_amount_sats a =? ffr_gross_amount_sats r)
      then Err (AuditMismatch "ctv_fanout_fee_accounting")
      else Ok (with_settlement_fee a (ffr_fee_sats r))
  | None => Ok a
  end.
(** The policy manifest is updated in place. *)
Definition apply_ctv_fanout_fee_accounting (policy_manifest : PayoutPolicyManifest)
    (decision : SettlementModeDecision) (fee_policy : FanoutFeeRatePolicy)
  : result PrismError (PayoutPolicyManifest * FeeRecipients) :=
  recipients_by_key ← try_fold (record_chunk_fees fee_policy (ppm_min_output_sats policy_manifest)) ∅
                        (smd_fanout_chunks decision);
  accounts ← collect (charge_account recipients_by_key) (ppm_accounts policy_manifest);
  Ok (with_accounts policy_manifest accounts, recipients_by_key).

(** * Commitment leaves *)
Definition commitment_leaf_hex (reward_manifest_hash payout_policy_manifest_hash : list byte) : string :=
  sha256_hex (str_bytes PRISM_AUDIT_COMMITMENT_LEAF_TAG ++ reward_manifest_hash ++ payout_policy_manifest_hash).
Definition parse_audit_commitment_leaf (raw : string) (index : nat) : result PrismError (list byte) :=
  match hex_decode raw with
  | inl error => Err (InvalidAuditCommitment
      ("commitment leaf " +:+ pretty index +:+ " is not hex: " +:+ error))
  | inr decoded =>
      if negb (length decoded =? 32)%nat
      then Err (InvalidAuditCommitment ("commitment leaf " +:+ pretty index +:+
             " must be 32 bytes, got " +:+ pretty (length decoded)))
      else Ok decoded
  end.
Definition parse_audit_commitment_leaves (leaves : list string) : result PrismError (list (list byte)) :=
  match leaves with
  | [] => Err (InvalidAuditCommitment "at least one commitment leaf is required")
  | _ => collect (fun '(index, raw) => parse_audit_commitment_leaf raw index) (imap pair leaves)
  end.
(** The crate repeats the coinbase builder's merkle tree. *)
Definition audit_commitment_root_hex (commitment_leaves_hex : list string) : result PrismError string :=
  leaves ← parse_audit_commitment_leaves commitment_leaves_hex;
  root ← map_err Builder (merkle_root leaves);
  Ok (hex_encode root).

Definition prior_balance_cmp : CarryForwardBalance -> CarryForwardBalance -> comparison := canonical_cmp.
Definition update_balance (b : CarryForwardBalance) : list byte :=
  update_string (cfb_recipient_id b) ++ update_string (cfb_order_key b) ++
  update_string (cfb_p2mr_program_hex b) ++ update_i128 (cfb_balance_sats b).
Definition prior_balances_digest (balances : list CarryForwardBalance) : list byte :=
  sha256 (sort_by prior_balance_cmp balances ≫= update_balance).
Definition prior_balances_digest_hex (balances : list CarryForwardBalance) : string :=
  hex_encode (prior_balances_digest balances).
End build.

(** * The builders *)
Section builders.
Context `{HexCrate, Sha256Crate, Ed25519Crate, ChunkRunner}.
Context `{!ToJson string, !ToJson Z, !ToJson WindowCut, !ToJson CountedShare, !ToJson (list CountedShare)}.
Context `{!ToJson (list WeightedEntitlement), !ToJson PayoutPolicyManifest, !ToJson PayoutManifest}.
Context `{!ToJson CtvFanoutPrecommitment}.

Definition canonical_reward_manifest_bytes (m : PrismRewardManifest) : result string (list byte) := to_writer m.
Definition canonical_payout_policy_manifest_bytes (m : PayoutPolicyManifest) : result string (list byte) :=
  to_writer m.
Definition prism_audit_commitment_leaf_hex (reward_manifest : PrismRewardManifest)
    (payout_policy_manifest : PayoutPolicyManifest) : result PrismError string :=
  reward ← map_err PrismJson (to_writer reward_manifest);
  policy ← map_err PrismJson (canonical_payout_policy_manifest_bytes payout_policy_manifest);
  Ok (commitment_leaf_hex (sha256 reward) (sha256 policy)).

(** The signed payload leaves the signature out. *)
Definition attestation_payload (a : LedgerWindowAttestation) : list Field :=
  [("schema", to_writer (lwa_schema a));
   ("block_height", to_writer (lwa_block_height a));
   ("coinbase_value_sats", to_writer (lwa_coinbase_value_sats a));
   ("anchor_job_issued_at_ms", to_writer (lwa_anchor_job_issued_at_ms a));
   ("network_difficulty", to_writer (lwa_network_difficulty a));
   ("share_slice_digest_hex", to_writer (lwa_share_slice_digest_hex a));
   ("prior_balances_digest_hex", to_writer (lwa_prior_balances_digest_hex a))].
Definition canonical_ledger_window_attestation_bytes (a : LedgerWindowAttestation)
  : result string (list byte) := json_object [open_brace] (attestation_payload a).
Definition build_ledger_window_attestation (rm : PrismRewardManifest)
    (prior_balances : list CarryForwardBalance) (signing_key : SigningKey)
  : result PrismError LedgerWindowAttestation :=
  let attestation signature_hex := {|
    lwa_schema := "qbit.prism.ledger-window-attestation.v1";
    lwa_block_height := rm_block_height rm;
    lwa_coinbase_value_sats := rm_coinbase_value_sats rm;
    lwa_anchor_job_issued_at_ms := rm_anchor_job_issued_at_ms rm;
    lwa_network_difficulty := rm_network_difficulty rm;
    lwa_share_slice_digest_hex := rm_share_slice_digest_hex rm;
    lwa_prior_balances_digest_hex := prior_balances_digest_hex prior_balances;
    lwa_signature := {| ms_algorithm := "ed25519"; ms_public_key_hex := public_key_hex signing_key;
                        ms_signature_hex := signature_hex |} |} in
  payload ← map_err PrismJson (canonical_ledger_window_attestation_bytes (attestation ""));
  Ok (attestation (sign_message_hex signing_key payload)).

Definition build_profiled_signed_manifest (request : CoinbaseBuildRequest) (signing_key : SigningKey)
  : result PrismError SignedPayoutManifest :=
  manifest ← map_err Builder (build_manifest request);
  canonical_manifest ← map_err Builder (canonical_manifest_bytes manifest);
  Ok {| spm_manifest := manifest;
        spm_signature := {| ms_algorithm := "ed25519"; ms_public_key_hex := public_key_hex signing_key;
                            ms_signature_hex := sign_message_hex signing_key canonical_manifest |} |}.

Definition build_audit_bundle_body_with_coinbase_options_parallel (shares : list AcceptedShare)
    (found_block : FoundBlock) (window_cut : option WindowCut)
    (prior_balances : list CarryForwardBalance) (payout_policy : PayoutPolicy)
    (coinbase_script_sig_suffix_hex : option string) (witness_merkle_leaves_hex : list string)
    (coinbase_signing_key ledger_signing_key : SigningKey) (parallelism : Parallelism)
  : result PrismError AuditBundleBody :=
  if eq_ignore_ascii_case (public_key_hex coinbase_signing_key) (public_key_hex ledger_signing_key)
  then Err LedgerAttestationKeyReuse else
  reward_manifest ← build_prism_reward_manifest_parallel shares found_block window_cut parallelism;
  ledger_window_attestation ← build_ledger_window_attestation reward_manifest prior_balances ledger_signing_key;
  payout_policy_manifest ← apply_payout_policy reward_manifest prior_balances payout_policy;
  reward_manifest_hash ← map_err PrismJson (reward_manifest_sha256 reward_manifest parallelism);
  policy_bytes ← map_err PrismJson (canonical_payout_policy_manifest_bytes payout_policy_manifest);
  let leaves := [commitment_leaf_hex reward_manifest_hash (sha256 policy_bytes)] in
  root ← audit_commitment_root_hex leaves;
  signed_coinbase_manifest ← build_profiled_signed_manifest
    {| cbr_block_height := rm_block_height reward_manifest;
       cbr_coinbase_value_sats := rm_coinbase_value_sats reward_manifest;
       cbr_entitlements := ppm_onchain_entitlements payout_policy_manifest;
       cbr_witness_nonce_hex := Some root;
       cbr_witness_merkle_leaves_hex := witness_merkle_leaves_hex;
       cbr_coinbase_script_sig_suffix_hex := coinbase_script_sig_suffix_hex;
       cbr_pinned_first_output := pinned_first_output_for_policy payout_policy_manifest |}
    coinbase_signing_key;
  Ok {| abb_schema := audit_bundle_schema_for_shares shares; abb_found_block := found_block;
        abb_prior_balances := prior_balances; abb_payout_policy := payout_policy;
        abb_coinbase_script_sig_suffix_hex := coinbase_script_sig_suffix_hex;
        abb_witness_merkle_leaves_hex := witness_merkle_leaves_hex;
        abb_audit_commitment_leaves_hex := leaves; abb_audit_commitment_root_hex := Some root;
        abb_ledger_window_attestation := ledger_window_attestation;
        abb_reward_manifest := reward_manifest; abb_payout_policy_manifest := payout_policy_manifest;
        abb_settlement_mode_decision := None; abb_ctv_fanout_fee_policy := None;
        abb_ctv_fanout_manifest_set := None; abb_signed_coinbase_manifest := signed_coinbase_manifest |}.
Definition build_audit_bundle_body_with_coinbase_options (shares : list AcceptedShare)
    (found_block : FoundBlock) (prior_balances : list CarryForwardBalance) (payout_policy : PayoutPolicy)
    (coinbase_script_sig_suffix_hex : option string) (witness_merkle_leaves_hex : list string)
    (coinbase_signing_key ledger_signing_key : SigningKey) : result PrismError AuditBundleBody :=
  build_audit_bundle_body_with_coinbase_options_parallel shares found_block None prior_balances
    payout_policy coinbase_script_sig_suffix_hex witness_merkle_leaves_hex coinbase_signing_key
    ledger_signing_key serial.
Definition build_audit_bundle_with_coinbase_options (shares : list AcceptedShare)
    (found_block : FoundBlock) (prior_balances : list CarryForwardBalance) (payout_policy : PayoutPolicy)
    (coinbase_script_sig_suffix_hex : option string) (witness_merkle_leaves_hex : list string)
    (coinbase_signing_key ledger_signing_key : SigningKey) : result PrismError AuditBundle :=
  body ← build_audit_bundle_body_with_coinbase_options shares found_block prior_balances payout_policy
           coinbase_script_sig_suffix_hex witness_merkle_leaves_hex coinbase_signing_key ledger_signing_key;
  Ok (into_bundle body shares).
Definition build_audit_bundle_body_with_coinbase_script_sig_suffix (shares : list AcceptedShare)
    (found_block : FoundBlock) (prior_balances : list CarryForwardBalance) (payout_policy : PayoutPolicy)
    (coinbase_script_sig_suffix_hex : option string) (coinbase_signing_key ledger_signing_key : SigningKey)
  : result PrismError AuditBundleBody :=
  build_audit_bundle_body_with_coinbase_options shares found_block prior_balances payout_policy
    coinbase_script_sig_suffix_hex [] coinbase_signing_key ledger_signing_key.
Definition build_audit_bundle_with_coinbase_script_sig_suffix (shares : list AcceptedShare)
    (found_block : FoundBlock) (prior_balances : list CarryForwardBalance) (payout_policy : PayoutPolicy)
    (coinbase_script_sig_suffix_hex : option string) (coinbase_signing_key ledger_signing_key : SigningKey)
  : result PrismError AuditBundle :=
  body ← build_audit_bundle_body_with_coinbase_script_sig_suffix shares found_block prior_balances payout_policy
           coinbase_script_sig_suffix_hex coinbase_signing_key ledger_signing_key;
  Ok (into_bundle body shares).
Definition build_audit_bundle_body (shares : list AcceptedShare)
    (found_block : FoundBlock) (prior_balances : list CarryForwardBalance) (payout_policy : PayoutPolicy)
    (coinbase_signing_key ledger_signing_key : SigningKey) : result PrismError AuditBundleBody :=
  build_audit_bundle_body_with_coinbase_script_sig_suffix shares found_block prior_balances payout_policy None
    coinbase_signing_key ledger_signing_key.
Definition build_audit_bundle (shares : list AcceptedShare)
    (found_block : FoundBlock) (prior_balances : list CarryForwardBalance) (payout_policy : PayoutPolicy)
    (coinbase_signing_key ledger_signing_key : SigningKey) : result PrismError AuditBundle :=
  body ← build_audit_bundle_body shares found_block prior_balances payout_policy coinbase_signing_key
           ledger_signing_key;
  Ok (into_bundle body shares).

(** ** CTV settlement *)
Definition fanout_payout (fees : FeeRecipients) (r : SettlementRecipient) : CtvFanoutPayout :=
  let fee_recipient := fees !! recipient_account_key r in
  {| cfp_recipient_id := sr_recipient_id r; cfp_order_key := sr_order_key r;
     cfp_p2mr_program_hex := sr_p2mr_program_hex r;
     cfp_gross_amount_sats := from_option ffr_gross_amount_sats 0 fee_recipient;
     cfp_fee_sats := from_option ffr_fee_sats 0 fee_recipient;
     cfp_amount_sats := from_option ffr_net_amount_sats (sr_amount_sats r) fee_recipient |}.
Definition prepare_chunk (reward_manifest : PrismRewardManifest) (decision : SettlementModeDecision)
    (reward_manifest_sha256_hex payout_policy_manifest_sha256_hex : string) (fees : FeeRecipients)
    (chunk : SettlementFanoutChunk) : result PrismError PreparedCtvFanout :=
  chunk_index ← ok_or (checked U32 (sfc_chunk_index chunk)) PayoutPolicyOverflow;
  chunk_count ← ok_or (checked U32 (smd_fanout_chunk_count decision)) PayoutPolicyOverflow;
  prepare_ctv_fanout_precommitment
    {| cpi_block_height := rm_block_height reward_manifest; cpi_chunk_index := chunk_index;
       cpi_chunk_count := chunk_count;
       cpi_coinbase_value_sats := rm_coinbase_value_sats reward_manifest;
       cpi_settlement_mode := smd_mode decision;
       cpi_reward_manifest_sha256_hex := reward_manifest_sha256_hex;
       cpi_payout_policy_manifest_sha256_hex := payout_policy_manifest_sha256_hex;
       cpi_payouts := fanout_payout fees <$> sfc_recipients chunk |}.
Definition finalize_fanout (manifest : PayoutManifest) (prepared : PreparedCtvFanout)
  : result PrismError CtvFanoutManifest :=
  parent_vout ← find_coinbase_output_vout manifest (pcf_covenant_recipient_id prepared)
    (pcf_covenant_order_key prepared) (pcf_covenant_p2mr_program_hex prepared)
    (pcf_covenant_output_value_sats prepared);
  build_ctv_fanout_manifest_from_precommitment (pcf_precommitment prepared)
    (pm_coinbase_tx_hex manifest) parent_vout.
Definition finalize_fanouts (manifest : PayoutManifest) (prepared_fanouts : list PreparedCtvFanout)
  : result PrismError (option CtvFanoutManifestSet) :=
  match prepared_fanouts with
  | [] => Ok None
  | _ =>
      manifests ← collect (finalize_fanout manifest) prepared_fanouts;
      set ← build_ctv_fanout_manifest_set manifests;
      Ok (Some set)
  end.
(** The settlement of one policy manifest: what the fee accounting leaves of
    it, the decision, and what each fanout recipient is charged. *)
Definition settle_policy (policy_manifest : PayoutPolicyManifest) (direct_floor_sats : Z)
    (settlement_config : SettlementModeConfig) (ctv_fanout_fee_policy : option FanoutFeeRatePolicy)
  : result PrismError (PayoutPolicyManifest * SettlementModeDecision * FeeRecipients) :=
  settlement_recipients ← settlement_recipients_from_entitlements (ppm_onchain_entitlements policy_manifest);
  decision ← select_settlement_mode_with_pinned_direct settlement_recipients direct_floor_sats
               settlement_config (pinned_settlement_recipient_for_policy policy_manifest);
  match ctv_fanout_fee_policy with
  | Some fee_policy =>
      '(policy_manifest, fees) ← apply_ctv_fanout_fee_accounting policy_manifest decision fee_policy;
      Ok (policy_manifest, decision, fees)
  | None => Ok (policy_manifest, decision, ∅)
  end.

Definition build_audit_bundle_body_with_ctv_settlement_options_parallel (shares : list AcceptedShare)
    (found_block : FoundBlock) (window_cut : option WindowCut)
    (prior_balances : list CarryForwardBalance) (payout_policy : PayoutPolicy) (direct_floor_sats : Z)
    (settlement_config : SettlementModeConfig) (ctv_fanout_fee_policy : option FanoutFeeRatePolicy)
    (coinbase_script_sig_suffix_hex : option string) (witness_merkle_leaves_hex : list string)
    (coinbase_signing_key ledger_signing_key : SigningKey) (parallelism : Parallelism)
  : result PrismError AuditBundleBody :=
  if eq_ignore_ascii_case (public_key_hex coinbase_signing_key) (public_key_hex ledger_signing_key)
  then Err LedgerAttestationKeyReuse else
  reward_manifest ← build_prism_reward_manifest_parallel shares found_block window_cut parallelism;
  ledger_window_attestation ← build_ledger_window_attestation reward_manifest prior_balances ledger_signing_key;
  policy_manifest ← apply_payout_policy reward_manifest prior_balances payout_policy;
  '(payout_policy_manifest, decision, fees) ←
    settle_policy policy_manifest direct_floor_sats settlement_config ctv_fanout_fee_policy;
  reward_manifest_hash ← map_err PrismJson (reward_manifest_sha256 reward_manifest parallelism);
  policy_bytes ← map_err PrismJson (canonical_payout_policy_manifest_bytes payout_policy_manifest);
  let payout_policy_manifest_hash := sha256 policy_bytes in
  prepared_fanouts ← collect (prepare_chunk reward_manifest decision (hex_encode reward_manifest_hash)
                        (hex_encode payout_policy_manifest_hash) fees) (smd_fanout_chunks decision);
  let leaves := commitment_leaf_hex reward_manifest_hash payout_policy_manifest_hash ::
                (pcf_commitment_witness_leaf_hex <$> prepared_fanouts) in
  root ← audit_commitment_root_hex leaves;
  entitlements ← ctv_settlement_coinbase_entitlements decision prepared_fanouts;
  signed_coinbase_manifest ← build_profiled_signed_manifest
    {| cbr_block_height := rm_block_height reward_manifest;
       cbr_coinbase_value_sats := rm_coinbase_value_sats reward_manifest;
       cbr_entitlements := entitlements;
       cbr_witness_nonce_hex := Some root;
       cbr_witness_merkle_leaves_hex := witness_merkle_leaves_hex;
       cbr_coinbase_script_sig_suffix_hex := coinbase_script_sig_suffix_hex;
       cbr_pinned_first_output := pinned_first_output_for_policy payout_policy_manifest |}
    coinbase_signing_key;
  ctv_fanout_manifest_set ← finalize_fanouts (spm_manifest signed_coinbase_manifest) prepared_fanouts;
  Ok {| abb_schema := audit_bundle_schema_for_shares shares; abb_found_block := found_block;
        abb_prior_balances := prior_balances; abb_payout_policy := payout_policy;
        abb_coinbase_script_sig_suffix_hex := coinbase_script_sig_suffix_hex;
        abb_witness_merkle_leaves_hex := witness_merkle_leaves_hex;
        abb_audit_commitment_leaves_hex := leaves; abb_audit_commitment_root_hex := Some root;
        abb_ledger_window_attestation := ledger_window_attestation;
        abb_reward_manifest := reward_manifest; abb_payout_policy_manifest := payout_policy_manifest;
        abb_settlement_mode_decision := Some decision;
        abb_ctv_fanout_fee_policy := ctv_fanout_fee_policy;
        abb_ctv_fanout_manifest_set := ctv_fanout_manifest_set;
        abb_signed_coinbase_manifest := signed_coinbase_manifest |}.
Definition build_audit_bundle_body_with_ctv_settlement_options (shares : list AcceptedShare)
    (found_block : FoundBlock) (prior_balances : list CarryForwardBalance) (payout_policy : PayoutPolicy)
    (direct_floor_sats : Z) (settlement_config : SettlementModeConfig)
    (ctv_fanout_fee_policy : option FanoutFeeRatePolicy) (coinbase_script_sig_suffix_hex : option string)
    (witness_merkle_leaves_hex : list string) (coinbase_signing_key ledger_signing_key : SigningKey)
  : result PrismError AuditBundleBody :=
  build_audit_bundle_body_with_ctv_settlement_options_parallel shares found_block None prior_balances
    payout_policy direct_floor_sats settlement_config ctv_fanout_fee_policy coinbase_script_sig_suffix_hex
    witness_merkle_leaves_hex coinbase_signing_key ledger_signing_key serial.
Definition build_audit_bundle_with_ctv_settlement_options (shares : list AcceptedShare)
    (found_block : FoundBlock) (prior_balances : list CarryForwardBalance) (payout_policy : PayoutPolicy)
    (direct_floor_sats : Z) (settlement_config : SettlementModeConfig)
    (ctv_fanout_fee_policy : option FanoutFeeRatePolicy) (coinbase_script_sig_suffix_hex : option string)
    (witness_merkle_leaves_hex : list string) (coinbase_signing_key ledger_signing_key : SigningKey)
  : result PrismError AuditBundle :=
  body ← build_audit_bundle_body_with_ctv_settlement_options shares found_block prior_balances payout_policy
           direct_floor_sats settlement_config ctv_fanout_fee_policy coinbase_script_sig_suffix_hex
           witness_merkle_leaves_hex coinbase_signing_key ledger_signing_key;
  Ok (into_bundle body shares).
End builders.
