(* ===== verification/AuditVerify.v ===== *)
(** The audit verifier (crates/qbit-prism/src/lib.rs): everything a bundle
    claims is recomputed from its shares and inputs and compared, down to the
    coinbase transaction. *)
From Stdlib Require Import ZArith Lia.
From Stdlib Require Ascii String.
From coqutil Require Import Byte.
From stdpp Require Import base list strings pretty gmap sorting.
From S2P Require Import Prelude Order BTree Bytes Crates Payee PrismError PoolBuilder CoinbaseTx PayoutManifest WindowCut RewardWindow.
From S2P Require Import PayoutPolicy Settlement FanoutFee CtvTx Fanout Covenant FanoutSet OrderedChunks RewardParallel OrderedJson AuditBundle AuditBuild.
From Stdlib Require Import Sorting.Permutation.

Open Scope Z_scope.

#[export] Instance payout_output_eq_dec : EqDecision PayoutOutput.
Proof. solve_decision. Defined.
#[export] Instance payout_manifest_eq_dec : EqDecision PayoutManifest.
Proof. solve_decision. Defined.
#[export] Instance reward_manifest_eq_dec : EqDecision PrismRewardManifest.
Proof. solve_decision. Defined.

(** [if !holds { return Err(PrismError::AuditMismatch { artifact }) }]. *)
Definition require_audit (holds : bool) (artifact : string) : result PrismError unit :=
  if holds then Ok () else Err (AuditMismatch artifact).

(** [str::trim]: the UTF-8 encodings of Unicode white space, from one end. *)
Definition white_space : list (list Z) :=
  [[0x09]; [0x0a]; [0x0b]; [0x0c]; [0x0d]; [0x20]; [0xc2; 0x85]; [0xc2; 0xa0]; [0xe1; 0x9a; 0x80];
   [0xe2; 0x80; 0xa8]; [0xe2; 0x80; 0xa9]; [0xe2; 0x80; 0xaf]; [0xe2; 0x81; 0x9f]; [0xe3; 0x80; 0x80]] ++
  ((fun i => [0xe2; 0x80; 0x80 + Z.of_nat i]) <$> seq 0 11).
Fixpoint strip_prefix (pattern text : list Z) : option (list Z) :=
  match pattern, text with
  | [], _ => Some text
  | p :: pattern, t :: text => if p =? t then strip_prefix pattern text else None
  | _ :: _, [] => None
  end.
Fixpoint trim_front (fuel : nat) (patterns : list (list Z)) (text : list Z) : list Z :=
  match fuel, list_find (fun p => is_Some (strip_prefix p text)) patterns with
  | S fuel, Some (_, p) => trim_front fuel patterns (default text (strip_prefix p text))
  | _, _ => text
  end.
Definition trim (s : string) : string :=
  let text := (fun b => byte.unsigned b) <$> str_bytes s in
  let front := trim_front (length text) white_space text in
  let both := reverse (trim_front (length front) (reverse <$> white_space) (reverse front)) in
  String.string_of_list_byte (byte.of_Z <$> both).

Record AuditVerificationReport := {
  avr_schema : string;
  avr_block_height : Z;
  avr_coinbase_value_sats : Z;
  avr_reward_manifest_sha256_hex : string;
  avr_payout_policy_manifest_sha256_hex : string;
  avr_prism_audit_commitment_leaf_hex : string;
  avr_audit_commitment_root_hex : string;
  avr_coinbase_manifest_sha256_hex : string;
  avr_audit_bundle_sha256_hex : string;
  avr_coinbase_txid : string;
  avr_coinbase_wtxid : string;
  avr_coinbase_tx_hex : string;
  avr_min_output_sats : Z;
  avr_coinbase_output_policy : CoinbaseOutputPolicy;
  avr_onchain_output_count : Z;
  avr_accrued_account_count : Z;
}.

(** * Checks *)
Definition hex_vec_eq_ignore_ascii_case (left right : list string) : bool :=
  (length left =? length right)%nat && forallb (fun lr => eq_ignore_ascii_case lr.1 lr.2) (zip left right).
Definition settlement_recipient_cmp : SettlementRecipient -> SettlementRecipient -> comparison :=
  cmp_then canonical_cmp (cmp_on sr_amount_sats Z.compare).

Definition matches_pool_fee (pool_fee : PoolFeeManifest) (id key program : string) : bool :=
  String.eqb id (pf_recipient_id pool_fee) && String.eqb key (pf_order_key pool_fee) &&
  eq_ignore_ascii_case program (pf_p2mr_program_hex pool_fee).
Definition recipient_matches_fee (pool_fee : PoolFeeManifest) (r : SettlementRecipient) : bool :=
  matches_pool_fee pool_fee (sr_recipient_id r) (sr_order_key r) (sr_p2mr_program_hex r).
Definition verify_coinbase_output_policy (policy_manifest : PayoutPolicyManifest)
    (settlement_mode_decision : option SettlementModeDecision) (coinbase_manifest : PayoutManifest)
  : result PrismError unit :=
  match pool_fee_first_output policy_manifest with
  | None => Ok ()
  | Some pool_fee =>
      first_output ← ok_or (head (pm_outputs coinbase_manifest)) (AuditMismatch "coinbase_output_policy");
      _ ← require_audit ((po_vout first_output =? 0) &&
            matches_pool_fee pool_fee (po_recipient_id first_output) (po_order_key first_output)
              (po_p2mr_program_hex first_output) &&
            (po_amount_sats first_output =? pf_amount_sats pool_fee)) "coinbase_output_policy";
      match settlement_mode_decision with
      | None => Ok ()
      | Some decision =>
          let fee_is_direct := existsb (recipient_matches_fee pool_fee) (smd_direct_recipients decision) in
          let fee_in_fanout := existsb (fun chunk => existsb (recipient_matches_fee pool_fee) (sfc_recipients chunk))
                                 (smd_fanout_chunks decision) in
          require_audit (fee_is_direct && negb fee_in_fanout) "coinbase_output_policy"
      end
  end.

Section verify.
Context `{HexCrate, Sha256Crate, Ed25519Crate}.
Context `{!ToJson string, !ToJson Z, !ToJson WindowCut, !ToJson CountedShare, !ToJson (list CountedShare)}.
Context `{!ToJson (list WeightedEntitlement), !ToJson AcceptedShare, !ToJson (list AcceptedShare)}.
Context `{!ToJson FoundBlock, !ToJson (list CarryForwardBalance), !ToJson PayoutPolicy, !ToJson (list string)}.
Context `{!ToJson LedgerWindowAttestation, !ToJson PayoutPolicyManifest, !ToJson SettlementModeDecision}.
Context `{!ToJson FanoutFeeRatePolicy, !ToJson CtvFanoutManifestSet, !ToJson SignedPayoutManifest}.
Context `{!ToJson PayoutManifest, !ToJson CtvFanoutPrecommitment}.

Definition verify_ledger_window_attestation (bundle : AuditBundle) (writer_public_key_hex : string)
  : result PrismError unit :=
  let attestation := ab_ledger_window_attestation bundle in
  _ ← require_audit (String.eqb (lwa_schema attestation) "qbit.prism.ledger-window-attestation.v1")
        "ledger_attestation_schema";
  _ ← require_audit
        ((lwa_anchor_job_issued_at_ms attestation =? fb_anchor_job_issued_at_ms (ab_found_block bundle)) &&
         (lwa_network_difficulty attestation =? fb_network_difficulty (ab_found_block bundle)) &&
         (lwa_block_height attestation =? fb_block_height (ab_found_block bundle)) &&
         (lwa_coinbase_value_sats attestation =? fb_coinbase_value_sats (ab_found_block bundle)))
        "ledger_attestation_scope";
  _ ← require_audit (String.eqb (lwa_share_slice_digest_hex attestation)
                       (rm_share_slice_digest_hex (ab_reward_manifest bundle)))
        "ledger_attestation_share_digest";
  _ ← require_audit (String.eqb (lwa_prior_balances_digest_hex attestation)
                       (prior_balances_digest_hex (ab_prior_balances bundle)))
        "ledger_attestation_prior_digest";
  _ ← require_audit (eq_ignore_ascii_case (ms_public_key_hex (lwa_signature attestation)) writer_public_key_hex)
        "ledger_attestation_public_key";
  _ ← require_audit (String.eqb (ms_algorithm (lwa_signature attestation)) "ed25519")
        "ledger_attestation_signature";
  message ← map_err PrismJson (canonical_ledger_window_attestation_bytes attestation);
  map_err Builder (verify_ed25519_message (ms_public_key_hex (lwa_signature attestation)) message
                     (ms_signature_hex (lwa_signature attestation))).

(** What a fanout manifest pays, gross of its fee. *)
Definition covered_by_output (o : CtvFanoutOutput) : SettlementRecipient :=
  {| sr_recipient_id := cfo_recipient_id o; sr_order_key := cfo_order_key o;
     sr_p2mr_program_hex := cfo_p2mr_program_hex o;
     sr_amount_sats := if cfo_gross_amount_sats o =? 0 then cfo_amount_sats o else cfo_gross_amount_sats o |}.
Definition entitlement_of_manifest (m : CtvFanoutManifest) : WeightedEntitlement :=
  let chunk_index := cpc_chunk_index (cfm_precommitment m) in
  {| we_recipient_id := "ctv-fanout-" +:+ pretty chunk_index;
     we_order_key := "ctv-fanout-" +:+ pad8 chunk_index;
     we_p2mr_program_hex := cpc_p2mr_program_hex (cfm_precommitment m);
     we_weight := cfm_covenant_output_value_sats m |}.
Definition verify_set_member (coinbase_manifest : PayoutManifest) (audit_commitment_leaves_hex : list string)
    (m : CtvFanoutManifest) : result PrismError unit :=
  _ ← require_audit (String.eqb (cfm_parent_coinbase_tx_hex m) (pm_coinbase_tx_hex coinbase_manifest))
        "ctv_fanout_parent_coinbase_tx";
  verify_ctv_fanout_manifest_commitment_leaf m audit_commitment_leaves_hex.
(** The entitlements and recipients the fanout set stands for. *)
Definition verify_fanout_coverage (decision : SettlementModeDecision)
    (fanout_set : option CtvFanoutManifestSet) (coinbase_manifest : PayoutManifest)
    (audit_commitment_leaves_hex : list string)
  : result PrismError (list WeightedEntitlement * list SettlementRecipient) :=
  if smd_fanout_chunk_count decision =? 0 then
    _ ← require_audit (match fanout_set with None => true | Some _ => false end) "unexpected_ctv_fanout_manifest_set";
    Ok ([], [])
  else
    fanout_set ← ok_or fanout_set (AuditMismatch "ctv_fanout_manifest_set");
    _ ← verify_ctv_fanout_manifest_set fanout_set;
    _ ← require_audit (String.eqb (cfs_parent_coinbase_txid fanout_set) (pm_coinbase_txid coinbase_manifest))
          "ctv_fanout_parent_coinbase";
    _ ← require_audit (bool_decide (cfs_settlement_mode fanout_set = smd_mode decision))
          "ctv_fanout_settlement_mode";
    _ ← require_audit (cfs_fanout_count fanout_set =? smd_fanout_chunk_count decision)
          "ctv_fanout_chunk_count";
    _ ← collect (verify_set_member coinbase_manifest audit_commitment_leaves_hex) (cfs_manifests fanout_set);
    Ok (entitlement_of_manifest <$> cfs_manifests fanout_set,
        cfs_manifests fanout_set ≫= fun m => covered_by_output <$> cpc_outputs (cfm_precommitment m)).
Definition verify_ctv_settlement_bundle (decision : SettlementModeDecision)
    (fanout_set : option CtvFanoutManifestSet) (policy_manifest : PayoutPolicyManifest)
    (coinbase_manifest : PayoutManifest) (audit_commitment_leaves_hex : list string)
  : result PrismError (list WeightedEntitlement) :=
  '(fanout_entitlements, fanout_recipients) ←
    verify_fanout_coverage decision fanout_set coinbase_manifest audit_commitment_leaves_hex;
  expected ← settlement_recipients_from_entitlements (ppm_onchain_entitlements policy_manifest);
  _ ← require_audit (bool_decide
        (sort_by settlement_recipient_cmp (smd_direct_recipients decision ++ fanout_recipients) =
         sort_by settlement_recipient_cmp expected)) "ctv_settlement_coverage";
  Ok ((entitlement_of_recipient <$> smd_direct_recipients decision) ++ fanout_entitlements).

Definition audit_verification_report (bundle : AuditBundle) (coinbase_manifest : PayoutManifest)
  : result PrismError AuditVerificationReport :=
  reward_bytes ← map_err PrismJson (canonical_reward_manifest_bytes (ab_reward_manifest bundle));
  policy_bytes ← map_err PrismJson
    (canonical_payout_policy_manifest_bytes (ab_payout_policy_manifest bundle));
  leaf ← prism_audit_commitment_leaf_hex (ab_reward_manifest bundle) (ab_payout_policy_manifest bundle);
  root ← audit_commitment_root_hex (ab_audit_commitment_leaves_hex bundle);
  manifest_bytes ← map_err PrismJson (to_writer coinbase_manifest);
  bundle_bytes ← map_err PrismJson (canonical_audit_bundle_bytes bundle);
  Ok {| avr_schema := "qbit.prism.audit-verification-report.v1";
        avr_block_height := fb_block_height (ab_found_block bundle);
        avr_coinbase_value_sats := fb_coinbase_value_sats (ab_found_block bundle);
        avr_reward_manifest_sha256_hex := sha256_hex reward_bytes;
        avr_payout_policy_manifest_sha256_hex := sha256_hex policy_bytes;
        avr_prism_audit_commitment_leaf_hex := leaf;
        avr_audit_commitment_root_hex := root;
        avr_coinbase_manifest_sha256_hex := sha256_hex manifest_bytes;
        avr_audit_bundle_sha256_hex := sha256_hex bundle_bytes;
        avr_coinbase_txid := pm_coinbase_txid coinbase_manifest;
        avr_coinbase_wtxid := pm_coinbase_wtxid coinbase_manifest;
        avr_coinbase_tx_hex := pm_coinbase_tx_hex coinbase_manifest;
        avr_min_output_sats := ppm_min_output_sats (ab_payout_policy_manifest bundle);
        avr_coinbase_output_policy := ppm_coinbase_output_policy (ab_payout_policy_manifest bundle);
        avr_onchain_output_count := Z.of_nat (length (pm_outputs coinbase_manifest));
        avr_accrued_account_count := Z.of_nat (length
          (filter (fun a => ppa_action a = Accrued) (ppm_accounts (ab_payout_policy_manifest bundle)))) |}.

(** The policy manifest a bundle must carry. *)
Definition expected_policy_of (bundle : AuditBundle) (reward_manifest : PrismRewardManifest)
  : result PrismError PayoutPolicyManifest :=
  policy ← apply_payout_policy reward_manifest (ab_prior_balances bundle) (ab_payout_policy bundle);
  match ab_settlement_mode_decision bundle, ab_ctv_fanout_fee_policy bundle with
  | Some decision, Some fee_policy =>
      '(policy, _) ← apply_ctv_fanout_fee_accounting policy decision fee_policy; Ok policy
  | _, _ => Ok policy
  end.
(** The coinbase entitlements and commitment leaves it must carry. *)
Definition expected_settlement_of (bundle : AuditBundle) (policy : PayoutPolicyManifest) (leaf : string)
  : result PrismError (list WeightedEntitlement * list string) :=
  match ab_settlement_mode_decision bundle with
  | Some decision =>
      entitlements ← verify_ctv_settlement_bundle decision (ab_ctv_fanout_manifest_set bundle) policy
        (spm_manifest (ab_signed_coinbase_manifest bundle)) (ab_audit_commitment_leaves_hex bundle);
      Ok (entitlements, leaf :: match ab_ctv_fanout_manifest_set bundle with
        | Some set => cfm_commitment_witness_leaf_hex <$> cfs_manifests set | None => [] end)
  | None => Ok (ppm_onchain_entitlements policy, [leaf])
  end.

Definition verify_audit_view (bundle : AuditBundle) (ledger_writer_public_key_hex : string)
  : result PrismError AuditVerificationReport :=
  let manifest := spm_manifest (ab_signed_coinbase_manifest bundle) in
  _ ← require_audit (String.eqb (ab_schema bundle) (audit_bundle_schema_for_shares (ab_shares bundle))) "schema";
  _ ← verify_ledger_window_attestation bundle ledger_writer_public_key_hex;
  _ ← map_err Builder (verify_signed_manifest (ab_signed_coinbase_manifest bundle));
  expected_reward ← build_prism_reward_manifest_with_cut (ab_shares bundle) (ab_found_block bundle)
                      (rm_cut (ab_reward_manifest bundle));
  _ ← require_audit (bool_decide (expected_reward = ab_reward_manifest bundle)) "reward_manifest";
  expected_policy ← expected_policy_of bundle expected_reward;
  _ ← require_audit (bool_decide (expected_policy = ab_payout_policy_manifest bundle)) "payout_policy_manifest";
  _ ← verify_coinbase_output_policy expected_policy (ab_settlement_mode_decision bundle) manifest;
  leaf ← prism_audit_commitment_leaf_hex expected_reward expected_policy;
  '(entitlements, leaves) ← expected_settlement_of bundle expected_policy leaf;
  _ ← require_audit (hex_vec_eq_ignore_ascii_case (ab_audit_commitment_leaves_hex bundle) leaves)
        "audit_commitment_leaves";
  root ← audit_commitment_root_hex leaves;
  _ ← require_audit (from_option (fun r => eq_ignore_ascii_case r root) false (ab_audit_commitment_root_hex bundle))
        "audit_commitment_root";
  expected_manifest ← map_err Builder (build_manifest
    {| cbr_block_height := rm_block_height expected_reward;
       cbr_coinbase_value_sats := rm_coinbase_value_sats expected_reward;
       cbr_entitlements := entitlements;
       cbr_witness_nonce_hex := Some root;
       cbr_witness_merkle_leaves_hex := ab_witness_merkle_leaves_hex bundle;
       cbr_coinbase_script_sig_suffix_hex := ab_coinbase_script_sig_suffix_hex bundle;
       cbr_pinned_first_output := pinned_first_output_for_policy expected_policy |});
  _ ← require_audit (bool_decide (expected_manifest = manifest)) "coinbase_manifest";
  audit_verification_report bundle expected_manifest.

Definition verify_audit_bundle (bundle : AuditBundle) (ledger_writer_public_key_hex : string)
  : result PrismError AuditVerificationReport := verify_audit_view bundle ledger_writer_public_key_hex.
Definition verify_audit_parts (body : AuditBundleBody) (shares : list AcceptedShare)
    (ledger_writer_public_key_hex : string) : result PrismError AuditVerificationReport :=
  verify_audit_view (into_bundle body shares) ledger_writer_public_key_hex.
Definition verify_audit_view_against_coinbase_tx_hex (bundle : AuditBundle)
    (onchain_coinbase_tx_hex ledger_writer_public_key_hex : string) : result PrismError AuditVerificationReport :=
  report ← verify_audit_view bundle ledger_writer_public_key_hex;
  if negb (eq_ignore_ascii_case (avr_coinbase_tx_hex report) (trim onchain_coinbase_tx_hex))
  then Err AuditCoinbaseTxMismatch else Ok report.
Definition verify_audit_view_against_coinbase_tx_hex_and_expected_coinbase_value (bundle : AuditBundle)
    (onchain_coinbase_tx_hex ledger_writer_public_key_hex : string) (expected_coinbase_value_sats : Z)
  : result PrismError AuditVerificationReport :=
  report ← verify_audit_view_against_coinbase_tx_hex bundle onchain_coinbase_tx_hex ledger_writer_public_key_hex;
  if negb (avr_coinbase_value_sats report =? expected_coinbase_value_sats)
  then Err (ExpectedCoinbaseValueMismatch expected_coinbase_value_sats (avr_coinbase_value_sats report))
  else Ok report.
Definition verify_audit_bundle_with_ledger_public_key (bundle : AuditBundle) (writer_public_key_hex : string)
  : result PrismError AuditVerificationReport := verify_audit_bundle bundle writer_public_key_hex.
Definition verify_audit_bundle_against_coinbase_tx_hex (bundle : AuditBundle)
    (onchain_coinbase_tx_hex ledger_writer_public_key_hex : string) : result PrismError AuditVerificationReport :=
  verify_audit_view_against_coinbase_tx_hex bundle onchain_coinbase_tx_hex ledger_writer_public_key_hex.
Definition verify_audit_parts_against_coinbase_tx_hex (body : AuditBundleBody) (shares : list AcceptedShare)
    (onchain_coinbase_tx_hex ledger_writer_public_key_hex : string) : result PrismError AuditVerificationReport :=
  verify_audit_view_against_coinbase_tx_hex (into_bundle body shares) onchain_coinbase_tx_hex
    ledger_writer_public_key_hex.
Definition verify_audit_bundle_against_coinbase_tx_hex_and_expected_coinbase_value (bundle : AuditBundle)
    (onchain_coinbase_tx_hex ledger_writer_public_key_hex : string) (expected_coinbase_value_sats : Z)
  : result PrismError AuditVerificationReport :=
  verify_audit_view_against_coinbase_tx_hex_and_expected_coinbase_value bundle onchain_coinbase_tx_hex
    ledger_writer_public_key_hex expected_coinbase_value_sats.
Definition verify_audit_parts_against_coinbase_tx_hex_and_expected_coinbase_value (body : AuditBundleBody)
    (shares : list AcceptedShare) (onchain_coinbase_tx_hex ledger_writer_public_key_hex : string)
    (expected_coinbase_value_sats : Z) : result PrismError AuditVerificationReport :=
  verify_audit_view_against_coinbase_tx_hex_and_expected_coinbase_value (into_bundle body shares)
    onchain_coinbase_tx_hex ledger_writer_public_key_hex expected_coinbase_value_sats.
End verify.
