(* ===== verification/AuditFacts.v ===== *)
(** What an audit shows: a bundle the builders make passes the verifier, and a
    bundle that passes has a coinbase that pays what its shares earned. *)
From Stdlib Require Import ZArith Lia.
From Stdlib Require Ascii String.
From coqutil Require Import Byte.
From stdpp Require Import base list strings pretty gmap sorting.
From S2P Require Import Prelude Order BTree Bytes Crates Payee Apportion PrismError PoolBuilder CoinbaseTx PayoutManifest WindowCut RewardWindow ByProgram.
From S2P Require Import PayoutPolicy Settlement FanoutFee CtvTx CtvHash Fanout Covenant FanoutSet OrderedChunks RewardParallel OrderedJson AuditBundle AuditBuild AuditVerify.
From Stdlib Require Import Sorting.Permutation.

Open Scope Z_scope.

Lemma require_audit_Ok holds artifact u : require_audit holds artifact = Ok u ↔ holds = true.
Proof. destruct holds, u; naive_solver. Qed.
Lemma require_audit_pass {A} holds artifact (k : unit -> result PrismError A) :
  holds = true → (require_audit holds artifact ≫= k) = k ().
Proof. by intros ->. Qed.

(** * Inputs *)
(** The widths of what the builder is given. *)
Record wf_inputs (shares : list AcceptedShare) (fb : FoundBlock) (policy : PayoutPolicy) : Prop := {
  wi_shares : Forall wf_share shares;
  wi_found : wf_found fb;
  wi_bytes : fits U64 (pp_p2mr_spend_input_bytes policy) = true;
  wi_feerate : fits U64 (pp_target_feerate_sats_per_byte policy) = true;
  wi_multiplier : fits U64 (pp_safety_multiplier policy) = true;
  wi_floor : ∀ m, pp_min_output_sats policy = Some m → fits U64 m = true;
  wi_fee : ∀ p, pp_pool_fee_policy policy = Some p → fits U16 (pfp_fee_bps p) = true;
}.
Lemma wf_policy_of_inputs `{HexCrate, Sha256Crate} shares fb cut policy rm :
  wf_inputs shares fb policy → build_prism_reward_manifest_with_cut shares fb cut = Ok rm →
  wf_policy_input rm policy.
Proof.
  intros Hwf Hb. destruct (build_manifest_parts _ _ _ _ Hb) as (_ & Hv & _ & _ & _ & w & Hw & He).
  destruct Hwf as [Hs Hf H1 H2 H3 H4 H5]. constructor; try done.
  - rewrite Hv. by apply wff_value.
  - rewrite He. by eapply window_weights_fit.
Qed.

(** * The coinbase of a request whose weights are its value *)
Section coinbase.
Context `{HexCrate, !HexLaws, Sha256Crate}.

(** The output pays the entitlement, exactly. *)
Record paid (e : WeightedEntitlement) (o : PayoutOutput) : Prop := {
  paid_recipient : po_recipient_id o = we_recipient_id e;
  paid_order_key : po_order_key o = we_order_key e;
  paid_program : po_p2mr_program_hex o = to_ascii_lowercase (we_p2mr_program_hex e);
  paid_script : ∃ program, hex_decode (we_p2mr_program_hex e) = inr program ∧
    hex_decode (po_script_pubkey_hex o) = inr (p2mr_script_pubkey program);
  paid_amount : po_amount_sats o = we_weight e;
}.

Lemma manifest_pays request manifest :
  wf_request request → sum_of we_weight (cbr_entitlements request) = cbr_coinbase_value_sats request →
  build_manifest request = Ok manifest →
  ∃ es, arrange_entitlements request = Ok es ∧ es ≡ₚ cbr_entitlements request ∧
    Forall2 paid es (pm_outputs manifest).
Proof.
  intros Hwf Hsum Hm. destruct (build_manifest_inv _ _ Hm) as (built & Hb & -> & _).
  destruct (build_coinbase_inv _ _ Hb) as (script & nonce & leaves & Hp).
  pose proof (cp_outputs _ _ _ _ _ Hp) as Ho.
  destruct (allocate_outputs_split _ _ Hwf Ho) as (es & Hes & Hperm & _).
  exists es. split_and!; [done..|]. pose proof (allocate_exact_of _ _ _ Hwf Ho Hes Hsum) as HF.
  apply Forall2_lookup. intros i. rewrite list_lookup_imap. rewrite Forall2_lookup in HF. specialize (HF i).
  inversion HF as [e o Heo He Hout|Hn Hout]; cbn; constructor.
  destruct Heo as [(Hr & Hk & Hd & Hl & Hs & Hw) Ha]. constructor; cbn; try done.
  - by apply hex_encode_decode.
  - exists (ao_p2mr_program o). rewrite Hs, hex_decode_encode. done.
Qed.
Lemma manifest_vouts request manifest i o :
  build_manifest request = Ok manifest → pm_outputs manifest !! i = Some o → po_vout o = Z.of_nat i.
Proof.
  intros Hm. destruct (build_manifest_inv _ _ Hm) as (built & _ & -> & _). rewrite list_lookup_imap.
  destruct (bc_outputs built !! i); [|done]. by intros [= <-].
Qed.

(** The pinned output leads, and it is the only match. *)
Lemma pinned_leads request pinned es :
  cbr_pinned_first_output request = Some pinned → arrange_entitlements request = Ok es →
  ∃ e rest, es = e :: rest ∧ pinned_matches pinned e = true ∧
    ∀ e', e' ∈ cbr_entitlements request → pinned_matches pinned e' = true → e' = e.
Proof.
  intros Hpin Hes. pose proof (arrange_entitlements_perm _ _ Hes) as Hperm.
  unfold arrange_entitlements in Hes. rewrite Hpin in Hes. apply bind_Ok in Hes as (i & Hi & [= <-]).
  apply pinned_entitlement_index_Ok in Hi as [(e & He & Hm) Huniq].
  eexists e, _. unfold rotate_to_front. rewrite He. split_and!; [done..|].
  intros e' He' Hm'. rewrite <- (sort_by_perm compare_entitlements) in He'.
  apply list_elem_of_lookup in He' as (j & Hj). rewrite (Huniq j e' Hj Hm') in Hj. congruence.
Qed.

Definition pool_fee_pin (p : PoolFeeManifest) : PinnedFirstOutput :=
  {| pfo_recipient_id := pf_recipient_id p; pfo_order_key := pf_order_key p;
     pfo_p2mr_program_hex := pf_p2mr_program_hex p |}.
Lemma output_policy_pass policy decision request manifest p :
  pool_fee_first_output policy = Some p →
  cbr_pinned_first_output request = pinned_first_output_for_policy policy →
  wf_request request → sum_of we_weight (cbr_entitlements request) = cbr_coinbase_value_sats request →
  build_manifest request = Ok manifest →
  (∃ e, e ∈ cbr_entitlements request ∧ pinned_matches (pool_fee_pin p) e = true ∧ we_weight e = pf_amount_sats p) →
  match decision with
  | None => True
  | Some d => existsb (recipient_matches_fee p) (smd_direct_recipients d) = true ∧
      existsb (fun chunk => existsb (recipient_matches_fee p) (sfc_recipients chunk)) (smd_fanout_chunks d) = false
  end →
  verify_coinbase_output_policy policy decision manifest = Ok ().
Proof.
  intros Hp Hpin Hwf Hsum Hm He Hd. unfold verify_coinbase_output_policy. rewrite Hp.
  unfold pinned_first_output_for_policy in Hpin. rewrite Hp in Hpin. cbn in Hpin.
  destruct (manifest_pays _ _ Hwf Hsum Hm) as (es & Hes & _ & HF).
  destruct (pinned_leads _ _ _ Hpin Hes) as (e & rest & -> & Hmatch & Huniq).
  inversion HF as [|? o ? os Hpaid HF' Hl Ho]; subst.
  assert (we_weight e = pf_amount_sats p) as Hamount.
  { destruct He as (e' & He & Hm' & Hw). by rewrite <- (Huniq _ He Hm'). }
  unfold pinned_matches in Hmatch. cbn in Hmatch. apply andb_true_iff in Hmatch as [[M1 M2]%andb_true_iff M3].
  apply String.eqb_eq in M1, M2. apply eq_ignore_ascii_case_iff in M3.
  cbn [head ok_or mbind result_bind]. rewrite require_audit_pass.
  { destruct decision as [d|]; [|done]. destruct Hd as [-> ->]. done. }
  rewrite (manifest_vouts _ _ 0%nat o Hm) by (by rewrite <- Ho). rewrite (paid_amount _ _ Hpaid), Hamount.
  unfold matches_pool_fee. rewrite (paid_recipient _ _ Hpaid), (paid_order_key _ _ Hpaid), (paid_program _ _ Hpaid).
  rewrite M1, M2, !String.eqb_refl. cbn. apply andb_true_iff. split; [|apply Z.eqb_refl]. apply eq_ignore_ascii_case_iff.
  by rewrite to_ascii_lowercase_idem.
Qed.
End coinbase.

(** * Building blocks of a passing audit *)
Section audit.
Context `{HexCrate, !HexLaws, Sha256Crate, !Sha256Laws, Ed25519Crate, !Ed25519Laws, ChunkRunner}.
Context `{!ToJson string, !ToJson Z, !ToJson WindowCut, !ToJson CountedShare, !ToJson (list CountedShare)}.
Context `{!ToJson (list WeightedEntitlement), !ToJson AcceptedShare, !ToJson (list AcceptedShare)}.
Context `{!ToJson FoundBlock, !ToJson (list CarryForwardBalance), !ToJson PayoutPolicy, !ToJson (list string)}.
Context `{!ToJson LedgerWindowAttestation, !ToJson PayoutPolicyManifest, !ToJson SettlementModeDecision}.
Context `{!ToJson FanoutFeeRatePolicy, !ToJson CtvFanoutManifestSet, !ToJson SignedPayoutManifest}.
Context `{!ToJson PayoutManifest, !ToJson CtvFanoutPrecommitment, !JsonArray CountedShare}.

Lemma attestation_pass rm prior key attestation bundle :
  build_ledger_window_attestation rm prior key = Ok attestation →
  ab_ledger_window_attestation bundle = attestation → ab_reward_manifest bundle = rm →
  ab_prior_balances bundle = prior →
  rm_block_height rm = fb_block_height (ab_found_block bundle) →
  rm_coinbase_value_sats rm = fb_coinbase_value_sats (ab_found_block bundle) →
  rm_network_difficulty rm = fb_network_difficulty (ab_found_block bundle) →
  rm_anchor_job_issued_at_ms rm = fb_anchor_job_issued_at_ms (ab_found_block bundle) →
  verify_ledger_window_attestation bundle (public_key_hex key) = Ok ().
Proof.
  unfold build_ledger_window_attestation. intros (payload & Hp%map_err_Ok & [= <-])%bind_Ok Ha Hr Hpr Hh Hv Hn Hm.
  unfold verify_ledger_window_attestation. rewrite Ha. cbn [lwa_schema lwa_anchor_job_issued_at_ms
    lwa_network_difficulty lwa_block_height lwa_coinbase_value_sats lwa_share_slice_digest_hex
    lwa_prior_balances_digest_hex lwa_signature ms_public_key_hex ms_algorithm ms_signature_hex].
  rewrite <- Hh, <- Hv, <- Hn, <- Hm, Hr, Hpr, !Z.eqb_refl, !String.eqb_refl, eq_ignore_ascii_case_refl.
  cbn [require_audit andb mbind result_bind].
  assert (∀ s, canonical_ledger_window_attestation_bytes {|
    lwa_schema := "qbit.prism.ledger-window-attestation.v1"; lwa_block_height := rm_block_height rm;
    lwa_coinbase_value_sats := rm_coinbase_value_sats rm;
    lwa_anchor_job_issued_at_ms := rm_anchor_job_issued_at_ms rm;
    lwa_network_difficulty := rm_network_difficulty rm;
    lwa_share_slice_digest_hex := rm_share_slice_digest_hex rm;
    lwa_prior_balances_digest_hex := prior_balances_digest_hex prior; lwa_signature := s |} = Ok payload) as Hany by done.
  rewrite Hany. cbn [map_err mbind result_bind]. by rewrite verify_signed_message.
Qed.

Lemma signed_manifest_pass request key signed :
  build_profiled_signed_manifest request key = Ok signed →
  build_manifest request = Ok (spm_manifest signed) ∧ verify_signed_manifest signed = Ok () ∧
  ∃ bytes, to_writer (spm_manifest signed) = Ok bytes.
Proof.
  unfold build_profiled_signed_manifest. intros (m & Hm%map_err_Ok & (bytes & Hb%map_err_Ok & [= <-])%bind_Ok)%bind_Ok.
  cbn. split_and!; [done| |].
  - unfold verify_signed_manifest. cbn. rewrite Hb. cbn. apply verify_signed_message.
  - exists bytes. apply to_writer_Ok. unfold canonical_manifest_bytes in Hb. destruct (json_to_vec m); congruence.
Qed.

(** The builder's digests give the verifier's leaf. *)
Lemma leaf_pass rm policy p h bytes :
  reward_manifest_sha256 rm p = Ok h → canonical_payout_policy_manifest_bytes policy = Ok bytes →
  prism_audit_commitment_leaf_hex rm policy = Ok (commitment_leaf_hex h (sha256 bytes)) ∧
  ∃ reward, canonical_reward_manifest_bytes rm = Ok reward.
Proof.
  unfold reward_manifest_sha256. intros (reward & Hr%write_reward_manifest_iff & [= <-])%bind_Ok Hb.
  unfold prism_audit_commitment_leaf_hex, canonical_reward_manifest_bytes. rewrite Hr, Hb. cbn. eauto.
Qed.

Lemma hex_vec_refl l : hex_vec_eq_ignore_ascii_case l l = true.
Proof.
  unfold hex_vec_eq_ignore_ascii_case. rewrite Nat.eqb_refl. cbn [andb].
  induction l as [|x l IH]; [done|]. cbn [zip_with forallb fst snd]. by rewrite eq_ignore_ascii_case_refl.
Qed.

(** A bundle whose parts are what the verifier recomputes passes. *)
Record consistent (bundle : AuditBundle) (key : string) (entitlements : list WeightedEntitlement)
    (leaf root : string) : Prop := {
  co_schema : ab_schema bundle = audit_bundle_schema_for_shares (ab_shares bundle);
  co_attestation : verify_ledger_window_attestation bundle key = Ok ();
  co_signed : verify_signed_manifest (ab_signed_coinbase_manifest bundle) = Ok ();
  co_reward : build_prism_reward_manifest_with_cut (ab_shares bundle) (ab_found_block bundle)
    (rm_cut (ab_reward_manifest bundle)) = Ok (ab_reward_manifest bundle);
  co_policy : expected_policy_of bundle (ab_reward_manifest bundle) = Ok (ab_payout_policy_manifest bundle);
  co_output_policy : verify_coinbase_output_policy (ab_payout_policy_manifest bundle)
    (ab_settlement_mode_decision bundle) (spm_manifest (ab_signed_coinbase_manifest bundle)) = Ok ();
  co_leaf : prism_audit_commitment_leaf_hex (ab_reward_manifest bundle) (ab_payout_policy_manifest bundle) = Ok leaf;
  co_settlement : expected_settlement_of bundle (ab_payout_policy_manifest bundle) leaf =
    Ok (entitlements, ab_audit_commitment_leaves_hex bundle);
  co_root : audit_commitment_root_hex (ab_audit_commitment_leaves_hex bundle) = Ok root;
  co_root_field : ab_audit_commitment_root_hex bundle = Some root;
  co_manifest : build_manifest
    {| cbr_block_height := rm_block_height (ab_reward_manifest bundle);
       cbr_coinbase_value_sats := rm_coinbase_value_sats (ab_reward_manifest bundle);
       cbr_entitlements := entitlements; cbr_witness_nonce_hex := Some root;
       cbr_witness_merkle_leaves_hex := ab_witness_merkle_leaves_hex bundle;
       cbr_coinbase_script_sig_suffix_hex := ab_coinbase_script_sig_suffix_hex bundle;
       cbr_pinned_first_output := pinned_first_output_for_policy (ab_payout_policy_manifest bundle) |}
    = Ok (spm_manifest (ab_signed_coinbase_manifest bundle));
}.

Lemma consistent_pass bundle key entitlements leaf root b1 b2 b3 bytes :
  consistent bundle key entitlements leaf root →
  canonical_reward_manifest_bytes (ab_reward_manifest bundle) = Ok b1 →
  canonical_payout_policy_manifest_bytes (ab_payout_policy_manifest bundle) = Ok b2 →
  to_writer (spm_manifest (ab_signed_coinbase_manifest bundle)) = Ok b3 →
  canonical_audit_bundle_bytes bundle = Ok bytes →
  ∃ report, verify_audit_view bundle key = Ok report ∧
    avr_audit_bundle_sha256_hex report = sha256_hex bytes ∧
    avr_coinbase_tx_hex report = pm_coinbase_tx_hex (spm_manifest (ab_signed_coinbase_manifest bundle)) ∧
    avr_coinbase_value_sats report = fb_coinbase_value_sats (ab_found_block bundle).
Proof.
  intros [Hsch Hatt Hsig Hrew Hpol Hout Hleaf Hset Hroot Hrf Hman] J1 J2 J3 Hb.
  unfold verify_audit_view. rewrite Hsch, String.eqb_refl, Hatt, Hsig, Hrew. cbn [require_audit map_err mbind result_bind].
  rewrite bool_decide_eq_true_2 by done. rewrite Hpol. cbn [require_audit mbind result_bind].
  rewrite bool_decide_eq_true_2 by done. rewrite Hout, Hleaf. cbn [mbind result_bind]. rewrite Hset. cbn [mbind result_bind].
  rewrite hex_vec_refl. cbn [require_audit mbind result_bind]. rewrite Hroot, Hrf.
  cbn [require_audit mbind result_bind from_option]. rewrite eq_ignore_ascii_case_refl, Hman.
  cbn [require_audit map_err mbind result_bind]. rewrite bool_decide_eq_true_2 by done.
  cbn [require_audit mbind result_bind]. unfold audit_verification_report.
  rewrite J1, J2, Hleaf, Hroot, J3, Hb. cbn. eauto.
Qed.

(** What the policy manifest of well-typed inputs guarantees. *)
Record policy_facts (rm : PrismRewardManifest) (manifest : PayoutPolicyManifest) : Prop := {
  pf_positive : Forall (fun e => 0 < we_weight e) (ppm_onchain_entitlements manifest);
  pf_total : sum_of we_weight (ppm_onchain_entitlements manifest) = rm_coinbase_value_sats rm;
  pf_value : fits U64 (rm_coinbase_value_sats rm) = true;
  pf_programs : NoDup (program_key <$> ppm_onchain_entitlements manifest);
  pf_fee_listed p : pool_fee_first_output manifest = Some p →
    onchain_entitlement (pool_fee_account p) ∈ ppm_onchain_entitlements manifest;
  pf_floor : 0 ≤ ppm_min_output_sats manifest;
}.
Lemma policy_facts_of shares fb cut prior policy rm manifest :
  wf_inputs shares fb policy → build_prism_reward_manifest_with_cut shares fb cut = Ok rm →
  apply_payout_policy rm prior policy = Ok manifest → policy_facts rm manifest.
Proof.
  intros Hwf Hrm Hp. pose proof (wf_policy_of_inputs _ _ _ _ _ Hwf Hrm) as Hw.
  destruct (apply_payout_policy_outcome _ _ _ _ Hw Hp) as (miners & earned & dust & Ho).
  destruct (outcome_weights _ _ _ _ _ _ _ Ho) as (Hpos & Hsum & _ & Hnd).
  constructor; try done; [apply Hw| |].
  - intros p Hfee. by eapply fee_entitlement_listed.
  - eapply min_output_sats_nonneg; [exact Hw|apply Ho].
Qed.
Lemma policy_weight_bounds rm manifest e :
  policy_facts rm manifest → e ∈ ppm_onchain_entitlements manifest →
  0 < we_weight e ≤ rm_coinbase_value_sats rm ∧ fits U64 (we_weight e) = true.
Proof.
  intros F He. pose proof (pf_positive _ _ F) as Hpos. rewrite Forall_forall in Hpos.
  assert (we_weight e ≤ rm_coinbase_value_sats rm).
  { rewrite <- (pf_total _ _ F). apply sum_of_elem_le; [|done]. intros x Hx. specialize (Hpos x Hx). cbn in Hpos. lia. }
  specialize (Hpos e He). cbn in Hpos. pose proof (pf_value _ _ F). split; [lia|widths].
Qed.
Lemma fee_pin_matches p : pinned_matches (pool_fee_pin p) (onchain_entitlement (pool_fee_account p)) = true.
Proof.
  unfold pinned_matches. cbn -[eq_ignore_ascii_case]. by rewrite !String.eqb_refl, eq_ignore_ascii_case_refl.
Qed.

(** C23: Every bundle the builder makes without a CTV settlement passes the
    verifier under the ledger writer's key, for every parallelism of the build;
    the report carries the digest of the bundle's canonical bytes and the very
    coinbase transaction the builder signed. *)
Theorem built_bundle_verifies shares fb cut prior policy suffix leaves ck lk p body bytes :
  wf_inputs shares fb policy → 1 ≤ par_chunk_len p →
  build_audit_bundle_body_with_coinbase_options_parallel shares fb cut prior policy suffix leaves ck lk p = Ok body →
  canonical_audit_bundle_bytes_from_parts body shares = Ok bytes →
  ∃ report, verify_audit_parts body shares (public_key_hex lk) = Ok report ∧
    avr_audit_bundle_sha256_hex report = sha256_hex bytes ∧
    avr_coinbase_tx_hex report = pm_coinbase_tx_hex (spm_manifest (abb_signed_coinbase_manifest body)) ∧
    avr_coinbase_value_sats report = fb_coinbase_value_sats fb.
Proof.
  intros Hwf Hp Hb Hbytes. unfold build_audit_bundle_body_with_coinbase_options_parallel in Hb.
  destruct (eq_ignore_ascii_case _ _); [done|]. rewrite parallel_manifest_eq in Hb by (done || apply Hwf).
  apply bind_Ok in Hb as (rm & Hrm & Hb). apply bind_Ok in Hb as (att & Hatt & Hb).
  apply bind_Ok in Hb as (manifest & Hman & Hb). apply bind_Ok in Hb as (h & Hh%map_err_Ok & Hb).
  apply bind_Ok in Hb as (pb & Hpb%map_err_Ok & Hb). apply bind_Ok in Hb as (root & Hroot & Hb).
  apply bind_Ok in Hb as (signed & Hsig & [= <-]).
  pose proof (policy_facts_of _ _ _ _ _ _ _ Hwf Hrm Hman) as F.
  destruct (build_manifest_parts _ _ _ _ Hrm) as (Ehh & Ev & En & Em & Ecut & _).
  destruct (signed_manifest_pass _ _ _ Hsig) as (Hbuilt & Hver & sb & Hsb).
  destruct (leaf_pass _ _ _ _ _ Hh Hpb) as (Hleaf & rb & Hrb).
  eapply consistent_pass; [constructor|exact Hrb|exact Hpb|exact Hsb|exact Hbytes]; cbn;
    [done|by eapply attestation_pass|done|by rewrite Ecut| | |exact Hleaf|done|exact Hroot|done|exact Hbuilt].
  - unfold expected_policy_of. cbn. by rewrite Hman.
  - destruct (pool_fee_first_output manifest) as [fee|] eqn:Hfee;
      [|unfold verify_coinbase_output_policy; by rewrite Hfee].
    refine (output_policy_pass _ _ _ _ _ Hfee _ _ _ Hbuilt _ _); [done| |exact (pf_total _ _ F)| |done].
    + constructor; cbn; [apply F| |rewrite Ehh; apply Hwf]. apply Forall_forall. intros e He.
      destruct (policy_weight_bounds _ _ _ F He). widths.
    + eexists. split_and!; [exact (pf_fee_listed _ _ F _ Hfee)|apply fee_pin_matches|done].
Qed.

(** * What a verified bundle pays *)

(** The fanout manifests that settle a bundle. *)
Definition set_manifests (set : option CtvFanoutManifestSet) : list CtvFanoutManifest :=
  match set with Some s => cfs_manifests s | None => [] end.
Definition fanout_manifests (bundle : AuditBundle) : list CtvFanoutManifest :=
  match ab_settlement_mode_decision bundle with
  | Some _ => set_manifests (ab_ctv_fanout_manifest_set bundle) | None => [] end.
Definition coinbase_entitlements (bundle : AuditBundle) : list WeightedEntitlement :=
  match ab_settlement_mode_decision bundle with
  | Some d => (entitlement_of_recipient <$> smd_direct_recipients d) ++
              (entitlement_of_manifest <$> fanout_manifests bundle)
  | None => ppm_onchain_entitlements (ab_payout_policy_manifest bundle)
  end.
(** What one fanout payout settles: its amount and its share of the fee. *)
Definition settled_by_output (o : CtvFanoutOutput) : SettlementRecipient :=
  {| sr_recipient_id := cfo_recipient_id o; sr_order_key := cfo_order_key o;
     sr_p2mr_program_hex := cfo_p2mr_program_hex o; sr_amount_sats := cfo_amount_sats o + cfo_fee_sats o |}.
Definition gross_balanced (m : CtvFanoutManifest) : Prop :=
  ∀ o, o ∈ cpc_outputs (cfm_precommitment m) → covered_by_output o = settled_by_output o.
Definition settled_by_manifest (m : CtvFanoutManifest) : list SettlementRecipient :=
  settled_by_output <$> cpc_outputs (cfm_precommitment m).

Lemma recipients_of_entitlements es rs :
  settlement_recipients_from_entitlements es = Ok rs → entitlement_of_recipient <$> rs = es.
Proof.
  unfold settlement_recipients_from_entitlements. intros Hc%collect_Forall2.
  induction Hc as [|e r es rs He _ IH]; [done|]. rewrite fmap_cons, IH. f_equal. res_inv. by destruct e.
Qed.

Lemma covenant_value m :
  verify_ctv_fanout_manifest_structure m = Ok () →
  cfm_covenant_output_value_sats m = sum_of sr_amount_sats (settled_by_manifest m) ∧
  fits U64 (cfm_covenant_output_value_sats m) = true.
Proof.
  intros (parent & fanout & hash & Hs)%structure_settles. pose proof (se_committed _ _ _ _ Hs) as Hc.
  rewrite (se_value _ _ _ _ Hs). split; [|apply (co_value_fits _ Hc)].
  rewrite (co_value _ Hc), (co_sum _ Hc), (co_fee _ Hc). unfold settled_by_manifest.
  by rewrite sum_of_fmap, <- sum_of_add.
Qed.

(** Coverage, unfolded. *)
Lemma coverage_inv decision set manifest leaves es rs :
  verify_fanout_coverage decision set manifest leaves = Ok (es, rs) →
  es = entitlement_of_manifest <$> set_manifests set ∧
  rs = set_manifests set ≫= (fun m => covered_by_output <$> cpc_outputs (cfm_precommitment m)) ∧
  Forall (fun m => verify_ctv_fanout_manifest_structure m = Ok () ∧
                   cfm_parent_coinbase_tx_hex m = pm_coinbase_tx_hex manifest) (set_manifests set).
Proof.
  unfold verify_fanout_coverage. destruct (_ =? 0).
  { destruct set; [done|]. by intros [= <- <-]. }
  intros (s & Hs%ok_or_Ok & Hv)%bind_Ok. subst set. do 4 (apply bind_Ok in Hv as (? & ? & Hv)).
  apply bind_Ok in Hv as (us & Hm & [= <- <-]). split_and!; [done..|]. apply Forall_lookup. intros i m Hi.
  destruct (Forall2_lookup_l _ _ _ _ _ (proj1 (collect_Forall2 _ _ _) Hm) Hi) as ([] & _ & Hone).
  unfold verify_set_member, verify_ctv_fanout_manifest_commitment_leaf in Hone.
  apply bind_Ok in Hone as (? & Hp%require_audit_Ok & Hone). apply String.eqb_eq in Hp.
  apply bind_Ok in Hone as ([] & Hst & _). done.
Qed.
Lemma settlement_inv decision set policy manifest leaves es :
  verify_ctv_settlement_bundle decision set policy manifest leaves = Ok es →
  Forall gross_balanced (set_manifests set) →
  es = (entitlement_of_recipient <$> smd_direct_recipients decision) ++
       (entitlement_of_manifest <$> set_manifests set) ∧
  Forall (fun m => verify_ctv_fanout_manifest_structure m = Ok () ∧
                   cfm_parent_coinbase_tx_hex m = pm_coinbase_tx_hex manifest) (set_manifests set) ∧
  entitlement_of_recipient <$> (smd_direct_recipients decision ++ (set_manifests set ≫= settled_by_manifest))
    ≡ₚ ppm_onchain_entitlements policy.
Proof.
  unfold verify_ctv_settlement_bundle. intros ([fes frs] & Hc & Hv)%bind_Ok Hg.
  apply coverage_inv in Hc as (-> & -> & Hms). apply bind_Ok in Hv as (expected & He & Hv).
  apply bind_Ok in Hv as (u & Hcov%require_audit_Ok & [= <-]). apply bool_decide_eq_true in Hcov.
  split_and!; [done..|]. rewrite <- (recipients_of_entitlements _ _ He). apply Permutation_map.
  rewrite <- (sort_by_perm settlement_recipient_cmp expected), <- Hcov, (sort_by_perm settlement_recipient_cmp).
  apply Permutation_app_head. apply reflexive_eq. clear -Hg.
  induction Hg as [|m ms Hm _ IH]; [done|]. rewrite !bind_cons, IH. f_equal. unfold settled_by_manifest.
  apply list_fmap_ext. intros i o Hi. symmetry. apply Hm. by eapply list_elem_of_lookup_2.
Qed.
Lemma settlement_weights decision set policy manifest leaves es :
  verify_ctv_settlement_bundle decision set policy manifest leaves = Ok es →
  Forall gross_balanced (set_manifests set) →
  sum_of we_weight es = sum_of we_weight (ppm_onchain_entitlements policy).
Proof.
  intros Hv Hg. destruct (settlement_inv _ _ _ _ _ _ Hv Hg) as (-> & Hms & Hperm).
  rewrite <- (sum_of_perm _ _ _ Hperm), fmap_app, !sum_of_app. f_equal.
  rewrite !sum_of_fmap, <- mjoin_fmap, sum_of_mjoin, sum_of_fmap. apply sum_of_ext. intros m Hm.
  rewrite Forall_forall in Hms. cbn. rewrite (proj1 (covenant_value m (proj1 (Hms m Hm)))). done.
Qed.

Lemma accounting_keeps policy decision fee_policy policy' fees :
  apply_ctv_fanout_fee_accounting policy decision fee_policy = Ok (policy', fees) →
  ∃ accounts, policy' = with_accounts policy accounts.
Proof. unfold apply_ctv_fanout_fee_accounting. intros (? & _ & (a & _ & [= <- _])%bind_Ok)%bind_Ok. eauto. Qed.
Lemma expected_policy_keeps bundle rm policy :
  expected_policy_of bundle rm = Ok policy →
  ∃ base accounts, apply_payout_policy rm (ab_prior_balances bundle) (ab_payout_policy bundle) = Ok base ∧
    policy = with_accounts base accounts.
Proof.
  unfold expected_policy_of. intros (base & Hb & Hp)%bind_Ok. exists base.
  assert (base = with_accounts base (ppm_accounts base)) as Hsame by (by destruct base).
  destruct (ab_settlement_mode_decision bundle) as [d|]; [|injection Hp as <-; eauto].
  destruct (ab_ctv_fanout_fee_policy bundle) as [fp|]; [|injection Hp as <-; eauto].
  apply bind_Ok in Hp as ([policy' fees] & Ha & [= <-]). apply accounting_keeps in Ha as [accounts ->]. eauto.
Qed.

(** The verifier's checks, by name. *)
Record audited (bundle : AuditBundle) (base : PayoutPolicyManifest) (report : AuditVerificationReport) : Prop := {
  au_reward : build_prism_reward_manifest_with_cut (ab_shares bundle) (ab_found_block bundle)
    (rm_cut (ab_reward_manifest bundle)) = Ok (ab_reward_manifest bundle);
  au_policy : apply_payout_policy (ab_reward_manifest bundle) (ab_prior_balances bundle)
    (ab_payout_policy bundle) = Ok base;
  au_accounts : ∃ accounts, ab_payout_policy_manifest bundle = with_accounts base accounts;
  au_settlement : match ab_settlement_mode_decision bundle with
    | Some d => verify_ctv_settlement_bundle d (ab_ctv_fanout_manifest_set bundle)
        (ab_payout_policy_manifest bundle) (spm_manifest (ab_signed_coinbase_manifest bundle))
        (ab_audit_commitment_leaves_hex bundle) = Ok (coinbase_entitlements bundle)
    | None => True end;
  au_manifest : ∃ root, build_manifest
    {| cbr_block_height := rm_block_height (ab_reward_manifest bundle);
       cbr_coinbase_value_sats := rm_coinbase_value_sats (ab_reward_manifest bundle);
       cbr_entitlements := coinbase_entitlements bundle; cbr_witness_nonce_hex := Some root;
       cbr_witness_merkle_leaves_hex := ab_witness_merkle_leaves_hex bundle;
       cbr_coinbase_script_sig_suffix_hex := ab_coinbase_script_sig_suffix_hex bundle;
       cbr_pinned_first_output := pinned_first_output_for_policy (ab_payout_policy_manifest bundle) |}
    = Ok (spm_manifest (ab_signed_coinbase_manifest bundle));
  au_tx : avr_coinbase_tx_hex report = pm_coinbase_tx_hex (spm_manifest (ab_signed_coinbase_manifest bundle));
}.
Lemma settlement_entitlements bundle policy leaf es leaves :
  expected_settlement_of bundle policy leaf = Ok (es, leaves) → policy = ab_payout_policy_manifest bundle →
  es = coinbase_entitlements bundle ∧ match ab_settlement_mode_decision bundle with
    | Some d => verify_ctv_settlement_bundle d (ab_ctv_fanout_manifest_set bundle)
        (ab_payout_policy_manifest bundle) (spm_manifest (ab_signed_coinbase_manifest bundle))
        (ab_audit_commitment_leaves_hex bundle) = Ok (coinbase_entitlements bundle)
    | None => True end.
Proof.
  unfold expected_settlement_of, coinbase_entitlements, fanout_manifests. intros Hs ->.
  destruct (ab_settlement_mode_decision bundle) as [d|]; [|by injection Hs as <- _].
  apply bind_Ok in Hs as (es' & Hv & [= <- _]). pose proof Hv as Hv'.
  unfold verify_ctv_settlement_bundle in Hv'. apply bind_Ok in Hv' as ([fes frs] & Hc & Hv').
  apply coverage_inv in Hc as (-> & _). apply bind_Ok in Hv' as (? & _ & Hv').
  apply bind_Ok in Hv' as (? & _ & [= <-]). done.
Qed.
Lemma verify_inv bundle key report :
  verify_audit_view bundle key = Ok report → ∃ base, audited bundle base report.
Proof.
  unfold verify_audit_view. intros Hv. do 3 (apply bind_Ok in Hv as (? & _ & Hv)).
  apply bind_Ok in Hv as (rm & Hrm & Hv). apply bind_Ok in Hv as (? & Heq%require_audit_Ok & Hv).
  apply bool_decide_eq_true in Heq as ->. apply bind_Ok in Hv as (policy & Hpol & Hv).
  apply bind_Ok in Hv as (? & Heq%require_audit_Ok & Hv). apply bool_decide_eq_true in Heq as ->.
  apply expected_policy_keeps in Hpol as (base & accounts & Hbase & Hacc).
  apply bind_Ok in Hv as (? & _ & Hv). apply bind_Ok in Hv as (leaf & _ & Hv).
  apply bind_Ok in Hv as ([es leaves] & Hset & Hv). apply settlement_entitlements in Hset as [-> Hset]; [|done].
  apply bind_Ok in Hv as (? & _ & Hv). apply bind_Ok in Hv as (root & _ & Hv). apply bind_Ok in Hv as (? & _ & Hv).
  apply bind_Ok in Hv as (m & Hm%map_err_Ok & Hv). apply bind_Ok in Hv as (? & Heq%require_audit_Ok & Hv).
  apply bool_decide_eq_true in Heq as ->. exists base. constructor; eauto.
  unfold audit_verification_report in Hv. do 6 (apply bind_Ok in Hv as (? & _ & Hv)). by injection Hv as <-.
Qed.

(** The mode's part of the claim below, and the weights of the coinbase request. *)
Definition settles_policy (bundle : AuditBundle) : Prop :=
  match ab_settlement_mode_decision bundle with
  | None => coinbase_entitlements bundle = ppm_onchain_entitlements (ab_payout_policy_manifest bundle)
  | Some d =>
      entitlement_of_recipient <$> (smd_direct_recipients d ++ (fanout_manifests bundle ≫= settled_by_manifest))
        ≡ₚ ppm_onchain_entitlements (ab_payout_policy_manifest bundle) ∧
      Forall (fun m => verify_ctv_fanout_manifest_structure m = Ok () ∧
          cfm_parent_coinbase_tx_hex m = pm_coinbase_tx_hex (spm_manifest (ab_signed_coinbase_manifest bundle)))
        (fanout_manifests bundle)
  end.
Lemma audited_weights bundle base report :
  audited bundle base report → policy_facts (ab_reward_manifest bundle) base →
  Forall gross_balanced (fanout_manifests bundle) →
  sum_of we_weight (coinbase_entitlements bundle) = rm_coinbase_value_sats (ab_reward_manifest bundle) ∧
  Forall (fun e => fits U128 (we_weight e) = true) (coinbase_entitlements bundle) ∧ settles_policy bundle.
Proof.
  intros [_ _ (accounts & Hacc) Hset _ _] F Hg.
  assert (ppm_onchain_entitlements (ab_payout_policy_manifest bundle) = ppm_onchain_entitlements base) as Hon by (by rewrite Hacc).
  assert (∀ e, e ∈ ppm_onchain_entitlements (ab_payout_policy_manifest bundle) → fits U128 (we_weight e) = true) as Hw.
  { rewrite Hon. intros e He. destruct (policy_weight_bounds _ _ _ F He). widths. }
  rewrite <- (pf_total _ _ F), <- Hon. unfold settles_policy, fanout_manifests in *.
  destruct (ab_settlement_mode_decision bundle) as [d|] eqn:Hd.
  - split; [exact (settlement_weights _ _ _ _ _ _ Hset Hg)|].
    destruct (settlement_inv _ _ _ _ _ _ Hset Hg) as (-> & Hms & Hperm). split; [|done].
    apply Forall_app. split; apply Forall_fmap, Forall_forall; intros x Hx.
    + apply Hw. rewrite <- Hperm. apply list_elem_of_fmap_2, elem_of_app. by left.
    + rewrite Forall_forall in Hms. destruct (covenant_value x (proj1 (Hms x Hx))) as [_ ?]. cbn. widths.
  - unfold coinbase_entitlements. rewrite Hd. split_and!; [done| |done]. by apply Forall_forall.
Qed.

(** C1: A bundle that passes the verifier pays what its shares earned. Its
    accounts are the payout policy over the reward window of its own shares;
    its coinbase, the transaction the report names, has one output for each
    entitlement and pays it exactly; and with a CTV settlement every account
    the policy pays on chain is either one of those outputs, at its exact
    amount, or a payout of a structurally verified fanout that spends this
    coinbase and settles the account's amount as payment plus fee. The fanouts'
    declared gross amounts must be what they pay plus their fees, which the
    verifier does not check. *)
Theorem verified_bundle_pays bundle key report :
  wf_inputs (ab_shares bundle) (ab_found_block bundle) (ab_payout_policy bundle) →
  Forall gross_balanced (fanout_manifests bundle) →
  verify_audit_view bundle key = Ok report →
  let manifest := spm_manifest (ab_signed_coinbase_manifest bundle) in
  (∃ base, build_prism_reward_manifest_with_cut (ab_shares bundle) (ab_found_block bundle)
             (rm_cut (ab_reward_manifest bundle)) = Ok (ab_reward_manifest bundle) ∧
     apply_payout_policy (ab_reward_manifest bundle) (ab_prior_balances bundle) (ab_payout_policy bundle) = Ok base ∧
     ppm_onchain_entitlements (ab_payout_policy_manifest bundle) = ppm_onchain_entitlements base) ∧
  avr_coinbase_tx_hex report = pm_coinbase_tx_hex manifest ∧
  (∃ es, es ≡ₚ coinbase_entitlements bundle ∧ Forall2 paid es (pm_outputs manifest)) ∧
  settles_policy bundle.
Proof.
  intros Hwf Hg Hv manifest. destruct (verify_inv _ _ _ Hv) as (base & Hau).
  pose proof Hau as [Hrm Hpol (accounts & Hacc) _ (root & Hm) Htx].
  pose proof (policy_facts_of _ _ _ _ _ _ _ Hwf Hrm Hpol) as F.
  destruct (audited_weights _ _ _ Hau F Hg) as (Hsum & Hfit & Hmode).
  split_and!; [exists base; by rewrite Hacc|done| |done].
  destruct (build_manifest_parts _ _ _ _ Hrm) as (Ehh & _).
  match type of Hm with build_manifest ?r = _ => assert (wf_request r) as Hreq end.
  { constructor; cbn; [exact (pf_value _ _ F)|exact Hfit|rewrite Ehh; apply Hwf]. }
  destruct (manifest_pays _ _ Hreq Hsum Hm) as (es & _ & Hperm & HF). exists es. split; [exact Hperm|exact HF].
Qed.
End audit.
