(* ===== verification/AuditCtv.v ===== *)
(** A bundle built with a CTV settlement passes the verifier: the fees charged,
    the chunks prepared and finalised, and the recipients covered are the ones
    the verifier finds. *)
From Stdlib Require Import ZArith Lia.
From Stdlib Require Ascii String.
From coqutil Require Import Byte.
From stdpp Require Import base list strings pretty gmap sorting.
From S2P Require Import Prelude Order BTree Bytes Crates Payee Apportion PrismError PoolBuilder CoinbaseTx PayoutManifest WindowCut RewardWindow ByProgram.
From S2P Require Import PayoutPolicy Settlement FanoutFee CtvTx CtvHash Fanout Covenant FanoutSet OrderedChunks RewardParallel OrderedJson AuditBundle AuditBuild AuditVerify AuditFacts.
From Stdlib Require Import Sorting.Permutation.

Open Scope Z_scope.

Section ctv.
Context `{HexCrate, !HexLaws, Sha256Crate, !Sha256Laws}.

#[export] Instance settlement_recipient_cmp_order : CmpOrder settlement_recipient_cmp.
Proof. unfold settlement_recipient_cmp. apply _. Qed.

(** * Canonical programs *)
(** The recipient's program is the lower-case hex of 32 bytes. *)
Definition canonical_program (r : SettlementRecipient) : Prop :=
  ∃ program, length program = P2MR_PROGRAM_LEN ∧ sr_p2mr_program_hex r = hex_encode program.

Lemma normalize_canonical r : canonical_program r → normalize_recipient r = Ok r.
Proof.
  intros (program & Hl & Hp). unfold normalize_recipient. rewrite Hp, hex_decode_encode, Hl. cbn.
  unfold with_program. destruct r. cbn in *. by rewrite Hp.
Qed.
Lemma normalize_recipients_canonical rs :
  Forall canonical_program rs → normalize_recipient_p2mr_programs rs = Ok rs.
Proof.
  intros Hrs. unfold normalize_recipient_p2mr_programs. induction Hrs as [|r rs Hr _ IH]; [done|].
  cbn. rewrite (normalize_canonical r Hr). cbn. by rewrite IH.
Qed.
Lemma canonical_recipients_programs rs canonical :
  canonical_recipients rs = Ok canonical → Forall canonical_program canonical.
Proof.
  intros Hc%canonical_recipients_Ok. destruct (ca_normalized _ _ Hc) as (ns & Hn & Hp). rewrite Hp.
  unfold normalize_recipient_p2mr_programs in Hn. apply collect_Forall2 in Hn. clear -Hn.
  induction Hn as [|r r' rs ns Hr _ IH]; constructor; [|done].
  apply normalize_recipient_Ok in Hr as (program & _ & Hl & ->). by exists program.
Qed.
Lemma canonical_recipients_same rs canonical :
  Forall canonical_program rs → canonical_recipients rs = Ok canonical → canonical ≡ₚ rs.
Proof.
  intros Hrs Hc%canonical_recipients_Ok. destruct (ca_normalized _ _ Hc) as (ns & Hn & Hp).
  rewrite normalize_recipients_canonical in Hn by done. by injection Hn as <-.
Qed.

(** * What each recipient is charged *)
Record charged (fees : FeeRecipients) (r : SettlementRecipient) (f : FanoutFeeRecipient) : Prop := {
  ch_found : fees !! recipient_account_key r = Some f;
  ch_gross : ffr_gross_amount_sats f = sr_amount_sats r;
  ch_split : charged_ok f;
  ch_net : 0 ≤ ffr_net_amount_sats f;
}.

Lemma record_fee_Ok fees f fees' :
  record_fee_recipient fees f = Ok fees' →
  fees !! fee_recipient_account_key f = None ∧ fees' = <[fee_recipient_account_key f := f]> fees.
Proof.
  unfold record_fee_recipient, settlement_error. destruct (fees !! _) eqn:Hf; [done|]. by intros [= <-].
Qed.
Lemma record_fees_Ok fs fees fees' :
  try_fold record_fee_recipient fees fs = Ok fees' →
  fees ⊆ fees' ∧ ∀ f, f ∈ fs → fees' !! fee_recipient_account_key f = Some f.
Proof.
  revert fees. induction fs as [|f fs IH]; intros fees; cbn.
  { intros [= <-]. split; [done|]. intros f Hf. by apply elem_of_nil in Hf. }
  intros (fees1 & [Hn ->]%record_fee_Ok & Hrest)%bind_Ok. apply IH in Hrest as [Hsub Hin]. split.
  - etransitivity; [|exact Hsub]. by apply insert_subseteq.
  - intros g [->|Hg]%elem_of_cons; [|by apply Hin]. eapply lookup_weaken; [|exact Hsub]. apply lookup_insert_eq.
Qed.

Lemma charged_weaken fees fees' r f : fees ⊆ fees' → charged fees r f → charged fees' r f.
Proof. intros Hsub [Hf Hg Hs Hn]. constructor; [|done..]. by eapply lookup_weaken. Qed.

Lemma chunk_fees_Ok fee_policy floor fees chunk fees' :
  0 ≤ floor → wf_recipients (sfc_recipients chunk) → Forall canonical_program (sfc_recipients chunk) →
  record_chunk_fees fee_policy floor fees chunk = Ok fees' →
  fees ⊆ fees' ∧ ∀ r, r ∈ sfc_recipients chunk → ∃ f, charged fees' r f.
Proof.
  intros Hfl Hwf Hcan. unfold record_chunk_fees, settlement_error.
  intros (fee & Hfee & (dec & Hdec & Hr)%bind_Ok)%bind_Ok.
  destruct (negb _) eqn:Hcarry; [done|]. apply negb_false_iff, bool_decide_eq_true in Hcarry.
  apply record_fees_Ok in Hr as [Hsub Hin]. split; [done|].
  assert (fits U64 fee = true) as Hfit.
  { unfold estimate_ctv_fanout_fee_sats, settlement_error in Hfee. by res_inv. }
  destruct (apply_fee_inv _ _ _ _ Hwf Hfit Hdec) as (canonical & Hc & Ho).
  apply canonical_recipients_same in Hc; [|done]. pose proof (fo_views _ _ _ _ _ _ Ho) as Hv.
  rewrite Hcarry, app_nil_r in Hv. cbn in Hv. rewrite Hc in Hv.
  intros r Hr. assert (recipient_view r ∈ fee_view <$> ffd_payable_recipients dec) as Hrv.
  { rewrite Hv. by apply list_elem_of_fmap_2. }
  apply list_elem_of_fmap in Hrv as (f & Heq & Hf). exists f.
  pose proof (fo_payable _ _ _ _ _ _ Ho) as Hp. rewrite Forall_forall in Hp. destruct (Hp f Hf) as [Hch Hnet].
  unfold recipient_view, fee_view, settlement_account_key, payee_key in Heq. cbn in Heq. injection Heq as Hk Hi Hp' Hg.
  constructor; [|done|done|lia]. rewrite <- (Hin f Hf). unfold recipient_account_key, fee_recipient_account_key.
  by rewrite Hk, Hi, Hp'.
Qed.
Lemma all_fees_Ok fee_policy floor chunks fees fees' :
  0 ≤ floor →
  Forall (fun c => wf_recipients (sfc_recipients c) ∧ Forall canonical_program (sfc_recipients c)) chunks →
  try_fold (record_chunk_fees fee_policy floor) fees chunks = Ok fees' →
  fees ⊆ fees' ∧ ∀ c r, c ∈ chunks → r ∈ sfc_recipients c → ∃ f, charged fees' r f.
Proof.
  intros Hfl Hcs. revert fees. induction Hcs as [|c chunks [Hwf Hcan] _ IH]; intros fees; cbn.
  { intros [= <-]. split; [done|]. intros c r Hc. by apply elem_of_nil in Hc. }
  intros (fees1 & Hone & Hrest)%bind_Ok. apply chunk_fees_Ok in Hone as [Hsub1 Hin1]; [|done..].
  apply IH in Hrest as [Hsub Hin]. split; [by etransitivity|].
  intros c' r [->|Hc]%elem_of_cons Hr; [|by eapply Hin]. destruct (Hin1 r Hr) as [f Hf].
  exists f. by eapply charged_weaken.
Qed.

(** * What a chunk covers *)
(** No fee policy, or a fee that was taken from the recipient's amount. *)
Definition fee_fair (fees : FeeRecipients) (r : SettlementRecipient) : Prop :=
  fees = ∅ ∨ ∃ f, charged fees r f.

Lemma fanout_payout_gross fees r :
  fee_fair fees r → payout_gross (fanout_payout fees r) = sr_amount_sats r ∧
  (0 ≤ sr_amount_sats r → 0 ≤ cfp_amount_sats (fanout_payout fees r) ∧ 0 ≤ cfp_fee_sats (fanout_payout fees r)).
Proof.
  unfold payout_gross, fanout_payout. cbv zeta beta. intros [->|(f & [Hf Hg [Hs Hp] Hn])].
  - assert ((∅ : FeeRecipients) !! recipient_account_key r = None) as -> by apply lookup_empty. done.
  - rewrite Hf. cbn. rewrite Hg. split; [|done]. destruct (Z.eqb_spec (sr_amount_sats r) 0) as [Hz|]; lia.
Qed.

Definition covered_by_payout (x : CtvFanoutPayout) : SettlementRecipient :=
  {| sr_recipient_id := cfp_recipient_id x; sr_order_key := cfp_order_key x;
     sr_p2mr_program_hex := cfp_p2mr_program_hex x; sr_amount_sats := payout_gross x |}.
Lemma covered_output_of i x : covered_by_output (Covenant.output_of i x) = covered_by_payout x.
Proof.
  unfold covered_by_output, covered_by_payout. cbn. f_equal. unfold payout_gross.
  destruct (cfp_gross_amount_sats x =? 0) eqn:Hg; [|by rewrite Hg].
  by destruct (cfp_amount_sats x =? 0) eqn:Ha.
Qed.
Lemma covered_payouts payouts outputs :
  Forall (fun x => ∃ program, length program = P2MR_PROGRAM_LEN ∧ cfp_p2mr_program_hex x = hex_encode program) payouts →
  canonical_fanout_outputs payouts = Ok outputs →
  covered_by_output <$> outputs ≡ₚ covered_by_payout <$> payouts.
Proof.
  unfold canonical_fanout_outputs. intros Hcan Hc. apply bind_Ok in Hc as (? & _ & Hc).
  apply bind_Ok in Hc as (ps & Hn & Hc). apply bind_Ok in Hc as ([outs seen] & Hl & [= <-]).
  apply fanout_outputs_loop in Hl as (_ & _ & [= -> _]).
  assert (ps = payouts) as ->.
  { apply collect_Forall2 in Hn. revert Hcan. induction Hn as [|a b l k Hx _ IH]; [done|].
    intros [(program & Hl & Hp) Hcan]%Forall_cons. rewrite IH by done. f_equal.
    unfold program_normalized in Hx. apply bind_Ok in Hx as (s & Hs & [= <-]).
    apply canonical_program_Ok in Hs as (bs & Hd & _ & ->). rewrite Hp, hex_decode_encode in Hd. injection Hd as <-.
    destruct a. cbn in *. by rewrite Hp. }
  assert (covered_by_output <$> imap Covenant.output_of (sort_by compare_payouts payouts) =
          covered_by_payout <$> sort_by compare_payouts payouts) as ->.
  { rewrite fmap_imap. apply list_eq. intros i. rewrite list_lookup_imap, list_lookup_fmap.
    destruct (sort_by compare_payouts payouts !! i); [|done]. cbn. by rewrite covered_output_of. }
  apply fmap_Permutation, (sort_by_perm compare_payouts).
Qed.
Lemma covered_chunk fees rs outputs :
  Forall canonical_program rs → Forall (fee_fair fees) rs →
  canonical_fanout_outputs (fanout_payout fees <$> rs) = Ok outputs → covered_by_output <$> outputs ≡ₚ rs.
Proof.
  intros Hcan Hfair Ho. apply covered_payouts in Ho; [|apply Forall_fmap; eapply Forall_impl; [exact Hcan|done]].
  rewrite Ho. apply reflexive_eq. rewrite <- list_fmap_compose. rewrite <- (list_fmap_id rs) at 2.
  apply list_fmap_ext. intros i r Hi. rewrite Forall_lookup in Hfair.
  unfold compose, covered_by_payout. rewrite (proj1 (fanout_payout_gross fees r (Hfair i r Hi))). by destruct r.
Qed.

(** * Finalising over the coinbase *)
Context `{!ToJson CtvFanoutPrecommitment}.

(** What a prepared fanout takes from its input. *)
Lemma prepared_fields input prep :
  prepare_ctv_fanout_precommitment input = Ok prep →
  let p := pcf_precommitment prep in
  cpc_chunk_index p = cpi_chunk_index input ∧ cpc_settlement_mode p = cpi_settlement_mode input ∧
  pcf_covenant_recipient_id prep = "ctv-fanout-" +:+ pretty (cpi_chunk_index input) ∧
  pcf_covenant_order_key prep = "ctv-fanout-" +:+ pad8 (cpi_chunk_index input) ∧
  pcf_covenant_p2mr_program_hex prep = cpc_p2mr_program_hex p ∧
  pcf_covenant_output_value_sats prep = cpc_covenant_output_value_sats p ∧
  canonical_fanout_outputs (cpi_payouts input) = Ok (cpc_outputs p) ∧
  fits U64 (pcf_covenant_output_value_sats prep) = true ∧
  ∃ program, hex_decode (pcf_covenant_p2mr_program_hex prep) = inr program.
Proof.
  unfold prepare_ctv_fanout_precommitment. intros Hp.
  do 5 (apply bind_Ok in Hp as (? & _ & Hp)). apply bind_Ok in Hp as (outputs & Ho & Hp).
  do 2 (apply bind_Ok in Hp as (? & _ & Hp)). apply bind_Ok in Hp as (value & Hval%ok_or_Ok & Hp).
  do 5 (apply bind_Ok in Hp as (? & _ & Hp)). apply bind_Ok in Hp as (program & Hprog & Hp).
  do 3 (apply bind_Ok in Hp as (? & _ & Hp)). apply bind_Ok in Hp as (? & _ & [= <-]). cbn. split_and!; try done.
  - by apply checked_Some in Hval as [-> ?].
  - apply decode_program_hex_Ok in Hprog as [Hprog _]. eauto.
Qed.

(** What a manifest takes from the coinbase it is finalised over. *)
Lemma manifest_parent p parent_hex vout m :
  build_ctv_fanout_manifest_from_precommitment p parent_hex vout = Ok m →
  ∃ parent, parse_transaction_hex parent_hex "parent_coinbase_tx_hex" = Ok parent ∧
    cfm_parent_coinbase_txid m = txid_hex parent ∧
    normalize_hex parent_hex = Ok (cfm_parent_coinbase_tx_hex m) ∧
    cfm_covenant_output_value_sats m = cpc_covenant_output_value_sats (cfm_precommitment m).
Proof.
  unfold build_ctv_fanout_manifest_from_precommitment. intros Hb. do 5 (apply bind_Ok in Hb as (? & _ & Hb)).
  unfold build_ctv_fanout_manifest in Hb. do 5 (apply bind_Ok in Hb as (? & _ & Hb)).
  apply bind_Ok in Hb as (parent & Hparse & Hb). exists parent. split; [exact Hparse|].
  do 18 (apply bind_Ok in Hb as (? & _ & Hb)). apply bind_Ok in Hb as (nhex & Hn & Hb).
  do 2 (apply bind_Ok in Hb as (? & _ & Hb)). injection Hb as <-. done.
Qed.

Lemma coinbase_shape script outputs lock stacks raw :
  ensure_coinbase_shape {| ptx_version := 2; ptx_inputs := [coinbase_txin script]; ptx_outputs := outputs;
    ptx_lock_time := lock; ptx_witness_stacks := stacks; ptx_tx_without_witness := raw |} = Ok ().
Proof.
  unfold ensure_coinbase_shape. cbn. by rewrite bool_decide_eq_true_2 by (rewrite hex_encode_digits; reflexivity).
Qed.

(** The output the builder looks up funds the covenant. *)
Lemma covenant_funded request manifest built prep program vout :
  wf_request request → build_coinbase request = Ok built →
  pm_outputs manifest = imap payout_output (bc_outputs built) →
  hex_decode (pcf_covenant_p2mr_program_hex prep) = inr program →
  find_coinbase_output_vout manifest (pcf_covenant_recipient_id prep) (pcf_covenant_order_key prep)
    (pcf_covenant_p2mr_program_hex prep) (pcf_covenant_output_value_sats prep) = Ok vout →
  fits U32 vout = true ∧ coinbase_txouts built !! Z.to_nat vout =
    Some {| pto_amount_sats := pcf_covenant_output_value_sats prep; pto_script_pubkey := p2mr_script_pubkey program |}.
Proof.
  intros Hwf Hb Ho Hprog Hf. unfold find_coinbase_output_vout in Hf.
  apply bind_Ok in Hf as (o & Hfind%ok_or_Ok & Hv%ok_or_Ok). apply List.find_some in Hfind as [Hin Hm].
  rewrite !andb_true_iff, !String.eqb_eq, Z.eqb_eq in Hm. destruct Hm as [[[_ _] Hprg] Hamt].
  apply list_elem_of_In, list_elem_of_lookup in Hin as (i & Hi). rewrite Ho, list_lookup_imap in Hi.
  destruct (bc_outputs built !! i) as [a|] eqn:Ha; [|done]. cbn in Hi. injection Hi as <-. cbn in *.
  apply checked_Some in Hv as [-> Hv]. split; [done|]. rewrite Nat2Z.id. unfold coinbase_txouts.
  rewrite lookup_app_l by (rewrite length_fmap; by eapply lookup_lt_Some).
  rewrite list_lookup_fmap, Ha. cbn. unfold txout_of_allocated. rewrite Hamt. do 2 f_equal.
  destruct (build_coinbase_inv _ _ Hb) as (script & nonce & leaves & Hp).
  destruct (allocate_outputs_split _ _ Hwf (cp_outputs _ _ _ _ _ Hp)) as (es & _ & _ & HF & _).
  destruct (Forall2_lookup_r _ _ _ _ _ HF Ha) as (e & _ & _ & _ & _ & _ & Hs & _).
  rewrite Hs. f_equal. rewrite <- Hprg, hex_decode_encode in Hprog. by injection Hprog as <-.
Qed.

(** A manifest the builder finalises carries its precommitment and leaf, and
    names the coinbase. *)
Record finalized_over (manifest : PayoutManifest) (prep : PreparedCtvFanout) (m : CtvFanoutManifest) : Prop := {
  fz_verified : verify_ctv_fanout_manifest_structure m = Ok ();
  fz_precommitment : cfm_precommitment m = pcf_precommitment prep;
  fz_leaf : cfm_commitment_witness_leaf_hex m = pcf_commitment_witness_leaf_hex prep;
  fz_parent : cfm_parent_coinbase_tx_hex m = pm_coinbase_tx_hex manifest;
  fz_txid : cfm_parent_coinbase_txid m = pm_coinbase_txid manifest;
  fz_value : cfm_covenant_output_value_sats m = pcf_covenant_output_value_sats prep;
}.
Lemma finalize_Ok request manifest input prep m :
  wf_request request → cbr_coinbase_value_sats request ≤ QBIT_MAX_MONEY_SATS →
  build_manifest request = Ok manifest → prepare_ctv_fanout_precommitment input = Ok prep →
  Forall (fun x => 0 ≤ cfp_amount_sats x ∧ 0 ≤ cfp_fee_sats x) (cpi_payouts input) →
  Z.of_nat (length (cpi_payouts input)) ≤ int_max U32 →
  finalize_fanout manifest prep = Ok m → finalized_over manifest prep m.
Proof.
  intros Hwf Hmax Hm Hprep Htyped Hcount Hf. unfold finalize_fanout in Hf. apply bind_Ok in Hf as (vout & Hfind & Hb).
  destruct (build_manifest_inv _ _ Hm) as (built & Hbuilt & Ho & Htx & Htxid & _).
  destruct (prepared_fields _ _ Hprep) as (_ & _ & _ & _ & _ & Hval & _ & _ & program & Hprog).
  destruct (covenant_funded _ _ _ _ _ _ Hwf Hbuilt Ho Hprog Hfind) as [Hfit Hfund].
  destruct (coinbase_reparses _ _ "parent_coinbase_tx_hex" Hwf Hmax Hbuilt) as (script & nonce & _ & _ & Hparse).
  destruct (manifest_parent _ _ _ _ Hb) as (parent & Hp & Htid & Hn & Hv).
  rewrite Htx in Hp, Hn. unfold parse_transaction_hex, normalize_hex in *. rewrite hex_decode_encode in *. cbn in Hp, Hn.
  injection Hn as Hn. destruct (build_coinbase_inv _ _ Hbuilt) as (sc & no & le & Hpp).
  edestruct (prepared_finalizes input prep (pm_coinbase_tx_hex manifest) (bc_tx_with_witness built))
    as (m' & Hb' & Hst & Hpre & _ & Hleaf);
    [exact Hprep|done|done|by rewrite Htx, hex_decode_encode| |exact Hparse|apply coinbase_shape|exact Hfit|exact Hprog|exact Hfund|].
  { pose proof (cp_weight_max _ _ _ _ _ Hpp) as Hw. rewrite (cp_weight _ _ _ _ _ Hpp) in Hw.
    unfold MAX_BLOCK_WEIGHT in Hw. widths. }
  rewrite Hb in Hb'. injection Hb' as <-. rewrite Hparse in Hp. injection Hp as <-. constructor; try done.
  - by rewrite Htx.
  - by rewrite Htid, Htxid, (cp_txid _ _ _ _ _ Hpp).
  - by rewrite Hv, Hpre, Hval.
Qed.

(** * Where each recipient is settled *)
Record routed (recipients : list SettlementRecipient) (pin : option SettlementRecipient)
    (decision : SettlementModeDecision) : Prop := {
  ro_keys : NoDup (settlement_account_key <$> recipients);
  ro_perm : smd_direct_recipients decision ++ mjoin (sfc_recipients <$> smd_fanout_chunks decision) ≡ₚ recipients;
  ro_index i c : smd_fanout_chunks decision !! i = Some c → sfc_chunk_index c = Z.of_nat i;
  ro_count : smd_fanout_chunk_count decision = Z.of_nat (length (smd_fanout_chunks decision));
  ro_chunk c : c ∈ smd_fanout_chunks decision → Z.of_nat (length (sfc_recipients c)) ≤ int_max U32;
  ro_pinned r : pin = Some r → canonical_program r →
    (∃ x, x ∈ smd_direct_recipients decision ∧ settlement_account_key x = settlement_account_key r) ∧
    ∀ c x, c ∈ smd_fanout_chunks decision → x ∈ sfc_recipients c → settlement_account_key x ≠ settlement_account_key r;
}.
Lemma in_chunk (chunks : list SettlementFanoutChunk) c r :
  c ∈ chunks → r ∈ sfc_recipients c → r ∈ mjoin (sfc_recipients <$> chunks).
Proof. intros Hc Hr. apply list_elem_of_join. eexists. split; [exact Hr|]. by apply list_elem_of_fmap_2. Qed.

Lemma select_routed recipients floor config pin decision :
  wf_recipients recipients → wf_config config → Forall canonical_program recipients →
  select_settlement_mode_with_pinned_direct recipients floor config pin = Ok decision →
  routed recipients pin decision.
Proof.
  intros Hwf Hwc Hcan Hs. destruct (select_inv _ _ _ _ _ Hwf Hwc Hs) as (canonical & pk & d & Hse & _ & Ho).
  pose proof (canonical_recipients_same _ _ Hcan (se_canonical _ _ _ _ _ _ _ Hse)) as Hsame.
  pose proof (do_chunks _ _ _ _ _ _ _ Ho) as Hch. pose proof (co_fanout _ (se_config _ _ _ _ _ _ _ Hse)) as Hmax.
  constructor.
  - rewrite <- Hsame. apply (ca_keys _ _ (canonical_recipients_Ok _ _ (se_canonical _ _ _ _ _ _ _ Hse))).
  - rewrite (decision_fanout _ _ _ _ _ _ _ (se_config _ _ _ _ _ _ _ Hse) Ho), (do_direct _ _ _ _ _ _ _ Ho), <- Hsame.
    apply partition_perm.
  - intros i c Hc. rewrite Hch, list_lookup_fmap, list_lookup_imap in Hc.
    destruct (chunks_of _ _ _ _ _ !! i); [|done]. by injection Hc as <-.
  - by rewrite (do_chunk_count _ _ _ _ _ _ _ Ho), Hch, length_fmap, length_imap.
  - intros c Hc. rewrite Hch in Hc. apply list_elem_of_fmap in Hc as (ic & -> & Hic).
    assert (ic.2 ∈ (imap pair (chunks_of canonical floor config pk d)).*2) as Hin by (by apply list_elem_of_fmap_2).
    rewrite imap_pair_snd in Hin.
    destruct (chunks_spec (Z.to_nat (max_fanout_recipients_per_transaction config)) ltac:(lia)
      (fanout_of canonical floor pk d)) as (_ & Hall & _).
    rewrite Forall_forall in Hall. destruct (Hall _ Hin) as [_ Hl]. cbn.
    unfold MAX_CTV_FANOUT_RECIPIENTS_PER_TRANSACTION in Hmax. lia.
  - intros r -> Hr. pose proof (se_pin _ _ _ _ _ _ _ Hse) as Hpin. cbn in Hpin.
    apply bind_Ok in Hpin as (k & Hk & [= <-]). unfold resolve_pinned_direct_key in Hk.
    rewrite (normalize_canonical r Hr) in Hk. unfold settlement_error in Hk. res_inv.
    destruct (pinned_is_direct _ _ _ _ _ _ _ _ _ Hse Ho eq_refl) as [Hd Hn]. split; [exact Hd|].
    intros c y Hc Hy Heq. apply Hn. rewrite <- Heq. apply list_elem_of_fmap_2. by eapply in_chunk.
Qed.

(** * The prepared fanouts *)
Lemma balanced_outputs payouts outputs o :
  canonical_fanout_outputs payouts = Ok outputs → o ∈ outputs → covered_by_output o = settled_by_output o.
Proof.
  unfold canonical_fanout_outputs. intros Hc Ho. apply bind_Ok in Hc as (? & _ & Hc).
  apply bind_Ok in Hc as (ps & _ & Hc). apply bind_Ok in Hc as ([outs seen] & Hl & [= <-]).
  apply fanout_outputs_loop in Hl as (Hok & _ & [= -> _]).
  apply list_elem_of_lookup in Ho as (i & Hi). rewrite list_lookup_imap in Hi.
  destruct (sort_by compare_payouts ps !! i) as [payout|] eqn:Hx; [|done]. cbn in Hi. injection Hi as <-.
  rewrite Forall_lookup in Hok. rewrite covered_output_of. unfold covered_by_payout, settled_by_output. cbn.
  by rewrite (pk_gross _ (Hok i payout Hx)).
Qed.

Record prepared_for (decision : SettlementModeDecision) (c : SettlementFanoutChunk) (prep : PreparedCtvFanout)
  : Prop := {
  pr_index : cpc_chunk_index (pcf_precommitment prep) = sfc_chunk_index c;
  pr_mode : cpc_settlement_mode (pcf_precommitment prep) = smd_mode decision;
  pr_recipient : pcf_covenant_recipient_id prep = "ctv-fanout-" +:+ pretty (sfc_chunk_index c);
  pr_order_key : pcf_covenant_order_key prep = "ctv-fanout-" +:+ pad8 (sfc_chunk_index c);
  pr_program : pcf_covenant_p2mr_program_hex prep = cpc_p2mr_program_hex (pcf_precommitment prep);
  pr_fits : fits U64 (pcf_covenant_output_value_sats prep) = true;
  pr_covers : covered_by_output <$> cpc_outputs (pcf_precommitment prep) ≡ₚ sfc_recipients c;
  pr_balanced o : o ∈ cpc_outputs (pcf_precommitment prep) → covered_by_output o = settled_by_output o;
  pr_final request manifest m : wf_request request → cbr_coinbase_value_sats request ≤ QBIT_MAX_MONEY_SATS →
    build_manifest request = Ok manifest → finalize_fanout manifest prep = Ok m → finalized_over manifest prep m;
}.
Lemma prepare_chunk_Ok rm decision h1 h2 fees c prep :
  Forall canonical_program (sfc_recipients c) → Forall (fee_fair fees) (sfc_recipients c) →
  Forall (fun r => 0 ≤ sr_amount_sats r) (sfc_recipients c) →
  Z.of_nat (length (sfc_recipients c)) ≤ int_max U32 →
  prepare_chunk rm decision h1 h2 fees c = Ok prep → prepared_for decision c prep.
Proof.
  intros Hcan Hfair Hpos Hlen. unfold prepare_chunk. intros (i & Hi%ok_or_Ok & Hp)%bind_Ok.
  apply checked_Some in Hi as [-> _]. apply bind_Ok in Hp as (n & _ & Hp).
  destruct (prepared_fields _ _ Hp) as (Hix & Hmode & Hid & Hkey & Hprg & _ & Hout & Hfit & _). cbn in *.
  constructor; try done.
  - by eapply covered_chunk.
  - intros o. by eapply balanced_outputs.
  - intros request manifest m Hwf Hmax Hm. eapply finalize_Ok; [done..| |]; cbn; [|by rewrite length_fmap].
    apply Forall_fmap, Forall_forall. intros r Hr. rewrite Forall_forall in Hfair, Hpos.
    exact (proj2 (fanout_payout_gross fees r (Hfair r Hr)) (Hpos r Hr)).
Qed.

Lemma finalized_entitlement decision c manifest prep m :
  prepared_for decision c prep → finalized_over manifest prep m → entitlement_of_manifest m = entitlement_of_fanout prep.
Proof.
  intros P F. unfold entitlement_of_manifest, entitlement_of_fanout.
  by rewrite (fz_precommitment _ _ _ F), (fz_value _ _ _ F), (pr_index _ _ _ P), (pr_recipient _ _ _ P),
    (pr_order_key _ _ _ P), (pr_program _ _ _ P).
Qed.

(** * The set the verifier sees *)
Section settled.
Context (decision : SettlementModeDecision) (manifest : PayoutManifest).
Context (preps : list PreparedCtvFanout) (ms : list CtvFanoutManifest).
Hypothesis Hindex : ∀ i c, smd_fanout_chunks decision !! i = Some c → sfc_chunk_index c = Z.of_nat i.
Hypothesis Hpreps : Forall2 (prepared_for decision) (smd_fanout_chunks decision) preps.
Hypothesis Hms : Forall2 (finalized_over manifest) preps ms.

Lemma manifest_at i m : ms !! i = Some m → ∃ c prep, smd_fanout_chunks decision !! i = Some c ∧
  preps !! i = Some prep ∧ prepared_for decision c prep ∧ finalized_over manifest prep m.
Proof.
  intros Hi. destruct (Forall2_lookup_r _ _ _ _ _ Hms Hi) as (prep & Hp & Hf).
  destruct (Forall2_lookup_r _ _ _ _ _ Hpreps Hp) as (c & Hc & Hpf). eauto 10.
Qed.
Lemma chunk_indexes i m : ms !! i = Some m → cpc_chunk_index (cfm_precommitment m) = Z.of_nat i.
Proof.
  intros (c & prep & Hc & _ & P & F)%manifest_at.
  by rewrite (fz_precommitment _ _ _ F), (pr_index _ _ _ P), (Hindex _ _ Hc).
Qed.
Lemma manifests_sorted :
  sort_by (cmp_on (fun m => cpc_chunk_index (cfm_precommitment m)) Z.compare) ms = ms.
Proof.
  apply (sort_by_id _). apply StronglySorted_lookup_2. intros i j a b Ha Hb Hij.
  unfold cmp_le, cmp_on. rewrite (chunk_indexes _ _ Ha), (chunk_indexes _ _ Hb). intros Hgt%Z.compare_gt_iff. lia.
Qed.
Lemma manifest_leaves : cfm_commitment_witness_leaf_hex <$> ms = pcf_commitment_witness_leaf_hex <$> preps.
Proof.
  apply list_eq. intros i. rewrite !list_lookup_fmap.
  pose proof (proj1 (Forall2_lookup _ _ _) Hms i) as Hi. inversion Hi as [prep m F|]; [|done].
  cbn. by rewrite (fz_leaf _ _ _ F).
Qed.
Lemma manifest_entitlements : entitlement_of_manifest <$> ms = entitlement_of_fanout <$> preps.
Proof.
  apply list_eq. intros i. rewrite !list_lookup_fmap.
  pose proof (proj1 (Forall2_lookup _ _ _) Hms i) as Hi. inversion Hi as [prep m F Hp Hm|]; [|done]. symmetry in Hm.
  destruct (manifest_at _ _ Hm) as (c & prep' & _ & Hp' & P & F'). cbn. f_equal. rewrite <- Hp in Hp'.
  injection Hp' as <-. apply (finalized_entitlement _ _ _ _ _ P F).
Qed.
Lemma manifest_covers :
  (ms ≫= fun m => covered_by_output <$> cpc_outputs (cfm_precommitment m)) ≡ₚ
  mjoin (sfc_recipients <$> smd_fanout_chunks decision).
Proof.
  clear Hindex. revert ms Hms. induction Hpreps as [|c prep cs ps P _ IH]; intros ms' HF; inversion HF as [|? m ? rest F HF']; subst; [done|].
  cbn. rewrite (fz_precommitment _ _ _ F), (pr_covers _ _ _ P). apply Permutation_app_head.
  apply IH; [by inversion Hpreps|done].
Qed.
Lemma manifests_balanced : Forall gross_balanced ms.
Proof.
  apply Forall_lookup. intros i m (c & prep & _ & _ & P & F)%manifest_at o. rewrite (fz_precommitment _ _ _ F).
  apply (pr_balanced _ _ _ P).
Qed.

Lemma members_pass leaves :
  (∀ prep, prep ∈ preps → pcf_commitment_witness_leaf_hex prep ∈ leaves) →
  collect (verify_set_member manifest leaves) ms = Ok ((fun _ => ()) <$> ms).
Proof.
  intros Hl. apply collect_Forall2, Forall2_fmap_r, Forall_Forall2_diag, Forall_lookup.
  intros i m (c & prep & _ & Hp & _ & F)%manifest_at. unfold verify_set_member, verify_ctv_fanout_manifest_commitment_leaf.
  rewrite (fz_parent _ _ _ F), String.eqb_refl, (fz_verified _ _ _ F). cbn [require_audit mbind result_bind].
  apply require_ctv_Ok, existsb_exists. rewrite (fz_leaf _ _ _ F). eexists. split; [|by apply bool_decide_eq_true].
  apply list_elem_of_In, Hl. by eapply list_elem_of_lookup_2.
Qed.

Lemma coverage_pass set leaves :
  smd_fanout_chunk_count decision = Z.of_nat (length (smd_fanout_chunks decision)) →
  ms ≠ [] → build_ctv_fanout_manifest_set ms = Ok set →
  (∀ prep, prep ∈ preps → pcf_commitment_witness_leaf_hex prep ∈ leaves) →
  cfs_manifests set = ms ∧ verify_fanout_coverage decision (Some set) manifest leaves =
    Ok (entitlement_of_fanout <$> preps, ms ≫= fun m => covered_by_output <$> cpc_outputs (cfm_precommitment m)).
Proof.
  intros Hcount Hne Hset Hl. destruct (built_set_verified _ _ Hset) as (Hv & Hsort & _).
  rewrite manifests_sorted in Hsort. split; [done|].
  destruct (verify_set_Ok _ _ Hv) as (Hck & _ & Hn & _). rewrite Hsort in Hck, Hn.
  assert (length ms = length (smd_fanout_chunks decision)) as Hlen.
  { by rewrite <- (Forall2_length _ _ _ Hms), (Forall2_length _ _ _ Hpreps). }
  assert (length ms ≠ 0%nat) as H0ms by (by intros ?%nil_length_inv). destruct (lookup_lt_is_Some_2 ms 0%nat) as [m Hm]; [lia|].
  destruct (manifest_at 0%nat m Hm) as (c & prep & _ & _ & P & F).
  pose proof (ck_each _ _ Hck _ _ Hm) as C.
  unfold verify_fanout_coverage. rewrite Hcount, <- Hlen.
  assert ((Z.of_nat (length ms) =? 0) = false) as -> by (apply Z.eqb_neq; lia).
  cbn [ok_or mbind result_bind]. rewrite Hv. cbn [mbind result_bind].
  rewrite <- (ch_parent _ _ _ C), (fz_txid _ _ _ F), String.eqb_refl. cbn [require_audit mbind result_bind].
  rewrite <- (ch_mode _ _ _ C), (fz_precommitment _ _ _ F), (pr_mode _ _ _ P), bool_decide_eq_true_2 by done.
  cbn [require_audit mbind result_bind]. rewrite Hn, Z.eqb_refl, Hsort, (members_pass _ Hl).
  cbn [require_audit mbind result_bind]. by rewrite manifest_entitlements.
Qed.
End settled.

(** * The settlement passes *)
Lemma settlement_recipient_cmp_eq a b : settlement_recipient_cmp a b = Eq → a = b.
Proof.
  unfold settlement_recipient_cmp, cmp_then, then_with, cmp_on.
  destruct (canonical_cmp a b) eqn:Hk; [|done..]. intros Ha%Z.compare_eq. apply canonical_cmp_eq in Hk.
  destruct a, b. cbn in *. by injection Hk as -> -> ->; subst.
Qed.
Lemma coverage_sorted covered expected :
  covered ≡ₚ expected → sort_by settlement_recipient_cmp covered = sort_by settlement_recipient_cmp expected.
Proof.
  intros Hp. apply (sort_by_perm_eq settlement_recipient_cmp); [|done].
  intros a b _ _. apply settlement_recipient_cmp_eq.
Qed.

Record settles (decision : SettlementModeDecision) (policy : PayoutPolicyManifest) (manifest : PayoutManifest)
    (leaves : list string) (preps : list PreparedCtvFanout) (set : option CtvFanoutManifestSet) : Prop := {
  sp_verified : verify_ctv_settlement_bundle decision set policy manifest leaves =
    Ok ((entitlement_of_recipient <$> smd_direct_recipients decision) ++ (entitlement_of_fanout <$> preps));
  sp_leaves : cfm_commitment_witness_leaf_hex <$> set_manifests set = pcf_commitment_witness_leaf_hex <$> preps;
  sp_balanced : Forall gross_balanced (set_manifests set);
}.
Lemma settlement_pass recipients pin decision policy request manifest leaves preps set :
  routed recipients pin decision →
  settlement_recipients_from_entitlements (ppm_onchain_entitlements policy) = Ok recipients →
  Forall2 (prepared_for decision) (smd_fanout_chunks decision) preps →
  wf_request request → cbr_coinbase_value_sats request ≤ QBIT_MAX_MONEY_SATS →
  build_manifest request = Ok manifest → finalize_fanouts manifest preps = Ok set →
  (∀ prep, prep ∈ preps → pcf_commitment_witness_leaf_hex prep ∈ leaves) →
  settles decision policy manifest leaves preps set.
Proof.
  intros R Hrec Hpreps Hwf Hmax Hm Hfin Hl.
  assert (∀ fanout ms, verify_fanout_coverage decision set manifest leaves =
      Ok (entitlement_of_fanout <$> preps, fanout) → set_manifests set = ms →
      fanout ≡ₚ mjoin (sfc_recipients <$> smd_fanout_chunks decision) →
      cfm_commitment_witness_leaf_hex <$> ms = pcf_commitment_witness_leaf_hex <$> preps →
      Forall gross_balanced ms → settles decision policy manifest leaves preps set) as Hdone.
  { intros fanout ms Hcov <- Hperm Hleaf Hbal. constructor; [|done..].
    unfold verify_ctv_settlement_bundle. rewrite Hcov. cbn [mbind result_bind]. rewrite Hrec. cbn [mbind result_bind].
    rewrite (coverage_sorted _ recipients); [|by rewrite Hperm, (ro_perm _ _ _ R)].
    by rewrite bool_decide_eq_true_2. }
  destruct preps as [|p0 ps] eqn:Eps.
  - inversion Hpreps as [Hnil|]; subst. injection Hfin as <-. apply (Hdone [] []); try done.
    + unfold verify_fanout_coverage. by rewrite (ro_count _ _ _ R), <- Hnil.
    + by rewrite <- Hnil.
  - cbn [finalize_fanouts] in Hfin. rewrite <- Eps in *. assert (preps ≠ []) as Hne by (by rewrite Eps).
    apply bind_Ok in Hfin as (ms & Hms & Hfin). apply bind_Ok in Hfin as (fs & Hset & [= <-]).
    assert (Forall2 (finalized_over manifest) preps ms) as HF.
    { apply collect_Forall2 in Hms. apply Forall2_lookup. intros i. rewrite Forall2_lookup in Hms. specialize (Hms i).
      inversion Hms as [prep0 m Hone Hp Hi|]; constructor.
      destruct (Forall2_lookup_r _ _ _ _ _ Hpreps (eq_sym Hp)) as (c & _ & P). by eapply (pr_final _ _ _ P). }
    destruct (coverage_pass decision manifest preps ms (ro_index _ _ _ R) Hpreps HF fs leaves (ro_count _ _ _ R)) as [Hfs Hcov];
      [|done..|].
    { intros ->. by inversion HF; subst. }
    refine (Hdone _ ms Hcov Hfs _ _ _).
    + by apply (manifest_covers decision manifest preps ms Hpreps HF).
    + by apply (manifest_leaves manifest preps ms HF).
    + by apply (manifests_balanced decision manifest preps ms Hpreps HF).
Qed.

(** * What the policy hands to the settlement *)
Lemma chunk_recipient recipients pin decision c r :
  routed recipients pin decision → c ∈ smd_fanout_chunks decision → r ∈ sfc_recipients c → r ∈ recipients.
Proof. intros R Hc Hr. rewrite <- (ro_perm _ _ _ R). apply elem_of_app. right. by eapply in_chunk. Qed.

Lemma fees_fair recipients pin policy decision fee_policy policy' fees :
  routed recipients pin decision → wf_recipients recipients → Forall canonical_program recipients →
  0 ≤ ppm_min_output_sats policy →
  apply_ctv_fanout_fee_accounting policy decision fee_policy = Ok (policy', fees) →
  ∀ c r, c ∈ smd_fanout_chunks decision → r ∈ sfc_recipients c → fee_fair fees r.
Proof.
  intros R Hwf Hcan Hfl. unfold apply_ctv_fanout_fee_accounting. intros (fees' & Hf & Ha)%bind_Ok c r Hc Hr.
  apply bind_Ok in Ha as (accounts & _ & [= _ <-]). right.
  apply all_fees_Ok in Hf as [_ Hf]; [by eapply Hf|done|]. apply Forall_forall. intros d Hd.
  pose proof (wr_amounts _ Hwf) as Hamt. rewrite Forall_forall in Hamt, Hcan. split; [constructor|].
  - apply Forall_forall. intros z Hz. apply Hamt. by eapply chunk_recipient.
  - pose proof (ro_chunk _ _ _ R d Hd). widths.
  - apply Forall_forall. intros z Hz. apply Hcan. by eapply chunk_recipient.
Qed.

Lemma lowercase_hex bs : to_ascii_lowercase (hex_encode bs) = hex_encode bs.
Proof. by rewrite <- (hex_encode_decode _ _ (hex_decode_encode bs)). Qed.
Lemma matching_program r p :
  canonical_program r → (∃ bs, p = hex_encode bs) → eq_ignore_ascii_case (sr_p2mr_program_hex r) p = true →
  sr_p2mr_program_hex r = p.
Proof.
  intros (program & _ & Hr) (bs & ->) He. apply eq_ignore_ascii_case_iff in He.
  by rewrite Hr, !lowercase_hex in He; rewrite Hr.
Qed.

Lemma NoDup_fmap_elem {A B} (f : A -> B) l a b : NoDup (f <$> l) → a ∈ l → b ∈ l → f a = f b → a = b.
Proof.
  intros Hnd (i & Hi)%list_elem_of_lookup (j & Hj)%list_elem_of_lookup Hf. rewrite NoDup_alt in Hnd.
  assert (i = j) as ->; [|congruence]. apply (Hnd i j (f a)); rewrite list_lookup_fmap; [by rewrite Hi|by rewrite Hj, Hf].
Qed.

(** The pool fee of a policy that pins it is settled by the coinbase, alone. *)
Definition fee_recipient (p : PoolFeeManifest) : SettlementRecipient :=
  {| sr_recipient_id := pf_recipient_id p; sr_order_key := pf_order_key p;
     sr_p2mr_program_hex := pf_p2mr_program_hex p; sr_amount_sats := pf_amount_sats p |}.
Lemma fee_routed recipients pin decision p :
  routed recipients pin decision → Forall canonical_program recipients →
  fee_recipient p ∈ recipients → pin = Some (fee_recipient p) →
  fee_recipient p ∈ smd_direct_recipients decision ∧
  existsb (recipient_matches_fee p) (smd_direct_recipients decision) = true ∧
  existsb (fun chunk => existsb (recipient_matches_fee p) (sfc_recipients chunk)) (smd_fanout_chunks decision) = false.
Proof.
  intros R Hcan Hin Hpin. rewrite Forall_forall in Hcan.
  destruct (ro_pinned _ _ _ R _ Hpin (Hcan _ Hin)) as [(z & Hz & Hk) Hn].
  assert (z = fee_recipient p) as ->.
  { apply (NoDup_fmap_elem settlement_account_key recipients); [apply R| |done..].
    rewrite <- (ro_perm _ _ _ R). apply elem_of_app. by left. }
  split_and!; [done| |].
  - apply existsb_exists. exists (fee_recipient p). split; [by apply list_elem_of_In|].
    unfold recipient_matches_fee, matches_pool_fee. cbn -[eq_ignore_ascii_case]. by rewrite !String.eqb_refl, eq_ignore_ascii_case_refl.
  - apply not_true_iff_false. intros (c & Hc%list_elem_of_In & Hex)%existsb_exists.
    apply existsb_exists in Hex as (r & Hr%list_elem_of_In & Hm). apply (Hn c r Hc Hr).
    unfold recipient_matches_fee, matches_pool_fee in Hm. rewrite !andb_true_iff, !String.eqb_eq in Hm.
    destruct Hm as [[Hi Ho] Hp]. apply matching_program in Hp;
      [|apply Hcan; by eapply chunk_recipient|destruct (Hcan _ Hin) as (bs & _ & Hbs); exists bs; exact Hbs].
    unfold settlement_account_key, payee_key. cbn. by rewrite Hi, Ho, Hp.
Qed.

Lemma recipients_elem es rs e :
  settlement_recipients_from_entitlements es = Ok rs → e ∈ es → ∃ r, r ∈ rs ∧ entitlement_of_recipient r = e.
Proof.
  intros Hr He. rewrite <- (recipients_of_entitlements _ _ Hr) in He. by apply list_elem_of_fmap in He as (r & -> & ?); eauto.
Qed.
Lemma recipients_canonical es rs :
  settlement_recipients_from_entitlements es = Ok rs →
  Forall (fun e => ∃ program, length program = P2MR_PROGRAM_LEN ∧ we_p2mr_program_hex e = hex_encode program) es →
  Forall canonical_program rs.
Proof. intros Hr. rewrite <- (recipients_of_entitlements _ _ Hr), Forall_fmap. done. Qed.
Lemma recipients_wf es rs total :
  settlement_recipients_from_entitlements es = Ok rs → Forall (fun e => 0 < we_weight e) es →
  sum_of we_weight es = total → total ≤ QBIT_MAX_MONEY_SATS → wf_recipients rs.
Proof.
  intros Hr Hpos Hsum Hmax. constructor.
  - unfold settlement_recipients_from_entitlements in Hr. apply collect_Forall2 in Hr. clear -Hr.
    induction Hr as [|e r es rs He _ IH]; constructor; [|done]. apply bind_Ok in He as (w & Hw%ok_or_Ok & [= <-]).
    by apply checked_Some in Hw as [-> ?].
  - assert (Z.of_nat (length es) ≤ sum_of we_weight es) as Hle.
    { clear -Hpos. induction Hpos as [|e es He _ IH]; [done|]. rewrite sum_of_cons. cbn [length]. lia. }
    apply collect_length in Hr. unfold QBIT_MAX_MONEY_SATS in Hmax. lia.
Qed.
Lemma settlement_request_wf decision preps :
  Forall (fun r => fits U64 (sr_amount_sats r) = true) (smd_direct_recipients decision) →
  Forall2 (prepared_for decision) (smd_fanout_chunks decision) preps →
  Forall (fun e => fits U128 (we_weight e) = true)
    ((entitlement_of_recipient <$> smd_direct_recipients decision) ++ (entitlement_of_fanout <$> preps)).
Proof.
  intros Hd HF. apply Forall_app. split; apply Forall_fmap.
  - eapply Forall_impl; [exact Hd|]. intros r Hr. cbn in *. widths.
  - apply Forall_lookup. intros i prep Hi. destruct (Forall2_lookup_r _ _ _ _ _ HF Hi) as (c & _ & P).
    pose proof (pr_fits _ _ _ P). cbn. widths.
Qed.
End ctv.

(** * The CTV builder and the verifier *)
Section audit.
Context `{HexCrate, !HexLaws, Sha256Crate, !Sha256Laws, Ed25519Crate, !Ed25519Laws, ChunkRunner}.
Context `{!ToJson string, !ToJson Z, !ToJson WindowCut, !ToJson CountedShare, !ToJson (list CountedShare)}.
Context `{!ToJson (list WeightedEntitlement), !ToJson AcceptedShare, !ToJson (list AcceptedShare)}.
Context `{!ToJson FoundBlock, !ToJson (list CarryForwardBalance), !ToJson PayoutPolicy, !ToJson (list string)}.
Context `{!ToJson LedgerWindowAttestation, !ToJson PayoutPolicyManifest, !ToJson SettlementModeDecision}.
Context `{!ToJson FanoutFeeRatePolicy, !ToJson CtvFanoutManifestSet, !ToJson SignedPayoutManifest}.
Context `{!ToJson PayoutManifest, !ToJson CtvFanoutPrecommitment, !JsonArray CountedShare}.

Definition lowercase_programs (policy : PayoutPolicyManifest) : Prop :=
  Forall (fun e => ∃ program, length program = P2MR_PROGRAM_LEN ∧ we_p2mr_program_hex e = hex_encode program)
    (ppm_onchain_entitlements policy).

(** What [settle_policy] decides, for the verifier. *)
Record settled_policy (base policy : PayoutPolicyManifest) (fee_policy : option FanoutFeeRatePolicy)
    (decision : SettlementModeDecision) (fees : FeeRecipients) (recipients : list SettlementRecipient) : Prop := {
  st_recipients : settlement_recipients_from_entitlements (ppm_onchain_entitlements base) = Ok recipients;
  st_wf : wf_recipients recipients;
  st_canonical : Forall canonical_program recipients;
  st_routed : routed recipients (pinned_settlement_recipient_for_policy base) decision;
  st_fair c r : c ∈ smd_fanout_chunks decision → r ∈ sfc_recipients c → fee_fair fees r;
  st_accounts : ∃ accounts, policy = with_accounts base accounts;
  st_expected : match fee_policy with
    | Some fp => apply_ctv_fanout_fee_accounting base decision fp = Ok (policy, fees)
    | None => policy = base end;
}.
Lemma settle_policy_Ok rm base floor config fee_policy policy decision fees :
  policy_facts rm base → wf_config config → rm_coinbase_value_sats rm ≤ QBIT_MAX_MONEY_SATS →
  settle_policy base floor config fee_policy = Ok (policy, decision, fees) → lowercase_programs policy →
  ∃ recipients, settled_policy base policy fee_policy decision fees recipients.
Proof.
  intros F Hwc Hmax. unfold settle_policy. intros (rs & Hr & (d & Hd & Hp)%bind_Ok)%bind_Ok Hlow. exists rs.
  assert (∃ accounts, policy = with_accounts base accounts) as Hacc.
  { destruct fee_policy as [fp|].
    - apply bind_Ok in Hp as ([pol fees'] & Ha & [= <- <- <-]). by eapply accounting_keeps.
    - injection Hp as <- <- <-. exists (ppm_accounts base). by destruct base. }
  pose proof (recipients_wf _ _ _ Hr (pf_positive _ _ F) (pf_total _ _ F) Hmax) as Hwf.
  assert (Forall canonical_program rs) as Hcan.
  { eapply recipients_canonical; [exact Hr|]. destruct Hacc as [accounts ->]. exact Hlow. }
  pose proof (select_routed _ _ _ _ _ Hwf Hwc Hcan Hd) as R.
  destruct fee_policy as [fp|].
  - apply bind_Ok in Hp as ([pol fees'] & Ha & [= <- <- <-]). constructor; try done.
    by apply (fees_fair _ _ _ _ _ _ _ R Hwf Hcan (pf_floor _ _ F) Ha).
  - injection Hp as <- <- <-. constructor; try done. intros c r _ _. by left.
Qed.

Lemma prepared_chunks base policy fee_policy decision fees recipients rm h1 h2 preps :
  settled_policy base policy fee_policy decision fees recipients →
  collect (prepare_chunk rm decision h1 h2 fees) (smd_fanout_chunks decision) = Ok preps →
  Forall2 (prepared_for decision) (smd_fanout_chunks decision) preps.
Proof.
  intros S Hp%collect_Forall2. apply Forall2_lookup. intros i. rewrite Forall2_lookup in Hp. specialize (Hp i).
  inversion Hp as [c prep Hone Hc Hi|]; constructor. pose proof (st_routed _ _ _ _ _ _ S) as R.
  pose proof (list_elem_of_lookup_2 _ _ _ (eq_sym Hc)) as Hin.
  pose proof (st_canonical _ _ _ _ _ _ S) as Hcan. pose proof (wr_amounts _ (st_wf _ _ _ _ _ _ S)) as Hamt.
  rewrite Forall_forall in Hcan, Hamt.
  eapply prepare_chunk_Ok; [| | |by apply R|exact Hone]; apply Forall_forall; intros r Hr.
  - apply Hcan. by eapply chunk_recipient.
  - by eapply (st_fair _ _ _ _ _ _ S).
  - specialize (Hamt r (chunk_recipient _ _ _ _ _ R Hin Hr)). cbn in Hamt. widths.
Qed.

(** The output policy of a settled bundle. *)
Lemma settled_output_policy rm base policy fee_policy decision fees recipients preps request manifest :
  policy_facts rm base → settled_policy base policy fee_policy decision fees recipients →
  cbr_entitlements request =
    (entitlement_of_recipient <$> smd_direct_recipients decision) ++ (entitlement_of_fanout <$> preps) →
  cbr_pinned_first_output request = pinned_first_output_for_policy policy → wf_request request →
  sum_of we_weight (cbr_entitlements request) = cbr_coinbase_value_sats request →
  build_manifest request = Ok manifest → verify_coinbase_output_policy policy (Some decision) manifest = Ok ().
Proof.
  intros F S He Hpin Hwf Hsum Hm. destruct (pool_fee_first_output policy) as [p|] eqn:Hfee;
    [|unfold verify_coinbase_output_policy; by rewrite Hfee].
  assert (pool_fee_first_output base = Some p) as Hbase by (by destruct (st_accounts _ _ _ _ _ _ S) as [accounts ->]).
  destruct (recipients_elem _ _ _ (st_recipients _ _ _ _ _ _ S) (pf_fee_listed _ _ F _ Hbase)) as (r & Hr & Hre).
  assert (r = fee_recipient p) as ->.
  { destruct r. unfold entitlement_of_recipient, onchain_entitlement, pool_fee_account in Hre. cbn in Hre.
    injection Hre as -> -> -> ->. done. }
  destruct (fee_routed _ _ _ p (st_routed _ _ _ _ _ _ S) (st_canonical _ _ _ _ _ _ S) Hr) as (Hdir & Hex & Hnx).
  { unfold pinned_settlement_recipient_for_policy. by rewrite Hbase. }
  refine (output_policy_pass _ _ _ _ _ Hfee Hpin Hwf Hsum Hm _ _); [|done].
  exists (entitlement_of_recipient (fee_recipient p)). split_and!; [|rewrite Hre; apply fee_pin_matches|done].
  rewrite He. apply elem_of_app. left. by apply list_elem_of_fmap_2.
Qed.

(** C22: Every bundle the builder settles through CTV fanouts passes the
    verifier under the ledger writer's key: the fanouts it prepared before the
    coinbase, charged their fees and finalised over it are the ones the
    verifier accepts, covering exactly the accounts the policy pays. This holds
    for every parallelism, settlement configuration and fee policy, for coinbase
    values in the money range and payout programs written as lower-case hex;
    upper-case programs are normalised by the settlement and then missed by the
    verifier's comparison. *)
Theorem ctv_bundle_verifies shares fb cut prior policy floor config fee_policy suffix leaves ck lk p body bytes :
  wf_inputs shares fb policy → wf_config config → 1 ≤ par_chunk_len p →
  fb_coinbase_value_sats fb ≤ QBIT_MAX_MONEY_SATS →
  build_audit_bundle_body_with_ctv_settlement_options_parallel shares fb cut prior policy floor config fee_policy
    suffix leaves ck lk p = Ok body →
  lowercase_programs (abb_payout_policy_manifest body) →
  canonical_audit_bundle_bytes_from_parts body shares = Ok bytes →
  ∃ report, verify_audit_parts body shares (public_key_hex lk) = Ok report ∧
    avr_audit_bundle_sha256_hex report = sha256_hex bytes ∧
    avr_coinbase_tx_hex report = pm_coinbase_tx_hex (spm_manifest (abb_signed_coinbase_manifest body)) ∧
    avr_coinbase_value_sats report = fb_coinbase_value_sats fb.
Proof.
  intros Hwf Hwc Hp Hmax Hb Hlow Hbytes. unfold build_audit_bundle_body_with_ctv_settlement_options_parallel in Hb.
  destruct (eq_ignore_ascii_case _ _); [done|]. rewrite parallel_manifest_eq in Hb by (done || apply Hwf).
  apply bind_Ok in Hb as (rm & Hrm & Hb). apply bind_Ok in Hb as (att & Hatt & Hb).
  apply bind_Ok in Hb as (base & Hbase & Hb). apply bind_Ok in Hb as ([[pol decision] fees] & Hset & Hb).
  apply bind_Ok in Hb as (h & Hh%map_err_Ok & Hb). apply bind_Ok in Hb as (pb & Hpb%map_err_Ok & Hb).
  apply bind_Ok in Hb as (preps & Hpreps & Hb). apply bind_Ok in Hb as (root & Hroot & Hb).
  apply bind_Ok in Hb as (es & Hes & Hb). apply bind_Ok in Hb as (signed & Hsig & Hb).
  apply bind_Ok in Hb as (set & Hfin & [= <-]). cbn in Hlow.
  unfold ctv_settlement_coinbase_entitlements in Hes. destruct (negb _); [done|]. injection Hes as <-.
  pose proof (policy_facts_of _ _ _ _ _ _ _ Hwf Hrm Hbase) as F.
  destruct (build_manifest_parts _ _ _ _ Hrm) as (Ehh & Ev & En & Em & Ecut & _). rewrite <- Ev in Hmax.
  destruct (settle_policy_Ok _ _ _ _ _ _ _ _ F Hwc Hmax Hset Hlow) as (recipients & S).
  pose proof (prepared_chunks _ _ _ _ _ _ _ _ _ _ S Hpreps) as HF.
  destruct (signed_manifest_pass _ _ _ Hsig) as (Hbuilt & Hver & sb & Hsb).
  destruct (leaf_pass _ _ _ _ _ Hh Hpb) as (Hleaf & rb & Hrb).
  match type of Hbuilt with build_manifest ?r = _ => assert (wf_request r) as Hreq end.
  { constructor; cbn; [apply F| |rewrite Ehh; apply Hwf]. apply settlement_request_wf; [|exact HF].
    apply Forall_forall. intros r Hr. pose proof (wr_amounts _ (st_wf _ _ _ _ _ _ S)) as Hamt.
    rewrite Forall_forall in Hamt. apply Hamt. rewrite <- (ro_perm _ _ _ (st_routed _ _ _ _ _ _ S)). apply elem_of_app. by left. }
  pose proof (st_accounts _ _ _ _ _ _ S) as (accounts & Hacc).
  assert (settlement_recipients_from_entitlements (ppm_onchain_entitlements pol) = Ok recipients) as Hrec
    by (rewrite Hacc; apply (st_recipients _ _ _ _ _ _ S)).
  pose proof (settlement_pass _ _ _ _ _ _
    (commitment_leaf_hex h (sha256 pb) :: (pcf_commitment_witness_leaf_hex <$> preps)) _ _
    (st_routed _ _ _ _ _ _ S) Hrec HF Hreq Hmax Hbuilt Hfin) as P.
  destruct P as [Hsv Hsl Hsb']; [intros prep Hin; apply list_elem_of_further, list_elem_of_fmap_2, Hin|].
  eapply consistent_pass; [constructor|exact Hrb|exact Hpb|exact Hsb|exact Hbytes]; cbn;
    [done|by eapply attestation_pass|done|by rewrite Ecut| | |exact Hleaf| |exact Hroot|done|exact Hbuilt].
  - unfold expected_policy_of. cbn. rewrite Hbase. cbn. pose proof (st_expected _ _ _ _ _ _ S) as Hexp.
    destruct fee_policy as [fp|]; [by rewrite Hexp|by rewrite Hexp].
  - refine (settled_output_policy _ _ _ _ _ _ _ preps _ _ F S _ _ Hreq _ Hbuilt); [done..|]. cbn.
    rewrite (settlement_weights _ _ _ _ _ _ Hsv Hsb'), Hacc. apply (pf_total _ _ F).
  - unfold expected_settlement_of. cbn. rewrite Hsv. cbn. do 3 f_equal. by destruct set.
Qed.
End audit.
