(* ===== verification/AuditExample.v ===== *)
(** Audited blocks evaluated in full: a bundle settled by a CTV fanout that
    passes the verifier, and the witnesses of the audit theorems. *)
From Stdlib Require Import ZArith Lia.
From Stdlib Require Ascii String.
From coqutil Require Import Byte.
From stdpp Require Import base list strings pretty gmap sorting.
From S2P Require Import Prelude Order BTree Bytes Crates Payee Apportion PrismError PoolBuilder CoinbaseTx PayoutManifest WindowCut RewardWindow ByProgram.
From S2P Require Import PayoutPolicy Settlement FanoutFee CtvTx CtvHash Fanout Covenant FanoutSet OrderedChunks RewardParallel OrderedJson AuditBundle AuditBuild AuditVerify AuditFacts AuditCtv.
Import ExampleJson.

Open Scope Z_scope.

(** * Serialisers *)
(** Plain renderings of the types whose JSON is derived; each tells apart what
    the examples change. *)
#[export] Instance example_accepted_share_json : ToJson AcceptedShare :=
  {| json_to_vec s := inr (str_bytes (as_share_id s) ++ le_bytes 16 (as_share_difficulty s)) |}.
#[export] Instance example_found_block_json : ToJson FoundBlock :=
  {| json_to_vec b := inr (le_bytes 8 (fb_coinbase_value_sats b)) |}.
#[export] Instance example_balance_json : ToJson CarryForwardBalance :=
  {| json_to_vec b := inr (str_bytes (cfb_recipient_id b) ++ le_bytes 16 (cfb_balance_sats b)) |}.
#[export] Instance example_payout_policy_json : ToJson PayoutPolicy :=
  {| json_to_vec p := inr (le_bytes 8 (pp_safety_multiplier p)) |}.
#[export] Instance example_attestation_json : ToJson LedgerWindowAttestation :=
  {| json_to_vec a := inr (str_bytes (ms_signature_hex (lwa_signature a))) |}.
#[export] Instance example_policy_manifest_json : ToJson PayoutPolicyManifest :=
  {| json_to_vec m := inr (foldr (fun a rest => le_bytes 8 (ppa_onchain_amount_sats a) ++
       le_bytes 8 (ppa_settlement_fee_sats a) ++ rest) [] (ppm_accounts m)) |}.
#[export] Instance example_decision_json : ToJson SettlementModeDecision :=
  {| json_to_vec d := inr (le_bytes 4 (smd_fanout_chunk_count d)) |}.
#[export] Instance example_fee_policy_json : ToJson FanoutFeeRatePolicy :=
  {| json_to_vec p := inr (le_bytes 8 (premium_bps p)) |}.
#[export] Instance example_manifest_set_json : ToJson CtvFanoutManifestSet :=
  {| json_to_vec s := inr (str_bytes (cfs_parent_coinbase_txid s)) |}.
#[export] Instance example_payout_manifest_json : ToJson PayoutManifest :=
  {| json_to_vec m := inr (str_bytes (pm_coinbase_tx_hex m)) |}.
#[export] Instance example_signed_manifest_json : ToJson SignedPayoutManifest :=
  {| json_to_vec m := inr (str_bytes (ms_signature_hex (spm_signature m))) |}.
#[export] Instance example_json_names : JsonNames.
Proof. by constructor. Qed.

(** * A block settled in part by a fanout *)
Definition example_coinbase_key : SigningKey := [Byte.x01].
Definition example_ledger_key : SigningKey := [Byte.x02].
Definition example_audit_config : SettlementModeConfig := {|
  max_coinbase_settlement_outputs := 2; max_direct_coinbase_outputs := 1;
  max_fanout_recipients_per_transaction := 1000; reserved_coinbase_outputs := 0 |}.
Definition example_fee_policy : FanoutFeeRatePolicy :=
  {| market_fee_rate_sats_per_1000_weight := 300; premium_bps := 1000 |}.
(** Alice and bob share one fanout; the pool fee is paid by the coinbase. *)
Definition example_body : AuditBundleBody.
Proof.
  ok_of (build_audit_bundle_body_with_ctv_settlement_options_parallel example_shares example_block None []
    example_policy 100 example_audit_config (Some example_fee_policy) None [] example_coinbase_key
    example_ledger_key (new_parallelism 4 1)).
Defined.
Definition example_bundle : AuditBundle := into_bundle example_body example_shares.
Definition example_report : AuditVerificationReport.
Proof. ok_of (verify_audit_view example_bundle (public_key_hex example_ledger_key)). Defined.

Example example_fanout_pays :
  map (fun o => (po_recipient_id o, po_amount_sats o))
    (pm_outputs (spm_manifest (abb_signed_coinbase_manifest example_body))) =
    [("pool", 2000); ("ctv-fanout-0", 98000)] ∧
  map (fun m => map (fun o => (cfo_recipient_id o, cfo_amount_sats o, cfo_fee_sats o))
    (cpc_outputs (cfm_precommitment m))) (fanout_manifests example_bundle) =
    [[("alice", 48997, 3); ("bob", 48997, 3)]].
Proof. split; vm_compute; reflexivity. Qed.

Lemma example_inputs_wf : wf_inputs example_shares example_block example_policy.
Proof.
  constructor; try reflexivity; [exact example_shares_wf|exact example_block_wf|intros m [= <-]|intros p [= <-]];
    reflexivity.
Qed.

(** * Witnesses *)
Lemma split_hash_canonical_witness :
  ∃ hash bytes, (prefix ← map_err PrismJson (new_with example_shares (new_parallelism 4 1));
    finish_with prefix example_body (new_parallelism 2 1)) = Ok hash ∧
  canonical_audit_bundle_bytes_from_parts example_body example_shares = Ok bytes ∧
  hash = hex_encode (sha256 bytes).
Proof.
  destruct (canonical_audit_bundle_bytes_from_parts example_body example_shares) as [bytes|e|m] eqn:Hb;
    [|vm_compute in Hb; discriminate Hb..].
  exists (hex_encode (sha256 bytes)), bytes. split_and!; [|reflexivity..].
  apply (proj1 (split_hash_canonical example_shares example_body (new_parallelism 4 1) (new_parallelism 2 1))).
  split; [vm_compute; reflexivity|]. exists bytes. split; [exact Hb|reflexivity].
Defined.

Lemma built_bundle_verifies_witness :
  ∃ body report,
    build_audit_bundle_body_with_coinbase_options_parallel example_shares example_block None [] example_policy
      None [] example_coinbase_key example_ledger_key (new_parallelism 4 1) = Ok body ∧
    verify_audit_parts body example_shares (public_key_hex example_ledger_key) = Ok report.
Proof.
  assert (is_ok (body ← build_audit_bundle_body_with_coinbase_options_parallel example_shares example_block None []
      example_policy None [] example_coinbase_key example_ledger_key (new_parallelism 4 1);
    map_err PrismJson (canonical_audit_bundle_bytes_from_parts body example_shares)) = true) as Hok
    by (vm_compute; reflexivity).
  apply is_ok_ex in Hok as [bytes Hok]. apply bind_Ok in Hok as (body & Hb & Hbytes%map_err_Ok).
  destruct (built_bundle_verifies example_shares example_block None [] example_policy None [] example_coinbase_key
    example_ledger_key (new_parallelism 4 1) body bytes example_inputs_wf ltac:(cbn; lia) Hb Hbytes) as (report & Hr & _).
  exists body, report. split; [exact Hb|exact Hr].
Defined.

Definition is_lowercase_program (e : WeightedEntitlement) : bool :=
  match decode_hex (we_p2mr_program_hex e) with
  | Some bs => (length bs =? 32)%nat && String.eqb (encode_hex bs) (we_p2mr_program_hex e)
  | None => false
  end.
Lemma example_lowercase : lowercase_programs (abb_payout_policy_manifest example_body).
Proof.
  assert (forallb is_lowercase_program (ppm_onchain_entitlements (abb_payout_policy_manifest example_body)) = true)
    as Hall by (vm_compute; reflexivity).
  unfold lowercase_programs. apply Forall_forall. intros e He%list_elem_of_In.
  rewrite forallb_forall in Hall. specialize (Hall e He). clear He. unfold is_lowercase_program in Hall.
  destruct (decode_hex _) as [bs|]; [|discriminate Hall]. apply andb_true_iff in Hall as [Hl Hs].
  apply Nat.eqb_eq in Hl. apply String.eqb_eq in Hs. exists bs. split; [exact Hl|symmetry; exact Hs].
Qed.
Lemma ctv_bundle_verifies_witness :
  ∃ report, verify_audit_parts example_body example_shares (public_key_hex example_ledger_key) = Ok report.
Proof.
  assert (build_audit_bundle_body_with_ctv_settlement_options_parallel example_shares example_block None []
    example_policy 100 example_audit_config (Some example_fee_policy) None [] example_coinbase_key
    example_ledger_key (new_parallelism 4 1) = Ok example_body) as Hb by (vm_compute; reflexivity).
  destruct (canonical_audit_bundle_bytes_from_parts example_body example_shares) as [bytes|e|m] eqn:Hbytes;
    [|vm_compute in Hbytes; discriminate Hbytes..].
  destruct (ctv_bundle_verifies example_shares example_block None [] example_policy 100 example_audit_config
    (Some example_fee_policy) None [] example_coinbase_key example_ledger_key (new_parallelism 4 1) example_body bytes
    example_inputs_wf ltac:(by constructor) ltac:(cbn; lia) ltac:(vm_compute; discriminate) Hb example_lowercase Hbytes)
    as (report & Hr & _).
  exists report. exact Hr.
Defined.

Lemma verified_bundle_pays_witness :
  verify_audit_view example_bundle (public_key_hex example_ledger_key) = Ok example_report ∧
  settles_policy example_bundle.
Proof.
  assert (verify_audit_view example_bundle (public_key_hex example_ledger_key) = Ok example_report) as Hv
    by (vm_compute; reflexivity).
  split; [exact Hv|].
  refine (proj2 (proj2 (proj2 (verified_bundle_pays example_bundle _ example_report example_inputs_wf _ Hv)))).
  repeat constructor. intros o. revert o. apply Forall_forall. vm_compute. repeat constructor.
Defined.

(** * A fanout that underpays *)
Definition with_gross (gross : Z) (o : CtvFanoutOutput) : CtvFanoutOutput :=
  {| cfo_vout := cfo_vout o; cfo_recipient_id := cfo_recipient_id o; cfo_order_key := cfo_order_key o;
     cfo_p2mr_program_hex := cfo_p2mr_program_hex o; cfo_script_pubkey_hex := cfo_script_pubkey_hex o;
     cfo_gross_amount_sats := gross; cfo_fee_sats := cfo_fee_sats o; cfo_amount_sats := cfo_amount_sats o |}.
Definition with_outputs (outputs : list CtvFanoutOutput) (p : CtvFanoutPrecommitment) : CtvFanoutPrecommitment :=
  {| cpc_schema := cpc_schema p; cpc_block_height := cpc_block_height p; cpc_chunk_index := cpc_chunk_index p;
     cpc_chunk_count := cpc_chunk_count p; cpc_coinbase_value_sats := cpc_coinbase_value_sats p;
     cpc_settlement_mode := cpc_settlement_mode p;
     cpc_covenant_output_value_sats := cpc_covenant_output_value_sats p;
     cpc_covenant_script_pubkey_hex := cpc_covenant_script_pubkey_hex p;
     cpc_fanout_tx_template_hex := cpc_fanout_tx_template_hex p;
     cpc_fanout_input_index := cpc_fanout_input_index p; cpc_fanout_sequence := cpc_fanout_sequence p;
     cpc_fanout_lock_time := cpc_fanout_lock_time p;
     cpc_fanout_output_sum_sats := cpc_fanout_output_sum_sats p; cpc_fanout_fee_sats := cpc_fanout_fee_sats p;
     cpc_anchor_vout := cpc_anchor_vout p; cpc_ctv_hash_hex := cpc_ctv_hash_hex p;
     cpc_ctv_leaf_script_hex := cpc_ctv_leaf_script_hex p; cpc_p2mr_program_hex := cpc_p2mr_program_hex p;
     cpc_p2mr_control_block_hex := cpc_p2mr_control_block_hex p;
     cpc_reward_manifest_sha256_hex := cpc_reward_manifest_sha256_hex p;
     cpc_payout_policy_manifest_sha256_hex := cpc_payout_policy_manifest_sha256_hex p;
     cpc_outputs := outputs |}.
Definition with_precommitment (p : CtvFanoutPrecommitment) (sha leaf : string) (m : CtvFanoutManifest)
  : CtvFanoutManifest :=
  {| cfm_schema := cfm_schema m; cfm_precommitment := p; cfm_precommitment_sha256_hex := sha;
     cfm_commitment_witness_leaf_hex := leaf; cfm_parent_coinbase_txid := cfm_parent_coinbase_txid m;
     cfm_parent_coinbase_tx_hex := cfm_parent_coinbase_tx_hex m;
     cfm_parent_coinbase_vout := cfm_parent_coinbase_vout m;
     cfm_covenant_output_value_sats := cfm_covenant_output_value_sats m;
     cfm_covenant_script_pubkey_hex := cfm_covenant_script_pubkey_hex m;
     cfm_fanout_tx_hex := cfm_fanout_tx_hex m; cfm_fanout_txid := cfm_fanout_txid m |}.

(** The pool moves 1000 sats from alice to bob inside the fanout and writes the
    amounts they are due into the gross fields. *)
Definition shifted_payout (o : CtvFanoutOutput) : CtvFanoutPayout :=
  let moved := if String.eqb (cfo_recipient_id o) "alice" then (-1000) else 1000 in
  {| cfp_recipient_id := cfo_recipient_id o; cfp_order_key := cfo_order_key o;
     cfp_p2mr_program_hex := cfo_p2mr_program_hex o;
     cfp_gross_amount_sats := cfo_gross_amount_sats o + moved; cfp_fee_sats := cfo_fee_sats o;
     cfp_amount_sats := cfo_amount_sats o + moved |}.
Definition forge (b : AuditBundleBody) (decision : SettlementModeDecision) (m : CtvFanoutManifest)
  : result PrismError AuditBundleBody :=
  let p := cfm_precommitment m in
  shifted ← prepare_ctv_fanout_precommitment
    {| cpi_block_height := cpc_block_height p; cpi_chunk_index := cpc_chunk_index p;
       cpi_chunk_count := cpc_chunk_count p; cpi_coinbase_value_sats := cpc_coinbase_value_sats p;
       cpi_settlement_mode := cpc_settlement_mode p;
       cpi_reward_manifest_sha256_hex := cpc_reward_manifest_sha256_hex p;
       cpi_payout_policy_manifest_sha256_hex := cpc_payout_policy_manifest_sha256_hex p;
       cpi_payouts := shifted_payout <$> cpc_outputs p |};
  let forged := with_outputs
    (zip_with (fun due o => with_gross (cfo_gross_amount_sats due) o) (cpc_outputs p)
       (cpc_outputs (pcf_precommitment shifted))) (pcf_precommitment shifted) in
  bytes ← canonical_precommitment_bytes forged;
  leaf ← commitment_witness_leaf_hex (sha256_hex bytes);
  let leaves := take 1 (abb_audit_commitment_leaves_hex b) ++ [leaf] in
  root ← audit_commitment_root_hex leaves;
  entitlements ← ctv_settlement_coinbase_entitlements decision [shifted];
  signed ← build_profiled_signed_manifest
    {| cbr_block_height := rm_block_height (abb_reward_manifest b);
       cbr_coinbase_value_sats := rm_coinbase_value_sats (abb_reward_manifest b);
       cbr_entitlements := entitlements; cbr_witness_nonce_hex := Some root;
       cbr_witness_merkle_leaves_hex := []; cbr_coinbase_script_sig_suffix_hex := None;
       cbr_pinned_first_output := pinned_first_output_for_policy (abb_payout_policy_manifest b) |}
    example_coinbase_key;
  settled ← finalize_fanout (spm_manifest signed) shifted;
  set ← build_ctv_fanout_manifest_set [with_precommitment forged (sha256_hex bytes) leaf settled];
  Ok {| abb_schema := abb_schema b; abb_found_block := abb_found_block b;
        abb_prior_balances := abb_prior_balances b; abb_payout_policy := abb_payout_policy b;
        abb_coinbase_script_sig_suffix_hex := None; abb_witness_merkle_leaves_hex := [];
        abb_audit_commitment_leaves_hex := leaves; abb_audit_commitment_root_hex := Some root;
        abb_ledger_window_attestation := abb_ledger_window_attestation b;
        abb_reward_manifest := abb_reward_manifest b;
        abb_payout_policy_manifest := abb_payout_policy_manifest b;
        abb_settlement_mode_decision := Some decision;
        abb_ctv_fanout_fee_policy := abb_ctv_fanout_fee_policy b;
        abb_ctv_fanout_manifest_set := Some set; abb_signed_coinbase_manifest := signed |}.
Definition forged_body : AuditBundleBody.
Proof.
  ok_of (match abb_settlement_mode_decision example_body, fanout_manifests example_bundle with
         | Some decision, [m] => forge example_body decision m
         | _, _ => Err (AuditMismatch "no fanout") end).
Defined.
Definition forged_bundle : AuditBundle := into_bundle forged_body example_shares.

(** The verifier trusts a fanout's declared gross amounts: a bundle whose
    policy manifest owes alice 49000 sats gross of a 3 sat fee passes, although
    the fanout its coinbase commits to pays her 47997. *)
Example declared_gross_is_trusted :
  is_ok (verify_audit_view forged_bundle (public_key_hex example_ledger_key)) = true ∧
  map (fun a => (ppa_recipient_id a, ppa_onchain_amount_sats a, ppa_settlement_fee_sats a))
    (ppm_accounts (ab_payout_policy_manifest forged_bundle)) =
    [("alice", 49000, 3); ("bob", 49000, 3); ("pool", 2000, 0)] ∧
  map (fun m => map (fun o => (cfo_recipient_id o, cfo_amount_sats o, cfo_fee_sats o))
    (cpc_outputs (cfm_precommitment m))) (fanout_manifests forged_bundle) =
    [[("alice", 47997, 3); ("bob", 49997, 3)]].
Proof. split_and!; vm_compute; reflexivity. Qed.
