(* ===== verification/F64.v ===== *)
(** Rust's [f64]: IEEE 754 binary64 as the Standard Library's [SpecFloat], with
    the bit layout [to_bits] exposes. *)
From Stdlib Require Import ZArith Lia SpecFloat.
From stdpp Require Import base numbers.
From S2P Require Import Prelude.

Open Scope Z_scope.

Definition f64 : Type := spec_float.
Definition f64_zero : f64 := S754_zero false.
Definition is_finite (x : f64) : bool :=
  match x with S754_zero _ | S754_finite _ _ _ => true | _ => false end.
Definition f64_gt (x y : f64) : bool := SFltb y x.
Definition f64_ge (x y : f64) : bool := SFleb y x.
Definition f64_div (x y : f64) : f64 := SFdiv 53 1024 x y.
Definition valid_f64 (x : f64) : bool := valid_binary 53 1024 x.

(** [f64::to_bits]: sign, eleven exponent bits, fifty-two fraction bits; a
    subnormal has exponent field 0 and no hidden bit. *)
Definition sign_bit (s : bool) : Z := if s then 2 ^ 63 else 0.
Definition to_bits (x : f64) : Z :=
  match x with
  | S754_zero s => sign_bit s
  | S754_infinity s => sign_bit s + 0x7ff * 2 ^ 52
  | S754_nan => 0x7ff * 2 ^ 52 + 2 ^ 51
  | S754_finite s m e =>
      if Z.pos m <? 2 ^ 52 then sign_bit s + Z.pos m
      else sign_bit s + (e + 1075) * 2 ^ 52 + (Z.pos m - 2 ^ 52)
  end.

(** A positive finite number is [m * 2 ^ e] with a 53-bit mantissa, normal or at
    the least exponent. *)
Lemma digits2_pos_log2 m : Z.pos (digits2_pos m) = Z.log2 (Z.pos m) + 1.
Proof.
  induction m as [m IH|m IH|]; cbn [digits2_pos]; [| |done];
    rewrite Pos2Z.inj_succ, IH.
  - rewrite (Pos2Z.inj_xI m), Z.log2_succ_double by lia. lia.
  - rewrite (Pos2Z.inj_xO m), Z.log2_double by lia. lia.
Qed.

Lemma valid_f64_finite s m e :
  valid_f64 (S754_finite s m e) = true →
  (2 ^ 52 ≤ Z.pos m < 2 ^ 53 ∧ -1074 ≤ e ≤ 971) ∨ (Z.pos m < 2 ^ 52 ∧ e = -1074).
Proof.
  unfold valid_f64, valid_binary, bounded, canonical_mantissa, fexp, emin.
  rewrite andb_true_iff, Z.eqb_eq, Z.leb_le, digits2_pos_log2. intros [Hc He].
  destruct (Z.log2_spec (Z.pos m) ltac:(lia)) as [Hlo Hhi].
  set (k := Z.log2 (Z.pos m)) in *. assert (0 ≤ k) by apply Z.log2_nonneg.
  destruct (decide (k < 52)) as [Hk|Hk].
  - right. split; [|lia]. eapply Z.lt_le_trans; [exact Hhi|]. apply Z.pow_le_mono_r; lia.
  - left. assert (k = 52) as -> by lia. change (Z.succ 52) with 53 in Hhi. lia.
Qed.
