(* ===== verification/F64Facts.v ===== *)
(** Arithmetic on [f64] as far as the difficulty controller relies on it: the
    results of the basic operations are well formed, never NaN on the operands
    that occur, and rounding respects the order, so that dividing by a number
    of at least one cannot increase a positive value and multiplying by one
    cannot decrease it. *)
From Stdlib Require Import ZArith Lia SpecFloat.
From stdpp Require Import base numbers.
From S2P Require Import Prelude F64.

Open Scope Z_scope.
#[local] Arguments Z.pow : simpl never.
#[local] Arguments Z.sub : simpl never.
#[local] Arguments Z.add : simpl never.
#[local] Arguments Z.mul : simpl never.
#[local] Arguments Z.max : simpl never.
#[local] Arguments Z.leb : simpl never.

Definition f64_mul (x y : f64) : f64 := SFmul 53 1024 x y.
Definition f64_add (x y : f64) : f64 := SFadd 53 1024 x y.
Definition f64_sub (x y : f64) : f64 := SFsub 53 1024 x y.
Definition f64_abs (x : f64) : f64 := SFabs x.
Definition f64_le (x y : f64) : bool := SFleb x y.
Definition f64_lt (x y : f64) : bool := SFltb x y.
Definition f64_eq (x y : f64) : bool := SFeqb x y.

(** * Order *)
Definition is_nan (x : f64) : bool := match x with S754_nan => true | _ => false end.
(** A key that sorts as [SFcompare] does: class and sign, then exponent, then
    mantissa. *)
Definition sort_key (x : f64) : Z * Z * Z :=
  match x with
  | S754_infinity true => (-2, 0, 0)
  | S754_finite true m e => (-1, - e, Z.neg m)
  | S754_zero _ | S754_nan => (0, 0, 0)
  | S754_finite false m e => (1, e, Z.pos m)
  | S754_infinity false => (2, 0, 0)
  end.
Definition key_le (a b : Z * Z * Z) : Prop :=
  a.1.1 < b.1.1 ∨ a.1.1 = b.1.1 ∧ (a.1.2 < b.1.2 ∨ a.1.2 = b.1.2 ∧ a.2 ≤ b.2).

Lemma f64_le_iff x y : f64_le x y = true ↔ is_nan x = false ∧ is_nan y = false ∧ key_le (sort_key x) (sort_key y).
Proof.
  unfold f64_le, SFleb, key_le.
  destruct x as [[]|[]| |[] m e], y as [[]|[]| |[] m' e']; cbn;
    try (split; [intros; try done; repeat split; lia|intros (? & ? & ?); try done; lia]);
    change (Pos.compare_cont Eq m m') with (m ?= m')%positive;
    destruct (Z.compare_spec e e'); try destruct (Pos.compare_spec m m'); cbn;
    (split; [intros; try done; repeat split; lia|intros (? & ? & ?); try done; lia]).
Qed.
Lemma f64_lt_le x y : is_nan x = false → is_nan y = false → f64_lt x y = negb (f64_le y x).
Proof.
  intros Hx Hy. unfold f64_lt, f64_le, SFltb, SFleb.
  destruct x as [[]|[]| |[] m e], y as [[]|[]| |[] m' e']; cbn; try done;
    change (Pos.compare_cont Eq m m') with (m ?= m')%positive; change (Pos.compare_cont Eq m' m) with (m' ?= m)%positive;
    rewrite (Z.compare_antisym e e'); destruct (Z.compare_spec e e'); cbn; try done;
    rewrite (Pos.compare_antisym m m'); by destruct (m ?= m')%positive.
Qed.
Lemma f64_le_refl x : is_nan x = false → f64_le x x = true.
Proof. rewrite f64_le_iff. unfold key_le. intros. repeat split; [done..|]. right. lia. Qed.
Lemma f64_le_trans x y z : f64_le x y = true → f64_le y z = true → f64_le x z = true.
Proof. rewrite !f64_le_iff. unfold key_le. intros (? & ? & ?) (_ & ? & ?). repeat split; [done..|lia]. Qed.
Lemma f64_le_total x y : is_nan x = false → is_nan y = false → f64_le x y = false → f64_le y x = true.
Proof.
  intros Hx Hy Hle. rewrite f64_le_iff. repeat split; [done..|]. unfold key_le.
  destruct (decide (key_le (sort_key x) (sort_key y))) as [Hk|Hk] eqn:Hd; [|unfold key_le in Hk; lia].
  rewrite (proj2 (f64_le_iff x y)) in Hle by done. done.
Qed.

(** * Shifting right *)
Definition exact_record (r : shr_record) : Prop := shr_r r = false ∧ shr_s r = false.
Record shifted (n : Z) (before after : shr_record) : Prop := {
  sh_floor : shr_m after = shr_m before / 2 ^ n;
  sh_exact : exact_record after ↔ shr_m before = shr_m after * 2 ^ n ∧ exact_record before;
}.
Lemma shifted_trans n k a b c : 0 ≤ n → 0 ≤ k → shifted n a b → shifted k b c → shifted (n + k) a c.
Proof.
  intros Hn Hk [Hf He] [Hf' He']. constructor.
  - rewrite Hf', Hf, Z.div_div, <- Z.pow_add_r by lia. done.
  - rewrite He', He. replace (shr_m c * 2 ^ (n + k)) with (shr_m c * 2 ^ k * 2 ^ n) by (rewrite Z.pow_add_r by lia; ring).
    split; [intros (-> & -> & Ha); done|]. intros [Hm Ha].
    assert (shr_m b = shr_m c * 2 ^ k) as Hb by (rewrite Hf, Hm, Z.div_mul; [done|apply Z.pow_nonzero; lia]).
    split; [done|]. rewrite Hb. done.
Qed.
Lemma shr_1_shifted r : 0 ≤ shr_m r → shifted 1 r (shr_1 r).
Proof.
  destruct r as [m b s]. cbn. intros Hm. constructor; cbn [shr_m]; change (2 ^ 1) with 2.
  - destruct m as [|[m|m|]|]; cbn; [done| | |done|lia].
    + apply (Z.div_unique_pos _ 2 _ 1); lia.
    + apply (Z.div_unique_pos _ 2 _ 0); lia.
  - unfold exact_record. destruct m as [|[m|m|]|], b, s; cbn; split; intros; destruct_and?; try done; repeat split; lia.
Qed.
Lemma shifted_nonneg n a b : 0 ≤ n → shifted n a b → 0 ≤ shr_m a → 0 ≤ shr_m b.
Proof. intros Hn [-> _] Ha. apply Z.div_pos; [done|]. apply Z.pow_pos_nonneg; lia. Qed.
Lemma iter_shr_shifted p r : 0 ≤ shr_m r → shifted (Z.pos p) r (@SpecFloat.iter_pos _ shr_1 p r).
Proof.
  revert r. induction p as [p IH|p IH|]; intros r Hr; cbn [SpecFloat.iter_pos]; [| |by apply shr_1_shifted].
  - replace (Z.pos p~1) with (1 + (Z.pos p + Z.pos p)) by lia.
    pose proof (shr_1_shifted r Hr) as Hs1. pose proof (shifted_nonneg 1 _ _ ltac:(lia) Hs1 Hr) as Hp1.
    pose proof (IH _ Hp1) as Hs2. pose proof (shifted_nonneg (Z.pos p) _ _ ltac:(lia) Hs2 Hp1) as Hp2.
    eapply shifted_trans; [lia..|done|]. eapply shifted_trans; [lia..|done|]. by apply IH.
  - replace (Z.pos p~0) with (Z.pos p + Z.pos p) by lia. pose proof (IH _ Hr) as Hs2.
    eapply shifted_trans; [lia..|done|]. by apply IH, (shifted_nonneg (Z.pos p) r).
Qed.

(** * Rounding *)
Definition grid (z : Z) : Z := Z.max (z - 53) (-1074).
Lemma fexp_grid z : fexp 53 1024 z = grid z.
Proof. reflexivity. Qed.
Lemma digits_spec m : 0 < m → 1 ≤ Zdigits2 m ∧ 2 ^ (Zdigits2 m - 1) ≤ m < 2 ^ Zdigits2 m.
Proof.
  destruct m as [|m|m]; [lia| |lia]. intros _. cbn [Zdigits2]. rewrite digits2_pos_log2.
  pose proof (Z.log2_nonneg (Z.pos m)). pose proof (Z.log2_spec (Z.pos m) ltac:(lia)) as Hs.
  replace (Z.log2 (Z.pos m) + 1 - 1) with (Z.log2 (Z.pos m)) by lia. split; [lia|exact Hs].
Qed.
Lemma digits_unique m d : 0 < m → 2 ^ (d - 1) ≤ m < 2 ^ d → Zdigits2 m = d.
Proof.
  intros Hm Hd. destruct (digits_spec m Hm) as [H1 Hs].
  assert (0 ≤ d - 1) by (destruct (decide (0 ≤ d - 1)); [done|]; assert (2 ^ d ≤ 1) by (destruct (decide (d = 0)) as [->|]; [done|rewrite Z.pow_neg_r by lia; lia]); lia).
  destruct (Z.lt_trichotomy (Zdigits2 m) d) as [Hlt|[?|Hgt]]; [|done|].
  - assert (2 ^ Zdigits2 m ≤ 2 ^ (d - 1)) by (apply Z.pow_le_mono_r; lia). lia.
  - assert (2 ^ d ≤ 2 ^ (Zdigits2 m - 1)) by (apply Z.pow_le_mono_r; lia). lia.
Qed.
Lemma digits_le m d : 0 ≤ m < 2 ^ d → 0 ≤ d → Zdigits2 m ≤ d.
Proof.
  intros Hm Hd. destruct (decide (m = 0)) as [->|]; [done|]. destruct (digits_spec m ltac:(lia)) as [H1 Hs].
  destruct (decide (Zdigits2 m ≤ d)); [done|]. assert (2 ^ d ≤ 2 ^ (Zdigits2 m - 1)) by (apply Z.pow_le_mono_r; lia). lia.
Qed.

(** [shr_fexp] drops the bits below the grid of the value. *)
Lemma shr_fexp_spec m e l :
  0 ≤ m → e ≤ grid (Zdigits2 m + e) →
  ∃ r, shr_fexp 53 1024 m e l = (r, grid (Zdigits2 m + e)) ∧
    shifted (grid (Zdigits2 m + e) - e) (shr_record_of_loc m l) r.
Proof.
  intros Hm He. unfold shr_fexp. rewrite fexp_grid. set (n := grid (Zdigits2 m + e) - e).
  assert (shr_m (shr_record_of_loc m l) = m) as Hrm by by destruct l as [|[]].
  assert (0 ≤ n) by lia. replace (grid (Zdigits2 m + e)) with (e + n) by lia. clearbody n. destruct n as [|p|p]; cbn [shr]; [| |lia].
  - exists (shr_record_of_loc m l). rewrite Z.add_0_r. split; [done|]. constructor; [by rewrite Z.pow_0_r, Z.div_1_r|].
    rewrite Z.pow_0_r, Z.mul_1_r. naive_solver.
  - eexists. split; [done|]. apply iter_shr_shifted. by rewrite Hrm.
Qed.
(** A value already on its grid, or finer than it needs, stays. *)
Lemma shr_fexp_keep m e l : grid (Zdigits2 m + e) ≤ e → shr_fexp 53 1024 m e l = (shr_record_of_loc m l, e).
Proof. intros Hg. unfold shr_fexp. rewrite fexp_grid. destruct (grid (Zdigits2 m + e) - e) eqn:Hn; [done|lia|done]. Qed.

Definition finite_or_inf (s : bool) (m e : Z) : f64 :=
  if e <=? 971 then S754_finite s (Z.to_pos m) e else S754_infinity s.
(** What rounding to nearest returns: the floor on the grid of the value or
    the next point, the latter only for an inexact value. *)
Definition round_result (s : bool) (m e : Z) : f64 :=
  if m =? 0 then S754_zero s else if m =? 2 ^ 53 then finite_or_inf s (2 ^ 52) (e + 1) else finite_or_inf s m e.
Record rounds (m e : Z) (l : location) (E k M : Z) : Prop := {
  rd_grid : E = grid (Zdigits2 m + e);
  rd_floor : k = m / 2 ^ (E - e);
  rd_range : 0 ≤ k < 2 ^ 53;
  rd_normal : E = -1074 ∨ 2 ^ 52 ≤ k;
  rd_nearest : M = k ∨ M = k + 1 ∧ (l ≠ loc_Exact ∨ k * 2 ^ (E - e) < m);
}.
Lemma floor_range m e E : 0 ≤ m → e ≤ E → E = grid (Zdigits2 m + e) → 0 ≤ m / 2 ^ (E - e) < 2 ^ 53 ∧ (E = -1074 ∨ 2 ^ 52 ≤ m / 2 ^ (E - e)).
Proof.
  intros Hm He HE. assert (0 < 2 ^ (E - e)) as Hp by (apply Z.pow_pos_nonneg; lia). unfold grid in HE.
  destruct (decide (m = 0)) as [->|Hne].
  { rewrite Z.div_0_l by lia. split; [lia|left]. cbn in HE. lia. }
  destruct (digits_spec m ltac:(lia)) as [Hd [Hlo Hhi]]. split; [split; [by apply Z.div_pos|]|].
  - apply Z.div_lt_upper_bound; [done|]. rewrite <- Z.pow_add_r by lia. eapply Z.lt_le_trans; [exact Hhi|].
    apply Z.pow_le_mono_r; lia.
  - destruct (decide (E = -1074)); [by left|right]. apply Z.div_le_lower_bound; [done|].
    rewrite <- Z.pow_add_r by lia. etransitivity; [|exact Hlo]. apply Z.pow_le_mono_r; lia.
Qed.

Lemma round_nearest_even_cases r :
  let M := round_nearest_even (shr_m r) (loc_of_shr_record r) in
  M = shr_m r ∨ M = shr_m r + 1 ∧ ¬ exact_record r.
Proof. unfold exact_record. destruct r as [m [] []]; cbn; try destruct (Z.even m); naive_solver. Qed.
Lemma second_shift M E :
  0 ≤ M ≤ 2 ^ 53 → -1074 ≤ E → E = -1074 ∨ 2 ^ 52 ≤ M →
  ∃ r e', shr_fexp 53 1024 M E loc_Exact = (r, e') ∧
    if M =? 2 ^ 53 then shr_m r = 2 ^ 52 ∧ e' = E + 1 else shr_m r = M ∧ e' = E.
Proof.
  intros HM HE Hn. destruct (Z.eqb_spec M (2 ^ 53)) as [->|Hne].
  - assert (grid (Zdigits2 (2 ^ 53) + E) = E + 1) as Hg by (change (Zdigits2 (2 ^ 53)) with 54; unfold grid; lia).
    destruct (shr_fexp_spec (2 ^ 53) E loc_Exact ltac:(lia) ltac:(lia)) as (r & Hr & [Hf _]). rewrite Hg in Hr, Hf.
    exists r, (E + 1). split; [done|]. rewrite Hf. replace (E + 1 - E) with 1 by lia. done.
  - assert (Zdigits2 M ≤ 53) by (apply digits_le; lia). exists (shr_record_of_loc M loc_Exact), E.
    split; [apply shr_fexp_keep; unfold grid; lia|done].
Qed.
Lemma binary_round_aux_spec s m e l :
  0 ≤ m → e ≤ grid (Zdigits2 m + e) →
  ∃ E k M, rounds m e l E k M ∧ binary_round_aux 53 1024 s m e l = round_result s M E.
Proof.
  intros Hm He. destruct (shr_fexp_spec m e l Hm He) as (r & Hr & [Hf Hx]). set (E := grid (Zdigits2 m + e)) in *.
  assert (shr_m (shr_record_of_loc m l) = m) as Hrm by by destruct l as [|[]]. rewrite Hrm in Hf, Hx.
  destruct (floor_range m e E Hm He eq_refl) as [Hk HkE]. rewrite <- Hf in Hk, HkE.
  set (M := round_nearest_even (shr_m r) (loc_of_shr_record r)).
  assert (M = shr_m r ∨ M = shr_m r + 1 ∧ (l ≠ loc_Exact ∨ shr_m r * 2 ^ (E - e) < m)) as HM.
  { destruct (round_nearest_even_cases r) as [?|[? Hne]]; [by left|right]. split; [done|].
    destruct l as [|c]; [right|by left]. assert (shr_m r * 2 ^ (E - e) ≤ m).
    { rewrite Hf, Z.mul_comm. apply Z.mul_div_le, Z.pow_pos_nonneg; lia. }
    destruct (decide (m = shr_m r * 2 ^ (E - e))) as [Heq|]; [|lia]. destruct Hne. apply Hx. done. }
  assert (-1074 ≤ E) by (unfold E, grid; lia).
  destruct (second_shift M E ltac:(lia) ltac:(lia) ltac:(lia)) as (r2 & e2 & Hr2 & Hc).
  exists E, (shr_m r), M. split; [by constructor|]. unfold binary_round_aux. rewrite Hr. fold M. rewrite Hr2.
  unfold round_result, finite_or_inf. destruct (Z.eqb_spec M (2 ^ 53)) as [Hb|Hb].
  - destruct Hc as [-> ->]. rewrite Hb. cbn. done.
  - destruct Hc as [-> ->]. destruct M as [|p|p] eqn:Hp; [done|done|lia].
Qed.

(** * Well-formed results *)
Lemma valid_finite s m e :
  (2 ^ 52 ≤ m < 2 ^ 53 ∧ -1074 ≤ e ≤ 971) ∨ (0 < m < 2 ^ 52 ∧ e = -1074) → valid_f64 (S754_finite s (Z.to_pos m) e) = true.
Proof.
  intros Hm. unfold valid_f64, valid_binary, bounded, canonical_mantissa. rewrite fexp_grid.
  change (Z.pos (digits2_pos (Z.to_pos m))) with (Zdigits2 (Z.pos (Z.to_pos m))). rewrite Z2Pos.id by lia.
  apply andb_true_iff. rewrite Z.eqb_eq, Z.leb_le. destruct Hm as [[Hm He]|[Hm ->]].
  - rewrite (digits_unique m 53) by (change (53 - 1) with 52; lia). unfold grid. lia.
  - assert (Zdigits2 m ≤ 52) by (apply digits_le; lia). unfold grid. lia.
Qed.
Definition is_nonneg (x : f64) : bool :=
  match x with S754_zero _ | S754_infinity false | S754_finite false _ _ => true | _ => false end.
Definition nonneg (x : f64) : Prop := valid_f64 x = true ∧ is_nonneg x = true.
Definition pos (x : f64) : Prop := valid_f64 x = true ∧ match x with S754_finite false _ _ => true | _ => false end = true.
Lemma nonneg_not_nan x : nonneg x → is_nan x = false.
Proof. intros [_ Hx]. by destruct x. Qed.
Lemma pos_nonneg x : pos x → nonneg x.
Proof. intros [Hv Hx]. split; [done|]. by destruct x as [[]|[]| |[]]. Qed.
Lemma finite_or_inf_nonneg m e :
  (2 ^ 52 ≤ m < 2 ^ 53 ∧ -1074 ≤ e) ∨ (0 < m < 2 ^ 52 ∧ e = -1074) → nonneg (finite_or_inf false m e).
Proof.
  intros Hm. unfold finite_or_inf. destruct (Z.leb_spec e 971); [|done]. split; [|done]. apply valid_finite. lia.
Qed.
Lemma round_result_nonneg m e l E k M : rounds m e l E k M → nonneg (round_result false M E).
Proof.
  intros [HE _ Hk Hn HM]. assert (-1074 ≤ E) by (rewrite HE; unfold grid; lia). unfold round_result.
  destruct (Z.eqb_spec M 0); [done|]. destruct (Z.eqb_spec M (2 ^ 53)); apply finite_or_inf_nonneg; lia.
Qed.
Lemma round_nonneg m e l : 0 ≤ m → e ≤ grid (Zdigits2 m + e) → nonneg (binary_round_aux 53 1024 false m e l).
Proof. intros Hm He. destruct (binary_round_aux_spec false m e l Hm He) as (E & k & M & Hr & ->). by eapply round_result_nonneg. Qed.

(** ** The operations *)
Lemma digits_mul_le a b : 0 < a → 0 < b → Zdigits2 a + Zdigits2 b - 1 ≤ Zdigits2 (a * b).
Proof.
  intros Ha Hb. destruct (digits_spec a Ha) as [? [? _]], (digits_spec b Hb) as [? [? _]], (digits_spec (a * b) ltac:(lia)) as [? [_ Hh]].
  destruct (decide (Zdigits2 a + Zdigits2 b - 1 ≤ Zdigits2 (a * b))); [done|].
  assert (2 ^ Zdigits2 (a * b) ≤ 2 ^ ((Zdigits2 a - 1) + (Zdigits2 b - 1))) by (apply Z.pow_le_mono_r; lia).
  assert (2 ^ (Zdigits2 a - 1) * 2 ^ (Zdigits2 b - 1) ≤ a * b) by (apply Z.mul_le_mono_nonneg; try apply Z.pow_nonneg; lia).
  rewrite (Z.pow_add_r 2 (Zdigits2 a - 1)) in * by lia. lia.
Qed.
Lemma valid_grid s m e : valid_f64 (S754_finite s m e) = true → e = grid (Zdigits2 (Z.pos m) + e) ∧ e ≤ 971.
Proof.
  unfold valid_f64, valid_binary, bounded, canonical_mantissa. rewrite andb_true_iff, Z.eqb_eq, Z.leb_le, fexp_grid. cbn [Zdigits2]. lia.
Qed.
Lemma mul_grid m e m' e' :
  e = grid (Zdigits2 (Z.pos m) + e) → e' = grid (Zdigits2 (Z.pos m') + e') → e + e' ≤ grid (Zdigits2 (Z.pos m * Z.pos m') + (e + e')).
Proof.
  intros He He'. pose proof (digits_mul_le (Z.pos m) (Z.pos m') ltac:(lia) ltac:(lia)).
  destruct (digits_spec (Z.pos m) ltac:(lia)) as [? _], (digits_spec (Z.pos m') ltac:(lia)) as [? _]. unfold grid in *. lia.
Qed.
Lemma mul_nonneg x y : nonneg x → pos y → nonneg (f64_mul x y).
Proof.
  intros [Hx Sx] [Hy Sy]. destruct y as [| | |[] my ey]; try done. destruct x as [[]|[]| |[] mx ex]; try done.
  apply valid_grid in Hx as [Hx _], Hy as [Hy _]. cbn. apply (round_nonneg (Z.pos (mx * my))); [lia|]. by apply mul_grid.
Qed.
Lemma f64_mul_comm x y : f64_mul x y = f64_mul y x.
Proof.
  unfold f64_mul. destruct x as [sx|sx| |sx mx ex], y as [sy|sy| |sy my ey]; cbn; rewrite ?(xorb_comm sx sy); try done.
  by rewrite Pos.mul_comm, Z.add_comm.
Qed.
Lemma div_core_grid m1 e1 m2 e2 :
  0 < m1 → 0 < m2 →
  ∃ q r e', SFdiv_core_binary 53 1024 m1 e1 m2 e2 = (q, e', new_location m2 r) ∧ 0 ≤ q ∧ 0 ≤ r < m2 ∧ e' ≤ e1 - e2 ∧
    q * m2 + r = m1 * 2 ^ (e1 - e2 - e') ∧ e' ≤ grid (Zdigits2 q + e').
Proof.
  intros H1 H2. unfold SFdiv_core_binary. rewrite fexp_grid.
  set (e' := Z.min (grid (Zdigits2 m1 + e1 - (Zdigits2 m2 + e2))) (e1 - e2)). set (s := e1 - e2 - e').
  assert (0 ≤ s) by lia.
  assert (match s with Z.pos _ => Z.shiftl m1 s | 0 => m1 | Z.neg _ => 0 end = m1 * 2 ^ s) as ->.
  { destruct s; [|rewrite Z.shiftl_mul_pow2; lia|lia]. rewrite Z.pow_0_r. lia. }
  pose proof (Z.div_eucl_eq (m1 * 2 ^ s) m2 ltac:(lia)) as Hq. pose proof (Z.mod_pos_bound (m1 * 2 ^ s) m2 H2) as Hr.
  unfold Z.modulo in Hr. destruct (Z.div_eucl (m1 * 2 ^ s) m2) as [q r]. assert (0 < 2 ^ s) by (apply Z.pow_pos_nonneg; lia).
  assert (0 ≤ q) by nia. exists q, r, e'. split; [done|]. split; [done|]. split; [done|]. split; [lia|]. split; [fold s; lia|].
  destruct (digits_spec m1 H1) as [Hd1 [Hl1 _]], (digits_spec m2 H2) as [Hd2 [_ Hh2]].
  assert (Zdigits2 m1 + s - Zdigits2 m2 ≤ Zdigits2 q); [|unfold e', grid in *; lia].
  destruct (decide (q = 0)) as [->|Hq0].
  - assert (2 ^ (Zdigits2 m1 - 1 + s) < 2 ^ Zdigits2 m2) as Hlt by (rewrite Z.pow_add_r by lia; nia).
    apply Z.pow_lt_mono_r_iff in Hlt; [cbn; lia|lia..].
  - destruct (digits_spec q ltac:(lia)) as [Hdq [_ Hhq]].
    assert (2 ^ (Zdigits2 m1 - 1 + s) < 2 ^ (Zdigits2 q + Zdigits2 m2)) as Hlt.
    { rewrite !Z.pow_add_r by lia. assert ((q + 1) * m2 ≤ 2 ^ Zdigits2 q * 2 ^ Zdigits2 m2) by (apply Z.mul_le_mono_nonneg; lia). nia. }
    apply Z.pow_lt_mono_r_iff in Hlt; lia.
Qed.
Lemma div_nonneg x y : nonneg x → pos y → nonneg (f64_div x y).
Proof.
  intros [Hx Sx] [Hy Sy]. destruct y as [| | |[] my ey]; try done. destruct x as [[]|[]| |[] mx ex]; try done.
  unfold f64_div, SFdiv. destruct (div_core_grid (Z.pos mx) ex (Z.pos my) ey) as (q & r & e' & -> & Hq & _ & _ & _ & Hg); [lia..|].
  by apply round_nonneg.
Qed.

Lemma iter_xO m d : Z.pos (Pos.iter xO m d) = Z.pos m * 2 ^ Z.pos d.
Proof.
  revert m. induction d as [|d IH] using Pos.peano_ind; intros m; [cbn; lia|].
  rewrite Pos.iter_succ, Pos2Z.inj_xO, IH, Pos2Z.inj_succ, Z.pow_succ_r by lia. ring.
Qed.
Lemma digits_shift m d : 0 < m → 0 ≤ d → Zdigits2 (m * 2 ^ d) = Zdigits2 m + d.
Proof.
  intros Hm Hd. destruct (digits_spec m Hm) as [H1 [Hl Hh]]. assert (0 < 2 ^ d) by (apply Z.pow_pos_nonneg; lia).
  apply digits_unique; [nia|]. replace (Zdigits2 m + d - 1) with (Zdigits2 m - 1 + d) by lia.
  rewrite !Z.pow_add_r by lia. split; [apply Z.mul_le_mono_nonneg_r; lia|apply Z.mul_lt_mono_pos_r; lia].
Qed.
Lemma normalize_nonneg m e : 0 ≤ m → nonneg (binary_normalize 53 1024 m e false).
Proof.
  destruct m as [|m|m]; [done| |lia]. intros _. cbn [binary_normalize]. unfold binary_round, shl_align. rewrite fexp_grid.
  change (Z.pos (digits2_pos m)) with (Zdigits2 (Z.pos m)). set (E := grid (Zdigits2 (Z.pos m) + e)).
  destruct (E - e) as [|p|p] eqn:Hd; [apply round_nonneg; [lia|fold E; lia]..|].
  apply round_nonneg; [lia|]. rewrite iter_xO, digits_shift by lia. replace (Zdigits2 (Z.pos m) + Z.pos p + E) with (Zdigits2 (Z.pos m) + e) by lia.
  done.
Qed.
Lemma add_nonneg x y : nonneg x → nonneg y → nonneg (f64_add x y).
Proof.
  intros Hx Hy. pose proof Hx as [_ Sx]. pose proof Hy as [_ Sy].
  destruct x as [[]|[]| |[] mx ex], y as [[]|[]| |[] my ey]; try done; apply normalize_nonneg; cbn; lia.
Qed.

(** * Values *)
(** A non-negative finite number in multiples of [2 ^ -1074]. *)
Definition units (x : f64) : Z :=
  match x with S754_finite false m e => Z.pos m * 2 ^ (e + 1074) | _ => 0 end.
Lemma units_pos m e : -1074 ≤ e → 0 < Z.pos m * 2 ^ (e + 1074).
Proof. intros. assert (0 < 2 ^ (e + 1074)) by (apply Z.pow_pos_nonneg; lia). lia. Qed.
(** Between canonical mantissas the exponents decide. *)
Lemma units_exponent m e m' e' :
  0 ≤ m < 2 ^ 53 → -1074 ≤ e → e' = -1074 ∨ 2 ^ 52 ≤ m' → e < e' → m * 2 ^ (e + 1074) < m' * 2 ^ (e' + 1074).
Proof.
  intros Hm He Hm' Hlt. destruct Hm' as [->|Hm']; [lia|].
  assert (2 ^ (53 + (e + 1074)) ≤ 2 ^ (52 + (e' + 1074))) as Hp by (apply Z.pow_le_mono_r; lia).
  rewrite (Z.pow_add_r 2 53), (Z.pow_add_r 2 52) in Hp by lia. assert (0 < 2 ^ (e + 1074)) by (apply Z.pow_pos_nonneg; lia).
  assert (0 < 2 ^ (e' + 1074)) by (apply Z.pow_pos_nonneg; lia).
  assert (m * 2 ^ (e + 1074) < 2 ^ 53 * 2 ^ (e + 1074)) by (apply Z.mul_lt_mono_pos_r; lia).
  assert (2 ^ 52 * 2 ^ (e' + 1074) ≤ m' * 2 ^ (e' + 1074)) by (apply Z.mul_le_mono_nonneg_r; lia). lia.
Qed.
Lemma finite_le_units m e m' e' :
  valid_f64 (S754_finite false m e) = true → valid_f64 (S754_finite false m' e') = true →
  f64_le (S754_finite false m e) (S754_finite false m' e') = true ↔
  Z.pos m * 2 ^ (e + 1074) ≤ Z.pos m' * 2 ^ (e' + 1074).
Proof.
  intros Hv Hv'. apply valid_f64_finite in Hv, Hv'. rewrite f64_le_iff. unfold key_le. cbn.
  destruct (Z.lt_trichotomy e e') as [Hlt|[->|Hgt]].
  - pose proof (units_exponent (Z.pos m) e (Z.pos m') e' ltac:(lia) ltac:(lia) ltac:(lia) Hlt).
    split; [lia|]. intros _. repeat split; lia.
  - rewrite <- Z.mul_le_mono_pos_r by (apply Z.pow_pos_nonneg; lia). split; [lia|]. intros. repeat split; lia.
  - pose proof (units_exponent (Z.pos m') e' (Z.pos m) e ltac:(lia) ltac:(lia) ltac:(lia) Hgt). split; lia.
Qed.
Lemma scale_le k a m b c : 0 ≤ a → 0 ≤ b → 0 ≤ a + c → 0 ≤ b + c → k * 2 ^ a ≤ m * 2 ^ b ↔ k * 2 ^ (a + c) ≤ m * 2 ^ (b + c).
Proof.
  intros. destruct (decide (0 ≤ c)).
  - rewrite !Z.pow_add_r, !Z.mul_assoc by lia. apply Z.mul_le_mono_pos_r, Z.pow_pos_nonneg; lia.
  - replace a with (a + c + - c) at 1 by lia. replace b with (b + c + - c) at 1 by lia.
    rewrite !(Z.pow_add_r _ _ (- c)), !Z.mul_assoc by lia. symmetry. apply Z.mul_le_mono_pos_r, Z.pow_pos_nonneg; lia.
Qed.
Lemma scale_lt k a m b c : 0 ≤ a → 0 ≤ b → 0 ≤ a + c → 0 ≤ b + c → k * 2 ^ a < m * 2 ^ b ↔ k * 2 ^ (a + c) < m * 2 ^ (b + c).
Proof. intros. rewrite <- !Z.nle_gt. by rewrite (scale_le m b k a c). Qed.

(** * Rounding respects the order *)
Lemma finite_or_inf_le m e mx ex :
  (2 ^ 52 ≤ m < 2 ^ 53 ∧ -1074 ≤ e) ∨ (0 < m < 2 ^ 52 ∧ e = -1074) → valid_f64 (S754_finite false mx ex) = true →
  m * 2 ^ (e + 1074) ≤ Z.pos mx * 2 ^ (ex + 1074) → f64_le (finite_or_inf false m e) (S754_finite false mx ex) = true.
Proof.
  intros Hm Hx Hle. pose proof (valid_f64_finite _ _ _ Hx) as Hx'.
  assert (e ≤ ex).
  { destruct (decide (e ≤ ex)); [done|]. pose proof (units_exponent (Z.pos mx) ex m e ltac:(lia) ltac:(lia) ltac:(lia) ltac:(lia)). lia. }
  unfold finite_or_inf. rewrite (proj2 (Z.leb_le e 971)) by lia. apply finite_le_units; [apply valid_finite; lia|done|].
  by rewrite Z2Pos.id by lia.
Qed.
Lemma le_finite_or_inf m e mx ex :
  (2 ^ 52 ≤ m < 2 ^ 53 ∧ -1074 ≤ e) ∨ (0 < m < 2 ^ 52 ∧ e = -1074) → valid_f64 (S754_finite false mx ex) = true →
  Z.pos mx * 2 ^ (ex + 1074) ≤ m * 2 ^ (e + 1074) → f64_le (S754_finite false mx ex) (finite_or_inf false m e) = true.
Proof.
  intros Hm Hx Hle. unfold finite_or_inf. destruct (Z.leb_spec e 971); [|done].
  apply finite_le_units; [done|apply valid_finite; lia|]. by rewrite Z2Pos.id by lia.
Qed.
Lemma carry_units E : -1074 ≤ E → 2 ^ 52 * 2 ^ (E + 1 + 1074) = 2 ^ 53 * 2 ^ (E + 1074).
Proof. intros. replace (E + 1 + 1074) with (1 + (E + 1074)) by lia. rewrite (Z.pow_add_r 2 1) by lia. lia. Qed.

Lemma round_below m e l E k M mx ex :
  rounds m e l E k M → valid_f64 (S754_finite false mx ex) = true →
  k * 2 ^ (E + 1074) ≤ Z.pos mx * 2 ^ (ex + 1074) →
  (M = k + 1 → k * 2 ^ (E + 1074) < Z.pos mx * 2 ^ (ex + 1074)) →
  f64_le (round_result false M E) (S754_finite false mx ex) = true.
Proof.
  intros [HE _ Hk Hn HM] Hx Hle Hlt. assert (-1074 ≤ E) by (rewrite HE; unfold grid; lia).
  pose proof (valid_f64_finite _ _ _ Hx) as Hx'.
  assert (M * 2 ^ (E + 1074) ≤ Z.pos mx * 2 ^ (ex + 1074)) as Hu.
  { destruct HM as [->|[-> _]]; [done|]. specialize (Hlt eq_refl). destruct (decide (E ≤ ex)) as [He|He].
    - replace (ex + 1074) with (ex - E + (E + 1074)) in Hlt |- * by lia. rewrite (Z.pow_add_r 2 (ex - E)), Z.mul_assoc in Hlt |- * by lia.
      apply Z.mul_lt_mono_pos_r in Hlt; [|apply Z.pow_pos_nonneg; lia]. apply Z.mul_le_mono_nonneg_r; [apply Z.pow_nonneg|]; lia.
    - pose proof (units_exponent (Z.pos mx) ex k E ltac:(lia) ltac:(lia) ltac:(lia) ltac:(lia)). lia. }
  unfold round_result. destruct (Z.eqb_spec M 0); [done|].
  destruct (Z.eqb_spec M (2 ^ 53)) as [Hc|]; apply finite_or_inf_le; try done; try lia.
  rewrite carry_units, <- Hc by lia. done.
Qed.
Lemma round_above m e l E k M mx ex :
  rounds m e l E k M → valid_f64 (S754_finite false mx ex) = true →
  Z.pos mx * 2 ^ (ex + 1074) ≤ k * 2 ^ (E + 1074) →
  f64_le (S754_finite false mx ex) (round_result false M E) = true.
Proof.
  intros [HE _ Hk Hn HM] Hx Hle. assert (-1074 ≤ E) by (rewrite HE; unfold grid; lia).
  pose proof (valid_f64_finite _ _ _ Hx) as Hx'. pose proof (units_pos mx ex ltac:(lia)).
  assert (0 < 2 ^ (E + 1074)) by (apply Z.pow_pos_nonneg; lia).
  assert (Z.pos mx * 2 ^ (ex + 1074) ≤ M * 2 ^ (E + 1074)) as Hu.
  { etransitivity; [exact Hle|]. apply Z.mul_le_mono_nonneg_r; lia. }
  unfold round_result. destruct (Z.eqb_spec M 0) as [->|]; [lia|].
  destruct (Z.eqb_spec M (2 ^ 53)) as [Hc|]; apply le_finite_or_inf; try done; try lia.
  rewrite carry_units, <- Hc by lia. done.
Qed.

Definition f64_one : f64 := S754_finite false 4503599627370496 (-52).
Lemma ge_one_units m e :
  valid_f64 (S754_finite false m e) = true → f64_le f64_one (S754_finite false m e) = true → 2 ^ 1074 ≤ Z.pos m * 2 ^ (e + 1074).
Proof.
  intros Hv Hle. apply finite_le_units in Hle; [|done..]. etransitivity; [|exact Hle].
  change (-52 + 1074) with 1022. change 4503599627370496%positive with (Z.to_pos (2 ^ 52)). rewrite Z2Pos.id by lia.
  rewrite <- Z.pow_add_r by lia. done.
Qed.

(** Dividing by at least one never increases a positive number. *)
Lemma div_le x d : pos x → pos d → f64_le f64_one d = true → f64_le (f64_div x d) x = true.
Proof.
  intros [Hx Sx] [Hd Sd] Hge. destruct x as [| | |[] m1 e1]; try done. destruct d as [| | |[] m2 e2]; try done.
  pose proof (ge_one_units _ _ Hd Hge) as Hu. apply valid_f64_finite in Hd. pose proof (valid_f64_finite _ _ _ Hx) as Hx'.
  unfold f64_div, SFdiv. destruct (div_core_grid (Z.pos m1) e1 (Z.pos m2) e2) as (q & r & e' & -> & Hq & Hr & He' & Heq & Hg); [lia..|]. cbn [xorb].
  destruct (binary_round_aux_spec false q e' (new_location (Z.pos m2) r) Hq Hg) as (E & k & M & Hrd & ->).
  assert (e' ≤ E) by (rewrite (rd_grid _ _ _ _ _ _ Hrd); done). assert (-1074 ≤ E) by (rewrite (rd_grid _ _ _ _ _ _ Hrd); unfold grid; lia).
  assert (k * 2 ^ (E - e') ≤ q) as Hkq.
  { rewrite (rd_floor _ _ _ _ _ _ Hrd), Z.mul_comm. apply Z.mul_div_le, Z.pow_pos_nonneg; lia. }
  assert (Z.pos m1 * 2 ^ (e1 - e' + 1074) = (q * Z.pos m2 + r) * 2 ^ (e2 + 1074)) as Hm1.
  { rewrite Heq, <- Z.mul_assoc, <- Z.pow_add_r by lia. do 2 f_equal. lia. }
  assert (0 < 2 ^ (e2 + 1074)) by (apply Z.pow_pos_nonneg; lia).
  assert (q * 2 ^ 1074 ≤ q * Z.pos m2 * 2 ^ (e2 + 1074)) as Hqm by (rewrite <- Z.mul_assoc; apply Z.mul_le_mono_nonneg_l; lia).
  assert (k * 2 ^ (E - e' + 1074) ≤ q * 2 ^ 1074) as Hkq2.
  { rewrite Z.pow_add_r, Z.mul_assoc by lia. apply Z.mul_le_mono_nonneg_r; [apply Z.pow_nonneg|]; lia. }
  assert (0 ≤ r * 2 ^ (e2 + 1074)) by nia.
  eapply round_below; [exact Hrd|done|..].
  - replace (E + 1074) with (E - e' + 1074 + e') by lia. replace (e1 + 1074) with (e1 - e' + 1074 + e') by lia.
    apply scale_le; [lia..|]. rewrite Hm1. lia.
  - intros HM. destruct (rd_nearest _ _ _ _ _ _ Hrd) as [?|[_ Hin]]; [lia|].
    replace (E + 1074) with (E - e' + 1074 + e') by lia. replace (e1 + 1074) with (e1 - e' + 1074 + e') by lia.
    apply scale_lt; [lia..|]. rewrite Hm1. destruct Hin as [Hin|Hin].
    + assert (r ≠ 0). { intros ->. apply Hin. unfold new_location, new_location_even, new_location_odd. by destruct (Z.even _). }
      assert (0 < r * 2 ^ (e2 + 1074)) by nia. lia.
    + assert (k * 2 ^ (E - e' + 1074) < q * 2 ^ 1074); [|lia].
      rewrite Z.pow_add_r, Z.mul_assoc by lia. apply Z.mul_lt_mono_pos_r; [apply Z.pow_pos_nonneg|]; lia.
Qed.

(** Multiplying by at least one never decreases a positive number. *)
Lemma le_mul x u : pos x → pos u → f64_le f64_one u = true → f64_le x (f64_mul x u) = true.
Proof.
  intros [Hx Sx] [Hd Sd] Hge. destruct x as [| | |[] mx ex]; try done. destruct u as [| | |[] mu eu]; try done.
  pose proof (ge_one_units _ _ Hd Hge) as Hu. pose proof (valid_grid _ _ _ Hx) as [Hgx _]. pose proof (valid_grid _ _ _ Hd) as [Hgu _].
  apply valid_f64_finite in Hd. pose proof (valid_f64_finite _ _ _ Hx) as Hx'. cbn. rewrite Pos2Z.inj_mul.
  pose proof (mul_grid _ _ _ _ Hgx Hgu) as Hg.
  destruct (binary_round_aux_spec false (Z.pos mx * Z.pos mu) (ex + eu) loc_Exact ltac:(lia) Hg) as (E & k & M & Hrd & ->).
  eapply round_above; [exact Hrd|done|]. destruct Hrd as [HE Hk Hkr Hn _].
  assert (ex + eu ≤ E) by (rewrite HE; done). assert (-1074 ≤ E) by (rewrite HE; unfold grid; lia).
  destruct (decide (E ≤ ex)) as [Hle|Hgt].
  - replace (ex + 1074) with (ex - E + (E + 1074)) by lia. rewrite (Z.pow_add_r 2 (ex - E)), Z.mul_assoc by lia.
    apply Z.mul_le_mono_nonneg_r; [apply Z.pow_nonneg; lia|]. rewrite Hk. apply Z.div_le_lower_bound; [apply Z.pow_pos_nonneg; lia|].
    replace (2 ^ (E - (ex + eu)) * (Z.pos mx * 2 ^ (ex - E))) with (Z.pos mx * (2 ^ (E - (ex + eu)) * 2 ^ (ex - E))) by ring.
    rewrite <- Z.pow_add_r by lia. apply Z.mul_le_mono_nonneg_l; [lia|].
    assert (1 * 2 ^ 1074 ≤ Z.pos mu * 2 ^ (eu + 1074)) as Hs by lia.
    apply (scale_le _ _ _ _ (- eu - 1074)) in Hs; [|lia..]. replace (E - (ex + eu) + (ex - E)) with (1074 + (- eu - 1074)) by lia.
    replace (eu + 1074 + (- eu - 1074)) with 0 in Hs by lia. lia.
  - pose proof (units_exponent (Z.pos mx) ex k E ltac:(lia) ltac:(lia) ltac:(lia) ltac:(lia)). lia.
Qed.

(** ** The complement of a fraction *)
Lemma shl_align_spec m e E : E ≤ e → Z.pos (fst (shl_align m e E)) = Z.pos m * 2 ^ (e - E).
Proof.
  intros He. unfold shl_align. destruct (E - e) as [|p|p] eqn:Hd; [|lia|].
  - replace (e - E) with 0 by lia. cbn. lia.
  - cbn [fst]. rewrite iter_xO. do 2 f_equal. lia.
Qed.
Lemma sub_nonneg x y : pos x → pos y → f64_le y x = true → nonneg (f64_sub x y).
Proof.
  intros [Hx Sx] [Hy Sy] Hle. destruct x as [| | |[] mx ex]; try done. destruct y as [| | |[] my ey]; try done.
  apply finite_le_units in Hle; [|done..]. apply valid_f64_finite in Hx, Hy. cbn [f64_sub SFsub cond_Zopp].
  apply normalize_nonneg. rewrite !shl_align_spec by lia. apply (scale_le _ _ _ _ (-1074 - Z.min ex ey)) in Hle; [|lia..].
  replace (ey + 1074 + (-1074 - Z.min ex ey)) with (ey - Z.min ex ey) in Hle by lia.
  replace (ex + 1074 + (-1074 - Z.min ex ey)) with (ex - Z.min ex ey) in Hle by lia. lia.
Qed.

(** ** Bounds of exact sums *)
Lemma normalize_le m e mx ex :
  0 ≤ m → -1074 ≤ e → valid_f64 (S754_finite false mx ex) = true →
  m * 2 ^ (e + 1074) ≤ Z.pos mx * 2 ^ (ex + 1074) →
  f64_le (binary_normalize 53 1024 m e false) (S754_finite false mx ex) = true.
Proof.
  intros Hm He Hx Hle. destruct m as [|m|m]; [done| |lia]. clear Hm. cbn [binary_normalize]. unfold binary_round.
  rewrite fexp_grid. change (Z.pos (digits2_pos m)) with (Zdigits2 (Z.pos m)). set (E0 := grid (Zdigits2 (Z.pos m) + e)).
  assert (∃ mz ez, shl_align m e E0 = (mz, ez) ∧ -1074 ≤ ez ∧ ez ≤ grid (Zdigits2 (Z.pos mz) + ez) ∧
    Z.pos mz * 2 ^ (ez + 1074) = Z.pos m * 2 ^ (e + 1074)) as (mz & ez & -> & Hez & Hg & Hmz).
  { unfold shl_align. destruct (E0 - e) as [|p|p] eqn:Hd; [exists m, e; repeat split; fold E0; lia..|].
    exists (Pos.iter xO m p), E0. rewrite iter_xO, digits_shift by lia. split; [done|]. split; [unfold E0, grid; lia|].
    replace (Zdigits2 (Z.pos m) + Z.pos p + E0) with (Zdigits2 (Z.pos m) + e) by lia. split; [done|].
    assert (-1074 ≤ E0) by (unfold E0, grid; lia). rewrite <- Z.mul_assoc, <- Z.pow_add_r by lia. do 2 f_equal. lia. }
  rewrite <- Hmz in Hle. clear m e He E0 Hmz.
  destruct (binary_round_aux_spec false (Z.pos mz) ez loc_Exact ltac:(lia) Hg) as (E & k & M & Hrd & ->).
  assert (ez ≤ E) by (rewrite (rd_grid _ _ _ _ _ _ Hrd); done).
  assert (k * 2 ^ (E - ez) ≤ Z.pos mz) as Hk.
  { rewrite (rd_floor _ _ _ _ _ _ Hrd), Z.mul_comm. apply Z.mul_div_le, Z.pow_pos_nonneg; lia. }
  assert (k * 2 ^ (E + 1074) = k * 2 ^ (E - ez) * 2 ^ (ez + 1074)) as Hks.
  { rewrite <- Z.mul_assoc, <- Z.pow_add_r by lia. do 2 f_equal. lia. }
  assert (0 < 2 ^ (ez + 1074)) by (apply Z.pow_pos_nonneg; lia).
  eapply round_below; [exact Hrd|done|rewrite Hks; nia|]. intros HM.
  destruct (rd_nearest _ _ _ _ _ _ Hrd) as [?|[_ [Hl|Hlt]]]; [lia|done|]. rewrite Hks. nia.
Qed.
Lemma le_finite x m e : nonneg x → f64_le x (S754_finite false m e) = true → is_finite x = true.
Proof. intros [_ Hx] Hle. by destruct x as [[]|[]| |[]]. Qed.
