(* ===== verification/Codec.v ===== *)
(** The transaction and proof-of-work codec of the mining server
    (crates/qbit-prism-server/src/codec.rs): the structural walk of a
    transaction inside a larger buffer, witness stripping, the parts of a
    block, the merkle branch of the coinbase, and compact and difficulty
    targets. *)
From Stdlib Require Import ZArith Lia.
From Stdlib Require Ascii String.
From coqutil Require Import Byte Word.LittleEndianList.
From stdpp Require Import base list strings pretty.
From S2P Require Import Prelude Order Bytes Crates PoolBuilder CoinbaseTx PrismError CtvTx F64.

Open Scope Z_scope.

(** * Errors

    [anyhow::Error]: the messages of its context chain, outermost first. *)
Definition anyhow : Type := list string.
Definition context {A} (msg : string) (r : result anyhow A) : result anyhow A :=
  map_err (cons msg) r.
Definition ensure (b : bool) (msg : string) : result anyhow () :=
  if b then Ok () else Err [msg].

(** [slice.get(a..b)] and, with a panic, [slice[a..b]]. *)
Definition slice_get {A} (l : list A) (a b : Z) : option (list A) :=
  if (a <=? b) && (b <=? Z.of_nat (length l))
  then Some (take (Z.to_nat (b - a)) (drop (Z.to_nat a) l)) else None.
Definition slice_at {E A} (l : list A) (a b : Z) : result E (list A) :=
  expect (slice_get l a b) "range end index out of range".
Definition byte_at {E} (l : list byte) (i : nat) : result E Z :=
  b ← expect (l !! i) "index out of bounds"; Ok (byte.unsigned b).

Definition VERSION_ROLLING_MASK : Z := 0x1fffe000.

Section hashing.
Context `{HexCrate, Sha256Crate}.

Definition double_sha256 (bytes : list byte) : list byte := sha256 (sha256 bytes).
Definition hash_display (hash : list byte) : string := hex_encode (reverse hash).
End hashing.

(** [compact_size] over a u64: the four arms of the match. *)
Definition codec_compact_size (value : Z) : list byte :=
  if value <=? 252 then [byte.of_Z value]
  else if value <=? 0xffff then byte.of_Z 253 :: le_bytes 2 value
  else if value <=? 0xffffffff then byte.of_Z 254 :: le_bytes 4 value
  else byte.of_Z 255 :: le_bytes 8 value.

(** * The cursor *)
Record Cursor := {
  cur_bytes : list byte;
  cur_offset : Z;
}.
Definition advance (c : Cursor) (len : Z) : Cursor :=
  {| cur_bytes := cur_bytes c; cur_offset := cur_offset c + len |}.

(** A [&mut self] method returns the cursor it leaves behind. *)
Definition cursor (A : Type) : Type := Cursor -> result anyhow (A * Cursor).
#[export] Instance cursor_ret : MRet cursor := fun _ a c => Ok (a, c).
#[export] Instance cursor_bind : MBind cursor := fun _ _ f m c => '(a, c) ← m c; f a c.

Definition cursor_lift {A} (r : result anyhow A) : cursor A := fun c =>
  a ← r; Ok (a, c).
Definition cursor_ensure (b : bool) (msg : string) : cursor () := cursor_lift (ensure b msg).

Definition cursor_take (len : Z) : cursor (list byte) := fun c =>
  stop ← ok_or (checked_add Usize (cur_offset c) len) ["transaction length overflow"];
  part ← ok_or (slice_get (cur_bytes c) (cur_offset c) stop) ["truncated transaction"];
  Ok (part, {| cur_bytes := cur_bytes c; cur_offset := stop |}).

(** [from_le_bytes(self.take(n)?.try_into()?)]: the slice has [n] bytes. *)
Definition take_le (n : Z) : cursor Z := bs ← cursor_take n; mret (le_combine bs).

(** [value.try_into()] to a usize, and the bound by the size of the input. *)
Definition count_bound (value : Z) : cursor Z := fun c =>
  value ← ok_or (checked Usize value) ["transaction count overflow"];
  _ ← ensure (value <=? Z.of_nat (length (cur_bytes c))) "transaction count exceeds input size";
  Ok (value, c).

Definition count : cursor Z :=
  head ← cursor_take 1;
  first ← cursor_lift (byte_at head 0);
  value ← (if first =? 253 then take_le 2
           else if first =? 254 then take_le 4
           else if first =? 255 then take_le 8
           else mret first);
  _ ← cursor_ensure (if first =? 253 then 253 <=? value
                     else if first =? 254 then 0xffff <? value
                     else if first =? 255 then 0xffffffff <? value
                     else true) "noncanonical compact size";
  count_bound value.

(** [for _ in 0..n]. *)
Fixpoint repeat_n (n : nat) (m : cursor ()) : cursor () :=
  match n with O => mret () | S n => _ ← m; repeat_n n m end.

(** * The walk *)
Record TransactionLayout := {
  tl_body : Z * Z;
  tl_locktime : Z * Z;
  tl_len : Z;
}.

Definition walk_input : cursor () :=
  _ ← cursor_take 36; n ← count; _ ← cursor_take n; _ ← cursor_take 4; mret ().
Definition walk_output : cursor () :=
  _ ← cursor_take 8; n ← count; _ ← cursor_take n; mret ().
Definition walk_item : cursor () := n ← count; _ ← cursor_take n; mret ().
Definition walk_stack : cursor () := items ← count; repeat_n (Z.to_nat items) walk_item.
Definition walk_inputs : cursor Z :=
  inputs ← count;
  _ ← cursor_ensure (0 <? inputs) "transaction has no inputs";
  _ ← repeat_n (Z.to_nat inputs) walk_input;
  mret inputs.
Definition walk_outputs : cursor () := outputs ← count; repeat_n (Z.to_nat outputs) walk_output.

(** The marker and flag, and the witness stacks, of the segwit serialisation. *)
Definition walk_marker (witness : bool) (flag : Z) : cursor () :=
  if witness then
    _ ← cursor_ensure (flag =? 1) "unsupported witness transaction flags";
    _ ← cursor_take 2;
    mret ()
  else mret ().
Definition walk_witness (witness : bool) (inputs : Z) : cursor () :=
  if witness then repeat_n (Z.to_nat inputs) walk_stack else mret ().

Definition walk_transaction (bytes : list byte) : result anyhow TransactionLayout :=
  _ ← ensure (10 <=? Z.of_nat (length bytes)) "transaction is too short";
  let c := {| cur_bytes := bytes; cur_offset := 4 |} in
  marker ← byte_at bytes 4;
  flag ← byte_at bytes 5;
  let witness := (marker =? 0) && negb (flag =? 0) in
  '(_, c) ← walk_marker witness flag c;
  let body_start := cur_offset c in
  '(inputs, c) ← walk_inputs c;
  '(_, c) ← walk_outputs c;
  let body_end := cur_offset c in
  '(_, c) ← walk_witness witness inputs c;
  let locktime_start := cur_offset c in
  '(_, c) ← cursor_take 4 c;
  Ok {| tl_body := (body_start, body_end); tl_locktime := (locktime_start, cur_offset c);
        tl_len := cur_offset c |}.

Definition strip_witness_transaction (tx : list byte) : result anyhow (list byte) :=
  layout ← walk_transaction tx;
  _ ← ensure (tl_len layout =? Z.of_nat (length tx)) "transaction has trailing bytes";
  version ← slice_at tx 0 4;
  body ← slice_at tx (tl_body layout).1 (tl_body layout).2;
  locktime ← slice_at tx (tl_locktime layout).1 (tl_locktime layout).2;
  Ok (version ++ body ++ locktime).

(** * Blocks *)
(** [block.get(offset..)]. *)
Definition tail_get (l : list byte) (offset : Z) : option (list byte) :=
  slice_get l offset (Z.of_nat (length l)).

(** The transaction count after the header, shared by both block readers. *)
Definition block_count (block : list byte) : result anyhow (Z * Cursor) :=
  _ ← ensure (80 <=? Z.of_nat (length block)) "truncated block header";
  '(n, c) ← context "block transaction count" (count {| cur_bytes := block; cur_offset := 80 |});
  _ ← ensure (0 <? n) "block declares no transactions";
  Ok (n, c).

Section blocks.
Context `{HexCrate, Sha256Crate}.

(** One turn of the loop over the block's transactions. *)
Definition leaf_step (block : list byte) (n : Z) (acc : Z * list string) (index : nat)
  : result anyhow (Z * list string) :=
  let '(offset, leaves) := acc in
  rest ← ok_or (tail_get block offset) ["truncated block transaction list"];
  layout ← context ("block transaction " +:+ pretty index +:+ " of " +:+ pretty n)
             (walk_transaction rest);
  leaves ← (if (0 <? index)%nat then
              tx ← slice_at rest 0 (tl_len layout);
              Ok (leaves ++ [hex_encode (double_sha256 tx)])
            else Ok leaves);
  offset ← arith Usize (offset + tl_len layout);
  Ok (offset, leaves).

Definition witness_merkle_leaves_from_block (block : list byte) : result anyhow (list string) :=
  '(n, c) ← block_count block;
  '(offset, leaves) ← try_fold (leaf_step block n) (cur_offset c, []) (seq 0 (Z.to_nat n));
  _ ← ensure (offset =? Z.of_nat (length block))
        ("block has trailing bytes after " +:+ pretty n +:+ " transactions");
  Ok leaves.
End blocks.

Definition coinbase_from_block (block : list byte) : result anyhow (list byte) :=
  '(_, c) ← block_count block;
  rest ← ok_or (tail_get block (cur_offset c)) ["truncated block transaction list"];
  layout ← context "block coinbase" (walk_transaction rest);
  slice_at rest 0 (tl_len layout).

(** The cursor past a coinbase's version and, when present, marker and flag. *)
Definition skip_marker (tx : list byte) : result anyhow Cursor :=
  marker ← byte_at tx 4;
  flag ← byte_at tx 5;
  let c := {| cur_bytes := tx; cur_offset := 4 |} in
  if (marker =? 0) && negb (flag =? 0) then '(_, c) ← cursor_take 2 c; Ok c else Ok c.

Definition block_coinbase_script_sig (tx : list byte) : result anyhow (list byte) :=
  _ ← ensure (10 <=? Z.of_nat (length tx)) "transaction is too short";
  c ← skip_marker tx;
  '(inputs, c) ← count c;
  _ ← ensure (inputs =? 1) "a coinbase has exactly one input";
  '(_, c) ← cursor_take 36 c;
  '(len, c) ← count c;
  '(script, _) ← cursor_take len c;
  Ok script.

(** [slice.ends_with]. *)
Definition ends_with (l suffix : list byte) : bool :=
  (length suffix <=? length l)%nat &&
  bool_decide (drop (length l - length suffix) l = suffix).

Definition split_coinbase_extranonce (tx placeholder : list byte)
  : result anyhow (list byte * list byte) :=
  _ ← ensure ((10 <=? Z.of_nat (length tx)) && negb (bool_decide (placeholder = [])))
        "invalid coinbase or extranonce placeholder";
  c ← skip_marker tx;
  '(inputs, c) ← count c;
  _ ← ensure (inputs =? 1) "coinbase must have exactly one input";
  '(prevout, c) ← cursor_take 36 c;
  txid ← slice_at prevout 0 32;
  vout ← slice_at prevout 32 36;
  _ ← ensure (bool_decide (txid = replicate 32 Byte.x00) && bool_decide (vout = replicate 4 Byte.xff))
        "coinbase has non-null prevout";
  '(n, c) ← count c;
  '(script, c) ← cursor_take n c;
  _ ← ensure (ends_with script placeholder)
        "coinbase scriptSig does not end with extranonce placeholder";
  start ← arith Usize (cur_offset c - Z.of_nat (length placeholder));
  prefix ← slice_at tx 0 start;
  suffix ← slice_at tx (cur_offset c) (Z.of_nat (length tx));
  Ok (prefix, suffix).

(** * The merkle branch *)
Section branch.
Context `{Sha256Crate}.

Definition txid_of (tx : list byte) : result anyhow (list byte) :=
  stripped ← strip_witness_transaction tx; Ok (double_sha256 stripped).

(** [as_chunks::<2>().0]: whole pairs only. *)
Fixpoint pair_level (level : list (list byte)) : list (list byte) :=
  match level with
  | x :: y :: rest => double_sha256 (x ++ y) :: pair_level rest
  | _ => []
  end.

(** [while level.len() > 1]; a level halves, so its length is fuel enough. *)
Fixpoint branch_loop (fuel : nat) (level : list (list byte)) : option (list (list byte)) :=
  match level with
  | [] | [_] => Some []
  | _ :: sibling :: _ =>
      match fuel with
      | O => None
      | S fuel =>
          let padded := if Nat.odd (length level)
                        then level ++ from_option (fun x => [x]) [] (last level) else level in
          branch ← branch_loop fuel (pair_level padded);
          Some (sibling :: branch)
      end
  end.

Definition merkle_branch_for_coinbase (transactions : list (list byte))
  : result anyhow (list (list byte)) :=
  txids ← collect txid_of transactions;
  let level := replicate 32 Byte.x00 :: txids in
  expect (branch_loop (length level) level) "merkle branch loop did not finish".

Definition witness_merkle_leaves_hex `{HexCrate} (transactions : list (list byte)) : list string :=
  (fun tx => hex_encode (double_sha256 tx)) <$> transactions.
End branch.

(** * Targets

    [BigUint] is a natural number. *)
Definition target_from_compact (bits : Z) : result anyhow Z :=
  let size := Z.shiftr bits 24 in
  let mantissa := Z.land bits 0x007fffff in
  _ ← ensure ((Z.land bits 0x00800000 =? 0) && negb (mantissa =? 0)) "negative or zero compact target";
  _ ← ensure (size <=? 34) "compact target overflow";
  let value := if size <=? 3 then Z.shiftr mantissa (8 * (3 - size))
               else Z.shiftl mantissa (8 * (size - 3)) in
  _ ← ensure (negb (value =? 0) && (Z.log2 value + 1 <=? 256)) "compact target out of range";
  Ok value.

Definition difficulty_target (difficulty : f64) : result anyhow Z :=
  _ ← ensure (is_finite difficulty && f64_gt difficulty f64_zero)
        "difficulty must be positive and finite";
  let bits := to_bits difficulty in
  let raw_exponent := Z.land (Z.shiftr bits 52) 0x7ff in
  let mantissa := Z.lor (Z.land bits (2 ^ 52 - 1)) (if raw_exponent =? 0 then 0 else 2 ^ 52) in
  let exponent := if raw_exponent =? 0 then -1074 else raw_exponent - 1023 - 52 in
  numerator ← target_from_compact 0x1d00ffff;
  let '(numerator, denominator) :=
    if exponent <? 0 then (Z.shiftl numerator (- exponent), mantissa)
    else (numerator, Z.shiftl mantissa exponent) in
  if denominator =? 0 then Panic "attempt to divide by zero"
  else Ok (Z.min (Z.max (numerator / denominator) 1) (2 ^ 256 - 1)).

(** [BigUint::to_f64] of [num_traits]. *)
Class BigUintCrate := { biguint_to_f64 : Z -> option f64 }.

Definition target_difficulty `{BigUintCrate} (target : Z) : result anyhow f64 :=
  _ ← ensure (negb (target =? 0)) "target must be positive";
  one ← target_from_compact 0x1d00ffff;
  one ← ok_or (biguint_to_f64 one) ["difficulty conversion"];
  target ← ok_or (biguint_to_f64 target) ["target conversion"];
  Ok (f64_div one target).

Definition scaled_target_difficulty (target : Z) : result anyhow Z :=
  _ ← ensure (negb (target =? 0)) "target must be positive";
  limit ← target_from_compact 0x207fffff;
  ok_or (checked U128 (Z.max (limit * 1000000 / target) 1)) ["scaled difficulty exceeds u128"].

(** * Successful checks *)
Lemma ensure_Ok b msg u : ensure b msg = Ok u ↔ b = true.
Proof. destruct b, u; naive_solver. Qed.
Lemma context_Ok {A} msg (r : result anyhow A) a : context msg r = Ok a ↔ r = Ok a.
Proof. apply map_err_Ok. Qed.
