(* ===== verification/CodecFacts.v ===== *)
(** What the server's codec recognises (crates/qbit-prism-server/src/codec.rs):
    the wire grammar of a transaction, the exact set of buffers
    [walk_transaction] accepts, and what follows for stripping, for the block
    readers, for the extranonce split and for the merkle branch. *)
From Stdlib Require Import ZArith Lia.
From Stdlib Require Ascii String.
From coqutil Require Import Byte Word.LittleEndianList.
From stdpp Require Import base list strings pretty.
From S2P Require Import Prelude Order Bytes Crates PoolBuilder CoinbaseTx PrismError CtvTx F64 Codec.

Open Scope Z_scope.

Lemma codec_compact_size_eq n : codec_compact_size n = compact_size n.
Proof.
  unfold codec_compact_size, compact_size.
  destruct (Z.leb_spec n 252), (Z.ltb_spec n 253); try lia; done.
Qed.

Lemma slice_get_app {A} (l1 l2 l3 : list A) a b :
  a = Z.of_nat (length l1) → b = Z.of_nat (length l1 + length l2) →
  slice_get (l1 ++ l2 ++ l3) a b = Some l2.
Proof.
  intros -> ->. unfold slice_get. rewrite !length_app.
  rewrite !(proj2 (Z.leb_le _ _)) by lia. cbn [andb].
  rewrite Nat2Z.id, drop_app_length.
  replace (Z.to_nat _) with (length l2) by lia. by rewrite take_app_length.
Qed.

Lemma slice_get_prefix {A} (l1 l2 : list A) b :
  b = Z.of_nat (length l1) → slice_get (l1 ++ l2) 0 b = Some l1.
Proof. intros ->. by apply (slice_get_app []). Qed.

(** * Scanning

    [scans m P]: run over input [l], the method succeeds with [a] exactly when
    [l] starts with bytes [P] relates to [a], and it moves past them.  [P] also
    sees the size of the whole buffer, which bounds the counts. *)
Definition at_bytes (c : Cursor) (l : list byte) : Prop :=
  0 ≤ cur_offset c ∧ cur_offset c + Z.of_nat (length l) = Z.of_nat (length (cur_bytes c)) ∧
  drop (Z.to_nat (cur_offset c)) (cur_bytes c) = l ∧
  Z.of_nat (length (cur_bytes c)) ≤ int_max Usize.

Definition scans {A} (m : cursor A) (P : Z -> A -> list byte -> Prop) : Prop :=
  ∀ c l a c', at_bytes c l →
    (m c = Ok (a, c') ↔
     ∃ bs rest, l = bs ++ rest ∧ P (Z.of_nat (length (cur_bytes c))) a bs ∧
       c' = advance c (Z.of_nat (length bs))).

Lemma at_bytes_new bytes n :
  Z.of_nat (length bytes) ≤ int_max Usize → (n ≤ length bytes)%nat →
  at_bytes {| cur_bytes := bytes; cur_offset := Z.of_nat n |} (drop n bytes).
Proof. intros Hl Hn. unfold at_bytes; cbn. rewrite length_drop, Nat2Z.id. split_and!; [lia..|done|done]. Qed.

Lemma at_advance c bs rest :
  at_bytes c (bs ++ rest) → at_bytes (advance c (Z.of_nat (length bs))) rest.
Proof.
  intros (Ho & Hl & Hd & Hb). unfold at_bytes, advance; cbn. rewrite length_app in Hl.
  split_and!; [lia|lia| |done].
  rewrite Z2Nat.inj_add, Nat2Z.id by lia. rewrite <- drop_drop, Hd. apply drop_app_length.
Qed.

Lemma advance_0 c : advance c 0 = c.
Proof. destruct c. unfold advance. cbn. f_equal. lia. Qed.
Lemma advance_add c m n : advance (advance c m) n = advance c (m + n).
Proof. unfold advance. cbn. f_equal. lia. Qed.

Lemma scans_iff {A} (m : cursor A) (P Q : Z -> A -> list byte -> Prop) :
  (∀ N a bs, Z.of_nat (length bs) ≤ N ≤ int_max Usize → P N a bs ↔ Q N a bs) →
  scans m P → scans m Q.
Proof.
  intros Hpq Hm c l a c' Hc. rewrite (Hm c l a c' Hc).
  split; intros (bs & rest & -> & Hp & ->); exists bs, rest; (split_and!; [done| |done]);
    destruct Hc as (? & Hl & _ & ?); rewrite length_app in Hl; apply Hpq; try done; lia.
Qed.

Lemma scans_ret {A} (a : A) : scans (mret a) (fun _ b bs => b = a ∧ bs = []).
Proof.
  intros c l b c' Hc. split.
  - intros [= <- <-]. exists [], l. by rewrite advance_0.
  - intros (bs & rest & -> & [-> ->] & ->). by rewrite advance_0.
Qed.

Lemma scans_lift {A} (r : result anyhow A) :
  scans (cursor_lift r) (fun _ b bs => r = Ok b ∧ bs = []).
Proof.
  intros c l b c' Hc. unfold cursor_lift. rewrite bind_Ok. split.
  - intros (a & -> & [= <- <-]). exists [], l. by rewrite advance_0.
  - intros (bs & rest & -> & [-> ->] & ->). eexists. by rewrite advance_0.
Qed.

Lemma scans_bind {A B} (m : cursor A) (f : A -> cursor B) P Q :
  scans m P → (∀ N a bs, P N a bs → scans (f a) (Q a)) →
  scans (m ≫= f) (fun N b bs => ∃ a bs1 bs2, bs = bs1 ++ bs2 ∧ P N a bs1 ∧ Q a N b bs2).
Proof.
  intros Hm Hf c l b c' Hc. unfold mbind, cursor_bind. rewrite bind_Ok. split.
  - intros ([a c1] & H1 & H2). apply (Hm _ _ _ _ Hc) in H1 as (bs1 & rest & -> & Hp & ->).
    apply at_advance in Hc. apply (Hf _ a _ Hp _ _ _ _ Hc) in H2 as (bs2 & rest' & -> & Hq & ->).
    exists (bs1 ++ bs2), rest'. rewrite <- app_assoc. split_and!; [done|eauto 10|].
    rewrite advance_add, length_app. f_equal. lia.
  - intros (bs & rest & -> & (a & bs1 & bs2 & -> & Hp & Hq) & ->). rewrite <- app_assoc in Hc.
    exists (a, advance c (Z.of_nat (length bs1))). split; [apply (Hm _ _ _ _ Hc); eauto 10|].
    apply at_advance in Hc. apply (Hf _ a _ Hp _ _ _ _ Hc). exists bs2, rest. split_and!; [done..|].
    rewrite advance_add, length_app. f_equal. lia.
Qed.

Lemma scans_take n : 0 ≤ n →
  scans (cursor_take n) (fun _ a bs => bs = a ∧ Z.of_nat (length a) = n).
Proof.
  intros Hn c l a c' (Ho & Hl & Hd & Hb). unfold cursor_take, slice_get. rewrite Hd. split.
  - intros (stop & [-> Hs]%ok_or_Ok%checked_Some & (part & Hp%ok_or_Ok & [= <- <-])%bind_Ok)%bind_Ok.
    destruct (_ && _) eqn:Hle; [|done]. injection Hp as <-. apply andb_true_iff in Hle as [? ?].
    replace (Z.to_nat (cur_offset c + n - cur_offset c)) with (Z.to_nat n) by lia.
    exists (take (Z.to_nat n) l), (drop (Z.to_nat n) l).
    rewrite take_drop, length_take. unfold advance. split_and!; [done|done|lia|f_equal; lia].
  - intros (bs & rest & -> & [-> Hlen] & ->). rewrite length_app in Hl.
    unfold checked_add. rewrite checked_fits by widths. cbn [ok_or mbind result_bind].
    rewrite !(proj2 (Z.leb_le _ _)) by lia. cbn [andb ok_or mbind result_bind].
    replace (Z.to_nat (cur_offset c + n - cur_offset c)) with (length a) by lia.
    rewrite take_app_length. unfold advance. do 2 f_equal. by rewrite Hlen.
Qed.

Lemma scans_ensure b msg : scans (cursor_ensure b msg) (fun _ _ bs => b = true ∧ bs = []).
Proof.
  eapply scans_iff; [|apply scans_lift]. intros N u bs _. cbn beta. by rewrite ensure_Ok.
Qed.

Lemma scans_le (k : nat) w : w = 2 ^ (8 * Z.of_nat k) →
  scans (take_le (Z.of_nat k)) (fun _ z bs => bs = le_bytes k z ∧ 0 ≤ z < w).
Proof.
  intros ->.
  eapply scans_iff; [|eapply scans_bind; [apply scans_take; lia|intros ? a ? ?; apply scans_ret]].
  intros N z bs _. split.
  - intros (a & ? & ? & -> & (-> & Ha) & -> & ->). rewrite app_nil_r.
    rewrite le_bytes_combine by lia. split; [done|]. apply le_combine_range. lia.
  - intros [-> Hz]. exists (le_bytes k z), (le_bytes k z), []. rewrite app_nil_r, le_bytes_length.
    rewrite le_combine_le_bytes by (by rewrite Z.mul_comm). done.
Qed.

Lemma scans_count_bound value :
  scans (count_bound value) (fun N a bs => a = value ∧ bs = [] ∧ 0 ≤ value ≤ N).
Proof.
  intros c l a c' Hc. unfold count_bound. split.
  - intros (v & [-> Hs]%ok_or_Ok%checked_Some & (? & Hp%ensure_Ok & [= <- <-])%bind_Ok)%bind_Ok.
    exists [], l. rewrite advance_0. split_and!; [done..|widths|lia|done].
  - intros (bs & rest & -> & (-> & -> & Hv) & ->). destruct Hc as (_ & _ & _ & Hb).
    rewrite checked_fits by widths. cbn [ok_or mbind result_bind].
    rewrite (proj2 (Z.leb_le _ _)) by lia. cbn. by rewrite advance_0.
Qed.

(** The head byte of a compact size and what follows it. *)
Definition count_tail (first value : Z) (bs : list byte) : Prop :=
  if first =? 253 then bs = le_bytes 2 value ∧ 253 ≤ value < 2 ^ 16
  else if first =? 254 then bs = le_bytes 4 value ∧ 2 ^ 16 ≤ value < 2 ^ 32
  else if first =? 255 then bs = le_bytes 8 value ∧ 2 ^ 32 ≤ value < 2 ^ 64
  else bs = [] ∧ value = first.

Lemma count_tail_compact b value bs :
  count_tail (byte.unsigned b) value bs ↔
  b :: bs = compact_size value ∧ 0 ≤ value < 2 ^ 64.
Proof.
  pose proof (byte.unsigned_range b) as Hb. unfold count_tail. split.
  - intros Ht. repeat case_match; destruct Ht as [-> Hv]; (split; [|lia]); unfold compact_size.
    + rewrite (proj2 (Z.ltb_ge _ _)), (proj2 (Z.leb_le _ _)) by lia. f_equal.
      apply byte.unsigned_inj. by apply Z.eqb_eq.
    + rewrite (proj2 (Z.ltb_ge _ _)), (proj2 (Z.leb_gt _ _)), (proj2 (Z.leb_le _ _)) by lia. f_equal.
      apply byte.unsigned_inj. by apply Z.eqb_eq.
    + rewrite (proj2 (Z.ltb_ge _ _)), !(proj2 (Z.leb_gt _ _)) by lia. f_equal.
      apply byte.unsigned_inj. by apply Z.eqb_eq.
    + subst value. rewrite (proj2 (Z.ltb_lt _ _)) by lia. by rewrite byte.of_Z_unsigned.
  - unfold compact_size. intros [Heq Hv].
    repeat case_match; simplify_eq; rewrite ?unsigned_of_Z_small in * by lia; repeat split; lia.
Qed.

Lemma scans_count : scans count (fun N n bs => bs = compact_size n ∧ 0 ≤ n ≤ N).
Proof.
  assert (∀ first, scans (value ← (if first =? 253 then take_le 2
           else if first =? 254 then take_le 4
           else if first =? 255 then take_le 8
           else mret first);
    _ ← cursor_ensure (if first =? 253 then 253 <=? value
                     else if first =? 254 then 0xffff <? value
                     else if first =? 255 then 0xffffffff <? value
                     else true) "noncanonical compact size";
    count_bound value) (fun N n bs => count_tail first n bs ∧ 0 ≤ n ≤ N)) as Htail.
  { intros first. unfold count_tail.
    destruct (first =? 253); [|destruct (first =? 254); [|destruct (first =? 255)]];
      (eapply scans_iff; [|eapply scans_bind; [first [by apply (scans_le 2 (2 ^ 16))|by apply (scans_le 4 (2 ^ 32))|by apply (scans_le 8 (2 ^ 64))|apply scans_ret]|
        intros ? v ? ?; eapply scans_bind; [apply scans_ensure|intros ? u ? ?; apply scans_count_bound]]]);
      intros N n bs _; split.
    all: try (intros (v & ? & ? & -> & [??] & [] & ? & ? & -> & [Hv ->] & -> & -> & ?);
      rewrite app_nil_r in *; simplify_eq/=; repeat split; lia).
    all: intros [[Hbs ?] ?]; exists n, bs, []; rewrite app_nil_r; (split; [done|]);
      (split; [split; first [done|lia]|]); exists tt, [], []; repeat split; lia. }
  eapply scans_iff; [|eapply scans_bind; [by apply scans_take|intros ? head ? ?;
    eapply scans_bind; [apply scans_lift|intros ? first ? ?; apply Htail]]].
  intros N n bs HN. unfold int_max, Usize in HN. split.
  - intros (head & ? & ? & -> & [-> Hlen] & first & ? & ? & -> & [Hf ->] & Ht & Hn).
    destruct head as [|b [|]]; cbn in Hlen; [lia| |lia]. unfold byte_at in Hf. cbn in Hf.
    injection Hf as <-. apply count_tail_compact in Ht as [Ht _]. cbn. by rewrite Ht.
  - intros [-> Hn]. destruct (compact_size n) as [|b bs] eqn:Hc.
    { pose proof (compact_size_nonempty n) as He. rewrite Hc in He. cbn in He. lia. }
    exists [b], [b], bs. split_and!; [done..|]. exists (byte.unsigned b), [], bs.
    split_and!; [done..| |lia|lia]. apply count_tail_compact. rewrite Hc. split; [done|lia].
Qed.

(** * The wire grammar *)
Record WireIn := {
  wi_prevout : list byte;
  wi_script : list byte;
  wi_sequence : list byte;
}.
Record WireOut := {
  wo_value : list byte;
  wo_script : list byte;
}.
Record WireTx := {
  wt_version : list byte;
  wt_ins : list WireIn;
  wt_outs : list WireOut;
  wt_witness : option (list (list (list byte)));
  wt_locktime : list byte;
}.

Definition wire_in_bytes (i : WireIn) : list byte :=
  wi_prevout i ++ item_bytes (wi_script i) ++ wi_sequence i.
Definition wire_out_bytes (o : WireOut) : list byte := wo_value o ++ item_bytes (wo_script o).
Definition wire_marker (t : WireTx) : list byte :=
  match wt_witness t with Some _ => [Byte.x00; Byte.x01] | None => [] end.
Definition wire_body (t : WireTx) : list byte :=
  (compact_size (Z.of_nat (length (wt_ins t))) ++ (wt_ins t ≫= wire_in_bytes)) ++
  (compact_size (Z.of_nat (length (wt_outs t))) ++ (wt_outs t ≫= wire_out_bytes)).
Definition wire_witness (t : WireTx) : list byte :=
  match wt_witness t with Some stacks => stacks ≫= stack_bytes | None => [] end.
Definition wire_bytes (t : WireTx) : list byte :=
  wt_version t ++ wire_marker t ++ wire_body t ++ wire_witness t ++ wt_locktime t.
(** The serialisation a txid hashes. *)
Definition wire_stripped (t : WireTx) : list byte :=
  wt_version t ++ wire_body t ++ wt_locktime t.

Definition wf_wire_in (i : WireIn) : Prop :=
  length (wi_prevout i) = 36%nat ∧ length (wi_sequence i) = 4%nat.
Definition wf_wire_out (o : WireOut) : Prop := length (wo_value o) = 8%nat.
Record wf_wire (t : WireTx) : Prop := {
  ww_version : length (wt_version t) = 4%nat;
  ww_some : wt_ins t ≠ [];
  ww_ins : Forall wf_wire_in (wt_ins t);
  ww_outs : Forall wf_wire_out (wt_outs t);
  ww_witness : match wt_witness t with
               | Some stacks => length stacks = length (wt_ins t) | None => True end;
  ww_locktime : length (wt_locktime t) = 4%nat;
}.

(** Where the parts sit when the transaction starts at offset 0. *)
Definition wire_layout (t : WireTx) : TransactionLayout :=
  let body := 4 + Z.of_nat (length (wire_marker t)) in
  let body_end := body + Z.of_nat (length (wire_body t)) in
  let locktime := body_end + Z.of_nat (length (wire_witness t)) in
  {| tl_body := (body, body_end); tl_locktime := (locktime, locktime + 4); tl_len := locktime + 4 |}.

(** A repeated element of the grammar. *)
Definition many {A} (W : A -> Prop) (enc : A -> list byte) (n : nat) (bs : list byte) : Prop :=
  ∃ xs, length xs = n ∧ Forall W xs ∧ bs = xs ≫= enc.

Lemma scans_repeat {A} (W : A -> Prop) (enc : A -> list byte) m n :
  scans m (fun _ _ bs => ∃ x, W x ∧ bs = enc x) →
  scans (repeat_n n m) (fun _ _ bs => many W enc n bs).
Proof.
  intros Hm. induction n as [|n IH]; cbn [repeat_n].
  - eapply scans_iff; [|apply scans_ret]. intros N [] bs _. split.
    + intros [_ ->]. by exists [].
    + intros ([|x xs] & Hlen & _ & ->); [done|discriminate Hlen].
  - eapply scans_iff; [|eapply scans_bind; [apply Hm|intros ? u ? ?; apply IH]].
    intros N [] bs _. split.
    + intros (_ & ? & ? & -> & (x & Hx & ->) & xs & Hlen & Hxs & ->). exists (x :: xs).
      rewrite bind_cons. split_and!; [cbn; lia|by constructor|done].
    + intros ([|x xs] & Hlen & Hxs & ->); [discriminate Hlen|]. apply Forall_cons in Hxs as [Hx Hxs].
      exists tt, (enc x), (xs ≫= enc). rewrite bind_cons. split_and!; [done|by exists x|].
      exists xs. split_and!; [cbn in Hlen; lia|done|done].
Qed.

(** A count and that many elements: the bound on the count never bites,
    because every element takes a byte. *)
Lemma scans_many {A} (W : A -> Prop) (enc : A -> list byte) m :
  (∀ x, W x → (1 ≤ length (enc x))%nat) →
  scans m (fun _ _ bs => ∃ x, W x ∧ bs = enc x) →
  scans (n ← count; repeat_n (Z.to_nat n) m)
    (fun _ _ bs => ∃ xs, Forall W xs ∧ bs = compact_size (Z.of_nat (length xs)) ++ (xs ≫= enc)).
Proof.
  intros Hne Hm.
  eapply scans_iff; [|eapply scans_bind; [apply scans_count|intros ? n ? ?; apply (scans_repeat W enc), Hm]].
  intros N [] bs HN. split.
  - intros (n & ? & ? & -> & [-> Hn] & xs & Hlen & Hxs & ->). exists xs. split; [done|].
    rewrite Hlen, Z2Nat.id by lia. done.
  - intros (xs & Hxs & ->). exists (Z.of_nat (length xs)), (compact_size (Z.of_nat (length xs))), (xs ≫= enc).
    split_and!; [done..|lia| |].
    + rewrite length_app in HN. pose proof (bind_length_ge enc xs) as Hge.
      rewrite Forall_forall in Hxs. specialize (Hge (fun x Hx => Hne x (Hxs x Hx))). lia.
    + exists xs. rewrite Nat2Z.id. done.
Qed.

(** [n = count(); take(n)]. *)
Lemma scans_var {B} (f : list byte -> cursor B) Q :
  (∀ s, scans (f s) (Q s)) →
  scans (n ← count; s ← cursor_take n; f s)
    (fun N b bs => ∃ s bs', bs = item_bytes s ++ bs' ∧ Q s N b bs').
Proof.
  intros Hf. eapply scans_iff; [|eapply scans_bind; [apply scans_count|intros ? n ? [_ Hn];
    eapply scans_bind; [apply scans_take, Hn|intros ? s ? ?; apply Hf]]].
  intros N b bs HN. unfold item_bytes. split.
  - intros (n & ? & ? & -> & [-> _] & s & ? & bs' & -> & [-> <-] & Hq). exists s, bs'.
    by rewrite app_assoc.
  - intros (s & bs' & -> & Hq). rewrite !length_app in HN.
    exists (Z.of_nat (length s)), (compact_size (Z.of_nat (length s))), (s ++ bs').
    rewrite <- app_assoc. split_and!; [done..|lia|lia|]. by exists s, s, bs'.
Qed.

Lemma scans_item : scans walk_item (fun _ _ bs => ∃ s, True ∧ bs = item_bytes s).
Proof.
  eapply scans_iff; [|apply scans_var; intros s; apply scans_ret].
  intros N [] bs _. split.
  - intros (s & ? & -> & _ & ->). exists s. by rewrite app_nil_r.
  - intros (s & _ & ->). exists s, []. by rewrite app_nil_r.
Qed.

Lemma item_bytes_nonempty s : (1 ≤ length (item_bytes s))%nat.
Proof. unfold item_bytes. rewrite length_app, ctv_compact_size_eq. pose proof (compact_size_nonempty (Z.of_nat (length s))). lia. Qed.

Lemma scans_stack : scans walk_stack (fun _ _ bs => ∃ stack, True ∧ bs = stack_bytes stack).
Proof.
  eapply scans_iff; [|apply (scans_many (fun _ => True) item_bytes); [intros s _; apply item_bytes_nonempty|apply scans_item]].
  intros N [] bs _. unfold stack_bytes. split; intros (stack & ? & ->); exists stack; (split; [|done]); [done|by apply Forall_true].
Qed.

Lemma scans_input : scans walk_input (fun _ _ bs => ∃ i, wf_wire_in i ∧ bs = wire_in_bytes i).
Proof.
  eapply scans_iff; [|eapply scans_bind; [by apply scans_take|intros ? prevout ? ?; apply scans_var; intros script;
    eapply scans_bind; [by apply scans_take|intros ? sequence ? ?; apply scans_ret]]].
  intros N [] bs _. unfold wf_wire_in, wire_in_bytes. split.
  - intros (prevout & ? & ? & -> & [-> Hp] & script & ? & -> & sequence & ? & ? & -> & [-> Hs] & _ & ->).
    exists {| wi_prevout := prevout; wi_script := script; wi_sequence := sequence |}. cbn.
    rewrite app_nil_r. split; [lia|done].
  - intros ([prevout script sequence] & [Hp Hs] & ->). cbn in *.
    exists prevout, prevout, (item_bytes script ++ sequence). split_and!; [done..|lia|].
    exists script, sequence. split; [done|]. exists sequence, sequence, []. rewrite app_nil_r.
    split_and!; [done..|lia|done|done].
Qed.

Lemma scans_output : scans walk_output (fun _ _ bs => ∃ o, wf_wire_out o ∧ bs = wire_out_bytes o).
Proof.
  eapply scans_iff; [|eapply scans_bind; [by apply scans_take|intros ? value ? ?; apply scans_var; intros script; apply scans_ret]].
  intros N [] bs _. unfold wf_wire_out, wire_out_bytes. split.
  - intros (value & ? & ? & -> & [-> Hv] & script & ? & -> & _ & ->).
    exists {| wo_value := value; wo_script := script |}. cbn. rewrite app_nil_r. split; [lia|done].
  - intros ([value script] & Hv & ->). cbn in *.
    exists value, value, (item_bytes script). split_and!; [done..|lia|].
    exists script, []. by rewrite app_nil_r.
Qed.

Lemma wire_in_nonempty i : wf_wire_in i → (1 ≤ length (wire_in_bytes i))%nat.
Proof. unfold wire_in_bytes. intros [Hp _]. rewrite length_app. lia. Qed.
Lemma wire_out_nonempty o : wf_wire_out o → (1 ≤ length (wire_out_bytes o))%nat.
Proof. unfold wire_out_bytes. intros Ho. rewrite length_app, Ho. lia. Qed.

Lemma scans_inputs : scans walk_inputs (fun _ n bs => ∃ ins, ins ≠ [] ∧ Forall wf_wire_in ins ∧
  n = Z.of_nat (length ins) ∧ bs = compact_size n ++ (ins ≫= wire_in_bytes)).
Proof.
  eapply scans_iff; [|eapply scans_bind; [apply scans_count|intros ? n ? ?;
    eapply scans_bind; [apply scans_ensure|intros ? u ? ?; eapply scans_bind;
      [apply (scans_repeat wf_wire_in wire_in_bytes), scans_input|intros ? v ? ?; apply scans_ret]]]].
  intros N n bs HN. split.
  - intros (n' & ? & ? & -> & [-> Hn] & _ & ? & ? & -> & [Hpos ->] & _ & ? & ? & -> &
      (ins & Hlen & Hins & ->) & -> & ->).
    apply Z.ltb_lt in Hpos. exists ins. rewrite app_nil_r. cbn [app].
    split_and!; [intros ->; cbn in Hlen; lia|done|lia|done].
  - intros (ins & Hne & Hins & -> & ->). set (n := Z.of_nat (length ins)).
    exists n, (compact_size n), (ins ≫= wire_in_bytes). rewrite length_app in HN.
    pose proof (bind_length_ge wire_in_bytes ins) as Hge.
    pose proof Hins as Hins'. rewrite Forall_forall in Hins'.
    specialize (Hge (fun x Hx => wire_in_nonempty x (Hins' x Hx))).
    split_and!; [done..|lia|lia|]. exists tt, [], (ins ≫= wire_in_bytes).
    split_and!; [done|apply Z.ltb_lt; destruct ins; [done|subst n; cbn; lia]|done|].
    exists tt, (ins ≫= wire_in_bytes), []. rewrite app_nil_r. split_and!; [done| |done|done].
    exists ins. subst n. rewrite Nat2Z.id. done.
Qed.

Lemma scans_outputs : scans walk_outputs (fun _ _ bs => ∃ outs, Forall wf_wire_out outs ∧
  bs = compact_size (Z.of_nat (length outs)) ++ (outs ≫= wire_out_bytes)).
Proof. apply scans_many; [apply wire_out_nonempty|apply scans_output]. Qed.

(** ** The walk *)
(** Steps of the walk, as it takes them. *)
Lemma scan_step {A} (m : cursor A) P c bs rest a :
  scans m P → at_bytes c (bs ++ rest) → P (Z.of_nat (length (cur_bytes c))) a bs →
  m c = Ok (a, advance c (Z.of_nat (length bs))) ∧ at_bytes (advance c (Z.of_nat (length bs))) rest.
Proof. intros Hm Hc Hp. split; [apply (Hm _ _ _ _ Hc); eauto 10|by apply at_advance]. Qed.

(** The first two bytes after the version tell the two serialisations apart. *)
Definition marked (bytes : list byte) : bool :=
  match bytes !! 4%nat, bytes !! 5%nat with
  | Some m, Some f => (byte.unsigned m =? 0) && negb (byte.unsigned f =? 0)
  | _, _ => false
  end.

Lemma marked_wire t rest :
  wf_wire t → marked (wire_bytes t ++ rest) = bool_decide (is_Some (wt_witness t)).
Proof.
  intros Hw. pose proof (ww_version _ Hw) as Hv. pose proof (ww_some _ Hw) as Hne.
  unfold marked, wire_bytes, wire_marker, wire_body. rewrite <- !app_assoc.
  rewrite !(lookup_app_r (wt_version t)) by lia. rewrite Hv. cbn [Nat.sub].
  destruct (wt_witness t); [done|]. cbn [app].
  destruct (compact_size_head (Z.of_nat (length (wt_ins t)))) as (c & bs & -> & Hc);
    [destruct (wt_ins t); [done|cbn; lia]|].
  cbn [app lookup list_lookup]. rewrite (proj2 (Z.eqb_neq _ _) Hc). by destruct (_ !! _).
Qed.

Lemma wire_bytes_length t : wf_wire t → (10 ≤ length (wire_bytes t))%nat.
Proof.
  intros Hw. destruct Hw as [Hv Hne Hins _ _ Hl]. unfold wire_bytes, wire_body.
  rewrite !length_app, Hv, Hl. destruct (wt_ins t) as [|i ins]; [done|].
  apply Forall_cons in Hins as [[Hp _] _]. rewrite bind_cons. unfold wire_in_bytes at 1.
  rewrite !length_app, Hp. lia.
Qed.

Lemma byte_at_marked bytes :
  (10 ≤ length bytes)%nat →
  ∃ m f, @byte_at anyhow bytes 4 = Ok m ∧ @byte_at anyhow bytes 5 = Ok f ∧
    marked bytes = (m =? 0) && negb (f =? 0).
Proof.
  intros Hl. unfold byte_at, marked.
  destruct (lookup_lt_is_Some_2 bytes 4 ltac:(lia)) as [m ->].
  destruct (lookup_lt_is_Some_2 bytes 5 ltac:(lia)) as [f ->].
  exists (byte.unsigned m), (byte.unsigned f). done.
Qed.

(** Marker and witness, as the grammar spells them. *)
Definition marker_bytes (witness : bool) : list byte :=
  if witness then [Byte.x00; Byte.x01] else [].
Definition witness_bytes (inputs : nat) (stacks : option (list (list (list byte)))) (bs : list byte)
  : Prop :=
  match stacks with
  | Some ss => length ss = inputs ∧ bs = ss ≫= stack_bytes
  | None => bs = []
  end.

Lemma scans_marker witness flag :
  scans (walk_marker witness flag)
    (fun _ _ bs => if witness then flag = 1 ∧ length bs = 2%nat else bs = []).
Proof.
  destruct witness; cbn [walk_marker].
  - eapply scans_iff; [|eapply scans_bind; [apply scans_ensure|intros ? u ? ?; eapply scans_bind;
      [by apply scans_take|intros ? v ? ?; apply scans_ret]]].
    intros N [] bs _. cbn beta. setoid_rewrite Z.eqb_eq. split.
    + intros (_ & ? & ? & -> & [Hf ->] & v & ? & ? & -> & [-> Hv] & _ & ->). cbn. rewrite app_nil_r. lia.
    + intros [Hf Hlen]. exists tt, [], bs. split_and!; [done..|]. exists bs, bs, [].
      rewrite app_nil_r. split_and!; [done..|lia|done|done].
  - eapply scans_iff; [|apply scans_ret]. intros N [] bs _. naive_solver.
Qed.

Lemma scans_witness (witness : bool) n :
  scans (walk_witness witness (Z.of_nat n))
    (fun _ _ bs => ∃ stacks, witness = bool_decide (is_Some stacks) ∧ witness_bytes n stacks bs).
Proof.
  destruct witness; cbn [walk_witness].
  - rewrite Nat2Z.id.
    eapply scans_iff; [|apply (scans_repeat (fun _ => True) stack_bytes), scans_stack].
    intros N [] bs _. split.
    + intros (ss & Hlen & _ & ->). by exists (Some ss).
    + intros ([ss|] & Hw & Hss); [|done]. destruct Hss as [Hlen ->].
      exists ss. split_and!; [done|by apply Forall_true|done].
  - eapply scans_iff; [|apply scans_ret]. intros N [] bs _. split.
    + intros [_ ->]. by exists None.
    + intros ([ss|] & Hw & Hss); [done|]. by cbn in Hss.
Qed.

Lemma wire_marker_eq t : wire_marker t = marker_bytes (bool_decide (is_Some (wt_witness t))).
Proof. unfold wire_marker. by destruct (wt_witness t). Qed.

Lemma walk_wire t rest :
  wf_wire t → Z.of_nat (length (wire_bytes t ++ rest)) ≤ int_max Usize →
  walk_transaction (wire_bytes t ++ rest) = Ok (wire_layout t).
Proof.
  intros Hw Hmax. pose proof (wire_bytes_length _ Hw) as Hlen.
  pose proof (marked_wire _ rest Hw) as Hmark.
  destruct (byte_at_marked (wire_bytes t ++ rest)) as (m & f & Hm & Hf & Hmf);
    [rewrite length_app; lia|].
  unfold walk_transaction. rewrite length_app, (proj2 (Z.leb_le _ _)) by lia.
  cbn [ensure mbind result_bind]. rewrite Hm, Hf. cbn [mbind result_bind]. rewrite <- Hmf, Hmark.
  assert (at_bytes {| cur_bytes := wire_bytes t ++ rest; cur_offset := 4 |}
    (wire_marker t ++ wire_body t ++ wire_witness t ++ wt_locktime t ++ rest)) as Hc.
  { replace (_ ++ _ ++ _ ++ _ ++ rest) with (drop 4 (wire_bytes t ++ rest));
      [apply (at_bytes_new _ 4); [done|rewrite length_app; lia]|].
    unfold wire_bytes. rewrite <- !app_assoc. apply drop_app_length'. symmetry. apply Hw. }
  set (c0 := {| cur_bytes := _; cur_offset := 4 |}) in *.
  destruct (scan_step _ _ _ _ _ tt (scans_marker (bool_decide (is_Some (wt_witness t))) f) Hc) as [-> Hc1].
  { unfold wire_marker. destruct (wt_witness t) as [stacks|] eqn:Ht; [|done]. split; [|done].
    unfold byte_at, wire_bytes, wire_marker in Hf. rewrite Ht, <- !app_assoc in Hf.
    rewrite lookup_app_r, (ww_version _ Hw) in Hf by (rewrite (ww_version _ Hw); lia).
    by injection Hf as <-. }
  cbn [mbind result_bind]. unfold wire_body in Hc1. rewrite <- !(app_assoc (_ ++ _)) in Hc1.
  destruct (scan_step _ _ _ _ _ (Z.of_nat (length (wt_ins t))) scans_inputs Hc1) as [-> Hc2].
  { exists (wt_ins t). split_and!; [apply Hw..|done|done]. }
  cbn [mbind result_bind].
  destruct (scan_step _ _ _ _ _ tt scans_outputs Hc2) as [-> Hc3].
  { exists (wt_outs t). split; [apply Hw|done]. }
  cbn [mbind result_bind].
  destruct (scan_step _ _ _ _ _ tt (scans_witness (bool_decide (is_Some (wt_witness t))) (length (wt_ins t))) Hc3)
    as [-> Hc4].
  { exists (wt_witness t). split; [done|]. unfold wire_witness, witness_bytes.
    pose proof (ww_witness _ Hw). by destruct (wt_witness t). }
  cbn [mbind result_bind].
  destruct (scan_step (cursor_take 4) _ _ _ _ (wt_locktime t) (scans_take 4 ltac:(lia)) Hc4) as [-> _].
  { split; [done|]. by rewrite (ww_locktime _ Hw). }
  cbn [mbind result_bind]. unfold wire_layout, wire_body. subst c0. cbn [advance cur_offset].
  rewrite (ww_locktime _ Hw), !length_app. do 2 f_equal; [f_equal|f_equal|]; lia.
Qed.

Lemma walk_inv bytes layout :
  Z.of_nat (length bytes) ≤ int_max Usize → walk_transaction bytes = Ok layout →
  ∃ t rest, wf_wire t ∧ bytes = wire_bytes t ++ rest ∧ layout = wire_layout t.
Proof.
  intros Hmax Hwalk. unfold walk_transaction in Hwalk.
  apply bind_Ok in Hwalk as (_ & Hlen%ensure_Ok & Hwalk). apply Z.leb_le in Hlen.
  destruct (byte_at_marked bytes) as (m & f & Hm & Hf & Hmf); [lia|].
  rewrite Hm, Hf in Hwalk. cbn [mbind result_bind] in Hwalk. rewrite <- Hmf in Hwalk.
  apply bind_Ok in Hwalk as ([[] c1] & H1 & Hwalk).
  apply bind_Ok in Hwalk as ([n c2] & H2 & Hwalk).
  apply bind_Ok in Hwalk as ([[] c3] & H3 & Hwalk).
  apply bind_Ok in Hwalk as ([[] c4] & H4 & Hwalk).
  apply bind_Ok in Hwalk as ([lock c5] & H5 & [= <-]).
  pose proof (at_bytes_new bytes 4 Hmax ltac:(lia)) as Hc.
  apply (scans_marker _ _ _ _ _ _ Hc) in H1 as (mk & rest1 & Hmk & Hpm & ->). rewrite Hmk in Hc.
  apply at_advance in Hc.
  apply (scans_inputs _ _ _ _ Hc) in H2 as (b1 & rest2 & -> & (ins & Hne & Hins & -> & ->) & ->).
  apply at_advance in Hc.
  apply (scans_outputs _ _ _ _ Hc) in H3 as (b2 & rest3 & -> & (outs & Houts & ->) & ->).
  apply at_advance in Hc.
  apply (scans_witness _ _ _ _ _ _ Hc) in H4 as (b3 & rest4 & -> & (stacks & Hst & Hwb) & ->).
  apply at_advance in Hc.
  apply (scans_take 4 ltac:(done) _ _ _ _ Hc) in H5 as (b4 & rest5 & -> & (-> & Hlock) & ->).
  set (t := {| wt_version := take 4 bytes; wt_ins := ins; wt_outs := outs; wt_witness := stacks;
               wt_locktime := lock |}).
  assert (mk = wire_marker t) as ->.
  { rewrite wire_marker_eq. cbn. rewrite <- Hst. destruct (marked bytes) eqn:Hmark; [|done].
    destruct Hpm as [-> Hl2]. unfold byte_at in Hm, Hf.
    rewrite <- (take_drop 4 bytes), Hmk in Hm, Hf.
    rewrite !lookup_app_r in Hm, Hf by (rewrite length_take; lia).
    rewrite length_take_le in Hm, Hf by lia.
    destruct mk as [|x [|y [|]]]; [done..| |done]. cbn in Hm, Hf. injection Hm as Hx. injection Hf as Hy.
    symmetry in Hmf. apply andb_true_iff in Hmf as [Hx0%Z.eqb_eq _]. cbn [marker_bytes].
    f_equal; [|f_equal]; apply byte.unsigned_inj; [by rewrite Hx|by rewrite Hy]. }
  assert (b3 = wire_witness t) as ->.
  { unfold wire_witness. subst t. cbn. destruct stacks; [by destruct Hwb|done]. }
  exists t, rest5. split_and!.
  - constructor; try done; [by apply length_take_le; lia| |subst t; cbn; lia].
    subst t. cbn. destruct stacks; [by destruct Hwb|done].
  - rewrite <- (take_drop 4 bytes), Hmk. unfold wire_bytes, wire_body. by rewrite <- !app_assoc.
  - unfold wire_layout, wire_body. subst t. cbn [advance cur_offset wt_ins wt_outs].
    change (Z.of_nat 4) with 4. rewrite !length_app.
    replace (Z.of_nat (length lock)) with 4 by lia. f_equal; [f_equal|f_equal|]; lia.
Qed.

Lemma wire_layout_len t : wf_wire t → tl_len (wire_layout t) = Z.of_nat (length (wire_bytes t)).
Proof.
  intros Hw. unfold wire_layout, wire_bytes. cbn [tl_len].
  rewrite !length_app, (ww_version _ Hw), (ww_locktime _ Hw). lia.
Qed.

(** The parts of the layout, cut out of the buffer. *)
Lemma strip_wire t :
  wf_wire t → Z.of_nat (length (wire_bytes t)) ≤ int_max Usize →
  strip_witness_transaction (wire_bytes t) = Ok (wire_stripped t).
Proof.
  intros Hw Hmax. unfold strip_witness_transaction.
  pose proof (walk_wire t [] Hw) as Hwalk. rewrite app_nil_r in Hwalk. rewrite (Hwalk Hmax).
  cbn [mbind result_bind]. destruct Hw as [Hv _ _ _ _ Hl].
  unfold wire_layout, wire_bytes, wire_stripped, slice_at. cbn [tl_len tl_body tl_locktime fst snd].
  rewrite !length_app, Hv, Hl, (proj2 (Z.eqb_eq _ _)) by lia. cbn [ensure mbind result_bind].
  set (bs := wt_version t ++ _ ++ _).
  assert (slice_get bs 0 4 = Some (wt_version t)) as -> by (apply (slice_get_app []); rewrite ?Hv; done).
  cbn [expect mbind result_bind].
  assert (∀ a b, a = 4 + Z.of_nat (length (wire_marker t)) → b = a + Z.of_nat (length (wire_body t)) →
    slice_get bs a b = Some (wire_body t)) as Hbody.
  { intros a b -> ->. subst bs. rewrite app_assoc. apply slice_get_app; rewrite length_app, Hv; lia. }
  rewrite (Hbody _ _ eq_refl eq_refl). cbn [expect mbind result_bind].
  assert (bs = (wt_version t ++ wire_marker t ++ wire_body t ++ wire_witness t) ++ wt_locktime t ++ []) as ->
    by (subst bs; by rewrite app_nil_r, <- !app_assoc).
  rewrite slice_get_app by (rewrite !length_app, Hv, ?Hl; lia). done.
Qed.

Lemma strip_inv bytes stripped :
  Z.of_nat (length bytes) ≤ int_max Usize → strip_witness_transaction bytes = Ok stripped →
  ∃ t, wf_wire t ∧ bytes = wire_bytes t ∧ stripped = wire_stripped t.
Proof.
  intros Hmax Hs. pose proof Hs as Hs'. unfold strip_witness_transaction in Hs.
  apply bind_Ok in Hs as (layout & Hwalk & Hs). apply bind_Ok in Hs as (_ & Hl%ensure_Ok & _).
  destruct (walk_inv _ _ Hmax Hwalk) as (t & rest & Hw & -> & ->).
  apply Z.eqb_eq in Hl. rewrite length_app, (wire_layout_len _ Hw) in Hl.
  destruct rest as [|b rest]; [|cbn [length] in Hl; lia]. rewrite app_nil_r in *.
  exists t. split_and!; [done..|]. rewrite (strip_wire _ Hw Hmax) in Hs'. by injection Hs'.
Qed.

(** * Two readers of one format *)
Section agreement.
Context `{HexCrate, !HexLaws}.

Definition wire_in_of (i : ParsedTxIn) : WireIn :=
  {| wi_prevout := raw_txid (pti_prev_txid_hex i) ++ le_bytes 4 (pti_prev_vout i);
     wi_script := pti_script_sig i; wi_sequence := le_bytes 4 (pti_sequence i) |}.
Definition wire_out_of (o : ParsedTxOut) : WireOut :=
  {| wo_value := le_bytes 8 (pto_amount_sats o); wo_script := pto_script_pubkey o |}.
Definition wire_of version ins outs stacks lock : WireTx :=
  {| wt_version := le_bytes 4 version; wt_ins := wire_in_of <$> ins; wt_outs := wire_out_of <$> outs;
     wt_witness := stacks; wt_locktime := le_bytes 4 lock |}.

Lemma wire_of_wf version ins outs stacks lock :
  wf_tx version ins outs stacks lock → wf_wire (wire_of version ins outs stacks lock).
Proof.
  intros [_ _ Hne Hins Houts _ _ Hst]. constructor; cbn -[le_bytes].
  - apply le_bytes_length.
  - by destruct ins.
  - apply Forall_fmap. eapply Forall_impl; [exact Hins|]. intros i [(raw & Hraw & Hlen) _ _ _].
    unfold wf_wire_in. cbn -[le_bytes]. rewrite Hraw, raw_txid_encode, length_app, !le_bytes_length. lia.
  - apply Forall_fmap, Forall_true. intros o. apply le_bytes_length.
  - rewrite length_fmap. destruct stacks; [by destruct Hst|done].
  - apply le_bytes_length.
Qed.

Lemma wire_of_body version ins outs stacks lock :
  wire_body (wire_of version ins outs stacks lock) =
  compact_size (Z.of_nat (length ins)) ++ (ins ≫= txin_bytes) ++
  compact_size (Z.of_nat (length outs)) ++ (outs ≫= serialize_txout).
Proof.
  unfold wire_body, wire_of. cbn [wt_ins wt_outs]. rewrite !length_fmap, !list_fmap_bind, <- app_assoc.
  f_equal. f_equal. apply list_bind_ext; [|done].
  intros i. unfold wire_in_bytes, txin_bytes. cbn. by rewrite <- app_assoc.
Qed.

Lemma wire_of_bytes version ins outs stacks lock :
  wire_bytes (wire_of version ins outs stacks lock) = tx_bytes Byte.x01 version ins outs stacks lock.
Proof. unfold wire_bytes. rewrite wire_of_body. unfold tx_bytes. by rewrite <- !app_assoc. Qed.

Lemma wire_of_stripped version ins outs stacks lock flag :
  wire_stripped (wire_of version ins outs stacks lock) = tx_bytes flag version ins outs None lock.
Proof. unfold wire_stripped. rewrite wire_of_body. unfold tx_bytes. by rewrite <- !app_assoc. Qed.

(** A flag other than 1 is refused. *)
Lemma strip_flag flag version ins outs ss lock :
  byte.unsigned flag ≠ 0 → flag ≠ Byte.x01 →
  (6 ≤ length (tx_bytes flag version ins outs (Some ss) lock) - 4)%nat →
  strip_witness_transaction (tx_bytes flag version ins outs (Some ss) lock) =
  Err ["unsupported witness transaction flags"].
Proof.
  intros Hf Hne Hlen. set (bs := tx_bytes _ _ _ _ _ _) in *.
  assert (bs !! 4%nat = Some Byte.x00 ∧ bs !! 5%nat = Some flag) as [H4 H5].
  { subst bs. unfold tx_bytes. by rewrite !lookup_app_r, le_bytes_length by (rewrite le_bytes_length; lia). }
  unfold strip_witness_transaction, walk_transaction, byte_at.
  rewrite (proj2 (Z.leb_le _ _)) by lia. cbn [ensure mbind result_bind].
  rewrite H4, H5. cbn [expect mbind result_bind].
  rewrite (proj2 (Z.eqb_neq _ _) Hf). change (byte.unsigned Byte.x00 =? 0) with true. cbn [andb negb walk_marker].
  unfold mbind at 2, cursor_bind, cursor_ensure, cursor_lift.
  rewrite (proj2 (Z.eqb_neq _ _)); [done|]. intros H1. apply Hne. by apply byte.unsigned_inj.
Qed.

(** The stripped bytes of a transaction the fanout module parses. *)
Lemma strip_parsed bytes name tx :
  Z.of_nat (length bytes) ≤ int_max Usize → parse_transaction bytes name = Ok tx →
  strip_witness_transaction bytes =
  if bool_decide (is_Some (ptx_witness_stacks tx)) && negb (bool_decide (bytes !! 5%nat = Some Byte.x01))
  then Err ["unsupported witness transaction flags"]
  else Ok (ptx_tx_without_witness tx).
Proof.
  intros Hmax Hp. destruct (parse_inv _ _ _ Hmax Hp) as (flag & v & ins & outs & st & lock & Hf & Hwf & -> & ->).
  cbn [parsed ptx_witness_stacks ptx_tx_without_witness].
  pose proof (wire_of_wf _ _ _ _ _ Hwf) as Hw.
  destruct st as [ss|].
  - rewrite bool_decide_true by done. cbn [andb].
    assert (tx_bytes flag v ins outs (Some ss) lock !! 5%nat = Some flag) as ->.
    { unfold tx_bytes. by rewrite lookup_app_r, le_bytes_length by (rewrite le_bytes_length; lia). }
    destruct (decide (flag = Byte.x01)) as [->|Hne].
    + rewrite bool_decide_true by done. cbn [negb].
      rewrite <- wire_of_bytes in Hmax |- *. rewrite (strip_wire _ Hw Hmax).
      by rewrite (wire_of_stripped _ _ _ _ _ Byte.x01).
    + rewrite bool_decide_false by congruence. cbn [negb]. apply strip_flag; [done..|].
      pose proof (wire_bytes_length _ Hw) as Hlen. rewrite wire_of_bytes in Hlen.
      unfold tx_bytes in *. rewrite !length_app in *. cbn [length] in *. lia.
  - rewrite bool_decide_false by (by intros [? ?]). cbn [andb].
    change (tx_bytes flag v ins outs None lock) with (tx_bytes Byte.x01 v ins outs None lock) in *.
    rewrite <- wire_of_bytes in Hmax |- * at 1. rewrite (strip_wire _ Hw Hmax).
    by rewrite (wire_of_stripped _ _ _ _ _ Byte.x01).
Qed.
End agreement.

(** * The merkle branch *)
Section branch.
Context `{Sha256Crate}.

(** What a miner computes from its coinbase txid and the branch. *)
Definition fold_branch (txid : list byte) (branch : list (list byte)) : list byte :=
  foldl (fun merkle sibling => double_sha256 (merkle ++ sibling)) txid branch.

(** Padding an odd level with its last hash is pairing that hash with itself. *)
Lemma pair_level_padded level :
  pair_level (if Nat.odd (length level)
              then level ++ from_option (fun x => [x]) [] (last level) else level) =
  merkle_level level.
Proof.
  induction level as [| |x y l IH] using list_pair_ind; [done..|].
  cbn [length]. change (Nat.odd (S (S (length l)))) with (Nat.odd (length l)).
  destruct l as [|z l]; [done|]. change (last (x :: y :: z :: l)) with (last (z :: l)).
  destruct (Nat.odd _); cbn [app pair_level merkle_level] in *; f_equal; exact IH.
Qed.

(** The branch does not depend on the leaf it belongs to. *)
Lemma branch_loop_fold fuel x y l :
  (length l < fuel)%nat →
  ∃ branch, branch_loop fuel (x :: l) = Some branch ∧
    merkle_loop fuel (y :: l) = Some [fold_branch y branch].
Proof.
  revert x y l. induction fuel as [|fuel IH]; intros x y l Hlen; [lia|].
  destruct l as [|z l]; [by exists []|]. cbn [branch_loop merkle_loop].
  rewrite pair_level_padded. cbn [merkle_level].
  destruct (IH (hash256_pair x z) (hash256_pair y z) (merkle_level l)) as (branch & Hb & Hm).
  { rewrite merkle_level_length. cbn in Hlen. apply Nat.Div0.div_lt_upper_bound. lia. }
  rewrite Hb, Hm. by exists (z :: branch).
Qed.

Lemma branch_root txids :
  ∃ branch, branch_loop (S (length txids)) (replicate 32 Byte.x00 :: txids) = Some branch ∧
    ∀ txid, merkle_root (txid :: txids) = Ok (fold_branch txid branch).
Proof.
  destruct (branch_loop_fold (S (length txids)) (replicate 32 Byte.x00) [] txids) as (branch & Hb & _); [lia|].
  exists branch. split; [done|]. intros txid.
  destruct (branch_loop_fold (S (length txids)) (replicate 32 Byte.x00) txid txids) as (branch' & Hb' & Hm); [lia|].
  unfold merkle_root. cbn [length]. rewrite Hm. cbn. congruence.
Qed.

(** The merkle branch sent to miners is exact: it exists as soon as every
    template transaction strips, and hashing any coinbase txid up the branch
    gives the root the pool builder computes over that txid followed by the
    txids of the template. *)
Theorem merkle_branch_folds_to_root transactions txids :
  collect txid_of transactions = Ok txids →
  ∃ branch, merkle_branch_for_coinbase transactions = Ok branch ∧
    ∀ txid, merkle_root (txid :: txids) = Ok (fold_branch txid branch).
Proof.
  intros Ht. destruct (branch_root txids) as (branch & Hb & Hroot).
  exists branch. split; [|done]. unfold merkle_branch_for_coinbase. rewrite Ht.
  cbn [mbind result_bind length]. by rewrite Hb.
Qed.
End branch.

(** * Blocks *)
Section blocks.
Context `{HexCrate, Sha256Crate}.

Definition block_bytes (header : list byte) (ts : list WireTx) : list byte :=
  header ++ compact_size (Z.of_nat (length ts)) ++ (ts ≫= wire_bytes).

Lemma block_count_Ok block n c :
  Z.of_nat (length block) ≤ int_max Usize →
  block_count block = Ok (n, c) ↔
  ∃ header rest, length header = 80%nat ∧ block = header ++ compact_size n ++ rest ∧
    0 < n ≤ Z.of_nat (length block) ∧
    c = {| cur_bytes := block; cur_offset := 80 + Z.of_nat (length (compact_size n)) |}.
Proof.
  intros Hmax. unfold block_count. split.
  - intros Hb. apply bind_Ok in Hb as (_ & Hl%ensure_Ok%Z.leb_le & Hb).
    apply bind_Ok in Hb as ([n' c'] & Hc%context_Ok & Hb).
    apply bind_Ok in Hb as (_ & Hn%ensure_Ok%Z.ltb_lt & [= -> ->]).
    pose proof (at_bytes_new block 80 Hmax ltac:(lia)) as Ha.
    apply (scans_count _ _ _ _ Ha) in Hc as (bs & rest & Hd & (-> & Hle) & ->).
    exists (take 80 block), rest. cbn [cur_bytes] in Hle. rewrite length_take.
    split_and!; [lia| |lia|lia|done]. by rewrite <- Hd, take_drop.
  - intros (header & rest & Hh & Hblock & Hn & ->).
    assert (80 ≤ length block)%nat by (rewrite Hblock, length_app; lia).
    rewrite (proj2 (Z.leb_le _ _)) by lia. cbn [ensure mbind result_bind].
    pose proof (at_bytes_new block 80 Hmax ltac:(lia)) as Ha.
    assert (drop 80 block = compact_size n ++ rest) as Hd
      by (rewrite Hblock; by apply drop_app_length').
    rewrite Hd in Ha. change (Z.of_nat 80) with 80 in Ha. destruct (scan_step count _ _ _ _ n scans_count Ha) as [-> _]; [cbn [cur_bytes]; split; [done|lia]|].
    cbn [context map_err mbind result_bind]. by rewrite (proj2 (Z.ltb_lt _ _)) by lia.
Qed.

(** [walk_transaction] over the rest of a block. *)
Lemma walk_exact bytes layout :
  Z.of_nat (length bytes) ≤ int_max Usize →
  walk_transaction bytes = Ok layout ↔
  ∃ t rest, wf_wire t ∧ bytes = wire_bytes t ++ rest ∧ layout = wire_layout t.
Proof.
  intros Hmax. split; [by apply walk_inv|]. intros (t & rest & Hw & -> & ->). by apply walk_wire.
Qed.

Lemma tail_get_drop (l : list byte) offset :
  0 ≤ offset ≤ Z.of_nat (length l) → tail_get l offset = Some (drop (Z.to_nat offset) l).
Proof.
  intros Ho. unfold tail_get, slice_get. rewrite !(proj2 (Z.leb_le _ _)) by lia. cbn [andb].
  f_equal. apply take_ge. rewrite length_drop. lia.
Qed.

Lemma leaf_step_Ok block n offset leaves i offset' leaves' :
  Z.of_nat (length block) ≤ int_max Usize → 0 ≤ offset ≤ Z.of_nat (length block) →
  leaf_step block n (offset, leaves) i = Ok (offset', leaves') ↔
  ∃ t rest, wf_wire t ∧ drop (Z.to_nat offset) block = wire_bytes t ++ rest ∧
    offset' = offset + Z.of_nat (length (wire_bytes t)) ∧
    leaves' = leaves ++ witness_merkle_leaves_hex (if (0 <? i)%nat then [wire_bytes t] else []).
Proof.
  intros Hmax Ho. unfold leaf_step. rewrite (tail_get_drop _ _ Ho). cbn [ok_or mbind result_bind].
  set (rest0 := drop (Z.to_nat offset) block).
  assert (length rest0 = (length block - Z.to_nat offset)%nat) as Hl0 by apply length_drop.
  assert (∀ t rest, wf_wire t → rest0 = wire_bytes t ++ rest →
    (leaves ← (if (0 <? i)%nat then
                 tx ← slice_at rest0 0 (tl_len (wire_layout t));
                 Ok (leaves ++ [hex_encode (double_sha256 tx)])
               else Ok leaves);
     offset ← arith Usize (offset + tl_len (wire_layout t));
     @Ok anyhow _ (offset, leaves)) =
    Ok (offset + Z.of_nat (length (wire_bytes t)),
        leaves ++ witness_merkle_leaves_hex (if (0 <? i)%nat then [wire_bytes t] else []))) as Hstep.
  { intros t rest Hw Hr. rewrite (wire_layout_len _ Hw). pose proof Hl0 as Hl1. rewrite Hr, length_app in Hl1.
    unfold arith. rewrite checked_fits by widths. unfold slice_at. rewrite Hr.
    rewrite slice_get_prefix by done.
    destruct (0 <? i)%nat; cbn; [done|by rewrite app_nil_r]. }
  split.
  - intros Hs. apply bind_Ok in Hs as (layout & Hwalk%context_Ok & Hs).
    apply walk_exact in Hwalk as (t & rest & Hw & Hr & ->); [|lia].
    rewrite (Hstep t rest Hw Hr) in Hs. injection Hs as <- <-. eauto 10.
  - intros (t & rest & Hw & Hr & -> & ->).
    rewrite (proj2 (walk_exact rest0 (wire_layout t) ltac:(lia)));
      [cbn [context map_err mbind result_bind]; by apply (Hstep t rest)|eauto 10].
Qed.

(** The loop over [k] transactions from [offset]. *)
Lemma leaf_loop block n k i offset leaves offset' leaves' :
  Z.of_nat (length block) ≤ int_max Usize → 0 ≤ offset ≤ Z.of_nat (length block) →
  try_fold (leaf_step block n) (offset, leaves) (seq i k) = Ok (offset', leaves') ↔
  ∃ ts rest, length ts = k ∧ Forall wf_wire ts ∧
    drop (Z.to_nat offset) block = (ts ≫= wire_bytes) ++ rest ∧
    offset' = offset + Z.of_nat (length (ts ≫= wire_bytes)) ∧
    leaves' = leaves ++ witness_merkle_leaves_hex (wire_bytes <$> (if (0 <? i)%nat then ts else tail ts)).
Proof.
  intros Hmax. revert i offset leaves. induction k as [|k IH]; intros i offset leaves Ho; cbn [seq try_fold].
  { unfold witness_merkle_leaves_hex. split.
    - intros [= <- <-]. exists [], (drop (Z.to_nat offset) block).
      split_and!; [done..|cbn; lia|destruct (0 <? i)%nat; cbn [fmap list_fmap tail]; by rewrite app_nil_r].
    - intros ([|t ts] & rest & Hlen & _ & _ & -> & ->); [|discriminate Hlen].
      rewrite Z.add_0_r. destruct (0 <? i)%nat; cbn [fmap list_fmap tail]; by rewrite app_nil_r. }
  assert (∀ t rest, drop (Z.to_nat offset) block = wire_bytes t ++ rest →
    0 ≤ offset + Z.of_nat (length (wire_bytes t)) ≤ Z.of_nat (length block) ∧
    drop (Z.to_nat (offset + Z.of_nat (length (wire_bytes t)))) block = rest) as Hnext.
  { intros t rest Hd. pose proof (f_equal length Hd) as Hl. rewrite length_drop, length_app in Hl.
    split; [lia|]. rewrite Z2Nat.inj_add, Nat2Z.id by lia. rewrite <- drop_drop, Hd. apply drop_app_length. }
  rewrite bind_Ok. split.
  - intros ([o1 l1] & H1 & H2). apply leaf_step_Ok in H1 as (t & rest & Hw & Hd & -> & ->); [|done..].
    destruct (Hnext t rest Hd) as [Ho1 Hd1]. apply (IH (S i)) in H2 as (ts & rest' & Hlen & Hts & Hd2 & -> & ->); [|done].
    exists (t :: ts), rest'. rewrite bind_cons, length_app, <- app_assoc, <- Hd2, Hd1.
    split_and!; [cbn; lia|by constructor|done|lia|].
    unfold witness_merkle_leaves_hex. rewrite <- app_assoc. by destruct i.
  - intros ([|t ts] & rest & Hlen & Hts & Hd & -> & ->); [discriminate Hlen|].
    apply Forall_cons in Hts as [Hw Hts]. rewrite bind_cons, <- app_assoc in Hd.
    destruct (Hnext t _ Hd) as [Ho1 Hd1]. eexists (_, _). split.
    + apply leaf_step_Ok; [done..|]. exists t, ((ts ≫= wire_bytes) ++ rest). done.
    + apply (IH (S i)); [done|]. exists ts, rest. rewrite bind_cons, length_app.
      split_and!; [cbn in Hlen; lia|done|done|lia|].
      unfold witness_merkle_leaves_hex. rewrite <- app_assoc. by destruct i.
Qed.

Lemma block_bytes_count header ts :
  Z.of_nat (length (block_bytes header ts)) ≤ int_max Usize →
  length header = 80%nat → ts ≠ [] → Forall wf_wire ts →
  let n := Z.of_nat (length ts) in
  block_count (block_bytes header ts) = Ok (n, {| cur_bytes := block_bytes header ts;
    cur_offset := 80 + Z.of_nat (length (compact_size n)) |}) ∧
  Z.of_nat (length (block_bytes header ts)) =
    80 + Z.of_nat (length (compact_size n)) + Z.of_nat (length (ts ≫= wire_bytes)).
Proof.
  intros Hmax Hh Hne Hts n.
  assert (length ts ≤ length (ts ≫= wire_bytes))%nat as Hge.
  { apply bind_length_ge. intros t Ht. rewrite Forall_forall in Hts. pose proof (wire_bytes_length t (Hts t Ht)). lia. }
  assert (length (block_bytes header ts) = 80 + length (compact_size n) + length (ts ≫= wire_bytes))%nat as Hlen
    by (unfold block_bytes; fold n; rewrite !length_app; lia).
  assert (length ts ≠ 0)%nat by (destruct ts; [done|cbn; lia]).
  split; [|lia]. apply block_count_Ok; [done|]. exists header, (ts ≫= wire_bytes). split_and!; [done..|lia|lia|done].
Qed.

(** A block's witness leaves: every transaction but the first, hashed whole. *)
Lemma leaves_exact block leaves :
  Z.of_nat (length block) ≤ int_max Usize →
  witness_merkle_leaves_from_block block = Ok leaves ↔
  ∃ header ts, length header = 80%nat ∧ ts ≠ [] ∧ Forall wf_wire ts ∧
    block = block_bytes header ts ∧ leaves = witness_merkle_leaves_hex (wire_bytes <$> tail ts).
Proof.
  intros Hmax. unfold witness_merkle_leaves_from_block. rewrite bind_Ok. split.
  - intros ([n c] & Hc & Hl). apply block_count_Ok in Hc as (header & rest & Hh & Hblock & Hn & ->); [|done].
    apply bind_Ok in Hl as ([offset' leaves'] & Hloop & Hl). apply bind_Ok in Hl as (_ & Heq%ensure_Ok%Z.eqb_eq & [= ->]).
    cbn [cur_offset] in Hloop.
    assert (length block = 80 + length (compact_size n) + length rest)%nat as Hlen by (rewrite Hblock, !length_app; lia).
    apply leaf_loop in Hloop as (ts & rest' & Hk & Hts & Hd & -> & ->); [|done|lia].
    assert (drop (Z.to_nat (80 + Z.of_nat (length (compact_size n)))) block = rest) as Hr.
    { rewrite Hblock, app_assoc. apply drop_app_length'. rewrite length_app. lia. }
    rewrite Hr in Hd. pose proof (f_equal length Hd) as Hlr. rewrite length_app in Hlr.
    destruct rest' as [|b rest']; [|cbn in Hlr; lia]. rewrite app_nil_r in Hd.
    exists header, ts. split_and!; [done|intros ->; cbn in Hk; lia|done| |done].
    unfold block_bytes. rewrite <- Hd, Hk, Z2Nat.id by lia. done.
  - intros (header & ts & Hh & Hne & Hts & -> & ->).
    destruct (block_bytes_count header ts) as [Hcount Hlen]; [done..|].
    eexists. split; [exact Hcount|]. cbn [cur_offset]. rewrite bind_Ok. eexists (_, _). split.
    + apply leaf_loop; [done|lia|]. exists ts, []. split_and!; [lia|done| |done|done].
      unfold block_bytes. rewrite app_nil_r, app_assoc. apply drop_app_length'. rewrite length_app. lia.
    + rewrite (proj2 (Z.eqb_eq _ _)) by lia. done.
Qed.

Lemma coinbase_from_block_bytes header t ts :
  Z.of_nat (length (block_bytes header (t :: ts))) ≤ int_max Usize →
  length header = 80%nat → Forall wf_wire (t :: ts) →
  coinbase_from_block (block_bytes header (t :: ts)) = Ok (wire_bytes t).
Proof.
  intros Hmax Hh Hts. unfold coinbase_from_block.
  destruct (block_bytes_count header (t :: ts)) as [-> Hlen]; [done..|]. cbn [mbind result_bind cur_offset].
  rewrite tail_get_drop by lia. cbn [ok_or mbind result_bind].
  unfold block_bytes. rewrite app_assoc, drop_app_length', bind_cons by (rewrite length_app; lia).
  rewrite bind_cons, length_app in Hlen. apply Forall_cons in Hts as [Hw _].
  rewrite (walk_wire _ _ Hw) by (rewrite length_app; lia). cbn [context map_err mbind result_bind].
  unfold slice_at. by rewrite slice_get_prefix by apply (wire_layout_len _ Hw).
Qed.
End blocks.

(** * Rolling the extranonce *)
(** The transaction with another scriptSig in its one input, and without its
    witness. *)
Definition with_script (t : WireTx) (i : WireIn) (script : list byte) : WireTx :=
  {| wt_version := wt_version t;
     wt_ins := [{| wi_prevout := wi_prevout i; wi_script := script; wi_sequence := wi_sequence i |}];
     wt_outs := wt_outs t; wt_witness := wt_witness t; wt_locktime := wt_locktime t |}.
Definition drop_witness (t : WireTx) : WireTx :=
  {| wt_version := wt_version t; wt_ins := wt_ins t; wt_outs := wt_outs t; wt_witness := None;
     wt_locktime := wt_locktime t |}.

(** The bytes before and after a script that is [s] followed by [e]. *)
Definition script_head (t : WireTx) (i : WireIn) (s : list byte) (n : nat) : list byte :=
  wt_version t ++ wire_marker t ++ compact_size 1 ++ wi_prevout i ++
  compact_size (Z.of_nat (length s + n)) ++ s.
Definition script_tail (t : WireTx) (i : WireIn) : list byte :=
  wi_sequence i ++ compact_size (Z.of_nat (length (wt_outs t))) ++ (wt_outs t ≫= wire_out_bytes) ++
  wire_witness t ++ wt_locktime t.

Lemma with_script_self t i : wt_ins t = [i] → with_script t i (wi_script i) = t.
Proof. destruct t, i. cbn. by intros ->. Qed.

Lemma with_script_bytes t i s e :
  wire_bytes (with_script t i (s ++ e)) = script_head t i s (length e) ++ e ++ script_tail t i.
Proof.
  unfold wire_bytes, with_script, wire_body, script_head, script_tail, wire_in_bytes, item_bytes.
  cbn [wt_version wt_ins wt_outs wt_witness wt_locktime length].
  rewrite bind_singleton. cbn [wi_prevout wi_script wi_sequence].
  rewrite length_app, <- !app_assoc. done.
Qed.

Lemma with_script_wf t i script : wf_wire t → wt_ins t = [i] → wf_wire (with_script t i script).
Proof.
  intros [Hv _ Hins Houts Hst Hl] Hi. rewrite Hi in Hins, Hst. apply Forall_cons in Hins as [Hins _].
  constructor; [exact Hv|discriminate|apply Forall_singleton; exact Hins|exact Houts|exact Hst|exact Hl].
Qed.
Lemma drop_witness_wf t : wf_wire t → wf_wire (drop_witness t).
Proof. intros [Hv Hne Hins Houts _ Hl]. by constructor. Qed.
Lemma drop_witness_bytes t : wire_bytes (drop_witness t) = wire_stripped t.
Proof. done. Qed.
Lemma drop_witness_script t i script :
  drop_witness (with_script t i script) = with_script (drop_witness t) i script.
Proof. done. Qed.

(** The cursor after the marker. *)
Lemma skip_marker_wire t :
  wf_wire t → Z.of_nat (length (wire_bytes t)) ≤ int_max Usize →
  ∃ c, skip_marker (wire_bytes t) = Ok c ∧ cur_bytes c = wire_bytes t ∧
    cur_offset c = 4 + Z.of_nat (length (wire_marker t)) ∧
    at_bytes c (wire_body t ++ wire_witness t ++ wt_locktime t).
Proof.
  intros Hw Hmax. pose proof (wire_bytes_length _ Hw) as Hlen.
  pose proof (marked_wire _ [] Hw) as Hmark. rewrite app_nil_r in Hmark.
  destruct (byte_at_marked (wire_bytes t)) as (m & f & Hm & Hf & Hmf); [lia|].
  unfold skip_marker. rewrite Hm, Hf. cbn [mbind result_bind]. rewrite <- Hmf, Hmark.
  assert (at_bytes {| cur_bytes := wire_bytes t; cur_offset := 4 |}
    (wire_marker t ++ wire_body t ++ wire_witness t ++ wt_locktime t)) as Hc.
  { replace (_ ++ _ ++ _ ++ _) with (drop 4 (wire_bytes t));
      [apply (at_bytes_new _ 4); [done|lia]|].
    unfold wire_bytes. apply drop_app_length'. symmetry. apply Hw. }
  unfold wire_marker in *. destruct (wt_witness t) as [stacks|].
  - rewrite bool_decide_true by done.
    destruct (scan_step (cursor_take 2) _ _ _ _ [Byte.x00; Byte.x01] (scans_take 2 ltac:(lia)) Hc) as [-> Hc']; [done|].
    eexists. split_and!; [done..|exact Hc'].
  - rewrite bool_decide_false by (by intros [? ?]). eexists. split_and!; [done..|exact Hc].
Qed.

Lemma ends_with_inv l suffix : ends_with l suffix = true → ∃ s, l = s ++ suffix.
Proof.
  unfold ends_with. rewrite andb_true_iff, bool_decide_eq_true. intros [_ Hd].
  exists (take (length l - length suffix) l). by rewrite <- Hd at 2; rewrite take_drop.
Qed.

(** The next scan, when it went through. *)
Lemma scan_next {A} (m : cursor A) P c bs rest a a' c' :
  scans m P → m c = Ok (a', c') → at_bytes c (bs ++ rest) →
  P (Z.of_nat (length (cur_bytes c))) a bs →
  a' = a ∧ c' = advance c (Z.of_nat (length bs)) ∧ at_bytes c' rest.
Proof.
  intros Hm Hr Hc Hp. destruct (scan_step _ _ _ _ _ _ Hm Hc Hp) as [Hr' Ha].
  rewrite Hr in Hr'. simplify_eq. done.
Qed.

Lemma wire_ins_count t :
  wf_wire t → (length (wt_ins t) ≤ length (wire_bytes t))%nat.
Proof.
  intros Hw. pose proof (bind_length_ge wire_in_bytes (wt_ins t)) as Hge.
  pose proof (ww_ins _ Hw) as Hins. rewrite Forall_forall in Hins.
  specialize (Hge (fun x Hx => wire_in_nonempty x (Hins x Hx))).
  unfold wire_bytes, wire_body. rewrite !length_app. lia.
Qed.

(** From the marker to the end of the scriptSig of a one-input transaction. *)
Lemma scan_script t c n c1 prevout c2 m c3 script c4 :
  wf_wire t → cur_bytes c = wire_bytes t → at_bytes c (wire_body t ++ wire_witness t ++ wt_locktime t) →
  count c = Ok (n, c1) → n = 1 → cursor_take 36 c1 = Ok (prevout, c2) →
  count c2 = Ok (m, c3) → cursor_take m c3 = Ok (script, c4) →
  ∃ i, wt_ins t = [i] ∧ prevout = wi_prevout i ∧ script = wi_script i ∧
    c4 = advance c (Z.of_nat (length (compact_size 1 ++ wi_prevout i ++ item_bytes (wi_script i)))).
Proof.
  intros Hw Hbytes Ha Hn -> Hp Hm Hs. unfold wire_body in Ha. rewrite <- !app_assoc in Ha.
  destruct (scan_next count _ _ _ _ (Z.of_nat (length (wt_ins t))) _ _ scans_count Hn Ha)
    as (Hlen & -> & Ha1); [rewrite Hbytes; pose proof (wire_ins_count t Hw); split; [done|lia]|].
  destruct (wt_ins t) as [|i [|]] eqn:Hi; cbn [length] in Hlen; [lia| |lia].
  pose proof (ww_ins _ Hw) as Hins. rewrite Hi in Hins. apply Forall_cons in Hins as [[Hprev _] _].
  rewrite bind_singleton in Ha1. unfold wire_in_bytes in Ha1. rewrite <- !app_assoc in Ha1.
  destruct (scan_next (cursor_take 36) _ _ _ _ (wi_prevout i) _ _ (scans_take 36 ltac:(lia)) Hp Ha1)
    as (-> & -> & Ha2); [split; [done|lia]|].
  unfold item_bytes in Ha2. rewrite <- !app_assoc in Ha2.
  assert (length (wi_script i) ≤ length (wire_bytes t))%nat as Hscript.
  { unfold wire_bytes, wire_body. rewrite Hi, bind_singleton. unfold wire_in_bytes, item_bytes. rewrite !length_app. lia. }
  destruct (scan_next count _ _ _ _ (Z.of_nat (length (wi_script i))) _ _ scans_count Hm Ha2)
    as (-> & -> & Ha3); [cbn [advance cur_bytes]; rewrite Hbytes; split; [done|lia]|].
  destruct (scan_next (cursor_take _) _ _ _ _ (wi_script i) _ _
    (scans_take (Z.of_nat (length (wi_script i))) ltac:(lia)) Hs Ha3) as (-> & -> & _); [done|].
  exists i. split_and!; [done..|]. unfold item_bytes. rewrite !advance_add, !length_app. f_equal.
  change ctv_compact_size with compact_size. change (Z.of_nat (length [i])) with 1. lia.
Qed.

Lemma split_inv t placeholder prefix suffix :
  wf_wire t → Z.of_nat (length (wire_bytes t)) ≤ int_max Usize →
  split_coinbase_extranonce (wire_bytes t) placeholder = Ok (prefix, suffix) →
  ∃ i s, wt_ins t = [i] ∧ wi_script i = s ++ placeholder ∧
    prefix = script_head t i s (length placeholder) ∧ suffix = script_tail t i.
Proof.
  intros Hw Hmax Hs. unfold split_coinbase_extranonce in Hs.
  destruct (skip_marker_wire _ Hw Hmax) as (c & Hskip & Hbytes & Hoff & Ha). rewrite Hskip in Hs.
  apply bind_Ok in Hs as (_ & _ & Hs). cbn [mbind result_bind] in Hs.
  apply bind_Ok in Hs as ([n c1] & Hn & Hs). apply bind_Ok in Hs as (_ & H1%ensure_Ok%Z.eqb_eq & Hs).
  apply bind_Ok in Hs as ([prevout c2] & Hp & Hs).
  apply bind_Ok in Hs as (txid & _ & Hs). apply bind_Ok in Hs as (vout & _ & Hs). apply bind_Ok in Hs as (_ & _ & Hs).
  apply bind_Ok in Hs as ([m c3] & Hm & Hs). apply bind_Ok in Hs as ([script c4] & Hscr & Hs).
  destruct (scan_script _ _ _ _ _ _ _ _ _ _ Hw Hbytes Ha Hn H1 Hp Hm Hscr) as (i & Hi & -> & -> & ->).
  apply bind_Ok in Hs as (_ & He%ensure_Ok & Hs). apply ends_with_inv in He as [s He].
  exists i, s. split; [done|]. split; [done|].
  rewrite <- (with_script_self _ _ Hi), He, with_script_bytes in Hs. cbn [advance cur_offset] in Hs.
  rewrite Hoff in Hs. set (e := placeholder) in *.
  assert (4 + Z.of_nat (length (wire_marker t)) +
    Z.of_nat (length (compact_size 1 ++ wi_prevout i ++ item_bytes (s ++ e))) =
    Z.of_nat (length (script_head t i s (length e)) + length e)) as Hoff'.
  { unfold script_head, item_bytes. rewrite !length_app, (ww_version _ Hw). change ctv_compact_size with compact_size. lia. }
  rewrite Hoff' in Hs. apply bind_Ok in Hs as (start & [Hst _]%expect_Ok%checked_Some & Hs).
  apply bind_Ok in Hs as (p & Hpre%expect_Ok & Hs). apply bind_Ok in Hs as (q & Hsuf%expect_Ok & [= <- <-]).
  rewrite slice_get_prefix in Hpre by lia. injection Hpre as <-. split; [done|].
  rewrite app_assoc, <- (app_nil_r (script_tail t i)), slice_get_app in Hsuf by (rewrite !length_app; cbn; lia).
  by injection Hsuf.
Qed.

(** [walk_transaction] accepts exactly the buffers that start with a
    well-formed transaction, in either serialisation, with canonical counts and
    at least one input; the layout it returns is where the parts of that
    transaction sit, whatever follows it.  Its bound of counts by the buffer
    size and its overflow checks refuse nothing else. *)
Theorem walk_transaction_exact bytes layout :
  Z.of_nat (length bytes) ≤ int_max Usize →
  walk_transaction bytes = Ok layout ↔
  ∃ t rest, wf_wire t ∧ bytes = wire_bytes t ++ rest ∧ layout = wire_layout t.
Proof. apply walk_exact. Qed.

(** The server's witness stripping agrees with the fanout module's parser:
    on every transaction that parser accepts it returns the same txid preimage,
    except that it refuses a witness flag other than 1, which the parser lets
    through. *)
Theorem strip_agrees_with_parser `{HexCrate, !HexLaws} bytes name tx :
  Z.of_nat (length bytes) ≤ int_max Usize → parse_transaction bytes name = Ok tx →
  strip_witness_transaction bytes =
  if bool_decide (is_Some (ptx_witness_stacks tx)) && negb (bool_decide (bytes !! 5%nat = Some Byte.x01))
  then Err ["unsupported witness transaction flags"]
  else Ok (ptx_tx_without_witness tx).
Proof. apply strip_parsed. Qed.
