(* ===== verification/TargetFacts.v ===== *)
(** Proof-of-work targets (crates/qbit-prism-server/src/codec.rs): the compact
    form denotes the number it should, and a share target is the exact quotient
    of the difficulty-1 target by the advertised binary64 difficulty. *)
From Stdlib Require Import ZArith Lia SpecFloat.
From Stdlib Require String.
From stdpp Require Import base numbers list strings.
From S2P Require Import Prelude F64 Codec CodecFacts.

Open Scope Z_scope.

(** * Bits of a binary64 *)
Lemma land_ones_small z n : 0 ≤ n → 0 ≤ z < 2 ^ n → Z.land z (2 ^ n - 1) = z.
Proof.
  intros Hn Hz. replace (2 ^ n - 1) with (Z.ones n) by (rewrite Z.ones_equiv; lia).
  rewrite Z.land_ones by done. by apply Z.mod_small.
Qed.

Lemma lor_high z n : 0 ≤ n → 0 ≤ z < 2 ^ n → Z.lor z (2 ^ n) = z + 2 ^ n.
Proof.
  intros Hn Hz. assert (Z.land z (2 ^ n) = 0) as Hland.
  { apply Z.bits_inj'. intros k Hk. rewrite Z.land_spec, Z.bits_0, Z.pow2_bits_eqb by done.
    destruct (Z.eqb_spec n k) as [->|]; [|apply andb_false_r].
    rewrite <- (Z.mod_small z (2 ^ k)) by done. rewrite Z.mod_pow2_bits_high by lia. done. }
  rewrite <- (Z.lxor_lor _ _ Hland). symmetry. by apply Z.add_nocarry_lxor.
Qed.

(** The exponent and mantissa fields of a positive number, as the code takes
    them out of its bits. *)
Lemma to_bits_fields m e :
  valid_f64 (S754_finite false m e) = true →
  let bits := to_bits (S754_finite false m e) in
  let raw_exponent := Z.land (Z.shiftr bits 52) 0x7ff in
  Z.lor (Z.land bits (2 ^ 52 - 1)) (if raw_exponent =? 0 then 0 else 2 ^ 52) = Z.pos m ∧
  (if raw_exponent =? 0 then -1074 else raw_exponent - 1023 - 52) = e.
Proof.
  intros Hv. cbn [to_bits sign_bit]. rewrite Z.shiftr_div_pow2 by done.
  change 0x7ff with (2 ^ 11 - 1).
  destruct (valid_f64_finite _ _ _ Hv) as [[Hm He]|[Hm He]].
  - rewrite (proj2 (Z.ltb_ge _ _)) by lia. set (f := Z.pos m - 2 ^ 52).
    rewrite Z.add_0_l, (Z.div_add_l (e + 1075) (2 ^ 52) f), (Z.div_small f) by (subst f; lia).
    rewrite Z.add_0_r, (land_ones_small (e + 1075) 11) by lia. rewrite (proj2 (Z.eqb_neq _ _)) by lia.
    replace (2 ^ 52 - 1) with (Z.ones 52) by done. rewrite Z.land_ones by done.
    rewrite (Z.add_comm _ f), Z.mod_add, Z.mod_small by (subst f; lia).
    rewrite lor_high by (subst f; lia). subst f. lia.
  - rewrite (proj2 (Z.ltb_lt _ _)) by lia. rewrite Z.add_0_l, Z.div_small by lia.
    rewrite land_ones_small by lia. rewrite land_ones_small by lia. cbn. split; [apply Z.lor_0_r|done].
Qed.

(** The target of difficulty 1. *)
Definition difficulty_1_target : Z := 0xffff * 2 ^ 208.
Lemma difficulty_1_compact : target_from_compact 0x1d00ffff = Ok difficulty_1_target.
Proof. reflexivity. Qed.

(** [m * 2 ^ e] as a fraction. *)
Lemma difficulty_target_finite m e :
  valid_f64 (S754_finite false m e) = true →
  difficulty_target (S754_finite false m e) =
  Ok (Z.min (Z.max (difficulty_1_target * 2 ^ Z.max 0 (- e) / (Z.pos m * 2 ^ Z.max 0 e)) 1) (2 ^ 256 - 1)).
Proof.
  intros Hv. destruct (to_bits_fields m e Hv) as [Hm He]. unfold difficulty_target.
  cbn [is_finite f64_gt f64_zero SFltb SFcompare andb ensure mbind result_bind].
  rewrite Hm, He, difficulty_1_compact. cbn [mbind result_bind].
  destruct (Z.ltb_spec e 0).
  - rewrite Z.shiftl_mul_pow2, (Z.max_r 0 (- e)), (Z.max_l 0 e), Z.pow_0_r, Z.mul_1_r by lia. done.
  - rewrite Z.shiftl_mul_pow2, (Z.max_l 0 (- e)), (Z.max_r 0 e), Z.pow_0_r, Z.mul_1_r by lia.
    rewrite (proj2 (Z.eqb_neq _ _)); [done|]. pose proof (Z.pow_pos_nonneg 2 e). lia.
Qed.

(** C29: a share target is exact: for every positive binary64 difficulty
    [m * 2^e], [difficulty_target] returns, and a 256-bit hash above 1 is within
    the target exactly when hash times difficulty is at most the difficulty-1
    target, with no rounding; a difficulty that is zero, negative, infinite or
    NaN is refused. *)
Theorem difficulty_target_exact d :
  valid_f64 d = true →
  match d with
  | S754_finite false m e =>
      ∃ target, difficulty_target d = Ok target ∧ 1 ≤ target < 2 ^ 256 ∧
        ∀ hash, 1 < hash < 2 ^ 256 →
          hash ≤ target ↔
          hash * (Z.pos m * 2 ^ Z.max 0 e) ≤ difficulty_1_target * 2 ^ Z.max 0 (- e)
  | _ => difficulty_target d = Err ["difficulty must be positive and finite"]
  end.
Proof.
  intros Hv. destruct d as [s|s| |[] m e]; try done. eexists. split; [by apply difficulty_target_finite|].
  set (num := difficulty_1_target * _). set (den := Z.pos m * _).
  assert (0 < den) by (subst den; pose proof (Z.pow_pos_nonneg 2 (Z.max 0 e)); nia).
  split; [lia|]. intros hash Hh.
  rewrite (Z.mul_comm hash). transitivity (hash ≤ num / den); [lia|]. split.
  - intros Hle. pose proof (Z.mul_div_le num den ltac:(lia)). nia.
  - intros Hle. by apply Z.div_le_lower_bound.
Qed.

Lemma difficulty_target_exact_witness :
  ∃ target, difficulty_target (S754_finite false 0x10000000000001 (-52)) = Ok target ∧
    (2 ^ 223 ≤ target ↔ 2 ^ 223 * 0x10000000000001 ≤ difficulty_1_target * 2 ^ 52).
Proof.
  destruct (difficulty_target_exact (S754_finite false 0x10000000000001 (-52)) eq_refl)
    as (target & Ht & _ & Hexact).
  exists target. split; [exact Ht|]. rewrite (Hexact (2 ^ 223) ltac:(split; reflexivity)). reflexivity.
Defined.

(** * Compact targets *)
(** [mantissa * 256 ^ (size - 3)], rounded down. *)
Lemma target_from_compact_value bits target :
  0 ≤ bits → target_from_compact bits = Ok target →
  let mantissa := bits mod 2 ^ 23 in
  let size := bits / 2 ^ 24 in
  1 ≤ target < 2 ^ 256 ∧ target = mantissa * 2 ^ (8 * size) / 2 ^ 24 ∧ size ≤ 34.
Proof.
  intros Hb Ht mantissa size. unfold target_from_compact in Ht.
  rewrite Z.shiftr_div_pow2 in Ht by done. fold size in Ht.
  change 0x7fffff with (Z.ones 23) in Ht. rewrite Z.land_ones in Ht by done. fold mantissa in Ht.
  assert (0 ≤ size) by (apply Z.div_pos; lia).
  assert (0 ≤ mantissa < 2 ^ 23) by (apply Z.mod_pos_bound; lia).
  apply bind_Ok in Ht as (_ & _ & Ht). apply bind_Ok in Ht as (_ & Hs%ensure_Ok%Z.leb_le & Ht).
  apply bind_Ok in Ht as (_ & Hv%ensure_Ok & [= <-]). apply andb_true_iff in Hv as [Hv0%negb_true_iff%Z.eqb_neq Hv1%Z.leb_le].
  assert ((if size <=? 3 then Z.shiftr mantissa (8 * (3 - size)) else Z.shiftl mantissa (8 * (size - 3))) =
    mantissa * 2 ^ (8 * size) / 2 ^ 24) as Heq.
  { destruct (Z.leb_spec size 3).
    - rewrite Z.shiftr_div_pow2 by lia. replace (2 ^ 24) with (2 ^ (8 * (3 - size)) * 2 ^ (8 * size)).
      + by rewrite Z.div_mul_cancel_r by (apply Z.pow_nonzero; lia).
      + rewrite <- Z.pow_add_r by lia. f_equal. lia.
    - rewrite Z.shiftl_mul_pow2 by lia. replace (8 * size) with (8 * (size - 3) + 24) by lia.
      rewrite Z.pow_add_r by lia. by rewrite Z.mul_assoc, Z.div_mul by done. }
  rewrite Heq in *. set (v := mantissa * _ / _) in *.
  assert (0 ≤ v) by (apply Z.div_pos; [apply Z.mul_nonneg_nonneg; [lia|apply Z.pow_nonneg; lia]|done]).
  split_and!; [lia| |done|done]. apply Z.log2_lt_pow2; lia.
Qed.
