(* ===== verification/MiningJob.v ===== *)
(** Mining jobs (crates/qbit-prism-server/src/codec.rs): the fields read from a
    block template, the job made of a payout manifest, its reassignment to a
    connection, the notification sent to a miner, and the assembly of a
    submission into a header and a block. *)
From Stdlib Require Import ZArith Lia.
From Stdlib Require Import Ascii.
From Stdlib Require String.
From coqutil Require Import Byte Word.LittleEndianList.
From stdpp Require Import base list strings pretty.
From S2P Require Import Prelude Order Bytes Crates PoolBuilder CoinbaseTx PayoutManifest PrismError CtvTx F64 Codec.

Open Scope Z_scope.

(** * Template fields

    [serde_json::Value], by the methods the code calls on it. *)
Class JsonValue := {
  Value : Type;
  value_get : Value -> string -> option Value;
  value_index : Value -> string -> Value;
  is_number : Value -> bool;
  as_str : Value -> option string;
  as_u64 : Value -> option Z;
  as_i64 : Value -> option Z;
  as_array : Value -> option (list Value);
  json_null : Value;
  json_bool : bool -> Value;
  json_string : string -> Value;
  json_array : list Value -> Value;
  json_object : list (string * Value) -> Value;
}.

Definition hexdigit (c : Ascii.ascii) : option Z :=
  let n := Z.of_N (Ascii.N_of_ascii c) in
  if (48 <=? n) && (n <=? 57) then Some (n - 48)
  else if (97 <=? n) && (n <=? 102) then Some (n - 87)
  else if (65 <=? n) && (n <=? 70) then Some (n - 55)
  else None.
Definition is_ascii_hexdigit (c : Ascii.ascii) : bool := bool_decide (is_Some (hexdigit c)).
Fixpoint all_hexdigits (s : string) : bool :=
  match s with
  | EmptyString => true
  | String c s => is_ascii_hexdigit c && all_hexdigits s
  end.

(** [u32::from_str_radix(_, 16)]: an optional plus sign, then digits. *)
Fixpoint u32_digits (acc : Z) (s : string) : result anyhow Z :=
  match s with
  | EmptyString => Ok acc
  | String c s =>
      d ← ok_or (hexdigit c) ["invalid digit found in string"];
      acc ← ok_or (checked U32 (acc * 16 + d)) ["number too large to fit in target type"];
      u32_digits acc s
  end.
Definition u32_from_str_radix_16 (s : string) : result anyhow Z :=
  match s with
  | EmptyString => Err ["cannot parse integer from empty string"]
  | String "+"%char (String _ _ as rest) => u32_digits 0 rest
  | _ => u32_digits 0 s
  end.

Definition parse_u32_hex (value : string) : result anyhow Z :=
  _ ← ensure ((Z.of_nat (String.length value) =? 8) && all_hexdigits value)
        "expected a 4-byte hex string";
  u32_from_str_radix_16 value.

(** [TryFromIntError]. *)
Definition try_u32 (z : Z) : result anyhow Z :=
  ok_or (checked U32 z) ["out of range integral type conversion attempted"].

(** [hex::decode(_)?] under anyhow. *)
Definition decode_hex_anyhow `{HexCrate} (s : string) : result anyhow (list byte) :=
  match hex_decode s with inl e => Err [e] | inr bs => Ok bs end.

Section templates.
Context `{JsonValue, HexCrate}.

Definition strip_0x (s : string) : string :=
  match s with String "0"%char (String "x"%char rest) => rest | _ => s end.

Definition version_mask_from_template (template : Value) (fallback : Z) : result anyhow Z :=
  match value_get template "versionrollingmask" with
  | None => Ok fallback
  | Some v =>
      if is_number v then
        n ← ok_or (as_u64 v) ["invalid versionrollingmask"];
        try_u32 n
      else match as_str v with
      | Some s =>
          let s := strip_0x s in
          _ ← ensure (negb (String.eqb s EmptyString) && (Z.of_nat (String.length s) <=? 8) && all_hexdigits s)
                "invalid versionrollingmask";
          u32_from_str_radix_16 s
      | None => Err ["invalid versionrollingmask"]
      end
  end.

Definition transactions_from_template (template : Value) : result anyhow (list (list byte)) :=
  transactions ← match value_get template "transactions" with
                 | None => Ok []
                 | Some v => ok_or (as_array v) ["template transactions must be an array"]
                 end;
  collect (fun t =>
    data ← ok_or (as_str (value_index t "data")) ["transaction data missing"];
    decode_hex_anyhow data) transactions.
End templates.

(** * Jobs *)
Inductive JobKind := Credit | BlockOnly.

Record Job := {
  job_id : string;
  job_previousblockhash : string;
  job_prevhash : string;
  job_coinb1 : string;
  job_coinb2 : string;
  job_full_coinbase_prefix : string;
  job_full_coinbase_suffix : string;
  job_merkle_branch : list (list byte);
  job_transactions : list (list byte);
  job_version : Z;
  job_version_mask : Z;
  job_nbits : Z;
  job_ntime : Z;
  job_mintime : Z;
  job_network_target : Z;
  job_share_target : Z;
  job_share_difficulty : f64;
  job_extranonce1 : string;
  job_extranonce2_size : Z;
  job_clean_jobs : bool;
  job_resume_expires_at : option Z;
  job_refresh_generation : Z;
  job_payout_revision : Z;
  job_kind : JobKind;
}.

Record Submission := {
  sub_coinbase_tx_hex : string;
  sub_header_hex : string;
  sub_block_hex : string;
  sub_block_hash_hex : string;
  sub_share_pass : bool;
  sub_block_pass : bool;
  sub_extranonce2_hex : string;
  sub_ntime : Z;
  sub_nonce : Z;
  sub_applied_version : Z;
}.

(** [for word in bytes.as_chunks_mut::<4>().0 { word.reverse() }]. *)
Fixpoint reverse_words (bs : list byte) : list byte :=
  match bs with
  | a :: b :: c :: d :: rest => d :: c :: b :: a :: reverse_words rest
  | _ => bs
  end.

(** [minimum_difficulty.is_finite() && minimum_difficulty >= 0.0]. *)
Definition valid_floor (minimum_difficulty : f64) : bool :=
  is_finite minimum_difficulty && f64_ge minimum_difficulty f64_zero.

(** The share target of a difficulty: never harder than the network's, never
    easier than the floor's. *)
Definition assigned_target (network_target : Z) (difficulty minimum_difficulty : f64)
  : result anyhow Z :=
  target ← difficulty_target difficulty;
  let share_target := Z.max target network_target in
  if f64_gt minimum_difficulty f64_zero then
    floor ← difficulty_target minimum_difficulty;
    Ok (Z.min share_target floor)
  else Ok share_target.

Section jobs.
Context `{JsonValue, HexCrate, Sha256Crate, BigUintCrate}.

Definition from_manifest (id : string) (template : Value) (manifest : PayoutManifest)
    (extranonce1 : string) (extranonce2_size : Z) (desired_difficulty minimum_difficulty : f64)
    (clean_jobs : bool) : result anyhow Job :=
  _ ← ensure ((0 <? extranonce2_size) && (extranonce2_size <=? 32)) "invalid extranonce2 size";
  _ ← ensure (valid_floor minimum_difficulty) "invalid difficulty floor";
  coinbase ← decode_hex_anyhow (pm_coinbase_tx_hex manifest);
  stripped ← strip_witness_transaction coinbase;
  _ ← ensure (eq_ignore_ascii_case (hash_display (double_sha256 stripped)) (pm_coinbase_txid manifest))
        "manifest coinbase txid mismatch";
  extranonce1_bytes ← decode_hex_anyhow extranonce1;
  let placeholder := extranonce1_bytes ++ replicate (Z.to_nat extranonce2_size) Byte.x00 in
  '(coinb1, coinb2) ← split_coinbase_extranonce stripped placeholder;
  '(full_prefix, full_suffix) ← split_coinbase_extranonce coinbase placeholder;
  transactions ← transactions_from_template template;
  merkle_branch ← merkle_branch_for_coinbase transactions;
  previous ← ok_or (as_str (value_index template "previousblockhash"))
               ["template previousblockhash missing"];
  let previousblockhash := to_ascii_lowercase previous in
  prevhash_bytes ← decode_hex_anyhow previousblockhash;
  _ ← ensure (length prevhash_bytes =? 32)%nat "previousblockhash must be 32 bytes";
  let prevhash_bytes := reverse_words (reverse prevhash_bytes) in
  bits ← ok_or (as_str (value_index template "bits")) ["template bits missing"];
  nbits ← parse_u32_hex bits;
  network_target ← target_from_compact nbits;
  share_target ← assigned_target network_target desired_difficulty minimum_difficulty;
  version ← ok_or (as_i64 (value_index template "version")) ["template version missing"];
  curtime ← ok_or (as_u64 (value_index template "curtime")) ["template curtime missing"];
  ntime ← try_u32 curtime;
  mintime ← try_u32 (default 0 (value_get template "mintime" ≫= as_u64));
  version_mask ← version_mask_from_template template VERSION_ROLLING_MASK;
  share_difficulty ← target_difficulty share_target;
  Ok {| job_id := id; job_previousblockhash := previousblockhash;
        job_prevhash := hex_encode prevhash_bytes;
        job_coinb1 := hex_encode coinb1; job_coinb2 := hex_encode coinb2;
        job_full_coinbase_prefix := hex_encode full_prefix;
        job_full_coinbase_suffix := hex_encode full_suffix;
        job_merkle_branch := merkle_branch; job_transactions := transactions;
        job_version := version mod 2 ^ 32; job_version_mask := version_mask;
        job_nbits := nbits; job_ntime := ntime; job_mintime := mintime;
        job_network_target := network_target; job_share_target := share_target;
        job_share_difficulty := share_difficulty; job_extranonce1 := extranonce1;
        job_extranonce2_size := extranonce2_size; job_clean_jobs := clean_jobs;
        job_resume_expires_at := None; job_refresh_generation := 0; job_payout_revision := 0;
        job_kind := Credit |}.

(** [format!] of a u32 as eight lower-case hex digits. *)
Definition hex8 (z : Z) : string := encode_hex (be_bytes 4 z).

Definition notify (job : Job) : Value :=
  json_object [("id", json_null); ("method", json_string "mining.notify");
    ("params", json_array [json_string (job_id job); json_string (job_prevhash job);
       json_string (job_coinb1 job); json_string (job_coinb2 job);
       json_array ((fun h => json_string (hex_encode h)) <$> job_merkle_branch job);
       json_string (hex8 (job_version job)); json_string (hex8 (job_nbits job));
       json_string (hex8 (job_ntime job)); json_bool (job_clean_jobs job)])].

Definition with_assignment (job : Job) (id extranonce1 : string) (share_target : Z)
    (share_difficulty : f64) : Job :=
  {| job_id := id; job_previousblockhash := job_previousblockhash job;
     job_prevhash := job_prevhash job; job_coinb1 := job_coinb1 job; job_coinb2 := job_coinb2 job;
     job_full_coinbase_prefix := job_full_coinbase_prefix job;
     job_full_coinbase_suffix := job_full_coinbase_suffix job;
     job_merkle_branch := job_merkle_branch job; job_transactions := job_transactions job;
     job_version := job_version job; job_version_mask := job_version_mask job;
     job_nbits := job_nbits job; job_ntime := job_ntime job; job_mintime := job_mintime job;
     job_network_target := job_network_target job; job_share_target := share_target;
     job_share_difficulty := share_difficulty; job_extranonce1 := extranonce1;
     job_extranonce2_size := job_extranonce2_size job; job_clean_jobs := job_clean_jobs job;
     job_resume_expires_at := job_resume_expires_at job;
     job_refresh_generation := job_refresh_generation job;
     job_payout_revision := job_payout_revision job; job_kind := job_kind job |}.

Definition reassign (job : Job) (id extranonce1 : string) (difficulty minimum_difficulty : f64)
  : result anyhow Job :=
  _ ← ensure (String.length extranonce1 =? String.length (job_extranonce1 job))%nat
        "unexpected extranonce1 size";
  _ ← context "invalid extranonce1" (decode_hex_anyhow extranonce1);
  _ ← ensure (valid_floor minimum_difficulty) "invalid difficulty floor";
  share_target ← assigned_target (job_network_target job) difficulty minimum_difficulty;
  share_difficulty ← target_difficulty share_target;
  Ok (with_assignment job id extranonce1 share_target share_difficulty).

(** The version a miner may roll. *)
Definition applied_version (version : Z) (version_bits : option string) (version_mask : Z)
  : result anyhow Z :=
  match version_bits with
  | None => Ok version
  | Some value =>
      bits ← parse_u32_hex value;
      _ ← ensure (Z.land bits (2 ^ 32 - 1 - version_mask) =? 0)
            "version_bits include bits outside negotiated mask";
      Ok (Z.lor (Z.land version (2 ^ 32 - 1 - version_mask)) bits)
  end.

Definition header_bytes (version : Z) (previous merkle : list byte) (ntime nbits nonce : Z)
  : list byte :=
  le_bytes 4 version ++ previous ++ merkle ++ le_bytes 4 ntime ++ le_bytes 4 nbits ++ le_bytes 4 nonce.

Definition assemble_submission (job : Job) (extranonce2 ntime nonce : string)
    (version_bits : option string) (version_mask : Z) : result anyhow Submission :=
  _ ← ensure (Z.of_nat (String.length extranonce2) =? job_extranonce2_size job * 2)
        "unexpected extranonce2 size";
  _ ← context "invalid extranonce2" (decode_hex_anyhow extranonce2);
  ntime ← parse_u32_hex ntime;
  nonce ← parse_u32_hex nonce;
  _ ← ensure (job_mintime job <=? ntime) "ntime precedes template mintime";
  version ← applied_version (job_version job) version_bits version_mask;
  coinbase ← decode_hex_anyhow (job_full_coinbase_prefix job +:+ job_extranonce1 job +:+
                                extranonce2 +:+ job_full_coinbase_suffix job);
  preimage ← decode_hex_anyhow (job_coinb1 job +:+ job_extranonce1 job +:+
                                extranonce2 +:+ job_coinb2 job);
  stripped ← strip_witness_transaction coinbase;
  _ ← ensure (bool_decide (stripped = preimage)) "coinbase witness and txid preimage mismatch";
  let merkle := foldl (fun merkle sibling => double_sha256 (merkle ++ sibling))
                  (double_sha256 preimage) (job_merkle_branch job) in
  previous ← decode_hex_anyhow (job_previousblockhash job);
  let header := header_bytes version (reverse previous) merkle ntime (job_nbits job) nonce in
  _ ← ensure (length header =? 80)%nat "invalid header size";
  let hash := double_sha256 header in
  let hash_int := le_combine hash in
  let block_pass := hash_int <=? job_network_target job in
  let block := if block_pass
               then header ++ codec_compact_size (1 + Z.of_nat (length (job_transactions job))) ++
                    coinbase ++ mjoin (job_transactions job)
               else [] in
  Ok {| sub_coinbase_tx_hex := hex_encode coinbase; sub_header_hex := hex_encode header;
        sub_block_hex := hex_encode block; sub_block_hash_hex := hash_display hash;
        sub_share_pass := hash_int <=? job_share_target job; sub_block_pass := block_pass;
        sub_extranonce2_hex := to_ascii_lowercase extranonce2; sub_ntime := ntime;
        sub_nonce := nonce; sub_applied_version := version |}.
End jobs.
