(* ===== verification/JobFacts.v ===== *)
(** What the server's mining jobs guarantee: every submission to a job the
    server issued assembles, into a block that the block readers take apart
    again, whose header commits to its transactions, and whose coinbase makes
    the manifest's payouts whatever the miner rolled. *)
From Stdlib Require Import ZArith Lia.
From Stdlib Require Ascii String.
From coqutil Require Import Byte Word.LittleEndianList.
From stdpp Require Import base list strings pretty gmap.
From S2P Require Import Prelude Order Bytes Crates Payee Apportion PoolBuilder CoinbaseTx PayoutManifest PrismError CtvTx F64 Codec CodecFacts TargetFacts MiningJob.

Open Scope Z_scope.

(** * Hex text *)
Lemma to_ascii_lowercase_app a b :
  to_ascii_lowercase (a +:+ b) = to_ascii_lowercase a +:+ to_ascii_lowercase b.
Proof. induction a as [|c a IH]; [done|]. exact (f_equal (String (ascii_lower c)) IH). Qed.
Lemma encode_hex_app a b : encode_hex (a ++ b) = encode_hex a +:+ encode_hex b.
Proof. induction a as [|x a IH]; [done|]. exact (f_equal (fun s => String _ (String _ s)) IH). Qed.
Lemma to_ascii_lowercase_length s : String.length (to_ascii_lowercase s) = String.length s.
Proof. induction s as [|c s IH]; [done|]. cbn. by rewrite IH. Qed.
Lemma encode_hex_length bs : String.length (encode_hex bs) = (2 * length bs)%nat.
Proof. induction bs as [|b bs IH]; [done|]. cbn [encode_hex String.length length]. rewrite IH. lia. Qed.

Section hex.
Context `{HexCrate, !HexLaws}.

Lemma hex_decode_app s1 s2 a b :
  hex_decode s1 = inr a → hex_decode s2 = inr b → hex_decode (s1 +:+ s2) = inr (a ++ b).
Proof.
  intros H1 H2. apply hex_decode_case. rewrite to_ascii_lowercase_app.
  rewrite <- (hex_encode_decode _ _ H1), <- (hex_encode_decode _ _ H2), !hex_encode_digits, <- encode_hex_app.
  rewrite <- hex_encode_digits. apply hex_decode_encode.
Qed.

Lemma hex_decode_length s bs : hex_decode s = inr bs → String.length s = (2 * length bs)%nat.
Proof.
  intros Hd. rewrite <- to_ascii_lowercase_length, <- (hex_encode_decode _ _ Hd), hex_encode_digits.
  apply encode_hex_length.
Qed.

Lemma decode_hex_anyhow_Ok s bs : decode_hex_anyhow s = Ok bs ↔ hex_decode s = inr bs.
Proof. unfold decode_hex_anyhow. destruct (hex_decode s); naive_solver. Qed.
End hex.

(** A u32 parsed from hex is in range. *)
Lemma u32_digits_range s : ∀ acc z, 0 ≤ acc → u32_digits acc s = Ok z → 0 ≤ z.
Proof.
  induction s as [|c s IH]; intros acc z Hacc; cbn [u32_digits]; [by intros [= <-]|].
  intros (d & _ & (acc' & [-> Hf]%ok_or_Ok%checked_Some & Hz)%bind_Ok)%bind_Ok.
  eapply IH; [|exact Hz]. widths.
Qed.
Lemma parse_u32_hex_range s z : parse_u32_hex s = Ok z → 0 ≤ z.
Proof.
  intros (_ & _ & Hz)%bind_Ok. unfold u32_from_str_radix_16 in Hz.
  repeat case_match; try done; eapply u32_digits_range; try exact Hz; done.
Qed.

(** * Issued jobs *)
Section jobs.
Context `{JsonValue, HexCrate, !HexLaws, Sha256Crate, !Sha256Laws, BigUintCrate}.

(** The jobs a server hands out for one manifest: built from it, then stamped
    for connections any number of times.  Buffers fit the address space. *)
Inductive issued (manifest : PayoutManifest) : Job -> Prop :=
| issued_new id template extranonce1 extranonce2_size desired floor clean_jobs job :
    from_manifest id template manifest extranonce1 extranonce2_size desired floor clean_jobs = Ok job →
    (∀ bs, hex_decode (pm_coinbase_tx_hex manifest) = inr bs → Z.of_nat (length bs) ≤ int_max Usize) →
    Forall (fun tx => Z.of_nat (length tx) ≤ int_max Usize) (job_transactions job) →
    issued manifest job
| issued_reassign job id extranonce1 difficulty floor job' :
    issued manifest job → reassign job id extranonce1 difficulty floor = Ok job' →
    issued manifest job'.

(** What such a job is made of: the manifest's coinbase [t], its input [i] whose
    script is [s] and a placeholder, and the template's transactions [ts]. *)
Record job_parts (manifest : PayoutManifest) (job : Job) (t : WireTx) (i : WireIn) (s e1 : list byte)
    (ts : list WireTx) (previous : list byte) : Prop := {
  jp_coinbase : hex_decode (pm_coinbase_tx_hex manifest) = inr (wire_bytes t);
  jp_wf : wf_wire t;
  jp_size : Z.of_nat (length (wire_bytes t)) ≤ int_max Usize;
  jp_ins : wt_ins t = [i];
  jp_extranonce1 : hex_decode (job_extranonce1 job) = inr e1;
  jp_extranonce2 : 0 < job_extranonce2_size job ≤ 32;
  jp_script : ∃ placeholder, wi_script i = s ++ placeholder ∧
    length placeholder = (length e1 + Z.to_nat (job_extranonce2_size job))%nat;
  jp_prefix : job_full_coinbase_prefix job =
    hex_encode (script_head t i s (length e1 + Z.to_nat (job_extranonce2_size job)));
  jp_suffix : job_full_coinbase_suffix job = hex_encode (script_tail t i);
  jp_coinb1 : job_coinb1 job =
    hex_encode (script_head (drop_witness t) i s (length e1 + Z.to_nat (job_extranonce2_size job)));
  jp_coinb2 : job_coinb2 job = hex_encode (script_tail (drop_witness t) i);
  jp_transactions : job_transactions job = wire_bytes <$> ts;
  jp_ts : Forall wf_wire ts;
  jp_branch : ∀ txid, merkle_root (txid :: ((fun t => double_sha256 (wire_stripped t)) <$> ts)) =
    Ok (fold_branch txid (job_merkle_branch job));
  jp_previous : hex_decode (job_previousblockhash job) = inr previous;
  jp_previous_length : length previous = 32%nat;
  jp_network : 1 ≤ job_network_target job < 2 ^ 256;
}.

Lemma txids_of_wires txs txids :
  Forall (fun tx => Z.of_nat (length tx) ≤ int_max Usize) txs →
  collect txid_of txs = Ok txids →
  ∃ ts, Forall wf_wire ts ∧ txs = wire_bytes <$> ts ∧
    txids = (fun t => double_sha256 (wire_stripped t)) <$> ts.
Proof.
  intros Hsz Hc%collect_Forall2. induction Hc as [|tx txid txs txids Htx _ IH]; [by exists []|].
  apply Forall_cons in Hsz as [Hs Hsz]. destruct (IH Hsz) as (ts & Hw & -> & ->).
  unfold txid_of in Htx. apply bind_Ok in Htx as (stripped & Hstrip & [= <-]).
  destruct (strip_inv _ _ Hs Hstrip) as (t & Ht & -> & ->). exists (t :: ts).
  split_and!; [by constructor|done..].
Qed.

Lemma txids_collect ts :
  Forall wf_wire ts → Z.of_nat (length (ts ≫= wire_bytes)) ≤ int_max Usize →
  collect txid_of (wire_bytes <$> ts) = Ok ((fun t => double_sha256 (wire_stripped t)) <$> ts).
Proof.
  intros Hts Hsz. apply collect_Forall2, Forall2_fmap, Forall_Forall2_diag.
  induction Hts as [|t ts Hw Hts IH]; constructor; rewrite bind_cons, length_app in Hsz.
  - unfold txid_of. rewrite strip_wire by (done || lia). done.
  - apply IH. lia.
Qed.

Lemma branch_of_wires txs branch :
  Forall (fun tx => Z.of_nat (length tx) ≤ int_max Usize) txs →
  merkle_branch_for_coinbase txs = Ok branch →
  ∃ ts, Forall wf_wire ts ∧ txs = wire_bytes <$> ts ∧
    ∀ txid, merkle_root (txid :: ((fun t => double_sha256 (wire_stripped t)) <$> ts)) =
      Ok (fold_branch txid branch).
Proof.
  intros Hsz Hb. unfold merkle_branch_for_coinbase in Hb.
  apply bind_Ok in Hb as (txids & Hc & Hb%expect_Ok).
  destruct (txids_of_wires _ _ Hsz Hc) as (ts & Hw & -> & ->). exists ts. split_and!; [done..|].
  destruct (branch_root ((fun t => double_sha256 (wire_stripped t)) <$> ts)) as (branch' & Hb' & Hroot).
  cbn [length] in Hb. rewrite Hb in Hb'. injection Hb' as <-. exact Hroot.
Qed.

Lemma from_manifest_parts id template manifest extranonce1 size desired floor clean job t :
  from_manifest id template manifest extranonce1 size desired floor clean = Ok job →
  hex_decode (pm_coinbase_tx_hex manifest) = inr (wire_bytes t) → wf_wire t →
  Z.of_nat (length (wire_bytes t)) ≤ int_max Usize →
  Forall (fun tx => Z.of_nat (length tx) ≤ int_max Usize) (job_transactions job) →
  ∃ i s e1 ts previous, job_parts manifest job t i s e1 ts previous.
Proof.
  intros Hj Ht Hw Hsz Htx. unfold from_manifest in Hj.
  apply bind_Ok in Hj as (_ & Hsize%ensure_Ok & Hj). apply andb_true_iff in Hsize as [Hs1%Z.ltb_lt Hs2%Z.leb_le].
  apply bind_Ok in Hj as (_ & _ & Hj).
  apply bind_Ok in Hj as (coinbase & Hcb%decode_hex_anyhow_Ok & Hj).
  apply bind_Ok in Hj as (stripped & Hstrip & Hj). apply bind_Ok in Hj as (_ & _ & Hj).
  apply bind_Ok in Hj as (e1 & He1%decode_hex_anyhow_Ok & Hj).
  apply bind_Ok in Hj as ([coinb1 coinb2] & Hsplit1 & Hj).
  apply bind_Ok in Hj as ([prefix suffix] & Hsplit2 & Hj).
  apply bind_Ok in Hj as (txs & _ & Hj). apply bind_Ok in Hj as (branch & Hbranch & Hj).
  apply bind_Ok in Hj as (prev & _ & Hj). apply bind_Ok in Hj as (previous & Hprev%decode_hex_anyhow_Ok & Hj).
  apply bind_Ok in Hj as (_ & Hplen%ensure_Ok%Nat.eqb_eq & Hj).
  apply bind_Ok in Hj as (bits & _ & Hj). apply bind_Ok in Hj as (nbits & Hbits & Hj).
  apply bind_Ok in Hj as (network & Hnet & Hj).
  do 7 (apply bind_Ok in Hj as (? & _ & Hj)). injection Hj as <-. cbn [job_transactions] in Htx.
  rewrite Ht in Hcb. injection Hcb as <-. rewrite (strip_wire _ Hw Hsz) in Hstrip. injection Hstrip as <-.
  destruct (branch_of_wires _ _ Htx Hbranch) as (ts & Hts & -> & Hroot).
  destruct (split_inv _ _ _ _ Hw Hsz Hsplit2) as (i & s & Hi & Hscript & -> & ->).
  rewrite <- drop_witness_bytes in Hsplit1.
  assert (Z.of_nat (length (wire_bytes (drop_witness t))) ≤ int_max Usize) as Hsz'
    by (revert Hsz; rewrite drop_witness_bytes; unfold wire_bytes, wire_stripped; rewrite !length_app; lia).
  destruct (split_inv _ _ _ _ (drop_witness_wf _ Hw) Hsz' Hsplit1) as (i' & s' & Hi' & Hscript' & -> & ->).
  cbn [drop_witness wt_ins] in Hi'. rewrite Hi in Hi'. injection Hi' as <-.
  rewrite Hscript in Hscript'. apply app_inv_tail in Hscript' as <-.
  exists i, s, e1, ts, previous.
  assert (length (e1 ++ replicate (Z.to_nat size) Byte.x00) = (length e1 + Z.to_nat size)%nat) as Hph
    by (by rewrite length_app, length_replicate).
  rewrite !Hph. constructor; try done; cbn [job_extranonce2_size job_network_target].
  - eexists. split; [exact Hscript|exact Hph].
  - apply (target_from_compact_value nbits); [|done]. by apply parse_u32_hex_range in Hbits.
Qed.

Lemma reassign_parts manifest job id extranonce1 difficulty floor job' t i s e1 ts previous :
  reassign job id extranonce1 difficulty floor = Ok job' →
  job_parts manifest job t i s e1 ts previous →
  ∃ e1', job_parts manifest job' t i s e1' ts previous.
Proof.
  intros Hr [? ? ? ? He1 ? Hscript Hp ? Hc ? ? ? ? ? ? ?]. unfold reassign in Hr.
  apply bind_Ok in Hr as (_ & Hlen%ensure_Ok%Nat.eqb_eq & Hr).
  apply bind_Ok in Hr as (e1' & He1'%context_Ok%decode_hex_anyhow_Ok & Hr).
  apply bind_Ok in Hr as (_ & _ & Hr). apply bind_Ok in Hr as (target & _ & Hr).
  apply bind_Ok in Hr as (share & _ & [= <-]). exists e1'.
  assert (length e1' = length e1) as Heq.
  { pose proof (hex_decode_length _ _ He1). pose proof (hex_decode_length _ _ He1'). lia. }
  rewrite <- Heq in *. by constructor.
Qed.

(** The coinbase behind an issued job is one transaction of the grammar. *)
Lemma issued_coinbase manifest job :
  issued manifest job → ∃ t, hex_decode (pm_coinbase_tx_hex manifest) = inr (wire_bytes t) ∧
    wf_wire t ∧ Z.of_nat (length (wire_bytes t)) ≤ int_max Usize.
Proof.
  induction 1 as [id template e1 size desired floor clean job Hj Hmem Htx|]; [|done].
  unfold from_manifest in Hj. do 2 (apply bind_Ok in Hj as (_ & _ & Hj)).
  apply bind_Ok in Hj as (coinbase & Hcb%decode_hex_anyhow_Ok & Hj). apply bind_Ok in Hj as (stripped & Hs & _).
  destruct (strip_inv _ _ (Hmem _ Hcb) Hs) as (t & Hw & -> & _). exists t. eauto.
Qed.

Lemma issued_parts manifest job t :
  issued manifest job → hex_decode (pm_coinbase_tx_hex manifest) = inr (wire_bytes t) → wf_wire t →
  Z.of_nat (length (wire_bytes t)) ≤ int_max Usize →
  ∃ i s e1 ts previous, job_parts manifest job t i s e1 ts previous.
Proof.
  intros Hi Ht Hw Hsz. induction Hi as [id template e1 size desired floor clean job Hj Hmem Htx|
      job id e1 difficulty floor job' _ (i & s & e & ts & previous & Hp) Hr];
    [by eapply from_manifest_parts|].
  destruct (reassign_parts _ _ _ _ _ _ _ _ _ _ _ _ _ Hr Hp) as [e1' Hp']. eauto 10.
Qed.

(** ** Submissions *)
(** The coinbase and header of a submission with extranonces [e]. *)
Definition rolled_header (job : Job) (t : WireTx) (previous : list byte) (version ntime nonce : Z)
  : list byte :=
  header_bytes version (reverse previous)
    (fold_branch (double_sha256 (wire_stripped t)) (job_merkle_branch job)) ntime (job_nbits job) nonce.

Definition rolled_block (job : Job) (t : WireTx) (ts : list WireTx) (header : list byte) : list byte :=
  if le_combine (double_sha256 header) <=? job_network_target job
  then block_bytes header (t :: ts) else [].

Lemma hash_fold_length txid branch :
  length txid = 32%nat → length (fold_branch txid branch) = 32%nat.
Proof.
  revert txid; induction branch as [|b branch IH]; intros txid Hl; [done|]. apply IH. apply sha256_length.
Qed.

Lemma rolled_header_length job t previous version ntime nonce :
  length previous = 32%nat → length (rolled_header job t previous version ntime nonce) = 80%nat.
Proof.
  intros Hp. unfold rolled_header, header_bytes.
  rewrite !length_app, !le_bytes_length, length_reverse, hash_fold_length by apply sha256_length. lia.
Qed.

Lemma assemble_job manifest job t i s e1 ts previous extranonce2 e2 ntime nonce bits mask nt nc version :
  job_parts manifest job t i s e1 ts previous →
  hex_decode extranonce2 = inr e2 → Z.of_nat (String.length extranonce2) = job_extranonce2_size job * 2 →
  parse_u32_hex ntime = Ok nt → parse_u32_hex nonce = Ok nc → job_mintime job ≤ nt →
  applied_version (job_version job) bits mask = Ok version →
  let t' := with_script t i (s ++ e1 ++ e2) in
  let header := rolled_header job t' previous version nt nc in
  assemble_submission job extranonce2 ntime nonce bits mask =
  Ok {| sub_coinbase_tx_hex := hex_encode (wire_bytes t'); sub_header_hex := hex_encode header;
        sub_block_hex := hex_encode (rolled_block job t' ts header);
        sub_block_hash_hex := hash_display (double_sha256 header);
        sub_share_pass := le_combine (double_sha256 header) <=? job_share_target job;
        sub_block_pass := le_combine (double_sha256 header) <=? job_network_target job;
        sub_extranonce2_hex := to_ascii_lowercase extranonce2; sub_ntime := nt; sub_nonce := nc;
        sub_applied_version := version |}.
Proof.
  intros Hp He2 Hlen2 Hnt Hnc Hmin Hver t' header.
  assert (length e2 = Z.to_nat (job_extranonce2_size job)) as Hl2.
  { pose proof (hex_decode_length _ _ He2). lia. }
  destruct (jp_script _ _ _ _ _ _ _ _ Hp) as (ph & Hscript & Hph).
  assert (wire_bytes t' = script_head t i s (length ph) ++ (e1 ++ e2) ++ script_tail t i) as Hbytes.
  { subst t'. rewrite with_script_bytes, length_app, Hl2, Hph. done. }
  assert (wire_stripped t' = script_head (drop_witness t) i s (length ph) ++ (e1 ++ e2) ++ script_tail (drop_witness t) i) as Hstripped.
  { rewrite <- drop_witness_bytes. subst t'. rewrite drop_witness_script, with_script_bytes, length_app, Hl2, Hph. done. }
  assert (Z.of_nat (length (wire_bytes t')) ≤ int_max Usize) as Hsize.
  { pose proof (jp_size _ _ _ _ _ _ _ _ Hp) as Hsz.
    rewrite <- (with_script_self _ _ (jp_ins _ _ _ _ _ _ _ _ Hp)), Hscript, with_script_bytes in Hsz.
    rewrite Hbytes. rewrite !length_app in *. lia. }
  unfold assemble_submission. rewrite (proj2 (Z.eqb_eq _ _) Hlen2), (proj2 (decode_hex_anyhow_Ok _ _) He2).
  cbn [ensure context map_err mbind result_bind]. rewrite Hnt, Hnc. cbn [mbind result_bind].
  rewrite (proj2 (Z.leb_le _ _) Hmin), Hver. cbn [ensure mbind result_bind].
  rewrite (jp_prefix _ _ _ _ _ _ _ _ Hp), (jp_suffix _ _ _ _ _ _ _ _ Hp), (jp_coinb1 _ _ _ _ _ _ _ _ Hp),
    (jp_coinb2 _ _ _ _ _ _ _ _ Hp), <- Hph.
  unfold decode_hex_anyhow.
  erewrite (hex_decode_app (hex_encode _)); [|apply hex_decode_encode|
    apply hex_decode_app; [apply Hp|apply hex_decode_app; [exact He2|apply hex_decode_encode]]].
  erewrite (hex_decode_app (hex_encode _)); [|apply hex_decode_encode|
    apply hex_decode_app; [apply Hp|apply hex_decode_app; [exact He2|apply hex_decode_encode]]].
  rewrite (app_assoc e1 e2 (script_tail t i)), (app_assoc e1 e2 (script_tail (drop_witness t) i)), <- Hbytes, <- Hstripped.
  cbn [mbind result_bind]. rewrite strip_wire by (first [done|by apply with_script_wf; apply Hp]).
  cbn [mbind result_bind]. rewrite bool_decide_true by done. cbn [ensure mbind result_bind].
  rewrite (jp_previous _ _ _ _ _ _ _ _ Hp). cbn [mbind result_bind].
  change (foldl _ _ _) with (fold_branch (double_sha256 (wire_stripped t')) (job_merkle_branch job)).
  fold (rolled_header job t' previous version nt nc). fold header.
  rewrite (proj2 (Nat.eqb_eq (length header) 80)) by apply (rolled_header_length _ _ _ _ _ _ (jp_previous_length _ _ _ _ _ _ _ _ Hp)).
  cbn [ensure mbind result_bind]. f_equal. f_equal. unfold rolled_block. f_equal. destruct (_ <=? _); [|done].
  unfold block_bytes. rewrite codec_compact_size_eq, (jp_transactions _ _ _ _ _ _ _ _ Hp), length_fmap, bind_cons, mjoin_fmap.
  cbn [length]. f_equal. f_equal. f_equal. lia.
Qed.

(** What a submission that assembled came with. *)
Lemma assemble_inputs job extranonce2 ntime nonce bits mask sub :
  assemble_submission job extranonce2 ntime nonce bits mask = Ok sub →
  ∃ e2 nt nc version, hex_decode extranonce2 = inr e2 ∧
    Z.of_nat (String.length extranonce2) = job_extranonce2_size job * 2 ∧
    parse_u32_hex ntime = Ok nt ∧ parse_u32_hex nonce = Ok nc ∧ job_mintime job ≤ nt ∧
    applied_version (job_version job) bits mask = Ok version.
Proof.
  intros Ha. unfold assemble_submission in Ha.
  apply bind_Ok in Ha as (_ & Hlen%ensure_Ok%Z.eqb_eq & Ha).
  apply bind_Ok in Ha as (e2 & He2%context_Ok%decode_hex_anyhow_Ok & Ha).
  apply bind_Ok in Ha as (nt & Hnt & Ha). apply bind_Ok in Ha as (nc & Hnc & Ha).
  apply bind_Ok in Ha as (_ & Hmin%ensure_Ok%Z.leb_le & Ha).
  apply bind_Ok in Ha as (version & Hver & _). exists e2, nt, nc, version. done.
Qed.

(** C28: a job the server issued never refuses a well-formed submission: assembly
    succeeds exactly when the extranonce2 is hex of the announced size, the
    time and nonce are 32-bit hex, the time is not before the template's
    minimum and the version bits stay inside the mask.  In particular the
    coinbase with its witness and the txid preimage the miner hashed never
    disagree. *)
Theorem submission_assembles_iff manifest job extranonce2 ntime nonce bits mask :
  issued manifest job →
  is_ok (assemble_submission job extranonce2 ntime nonce bits mask) = true ↔
  Z.of_nat (String.length extranonce2) = job_extranonce2_size job * 2 ∧
  (∃ e2, hex_decode extranonce2 = inr e2) ∧
  (∃ nt, parse_u32_hex ntime = Ok nt ∧ job_mintime job ≤ nt) ∧
  is_ok (parse_u32_hex nonce) = true ∧
  is_ok (applied_version (job_version job) bits mask) = true.
Proof.
  intros Hi. split.
  - intros [sub Ha]%is_ok_ex. destruct (assemble_inputs _ _ _ _ _ _ _ Ha) as
      (e2 & nt & nc & version & He2 & Hlen & Hnt & Hnc & Hmin & Hver).
    split_and!; eauto; [by rewrite Hnc|by rewrite Hver].
  - intros (Hlen & [e2 He2] & (nt & Hnt & Hmin) & [nc Hnc]%is_ok_ex & [version Hver]%is_ok_ex).
    destruct (issued_coinbase _ _ Hi) as (t & Ht & Hw & Hsz).
    destruct (issued_parts _ _ _ Hi Ht Hw Hsz) as (i & s & e1 & ts & previous & Hp).
    by rewrite (assemble_job _ _ _ _ _ _ _ _ _ _ _ _ _ _ _ _ _ Hp He2 Hlen Hnt Hnc Hmin Hver).
Qed.

(** C24: A submission that solves a block carries the whole block: the block
    readers take it apart into its coinbase and the template's witness leaves,
    its first 80 bytes are the header whose hash meets the network target, and
    the merkle root in that header is the root over the txids of the coinbase
    and of the template's transactions, in block order. *)
Theorem solved_block_reads_back manifest job extranonce2 ntime nonce bits mask sub block :
  issued manifest job →
  assemble_submission job extranonce2 ntime nonce bits mask = Ok sub →
  sub_block_pass sub = true → hex_decode (sub_block_hex sub) = inr block →
  Z.of_nat (length block) ≤ int_max Usize →
  ∃ coinbase txid txids root,
    hex_decode (sub_coinbase_tx_hex sub) = inr coinbase ∧
    coinbase_from_block block = Ok coinbase ∧
    witness_merkle_leaves_from_block block = Ok (witness_merkle_leaves_hex (job_transactions job)) ∧
    hex_encode (take 80 block) = sub_header_hex sub ∧
    le_combine (double_sha256 (take 80 block)) ≤ job_network_target job ∧
    txid_of coinbase = Ok txid ∧ collect txid_of (job_transactions job) = Ok txids ∧
    merkle_root (txid :: txids) = Ok root ∧ slice_get block 36 68 = Some root.
Proof.
  intros Hi Ha Hpass Hblock Hmax. destruct (issued_coinbase _ _ Hi) as (t & Ht & Hw & Hsz).
  destruct (issued_parts _ _ _ Hi Ht Hw Hsz) as (i & s & e1 & ts & previous & Hp).
  destruct (assemble_inputs _ _ _ _ _ _ _ Ha) as (e2 & nt & nc & version & He2 & Hlen & Hnt & Hnc & Hmin & Hver).
  rewrite (assemble_job _ _ _ _ _ _ _ _ _ _ _ _ _ _ _ _ _ Hp He2 Hlen Hnt Hnc Hmin Hver) in Ha.
  injection Ha as <-. cbn [sub_block_pass sub_block_hex sub_coinbase_tx_hex sub_header_hex] in *.
  set (t' := with_script t i (s ++ e1 ++ e2)) in *. set (header := rolled_header _ _ _ _ _ _) in *.
  unfold rolled_block in Hblock. rewrite Hpass, hex_decode_encode in Hblock. injection Hblock as <-.
  assert (length header = 80%nat) as Hh by apply (rolled_header_length _ _ _ _ _ _ (jp_previous_length _ _ _ _ _ _ _ _ Hp)).
  assert (Forall wf_wire (t' :: ts)) as Hts.
  { constructor; [apply with_script_wf; apply Hp|apply Hp]. }
  assert (take 80 (block_bytes header (t' :: ts)) = header) as Htake by (unfold block_bytes; by apply take_app_length').
  pose proof Hmax as Hmax'. unfold block_bytes in Hmax'. rewrite bind_cons, !length_app in Hmax'.
  exists (wire_bytes t'), (double_sha256 (wire_stripped t')),
    ((fun t => double_sha256 (wire_stripped t)) <$> ts),
    (fold_branch (double_sha256 (wire_stripped t')) (job_merkle_branch job)).
  rewrite Htake. split_and!.
  - apply hex_decode_encode.
  - by apply coinbase_from_block_bytes.
  - rewrite (jp_transactions _ _ _ _ _ _ _ _ Hp). apply leaves_exact; [done|]. by exists header, (t' :: ts).
  - done.
  - by apply Z.leb_le.
  - unfold txid_of. rewrite strip_wire; [done|by inversion Hts|lia].
  - rewrite (jp_transactions _ _ _ _ _ _ _ _ Hp). apply (txids_collect ts); [apply Hp|lia].
  - apply Hp.
  - unfold block_bytes, header, rolled_header, header_bytes. rewrite <- !app_assoc.
    rewrite (app_assoc (le_bytes 4 version)). apply slice_get_app;
      rewrite length_app, le_bytes_length, length_reverse, (jp_previous_length _ _ _ _ _ _ _ _ Hp), ?hash_fold_length;
      by try apply sha256_length.
Qed.

(** ** Payouts *)
(** The manifest's coinbase in the grammar. *)
Definition coinbase_wire (built : BuiltCoinbase) (script nonce : list byte) (lock : Z) : WireTx :=
  wire_of 2 [coinbase_txin script] (coinbase_txouts built) (Some [[nonce]]) lock.

Lemma coinbase_wire_script built script nonce lock script' :
  with_script (coinbase_wire built script nonce lock) (wire_in_of (coinbase_txin script)) script' =
  coinbase_wire built script' nonce lock.
Proof. done. Qed.

Lemma wf_tx_script built script script' nonce lock :
  length script' = length script →
  wf_tx 2 [coinbase_txin script] (coinbase_txouts built) (Some [[nonce]]) lock →
  wf_tx 2 [coinbase_txin script'] (coinbase_txouts built) (Some [[nonce]]) lock.
Proof.
  intros Hlen [? ? ? Hins ? ? ? ?]. apply Forall_cons in Hins as [[? ? Hs ?] _].
  constructor; try done. constructor; [|done]. constructor; try done. unfold size_ok in *. cbn in *. by rewrite Hlen.
Qed.

Lemma coinbase_wire_length built script script' nonce lock :
  length script' = length script →
  length (wire_bytes (coinbase_wire built script' nonce lock)) =
  length (wire_bytes (coinbase_wire built script nonce lock)).
Proof.
  intros Hl. pose proof (with_script_bytes (coinbase_wire built script nonce lock)
    (wire_in_of (coinbase_txin script)) []) as Hws.
  pose proof (f_equal length (Hws script')) as Hn'. pose proof (f_equal length (Hws script)) as Hn.
  cbn [app] in Hn, Hn'. rewrite coinbase_wire_script in Hn, Hn'.
  by rewrite Hn, Hn', Hl, !(length_app (script_head _ _ _ _)), !(length_app _ (script_tail _ _)), Hl.
Qed.

(** The coinbase of a built manifest, in the grammar. *)
Lemma manifest_wire request manifest built :
  wf_request request → cbr_coinbase_value_sats request ≤ QBIT_MAX_MONEY_SATS →
  build_coinbase request = Ok built → build_manifest request = Ok manifest →
  ∃ script nonce, let lock := cbr_block_height request - 1 in
    let t := coinbase_wire built script nonce lock in
    coinbase_script_sig request = Ok script ∧ witness_nonce request = Ok nonce ∧
    wf_tx 2 [coinbase_txin script] (coinbase_txouts built) (Some [[nonce]]) lock ∧
    hex_decode (pm_coinbase_tx_hex manifest) = inr (wire_bytes t) ∧ wf_wire t ∧
    Z.of_nat (length (wire_bytes t)) ≤ int_max Usize.
Proof.
  intros Hwf Hmax Hb Hm. destruct (build_coinbase_inv _ _ Hb) as (script & wn & leaves & Hparts).
  destruct (coinbase_bytes _ _ _ _ _ Hparts) as [Hwith _].
  pose proof (coinbase_wf_tx _ _ _ _ _ Hwf Hmax Hparts) as Hwtx. exists script, wn. cbn zeta.
  assert (wire_bytes (coinbase_wire built script wn (cbr_block_height request - 1)) = bc_tx_with_witness built)
    as -> by (rewrite Hwith; apply wire_of_bytes).
  split_and!; [apply Hparts|apply Hparts|done| |by apply wire_of_wf|].
  - unfold build_manifest in Hm. rewrite Hb in Hm. cbn [mbind result_bind] in Hm.
    do 3 (apply bind_Ok in Hm as (? & _ & Hm)). injection Hm as <-. cbn [pm_coinbase_tx_hex].
    apply hex_decode_encode.
  - rewrite <- (cp_weight _ _ _ _ _ Hparts). pose proof (cp_weight_max _ _ _ _ _ Hparts).
    unfold MAX_BLOCK_WEIGHT in *. widths.
Qed.

(** A coinbase in the grammar parses to its parts. *)
Lemma parse_coinbase_wire built script nonce lock name :
  wf_tx 2 [coinbase_txin script] (coinbase_txouts built) (Some [[nonce]]) lock →
  Z.of_nat (length (wire_bytes (coinbase_wire built script nonce lock))) ≤ int_max Usize →
  parse_transaction (wire_bytes (coinbase_wire built script nonce lock)) name =
  Ok (parsed Byte.x01 2 [coinbase_txin script] (coinbase_txouts built) (Some [[nonce]]) lock).
Proof.
  intros Hwf Hsz. unfold coinbase_wire in *. rewrite wire_of_bytes in *. by apply parse_tx_bytes.
Qed.

(** C21: Rolling the extranonce moves no money: for a job issued from a manifest
    the pool builder made, every submission that assembles carries a coinbase
    that parses to the manifest's own transaction but for the tail of its one
    scriptSig: the same version, the same outputs, the same lock time and the
    same witness, which is the nonce the request commits to.  The tail holds
    the two extranonces in the room the builder left for them. *)
Theorem submission_keeps_payouts request manifest built job extranonce2 ntime nonce bits mask sub name :
  wf_request request → cbr_coinbase_value_sats request ≤ QBIT_MAX_MONEY_SATS →
  build_coinbase request = Ok built → build_manifest request = Ok manifest →
  issued manifest job →
  assemble_submission job extranonce2 ntime nonce bits mask = Ok sub →
  ∃ manifest_tx tx s placeholder e1 e2 reserved,
    parse_transaction_hex (pm_coinbase_tx_hex manifest) name = Ok manifest_tx ∧
    parse_transaction_hex (sub_coinbase_tx_hex sub) name = Ok tx ∧
    ptx_version tx = ptx_version manifest_tx ∧ ptx_outputs tx = ptx_outputs manifest_tx ∧
    ptx_lock_time tx = ptx_lock_time manifest_tx ∧ ptx_witness_stacks tx = ptx_witness_stacks manifest_tx ∧
    ptx_version tx = 2 ∧ ptx_outputs tx = coinbase_txouts built ∧ ptx_lock_time tx = cbr_block_height request - 1 ∧
    witness_nonce request = Ok reserved ∧ ptx_witness_stacks tx = Some [[reserved]] ∧
    coinbase_script_sig request = Ok (s ++ placeholder) ∧ ptx_inputs manifest_tx = [coinbase_txin (s ++ placeholder)] ∧
    hex_decode (job_extranonce1 job) = inr e1 ∧ hex_decode extranonce2 = inr e2 ∧
    length (e1 ++ e2) = length placeholder ∧ ptx_inputs tx = [coinbase_txin (s ++ e1 ++ e2)].
Proof.
  intros Hwf Hmax Hb Hm Hi Ha.
  destruct (manifest_wire _ _ _ Hwf Hmax Hb Hm) as (script & wn & Hsig & Hnonce & Hwtx & Ht & Hw & Hsz).
  set (lock := cbr_block_height request - 1) in *.
  destruct (issued_parts _ _ _ Hi Ht Hw Hsz) as (i & s & e1 & ts & previous & Hp).
  destruct (assemble_inputs _ _ _ _ _ _ _ Ha) as (e2 & nt & nc & version & He2 & Hlen & Hnt & Hnc & Hmin & Hver).
  rewrite (assemble_job _ _ _ _ _ _ _ _ _ _ _ _ _ _ _ _ _ Hp He2 Hlen Hnt Hnc Hmin Hver) in Ha.
  injection Ha as <-. cbn [sub_coinbase_tx_hex].
  pose proof (jp_ins _ _ _ _ _ _ _ _ Hp) as Hins. cbn in Hins. injection Hins as <-.
  destruct (jp_script _ _ _ _ _ _ _ _ Hp) as (ph & Hscript & Hph). cbn in Hscript. subst script.
  assert (length (e1 ++ e2) = length ph) as Hee.
  { pose proof (hex_decode_length _ _ He2). rewrite length_app. lia. }
  change (wire_in_of _) with (wire_in_of (coinbase_txin (s ++ ph))). rewrite coinbase_wire_script.
  assert (length (s ++ e1 ++ e2) = length (s ++ ph)) as Hsl by (rewrite !(length_app s), Hee; done).
  unfold parse_transaction_hex. rewrite Ht, hex_decode_encode.
  rewrite (parse_coinbase_wire built (s ++ ph) wn lock name) by done.
  rewrite (parse_coinbase_wire built (s ++ e1 ++ e2) wn lock name);
    [|by eapply wf_tx_script|by rewrite (coinbase_wire_length built (s ++ ph))].
  eexists _, _, s, ph, e1, e2, wn. do 13 (split; [done|]). split; [apply Hp|]. done.
Qed.
End jobs.
