(* ===== verification/JobExample.v ===== *)
(** A mining job worked through: a manifest of the pool builder, a template with
    one transaction, a miner that solves the block, and the witnesses of the
    job theorems. *)
From Stdlib Require Import ZArith Lia SpecFloat.
From Stdlib Require Ascii String.
From coqutil Require Import Byte Word.LittleEndianList.
From stdpp Require Import base list strings pretty gmap.
From S2P Require Import Prelude Order Bytes Crates Payee Apportion PoolBuilder CoinbaseTx PayoutManifest PrismError CtvTx F64 Codec CodecFacts TargetFacts MiningJob JobFacts.

Open Scope Z_scope.

(** * JSON values and float conversion, for evaluation *)
#[warnings="-register-all"]
Inductive ExampleValue :=
| EVNull
| EVBool (b : bool)
| EVInt (z : Z)
| EVString (s : string)
| EVArray (l : list ExampleValue)
| EVObject (l : list (string * ExampleValue)).

Fixpoint assoc_get {A} (l : list (string * A)) (key : string) : option A :=
  match l with
  | [] => None
  | (k, v) :: l => if String.eqb k key then Some v else assoc_get l key
  end.
Definition example_get (v : ExampleValue) (key : string) : option ExampleValue :=
  match v with EVObject l => assoc_get l key | _ => None end.

#[local] Instance example_value : JsonValue := {|
  Value := ExampleValue;
  value_get := example_get;
  value_index v key := default EVNull (example_get v key);
  is_number v := match v with EVInt _ => true | _ => false end;
  as_str v := match v with EVString s => Some s | _ => None end;
  as_u64 v := match v with EVInt z => checked U64 z | _ => None end;
  as_i64 v := match v with EVInt z => checked I64 z | _ => None end;
  as_array v := match v with EVArray l => Some l | _ => None end;
  json_null := EVNull; json_bool := EVBool; json_string := EVString;
  json_array := EVArray; json_object := EVObject;
|}.

#[local] Instance example_biguint : BigUintCrate :=
  {| biguint_to_f64 z := Some (binary_normalize 53 1024 z 0 false) |}.

(** * The job *)
(** The builder leaves room for a 2-byte extranonce1 and a 4-byte extranonce2. *)
Definition pool_request : CoinbaseBuildRequest := {|
  cbr_block_height := 17; cbr_coinbase_value_sats := 1000;
  cbr_entitlements := cbr_entitlements example_request;
  cbr_witness_nonce_hex := None; cbr_witness_merkle_leaves_hex := [];
  cbr_coinbase_script_sig_suffix_hex := Some "abcd00000000";
  cbr_pinned_first_output := None |}.
Lemma pool_request_wf : wf_request pool_request.
Proof. constructor; cbn; repeat constructor. Qed.

Definition pool_manifest : PayoutManifest := ltac:(ok_of (build_manifest pool_request)).
Definition pool_template : Value :=
  EVObject [("previousblockhash", EVString (repeat_string 32 "0F")); ("bits", EVString "207fffff");
    ("version", EVInt 0x20000000); ("curtime", EVInt 1700000000); ("mintime", EVInt 1600000000);
    ("transactions", EVArray [EVObject [("data", EVString example_tx_hex)]])].
(** Difficulty 1. *)
Definition difficulty_one : f64 := S754_finite false 0x10000000000000 (-52).
Definition shared_job : Job :=
  ltac:(ok_of (from_manifest "1" pool_template pool_manifest "abcd" 4 difficulty_one f64_zero true)).
Definition pool_job : Job := ltac:(ok_of (reassign shared_job "2" "BEEF" difficulty_one f64_zero)).
Definition pool_submission : Submission :=
  ltac:(ok_of (assemble_submission pool_job "0000aaaa" "6553f101" "00000001" (Some "00002000") 0x1fffe000)).
Definition pool_block : list byte := Eval vm_compute in
  match hex_decode (sub_block_hex pool_submission) with inr bs => bs | inl _ => [] end.

Lemma pool_job_issued : issued pool_manifest pool_job.
Proof.
  eapply (issued_reassign _ shared_job "2" "BEEF" difficulty_one f64_zero); [|vm_compute; reflexivity].
  eapply (issued_new _ "1" pool_template "abcd" 4 difficulty_one f64_zero true); [vm_compute; reflexivity|..].
  - intros bs Hbs. apply hex_decode_length in Hbs. apply Z.le_trans with (Z.of_nat (String.length (pm_coinbase_tx_hex pool_manifest))); [lia|].
    vm_compute. discriminate.
  - repeat constructor; vm_compute; discriminate.
Qed.

Lemma pool_submission_assembles :
  assemble_submission pool_job "0000aaaa" "6553f101" "00000001" (Some "00002000") 0x1fffe000 = Ok pool_submission.
Proof. vm_compute. reflexivity. Qed.

Lemma submission_assembles_iff_witness :
  issued pool_manifest pool_job ∧
  is_ok (assemble_submission pool_job "0000aaaa" "6553f101" "00000001" (Some "00002000") 0x1fffe000) = true.
Proof.
  split; [exact pool_job_issued|].
  apply (submission_assembles_iff pool_manifest pool_job _ _ _ _ _ pool_job_issued).
  split; [reflexivity|]. split; [eexists; vm_compute; reflexivity|].
  split; [eexists; split; [vm_compute; reflexivity|vm_compute; discriminate]|].
  split; vm_compute; reflexivity.
Defined.

Lemma solved_block_reads_back_witness :
  ∃ coinbase, coinbase_from_block pool_block = Ok coinbase ∧
    witness_merkle_leaves_from_block pool_block =
    Ok (witness_merkle_leaves_hex (job_transactions pool_job)).
Proof.
  destruct (solved_block_reads_back pool_manifest pool_job "0000aaaa" "6553f101" "00000001" (Some "00002000")
    0x1fffe000 pool_submission pool_block pool_job_issued pool_submission_assembles)
    as (coinbase & txid & txids & root & _ & Hc & Hl & _).
  - reflexivity.
  - vm_compute. reflexivity.
  - vm_compute. discriminate.
  - exists coinbase. split; [exact Hc|exact Hl].
Defined.

Lemma submission_keeps_payouts_witness :
  ∃ manifest_tx tx, parse_transaction_hex (sub_coinbase_tx_hex pool_submission) "coinbase" = Ok tx ∧
    ptx_outputs tx = ptx_outputs manifest_tx ∧ ptx_witness_stacks tx = ptx_witness_stacks manifest_tx ∧
    ptx_lock_time tx = ptx_lock_time manifest_tx.
Proof.
  assert (is_ok (build_coinbase pool_request) = true) as Hok by (vm_compute; reflexivity).
  apply is_ok_ex in Hok as [built Hb].
  destruct (submission_keeps_payouts pool_request pool_manifest built pool_job "0000aaaa" "6553f101"
    "00000001" (Some "00002000") 0x1fffe000 pool_submission "coinbase" pool_request_wf
    ltac:(vm_compute; discriminate) Hb ltac:(vm_compute; reflexivity) pool_job_issued pool_submission_assembles)
    as (manifest_tx & tx & s & ph & e1 & e2 & wn & _ & Hp & _ & Ho & Hl & Hw & _).
  exists manifest_tx, tx. split; [exact Hp|]. split; [exact Ho|]. split; [exact Hw|exact Hl].
Defined.

(** * Codec witnesses *)
Lemma walk_transaction_exact_witness :
  ∃ t rest, wf_wire t ∧ example_tx_wire ++ [Byte.x07] = wire_bytes t ++ rest.
Proof.
  assert (is_ok (walk_transaction (example_tx_wire ++ [Byte.x07])) = true) as Hok by (vm_compute; reflexivity).
  apply is_ok_ex in Hok as [layout Hl].
  destruct (proj1 (walk_transaction_exact (example_tx_wire ++ [Byte.x07]) layout ltac:(vm_compute; discriminate)) Hl)
    as (t & rest & Hw & Heq & _).
  exists t, rest. split; [exact Hw|exact Heq].
Defined.

Lemma strip_agrees_with_parser_witness :
  ∃ tx, parse_transaction example_tx_wire "tx" = Ok tx ∧
    strip_witness_transaction example_tx_wire = Ok (ptx_tx_without_witness tx).
Proof.
  assert (is_ok (parse_transaction example_tx_wire "tx") = true) as Hok by (vm_compute; reflexivity).
  destruct (parse_transaction example_tx_wire "tx") as [tx|e|m] eqn:Hp; [|discriminate Hok..].
  exists tx. split; [reflexivity|].
  rewrite (strip_agrees_with_parser example_tx_wire "tx" tx ltac:(vm_compute; discriminate) Hp).
  replace (bool_decide (example_tx_wire !! 5%nat = Some Byte.x01)) with true by (vm_compute; reflexivity).
  rewrite andb_false_r. reflexivity.
Defined.

Lemma merkle_branch_folds_to_root_witness :
  ∃ txids branch, collect txid_of [example_tx_wire; example_tx_wire] = Ok txids ∧
    merkle_branch_for_coinbase [example_tx_wire; example_tx_wire] = Ok branch ∧
    merkle_root (str_bytes "txid" :: txids) = Ok (fold_branch (str_bytes "txid") branch).
Proof.
  assert (is_ok (collect txid_of [example_tx_wire; example_tx_wire]) = true) as Hok by (vm_compute; reflexivity).
  apply is_ok_ex in Hok as [txids Ht]. exists txids.
  destruct (merkle_branch_folds_to_root _ _ Ht) as (branch & Hb & Hroot).
  exists branch. split; [exact Ht|]. split; [exact Hb|apply Hroot].
Defined.
