(* ===== verification/Admission.v ===== *)
(** Whether a frontend admits miners: the admission state machine
    (crates/qbit-prism-server/src/readiness/admission.rs), the dual-writer
    faults that withdraw a node at once (readiness/dual_writer.rs), and the
    publisher that feeds one into the other for the Stratum gate (server.rs).
    Instants and durations are nanosecond counts. *)
From Stdlib Require Import ZArith Lia.
From Stdlib Require String.
From stdpp Require Import base numbers option list strings.
From S2P Require Import Prelude.

Open Scope Z_scope.

Definition seconds (n : Z) : Z := n * 1000000000.
(** [now.saturating_duration_since(since)]. *)
Definition duration_since (now since : Z) : Z := Z.max 0 (now - since).

(** * Admission *)
Definition DEFAULT_GRACE : Z := seconds 10.
Definition MAX_GRACE_SECONDS : Z := 120.

Inductive Withdrawal := OwnLogBehind | WriterNotLocal | NotReady.
#[export] Instance withdrawal_eq_dec : EqDecision Withdrawal.
Proof. solve_decision. Defined.

Inductive AdmissionState :=
| Starting
| Admitting
| Grace (since : Z)
| Withdrawn (reason : Withdrawal).

Definition admits (s : AdmissionState) : bool :=
  match s with Admitting | Grace _ => true | _ => false end.
Definition reason (s : AdmissionState) : option Withdrawal :=
  match s with Withdrawn r => Some r | _ => None end.

Inductive AdmissionChange :=
| AdmittedNow
| WithdrawnFor (r : Withdrawal).

Record Admission := {
  adm_grace : Z;
  adm_state : AdmissionState;
  adm_last_ready : option Z;
}.
Definition admission_new (grace : Z) : Admission :=
  {| adm_grace := grace; adm_state := Starting; adm_last_ready := None |}.

Definition within_grace (grace since now : Z) : AdmissionState :=
  if grace <=? duration_since now since then Withdrawn NotReady else Grace since.

(** The state arm of [observe]. *)
Definition observed_state (a : Admission) (now : Z) (ready : bool) (hard : option Withdrawal)
  : AdmissionState :=
  match adm_state a, hard with
  | Starting, None => if ready then Admitting else Starting
  | Starting, Some _ => Starting
  | _, Some r => Withdrawn r
  | s, None =>
      if ready then Admitting else
      match s with
      | Withdrawn _ => Withdrawn NotReady
      | Grace since => within_grace (adm_grace a) since now
      | _ => within_grace (adm_grace a) (default now (adm_last_ready a)) now
      end
  end.

Definition observe (a : Admission) (now : Z) (ready : bool) (hard : option Withdrawal)
  : Admission * option AdmissionChange :=
  let before := adm_state a in
  let state := observed_state a now ready hard in
  let a' := {| adm_grace := adm_grace a; adm_state := state;
               adm_last_ready := if ready && bool_decide (hard = None) then Some now
                                 else adm_last_ready a |} in
  (a', match admits before, state with
       | false, s => if admits s then Some AdmittedNow else None
       | true, Withdrawn r => Some (WithdrawnFor r)
       | true, _ => None
       end).

(** * The signal the listeners read *)
Record AdmissionSignal := {
  sig_admits : bool;
  sig_decided_at : option Z;
  sig_close_sessions : option Withdrawal;
}.
Definition UNDECIDED : AdmissionSignal :=
  {| sig_admits := false; sig_decided_at := None; sig_close_sessions := None |}.
Definition signal_of (state : AdmissionState) (close_sessions : bool) (at_ : Z) : AdmissionSignal :=
  {| sig_admits := admits state; sig_decided_at := Some at_;
     sig_close_sessions := if close_sessions then reason state else None |}.
Definition stale_at (s : AdmissionSignal) (stale_after : Z) : option Z :=
  match sig_decided_at s with
  | Some at_ => if sig_admits s then Some (at_ + stale_after) else None
  | None => None
  end.
Definition admits_at (s : AdmissionSignal) (now stale_after : Z) : bool :=
  match stale_at s stale_after with Some stale => now <? stale | None => false end.

(** * Dual-writer faults *)
Definition WRITER_UNANSWERED_WITHDRAWAL : Z := seconds 4.
Definition WRITER_PROBE_REUSE : Z := seconds 1.

Inductive WriterPath := Local | Remote | Unidentified | ReadOnly | Unanswered.
#[export] Instance writer_path_eq_dec : EqDecision WriterPath.
Proof. solve_decision. Defined.

Record WriterProbe := {
  wp_path : option WriterPath;
  wp_probed_at : option Z;
  wp_answered_at : option Z;
}.
Definition probe_default : WriterProbe :=
  {| wp_path := None; wp_probed_at := None; wp_answered_at := None |}.
Definition record_probe (p : WriterProbe) (at_ : Z) (path : WriterPath) : WriterProbe :=
  {| wp_path := Some path; wp_probed_at := Some at_;
     wp_answered_at := if decide (path = Unanswered) then wp_answered_at p else Some at_ |}.
Definition probe_due (p : WriterProbe) (now : Z) : bool :=
  match wp_probed_at p with
  | None => true
  | Some at_ => WRITER_PROBE_REUSE <=? duration_since now at_
  end.
Definition probe_withdrawal (p : WriterProbe) (now : Z) : option Withdrawal :=
  path ← wp_path p;
  match path with
  | Local => None
  | Remote | Unidentified | ReadOnly => Some WriterNotLocal
  | Unanswered =>
      if match wp_answered_at p with
         | None => true
         | Some at_ => WRITER_UNANSWERED_WITHDRAWAL <=? duration_since now at_
         end
      then Some WriterNotLocal else None
  end.

(** The database's identity decides first, then whether it can write. *)
Definition classify (in_recovery read_only : bool) (recorded : option Z) (node_index : Z)
  : WriterPath :=
  match recorded with
  | None => Unidentified
  | Some index =>
      if negb (index =? node_index) then Remote
      else if in_recovery || read_only then ReadOnly else Local
  end.

(** [DualWriterReport], without the [/healthz] object it also carries. *)
Record DualWriterReport := {
  dwr_own_log_caught_up : bool;
  dwr_writer_path : option WriterPath;
  dwr_withdrawal : option Withdrawal;
}.
Definition serving (r : DualWriterReport) : bool :=
  dwr_own_log_caught_up r && bool_decide (dwr_writer_path r = Some Local).
Definition forbids_sessions (r : DualWriterReport) : bool :=
  negb (dwr_own_log_caught_up r) ||
  match dwr_writer_path r with Some (Remote | Unidentified | ReadOnly) => true | _ => false end.
Definition report_status (r : DualWriterReport) : option Withdrawal :=
  if negb (dwr_own_log_caught_up r) then Some OwnLogBehind
  else if bool_decide (dwr_writer_path r ≠ Some Local) then Some WriterNotLocal else None.
Definition assemble (writer : WriterProbe) (own_log_caught_up : bool) (now : Z) : DualWriterReport :=
  {| dwr_own_log_caught_up := own_log_caught_up; dwr_writer_path := wp_path writer;
     dwr_withdrawal := if own_log_caught_up then probe_withdrawal writer now
                       else Some OwnLogBehind |}.

(** * The publisher *)
Record AdmissionPublisher := {
  ap_admission : Admission;
  ap_decision : AdmissionSignal;
  ap_exposed : bool;
}.
(** One health publication: what the node reports of itself at [pub_now]. *)
Record Publication := {
  pub_now : Z;
  pub_ready : bool;
  pub_stalled : bool;
  pub_dual : option DualWriterReport;
}.
Definition pub_hard (p : Publication) : option Withdrawal := pub_dual p ≫= dwr_withdrawal.
Definition pub_clean (p : Publication) : bool :=
  pub_ready p && negb (pub_stalled p) && bool_decide (pub_hard p = None).

(** [publish]: the metrics, log lines and health payload are left out. *)
Definition publish (ap : AdmissionPublisher) (p : Publication) : AdmissionPublisher :=
  if negb (ap_exposed ap) then ap else
  let ready := pub_ready p && negb (pub_stalled p) in
  let '(admission, _) := observe (ap_admission ap) (pub_now p) ready (pub_hard p) in
  let close_sessions := match pub_dual p with Some d => forbids_sessions d | None => false end in
  {| ap_admission := admission;
     ap_decision := signal_of (adm_state admission) close_sessions (pub_now p);
     ap_exposed := ap_exposed ap |}.
Definition publisher_new (grace : Z) : AdmissionPublisher :=
  {| ap_admission := admission_new grace; ap_decision := UNDECIDED; ap_exposed := true |}.
Definition publish_all (ap : AdmissionPublisher) (ps : list Publication) : AdmissionPublisher :=
  foldl publish ap ps.

(** * What admission promises

    [ready_since grace ps t]: among the publications [ps], in order, the last
    clean one (ready, not stalled, no hard fault) was at [t]; since then no
    fault was reported and every publication came less than [grace] after. *)
Definition dips (grace t : Z) (o : Publication) : Prop :=
  pub_clean o = false ∧ pub_hard o = None ∧ duration_since (pub_now o) t < grace.
Definition ready_since (grace : Z) (ps : list Publication) (t : Z) : Prop :=
  ∃ pre p post, ps = pre ++ p :: post ∧ pub_clean p = true ∧ pub_now p = t ∧
    Forall (dips grace t) post.

Lemma ready_since_nil grace t : ¬ ready_since grace [] t.
Proof. intros ([|q l] & p & post & Hps & _); discriminate. Qed.

Lemma ready_since_snoc grace ps o t :
  ready_since grace (ps ++ [o]) t ↔
  if pub_clean o then pub_now o = t else dips grace t o ∧ ready_since grace ps t.
Proof.
  split.
  - intros (pre & p & post & Heq & Hp & Ht & Hpost).
    destruct post as [|q post _] using rev_ind.
    + apply app_inj_tail in Heq as [-> ->]. by rewrite Hp.
    + rewrite app_comm_cons, app_assoc in Heq. apply app_inj_tail in Heq as [-> ->].
      apply Forall_app in Hpost as [Hpost [Hq _]%Forall_cons].
      destruct (Hq) as (-> & _). split; [done|]. by exists pre, p, post.
  - destruct (pub_clean o) eqn:Ho.
    + intros Ht. by exists ps, o, [].
    + intros (Hd & pre & p & post & -> & Hp & Ht & Hpost). exists pre, p, (post ++ [o]).
      rewrite <- app_assoc. split_and!; [done..|]. apply Forall_app. by rewrite Forall_singleton.
Qed.

Lemma ready_since_unique grace ps t t' :
  ready_since grace ps t → ready_since grace ps t' → t = t'.
Proof.
  induction ps as [|o ps IH] using rev_ind; [by intros ?%ready_since_nil|].
  rewrite !ready_since_snoc. destruct (pub_clean o); [congruence|]. intros [_ ?] [_ ?]. auto.
Qed.

(** The state after a run of publications, against that history. *)
Definition admission_inv (grace : Z) (ps : list Publication) (a : Admission) : Prop :=
  adm_grace a = grace ∧
  match adm_state a with
  | Starting => Forall (fun p => pub_clean p = false) ps
  | Admitting => ∃ t, adm_last_ready a = Some t ∧ ready_since grace ps t
  | Grace t => ready_since grace ps t
  | Withdrawn _ => ∀ t, ¬ ready_since grace ps t
  end.

Lemma unready_no_since grace ps t : Forall (fun p => pub_clean p = false) ps → ¬ ready_since grace ps t.
Proof.
  intros Hps (pre & p & post & -> & Hp & _). apply Forall_app in Hps as [_ [Hc _]%Forall_cons]. congruence.
Qed.

Lemma within_grace_inv grace ps o t :
  pub_clean o = false → pub_hard o = None → ready_since grace ps t →
  match within_grace grace t (pub_now o) with
  | Grace t' => ready_since grace (ps ++ [o]) t'
  | Withdrawn _ => ∀ t', ¬ ready_since grace (ps ++ [o]) t'
  | _ => False
  end.
Proof.
  intros Hc Hh Ht. unfold within_grace. destruct (Z.leb_spec grace (duration_since (pub_now o) t)).
  - intros t'. rewrite ready_since_snoc, Hc. intros [(_ & _ & Hlt) Ht'].
    pose proof (ready_since_unique _ _ _ _ Ht Ht'). subst t'. lia.
  - apply ready_since_snoc. rewrite Hc. done.
Qed.

Definition pub_observe (a : Admission) (o : Publication) : Admission :=
  (observe a (pub_now o) (pub_ready o && negb (pub_stalled o)) (pub_hard o)).1.

Lemma admission_inv_step grace ps a o :
  admission_inv grace ps a → admission_inv grace (ps ++ [o]) (pub_observe a o).
Proof.
  intros [Hg Hs]. split; [done|]. unfold pub_observe, observe, observed_state. cbn [fst adm_state adm_last_ready].
  rewrite Hg. destruct (pub_hard o) as [h|] eqn:Hh.
  { assert (pub_clean o = false) as Hc.
    { unfold pub_clean. rewrite Hh, bool_decide_false by done. apply andb_false_r. }
    assert (∀ t, ¬ ready_since grace (ps ++ [o]) t) as Hno.
    { intros t. rewrite ready_since_snoc, Hc. intros [(_ & Hn & _) _]. congruence. }
    destruct (adm_state a); try done. apply Forall_app. by rewrite Forall_singleton. }
  assert (pub_clean o = pub_ready o && negb (pub_stalled o)) as Hc.
  { unfold pub_clean. rewrite Hh, bool_decide_true by done. apply andb_true_r. }
  rewrite <- Hc. destruct (pub_clean o) eqn:Hclean.
  - rewrite bool_decide_true by done. destruct (adm_state a); cbn [andb];
      (exists (pub_now o); split; [done|]; apply ready_since_snoc; by rewrite Hclean).
  - cbn [andb]. destruct (adm_state a) as [| |since|r].
    + apply Forall_app. by rewrite Forall_singleton.
    + destruct Hs as (t & -> & Ht). pose proof (within_grace_inv grace ps o t Hclean Hh Ht) as Hw.
      cbn [default from_option]. by destruct (within_grace _ _ _).
    + pose proof (within_grace_inv grace ps o since Hclean Hh Hs) as Hw. by destruct (within_grace _ _ _).
    + intros t. rewrite ready_since_snoc, Hclean. intros [_ Ht]. by apply (Hs t).
Qed.

Lemma publish_all_snoc ap ps o : publish_all ap (ps ++ [o]) = publish (publish_all ap ps) o.
Proof. unfold publish_all. by rewrite foldl_app. Qed.

Lemma publish_exposed ap o : ap_exposed ap = true →
  ap_exposed (publish ap o) = true ∧ ap_admission (publish ap o) = pub_observe (ap_admission ap) o ∧
  sig_admits (ap_decision (publish ap o)) = admits (adm_state (pub_observe (ap_admission ap) o)) ∧
  sig_decided_at (ap_decision (publish ap o)) = Some (pub_now o).
Proof. intros He. unfold publish, pub_observe. rewrite He. by destruct (observe _ _ _ _). Qed.

Lemma published_inv grace ps :
  let ap := publish_all (publisher_new grace) ps in
  ap_exposed ap = true ∧ admission_inv grace ps (ap_admission ap).
Proof.
  induction ps as [|o ps [He Hi]] using rev_ind; [split; [done|split; [done|constructor]]|]. cbn zeta in *.
  rewrite publish_all_snoc. destruct (publish_exposed _ o He) as (-> & -> & _).
  split; [done|]. by apply admission_inv_step.
Qed.

Lemma admission_inv_admits grace ps a :
  admission_inv grace ps a → admits (adm_state a) = true ↔ ∃ t, ready_since grace ps t.
Proof.
  intros [_ Hs]. destruct (adm_state a); cbn; split; try done.
  - intros [t Ht]. by eapply unready_no_since in Ht.
  - intros _. destruct Hs as (t & _ & Ht). eauto.
  - eauto.
  - intros [t Ht]. by destruct (Hs t).
Qed.

(** C25: Admission is exactly what its documentation promises: after any run of
    health publications the frontend admits if and only if some publication
    found it ready, unstalled and without a hard fault, none since then
    reported a fault, and each since then came within the grace of it.  So a
    frontend that was never ready admits nothing, a fault withdraws it at once,
    and the grace runs from the last ready publication however many late ones
    follow. *)
Theorem admission_exact grace ps :
  admits (adm_state (ap_admission (publish_all (publisher_new grace) ps))) = true ↔
  ∃ t, ready_since grace ps t.
Proof. apply admission_inv_admits, published_inv. Qed.

(** What the Stratum gate and the readiness endpoint accept is never old:
    if a listener admits at [now], the frontend was found ready without a fault
    less than the grace plus the staleness budget before, and no publication
    since reported a fault. *)
Theorem gate_admits_only_recently_ready grace stale_after ps now :
  0 ≤ grace →
  admits_at (ap_decision (publish_all (publisher_new grace) ps)) now stale_after = true →
  ∃ pre p post, ps = pre ++ p :: post ∧ pub_clean p = true ∧
    Forall (fun o => pub_hard o = None) post ∧ now - pub_now p < grace + stale_after.
Proof.
  intros Hgrace Hadm. destruct ps as [|o ps _] using rev_ind; [done|].
  destruct (published_inv grace ps) as [He Hi]. cbn zeta in *.
  rewrite publish_all_snoc in Hadm. destruct (publish_exposed _ o He) as (_ & _ & Hsa & Hda).
  unfold admits_at, stale_at in Hadm. rewrite Hsa, Hda in Hadm.
  destruct (admits _) eqn:Ha; [|done]. apply Z.ltb_lt in Hadm.
  apply (admission_inv_step _ _ _ o) in Hi. apply (admission_inv_admits _ _ _ Hi) in Ha as [t Ht].
  assert (pub_now o - t ≤ grace) as Hd.
  { apply ready_since_snoc in Ht. destruct (pub_clean o); [lia|]. destruct Ht as [(_ & _ & Hlt) _].
    unfold duration_since in Hlt. lia. }
  destruct Ht as (pre & p & post & Heq & Hp & Ht & Hpost). exists pre, p, post. split_and!; [done..| |].
  - eapply Forall_impl; [exact Hpost|]. by intros q (_ & ? & _).
  - lia.
Qed.

Lemma gate_admits_only_recently_ready_witness :
  let ps := [{| pub_now := 5; pub_ready := true; pub_stalled := false; pub_dual := None |};
             {| pub_now := 7; pub_ready := false; pub_stalled := false; pub_dual := None |}] in
  ∃ pre p post, ps = pre ++ p :: post ∧ pub_clean p = true ∧ 9 - pub_now p < 10 + 3.
Proof.
  destruct (gate_admits_only_recently_ready 10 3
    [{| pub_now := 5; pub_ready := true; pub_stalled := false; pub_dual := None |};
     {| pub_now := 7; pub_ready := false; pub_stalled := false; pub_dual := None |}] 9
    ltac:(discriminate) ltac:(vm_compute; reflexivity))
    as (pre & p & post & Heq & Hp & _ & Hlt).
  exists pre, p, post. split; [exact Heq|]. split; [exact Hp|exact Hlt].
Defined.
