(* ===== verification/RetainedJobs.v ===== *)
(** The jobs a Stratum session still honours
    (crates/qbit-prism-server/src/stratum/retained_jobs.rs and stale_grace.rs):
    the active queue, the graveyard of evicted work and its caps, the
    retirement of superseded work to block-only, the stale grace and pruning,
    and the delivery and resume steps of stratum.rs that drive them.  A step
    that reads the clock takes the instant it reads. *)
From Stdlib Require Import ZArith Lia SpecFloat.
From Stdlib Require String.
From stdpp Require Import base numbers option list strings gmap fin_maps.
From S2P Require Import Prelude F64 MiningJob Admission.

Open Scope Z_scope.

#[export] Instance job_kind_eq_dec : EqDecision JobKind.
Proof. solve_decision. Defined.

(** * Durations and seconds *)
Definition NANOS_PER_SEC : Z := 1000000000.
Definition f64_of_Z (z : Z) : f64 := binary_normalize 53 1024 z 0 false.
Definition f64_le (x y : f64) : bool := SFleb x y.
(** [f64::max]: the other operand when one is NaN. *)
Definition f64_max (x y : f64) : f64 :=
  match x, y with
  | S754_nan, y => y
  | x, S754_nan => x
  | x, y => if SFltb x y then y else x
  end.
(** [Duration::as_secs_f64]. *)
Definition as_secs_f64 (d : Z) : f64 :=
  SFadd 53 1024 (f64_of_Z (d / NANOS_PER_SEC))
    (SFdiv 53 1024 (f64_of_Z (d mod NANOS_PER_SEC)) (f64_of_Z NANOS_PER_SEC)).
(** [Duration::from_secs_f64]: to the nearest nanosecond, ties to even; a
    negative, infinite, NaN or too large number of seconds panics. *)
Definition round_div_even (num den : Z) : Z :=
  let q := num / den in
  let r := num mod den in
  if (den <? 2 * r) || ((den =? 2 * r) && Z.odd q) then q + 1 else q.
Definition from_secs_f64 {E} (x : f64) : result E Z :=
  match x with
  | S754_zero _ => Ok 0
  | S754_finite false m e =>
      let nanos := round_div_even (Z.pos m * NANOS_PER_SEC * 2 ^ Z.max 0 e) (2 ^ Z.max 0 (- e)) in
      if nanos <? 2 ^ 64 * NANOS_PER_SEC then Ok nanos
      else Panic "cannot convert float seconds to Duration: value is either too big or NaN"
  | S754_finite true _ _ => Panic "cannot convert float seconds to Duration: value is negative"
  | _ => Panic "cannot convert float seconds to Duration: value is either too big or NaN"
  end.

(** * Configuration and published tip *)
Record StratumConfig := {
  sc_max_jobs_per_connection : Z;
  sc_job_retention_seconds : f64;
  sc_stale_grace_seconds : f64;
}.
Record RetentionTip := {
  rt_hash : string;
  rt_parent : option string;
  rt_transitioned : bool;
}.

(** * Stale grace *)
Record StaleGrace := {
  sg_interval : Z;
  sg_delivered : option (string * Z);
  sg_checked_at : Z;
}.
Definition for_connection (interval : Z) (delivered : option (string * Z)) (now : Z) : StaleGrace :=
  {| sg_interval := interval; sg_delivered := delivered; sg_checked_at := now |}.
Definition eligible_for (g : StaleGrace) (current_tip : string) : bool :=
  negb (sg_interval g =? 0) &&
  match sg_delivered g with
  | None => true
  | Some (tip, at_) =>
      negb (String.eqb tip current_tip) || (duration_since (sg_checked_at g) at_ <=? sg_interval g)
  end.
Definition keeps_previous (tip : RetentionTip) (parent : string) (grace : StaleGrace) : bool :=
  rt_transitioned tip && negb (String.eqb (rt_hash tip) parent) &&
  eligible_for grace (rt_hash tip) &&
  match rt_parent tip with None => true | Some previous => String.eqb previous parent end.

Section sessions.
(** The mining context, the worker identity and the username reservation are
    carried, never inspected (but for the worker's name). *)
Context {Ctx Worker Permit : Type} (username : Worker -> string).

Record IssuedJob := {
  ij_wire : Job;
  ij_context : Ctx;
  ij_worker : Worker;
  ij_authorization_permit : option Permit;
  ij_version_mask : Z;
  ij_retired_at : option Z;
}.
Definition ij_id (j : IssuedJob) : string := job_id (ij_wire j).
Definition ij_kind (j : IssuedJob) : JobKind := job_kind (ij_wire j).
Definition ij_parent (j : IssuedJob) : string := job_previousblockhash (ij_wire j).

Definition with_kind (job : Job) (clean_jobs : bool) (kind : JobKind) : Job :=
  {| job_id := job_id job; job_previousblockhash := job_previousblockhash job;
     job_prevhash := job_prevhash job; job_coinb1 := job_coinb1 job; job_coinb2 := job_coinb2 job;
     job_full_coinbase_prefix := job_full_coinbase_prefix job;
     job_full_coinbase_suffix := job_full_coinbase_suffix job;
     job_merkle_branch := job_merkle_branch job; job_transactions := job_transactions job;
     job_version := job_version job; job_version_mask := job_version_mask job;
     job_nbits := job_nbits job; job_ntime := job_ntime job; job_mintime := job_mintime job;
     job_network_target := job_network_target job; job_share_target := job_share_target job;
     job_share_difficulty := job_share_difficulty job; job_extranonce1 := job_extranonce1 job;
     job_extranonce2_size := job_extranonce2_size job; job_clean_jobs := clean_jobs;
     job_resume_expires_at := job_resume_expires_at job;
     job_refresh_generation := job_refresh_generation job;
     job_payout_revision := job_payout_revision job; job_kind := kind |}.

(** * The graveyard *)
Record RetainedJobs := {
  rj_jobs : gmap string IssuedJob;
  rj_order : list string;
}.
Definition retained_default : RetainedJobs := {| rj_jobs := ∅; rj_order := [] |}.

Definition supersedes (replacement prior : Job) : bool :=
  String.eqb (job_previousblockhash prior) (job_previousblockhash replacement) &&
  negb (job_payout_revision prior =? job_payout_revision replacement).

Definition retire_to_block_only (j : IssuedJob) : IssuedJob :=
  {| ij_wire := with_kind (ij_wire j) (job_clean_jobs (ij_wire j)) BlockOnly;
     ij_context := ij_context j; ij_worker := ij_worker j; ij_authorization_permit := None;
     ij_version_mask := ij_version_mask j; ij_retired_at := ij_retired_at j |}.

Definition retained_is_empty (r : RetainedJobs) : bool := bool_decide (rj_jobs r = ∅).
Definition retained_get (r : RetainedJobs) (id : string) : option IssuedJob := rj_jobs r !! id.
Definition retained_permit (r : RetainedJobs) (name : string) : option Permit :=
  head (omap (fun id =>
    j ← rj_jobs r !! id;
    if String.eqb (username (ij_worker j)) name then ij_authorization_permit j else None)
    (reverse (rj_order r))).

(** [order.retain(..)] of [cap]: its closure counts down [same_tip]. *)
Definition cap_step (capped : IssuedJob -> bool) (limit : Z)
    (acc : gmap string IssuedJob * Z * list string) (id : string)
  : gmap string IssuedJob * Z * list string :=
  let '(jobs, same_tip, kept) := acc in
  if (limit <? same_tip) && (match jobs !! id with Some j => capped j | None => false end)
  then (delete id jobs, same_tip - 1, kept)
  else (jobs, same_tip, kept ++ [id]).
(** [while order.len() > bound { pop_front; remove }]. *)
Fixpoint truncate (bound : Z) (jobs : gmap string IssuedJob) (order : list string) : RetainedJobs :=
  match order with
  | id :: rest =>
      if bound <? Z.of_nat (length order) then truncate bound (delete id jobs) rest
      else {| rj_jobs := jobs; rj_order := order |}
  | [] => {| rj_jobs := jobs; rj_order := [] |}
  end.

Definition is_capped (kind : JobKind) (published_tip : option string) (j : IssuedJob) : bool :=
  bool_decide (ij_kind j = kind) &&
  match published_tip with None => true | Some tip => String.eqb (ij_parent j) tip end.

Definition cap (r : RetainedJobs) (kind : JobKind) (config : StratumConfig)
    (published_tip : option string) : RetainedJobs :=
  let capped := is_capped kind published_tip in
  let same_tip := Z.of_nat (size (filter (fun kv => capped kv.2 = true) (rj_jobs r))) in
  let '(jobs, _, order) :=
    foldl (cap_step capped (sc_max_jobs_per_connection config)) (rj_jobs r, same_tip, []) (rj_order r) in
  truncate (saturating Usize (sc_max_jobs_per_connection config * 3)) jobs order.

Definition retire_superseded (r : RetainedJobs) (replacement : Job) (config : StratumConfig)
    (published_tip : option string) : RetainedJobs :=
  let jobs := (fun j => if supersedes replacement (ij_wire j) then retire_to_block_only j else j)
              <$> rj_jobs r in
  cap {| rj_jobs := jobs; rj_order := rj_order r |} BlockOnly config published_tip.

Definition retired_now (now : Z) (j : IssuedJob) : IssuedJob :=
  {| ij_wire := ij_wire j; ij_context := ij_context j; ij_worker := ij_worker j;
     ij_authorization_permit := ij_authorization_permit j; ij_version_mask := ij_version_mask j;
     ij_retired_at := Some now |}.

Definition bury (r : RetainedJobs) (j : IssuedJob) (config : StratumConfig)
    (published_tip : option string) (now : Z) : RetainedJobs :=
  let id := ij_id j in
  cap {| rj_jobs := <[id := retired_now now j]> (rj_jobs r);
         rj_order := filter (fun old => old ≠ id) (rj_order r) ++ [id] |}
    (ij_kind j) config published_tip.

Definition keep_retained (config : StratumConfig) (tip : option RetentionTip) (grace : StaleGrace)
    (now : Z) (j : IssuedJob) : bool :=
  if match job_resume_expires_at (ij_wire j) with Some expiry => expiry <=? now | None => false end
  then false else
  let buried_recently :=
    match ij_retired_at j with
    | Some buried => f64_le (as_secs_f64 (duration_since now buried)) (sc_job_retention_seconds config)
    | None => false
    end in
  match tip with
  | Some tip =>
      if negb (String.eqb (rt_hash tip) (ij_parent j))
      then bool_decide (ij_kind j = Credit) && keeps_previous tip (ij_parent j) grace
      else buried_recently
  | None => buried_recently
  end.

Definition retained_prune (r : RetainedJobs) (config : StratumConfig) (tip : option RetentionTip)
    (grace : StaleGrace) (now : Z) : RetainedJobs :=
  let jobs := filter (fun kv => keep_retained config tip grace now kv.2 = true) (rj_jobs r) in
  {| rj_jobs := jobs; rj_order := filter (fun id => is_Some (jobs !! id)) (rj_order r) |}.

(** * Sessions *)
Record Session := {
  ses_jobs : list IssuedJob;
  ses_retained : RetainedJobs;
  ses_tip_work_delivered : option (string * Z);
}.
Definition session_new : Session :=
  {| ses_jobs := []; ses_retained := retained_default; ses_tip_work_delivered := None |}.

(** [while jobs.len() >= max { if let Some(job) = pop_front { bury } }]; with a
    maximum of 0 the loop never ends. *)
Fixpoint make_job_room (config : StratumConfig) (published_tip : option string) (now : Z)
    (jobs : list IssuedJob) (retained : RetainedJobs) : option (list IssuedJob * RetainedJobs) :=
  if sc_max_jobs_per_connection config <=? Z.of_nat (length jobs) then
    match jobs with
    | [] => None
    | j :: rest => make_job_room config published_tip now rest (bury retained j config published_tip now)
    end
  else Some (jobs, retained).

(** The drain of the active queue in [bury_superseded_same_parent]. *)
Fixpoint bury_superseded (replacement : Job) (config : StratumConfig) (published_tip : option string)
    (now : Z) (jobs : list IssuedJob) (retained : RetainedJobs) : list IssuedJob * RetainedJobs :=
  match jobs with
  | [] => ([], retained)
  | prior :: rest =>
      if supersedes replacement (ij_wire prior) then
        bury_superseded replacement config published_tip now rest
          (bury retained (retire_to_block_only prior) config published_tip now)
      else
        let '(kept, retained) := bury_superseded replacement config published_tip now rest retained in
        (prior :: kept, retained)
  end.
Definition bury_superseded_same_parent (replacement : Job) (config : StratumConfig)
    (published_tip : option string) (now : Z) (s : Session) : list IssuedJob * RetainedJobs :=
  bury_superseded replacement config published_tip now (ses_jobs s)
    (retire_superseded (ses_retained s) replacement config published_tip).

Definition stale_grace {E} (s : Session) (config : StratumConfig) (now : Z) : result E StaleGrace :=
  interval ← from_secs_f64 (sc_stale_grace_seconds config);
  Ok (for_connection interval (ses_tip_work_delivered s) now).

Definition note_delivery (delivered : option (string * Z)) (tip : string) (now : Z)
  : option (string * Z) :=
  match delivered with
  | Some (old, at_) => if String.eqb old tip then delivered else Some (tip, now)
  | None => Some (tip, now)
  end.

Definition keep_active (config : StratumConfig) (tip : option RetentionTip) (grace : StaleGrace)
    (now : Z) (j : IssuedJob) : bool :=
  if match job_resume_expires_at (ij_wire j) with Some expires => expires <=? now | None => false end
  then false
  else if match tip with Some tip => keeps_previous tip (ij_parent j) grace | None => false end
  then true
  else match ij_retired_at j with
       | None => true
       | Some when =>
           f64_le (as_secs_f64 (duration_since now when))
             (f64_max (sc_job_retention_seconds config) (sc_stale_grace_seconds config))
       end.

Definition prune_jobs {E} (s : Session) (config : StratumConfig) (tip : option RetentionTip) (now : Z)
  : result E Session :=
  grace ← stale_grace s config now;
  Ok {| ses_jobs := filter (fun j => keep_active config tip grace now j = true) (ses_jobs s);
        ses_retained := retained_prune (ses_retained s) config tip grace now;
        ses_tip_work_delivered := ses_tip_work_delivered s |}.

(** The end of [deliver_job], once the work was written to the miner: the
    session's own bookkeeping, with the [clean_jobs] flag set before the write.
    The clock is read once. *)
Definition deliver (s : Session) (config : StratumConfig) (tip : option RetentionTip) (now : Z)
    (wire : Job) (ctx : Ctx) (worker : Worker) (permit : option Permit) (mask : Z) : option Session :=
  let work_invalidated :=
    match last (ses_jobs s) with
    | None => true
    | Some prior => negb (String.eqb (ij_parent prior) (job_previousblockhash wire)) ||
                    negb (job_payout_revision (ij_wire prior) =? job_payout_revision wire)
    end in
  let wire := with_kind wire work_invalidated (job_kind wire) in
  let published_tip := rt_hash <$> tip in
  let retired := (fun j => match ij_retired_at j with Some _ => j | None => retired_now now j end)
                 <$> ses_jobs s in
  let s' := {| ses_jobs := retired; ses_retained := ses_retained s;
               ses_tip_work_delivered := note_delivery (ses_tip_work_delivered s)
                                           (job_previousblockhash wire) now |} in
  let '(kept, retained) := bury_superseded_same_parent wire config published_tip now s' in
  '(jobs, retained) ← make_job_room config published_tip now kept retained;
  Some {| ses_jobs := jobs ++ [{| ij_wire := wire; ij_context := ctx; ij_worker := worker;
                                  ij_authorization_permit := permit; ij_version_mask := mask;
                                  ij_retired_at := None |}];
          ses_retained := retained; ses_tip_work_delivered := ses_tip_work_delivered s' |}.

(** The resume of a job the session does not hold, on [mining.submit]. *)
Definition resume (s : Session) (config : StratumConfig) (tip : option RetentionTip) (now : Z)
    (wire : Job) (ctx : Ctx) (worker : Worker) (permit : option Permit) : option Session :=
  '(jobs, retained) ← make_job_room config (rt_hash <$> tip) now (ses_jobs s) (ses_retained s);
  Some {| ses_jobs := {| ij_wire := wire; ij_context := ctx; ij_worker := worker;
                         ij_authorization_permit := permit; ij_version_mask := job_version_mask wire;
                         ij_retired_at := Some now |} :: jobs;
          ses_retained := retained; ses_tip_work_delivered := ses_tip_work_delivered s |}.
End sessions.
