(* ===== verification/RetainedFacts.v ===== *)
(** What a Stratum session guarantees about the work it still honours: the
    memory it can hold is bounded whatever the miner and the chain do, and work
    a payout replacement supersedes never reaches a credit path again. *)
From Stdlib Require Import ZArith Lia.
From Stdlib Require String.
From stdpp Require Import base numbers option list strings gmap fin_maps relations.
From S2P Require Import Prelude F64 MiningJob Admission RetainedJobs.

Open Scope Z_scope.

Section facts.
Context {Ctx Worker Permit : Type}.
Implicit Types (r : @RetainedJobs Ctx Worker Permit) (j : @IssuedJob Ctx Worker Permit)
  (jobs : gmap string (@IssuedJob Ctx Worker Permit)) (s : @Session Ctx Worker Permit).

(** * The graveyard *)
(** The burial order lists exactly the buried ids, once each. *)
Record wf_retained r : Prop := {
  wr_nodup : NoDup (rj_order r);
  wr_keys id : id ∈ rj_order r ↔ is_Some (rj_jobs r !! id);
}.

Definition count_of (P : IssuedJob -> bool) jobs : Z :=
  Z.of_nat (size (filter (fun kv : string * IssuedJob => P kv.2 = true) jobs)).

Lemma count_of_delete P jobs id j :
  jobs !! id = Some j → P j = true → count_of P (delete id jobs) = count_of P jobs - 1.
Proof.
  intros Hj HP. unfold count_of. rewrite map_filter_delete, map_size_delete_Some.
  - pose proof (map_size_ne_0_lookup_2 (filter (fun kv : string * IssuedJob => P kv.2 = true) jobs) id) as Hne.
    assert (is_Some (filter (fun kv : string * IssuedJob => P kv.2 = true) jobs !! id)) as Hs
      by (exists j; by apply map_lookup_filter_Some). specialize (Hne Hs). lia.
  - exists j. by apply map_lookup_filter_Some.
Qed.

Lemma count_of_zero P jobs : (∀ id j, jobs !! id = Some j → P j = false) → count_of P jobs = 0.
Proof.
  intros HP. unfold count_of. rewrite (proj2 (map_empty_filter _ jobs)); [by rewrite map_size_empty|].
  intros id j Hj. cbn. rewrite (HP id j Hj). done.
Qed.

Lemma count_of_subseteq P jobs jobs' : jobs ⊆ jobs' → count_of P jobs ≤ count_of P jobs'.
Proof.
  intros Hsub. unfold count_of. apply inj_le, map_subseteq_size, map_filter_subseteq_mono, Hsub.
Qed.

(** The counting loop of [cap]: [kept ++ rest] are the ids still buried. *)
Lemma cap_loop P limit rest jobs st kept jobs' st' kept' :
  0 ≤ limit → NoDup (kept ++ rest) → (∀ id, id ∈ kept ++ rest ↔ is_Some (jobs !! id)) →
  st = count_of P jobs →
  (limit < st → ∀ id j, id ∈ kept → jobs !! id = Some j → P j = false) →
  foldl (cap_step P limit) (jobs, st, kept) rest = (jobs', st', kept') →
  NoDup kept' ∧ (∀ id, id ∈ kept' ↔ is_Some (jobs' !! id)) ∧ jobs' ⊆ jobs ∧ count_of P jobs' ≤ limit.
Proof.
  intros Hlim. revert jobs st kept. induction rest as [|id rest IH]; intros jobs st kept Hnd Hkeys Hst Hkept Hfold.
  { rewrite app_nil_r in *. injection Hfold as <- <- <-. split_and!; [done..|].
    destruct (decide (limit < st)) as [Hlt|]; [|lia].
    rewrite count_of_zero in Hst; [lia|]. intros id j Hj. eapply (Hkept Hlt); [|exact Hj]. apply Hkeys. eauto. }
  cbn [foldl] in Hfold. unfold cap_step at 2 in Hfold.
  assert (is_Some (jobs !! id)) as [j Hj] by (apply Hkeys; set_solver). rewrite Hj in Hfold.
  destruct ((limit <? st) && P j) eqn:Hb.
  - apply andb_true_iff in Hb as [Hlt%Z.ltb_lt HP].
    pose proof (delete_subseteq jobs id) as Hsub.
    destruct (IH (delete id jobs) (st - 1) kept) as (? & ? & Hs' & ?); [..|split_and!; [done|done|by etrans|done]].
    + apply NoDup_app in Hnd as (? & Hd & [? ?]%NoDup_cons). apply NoDup_app. split_and!; [done| |done]. set_solver.
    + intros id'. rewrite lookup_delete_is_Some, <- Hkeys.
      assert (id ∉ kept ++ rest) as Hni.
      { rewrite <- Permutation_middle in Hnd. by apply NoDup_cons in Hnd as [??]. }
      set_solver.
    + rewrite (count_of_delete _ _ _ _ Hj HP). lia.
    + intros _ id' j' Hk Hj'. apply lookup_delete_Some in Hj' as [_ Hj']. by eapply Hkept.
    + exact Hfold.
  - destruct (IH jobs st (kept ++ [id])) as (? & ? & ? & ?); [..|done].
    + by rewrite <- app_assoc.
    + intros id'. by rewrite <- app_assoc, <- Hkeys.
    + done.
    + intros Hlt id' j' [Hk|Hid%list_elem_of_singleton]%elem_of_app Hj'; [by eapply Hkept|]. subst id'.
      rewrite Hj in Hj'. injection Hj' as <-. rewrite (proj2 (Z.ltb_lt _ _) Hlt) in Hb. exact Hb.
    + exact Hfold.
Qed.

Lemma truncate_ok bound jobs order :
  0 ≤ bound → NoDup order → (∀ id, id ∈ order ↔ is_Some (jobs !! id)) →
  wf_retained (truncate bound jobs order) ∧ rj_jobs (truncate bound jobs order) ⊆ jobs ∧
  Z.of_nat (length (rj_order (truncate bound jobs order))) ≤ bound.
Proof.
  intros Hb. revert jobs. induction order as [|id order IH]; intros jobs Hnd Hkeys; cbn [truncate].
  { split_and!; [by constructor|done|cbn; lia]. }
  destruct (Z.ltb_spec bound (Z.of_nat (length (id :: order)))); [|split_and!; [by constructor|done|cbn [rj_order]; lia]].
  apply NoDup_cons in Hnd as [Hni Hnd]. destruct (IH (delete id jobs)) as (? & Hs & ?); [done| |].
  - intros id'. rewrite lookup_delete_is_Some, <- Hkeys. set_solver.
  - split_and!; [done| |done]. etrans; [exact Hs|]. apply delete_subseteq.
Qed.

Context (config : StratumConfig) (Hmax : 0 < sc_max_jobs_per_connection config).
Notation N := (sc_max_jobs_per_connection config).

(** A graveyard within its bounds. *)
Record bounded_retained r : Prop := {
  br_wf : wf_retained r;
  br_size : Z.of_nat (length (rj_order r)) ≤ 3 * N;
}.

Lemma cap_ok r kind tip :
  wf_retained r →
  bounded_retained (cap r kind config tip) ∧ rj_jobs (cap r kind config tip) ⊆ rj_jobs r ∧
  count_of (is_capped kind tip) (rj_jobs (cap r kind config tip)) ≤ N.
Proof.
  intros [Hnd Hkeys]. unfold cap.
  destruct (foldl _ _ _) as [[jobs st] order] eqn:Hfold.
  apply cap_loop in Hfold as (Hnd' & Hkeys' & Hsub & Hcount); [|lia|done|done|done|].
  2: { intros _ id j Hk. set_solver. }
  destruct (truncate_ok (saturating Usize (N * 3)) jobs order) as (Hwf & Hsub' & Hlen); [|done|done|].
  { unfold saturating. widths. }
  split_and!; [|by etrans|].
  - constructor; [done|]. etrans; [exact Hlen|]. unfold saturating. widths.
  - etrans; [|exact Hcount]. by apply count_of_subseteq.
Qed.

Lemma fmap_wf r (f : IssuedJob -> IssuedJob) :
  wf_retained r → wf_retained {| rj_jobs := f <$> rj_jobs r; rj_order := rj_order r |}.
Proof.
  intros [Hnd Hkeys]. constructor; [done|]. intros id. cbn. by rewrite lookup_fmap, fmap_is_Some, <- Hkeys.
Qed.

Lemma bury_ok r j tip now :
  wf_retained r →
  bounded_retained (bury r j config tip now) ∧
  rj_jobs (bury r j config tip now) ⊆ <[ij_id j := retired_now now j]> (rj_jobs r) ∧
  count_of (is_capped (ij_kind j) tip) (rj_jobs (bury r j config tip now)) ≤ N.
Proof.
  intros [Hnd Hkeys]. apply cap_ok. constructor; cbn.
  - apply NoDup_app. split_and!; [by apply NoDup_filter| |apply NoDup_singleton].
    intros x [Hx _]%list_elem_of_filter Hx'%list_elem_of_singleton. done.
  - intros id. rewrite elem_of_app, list_elem_of_filter, list_elem_of_singleton, Hkeys, lookup_insert_is_Some.
    destruct (decide (id = ij_id j)); naive_solver.
Qed.

Lemma prune_ok r tip grace now :
  bounded_retained r →
  bounded_retained (retained_prune r config tip grace now) ∧
  rj_jobs (retained_prune r config tip grace now) ⊆ rj_jobs r.
Proof.
  intros [[Hnd Hkeys] Hlen]. unfold retained_prune. set (jobs := filter _ (rj_jobs r)).
  assert (jobs ⊆ rj_jobs r) as Hsub by apply map_filter_subseteq.
  split; [|done]. constructor; [constructor|]; cbn.
  - by apply NoDup_filter.
  - intros id. rewrite list_elem_of_filter. split; [by intros [? _]|]. intros Hid. split; [done|].
    apply Hkeys. destruct Hid as [j Hj]. exists j. by eapply lookup_weaken.
  - pose proof (length_filter (fun id => is_Some (jobs !! id)) (rj_order r)). lia.
Qed.

(** * Properties of the buried jobs *)
Notation all P r := (map_Forall (fun _ j => P j) (rj_jobs r)).

Lemma all_subseteq (P : IssuedJob -> Prop) r r' : rj_jobs r' ⊆ rj_jobs r → all P r → all P r'.
Proof. intros Hsub HP id j Hj. eapply HP, lookup_weaken; done. Qed.

(** [P] survives the stamping of the burial time. *)
Definition burial_stable (P : IssuedJob -> Prop) : Prop := ∀ now j, P j → P (retired_now now j).

Lemma bury_all (P : IssuedJob -> Prop) r j tip now :
  burial_stable P → wf_retained r → all P r → P j → all P (bury r j config tip now).
Proof.
  intros Hst Hwf Hr Hj. destruct (bury_ok r j tip now Hwf) as (_ & Hsub & _).
  intros id j' Hj'. eapply lookup_weaken in Hj'; [|exact Hsub].
  apply lookup_insert_Some in Hj' as [[_ <-]|[_ Hj']]; [by apply Hst|]. by eapply Hr.
Qed.

Lemma make_job_room_ok (P : IssuedJob -> Prop) tip now active r :
  burial_stable P → bounded_retained r → all P r → Forall P active →
  ∃ active' r', make_job_room config tip now active r = Some (active', r') ∧
    Z.of_nat (length active') < N ∧ (∃ evicted, active = evicted ++ active') ∧
    bounded_retained r' ∧ all P r'.
Proof.
  intros Hst. revert r. induction active as [|j active IH]; intros r Hr HPr HP; cbn [make_job_room].
  { rewrite (proj2 (Z.leb_gt _ _)) by (cbn; lia). exists [], r. split_and!; [done|cbn; lia|by exists []|done|done]. }
  destruct (Z.leb_spec N (Z.of_nat (length (j :: active)))).
  - apply Forall_cons in HP as [HPj HP].
    destruct (IH (bury r j config tip now)) as (active' & r' & -> & Hlen & [ev ->] & Hr' & HPr');
      [apply bury_ok, Hr|apply bury_all; try done; apply Hr|done|].
    exists active', r'. split_and!; [done..|by exists (j :: ev)|done|done].
  - exists (j :: active), r. split_and!; [done|lia|by exists []|done|done].
Qed.

(** * Superseded work *)
(** Block-only work holds no username reservation. *)
Definition quiet j : Prop := ij_kind j = BlockOnly → ij_authorization_permit j = None.
(** Work the replacement supersedes is block-only. *)
Definition settled (replacement : Job) j : Prop :=
  supersedes replacement (ij_wire j) = true → ij_kind j = BlockOnly.
Definition retired_for (replacement : Job) j : Prop := quiet j ∧ settled replacement j.

Lemma quiet_stable : burial_stable quiet.
Proof. by intros now j Hq. Qed.
Lemma retired_for_stable replacement : burial_stable (retired_for replacement).
Proof. intros now j [Hq Hs]. split; [by apply quiet_stable|exact Hs]. Qed.
Lemma retire_retired_for replacement j : retired_for replacement (retire_to_block_only j).
Proof. by split. Qed.

Lemma count_of_insert P jobs id j :
  P j = false → count_of P (<[id := j]> jobs) ≤ count_of P jobs.
Proof.
  intros HP. unfold count_of. rewrite map_filter_insert_False by (cbn; by rewrite HP).
  apply inj_le, map_subseteq_size, map_filter_subseteq_mono, delete_subseteq.
Qed.

Lemma bury_count r j tip now kind :
  wf_retained r → count_of (is_capped kind tip) (rj_jobs r) ≤ N →
  count_of (is_capped kind tip) (rj_jobs (bury r j config tip now)) ≤ N.
Proof.
  intros Hwf Hc. destruct (bury_ok r j tip now Hwf) as (_ & Hsub & Hcount).
  destruct (decide (ij_kind j = kind)) as [<-|Hne]; [done|].
  etrans; [by apply count_of_subseteq|]. etrans; [|exact Hc]. apply count_of_insert.
  unfold is_capped. rewrite bool_decide_false by done. done.
Qed.

Lemma retire_superseded_ok r replacement tip :
  wf_retained r → all quiet r →
  let r' := retire_superseded r replacement config tip in
  bounded_retained r' ∧ all (retired_for replacement) r' ∧
  count_of (is_capped BlockOnly tip) (rj_jobs r') ≤ N.
Proof.
  intros Hwf Hq r'. destruct (cap_ok _ BlockOnly tip (fmap_wf r
    (fun j => if supersedes replacement (ij_wire j) then retire_to_block_only j else j) Hwf)) as (Hb & Hsub & Hc).
  split_and!; [done| |done]. eapply all_subseteq; [exact Hsub|]. cbn. intros id j.
  rewrite lookup_fmap, fmap_Some. intros (j' & Hj' & ->).
  destruct (supersedes replacement (ij_wire j')) eqn:Hs; [apply retire_retired_for|].
  split; [by eapply Hq|]. unfold settled. by rewrite Hs.
Qed.

Lemma bury_superseded_ok replacement tip now active r kept r' :
  bounded_retained r → all (retired_for replacement) r →
  count_of (is_capped BlockOnly tip) (rj_jobs r) ≤ N →
  bury_superseded replacement config tip now active r = (kept, r') →
  kept = filter (fun j => supersedes replacement (ij_wire j) = false) active ∧
  bounded_retained r' ∧ all (retired_for replacement) r' ∧
  count_of (is_capped BlockOnly tip) (rj_jobs r') ≤ N.
Proof.
  revert r kept r'. induction active as [|j active IH]; intros r kept r' Hb Ha Hc; cbn [bury_superseded].
  { by intros [= <- <-]. }
  rewrite filter_cons. destruct (supersedes replacement (ij_wire j)) eqn:Hs.
  - rewrite decide_False by done. intros Hr. apply IH in Hr; [done|..].
    + apply bury_ok, Hb.
    + apply bury_all; [apply retired_for_stable|apply Hb|done|apply retire_retired_for].
    + apply bury_count; [apply Hb|done].
  - rewrite decide_True by done. destruct (bury_superseded _ _ _ _ active r) as [kept' r''] eqn:Hr.
    intros [= <- <-]. destruct (IH _ _ _ Hb Ha Hc Hr) as (-> & ? & ? & ?). done.
Qed.

Lemma make_job_room_count kind tip now active r active' r' :
  wf_retained r → count_of (is_capped kind tip) (rj_jobs r) ≤ N →
  make_job_room config tip now active r = Some (active', r') →
  count_of (is_capped kind tip) (rj_jobs r') ≤ N.
Proof.
  revert r. induction active as [|j active IH]; intros r Hwf Hc; cbn [make_job_room]; destruct (N <=? _); try done.
  - by intros [= <- <-].
  - apply IH; [apply bury_ok, Hwf|by apply bury_count].
  - by intros [= <- <-].
Qed.

(** * Sessions *)
Record session_ok s : Prop := {
  so_active : Z.of_nat (length (ses_jobs s)) ≤ N;
  so_credit : Forall (fun j => ij_kind j = Credit) (ses_jobs s);
  so_retained : bounded_retained (ses_retained s);
  so_quiet : all quiet (ses_retained s);
}.

Lemma session_new_ok : session_ok session_new.
Proof.
  constructor; cbn; [lia|constructor| |apply map_Forall_empty].
  constructor; [constructor; [constructor|]|cbn; lia]. intros id. cbn. rewrite lookup_empty, is_Some_alt. set_solver.
Qed.

(** Everything a delivery guarantees. *)
Lemma deliver_ok s tip now wire ctx worker permit mask :
  session_ok s → job_kind wire = Credit →
  ∃ s', deliver s config tip now wire ctx worker permit mask = Some s' ∧ session_ok s' ∧
    Forall (fun j => supersedes wire (ij_wire j) = false) (ses_jobs s') ∧
    all (retired_for wire) (ses_retained s') ∧
    count_of (is_capped BlockOnly (rt_hash <$> tip)) (rj_jobs (ses_retained s')) ≤ N ∧
    (ij_wire <$> last (ses_jobs s')) = Some (with_kind wire
       (match last (ses_jobs s) with
        | None => true
        | Some prior => negb (String.eqb (ij_parent prior) (job_previousblockhash wire)) ||
                        negb (job_payout_revision (ij_wire prior) =? job_payout_revision wire)
        end) Credit).
Proof.
  intros [Hact Hcr Hret Hq] Hk. unfold deliver. rewrite Hk. set (clean := match last (ses_jobs s) with Some _ => _ | None => _ end).
  set (w := with_kind wire clean Credit). set (retired := _ <$> ses_jobs s).
  unfold bury_superseded_same_parent. cbn [ses_jobs ses_retained].
  destruct (retire_superseded_ok (ses_retained s) w (rt_hash <$> tip) (br_wf _ Hret) Hq) as (Hb & Ha & Hc).
  destruct (bury_superseded _ _ _ _ _ _) as [kept r1] eqn:Hbs.
  destruct (bury_superseded_ok _ _ _ _ _ _ _ Hb Ha Hc Hbs) as (-> & Hb1 & Ha1 & Hc1).
  assert (Forall (fun j => ij_kind j = Credit) retired) as Hcr'.
  { apply Forall_fmap. eapply Forall_impl; [exact Hcr|]. intros j Hj. cbn. by destruct (ij_retired_at j). }
  set (kept := filter _ retired) in *.
  assert (Forall (fun j => supersedes wire (ij_wire j) = false ∧ ij_kind j = Credit) kept) as Hkept.
  { apply Forall_forall. intros j [Hs Hj]%list_elem_of_filter. rewrite Forall_forall in Hcr'. auto. }
  destruct (make_job_room_ok (retired_for w) (rt_hash <$> tip) now kept r1) as
    (active & r2 & Hroom & Hlen & [ev Hev] & Hb2 & Ha2); [apply retired_for_stable|done|done| |].
  { eapply Forall_impl; [exact Hkept|]. intros j [Hs Hkj]. split; [intros Hkj'; congruence|intros Hs'].
    change (supersedes w (ij_wire j)) with (supersedes wire (ij_wire j)) in Hs'. congruence. }
  rewrite Hroom. rewrite Hev in Hkept. apply Forall_app in Hkept as [_ Hkept].
  eexists. split; [done|]. cbn [ses_jobs ses_retained]. split_and!.
  - constructor; cbn [ses_jobs ses_retained]; [rewrite length_app; cbn; lia| |done|].
    + apply Forall_app. split; [eapply Forall_impl; [exact Hkept|]; by intros j [_ ?]|by repeat constructor].
    + intros id j Hj. by destruct (Ha2 id j Hj).
  - apply Forall_app. split; [eapply Forall_impl; [exact Hkept|]; by intros j [? _]|].
    repeat constructor. unfold supersedes. cbn. by rewrite String.eqb_refl, Z.eqb_refl.
  - exact Ha2.
  - eapply make_job_room_count; [apply Hb1|exact Hc1|exact Hroom].
  - by rewrite last_snoc.
Qed.

Lemma resume_ok s tip now wire ctx worker permit :
  session_ok s → job_kind wire = Credit →
  ∃ s', resume s config tip now wire ctx worker permit = Some s' ∧ session_ok s'.
Proof.
  intros [Hact Hcr Hret Hq] Hk. unfold resume.
  destruct (make_job_room_ok quiet (rt_hash <$> tip) now (ses_jobs s) (ses_retained s)) as
    (active & r & -> & Hlen & [ev Hev] & Hb & Ha); [apply quiet_stable|done|done| |].
  { eapply Forall_impl; [exact Hcr|]. intros j Hj Hj'. congruence. }
  rewrite Hev in Hcr. apply Forall_app in Hcr as [_ Hcr].
  eexists. split; [done|]. constructor; cbn [ses_jobs ses_retained length]; [lia|by constructor|done|done].
Qed.

Lemma prune_jobs_ok {E} s tip now s' :
  session_ok s → @prune_jobs _ _ _ E s config tip now = Ok s' → session_ok s'.
Proof.
  intros [Hact Hcr Hret Hq] (grace & _ & [= <-])%bind_Ok.
  destruct (prune_ok (ses_retained s) tip grace now Hret) as [Hb Hsub].
  constructor; cbn [ses_jobs ses_retained]; [| |done|by eapply all_subseteq].
  2: { apply Forall_forall. intros j [_ Hj]%list_elem_of_filter. rewrite Forall_forall in Hcr. auto. }
  pose proof (length_filter (fun j => keep_active config tip grace now j = true) (ses_jobs s)). lia.
Qed.

(** What happens to a session: new work is delivered, a job is resumed for a
    submit, stale work is pruned.  Work comes from the backend as credit work. *)
Inductive session_step : relation (@Session Ctx Worker Permit) :=
| step_deliver s tip now wire ctx worker permit mask s' :
    job_kind wire = Credit →
    deliver s config tip now wire ctx worker permit mask = Some s' → session_step s s'
| step_resume s tip now wire ctx worker permit s' :
    job_kind wire = Credit →
    resume s config tip now wire ctx worker permit = Some s' → session_step s s'
| step_prune s tip now s' :
    @prune_jobs _ _ _ unit s config tip now = Ok s' → session_step s s'.

Lemma session_reachable_ok s : rtc session_step session_new s → session_ok s.
Proof.
  intros Hr. apply (rtc_ind_r (R := session_step) session_ok session_new); [apply session_new_ok| |done].
  intros s1 s2 _ Hstep Hok. destruct Hstep as [s1 tip now wire ctx worker permit mask s2 Hk Hd|
    s1 tip now wire ctx worker permit s2 Hk Hr'|s1 tip now s2 Hp].
  - destruct (deliver_ok s1 tip now wire ctx worker permit mask Hok Hk) as (s' & Hd' & Hok' & _). congruence.
  - destruct (resume_ok s1 tip now wire ctx worker permit Hok Hk) as (s' & Hd' & Hok'). congruence.
  - by eapply prune_jobs_ok.
Qed.

Lemma retained_size r : wf_retained r → size (rj_jobs r) = length (rj_order r).
Proof.
  intros [Hnd Hkeys]. rewrite <- size_dom, <- (size_list_to_set (C := gset string) _ Hnd). f_equal.
  apply set_eq. intros id. by rewrite elem_of_dom, elem_of_list_to_set, Hkeys.
Qed.

(** C26: Whatever a miner, the chain and the backend do to a session, it holds at
    most N active jobs and at most 3N buried ones; the burial order and the map
    of buried jobs name the same ids, each once; and work that was retired to
    block-only holds no username reservation and is never among the active
    jobs. *)
Theorem session_bounded s :
  rtc session_step session_new s →
  Z.of_nat (length (ses_jobs s)) ≤ N ∧
  Z.of_nat (size (rj_jobs (ses_retained s))) ≤ 3 * N ∧
  NoDup (rj_order (ses_retained s)) ∧
  (∀ id, id ∈ rj_order (ses_retained s) ↔ is_Some (rj_jobs (ses_retained s) !! id)) ∧
  Forall (fun j => ij_kind j = Credit) (ses_jobs s) ∧
  map_Forall (fun _ j => ij_kind j = BlockOnly → ij_authorization_permit j = None)
    (rj_jobs (ses_retained s)).
Proof.
  intros [Hact Hcr Hret Hq]%session_reachable_ok. rewrite (retained_size _ (br_wf _ Hret)).
  split_and!; [done|apply Hret..|done|done].
Qed.

(** Delivering replacement work always succeeds and settles the work it
    supersedes (same parent, another payout revision): none of it stays active,
    what is still honoured is block-only and reserves no username, at most N
    block-only jobs of the published tip remain, and the newest active job is
    the one delivered. *)
Theorem delivery_settles_superseded s tip now wire ctx worker permit mask :
  rtc session_step session_new s → job_kind wire = Credit →
  ∃ s', deliver s config tip now wire ctx worker permit mask = Some s' ∧
    Forall (fun j => supersedes wire (ij_wire j) = false) (ses_jobs s') ∧
    map_Forall (fun _ j => supersedes wire (ij_wire j) = true →
      ij_kind j = BlockOnly ∧ ij_authorization_permit j = None) (rj_jobs (ses_retained s')) ∧
    count_of (is_capped BlockOnly (rt_hash <$> tip)) (rj_jobs (ses_retained s')) ≤ N ∧
    (ij_id <$> last (ses_jobs s')) = Some (job_id wire).
Proof.
  intros Hok%session_reachable_ok Hk.
  destruct (deliver_ok s tip now wire ctx worker permit mask Hok Hk) as (s' & Hd & _ & Hact & Hret & Hc & Hlast).
  exists s'. split_and!; [done|done| |done|].
  - intros id j Hj Hs. destruct (Hret id j Hj) as [Hq Hset]. split; [by apply Hset|by apply Hq, Hset].
  - destruct (last (ses_jobs s')); [|done]. injection Hlast as Hw. cbn. unfold ij_id. by rewrite Hw.
Qed.
End facts.

(** * Witnesses *)
Definition demo_job (id : string) (revision : Z) : Job :=
  {| job_id := id; job_previousblockhash := "tip"; job_prevhash := EmptyString; job_coinb1 := EmptyString;
     job_coinb2 := EmptyString; job_full_coinbase_prefix := EmptyString; job_full_coinbase_suffix := EmptyString;
     job_merkle_branch := []; job_transactions := []; job_version := 0; job_version_mask := 0;
     job_nbits := 0; job_ntime := 0; job_mintime := 0; job_network_target := 1;
     job_share_target := 1; job_share_difficulty := f64_zero; job_extranonce1 := EmptyString;
     job_extranonce2_size := 4; job_clean_jobs := false; job_resume_expires_at := None;
     job_refresh_generation := 0; job_payout_revision := revision; job_kind := Credit |}.
Definition demo_config : StratumConfig :=
  {| sc_max_jobs_per_connection := 2; sc_job_retention_seconds := f64_of_Z 120;
     sc_stale_grace_seconds := f64_of_Z 3 |}.
Definition demo_tip : RetentionTip :=
  {| rt_hash := "tip"; rt_parent := None; rt_transitioned := false |}.
Definition demo_deliver (s : @Session unit unit unit) (id : string) (revision : Z) : option Session :=
  deliver s demo_config (Some demo_tip) 1000 (demo_job id revision) tt tt (Some tt) 0.
Definition demo_session : @Session unit unit unit :=
  ltac:(let v := eval vm_compute in (s ← demo_deliver session_new "a" 1; demo_deliver s "b" 1) in
        match v with Some ?s => exact s end).

Lemma demo_reachable : rtc (session_step demo_config) session_new demo_session.
Proof.
  eapply rtc_l; [eapply (step_deliver _ _ (Some demo_tip) 1000 (demo_job "a" 1) tt tt (Some tt) 0);
    [reflexivity|vm_compute; reflexivity]|].
  eapply rtc_l; [eapply (step_deliver _ _ (Some demo_tip) 1000 (demo_job "b" 1) tt tt (Some tt) 0);
    [reflexivity|vm_compute; reflexivity]|].
  apply rtc_refl.
Qed.

Lemma session_bounded_witness :
  length (ses_jobs demo_session) = 2%nat ∧ Z.of_nat (length (ses_jobs demo_session)) ≤ 2.
Proof.
  split; [reflexivity|].
  exact (proj1 (session_bounded demo_config ltac:(reflexivity) demo_session demo_reachable)).
Defined.

Lemma delivery_settles_superseded_witness :
  ∃ s', demo_deliver demo_session "c" 2 = Some s' ∧ (ij_id <$> last (ses_jobs s')) = Some "c" ∧
    Forall (fun j => supersedes (demo_job "c" 2) (ij_wire j) = false) (ses_jobs s') ∧
    size (rj_jobs (ses_retained s')) = 2%nat.
Proof.
  destruct (delivery_settles_superseded demo_config ltac:(reflexivity) demo_session (Some demo_tip) 1000
    (demo_job "c" 2) tt tt (Some tt) 0 demo_reachable ltac:(reflexivity)) as (s' & Hd & Hact & _ & _ & Hlast).
  exists s'. split; [exact Hd|]. split; [exact Hlast|]. split; [exact Hact|].
  assert ((fun s => size (rj_jobs (ses_retained s))) <$> demo_deliver demo_session "c" 2 = Some 2%nat) as Hsize
    by (vm_compute; reflexivity).
  unfold demo_deliver in Hsize. rewrite Hd in Hsize. injection Hsize as Hsize. exact Hsize.
Defined.
