(* ===== verification/Vardiff.v ===== *)
(** Variable share difficulty (qbit-prism-server/src/vardiff.rs) and the part of
    a Stratum session that drives it (qbit-prism-server/src/stratum.rs): the
    controller's configuration and its validation, the retarget rule, the
    evidence it keeps, and the session's difficulty through requests, shares,
    retargets, deliveries and failed deliveries.

    Numbers are binary64; [f64::clamp] panics when its bounds are not ordered.
    An [Instant] is a count of nanoseconds. *)
From Stdlib Require Import ZArith Lia SpecFloat.
From stdpp Require Import base list strings.
From S2P Require Import Prelude Bytes F64 F64Facts Codec AuditVerify.

Open Scope Z_scope.

(** * Standard library *)
Definition f64_of_Z (n : Z) : f64 := binary_normalize 53 1024 n 0 false.
(** A decimal literal [n / d]: both are exact, so the quotient is the nearest. *)
Definition literal (n d : Z) : f64 := f64_div (f64_of_Z n) (f64_of_Z d).
Definition f64_max (x y : f64) : f64 :=
  if is_nan x then y else if is_nan y then x else if f64_lt x y then y else x.
Definition f64_min (x y : f64) : f64 :=
  if is_nan x then y else if is_nan y then x else if f64_lt y x then y else x.
Definition clamp (x lo hi : f64) : result anyhow f64 :=
  if negb (f64_le lo hi) then Panic "min > max, or either was NaN" else
  let x := if f64_lt x lo then lo else x in
  Ok (if f64_gt x hi then hi else x).
(** [Duration::as_secs_f64]. *)
Definition as_secs_f64 (nanos : Z) : f64 :=
  f64_add (f64_of_Z (nanos / 10 ^ 9)) (f64_div (f64_of_Z (nanos mod 10 ^ 9)) (f64_of_Z (10 ^ 9))).
(** [Duration::try_from_secs_f64] of a positive number: below [2 ^ 64] seconds. *)
Definition fits_duration (secs : f64) : bool := f64_lt secs (f64_of_Z (2 ^ 64)).
(** [Instant::elapsed], which never goes below zero. *)
Definition elapsed_since (started now : Z) : f64 := as_secs_f64 (Z.max 0 (now - started)).

(** * Configuration *)
Record VardiffConfig := {
  vc_enabled : bool;
  vc_target_seconds : f64;
  vc_minimum : f64;
  vc_maximum : f64;
  vc_retarget_seconds : f64;
  vc_max_step_up : f64;
  vc_max_step_down : f64;
  vc_ewma_alpha : f64;
  vc_tolerance : f64;
  vc_initial_enabled : bool;
  vc_initial_max_step_up : f64;
  vc_initial_min_shares : Z;
  vc_initial_min_step_up : f64;
  vc_initial_min_seconds : f64;
}.
Definition default_vardiff_config : VardiffConfig := {|
  vc_enabled := true;
  vc_target_seconds := literal 15 1;
  vc_minimum := literal 1 (10 ^ 9);
  vc_maximum := literal 1024 1;
  vc_retarget_seconds := literal 90 1;
  vc_max_step_up := literal 4 1;
  vc_max_step_down := literal 4 1;
  vc_ewma_alpha := literal 4 10;
  vc_tolerance := literal 25 100;
  vc_initial_enabled := true;
  vc_initial_max_step_up := literal 64 1;
  vc_initial_min_shares := 8;
  vc_initial_min_step_up := literal 4 1;
  vc_initial_min_seconds := literal 1 1 |}.

Definition validate_vardiff (c : VardiffConfig) : result anyhow unit :=
  _ ← try_fold (fun _ value =>
        ensure (is_finite value && f64_gt value f64_zero) "vardiff values must be finite and positive") tt
        [vc_target_seconds c; vc_minimum c; vc_maximum c; vc_retarget_seconds c; vc_max_step_up c; vc_max_step_down c;
         vc_ewma_alpha c; vc_initial_max_step_up c; vc_initial_min_step_up c; vc_initial_min_seconds c];
  _ ← ensure (f64_le (vc_minimum c) (vc_maximum c) && f64_ge (vc_max_step_up c) f64_one
              && f64_ge (vc_max_step_down c) f64_one && f64_le (vc_ewma_alpha c) f64_one) "invalid vardiff bounds";
  _ ← ensure (is_finite (vc_tolerance c) && f64_ge (vc_tolerance c) f64_zero) "invalid vardiff tolerance";
  _ ← ensure (f64_ge (vc_initial_max_step_up c) (vc_max_step_up c) && f64_ge (vc_initial_min_step_up c) f64_one
              && (0 <? vc_initial_min_shares c)) "invalid initial vardiff convergence bounds";
  ensure (fits_duration (vc_retarget_seconds c)) "vardiff retarget duration is too large".

Definition next_difficulty (c : VardiffConfig) (current accepted_work elapsed : f64) (previous_estimate : option f64)
  : result anyhow (f64 * option f64) :=
  current ← clamp current (vc_minimum c) (vc_maximum c);
  estimate ←
    (if f64_gt accepted_work f64_zero then
       let observed := f64_div (f64_mul accepted_work (vc_target_seconds c)) (f64_max elapsed (literal 1 1000)) in
       let smoothed :=
         match previous_estimate with
         | None => observed
         | Some old => f64_add (f64_mul (vc_ewma_alpha c) observed) (f64_mul (f64_sub f64_one (vc_ewma_alpha c)) old)
         end in
       Some <$> clamp smoothed (vc_minimum c) (vc_maximum c)
     else Ok None);
  let desired := default (f64_div current (vc_max_step_down c)) estimate in
  stepped ← clamp desired (f64_div current (vc_max_step_down c)) (f64_mul current (vc_max_step_up c));
  next ← clamp stepped (vc_minimum c) (vc_maximum c);
  Ok (next, match estimate with Some e => Some e | None => previous_estimate end).

(** * The controller *)
Record Vardiff := {
  vd_config : VardiffConfig;
  vd_started : Z;
  vd_accepted_work : f64;
  vd_estimate : option f64;
  vd_accepted_shares : Z;
  vd_initial_pending : bool;
  vd_initial_evaluated : bool;
  vd_proposed_initial : bool;
  vd_proposed_share_backed : bool;
}.
Definition vardiff_new (config : VardiffConfig) (now : Z) : Vardiff := {|
  vd_config := config; vd_started := now; vd_accepted_work := f64_zero; vd_estimate := None; vd_accepted_shares := 0;
  vd_initial_pending := true; vd_initial_evaluated := false; vd_proposed_initial := false; vd_proposed_share_backed := false |}.
Definition accepted (v : Vardiff) (work : f64) : result anyhow Vardiff :=
  shares ← arith U64 (vd_accepted_shares v + 1);
  Ok {| vd_config := vd_config v; vd_started := vd_started v; vd_accepted_work := f64_add (vd_accepted_work v) work;
        vd_estimate := vd_estimate v; vd_accepted_shares := shares; vd_initial_pending := vd_initial_pending v;
        vd_initial_evaluated := vd_initial_evaluated v; vd_proposed_initial := vd_proposed_initial v;
        vd_proposed_share_backed := vd_proposed_share_backed v |}.
Definition vardiff_reset (v : Vardiff) (now : Z) : Vardiff := {|
  vd_config := vd_config v; vd_started := now; vd_accepted_work := f64_zero; vd_estimate := None; vd_accepted_shares := 0;
  vd_initial_pending := vd_initial_pending v; vd_initial_evaluated := vd_initial_evaluated v;
  vd_proposed_initial := vd_proposed_initial v; vd_proposed_share_backed := vd_proposed_share_backed v |}.
Definition with_minimum (c : VardiffConfig) (minimum : f64) : VardiffConfig := {|
  vc_enabled := vc_enabled c; vc_target_seconds := vc_target_seconds c; vc_minimum := minimum; vc_maximum := vc_maximum c;
  vc_retarget_seconds := vc_retarget_seconds c; vc_max_step_up := vc_max_step_up c; vc_max_step_down := vc_max_step_down c;
  vc_ewma_alpha := vc_ewma_alpha c; vc_tolerance := vc_tolerance c; vc_initial_enabled := vc_initial_enabled c;
  vc_initial_max_step_up := vc_initial_max_step_up c; vc_initial_min_shares := vc_initial_min_shares c;
  vc_initial_min_step_up := vc_initial_min_step_up c; vc_initial_min_seconds := vc_initial_min_seconds c |}.
Definition with_step_up (c : VardiffConfig) (step : f64) : VardiffConfig := {|
  vc_enabled := vc_enabled c; vc_target_seconds := vc_target_seconds c; vc_minimum := vc_minimum c; vc_maximum := vc_maximum c;
  vc_retarget_seconds := vc_retarget_seconds c; vc_max_step_up := step; vc_max_step_down := vc_max_step_down c;
  vc_ewma_alpha := vc_ewma_alpha c; vc_tolerance := vc_tolerance c; vc_initial_enabled := vc_initial_enabled c;
  vc_initial_max_step_up := vc_initial_max_step_up c; vc_initial_min_shares := vc_initial_min_shares c;
  vc_initial_min_step_up := vc_initial_min_step_up c; vc_initial_min_seconds := vc_initial_min_seconds c |}.

Definition retarget (v : Vardiff) (current : f64) (now : Z) : result anyhow (Vardiff * option f64) :=
  let c := vd_config v in
  if negb (vc_enabled c) then Ok (v, None) else
  let elapsed := elapsed_since (vd_started v) now in
  let evaluate_initial := vd_initial_pending v && negb (vd_initial_evaluated v) && vc_initial_enabled c
    && (vc_initial_min_shares c <=? vd_accepted_shares v) && f64_ge elapsed (vc_initial_min_seconds c) in
  let initial := evaluate_initial
    && f64_ge (f64_div (f64_mul (vd_accepted_work v) (vc_target_seconds c)) elapsed) (f64_mul current (vc_initial_min_step_up c)) in
  let evaluated := evaluate_initial || vd_initial_evaluated v in
  if f64_lt elapsed (vc_retarget_seconds c) && negb initial then
    Ok ({| vd_config := c; vd_started := vd_started v; vd_accepted_work := vd_accepted_work v; vd_estimate := vd_estimate v;
           vd_accepted_shares := vd_accepted_shares v; vd_initial_pending := vd_initial_pending v;
           vd_initial_evaluated := evaluated; vd_proposed_initial := vd_proposed_initial v;
           vd_proposed_share_backed := vd_proposed_share_backed v |}, None) else
  let policy := if initial then with_step_up c (vc_initial_max_step_up c) else c in
  '(next, estimate) ← next_difficulty policy current (vd_accepted_work v) elapsed (vd_estimate v);
  Ok ({| vd_config := c; vd_started := now; vd_accepted_work := f64_zero; vd_estimate := estimate; vd_accepted_shares := 0;
         vd_initial_pending := vd_initial_pending v; vd_initial_evaluated := evaluated; vd_proposed_initial := initial;
         vd_proposed_share_backed := 0 <? vd_accepted_shares v |},
      if negb (f64_eq next current)
         && f64_ge (f64_div (f64_abs (f64_sub next current)) current) (vc_tolerance c)
      then Some next else None).
Definition delivered_retarget (v : Vardiff) : Vardiff := {|
  vd_config := vd_config v; vd_started := vd_started v; vd_accepted_work := vd_accepted_work v; vd_estimate := vd_estimate v;
  vd_accepted_shares := vd_accepted_shares v; vd_initial_pending := false; vd_initial_evaluated := vd_initial_evaluated v;
  vd_proposed_initial := vd_proposed_initial v; vd_proposed_share_backed := vd_proposed_share_backed v |}.

(** * Miner requests *)
(** [str::parse::<f64>]. *)
Class ParseF64 := { parse_f64 : string -> option f64 }.
Fixpoint split_char (sep : Ascii.ascii) (acc s : string) : list string :=
  match s with
  | EmptyString => [acc]
  | String c s => if Ascii.eqb c sep then acc :: split_char sep "" s else split_char sep (acc +:+ String c "") s
  end.
Fixpoint split_once (sep : Ascii.ascii) (acc s : string) : option (string * string) :=
  match s with
  | EmptyString => None
  | String c s => if Ascii.eqb c sep then Some (acc, s) else split_once sep (acc +:+ String c "") s
  end.
Definition password_token `{ParseF64} (found : option f64 * option f64) (token : string) : option f64 * option f64 :=
  let '(requested, minimum) := found in
  match split_once (Ascii.ascii_of_N 61) "" (trim token) with
  | None => found
  | Some (key, value) =>
      match parse_f64 (trim value) with
      | None => found
      | Some value =>
          if negb (is_finite value) || f64_le value f64_zero then found else
          let key := to_ascii_lowercase (trim key) in
          if String.eqb key "d" then (Some value, minimum)
          else if String.eqb key "md" then (requested, Some value) else found
      end
  end.
Definition password_difficulties `{ParseF64} (password : string) : option f64 * option f64 :=
  foldl password_token (None, None) (split_char (Ascii.ascii_of_N 44) "" password).

(** * The session's difficulty *)
(** The fields of [StratumConfig] the difficulty depends on. *)
Record DifficultyConfig := {
  dc_vardiff : VardiffConfig;
  dc_startup_difficulty : f64;
  dc_minimum_difficulty : f64;
  dc_resume_max_start_factor : f64;
}.
(** [StratumConfig::validate], its checks of those fields. *)
Definition validate_difficulty (c : DifficultyConfig) : result anyhow unit :=
  _ ← validate_vardiff (dc_vardiff c);
  _ ← ensure (is_finite (dc_resume_max_start_factor c) && f64_ge (dc_resume_max_start_factor c) f64_one)
        "PRISM_STRATUM_VARDIFF_RESUME_MAX_START_FACTOR must be finite and at least 1";
  _ ← ensure (is_finite (dc_startup_difficulty c) && f64_gt (dc_startup_difficulty c) f64_zero)
        "startup difficulty must be positive";
  _ ← ensure (is_finite (dc_minimum_difficulty c) && f64_ge (dc_minimum_difficulty c) f64_zero)
        "minimum difficulty must be nonnegative";
  ensure (f64_le (dc_minimum_difficulty c) (vc_maximum (dc_vardiff c))) "listener difficulty floor exceeds maximum".

Record DiffSession := {
  ds_authorized : bool;
  ds_subscribed : bool;
  ds_difficulty : f64;
  ds_requested : option f64;
  ds_requested_minimum : option f64;
  ds_suggested : option f64;
  ds_vardiff : Vardiff;
  ds_retry_job : bool;
  ds_delivery_in_flight : bool;
  ds_pending_retarget : option (f64 * Vardiff);
}.
Definition diff_session_new (c : DifficultyConfig) (now : Z) : result anyhow DiffSession :=
  difficulty ← clamp (dc_startup_difficulty c) (vc_minimum (dc_vardiff c)) (vc_maximum (dc_vardiff c));
  Ok {| ds_authorized := false; ds_subscribed := false; ds_difficulty := difficulty; ds_requested := None;
        ds_requested_minimum := None; ds_suggested := None; ds_vardiff := vardiff_new (dc_vardiff c) now;
        ds_retry_job := false; ds_delivery_in_flight := false; ds_pending_retarget := None |}.

Definition or_else {A} (x y : option A) : option A := match x with Some _ => x | None => y end.
Definition with_config_minimum (v : Vardiff) (minimum : f64) : Vardiff := {|
  vd_config := with_minimum (vd_config v) minimum; vd_started := vd_started v; vd_accepted_work := vd_accepted_work v;
  vd_estimate := vd_estimate v; vd_accepted_shares := vd_accepted_shares v; vd_initial_pending := vd_initial_pending v;
  vd_initial_evaluated := vd_initial_evaluated v; vd_proposed_initial := vd_proposed_initial v;
  vd_proposed_share_backed := vd_proposed_share_backed v |}.
Definition request_floor (c : DifficultyConfig) (requested_minimum : option f64) : f64 :=
  f64_min (f64_max (f64_max (default f64_zero requested_minimum) (vc_minimum (dc_vardiff c))) (dc_minimum_difficulty c))
    (vc_maximum (dc_vardiff c)).
Definition apply_requests (c : DifficultyConfig) (s : DiffSession) (now : Z) : result anyhow DiffSession :=
  let floor := request_floor c (ds_requested_minimum s) in
  difficulty ← clamp (default (ds_difficulty s) (or_else (ds_requested s) (ds_suggested s))) floor (vc_maximum (dc_vardiff c));
  Ok {| ds_authorized := ds_authorized s; ds_subscribed := ds_subscribed s; ds_difficulty := difficulty;
        ds_requested := ds_requested s; ds_requested_minimum := ds_requested_minimum s; ds_suggested := ds_suggested s;
        ds_vardiff := vardiff_reset (with_config_minimum (ds_vardiff s) floor) now; ds_retry_job := ds_retry_job s;
        ds_delivery_in_flight := ds_delivery_in_flight s; ds_pending_retarget := None |}.

Definition set_vardiff (s : DiffSession) (difficulty : f64) (v : Vardiff) (pending : option (f64 * Vardiff)) (retry : bool) : DiffSession := {|
  ds_authorized := ds_authorized s; ds_subscribed := ds_subscribed s; ds_difficulty := difficulty; ds_requested := ds_requested s;
  ds_requested_minimum := ds_requested_minimum s; ds_suggested := ds_suggested s; ds_vardiff := v; ds_retry_job := retry;
  ds_delivery_in_flight := ds_delivery_in_flight s; ds_pending_retarget := pending |}.
Definition session_retarget (s : DiffSession) (now : Z) : result anyhow DiffSession :=
  if bool_decide (is_Some (ds_pending_retarget s)) || ds_delivery_in_flight s then Ok s else
  '(v, next) ← retarget (ds_vardiff s) (ds_difficulty s) now;
  Ok match next with
     | Some next => set_vardiff s next v (Some (ds_difficulty s, ds_vardiff s)) (ds_authorized s && ds_subscribed s)
     | None => set_vardiff s (ds_difficulty s) v (ds_pending_retarget s) (ds_retry_job s)
     end.
Definition restore_retarget (s : DiffSession) : DiffSession :=
  match ds_pending_retarget s with
  | Some (difficulty, v) => set_vardiff s difficulty v None (ds_retry_job s)
  | None => s
  end.

(** An accepted share counts in the controller and in the one a failed delivery
    would restore; the retarget that follows is a step of its own. *)
Definition share_accepted (s : DiffSession) (proved_difficulty : f64) : result anyhow DiffSession :=
  v ← accepted (ds_vardiff s) proved_difficulty;
  pending ← match ds_pending_retarget s with
            | Some (previous_difficulty, previous) =>
                previous ← accepted previous proved_difficulty; Ok (Some (previous_difficulty, previous))
            | None => Ok None
            end;
  Ok (set_vardiff s (ds_difficulty s) v pending (ds_retry_job s)).
Definition set_flags (s : DiffSession) (authorized subscribed retry in_flight : bool) : DiffSession := {|
  ds_authorized := authorized; ds_subscribed := subscribed; ds_difficulty := ds_difficulty s; ds_requested := ds_requested s;
  ds_requested_minimum := ds_requested_minimum s; ds_suggested := ds_suggested s; ds_vardiff := ds_vardiff s; ds_retry_job := retry;
  ds_delivery_in_flight := in_flight; ds_pending_retarget := ds_pending_retarget s |}.
(** [mining.subscribe] gives the session its extranonce. *)
Definition subscribe (s : DiffSession) : DiffSession :=
  set_flags s (ds_authorized s) true (ds_authorized s) (ds_delivery_in_flight s).
(** [mining.authorize]: a first authorization may resume a remembered
    difficulty; then the password's requests apply. *)
Definition resume_difficulty (c : DifficultyConfig) (s : DiffSession) (retained : option f64) : result anyhow f64 :=
  match (if ds_authorized s then None else retained) with
  | Some retained =>
      if is_finite retained && f64_gt retained f64_zero then
        clamp retained (vc_minimum (dc_vardiff c))
          (f64_max (f64_min (vc_maximum (dc_vardiff c)) (f64_mul (dc_startup_difficulty c) (dc_resume_max_start_factor c)))
             (vc_minimum (dc_vardiff c)))
      else Ok (ds_difficulty s)
  | None => Ok (ds_difficulty s)
  end.
Definition authorize `{ParseF64} (c : DifficultyConfig) (s : DiffSession) (retained : option f64) (password : string) (now : Z)
  : result anyhow DiffSession :=
  difficulty ← resume_difficulty c s retained;
  let '(requested, minimum) := password_difficulties password in
  s ← apply_requests c {| ds_authorized := ds_authorized s; ds_subscribed := ds_subscribed s; ds_difficulty := difficulty;
        ds_requested := requested; ds_requested_minimum := minimum; ds_suggested := ds_suggested s; ds_vardiff := ds_vardiff s;
        ds_retry_job := ds_retry_job s; ds_delivery_in_flight := ds_delivery_in_flight s;
        ds_pending_retarget := ds_pending_retarget s |} now;
  Ok (set_flags s true (ds_subscribed s) (ds_subscribed s) (ds_delivery_in_flight s)).
(** [mining.suggest_difficulty] with a finite positive suggestion. *)
Definition suggest (c : DifficultyConfig) (s : DiffSession) (suggestion : option f64) (now : Z) : result anyhow DiffSession :=
  match suggestion with
  | Some n =>
      if is_finite n && f64_gt n f64_zero then
        s ← apply_requests c {| ds_authorized := ds_authorized s; ds_subscribed := ds_subscribed s; ds_difficulty := ds_difficulty s;
              ds_requested := ds_requested s; ds_requested_minimum := ds_requested_minimum s; ds_suggested := Some n;
              ds_vardiff := ds_vardiff s; ds_retry_job := ds_retry_job s; ds_delivery_in_flight := ds_delivery_in_flight s;
              ds_pending_retarget := ds_pending_retarget s |} now;
        Ok (set_flags s (ds_authorized s) (ds_subscribed s) (ds_authorized s && ds_subscribed s) (ds_delivery_in_flight s))
      else Ok s
  | None => Ok s
  end.
(** The session loop's deliveries: one starts with the retarget that rides it;
    an announced one settles it; a failed one takes it back. *)
Definition start_delivery (s : DiffSession) (now : Z) : result anyhow DiffSession :=
  s ← session_retarget s now;
  Ok (if ds_authorized s && ds_subscribed s
      then set_flags s (ds_authorized s) (ds_subscribed s) false true else s).
Definition delivery_announced (s : DiffSession) : DiffSession :=
  let s := set_flags s (ds_authorized s) (ds_subscribed s) (ds_retry_job s) false in
  match ds_pending_retarget s with
  | Some _ => set_vardiff s (ds_difficulty s) (delivered_retarget (ds_vardiff s)) None (ds_retry_job s)
  | None => s
  end.
Definition delivery_failed (s : DiffSession) : DiffSession :=
  let s := restore_retarget (set_flags s (ds_authorized s) (ds_subscribed s) (ds_retry_job s) false) in
  set_flags s (ds_authorized s) (ds_subscribed s) true false.
