(* ===== verification/VardiffFacts.v ===== *)
(** The difficulty controller stays in its configured bounds, never panics,
    moves by limited steps, and undoes a retarget whose delivery failed. *)
From Stdlib Require Import ZArith Lia SpecFloat.
From stdpp Require Import base list strings relations.
From S2P Require Import Prelude Bytes F64 F64Facts Codec AuditVerify Vardiff.

Open Scope Z_scope.

(** * Bounds *)
Lemma le_nan x y : f64_le x y = true → is_nan x = false ∧ is_nan y = false.
Proof. rewrite f64_le_iff. naive_solver. Qed.
Lemma clamp_spec x lo hi :
  is_nan x = false → f64_le lo hi = true →
  ∃ r, clamp x lo hi = Ok r ∧ f64_le lo r = true ∧ f64_le r hi = true ∧ (r = x ∨ (r = lo ∧ f64_le x lo = true) ∨ (r = hi ∧ f64_le hi x = true)).
Proof.
  intros Hx Hle. destruct (le_nan _ _ Hle) as [Hlo Hhi]. unfold clamp. rewrite Hle. cbn [negb].
  eexists. split; [done|]. change (f64_gt ?a ?b) with (f64_lt b a). rewrite (f64_lt_le x lo) by done.
  destruct (f64_le lo x) eqn:H1; cbn [negb]; rewrite f64_lt_le by done.
  - destruct (f64_le x hi) eqn:H2; cbn [negb]; eauto 10 using f64_le_refl, f64_le_total.
  - rewrite Hle. cbn [negb]. eauto 10 using f64_le_refl, f64_le_total.
Qed.
Lemma max_spec x y :
  is_nan x = false → is_nan y = false → f64_le x (f64_max x y) = true ∧ f64_le y (f64_max x y) = true ∧ (f64_max x y = x ∨ f64_max x y = y).
Proof.
  intros Hx Hy. unfold f64_max. rewrite Hx, Hy, f64_lt_le by done.
  destruct (f64_le y x) eqn:Hle; cbn [negb]; eauto 10 using f64_le_refl, f64_le_total.
Qed.
Lemma min_spec x y :
  is_nan x = false → is_nan y = false → f64_le (f64_min x y) x = true ∧ f64_le (f64_min x y) y = true ∧ (f64_min x y = x ∨ f64_min x y = y).
Proof.
  intros Hx Hy. unfold f64_min. rewrite Hx, Hy, f64_lt_le by done.
  destruct (f64_le x y) eqn:Hle; cbn [negb]; eauto 10 using f64_le_refl, f64_le_total.
Qed.
Lemma pos_between lo r hi : pos lo → pos hi → nonneg r → f64_le lo r = true → f64_le r hi = true → pos r.
Proof.
  intros [_ Hlo] [_ Hhi] [Hv Hr] Hl Hh. split; [done|].
  destruct lo as [| | |[]], hi as [| | |[]]; try done. by destruct r as [[]|[]| |[]].
Qed.
Lemma pos_not_nan x : pos x → is_nan x = false.
Proof. intros Hx%pos_nonneg. by apply nonneg_not_nan. Qed.
Lemma pos_of_gt x : valid_f64 x = true → is_finite x = true → f64_gt x f64_zero = true → pos x.
Proof. intros Hv Hf Hg. split; [done|]. by destruct x as [[]|[]| |[]]. Qed.
Lemma nonneg_of_ge x : valid_f64 x = true → is_finite x = true → f64_ge x f64_zero = true → nonneg x.
Proof. intros Hv Hf Hg. split; [done|]. by destruct x as [[]|[]| |[]]. Qed.
Create HintDb f64.
#[local] Hint Resolve pos_not_nan nonneg_not_nan pos_nonneg : f64.

(** * Clock *)
Definition time_ok (t : Z) : Prop := 0 ≤ t < 2 ^ 64 * 10 ^ 9.
Lemma of_Z_nonneg n : 0 ≤ n → nonneg (f64_of_Z n).
Proof. apply normalize_nonneg. Qed.
Lemma le_units x m e : nonneg x → valid_f64 (S754_finite false m e) = true → f64_le x (S754_finite false m e) = true →
  units x ≤ Z.pos m * 2 ^ (e + 1074).
Proof.
  intros [Hv Hx] Hm Hle. destruct x as [[]|[]| |[] mx ex]; try done; cbn [units].
  1,2: apply valid_f64_finite in Hm; pose proof (units_pos m e ltac:(lia)); lia.
  by apply finite_le_units.
Qed.
Lemma add_le x y m e :
  nonneg x → nonneg y → is_finite x = true → is_finite y = true → valid_f64 (S754_finite false m e) = true →
  units x + units y ≤ Z.pos m * 2 ^ (e + 1074) → f64_le (f64_add x y) (S754_finite false m e) = true.
Proof.
  intros [Hx Sx] [Hy Sy] Fx Fy Hm Hle.
  destruct x as [sx|[]| |[] mx ex]; try done; destruct y as [sy|[]| |[] my ey]; try done; cbn [units] in Hle.
  - by destruct sx, sy.
  - apply finite_le_units; [done..|lia].
  - apply finite_le_units; [done..|lia].
  - cbn [f64_add SFadd cond_Zopp]. apply valid_f64_finite in Hx, Hy.
    assert (∀ m e, Z.min ex ey ≤ e → Z.pos (fst (shl_align m e (Z.min ex ey))) * 2 ^ (Z.min ex ey + 1074) = Z.pos m * 2 ^ (e + 1074)) as Hs.
    { intros m' e' He. rewrite shl_align_spec, <- Z.mul_assoc, <- Z.pow_add_r by lia. do 2 f_equal. lia. }
    apply normalize_le; [lia..|done|]. rewrite Z.mul_add_distr_r, !Hs by lia. done.
Qed.
Lemma of_Z_le n m e : 0 ≤ n → valid_f64 (S754_finite false m e) = true → n * 2 ^ 1074 ≤ Z.pos m * 2 ^ (e + 1074) →
  f64_le (f64_of_Z n) (S754_finite false m e) = true.
Proof. intros Hn Hm Hle. apply normalize_le; [lia..|done|]. exact Hle. Qed.
(** Any duration is a finite number of seconds. *)
Lemma secs_ok nanos : time_ok nanos → nonneg (as_secs_f64 nanos) ∧ is_finite (as_secs_f64 nanos) = true.
Proof.
  intros Ht. unfold time_ok in Ht. set (two := 4503599627370496%positive).
  assert (0 ≤ nanos / 10 ^ 9 < 2 ^ 64) as Hs by (split; [apply Z.div_pos|apply Z.div_lt_upper_bound]; lia).
  assert (0 ≤ nanos mod 10 ^ 9 < 10 ^ 9) as Hr by (apply Z.mod_pos_bound; lia).
  assert (Z.pos two = 2 ^ 52) as H2 by reflexivity.
  assert (pos (f64_of_Z (10 ^ 9))) as Hgig by by vm_compute.
  assert (f64_le (f64_of_Z (nanos / 10 ^ 9)) (S754_finite false two 12) = true) as H64.
  { apply of_Z_le; [lia|done|]. rewrite H2, <- Z.pow_add_r by lia. change (52 + (12 + 1074)) with (64 + 1074). rewrite Z.pow_add_r by lia. lia. }
  assert (f64_le (f64_of_Z (nanos mod 10 ^ 9)) (S754_finite false two (-22)) = true) as H30.
  { apply of_Z_le; [lia|done|]. rewrite H2, <- Z.pow_add_r by lia. change (52 + (-22 + 1074)) with (30 + 1074). rewrite Z.pow_add_r by lia. lia. }
  pose proof (of_Z_nonneg (nanos / 10 ^ 9) ltac:(lia)) as Hn1. pose proof (of_Z_nonneg (nanos mod 10 ^ 9) ltac:(lia)) as Hn2.
  assert (f64_le (f64_div (f64_of_Z (nanos mod 10 ^ 9)) (f64_of_Z (10 ^ 9))) (S754_finite false two (-22)) = true) as Hd.
  { pose proof (le_finite _ _ _ Hn2 H30) as Hfin. eapply f64_le_trans; [|exact H30].
    destruct (f64_of_Z (nanos mod 10 ^ 9)) as [s|[]| |[] m e] eqn:Hf; try done; try by destruct Hn2.
    apply div_le; [by split; [apply Hn2|]|done|by vm_compute]. }
  pose proof (div_nonneg _ _ Hn2 Hgig) as Hnd.
  assert (nonneg (as_secs_f64 nanos)) as Hn by by apply add_nonneg. split; [done|].
  apply (le_finite _ two 13); [done|]. apply add_le; eauto using le_finite.
  apply le_units in H64; [|done..]. apply le_units in Hd; [|done..].
  assert (Z.pos two * 2 ^ (-22 + 1074) ≤ Z.pos two * 2 ^ (12 + 1074)).
  { apply Z.mul_le_mono_nonneg_l; [lia|]. apply Z.pow_le_mono_r; lia. }
  change (13 + 1074) with (1 + (12 + 1074)). rewrite (Z.pow_add_r 2 1) by lia. lia.
Qed.
Lemma elapsed_ok started now : time_ok started → time_ok now → nonneg (elapsed_since started now) ∧ is_finite (elapsed_since started now) = true.
Proof. intros Hs Hn. apply secs_ok. unfold time_ok in *. lia. Qed.

(** * Configuration *)
Definition config_values (c : VardiffConfig) : list f64 :=
  [vc_target_seconds c; vc_minimum c; vc_maximum c; vc_retarget_seconds c; vc_max_step_up c; vc_max_step_down c;
   vc_ewma_alpha c; vc_initial_max_step_up c; vc_initial_min_step_up c; vc_initial_min_seconds c].
(** The fields are binary64 values. *)
Definition typed_config (c : VardiffConfig) : Prop :=
  Forall (fun x => valid_f64 x = true) (config_values c) ∧ valid_f64 (vc_tolerance c) = true.
Record config_ok (c : VardiffConfig) : Prop := {
  co_target : pos (vc_target_seconds c);
  co_minimum : pos (vc_minimum c);
  co_maximum : pos (vc_maximum c);
  co_order : f64_le (vc_minimum c) (vc_maximum c) = true;
  co_up : pos (vc_max_step_up c);
  co_up_one : f64_le f64_one (vc_max_step_up c) = true;
  co_down : pos (vc_max_step_down c);
  co_down_one : f64_le f64_one (vc_max_step_down c) = true;
  co_alpha : pos (vc_ewma_alpha c);
  co_alpha_one : f64_le (vc_ewma_alpha c) f64_one = true;
  co_initial_up : pos (vc_initial_max_step_up c);
  co_initial_one : f64_le f64_one (vc_initial_max_step_up c) = true;
}.
Lemma ensure_all_Ok {A} (p : A -> bool) msg l u :
  try_fold (fun _ x => ensure (p x) msg) tt l = Ok u ↔ Forall (fun x => p x = true) l.
Proof.
  destruct u. induction l as [|x l IH]; cbn; [split; [constructor|done]|].
  rewrite bind_Ok, Forall_cons, <- IH. setoid_rewrite ensure_Ok. split; [by intros ([] & ? & ?)|]. intros []. by exists tt.
Qed.
Lemma validate_config_ok c : typed_config c → validate_vardiff c = Ok tt → config_ok c.
Proof.
  intros [Hv _] (u & Hall%ensure_all_Ok & (u1 & Hb%ensure_Ok & (u2 & _ & (u3 & Hi%ensure_Ok & _)%bind_Ok)%bind_Ok)%bind_Ok)%bind_Ok.
  assert (Forall pos (config_values c)) as Hp.
  { apply Forall_forall. intros x Hx. rewrite Forall_forall in Hv, Hall. specialize (Hv x Hx). specialize (Hall x Hx).
    apply andb_true_iff in Hall as [? ?]. by apply pos_of_gt. }
  apply andb_true_iff in Hb as [[[Hb1 Hb2]%andb_true_iff Hb3]%andb_true_iff Hb4], Hi as [[Hi1 _]%andb_true_iff _].
  repeat (apply Forall_cons in Hp as [? Hp]). constructor; try done. eapply f64_le_trans; [exact Hb2|exact Hi1].
Qed.

(** * The rule *)
Definition opt_pos (o : option f64) : Prop := ∀ x, o = Some x → pos x.
Record step_bounds (c : VardiffConfig) (current next : f64) : Prop := {
  sb_min : f64_le (vc_minimum c) next = true;
  sb_max : f64_le next (vc_maximum c) = true;
  sb_down : f64_le (f64_div current (vc_max_step_down c)) next = true;
  sb_up : f64_le next (f64_mul current (vc_max_step_up c)) = true;
  sb_pos : pos next;
}.
Lemma floor_elapsed_pos elapsed : nonneg elapsed → is_finite elapsed = true → pos (f64_max elapsed (literal 1 1000)).
Proof.
  intros [Hv Hn] Hf. assert (pos (literal 1 1000)) as Hl by by vm_compute.
  destruct elapsed as [s|[]| |[] m e]; try done.
  unfold f64_max. cbn [is_nan]. destruct (is_nan (literal 1 1000)); [done|]. by destruct (f64_lt _ _).
Qed.
Lemma smoothed_nonneg c work elapsed prev :
  config_ok c → nonneg work → nonneg elapsed → is_finite elapsed = true → opt_pos prev →
  let observed := f64_div (f64_mul work (vc_target_seconds c)) (f64_max elapsed (literal 1 1000)) in
  nonneg match prev with
         | None => observed
         | Some old => f64_add (f64_mul (vc_ewma_alpha c) observed) (f64_mul (f64_sub f64_one (vc_ewma_alpha c)) old)
         end.
Proof.
  intros [] Hw He Hf Hp observed. assert (nonneg observed) as Ho by (unfold observed; auto using div_nonneg, mul_nonneg, floor_elapsed_pos).
  destruct prev as [old|]; [|done]. apply add_nonneg.
  - assert (f64_mul (vc_ewma_alpha c) observed = f64_mul observed (vc_ewma_alpha c)) as -> by apply f64_mul_comm.
    by apply mul_nonneg.
  - apply mul_nonneg; [apply sub_nonneg; [by vm_compute|done..]|by apply Hp].
Qed.

Lemma next_difficulty_ok c current work elapsed prev :
  config_ok c → pos current → nonneg work → nonneg elapsed → is_finite elapsed = true → opt_pos prev →
  ∃ base next est, clamp current (vc_minimum c) (vc_maximum c) = Ok base ∧
    next_difficulty c current work elapsed prev = Ok (next, est) ∧ step_bounds c base next ∧ opt_pos est.
Proof.
  intros Hc Hcur Hw He Hf Hp. pose proof Hc as [].
  destruct (clamp_spec current (vc_minimum c) (vc_maximum c)) as (base & Hb & Hb1 & Hb2 & Hbc); [eauto with f64..|].
  assert (pos base) as Hbp by (by destruct Hbc as [->|[[-> _]|[-> _]]]).
  assert (∃ est, (if f64_gt work f64_zero then
       Some <$> clamp match prev with
         | None => f64_div (f64_mul work (vc_target_seconds c)) (f64_max elapsed (literal 1 1000))
         | Some old => f64_add (f64_mul (vc_ewma_alpha c) (f64_div (f64_mul work (vc_target_seconds c)) (f64_max elapsed (literal 1 1000))))
             (f64_mul (f64_sub f64_one (vc_ewma_alpha c)) old)
         end (vc_minimum c) (vc_maximum c)
     else Ok None) = Ok est ∧ opt_pos est) as (est & Hest & Hep).
  { destruct (f64_gt work f64_zero); [|by exists None].
    pose proof (smoothed_nonneg c work elapsed prev Hc Hw He Hf Hp) as Hsm. cbn zeta in Hsm.
    destruct (clamp_spec _ (vc_minimum c) (vc_maximum c) (nonneg_not_nan _ Hsm)) as (e & -> & He1 & He2 & Hec); [done|].
    exists (Some e). split; [done|]. intros ? [= <-]. eapply pos_between; [exact co_minimum0|exact co_maximum0| |done..].
    destruct Hec as [->|[[-> _]|[-> _]]]; eauto with f64. }
  assert (f64_le (f64_div base (vc_max_step_down c)) base = true) as Hdn by by apply div_le.
  assert (f64_le base (f64_mul base (vc_max_step_up c)) = true) as Hup by by apply le_mul.
  assert (nonneg (f64_div base (vc_max_step_down c))) as Hdnn by eauto using div_nonneg with f64.
  assert (nonneg (f64_mul base (vc_max_step_up c))) as Hupn by eauto using mul_nonneg with f64.
  set (desired := default (f64_div base (vc_max_step_down c)) est).
  assert (nonneg desired) as Hdes by (unfold desired; destruct est as [e|]; [cbn; by apply pos_nonneg, Hep|done]).
  destruct (clamp_spec desired (f64_div base (vc_max_step_down c)) (f64_mul base (vc_max_step_up c))) as (st & Hst & Hs1 & Hs2 & Hsc);
    [eauto with f64|eapply f64_le_trans; eassumption|].
  assert (nonneg st) as Hsn by (by destruct Hsc as [->|[[-> _]|[-> _]]]).
  destruct (clamp_spec st (vc_minimum c) (vc_maximum c)) as (next & Hn & Hn1 & Hn2 & Hnc); [eauto with f64..|].
  exists base, next. eexists. split; [done|]. split.
  { unfold next_difficulty. rewrite Hb. cbn [mbind result_bind]. rewrite Hest. cbn [mbind result_bind].
    fold desired. rewrite Hst. cbn [mbind result_bind]. rewrite Hn. reflexivity. }
  split; [|by destruct est]. constructor; [done|done| | |].
  - destruct Hnc as [->|[[-> Hm]|[-> Hm]]]; eauto using f64_le_trans.
  - destruct Hnc as [->|[[-> Hm]|[-> Hm]]]; eauto using f64_le_trans.
  - eapply pos_between; [exact co_minimum0|exact co_maximum0| |done..].
    destruct Hnc as [->|[[-> _]|[-> _]]]; eauto with f64.
Qed.

(** * The controller *)
Lemma clamp_inside x lo hi : f64_le lo x = true → f64_le x hi = true → clamp x lo hi = Ok x.
Proof.
  intros Hl Hh. pose proof (le_nan _ _ Hl) as [? ?]. pose proof (le_nan _ _ Hh) as [_ ?]. unfold clamp.
  rewrite (f64_le_trans lo x hi) by done. cbn [negb]. change (f64_gt ?a ?b) with (f64_lt b a).
  rewrite (f64_lt_le x lo), Hl by done. cbn [negb]. by rewrite f64_lt_le, Hh by done.
Qed.
Lemma initial_policy_ok c : config_ok c → config_ok (with_step_up c (vc_initial_max_step_up c)).
Proof. intros []. by constructor. Qed.
Record controller_ok (v : Vardiff) : Prop := {
  ct_started : time_ok (vd_started v);
  ct_work : nonneg (vd_accepted_work v);
  ct_estimate : opt_pos (vd_estimate v);
}.
Definition evaluates_initial (v : Vardiff) (now : Z) : bool :=
  vd_initial_pending v && negb (vd_initial_evaluated v) && vc_initial_enabled (vd_config v)
  && (vc_initial_min_shares (vd_config v) <=? vd_accepted_shares v)
  && f64_ge (elapsed_since (vd_started v) now) (vc_initial_min_seconds (vd_config v)).
Definition initial_rate_met (v : Vardiff) (current : f64) (now : Z) : bool :=
  f64_ge (f64_div (f64_mul (vd_accepted_work v) (vc_target_seconds (vd_config v))) (elapsed_since (vd_started v) now))
    (f64_mul current (vc_initial_min_step_up (vd_config v))).
(** What one evaluation of a controller in bounds does. *)
Record retargets (v : Vardiff) (current : f64) (now : Z) (v' : Vardiff) (proposal : option f64) : Prop := {
  rt_config : vd_config v' = vd_config v;
  rt_ok : controller_ok v';
  rt_pending : vd_initial_pending v' = vd_initial_pending v;
  rt_step : ∀ next, proposal = Some next →
    step_bounds (if vd_proposed_initial v' then with_step_up (vd_config v) (vc_initial_max_step_up (vd_config v)) else vd_config v)
      current next ∧
    f64_eq next current = false ∧
    f64_ge (f64_div (f64_abs (f64_sub next current)) current) (vc_tolerance (vd_config v)) = true;
  rt_early : ∀ next, proposal = Some next → vd_proposed_initial v' = true →
    evaluates_initial v now = true ∧ initial_rate_met v current now = true;
  rt_due : ∀ next, proposal = Some next → vd_proposed_initial v' = false →
    f64_lt (elapsed_since (vd_started v) now) (vc_retarget_seconds (vd_config v)) = false;
  rt_evaluated : evaluates_initial v now = true → vc_enabled (vd_config v) = true → vd_initial_evaluated v' = true;
}.
Lemma retarget_total v current now :
  config_ok (vd_config v) → controller_ok v → pos current → time_ok now →
  f64_le (vc_minimum (vd_config v)) current = true → f64_le current (vc_maximum (vd_config v)) = true →
  ∃ v' proposal, retarget v current now = Ok (v', proposal) ∧ retargets v current now v' proposal.
Proof.
  intros Hc [Hst Hw He] Hcur Hnow Hlo Hhi. destruct (elapsed_ok _ _ Hst Hnow) as [Hn Hf].
  unfold retarget. destruct (vc_enabled (vd_config v)) eqn:Hen; cbn [negb].
  2:{ exists v, None. split; [done|]. constructor; [done|by constructor|done..|]. intros _ ?. congruence. }
  fold (evaluates_initial v now). fold (initial_rate_met v current now).
  destruct (f64_lt (elapsed_since (vd_started v) now) (vc_retarget_seconds (vd_config v)) &&
            negb (evaluates_initial v now && initial_rate_met v current now)) eqn:Hwait.
  { eexists _, None. split; [done|]. constructor; cbn; [done|by constructor|done..|]. intros Hev _. by rewrite Hev. }
  set (initial := evaluates_initial v now && initial_rate_met v current now) in *.
  set (policy := if initial then _ else _). assert (config_ok policy) as Hpol by (unfold policy; destruct initial; auto using initial_policy_ok).
  destruct (next_difficulty_ok policy current (vd_accepted_work v) (elapsed_since (vd_started v) now) (vd_estimate v))
    as (base & next & est & Hb & -> & Hsb & Hest); [done..|]. cbn [mbind result_bind].
  assert (vc_minimum policy = vc_minimum (vd_config v) ∧ vc_maximum policy = vc_maximum (vd_config v)) as [Hpmin Hpmax]
    by (unfold policy; by destruct initial).
  rewrite Hpmin, Hpmax, clamp_inside in Hb by done. injection Hb as <-.
  eexists _, _. split; [done|]. constructor; cbn; [done|by constructor|done|..].
  - intros n. destruct (negb (f64_eq next current) && _) eqn:Hgate; [|done]. intros [= <-].
    apply andb_true_iff in Hgate as [Hne%negb_true_iff Htol]. split; [exact Hsb|done].
  - intros n _ Hi. by apply andb_true_iff in Hi.
  - intros n _ Hi. rewrite Hi in Hwait. cbn [negb] in Hwait. by rewrite andb_true_r in Hwait.
  - intros Hev _. by rewrite Hev.
Qed.

(** With a validated configuration and a difficulty in its bounds, an
    evaluation of the controller at any time returns without a panic.  When it
    proposes a difficulty, that is within the configured minimum and maximum,
    not below the current one divided by the step down, not above the current
    one times the step up, different from the current one and past the
    tolerance.  The larger first step is only used while it is still pending,
    was never evaluated before, enough shares arrived and they came fast
    enough; any other proposal waits for the retarget interval. *)
Theorem retarget_step_bounded v current now :
  typed_config (vd_config v) → validate_vardiff (vd_config v) = Ok tt → controller_ok v → pos current → time_ok now →
  f64_le (vc_minimum (vd_config v)) current = true → f64_le current (vc_maximum (vd_config v)) = true →
  ∃ v' proposal, retarget v current now = Ok (v', proposal) ∧ retargets v current now v' proposal.
Proof. intros Ht Hv. by apply retarget_total, validate_config_ok. Qed.
