(* ===== verification/DifficultySession.v ===== *)
(** A Stratum session's difficulty over its whole life: whatever the miner
    requests, however shares, timers and deliveries interleave, it stays in
    bounds and nothing panics; and a retarget whose delivery fails leaves no
    trace beyond the shares accepted meanwhile. *)
From Stdlib Require Import ZArith Lia SpecFloat.
From stdpp Require Import base list strings relations.
From S2P Require Import Prelude Bytes F64 F64Facts Codec AuditVerify Vardiff VardiffFacts.

Open Scope Z_scope.
#[local] Hint Resolve pos_not_nan nonneg_not_nan pos_nonneg : f64.

(** * Requests *)
(** [str::parse] returns binary64 values. *)
Class ParseLaws `{ParseF64} : Prop := { parse_valid s x : parse_f64 s = Some x → valid_f64 x = true }.

Lemma pos_of_not_le x : valid_f64 x = true → negb (is_finite x) || f64_le x f64_zero = false → pos x.
Proof.
  intros Hv [Hf%negb_false_iff Hl]%orb_false_iff. split; [done|]. by destruct x as [[]|[]| |[]].
Qed.
Lemma password_token_pos `{ParseLaws} found token :
  opt_pos found.1 → opt_pos found.2 → opt_pos (password_token found token).1 ∧ opt_pos (password_token found token).2.
Proof.
  intros H1 H2. destruct found as [r m]. unfold password_token. destruct (split_once _ _ _) as [[key value]|]; [|done].
  destruct (parse_f64 (trim value)) as [x|] eqn:Hx; [|done]. destruct (negb (is_finite x) || f64_le x f64_zero) eqn:Hp; [done|].
  assert (opt_pos (Some x)) by (intros ? [= <-]; eauto using pos_of_not_le, parse_valid).
  destruct (String.eqb _ "d"); [done|]. by destruct (String.eqb _ "md").
Qed.
Lemma password_pos `{ParseLaws} password :
  opt_pos (password_difficulties password).1 ∧ opt_pos (password_difficulties password).2.
Proof.
  unfold password_difficulties. assert (∀ l found, opt_pos found.1 → opt_pos found.2 →
    opt_pos (foldl password_token found l).1 ∧ opt_pos (foldl password_token found l).2) as Hl; [|by apply Hl].
  induction l as [|t l IH]; intros found H1 H2; [done|]. cbn. destruct (password_token_pos found t H1 H2). by apply IH.
Qed.

(** * Invariant *)
Record difficulty_config_ok (c : DifficultyConfig) : Prop := {
  dk_config : config_ok (dc_vardiff c);
  dk_startup : pos (dc_startup_difficulty c);
  dk_minimum : nonneg (dc_minimum_difficulty c);
  dk_below : f64_le (dc_minimum_difficulty c) (vc_maximum (dc_vardiff c)) = true;
  dk_factor : pos (dc_resume_max_start_factor c);
}.
Definition typed_difficulty (c : DifficultyConfig) : Prop :=
  typed_config (dc_vardiff c) ∧ valid_f64 (dc_startup_difficulty c) = true ∧ valid_f64 (dc_minimum_difficulty c) = true ∧
  valid_f64 (dc_resume_max_start_factor c) = true.
Lemma validate_difficulty_ok c : typed_difficulty c → validate_difficulty c = Ok tt → difficulty_config_ok c.
Proof.
  intros (Hc & Hs & Hm & Hf) (u & Hv & (u1 & [Hf1 Hf2]%ensure_Ok%andb_true_iff & (u2 & [Hs1 Hs2]%ensure_Ok%andb_true_iff &
    (u3 & [Hm1 Hm2]%ensure_Ok%andb_true_iff & Hb%ensure_Ok)%bind_Ok)%bind_Ok)%bind_Ok)%bind_Ok. destruct u.
  constructor; [by apply validate_config_ok|by apply pos_of_gt|by apply nonneg_of_ge|done|].
  split; [done|]. by destruct (dc_resume_max_start_factor c) as [[]|[]| |[]].
Qed.

(** The floor the session works with. *)
Record floor_ok (c : DifficultyConfig) (fl : f64) : Prop := {
  fl_pos : pos fl;
  fl_min : f64_le (vc_minimum (dc_vardiff c)) fl = true;
  fl_max : f64_le fl (vc_maximum (dc_vardiff c)) = true;
}.
Lemma request_floor_ok c m :
  difficulty_config_ok c → opt_pos m →
  floor_ok c (request_floor c m) ∧ f64_le (dc_minimum_difficulty c) (request_floor c m) = true ∧
  (∀ x, m = Some x → f64_le (f64_min x (vc_maximum (dc_vardiff c))) (request_floor c m) = true).
Proof.
  intros [[] _ Hmin Hbel _] Hm. unfold request_floor. set (d := default f64_zero m).
  assert (nonneg d) as Hd by (unfold d; destruct m as [x|]; [by apply pos_nonneg, Hm|done]).
  destruct (max_spec d (vc_minimum (dc_vardiff c))) as (Ha1 & Ha2 & Ha); [eauto with f64..|].
  set (a := f64_max d (vc_minimum (dc_vardiff c))) in *. assert (nonneg a) as Han by (destruct Ha as [->| ->]; eauto with f64).
  destruct (max_spec a (dc_minimum_difficulty c)) as (Hb1 & Hb2 & Hb); [eauto with f64..|].
  set (b := f64_max a (dc_minimum_difficulty c)) in *. assert (nonneg b) as Hbn by (destruct Hb as [->| ->]; eauto with f64).
  destruct (min_spec b (vc_maximum (dc_vardiff c))) as (Hc1 & Hc2 & Hc); [eauto with f64..|].
  assert (∀ x, f64_le x b = true → f64_le x (vc_maximum (dc_vardiff c)) = true → f64_le x (f64_min b (vc_maximum (dc_vardiff c))) = true) as Hglb
    by (intros x ??; by destruct Hc as [->| ->]).
  assert (f64_le (vc_minimum (dc_vardiff c)) (f64_min b (vc_maximum (dc_vardiff c))) = true) as Hlo by eauto using f64_le_trans.
  split_and!; [| |].
  - constructor; [|done|done]. eapply pos_between; [exact co_minimum| exact co_maximum| |done..]. destruct Hc as [->| ->]; eauto with f64.
  - apply Hglb; eauto using f64_le_trans.
  - intros x ->. destruct (min_spec x (vc_maximum (dc_vardiff c))) as (Hx1 & Hx2 & _); [eauto with f64..|].
    apply Hglb; [|done]. eapply f64_le_trans; [exact Hx1|]. eapply f64_le_trans; [exact Ha1|exact Hb1].
Qed.

Definition session_floor (s : DiffSession) : f64 := vc_minimum (vd_config (ds_vardiff s)).
Record in_bounds (c : DifficultyConfig) (fl d : f64) : Prop := {
  ib_pos : pos d;
  ib_floor : f64_le fl d = true;
  ib_max : f64_le d (vc_maximum (dc_vardiff c)) = true;
}.
Record session_ok (c : DifficultyConfig) (s : DiffSession) : Prop := {
  so_requested : opt_pos (ds_requested s);
  so_requested_minimum : opt_pos (ds_requested_minimum s);
  so_suggested : opt_pos (ds_suggested s);
  so_floor : floor_ok c (session_floor s);
  so_config : vd_config (ds_vardiff s) = with_minimum (dc_vardiff c) (session_floor s);
  so_controller : controller_ok (ds_vardiff s);
  so_difficulty : in_bounds c (session_floor s) (ds_difficulty s);
  so_pending : ∀ d v, ds_pending_retarget s = Some (d, v) →
    controller_ok v ∧ vd_config v = vd_config (ds_vardiff s) ∧ in_bounds c (session_floor s) d;
  so_applied : ds_authorized s = true → session_floor s = request_floor c (ds_requested_minimum s);
}.
Lemma session_config_ok c s : difficulty_config_ok c → session_ok c s → config_ok (vd_config (ds_vardiff s)).
Proof. intros [[] _ _ _ _] []. rewrite so_config0. by destruct so_floor0; constructor. Qed.
Lemma with_minimum_twice c a b : with_minimum (with_minimum c a) b = with_minimum c b.
Proof. reflexivity. Qed.

(** ** Preservation *)
Section operations.
Context (c : DifficultyConfig) (Hc : difficulty_config_ok c).

Lemma apply_requests_ok s now :
  opt_pos (ds_requested s) → opt_pos (ds_requested_minimum s) → opt_pos (ds_suggested s) → pos (ds_difficulty s) →
  vd_config (ds_vardiff s) = with_minimum (dc_vardiff c) (session_floor s) → time_ok now →
  ∃ s', apply_requests c s now = Ok s' ∧ session_ok c s' ∧
    session_floor s' = request_floor c (ds_requested_minimum s') ∧ ds_requested_minimum s' = ds_requested_minimum s.
Proof.
  intros Hr Hm Hs Hd Hcfg Hnow. destruct (request_floor_ok c (ds_requested_minimum s) Hc Hm) as ([Hfp Hf1 Hf2] & _ & _).
  set (wanted := default (ds_difficulty s) (or_else (ds_requested s) (ds_suggested s))).
  assert (pos wanted) as Hw.
  { unfold wanted. destruct (ds_requested s) as [x|]; [by apply Hr|]. destruct (ds_suggested s) as [x|]; [by apply Hs|done]. }
  destruct (clamp_spec wanted _ _ (pos_not_nan _ Hw) Hf2) as (d & Hcl & Hd1 & Hd2 & Hdc).
  unfold apply_requests. fold wanted. rewrite Hcl. cbn [mbind result_bind]. eexists. split; [done|].
  assert (pos d) by (destruct Hdc as [->|[[-> _]|[-> _]]]; [done..|]; apply (dk_config _ Hc)).
  split; [|done]. constructor; cbn; try done. by rewrite Hcfg.
Qed.
Lemma set_vardiff_ok s d v pending retry :
  session_ok c s → controller_ok v → vd_config v = vd_config (ds_vardiff s) → in_bounds c (session_floor s) d →
  (∀ d' v', pending = Some (d', v') → controller_ok v' ∧ vd_config v' = vd_config (ds_vardiff s) ∧ in_bounds c (session_floor s) d') →
  session_ok c (set_vardiff s d v pending retry).
Proof.
  intros [] Hv He Hd Hp. assert (session_floor (set_vardiff s d v pending retry) = session_floor s) as Hf by (unfold session_floor; cbn; by rewrite He).
  constructor; rewrite ?Hf; cbn; try done; by rewrite ?He.
Qed.
Lemma set_flags_ok s a b r f : session_ok c s → (a = true → session_floor s = request_floor c (ds_requested_minimum s)) → session_ok c (set_flags s a b r f).
Proof. by intros [] Ha; constructor. Qed.

Lemma session_retarget_ok s now : session_ok c s → time_ok now → ∃ s', session_retarget s now = Ok s' ∧ session_ok c s'.
Proof.
  intros Hs Hnow. unfold session_retarget. destruct (_ || _); [by exists s|]. pose proof Hs as [].
  destruct so_difficulty0 as [Hp Hlo Hhi].
  destruct (retarget_total (ds_vardiff s) (ds_difficulty s) now (session_config_ok _ _ Hc Hs)) as (v & o & -> & Hrt);
    [done..|by rewrite so_config0|]. cbn [mbind result_bind]. eexists. split; [done|]. destruct Hrt as [Hcfg Hok _ Hst _ _ _].
  destruct o as [next|]; apply set_vardiff_ok; try done; [|].
  - destruct (Hst next eq_refl) as [[Hb1 Hb2 _ _ Hbp] _]. constructor; [done|..].
    + revert Hb1. unfold session_floor. by destruct (vd_proposed_initial v).
    + revert Hb2. rewrite so_config0. by destruct (vd_proposed_initial v).
  - intros ?? [= <- <-]. done.
Qed.
Lemma accepted_ok v work v' : controller_ok v → nonneg work → accepted v work = Ok v' → controller_ok v' ∧ vd_config v' = vd_config v.
Proof.
  intros [] Hw (n & _ & [= <-])%bind_Ok. split; [|done]. constructor; cbn; [done|by apply add_nonneg|done].
Qed.
Lemma share_accepted_ok s work s' : session_ok c s → nonneg work → share_accepted s work = Ok s' → session_ok c s'.
Proof.
  intros Hs Hw (v & Hv & (p & Hp & [= <-])%bind_Ok)%bind_Ok. pose proof Hs as [].
  apply accepted_ok in Hv as [Hv1 Hv2]; [|done..]. apply set_vardiff_ok; [done..|].
  intros d' v' ->. destruct (ds_pending_retarget s) as [[d0 v0]|]; [|done].
  apply bind_Ok in Hp as (v1 & Ha & [= <- <-]). destruct (so_pending0 d0 v0 eq_refl) as (Hk & He & Hb).
  apply accepted_ok in Ha as [? ?]; [|done..]. split; [done|]. split; [congruence|done].
Qed.
Lemma restore_retarget_ok s : session_ok c s → session_ok c (restore_retarget s).
Proof.
  intros Hs. pose proof Hs as []. unfold restore_retarget. destruct (ds_pending_retarget s) as [[d v]|]; [|done].
  destruct (so_pending0 d v eq_refl) as (Hk & He & Hb). by apply set_vardiff_ok.
Qed.
Lemma resume_difficulty_ok s retained :
  session_ok c s → (∀ x, retained = Some x → valid_f64 x = true) → ∃ d, resume_difficulty c s retained = Ok d ∧ pos d.
Proof.
  intros Hs Hv. unfold resume_difficulty. pose proof Hs as []. destruct so_difficulty0. destruct Hc as [[] Hst _ _ Hfac].
  destruct (if ds_authorized s then None else retained) as [x|] eqn:Hr; [|eauto].
  destruct (is_finite x && f64_gt x f64_zero) eqn:Hx; [|eauto]. apply andb_true_iff in Hx as [Hx1 Hx2].
  assert (pos x) as Hxp by (apply pos_of_gt; [destruct (ds_authorized s); [done|by apply Hv]|done..]).
  pose proof (mul_nonneg _ _ (pos_nonneg _ Hst) Hfac) as Hm.
  destruct (min_spec (vc_maximum (dc_vardiff c)) (f64_mul (dc_startup_difficulty c) (dc_resume_max_start_factor c))) as (_ & _ & Hmin); [eauto with f64..|].
  set (m := f64_min _ _) in *. assert (nonneg m) as Hmn by (destruct Hmin as [->| ->]; eauto with f64).
  destruct (max_spec m (vc_minimum (dc_vardiff c))) as (_ & Hge & Hmax); [eauto with f64..|].
  destruct (clamp_spec x _ _ (pos_not_nan _ Hxp) Hge) as (d & -> & Hd1 & Hd2 & Hdc). exists d. split; [done|].
  destruct Hdc as [->|[[-> _]|[-> Hle]]]; [done..|]. eapply (pos_between _ _ x); [exact co_minimum|done| |done..].
  destruct Hmax as [->| ->]; eauto with f64.
Qed.
End operations.

(** * Reachable sessions *)
Section reachable.
Context `{ParseF64}.

Inductive diff_step (c : DifficultyConfig) (s : DiffSession) : DiffSession -> Prop :=
| step_subscribe : diff_step c s (subscribe s)
| step_authorize retained password now s' :
    (∀ x, retained = Some x → valid_f64 x = true) → time_ok now → authorize c s retained password now = Ok s' → diff_step c s s'
| step_suggest suggestion now s' :
    (∀ x, suggestion = Some x → valid_f64 x = true) → time_ok now → suggest c s suggestion now = Ok s' → diff_step c s s'
| step_share work s' : nonneg work → share_accepted s work = Ok s' → diff_step c s s'
| step_retarget now s' : time_ok now → session_retarget s now = Ok s' → diff_step c s s'
| step_start now s' : time_ok now → start_delivery s now = Ok s' → diff_step c s s'
| step_announced : diff_step c s (delivery_announced s)
| step_failed : diff_step c s (delivery_failed s).

Context `{!ParseLaws} (c : DifficultyConfig) (Hc : difficulty_config_ok c).

Lemma authorize_ok s retained password now :
  session_ok c s → (∀ x, retained = Some x → valid_f64 x = true) → time_ok now →
  ∃ s', authorize c s retained password now = Ok s' ∧ session_ok c s'.
Proof.
  intros Hs Hv Hnow. destruct (resume_difficulty_ok c Hc s retained Hs Hv) as (d & Hd & Hp). pose proof (password_pos password) as [Hr Hm].
  unfold authorize. rewrite Hd. cbn [mbind result_bind]. destruct (password_difficulties password) as [r m]. pose proof Hs as [].
  match goal with |- ∃ _, apply_requests _ ?x _ ≫= _ = _ ∧ _ =>
    destruct (apply_requests_ok c Hc x now) as (s' & -> & Hok & Hfl & _); [done..|] end.
  cbn [mbind result_bind]. eexists. split; [done|]. by apply set_flags_ok.
Qed.
Lemma suggest_ok s suggestion now :
  session_ok c s → (∀ x, suggestion = Some x → valid_f64 x = true) → time_ok now →
  ∃ s', suggest c s suggestion now = Ok s' ∧ session_ok c s'.
Proof.
  intros Hs Hv Hnow. unfold suggest. destruct suggestion as [n|]; [|eauto].
  destruct (is_finite n && f64_gt n f64_zero) eqn:Hn; [|eauto]. apply andb_true_iff in Hn as [Hn1 Hn2].
  assert (opt_pos (Some n)) as Hp by (intros ? [= <-]; by apply pos_of_gt; [apply Hv|..]). pose proof Hs as [].
  match goal with |- ∃ _, apply_requests _ ?x _ ≫= _ = _ ∧ _ =>
    destruct (apply_requests_ok c Hc x now) as (s' & -> & Hok & Hfl & _); [try done; by destruct so_difficulty0..|] end.
  cbn [mbind result_bind]. eexists. split; [done|]. by apply set_flags_ok.
Qed.
Lemma start_delivery_ok s now : session_ok c s → time_ok now → ∃ s', start_delivery s now = Ok s' ∧ session_ok c s'.
Proof.
  intros Hs Hnow. destruct (session_retarget_ok c Hc s now Hs Hnow) as (s' & Hr & Hs'). unfold start_delivery. rewrite Hr.
  eexists. split; [done|]. destruct (ds_authorized s' && ds_subscribed s'); [|done]. apply set_flags_ok; [done|apply Hs'].
Qed.
Lemma delivery_announced_ok s : session_ok c s → session_ok c (delivery_announced s).
Proof.
  intros Hs. unfold delivery_announced. cbn zeta.
  assert (session_ok c (set_flags s (ds_authorized s) (ds_subscribed s) (ds_retry_job s) false)) as Hf by (apply set_flags_ok; [done|apply Hs]).
  destruct (ds_pending_retarget _) as [[d v]|]; [|done]. pose proof Hs as []. apply set_vardiff_ok; [done| |done|done|done].
  destruct so_controller0. by constructor.
Qed.
Lemma delivery_failed_ok s : session_ok c s → session_ok c (delivery_failed s).
Proof.
  intros Hs. unfold delivery_failed. cbn zeta.
  assert (session_ok c (restore_retarget (set_flags s (ds_authorized s) (ds_subscribed s) (ds_retry_job s) false))) as Hr
    by (apply restore_retarget_ok, set_flags_ok; [done|apply Hs]). apply set_flags_ok; [done|apply Hr].
Qed.
Lemma diff_step_ok s s' : session_ok c s → diff_step c s s' → session_ok c s'.
Proof.
  intros Hs [|retained password now s1 Hv Hn Ha|sg now s1 Hv Hn Ha|work s1 Hw Ha|now s1 Hn Ha|now s1 Hn Ha| |].
  - apply set_flags_ok; [done|apply Hs].
  - destruct (authorize_ok s retained password now Hs Hv Hn) as (? & ? & ?). congruence.
  - destruct (suggest_ok s sg now Hs Hv Hn) as (? & ? & ?). congruence.
  - by eapply share_accepted_ok.
  - destruct (session_retarget_ok c Hc s now Hs Hn) as (? & ? & ?). congruence.
  - destruct (start_delivery_ok s now Hs Hn) as (? & ? & ?). congruence.
  - by apply delivery_announced_ok.
  - by apply delivery_failed_ok.
Qed.
Lemma diff_session_new_ok now : time_ok now → ∃ s, diff_session_new c now = Ok s ∧ session_ok c s.
Proof.
  intros Hnow. pose proof Hc as [[] Hst _ _ _].
  destruct (clamp_spec _ _ _ (pos_not_nan _ Hst) co_order) as (d & Hd & Hd1 & Hd2 & Hdc).
  unfold diff_session_new. rewrite Hd. eexists. split; [done|].
  assert (pos d) by (by destruct Hdc as [->|[[-> _]|[-> _]]]).
  constructor; cbn; try done; [constructor; cbn; eauto using f64_le_refl, pos_not_nan|by destruct (dc_vardiff c)].
Qed.
Lemma session_reached now s0 s : time_ok now → diff_session_new c now = Ok s0 → rtc (diff_step c) s0 s → session_ok c s.
Proof.
  intros Hnow Hnew Hr. destruct (diff_session_new_ok now Hnow) as (s0' & Heq & Hok). assert (s0' = s0) as -> by congruence.
  clear Hnew Heq. induction Hr; eauto using diff_step_ok.
Qed.
End reachable.

(** C19: with a validated configuration, at every point of a session, whatever
    the miner requests in its password or by suggestion, whatever difficulty is
    resumed, and however shares, timers, deliveries, announcements and failed
    deliveries interleave, the session's difficulty is within the configured
    minimum and maximum; once the miner is authorized it is also at least the
    listener's floor and the minimum the miner asked for (as far as the maximum
    allows).  No request, retarget or delivery ever panics. *)
Theorem session_difficulty_bounded `{ParseLaws} c now s0 s :
  typed_difficulty c → validate_difficulty c = Ok tt → time_ok now → diff_session_new c now = Ok s0 → rtc (diff_step c) s0 s →
  (f64_le (vc_minimum (dc_vardiff c)) (ds_difficulty s) = true ∧ f64_le (ds_difficulty s) (vc_maximum (dc_vardiff c)) = true) ∧
  (ds_authorized s = true → f64_le (dc_minimum_difficulty c) (ds_difficulty s) = true ∧
    ∀ m, ds_requested_minimum s = Some m → f64_le (f64_min m (vc_maximum (dc_vardiff c))) (ds_difficulty s) = true) ∧
  ∀ t, time_ok t → is_ok (session_retarget s t) = true ∧ is_ok (start_delivery s t) = true ∧
    ∀ o, (∀ x, o = Some x → valid_f64 x = true) → is_ok (suggest c s o t) = true ∧ ∀ p, is_ok (authorize c s o p t) = true.
Proof.
  intros Ht Hv Hnow Hnew Hr. pose proof (validate_difficulty_ok c Ht Hv) as Hc. pose proof (session_reached c Hc now s0 s Hnow Hnew Hr) as Hs.
  pose proof Hs as []. destruct so_floor0 as [_ Hf1 _], so_difficulty0 as [_ Hd1 Hd2].
  destruct (request_floor_ok c (ds_requested_minimum s) Hc so_requested_minimum0) as (_ & Hfm & Hfr).
  split; [eauto using f64_le_trans|]. split.
  - intros Ha. rewrite (so_applied0 Ha) in Hd1. split; [eauto using f64_le_trans|]. intros m Hm. eauto using f64_le_trans.
  - intros t Htk. destruct (session_retarget_ok c Hc s t Hs Htk) as (? & -> & _), (start_delivery_ok c Hc s t Hs Htk) as (? & -> & _).
    split; [done|]. split; [done|]. intros o Ho. destruct (suggest_ok c Hc s o t Hs Ho Htk) as (? & -> & _). split; [done|].
    intros p. by destruct (authorize_ok c Hc s o p t Hs Ho Htk) as (? & -> & _).
Qed.

(** * Failed deliveries *)
Definition shares_accepted (s : DiffSession) (works : list f64) : result anyhow DiffSession := try_fold share_accepted s works.
(** [s2] carries a proposal on top of [s]. *)
Record proposal_over (s s2 : DiffSession) : Prop := {
  po_pending : ds_pending_retarget s2 = Some (ds_difficulty s, ds_vardiff s);
  po_none : ds_pending_retarget s = None;
}.
Lemma share_over s s2 work s2' :
  proposal_over s s2 → share_accepted s2 work = Ok s2' → ∃ s', share_accepted s work = Ok s' ∧ proposal_over s' s2'.
Proof.
  intros [Hp Hn] (v & Hv & (p & Hpe & [= <-])%bind_Ok)%bind_Ok. rewrite Hp in Hpe. apply bind_Ok in Hpe as (v0 & Hv0 & [= <-]).
  unfold share_accepted. rewrite Hv0, Hn. eexists. split; [done|]. by constructor.
Qed.
Lemma shares_over works s s2 s2' :
  proposal_over s s2 → shares_accepted s2 works = Ok s2' → ∃ s', shares_accepted s works = Ok s' ∧ proposal_over s' s2'.
Proof.
  revert s s2. induction works as [|w works IH]; intros s s2 Hp; cbn; [intros [= <-]; eauto|].
  intros (s3 & H3 & Hr)%bind_Ok. destruct (share_over _ _ _ _ Hp H3) as (s' & -> & Hp'). by eapply IH.
Qed.

(** A retarget whose delivery fails is undone without losing work: while the
    proposal is out no further retarget happens, and after the failure the
    session has the difficulty it had before and the controller state it would
    have had if the same shares had been accepted without any retarget. *)
Theorem failed_delivery_restores s now s1 works s2 :
  ds_pending_retarget s = None → session_retarget s now = Ok s1 → is_Some (ds_pending_retarget s1) →
  shares_accepted s1 works = Ok s2 →
  (∀ t, session_retarget s2 t = Ok s2) ∧
  ∃ s', shares_accepted s works = Ok s' ∧
    ds_difficulty (delivery_failed s2) = ds_difficulty s' ∧ ds_difficulty s' = ds_difficulty s ∧
    ds_vardiff (delivery_failed s2) = ds_vardiff s' ∧ ds_pending_retarget (delivery_failed s2) = None.
Proof.
  intros Hn Hr Hs Hw. unfold session_retarget in Hr. rewrite Hn in Hr. cbn in Hr.
  destruct (ds_delivery_in_flight s); [injection Hr as <-; rewrite Hn in Hs; by destruct Hs|].
  apply bind_Ok in Hr as ([v o] & _ & [= <-]). destruct o as [next|]; [|by destruct Hs].
  assert (proposal_over s (set_vardiff s next v (Some (ds_difficulty s, ds_vardiff s)) (ds_authorized s && ds_subscribed s))) as Hp by by constructor.
  destruct (shares_over _ _ _ _ Hp Hw) as (s' & Hs' & [Hp' _]). split.
  - intros t. unfold session_retarget. by rewrite Hp'.
  - exists s'. split; [done|]. unfold delivery_failed, restore_retarget. cbn. rewrite Hp'. cbn. split_and!; [done| |done..].
    clear -Hs'. revert s Hs'. induction works as [|w works IH]; intros s; cbn; [by intros [= <-]|].
    intros (s3 & (v' & _ & (p & _ & [= <-])%bind_Ok)%bind_Ok & Hr)%bind_Ok. by apply IH in Hr.
Qed.

(** * Witnesses *)
#[export] Instance example_parse : ParseF64 := {| parse_f64 s :=
  if String.eqb s "64" then Some (literal 64 1) else if String.eqb s "2" then Some (literal 2 1) else None |}.
#[export] Instance example_parse_laws : ParseLaws.
Proof.
  constructor. intros s x. cbn. destruct (String.eqb s "64"); [by intros [= <-]; vm_compute|].
  destruct (String.eqb s "2"); [by intros [= <-]; vm_compute|done].
Qed.
Definition example_difficulty : DifficultyConfig := {|
  dc_vardiff := default_vardiff_config; dc_startup_difficulty := literal 1 1; dc_minimum_difficulty := literal 1 2;
  dc_resume_max_start_factor := literal 1024 1 |}.
Definition second : Z := 10 ^ 9.
Definition session_start : DiffSession.
Proof. ok_of (diff_session_new example_difficulty 0). Defined.
Definition session_authorized : DiffSession.
Proof. ok_of (authorize example_difficulty (subscribe session_start) None "d=64, md=2" (10 * second)). Defined.
Definition session_worked : DiffSession.
Proof. ok_of (shares_accepted session_authorized (replicate 8 (literal 1024 1))). Defined.
(** Eight fast shares within two seconds: the early gate allows a step of 64,
    capped by the maximum. *)
Definition session_proposed : DiffSession.
Proof. ok_of (session_retarget session_worked (12 * second)). Defined.
Example proposed_difficulties :
  ds_difficulty session_authorized = literal 64 1 ∧ ds_difficulty session_proposed = literal 1024 1 ∧
  vd_proposed_initial (ds_vardiff session_proposed) = true.
Proof. by vm_compute. Qed.

Lemma literal_nonneg n d : bool_decide (valid_f64 (literal n d) = true) && is_nonneg (literal n d) = true → nonneg (literal n d).
Proof. intros [Hv%bool_decide_eq_true Hn]%andb_true_iff. done. Qed.
Lemma shares_step c (s s' : DiffSession) works :
  Forall nonneg works → shares_accepted s works = Ok s' → rtc (diff_step c) s s'.
Proof.
  revert s. induction works as [|w works IH]; intros s Hf; cbn; [intros [= <-]; apply rtc_refl|].
  apply Forall_cons in Hf as [Hw Hf]. intros (s3 & H3 & Hr)%bind_Ok. eapply rtc_l; [by eapply step_share|by apply IH].
Qed.
Lemma session_proposed_reached : rtc (diff_step example_difficulty) session_start session_proposed.
Proof.
  eapply rtc_l; [apply step_subscribe|].
  eapply rtc_l; [apply (step_authorize _ _ None "d=64, md=2" (10 * second) session_authorized); [done|by vm_compute|by vm_compute]|].
  etransitivity; [apply (shares_step _ session_authorized session_worked (replicate 8 (literal 1024 1)))|].
  - apply Forall_replicate. by apply literal_nonneg.
  - by vm_compute.
  - eapply rtc_l; [|apply rtc_refl]. apply (step_retarget _ _ (12 * second)); by vm_compute.
Qed.
Lemma example_typed : typed_difficulty example_difficulty.
Proof. split_and!; [split; [repeat constructor|]; by vm_compute|by vm_compute..]. Qed.
Lemma session_difficulty_bounded_witness :
  f64_le (vc_minimum (dc_vardiff example_difficulty)) (ds_difficulty session_proposed) = true ∧
  f64_le (ds_difficulty session_proposed) (vc_maximum (dc_vardiff example_difficulty)) = true.
Proof.
  refine (proj1 (session_difficulty_bounded example_difficulty 0 session_start session_proposed _ _ _ _ _)).
  - exact example_typed.
  - vm_compute. reflexivity.
  - split; vm_compute; [discriminate|reflexivity].
  - vm_compute. reflexivity.
  - exact session_proposed_reached.
Defined.
Lemma retarget_step_bounded_witness :
  ∃ v' proposal, retarget (ds_vardiff session_worked) (ds_difficulty session_worked) (12 * second) = Ok (v', proposal) ∧
    retargets (ds_vardiff session_worked) (ds_difficulty session_worked) (12 * second) v' proposal.
Proof.
  apply retarget_step_bounded.
  - split; [repeat constructor|reflexivity].
  - vm_compute. reflexivity.
  - constructor; [split; vm_compute; [discriminate|reflexivity]|split; vm_compute; reflexivity|intros x Hx; discriminate Hx].
  - split; vm_compute; reflexivity.
  - split; vm_compute; [discriminate|reflexivity].
  - vm_compute. reflexivity.
  - vm_compute. reflexivity.
Defined.
Lemma failed_delivery_restores_witness :
  ∃ s2 s', shares_accepted session_proposed [literal 64 1] = Ok s2 ∧ shares_accepted session_worked [literal 64 1] = Ok s' ∧
    ds_vardiff (delivery_failed s2) = ds_vardiff s'.
Proof.
  destruct (shares_accepted session_proposed [literal 64 1]) as [s2|e|m] eqn:H2; [|vm_compute in H2; discriminate H2..].
  destruct (failed_delivery_restores session_worked (12 * second) session_proposed [literal 64 1] s2)
    as (_ & s' & Hs' & _ & _ & Hv & _); [reflexivity|vm_compute; reflexivity|vm_compute; eauto|exact H2|].
  exists s2, s'. split; [reflexivity|]. split; [exact Hs'|exact Hv].
Defined.
