(* ===== verification/Broadcast.v ===== *)
(** The fee-paying child of a fanout (crates/qbit-prism/src/broadcast.rs): the
    key-free builder of the transaction that spends the fanout's anchor, the
    package it is submitted in, and the settlement status a miner is shown. *)
From Stdlib Require Import ZArith Lia.
From Stdlib Require String.
From coqutil Require Import Byte Word.LittleEndianList.
From stdpp Require Import base list strings pretty gmap.
From S2P Require Import Prelude Order Bytes Crates Payee PoolBuilder CoinbaseTx PrismError CtvTx CtvHash Fanout Maturity.

Open Scope Z_scope.

Definition CPFP_CHILD_TX_VERSION : Z := CTV_FANOUT_TX_VERSION.
Definition CPFP_CHILD_SEQUENCE : Z := 0xfffffffd.

Record CpfpChildRequest := {
  ccr_fanout_txid : string;
  ccr_anchor_vout : Z;
  ccr_funding_txid : string;
  ccr_funding_vout : Z;
  ccr_funding_value_sats : Z;
  ccr_fee_sats : Z;
  ccr_change_script_pubkey_hex : string;
}.
Record CpfpChild := {
  cc_unsigned_child_tx_hex : string;
  cc_change_value_sats : Z;
  cc_fee_sats : Z;
}.

Section child.
Context `{HexCrate}.

Definition decode_txid (value field_name : string) : result PrismError (list byte) :=
  match hex_decode value with
  | inl err => invalid_ctv_manifest (field_name +:+ " must be hex: " +:+ err)
  | inr bytes =>
      if (length bytes =? 32)%nat then Ok bytes
      else invalid_ctv_manifest (field_name +:+ " must be 32 bytes, got " +:+ pretty (length bytes))
  end.

Definition cpfp_input (display_txid : list byte) (vout : Z) : list byte :=
  reverse display_txid ++ le_bytes 4 vout ++ [Byte.x00] ++ le_bytes 4 CPFP_CHILD_SEQUENCE.
(** [compact_size] of this module is the fanout module's, written again. *)
Definition cpfp_compact_size (size : Z) : list byte :=
  if size <? 253 then [byte.of_Z size]
  else if size <=? int_max U16 then byte.of_Z 0xfd :: le_bytes 2 size
  else if size <=? int_max U32 then byte.of_Z 0xfe :: le_bytes 4 size
  else byte.of_Z 0xff :: le_bytes 8 size.
Definition cpfp_output (value_sats : Z) (script_pubkey : list byte) : list byte :=
  le_bytes 8 value_sats ++ cpfp_compact_size (Z.of_nat (length script_pubkey)) ++ script_pubkey.

Definition build_cpfp_child (request : CpfpChildRequest) : result PrismError CpfpChild :=
  fanout_txid ← decode_txid (ccr_fanout_txid request) "fanout_txid";
  funding_txid ← decode_txid (ccr_funding_txid request) "funding_txid";
  if bool_decide (fanout_txid = funding_txid) && (ccr_anchor_vout request =? ccr_funding_vout request)
  then invalid_ctv_manifest "funding input must differ from the anchor outpoint" else
  change_script_pubkey ← match hex_decode (ccr_change_script_pubkey_hex request) with
                         | inl err => invalid_ctv_manifest ("change_script_pubkey_hex must be hex: " +:+ err)
                         | inr bs => Ok bs
                         end;
  if bool_decide (change_script_pubkey = [])
  then invalid_ctv_manifest "change scriptPubKey must not be empty" else
  if ccr_fee_sats request =? 0 then invalid_ctv_manifest "CPFP fee must be positive" else
  if ccr_funding_value_sats request <=? ccr_fee_sats request
  then invalid_ctv_manifest "funding value must exceed the fee so the change output is positive" else
  change_value_sats ← arith U64 (ccr_funding_value_sats request - ccr_fee_sats request);
  let tx := le_bytes 4 CPFP_CHILD_TX_VERSION ++ cpfp_compact_size 2 ++
            cpfp_input fanout_txid (ccr_anchor_vout request) ++
            cpfp_input funding_txid (ccr_funding_vout request) ++
            cpfp_compact_size 1 ++ cpfp_output change_value_sats change_script_pubkey ++ le_bytes 4 0 in
  Ok {| cc_unsigned_child_tx_hex := hex_encode tx; cc_change_value_sats := change_value_sats;
        cc_fee_sats := ccr_fee_sats request |}.
End child.

Definition fanout_cpfp_package (parent_fanout_tx_hex signed_child_tx_hex : string) : list string :=
  [parent_fanout_tx_hex; signed_child_tx_hex].

Inductive FanoutSettlementStatus := Reorged | AwaitingMaturity | Broadcastable | Confirmed.

Definition fanout_settlement_status (coinbase_height active_tip_height : Z)
    (coinbase_in_active_chain fanout_confirmed : bool) : FanoutSettlementStatus :=
  if fanout_confirmed then Confirmed
  else if negb coinbase_in_active_chain then Reorged
  else if active_tip_height <? saturating_add U64 coinbase_height QBIT_COINBASE_MATURITY_BLOCKS
  then AwaitingMaturity else Broadcastable.

(** * What the child is *)
Section facts.
Context `{HexCrate, !HexLaws}.

(** A request whose fields are in range of their Rust types. *)
Record wf_child_request (request : CpfpChildRequest) : Prop := {
  wcr_anchor : fits U32 (ccr_anchor_vout request) = true;
  wcr_funding_vout : fits U32 (ccr_funding_vout request) = true;
  wcr_funding_value : fits U64 (ccr_funding_value_sats request) = true;
  wcr_fee : fits U64 (ccr_fee_sats request) = true;
  wcr_script : ∀ bs, hex_decode (ccr_change_script_pubkey_hex request) = inr bs →
    Z.of_nat (length bs) ≤ int_max U32;
}.

Definition child_txin (display : list byte) (vout : Z) : ParsedTxIn :=
  {| pti_prev_txid_hex := hex_encode display; pti_prev_vout := vout; pti_script_sig := [];
     pti_sequence := CPFP_CHILD_SEQUENCE |}.

Lemma child_txin_bytes display vout : txin_bytes (child_txin display vout) = cpfp_input display vout.
Proof. unfold txin_bytes, raw_txid, child_txin. cbn [pti_prev_txid_hex]. by rewrite hex_decode_encode. Qed.

Lemma decode_txid_Ok value field bs :
  decode_txid value field = Ok bs ↔ hex_decode value = inr bs ∧ length bs = 32%nat.
Proof.
  unfold decode_txid. destruct (hex_decode value) as [e|bs']; [naive_solver|].
  destruct (Nat.eqb_spec (length bs') 32); naive_solver.
Qed.

Lemma compact_size_length_le n : (length (compact_size n) ≤ 9)%nat.
Proof. unfold compact_size. repeat case_match; cbn [length]; rewrite ?le_bytes_length; lia. Qed.

Lemma child_wf funding anchor funding_vout anchor_vout change script :
  length funding = 32%nat → length anchor = 32%nat → fits U32 funding_vout = true →
  fits U32 anchor_vout = true → money_ok change → Z.of_nat (length script) ≤ int_max U32 →
  wf_tx CPFP_CHILD_TX_VERSION [child_txin anchor anchor_vout; child_txin funding funding_vout]
    [{| pto_amount_sats := change; pto_script_pubkey := script |}] None 0.
Proof.
  intros Hf Ha Hfv Hav Hm Hs.
  assert (∀ d v, length d = 32%nat → fits U32 v = true → wf_txin (child_txin d v)) as Hin.
  { intros d v Hd Hv. constructor; cbn; [|done|unfold size_ok; cbn; lia|done].
    exists (reverse d). by rewrite reverse_involutive, length_reverse. }
  constructor; try done; [by repeat constructor; apply Hin| |unfold size_ok; cbn; lia..].
  repeat constructor; cbn; [apply Hm..|]. unfold size_ok. widths.
Qed.

(** The requests the builder serves. *)
Definition child_inputs (request : CpfpChildRequest) (anchor funding script : list byte) : Prop :=
  hex_decode (ccr_fanout_txid request) = inr anchor ∧ length anchor = 32%nat ∧
  hex_decode (ccr_funding_txid request) = inr funding ∧ length funding = 32%nat ∧
  (anchor, ccr_anchor_vout request) ≠ (funding, ccr_funding_vout request) ∧
  hex_decode (ccr_change_script_pubkey_hex request) = inr script ∧ script ≠ [] ∧
  0 < ccr_fee_sats request < ccr_funding_value_sats request.

Definition child_of (request : CpfpChildRequest) (anchor funding script : list byte) : CpfpChild :=
  let change := ccr_funding_value_sats request - ccr_fee_sats request in
  {| cc_unsigned_child_tx_hex := hex_encode (tx_bytes Byte.x01 CPFP_CHILD_TX_VERSION
       [child_txin anchor (ccr_anchor_vout request); child_txin funding (ccr_funding_vout request)]
       [{| pto_amount_sats := change; pto_script_pubkey := script |}] None 0);
     cc_change_value_sats := change; cc_fee_sats := ccr_fee_sats request |}.

Lemma build_cpfp_child_Ok request child :
  wf_child_request request →
  build_cpfp_child request = Ok child ↔
  ∃ anchor funding script, child_inputs request anchor funding script ∧
    child = child_of request anchor funding script.
Proof.
  intros [_ _ Hval Hfee _].
  assert (∀ anchor funding script, child_of request anchor funding script =
    {| cc_unsigned_child_tx_hex := hex_encode (le_bytes 4 CPFP_CHILD_TX_VERSION ++ cpfp_compact_size 2 ++
            cpfp_input anchor (ccr_anchor_vout request) ++ cpfp_input funding (ccr_funding_vout request) ++
            cpfp_compact_size 1 ++
            cpfp_output (ccr_funding_value_sats request - ccr_fee_sats request) script ++ le_bytes 4 0);
       cc_change_value_sats := ccr_funding_value_sats request - ccr_fee_sats request;
       cc_fee_sats := ccr_fee_sats request |}) as Hof.
  { intros anchor funding script. unfold child_of, tx_bytes. rewrite bind_cons, !bind_singleton, !child_txin_bytes.
    unfold serialize_txout, cpfp_output. cbn [length pto_amount_sats pto_script_pubkey app]. by rewrite <- !app_assoc. }
  unfold build_cpfp_child, child_inputs. split.
  - intros (anchor & [Ha Hal]%decode_txid_Ok & (funding & [Hf Hfl]%decode_txid_Ok & Hb)%bind_Ok)%bind_Ok.
    destruct (_ && _) eqn:Hne; [done|]. apply bind_Ok in Hb as (script & Hs & Hb).
    destruct (hex_decode (ccr_change_script_pubkey_hex request)) as [e|script'] eqn:Hscr; [done|]. injection Hs as ->.
    case_bool_decide as Hnil; [done|]. destruct (ccr_fee_sats request =? 0) eqn:Hf0; [done|].
    destruct (_ <=? _) eqn:Hle; [done|]. apply bind_Ok in Hb as (change & [-> Hc]%expect_Ok%checked_Some & [= <-]).
    exists anchor, funding, script. rewrite Hof. split; [|done]. split_and!; try done; [|widths|lia].
    intros [= -> Hv]. rewrite bool_decide_true, Hv, Z.eqb_refl in Hne by done. discriminate.
  - intros (anchor & funding & script & (Ha & Hal & Hf & Hfl & Hne & Hscr & Hnil & Hlt) & ->). rewrite Hof.
    rewrite (proj2 (decode_txid_Ok _ _ _) (conj Ha Hal)). cbn [mbind result_bind].
    rewrite (proj2 (decode_txid_Ok _ _ _) (conj Hf Hfl)). cbn [mbind result_bind]. rewrite Hscr.
    replace (_ && _) with false; cycle 1.
    { symmetry. apply andb_false_iff. case_bool_decide as Heq; [right|by left]. apply Z.eqb_neq. congruence. }
    cbn [mbind result_bind]. rewrite bool_decide_false by done.
    rewrite (proj2 (Z.eqb_neq _ _)), (proj2 (Z.leb_gt _ _)) by lia.
    unfold arith. rewrite checked_fits by widths. done.
Qed.

(** The fee-bump child is what its documentation says: whenever the builder
    returns one it parses, with the fanout module's own parser, to a version-3
    transaction with two replaceable inputs, the fanout's anchor first and the
    funding output second, no witness, and one output that returns funding
    minus fee to the change script; and the builder returns one exactly for two
    distinct 32-byte outpoints, a non-empty hex change script and a positive
    fee below the funding value. *)
Theorem cpfp_child_exact request name :
  wf_child_request request → ccr_funding_value_sats request ≤ QBIT_MAX_MONEY_SATS →
  (∀ child, build_cpfp_child request = Ok child →
     cc_change_value_sats child + cc_fee_sats child = ccr_funding_value_sats request ∧
     ∃ anchor funding script tx,
       hex_decode (ccr_fanout_txid request) = inr anchor ∧
       hex_decode (ccr_funding_txid request) = inr funding ∧
       hex_decode (ccr_change_script_pubkey_hex request) = inr script ∧
       parse_transaction_hex (cc_unsigned_child_tx_hex child) name = Ok tx ∧
       ptx_version tx = 3 ∧ ptx_witness_stacks tx = None ∧ ptx_lock_time tx = 0 ∧
       ptx_inputs tx = [child_txin anchor (ccr_anchor_vout request);
                        child_txin funding (ccr_funding_vout request)] ∧
       ptx_outputs tx = [{| pto_amount_sats := cc_change_value_sats child;
                            pto_script_pubkey := script |}]) ∧
  (is_ok (build_cpfp_child request) = true ↔
     ∃ anchor funding script,
       child_inputs request anchor funding script).
Proof.
  intros Hwf Hmax. split.
  - intros child (anchor & funding & script & (Ha & Hal & Hf & Hfl & Hne & Hscr & Hnil & Hlt) & ->)%build_cpfp_child_Ok; [|done].
    destruct Hwf as [Hav Hfv Hval Hfee Hsz]. split; [cbn; lia|].
    assert (money_ok (ccr_funding_value_sats request - ccr_fee_sats request)) as Hm by (unfold money_ok; widths).
    pose proof (child_wf _ _ _ _ _ _ Hfl Hal Hfv Hav Hm (Hsz _ Hscr)) as Hw.
    exists anchor, funding, script. eexists. split_and!; [done..| | | | | |].
    { unfold parse_transaction_hex. cbn [child_of cc_unsigned_child_tx_hex]. rewrite hex_decode_encode.
      apply parse_tx_bytes; [exact Hw|done|]. unfold tx_bytes. rewrite bind_cons, !bind_singleton, !child_txin_bytes.
      unfold cpfp_input, serialize_txout. rewrite !length_app, !le_bytes_length, !length_reverse, Hal, Hfl.
      pose proof (Hsz _ Hscr) as Hss. cbn [length pto_script_pubkey]. pose proof (compact_size_length_le (Z.of_nat (length script))).
      change ctv_compact_size with compact_size. pose proof (compact_size_length_le 2). pose proof (compact_size_length_le 1).
      change (Z.of_nat 2) with 2. change (Z.of_nat 1) with 1. widths. }
    all: done.
  - split.
    + intros [child Hb]%is_ok_ex. apply build_cpfp_child_Ok in Hb as (anchor & funding & script & Hi & _); [|done]. eauto.
    + intros (anchor & funding & script & Hi). erewrite (proj2 (build_cpfp_child_Ok request _ Hwf)); [done|eauto].
Qed.
End facts.

(** The status a miner is shown and the payout ledger agree on maturity. *)
Lemma broadcastable_iff_mature e tip :
  pme_state e = Immature →
  fanout_settlement_status (pme_block_height e) tip true false = Broadcastable ↔
  pme_state (update_maturity_state tip e) = Mature.
Proof.
  intros He. unfold fanout_settlement_status, update_maturity_state. cbn [negb].
  rewrite bool_decide_true by done. unfold maturity_height. cbn [andb].
  destruct (Z.ltb_spec tip (saturating_add U64 (pme_block_height e) QBIT_COINBASE_MATURITY_BLOCKS)).
  - rewrite (proj2 (Z.leb_gt _ _)) by lia. rewrite He. done.
  - rewrite (proj2 (Z.leb_le _ _)) by lia. done.
Qed.

(** * Witness *)
Definition example_child_request : CpfpChildRequest :=
  {| ccr_fanout_txid := repeat_string 32 "Aa"; ccr_anchor_vout := 2; ccr_funding_txid := repeat_string 32 "bb";
     ccr_funding_vout := 0; ccr_funding_value_sats := 5000; ccr_fee_sats := 300;
     ccr_change_script_pubkey_hex := "0014ff" |}.
Lemma cpfp_child_exact_witness :
  ∃ child tx, build_cpfp_child example_child_request = Ok child ∧
    parse_transaction_hex (cc_unsigned_child_tx_hex child) "child" = Ok tx ∧ ptx_version tx = 3 ∧
    cc_change_value_sats child = 4700.
Proof.
  assert (is_ok (build_cpfp_child example_child_request) = true) as Hok by (vm_compute; reflexivity).
  apply is_ok_ex in Hok as [child Hb].
  destruct (proj1 (cpfp_child_exact example_child_request "child"
    ltac:(constructor; [reflexivity..|intros bs Hbs; vm_compute in Hbs; injection Hbs as <-; vm_compute; discriminate])
    ltac:(vm_compute; discriminate)) child Hb)
    as (_ & anchor & funding & script & tx & _ & _ & _ & Hp & Hv & _).
  exists child, tx. split; [exact Hb|]. split; [exact Hp|]. split; [exact Hv|].
  vm_compute in Hb. injection Hb as <-. reflexivity.
Defined.
