(* ===== verification/AuditBodyRef.v ===== *)
(** The storage envelopes of an audit bundle (qbit-prism/src/audit_body_ref.rs):
    [audit-body-ref.v1] and [audit-bundle.v2] keep the bundle without its
    shares and name the shares as parts, each inline or in a segment file.
    Loading one reassembles the window, checks that it is one contiguous run
    of [share_seq], and compares the canonical hash of what it rebuilt with
    the hash the envelope declares.

    The file system, [serde_json]'s decoders and the Unicode lower-casing of
    [String::to_lowercase] are interfaces.  A path is the string that names
    it, joined the way a Unix [PathBuf] joins. *)
From Stdlib Require Import ZArith Lia.
From coqutil Require Import Byte.
From stdpp Require Import base list strings gmap pretty.
From S2P Require Import Prelude Order BTree Apportion Bytes Crates Payee PoolBuilder CoinbaseTx PayoutManifest PrismError.
From S2P Require Import WindowCut RewardWindow ByProgram PayoutPolicy Settlement FanoutFee CtvTx CtvHash Fanout FanoutSet.
From S2P Require Import PagedWindow OrderedChunks RewardParallel OrderedJson AuditBundle AuditBuild AuditVerify.

Open Scope Z_scope.

Definition AUDIT_BODY_REF_SCHEMA : string := "qbit.prism.audit-body-ref.v1".
Definition AUDIT_BUNDLE_V2_SCHEMA : string := "qbit.prism.audit-bundle.v2".
Definition AUDIT_SHARE_SEGMENT_SCHEMA : string := "qbit.prism.audit-share-segment.v1".
Definition AUDIT_WINDOW_COMPLETENESS_PROOF_SCHEMA : string := "qbit.prism.window-completeness-proof.v1".

(** * Data *)
Inductive AuditBodyRefError :=
| BodyIo (error : string)
| BodyJson (error : string)
| BodyInvalid (reason : string)
| BodyHashMismatch (expected actual : string).

Inductive SharePart :=
| Segment (first_share_seq last_share_seq share_count : Z) (sha256_hex body_uri : string)
| SegmentRange (segment_first_share_seq segment_last_share_seq : option Z)
    (first_share_seq last_share_seq share_count : Z) (range_sha256 body_uri : string)
| SegmentPrefix (first_share_seq last_share_seq share_count : Z) (prefix_sha256 body_uri : string)
| Inline (first_share_seq last_share_seq share_count : Z) (shares : list AcceptedShare).

Record AuditBodyRef := {
  abr_schema : string;
  abr_audit_bundle_sha256 : string;
  abr_share_count : Z;
  abr_shares_key_index : option Z;
  abr_bundle_without_shares : Json;
  abr_share_parts : list SharePart;
}.
Record AuditWindowCompletenessProof := {
  wcp_schema : string;
  wcp_first_share_seq : Z;
  wcp_last_share_seq : Z;
  wcp_share_count : Z;
  wcp_share_slice_digest_hex : option string;
  wcp_share_parts_digest_hex : option string;
  wcp_share_parts : list SharePart;
}.
Record AuditBundleV2 := {
  av2_schema : string;
  av2_audit_bundle_sha256 : string;
  av2_share_count : Z;
  av2_shares_key_index : option Z;
  av2_bundle_without_shares : Json;
  av2_share_window_proof : AuditWindowCompletenessProof;
}.
Record AuditShareSegment := {
  seg_schema : string;
  seg_first_share_seq : Z;
  seg_last_share_seq : Z;
  seg_share_count : Z;
  seg_shares : list AcceptedShare;
}.
(** The header every artifact is read for first. *)
Record AuditArtifactSchema := { aas_schema : option string }.

(** The flat record a part's JSON object decodes to, before its tag is
    looked at. *)
Record PartFields := {
  pf_kind : string;
  pf_first_share_seq : Z;
  pf_last_share_seq : Z;
  pf_share_count : Z;
  pf_segment_first_share_seq : option Z;
  pf_segment_last_share_seq : option Z;
  pf_sha256 : option string;
  pf_body_uri : option string;
  pf_range_sha256 : option string;
  pf_prefix_sha256 : option string;
  pf_shares : option (list AcceptedShare);
}.
Inductive PartDecodeError := MissingField (field : string) | UnknownVariant (kind : string).

(** [SharePart::deserialize] after the flat decode. *)
Definition share_part_of_fields (f : PartFields) : result PartDecodeError SharePart :=
  let missing field := MissingField field in
  if String.eqb (pf_kind f) "segment" then
    sha ← ok_or (pf_sha256 f) (missing "sha256");
    uri ← ok_or (pf_body_uri f) (missing "body_uri");
    Ok (Segment (pf_first_share_seq f) (pf_last_share_seq f) (pf_share_count f) sha uri)
  else if String.eqb (pf_kind f) "segment_range" then
    sha ← ok_or (pf_range_sha256 f) (missing "range_sha256");
    uri ← ok_or (pf_body_uri f) (missing "body_uri");
    Ok (SegmentRange (pf_segment_first_share_seq f) (pf_segment_last_share_seq f)
          (pf_first_share_seq f) (pf_last_share_seq f) (pf_share_count f) sha uri)
  else if String.eqb (pf_kind f) "segment_prefix" then
    sha ← ok_or (pf_prefix_sha256 f) (missing "prefix_sha256");
    uri ← ok_or (pf_body_uri f) (missing "body_uri");
    Ok (SegmentPrefix (pf_first_share_seq f) (pf_last_share_seq f) (pf_share_count f) sha uri)
  else if String.eqb (pf_kind f) "inline" then
    shares ← ok_or (pf_shares f) (missing "shares");
    Ok (Inline (pf_first_share_seq f) (pf_last_share_seq f) (pf_share_count f) shares)
  else Err (UnknownVariant (pf_kind f)).

(** * Interfaces *)
(** [serde_json::from_value] and [from_slice], and [to_value]. *)
Class FromJson (A : Type) := {
  from_value : Json -> string + A;
  from_slice : list byte -> string + A;
}.
Class ToValue (A : Type) := { to_value : A -> string + Json }.
(** [fs::read] while an artifact is loaded. *)
Class FileSystem := { fs_read : string -> string + list byte }.
(** [str::to_lowercase], by the Unicode tables. *)
Class Lowercase := { to_lowercase : string -> string }.
(** A value written with [PythonJsonFormatter] in place of the compact one:
    the formatter's [write_string_fragment] is [push_python_json_escaped_contents]. *)
Record Python (A : Type) := python { unpython : A }.
Arguments python {A} unpython.
Arguments unpython {A} p.

(** The [?] operator on an error of a crate. *)
Definition lift {A} (wrap : string -> AuditBodyRefError) (r : string + A) : result AuditBodyRefError A :=
  match r with inl e => Err (wrap e) | inr a => Ok a end.
(** [if condition { return Err(Invalid(reason)) }]. *)
Definition refuse (condition : bool) (reason : string) : result AuditBodyRefError unit :=
  if condition then Err (BodyInvalid reason) else Ok tt.

(** * Values *)
Definition as_str (v : Json) : option string := match v with JString s => Some s | _ => None end.
Definition is_null (v : Json) : bool := match v with JNull => true | _ => false end.

Definition refuse_window_cut (bundle_without_shares : Json) (label : string) : result AuditBodyRefError unit :=
  let cut := json_get bundle_without_shares "reward_manifest" ≫= (fun manifest => json_get manifest "cut") in
  refuse (match cut with Some cut => negb (is_null cut) | None => false end)
    (label +:+ " predates dual-writer window cuts: a bundle whose reward manifest has a cut is only valid as a flat audit bundle").

Definition bundle_value_with_shares `{!ToValue (list AcceptedShare)} (bundle_without_shares : Json)
    (_shares_key_index : option Z) (shares : list AcceptedShare) : result AuditBodyRefError Json :=
  match bundle_without_shares with
  | JObject object =>
      value ← lift BodyJson (to_value shares);
      Ok (JObject (bt_insert String.compare "shares" value object))
  | _ => Err (BodyInvalid "bundle_without_shares must be an object")
  end.

(** * Runs of shares *)
(** [share_seq + 1] in [u64]: the release profile has no overflow checks, so
    the last number wraps to 0. *)
Definition next_share_seq (share : AcceptedShare) : Z := (as_share_seq share + 1) mod 2 ^ 64.
(** [for pair in shares.windows(2)]. *)
Fixpoint validate_contiguous_shares (shares : list AcceptedShare) (label : string) : result AuditBodyRefError unit :=
  match shares with
  | a :: (b :: _) as rest =>
      _ ← refuse (negb (next_share_seq a =? as_share_seq b))
            (label +:+ " has non-contiguous share_seq values: " +:+ pretty (as_share_seq a) +:+ " then " +:+ pretty (as_share_seq b));
      validate_contiguous_shares rest label
  | _ => Ok tt
  end.

Definition len {A} (l : list A) : Z := Z.of_nat (length l).
Definition validate_part_shares (shares : list AcceptedShare) (first_share_seq last_share_seq share_count : Z)
    (label : string) : result AuditBodyRefError unit :=
  _ ← refuse (negb (len shares =? share_count))
        (label +:+ " expected " +:+ pretty share_count +:+ " shares, found " +:+ pretty (len shares));
  _ ← refuse (negb (bool_decide (as_share_seq <$> head shares = Some first_share_seq))
              || negb (bool_decide (as_share_seq <$> last shares = Some last_share_seq)))
        (label +:+ " share_seq range does not match metadata");
  validate_contiguous_shares shares label.

Definition append_contiguous (target incoming : list AcceptedShare)
  : result AuditBodyRefError (list AcceptedShare) :=
  _ ← match last target, head incoming with
      | Some previous, Some next =>
          refuse (negb (next_share_seq previous =? as_share_seq next))
            ("share parts are not contiguous: " +:+ pretty (as_share_seq previous) +:+ " then " +:+ pretty (as_share_seq next))
      | _, _ => Ok tt
      end;
  Ok (target ++ incoming).

(** * Segments *)
Definition validate_share_segment_schema (segment : AuditShareSegment) (segment_path : string)
  : result AuditBodyRefError unit :=
  refuse (negb (String.eqb (seg_schema segment) AUDIT_SHARE_SEGMENT_SCHEMA))
    ("unsupported share segment schema " +:+ seg_schema segment +:+ " at " +:+ segment_path).

Definition validate_share_segment_metadata (segment : AuditShareSegment)
    (first_share_seq last_share_seq share_count : Z) (segment_path : string) : result AuditBodyRefError unit :=
  _ ← validate_share_segment_schema segment segment_path;
  _ ← refuse (negb (seg_first_share_seq segment =? first_share_seq)
              || negb (seg_last_share_seq segment =? last_share_seq)
              || negb (seg_share_count segment =? share_count))
        ("share segment metadata mismatch at " +:+ segment_path);
  validate_part_shares (seg_shares segment) first_share_seq last_share_seq share_count "share segment".

Definition in_range (first_share_seq last_share_seq : Z) (share : AcceptedShare) : Prop :=
  first_share_seq ≤ as_share_seq share ≤ last_share_seq.
#[export] Instance in_range_dec f l share : Decision (in_range f l share).
Proof. unfold in_range. apply _. Defined.
Definition select_share_segment_range (segment_shares : list AcceptedShare)
    (first_share_seq last_share_seq share_count : Z) (label : string)
  : result AuditBodyRefError (list AcceptedShare) :=
  let selected := filter (in_range first_share_seq last_share_seq) segment_shares in
  _ ← validate_part_shares selected first_share_seq last_share_seq share_count label;
  Ok selected.

(** * Paths *)
Definition str_drop (n : nat) (s : string) : string := String.substring n (String.length s - n) s.
Definition str_strip_prefix (prefix s : string) : option string :=
  if String.prefix prefix s then Some (str_drop (String.length prefix) s) else None.
Definition contains (pattern s : string) : bool := bool_decide (is_Some (String.index 0 pattern s)).
Definition is_absolute (path : string) : bool := String.prefix "/" path.
(** [Path::join] of a relative path: a separator unless one is there or the
    base is empty. *)
Definition join_path (base path : string) : string :=
  if String.eqb base "" || String.eqb (str_drop (String.length base - 1) base) "/"
  then base +:+ path else base +:+ "/" +:+ path.

Definition resolve_body_uri (body_uri : string) (base_dir : option string) : result AuditBodyRefError string :=
  path ← match str_strip_prefix "file://" body_uri with
         | Some path =>
             if String.prefix "localhost/" path then Ok (str_drop (String.length "localhost") path) else Ok path
         | None =>
             if contains "://" body_uri
             then Err (BodyInvalid ("unsupported share segment URI scheme: " +:+ body_uri))
             else Ok body_uri
         end;
  Ok (if is_absolute path then path
      else match base_dir with Some base => join_path base path | None => path end).

(** * Loading *)
Section load.
Context `{HexCrate, Sha256Crate, FileSystem, Lowercase}.
Context `{!FromJson AuditShareSegment, !FromJson AuditBundle, !ToValue (list AcceptedShare)}.
Context `{!ToJson string, !ToJson Z, !ToJson WindowCut, !ToJson CountedShare, !ToJson (list CountedShare)}.
Context `{!ToJson (list WeightedEntitlement), !ToJson AcceptedShare, !ToJson (list AcceptedShare)}.
Context `{!ToJson FoundBlock, !ToJson (list CarryForwardBalance), !ToJson PayoutPolicy, !ToJson (list string)}.
Context `{!ToJson LedgerWindowAttestation, !ToJson PayoutPolicyManifest, !ToJson SettlementModeDecision}.
Context `{!ToJson FanoutFeeRatePolicy, !ToJson CtvFanoutManifestSet, !ToJson SignedPayoutManifest}.
Context `{!ToJson (Python string), !ToJson (Python Z), !ToJson (Python (list AcceptedShare))}.
(** [size_of::<AcceptedShare>()] and the [Display] text of a [PrismError]. *)
Context (share_bytes : Z) (display : PrismError -> string).

(** What [Serialize] hands over for a segment, each value written by either
    formatter. *)
Definition segment_fields (segment : AuditShareSegment) : list Field :=
  [("schema", to_writer (seg_schema segment));
   ("first_share_seq", to_writer (seg_first_share_seq segment));
   ("last_share_seq", to_writer (seg_last_share_seq segment));
   ("share_count", to_writer (seg_share_count segment));
   ("shares", to_writer (seg_shares segment))].
#[export] Instance segment_json : ToJson AuditShareSegment :=
  {| json_to_vec segment := object_to_vec (segment_fields segment) |}.
(** An object written by the Python formatter: its keys go through it too. *)
Definition python_object (fields : list Field) : string + list byte :=
  @object_to_vec {| json_to_vec key := json_to_vec (python key) |} fields.
Definition python_segment_fields (segment : AuditShareSegment) : list Field :=
  [("schema", to_writer (python (seg_schema segment)));
   ("first_share_seq", to_writer (python (seg_first_share_seq segment)));
   ("last_share_seq", to_writer (python (seg_last_share_seq segment)));
   ("share_count", to_writer (python (seg_share_count segment)));
   ("shares", to_writer (python (seg_shares segment)))].
#[export] Instance python_segment_json : ToJson (Python AuditShareSegment) :=
  {| json_to_vec segment := python_object (python_segment_fields (unpython segment)) |}.

(** [#[serde(tag = "kind")]]: the tag, then the variant's fields in order. *)
Definition python_part_fields (part : SharePart) : list Field :=
  let text name (s : string) : Field := (name, to_writer (python s)) in
  let int name (z : Z) : Field := (name, to_writer (python z)) in
  let opt name (o : option Z) := match o with Some z => [int name z] | None => [] end in
  match part with
  | Segment first last count sha uri =>
      [text "kind" "segment"; int "first_share_seq" first; int "last_share_seq" last; int "share_count" count;
       text "sha256" sha; text "body_uri" uri]
  | SegmentRange sfirst slast first last count sha uri =>
      [text "kind" "segment_range"] ++ opt "segment_first_share_seq" sfirst ++ opt "segment_last_share_seq" slast ++
      [int "first_share_seq" first; int "last_share_seq" last; int "share_count" count;
       text "range_sha256" sha; text "body_uri" uri]
  | SegmentPrefix first last count sha uri =>
      [text "kind" "segment_prefix"; int "first_share_seq" first; int "last_share_seq" last; int "share_count" count;
       text "prefix_sha256" sha; text "body_uri" uri]
  | Inline first last count shares =>
      [text "kind" "inline"; int "first_share_seq" first; int "last_share_seq" last; int "share_count" count;
       ("shares", to_writer (python shares))]
  end.
#[export] Instance python_part_json : ToJson (Python SharePart) :=
  {| json_to_vec part := python_object (python_part_fields (unpython part)) |}.

Definition python_json_sha256 {A} `{!ToJson (Python A)} (value : A) : result AuditBodyRefError string :=
  bytes ← map_err BodyJson (to_writer (python value));
  Ok (hex_encode (sha256 bytes)).

(** The one-field struct around the parts, its sequence framed the compact way. *)
#[export] Instance python_parts_json : ToJson (Python (list SharePart)) :=
  {| json_to_vec parts :=
       match collect (fun part => to_writer (python part)) (unpython parts) with
       | Ok items =>
           python_object [("share_parts", Ok ([open_bracket] ++ joined items ++ [close_bracket]))]
       | Err e => inl e
       | Panic m => inl m
       end |}.
Definition share_parts_digest_hex (share_parts : list SharePart) : result AuditBodyRefError string :=
  python_json_sha256 share_parts.

Definition verify_share_segment_sha256 (first_share_seq last_share_seq : Z) (shares : list AcceptedShare)
    (expected_sha256 : string) : result AuditBodyRefError unit :=
  let segment := {| seg_schema := AUDIT_SHARE_SEGMENT_SCHEMA; seg_first_share_seq := first_share_seq;
                    seg_last_share_seq := last_share_seq; seg_share_count := len shares; seg_shares := shares |} in
  let expected_sha256 := to_lowercase expected_sha256 in
  bytes ← map_err BodyJson (to_writer segment);
  let actual_sha256 := hex_encode (sha256 bytes) in
  if String.eqb actual_sha256 expected_sha256 then Ok tt else
  python_sha256 ← python_json_sha256 segment;
  if String.eqb python_sha256 expected_sha256 then Ok tt else
  Err (BodyHashMismatch expected_sha256 actual_sha256).

Definition append_share_part (base_dir : option string) (shares : list AcceptedShare) (part : SharePart)
  : result AuditBodyRefError (list AcceptedShare) :=
  match part with
  | Segment first_share_seq last_share_seq share_count sha body_uri =>
      segment_path ← resolve_body_uri body_uri base_dir;
      segment_bytes ← lift BodyIo (fs_read segment_path);
      let actual_sha256 := hex_encode (sha256 segment_bytes) in
      let expected_sha256 := to_lowercase sha in
      if negb (String.eqb actual_sha256 expected_sha256)
      then Err (BodyHashMismatch expected_sha256 actual_sha256) else
      segment ← lift BodyJson (from_slice segment_bytes);
      _ ← validate_share_segment_metadata segment first_share_seq last_share_seq share_count segment_path;
      append_contiguous shares (seg_shares segment)
  | SegmentRange _ _ first_share_seq last_share_seq share_count range_sha256 body_uri =>
      segment_path ← resolve_body_uri body_uri base_dir;
      segment_bytes ← lift BodyIo (fs_read segment_path);
      segment ← lift BodyJson (from_slice segment_bytes);
      _ ← validate_share_segment_schema segment segment_path;
      selected ← select_share_segment_range (seg_shares segment) first_share_seq last_share_seq share_count
                   "share segment range";
      _ ← verify_share_segment_sha256 first_share_seq last_share_seq selected range_sha256;
      append_contiguous shares selected
  | SegmentPrefix first_share_seq last_share_seq share_count prefix_sha256 body_uri =>
      segment_path ← resolve_body_uri body_uri base_dir;
      segment_bytes ← lift BodyIo (fs_read segment_path);
      segment ← lift BodyJson (from_slice segment_bytes);
      _ ← validate_share_segment_schema segment segment_path;
      _ ← refuse (negb (seg_first_share_seq segment =? first_share_seq))
            ("share segment prefix first_share_seq mismatch at " +:+ segment_path);
      selected ← select_share_segment_range (seg_shares segment) first_share_seq last_share_seq share_count
                   "share segment prefix";
      _ ← verify_share_segment_sha256 first_share_seq last_share_seq selected prefix_sha256;
      append_contiguous shares selected
  | Inline first_share_seq last_share_seq share_count inline_shares =>
      _ ← validate_part_shares inline_shares first_share_seq last_share_seq share_count "inline share part";
      append_contiguous shares inline_shares
  end.

(** [Vec::with_capacity]: more than [isize::MAX] bytes is a panic. *)
Definition with_capacity (n : Z) : result AuditBodyRefError (list AcceptedShare) :=
  if n * share_bytes <=? int_max I64 then Ok [] else Panic "capacity overflow".
Definition is_hexdigit (c : Ascii.ascii) : bool :=
  let n := Ascii.N_of_ascii c in
  ((48 <=? n) && (n <=? 57) || (65 <=? n) && (n <=? 70) || (97 <=? n) && (n <=? 102))%N.
Definition is_sha256_hex (s : string) : bool :=
  (String.length s =? 64)%nat && forallb is_hexdigit (String.list_ascii_of_string s).

(** The end both loaders share: the rebuilt bundle's canonical hash. *)
Definition check_canonical_hash (bundle : AuditBundle) (expected_sha256 : string) : result AuditBodyRefError AuditBundle :=
  canonical ← map_err BodyJson (canonical_audit_bundle_bytes bundle);
  let actual_sha256 := hex_encode (sha256 canonical) in
  if negb (String.eqb actual_sha256 expected_sha256)
  then Err (BodyHashMismatch expected_sha256 actual_sha256) else Ok bundle.

Definition resolve_audit_body_ref (body_ref : AuditBodyRef) (base_dir : option string)
  : result AuditBodyRefError AuditBundle :=
  _ ← refuse (negb (String.eqb (abr_schema body_ref) AUDIT_BODY_REF_SCHEMA))
        ("unsupported body-ref schema " +:+ abr_schema body_ref);
  _ ← refuse_window_cut (abr_bundle_without_shares body_ref) "audit-body-ref.v1";
  let expected_sha256 := to_lowercase (abr_audit_bundle_sha256 body_ref) in
  _ ← refuse (negb (is_sha256_hex expected_sha256)) "audit_bundle_sha256 must be 64 hex characters";
  shares ← with_capacity (abr_share_count body_ref);
  shares ← try_fold (append_share_part base_dir) shares (abr_share_parts body_ref);
  _ ← refuse (negb (len shares =? abr_share_count body_ref))
        ("expected " +:+ pretty (abr_share_count body_ref) +:+ " shares, reconstructed " +:+ pretty (len shares));
  _ ← validate_contiguous_shares shares "audit body ref";
  bundle_value ← bundle_value_with_shares (abr_bundle_without_shares body_ref) (abr_shares_key_index body_ref) shares;
  bundle ← lift BodyJson (from_value bundle_value);
  check_canonical_hash bundle expected_sha256.

Definition resolve_audit_bundle_v2 (bundle_v2 : AuditBundleV2) (base_dir : option string)
  : result AuditBodyRefError AuditBundle :=
  _ ← refuse (negb (String.eqb (av2_schema bundle_v2) AUDIT_BUNDLE_V2_SCHEMA))
        ("unsupported audit-bundle.v2 schema " +:+ av2_schema bundle_v2);
  _ ← refuse_window_cut (av2_bundle_without_shares bundle_v2) "audit-bundle.v2";
  let proof := av2_share_window_proof bundle_v2 in
  _ ← refuse (negb (String.eqb (wcp_schema proof) AUDIT_WINDOW_COMPLETENESS_PROOF_SCHEMA))
        ("unsupported window proof schema " +:+ wcp_schema proof);
  let expected_sha256 := to_lowercase (av2_audit_bundle_sha256 bundle_v2) in
  _ ← refuse (negb (is_sha256_hex expected_sha256)) "audit_bundle_sha256 must be 64 hex characters";
  let share_parts := wcp_share_parts proof in
  _ ← match wcp_share_parts_digest_hex proof with
      | Some expected_digest =>
          digest ← share_parts_digest_hex share_parts;
          refuse (negb (eq_ignore_ascii_case expected_digest digest)) "window proof share_parts_digest_hex mismatch"
      | None => Ok tt
      end;
  shares ← with_capacity (av2_share_count bundle_v2);
  shares ← try_fold (append_share_part base_dir) shares share_parts;
  _ ← refuse (negb (len shares =? av2_share_count bundle_v2) || negb (len shares =? wcp_share_count proof))
        ("expected " +:+ pretty (av2_share_count bundle_v2) +:+ " shares, reconstructed " +:+ pretty (len shares));
  _ ← validate_contiguous_shares shares "audit-bundle.v2";
  _ ← refuse (negb (bool_decide (as_share_seq <$> head shares = Some (wcp_first_share_seq proof)))
              || negb (bool_decide (as_share_seq <$> last shares = Some (wcp_last_share_seq proof))))
        "window proof share_seq range does not match reconstructed shares";
  bundle_value ← bundle_value_with_shares (av2_bundle_without_shares bundle_v2) (av2_shares_key_index bundle_v2) shares;
  bundle ← lift BodyJson (from_value bundle_value);
  expected_reward_manifest ←
    map_err (fun err => BodyInvalid ("audit-bundle.v2 reward manifest reconstruction failed: " +:+ display err))
      (build_prism_reward_manifest_with_cut (ab_shares bundle) (ab_found_block bundle)
         (rm_cut (ab_reward_manifest bundle)));
  _ ← match wcp_share_slice_digest_hex proof with
      | Some share_slice_digest_hex =>
          refuse (negb (eq_ignore_ascii_case share_slice_digest_hex (rm_share_slice_digest_hex expected_reward_manifest)))
            "window proof share_slice_digest_hex mismatch"
      | None => Ok tt
      end;
  _ ← refuse (negb (bool_decide (expected_reward_manifest = ab_reward_manifest bundle)))
        "audit-bundle.v2 reward_manifest mismatch";
  check_canonical_hash bundle expected_sha256.

Context `{!FromJson AuditBodyRef, !FromJson AuditBundleV2, !FromJson AuditArtifactSchema, !FromJson Json}.
Definition parse_audit_bundle_value (value : Json) (base_dir : option string) : result AuditBodyRefError AuditBundle :=
  let schema := json_get value "schema" ≫= as_str in
  if bool_decide (schema = Some AUDIT_BODY_REF_SCHEMA) then
    body_ref ← lift BodyJson (from_value value);
    resolve_audit_body_ref body_ref base_dir
  else if bool_decide (schema = Some AUDIT_BUNDLE_V2_SCHEMA) then
    bundle_v2 ← lift BodyJson (from_value value);
    resolve_audit_bundle_v2 bundle_v2 base_dir
  else lift BodyJson (from_value value).
Definition parse_audit_bundle_json (input_json : string) (base_dir : option string) : result AuditBodyRefError AuditBundle :=
  header ← lift BodyJson (from_slice (A := AuditArtifactSchema) (str_bytes input_json));
  if bool_decide (aas_schema header = Some AUDIT_BODY_REF_SCHEMA)
     || bool_decide (aas_schema header = Some AUDIT_BUNDLE_V2_SCHEMA)
  then value ← lift BodyJson (from_slice (A := Json) (str_bytes input_json)); parse_audit_bundle_value value base_dir
  else lift BodyJson (from_slice (str_bytes input_json)).
End load.
