(* ===== verification/BodyRefFacts.v ===== *)
(** What loading a storage envelope guarantees: which artifacts the two
    loaders accept and what they return, that a window proof pins the window
    it names, and that a bundle split into parts in any way loads back. *)
From Stdlib Require Import ZArith Lia.
From coqutil Require Import Byte.
From stdpp Require Import base list list_numbers strings gmap pretty.
From S2P Require Import Prelude Order BTree Apportion Bytes Crates Payee PoolBuilder CoinbaseTx PayoutManifest PrismError.
From S2P Require Import WindowCut RewardWindow ByProgram PayoutPolicy Settlement FanoutFee CtvTx CtvHash Fanout FanoutSet.
From S2P Require Import PagedWindow OrderedChunks RewardParallel OrderedJson AuditBundle AuditBuild AuditVerify AuditBodyRef.

Open Scope Z_scope.

(** * Runs *)
Definition follows (a b : AcceptedShare) : Prop := as_share_seq b = next_share_seq a.
Definition run (l : list AcceptedShare) : Prop :=
  ∀ i a b, l !! i = Some a → l !! S i = Some b → follows a b.
Definition joins (l k : list AcceptedShare) : Prop :=
  ∀ a b, last l = Some a → head k = Some b → follows a b.

Lemma run_cons a l : run (a :: l) ↔ run l ∧ (∀ b, head l = Some b → follows a b).
Proof.
  split.
  - intros Hr. split; [intros i; apply (Hr (S i))|]. intros b Hb. apply (Hr 0%nat); [done|]. by destruct l.
  - intros [Hr Hh] [|i] x y; [|apply Hr]. cbn. intros [= <-] Hy. apply Hh. by destruct l.
Qed.
Lemma run_app l k : run (l ++ k) ↔ run l ∧ run k ∧ joins l k.
Proof.
  unfold joins. induction l as [|a l IH].
  { cbn. split; [intros Hr|by intros (_ & Hr & _)]. split; [intros [|i] ? ? Hi; discriminate Hi|]. split; [done|]. intros ? ? Hn. discriminate Hn. }
  rewrite <- app_comm_cons, !run_cons, IH. clear IH. destruct l as [|x l]; [cbn; naive_solver|].
  rewrite last_cons_cons. cbn [app head]. naive_solver.
Qed.
(** A run counts up from its first number, modulo [2 ^ 64]. *)
Lemma run_seqs l a i s : run l → head l = Some a → l !! i = Some s → as_share_seq s mod 2 ^ 64 = (as_share_seq a + Z.of_nat i) mod 2 ^ 64.
Proof.
  intros Hr Ha. revert s. induction i as [|i IH]; intros s Hi.
  - rewrite Z.add_0_r. destruct l; [done|]. cbn in Ha, Hi. congruence.
  - destruct (lookup_lt_is_Some_2 l i) as [p Hp]; [apply lookup_lt_Some in Hi; lia|].
    rewrite (Hr i p s Hp Hi). unfold next_share_seq. rewrite Z.mod_mod by lia. rewrite <- Zplus_mod_idemp_l, (IH p Hp), Zplus_mod_idemp_l. f_equal. lia.
Qed.

Lemma refuse_Ok c r u : refuse c r = Ok u ↔ c = false.
Proof. destruct c, u; done. Qed.
Lemma lift_Ok {A} w (r : string + A) a : lift w r = Ok a ↔ r = inr a.
Proof. destruct r; naive_solver. Qed.
Lemma negb_eqb_false a b : negb (a =? b) = false ↔ a = b.
Proof. rewrite negb_false_iff. apply Z.eqb_eq. Qed.
Lemma negb_str_false a b : negb (String.eqb a b) = false ↔ a = b.
Proof. rewrite negb_false_iff. apply String.eqb_eq. Qed.
Lemma negb_decide_false P `{Decision P} : negb (bool_decide P) = false ↔ P.
Proof. rewrite negb_false_iff. apply bool_decide_eq_true. Qed.

Lemma next_check_iff a b {X} (k : result AuditBodyRefError X) r x :
  (_ ← refuse (negb (next_share_seq a =? as_share_seq b)) r; k) = Ok x ↔ follows a b ∧ k = Ok x.
Proof.
  rewrite bind_Ok. setoid_rewrite refuse_Ok. setoid_rewrite negb_eqb_false. unfold follows. naive_solver eauto using tt.
Qed.
Lemma validate_contiguous_iff l label u : validate_contiguous_shares l label = Ok u ↔ run l.
Proof.
  destruct u. induction l as [|a [|b l] IH]; [done|split; [by intros _ [|i]|done]|].
  change (validate_contiguous_shares (a :: b :: l) label) with
    (_ ← refuse (negb (next_share_seq a =? as_share_seq b)) (label +:+ " has non-contiguous share_seq values: " +:+ pretty (as_share_seq a) +:+ " then " +:+ pretty (as_share_seq b));
     validate_contiguous_shares (b :: l) label).
  rewrite next_check_iff, IH, (run_cons a). cbn. naive_solver.
Qed.

Record spans (first_seq last_seq count : Z) (l : list AcceptedShare) : Prop := {
  sp_count : len l = count;
  sp_first : as_share_seq <$> head l = Some first_seq;
  sp_last : as_share_seq <$> last l = Some last_seq;
  sp_run : run l;
}.
Lemma range_check_iff l f t :
  negb (bool_decide (as_share_seq <$> head l = Some f)) || negb (bool_decide (as_share_seq <$> last l = Some t)) = false ↔
  as_share_seq <$> head l = Some f ∧ as_share_seq <$> last l = Some t.
Proof. by rewrite orb_false_iff, !negb_decide_false. Qed.
Lemma validate_part_iff l f t n label u : validate_part_shares l f t n label = Ok u ↔ spans f t n l.
Proof.
  unfold validate_part_shares. rewrite bind_Ok. setoid_rewrite bind_Ok. setoid_rewrite refuse_Ok.
  setoid_rewrite negb_eqb_false. setoid_rewrite range_check_iff. setoid_rewrite validate_contiguous_iff. split.
  - intros (_ & ? & _ & [??] & ?). by constructor.
  - intros []. eauto 10 using tt.
Qed.
Lemma append_contiguous_iff l k out : append_contiguous l k = Ok out ↔ out = l ++ k ∧ joins l k.
Proof.
  unfold append_contiguous, joins. rewrite bind_Ok.
  destruct (last l) as [a|], (head k) as [b|]; [|naive_solver eauto using tt..].
  setoid_rewrite refuse_Ok. setoid_rewrite negb_eqb_false. unfold follows. naive_solver eauto using tt.
Qed.
Lemma select_range_iff l f t n label out :
  select_share_segment_range l f t n label = Ok out ↔ out = filter (in_range f t) l ∧ spans f t n out.
Proof.
  unfold select_share_segment_range. rewrite bind_Ok. setoid_rewrite validate_part_iff. split.
  - intros (u & Hs & [= <-]). done.
  - intros [-> Hs]. exists tt. done.
Qed.

(** * JSON objects *)
Definition no_cut (v : Json) : Prop :=
  ∀ cut, json_get v "reward_manifest" ≫= (fun manifest => json_get manifest "cut") = Some cut → cut = JNull.
Lemma refuse_window_cut_iff v label u : refuse_window_cut v label = Ok u ↔ no_cut v.
Proof.
  unfold refuse_window_cut, no_cut. rewrite refuse_Ok.
  destruct (json_get v "reward_manifest" ≫= _) as [c|]; [|naive_solver].
  rewrite negb_false_iff. destruct c; cbn; naive_solver.
Qed.
Lemma json_get_cons k x v o : json_get (JObject ((x, v) :: o)) k = if String.eqb x k then Some v else json_get (JObject o) k.
Proof. cbn. by destruct (String.eqb x k). Qed.
Lemma bt_insert_cons {V} (k x : string) (v w : V) o :
  bt_insert String.compare k v ((x, w) :: o) =
  match String.compare k x with
  | Lt => (k, v) :: (x, w) :: o
  | Eq => (k, v) :: o
  | Gt => (x, w) :: bt_insert String.compare k v o
  end.
Proof. reflexivity. Qed.
Lemma json_get_insert_eq k v o : json_get (JObject (bt_insert String.compare k v o)) k = Some v.
Proof.
  induction o as [|[x w] o IH].
  { change (json_get (JObject [(k, v)]) k = Some v). by rewrite json_get_cons, String.eqb_refl. }
  rewrite bt_insert_cons.
  destruct (String.compare k x) eqn:Hc; rewrite json_get_cons, ?String.eqb_refl; [done..|].
  destruct (String.eqb_spec x k) as [->|]; [|done]. by rewrite (cmp_refl String.compare) in Hc.
Qed.
Lemma json_get_insert_ne k k' v o : k ≠ k' → json_get (JObject (bt_insert String.compare k v o)) k' = json_get (JObject o) k'.
Proof.
  intros Hne%String.eqb_neq. induction o as [|[x w] o IH].
  { change (json_get (JObject [(k, v)]) k' = None). by rewrite json_get_cons, Hne. }
  rewrite bt_insert_cons.
  destruct (String.compare k x) eqn:Hc; rewrite !json_get_cons.
  - apply String.compare_eq_iff in Hc as <-. by rewrite Hne.
  - by rewrite Hne.
  - by rewrite IH.
Qed.

(** * Loading *)
Section facts.
Context `{HexCrate, Sha256Crate, FileSystem, Lowercase}.
Context `{!FromJson AuditShareSegment, !FromJson AuditBundle, !ToValue (list AcceptedShare)}.
Context `{!ToJson string, !ToJson Z, !ToJson WindowCut, !ToJson CountedShare, !ToJson (list CountedShare)}.
Context `{!ToJson (list WeightedEntitlement), !ToJson AcceptedShare, !ToJson (list AcceptedShare)}.
Context `{!ToJson FoundBlock, !ToJson (list CarryForwardBalance), !ToJson PayoutPolicy, !ToJson (list string)}.
Context `{!ToJson LedgerWindowAttestation, !ToJson PayoutPolicyManifest, !ToJson SettlementModeDecision}.
Context `{!ToJson FanoutFeeRatePolicy, !ToJson CtvFanoutManifestSet, !ToJson SignedPayoutManifest}.
Context `{!ToJson (Python string), !ToJson (Python Z), !ToJson (Python (list AcceptedShare))}.
Context (share_bytes : Z) (display : PrismError -> string).

Definition segment_of (first_seq last_seq : Z) (l : list AcceptedShare) : AuditShareSegment :=
  {| seg_schema := AUDIT_SHARE_SEGMENT_SCHEMA; seg_first_share_seq := first_seq; seg_last_share_seq := last_seq;
     seg_share_count := len l; seg_shares := l |}.
(** The digest of a range, in the serde or in the Python form. *)
Definition range_digest (first_seq last_seq : Z) (l : list AcceptedShare) (declared : string) : Prop :=
  ∃ bytes, to_writer (segment_of first_seq last_seq l) = Ok bytes ∧
    (hex_encode (sha256 bytes) = to_lowercase declared ∨
     ∃ ascii, to_writer (python (segment_of first_seq last_seq l)) = Ok ascii ∧
       hex_encode (sha256 ascii) = to_lowercase declared).
Definition stored_segment (base_dir : option string) (uri : string) (bytes : list byte) (segment : AuditShareSegment) : Prop :=
  ∃ path, resolve_body_uri uri base_dir = Ok path ∧ fs_read path = inr bytes ∧ from_slice bytes = inr segment ∧
    seg_schema segment = AUDIT_SHARE_SEGMENT_SCHEMA.

(** The shares one part stands for. *)
Inductive part_yields (base_dir : option string) : SharePart -> list AcceptedShare -> Prop :=
| yields_segment first_seq last_seq count sha uri bytes segment :
    stored_segment base_dir uri bytes segment →
    hex_encode (sha256 bytes) = to_lowercase sha →
    seg_first_share_seq segment = first_seq → seg_last_share_seq segment = last_seq → seg_share_count segment = count →
    spans first_seq last_seq count (seg_shares segment) →
    part_yields base_dir (Segment first_seq last_seq count sha uri) (seg_shares segment)
| yields_range sfirst slast first_seq last_seq count sha uri bytes segment l :
    stored_segment base_dir uri bytes segment →
    l = filter (in_range first_seq last_seq) (seg_shares segment) →
    spans first_seq last_seq count l → range_digest first_seq last_seq l sha →
    part_yields base_dir (SegmentRange sfirst slast first_seq last_seq count sha uri) l
| yields_prefix first_seq last_seq count sha uri bytes segment l :
    stored_segment base_dir uri bytes segment →
    seg_first_share_seq segment = first_seq →
    l = filter (in_range first_seq last_seq) (seg_shares segment) →
    spans first_seq last_seq count l → range_digest first_seq last_seq l sha →
    part_yields base_dir (SegmentPrefix first_seq last_seq count sha uri) l
| yields_inline first_seq last_seq count l :
    spans first_seq last_seq count l → part_yields base_dir (Inline first_seq last_seq count l) l.

Lemma verify_sha_iff f t l declared u : verify_share_segment_sha256 f t l declared = Ok u ↔ range_digest f t l declared.
Proof.
  unfold verify_share_segment_sha256, range_digest, python_json_sha256. fold (segment_of f t l). destruct u.
  rewrite bind_Ok. setoid_rewrite map_err_Ok. apply exist_proper. intros bytes. apply and_iff_compat_l.
  destruct (String.eqb_spec (hex_encode (sha256 bytes)) (to_lowercase declared)) as [|Hne]; [naive_solver|].
  rewrite bind_Ok. setoid_rewrite bind_Ok. setoid_rewrite map_err_Ok. split.
  - intros (d & (ascii & Ha & [= <-]) & Hd). right. exists ascii. split; [done|].
    by destruct (String.eqb_spec (hex_encode (sha256 ascii)) (to_lowercase declared)).
  - intros [?|(ascii & Ha & Hd)]; [done|]. exists (hex_encode (sha256 ascii)). split; [eauto|].
    by rewrite Hd, String.eqb_refl.
Qed.
Lemma validate_schema_iff segment path u :
  validate_share_segment_schema segment path = Ok u ↔ seg_schema segment = AUDIT_SHARE_SEGMENT_SCHEMA.
Proof. unfold validate_share_segment_schema. by rewrite refuse_Ok, negb_str_false. Qed.
Lemma validate_metadata_iff segment f t n path u :
  validate_share_segment_metadata segment f t n path = Ok u ↔
  seg_schema segment = AUDIT_SHARE_SEGMENT_SCHEMA ∧
  (seg_first_share_seq segment = f ∧ seg_last_share_seq segment = t ∧ seg_share_count segment = n) ∧
  spans f t n (seg_shares segment).
Proof.
  unfold validate_share_segment_metadata. rewrite bind_Ok. setoid_rewrite bind_Ok. setoid_rewrite validate_schema_iff.
  setoid_rewrite refuse_Ok. setoid_rewrite orb_false_iff. setoid_rewrite orb_false_iff. setoid_rewrite negb_eqb_false.
  setoid_rewrite validate_part_iff. split; [naive_solver|]. intros (? & (?&?&?) & ?). eauto 10 using tt.
Qed.

Lemma append_part_iff base l part out :
  append_share_part base l part = Ok out ↔ ∃ k, part_yields base part k ∧ out = l ++ k ∧ joins l k.
Proof.
  split.
  - destruct part as [f t n sha uri|sf sl f t n sha uri|f t n sha uri|f t n k]; cbn [append_share_part].
    + intros (path & Hp & (bytes & Hb%lift_Ok & Hr)%bind_Ok)%bind_Ok.
      destruct (String.eqb_spec (hex_encode (sha256 bytes)) (to_lowercase sha)) as [Hh|]; [|done]. cbn [negb] in Hr.
      apply bind_Ok in Hr as (seg & Hs%lift_Ok & (u & (Hsc & (?&?&?) & Hsp)%validate_metadata_iff & Ha%append_contiguous_iff)%bind_Ok).
      exists (seg_shares seg). split; [|done]. econstructor; [eexists; eauto|done..].
    + intros (path & Hp & (bytes & Hb%lift_Ok & (seg & Hs%lift_Ok & (u & Hsc%validate_schema_iff &
        (sel & [-> Hsel]%select_range_iff & (u' & Hv%verify_sha_iff & Ha%append_contiguous_iff)%bind_Ok)%bind_Ok)%bind_Ok)%bind_Ok)%bind_Ok)%bind_Ok.
      eexists. split; [|exact Ha]. econstructor; [eexists; eauto|done..].
    + intros (path & Hp & (bytes & Hb%lift_Ok & (seg & Hs%lift_Ok & (u & Hsc%validate_schema_iff & (u1 & Hf%refuse_Ok%negb_eqb_false &
        (sel & [-> Hsel]%select_range_iff & (u' & Hv%verify_sha_iff & Ha%append_contiguous_iff)%bind_Ok)%bind_Ok)%bind_Ok)%bind_Ok)%bind_Ok)%bind_Ok)%bind_Ok.
      eexists. split; [|exact Ha]. econstructor; [eexists; eauto|done..].
    + intros (u & Hv%validate_part_iff & Ha%append_contiguous_iff)%bind_Ok. eexists. split; [|exact Ha]. by constructor.
  - intros (k & Hy & Ha%append_contiguous_iff).
    destruct Hy as [f t n sha uri bytes seg (path & Hp & Hb & Hs & Hsc) Hh <- <- <- Hsp
      |sf sl f t n sha uri bytes seg k (path & Hp & Hb & Hs & Hsc) Hk Hsp Hd
      |f t n sha uri bytes seg k (path & Hp & Hb & Hs & Hsc) Hf Hk Hsp Hd|f t n k Hsp]; cbn [append_share_part].
    + rewrite Hp. cbn. rewrite Hb. cbn. rewrite Hh, String.eqb_refl. cbn. rewrite Hs. cbn [lift mbind result_bind].
      rewrite (proj2 (validate_metadata_iff seg _ _ _ path tt)) by done. done.
    + rewrite Hp. cbn. rewrite Hb. cbn. rewrite Hs. cbn [lift mbind result_bind].
      rewrite (proj2 (validate_schema_iff seg path tt)) by done. cbn [mbind result_bind].
      rewrite (proj2 (select_range_iff _ f t n _ k)) by done. cbn [mbind result_bind].
      rewrite (proj2 (verify_sha_iff f t k sha tt)) by done. done.
    + rewrite Hp. cbn. rewrite Hb. cbn. rewrite Hs. cbn [lift mbind result_bind].
      rewrite (proj2 (validate_schema_iff seg path tt)) by done. cbn [mbind result_bind].
      rewrite Hf, Z.eqb_refl. cbn [negb refuse mbind result_bind].
      rewrite (proj2 (select_range_iff _ f t n _ k)) by done. cbn [mbind result_bind].
      rewrite (proj2 (verify_sha_iff f t k sha tt)) by done. done.
    + rewrite (proj2 (validate_part_iff k f t n _ tt)) by done. done.
Qed.

Lemma part_yields_spans base part k : part_yields base part k → ∃ f t n, spans f t n k.
Proof. destruct 1; eauto. Qed.
Lemma append_parts_iff base parts l out :
  run l → try_fold (append_share_part base) l parts = Ok out ↔
  ∃ runs, Forall2 (part_yields base) parts runs ∧ out = l ++ mjoin runs ∧ run out.
Proof.
  revert l out. induction parts as [|p parts IH]; intros l out Hl.
  - cbn. split; [intros [= <-]; exists []; rewrite app_nil_r; eauto using Forall2_nil|].
    intros (runs & Hf & -> & _). apply Forall2_nil_inv_l in Hf as ->. by rewrite app_nil_r.
  - cbn [try_fold]. rewrite bind_Ok. setoid_rewrite append_part_iff. split.
    + intros (l' & (k & Hy & -> & Hj) & Hr). destruct (part_yields_spans _ _ _ Hy) as (f & t & n & [_ _ _ Hk]).
      apply IH in Hr as (runs & Hf & -> & Ho); [|by apply run_app]. exists (k :: runs). cbn.
      split; [by constructor|]. by rewrite <- app_assoc in Ho |- *.
    + intros (runs & Hf & -> & Ho). apply Forall2_cons_inv_l in Hf as (k & runs' & Hy & Hf & ->).
      cbn in Ho |- *. exists (l ++ k). rewrite app_assoc in Ho |- *. pose proof Ho as (Hlk & _ & _)%run_app.
      split; [|apply IH; [done|]; eauto]. exists k. apply run_app in Hlk as (_ & _ & Hj). done.
Qed.

(** ** What the two loaders share *)
Record rebuilt (base_dir : option string) (without : Json) (declared : string) (count : Z) (parts : list SharePart)
    (shares : list AcceptedShare) (b : AuditBundle) : Prop := {
  rb_no_cut : no_cut without;
  rb_hex : is_sha256_hex (to_lowercase declared) = true;
  rb_room : count * share_bytes ≤ int_max I64;
  rb_parts : ∃ runs, Forall2 (part_yields base_dir) parts runs ∧ shares = mjoin runs;
  rb_run : run shares;
  rb_count : len shares = count;
  rb_bundle : ∃ object value, without = JObject object ∧ to_value shares = inr value ∧
    from_value (JObject (bt_insert String.compare "shares" value object)) = inr b;
  rb_hash : ∃ canonical, canonical_audit_bundle_bytes b = Ok canonical ∧ hex_encode (sha256 canonical) = to_lowercase declared;
}.

Lemma with_capacity_iff n l : with_capacity share_bytes n = Ok l ↔ n * share_bytes ≤ int_max I64 ∧ l = [].
Proof. unfold with_capacity. destruct (Z.leb_spec (n * share_bytes) (int_max I64)); naive_solver lia. Qed.
Lemma bundle_value_iff without index l v :
  bundle_value_with_shares without index l = Ok v ↔
  ∃ object value, without = JObject object ∧ to_value l = inr value ∧ v = JObject (bt_insert String.compare "shares" value object).
Proof.
  destruct without as [| | | | |object]; cbn [bundle_value_with_shares]; [naive_solver..|].
  rewrite bind_Ok. setoid_rewrite lift_Ok. naive_solver.
Qed.
Lemma check_hash_iff b e b' :
  check_canonical_hash b e = Ok b' ↔ b' = b ∧ ∃ canonical, canonical_audit_bundle_bytes b = Ok canonical ∧ hex_encode (sha256 canonical) = e.
Proof.
  unfold check_canonical_hash. rewrite bind_Ok. setoid_rewrite map_err_Ok. split.
  - intros (c & Hc & Hr). destruct (String.eqb_spec (hex_encode (sha256 c)) e); naive_solver.
  - intros [-> (c & Hc & <-)]. exists c. by rewrite String.eqb_refl.
Qed.
Lemma run_nil : run [].
Proof. intros [|i] a b Hi; discriminate Hi. Qed.

Lemma body_ref_iff r base b :
  resolve_audit_body_ref share_bytes r base = Ok b ↔
  abr_schema r = AUDIT_BODY_REF_SCHEMA ∧
  ∃ shares, rebuilt base (abr_bundle_without_shares r) (abr_audit_bundle_sha256 r) (abr_share_count r) (abr_share_parts r) shares b.
Proof.
  unfold resolve_audit_body_ref. split.
  - intros (u1 & Hs%refuse_Ok%negb_str_false & (u2 & Hc%refuse_window_cut_iff & (u3 & Hx%refuse_Ok%negb_false_iff &
      (s0 & [Hroom ->]%with_capacity_iff & (shares & (runs & Hf & -> & Hr)%append_parts_iff & (u4 & Hn%refuse_Ok%negb_eqb_false &
      (u5 & _ & (v & (object & value & Ho & Hv & ->)%bundle_value_iff & (b0 & Hd%lift_Ok &
      [-> Hh]%check_hash_iff)%bind_Ok)%bind_Ok)%bind_Ok)%bind_Ok)%bind_Ok)%bind_Ok)%bind_Ok)%bind_Ok)%bind_Ok; [|apply run_nil].
    split; [done|]. exists (mjoin runs). constructor; eauto.
  - intros [Hs (shares & [Hc Hx Hroom (runs & Hf & Hj) Hr Hn Hb Hh])].
    rewrite Hs, String.eqb_refl. cbn [negb refuse mbind result_bind].
    rewrite (proj2 (refuse_window_cut_iff _ _ tt)) by done. cbn [mbind result_bind].
    rewrite Hx. cbn [negb refuse mbind result_bind].
    rewrite (proj2 (with_capacity_iff _ [])) by done. cbn [mbind result_bind].
    rewrite (proj2 (append_parts_iff base _ [] shares run_nil)) by eauto. cbn [mbind result_bind].
    rewrite Hn, Z.eqb_refl. cbn [negb refuse mbind result_bind].
    rewrite (proj2 (validate_contiguous_iff shares _ tt)) by done. cbn [mbind result_bind].
    destruct Hb as (object & value & Ho & Hv & Hd).
    rewrite (proj2 (bundle_value_iff _ _ shares _)) by eauto. cbn [mbind result_bind].
    rewrite Hd. cbn [lift mbind result_bind]. by apply check_hash_iff.
Qed.

(** The reader reserves room for the declared count before it reads a part,
    so a count beyond the address space stops it by a panic, whatever the
    parts hold. *)
Lemma oversized_count_panics r base :
  abr_schema r = AUDIT_BODY_REF_SCHEMA → no_cut (abr_bundle_without_shares r) →
  is_sha256_hex (to_lowercase (abr_audit_bundle_sha256 r)) = true →
  int_max I64 < abr_share_count r * share_bytes →
  resolve_audit_body_ref share_bytes r base = Panic "capacity overflow".
Proof.
  intros Hs Hc Hx Hn. unfold resolve_audit_body_ref. rewrite Hs, String.eqb_refl. cbn [negb refuse mbind result_bind].
  rewrite (proj2 (refuse_window_cut_iff _ _ tt)) by done. rewrite Hx. cbn [negb refuse mbind result_bind].
  unfold with_capacity. by destruct (Z.leb_spec (abr_share_count r * share_bytes) (int_max I64)); [lia|].
Qed.

(** [serde]'s derived decoder of a bundle: the [shares] field decodes to what
    was encoded there, and an absent or null [cut] is [None]. *)
Class BundleDecode : Prop := {
  decode_bundle_shares fields value shares b :
    json_get (JObject fields) "shares" = Some value → to_value shares = inr value →
    from_value (JObject fields) = inr b → ab_shares b = shares;
  decode_bundle_cut v b : from_value v = inr b → no_cut v → rm_cut (ab_reward_manifest b) = None;
}.
Lemma no_cut_insert object value : no_cut (JObject object) → no_cut (JObject (bt_insert String.compare "shares" value object)).
Proof. unfold no_cut. by rewrite json_get_insert_ne. Qed.
Lemma rebuilt_shares `{!BundleDecode} base without declared n parts shares b :
  rebuilt base without declared n parts shares b → ab_shares b = shares.
Proof. intros [_ _ _ _ _ _ (o & v & _ & Hv & Hd) _]. eapply decode_bundle_shares; [apply json_get_insert_eq|done..]. Qed.
Lemma rebuilt_no_cut `{!BundleDecode} base without declared n parts shares b :
  rebuilt base without declared n parts shares b → rm_cut (ab_reward_manifest b) = None.
Proof. intros [Hc _ _ _ _ _ (o & v & -> & _ & Hd) _]. eapply decode_bundle_cut; [done|by apply no_cut_insert]. Qed.

(** C13: an [audit-body-ref.v1] artifact loads exactly when its schema is the
    supported one, its bundle has no window cut, its declared hash is 64 hex
    digits, room for the declared share count can be reserved and the count is
    the number of shares its parts hold, every part yields a run of shares (a
    whole segment file with the declared digest, the declared range or prefix
    of one with a digest in the serde or the Python form, or inline shares),
    each share's number is the one before it plus one in wrapping 64-bit
    arithmetic, across parts too, and the bundle decoded with those shares put
    in has the declared canonical hash; the loader then returns that bundle.
    A count too large to reserve panics, once the schema, the cut and the form
    of the hash have passed, whatever the parts hold. *)
Theorem body_ref_exact `{!BundleDecode} r base :
  (∀ b, resolve_audit_body_ref share_bytes r base = Ok b ↔
     abr_schema r = AUDIT_BODY_REF_SCHEMA ∧
     rebuilt base (abr_bundle_without_shares r) (abr_audit_bundle_sha256 r) (abr_share_count r) (abr_share_parts r) (ab_shares b) b) ∧
  (abr_schema r = AUDIT_BODY_REF_SCHEMA → no_cut (abr_bundle_without_shares r) →
   is_sha256_hex (to_lowercase (abr_audit_bundle_sha256 r)) = true → int_max I64 < abr_share_count r * share_bytes →
   resolve_audit_body_ref share_bytes r base = Panic "capacity overflow").
Proof.
  split; [|apply oversized_count_panics]. intros b. rewrite body_ref_iff. split; [|naive_solver]. intros (Hs & shares & Hb). split; [done|].
  by rewrite (rebuilt_shares _ _ _ _ _ _ _ Hb).
Qed.

(** The checks of a window proof beyond those of a body reference. *)
Record window_proof_holds (p : AuditWindowCompletenessProof) (shares : list AcceptedShare) (b : AuditBundle) : Prop := {
  wp_schema : wcp_schema p = AUDIT_WINDOW_COMPLETENESS_PROOF_SCHEMA;
  wp_parts_digest : ∀ e, wcp_share_parts_digest_hex p = Some e →
    ∃ d, share_parts_digest_hex (wcp_share_parts p) = Ok d ∧ eq_ignore_ascii_case e d = true;
  wp_count : len shares = wcp_share_count p;
  wp_first : as_share_seq <$> head shares = Some (wcp_first_share_seq p);
  wp_last : as_share_seq <$> last shares = Some (wcp_last_share_seq p);
  wp_manifest : build_prism_reward_manifest_with_cut (ab_shares b) (ab_found_block b) (rm_cut (ab_reward_manifest b)) =
    Ok (ab_reward_manifest b);
  wp_slice_digest : ∀ e, wcp_share_slice_digest_hex p = Some e →
    eq_ignore_ascii_case e (rm_share_slice_digest_hex (ab_reward_manifest b)) = true;
}.
Lemma bundle_v2_exact v base b :
  resolve_audit_bundle_v2 share_bytes display v base = Ok b ↔
  av2_schema v = AUDIT_BUNDLE_V2_SCHEMA ∧
  ∃ shares, rebuilt base (av2_bundle_without_shares v) (av2_audit_bundle_sha256 v) (av2_share_count v)
      (wcp_share_parts (av2_share_window_proof v)) shares b ∧
    window_proof_holds (av2_share_window_proof v) shares b.
Proof.
  unfold resolve_audit_bundle_v2. split.
  - intros (u1 & Hs%refuse_Ok%negb_str_false & (u2 & Hc%refuse_window_cut_iff & (u0 & Hp%refuse_Ok%negb_str_false &
      (u3 & Hx%refuse_Ok%negb_false_iff & (u6 & Hpd &
      (s0 & [Hroom ->]%with_capacity_iff & (shares & (runs & Hf & -> & Hr)%append_parts_iff & (u4 & Hn%refuse_Ok%orb_false_iff &
      (u5 & _ & (u7 & Hrange%refuse_Ok%range_check_iff & (val & (object & value & Ho & Hv & ->)%bundle_value_iff & (b0 & Hd%lift_Ok &
      (m & Hm%map_err_Ok & (u8 & Hsd & (u9 & Hmm%refuse_Ok%negb_decide_false &
      [-> Hh]%check_hash_iff)%bind_Ok)%bind_Ok)%bind_Ok)%bind_Ok)%bind_Ok)%bind_Ok)%bind_Ok)%bind_Ok)%bind_Ok)%bind_Ok)%bind_Ok)%bind_Ok)%bind_Ok)%bind_Ok)%bind_Ok;
      [|apply run_nil].
    rewrite !negb_eqb_false in Hn. subst m. split; [done|]. exists (mjoin runs). split; [constructor; naive_solver|].
    constructor; [done| |naive_solver..|done|].
    + intros e He. rewrite He in Hpd. apply bind_Ok in Hpd as (d & Hd' & Hq%refuse_Ok%negb_false_iff). eauto.
    + intros e He. rewrite He in Hsd. by apply refuse_Ok, negb_false_iff in Hsd.
  - intros [Hs (shares & [Hc Hx Hroom (runs & Hf & Hj) Hr Hn Hb Hh] & [Hp Hpd Hpn Hp1 Hp2 Hm Hsd])].
    rewrite Hs, String.eqb_refl. cbn [negb refuse mbind result_bind].
    rewrite (proj2 (refuse_window_cut_iff _ _ tt)) by done. cbn [mbind result_bind].
    rewrite Hp, String.eqb_refl. cbn [negb refuse mbind result_bind].
    rewrite Hx. cbn [negb refuse mbind result_bind].
    match goal with |- ?c ≫= _ = _ => assert (c = Ok tt) as -> end.
    { destruct (wcp_share_parts_digest_hex _) as [e|]; [|done]. destruct (Hpd e eq_refl) as (d & -> & He). cbn. by rewrite He. }
    cbn [mbind result_bind].
    rewrite (proj2 (with_capacity_iff _ [])) by done. cbn [mbind result_bind].
    rewrite (proj2 (append_parts_iff base _ [] shares run_nil)) by eauto. cbn [mbind result_bind].
    rewrite <- Hpn, <- Hn, Z.eqb_refl. cbn [negb orb refuse mbind result_bind].
    rewrite (proj2 (validate_contiguous_iff shares _ tt)) by done. cbn [mbind result_bind].
    rewrite (proj2 (range_check_iff _ _ _)) by done. cbn [refuse mbind result_bind].
    destruct Hb as (object & value & Ho & Hv & Hd).
    rewrite (proj2 (bundle_value_iff _ _ shares _)) by eauto. cbn [mbind result_bind].
    rewrite Hd. cbn [lift mbind result_bind]. rewrite Hm. cbn [map_err mbind result_bind].
    match goal with |- ?c ≫= _ = _ => assert (c = Ok tt) as -> end.
    { destruct (wcp_share_slice_digest_hex _) as [e|]; [|done]. by rewrite (Hsd e eq_refl). }
    cbn [mbind result_bind]. rewrite bool_decide_eq_true_2 by done. cbn [negb refuse mbind result_bind].
    by apply check_hash_iff.
Qed.

(** An [audit-bundle.v2] artifact that loads proves its window complete:
    the bundle's shares are exactly those its parts hold, as many as the proof
    and the envelope declare, and their sequence numbers count up one by one
    from the proof's first, modulo [2 ^ 64]; the bundle's reward manifest is
    the one recomputed from those shares with no window cut, with the slice
    digest the proof declares when it declares one; and the bundle's canonical
    hash is the declared one. *)
Theorem window_proof_binds `{!BundleDecode} v base b :
  resolve_audit_bundle_v2 share_bytes display v base = Ok b →
  let p := av2_share_window_proof v in
  (∃ runs, Forall2 (part_yields base) (wcp_share_parts p) runs ∧ ab_shares b = mjoin runs) ∧
  len (ab_shares b) = wcp_share_count p ∧ av2_share_count v = wcp_share_count p ∧ 0 < wcp_share_count p ∧
  as_share_seq <$> head (ab_shares b) = Some (wcp_first_share_seq p) ∧
  (∀ i s, ab_shares b !! i = Some s → as_share_seq s mod 2 ^ 64 = (wcp_first_share_seq p + Z.of_nat i) mod 2 ^ 64) ∧
  build_prism_reward_manifest (ab_shares b) (ab_found_block b) = Ok (ab_reward_manifest b) ∧
  (∀ e, wcp_share_slice_digest_hex p = Some e → eq_ignore_ascii_case e (rm_share_slice_digest_hex (ab_reward_manifest b)) = true) ∧
  ∃ canonical, canonical_audit_bundle_bytes b = Ok canonical ∧
    hex_encode (sha256 canonical) = to_lowercase (av2_audit_bundle_sha256 v).
Proof.
  intros (_ & shares & Hb & [_ _ Hn Hp1 Hp2 Hm Hs])%bundle_v2_exact p.
  pose proof (rebuilt_shares _ _ _ _ _ _ _ Hb) as He. rewrite (rebuilt_no_cut _ _ _ _ _ _ _ Hb) in Hm.
  destruct Hb as [_ _ _ Hp Hr Hc _ Hh]. subst shares. fold p in Hn, Hp, Hp1, Hs.
  destruct (head (ab_shares b)) as [a|] eqn:Ha; [|done]. cbn in Hp1. injection Hp1 as Hp1.
  split_and!; try done.
  - by rewrite <- Hc.
  - rewrite <- Hn. destruct (ab_shares b); [done|]. unfold len. cbn. lia.
  - cbn. by rewrite Hp1.
  - intros i s Hi. rewrite <- Hp1. by eapply run_seqs.
Qed.

(** ** Splitting a bundle *)
(** Lower-casing leaves lower-case hex as it is. *)
Class LowercaseHex : Prop := { lowercase_hex bs : to_lowercase (hex_encode bs) = hex_encode bs }.
(** The ways a non-empty run can be stored as a part: inline, as a file that
    holds a segment of its own, or, if its numbers do not wrap, as a range of a
    larger segment file, which may have gaps elsewhere, under a digest of
    either form. *)
Inductive stored_as (base_dir : option string) (l : list AcceptedShare) : SharePart -> Prop :=
| stored_inline f t : spans f t (len l) l → stored_as base_dir l (Inline f t (len l) l)
| stored_file f t uri bytes :
    spans f t (len l) l → stored_segment base_dir uri bytes (segment_of f t l) →
    stored_as base_dir l (Segment f t (len l) (hex_encode (sha256 bytes)) uri)
| stored_in_file f t sf sl before after uri file bytes (ascii : option (list byte)) :
    spans f t (len l) l → Forall (in_range f t) l → stored_segment base_dir uri file (segment_of sf sl (before ++ l ++ after)) →
    Forall (fun s => as_share_seq s < f) before → Forall (fun s => t < as_share_seq s) after →
    to_writer (segment_of f t l) = Ok bytes →
    (∀ a, ascii = Some a → to_writer (python (segment_of f t l)) = Ok a) →
    stored_as base_dir l
      (SegmentRange (Some sf) (Some sl) f t (len l) (hex_encode (sha256 (default bytes ascii))) uri).

Lemma filter_outside f t (l : list AcceptedShare) :
  Forall (fun s => ¬ in_range f t s) l → filter (in_range f t) l = [].
Proof. induction 1 as [|s l Hs Hl IH]; [done|]. by rewrite filter_cons_False. Qed.
Lemma stored_yields `{!LowercaseHex} base l part : stored_as base l part → part_yields base part l.
Proof.
  intros [f t Hsp|f t uri bytes Hsp Hst|f t sf sl before after uri file bytes ascii Hsp Hin Hst Hb Ha Hd Hpy].
  - by constructor.
  - change l with (seg_shares (segment_of f t l)) at 2. eapply yields_segment; [done|by rewrite lowercase_hex|done..].
  - eapply yields_range; [done| |done|].
    + cbn. rewrite !filter_app, (filter_all _ l) by done.
      rewrite (filter_outside _ _ before), (filter_outside _ _ after); [by rewrite app_nil_r|..].
      * eapply Forall_impl; [exact Ha|]. unfold in_range. cbn. lia.
      * eapply Forall_impl; [exact Hb|]. unfold in_range. cbn. lia.
    + exists bytes. split; [done|]. rewrite lowercase_hex. destruct ascii as [a|]; [|by left]. right. eauto.
Qed.

Lemma hex_digit_ok z : 0 ≤ z < 16 → is_hexdigit (hex_digit z) = true.
Proof.
  intros Hz. assert (z ∈ seqZ 0 16) as Hin by (apply elem_of_seqZ; lia). revert Hin.
  change (seqZ 0 16) with [0;1;2;3;4;5;6;7;8;9;10;11;12;13;14;15]. rewrite !elem_of_cons, elem_of_nil.
  intros Hin. repeat destruct Hin as [->|Hin]; done.
Qed.
Lemma encode_hex_ok bs :
  String.length (encode_hex bs) = (2 * length bs)%nat ∧ forallb is_hexdigit (String.list_ascii_of_string (encode_hex bs)) = true.
Proof.
  induction bs as [|b bs [IHl IHd]]; [done|]. cbn [encode_hex String.length String.list_ascii_of_string forallb length].
  pose proof (byte.unsigned_range b) as Hb. rewrite IHd, IHl, !hex_digit_ok; [split; [lia|done]|..].
  - apply Z.mod_pos_bound. lia.
  - split; [apply Z.div_pos; lia|apply Z.div_lt_upper_bound; lia].
Qed.
Lemma digest_is_sha256_hex `{!HexLaws, !Sha256Laws} bytes : is_sha256_hex (hex_encode (sha256 bytes)) = true.
Proof.
  unfold is_sha256_hex. rewrite hex_encode_digits. destruct (encode_hex_ok (sha256 bytes)) as [-> ->].
  by rewrite sha256_length.
Qed.

(** C27: however a bundle's window is cut into non-empty runs and however each
    run is stored (inline, as its own segment file, or as a range of a larger
    segment with a digest in either form), a body reference that lists the
    parts in order under the bundle's canonical hash loads back exactly that
    bundle. *)
Theorem split_bundle_reloads `{!LowercaseHex, !HexLaws, !Sha256Laws} base b (chunks : list (list AcceptedShare)) parts object value canonical index :
  ab_shares b = mjoin chunks → run (ab_shares b) → Forall2 (stored_as base) chunks parts →
  no_cut (JObject object) → to_value (ab_shares b) = inr value →
  from_value (JObject (bt_insert String.compare "shares" value object)) = inr b →
  canonical_audit_bundle_bytes b = Ok canonical →
  len (ab_shares b) * share_bytes ≤ int_max I64 →
  resolve_audit_body_ref share_bytes
    {| abr_schema := AUDIT_BODY_REF_SCHEMA; abr_audit_bundle_sha256 := hex_encode (sha256 canonical);
       abr_share_count := len (ab_shares b); abr_shares_key_index := index;
       abr_bundle_without_shares := JObject object; abr_share_parts := parts |} base = Ok b.
Proof.
  intros Hs Hr Hp Hc Hv Hd Hb Hroom. apply body_ref_iff. split; [done|]. exists (ab_shares b).
  constructor; cbn; [done|rewrite lowercase_hex; apply digest_is_sha256_hex|done| |done..|by eauto|rewrite lowercase_hex; eauto].
  exists chunks. split; [|done]. apply Forall2_flip. eapply Forall2_impl; [exact Hp|]. intros l part. apply stored_yields.
Qed.
End facts.
