(* ===== verification/BodyRefExample.v ===== *)
(** A bundle stored in three parts and loaded back: the witnesses of the
    storage-envelope theorems. *)
From Stdlib Require Import ZArith Lia.
From coqutil Require Import Byte.
From stdpp Require Import base list list_numbers strings gmap pretty.
From S2P Require Import Prelude Order BTree Apportion Bytes Crates Payee PoolBuilder CoinbaseTx PayoutManifest PrismError.
From S2P Require Import WindowCut RewardWindow ByProgram PayoutPolicy Settlement FanoutFee CtvTx CtvHash Fanout FanoutSet.
From S2P Require Import PagedWindow OrderedChunks RewardParallel OrderedJson AuditBundle AuditBuild AuditVerify AuditExample AuditBodyRef BodyRefFacts.
Import ExampleJson.

Open Scope Z_scope.

(** * Interfaces *)
Definition late_share : AcceptedShare := example_share 9 "s9" "bob" "b" "bb" 5 950.
Definition first_two : list AcceptedShare := take 2 example_shares.
Definition third : list AcceptedShare := take 1 (drop 2 example_shares).
Definition fourth : list AcceptedShare := drop 3 example_shares.
(** The slot of the second segment holds the ledger's gap after share 3. *)
Definition slot_before : list AcceptedShare := take 1 (drop 1 example_shares).
#[export] Instance example_files : FileSystem := {| fs_read path :=
  if String.eqb path "/audits/a.json" then inr [Byte.x61]
  else if String.eqb path "/audits/b.json" then inr [Byte.x62] else inl "No such file or directory" |}.
#[export] Instance example_segment_decoder : FromJson AuditShareSegment := {|
  from_value _ := inl "not used";
  from_slice bytes :=
    if decide (bytes = [Byte.x61]) then inr (segment_of 1 2 first_two)
    else if decide (bytes = [Byte.x62]) then inr (segment_of 2 9 (slot_before ++ third ++ [late_share]))
    else inl "expected value" |}.
#[export] Instance example_lowercase_fn : Lowercase := {| to_lowercase := to_ascii_lowercase |}.
#[export] Instance example_lowercase_hex : LowercaseHex.
Proof.
  constructor. intros bs. symmetry. exact (hex_encode_decode (hex_encode bs) bs (hex_decode_encode bs)).
Qed.
#[export] Instance example_python_string : ToJson (Python string) :=
  {| json_to_vec s := inr (push_python_json_escaped (unpython s)) |}.
#[export] Instance example_python_int : ToJson (Python Z) := {| json_to_vec z := inr (int_bytes (unpython z)) |}.
#[export] Instance example_python_shares : ToJson (Python (list AcceptedShare)) :=
  {| json_to_vec l := inr (joined (canonical_share_fragment <$> unpython l)) |}.
(** One window and one bundle are all these decoders know. *)
#[export] Instance example_shares_value : ToValue (list AcceptedShare) :=
  {| to_value l := if decide (l = example_shares) then inr (JString "window") else inl "unsupported" |}.
Definition is_window (v : option Json) : bool :=
  match v with Some (JString s) => String.eqb s "window" | _ => false end.
#[export] Instance example_bundle_decoder : FromJson AuditBundle := {|
  from_value v := if is_window (json_get v "shares") then inr example_bundle else inl "missing field shares";
  from_slice _ := inl "not used" |}.
#[export] Instance example_bundle_decode : BundleDecode.
Proof.
  constructor.
  - intros fields value l b Hg Hv. cbn [from_value example_bundle_decoder]. rewrite Hg. cbn in Hv.
    destruct (decide (l = example_shares)) as [->|]; [|done]. injection Hv as <-. intros [= <-]. reflexivity.
  - intros v b. cbn [from_value example_bundle_decoder]. destruct (is_window _); [|done]. intros [= <-] _. vm_compute. reflexivity.
Qed.

(** * The stored bundle *)
Definition example_canonical : list byte.
Proof. ok_of (canonical_audit_bundle_bytes example_bundle). Defined.
Definition range_bytes : list byte.
Proof. ok_of (to_writer (python (segment_of 3 3 third))). Defined.
Definition range_serde_bytes : list byte.
Proof. ok_of (to_writer (segment_of 3 3 third)). Defined.
Definition example_parts : list SharePart :=
  [Segment 1 2 2 (hex_encode (sha256 [Byte.x61])) "file:///audits/a.json";
   SegmentRange (Some 2) (Some 9) 3 3 1 (hex_encode (sha256 range_bytes)) "b.json";
   Inline 4 4 1 fourth].
Definition example_without : list (string * Json) := [("schema", JString AUDIT_BUNDLE_SCHEMA_V1)].
Definition example_body_ref : AuditBodyRef := {|
  abr_schema := AUDIT_BODY_REF_SCHEMA; abr_audit_bundle_sha256 := hex_encode (sha256 example_canonical);
  abr_share_count := 4; abr_shares_key_index := None; abr_bundle_without_shares := JObject example_without;
  abr_share_parts := example_parts |}.
Definition example_v2 : AuditBundleV2 := {|
  av2_schema := AUDIT_BUNDLE_V2_SCHEMA; av2_audit_bundle_sha256 := hex_encode (sha256 example_canonical);
  av2_share_count := 4; av2_shares_key_index := None; av2_bundle_without_shares := JObject example_without;
  av2_share_window_proof := {|
    wcp_schema := AUDIT_WINDOW_COMPLETENESS_PROOF_SCHEMA; wcp_first_share_seq := 1; wcp_last_share_seq := 4;
    wcp_share_count := 4; wcp_share_slice_digest_hex := Some (rm_share_slice_digest_hex (ab_reward_manifest example_bundle));
    wcp_share_parts_digest_hex := None; wcp_share_parts := example_parts |} |}.
Definition example_display (e : PrismError) : string := "error".
Definition base : option string := Some "/audits".

Example body_uri_schemes :
  resolve_body_uri "file://localhost/a.json" base = Ok "/a.json" ∧
  resolve_body_uri "file://a.json" base = Ok "/audits/a.json" ∧
  resolve_body_uri "s3://audits/a.json" base = Err (BodyInvalid "unsupported share segment URI scheme: s3://audits/a.json").
Proof. repeat split. Qed.
(** A range that would drop the gap's far side is refused. *)
Example range_over_gap_refused :
  is_ok (append_share_part base first_two (SegmentRange (Some 2) (Some 9) 3 9 2 (hex_encode (sha256 range_bytes)) "b.json")) = false.
Proof. vm_compute. reflexivity. Qed.

(** The release build takes 0 for the successor of the last number. *)
Example wrapped_run_accepted :
  validate_contiguous_shares [example_share (2 ^ 64 - 1) "s" "bob" "b" "bb" 5 950; example_share 0 "t" "bob" "b" "bb" 5 951] "" = Ok tt.
Proof. vm_compute. reflexivity. Qed.

(** * Witnesses *)
Lemma body_ref_exact_witness :
  resolve_audit_body_ref 240 example_body_ref base = Ok example_bundle ∧
  rebuilt 240 base (JObject example_without) (hex_encode (sha256 example_canonical)) 4 example_parts example_shares example_bundle.
Proof.
  assert (resolve_audit_body_ref 240 example_body_ref base = Ok example_bundle) as Hr by (vm_compute; reflexivity).
  split; [exact Hr|]. exact (proj2 (proj1 (proj1 (body_ref_exact 240 example_body_ref base) example_bundle) Hr)).
Defined.
Lemma window_proof_binds_witness :
  resolve_audit_bundle_v2 240 example_display example_v2 base = Ok example_bundle ∧
  len (ab_shares example_bundle) = 4.
Proof.
  assert (resolve_audit_bundle_v2 240 example_display example_v2 base = Ok example_bundle) as Hr by (vm_compute; reflexivity).
  split; [exact Hr|]. exact (proj1 (proj2 (window_proof_binds 240 example_display example_v2 base example_bundle Hr))).
Defined.
Lemma example_spans f t l :
  as_share_seq <$> head l = Some f → as_share_seq <$> last l = Some t →
  validate_contiguous_shares l "" = Ok tt → spans f t (len l) l.
Proof. intros ?? Hr%validate_contiguous_iff. by constructor. Qed.
Lemma example_stored : Forall2 (stored_as base) [first_two; third; fourth] example_parts.
Proof.
  constructor; [|constructor; [|constructor; [|constructor]]].
  - apply (stored_file base first_two 1 2 "file:///audits/a.json" [Byte.x61]).
    + by apply example_spans.
    + exists "/audits/a.json". repeat split.
  - refine (stored_in_file base third 3 3 2 9 slot_before [late_share] "b.json" [Byte.x62] range_serde_bytes (Some range_bytes) _ _ _ _ _ _ _).
    + by apply example_spans.
    + repeat constructor; done.
    + exists "/audits/b.json". repeat split.
    + repeat constructor.
    + repeat constructor.
    + vm_compute. reflexivity.
    + intros a [= <-]. vm_compute. reflexivity.
  - apply (stored_inline base fourth 4 4). by apply example_spans.
Qed.
Lemma split_bundle_reloads_witness : resolve_audit_body_ref 240 example_body_ref base = Ok example_bundle.
Proof.
  apply (split_bundle_reloads 240 base example_bundle [first_two; third; fourth] example_parts example_without
    (JString "window") example_canonical None).
  - reflexivity.
  - apply (validate_contiguous_iff (ab_shares example_bundle) "" tt). vm_compute. reflexivity.
  - exact example_stored.
  - intros cut Hc. discriminate Hc.
  - vm_compute. reflexivity.
  - vm_compute. reflexivity.
  - vm_compute. reflexivity.
  - vm_compute. discriminate.
Defined.
