(* ===== verification/Waiting.v ===== *)
(** What timed work is waiting on (qbit-prism-server/src/waiting.rs): trackers
    shared between a task, the timer that reads them and the tasks that follow
    shared work.  A tracker is a cell in a store, named by the identity its
    [Arc] has; the guards [DatabaseMark] and [Following] hold are the marks that
    have begun and not ended, and end in any order.

    Polling and the task-local are represented by who begins a mark: the
    tracker of the task that polls the step, if it has one. *)
From Stdlib Require Import ZArith Lia.
From stdpp Require Import base list strings gmap relations.
From S2P Require Import Prelude.

Open Scope Z_scope.

Inductive Dependency := Unattributed | Database.
#[export] Instance dependency_eq_dec : EqDecision Dependency.
Proof. solve_decision. Defined.

Record State := { st_database : Z; st_following : list nat }.
Definition state_default : State := {| st_database := 0; st_following := [] |}.
(** The store has every tracker ever made, by identity; a new one is in the
    default state. *)
Definition state (store : gmap nat State) (tracker : nat) : State := default state_default (store !! tracker).
Definition same_as (a b : nat) : bool := bool_decide (a = b).

Definition MAX_FOLLOWED : nat := 8.
Fixpoint read_levels (fuel : nat) (store : gmap nat State) (reading : list nat) : Dependency :=
  match fuel with
  | O => Unattributed
  | S fuel =>
      if existsb (fun tracker => 0 <? st_database (state store tracker)) reading then Database else
      let next := reading ≫= (fun tracker => st_following (state store tracker)) in
      match next with [] => Unattributed | _ => read_levels fuel store next end
  end.
Definition on (store : gmap nat State) (tracker : nat) : Dependency := read_levels MAX_FOLLOWED store [tracker].

(** [timeout]: the work's output, or what it waits on when the limit passes,
    read while it is still pending. *)
Definition timeout {A} (store : gmap nat State) (waiting : nat) (output : option A) : result Dependency A :=
  match output with Some a => Ok a | None => Err (on store waiting) end.

(** * Marks *)
Inductive Guard :=
| DatabaseMark (tracker : nat)
| Following (tracker shared : nat).
#[export] Instance guard_eq_dec : EqDecision Guard.
Proof. solve_decision. Defined.

(** The begin of [on_database] and [follow] in a task whose tracker is
    [current]; outside tracked work they only await. *)
Definition on_database (store : gmap nat State) (current : option nat) : result string (gmap nat State * option Guard) :=
  match current with
  | Some tracker =>
      let st := state store tracker in
      database ← arith Usize (st_database st + 1);
      Ok (<[tracker := {| st_database := database; st_following := st_following st |}]> store, Some (DatabaseMark tracker))
  | None => Ok (store, None)
  end.
Definition follow (store : gmap nat State) (current : option nat) (shared : nat) : gmap nat State * option Guard :=
  match current with
  | Some tracker =>
      let st := state store tracker in
      (<[tracker := {| st_database := st_database st; st_following := st_following st ++ [shared] |}]> store,
       Some (Following tracker shared))
  | None => (store, None)
  end.

(** [Vec::swap_remove]: the last element takes the removed one's place. *)
Definition swap_remove {A} (i : nat) (l : list A) : list A :=
  match last l with
  | Some x => take (length l - 1) (<[i := x]> l)
  | None => l
  end.
Definition drop_guard (store : gmap nat State) (guard : Guard) : gmap nat State :=
  match guard with
  | DatabaseMark tracker =>
      let st := state store tracker in
      <[tracker := {| st_database := saturating_sub Usize (st_database st) 1; st_following := st_following st |}]> store
  | Following tracker shared =>
      let st := state store tracker in
      match list_find (fun followed => same_as followed shared = true) (st_following st) with
      | Some (index, _) =>
          <[tracker := {| st_database := st_database st; st_following := swap_remove index (st_following st) |}]> store
      | None => store
      end
  end.

(** * Runs *)
(** The store and the guards alive. *)
Inductive wait_step : gmap nat State * list Guard -> gmap nat State * list Guard -> Prop :=
| begin_database store guards current store' g :
    on_database store current = Ok (store', g) → wait_step (store, guards) (store', option_list g ++ guards)
| begin_follow store guards current shared store' g :
    follow store current shared = (store', g) → wait_step (store, guards) (store', option_list g ++ guards)
| end_guard store before g after :
    wait_step (store, before ++ g :: after) (drop_guard store g, before ++ after).
Definition wait_start : gmap nat State * list Guard := (∅, []).

Definition marks_of (t : nat) (guards : list Guard) : Z := sum_of (fun g => if decide (g = DatabaseMark t) then 1 else 0) guards.
Definition followed_by (t : nat) (g : Guard) : option nat :=
  match g with Following t' shared => if decide (t' = t) then Some shared else None | _ => None end.
(** The store counts exactly the marks alive. *)
Record counts (store : gmap nat State) (guards : list Guard) : Prop := {
  cn_database t : st_database (state store t) = marks_of t guards;
  cn_following t : st_following (state store t) ≡ₚ omap (followed_by t) guards;
  cn_width t : st_database (state store t) ≤ int_max Usize;
}.

Lemma state_insert store t s t' : state (<[t := s]> store) t' = if decide (t' = t) then s else state store t'.
Proof. unfold state. destruct (decide (t' = t)) as [->|]; [by rewrite lookup_insert_eq|by rewrite lookup_insert_ne]. Qed.
Lemma swap_remove_perm {A} (l : list A) i x : l !! i = Some x → l ≡ₚ x :: swap_remove i l.
Proof.
  intros Hi. unfold swap_remove. destruct (last l) as [y|] eqn:Hl; [|by apply last_None in Hl as ->].
  apply last_Some in Hl as [l' ->]. rewrite length_app. cbn. replace (length l' + 1 - 1)%nat with (length l') by lia.
  destruct (decide (i < length l')%nat) as [Hlt|Hge].
  - rewrite insert_app_l, take_app_length' by (rewrite ?length_insert; lia). rewrite lookup_app_l in Hi by lia.
    rewrite Permutation_app_comm. cbn. transitivity (y :: x :: delete i l').
    + f_equiv. by apply delete_Permutation.
    + rewrite perm_swap. f_equiv. symmetry. rewrite (delete_Permutation (<[i:=y]> l') i y) by (apply list_lookup_insert_eq; lia).
      f_equiv. rewrite !delete_take_drop, take_insert_ge, drop_insert_lt by lia. done.
  - assert (i = length l') as -> by (apply lookup_lt_Some in Hi; rewrite length_app in Hi; cbn in Hi; lia).
    rewrite list_lookup_middle in Hi by done. injection Hi as ->.
    rewrite insert_app_r_alt, Nat.sub_diag, take_app_length' by lia. by rewrite Permutation_app_comm.
Qed.
Lemma marks_perm t g g' : g ≡ₚ g' → marks_of t g = marks_of t g'.
Proof. apply sum_of_perm. Qed.
Lemma marks_nonneg t g : 0 ≤ marks_of t g.
Proof. apply sum_of_nonneg. intros x _. by case_decide. Qed.
Lemma counts_perm store g g' : g ≡ₚ g' → counts store g → counts store g'.
Proof. intros Hp [Hd Hf Hw]. constructor; intros t; [by rewrite <- (marks_perm t g g')|by rewrite <- Hp|done]. Qed.

Lemma marks_cons t g guards : marks_of t (g :: guards) = (if decide (g = DatabaseMark t) then 1 else 0) + marks_of t guards.
Proof. apply sum_of_cons. Qed.
(** Beginning a mark adds its guard; ending one removes it, whichever it is. *)
Lemma on_database_counts store guards t store' g :
  counts store guards → on_database store (Some t) = Ok (store', g) → g = Some (DatabaseMark t) ∧ counts store' (DatabaseMark t :: guards).
Proof.
  intros [Hd Hf Hw] (n & [-> Hfit%fits_iff]%expect_Ok%checked_Some & [= <- <-])%bind_Ok. split; [done|].
  constructor; intros u; rewrite state_insert, ?marks_cons; cbn [omap list_omap followed_by].
  - destruct (decide (u = t)) as [->|Hne]; cbn [st_database]; [rewrite decide_True by done; rewrite Hd; lia|].
    rewrite decide_False by congruence. by rewrite Hd.
  - destruct (decide (u = t)) as [->|Hne]; apply Hf.
  - destruct (decide (u = t)) as [->|Hne]; [apply Hfit|apply Hw].
Qed.
Lemma follow_counts store guards t shared store' g :
  counts store guards → follow store (Some t) shared = (store', g) → g = Some (Following t shared) ∧ counts store' (Following t shared :: guards).
Proof.
  intros [Hd Hf Hw] [= <- <-]. split; [done|].
  constructor; intros u; rewrite state_insert, ?marks_cons; cbn.
  - destruct (decide (u = t)) as [->|Hne]; cbn; by rewrite Hd.
  - destruct (decide (u = t)) as [->|Hne]; cbn; [rewrite decide_True by done|rewrite decide_False by done; apply Hf].
    by rewrite Hf, Permutation_app_comm.
  - destruct (decide (u = t)) as [->|Hne]; apply Hw.
Qed.
Lemma saturating_pred n : 0 ≤ n → 1 + n ≤ int_max Usize → saturating_sub Usize (1 + n) 1 = n.
Proof. unfold saturating_sub, saturating, Usize. cbn [int_min]. lia. Qed.
Lemma drop_guard_counts store g guards : counts store (g :: guards) → counts (drop_guard store g) guards.
Proof.
  intros [Hd Hf Hw]. destruct g as [t|t shared]; cbn [drop_guard].
  - assert (st_database (state store t) = 1 + marks_of t guards) as Ht by (rewrite Hd, marks_cons, decide_True by done; lia).
    pose proof (marks_nonneg t guards). pose proof (Hw t) as Hwt. rewrite Ht in Hwt |- *. rewrite saturating_pred by done.
    constructor; intros u; rewrite state_insert; destruct (decide (u = t)) as [->|Hne]; cbn [st_database st_following];
      [done| |apply Hf|apply Hf|lia|apply Hw].
    rewrite Hd, marks_cons, decide_False by congruence. lia.
  - pose proof (Hf t) as Ht. cbn in Ht. rewrite decide_True in Ht by done.
    destruct (list_find _ _) as [[i y]|] eqn:Hi.
    2:{ apply list_find_None in Hi. rewrite Ht, Forall_cons in Hi. destruct Hi as [Hi _]. destruct Hi. by apply bool_decide_eq_true. }
    apply list_find_Some in Hi as (Hi & ->%bool_decide_eq_true & _). apply swap_remove_perm in Hi.
    constructor; intros u; rewrite state_insert; destruct (decide (u = t)) as [->|Hne]; cbn [st_database st_following].
    + by rewrite Hd, marks_cons, decide_False by done.
    + by rewrite Hd, marks_cons, decide_False by done.
    + apply (Permutation_cons_inv (a := shared)). by rewrite <- Hi, Ht.
    + rewrite Hf. cbn. by rewrite decide_False by congruence.
    + apply Hw.
    + apply Hw.
Qed.
Lemma wait_step_counts c c' : counts c.1 c.2 → wait_step c c' → counts c'.1 c'.2.
Proof.
  intros Hc Hs. revert Hc. destruct Hs as [store guards [t|] store' g Ho|store guards [t|] shared store' g Ho|store before g after]; cbn; intros Hc.
  - by destruct (on_database_counts _ _ _ _ _ Hc Ho) as [-> ?].
  - by injection Ho as <- <-.
  - by destruct (follow_counts _ _ _ _ _ _ Hc Ho) as [-> ?].
  - by injection Ho as <- <-.
  - apply drop_guard_counts, (counts_perm _ (before ++ g :: after)); [|done]. by rewrite Permutation_middle.
Qed.
Lemma wait_reachable c : rtc wait_step wait_start c → counts c.1 c.2.
Proof.
  assert (counts wait_start.1 wait_start.2) as H0 by (constructor; intros t; [done..|]; unfold state; cbn [wait_start fst]; rewrite lookup_empty; by vm_compute).
  generalize H0. generalize wait_start. intros c0 Hc0 Hr. induction Hr; eauto using wait_step_counts.
Qed.

(** * Readings *)
(** The guards alive, as a graph. *)
Definition follows (guards : list Guard) (t u : nat) : Prop := Following t u ∈ guards.
Definition marked (guards : list Guard) (t : nat) : Prop := DatabaseMark t ∈ guards.
Lemma marks_pos t guards : 0 < marks_of t guards ↔ marked guards t.
Proof.
  unfold marked. induction guards as [|g guards IH]; [rewrite elem_of_nil; change (marks_of t []) with 0; lia|].
  rewrite marks_cons, elem_of_cons. pose proof (marks_nonneg t guards). case_decide; [naive_solver lia|]. rewrite Z.add_0_l, IH. naive_solver.
Qed.
Lemma following_elem store guards t u : counts store guards → u ∈ st_following (state store t) ↔ follows guards t u.
Proof.
  intros [_ Hf _]. rewrite (Hf t), list_elem_of_omap. unfold follows. split.
  - intros ([t'|t' u'] & Hg & Hu); cbn in Hu; [done|]. case_decide; [|done]. by simplify_eq.
  - intros Hg. eexists. split; [exact Hg|]. cbn. by rewrite decide_True.
Qed.
Lemma read_levels_spec n store guards reading :
  counts store guards →
  read_levels n store reading = Database ↔
  ∃ k t u, (k < n)%nat ∧ t ∈ reading ∧ nsteps (follows guards) k t u ∧ marked guards u.
Proof.
  intros Hc. revert reading. induction n as [|n IH]; intros reading; cbn [read_levels]; [naive_solver lia|].
  destruct (existsb _ reading) eqn:He.
  - apply existsb_exists in He as (t & Ht%list_elem_of_In & Hd). split; [intros _|done]. exists 0%nat, t, t.
    split; [lia|]. split; [done|]. split; [constructor|]. apply marks_pos. rewrite <- (cn_database _ _ Hc). lia.
  - assert (∀ t, t ∈ reading → ¬ marked guards t) as Hno.
    { intros t Ht Hm. apply marks_pos in Hm. rewrite <- (cn_database _ _ Hc) in Hm.
      rewrite <- not_true_iff_false, existsb_exists in He. destruct He. exists t. split; [by apply list_elem_of_In|lia]. }
    set (next := reading ≫= _).
    assert (read_levels n store next = Database ↔ ∃ k t u, (k < S n)%nat ∧ t ∈ reading ∧ nsteps (follows guards) k t u ∧ marked guards u) as Hnext.
    { rewrite IH. split.
      - intros (k & t & u & Hk & (t0 & Ht & Ht0)%list_elem_of_bind & Hs & Hm). exists (S k), t0, u. split; [lia|]. split; [done|]. split; [|done].
        econstructor; [|done]. by eapply following_elem.
      - intros (k & t & u & Hk & Ht & Hs & Hm). destruct Hs as [t|k t v u Htv Hs]; [by destruct (Hno t)|].
        exists k, v, u. split; [lia|]. split; [|done]. apply list_elem_of_bind. exists t. split; [by eapply following_elem|done]. }
    destruct next as [|x rest] eqn:Hx; [|done]. rewrite <- Hnext. destruct n; cbn; done.
Qed.

(** Whatever marks were begun and ended, in whatever order, and however often
    shared work is followed, reading a tracker says the database exactly when a
    database step marked on it, or on work it follows through fewer than eight
    followings, has not ended; when shared work follows nothing itself, that is
    exactly when the work or some shared work it awaits has an open database
    step. *)
Theorem waiting_reads_open_steps store guards t :
  rtc wait_step wait_start (store, guards) →
  (on store t = Database ↔ ∃ k u, (k < MAX_FOLLOWED)%nat ∧ nsteps (follows guards) k t u ∧ marked guards u) ∧
  ((∀ u v, follows guards t u → ¬ follows guards u v) →
   on store t = Database ↔ marked guards t ∨ ∃ u, follows guards t u ∧ marked guards u).
Proof.
  intros Hc%wait_reachable. cbn in Hc.
  assert (on store t = Database ↔ ∃ k u, (k < MAX_FOLLOWED)%nat ∧ nsteps (follows guards) k t u ∧ marked guards u) as Hon.
  { unfold on. rewrite (read_levels_spec _ _ _ _ Hc). setoid_rewrite list_elem_of_singleton. naive_solver. }
  split; [exact Hon|]. intros Hflat. rewrite Hon. split.
  - intros (k & u & _ & Hs & Hm). destruct Hs as [t|k t v u Htv Hs]; [by left|right].
    destruct Hs as [v|k v w u Hvw Hs]; [eauto|]. by destruct (Hflat v w).
  - intros [Hm|(u & Hu & Hm)]; [exists 0%nat, t; split; [unfold MAX_FOLLOWED; lia|]; split; [constructor|done]|].
    exists 1%nat, u. split; [unfold MAX_FOLLOWED; lia|]. split; [|done]. by eapply nsteps_once.
Qed.

(** * Witness *)
(** Task 1 follows shared work 7 twice, drops one following, and 7 has two
    overlapping database steps of which one has ended. *)
Definition example_marks : list Guard := [DatabaseMark 7; Following 1 7].
Definition example_waits : gmap nat State :=
  {[ 1%nat := {| st_database := 0; st_following := [7%nat] |}; 7%nat := {| st_database := 1; st_following := [] |} ]}.
Lemma example_waits_reached : rtc wait_step wait_start (example_waits, example_marks).
Proof.
  eapply rtc_l; [by apply (begin_follow _ _ (Some 1%nat) 7)|]. eapply rtc_l; [by apply (begin_follow _ _ (Some 1%nat) 7)|].
  eapply rtc_l; [by apply (begin_database _ _ (Some 7%nat))|]. eapply rtc_l; [by apply (begin_database _ _ (Some 7%nat))|].
  eapply rtc_l; [apply (end_guard _ [DatabaseMark 7; DatabaseMark 7] (Following 1 7) [Following 1 7])|].
  eapply rtc_l; [apply (end_guard _ [] (DatabaseMark 7) [DatabaseMark 7; Following 1 7])|].
  replace (drop_guard _ _) with example_waits; [apply rtc_refl|]. by vm_compute.
Qed.
Lemma waiting_reads_open_steps_witness : on example_waits 1 = Database.
Proof.
  apply (proj1 (waiting_reads_open_steps example_waits example_marks 1 example_waits_reached)).
  exists 1%nat, 7%nat. split; [unfold MAX_FOLLOWED; lia|]. split.
  - apply nsteps_once. unfold follows, example_marks. right. left.
  - unfold marked, example_marks. left.
Defined.
