(* ===== verification/Capacity.v ===== *)
(** Validation of capacity evidence (qbit-prism-server/src/capacity.rs): exact
    decimals, the required fields, the deployment the evidence is bound to, and
    the reconciliation of shares offered, acknowledged and committed.

    The big-integer parser, the UUID parser, chrono and the rendering of a JSON
    value that is not a string are interfaces. *)
From Stdlib Require Import ZArith Lia.
From Stdlib Require Ascii String.
From coqutil Require Import Byte.
From stdpp Require Import base list strings pretty.
From S2P Require Import Prelude Order BTree Bytes Codec AuditVerify PagedWindow AuditBodyRef Vardiff.

Open Scope Z_scope.

Definition SCHEMA : string := "qbit-prism-capacity-evidence/v3".
Definition SCHEMA_PREFIX : string := "qbit-prism-capacity-evidence/".
Definition RETIRED_SCHEMAS : list string := ["qbit-prism-capacity-evidence/v1"; "qbit-prism-capacity-evidence/v2"].
Definition RETIRED_CONFIGURATION_KEYS : list string :=
  ["PRISM_STRATUM_VARDIFF_IDLE_SWEEP_SECONDS"; "PRISM_SHARE_COMMIT_BATCH_SIZE"; "PRISM_SHARE_COMMIT_LINGER_MILLISECONDS"].
Definition DIFFICULTY_CONFIGURATION_KEYS : list string :=
  ["PRISM_STRATUM_SHARE_DIFF"; "PRISM_STRATUM_VARDIFF_MIN_DIFF"; "PRISM_STRATUM_VARDIFF_START_DIFF"; "PRISM_STRATUM_VARDIFF_MAX_DIFF"].
Definition DECIMAL_CONFIGURATION_KEYS : list string :=
  ["PRISM_STRATUM_SHARE_DIFF"; "PRISM_STRATUM_VARDIFF_MIN_DIFF"; "PRISM_STRATUM_VARDIFF_START_DIFF"; "PRISM_STRATUM_VARDIFF_MAX_DIFF";
   "PRISM_STRATUM_VARDIFF_TARGET_SECONDS"; "PRISM_STRATUM_VARDIFF_RETARGET_SECONDS"; "PRISM_STRATUM_VARDIFF_MAX_STEP_UP";
   "PRISM_STRATUM_VARDIFF_MAX_STEP_DOWN"; "PRISM_STRATUM_VARDIFF_EWMA_ALPHA"; "PRISM_STRATUM_VARDIFF_RETARGET_TOLERANCE";
   "PRISM_SHARE_COMMIT_TIMEOUT_SECONDS"; "PRISM_STRATUM_SEND_TIMEOUT_SECONDS"].
Definition INTEGER_CONFIGURATION_KEYS : list string :=
  ["PRISM_STRATUM_VARDIFF"; "PRISM_RUNTIME_WORKERS"; "PRISM_DATABASE_MAX_CONNECTIONS"; "PRISM_STRATUM_MAX_CONNECTIONS";
   "PRISM_JOB_BUILD_EXECUTOR_WORKERS"].
(** [tokio::sync::Semaphore::MAX_PERMITS] is [usize::MAX >> 3]. *)
Definition INTEGER_CONFIGURATION_BOUNDS : list (string * Z * Z) :=
  [("PRISM_STRATUM_VARDIFF", 0, 1); ("PRISM_RUNTIME_WORKERS", 1, 1024); ("PRISM_DATABASE_MAX_CONNECTIONS", 4, 1024);
   ("PRISM_STRATUM_MAX_CONNECTIONS", 1, int_max Usize / 8)].
Definition BUILD_EXECUTOR_EXTRA_WORKERS : Z := 8.
Definition CONFIGURATION_KEYS : list string :=
  ["PRISM_STRATUM_SHARE_DIFF"; "PRISM_STRATUM_VARDIFF_MIN_DIFF"; "PRISM_STRATUM_VARDIFF_START_DIFF"; "PRISM_STRATUM_VARDIFF_MAX_DIFF";
   "PRISM_STRATUM_VARDIFF_TARGET_SECONDS"; "PRISM_STRATUM_VARDIFF_RETARGET_SECONDS"; "PRISM_STRATUM_VARDIFF_MAX_STEP_UP";
   "PRISM_STRATUM_VARDIFF_MAX_STEP_DOWN"; "PRISM_STRATUM_VARDIFF_EWMA_ALPHA"; "PRISM_STRATUM_VARDIFF_RETARGET_TOLERANCE";
   "PRISM_SHARE_COMMIT_TIMEOUT_SECONDS"; "PRISM_STRATUM_SEND_TIMEOUT_SECONDS";
   "PRISM_STRATUM_VARDIFF"; "PRISM_RUNTIME_WORKERS"; "PRISM_DATABASE_MAX_CONNECTIONS"; "PRISM_STRATUM_MAX_CONNECTIONS";
   "PRISM_JOB_BUILD_EXECUTOR_WORKERS"].
Definition SUBJECT_KEYS : list string :=
  ["coordinator_revision"; "coordinator_image_digest"; "postgres_server_version"; "database_profile_sha256"].
Definition REQUIRED_PHASES : list string := ["steady_state"; "reconnect"; "slow_database"].
Definition TOP_KEYS : list string :=
  ["schema"; "artifact_kind"; "test_path"; "generated_at"; "run_id"; "subject"; "durability"; "configuration";
   "forecast_peak_shares_per_second"; "test_duration_seconds"; "offered_valid_shares"; "acknowledged_shares";
   "postgres_unique_committed_shares"; "rejected_valid_shares"; "missing_acknowledged_share_ids"; "unexpected_committed_share_ids";
   "acknowledged_share_ids_sha256"; "postgres_share_ids_sha256"; "ack_latency_milliseconds"; "ack_p99_limit_milliseconds"; "phases"].
Definition PHASE_KEYS : list string :=
  ["completed"; "duration_seconds"; "offered_valid_shares"; "acknowledged_shares"; "postgres_unique_committed_shares";
   "rejected_valid_shares"; "missing_acknowledged_share_ids"; "unexpected_committed_share_ids"; "acknowledged_share_ids_sha256";
   "postgres_share_ids_sha256"; "ack_latency_milliseconds"].

(** * Interfaces *)
(** [BigUint::from_str], and [Display] of a [serde_json::Value]. *)
Class BigUintParse := { biguint_from_str : string -> string + Z }.
Class BigUintParseLaws `{BigUintParse} : Prop := {
  biguint_digits s n : nonempty_digits s = Some n → biguint_from_str s = inr n;
  biguint_nonneg s n : biguint_from_str s = inr n → 0 ≤ n;
}.
Class JsonText := { value_to_string : Json -> string }.
(** [Uuid::parse_str], which tells only whether the identifier is nil. *)
Class UuidCrate := { uuid_parse_str : string -> string + bool }.
(** chrono: an instant and a duration are nanoseconds. *)
Class Chrono := {
  parse_from_rfc3339 : string -> string + Z;
  try_seconds : Z -> option Z;
  checked_add_signed : Z -> Z -> option Z;
  checked_sub_signed : Z -> Z -> option Z;
}.

(** * Decimals *)
Record Decimal := { dn : Z; dd : Z }.
Definition decimal_integer (v : Z) : Decimal := {| dn := v; dd := 1 |}.
Definition decimal_multiply (a b : Decimal) : Decimal := {| dn := dn a * dn b; dd := dd a * dd b |}.
Definition decimal_divide (a b : Decimal) : Decimal := {| dn := dn a * dd b; dd := dd a * dn b |}.
Definition decimal_add (a b : Decimal) : Decimal := {| dn := dn a * dd b + dn b * dd a; dd := dd a * dd b |}.
Definition decimal_cmp (a b : Decimal) : comparison := (dn a * dd b ?= dn b * dd a).
Definition decimal_eq (a b : Decimal) : bool := bool_decide (decimal_cmp a b = Eq).
Definition decimal_le (a b : Decimal) : bool := bool_decide (decimal_cmp a b ≠ Gt).
Definition decimal_ge (a b : Decimal) : bool := bool_decide (decimal_cmp a b ≠ Lt).

(** [i32::from_str]: an invalid digit is reported before an overflow. *)
Definition i32_step (negative : bool) (acc : Z) (c : Ascii.ascii) : result anyhow Z :=
  x ← ok_or (digit c) ["invalid digit found in string"];
  let next := if negative then acc * 10 - x else acc * 10 + x in
  if negative && (next <? - 2 ^ 31) then Err ["number too small to fit in target type"]
  else if negb negative && (2 ^ 31 - 1 <? next) then Err ["number too large to fit in target type"]
  else Ok next.
Definition parse_i32 (s : string) : result anyhow Z :=
  match s with
  | EmptyString => Err ["cannot parse integer from empty string"]
  | String c rest =>
      let sign := Ascii.eqb c plus_sign || Ascii.eqb c minus_sign in
      if sign && String.eqb rest "" then Err ["invalid digit found in string"] else
      try_fold (i32_step (Ascii.eqb c minus_sign)) 0 (String.list_ascii_of_string (if sign then rest else s))
  end.

(** [str::split] on a set of separators. *)
Fixpoint split_on (sep : Ascii.ascii -> bool) (acc s : string) : list string :=
  match s with
  | EmptyString => [acc]
  | String c s => if sep c then acc :: split_on sep "" s else split_on sep (acc +:+ String c "") s
  end.
Definition is_e (c : Ascii.ascii) : bool := Ascii.eqb c (Ascii.ascii_of_N 101) || Ascii.eqb c (Ascii.ascii_of_N 69).
Definition is_dot (c : Ascii.ascii) : bool := Ascii.eqb c (Ascii.ascii_of_N 46).
Definition all_digits (s : string) : bool :=
  forallb (fun c => bool_decide (is_Some (digit c))) (String.list_ascii_of_string s).

Definition decimal_from_str `{BigUintParse} (s : string) : result anyhow Decimal :=
  let s := default (trim s) (str_strip_prefix "+" (trim s)) in
  let parts := split_on is_e "" s in
  _ ← ensure (length parts <=? 2)%nat "invalid decimal";
  exp ← (if (length parts =? 2)%nat then part ← expect (parts !! 1%nat) "index out of bounds"; parse_i32 part else Ok 0);
  _ ← ensure (Z.abs exp <=? 10000) "decimal exponent exceeds supported limit";
  mantissa ← expect (parts !! 0%nat) "index out of bounds";
  let parts := split_on is_dot "" mantissa in
  _ ← ensure (length parts <=? 2)%nat "invalid decimal";
  let joined := foldr String.append "" parts in
  _ ← ensure (negb (String.eqb joined "") && all_digits joined) "invalid decimal";
  _ ← ensure (Z.of_nat (String.length joined) <=? 10000) "decimal is too long";
  n ← (match biguint_from_str joined with inl e => Err [e] | inr n => Ok n end);
  let scale := from_option (fun s => Z.of_nat (String.length s)) 0 (parts !! 1%nat) - exp in
  Ok (if 0 <=? scale then {| dn := n; dd := 10 ^ scale |} else {| dn := n * 10 ^ (- scale); dd := 1 |}).

(** [Display]: the whole part, or that and up to 28 digits of the fraction,
    rounded down. *)
Fixpoint trim_zeros (l : list Ascii.ascii) : list Ascii.ascii :=
  match l with
  | [] => []
  | c :: l => if Ascii.eqb c (Ascii.ascii_of_N 48) then trim_zeros l else c :: l
  end.
Definition trim_end_zeros (s : string) : string :=
  String.string_of_list_ascii (reverse (trim_zeros (reverse (String.list_ascii_of_string s)))).
Definition pad_zeros (n : nat) (s : string) : string :=
  String.string_of_list_ascii (replicate (n - String.length s) (Ascii.ascii_of_N 48)) +:+ s.
Definition decimal_display (d : Decimal) : result anyhow string :=
  if dd d =? 0 then Panic "attempt to divide by zero" else
  let whole := dn d / dd d in
  let rem := dn d mod dd d in
  Ok (if rem =? 0 then pretty whole
      else pretty whole +:+ "." +:+ trim_end_zeros (pad_zeros 28 (pretty (rem * 10 ^ 28 / dd d)))).

(** * Reading a document *)
Definition Object : Type := list (string * Json).
Definition get (o : Object) (key : string) : option Json := json_get (JObject o) key.
(** [map["key"]] panics when the key is absent. *)
Definition index (o : Object) (key : string) : result anyhow Json := expect (get o key) "no entry found for key".
Definition mapping (value : Json) (field : string) : result anyhow Object :=
  match value with JObject o => Ok o | _ => Err [field +:+ " must be a JSON object"] end.
(** A [BTreeSet] of strings. *)
Definition str_set (l : list string) : list string := (foldl (fun s k => bt_insert String.compare k tt s) [] l).*1.
Definition join (sep : string) (l : list string) : string :=
  match l with [] => "" | x :: l => foldl (fun acc s => acc +:+ sep +:+ s) x l end.
Definition keys (value : Object) (expected : list string) (field : string) : result anyhow unit :=
  let expected := str_set expected in
  let actual := str_set value.*1 in
  let missing := filter (fun k => k ∉ actual) expected in
  let unknown := filter (fun k => k ∉ expected) actual in
  _ ← ensure (bool_decide (missing = [])) (field +:+ " is missing required fields: " +:+ join ", " missing);
  ensure (bool_decide (unknown = [])) (field +:+ " contains unknown fields: " +:+ join ", " unknown).
Definition is_str (v : Json) (s : string) : bool := match v with JString t => String.eqb t s | _ => false end.
(** [ensure!] whose message shows decimals: the arguments are only rendered
    when the condition fails. *)
Definition ensure_show (b : bool) (msg : result anyhow string) : result anyhow unit :=
  if b then Ok tt else m ← msg; Err [m].

Section validate.
Context `{BigUintParse, JsonText, UuidCrate, Chrono}.

Definition text (value : Json) : string := match value with JString s => s | _ => value_to_string value end.
Definition decimal (value : Json) (field : string) (zero : bool) : result anyhow Decimal :=
  parsed ← context (field +:+ " must be a finite decimal number") (decimal_from_str (text value));
  _ ← ensure (zero || negb (dn parsed =? 0)) (field +:+ " must be a finite positive decimal number");
  Ok parsed.
Definition integer (value : Json) (field : string) (zero : bool) : result anyhow Z :=
  let s := text value in
  parsed ← match biguint_from_str (trim s) with
           | inl e => Err [field +:+ " must be an integer"; e]
           | inr n => Ok n
           end;
  _ ← ensure (String.eqb (pretty parsed) (trim s)) (field +:+ " must be an integer");
  _ ← ensure (zero || negb (parsed =? 0)) (field +:+ " must be a positive integer");
  Ok parsed.
Definition is_hex (value : string) (n : Z) : bool :=
  (Z.of_nat (String.length value) =? n)
  && forallb (fun c => bool_decide (is_Some (digit c)) || ((97 <=? Ascii.N_of_ascii c) && (Ascii.N_of_ascii c <=? 102))%N)
       (String.list_ascii_of_string value).
Definition sha (value : Json) (field : string) : result anyhow string :=
  match as_str value with
  | Some v => if is_hex v 64 then Ok v else Err [field +:+ " must be 64 lowercase hex characters"]
  | None => Err [field +:+ " must be 64 lowercase hex characters"]
  end.

Definition Normalized : Type := list (string * Decimal).
Definition norm (n : Normalized) (key : string) : result anyhow Decimal :=
  expect (bt_get String.compare key n) "no entry found for key".
Definition normalize_decimal (cfg : Object) (field : string) (normalized : Normalized) (key : string) : result anyhow Normalized :=
  let zero := bool_decide (key ∈ ["PRISM_STRATUM_VARDIFF_RETARGET_TOLERANCE"; "PRISM_STRATUM_SEND_TIMEOUT_SECONDS"]) in
  value ← index cfg key;
  v ← decimal value (field +:+ "." +:+ key) zero;
  lab ← (if bool_decide (key ∈ DIFFICULTY_CONFIGURATION_KEYS)
         then lab ← decimal_from_str "1e-9"; Ok (decimal_eq v lab) else Ok false);
  _ ← ensure (negb lab) (field +:+ "." +:+ key +:+ " uses the lab-only 1e-9 difficulty");
  Ok (bt_insert String.compare key v normalized).
Definition normalize_integer (cfg : Object) (field : string) (normalized : Normalized) (key : string) : result anyhow Normalized :=
  let zero := String.eqb key "PRISM_STRATUM_VARDIFF" in
  value ← index cfg key;
  n ← integer value (field +:+ "." +:+ key) zero;
  Ok (bt_insert String.compare key (decimal_integer n) normalized).
Definition check_bounds (normalized : Normalized) (field : string) (_ : unit) (bound : string * Z * Z) : result anyhow unit :=
  let '(key, minimum, maximum) := bound in
  v ← norm normalized key;
  ensure (decimal_ge v (decimal_integer minimum) && decimal_le v (decimal_integer maximum))
    (field +:+ "." +:+ key +:+ " must be " +:+ pretty minimum +:+ "..=" +:+ pretty maximum).
Definition check_step (normalized : Normalized) (field : string) (_ : unit) (key : string) : result anyhow unit :=
  v ← norm normalized key;
  ensure (decimal_ge v (decimal_integer 1)) (field +:+ "." +:+ key +:+ " must be at least 1").
Definition normalized_configuration (value : Json) (field : string) : result anyhow Normalized :=
  cfg ← mapping value field;
  let retired := filter (fun key => is_Some (get cfg key)) RETIRED_CONFIGURATION_KEYS in
  _ ← ensure (bool_decide (retired = []))
        (field +:+ " contains retired configuration keys the native server does not read: " +:+ join ", " retired);
  _ ← keys cfg CONFIGURATION_KEYS field;
  normalized ← try_fold (normalize_decimal cfg field) [] DECIMAL_CONFIGURATION_KEYS;
  normalized ← try_fold (normalize_integer cfg field) normalized INTEGER_CONFIGURATION_KEYS;
  _ ← try_fold (check_bounds normalized field) tt INTEGER_CONFIGURATION_BOUNDS;
  workers ← norm normalized "PRISM_RUNTIME_WORKERS";
  let build_maximum := decimal_add workers (decimal_integer BUILD_EXECUTOR_EXTRA_WORKERS) in
  executor ← norm normalized "PRISM_JOB_BUILD_EXECUTOR_WORKERS";
  _ ← ensure_show (decimal_le executor build_maximum)
        (shown ← decimal_display build_maximum;
         Ok (field +:+ ".PRISM_JOB_BUILD_EXECUTOR_WORKERS must be 1..=PRISM_RUNTIME_WORKERS + "
               +:+ pretty BUILD_EXECUTOR_EXTRA_WORKERS +:+ " (" +:+ shown +:+ ")"));
  minimum ← norm normalized "PRISM_STRATUM_VARDIFF_MIN_DIFF";
  start ← norm normalized "PRISM_STRATUM_VARDIFF_START_DIFF";
  maximum ← norm normalized "PRISM_STRATUM_VARDIFF_MAX_DIFF";
  _ ← ensure (decimal_le minimum start && decimal_le start maximum)
        (field +:+ " vardiff values must satisfy minimum <= start <= maximum");
  _ ← try_fold (check_step normalized field) tt ["PRISM_STRATUM_VARDIFF_MAX_STEP_UP"; "PRISM_STRATUM_VARDIFF_MAX_STEP_DOWN"];
  alpha ← norm normalized "PRISM_STRATUM_VARDIFF_EWMA_ALPHA";
  _ ← ensure (decimal_le alpha (decimal_integer 1)) (field +:+ ".PRISM_STRATUM_VARDIFF_EWMA_ALPHA must not exceed 1");
  Ok normalized.

Definition latency (value : Json) (field : string) (limit : Decimal) : result anyhow (Decimal * Decimal) :=
  v ← mapping value field;
  _ ← keys v ["p50"; "p99"] field;
  v50 ← index v "p50";
  p50 ← decimal v50 (field +:+ ".p50") true;
  v99 ← index v "p99";
  p99 ← decimal v99 (field +:+ ".p99") true;
  _ ← ensure (decimal_le p50 p99) (field +:+ " p50 latency cannot exceed p99 latency");
  _ ← ensure_show (decimal_le p99 limit)
        (shown ← decimal_display p99; shown_limit ← decimal_display limit;
         Ok (field +:+ " p99 latency " +:+ shown +:+ "ms exceeds the required " +:+ shown_limit +:+ "ms"));
  Ok (p50, p99).

Definition counts (value : Object) (field : string) : result anyhow (Z * Z * Z) :=
  let read key zero := v ← index value key; integer v (field +:+ "." +:+ key) zero in
  offered ← read "offered_valid_shares" false;
  ack ← read "acknowledged_shares" false;
  committed ← read "postgres_unique_committed_shares" false;
  rejected ← read "rejected_valid_shares" true;
  missing ← read "missing_acknowledged_share_ids" true;
  unexpected ← read "unexpected_committed_share_ids" true;
  va ← index value "acknowledged_share_ids_sha256";
  ack_digest ← sha va (field +:+ ".acknowledged_share_ids_sha256");
  vc ← index value "postgres_share_ids_sha256";
  committed_digest ← sha vc (field +:+ ".postgres_share_ids_sha256");
  _ ← ensure ((rejected =? 0) && (offered =? ack))
        (field +:+ " did not acknowledge every offered valid share: offered=" +:+ pretty offered +:+ " acknowledged=" +:+ pretty ack
           +:+ " rejected=" +:+ pretty rejected);
  _ ← ensure ((ack =? committed) && (missing =? 0) && (unexpected =? 0))
        (field +:+ " failed ACK-to-Postgres reconciliation: acknowledged=" +:+ pretty ack +:+ " committed=" +:+ pretty committed
           +:+ " missing=" +:+ pretty missing +:+ " unexpected=" +:+ pretty unexpected);
  _ ← ensure (String.eqb ack_digest committed_digest) (field +:+ " ACK and Postgres share-identifier digests differ");
  Ok (offered, ack, committed).

Record Phase := { ph_duration : Decimal; ph_offered : Z; ph_ack : Z; ph_committed : Z }.
Definition phase (name : string) (value : Json) (forecast limit : Decimal) : result anyhow Phase :=
  let field := "phases." +:+ name in
  v ← mapping value field;
  let expected := PHASE_KEYS ++
    (if String.eqb name "reconnect" then ["reconnect_events"]
     else if String.eqb name "slow_database" then ["database_delay_milliseconds"] else []) in
  _ ← keys v expected field;
  completed ← index v "completed";
  _ ← ensure (match completed with JBool true => true | _ => false end) (field +:+ ".completed must be true");
  vd ← index v "duration_seconds";
  duration ← decimal vd (field +:+ ".duration_seconds") false;
  _ ← ensure (decimal_ge duration (decimal_integer 60)) (field +:+ ".duration_seconds must be at least 60");
  '(offered, ack, committed) ← counts v field;
  vl ← index v "ack_latency_milliseconds";
  _ ← latency vl (field +:+ ".ack_latency_milliseconds") limit;
  let rate := decimal_divide (decimal_integer ack) duration in
  _ ← ensure_show (decimal_ge rate (decimal_multiply forecast (decimal_integer 2)))
        (shown ← decimal_display rate; shown_forecast ← decimal_display forecast;
         Ok (field +:+ " sustained rate must be at least 2x forecast peak: measured=" +:+ shown +:+ " forecast=" +:+ shown_forecast));
  _ ← (if String.eqb name "reconnect" then
         vr ← index v "reconnect_events";
         events ← integer vr (field +:+ ".reconnect_events") false;
         ensure (10 <=? events) (field +:+ ".reconnect_events must be at least 10")
       else Ok tt);
  _ ← (if String.eqb name "slow_database" then
         vs ← index v "database_delay_milliseconds";
         delay ← decimal vs (field +:+ ".database_delay_milliseconds") false;
         ensure (decimal_ge delay (decimal_integer 10)) (field +:+ ".database_delay_milliseconds must be at least 10")
       else Ok tt);
  Ok {| ph_duration := duration; ph_offered := offered; ph_ack := ack; ph_committed := committed |}.

Record CapacityEvidenceSummary := {
  ces_generated_at : Z;
  ces_measured_shares_per_second : Decimal;
  ces_capacity_multiple : Decimal;
  ces_acknowledged_shares : Z;
  ces_ack_p50_milliseconds : Decimal;
  ces_ack_p99_milliseconds : Decimal;
  ces_ack_p99_limit_milliseconds : Decimal;
}.
Record ValidationOptions := {
  vo_expected_configuration : option (list (string * string));
  vo_expected_subject : option (list (string * string));
  vo_expected_forecast : option string;
  vo_expected_limit : option string;
  vo_current_time : option Z;
  vo_max_age_seconds : Z;
  vo_max_future_skew_seconds : Z;
  vo_enforce_freshness : bool;
  vo_allow_example : bool;
}.

Definition check_schema (v : Object) : result anyhow unit :=
  match get v "schema" ≫= as_str with
  | Some schema =>
      _ ← ensure (bool_decide (schema ∉ RETIRED_SCHEMAS))
            ("schema '" +:+ schema +:+ "' is retired; re-run qualification against the native server and record '" +:+ SCHEMA +:+ "'");
      ensure (String.eqb schema SCHEMA || negb (String.prefix SCHEMA_PREFIX schema))
        ("schema '" +:+ schema +:+ "' is unsupported; this validator accepts only '" +:+ SCHEMA +:+ "'")
  | None => Ok tt
  end.
(** The byte tests on a timestamp, with the indices the source writes. *)
Definition byte_is (s : string) (i : Z) (n : N) : bool :=
  match String.get (Z.to_nat i) s with Some c => (Ascii.N_of_ascii c =? n)%N | None => false end.
Definition timestamp_shape (s : string) : bool :=
  let len := Z.of_nat (String.length s) in
  byte_is s 10 84
  && (((0 <? len) && byte_is s (len - 1) 90)
      || ((6 <=? len) && (byte_is s (len - 6) 43 || byte_is s (len - 6) 45) && byte_is s (len - 3) 58)).
Definition check_freshness (options : ValidationOptions) (utc_now generated_at : Z) : result anyhow unit :=
  _ ← ensure (0 <? vo_max_age_seconds options) "capacity evidence maximum age must be positive";
  _ ← ensure (0 <=? vo_max_future_skew_seconds options) "capacity evidence future skew must be non-negative";
  let now := default utc_now (vo_current_time options) in
  skew ← ok_or (try_seconds (vo_max_future_skew_seconds options)) ["invalid future skew"];
  future ← ok_or (checked_add_signed now skew) ["invalid future skew"];
  age ← ok_or (try_seconds (vo_max_age_seconds options)) ["invalid maximum age"];
  past ← ok_or (checked_sub_signed now age) ["invalid maximum age"];
  _ ← ensure (generated_at <=? future) "capacity evidence generated_at is too far in the future";
  ensure (past <=? generated_at)
    ("capacity evidence is older than the allowed " +:+ pretty (vo_max_age_seconds options) +:+ " seconds").
Definition is_str_and (v : Json) (p : string -> bool) : bool := match v with JString s => p s | _ => false end.
Definition check_subject_shape (subject : Object) : result anyhow unit :=
  _ ← keys subject SUBJECT_KEYS "subject";
  revision ← index subject "coordinator_revision";
  _ ← ensure (is_str_and revision (fun v => is_hex v 40)) "subject.coordinator_revision must be 40 lowercase hex characters";
  image ← index subject "coordinator_image_digest";
  _ ← ensure (is_str_and image (fun v => match str_strip_prefix "sha256:" v with Some v => is_hex v 64 | None => false end))
        "subject.coordinator_image_digest must be sha256 followed by 64 lowercase hex characters";
  version ← index subject "postgres_server_version";
  _ ← ensure (is_str_and version (fun v => negb (String.eqb (trim v) "")))
        "subject.postgres_server_version must be a non-empty string";
  profile ← index subject "database_profile_sha256";
  _ ← sha profile "subject.database_profile_sha256"; Ok tt.
Definition check_subject_key (subject : Object) (expected : list (string * string)) (_ : unit) (key : string) : result anyhow unit :=
  value ← match bt_get String.compare key expected with
          | Some v => if String.eqb v "" then Err ["expected deployment subject is missing " +:+ key] else Ok v
          | None => Err ["expected deployment subject is missing " +:+ key]
          end;
  actual ← index subject key;
  ensure (is_str actual value) ("subject." +:+ key +:+ " does not match the deployment value").
Definition check_subject (subject : Object) (options : ValidationOptions) : result anyhow unit :=
  _ ← check_subject_shape subject;
  match vo_expected_subject options with
  | Some expected => try_fold (check_subject_key subject expected) tt SUBJECT_KEYS
  | None => ensure (vo_allow_example options) "expected deployment subject is required for qualification evidence"
  end.
Definition durability_keys : list string := ["fsync"; "full_page_writes"; "synchronous_commit"].
Definition check_durability (durability : Object) : result anyhow unit :=
  _ ← keys durability durability_keys "durability";
  try_fold (fun _ key => v ← index durability key; ensure (is_str v "on") ("durability." +:+ key +:+ " must be 'on'")) tt durability_keys.
Definition check_configuration_key (cfg expected : Normalized) (_ : unit) (key : string) : result anyhow unit :=
  actual ← norm cfg key; wanted ← norm expected key;
  ensure (decimal_eq actual wanted) ("configuration." +:+ key +:+ " does not match the deployment value").
Definition check_configuration (cfg : Normalized) (options : ValidationOptions) : result anyhow unit :=
  match vo_expected_configuration options with
  | Some expected =>
      expected ← normalized_configuration (JObject (prod_map id JString <$> expected)) "expected configuration";
      try_fold (check_configuration_key cfg expected) tt CONFIGURATION_KEYS
  | None => ensure (vo_allow_example options) "expected deployment configuration is required for qualification evidence"
  end.
(** A measured value that must be the externally configured one. *)
Definition check_bound_value (value : Decimal) (expected : option string) (options : ValidationOptions)
    (label mismatch absent : string) : result anyhow unit :=
  match expected with
  | Some expected => wanted ← decimal (JString expected) label false; ensure (decimal_eq value wanted) mismatch
  | None => ensure (vo_allow_example options) absent
  end.

Definition validate_capacity_evidence (utc_now : Z) (payload : Json) (options : ValidationOptions)
  : result anyhow CapacityEvidenceSummary :=
  v ← mapping payload "document";
  _ ← check_schema v;
  _ ← keys v TOP_KEYS "document";
  schema ← index v "schema";
  _ ← ensure (is_str schema SCHEMA) ("schema must be '" +:+ SCHEMA +:+ "'");
  test_path ← index v "test_path";
  _ ← ensure (is_str test_path "stratum-to-postgres") "test_path must be 'stratum-to-postgres'";
  artifact_kind ← index v "artifact_kind";
  let kind := default "" (as_str artifact_kind) in
  _ ← ensure (String.eqb kind "example" || String.eqb kind "qualification") "artifact_kind must be 'qualification' or 'example'";
  _ ← ensure (negb (String.eqb kind "example") || vo_allow_example options)
        "example capacity evidence is rejected outside explicit test validation";
  run_id ← index v "run_id";
  is_nil ← match uuid_parse_str (text run_id) with inl e => Err ["run_id must be a UUID"; e] | inr is_nil => Ok is_nil end;
  _ ← ensure (negb (String.eqb kind "qualification") || negb is_nil) "qualification evidence requires a non-zero run_id";
  generated ← index v "generated_at";
  timestamp ← ok_or (as_str generated) ["generated_at must be an RFC 3339 timestamp"];
  _ ← ensure (timestamp_shape timestamp) "generated_at must be an RFC 3339 timestamp";
  generated_at ← match parse_from_rfc3339 timestamp with
                 | inl e => Err ["generated_at must be an RFC 3339 timestamp"; e] | inr t => Ok t end;
  _ ← (if String.eqb kind "qualification" && vo_enforce_freshness options
       then check_freshness options utc_now generated_at else Ok tt);
  vs ← index v "subject"; subject ← mapping vs "subject";
  _ ← check_subject subject options;
  vd ← index v "durability"; durability ← mapping vd "durability";
  _ ← check_durability durability;
  vc ← index v "configuration";
  cfg ← normalized_configuration vc "configuration";
  _ ← check_configuration cfg options;
  vf ← index v "forecast_peak_shares_per_second";
  forecast ← decimal vf "forecast_peak_shares_per_second" false;
  _ ← check_bound_value forecast (vo_expected_forecast options) options "expected forecast peak shares per second"
        "forecast_peak_shares_per_second does not match the deployment value" "externally configured forecast peak share rate is required";
  vl ← index v "ack_p99_limit_milliseconds";
  limit ← decimal vl "ack_p99_limit_milliseconds" false;
  _ ← check_bound_value limit (vo_expected_limit options) options "expected ACK p99 limit milliseconds"
        "ack_p99_limit_milliseconds does not match the deployment value" "externally configured ACK p99 limit is required";
  commit ← norm cfg "PRISM_SHARE_COMMIT_TIMEOUT_SECONDS";
  _ ← ensure (decimal_le limit (decimal_multiply commit (decimal_integer 1000)))
        "ack_p99_limit_milliseconds cannot exceed PRISM_SHARE_COMMIT_TIMEOUT_SECONDS";
  vt ← index v "test_duration_seconds";
  duration ← decimal vt "test_duration_seconds" false;
  '(offered, ack, committed) ← counts v "capacity run";
  let rate := decimal_divide (decimal_integer ack) duration in
  let multiple := decimal_divide rate forecast in
  _ ← ensure_show (decimal_ge multiple (decimal_integer 2))
        (shown ← decimal_display rate; shown_forecast ← decimal_display forecast;
         Ok ("measured sustained rate must be at least 2x forecast peak: measured=" +:+ shown +:+ " forecast=" +:+ shown_forecast));
  va ← index v "ack_latency_milliseconds";
  '(p50, p99) ← latency va "ack_latency_milliseconds" limit;
  vp ← index v "phases"; phases ← mapping vp "phases";
  _ ← keys phases REQUIRED_PHASES "phases";
  phases ← collect (fun name => value ← index phases name; phase name value forecast limit) REQUIRED_PHASES;
  _ ← ensure (decimal_eq (foldl (fun sum p => decimal_add sum (ph_duration p)) (decimal_integer 0) phases) duration)
        "phase durations must equal test_duration_seconds";
  _ ← ensure (sum_of ph_offered phases =? offered) "phase offered-share totals must equal the capacity-run total";
  _ ← ensure (sum_of ph_ack phases =? ack) "phase acknowledged-share totals must equal the capacity-run total";
  _ ← ensure (sum_of ph_committed phases =? committed) "phase committed-share totals must equal the capacity-run total";
  Ok {| ces_generated_at := generated_at; ces_measured_shares_per_second := rate; ces_capacity_multiple := multiple;
        ces_acknowledged_shares := ack; ces_ack_p50_milliseconds := p50; ces_ack_p99_milliseconds := p99;
        ces_ack_p99_limit_milliseconds := limit |}.
End validate.

(** * Duplicate keys *)
(** The preliminary visitor over the document as written, where an object may
    repeat a key; [debug] is the [Debug] text of a string. *)
Fixpoint unique_json (debug : string -> string) (raw : Json) : result anyhow unit :=
  match raw with
  | JObject fields =>
      (fix entries (seen : list string) (fields : list (string * Json)) : result anyhow unit :=
         match fields with
         | [] => Ok tt
         | (key, value) :: fields =>
             if bool_decide (key ∈ seen) then Err ["capacity evidence contains duplicate JSON key " +:+ debug key]
             else _ ← unique_json debug value; entries (key :: seen) fields
         end) [] fields
  | JArray items =>
      (fix elements (items : list Json) : result anyhow unit :=
         match items with [] => Ok tt | item :: items => _ ← unique_json debug item; elements items end) items
  | _ => Ok tt
  end.
