(* ===== verification/CapacityFacts.v ===== *)
(** What accepted capacity evidence shows, and that no document makes the
    validator panic. *)
From Stdlib Require Import ZArith Lia QArith.
From Stdlib Require Ascii String.
From coqutil Require Import Byte.
From stdpp Require Import base list strings sets gmap pretty.
From S2P Require Import Prelude Order BTree Bytes Codec AuditVerify PagedWindow AuditBodyRef BodyRefFacts Vardiff VardiffFacts Capacity.

Open Scope Z_scope.

(** * Decimals are rationals *)
Definition wf_decimal (d : Decimal) : Prop := 0 ≤ dn d ∧ 0 < dd d.
Definition value (d : Decimal) : Q := dn d # Z.to_pos (dd d).
Lemma value_le a b : wf_decimal a → wf_decimal b → decimal_le a b = true ↔ (value a <= value b)%Q.
Proof.
  intros [_ Ha] [_ Hb]. unfold decimal_le, decimal_cmp, value, Qle. rewrite bool_decide_eq_true, Z.compare_le_iff. cbn.
  by rewrite !Z2Pos.id by lia.
Qed.
Lemma value_ge a b : wf_decimal a → wf_decimal b → decimal_ge a b = true ↔ (value b <= value a)%Q.
Proof.
  intros [_ Ha] [_ Hb]. unfold decimal_ge, decimal_cmp, value, Qle. rewrite bool_decide_eq_true, Z.compare_ge_iff. cbn.
  by rewrite !Z2Pos.id by lia.
Qed.
Lemma value_eq a b : wf_decimal a → wf_decimal b → decimal_eq a b = true ↔ (value a == value b)%Q.
Proof.
  intros [_ Ha] [_ Hb]. unfold decimal_eq, decimal_cmp, value, Qeq. rewrite bool_decide_eq_true, Z.compare_eq_iff. cbn.
  by rewrite !Z2Pos.id by lia.
Qed.
Lemma value_integer z : (value (decimal_integer z) == inject_Z z)%Q.
Proof. reflexivity. Qed.
Lemma value_multiply a b : wf_decimal a → wf_decimal b → (value (decimal_multiply a b) == value a * value b)%Q.
Proof. intros [_ Ha] [_ Hb]. unfold value, Qeq. cbn. rewrite Pos2Z.inj_mul, !Z2Pos.id by lia. ring. Qed.
Lemma value_add a b : wf_decimal a → wf_decimal b → (value (decimal_add a b) == value a + value b)%Q.
Proof. intros [_ Ha] [_ Hb]. unfold value, Qeq. cbn. rewrite !Pos2Z.inj_mul, !Z2Pos.id by lia. ring. Qed.
Lemma value_divide a b : wf_decimal a → wf_decimal b → 0 < dn b → (value (decimal_divide a b) * value b == value a)%Q.
Proof.
  intros [_ Ha] [_ Hb] Hn. unfold value, Qeq. cbn. rewrite !Pos2Z.inj_mul, !Z2Pos.id by nia. ring.
Qed.
(** A quotient at least [q] is a dividend at least [q] times the divisor. *)
Lemma value_divide_ge a b (q : Q) :
  wf_decimal a → wf_decimal b → 0 < dn b → (q <= value (decimal_divide a b))%Q ↔ (q * value b <= value a)%Q.
Proof.
  intros [_ Ha] [_ Hb] Hn. destruct q as [n d]. unfold value, Qle. cbn. rewrite Pos2Z.inj_mul, !Z2Pos.id by nia.
  set (x := dn a) in *. set (y := dd a) in *. set (u := dn b) in *. set (v := dd b) in *. split; nia.
Qed.
(** A quotient at least [q] is a dividend at least [q] times the divisor. *)
Lemma divide_ge a b q :
  wf_decimal a → wf_decimal b → wf_decimal q → 0 < dn b →
  decimal_ge (decimal_divide a b) q = true ↔ (value q * value b <= value a)%Q.
Proof.
  intros [_ Ha] [_ Hb] [_ Hq] Hn. unfold decimal_ge, decimal_cmp, value, Qle. rewrite bool_decide_eq_true, Z.compare_ge_iff. cbn.
  rewrite Pos2Z.inj_mul, !Z2Pos.id by lia. split; nia.
Qed.
Lemma wf_integer z : 0 ≤ z → wf_decimal (decimal_integer z).
Proof. done. Qed.
Lemma wf_add a b : wf_decimal a → wf_decimal b → wf_decimal (decimal_add a b).
Proof. intros [] []. split; cbn; nia. Qed.
Lemma wf_multiply a b : wf_decimal a → wf_decimal b → wf_decimal (decimal_multiply a b).
Proof. intros [] []. split; cbn; nia. Qed.
Lemma wf_divide a b : wf_decimal a → wf_decimal b → 0 < dn b → wf_decimal (decimal_divide a b).
Proof. intros [] [] ?. split; cbn; nia. Qed.
#[local] Hint Resolve wf_integer wf_add wf_multiply : core.

(** * Keys *)
Lemma str_set_elem k l : k ∈ str_set l ↔ k ∈ l.
Proof.
  unfold str_set. assert (∀ s, k ∈ (foldl (fun s k => bt_insert String.compare k tt s) s l).*1 ↔ k ∈ l ∨ k ∈ s.*1) as Hl.
  { induction l as [|x l IH]; intros s; cbn [foldl]; [set_solver|]. rewrite IH, (bt_insert_keys String.compare), elem_of_cons. naive_solver. }
  rewrite Hl. set_solver.
Qed.
Lemma get_elem o k : k ∈ o.*1 → is_Some (get o k).
Proof.
  unfold get. induction o as [|[x v] o IH]; [set_solver|]. rewrite json_get_cons. cbn. rewrite elem_of_cons.
  destruct (String.eqb_spec x k); [eauto|]. intros [->|]; [done|]. by apply IH.
Qed.
Lemma get_in o k v : get o k = Some v → k ∈ o.*1.
Proof.
  unfold get. induction o as [|[x w] o IH]; [done|]. rewrite json_get_cons. cbn. rewrite elem_of_cons.
  destruct (String.eqb_spec x k); [by left|]. intros Hg. right. by apply IH.
Qed.
Lemma filter_none {A} (P : A -> Prop) `{∀ x, Decision (P x)} l : filter P l = [] ↔ ∀ x, x ∈ l → ¬ P x.
Proof.
  split; [intros Hf x Hx Hp; by eapply filter_nil_not_elem_of|]. intros Hn. induction l as [|x l IH]; [done|].
  rewrite filter_cons_False by (apply Hn; set_solver). apply IH. set_solver.
Qed.
Lemma keys_iff o expected field u : keys o expected field = Ok u ↔ ∀ k, is_Some (get o k) ↔ k ∈ expected.
Proof.
  assert (∀ k, is_Some (get o k) ↔ k ∈ o.*1) as Hg by (intros k; split; [intros [v ?]; by eapply get_in|apply get_elem]).
  setoid_rewrite Hg. destruct u. unfold keys. rewrite bind_Ok. split.
  - intros (_ & Hm%ensure_Ok%bool_decide_eq_true & Hu%ensure_Ok%bool_decide_eq_true) k.
    pose proof (proj1 (filter_none _ _) Hm k) as Hm'. pose proof (proj1 (filter_none _ _) Hu k) as Hu'.
    rewrite !str_set_elem in Hm', Hu'. destruct (decide (k ∈ expected)), (decide (k ∈ o.*1)); naive_solver.
  - intros Hk. exists tt. split; apply ensure_Ok, bool_decide_eq_true, filter_none; intros k; rewrite !str_set_elem; naive_solver.
Qed.
Lemma keys_index o expected field u k : keys o expected field = Ok u → k ∈ expected → ∃ v, index o k = Ok v ∧ get o k = Some v.
Proof. intros Hk Hi. apply keys_iff with (k := k) in Hk. destruct (proj2 Hk Hi) as [v Hv]. exists v. unfold index. by rewrite Hv. Qed.
Lemma index_Ok o k v : index o k = Ok v ↔ get o k = Some v.
Proof. unfold index. by rewrite expect_Ok. Qed.

(** * No panics *)
Lemma not_panic_ensure b msg : not_panic (ensure b msg).
Proof. by destruct b. Qed.
Lemma not_panic_ensure_show b msg : (b = false → not_panic msg) → not_panic (ensure_show b msg).
Proof. intros Hm. destruct b; [done|]. apply not_panic_bind; [by apply Hm|done]. Qed.
Lemma not_panic_index o expected field u k : keys o expected field = Ok u → k ∈ expected → not_panic (index o k).
Proof. intros Hk Hi. destruct (keys_index _ _ _ _ _ Hk Hi) as (v & -> & _). done. Qed.
Lemma not_panic_mapping v field : not_panic (mapping v field).
Proof. by destruct v. Qed.
Lemma not_panic_keys o expected field : not_panic (keys o expected field).
Proof. unfold keys. apply not_panic_bind; intros; apply not_panic_ensure. Qed.
Lemma not_panic_display d : wf_decimal d → not_panic (decimal_display d).
Proof. intros [_ Hd]. unfold decimal_display. by destruct (Z.eqb_spec (dd d) 0); [lia|]. Qed.
Lemma not_panic_context {A} msg (r : result anyhow A) : not_panic r → not_panic (context msg r).
Proof. by destruct r. Qed.
#[local] Hint Resolve not_panic_ensure not_panic_mapping not_panic_keys not_panic_display not_panic_context : outcome.
(** Membership in one of the key lists. *)
Ltac listed := apply (bool_decide_unpack _); vm_compute; exact I.
(** One step of a walk through a checked body. *)
Ltac np_step :=
  match goal with
  | |- not_panic (_ ≫= _) => apply not_panic_bind; [|intros ? ?]
  | |- not_panic (let '(_, _) := ?p in _) => destruct p
  | |- not_panic (ensure_show _ _) => apply not_panic_ensure_show; intros _
  | Hk : keys ?o _ _ = Ok _ |- not_panic (index ?o _) => eapply not_panic_index; [exact Hk|listed]
  | |- not_panic (expect _ _) => done
  | |- not_panic (if ?b then _ else _) => destruct b
  | |- not_panic (match ?x with _ => _ end) => destruct x
  | |- not_panic _ => solve [eauto with outcome]
  end.
Ltac np := repeat np_step.

Lemma split_on_first sep acc s : ∃ x l, split_on sep acc s = x :: l.
Proof. revert acc. induction s as [|c s IH]; intros acc; cbn; [eauto|]. destruct (sep c); eauto. Qed.
Lemma not_panic_i32 s : not_panic (parse_i32 s).
Proof.
  unfold parse_i32. destruct s as [|c s]; [done|]. destruct (_ && _); [done|]. apply not_panic_try_fold. intros b x _. unfold i32_step. np.
Qed.
#[local] Hint Resolve not_panic_i32 : outcome.
Section facts.
Context `{BigUintParseLaws, JsonText, UuidCrate, Chrono}.

Lemma not_panic_from_str s : not_panic (decimal_from_str s).
Proof.
  unfold decimal_from_str. set (s0 := default _ _). destruct (split_on_first is_e "" s0) as (x & l & ->).
  destruct l as [|y [|z l]]; cbn [length Nat.leb Nat.eqb]; np.
Qed.
Lemma from_str_wf s d : decimal_from_str s = Ok d → wf_decimal d.
Proof.
  unfold decimal_from_str. intros (u & _ & (e & _ & (u1 & _ & (m & _ & (u2 & _ & (u3 & _ & (u4 & _ & (n & Hn & Hd)%bind_Ok)%bind_Ok)%bind_Ok)%bind_Ok)%bind_Ok)%bind_Ok)%bind_Ok)%bind_Ok.
  destruct (biguint_from_str _) eqn:Hb; [done|]. injection Hn as ->. apply biguint_nonneg in Hb. injection Hd as <-.
  destruct (Z.leb_spec 0 (from_option (fun s => Z.of_nat (String.length s)) 0 (split_on is_dot "" m !! 1%nat) - e)); split; cbn; try lia; try apply Z.pow_pos_nonneg; try lia.
Qed.
Lemma decimal_iff v field zero d : decimal v field zero = Ok d ↔ decimal_from_str (text v) = Ok d ∧ (zero = false → dn d ≠ 0).
Proof.
  unfold decimal. rewrite bind_Ok. split.
  - intros (p & Hp & (u & Hz%ensure_Ok & [= <-])%bind_Ok). apply map_err_Ok in Hp. split; [done|]. intros ->. cbn in Hz.
    by apply negb_true_iff, Z.eqb_neq in Hz.
  - intros [Hp Hz]. exists d. unfold context. rewrite map_err_Ok. split; [done|]. rewrite bind_Ok. exists tt. split; [|done].
    apply ensure_Ok. destruct zero; [done|]. by apply negb_true_iff, Z.eqb_neq, Hz.
Qed.
Lemma decimal_wf v field zero d : decimal v field zero = Ok d → wf_decimal d ∧ (zero = false → 0 < dn d).
Proof. intros [Hs Hz]%decimal_iff. pose proof (from_str_wf _ _ Hs) as Hwf. split; [done|]. intros Hf. destruct Hwf. specialize (Hz Hf). lia. Qed.
Lemma not_panic_decimal v field zero : not_panic (decimal v field zero).
Proof. unfold decimal. pose proof not_panic_from_str. np. Qed.
Lemma not_panic_integer v field zero : not_panic (integer v field zero).
Proof. unfold integer. np. Qed.
Lemma not_panic_sha v field : not_panic (sha v field).
Proof. unfold sha. np. Qed.
#[local] Hint Resolve not_panic_from_str not_panic_decimal not_panic_integer not_panic_sha : outcome.

Lemma not_panic_latency v field limit : wf_decimal limit → not_panic (latency v field limit).
Proof. intros Hl. unfold latency. np. all: try (eapply not_panic_display, decimal_wf; eassumption). Qed.
Lemma not_panic_counts o expected field f : keys o expected f = Ok tt →
  (∀ k, k ∈ ["offered_valid_shares"; "acknowledged_shares"; "postgres_unique_committed_shares"; "rejected_valid_shares";
     "missing_acknowledged_share_ids"; "unexpected_committed_share_ids"; "acknowledged_share_ids_sha256"; "postgres_share_ids_sha256"] → k ∈ expected) →
  not_panic (counts o field).
Proof.
  intros Hk Hin. assert (∀ k, k ∈ ["offered_valid_shares"; "acknowledged_shares"; "postgres_unique_committed_shares"; "rejected_valid_shares";
     "missing_acknowledged_share_ids"; "unexpected_committed_share_ids"; "acknowledged_share_ids_sha256"; "postgres_share_ids_sha256"] → not_panic (index o k)) as Hi
    by (intros k ?; eapply not_panic_index; eauto). clear Hk Hin.
  unfold counts. repeat (apply not_panic_bind; [first [apply Hi; listed|apply not_panic_ensure|apply not_panic_sha|apply not_panic_bind; [apply Hi; listed|intros; apply not_panic_integer]]|intros ? _]).
  done.
Qed.

(** ** The configuration *)
Record normalizes (done : list string) (n : Normalized) : Prop := {
  nz_keys k : k ∈ done → is_Some (bt_get String.compare k n);
  nz_wf k d : bt_get String.compare k n = Some d → wf_decimal d;
}.
Lemma normalizes_insert done n k d : normalizes done n → wf_decimal d → normalizes (done ++ [k]) (bt_insert String.compare k d n).
Proof.
  intros [Hk Hw] Hd. constructor.
  - intros k'. destruct (decide (k' = k)) as [->|Hne]; [intros _; rewrite (bt_get_insert_eq String.compare); eauto|].
    rewrite (bt_get_insert_ne String.compare) by done. rewrite elem_of_app, list_elem_of_singleton. naive_solver.
  - intros k' d'. destruct (decide (k' = k)) as [->|Hne]; [rewrite (bt_get_insert_eq String.compare); naive_solver|].
    rewrite (bt_get_insert_ne String.compare) by done. eauto.
Qed.
Lemma normalize_fold f l done n n' :
  (∀ n k n', f n k = Ok n' → ∃ d, wf_decimal d ∧ n' = bt_insert String.compare k d n) →
  normalizes done n → try_fold (E := anyhow) f n l = Ok n' → normalizes (done ++ l) n'.
Proof.
  intros Hf. revert done n. induction l as [|k l IH]; intros done n Hn; cbn; [intros [= <-]; by rewrite app_nil_r|].
  intros (n1 & (d & Hd & ->)%Hf & Hr)%bind_Ok. replace (done ++ k :: l) with ((done ++ [k]) ++ l) by by rewrite <- app_assoc.
  eapply IH; [|done]. by apply normalizes_insert.
Qed.
Lemma normalize_decimal_ins cfg field n k n' : normalize_decimal cfg field n k = Ok n' → ∃ d, wf_decimal d ∧ n' = bt_insert String.compare k d n.
Proof.
  intros (v & _ & (d & Hd%decimal_wf & (lab & _ & (u & _ & [= <-])%bind_Ok)%bind_Ok)%bind_Ok)%bind_Ok. exists d. naive_solver.
Qed.
Lemma integer_nonneg v field zero n : integer v field zero = Ok n → 0 ≤ n ∧ (zero = false → 0 < n).
Proof.
  unfold integer. intros (p & Hp & (u & _ & (u1 & Hz%ensure_Ok & [= <-])%bind_Ok)%bind_Ok)%bind_Ok.
  destruct (biguint_from_str _) eqn:Hb; [done|]. injection Hp as ->. apply biguint_nonneg in Hb. split; [done|]. intros ->.
  cbn in Hz. apply negb_true_iff, Z.eqb_neq in Hz. lia.
Qed.
Lemma normalize_integer_ins cfg field n k n' : normalize_integer cfg field n k = Ok n' → ∃ d, wf_decimal d ∧ n' = bt_insert String.compare k d n.
Proof.
  intros (v & _ & (z & [Hz _]%integer_nonneg & [= <-])%bind_Ok)%bind_Ok. eexists. split; [|done]. by apply wf_integer.
Qed.
Lemma norm_Ok n k d : norm n k = Ok d ↔ bt_get String.compare k n = Some d.
Proof. unfold norm. by rewrite expect_Ok. Qed.
Lemma not_panic_norm done n k : normalizes done n → k ∈ done → not_panic (norm n k).
Proof. intros [Hk _] Hi. unfold norm. by destruct (Hk k Hi) as [d ->]. Qed.
Lemma normalized_folds cfg field n1 n2 :
  try_fold (normalize_decimal cfg field) [] DECIMAL_CONFIGURATION_KEYS = Ok n1 →
  try_fold (normalize_integer cfg field) n1 INTEGER_CONFIGURATION_KEYS = Ok n2 → normalizes CONFIGURATION_KEYS n2.
Proof.
  intros Hd Hi. change CONFIGURATION_KEYS with (DECIMAL_CONFIGURATION_KEYS ++ INTEGER_CONFIGURATION_KEYS).
  eapply normalize_fold; [apply normalize_integer_ins| |exact Hi].
  change DECIMAL_CONFIGURATION_KEYS with ([] ++ DECIMAL_CONFIGURATION_KEYS).
  eapply normalize_fold; [apply normalize_decimal_ins| |exact Hd]. constructor; [set_solver|done].
Qed.
Lemma normalized_configuration_ok v field n : normalized_configuration v field = Ok n → normalizes CONFIGURATION_KEYS n.
Proof.
  unfold normalized_configuration. intros (cfg & _ & (u & _ & (u1 & _ & (n1 & Hd & (n2 & Hi & Hr)%bind_Ok)%bind_Ok)%bind_Ok)%bind_Ok)%bind_Ok.
  pose proof (normalized_folds _ _ _ _ Hd Hi) as Hn.
  repeat (apply bind_Ok in Hr as (? & _ & Hr)). by injection Hr as <-.
Qed.
Lemma in_integer_configuration k : k ∈ INTEGER_CONFIGURATION_KEYS → k ∈ CONFIGURATION_KEYS.
Proof. intros Hk. change CONFIGURATION_KEYS with (DECIMAL_CONFIGURATION_KEYS ++ INTEGER_CONFIGURATION_KEYS). apply elem_of_app. by right. Qed.
Lemma in_decimal_configuration k : k ∈ DECIMAL_CONFIGURATION_KEYS → k ∈ CONFIGURATION_KEYS.
Proof. intros Hk. change CONFIGURATION_KEYS with (DECIMAL_CONFIGURATION_KEYS ++ INTEGER_CONFIGURATION_KEYS). apply elem_of_app. by left. Qed.
Lemma not_panic_configuration v field : not_panic (normalized_configuration v field).
Proof.
  unfold normalized_configuration. apply not_panic_bind; [apply not_panic_mapping|intros cfg _].
  apply not_panic_bind; [apply not_panic_ensure|intros u _]. apply not_panic_bind; [apply not_panic_keys|intros [] Hk].
  apply not_panic_bind.
  { apply not_panic_try_fold. intros n k Hi. unfold normalize_decimal.
    apply not_panic_bind; [eapply not_panic_index; [exact Hk|by apply in_decimal_configuration]|intros ? _]. np. }
  intros n1 Hd. apply not_panic_bind.
  { apply not_panic_try_fold. intros n k Hi. unfold normalize_integer.
    apply not_panic_bind; [eapply not_panic_index; [exact Hk|by apply in_integer_configuration]|intros ? _]. np. }
  intros n2 Hi. pose proof (normalized_folds _ _ _ _ Hd Hi) as Hn.
  assert (∀ k, k ∈ CONFIGURATION_KEYS → not_panic (norm n2 k)) as Hnorm by (intros; by eapply not_panic_norm).
  assert (∀ k d, norm n2 k = Ok d → wf_decimal d) as Hwf by (intros k d ?%norm_Ok; by eapply (nz_wf _ _ Hn)).
  assert (∀ l, Forall (fun b => b.1.1 ∈ CONFIGURATION_KEYS) l → not_panic (try_fold (check_bounds n2 field) tt l)) as Hbounds.
  { intros l Hl. apply not_panic_try_fold. intros b [[key lo] hi] Hin. rewrite Forall_forall in Hl. specialize (Hl _ Hin).
    unfold check_bounds. apply not_panic_bind; [by apply Hnorm|intros; apply not_panic_ensure]. }
  assert (∀ l, Forall (fun k => k ∈ CONFIGURATION_KEYS) l → not_panic (try_fold (check_step n2 field) tt l)) as Hsteps.
  { intros l Hl. apply not_panic_try_fold. intros b k Hin. rewrite Forall_forall in Hl. specialize (Hl _ Hin).
    unfold check_step. apply not_panic_bind; [by apply Hnorm|intros; apply not_panic_ensure]. }
  apply not_panic_bind; [apply Hbounds; repeat constructor; listed|intros _ _].
  apply not_panic_bind; [apply Hnorm; listed|intros w Hw%Hwf]. apply not_panic_bind; [apply Hnorm; listed|intros e _].
  apply not_panic_bind; [apply not_panic_ensure_show; intros _; apply not_panic_bind; [apply not_panic_display, wf_add; [done|by apply wf_integer]|done]|intros _ _].
  do 3 (apply not_panic_bind; [apply Hnorm; listed|intros ? _]). apply not_panic_bind; [apply not_panic_ensure|intros _ _].
  apply not_panic_bind; [apply Hsteps; repeat constructor; listed|intros _ _].
  apply not_panic_bind; [apply Hnorm; listed|intros ? _]. apply not_panic_bind; [apply not_panic_ensure|done].
Qed.

(** ** Phases *)
Lemma not_panic_phase name v forecast limit : wf_decimal forecast → wf_decimal limit → not_panic (phase name v forecast limit).
Proof.
  intros Hf Hl. unfold phase. apply not_panic_bind; [apply not_panic_mapping|intros o _].
  set (extra := if String.eqb name "reconnect" then _ else _).
  apply not_panic_bind; [apply not_panic_keys|intros [] Hk].
  assert (∀ k, k ∈ PHASE_KEYS → not_panic (index o k)) as Hi by (intros k ?; eapply not_panic_index; [exact Hk|apply elem_of_app; by left]).
  apply not_panic_bind; [apply Hi; listed|intros ? _]. apply not_panic_bind; [apply not_panic_ensure|intros _ _].
  apply not_panic_bind; [apply Hi; listed|intros ? _]. apply not_panic_bind; [apply not_panic_decimal|intros d [Hd Hdp]%decimal_wf].
  apply not_panic_bind; [apply not_panic_ensure|intros _ _].
  apply not_panic_bind; [eapply not_panic_counts; [exact Hk|]; intros k Hin; apply elem_of_app; left; revert k Hin; apply Forall_forall; repeat constructor; listed|].
  intros [[offered ack] committed] _. apply not_panic_bind; [apply Hi; listed|intros ? _].
  apply not_panic_bind; [by apply not_panic_latency|intros _ _].
  apply not_panic_bind.
  { apply not_panic_ensure_show. intros _. apply not_panic_bind; [|intros; apply not_panic_bind; [by apply not_panic_display|done]].
    unfold decimal_display. cbn [dd decimal_divide decimal_integer]. specialize (Hdp eq_refl). by destruct (Z.eqb_spec (1 * dn d) 0); [lia|]. }
  intros _ _. apply not_panic_bind; [|intros _ _; apply not_panic_bind; [|done]].
  - unfold extra in Hk. destruct (String.eqb name "reconnect"); [|done].
    apply not_panic_bind; [eapply not_panic_index; [exact Hk|listed]|intros ? _]. np.
  - unfold extra in Hk. destruct (String.eqb_spec name "slow_database") as [->|]; [|done]. cbn [String.eqb Ascii.eqb Bool.eqb] in Hk.
    apply not_panic_bind; [eapply not_panic_index; [exact Hk|listed]|intros ? _]. np.
Qed.
Lemma counts_ok o field offered ack committed :
  counts o field = Ok (offered, ack, committed) → offered = ack ∧ committed = ack ∧ 0 < ack.
Proof.
  unfold counts. intros (p1 & _ & (p2 & (v2 & _ & [_ Ha]%integer_nonneg)%bind_Ok & Hr)%bind_Ok)%bind_Ok.
  do 8 (apply bind_Ok in Hr as (? & _ & Hr)).
  apply bind_Ok in Hr as (u1 & [_ Ho%Z.eqb_eq]%ensure_Ok%andb_true_iff & Hr).
  apply bind_Ok in Hr as (u2 & [[Hc%Z.eqb_eq _]%andb_true_iff _]%ensure_Ok%andb_true_iff & Hr).
  apply bind_Ok in Hr as (u3 & _ & [= -> -> ->]). subst. auto.
Qed.
Lemma latency_ok v field limit p50 p99 :
  wf_decimal limit → latency v field limit = Ok (p50, p99) → (value p50 <= value p99)%Q ∧ (value p99 <= value limit)%Q.
Proof.
  intros Hl. unfold latency. intros (o & _ & (u & _ & (v50 & _ & (d50 & [H50 _]%decimal_wf & (v99 & _ & (d99 & [H99 _]%decimal_wf &
    (u1 & Hle%ensure_Ok & (u2 & Hlim & [= -> ->])%bind_Ok)%bind_Ok)%bind_Ok)%bind_Ok)%bind_Ok)%bind_Ok)%bind_Ok)%bind_Ok.
  split; [by apply value_le|]. unfold ensure_show in Hlim. destruct (decimal_le p99 limit) eqn:Hd; [by apply value_le|].
  by apply bind_Ok in Hlim as (? & _ & ?).
Qed.
Lemma ensure_show_Ok b msg u : ensure_show b msg = Ok u → b = true.
Proof. destruct b; [done|]. intros (? & _ & ?)%bind_Ok. done. Qed.
(** Name the next bound value of a successful run and its equation. *)
Ltac peel H x Hx := apply bind_Ok in H as (x & Hx & H).
Ltac skip H := let x := fresh in let Hx := fresh in peel H x Hx; clear Hx; try clear x.

(** ** What a document states *)
Definition reads (o : Object) (key : string) (d : Decimal) : Prop :=
  ∃ v, get o key = Some v ∧ decimal_from_str (text v) = Ok d ∧ 0 < dn d ∧ wf_decimal d.
Definition reads_integer (o : Object) (key : string) (n : Z) : Prop :=
  ∃ v, get o key = Some v ∧ biguint_from_str (trim (text v)) = inr n ∧ pretty n = trim (text v).
(** Every offered share acknowledged and committed, under one digest of the
    identifiers. *)
Record counts_stated (o : Object) (n : Z) : Prop := {
  cs_offered : reads_integer o "offered_valid_shares" n;
  cs_acknowledged : reads_integer o "acknowledged_shares" n;
  cs_committed : reads_integer o "postgres_unique_committed_shares" n;
  cs_rejected : reads_integer o "rejected_valid_shares" 0;
  cs_missing : reads_integer o "missing_acknowledged_share_ids" 0;
  cs_unexpected : reads_integer o "unexpected_committed_share_ids" 0;
  cs_digest : ∃ d, get o "acknowledged_share_ids_sha256" = Some (JString d) ∧ get o "postgres_share_ids_sha256" = Some (JString d);
}.
Record latency_stated (o : Object) (p50 p99 limit : Decimal) : Prop := {
  ls_values : ∃ l v50 v99, get o "ack_latency_milliseconds" = Some (JObject l) ∧ get l "p50" = Some v50 ∧ get l "p99" = Some v99 ∧
    decimal_from_str (text v50) = Ok p50 ∧ decimal_from_str (text v99) = Ok p99;
  ls_order : (value p50 <= value p99)%Q;
  ls_limit : (value p99 <= value limit)%Q;
}.
Lemma reads_of o key v field d : index o key = Ok v → decimal v field false = Ok d → reads o key d ∧ wf_decimal d ∧ 0 < dn d.
Proof.
  intros Hi%index_Ok Hd. pose proof (decimal_wf _ _ _ _ Hd) as [Hwf Hp]. apply decimal_iff in Hd as [Hd _].
  split; [|eauto]. exists v. eauto.
Qed.
Lemma reads_integer_of o key v field zero n : index o key = Ok v → integer v field zero = Ok n → reads_integer o key n.
Proof.
  intros Hi%index_Ok. unfold integer. intros (p & Hp & (u & He%ensure_Ok%String.eqb_eq & (u1 & _ & [= <-])%bind_Ok)%bind_Ok)%bind_Ok.
  exists v. destruct (biguint_from_str _); [done|]. by injection Hp as ->.
Qed.
Lemma integer_read o key field zero n : (v ← index o key; integer v field zero) = Ok n → reads_integer o key n.
Proof. intros (v & Hv & Hn)%bind_Ok. by eapply reads_integer_of. Qed.
Lemma sha_of o key v field d : index o key = Ok v → sha v field = Ok d → get o key = Some (JString d).
Proof. intros ->%index_Ok. destruct v; cbn; try done. destruct (is_hex _ _); [|done]. by intros [= ->]. Qed.
Lemma counts_stated_of o field offered ack committed : counts o field = Ok (offered, ack, committed) → counts_stated o ack.
Proof.
  intros Hc. pose proof (counts_ok _ _ _ _ _ Hc) as (-> & -> & _). unfold counts in Hc.
  do 6 (let n := fresh "n" in let Hn := fresh "Hn" in apply bind_Ok in Hc as (n & Hn & Hc); apply integer_read in Hn).
  peel Hc va Hva. peel Hc da Hda. peel Hc vc Hvc. peel Hc dc Hdc.
  apply bind_Ok in Hc as (? & [Hr%Z.eqb_eq _]%ensure_Ok%andb_true_iff & Hc).
  apply bind_Ok in Hc as (? & [[_ Hm%Z.eqb_eq]%andb_true_iff Hu%Z.eqb_eq]%ensure_Ok%andb_true_iff & Hc).
  apply bind_Ok in Hc as (? & Hd%ensure_Ok%String.eqb_eq & [= -> -> ->]). subst.
  constructor; try done. exists dc. eauto using sha_of.
Qed.
Lemma latency_stated_of o v field limit p50 p99 :
  wf_decimal limit → index o "ack_latency_milliseconds" = Ok v → latency v field limit = Ok (p50, p99) → latency_stated o p50 p99 limit.
Proof.
  intros Hw Hi%index_Ok Hl. pose proof (latency_ok _ _ _ _ _ Hw Hl) as [Ho Hm]. split; [|done..].
  unfold latency in Hl. peel Hl l Hm'. destruct v; try done. injection Hm' as ->. skip Hl.
  peel Hl v50 H50. peel Hl d50 Hd50. peel Hl v99 H99. peel Hl d99 Hd99. do 2 (skip Hl).
  apply index_Ok in H50, H99. apply decimal_iff in Hd50, Hd99. injection Hl as -> ->. exists l, v50, v99. naive_solver.
Qed.

(** What a qualifying phase measured, and where the document states it: at
    least a minute in which every offered share was acknowledged and
    committed, at twice the forecast rate and within the latency limit, with
    the reconnections or the database delay its name asks for. *)
Record phase_qualifies (phases : Object) (forecast limit : Decimal) (name : string) (p : Phase) : Prop := {
  pq_stated : ∃ o p50 p99, get phases name = Some (JObject o) ∧ get o "completed" = Some (JBool true) ∧
    reads o "duration_seconds" (ph_duration p) ∧ counts_stated o (ph_ack p) ∧ latency_stated o p50 p99 limit ∧
    (name = "reconnect" → ∃ n, reads_integer o "reconnect_events" n ∧ 10 ≤ n) ∧
    (name = "slow_database" → ∃ d, reads o "database_delay_milliseconds" d ∧ (10 <= value d)%Q);
  pq_wf : wf_decimal (ph_duration p);
  pq_minute : (60 <= value (ph_duration p))%Q;
  pq_shares : 0 < ph_ack p;
  pq_rate : (2 * value forecast * value (ph_duration p) <= inject_Z (ph_ack p))%Q;
}.
Lemma phase_ok phases name v forecast limit p :
  wf_decimal forecast → wf_decimal limit → index phases name = Ok v → phase name v forecast limit = Ok p →
  phase_qualifies phases forecast limit name p.
Proof.
  intros Hf Hw Hi%index_Ok Hr. unfold phase in Hr. peel Hr o Ho. destruct v; try done. injection Ho as ->. skip Hr.
  peel Hr cv Hcv. peel Hr u1 Hdone. peel Hr vd Hvd. peel Hr d Hd. peel Hr u2 Hmin. peel Hr c Hc. destruct c as [[offered ack] committed].
  peel Hr vl Hvl. peel Hr lat Hlat. destruct lat as [p50 p99]. peel Hr u3 Hrate. peel Hr u4 Hrec. peel Hr u5 Hslow. injection Hr as <-. cbn.
  destruct (reads_of _ _ _ _ _ Hvd Hd) as (Rd & Wd & Pd). pose proof (counts_stated_of _ _ _ _ _ Hc) as Cs. apply counts_ok in Hc as (-> & -> & Ha).
  constructor; cbn [ph_duration ph_ack]; try done.
  - exists o, p50, p99. split; [done|]. split.
    { apply index_Ok in Hcv. rewrite Hcv. apply ensure_Ok in Hdone. by destruct cv as [|[]| | | |]. }
    split; [done|]. split; [done|]. split; [by eapply latency_stated_of|]. split.
    + intros ->. cbn in Hrec. peel Hrec vr Hvr. peel Hrec n Hn. exists n. split; [by eapply reads_integer_of|]. by apply ensure_Ok, Z.leb_le in Hrec.
    + intros ->. cbn in Hslow. peel Hslow vs Hvs. peel Hslow y Hy. destruct (reads_of _ _ _ _ _ Hvs Hy) as (Ry & Wy & _). exists y. split; [done|].
      apply ensure_Ok, value_ge in Hslow; [|done|by apply wf_integer]. by rewrite value_integer in Hslow.
  - apply ensure_Ok, value_ge in Hmin; [|done|by apply wf_integer]. by rewrite value_integer in Hmin.
  - apply ensure_show_Ok, divide_ge in Hrate; [|by apply wf_integer; lia|done|by apply wf_multiply, wf_integer|done].
    rewrite value_multiply, !value_integer in Hrate by (try apply wf_integer; done). by rewrite (Qmult_comm 2).
Qed.
Definition total_duration (phases : list Phase) : Q := foldr (fun p q => (value (ph_duration p) + q)%Q) 0%Q phases.
Lemma durations_fold phases d :
  wf_decimal d → Forall (fun p => wf_decimal (ph_duration p)) phases →
  let s := foldl (fun sum p => decimal_add sum (ph_duration p)) d phases in
  wf_decimal s ∧ (value s == value d + total_duration phases)%Q.
Proof.
  intros Hd Hp. revert d Hd. induction Hp as [|p phases Hw Hp IH]; intros d Hd; cbn [foldl]; [split; [done|by rewrite Qplus_0_r]|].
  destruct (IH (decimal_add d (ph_duration p)) (wf_add _ _ Hd Hw)) as [Hs He]. split; [done|].
  cbn zeta in He. rewrite He, value_add by done. unfold total_duration. cbn [foldr]. ring.
Qed.

(** * The document *)
Lemma not_panic_subject subject options : not_panic (check_subject subject options).
Proof.
  unfold check_subject, check_subject_shape. apply not_panic_bind.
  - np.
  - intros [] (u & Hk & _)%bind_Ok. destruct (vo_expected_subject options) as [expected|]; [|np].
    apply not_panic_try_fold. intros b k Hin. unfold check_subject_key. np. eapply not_panic_index; eauto.
Qed.
Lemma not_panic_durability durability : not_panic (check_durability durability).
Proof.
  unfold check_durability. apply not_panic_bind; [apply not_panic_keys|intros [] Hk]. apply not_panic_try_fold. intros b k Hin.
  apply not_panic_bind; [by eapply not_panic_index|intros; apply not_panic_ensure].
Qed.
Lemma not_panic_check_configuration cfg options : normalizes CONFIGURATION_KEYS cfg → not_panic (check_configuration cfg options).
Proof.
  intros Hn. unfold check_configuration. destruct (vo_expected_configuration options) as [expected|]; [|np].
  apply not_panic_bind; [apply not_panic_configuration|intros m Hm%normalized_configuration_ok]. apply not_panic_try_fold. intros b k Hin.
  unfold check_configuration_key. apply not_panic_bind; [by eapply not_panic_norm|intros ? _].
  apply not_panic_bind; [by eapply not_panic_norm|intros; apply not_panic_ensure].
Qed.
Lemma not_panic_schema v : not_panic (check_schema v).
Proof. unfold check_schema. np. Qed.
Lemma not_panic_freshness options now g : not_panic (check_freshness options now g).
Proof. unfold check_freshness. np. Qed.
Lemma not_panic_bound_value d e options a b c : not_panic (check_bound_value d e options a b c).
Proof. unfold check_bound_value. np. Qed.
#[local] Hint Resolve not_panic_subject not_panic_durability not_panic_configuration not_panic_schema not_panic_freshness not_panic_bound_value : outcome.

(** No JSON document and no options make the validator panic: every field it
    indexes was required before, every decimal it divides by or shows has a
    non-zero denominator, and every configuration value it looks up was
    normalised. *)
Theorem capacity_never_panics utc_now payload options : not_panic (validate_capacity_evidence utc_now payload options).
Proof.
  unfold validate_capacity_evidence. apply not_panic_bind; [apply not_panic_mapping|intros o _].
  apply not_panic_bind; [apply not_panic_schema|intros _ _]. apply not_panic_bind; [apply not_panic_keys|intros [] Hk].
  assert (∀ k, k ∈ TOP_KEYS → not_panic (index o k)) as Hi by (intros; by eapply not_panic_index).
  do 14 (apply not_panic_bind; [first [apply Hi; listed|solve [np]]|intros ? _]).
  apply not_panic_bind; [np|intros _ _].
  do 6 (apply not_panic_bind; [first [apply Hi; listed|solve [np]]|intros ? _]).
  apply not_panic_bind; [apply Hi; listed|intros vc _].
  apply not_panic_bind; [apply not_panic_configuration|intros cfg Hcfg%normalized_configuration_ok].
  apply not_panic_bind; [by apply not_panic_check_configuration|intros _ _].
  apply not_panic_bind; [apply Hi; listed|intros vf _]. apply not_panic_bind; [apply not_panic_decimal|intros forecast [Hf Hfp]%decimal_wf].
  apply not_panic_bind; [apply not_panic_bound_value|intros _ _].
  apply not_panic_bind; [apply Hi; listed|intros vl _]. apply not_panic_bind; [apply not_panic_decimal|intros limit [Hl _]%decimal_wf].
  apply not_panic_bind; [apply not_panic_bound_value|intros _ _].
  apply not_panic_bind; [eapply not_panic_norm; [exact Hcfg|listed]|intros ? _]. apply not_panic_bind; [apply not_panic_ensure|intros _ _].
  apply not_panic_bind; [apply Hi; listed|intros vt _]. apply not_panic_bind; [apply not_panic_decimal|intros duration [Hd Hdp]%decimal_wf].
  apply not_panic_bind; [eapply not_panic_counts; [exact Hk|]; apply Forall_forall; repeat constructor; listed|].
  intros [[offered ack] committed] (_ & _ & Ha)%counts_ok. specialize (Hdp eq_refl).
  apply not_panic_bind.
  { apply not_panic_ensure_show. intros _. apply not_panic_bind; [|intros; apply not_panic_bind; [by apply not_panic_display|done]].
    apply not_panic_display, wf_divide; [apply wf_integer; lia|done..]. }
  intros _ _. apply not_panic_bind; [apply Hi; listed|intros va _]. apply not_panic_bind; [by apply not_panic_latency|intros [p50 p99] _].
  apply not_panic_bind; [apply Hi; listed|intros vp _]. apply not_panic_bind; [apply not_panic_mapping|intros po _].
  apply not_panic_bind; [apply not_panic_keys|intros [] Hpk]. apply not_panic_bind; [|intros phases _; np].
  apply not_panic_collect. intros name Hin. apply not_panic_bind; [by eapply not_panic_index|intros ? _]. by apply not_panic_phase.
Qed.

(** chrono's arithmetic, where it does not refuse. *)
Class ChronoLaws : Prop := {
  try_seconds_exact n d : try_seconds n = Some d → d = n * 10 ^ 9;
  checked_add_exact t d r : checked_add_signed t d = Some r → r = t + d;
  checked_sub_exact t d r : checked_sub_signed t d = Some r → r = t - d;
}.
Definition states (expected : option string) (d : Decimal) : Prop :=
  ∃ e x, expected = Some e ∧ decimal_from_str e = Ok x ∧ (value x == value d)%Q.
(** The evidence names the deployment it is validated for. *)
Record bound_to_deployment (utc_now : Z) (options : ValidationOptions) (o : Object) (forecast : Decimal) (s : CapacityEvidenceSummary) : Prop := {
  bd_kind : get o "artifact_kind" = Some (JString "qualification");
  bd_forecast : states (vo_expected_forecast options) forecast;
  bd_limit : states (vo_expected_limit options) (ces_ack_p99_limit_milliseconds s);
  bd_subject : ∃ expected subject, vo_expected_subject options = Some expected ∧ get o "subject" = Some (JObject subject) ∧
    ∀ k, k ∈ SUBJECT_KEYS → ∃ t, bt_get String.compare k expected = Some t ∧ t ≠ "" ∧ get subject k = Some (JString t);
  bd_configuration : ∃ expected cv n m, vo_expected_configuration options = Some expected ∧ get o "configuration" = Some cv ∧
    normalized_configuration cv "configuration" = Ok n ∧
    normalized_configuration (JObject (prod_map id JString <$> expected)) "expected configuration" = Ok m ∧
    ∀ k, k ∈ CONFIGURATION_KEYS → ∃ a b, bt_get String.compare k n = Some a ∧ bt_get String.compare k m = Some b ∧ (value a == value b)%Q;
  bd_fresh : vo_enforce_freshness options = true →
    let now := default utc_now (vo_current_time options) in
    now - vo_max_age_seconds options * 10 ^ 9 ≤ ces_generated_at s ≤ now + vo_max_future_skew_seconds options * 10 ^ 9;
}.

Lemma try_fold_unit_Ok {A} (f : unit -> A -> result anyhow unit) l u x : try_fold f tt l = Ok u → x ∈ l → f tt x = Ok tt.
Proof.
  induction l as [|y l IH]; cbn; [set_solver|]. intros ([] & Hy & Hr)%bind_Ok. rewrite elem_of_cons. intros [->|]; [done|]. by apply IH.
Qed.
Lemma bound_value_ok d e options a b c u :
  wf_decimal d → vo_allow_example options = false → check_bound_value d e options a b c = Ok u → states e d.
Proof.
  intros Hd Hx. unfold check_bound_value. destruct e as [e|]; [|by rewrite Hx].
  intros (w & Hw & He%ensure_Ok)%bind_Ok. pose proof (decimal_wf _ _ _ _ Hw) as [Hwf _]. apply decimal_iff in Hw as [Hw _].
  exists e, w. split; [done|]. split; [done|]. symmetry. by apply value_eq.
Qed.
Lemma subject_ok subject options u :
  vo_allow_example options = false → check_subject subject options = Ok u →
  ∃ expected, vo_expected_subject options = Some expected ∧
    ∀ k, k ∈ SUBJECT_KEYS → ∃ t, bt_get String.compare k expected = Some t ∧ t ≠ "" ∧ get subject k = Some (JString t).
Proof.
  intros Hx (_ & _ & Hr)%bind_Ok. destruct (vo_expected_subject options) as [expected|]; [|by rewrite Hx in Hr].
  exists expected. split; [done|]. intros k Hk. eapply try_fold_unit_Ok in Hr; [|exact Hk].
  apply bind_Ok in Hr as (t & Ht & (a & Ha%index_Ok & He%ensure_Ok)%bind_Ok).
  destruct (bt_get String.compare k expected) as [t'|]; [|done]. destruct (String.eqb_spec t' ""); [done|]. injection Ht as ->.
  exists t. split; [done|]. split; [done|]. rewrite Ha. destruct a; try done. by apply String.eqb_eq in He as ->.
Qed.
Lemma configuration_ok cfg options u :
  normalizes CONFIGURATION_KEYS cfg → vo_allow_example options = false → check_configuration cfg options = Ok u →
  ∃ expected m, vo_expected_configuration options = Some expected ∧
    normalized_configuration (JObject (prod_map id JString <$> expected)) "expected configuration" = Ok m ∧
    ∀ k, k ∈ CONFIGURATION_KEYS → ∃ a b, bt_get String.compare k cfg = Some a ∧ bt_get String.compare k m = Some b ∧ (value a == value b)%Q.
Proof.
  intros Hn Hx. unfold check_configuration. destruct (vo_expected_configuration options) as [expected|]; [|by rewrite Hx].
  intros (m & Hm & Hr)%bind_Ok. pose proof (normalized_configuration_ok _ _ _ Hm) as Hmn. exists expected, m. split; [done|]. split; [done|].
  intros k Hk. eapply try_fold_unit_Ok in Hr; [|exact Hk]. apply bind_Ok in Hr as (a & Ha%norm_Ok & (b & Hb%norm_Ok & He%ensure_Ok)%bind_Ok).
  exists a, b. split; [done|]. split; [done|]. apply value_eq; [by eapply (nz_wf _ _ Hn)|by eapply (nz_wf _ _ Hmn)|done].
Qed.
Lemma freshness_ok `{!ChronoLaws} options now g u :
  check_freshness options now g = Ok u →
  let t := default now (vo_current_time options) in
  t - vo_max_age_seconds options * 10 ^ 9 ≤ g ≤ t + vo_max_future_skew_seconds options * 10 ^ 9.
Proof.
  intros (u1 & _ & (u2 & _ & (skew & Hs%ok_or_Ok & (future & Hf%ok_or_Ok & (age & Ha%ok_or_Ok & (past & Hp%ok_or_Ok &
    (u3 & Hle%ensure_Ok & Hge%ensure_Ok)%bind_Ok)%bind_Ok)%bind_Ok)%bind_Ok)%bind_Ok)%bind_Ok)%bind_Ok.
  apply try_seconds_exact in Hs, Ha. apply checked_add_exact in Hf. apply checked_sub_exact in Hp. cbn. lia.
Qed.
(** C20: evidence the validator accepts really qualifies the deployment.  Its
    document states one measurement for each of the phases steady_state,
    reconnect and slow_database: completed, of at least a minute, with every
    offered valid share acknowledged and committed and none missing or
    unexpected, at no less than twice the forecast peak rate, with ordered
    latencies within the limit, and with at least 10 reconnections or a
    database delay of at least 10 ms where the phase is about them.  The phases
    add up to the run's duration and shares; the run as a whole also reaches
    twice the forecast, and the summary's shares, rate, multiple and latencies
    are those of the document.  Unless example evidence is explicitly allowed,
    it is qualification evidence whose subject, configuration (as numbers),
    forecast and limit are those of the deployment, and when freshness is
    enforced it was generated within the allowed age and clock skew.  All
    comparisons are between exact rationals. *)
Theorem accepted_evidence_qualifies `{!ChronoLaws} utc_now payload options s :
  validate_capacity_evidence utc_now payload options = Ok s →
  let limit := ces_ack_p99_limit_milliseconds s in
  let ack := ces_acknowledged_shares s in
  ∃ o po forecast duration phases, payload = JObject o ∧ get o "phases" = Some (JObject po) ∧
    reads o "forecast_peak_shares_per_second" forecast ∧ reads o "test_duration_seconds" duration ∧
    reads o "ack_p99_limit_milliseconds" limit ∧
    Forall2 (phase_qualifies po forecast limit) ["steady_state"; "reconnect"; "slow_database"] phases ∧
    (total_duration phases == value duration)%Q ∧ sum_of ph_ack phases = ack ∧
    counts_stated o ack ∧ latency_stated o (ces_ack_p50_milliseconds s) (ces_ack_p99_milliseconds s) limit ∧
    (value (ces_measured_shares_per_second s) * value duration == inject_Z ack)%Q ∧
    (value (ces_capacity_multiple s) * value forecast == value (ces_measured_shares_per_second s))%Q ∧
    (2 * value forecast * value duration <= inject_Z ack)%Q ∧
    (vo_allow_example options = false → bound_to_deployment utc_now options o forecast s).
Proof.
  unfold validate_capacity_evidence. intros Hr. peel Hr o Ho. destruct payload as [| | | | |o']; try done. injection Ho as ->.
  do 6 (skip Hr). peel Hr ak Hak. peel Hr u Hkind. peel Hr u1 Hex. do 3 (skip Hr). do 3 (skip Hr). peel Hr g Hg. peel Hr u2 Hfresh.
  peel Hr vs Hvs. peel Hr subject Hsub. peel Hr u3 Hsubject. do 3 (skip Hr). peel Hr vc Hvc. peel Hr cfg Hcfg. peel Hr u4 Hconf.
  peel Hr vf Hvf. peel Hr forecast Hf. peel Hr u5 Hbf. peel Hr vl Hvl. peel Hr limit Hl. peel Hr u6 Hbl. do 2 (skip Hr).
  peel Hr vt Hvt. peel Hr duration Hd. peel Hr c Hc. destruct c as [[offered ack] committed]. peel Hr u7 Hrate. peel Hr va Hva.
  peel Hr lat Hlat. destruct lat as [p50 p99]. peel Hr vp Hvp. peel Hr po Hpo. skip Hr. peel Hr phases Hph. peel Hr u8 Hdur. skip Hr. peel Hr u9 Hack. skip Hr. injection Hr as <-.
  cbn [ces_ack_p99_limit_milliseconds ces_acknowledged_shares ces_ack_p50_milliseconds ces_ack_p99_milliseconds ces_measured_shares_per_second ces_capacity_multiple].
  destruct (reads_of _ _ _ _ _ Hvf Hf) as (Rf & Wf & Pf), (reads_of _ _ _ _ _ Hvt Hd) as (Rd & Wd & Pd), (reads_of _ _ _ _ _ Hvl Hl) as (Rl & Wl & _).
  eapply latency_stated_of in Hlat; [|done..]. pose proof (counts_stated_of _ _ _ _ _ Hc) as Cs. apply counts_ok in Hc as (-> & -> & Ha).
  apply ensure_Ok in Hdur, Hack. apply Z.eqb_eq in Hack. apply ensure_show_Ok in Hrate. apply index_Ok in Hvp. destruct vp; try done. injection Hpo as ->.
  assert (Forall2 (phase_qualifies po forecast limit) REQUIRED_PHASES phases) as Hq.
  { apply collect_Forall2 in Hph. eapply Forall2_impl; [exact Hph|]. intros name p (v & Hv & Hp)%bind_Ok. by eapply phase_ok. }
  destruct (durations_fold phases (decimal_integer 0)) as [Wt Ht]; [by apply wf_integer| |].
  { clear -Hq. induction Hq as [|name p l l' Hp _ IH]; constructor; [apply (pq_wf _ _ _ _ _ Hp)|done]. }
  apply value_eq in Hdur; [|done..]. cbn zeta in Ht. rewrite Hdur, value_integer in Ht.
  assert (wf_decimal (decimal_integer ack)) as Wa by (apply wf_integer; lia).
  exists o, po, forecast, duration, phases. do 6 (split; [done|]). split; [rewrite Ht; ring|]. do 3 (split; [done|]).
  split; [by rewrite value_divide, value_integer|]. split; [apply value_divide; [by apply wf_divide|done..]|]. split.
  - apply divide_ge in Hrate; [|apply wf_divide; done|done|by apply wf_integer|done].
    refine (proj1 (value_divide_ge _ _ _ _ _ _) Hrate); done.
  - intros Hx. apply ensure_Ok in Hkind, Hex. rewrite Hx, orb_false_r in Hex. apply negb_true_iff in Hex. rewrite Hex in Hkind. cbn in Hkind.
    constructor; cbn [ces_ack_p99_limit_milliseconds ces_generated_at].
    + apply index_Ok in Hak. rewrite Hak. destruct ak; try done. cbn in Hkind. by apply String.eqb_eq in Hkind as ->.
    + by eapply bound_value_ok.
    + by eapply bound_value_ok.
    + apply subject_ok in Hsubject as (expected & He & Hk); [|done]. exists expected, subject. split; [done|]. split; [|done].
      apply index_Ok in Hvs. rewrite Hvs. destruct vs; try done. by injection Hsub as ->.
    + apply configuration_ok in Hconf as (expected & m & He & Hm & Hk); [|by eapply normalized_configuration_ok|done].
      exists expected, vc, cfg, m. apply index_Ok in Hvc. done.
    + intros He. rewrite Hkind, He in Hfresh. by apply freshness_ok in Hfresh.
Qed.
End facts.
