(* ===== verification/CapacityExample.v ===== *)
(** A qualifying evidence document, accepted by the validator, with the crates'
    parsers instantiated. *)
From Stdlib Require Import ZArith Lia QArith.
From Stdlib Require Ascii String.
From stdpp Require Import base list strings.
From S2P Require Import Prelude Order BTree Bytes Codec AuditVerify PagedWindow AuditBodyRef Vardiff Capacity CapacityFacts.

Open Scope Z_scope.

#[local] Instance example_biguint : BigUintParse :=
  {| biguint_from_str s := match nonempty_digits s with Some n => inr n | None => inl "invalid digit found in string" end |}.
Lemma digits_value_nonneg acc s n : 0 ≤ acc → digits_value acc s = Some n → 0 ≤ n.
Proof.
  revert acc. induction s as [|c s IH]; intros acc Ha; cbn; [by intros [= <-]|].
  intros (d & Hd & Hr)%bind_Some. apply (IH _) in Hr; [done|]. unfold digit in Hd. case_match; simplify_eq; lia.
Qed.
#[local] Instance example_biguint_laws : BigUintParseLaws.
Proof.
  split; intros s n; cbn; [by intros ->|]. destruct (nonempty_digits s) as [m|] eqn:Hm; [|done]. intros [= <-].
  destruct s; [done|]. by eapply digits_value_nonneg in Hm.
Qed.
#[local] Instance example_text : JsonText := {| value_to_string v := match v with JNumber literal => literal | _ => "" end |}.
#[local] Instance example_uuid : UuidCrate :=
  {| uuid_parse_str s := if (String.length s =? 36)%nat then inr (String.eqb s "00000000-0000-0000-0000-000000000000") else inl "invalid length" |}.
#[local] Instance example_chrono : Chrono :=
  {| parse_from_rfc3339 s := if String.eqb s "2026-01-01T00:00:00Z" then inr (1767225600 * 10 ^ 9) else inl "input is invalid";
     try_seconds n := if Z.abs n <=? 2 ^ 63 / 1000 then Some (n * 10 ^ 9) else None;
     checked_add_signed t d := Some (t + d);
     checked_sub_signed t d := Some (t - d) |}.
#[local] Instance example_chrono_laws : ChronoLaws.
Proof. split; cbn; intros; repeat case_match; naive_solver. Qed.

Definition hex64 : string := "00112233445566778899aabbccddeeff00112233445566778899aabbccddeeff".
Definition share_fields (shares : string) : list (string * Json) :=
  [("offered_valid_shares", JNumber shares); ("acknowledged_shares", JNumber shares);
   ("postgres_unique_committed_shares", JNumber shares); ("rejected_valid_shares", JNumber "0");
   ("missing_acknowledged_share_ids", JNumber "0"); ("unexpected_committed_share_ids", JNumber "0");
   ("acknowledged_share_ids_sha256", JString hex64); ("postgres_share_ids_sha256", JString hex64);
   ("ack_latency_milliseconds", JObject [("p50", JNumber "1.5"); ("p99", JNumber "20")])].
Definition phase_fields (duration shares : string) : list (string * Json) :=
  ("completed", JBool true) :: ("duration_seconds", JNumber duration) :: share_fields shares.
Definition example_configuration : list (string * string) :=
  [("PRISM_STRATUM_SHARE_DIFF", "1"); ("PRISM_STRATUM_VARDIFF_MIN_DIFF", "0.5"); ("PRISM_STRATUM_VARDIFF_START_DIFF", "1");
   ("PRISM_STRATUM_VARDIFF_MAX_DIFF", "1e6"); ("PRISM_STRATUM_VARDIFF_TARGET_SECONDS", "15");
   ("PRISM_STRATUM_VARDIFF_RETARGET_SECONDS", "60"); ("PRISM_STRATUM_VARDIFF_MAX_STEP_UP", "2");
   ("PRISM_STRATUM_VARDIFF_MAX_STEP_DOWN", "2"); ("PRISM_STRATUM_VARDIFF_EWMA_ALPHA", "0.3");
   ("PRISM_STRATUM_VARDIFF_RETARGET_TOLERANCE", "0"); ("PRISM_SHARE_COMMIT_TIMEOUT_SECONDS", "5");
   ("PRISM_STRATUM_SEND_TIMEOUT_SECONDS", "0"); ("PRISM_STRATUM_VARDIFF", "1"); ("PRISM_RUNTIME_WORKERS", "4");
   ("PRISM_DATABASE_MAX_CONNECTIONS", "16"); ("PRISM_STRATUM_MAX_CONNECTIONS", "1000"); ("PRISM_JOB_BUILD_EXECUTOR_WORKERS", "12")].
Definition example_subject : list (string * string) :=
  [("coordinator_image_digest", "sha256:" +:+ hex64); ("coordinator_revision", "00112233445566778899aabbccddeeff00112233");
   ("database_profile_sha256", hex64); ("postgres_server_version", "17.2")].
(** The configuration as the document writes it, with one value in another
    notation. *)
Definition example_document : Json := JObject (
  [("schema", JString SCHEMA); ("artifact_kind", JString "qualification"); ("test_path", JString "stratum-to-postgres");
   ("generated_at", JString "2026-01-01T00:00:00Z"); ("run_id", JString "6f2a0000-0000-4000-8000-000000000001");
   ("subject", JObject (prod_map id JString <$> example_subject));
   ("durability", JObject [("fsync", JString "on"); ("full_page_writes", JString "on"); ("synchronous_commit", JString "on")]);
   ("configuration", JObject (("PRISM_STRATUM_SHARE_DIFF", JNumber "1.00") :: (prod_map id JString <$> drop 1 example_configuration)));
   ("forecast_peak_shares_per_second", JNumber "50"); ("test_duration_seconds", JNumber "200.5"); ("ack_p99_limit_milliseconds", JNumber "250");
   ("phases", JObject [("steady_state", JObject (phase_fields "80.5" "8050"));
      ("reconnect", JObject (("reconnect_events", JNumber "10") :: phase_fields "60" "6000"));
      ("slow_database", JObject (("database_delay_milliseconds", JNumber "12.5") :: phase_fields "60" "7000"))])]
  ++ share_fields "21050").
Definition example_options : ValidationOptions := {|
  vo_expected_configuration := Some (foldl (fun m p => bt_insert String.compare p.1 p.2 m) [] example_configuration);
  vo_expected_subject := Some example_subject;
  vo_expected_forecast := Some "5e1";
  vo_expected_limit := Some "250.0";
  vo_current_time := Some (1767225600 * 10 ^ 9 + 3600 * 10 ^ 9);
  vo_max_age_seconds := 86400;
  vo_max_future_skew_seconds := 300;
  vo_enforce_freshness := true;
  vo_allow_example := false;
|}.
Definition example_summary : CapacityEvidenceSummary :=
  Eval vm_compute in match validate_capacity_evidence 0 example_document example_options with
    | Ok s => s
    | _ => {| ces_generated_at := 0; ces_measured_shares_per_second := decimal_integer 0; ces_capacity_multiple := decimal_integer 0;
              ces_acknowledged_shares := 0; ces_ack_p50_milliseconds := decimal_integer 0; ces_ack_p99_milliseconds := decimal_integer 0;
              ces_ack_p99_limit_milliseconds := decimal_integer 0 |}
    end.
Lemma example_accepted : validate_capacity_evidence 0 example_document example_options = Ok example_summary.
Proof. vm_compute. reflexivity. Qed.

(** The accepted document's phases are found where it states them. *)
Lemma accepted_evidence_qualifies_witness :
  validate_capacity_evidence 0 example_document example_options = Ok example_summary ∧
  ∃ o po forecast phases, example_document = JObject o ∧ get o "phases" = Some (JObject po) ∧
    Forall2 (phase_qualifies po forecast (ces_ack_p99_limit_milliseconds example_summary)) ["steady_state"; "reconnect"; "slow_database"] phases ∧
    sum_of ph_ack phases = 21050 ∧ bound_to_deployment 0 example_options o forecast example_summary.
Proof.
  split; [exact example_accepted|].
  destruct (accepted_evidence_qualifies 0 example_document example_options example_summary example_accepted)
    as (o & po & forecast & duration & phases & Hp & Hpo & _ & _ & _ & Hq & _ & Hs & _ & _ & _ & _ & _ & Hb).
  exists o, po, forecast, phases. split; [exact Hp|]. split; [exact Hpo|]. split; [exact Hq|]. split; [exact Hs|]. exact (Hb eq_refl).
Defined.
(** A document with nothing but its schema is refused, without a panic. *)
Lemma capacity_never_panics_witness :
  not_panic (validate_capacity_evidence 0 (JObject [("schema", JString SCHEMA)]) example_options).
Proof. exact (capacity_never_panics 0 (JObject [("schema", JString SCHEMA)]) example_options). Defined.
