(* ===== verification/SnapshotDelta.v ===== *)
(** The payout window of a refresh snapshot, acquired from the ledger
    (qbit-prism-server/src/ledger/window.rs, window/cut.rs,
    window/snapshot_delta.rs): the newest-first full scan, and the delta path
    that reuses the rows of the window it replaces.

    The database is Postgres.  A transaction runs at READ COMMITTED, so every
    statement sees a database of its own: [tx n] is what the [n]-th statement
    sees.  A statement is the relational meaning of its SQL text; its rows
    carry the columns the statements read.  Ownership hand-offs to blocking
    threads, the metrics and the elapsed time are left out. *)
From Stdlib Require Import ZArith Lia.
From stdpp Require Import base list strings gmap pretty.
From S2P Require Import Prelude Order WindowCut RewardWindow PagedWindow Codec.

Open Scope Z_scope.

(** * The ledger *)
(** A row of [qbit_share_ledger]; instants are microseconds, as Postgres keeps
    them.  [row_tableoid] is the partition that holds it. *)
Record Row := {
  row_share_seq : Z;
  row_share_id : string;
  row_miner_id : string;
  row_payout_order_key : string;
  row_program : string;
  row_difficulty : string;
  row_network_difficulty : string;
  row_template_height : Z;
  row_job_id : string;
  row_job_issued_at : Z;
  row_accepted_at : Z;
  row_ntime : Z;
  row_credit_policy : option string;
  row_accepted : bool;
  row_origin_node : Z;
  row_tableoid : Z;
}.
#[export] Instance row_eq_dec : EqDecision Row.
Proof. solve_decision. Defined.
(** [pg_inherits] without the children being detached, as the [xmin] of each
    child's tuple, the timeline of the writer, and the peer sync's high-water
    mark for the share stream. *)
Record Db := {
  db_rows : list Row;
  db_inherits : gmap Z string;
  db_timeline : string;
  db_peer_mark : option Z;
}.

(** [u64::try_from] and the like. *)
Definition try_from (t : int_ty) (z : Z) : result anyhow Z :=
  ok_or (checked t z) ["out of range integral type conversion attempted"].
Definition parse_u128 (s : string) : result anyhow Z := ok_or (parse_int U128 s) ["invalid digit found in string"].
Definition share_from_row (row : Row) : result anyhow AcceptedShare :=
  share_seq ← try_from U64 (row_share_seq row);
  share_difficulty ← parse_u128 (row_difficulty row);
  network_difficulty ← parse_u128 (row_network_difficulty row);
  template_height ← try_from U64 (row_template_height row);
  ntime ← try_from U32 (row_ntime row);
  Ok {| as_share_seq := share_seq; as_share_id := row_share_id row; as_miner_id := row_miner_id row;
        as_order_key := row_payout_order_key row; as_p2mr_program_hex := row_program row;
        as_share_difficulty := share_difficulty; as_network_difficulty := network_difficulty;
        as_template_height := template_height; as_job_id := row_job_id row;
        as_job_issued_at_ms := row_job_issued_at row / 1000; as_accepted_at_ms := row_accepted_at row / 1000;
        as_ntime := ntime; as_credit_policy := row_credit_policy row |}.

Record LeafWitness := { lw_tableoid : Z; lw_inherits_xmin : string; lw_timeline : string }.
#[export] Instance leaf_witness_eq_dec : EqDecision LeafWitness.
Proof. solve_decision. Defined.

Inductive WindowAcquisition :=
| Advanced | NoPrior | AnchorRegressed | CutoffRegressed | DeltaTooLarge | EmptyPrior | TailMismatch | NoEvidence
| LeafChanged | MarginTooLarge | Partial | Invariant | WitnessChanged | CountMismatch.
#[export] Instance acquisition_eq_dec : EqDecision WindowAcquisition.
Proof. solve_decision. Defined.
Record AcquisitionReport := {
  ar_outcome : WindowAcquisition;
  ar_prior_rows : nat;
  ar_delta_rows : nat;
  ar_margin_rows : nat;
  ar_retired_rows : nat;
  ar_window_rows : nat;
  ar_pages : nat;
  ar_prior_network : option Z;
}.
Definition report_full (outcome : WindowAcquisition) : AcquisitionReport := {|
  ar_outcome := outcome; ar_prior_rows := 0; ar_delta_rows := 0; ar_margin_rows := 0; ar_retired_rows := 0;
  ar_window_rows := 0; ar_pages := 0; ar_prior_network := None |}.

(** * Statements *)
(** A transaction in progress: the number of statements already run. *)
Definition sql (A : Type) : Type := nat -> result anyhow (A * nat).
#[export] Instance sql_ret : MRet sql := fun A a n => Ok (a, n).
#[export] Instance sql_bind : MBind sql := fun A B f m n => '(a, n) ← m n; f a n.
Definition sql_lift {A} (r : result anyhow A) : sql A := fun n => a ← r; Ok (a, n).

Section ledger.
(** [to_timestamp(anchor::double precision/1000)], in microseconds, and what
    each statement of the transaction sees. *)
Context (to_timestamp : Z -> Z) (tx : nat -> Db).

Definition query {A} (statement : Db -> A) : sql A := fun n => Ok (statement (tx n), S n).

(** [anchored_eligibility_sql]. *)
Definition anchored (anchor : Z) (row : Row) : bool :=
  row_accepted row && (row_accepted_at row <=? to_timestamp anchor) && (row_job_issued_at row <=? to_timestamp anchor).
(** [cut_clause]: [share_seq <= NULL] is never true. *)
Definition cut_clause (cut : option WindowCut) (row : Row) : bool :=
  match cut with
  | None => true
  | Some cut =>
      (row_origin_node row =? 0) && from_option (fun e => row_share_seq row <=? e) false (node_0 cut)
      || (row_origin_node row =? 1) && from_option (fun e => row_share_seq row <=? e) false (node_1 cut)
  end.
Definition window_eligibility (anchor : Z) (cut : option WindowCut) (row : Row) : bool :=
  anchored anchor row && cut_clause cut row.
Definition cut_values (cut : WindowCut) : result anyhow (option Z * option Z) :=
  let value entry := match entry with None => Ok None | Some e => Some <$> context "window cut entry" (try_from I64 e) end in
  n0 ← value (node_0 cut); n1 ← value (node_1 cut); Ok (n0, n1).
Definition bind_cut (cut : option WindowCut) : sql unit :=
  match cut with Some cut => _ ← sql_lift (cut_values cut); mret tt | None => mret tt end.

Definition DELTA_PAGE_ROWS : nat := 4096.
Definition seq_asc : Row -> Row -> comparison := cmp_on row_share_seq Z.compare.
Definition seq_desc : Row -> Row -> comparison := cmp_rev seq_asc.
Definition delta_page (from to anchor : Z) (db : Db) : list Row :=
  take DELTA_PAGE_ROWS (sort_by seq_asc
    (filter (fun row => anchored anchor row && (from <? row_share_seq row) && (row_share_seq row <=? to) = true) (db_rows db))).
Definition node_delta_page (from to anchor : Z) (cut : option WindowCut) (node : Z) (db : Db) : list Row :=
  take DELTA_PAGE_ROWS (sort_by seq_asc
    (filter (fun row => window_eligibility anchor cut row && (row_origin_node row =? node) && (from <? row_share_seq row)
                        && (row_share_seq row <=? to) = true) (db_rows db))).
Definition older_page (below anchor : Z) (cut : option WindowCut) (db : Db) : list Row :=
  take DELTA_PAGE_ROWS (sort_by seq_desc
    (filter (fun row => window_eligibility anchor cut row && (row_share_seq row <? below) = true) (db_rows db))).

Definition count_between (first last anchor : Z) (cut : option WindowCut) (db : Db) : Z :=
  Z.of_nat (length (filter (fun row => (first <=? row_share_seq row) && (row_share_seq row <=? last)
                                       && window_eligibility anchor cut row = true) (db_rows db))).
Definition leaf_rows (first last anchor : Z) (cut : option WindowCut) (expected_count : option Z) (db : Db) : list LeafWitness :=
  a ← filter (fun row => (row_share_seq row =? first) && window_eligibility anchor cut row = true) (db_rows db);
  b ← filter (fun row => (row_share_seq row =? last) && (row_tableoid row =? row_tableoid a)
                         && window_eligibility anchor cut row = true) (db_rows db);
  match db_inherits db !! row_tableoid a with
  | Some xmin =>
      if from_option (fun n => n =? count_between first last anchor cut db) true expected_count
      then [{| lw_tableoid := row_tableoid a; lw_inherits_xmin := xmin; lw_timeline := db_timeline db |}] else []
  | None => []
  end.
Definition leaf_witness (first last anchor : Z) (cut : option WindowCut) (expected_count : option Z) : sql (option LeafWitness) :=
  _ ← bind_cut cut;
  query (fun db => head (leaf_rows first last anchor cut expected_count db)).

(** * The retained window *)
Record RetainedShares := {
  rs_network : Z;
  rs_anchor_ms : Z;
  rs_cutoff : Z;
  rs_cut : option WindowCut;
  rs_shares : list AcceptedShare;
  rs_leaf : option LeafWitness;
}.
Definition MAX_DELTA_SLOTS : Z := 64 * 4096.
Definition MAX_MARGIN_PAGES : nat := 16.

(** One node's [share_seq] slots above its retained entry and at or above the
    retained first row, up to its fresh entry. *)
Definition slot_range (floor : Z) (retained fresh : option Z) : option (Z * Z) :=
  high ← fresh;
  let low := Z.max (default 0 retained) floor in
  if low <? high then Some (low, high) else None.
Definition cut_delta_slots (retained cut : WindowCut) (first : option Z) : result anyhow Z :=
  let floor := from_option (fun first => saturating_sub U64 first 1) 0 first in
  match slot_range floor (node_0 retained) (node_0 cut), slot_range floor (node_1 retained) (node_1 cut) with
  | None, None => Ok 0
  | Some (low, high), None | None, Some (low, high) => Ok (high - low)
  | Some (low_0, high_0), Some (low_1, high_1) =>
      let overlap := saturating_sub U64 (Z.min high_0 high_1) (Z.max low_0 low_1) in
      sum ← arith U64 ((high_0 - low_0) + (high_1 - low_1));
      arith U64 (sum - overlap)
  end.

Definition refusal (prior : RetainedShares) (anchor cutoff : Z) (cut : option WindowCut) : result anyhow (option WindowAcquisition) :=
  if anchor <? rs_anchor_ms prior then Ok (Some AnchorRegressed) else
  moved ← match rs_cut prior, cut with
          | None, None =>
              if cutoff <? rs_cutoff prior then Ok (Some CutoffRegressed)
              else if MAX_DELTA_SLOTS <? cutoff - rs_cutoff prior then Ok (Some DeltaTooLarge) else Ok None
          | Some retained, Some cut =>
              if negb (covers cut retained) then Ok (Some CutoffRegressed) else
              slots ← cut_delta_slots retained cut (as_share_seq <$> head (rs_shares prior));
              if MAX_DELTA_SLOTS <? slots then Ok (Some DeltaTooLarge) else Ok None
          | _, _ => Ok (Some CutoffRegressed)
          end;
  match moved with
  | Some outcome => Ok (Some outcome)
  | None =>
      match head (rs_shares prior), last (rs_shares prior) with
      | Some first, Some last =>
          if as_share_seq first =? 0 then Ok (Some EmptyPrior) else
          if (match rs_cut prior with
              | None => negb (as_share_seq last =? rs_cutoff prior)
              | Some retained => negb (bool_decide (top retained = Some (as_share_seq last)))
              end) then Ok (Some TailMismatch) else
          if bool_decide (rs_leaf prior = None) then Ok (Some NoEvidence) else Ok None
      | _, _ => Ok (Some EmptyPrior)
      end
  end.

(** * The newest-first fold *)
(** The weight still unmet and the rows taken, the crossing row included. *)
Fixpoint fold_newest (remaining : Z) (newest_first : list AcceptedShare) : Z * nat :=
  match newest_first with
  | [] => (remaining, 0%nat)
  | share :: older =>
      let remaining := saturating_sub U128 remaining (as_share_difficulty share) in
      if remaining =? 0 then (0, 1%nat) else
      let '(remaining, taken) := fold_newest remaining older in (remaining, S taken)
  end.
(** [windows(2).all(...)]. *)
Fixpoint strictly_ascending (shares : list AcceptedShare) : bool :=
  match shares with
  | a :: (b :: _) as rest => (as_share_seq a <? as_share_seq b) && strictly_ascending rest
  | _ => true
  end.
Definition fold_weight (weight : Z) (shares : list AcceptedShare) : Z :=
  foldl (fun left share => saturating_sub U128 left (as_share_difficulty share)) weight shares.
Definition window_invariant (shares : list AcceptedShare) (weight : Z) : bool :=
  let without_first := fold_weight weight (drop 1 shares) in
  let crossing :=
    match head shares with
    | Some first => (0 <? without_first) && (saturating_sub U128 without_first (as_share_difficulty first) =? 0)
    | None => false
    end in
  strictly_ascending shares && crossing.

(** * Reading rows *)
Definition decode (rows : list Row) : sql (list AcceptedShare) := sql_lift (collect share_from_row rows).
(** The ascending key-set pages of a delta, until the cursor reaches the end
    of the range or no row is left; every page moves the cursor. *)
Fixpoint read_delta (fuel : nat) (page : Z -> Db -> list Row) (binds : option WindowCut) (to cursor : Z)
    (delta : list AcceptedShare) (pages : nat) : sql (list AcceptedShare * nat) :=
  match fuel with
  | O => mret (delta, pages)
  | S fuel =>
      if negb (cursor <? to) then mret (delta, pages) else
      _ ← bind_cut binds;
      rows ← query (page cursor);
      match rows with
      | [] => mret (delta, pages)
      | _ =>
          more ← decode rows;
          let delta := delta ++ more in
          last ← sql_lift (ok_or (last delta) ["decoded delta page is empty"]);
          cursor ← sql_lift (try_from I64 (as_share_seq last));
          read_delta fuel page binds to cursor delta (S pages)
      end
  end.

Record Margin := { mg_rows : list AcceptedShare; mg_remaining : Z }.
Definition margin_to (remaining : Z) : Margin := {| mg_rows := []; mg_remaining := remaining |}.
Definition margin_take (m : Margin) (share : AcceptedShare) : Margin :=
  {| mg_rows := mg_rows m ++ [share]; mg_remaining := saturating_sub U128 (mg_remaining m) (as_share_difficulty share) |}.
(** The rows of one page, up to the one that meets the target; a row after it
    is not decoded. *)
Fixpoint margin_page (m : Margin) (rows : list Row) : result anyhow Margin :=
  match rows with
  | [] => Ok m
  | row :: rows =>
      share ← share_from_row row;
      let m := margin_take m share in
      if mg_remaining m =? 0 then Ok m else margin_page m rows
  end.
Inductive MarginOutcome := MarginRead (m : Margin) | MarginRefused (outcome : WindowAcquisition).
Fixpoint margin_loop (pages_left : nat) (anchor : Z) (cut : option WindowCut) (cursor : Z) (m : Margin) (pages : nat)
  : sql (MarginOutcome * nat) :=
  if negb (0 <? mg_remaining m) then mret (MarginRead m, pages) else
  match pages_left with
  | O => mret (MarginRefused MarginTooLarge, pages)
  | S pages_left =>
      _ ← bind_cut cut;
      rows ← query (older_page cursor anchor cut);
      match rows with
      | [] => mret (MarginRead m, pages)
      | _ =>
          m ← sql_lift (margin_page m rows);
          last ← sql_lift (ok_or (last (mg_rows m)) ["decoded margin page is empty"]);
          cursor ← sql_lift (try_from I64 (as_share_seq last));
          margin_loop pages_left anchor cut cursor m (S pages)
      end
  end.
Definition report_margin (report : AcquisitionReport) (rows retired pages : nat) : AcquisitionReport := {|
  ar_outcome := ar_outcome report; ar_prior_rows := ar_prior_rows report; ar_delta_rows := ar_delta_rows report;
  ar_margin_rows := rows; ar_retired_rows := retired; ar_window_rows := ar_window_rows report;
  ar_pages := pages; ar_prior_network := ar_prior_network report |}.
Definition report_pages (report : AcquisitionReport) (pages : nat) : AcquisitionReport :=
  report_margin report (ar_margin_rows report) (ar_retired_rows report) pages.
Definition walk_margin (m : Margin) (first anchor : Z) (cut : option WindowCut) (retired : nat) (report : AcquisitionReport)
  : sql (MarginOutcome * AcquisitionReport) :=
  '(outcome, pages) ← margin_loop MAX_MARGIN_PAGES anchor cut first m (ar_pages report);
  match outcome with
  | MarginRefused outcome => mret (MarginRefused outcome, report_pages report pages)
  | MarginRead m =>
      let report := report_margin report (length (mg_rows m)) retired pages in
      if 0 <? mg_remaining m then mret (MarginRefused Partial, report) else mret (MarginRead m, report)
  end.

(** * The delta path *)
Inductive Advance :=
| AdvancedTo (shares : list AcceptedShare) (leaf : LeafWitness) (report : AcquisitionReport)
| Rejected (report : AcquisitionReport).
Definition reject (report : AcquisitionReport) (outcome : WindowAcquisition) : Advance :=
  Rejected {| ar_outcome := outcome; ar_prior_rows := ar_prior_rows report; ar_delta_rows := ar_delta_rows report;
    ar_margin_rows := ar_margin_rows report; ar_retired_rows := ar_retired_rows report;
    ar_window_rows := ar_window_rows report; ar_pages := ar_pages report; ar_prior_network := ar_prior_network report |}.
Definition report_delta (report : AcquisitionReport) (rows pages : nat) : AcquisitionReport := {|
  ar_outcome := ar_outcome report; ar_prior_rows := ar_prior_rows report; ar_delta_rows := rows;
  ar_margin_rows := ar_margin_rows report; ar_retired_rows := ar_retired_rows report;
  ar_window_rows := ar_window_rows report; ar_pages := pages; ar_prior_network := ar_prior_network report |}.
Definition report_window (report : AcquisitionReport) (rows : nat) : AcquisitionReport := {|
  ar_outcome := ar_outcome report; ar_prior_rows := ar_prior_rows report; ar_delta_rows := ar_delta_rows report;
  ar_margin_rows := ar_margin_rows report; ar_retired_rows := ar_retired_rows report;
  ar_window_rows := rows; ar_pages := ar_pages report; ar_prior_network := ar_prior_network report |}.

Definition prove_merged (merged : list AcceptedShare) (last anchor : Z) (cut : option WindowCut) (witness : LeafWitness)
    (report : AcquisitionReport) : sql Advance :=
  first ← sql_lift (ok_or (head merged) ["merged window is empty"]);
  first ← sql_lift (try_from I64 (as_share_seq first));
  seen ← leaf_witness first last anchor cut None;
  if negb (bool_decide (seen = Some witness)) then mret (reject report WitnessChanged) else
  count ← sql_lift (try_from I64 (Z.of_nat (length merged)));
  seen ← leaf_witness first last anchor cut (Some count);
  if negb (bool_decide (seen = Some witness)) then mret (reject report CountMismatch) else
  mret (AdvancedTo merged witness report).

(** The end of either advance: the invariant check and the proof. *)
Definition finish_merged (merged : list AcceptedShare) (weight anchor : Z) (last : list AcceptedShare -> result anyhow Z)
    (cut : option WindowCut) (witness : LeafWitness) (report : AcquisitionReport) : sql Advance :=
  if negb (window_invariant merged weight) then mret (reject report Invariant) else
  let report := report_window report (length merged) in
  last ← sql_lift (last merged);
  prove_merged merged last anchor cut witness report.

(** The rows kept of the delta and of the retained window. *)
Record Merge := { mr_margin : Margin; mr_delta_start : nat; mr_start : nat }.
Definition merge_delta (prior delta : list AcceptedShare) (weight : Z) : Merge :=
  let '(remaining, taken) := fold_newest weight (reverse delta) in
  let delta_start := (length delta - taken)%nat in
  let '(remaining, start) :=
    if 0 <? remaining then
      let '(remaining, taken) := fold_newest remaining (reverse prior) in (remaining, (length prior - taken)%nat)
    else (remaining, length prior) in
  {| mr_margin := margin_to remaining; mr_delta_start := delta_start; mr_start := start |}.
(** Margin (reversed), the kept retained suffix, the kept delta suffix; the
    two ways the source builds it differ in allocation only. *)
Definition assemble_merge (prior delta : list AcceptedShare) (m : Merge) (margin : Margin) : list AcceptedShare :=
  reverse (mg_rows margin) ++ drop (mr_start m) prior ++ drop (mr_delta_start m) delta.

Definition first_seq (prior : RetainedShares) : result anyhow Z :=
  first ← expect (rs_shares prior !! 0%nat) "index out of bounds"; try_from I64 (as_share_seq first).
Definition last_seq (shares : list AcceptedShare) : result anyhow Z :=
  last ← ok_or (last shares) ["merged window is empty"]; try_from I64 (as_share_seq last).

(** The retained window and the delta, both ascending and disjoint. *)
Fixpoint merge_rows (fuel : nat) (old new : list AcceptedShare) : result anyhow (list AcceptedShare) :=
  match fuel with
  | O => Ok []
  | S fuel =>
      match old, new with
      | retained :: old', late :: new' =>
          if as_share_seq retained =? as_share_seq late then Err ["a delta row repeats retained share_seq " +:+ pretty (as_share_seq late)] else
          if as_share_seq retained <? as_share_seq late
          then rest ← merge_rows fuel old' new; Ok (retained :: rest)
          else rest ← merge_rows fuel old new'; Ok (late :: rest)
      | retained :: old', [] => rest ← merge_rows fuel old' []; Ok (retained :: rest)
      | [], late :: new' => rest ← merge_rows fuel [] new'; Ok (late :: rest)
      | [], [] => Ok []
      end
  end.
Record CutMerge := { cm_kept : list AcceptedShare; cm_margin : Margin; cm_retired : nat }.
Definition share_asc : AcceptedShare -> AcceptedShare -> comparison := cmp_on as_share_seq Z.compare.
(** [sort_unstable_by_key] may order rows of one [share_seq] either way; such a
    window fails its invariant whichever it is. *)
Definition merge_cut_delta (prior delta : list AcceptedShare) (weight : Z) : result anyhow CutMerge :=
  let delta := sort_by share_asc delta in
  let appends :=
    match last prior, head delta with
    | Some last, Some first => as_share_seq last <? as_share_seq first
    | _, _ => true
    end in
  merged ← (if appends then Ok (prior ++ delta) else merge_rows (length prior + length delta) prior delta);
  let '(remaining, taken) := fold_newest weight (reverse merged) in
  let start := (length merged - taken)%nat in
  Ok {| cm_kept := drop start merged; cm_margin := margin_to remaining; cm_retired := start |}.
Definition assemble_cut (m : CutMerge) (margin : Margin) : list AcceptedShare := reverse (mg_rows margin) ++ cm_kept m.

(** One node's part of the delta, above its retained entry and at or above the
    retained first row. *)
Definition node_delta (first anchor : Z) (retained_cut cut : WindowCut) (acc : list AcceptedShare * nat) (node : Z)
  : sql (list AcceptedShare * nat) :=
  let '(delta, pages) := acc in
  entry ← sql_lift (map_err (fun _ => ["unknown node"]) (cut_get cut node));
  match entry with
  | None => mret (delta, pages)
  | Some high =>
      high ← sql_lift (try_from I64 high);
      retained ← sql_lift (map_err (fun _ => ["unknown node"]) (cut_get retained_cut node));
      low ← sql_lift (try_from I64 (default 0 retained));
      let cursor := Z.max low (first - 1) in
      read_delta (Z.to_nat (high - cursor)) (fun cursor => node_delta_page cursor high anchor (Some cut) node) (Some cut) high cursor delta pages
  end.
Definition advance_in_cut (prior : RetainedShares) (weight anchor : Z) (cut : WindowCut) (report : AcquisitionReport) : sql Advance :=
  retained_cut ← sql_lift (ok_or (rs_cut prior) ["a retained dual-writer window has no cut"]);
  first ← sql_lift (first_seq prior);
  last ← sql_lift (last ← expect (last (rs_shares prior)) "index out of bounds"; try_from I64 (as_share_seq last));
  witness ← leaf_witness first last anchor (Some cut) None;
  match witness with
  | None => mret (reject report LeafChanged)
  | Some witness =>
      if negb (bool_decide (rs_leaf prior = Some witness)) then mret (reject report LeafChanged) else
      acc ← node_delta first anchor retained_cut cut ([], ar_pages report) 0;
      '(delta, pages) ← node_delta first anchor retained_cut cut acc 1;
      let report := report_delta report (length delta) pages in
      merge ← sql_lift (merge_cut_delta (rs_shares prior) delta weight);
      '(outcome, report) ← walk_margin (cm_margin merge) first anchor (Some cut) (cm_retired merge) report;
      match outcome with
      | MarginRefused outcome => mret (reject report outcome)
      | MarginRead margin => finish_merged (assemble_cut merge margin) weight anchor last_seq (Some cut) witness report
      end
  end.

(** [snapshot_delta::advance]. *)
Definition delta_advance (prior : RetainedShares) (weight anchor cutoff : Z) (cut : option WindowCut) : sql Advance :=
  cutoff_u64 ← sql_lift (try_from U64 cutoff);
  let report := {| ar_outcome := Advanced; ar_prior_rows := length (rs_shares prior); ar_delta_rows := 0; ar_margin_rows := 0;
    ar_retired_rows := 0; ar_window_rows := 0; ar_pages := 0; ar_prior_network := Some (rs_network prior) |} in
  refused ← sql_lift (refusal prior anchor cutoff_u64 cut);
  match refused, cut with
  | Some outcome, _ => mret (reject report outcome)
  | None, Some cut => advance_in_cut prior weight anchor cut report
  | None, None =>
      first ← sql_lift (first_seq prior);
      witness ← leaf_witness first cutoff anchor None None;
      match witness with
      | None => mret (reject report LeafChanged)
      | Some witness =>
          if negb (bool_decide (rs_leaf prior = Some witness)) then mret (reject report LeafChanged) else
          from ← sql_lift (try_from I64 (rs_cutoff prior));
          '(delta, pages) ← read_delta (Z.to_nat (cutoff - from)) (fun cursor => delta_page cursor cutoff anchor) None cutoff from [] (ar_pages report);
          let report := report_delta report (length delta) pages in
          let merge := merge_delta (rs_shares prior) delta weight in
          '(outcome, report) ← walk_margin (mr_margin merge) first anchor None (mr_start merge) report;
          match outcome with
          | MarginRefused outcome => mret (reject report outcome)
          | MarginRead margin =>
              finish_merged (assemble_merge (rs_shares prior) delta merge margin) weight anchor (fun _ => Ok cutoff) None witness report
          end
      end
  end.

(** * The full scan *)
(** A page moves the cursor down, and no row with a negative sequence decodes. *)
Fixpoint scan_loop (fuel : nat) (anchor : Z) (cut : option WindowCut) (cursor : Z) (scan : Margin) (pages : nat) : sql (Margin * nat) :=
  match fuel with
  | O => mret (scan, pages)
  | S fuel =>
      if negb (0 <? mg_remaining scan) then mret (scan, pages) else
      _ ← bind_cut cut;
      rows ← query (older_page cursor anchor cut);
      match rows with
      | [] => mret (scan, pages)
      | _ =>
          scan ← sql_lift (margin_page scan rows);
          last ← sql_lift (ok_or (last (mg_rows scan)) ["page is empty"]);
          cursor ← sql_lift (try_from I64 (as_share_seq last));
          scan_loop fuel anchor cut cursor scan (S pages)
      end
  end.
Record Acquired := { aq_shares : list AcceptedShare; aq_leaf : option LeafWitness; aq_report : AcquisitionReport }.
(** The window's top and the first cursor: the accepted cutoff, or with a cut
    the higher of its two entries. *)
Definition scan_top (cutoff cursor : Z) (cut : option WindowCut) : result anyhow (option Z * Z) :=
  match cut with
  | None => Ok (Some cutoff, cursor)
  | Some cut =>
      top ← match top cut with None => Ok None | Some t => Some <$> try_from I64 t end;
      cursor ← arith I64 (default 0 top + 1);
      Ok (top, cursor)
  end.
Definition full_scan (weight anchor cutoff cursor : Z) (cut : option WindowCut) (report : AcquisitionReport) : sql Acquired :=
  '(top, cursor) ← sql_lift (scan_top cutoff cursor cut);
  before ← match top with Some top => leaf_witness top top anchor cut None | None => mret None end;
  '(scan, pages) ← scan_loop (S (Z.to_nat cursor)) anchor cut cursor (margin_to weight) (ar_pages report);
  let shares := reverse (mg_rows scan) in
  _ ← sql_lift (try_from U64 cutoff);
  after ← match head shares, top with
          | Some first, Some top =>
              first ← sql_lift (try_from I64 (as_share_seq first));
              count ← sql_lift (try_from I64 (Z.of_nat (length shares)));
              leaf_witness first top anchor cut (Some count)
          | _, _ => mret None
          end;
  let leaf := match after with Some w => if bool_decide (before = Some w) then Some w else None | None => None end in
  mret {| aq_shares := shares; aq_leaf := leaf; aq_report := report_window (report_pages report pages) (length shares) |}.

(** [snapshot_with_admission] from its second transaction on, once the cut is
    known: the delta path when a retired window is offered, else the scan. *)
Definition acquire (prior : option RetainedShares) (weight anchor cutoff : Z) (cut : option WindowCut) : sql Acquired :=
  cursor ← sql_lift (ok_or (checked_add I64 cutoff 1) ["share sequence exhausted"]);
  advanced ← match prior with
             | Some prior => delta_advance prior weight anchor cutoff cut
             | None => mret (Rejected (report_full NoPrior))
             end;
  match advanced with
  | AdvancedTo shares leaf report =>
      _ ← sql_lift (try_from U64 cutoff);
      mret {| aq_shares := shares; aq_leaf := Some leaf; aq_report := report |}
  | Rejected report => full_scan weight anchor cutoff cursor cut report
  end.

(** * The cut *)
Definition accepted_cutoff (db : Db) : Z :=
  foldl Z.max 0 (row_share_seq <$> filter (fun row => row_accepted row = true) (db_rows db)).
Definition newest (p : Row -> bool) (db : Db) : option Z :=
  row_share_seq <$> head (sort_by seq_desc (filter (fun row => p row = true) (db_rows db))).
(** [OWN_CUT_SQL]: from the retained entry on, else over all of this node's rows. *)
Definition own_cut (node anchor : Z) (retained : option Z) (db : Db) : option Z :=
  let own row := (row_origin_node row =? node) && anchored anchor row in
  match newest (fun row => own row && from_option (fun e => e <=? row_share_seq row) false retained) db with
  | Some e => Some e
  | None => newest own db
  end.
Definition positive_entry (value : Z) : result anyhow (option Z) :=
  match checked U64 value with
  | Some entry => Ok (if entry =? 0 then None else Some entry)
  | None => Err ["negative share_seq " +:+ pretty value +:+ " where a window cut entry belongs"]
  end.
Record PeerCut := { pc_entry : option Z; pc_mark : option Z; pc_pending : bool }.
Definition peer_cut_row (peer high_water anchor : Z) (db : Db) : option Z * option Z * option Z :=
  let bounded row := (row_origin_node row =? peer) && (row_share_seq row <=? high_water)
                     && from_option (fun mark => row_share_seq row <=? mark) false (db_peer_mark db) in
  (newest (fun row => bounded row && anchored anchor row) db,
   Z.min high_water <$> db_peer_mark db,
   newest (fun row => bounded row && row_accepted row) db).
Definition read_peer_cut (peer : Z) (high_water : option Z) (anchor : Z) : sql PeerCut :=
  match high_water with
  | None => mret {| pc_entry := None; pc_mark := None; pc_pending := false |}
  | Some high_water =>
      '(entry, mark, newest) ← query (peer_cut_row peer high_water anchor);
      positive ← sql_lift match entry with Some e => positive_entry e | None => Ok None end;
      mret {| pc_entry := positive; pc_mark := mark;
              pc_pending := match newest with Some n => from_option (fun e => e <? n) true entry | None => false end |}
  end.
Definition take_cut (node : Z) (own_bound peer_high_water : option Z) (anchor : Z) : sql (WindowCut * PeerCut) :=
  own ← sql_lift match own_bound with Some e => positive_entry e | None => Ok None end;
  peer ← read_peer_cut (1 - node) peer_high_water anchor;
  cut ← sql_lift (map_err (fun _ => ["zero window cut entry"])
          (if node =? 0 then cut_new own (pc_entry peer) else cut_new (pc_entry peer) own));
  mret (cut, peer).
End ledger.

(** [cut_columns] and [cut_from_columns]: a stored cut, [0] for no entry. *)
Definition cut_columns (cut : option WindowCut) : result anyhow (option Z * option Z) :=
  match cut with
  | None => Ok (None, None)
  | Some cut => '(n0, n1) ← cut_values cut; Ok (Some (default 0 n0), Some (default 0 n1))
  end.
Definition cut_from_columns (n0 n1 : option Z) : result anyhow (option WindowCut) :=
  match n0, n1 with
  | None, None => Ok None
  | Some n0, Some n1 =>
      n0 ← positive_entry n0; n1 ← positive_entry n1;
      Some <$> map_err (fun _ => ["a window cut entry of 0 is not a share_seq"]) (cut_new n0 n1)
  | _, _ => Err ["window cut columns are half set"]
  end.
