(* ===== verification/SnapshotFacts.v ===== *)
(** A window acquired by the delta path, or proved by the full scan, is exactly
    the newest rows of the anchored ledger down to the row that meets the
    target weight, as of the last statement of its transaction; and it is
    evidence the next refresh may advance from. *)
From Stdlib Require Import ZArith Lia.
From stdpp Require Import base list strings gmap sorting pretty.
From S2P Require Import Prelude Order WindowCut RewardWindow PagedWindow Codec SnapshotDelta.
From Stdlib Require Import Sorting.Permutation.

Open Scope Z_scope.

#[local] Instance seq_asc_order : CmpOrder seq_asc.
Proof. unfold seq_asc. apply _. Qed.
Lemma seq_asc_le a b : cmp_le seq_asc a b ↔ row_share_seq a ≤ row_share_seq b.
Proof. apply Z.compare_le_iff. Qed.

(** * Statements *)
Lemma sql_bind_Ok {A B} (m : sql A) (f : A -> sql B) n b n' :
  (m ≫= f) n = Ok (b, n') ↔ ∃ a n1, m n = Ok (a, n1) ∧ f a n1 = Ok (b, n').
Proof.
  unfold mbind, sql_bind. rewrite bind_Ok. split.
  - intros ([a n1] & ? & ?). eauto.
  - intros (a & n1 & ? & ?). by exists (a, n1).
Qed.
Lemma sql_lift_Ok {A} (r : result anyhow A) n a n' : sql_lift r n = Ok (a, n') ↔ r = Ok a ∧ n' = n.
Proof. unfold sql_lift. rewrite bind_Ok. split; [intros (? & ? & [= <- <-]); done|]. intros [-> ->]. by exists a. Qed.
Lemma sql_ret_Ok {A} (a b : A) n n' : (mret a : sql A) n = Ok (b, n') ↔ b = a ∧ n' = n.
Proof. unfold mret, sql_ret. naive_solver. Qed.
Lemma try_from_Ok t z w : try_from t z = Ok w ↔ w = z ∧ fits t z = true.
Proof. unfold try_from. rewrite ok_or_Ok. unfold checked. destruct (fits t z); naive_solver. Qed.
Lemma query_Ok tx {A} (f : Db -> A) n a n' : query tx f n = Ok (a, n') ↔ a = f (tx n) ∧ n' = S n.
Proof. unfold query. naive_solver. Qed.
Lemma bind_cut_Ok cut n u n' : bind_cut cut n = Ok (u, n') → n' = n.
Proof.
  destruct cut; cbn; [|by intros [_ ->]%sql_ret_Ok].
  intros (a & n1 & [_ ->]%sql_lift_Ok & [_ ->]%sql_ret_Ok)%sql_bind_Ok. done.
Qed.
(** Name the parts of a successful step. *)
Ltac run H := let a := fresh "a" in let n := fresh "n" in let Ha := fresh "Ha" in apply sql_bind_Ok in H as (a & n & Ha & H).
Ltac run_as H a n Ha := apply sql_bind_Ok in H as (a & n & Ha & H).
Tactic Notation "lift" ident(H) := apply sql_lift_Ok in H as [H ->].

Lemma share_from_row_seq row s : share_from_row row = Ok s → as_share_seq s = row_share_seq row.
Proof.
  unfold share_from_row. intros (seq & [-> _]%try_from_Ok & Hr)%bind_Ok. repeat (apply bind_Ok in Hr as (? & _ & Hr)). by injection Hr as <-.
Qed.
Lemma collect_seqs rows shares : Forall2 (fun r s => share_from_row r = Ok s) rows shares → row_share_seq <$> rows = as_share_seq <$> shares.
Proof. induction 1 as [|r s rows shares Hr Hl IH]; [done|]. cbn. by rewrite IH, (share_from_row_seq _ _ Hr). Qed.

(** * The newest-first fold *)
Definition weighs (s : AcceptedShare) : Prop := 0 ≤ as_share_difficulty s.
Abbreviation weight_sum := (sum_of as_share_difficulty).
Lemma saturating_down w d : 0 ≤ w ≤ int_max U128 → 0 ≤ d → saturating_sub U128 w d = Z.max 0 (w - d).
Proof. unfold saturating_sub, saturating. cbn [int_min]. change (int_min U128) with 0. lia. Qed.
Lemma fold_weight_sum w l : 0 ≤ w ≤ int_max U128 → Forall weighs l → fold_weight w l = Z.max 0 (w - weight_sum l).
Proof.
  unfold fold_weight. intros Hw Hl. revert w Hw. induction Hl as [|s l Hs Hl IH]; intros w Hw; cbn [foldl]; [rewrite sum_of_nil; lia|].
  unfold weighs in Hs. rewrite saturating_down, IH, sum_of_cons by (done || lia). pose proof (sum_of_nonneg as_share_difficulty l) as Hn.
  rewrite Forall_forall in Hl. specialize (Hn Hl). lia.
Qed.
(** The fold over rows that meet the target with the last of them. *)
Lemma fold_newest_crossing w l s :
  0 ≤ w ≤ int_max U128 → Forall weighs l → weighs s → weight_sum l < w ≤ weight_sum l + as_share_difficulty s →
  fold_newest w (l ++ [s]) = (0, S (length l)).
Proof.
  intros Hw Hl Hs. revert w Hw. induction Hl as [|x l Hx Hl IH]; intros w Hw Hc; cbn [fold_newest app length].
  - rewrite sum_of_nil in Hc. rewrite saturating_down by done. replace (Z.max 0 (w - as_share_difficulty s)) with 0 by lia. done.
  - rewrite sum_of_cons in Hc. rewrite saturating_down by done. pose proof (sum_of_nonneg as_share_difficulty l) as Hn.
    rewrite Forall_forall in Hl. specialize (Hn Hl). unfold weighs in Hx.
    destruct (Z.eqb_spec (Z.max 0 (w - as_share_difficulty x)) 0); [lia|]. rewrite IH by lia. done.
Qed.
Lemma strictly_ascending_sorted l : strictly_ascending l = true → StronglySorted seq_lt l.
Proof.
  induction l as [|a l IH]; [constructor|]. destruct l as [|b l]; [repeat constructor|].
  cbn [strictly_ascending]. intros [Hab%Z.ltb_lt Hl]%andb_true_iff. specialize (IH Hl). constructor; [done|].
  apply StronglySorted_inv in IH as [_ Hf]. constructor; [done|]. eapply Forall_impl; [exact Hf|]. unfold seq_lt in *. intros; lia.
Qed.
Lemma window_invariant_fold l w :
  0 ≤ w ≤ int_max U128 → Forall weighs l → window_invariant l w = true →
  ∃ first rest, l = first :: rest ∧ StronglySorted seq_lt l ∧
    fold_newest w (reverse l) = (0, length l).
Proof.
  intros Hw Hl. unfold window_invariant. intros [Ha%strictly_ascending_sorted Hc]%andb_true_iff.
  destruct l as [|s l]; [done|]. exists s, l. split; [done|]. split; [done|]. cbn [head drop] in Hc. rewrite drop_0 in Hc.
  apply Forall_cons in Hl as [Hs Hl]. apply andb_true_iff in Hc as [Hp%Z.ltb_lt Hz%Z.eqb_eq].
  rewrite fold_weight_sum in Hp, Hz by done. pose proof (sum_of_nonneg as_share_difficulty l) as Hn.
  pose proof (proj1 (Forall_forall _ _) Hl) as Hl'. specialize (Hn Hl'). unfold weighs in Hs. rewrite saturating_down in Hz; [|lia|done].
  rewrite reverse_cons. cbn [length]. rewrite <- (length_reverse l). apply fold_newest_crossing; try done.
  - by apply Forall_reverse.
  - assert (weight_sum (reverse l) = weight_sum l) as -> by (apply sum_of_perm, reverse_Permutation). lia.
Qed.

(** * Rows read *)
Section facts.
Context (to_timestamp : Z -> Z) (tx : nat -> Db).
Abbreviation eligibility := (window_eligibility to_timestamp).

(** A share decoded from an eligible row some statement of [n, n'[ saw. *)
Definition read_share (anchor : Z) (cut : option WindowCut) (n n' : nat) (s : AcceptedShare) : Prop :=
  ∃ i r, (n ≤ i < n')%nat ∧ r ∈ db_rows (tx i) ∧ eligibility anchor cut r = true ∧ share_from_row r = Ok s.
Lemma read_share_weaken anchor cut n n' m m' s : (m ≤ n)%nat → (n' ≤ m')%nat → read_share anchor cut n n' s → read_share anchor cut m m' s.
Proof. intros ?? (i & r & ? & ?). exists i, r. split; [lia|done]. Qed.
Lemma read_shares_weaken anchor cut n n' m m' l :
  (m ≤ n)%nat → (n' ≤ m')%nat → Forall (read_share anchor cut n n') l → Forall (read_share anchor cut m m') l.
Proof. intros ?? Hl. eapply Forall_impl; [exact Hl|]. intros s. by apply read_share_weaken. Qed.

Lemma collect_read anchor cut n rows shares :
  (∀ r, r ∈ rows → r ∈ db_rows (tx n) ∧ eligibility anchor cut r = true) → collect share_from_row rows = Ok shares →
  Forall (read_share anchor cut n (S n)) shares.
Proof.
  intros Hr Hc%collect_Forall2. apply Forall_forall. intros s Hs. apply list_elem_of_lookup in Hs as [i Hi].
  destruct (Forall2_lookup_r _ _ _ _ _ Hc Hi) as (r & Hri & Hd). apply list_elem_of_lookup_2 in Hri. destruct (Hr r Hri).
  exists n, r. split; [lia|done].
Qed.
Lemma delta_page_read from to anchor db r :
  r ∈ delta_page to_timestamp from to anchor db → r ∈ db_rows db ∧ eligibility anchor None r = true ∧ from < row_share_seq r ≤ to.
Proof.
  unfold delta_page. intros Hr%elem_of_take_sub. rewrite elem_of_sort_by, list_elem_of_filter, !andb_true_iff, Z.ltb_lt, Z.leb_le in Hr.
  unfold window_eligibility. cbn [cut_clause]. rewrite andb_true_r. naive_solver.
Qed.
Lemma node_page_read from to anchor cut node db r :
  r ∈ node_delta_page to_timestamp from to anchor cut node db →
  r ∈ db_rows db ∧ eligibility anchor cut r = true ∧ from < row_share_seq r ≤ to.
Proof.
  unfold node_delta_page. intros Hr%elem_of_take_sub. rewrite elem_of_sort_by, list_elem_of_filter, !andb_true_iff, Z.ltb_lt, Z.leb_le in Hr. naive_solver.
Qed.
Lemma older_page_read below anchor cut db r :
  r ∈ older_page to_timestamp below anchor cut db → r ∈ db_rows db ∧ eligibility anchor cut r = true ∧ row_share_seq r < below.
Proof.
  unfold older_page. intros Hr%elem_of_take_sub. rewrite elem_of_sort_by, list_elem_of_filter, !andb_true_iff, Z.ltb_lt in Hr. naive_solver.
Qed.

(** The pages of a delta. *)
Lemma read_delta_read fuel page binds to anchor cut cursor delta pages n delta' pages' n' :
  (∀ from db r, r ∈ page from db → r ∈ db_rows db ∧ eligibility anchor cut r = true ∧ from < row_share_seq r ≤ to) →
  read_delta tx fuel page binds to cursor delta pages n = Ok ((delta', pages'), n') →
  (n ≤ n')%nat ∧ ∃ more, delta' = delta ++ more ∧ Forall (read_share anchor cut n n') more ∧ Forall (fun s => as_share_seq s ≤ to) more.
Proof.
  intros Hp. revert cursor delta pages n. induction fuel as [|fuel IH]; intros cursor delta pages n; cbn [read_delta].
  { intros [[= -> ->] ->]%sql_ret_Ok. split; [done|]. exists []. by rewrite app_nil_r. }
  destruct (negb (cursor <? to)); [intros [[= -> ->] ->]%sql_ret_Ok; split; [done|]; exists []; by rewrite app_nil_r|].
  intros Hr. run_as Hr u n1 Hu. apply bind_cut_Ok in Hu as ->. run_as Hr rows n2 Hq. apply query_Ok in Hq as [Hrows ->].
  destruct rows as [|r rows]; [apply sql_ret_Ok in Hr as [[= -> ->] ->]; split; [lia|]; exists []; by rewrite app_nil_r|].
  run_as Hr more n3 Hd. lift Hd. run_as Hr l n4 Hl. lift Hl. run_as Hr c n5 Hc. lift Hc.
  apply IH in Hr as (Hle & rest & -> & Hrest & Hto). split; [lia|]. exists (more ++ rest). rewrite app_assoc. split; [done|]. split.
  - apply Forall_app. split; [|eapply read_shares_weaken; [| |exact Hrest]; lia].
    apply (read_shares_weaken _ _ n (S n)); [lia..|]. eapply collect_read; [|exact Hd]. rewrite Hrows. intros x Hx%Hp. naive_solver.
  - apply Forall_app. split; [|done]. apply collect_Forall2, collect_seqs in Hd. apply (Forall_fmap as_share_seq (fun z => z ≤ to)).
    rewrite <- Hd. apply Forall_fmap, Forall_forall. rewrite Hrows. intros x Hx%Hp. cbn. lia.
Qed.

(** The rows a margin or a scan holds, newest first, are folded one by one. *)
Definition folded (weight : Z) (m : Margin) : Prop := fold_newest weight (mg_rows m) = (mg_remaining m, length (mg_rows m)).
Lemma fold_newest_snoc w l s r :
  fold_newest w l = (r, length l) → r ≠ 0 → fold_newest w (l ++ [s]) = (saturating_sub U128 r (as_share_difficulty s), S (length l)).
Proof.
  revert w. induction l as [|x l IH]; intros w; cbn [fold_newest app length].
  - intros [= ->] _. destruct (Z.eqb_spec (saturating_sub U128 r (as_share_difficulty s)) 0) as [->|]; done.
  - destruct (Z.eqb_spec (saturating_sub U128 w (as_share_difficulty x)) 0); [by intros [= <- _]|].
    destruct (fold_newest _ l) as [r' k] eqn:Hf. intros [= -> ->] Hr. by rewrite (IH _ Hf Hr).
Qed.
Lemma margin_take_folded w m s : folded w m → mg_remaining m ≠ 0 → folded w (margin_take m s).
Proof. unfold folded. cbn [margin_take mg_rows mg_remaining]. intros Hf Hr. rewrite (fold_newest_snoc _ _ _ _ Hf Hr), length_app. cbn. by rewrite Nat.add_1_r. Qed.

(** Reading [m'] on from [m]: eligible rows, descending from below [below]. *)
Record read_older (anchor : Z) (cut : option WindowCut) (n n' : nat) (below : Z) (m m' : Margin) (more : list AcceptedShare) : Prop := {
  ro_le : (n ≤ n')%nat;
  ro_rows : mg_rows m' = mg_rows m ++ more;
  ro_read : Forall (read_share anchor cut n n') more;
  ro_below : Forall (fun s => as_share_seq s < below) more;
  ro_desc : StronglySorted (flip seq_lt) more;
  ro_folded w : folded w m → folded w m';
}.
Lemma read_older_nil anchor cut n n' below m : (n ≤ n')%nat → read_older anchor cut n n' below m m [].
Proof. intros. split; [done|by rewrite app_nil_r|constructor..|done]. Qed.
Lemma margin_page_taken w m rows m' :
  mg_remaining m ≠ 0 → margin_page m rows = Ok m' →
  ∃ k more, mg_rows m' = mg_rows m ++ more ∧ Forall2 (fun r s => share_from_row r = Ok s) (take k rows) more ∧ (rows ≠ [] → more ≠ []) ∧
    (folded w m → folded w m').
Proof.
  revert m. induction rows as [|r rows IH]; intros m Hm; cbn [margin_page].
  { intros [= <-]. exists 0%nat, []. rewrite app_nil_r. repeat split; try done; constructor. }
  intros (s & Hs & Hr)%bind_Ok. destruct (Z.eqb_spec (mg_remaining (margin_take m s)) 0) as [Hz|Hz].
  - injection Hr as <-. exists 1%nat, [s]. cbn [take]. rewrite take_0. split; [done|]. split; [by constructor|]. split; [done|].
    intros Hf. by apply margin_take_folded.
  - apply IH in Hr as (k & more & Hrows & Hk & _ & Hf); [|done]. exists (S k), (s :: more). cbn [take]. rewrite Hrows.
    cbn [margin_take mg_rows]. rewrite <- app_assoc. repeat split; [by constructor|done|]. intros Hm'. by apply Hf, margin_take_folded.
Qed.
Lemma older_page_desc below anchor cut db :
  NoDup (row_share_seq <$> db_rows db) →
  StronglySorted (fun a b => row_share_seq b < row_share_seq a) (older_page to_timestamp below anchor cut db).
Proof.
  intros Hk. unfold older_page. set (l := filter _ _). assert (NoDup (row_share_seq <$> sort_by seq_desc l)) as Hn.
  { assert (sort_by seq_desc l ≡ₚ l) as Hp by apply sort_by_perm. rewrite Hp. unfold l. eapply sublist_NoDup; [exact Hk|]. apply fmap_sublist, sublist_filter. }
  assert (StronglySorted (fun a b => row_share_seq b < row_share_seq a) (sort_by seq_desc l)) as Hs.
  { pose proof (sort_by_sorted seq_desc l) as Hs. induction Hs as [|r l' Hl IH Hf]; [constructor|]. cbn in Hn. apply NoDup_cons in Hn as [Hx Hn].
    constructor; [by apply IH|]. rewrite Forall_forall in Hf |- *. intros y Hy. specialize (Hf y Hy).
    change (cmp_le seq_asc y r) in Hf. rewrite seq_asc_le in Hf.
    assert (row_share_seq r ≠ row_share_seq y); [|cbn; lia]. intros He. apply Hx. rewrite He. by apply list_elem_of_fmap_2. }
  rewrite <- (take_drop DELTA_PAGE_ROWS (sort_by seq_desc l)) in Hs. by eapply StronglySorted_app_1_l.
Qed.
Lemma decoded_desc rows shares below :
  Forall2 (fun r s => share_from_row r = Ok s) rows shares → StronglySorted (fun a b => row_share_seq b < row_share_seq a) rows →
  (∀ r, r ∈ rows → row_share_seq r < below) → StronglySorted (flip seq_lt) shares ∧ Forall (fun s => as_share_seq s < below) shares.
Proof.
  intros Hd. induction Hd as [|r x rows shares Hr Hd IH]; intros Hs Hb; [by split; constructor|].
  apply StronglySorted_inv in Hs as [Hs Hf]. destruct IH as [Hsorted Hbelow]; [done|intros; apply Hb; by right|].
  pose proof (share_from_row_seq _ _ Hr) as Hx. pose proof (collect_seqs _ _ Hd) as Hseq. split.
  - constructor; [done|]. apply (Forall_fmap as_share_seq (fun z => z < as_share_seq x)). rewrite <- Hseq, Hx. by apply Forall_fmap.
  - constructor; [|done]. rewrite Hx. apply Hb. by left.
Qed.

Section pages.
Context (Hkey : ∀ i, NoDup (row_share_seq <$> db_rows (tx i))) (anchor : Z) (cut : option WindowCut).
Lemma older_page_step below n m m' :
  older_page to_timestamp below anchor cut (tx n) ≠ [] → mg_remaining m ≠ 0 →
  margin_page m (older_page to_timestamp below anchor cut (tx n)) = Ok m' →
  ∃ more, read_older anchor cut n (S n) below m m' more ∧ more ≠ [].
Proof.
  intros Hne Hm Hp. pose proof (λ w, margin_page_taken w _ _ _ Hm Hp) as Ht.
  destruct (Ht 0) as (k & more & Hrows & Hd & Hmore & _). exists more. split; [|by apply Hmore].
  destruct (decoded_desc _ _ below Hd) as [Hdesc Hbelow].
  { pose proof (older_page_desc below anchor cut _ (Hkey n)) as Hs. rewrite <- (take_drop k) in Hs. by eapply StronglySorted_app_1_l. }
  { intros r Hr%elem_of_take_sub%older_page_read. naive_solver. }
  split; [lia|done| |done|done|]; [|intros w Hw; destruct (Ht w) as (? & ? & _ & _ & _ & Hf); by apply Hf].
  eapply collect_read; [|by apply collect_Forall2]. intros r Hr%elem_of_take_sub%older_page_read. naive_solver.
Qed.
Lemma read_older_trans n n1 n2 below m m1 m2 l more rest :
  read_older anchor cut n n1 below m m1 more → more ≠ [] → last (mg_rows m1) = Some l →
  read_older anchor cut n1 n2 (as_share_seq l) m1 m2 rest → read_older anchor cut n n2 below m m2 (more ++ rest).
Proof.
  intros [Hle Hr Hread Hb Hd Hf] Hne Hl [Hle' Hr' Hread' Hb' Hd' Hf'].
  assert (last more = Some l) as Hlm.
  { rewrite Hr, last_app in Hl. destruct (last more) eqn:He; [done|]. by apply last_None in He. }
  assert (∀ x, x ∈ more → as_share_seq l ≤ as_share_seq x) as Hlow.
  { apply last_Some in Hlm as [more' ->]. intros x [Hx| ->%list_elem_of_singleton]%elem_of_app; [|done].
    pose proof (StronglySorted_app_1_elem_of _ _ _ x l Hd Hx) as Hlt. unfold flip, seq_lt in Hlt. specialize (Hlt ltac:(set_solver)). lia. }
  split; [lia|by rewrite Hr', Hr, app_assoc| | | |auto].
  - apply Forall_app. split; (eapply read_shares_weaken; [| |eassumption]; lia).
  - apply Forall_app. split; [done|]. eapply Forall_impl; [exact Hb'|]. cbn. intros x Hx.
    apply last_Some_elem_of in Hlm. rewrite Forall_forall in Hb. specialize (Hb _ Hlm). lia.
  - apply StronglySorted_app_2; [|done..]. intros x y Hx Hy. rewrite Forall_forall in Hb'. specialize (Hb' _ Hy). specialize (Hlow _ Hx).
    unfold flip, seq_lt. lia.
Qed.
Lemma margin_loop_read k cursor m pages n m' pages' n' :
  margin_loop to_timestamp tx k anchor cut cursor m pages n = Ok ((MarginRead m', pages'), n') → ∃ more, read_older anchor cut n n' cursor m m' more.
Proof.
  revert cursor m pages n. induction k as [|k IH]; intros cursor m pages n; cbn [margin_loop];
    (destruct (0 <? mg_remaining m) eqn:Hm; cbn [negb]; [|intros [[= -> ->] ->]%sql_ret_Ok; exists []; by apply read_older_nil]);
    [by intros [? _]%sql_ret_Ok|].
  apply Z.ltb_lt in Hm. intros Hr. run_as Hr u n1 Hu. apply bind_cut_Ok in Hu as ->. run_as Hr rows n2 Hq. apply query_Ok in Hq as [Hrows ->].
  destruct rows as [|r rows]; [apply sql_ret_Ok in Hr as [[= -> ->] ->]; exists []; apply read_older_nil; lia|].
  run_as Hr m1 n3 Hd. lift Hd. run_as Hr l n4 Hl. lift Hl. apply ok_or_Ok in Hl. run_as Hr c n5 Hc. lift Hc. apply try_from_Ok in Hc as [-> _].
  rewrite Hrows in Hd. apply older_page_step in Hd as (more & Hd & Hne); [|by rewrite <- Hrows|lia].
  apply IH in Hr as [rest Hrest]. exists (more ++ rest). by eapply read_older_trans.
Qed.
Lemma scan_loop_read fuel cursor m pages n m' pages' n' :
  scan_loop to_timestamp tx fuel anchor cut cursor m pages n = Ok ((m', pages'), n') → ∃ more, read_older anchor cut n n' cursor m m' more.
Proof.
  revert cursor m pages n. induction fuel as [|k IH]; intros cursor m pages n; cbn [scan_loop];
    [intros [[= -> ->] ->]%sql_ret_Ok; exists []; by apply read_older_nil|].
  destruct (0 <? mg_remaining m) eqn:Hm; cbn [negb]; [|intros [[= -> ->] ->]%sql_ret_Ok; exists []; by apply read_older_nil].
  apply Z.ltb_lt in Hm. intros Hr. run_as Hr u n1 Hu. apply bind_cut_Ok in Hu as ->. run_as Hr rows n2 Hq. apply query_Ok in Hq as [Hrows ->].
  destruct rows as [|r rows]; [apply sql_ret_Ok in Hr as [[= -> ->] ->]; exists []; apply read_older_nil; lia|].
  run_as Hr m1 n3 Hd. lift Hd. run_as Hr l n4 Hl. lift Hl. apply ok_or_Ok in Hl. run_as Hr c n5 Hc. lift Hc. apply try_from_Ok in Hc as [-> _].
  rewrite Hrows in Hd. apply older_page_step in Hd as (more & Hd & Hne); [|by rewrite <- Hrows|lia].
  apply IH in Hr as [rest Hrest]. exists (more ++ rest). by eapply read_older_trans.
Qed.
Lemma walk_margin_read m first retired report n m' report' n' :
  walk_margin to_timestamp tx m first anchor cut retired report n = Ok ((MarginRead m', report'), n') →
  ∃ more, read_older anchor cut n n' first m m' more.
Proof.
  unfold walk_margin. intros Hr. run_as Hr o n1 Ho. destruct o as [[m1|o] pages]; [|by apply sql_ret_Ok in Hr as [? _]].
  apply margin_loop_read in Ho. destruct (0 <? mg_remaining m1); apply sql_ret_Ok in Hr as [? ->]; [done|]. by simplify_eq.
Qed.
End pages.

(** * Evidence *)
(** The partition the witness names is attached, in the same incarnation, under
    the same writer. *)
Definition live (w : LeafWitness) (db : Db) : Prop :=
  db_inherits db !! lw_tableoid w = Some (lw_inherits_xmin w) ∧ db_timeline db = lw_timeline w.
(** What the schema and the partition maintenance guarantee of the databases
    the statements see: [share_seq] is a key; a partition's range of sequences
    never changes; an incarnation seen twice was there in between and keeps
    its rows, which are immutable; [to_timestamp] is monotone. *)
Record ledger_history : Prop := {
  lh_key i : NoDup (row_share_seq <$> db_rows (tx i));
  lh_range i j k a b c : a ∈ db_rows (tx i) → b ∈ db_rows (tx j) → c ∈ db_rows (tx k) →
    row_share_seq a ≤ row_share_seq b ≤ row_share_seq c → row_tableoid a = row_tableoid c → row_tableoid b = row_tableoid a;
  lh_live w i j k : (i ≤ j ≤ k)%nat → live w (tx i) → live w (tx k) → live w (tx j);
  lh_rows w i j r : (i ≤ j)%nat → live w (tx i) → live w (tx j) → r ∈ db_rows (tx i) → row_tableoid r = lw_tableoid w → r ∈ db_rows (tx j);
  lh_clock a b : a ≤ b → to_timestamp a ≤ to_timestamp b;
}.
Lemma leaf_rows_inv first last anchor cut expected db w :
  head (leaf_rows to_timestamp first last anchor cut expected db) = Some w →
  live w db ∧ ∃ a c, a ∈ db_rows db ∧ c ∈ db_rows db ∧ row_share_seq a = first ∧ row_share_seq c = last ∧
    row_tableoid a = lw_tableoid w ∧ row_tableoid c = lw_tableoid w ∧
    eligibility anchor cut a = true ∧ eligibility anchor cut c = true ∧
    (∀ n, expected = Some n → n = count_between to_timestamp first last anchor cut db).
Proof.
  intros Hw. assert (w ∈ leaf_rows to_timestamp first last anchor cut expected db) as Hin by (by apply head_Some_elem_of).
  unfold leaf_rows in Hin. apply list_elem_of_bind in Hin as (a & Hin & Ha). apply list_elem_of_bind in Hin as (c & Hin & Hc).
  rewrite list_elem_of_filter, andb_true_iff, Z.eqb_eq in Ha. rewrite list_elem_of_filter, !andb_true_iff, !Z.eqb_eq in Hc.
  destruct (db_inherits db !! row_tableoid a) as [xmin|] eqn:Hi; [|set_solver].
  destruct (from_option _ true expected) eqn:Hn; [|set_solver]. apply list_elem_of_singleton in Hin as ->. cbn.
  split; [done|]. exists a, c. destruct Ha as [[Ha1 Ha2] Ha3], Hc as [[[Hc1 Hc2] Hc3] Hc4]. repeat (split; [done|]).
  intros m ->. by apply Z.eqb_eq in Hn.
Qed.
Lemma leaf_witness_inv first last anchor cut expected n w n' :
  leaf_witness to_timestamp tx first last anchor cut expected n = Ok (w, n') →
  n' = S n ∧ w = head (leaf_rows to_timestamp first last anchor cut expected (tx n)).
Proof.
  unfold leaf_witness. intros Hr. run_as Hr u n1 Hu. apply bind_cut_Ok in Hu as ->. apply query_Ok in Hr as [-> ->]. done.
Qed.

(** * The reference window *)
(** The anchored rows of the ledger, oldest first: those eligible at the anchor
    and inside the cut, or at most the cutoff where there is no cut. *)
Definition in_window (anchor : Z) (cut : option WindowCut) (cutoff : Z) (r : Row) : bool :=
  eligibility anchor cut r && match cut with None => row_share_seq r <=? cutoff | Some _ => true end.
Definition window_rows (anchor : Z) (cut : option WindowCut) (cutoff : Z) (db : Db) : list Row :=
  sort_by seq_asc (filter (fun r => in_window anchor cut cutoff r = true) (db_rows db)).
(** [shares] are the newest of them; [older] the others. *)
Definition newest_rows (anchor : Z) (cut : option WindowCut) (cutoff : Z) (db : Db) (older : list Row) (shares : list AcceptedShare) : Prop :=
  ∃ kept, window_rows anchor cut cutoff db = older ++ kept ∧ collect share_from_row kept = Ok shares.

Lemma bt_key_inj i a b : NoDup (row_share_seq <$> db_rows (tx i)) → a ∈ db_rows (tx i) → b ∈ db_rows (tx i) → row_share_seq a = row_share_seq b → a = b.
Proof.
  intros Hk Ha Hb He. apply list_elem_of_lookup in Ha as [x Hx], Hb as [y Hy].
  assert (x = y) as <-; [|congruence]. eapply (NoDup_lookup _ _ _ (row_share_seq a) Hk); rewrite list_lookup_fmap; [by rewrite Hx|].
  by rewrite Hy, He.
Qed.
Lemma sort_split (P : Row -> Prop) `{∀ r, Decision (P r)} (l : list Row) s :
  (∀ a b, a ∈ l → b ∈ l → row_share_seq a = row_share_seq b → a = b) →
  sort_by seq_asc (filter P l) =
  sort_by seq_asc (filter (fun r => P r ∧ row_share_seq r < s) l) ++ sort_by seq_asc (filter (fun r => P r ∧ s ≤ row_share_seq r) l).
Proof.
  intros Hk. apply (sorted_perm_eq seq_asc).
  - intros x y. rewrite !elem_of_sort_by, !list_elem_of_filter. intros [_ Hx] [_ Hy] He. apply Hk; [done..|]. by apply Z.compare_eq_iff.
  - apply (sort_by_sorted seq_asc).
  - apply StronglySorted_app_2; [|apply (sort_by_sorted seq_asc)..]. intros x y. rewrite !elem_of_sort_by, !list_elem_of_filter, seq_asc_le. lia.
  - etransitivity; [apply sort_by_perm|]. etransitivity; [|symmetry; apply Permutation_app; apply sort_by_perm].
    clear Hk. induction l as [|r l IH]; [done|]. rewrite !filter_cons.
    destruct (decide (P r)) as [Hp|Hp].
    + destruct (decide (row_share_seq r < s)).
      * rewrite decide_True by done. rewrite decide_False by lia. exact (perm_skip r IH).
      * rewrite decide_False by lia. rewrite decide_True by (split; [done|lia]). exact (Permutation_cons_app _ _ r IH).
    + rewrite !decide_False by naive_solver. done.
Qed.

Lemma sorted_lt_NoDup (l : list Z) : StronglySorted Z.lt l → NoDup l.
Proof. induction 1 as [|x l Hl IH Hf]; constructor; [|done]. rewrite Forall_forall in Hf. intros Hx. specialize (Hf _ Hx). lia. Qed.

(** The rows counted between the first and the last sequence are the shares, so
    the shares are the newest rows. *)
Lemma counted_window k anchor cut cutoff first last shares :
  NoDup (row_share_seq <$> db_rows (tx k)) →
  StronglySorted seq_lt shares → (as_share_seq <$> head shares = Some first) →
  (∀ s, s ∈ shares → as_share_seq s ≤ last ∧ ∃ r, r ∈ db_rows (tx k) ∧ in_window anchor cut cutoff r = true ∧ share_from_row r = Ok s) →
  (∀ r, r ∈ db_rows (tx k) → in_window anchor cut cutoff r = true → row_share_seq r ≤ last) →
  (cut = None → last ≤ cutoff) →
  Z.of_nat (length shares) = count_between to_timestamp first last anchor cut (tx k) →
  ∃ older, newest_rows anchor cut cutoff (tx k) older shares.
Proof.
  intros Hk Hs Hh Hin Htop Hcut Hn.
  assert (∃ rs, Forall2 (fun r s => share_from_row r = Ok s) rs shares ∧ Forall (fun r => r ∈ db_rows (tx k) ∧ in_window anchor cut cutoff r = true) rs) as (rs & Hrs & Hrf).
  { clear -Hin. induction shares as [|s l IH]; [by exists []|]. destruct IH as (rs & ? & ?); [set_solver|].
    destruct (Hin s) as (_ & r & ? & ? & ?); [set_solver|]. exists (r :: rs). auto. }
  pose proof (collect_seqs _ _ Hrs) as Hseq.
  assert (StronglySorted Z.lt (row_share_seq <$> rs)) as Hsr.
  { rewrite Hseq. clear -Hs. induction Hs as [|s l Hl IH Hf]; cbn; constructor; [done|]. by apply Forall_fmap. }
  assert (∀ r, r ∈ rs → first ≤ row_share_seq r ≤ last) as Hrange.
  { intros r Hr. assert (row_share_seq r ∈ as_share_seq <$> shares) as Hx by (rewrite <- Hseq; by apply list_elem_of_fmap_2).
    apply list_elem_of_fmap in Hx as (s & -> & Hx). split; [|by apply Hin]. destruct shares as [|f l]; [done|]. injection Hh as <-.
    apply StronglySorted_inv in Hs as [_ Hs]. rewrite Forall_forall in Hs. apply elem_of_cons in Hx as [->|Hx]; [done|]. specialize (Hs _ Hx). unfold seq_lt in Hs. lia. }
  set (range := filter (fun r => in_window anchor cut cutoff r = true ∧ first ≤ row_share_seq r) (db_rows (tx k))).
  exists (sort_by seq_asc (filter (fun r => in_window anchor cut cutoff r = true ∧ row_share_seq r < first) (db_rows (tx k)))), (sort_by seq_asc range).
  split; [by apply sort_split; intros; eapply bt_key_inj|].
  assert (sort_by seq_asc range = rs) as ->; [|by apply collect_Forall2].
  assert (rs ≡ₚ range) as Hperm.
  { apply submseteq_length_Permutation.
    - apply NoDup_submseteq; [apply (NoDup_fmap_1 row_share_seq), sorted_lt_NoDup, Hsr|].
      intros r Hr. apply list_elem_of_filter. rewrite Forall_forall in Hrf. destruct (Hrf _ Hr). specialize (Hrange _ Hr). split; [split; [done|lia]|done].
    - apply Nat2Z.inj_le. rewrite <- (Forall2_length _ _ _ Hrs) in Hn. rewrite Hn. unfold count_between. apply inj_le, Nat.eq_le_incl. f_equal.
      apply filter_ext_elem. intros r Hr. split.
      + intros [Hw Hf]. specialize (Htop _ Hr Hw). unfold in_window in Hw. apply andb_true_iff in Hw as [Hw _].
        rewrite !andb_true_iff, !Z.leb_le. done.
      + rewrite !andb_true_iff, !Z.leb_le. intros [[Hf Hl] He]. split; [|done]. unfold in_window. rewrite He. destruct cut; [done|]. specialize (Hcut eq_refl). cbn. apply Z.leb_le. lia. }
  symmetry. apply (sorted_perm_eq seq_asc); [| |apply (sort_by_sorted seq_asc)|by rewrite sort_by_perm].
  - intros x y Hx Hy He. rewrite Forall_forall in Hrf. apply bt_key_inj with k; [done|by apply Hrf..|]. by apply Z.compare_eq_iff.
  - clear -Hsr. induction rs as [|r rs IH]; [constructor|]. cbn in Hsr. apply StronglySorted_inv in Hsr as [Hs Hf]. constructor; [by apply IH|].
    rewrite Forall_fmap in Hf. eapply Forall_impl; [exact Hf|]. intros y Hy. apply seq_asc_le. cbn in Hy. lia.
Qed.

(** * Retained evidence *)
(** What a retained window claims of the database of statement [m]: its leaf is
    there, and holds a row of the window for each of its shares. *)
Record evidence (m : nat) (anchor : Z) (cut : option WindowCut) (cutoff : Z) (shares : list AcceptedShare) (w : LeafWitness) : Prop := {
  ev_live : live w (tx m);
  ev_sorted : StronglySorted seq_lt shares;
  ev_rows s : s ∈ shares →
    ∃ r, r ∈ db_rows (tx m) ∧ row_tableoid r = lw_tableoid w ∧ in_window anchor cut cutoff r = true ∧ share_from_row r = Ok s;
}.
(** What an acquisition proves of its window at statement [k]: the newest rows,
    none below the one that meets the target, and evidence for the next one. *)
Record acquired (k : nat) (weight anchor : Z) (cut : option WindowCut) (cutoff : Z) (shares : list AcceptedShare) (w : LeafWitness) : Prop := {
  aq_newest : ∃ older, newest_rows anchor cut cutoff (tx k) older shares;
  aq_taken : (fold_newest weight (reverse shares)).2 = length shares;
  aq_evidence : evidence k anchor cut cutoff shares w;
}.

Lemma sorted_head_le shares f s : StronglySorted seq_lt shares → head shares = Some f → s ∈ shares → as_share_seq f ≤ as_share_seq s.
Proof.
  intros Hs Hh Hx. destruct shares as [|g l]; [done|]. injection Hh as ->. apply StronglySorted_inv in Hs as [_ Hs].
  rewrite Forall_forall in Hs. apply elem_of_cons in Hx as [->|Hx]; [done|]. specialize (Hs _ Hx). unfold seq_lt in Hs. lia.
Qed.
(** The counted leaf check at [k] proves the window: each share's row was seen
    while the leaf was live, so it is still there. *)
Lemma counted_acquired k weight anchor cut cutoff shares f last w :
  ledger_history → StronglySorted seq_lt shares → head shares = Some f →
  (fold_newest weight (reverse shares)).2 = length shares →
  (∀ s, s ∈ shares → as_share_seq s ≤ last ∧
    ∃ i r, (i ≤ k)%nat ∧ live w (tx i) ∧ r ∈ db_rows (tx i) ∧ eligibility anchor cut r = true ∧ share_from_row r = Ok s) →
  (∀ r, r ∈ db_rows (tx k) → in_window anchor cut cutoff r = true → row_share_seq r ≤ last) → (cut = None → last ≤ cutoff) →
  head (leaf_rows to_timestamp (as_share_seq f) last anchor cut (Some (Z.of_nat (length shares))) (tx k)) = Some w →
  acquired k weight anchor cut cutoff shares w.
Proof.
  intros Hh Hs Hf Ht Hrows Htop Hcut Hw. apply leaf_rows_inv in Hw as (Hlive & a & c & Ha & Hc & Hsa & Hsc & Hta & Htc & _ & _ & Hn).
  assert (∀ s, s ∈ shares → ∃ r, r ∈ db_rows (tx k) ∧ row_tableoid r = lw_tableoid w ∧ in_window anchor cut cutoff r = true ∧ share_from_row r = Ok s) as Hin.
  { intros s Hx. destruct (Hrows s Hx) as (Hl & i & r & Hi & Hli & Hr & He & Hd). pose proof (share_from_row_seq _ _ Hd) as Hseq.
    pose proof (sorted_head_le _ _ _ Hs Hf Hx).
    assert (row_tableoid r = lw_tableoid w) as Hoid by (rewrite <- Hta; apply (lh_range Hh k i k a r c); [done..|lia|congruence]).
    exists r. split; [by apply (lh_rows Hh w i k)|]. split; [done|]. split; [|done]. unfold in_window. rewrite He. destruct cut; [done|].
    specialize (Hcut eq_refl). cbn. apply Z.leb_le. lia. }
  split; [|done|by split].
  apply (counted_window k anchor cut cutoff (as_share_seq f) last); [apply (lh_key Hh)|done|by rewrite Hf| |done|done|by apply Hn].
  intros s Hx. split; [by apply Hrows|]. destruct (Hin s Hx) as (r & ? & _ & ?). eauto.
Qed.

Lemma eligibility_mono anchor anchor' cut r :
  ledger_history → anchor ≤ anchor' → eligibility anchor cut r = true → eligibility anchor' cut r = true.
Proof.
  intros Hh Ha. pose proof (lh_clock Hh _ _ Ha). unfold window_eligibility, anchored. rewrite !andb_true_iff, !Z.leb_le. naive_solver lia.
Qed.
Lemma parse_int_fits t s z : parse_int t s = Some z → fits t z = true.
Proof.
  unfold parse_int, checked. destruct s as [|c s]; [done|]. repeat case_match; try done;
    intros (v & _ & Hv)%bind_Some; repeat case_match; congruence.
Qed.
Lemma share_from_row_weighs r s : share_from_row r = Ok s → weighs s.
Proof.
  unfold share_from_row, parse_u128. intros (? & _ & (d & Hp%ok_or_Ok%parse_int_fits & Hd)%bind_Ok)%bind_Ok.
  repeat (apply bind_Ok in Hd as (? & _ & Hd)). injection Hd as <-. unfold weighs. cbn. apply fits_iff in Hp. change (int_min U128) with 0 in Hp. lia.
Qed.

(** * The delta path *)
Lemma finish_merged_inv merged weight anchor lastf cut w report n shares leaf report' n' :
  finish_merged to_timestamp tx merged weight anchor lastf cut w report n = Ok (AdvancedTo shares leaf report', n') →
  shares = merged ∧ leaf = w ∧ n' = S (S n) ∧ window_invariant merged weight = true ∧
  ∃ f l, head merged = Some f ∧ lastf merged = Ok l ∧
    head (leaf_rows to_timestamp (as_share_seq f) l anchor cut (Some (Z.of_nat (length merged))) (tx (S n))) = Some w.
Proof.
  unfold finish_merged. destruct (window_invariant merged weight); [|by intros [? _]%sql_ret_Ok]. cbn [negb]. intros Hr.
  run_as Hr l n1 Hl. lift Hl. unfold prove_merged in Hr. run_as Hr f n2 Hf. lift Hf. apply ok_or_Ok in Hf. run_as Hr fs n3 Hfs. lift Hfs.
  apply try_from_Ok in Hfs as [-> _]. run_as Hr seen n4 Hs. apply leaf_witness_inv in Hs as [-> _].
  destruct (bool_decide (seen = Some w)); [|by apply sql_ret_Ok in Hr as [? _]]. cbn [negb] in Hr.
  run_as Hr cnt n5 Hc. lift Hc. apply try_from_Ok in Hc as [-> _]. run_as Hr seen' n6 Hs'. apply leaf_witness_inv in Hs' as [-> Hs'].
  destruct (bool_decide_reflect (seen' = Some w)) as [->|]; [|by apply sql_ret_Ok in Hr as [? _]]. cbn [negb] in Hr.
  apply sql_ret_Ok in Hr as [[= -> -> ->] ->]. repeat (split; [done|]). exists f, l. auto.
Qed.
(** The rows of the merged window, each seen while the leaf was live. *)
Lemma finish_acquired n0 merged weight anchor lastf cut cutoff w report n shares leaf report' n' :
  ledger_history → 0 ≤ weight ≤ int_max U128 → live w (tx n0) →
  (∀ s, s ∈ merged → ∃ i r, (n0 ≤ i ≤ n)%nat ∧ r ∈ db_rows (tx i) ∧ eligibility anchor cut r = true ∧ share_from_row r = Ok s) →
  (∀ l, lastf merged = Ok l → StronglySorted seq_lt merged → (∀ s, s ∈ merged → as_share_seq s ≤ l) ∧ (cut = None → l ≤ cutoff) ∧
    ∀ r, r ∈ db_rows (tx (S n)) → in_window anchor cut cutoff r = true → row_share_seq r ≤ l) →
  finish_merged to_timestamp tx merged weight anchor lastf cut w report n = Ok (AdvancedTo shares leaf report', n') →
  (n < n')%nat ∧ fold_newest weight (reverse shares) = (0, length shares) ∧ leaf = w ∧ acquired (pred n') weight anchor cut cutoff shares leaf.
Proof.
  intros Hh Hwt Hlive Hrows Hlast (-> & -> & -> & Hi & f & l & Hf & Hl & Hw)%finish_merged_inv. split; [lia|].
  assert (Forall weighs merged) as Hweighs.
  { apply Forall_forall. intros s Hs. destruct (Hrows s Hs) as (? & ? & _ & _ & _ & Hd). by eapply share_from_row_weighs. }
  apply window_invariant_fold in Hi as (g & rest & Hg & Hsorted & Hfold); [|done..]. split; [done|]. split; [done|].
  destruct (Hlast l Hl Hsorted) as (Hle & Hcut & Htop). apply leaf_rows_inv in Hw as Hw'. destruct Hw' as (Hlive' & _).
  eapply counted_acquired; try done; [by rewrite Hfold|]. intros s Hs. split; [by apply Hle|]. destruct (Hrows s Hs) as (i & r & Hi & ?). cbn.
  exists i, r. split; [lia|]. split; [|done]. apply (lh_live Hh w n0 i (S n)); [lia|done..].
Qed.

(** ** What a refusal check leaves *)
Lemma refusal_None prior anchor cutoff cut :
  refusal prior anchor cutoff cut = Ok None →
  rs_anchor_ms prior ≤ anchor ∧ rs_leaf prior ≠ None ∧ ∃ f l, head (rs_shares prior) = Some f ∧ last (rs_shares prior) = Some l ∧
  match rs_cut prior, cut with
  | None, None => rs_cutoff prior ≤ cutoff
  | Some retained, Some cut => covers cut retained = true ∧ top retained = Some (as_share_seq l)
  | _, _ => False
  end.
Proof.
  unfold refusal. destruct (Z.ltb_spec anchor (rs_anchor_ms prior)); [done|]. intros (moved & Hm & Hr)%bind_Ok. destruct moved; [done|].
  split; [done|]. destruct (head (rs_shares prior)) as [f|]; [|done]. destruct (last (rs_shares prior)) as [l|]; [|done].
  destruct (as_share_seq f =? 0); [done|]. destruct (rs_cut prior) as [retained|], cut as [cut|]; try done.
  - destruct (bool_decide_reflect (top retained = Some (as_share_seq l))); [|done]. cbn [negb] in Hr.
    destruct (bool_decide_reflect (rs_leaf prior = None)); [done|]. split; [done|]. exists f, l. repeat split; try done.
    destruct (covers cut retained); done.
  - destruct (as_share_seq l =? rs_cutoff prior); [|done]. cbn [negb] in Hr.
    destruct (bool_decide_reflect (rs_leaf prior = None)); [done|]. split; [done|]. exists f, l. repeat split; try done.
    destruct (Z.ltb_spec cutoff (rs_cutoff prior)); [done|lia].
Qed.
Lemma cut_clause_covers cut earlier r : covers cut earlier = true → cut_clause (Some earlier) r = true → cut_clause (Some cut) r = true.
Proof.
  assert (∀ a b x, opt_ge a b = true → from_option (fun e => x <=? e) false b = true → from_option (fun e => x <=? e) false a = true) as Hge.
  { intros [a|] [b|] x; cbn; try done. rewrite !Z.leb_le. unfold opt_ge. cbn. destruct (Z.compare_spec a b); [lia|done|lia]. }
  unfold covers, cut_clause. rewrite andb_true_iff, !orb_true_iff, !andb_true_iff. naive_solver.
Qed.
Lemma cut_clause_top cut r :
  cut_clause (Some cut) r = true →
  ∃ t, top cut = Some t ∧ row_share_seq r ≤ t ∧ (row_share_seq r = t → (row_origin_node r = 0 ∧ node_0 cut = Some t) ∨ (row_origin_node r = 1 ∧ node_1 cut = Some t)).
Proof.
  unfold cut_clause, top, opt_max. destruct (node_0 cut) as [a|], (node_1 cut) as [b|]; cbn;
    rewrite ?andb_true_iff, ?orb_true_iff, ?andb_true_iff, ?Z.eqb_eq, ?Z.leb_le; [|intros Hc; eexists; split; [done|]; naive_solver lia..|naive_solver].
  destruct (Z.compare_spec a b); intros Hc; eexists; (split; [done|]); (split; [naive_solver lia|]); intros;
    destruct Hc as [[? ?]|[? ?]]; [left|right|lia|right|left|lia]; split; try done; f_equal; lia.
Qed.

(** ** The delta *)
(** A delta whose pages are never empty below the end of the range reaches it. *)
Lemma read_delta_reaches fuel page binds to cursor delta pages n delta' pages' n' :
  (∀ from db r, r ∈ page from db → from < row_share_seq r) →
  (∀ i from, (n ≤ i < n')%nat → from < to → page from (tx i) ≠ []) → cursor < to → (Z.to_nat (to - cursor) ≤ fuel)%nat →
  read_delta tx fuel page binds to cursor delta pages n = Ok ((delta', pages'), n') → ∃ s, s ∈ delta' ∧ to ≤ as_share_seq s.
Proof.
  intros Hp. revert cursor delta pages n. induction fuel as [|fuel IH]; intros cursor delta pages n Hne Hc Hf; cbn [read_delta]; [lia|].
  rewrite (proj2 (Z.ltb_lt _ _) Hc). cbn [negb]. intros Hr. run_as Hr u n1 Hu. apply bind_cut_Ok in Hu as ->.
  run_as Hr rows n2 Hq. apply query_Ok in Hq as [Hrows ->].
  assert (∀ f c d p m x y, read_delta tx f page binds to c d p m = Ok ((x, y), n') → (m ≤ n')%nat ∧ d ⊆ x) as Hmono.
  { clear. intros f. induction f as [|f IH]; intros c d p m x y; cbn [read_delta]; [intros [[= -> ->] ->]%sql_ret_Ok; done|].
    destruct (negb (c <? to)); [intros [[= -> ->] ->]%sql_ret_Ok; done|]. intros Hr. run_as Hr u n1 Hu. apply bind_cut_Ok in Hu as ->.
    run_as Hr rows n2 Hq. apply query_Ok in Hq as [_ ->]. destruct rows; [apply sql_ret_Ok in Hr as [[= -> ->] ->]; split; [lia|done]|].
    run_as Hr more n3 Hd. lift Hd. run_as Hr l n4 Hl. lift Hl. run_as Hr c' n5 Hc. lift Hc. apply IH in Hr as [? ?]. split; [lia|set_solver]. }
  destruct rows as [|r rows].
  { apply sql_ret_Ok in Hr as [_ ->]. exfalso. by apply (Hne n cursor); [lia| |]. }
  run_as Hr more n3 Hd. lift Hd. run_as Hr l n4 Hl. lift Hl. apply ok_or_Ok in Hl. run_as Hr c n5 Hcc. lift Hcc. apply try_from_Ok in Hcc as [-> _].
  assert (cursor < as_share_seq l) as Hl'.
  { apply collect_Forall2 in Hd. pose proof (Forall2_length _ _ _ Hd) as Hlen. rewrite last_app in Hl.
    destruct (last more) as [l'|] eqn:Hm; [injection Hl as ->|apply last_None in Hm; by rewrite Hm in Hlen].
    apply last_Some_elem_of in Hm. apply list_elem_of_lookup in Hm as [i Hi]. destruct (Forall2_lookup_r _ _ _ _ _ Hd Hi) as (x & Hx & Hdx).
    apply list_elem_of_lookup_2 in Hx. rewrite Hrows in Hx. rewrite (share_from_row_seq _ _ Hdx). by apply Hp with (tx n). }
  destruct (Z.lt_ge_cases (as_share_seq l) to) as [Hlt|Hge].
  - destruct (Hmono _ _ _ _ _ _ _ Hr). eapply IH; [|exact Hlt| |exact Hr]; [intros; apply Hne; [lia|done]|lia].
  - exists l. split; [|done]. apply Hmono in Hr as [_ Hsub]. apply Hsub. by apply last_Some_elem_of.
Qed.

(** ** The merge under a cut *)
Definition seq_le (a b : AcceptedShare) : Prop := as_share_seq a ≤ as_share_seq b.
Lemma merge_rows_spec fuel old new l :
  merge_rows fuel old new = Ok l → (length old + length new ≤ fuel)%nat →
  l ≡ₚ old ++ new ∧ (StronglySorted seq_le old → StronglySorted seq_le new → StronglySorted seq_le l).
Proof.
  revert old new l. induction fuel as [|fuel IH]; intros old new l; cbn [merge_rows]; [intros [= <-] ?; destruct old, new; cbn in *; by try lia|].
  destruct old as [|o old], new as [|x new]; [intros [= <-] _; done| | |].
  - intros (rest & Hr & [= <-])%bind_Ok Hf. apply IH in Hr as [Hp Hs]; [|cbn in *; lia]. cbn in *. split; [by rewrite Hp|].
    intros _ [Hn Hx]%StronglySorted_inv. constructor; [by apply Hs; [constructor|]|by rewrite Hp].
  - intros (rest & Hr & [= <-])%bind_Ok Hf. apply IH in Hr as [Hp Hs]; [|cbn in *; lia]. cbn in *. split; [by rewrite Hp|].
    intros [Hn Hx]%StronglySorted_inv _. constructor; [by apply Hs; [|constructor]|by rewrite Hp, app_nil_r].
  - destruct (Z.eqb_spec (as_share_seq o) (as_share_seq x)); [done|]. destruct (Z.ltb_spec (as_share_seq o) (as_share_seq x)) as [Hlt|Hge];
      intros (rest & Hr & [= <-])%bind_Ok Hf; (apply IH in Hr as [Hp Hs]; [|cbn in *; lia]).
    + split; [by rewrite Hp|]. intros [Ho Hox]%StronglySorted_inv Hn. constructor; [by apply Hs|]. rewrite Hp. apply Forall_app. split; [done|].
      apply StronglySorted_inv in Hn as [_ Hn]. constructor; [unfold seq_le; lia|]. eapply Forall_impl; [exact Hn|]. unfold seq_le. intros; lia.
    + split; [by rewrite Hp, <- Permutation_middle|]. intros Ho [Hn Hnx]%StronglySorted_inv. constructor; [by apply Hs|]. rewrite Hp. apply Forall_app. split; [|done].
      apply StronglySorted_inv in Ho as [_ Ho]. constructor; [unfold seq_le; lia|]. eapply Forall_impl; [exact Ho|]. unfold seq_le. intros; lia.
Qed.
#[local] Instance share_asc_order : CmpOrder share_asc.
Proof. unfold share_asc. apply _. Qed.
Lemma sort_share_le l : StronglySorted seq_le (sort_by share_asc l).
Proof. eapply StronglySorted_weaken; [|apply (sort_by_sorted share_asc)]. intros a b _ _. exact (proj1 (Z.compare_le_iff _ _)). Qed.
Lemma fold_newest_taken w l : l ≠ [] → (1 ≤ (fold_newest w l).2 ≤ length l)%nat.
Proof.
  revert w. induction l as [|s l IH]; [done|]. intros w _. cbn [fold_newest length]. case_match; [cbn; lia|].
  destruct l as [|x l]; [cbn; lia|]. specialize (IH (saturating_sub U128 w (as_share_difficulty s)) ltac:(done)).
  destruct (fold_newest _ (x :: l)). cbn in *. lia.
Qed.
(** The merge keeps the newest row of both lists. *)
Lemma merge_cut_delta_spec prior delta weight m :
  merge_cut_delta prior delta weight = Ok m → StronglySorted seq_lt prior → prior ≠ [] →
  (∀ s, s ∈ cm_kept m → s ∈ prior ∨ s ∈ delta) ∧ mg_rows (cm_margin m) = [] ∧
  ∃ newest, last (cm_kept m) = Some newest ∧ ∀ s, s ∈ prior ++ delta → as_share_seq s ≤ as_share_seq newest.
Proof.
  unfold merge_cut_delta. intros (merged & Hm & Hr)%bind_Ok Hs Hne.
  assert (StronglySorted seq_le prior) as Hs'. { eapply StronglySorted_weaken; [|exact Hs]. unfold seq_lt, seq_le. intros; lia. }
  assert (merged ≡ₚ prior ++ delta ∧ StronglySorted seq_le merged) as [Hp Hsm].
  { assert (sort_by share_asc delta ≡ₚ delta) as Hd by apply sort_by_perm. pose proof (sort_share_le delta) as Hsd.
    destruct (match last prior, head _ with Some l, Some f => _ | _, _ => true end) eqn:Ha.
    - injection Hm as <-. split; [by rewrite Hd|]. apply StronglySorted_app_2; [|done..]. intros x y Hx Hy.
      destruct (last prior) as [l|] eqn:Hl; [|by apply last_None in Hl]. destruct (sort_by share_asc delta) as [|f l'] eqn:Hsort; [set_solver|].
      cbn in Ha. apply Z.ltb_lt in Ha. assert (as_share_seq f ≤ as_share_seq y).
      { apply StronglySorted_inv in Hsd as [_ Hf]. rewrite Forall_forall in Hf. apply elem_of_cons in Hy as [->|Hy]; [done|]. by apply Hf. }
      apply last_Some in Hl as [p ->]. apply elem_of_app in Hx as [Hx|Hx%list_elem_of_singleton]; [|subst; unfold seq_le; lia].
      pose proof (StronglySorted_app_1_elem_of _ _ _ x l Hs' Hx ltac:(set_solver)) as Hxl. unfold seq_le in *. lia.
    - apply merge_rows_spec in Hm as [Hm Hms]; [|by rewrite (Permutation_length Hd)]. split; [by rewrite Hm, Hd|]. by apply Hms. }
  destruct (fold_newest weight (reverse merged)) as [rem taken] eqn:Hf. injection Hr as <-. cbn.
  assert (merged ≠ []) as Hmne. { intros ->. apply Permutation_nil_l in Hp. destruct prior; done. }
  pose proof (fold_newest_taken weight (reverse merged)) as Ht. rewrite Hf, length_reverse in Ht. cbn in Ht.
  specialize (Ht ltac:(intros He; apply Hmne; rewrite <- (reverse_involutive merged), He; done)).
  split; [|split; [done|]].
  - intros s Hd. assert (s ∈ merged) as Hd' by (rewrite <- (take_drop (length merged - taken) merged); set_solver). clear Hd; rename Hd' into Hd. rewrite Hp in Hd. by apply elem_of_app.
  - destruct (last merged) as [l|] eqn:Hl; [|by apply last_None in Hl]. exists l. split.
    { rewrite <- (take_drop (length merged - taken) merged), last_app in Hl. destruct (last (drop _ _)) eqn:He; [done|].
      apply last_None in He. apply (f_equal length) in He. rewrite length_drop in He. cbn in He. lia. }
    intros s Hx. rewrite <- Hp in Hx. apply last_Some in Hl as [p ->]. apply elem_of_app in Hx as [Hx|Hx%list_elem_of_singleton]; [|by subst].
    apply (StronglySorted_app_1_elem_of _ _ _ s l Hsm Hx). set_solver.
Qed.

Lemma elem_of_drop_sub {A} (x : A) n l : x ∈ drop n l → x ∈ l.
Proof. intros Hx. rewrite <- (take_drop n l). set_solver. Qed.
Lemma merge_margin_nil prior delta weight : mg_rows (mr_margin (merge_delta prior delta weight)) = [].
Proof. unfold merge_delta. by repeat (case_match; simplify_eq/=). Qed.

(** * The acquisitions *)
(** The newest row inside the cut stays visible while the window is acquired. *)
Definition top_held (anchor : Z) (cut : option WindowCut) (n n' : nat) : Prop :=
  ∀ c t, cut = Some c → top c = Some t →
  ∃ r, row_share_seq r = t ∧ eligibility anchor cut r = true ∧ ∀ i, (n ≤ i < n')%nat → r ∈ db_rows (tx i).
Definition retained_at (m : nat) (prior : RetainedShares) : Prop :=
  ∀ w, rs_leaf prior = Some w → evidence m (rs_anchor_ms prior) (rs_cut prior) (rs_cutoff prior) (rs_shares prior) w.

Lemma head_not_nil {A} (l : list A) x : head l = Some x → l ≠ [].
Proof. by intros H ->. Qed.
Lemma first_seq_Ok prior f z : head (rs_shares prior) = Some f → first_seq prior = Ok z → z = as_share_seq f.
Proof.
  unfold first_seq. destruct (rs_shares prior) as [|x l]; [done|]. intros [= ->] (y & Hy & [-> _]%try_from_Ok)%bind_Ok.
  cbn in Hy. by injection Hy as ->.
Qed.
Lemma prior_eligible m prior w anchor cut s :
  ledger_history → evidence m (rs_anchor_ms prior) (rs_cut prior) (rs_cutoff prior) (rs_shares prior) w →
  rs_anchor_ms prior ≤ anchor →
  match rs_cut prior, cut with None, None => True | Some retained, Some cut => covers cut retained = true | _, _ => False end →
  s ∈ rs_shares prior → ∃ r, r ∈ db_rows (tx m) ∧ eligibility anchor cut r = true ∧ share_from_row r = Ok s.
Proof.
  intros Hh He Ha Hc Hs. destruct (ev_rows _ _ _ _ _ _ He s Hs) as (r & Hr & _ & Hw & Hd). exists r. split; [done|]. split; [|done].
  unfold in_window in Hw. apply andb_true_iff in Hw as [Hw _]. apply (eligibility_mono _ anchor _ _ Hh Ha) in Hw.
  unfold window_eligibility in *. apply andb_true_iff in Hw as [-> Hw]. cbn [andb].
  destruct (rs_cut prior), cut; try done. by eapply cut_clause_covers.
Qed.

(** One node's part of the delta: rows inside the cut, up to its entry when
    the entry's row is held. *)
Lemma node_delta_read anchor f retained cut delta pages node n delta' pages' n' :
  node_delta to_timestamp tx f anchor retained cut (delta, pages) node n = Ok ((delta', pages'), n') →
  (n ≤ n')%nat ∧ delta ⊆ delta' ∧ (∀ s, s ∈ delta' → s ∈ delta ∨ read_share anchor (Some cut) n n' s) ∧
  (∀ t r, cut_get cut node = Ok (Some t) → row_share_seq r = t → row_origin_node r = node → eligibility anchor (Some cut) r = true →
    (∀ i, (n ≤ i < n')%nat → r ∈ db_rows (tx i)) →
    (∃ s, s ∈ delta' ∧ t ≤ as_share_seq s) ∨ t < f ∨ ∃ e, cut_get retained node = Ok e ∧ t ≤ default 0 e).
Proof.
  intros Hr. unfold node_delta in Hr. run_as Hr e n1 He. lift He.
  destruct (cut_get cut node) as [entry| |] eqn:Hg; [|done..]. injection He as <-. destruct entry as [high|].
  2:{ apply sql_ret_Ok in Hr as [[= -> ->] ->]. split; [done|]. split; [done|]. split; [by left|]. by intros. }
  run_as Hr h n2 Hhigh. lift Hhigh. apply try_from_Ok in Hhigh as [-> _]. run_as Hr re n3 Hre. lift Hre.
  destruct (cut_get retained node) as [e| |] eqn:Hge; [|done..]. injection Hre as <-. run_as Hr low n4 Hlow. lift Hlow. apply try_from_Ok in Hlow as [-> _].
  pose proof Hr as Hrd. apply (read_delta_read _ _ _ high anchor (Some cut)) in Hrd as (Hle & more & -> & Hread & _); [|intros; by eapply node_page_read].
  split; [done|]. split; [set_solver|]. split. { intros s [?|Hs]%elem_of_app; [by left|]. right. rewrite Forall_forall in Hread. by apply Hread. }
  intros t r [= <-] Hseq Hnode Hel Hheld. destruct (Z.lt_ge_cases (Z.max (default 0 e) (f - 1)) high) as [Hlt|Hge'].
  - left. eapply read_delta_reaches; [|..|exact Hlt| |exact Hr]; [intros from db x Hx%node_page_read; apply Hx| |done].
    intros i from Hi Hfrom. unfold node_delta_page. intros Hnil.
    assert (sort_by seq_asc (filter (fun row => eligibility anchor (Some cut) row && (row_origin_node row =? node) && (from <? row_share_seq row)
                        && (row_share_seq row <=? high) = true) (db_rows (tx i))) = []) as Hs by (destruct (sort_by _ _); [done|discriminate Hnil]).
    assert (r ∈ sort_by seq_asc (filter (fun row => eligibility anchor (Some cut) row && (row_origin_node row =? node) && (from <? row_share_seq row)
                        && (row_share_seq row <=? high) = true) (db_rows (tx i)))) as Hin; [|rewrite Hs in Hin; set_solver].
    apply elem_of_sort_by, list_elem_of_filter. split; [|by apply Hheld]. rewrite !andb_true_iff, Z.eqb_eq, Z.ltb_lt, Z.leb_le. repeat split; try done; lia.
  - right. destruct (Z.le_gt_cases high (default 0 e)); [right; eauto|left; lia].
Qed.
Section advance.
Context (Hh : ledger_history) (m : nat) (prior : RetainedShares) (weight anchor : Z) (Hw : 0 ≤ weight ≤ int_max U128) (Hprior : retained_at m prior).

Lemma delta_plain_acquired cutoff n shares leaf report n' :
  (m ≤ n)%nat → delta_advance to_timestamp tx prior weight anchor cutoff None n = Ok (AdvancedTo shares leaf report, n') →
  (n < n')%nat ∧ fold_newest weight (reverse shares) = (0, length shares) ∧ acquired (pred n') weight anchor None cutoff shares leaf.
Proof.
  intros Hm Hr. unfold delta_advance in Hr. run_as Hr c n1 Hc. lift Hc. apply try_from_Ok in Hc as [-> _]. run_as Hr refused n2 Hrf. lift Hrf.
  destruct refused; [by apply sql_ret_Ok in Hr as [? _]|]. apply refusal_None in Hrf as (Hanchor & _ & f & l & Hf & Hl & Hmode).
  destruct (rs_cut prior) eqn:Hcut; [done|]. run_as Hr fz n3 Hfirst. lift Hfirst. apply (first_seq_Ok _ _ _ Hf) in Hfirst as ->.
  run_as Hr w n4 Hwit. apply leaf_witness_inv in Hwit as [-> Hwit]. destruct w as [w|]; [|by apply sql_ret_Ok in Hr as [? _]].
  destruct (bool_decide_reflect (rs_leaf prior = Some w)) as [Hleaf|]; [|by apply sql_ret_Ok in Hr as [? _]]. cbn [negb] in Hr.
  symmetry in Hwit. apply leaf_rows_inv in Hwit as (Hlive & _). specialize (Hprior w Hleaf).
  run_as Hr from n5 Hfrom. lift Hfrom. apply try_from_Ok in Hfrom as [-> _]. run_as Hr d n6 Hdelta. destruct d as [delta pages].
  apply (read_delta_read _ _ _ cutoff anchor None) in Hdelta as (Hle & more & Hmore & Hread & Hto); [|intros; by apply delta_page_read]. cbn in Hmore. subst more.
  run_as Hr mo n7 Hmargin. destruct mo as [[margin|] report']; [|by apply sql_ret_Ok in Hr as [? _]].
  apply (walk_margin_read (lh_key Hh)) in Hmargin as [older Hmargin]. destruct Hmargin as [Hle' Hrows Holder Hbelow _ _].
  set (merge := merge_delta (rs_shares prior) delta weight) in *.
  assert (∀ s, s ∈ assemble_merge (rs_shares prior) delta merge margin → s ∈ older ∨ s ∈ rs_shares prior ∨ s ∈ delta) as Hfrom.
  { intros s. unfold assemble_merge. rewrite Hrows. unfold merge at 1. rewrite merge_margin_nil, !elem_of_app, elem_of_reverse. cbn [app]. naive_solver eauto using elem_of_drop_sub. }
  eapply (finish_acquired m) in Hr as (? & ? & -> & ?); [split; [lia|done]|done..|apply ev_live with (1 := Hprior)| |].
  - intros s [Hs|[Hs|Hs]]%Hfrom.
    + rewrite Forall_forall in Holder. destruct (Holder _ Hs) as (i & r & Hi & ?). exists i, r. split; [lia|done].
    + destruct (prior_eligible m prior w anchor None s) as (r & ?); [done..| |done|]; [by rewrite Hcut|]. exists m, r. split; [lia|done].
    + rewrite Forall_forall in Hread. destruct (Hread _ Hs) as (i & r & Hi & ?). exists i, r. split; [lia|done].
  - intros l' [= <-] _. split; [|split; [lia|]].
    + assert (∀ s, s ∈ rs_shares prior → as_share_seq s ≤ rs_cutoff prior) as Hcap.
      { intros s Hs. destruct (ev_rows _ _ _ _ _ _ Hprior s Hs) as (r & _ & _ & Hin & Hd). rewrite (share_from_row_seq _ _ Hd).
        unfold in_window in Hin. rewrite Hcut, andb_true_iff, Z.leb_le in Hin. apply Hin. }
      intros s [Hs|[Hs|Hs]]%Hfrom.
      * rewrite Forall_forall in Hbelow. specialize (Hbelow _ Hs). specialize (Hcap f (head_Some_elem_of _ _ Hf)). cbn in Hbelow. lia.
      * specialize (Hcap s Hs). lia.
      * rewrite Forall_forall in Hto. by apply Hto.
    + intros r _. unfold in_window. rewrite andb_true_iff, Z.leb_le. naive_solver.
Qed.

(** The newest row inside the cut is retained, or in the delta. *)
Lemma top_merged f l w retained cut t r delta :
  evidence m (rs_anchor_ms prior) (rs_cut prior) (rs_cutoff prior) (rs_shares prior) w →
  head (rs_shares prior) = Some f → last (rs_shares prior) = Some l → top retained = Some (as_share_seq l) →
  row_share_seq r = t → top cut = Some t → cut_clause (Some cut) r = true →
  (∀ node, (node = 0 ∨ node = 1) → cut_get cut node = Ok (Some t) → row_origin_node r = node →
    (∃ s, s ∈ delta ∧ t ≤ as_share_seq s) ∨ t < as_share_seq f ∨ ∃ e, cut_get retained node = Ok e ∧ t ≤ default 0 e) →
  ∃ s, s ∈ rs_shares prior ++ delta ∧ t ≤ as_share_seq s.
Proof.
  intros He Hf Hl Hretained Hseq Htop Hcl Hread. apply last_Some_elem_of in Hl as Hl'.
  assert (as_share_seq f ≤ as_share_seq l) as Hfl by (eapply sorted_head_le; [exact (ev_sorted _ _ _ _ _ _ He)|done|done]).
  assert (0 ≤ as_share_seq l) as Hpos.
  { destruct (ev_rows _ _ _ _ _ _ He l Hl') as (x & _ & _ & _ & Hd). rewrite (share_from_row_seq _ _ Hd).
    unfold share_from_row in Hd. apply bind_Ok in Hd as (y & [_ Hy]%try_from_Ok & _). apply fits_iff in Hy. change (int_min U64) with 0 in Hy. lia. }
  assert (∀ node e, cut_get retained node = Ok e → default 0 e ≤ as_share_seq l) as Hmax.
  { intros node [e|] Hg; [|done]. cbn. destruct (top_admits _ _ Hretained) as [_ Hx]. apply (Hx node). unfold admits. rewrite Hg. apply Z.leb_refl. }
  destruct (cut_clause_top cut r Hcl) as (t' & Ht' & _ & Hnode). rewrite Htop in Ht'. injection Ht' as <-.
  assert (∃ node, (node = 0 ∨ node = 1) ∧ cut_get cut node = Ok (Some t) ∧ row_origin_node r = node) as (node & Hn & Hg & Ho).
  { destruct (Hnode Hseq) as [[Ho Hn]|[Ho Hn]]; [exists 0|exists 1]; (split; [auto|]); (split; [|done]); unfold cut_get; cbn; by rewrite Hn. }
  destruct (Hread node Hn Hg Ho) as [(s & Hs & Hts)|[Hlt|(e & He' & Hte)]].
  - exists s. set_solver.
  - exists l. split; [set_solver|lia].
  - exists l. split; [set_solver|]. specialize (Hmax _ _ He'). lia.
Qed.
Lemma delta_cut_acquired cutoff cut n shares leaf report n' :
  (m ≤ n)%nat → top_held anchor (Some cut) n n' →
  delta_advance to_timestamp tx prior weight anchor cutoff (Some cut) n = Ok (AdvancedTo shares leaf report, n') →
  (n < n')%nat ∧ fold_newest weight (reverse shares) = (0, length shares) ∧ acquired (pred n') weight anchor (Some cut) cutoff shares leaf.
Proof.
  intros Hm Hheld Hr. unfold delta_advance in Hr. run_as Hr c n1 Hc. lift Hc. apply try_from_Ok in Hc as [-> _]. run_as Hr refused n2 Hrf. lift Hrf.
  destruct refused; [by apply sql_ret_Ok in Hr as [? _]|]. apply refusal_None in Hrf as (Hanchor & _ & f & l & Hf & Hl & Hmode).
  destruct (rs_cut prior) as [retained|] eqn:Hcut; [|done]. destruct Hmode as [Hcov Hretained]. unfold advance_in_cut in Hr.
  run_as Hr rc n3 Hrc. lift Hrc. apply ok_or_Ok in Hrc. rewrite Hcut in Hrc. injection Hrc as <-.
  run_as Hr fz n4 Hfirst. lift Hfirst. apply (first_seq_Ok _ _ _ Hf) in Hfirst as ->. run_as Hr lz n5 Hlz. lift Hlz.
  run_as Hr w n6 Hwit. apply leaf_witness_inv in Hwit as [-> Hwit]. destruct w as [w|]; [|by apply sql_ret_Ok in Hr as [? _]].
  destruct (bool_decide_reflect (rs_leaf prior = Some w)) as [Hleaf|]; [|by apply sql_ret_Ok in Hr as [? _]]. cbn [negb] in Hr.
  clear Hwit. pose proof (Hprior w Hleaf) as Hev.
  run_as Hr d0 n7 Hd0. destruct d0 as [delta0 pages0]. apply node_delta_read in Hd0 as (Hle0 & _ & Hread0 & Hreach0).
  run_as Hr d1 n8 Hd1. destruct d1 as [delta pages]. apply node_delta_read in Hd1 as (Hle1 & Hsub & Hread1 & Hreach1).
  run_as Hr mg n9 Hmerge. lift Hmerge. run_as Hr mo n10 Hmargin. destruct mo as [[margin|] report']; [|by apply sql_ret_Ok in Hr as [? _]].
  apply (walk_margin_read (lh_key Hh)) in Hmargin as [older Hmargin]. destruct Hmargin as [Hle' Hrows Holder Hbelow _ _].
  destruct (merge_cut_delta_spec _ _ _ _ Hmerge (ev_sorted _ _ _ _ _ _ Hev) (head_not_nil _ _ Hf)) as (Hkept & Hnil & newest & Hnewest & Hmax).
  rewrite Hnil in Hrows. cbn in Hrows.
  pose proof Hr as Hn'. apply finish_merged_inv in Hn' as (_ & _ & Hn' & _).
  eapply (finish_acquired m) in Hr as (? & ? & -> & ?); [split; [lia|done]|done..|apply ev_live with (1 := Hev)| |].
  - intros s. unfold assemble_cut. rewrite elem_of_app, elem_of_reverse, Hrows. intros [Hs|[Hs|Hs]%Hkept].
    + rewrite Forall_forall in Holder. destruct (Holder _ Hs) as (i & r & Hi & ?). exists i, r. split; [lia|done].
    + destruct (prior_eligible m prior w anchor (Some cut) s) as (r & ?); [done..| |done|]; [by rewrite Hcut|]. exists m, r. split; [lia|done].
    + destruct (Hread1 _ Hs) as [[Hx|(i & r & Hi & ?)]%Hread0|(i & r & Hi & ?)]; [set_solver|exists i, r; split; [lia|done]..].
  - intros l' Hl' Hsorted. unfold last_seq in Hl'. apply bind_Ok in Hl' as (x & Hx%ok_or_Ok & [-> _]%try_from_Ok).
    assert (x = newest) as ->. { unfold assemble_cut in Hx. rewrite last_app, Hnewest in Hx. by injection Hx. }
    split; [|split; [done|]].
    + apply last_Some in Hx as [init Hinit]. rewrite Hinit in Hsorted |- *. intros s [Hs| ->%list_elem_of_singleton]%elem_of_app; [|done].
      pose proof (StronglySorted_app_1_elem_of _ _ _ s newest Hsorted Hs ltac:(set_solver)) as Hlt. unfold seq_lt in Hlt. lia.
    + intros r _ Hin. unfold in_window in Hin. rewrite andb_true_r in Hin. unfold window_eligibility in Hin. apply andb_true_iff in Hin as [_ Hin].
      destruct (cut_clause_top cut r Hin) as (t & Ht & Hrt & _). destruct (Hheld cut t eq_refl Ht) as (top & Htop & Hel & Hthere).
      etransitivity; [exact Hrt|]. assert (cut_clause (Some cut) top = true) as Hcl. { unfold window_eligibility in Hel. by apply andb_true_iff in Hel as [_ ?]. }
      destruct (top_merged f l w retained cut t top delta) as (s & Hs & Hts); try done; [|specialize (Hmax _ Hs); lia].
      intros node [->| ->] Hg Ho.
      * destruct (Hreach0 t top Hg Htop Ho Hel) as [(s & Hs & ?)|[?|?]]; [intros i Hi; apply Hthere; lia|left; exists s; split; [by apply Hsub|done]|auto..].
      * apply (Hreach1 t top Hg Htop Ho Hel). intros i Hi. apply Hthere. lia.
Qed.
End advance.

(** The full scan, when its leaf checks agree. *)
Lemma full_scan_acquired weight anchor cutoff cursor cut report n a n' w :
  ledger_history → cursor = cutoff + 1 → full_scan to_timestamp tx weight anchor cutoff cursor cut report n = Ok (a, n') → aq_leaf a = Some w →
  (n < n')%nat ∧ acquired (pred n') weight anchor cut cutoff (aq_shares a) w.
Proof.
  intros Hh -> Hr Ha. unfold full_scan in Hr. run_as Hr tp n1 Htc. destruct tp as [top c]. lift Htc. run_as Hr before n2 Hbefore.
  run_as Hr sp n3 Hscan. destruct sp as [scan pages]. apply (scan_loop_read (lh_key Hh)) in Hscan as [more [Hle Hrows Hread Hbelow Hdesc Hfold]].
  cbn in Hrows. subst more. run_as Hr u n4 Hu. lift Hu. run_as Hr after n5 Hafter. apply sql_ret_Ok in Hr as [-> ->]. cbn in Ha.
  destruct after as [w'|]; [|done]. destruct (bool_decide_reflect (before = Some w')) as [->|]; [|done]. injection Ha as ->.
  destruct top as [t|]; [|by apply sql_ret_Ok in Hbefore as [? _]]. apply leaf_witness_inv in Hbefore as [-> Hlive].
  symmetry in Hlive. apply leaf_rows_inv in Hlive as (Hlive & _). cbn.
  destruct (head (reverse (mg_rows scan))) as [f|] eqn:Hf; [|by apply sql_ret_Ok in Hafter as [? _]].
  run_as Hafter fz n6 Hfz. lift Hfz. apply try_from_Ok in Hfz as [-> _]. run_as Hafter cz n7 Hcz. lift Hcz. apply try_from_Ok in Hcz as [-> _].
  apply leaf_witness_inv in Hafter as [-> Hafter]. symmetry in Hafter. cbn. split; [lia|].
  assert (c = t + 1 ∧ (∀ r, in_window anchor cut cutoff r = true → row_share_seq r ≤ t) ∧ (cut = None → t ≤ cutoff)) as (-> & Htop & Hcut).
  { unfold scan_top in Htc. destruct cut as [cut|].
    - apply bind_Ok in Htc as (o & Ho & Htc). apply bind_Ok in Htc as (c' & Hc & [= -> ->]). destruct (WindowCut.top cut) as [t'|] eqn:Ht; [|done].
      destruct (try_from I64 t') as [t2| |] eqn:Ht2; [|done..]. injection Ho as <-. apply try_from_Ok in Ht2 as [-> _]. cbn in Hc. apply expect_Ok, checked_Some in Hc as [-> _]. split; [done|]. split; [|done].
      intros r Hin. unfold in_window in Hin. rewrite andb_true_r in Hin. unfold window_eligibility in Hin. apply andb_true_iff in Hin as [_ Hin].
      destruct (cut_clause_top cut r Hin) as (t3 & Ht3 & ? & _). congruence.
    - injection Htc as <- <-. split; [done|]. split; [|done]. intros r. unfold in_window. rewrite andb_true_iff, Z.leb_le. naive_solver. }
  assert (Hfolded := Hfold weight eq_refl). rewrite Forall_forall in Hread, Hbelow.
  eapply counted_acquired; [done| |exact Hf| | | |exact Hcut|exact Hafter].
  - by apply StronglySorted_reverse.
  - rewrite reverse_involutive, length_reverse, Hfolded. done.
  - intros s Hs. rewrite elem_of_reverse in Hs. split; [specialize (Hbelow _ Hs); cbn in Hbelow; lia|]. destruct (Hread _ Hs) as (i & r & Hi & ?).
    exists i, r. split; [lia|]. split; [|done]. pose proof (leaf_rows_inv _ _ _ _ _ _ _ Hafter) as (? & _). apply (lh_live Hh w n i n3); [lia|done..].
  - intros r _ Hin. by apply Htop.
Qed.

(** C7: a refresh snapshot that carries a leaf witness is the newest rows of the
    anchored ledger as of its last statement, with no row below the one that
    meets the target weight, whichever path acquired it; and it is evidence
    for the next refresh, so chains of delta refreshes never drift from the
    ledger. *)
Theorem snapshot_window_exact m prior weight anchor cutoff cut n a n' w :
  ledger_history → (∀ p, prior = Some p → retained_at m p) → (m ≤ n)%nat → 0 ≤ weight ≤ int_max U128 → top_held anchor cut n n' →
  acquire to_timestamp tx prior weight anchor cutoff cut n = Ok (a, n') → aq_leaf a = Some w →
  acquired (pred n') weight anchor cut cutoff (aq_shares a) w ∧
  ∀ network, retained_at (pred n') {| rs_network := network; rs_anchor_ms := anchor; rs_cutoff := cutoff; rs_cut := cut;
                                      rs_shares := aq_shares a; rs_leaf := aq_leaf a |}.
Proof.
  intros Hh Hp Hm Hw Ht Hr Ha. assert (acquired (pred n') weight anchor cut cutoff (aq_shares a) w) as Hacq.
  { unfold acquire in Hr. run_as Hr c n1 Hc. lift Hc. apply ok_or_Ok in Hc. unfold checked_add in Hc. apply checked_Some in Hc as [-> _].
    run_as Hr adv n2 Hadv. destruct adv as [shares leaf report|report].
    - run_as Hr u n3 Hu. lift Hu. apply sql_ret_Ok in Hr as [-> ->]. injection Ha as ->. destruct prior as [p|]; [|by apply sql_ret_Ok in Hadv as [? _]].
      destruct cut; [eapply delta_cut_acquired|eapply delta_plain_acquired]; try done; by apply Hp.
    - by eapply full_scan_acquired. }
  split; [done|]. intros network w' Hw'. cbn in Hw' |- *. rewrite Ha in Hw'. injection Hw' as <-. apply (aq_evidence _ _ _ _ _ _ _ Hacq).
Qed.
End facts.

(** * A ledger that grows between two refreshes *)
Module GrowingLedger.
Definition clock (ms : Z) : Z := ms * 1000.
Definition row (n : Z) : Row := {|
  row_share_seq := n; row_share_id := "s" +:+ pretty n; row_miner_id := "m"; row_payout_order_key := "m"; row_program := "aa";
  row_difficulty := "10"; row_network_difficulty := "100"; row_template_height := 7; row_job_id := "j"; row_job_issued_at := n;
  row_accepted_at := n; row_ntime := 1; row_credit_policy := None; row_accepted := true; row_origin_node := n mod 2; row_tableoid := 42 |}.
Definition share (n : Z) : AcceptedShare := {|
  as_share_seq := n; as_share_id := "s" +:+ pretty n; as_miner_id := "m"; as_order_key := "m"; as_p2mr_program_hex := "aa";
  as_share_difficulty := 10; as_network_difficulty := 100; as_template_height := 7; as_job_id := "j"; as_job_issued_at_ms := 0;
  as_accepted_at_ms := 0; as_ntime := 1; as_credit_policy := None |}.
Definition db (rows : list Z) : Db := {| db_rows := row <$> rows; db_inherits := {[42 := "900"]}; db_timeline := "t"; db_peer_mark := None |}.
(** Rows 1 to 3 at the first acquisition, 1 to 5 at every statement of the next. *)
Definition tx (n : nat) : Db := match n with O => db [1; 2; 3] | S _ => db [1; 2; 3; 4; 5] end.
Definition leaf : LeafWitness := {| lw_tableoid := 42; lw_inherits_xmin := "900"; lw_timeline := "t" |}.
Definition prior (cut : option WindowCut) : RetainedShares := {|
  rs_network := 100; rs_anchor_ms := 10; rs_cutoff := 3; rs_cut := cut; rs_shares := [share 2; share 3]; rs_leaf := Some leaf |}.
Definition cut_before : WindowCut := {| node_0 := Some 2; node_1 := Some 3 |}.
Definition cut_after : WindowCut := {| node_0 := Some 4; node_1 := Some 5 |}.

Lemma history : ledger_history clock tx.
Proof.
  assert (∀ i r, r ∈ db_rows (tx i) → row_tableoid r = 42) as Hoid.
  { intros i r Hr. destruct i; cbn in Hr; repeat (apply elem_of_cons in Hr as [->|Hr]; [done|]); by apply elem_of_nil in Hr. }
  split.
  - intros [|i]; vm_compute; repeat (apply NoDup_cons; split; [by apply (bool_decide_unpack _)|]); apply NoDup_nil_2.
  - intros i j k a b c Ha Hb Hc _ _. by rewrite (Hoid _ _ Ha), (Hoid _ _ Hb).
  - intros w i [|j] [|k] Hi; destruct i as [|i]; unfold live; cbn; try done; lia.
  - intros w [|i] [|j] r Hi _ _ Hr _; cbn in *; [done| |lia|done]. set_solver.
  - unfold clock. lia.
Qed.
Lemma retained : retained_at clock tx 0 (prior (Some cut_before)).
Proof.
  intros w [= <-]. split; [done|repeat constructor; unfold seq_lt; cbn; lia|].
  intros s Hs. apply elem_of_cons in Hs as [->|[->|Hs%elem_of_nil]%elem_of_cons]; [exists (row 2)|exists (row 3)|done];
    (split; [set_solver|]); vm_compute; done.
Qed.
Lemma held : top_held clock tx 10 (Some cut_after) 1 6.
Proof. intros c t [= <-] [= <-]. exists (row 5). split; [done|]. split; [done|]. intros [|i] Hi; [lia|]. cbn. set_solver. Qed.
End GrowingLedger.

Lemma snapshot_window_exact_witness :
  acquired GrowingLedger.clock GrowingLedger.tx 5 30 10 (Some GrowingLedger.cut_after) 5 (GrowingLedger.share <$> [3; 4; 5]) GrowingLedger.leaf.
Proof.
  refine (proj1 (snapshot_window_exact GrowingLedger.clock GrowingLedger.tx 0 (Some (GrowingLedger.prior (Some GrowingLedger.cut_before))) 30 10 5
    (Some GrowingLedger.cut_after) 1 {| aq_shares := GrowingLedger.share <$> [3; 4; 5]; aq_leaf := Some GrowingLedger.leaf; aq_report := _ |} 6
    GrowingLedger.leaf GrowingLedger.history _ _ _ GrowingLedger.held _ _)).
  - intros p [= <-]. apply GrowingLedger.retained.
  - lia.
  - split; by vm_compute.
  - vm_compute. reflexivity.
  - reflexivity.
Defined.

(** A stored cut reads back. *)
Lemma cut_columns_roundtrip cut :
  (∀ c, cut = Some c → wf_cut c ∧ ∀ e, node_0 c = Some e ∨ node_1 c = Some e → e ≤ int_max I64) →
  ∃ n0 n1, cut_columns cut = Ok (n0, n1) ∧ cut_from_columns n0 n1 = Ok cut.
Proof.
  intros Hc. destruct cut as [[n0 n1]|]; [|by exists None, None]. destruct (Hc _ eq_refl) as [[H0 H1] Hmax]. cbn in *.
  assert (∀ e, node_0 {| node_0 := n0; node_1 := n1 |} = Some e ∨ node_1 {| node_0 := n0; node_1 := n1 |} = Some e → 1 ≤ e → fits I64 e = true ∧ fits U64 e = true) as Hfit.
  { intros e He Hp. specialize (Hmax e He). rewrite !fits_iff. unfold int_min, int_max in *. lia. }
  exists (Some (default 0 n0)), (Some (default 0 n1)). unfold cut_columns, cut_values, cut_from_columns, positive_entry, try_from. cbn.
  destruct n0 as [a|], n1 as [b|]; cbn in *;
    repeat match goal with
    | H : ∀ e, _ → 1 ≤ e → _ |- context [checked I64 ?z] => let Hx := fresh in assert (fits I64 z = true ∧ fits U64 z = true) as Hx by (apply H; [auto|lia]);
        rewrite (checked_fits I64 z) by apply Hx; rewrite (checked_fits U64 z) by apply Hx; clear Hx; cbn
    end; change (checked U64 0) with (Some 0); cbn; rewrite ?(proj2 (Z.eqb_neq a 0)), ?(proj2 (Z.eqb_neq b 0)) by lia; cbn; unfold cut_new; cbn;
    rewrite ?(proj2 (Z.eqb_neq a 0)), ?(proj2 (Z.eqb_neq b 0)) by lia; done.
Qed.
