(* ===== verification/TipState.v ===== *)
(** Which tip owns miner work (qbit-prism-server/src/coordinator/
    tip_observation.rs and publication_authority.rs): the observed and the
    published tip, the replacement lease, and the admissions that carry a lease
    or a deadline through later waits.

    An [Instant] is a monotonic reading in nanoseconds, and a [Duration] a
    number of them.  Every operation that reads the clock takes the reading as
    its argument; the code that holds the authority locks reads it once per
    hold.  [Instant::checked_add] fails past [instant_max], the platform's last
    representable instant.  Of a [Prepared] the fields the authority reads are
    kept: [pr_parent] is [template["previousblockhash"].as_str()]. *)
From Stdlib Require Import ZArith Lia.
From stdpp Require Import base list strings.
From S2P Require Import Prelude WindowCut FanoutFee Codec RetainedJobs.

Open Scope Z_scope.

(** * Data *)
Record ShareRange := { first_share_seq : Z; last_share_seq : Z; share_count : Z; snapshot_sha256 : list Z }.
#[export] Instance share_range_eq_dec : EqDecision ShareRange.
Proof. solve_decision. Defined.
Record WindowRef := {
  wr_anchor_ms : Z;
  wr_prior_balances_digest : list Z;
  wr_shares : option ShareRange;
  wr_cut : option WindowCut;
}.
#[export] Instance window_ref_eq_dec : EqDecision WindowRef.
Proof. solve_decision. Defined.
#[export] Instance fee_policy_eq_dec : EqDecision FanoutFeeRatePolicy.
Proof. solve_decision. Defined.

Record Prepared := {
  pr_storage_key : string;
  pr_generation : Z;
  pr_fingerprint : string;
  pr_window : WindowRef;
  pr_payout_revision : Z;
  pr_parent : option string;
  pr_fee : option FanoutFeeRatePolicy;
  pr_timeline : option Z;
}.
Record PreparedIdentity := {
  pi_key : string;
  pi_generation : Z;
  pi_fingerprint : string;
  pi_window : WindowRef;
  pi_revision : Z;
  pi_parent : option string;
  pi_timeline : option Z;
}.
Definition matches (i : PreparedIdentity) (p : Prepared) : bool :=
  bool_decide (pi_key i = pr_storage_key p) && (pi_generation i =? pr_generation p)
  && bool_decide (pi_fingerprint i = pr_fingerprint p) && bool_decide (pi_window i = pr_window p)
  && (pi_revision i =? pr_payout_revision p) && bool_decide (pi_parent i = pr_parent p).
Definition identity_of (p : Prepared) : PreparedIdentity := {|
  pi_key := pr_storage_key p; pi_generation := pr_generation p; pi_fingerprint := pr_fingerprint p; pi_window := pr_window p;
  pi_revision := pr_payout_revision p; pi_parent := pr_parent p; pi_timeline := pr_timeline p |}.

(** * The tips *)
Record TipView := {
  tv_hash : string;
  tv_parent : option string;
  tv_transitioned : bool;
  tv_share_lease : bool;
  tv_observed_at : Z;
  tv_sequence : Z;
}.
Record TipState := {
  ts_current : option TipView;
  ts_published : option TipView;
  ts_divergence_started : option Z;
  ts_requested : Z;
  ts_publication_generation : Z;
  ts_tip_generation : Z;
}.
Definition tip_default : TipState := {|
  ts_current := None; ts_published := None; ts_divergence_started := None; ts_requested := 0;
  ts_publication_generation := 0; ts_tip_generation := 0 |}.

(** [Instant::elapsed] and [Instant::checked_add]. *)
Definition elapsed (now at_ : Z) : Z := Z.max 0 (now - at_).
Definition has_hash (hash : string) (tip : TipView) : bool := bool_decide (tv_hash tip = hash).
Definition is_some_and {A} (p : A -> bool) (o : option A) : bool := from_option p false o.
Definition is_none_or {A} (p : A -> bool) (o : option A) : bool := from_option p true o.
Definition filtered {A} (p : A -> bool) (o : option A) : option A := x ← o; if p x then Some x else None.

Definition publication_stamp (s : TipState) : option (string * Z) :=
  (fun tip => (tv_hash tip, ts_publication_generation s)) <$> ts_published s.
Definition issuance_tip (s : TipState) : option (string * Z) :=
  (fun tip => (tv_hash tip, ts_tip_generation s)) <$> ts_published s.
(** [TipState::as_deref]. *)
Definition observed (s : TipState) : option string := tv_hash <$> ts_current s.
Definition refresh_pending (s : TipState) (build_budget now : Z) : bool :=
  is_some_and (fun current => is_none_or (fun published => negb (has_hash (tv_hash current) published)) (ts_published s)) (ts_current s)
  && negb (build_budget =? 0)
  && is_some_and (fun at_ => elapsed now at_ <=? build_budget) (ts_divergence_started s).
Definition superseded_since (s : TipState) (hash : string) (since : Z) : bool :=
  is_some_and (fun tip => negb (has_hash hash tip) && (since <? tv_observed_at tip)) (ts_current s).
Definition polled_published (s : TipState) (hash : string) (sequence : Z) : bool :=
  is_some_and (fun tip => has_hash hash tip && (sequence <=? tv_sequence tip)) (ts_current s)
  && is_some_and (has_hash hash) (ts_published s).

Definition reserve {E} (s : TipState) : result E (TipState * Z) :=
  requested ← expect (checked_add U64 (ts_requested s) 1) "tip sequence exhausted";
  Ok ({| ts_current := ts_current s; ts_published := ts_published s; ts_divergence_started := ts_divergence_started s;
         ts_requested := requested; ts_publication_generation := ts_publication_generation s;
         ts_tip_generation := ts_tip_generation s |}, requested).

Definition observed_now (now sequence : Z) (tip : TipView) : TipView := {|
  tv_hash := tv_hash tip; tv_parent := tv_parent tip; tv_transitioned := tv_transitioned tip; tv_share_lease := tv_share_lease tip;
  tv_observed_at := now; tv_sequence := sequence |}.
Definition tip_view (hash : string) (now sequence : Z) : TipView := {|
  tv_hash := hash; tv_parent := None; tv_transitioned := false; tv_share_lease := false; tv_observed_at := now; tv_sequence := sequence |}.
Definition observe (now : Z) (s : TipState) (hash : string) (sequence : Z) (from_refresh : bool) : TipState :=
  if is_some_and (fun tip => sequence <? tv_sequence tip) (ts_current s) then s else
  let current := match filtered (has_hash hash) (ts_current s) with
                 | Some current => observed_now now sequence current
                 | None => tip_view hash now sequence
                 end in
  let '(published, divergence) :=
    if from_refresh then
      match filtered (has_hash hash) (ts_published s) with
      | Some published => (Some (observed_now now (tv_sequence published) published), None)
      | None => (ts_published s, Some (default now (ts_divergence_started s)))
      end
    else (ts_published s, ts_divergence_started s) in
  {| ts_current := Some current; ts_published := published; ts_divergence_started := divergence; ts_requested := ts_requested s;
     ts_publication_generation := ts_publication_generation s; ts_tip_generation := ts_tip_generation s |}.

(** The generations are the caller's: [publish] sets them after this returns. *)
Definition update_published_tip (now : Z) (s : TipState) (hash : string) : result anyhow TipState :=
  current ← ok_or (filtered (has_hash hash) (ts_current s)) ["tip observation superseded before work publication"];
  let transitioned := is_some_and (fun old => negb (has_hash hash old) || tv_transitioned old) (ts_published s) in
  let current := {| tv_hash := tv_hash current; tv_parent := tv_parent current; tv_transitioned := transitioned;
                    tv_share_lease := tv_share_lease current; tv_observed_at := now; tv_sequence := tv_sequence current |} in
  Ok {| ts_current := ts_current s; ts_published := Some current; ts_divergence_started := None; ts_requested := ts_requested s;
        ts_publication_generation := ts_publication_generation s; ts_tip_generation := ts_tip_generation s |}.
Definition publish (now : Z) (s : TipState) (hash : string) : result anyhow TipState :=
  generation ← ok_or (checked_add U64 (ts_publication_generation s) 1) ["prepared publication generation exhausted"];
  tip_generation ← (if is_some_and (has_hash hash) (ts_published s) then Ok (ts_tip_generation s)
                    else ok_or (checked_add U64 (ts_tip_generation s) 1) ["published tip generation exhausted"]);
  s ← update_published_tip now s hash;
  Ok {| ts_current := ts_current s; ts_published := ts_published s; ts_divergence_started := ts_divergence_started s;
        ts_requested := ts_requested s; ts_publication_generation := generation; ts_tip_generation := tip_generation |}.
Definition refresh_publication (now : Z) (s : TipState) (hash : string) : result anyhow TipState :=
  _ ← ensure (is_some_and (has_hash hash) (ts_published s)) "cached work publication changed";
  update_published_tip now s hash.
Definition baseline (now : Z) (hash : string) : result anyhow TipState :=
  '(state, sequence) ← reserve tip_default;
  match publish now (observe now state hash sequence true) hash with
  | Ok state => Ok state
  | Err _ => Panic "baseline observation exists"
  | Panic msg => Panic msg
  end.
Definition retention_hint (s : TipState) : option RetentionTip :=
  (fun tip => {| rt_hash := tv_hash tip; rt_parent := tv_parent tip; rt_transitioned := tv_transitioned tip |}) <$> ts_published s.
(** The write at the end of [tip_parent]: a slow lookup never overwrites a
    newer view. *)
Definition record_parent (s : TipState) (selected : TipView) (parent : string) : TipState :=
  let record tip :=
    if has_hash (tv_hash selected) tip && (tv_sequence tip =? tv_sequence selected)
    then {| tv_hash := tv_hash tip; tv_parent := Some parent; tv_transitioned := tv_transitioned tip; tv_share_lease := tv_share_lease tip;
            tv_observed_at := tv_observed_at tip; tv_sequence := tv_sequence tip |}
    else tip in
  {| ts_current := record <$> ts_current s; ts_published := record <$> ts_published s; ts_divergence_started := ts_divergence_started s;
     ts_requested := ts_requested s; ts_publication_generation := ts_publication_generation s; ts_tip_generation := ts_tip_generation s |}.

Definition authority (s : TipState) (max_age build_budget now : Z) : option TipView :=
  published ← ts_published s;
  if max_age =? 0 then None else
  let diverged := is_some_and (fun tip => negb (has_hash (tv_hash published) tip)) (ts_current s) in
  let lease := diverged && negb (build_budget =? 0)
               && is_some_and (fun at_ => elapsed now at_ <=? build_budget) (ts_divergence_started s) in
  if (max_age <? elapsed now (tv_observed_at published)) && negb lease then None else
  Some {| tv_hash := tv_hash published; tv_parent := tv_parent published; tv_transitioned := tv_transitioned published;
          tv_share_lease := diverged; tv_observed_at := tv_observed_at published; tv_sequence := tv_sequence published |}.

(** * Readiness *)
Record ReadinessState := {
  rd_last_poll : option Z;
  rd_generation : Z;
  rd_ctv_fee_floor : option Z;
  rd_ctv_fee_floor_read : option Z;
  rd_poll_renews : bool;
  rd_refresh_failed_on_database : bool;
}.
Definition revoke {E} (r : ReadinessState) : result E ReadinessState :=
  generation ← expect (checked_add U64 (rd_generation r) 1) "readiness generation exhausted";
  Ok {| rd_last_poll := None; rd_generation := generation; rd_ctv_fee_floor := rd_ctv_fee_floor r;
        rd_ctv_fee_floor_read := rd_ctv_fee_floor_read r; rd_poll_renews := rd_poll_renews r;
        rd_refresh_failed_on_database := rd_refresh_failed_on_database r |}.
Definition record_fee_floor (r : ReadinessState) (floor requested : Z) : ReadinessState :=
  if is_none_or (fun read => read <=? requested) (rd_ctv_fee_floor_read r)
  then {| rd_last_poll := rd_last_poll r; rd_generation := rd_generation r; rd_ctv_fee_floor := Some floor;
          rd_ctv_fee_floor_read := Some requested; rd_poll_renews := rd_poll_renews r;
          rd_refresh_failed_on_database := rd_refresh_failed_on_database r |}
  else r.

(** * Leases *)
Record Config := { submit_tip_max_age : Z; template_refresh_failure_exit : Z; health_timeout : Z }.
(** The authority locks held for reading, and the clock while they are. *)
Record AuthorityView := { av_prepared : option Prepared; av_readiness : ReadinessState; av_tip : TipState; av_now : Z }.
Inductive TipRefusal := PollingStale | PollingUnavailable | NewTipPending.
Definition refusal_text (r : TipRefusal) : string :=
  match r with
  | PollingStale => "tip polling stale"
  | PollingUnavailable => "tip polling unavailable"
  | NewTipPending => "new tip work is pending"
  end.
Record PublishedLease := {
  pl_identity : PreparedIdentity;
  pl_published_tip : option (string * Z);
  pl_readiness_epoch : Z;
  pl_current_revision : Z;
  pl_deadline : Z;
}.
Inductive LeaseSelection := Selected (current : Prepared) (tip : TipView) | Stale | Unavailable.
Inductive WorkRefusal := Superseded | WindowNotHeld.
#[export] Instance work_refusal_eq_dec : EqDecision WorkRefusal.
Proof. solve_decision. Defined.

Section authority.
Context (instant_max : Z) (config : Config).
Abbreviation max_age := (submit_tip_max_age config).
Abbreviation budget := (template_refresh_failure_exit config).

Definition instant_add (at_ duration : Z) : option Z := if at_ + duration <=? instant_max then Some (at_ + duration) else None.
Definition lease_deadline (s : TipState) (max_age build_budget : Z) : result anyhow Z :=
  published ← ok_or (ts_published s) ["published tip missing"];
  ordinary ← ok_or (instant_add (tv_observed_at published) max_age) ["tip authority deadline overflow"];
  match filtered (fun _ => negb (build_budget =? 0)) (ts_divergence_started s) with
  | Some at_ => replacement ← ok_or (instant_add at_ build_budget) ["replacement lease deadline overflow"]; Ok (Z.max ordinary replacement)
  | None => Ok ordinary
  end.

Definition revision_for (lease : PublishedLease) (prepared : Prepared) : option Z :=
  if matches (pl_identity lease) prepared then Some (pl_current_revision lease) else None.
Definition select_with_cause (lease : PublishedLease) (view : AuthorityView) : result anyhow LeaseSelection :=
  let now := av_now view in
  let parent := pi_parent (pl_identity lease) in
  _ ← ensure ((rd_generation (av_readiness view) =? pl_readiness_epoch lease) && is_some_and (fun _ => true) (rd_last_poll (av_readiness view)))
        "node readiness changed during replacement lease admission";
  match filtered (matches (pl_identity lease)) (av_prepared view) with
  | None => Ok Stale
  | Some current =>
      if negb (bool_decide (publication_stamp (av_tip view) = pl_published_tip lease)) then Ok Stale else
      match authority (av_tip view) max_age budget now with
      | None => Ok (if negb (bool_decide (observed (av_tip view) = parent)) && (pl_deadline lease <? now) then Stale else Unavailable)
      | Some tip =>
          let kept := bool_decide (Some (tv_hash tip) = parent)
                      && (tv_share_lease tip && (now <=? pl_deadline lease)
                          || bool_decide (observed (av_tip view) = parent) && (pl_current_revision lease =? pi_revision (pl_identity lease))) in
          _ ← ensure (negb (kept && negb (tv_share_lease tip))
                      || is_some_and (fun poll => elapsed now poll <? health_timeout config) (rd_last_poll (av_readiness view)))
                (refusal_text PollingStale);
          Ok (if kept then Selected current tip else Stale)
      end
  end.
Definition select (lease : PublishedLease) (view : AuthorityView) : result anyhow (option (Prepared * TipView)) :=
  selection ← select_with_cause lease view;
  Ok match selection with Selected current tip => Some (current, tip) | Stale | Unavailable => None end.

(** [LeaseCommitFence]: the synchronous hook before a commit, and the wait
    after a contended one. *)
Inductive LeaseCommitRefusal := RefusedStale | RefusedUnavailable | Contended.
Definition authorize (lease : PublishedLease) (expires_at : option Z) (view : AuthorityView) : result LeaseCommitRefusal unit :=
  if is_some_and (fun at_ => at_ <=? av_now view) expires_at then Err RefusedStale else
  match select_with_cause lease view with
  | Ok (Selected _ _) => Ok ()
  | Ok Stale => Err RefusedStale
  | Ok Unavailable | Err _ => Err RefusedUnavailable
  | Panic msg => Panic msg
  end.
Definition with_authority (lease : PublishedLease) (expires_at : option Z) (view : option AuthorityView) (commit : bool)
  : result LeaseCommitRefusal bool :=
  match view with
  | None => Err Contended
  | Some view => _ ← authorize lease expires_at view; Ok commit
  end.

(** [AbsoluteDeadline]: the clock request's own wait counts. *)
Definition from_database (now_ms requested_at expires_at_ms : Z) : result anyhow Z :=
  remaining ← (if expires_at_ms <=? now_ms then Ok 0 else ok_or (checked_sub I64 expires_at_ms now_ms) ["expiry clock overflow"]);
  ok_or (instant_add requested_at (remaining * 1000000)) ["expiry deadline overflow"].
Definition live (deadline now : Z) : bool := now <? deadline.

(** * Admissions *)
(** What the waits of one admission answer: the clocked read, whether the
    primary holds the window, the locks, the payout state, the locks again, and
    the clock when each deadline is checked. *)
Record ClockedRevision := { cr_now_ms : Z; cr_payout_revision : Z; cr_timeline : Z }.
Record PayoutState := { ps_payout_revision : Z; ps_prior_balances_digest : list Z }.
Record Waits := {
  wt_requested_at : Z;
  wt_read : result anyhow ClockedRevision;
  wt_read_at : Z;
  wt_window_held : result anyhow bool;
  wt_view : AuthorityView;
  wt_payout_state : result anyhow PayoutState;
  wt_lease_view : AuthorityView;
  wt_done_at : Z;
}.
Record WorkAuthority := { wa_revision : Z; wa_lease : option PublishedLease; wa_deadline : option Z }.
Definition prove_published_lease (identity : PreparedIdentity) (published_tip : option (string * Z)) (readiness_epoch deadline : Z)
    (payout_state : result anyhow PayoutState) (view : AuthorityView) : result anyhow (option (Prepared * TipView * PublishedLease)) :=
  state ← payout_state;
  let lease := {| pl_identity := identity; pl_published_tip := published_tip; pl_readiness_epoch := readiness_epoch;
                  pl_current_revision := ps_payout_revision state; pl_deadline := deadline |} in
  selected ← select lease view;
  if is_some_and (fun '(_, tip) => tv_share_lease tip) selected
     && negb (bool_decide (ps_prior_balances_digest state = wr_prior_balances_digest (pi_window identity)))
  then Ok None
  else Ok ((fun '(current, tip) => (current, tip, lease)) <$> selected).

(** The end of [work_authority_in_epoch]: the lease's proof, or the revision. *)
Definition prove_admission (identity : PreparedIdentity) (published_tip : option (string * Z)) (readiness_epoch : Z) (clock : option Z)
    (revision : Z) (deadline : option Z) (w : Waits) : result anyhow (option WorkAuthority) :=
  match deadline with
  | Some deadline =>
      proved ← prove_published_lease identity published_tip readiness_epoch deadline (wt_payout_state w) (wt_lease_view w);
      Ok match proved with
         | Some (_, _, lease) => Some {| wa_revision := pl_current_revision lease; wa_lease := Some lease; wa_deadline := clock |}
         | None => None
         end
  | None => Ok (if pi_revision identity =? revision then Some {| wa_revision := revision; wa_lease := None; wa_deadline := clock |} else None)
  end.
Definition work_authority_in_epoch (identity : PreparedIdentity) (expires_at_ms : option Z) (readiness_epoch : Z) (w : Waits)
  : result anyhow (WorkRefusal + WorkAuthority) :=
  read ← wt_read w;
  clock ← (match expires_at_ms with
           | Some expires => Some <$> from_database (cr_now_ms read) (wt_requested_at w) expires
           | None => Ok None
           end : result anyhow (option Z));
  if is_some_and (fun clock => negb (live clock (wt_read_at w))) clock then Ok (inl Superseded) else
  held ← (if bool_decide (pi_timeline identity = Some (cr_timeline read)) then Ok true else wt_window_held w);
  if negb held then Ok (inl WindowNotHeld) else
  let view := wt_view w in
  let selected := av_tip view in
  _ ← ensure (rd_generation (av_readiness view) =? readiness_epoch) "node readiness changed during work admission";
  parent ← ok_or (pi_parent identity) ["job parent missing"];
  let authority := authority selected max_age budget (av_now view) in
  let leased := is_some_and (fun tip => has_hash parent tip && tv_share_lease tip) authority in
  last_poll ← ok_or (rd_last_poll (av_readiness view)) [refusal_text PollingUnavailable];
  let polled := elapsed (av_now view) last_poll <? health_timeout config in
  if leased && negb (is_some_and (matches identity) (av_prepared view)) then Ok (inl Superseded) else
  if negb (bool_decide (observed selected = Some parent)) && negb leased then
    let current_parent := av_prepared view ≫= pr_parent in
    let current_leased := is_some_and (fun tip => tv_share_lease tip && bool_decide (Some (tv_hash tip) = current_parent)) authority in
    _ ← ensure (bool_decide (current_parent ≠ None) && (bool_decide (current_parent = observed selected) || current_leased))
          (refusal_text NewTipPending);
    _ ← ensure (polled || current_leased) (refusal_text PollingStale);
    Ok (inl Superseded)
  else
  _ ← ensure (polled || leased) (refusal_text PollingStale);
  let published_tip := publication_stamp selected in
  deadline ← (if leased then Some <$> lease_deadline selected max_age budget else Ok None : result anyhow (option Z));
  admitted ← prove_admission identity published_tip readiness_epoch clock (cr_payout_revision read) deadline w;
  if is_some_and (fun clock => negb (live clock (wt_done_at w))) clock then Ok (inl Superseded) else
  Ok match admitted with Some a => inr a | None => inl Superseded end.

(** ** Issuance proofs *)
Record SameTipIssue := { st_tip : string * Z; st_fee : option FanoutFeeRatePolicy }.
Definition holds (issue : SameTipIssue) (identity : PreparedIdentity) (view : AuthorityView) : bool :=
  bool_decide (issuance_tip (av_tip view) = Some (st_tip issue))
  && is_some_and (fun current =>
       bool_decide (pi_parent identity = pr_parent current) && (pi_revision identity =? pr_payout_revision current)
       && bool_decide (wr_prior_balances_digest (pi_window identity) = wr_prior_balances_digest (pr_window current))
       && bool_decide (pr_fee current = st_fee issue)) (av_prepared view).
Record IssuanceAuthority := {
  ia_identity : PreparedIdentity;
  ia_readiness_epoch : Z;
  ia_published_tip : option (string * Z);
  ia_lease : option PublishedLease;
  ia_deadline : option Z;
  ia_expires_at_ms : option Z;
  ia_same_tip : option SameTipIssue;
  ia_refusal : option WorkRefusal;
}.
Definition fresh_issuance (prepared : Prepared) (view : AuthorityView) : result anyhow IssuanceAuthority :=
  tip ← ok_or (issuance_tip (av_tip view)) ["no published tip for fresh work"];
  Ok {| ia_identity := identity_of prepared; ia_readiness_epoch := rd_generation (av_readiness view);
        ia_published_tip := publication_stamp (av_tip view); ia_lease := None; ia_deadline := None; ia_expires_at_ms := None;
        ia_same_tip := Some {| st_tip := tip; st_fee := pr_fee prepared |}; ia_refusal := None |}.
Definition earlier (original next : option Z) : option Z :=
  match original, next with
  | Some original, Some next => Some (Z.min original next)
  | Some original, None => Some original
  | None, next => next
  end.
Definition note_expiry (proof : IssuanceAuthority) (expires_at_ms : Z) : IssuanceAuthority :=
  {| ia_identity := ia_identity proof; ia_readiness_epoch := ia_readiness_epoch proof; ia_published_tip := ia_published_tip proof;
     ia_lease := ia_lease proof; ia_deadline := ia_deadline proof;
     ia_expires_at_ms := Some (from_option (fun original => Z.min original expires_at_ms) expires_at_ms (ia_expires_at_ms proof));
     ia_same_tip := ia_same_tip proof; ia_refusal := ia_refusal proof |}.
Definition with_refusal (proof : IssuanceAuthority) (refusal : option WorkRefusal) : IssuanceAuthority :=
  {| ia_identity := ia_identity proof; ia_readiness_epoch := ia_readiness_epoch proof; ia_published_tip := ia_published_tip proof;
     ia_lease := ia_lease proof; ia_deadline := ia_deadline proof; ia_expires_at_ms := ia_expires_at_ms proof;
     ia_same_tip := ia_same_tip proof; ia_refusal := refusal |}.
Definition refusal_context (proof : IssuanceAuthority) : string :=
  match default Superseded (ia_refusal proof) with
  | Superseded => "payout snapshot stale"
  | WindowNotHeld => "window_not_held: the work's window is not held by this primary after a writer timeline change (#619)"
  end.
(** The proof afterwards, and the outcome; [view] is the last lock. *)
Definition revalidate_issuance_authority (proof : IssuanceAuthority) (expires_at_ms : option Z) (w : Waits) (view : AuthorityView)
  : IssuanceAuthority * result anyhow (option Z) :=
  let proof := with_refusal proof None in
  let expires_at_ms := earlier (ia_expires_at_ms proof) expires_at_ms in
  match work_authority_in_epoch (ia_identity proof) expires_at_ms (ia_readiness_epoch proof) w with
  | Err e => (proof, Err e)
  | Panic msg => (proof, Panic msg)
  | Ok (inl refusal) => (with_refusal proof (Some refusal), Ok None)
  | Ok (inr current) =>
      if negb (rd_generation (av_readiness view) =? ia_readiness_epoch proof)
      then (proof, Err ["node readiness changed during work admission"]) else
      if negb (bool_decide (publication_stamp (av_tip view) = ia_published_tip proof))
         && negb (is_some_and (fun issue => holds issue (ia_identity proof) view) (ia_same_tip proof))
      then (proof, Ok None) else
      let lease := match ia_lease proof with Some lease => Some lease | None => wa_lease current end in
      let finish :=
        let deadline := earlier (ia_deadline proof) (wa_deadline current) in
        ({| ia_identity := ia_identity proof; ia_readiness_epoch := ia_readiness_epoch proof; ia_published_tip := ia_published_tip proof;
            ia_lease := lease; ia_deadline := deadline; ia_expires_at_ms := expires_at_ms; ia_same_tip := ia_same_tip proof;
            ia_refusal := ia_refusal proof |},
         Ok (if is_some_and (fun deadline => negb (live deadline (av_now view))) deadline then None else Some (wa_revision current))) in
      match lease with
      | None => finish
      | Some lease =>
          match select lease view with
          | Err e => (proof, Err e)
          | Panic msg => (proof, Panic msg)
          | Ok None => (proof, Ok None)
          | Ok (Some _) => finish
          end
      end
  end.
Definition begin_issuance_authority (identity : PreparedIdentity) (readiness_epoch : Z) (expires_at_ms : option Z)
    (first : AuthorityView) (w : Waits) (view : AuthorityView) : result anyhow (WorkRefusal + IssuanceAuthority) :=
  _ ← ensure (rd_generation (av_readiness first) =? readiness_epoch) "node readiness changed during work admission";
  let proof := {| ia_identity := identity; ia_readiness_epoch := readiness_epoch; ia_published_tip := publication_stamp (av_tip first);
                  ia_lease := None; ia_deadline := None; ia_expires_at_ms := expires_at_ms; ia_same_tip := None; ia_refusal := None |} in
  let '(proof, outcome) := revalidate_issuance_authority proof expires_at_ms w view in
  outcome ← outcome;
  Ok match outcome with Some _ => inr proof | None => inl (default Superseded (ia_refusal proof)) end.

(** ** Submissions *)
Record StratumError := { se_code : Z; se_message : string; se_reason_id : option string }.
Definition protocol_error (reason message : string) : StratumError :=
  {| se_code := if bool_decide (reason ∈ ["stale-job"; "unknown-job"; "pool-closed"]) then 21
                else if bool_decide (reason = "duplicate-share") then 22
                else if bool_decide (reason = "low-difficulty") then 23 else 20;
     se_message := message; se_reason_id := Some reason |}.
Definition DATABASE_UNAVAILABLE : string := "backend-database-unavailable".
(** [database]: whether a cause of the error is a database error. *)
Definition backend_refusal (database : bool) (message : string) : StratumError :=
  protocol_error (if database then DATABASE_UNAVAILABLE else "backend-rpc-unavailable") message.
Record SubmitAdmission := { sa_current : Prepared; sa_tip : TipView; sa_lease : option PublishedLease }.
(** [first] is the coupled publication, [readiness_epoch] the epoch read after
    it, [answer] the best block hash the node gives (a 64-digit hash, or none),
    [last] the publication after that call. *)
Definition submit_admission (database : anyhow -> bool) (first : AuthorityView) (readiness_epoch : Z) (payout_state : result anyhow PayoutState)
    (lease_view : AuthorityView) (answer : option string) (last : AuthorityView) : result StratumError SubmitAdmission :=
  let unavailable := protocol_error "backend-rpc-unavailable" "current chain state is unavailable" in
  let no_work := protocol_error "pool-closed" "no current work" in
  current ← ok_or (av_prepared first) no_work;
  match authority (av_tip first) max_age budget (av_now first) with
  | Some tip =>
      if negb (tv_share_lease tip) then Ok {| sa_current := current; sa_tip := tip; sa_lease := None |} else
      deadline ← map_err (fun _ => unavailable) (lease_deadline (av_tip first) max_age budget);
      proved ← map_err (fun e => backend_refusal (database e) "current payout state is unavailable")
                 (prove_published_lease (identity_of current) (publication_stamp (av_tip first)) readiness_epoch deadline payout_state lease_view);
      match proved with
      | Some (current, tip, lease) => Ok {| sa_current := current; sa_tip := tip; sa_lease := Some lease |}
      | None => Err (protocol_error "stale-job" "stale job")
      end
  | None =>
      hash ← ok_or answer unavailable;
      current ← ok_or (av_prepared last) no_work;
      let tip := default (tip_view hash (av_now last) 0) (filtered (has_hash hash) (ts_published (av_tip last))) in
      Ok {| sa_current := current;
            sa_tip := {| tv_hash := tv_hash tip; tv_parent := tv_parent tip; tv_transitioned := tv_transitioned tip; tv_share_lease := false;
                         tv_observed_at := tv_observed_at tip; tv_sequence := tv_sequence tip |};
            sa_lease := None |}
  end.
End authority.
