(* ===== verification/TipFacts.v ===== *)
(** The tip state over any interleaving of polls, publications and refreshes:
    its stamps name publications, a replacement lease is bounded by the first
    departure, and a lease or an issuance proof taken earlier authorises work
    only while the publication it was taken with stands. *)
From Stdlib Require Import ZArith Lia.
From stdpp Require Import base list strings.
From S2P Require Import Prelude WindowCut FanoutFee Codec RetainedJobs TipState.

Open Scope Z_scope.

(** * Traces *)
(** The critical sections on the tip state, each with the clock it reads. *)
Inductive TipEvent :=
| Reserve
| Observed (hash : string) (sequence : Z) (from_refresh : bool)
| Published (hash : string)
| Refreshed (hash : string)
| Parented (selected : TipView) (parent : string).
Definition after {A} (s : A) (r : result anyhow A) : A := match r with Ok s => s | _ => s end.
Definition tip_step (s : TipState) (event : Z * TipEvent) : TipState :=
  let '(now, event) := event in
  match event with
  | Reserve => after s (fst <$> reserve s)
  | Observed hash sequence from_refresh => observe now s hash sequence from_refresh
  | Published hash => after s (publish now s hash)
  | Refreshed hash => after s (refresh_publication now s hash)
  | Parented selected parent => record_parent s selected parent
  end.
Definition tip_run (s : TipState) (events : list (Z * TipEvent)) : TipState := foldl tip_step s events.
(** The hash an event publishes, when it does. *)
Definition publishes (s : TipState) (event : Z * TipEvent) : list string :=
  match event with
  | (now, Published hash) => match publish now s hash with Ok _ => [hash] | _ => [] end
  | _ => []
  end.
Fixpoint publications (s : TipState) (events : list (Z * TipEvent)) : list string :=
  match events with
  | [] => []
  | event :: events => publishes s event ++ publications (tip_step s event) events
  end.
Definition published_hash (s : TipState) : option string := tv_hash <$> ts_published s.

(** * One step *)
Lemma filtered_Some {A} (p : A -> bool) o x : filtered p o = Some x ↔ o = Some x ∧ p x = true.
Proof. unfold filtered. destruct o as [y|]; cbn; [|naive_solver]. destruct (p y) eqn:Hp; split; try done; [intros [= <-]; done| |intros [[= <-] Hx]; congruence]. by intros [? _]. Qed.
Lemma has_hash_iff hash tip : has_hash hash tip = true ↔ tv_hash tip = hash.
Proof. unfold has_hash. by rewrite bool_decide_eq_true. Qed.
Lemma is_some_and_iff {A} (p : A -> bool) o : is_some_and p o = true ↔ ∃ x, o = Some x ∧ p x = true.
Proof. destruct o; cbn; naive_solver. Qed.

Lemma update_published_inv now s hash s' :
  update_published_tip now s hash = Ok s' →
  ∃ c, ts_current s = Some c ∧ tv_hash c = hash ∧ ts_current s' = ts_current s ∧ ts_requested s' = ts_requested s ∧
    ts_divergence_started s' = None ∧ ts_publication_generation s' = ts_publication_generation s ∧ ts_tip_generation s' = ts_tip_generation s ∧
    ∃ p, ts_published s' = Some p ∧ tv_hash p = hash ∧ tv_sequence p = tv_sequence c ∧ tv_observed_at p = now ∧
      tv_transitioned p = is_some_and (fun old => negb (has_hash hash old) || tv_transitioned old) (ts_published s).
Proof.
  unfold update_published_tip. intros (c & [Hc Hh]%ok_or_Ok%filtered_Some & [= <-])%bind_Ok. apply has_hash_iff in Hh. exists c. cbn.
  repeat (split; [done|]). eexists. split; [done|]. done.
Qed.
Lemma publish_inv now s hash s' :
  publish now s hash = Ok s' →
  ∃ s1, update_published_tip now s hash = Ok s1 ∧ ts_publication_generation s' = ts_publication_generation s + 1 ∧
    ts_tip_generation s' = ts_tip_generation s + (if bool_decide (published_hash s = Some hash) then 0 else 1) ∧
    fits U64 (ts_publication_generation s') = true ∧ (fits U64 (ts_tip_generation s) = true → fits U64 (ts_tip_generation s') = true) ∧
    ts_current s' = ts_current s1 ∧ ts_published s' = ts_published s1 ∧ ts_divergence_started s' = ts_divergence_started s1 ∧
    ts_requested s' = ts_requested s1.
Proof.
  unfold publish. intros (g & [-> Hg]%ok_or_Ok%checked_Some & Hr)%bind_Ok. apply bind_Ok in Hr as (tg & Ht & Hr).
  apply bind_Ok in Hr as (s1 & Hs1 & [= <-]). exists s1. cbn. split; [done|]. split; [done|].
  assert (is_some_and (has_hash hash) (ts_published s) = bool_decide (published_hash s = Some hash)) as He.
  { unfold published_hash. destruct (ts_published s); cbn; [|done]. unfold has_hash. apply bool_decide_ext. naive_solver. }
  rewrite He in Ht. destruct (bool_decide _).
  - injection Ht as <-. split; [lia|]. repeat split; done.
  - apply ok_or_Ok, checked_Some in Ht as [-> Ht]. repeat split; done.
Qed.

(** What a step does to the published tip and the generations. *)
Lemma tip_step_published s event :
  published_hash (tip_step s event) = match publishes s event with hash :: _ => Some hash | [] => published_hash s end ∧
  ts_publication_generation (tip_step s event) = ts_publication_generation s + Z.of_nat (length (publishes s event)) ∧
  ts_tip_generation (tip_step s event) =
    ts_tip_generation s + (if bool_decide (Forall (fun hash => published_hash s = Some hash) (publishes s event)) then 0 else 1) ∧
  (length (publishes s event) ≤ 1)%nat.
Proof.
  destruct event as [now [|hash sequence from_refresh|hash|hash|selected parent]]; cbn [tip_step publishes].
  - unfold reserve. destruct (checked_add U64 (ts_requested s) 1); cbn; rewrite ?bool_decide_true by constructor; repeat split; try done; lia.
  - cbn. rewrite ?bool_decide_true by constructor. unfold observe, published_hash.
    destruct (is_some_and _ (ts_current s)); [repeat split; try done; lia|].
    destruct from_refresh; [|cbn; repeat split; try done; lia]. destruct (filtered (has_hash hash) (ts_published s)) as [p|] eqn:Hp; cbn; [|repeat split; try done; lia].
    apply filtered_Some in Hp as [-> _]. cbn. repeat split; try done; lia.
  - destruct (publish now s hash) as [s'| |] eqn:Hp; cbn; [|rewrite ?bool_decide_true by constructor; repeat split; try done; lia..].
    apply publish_inv in Hp as (s1 & Hs1 & Hg & Ht & _ & _ & _ & Hpub & _). apply update_published_inv in Hs1 as (c & _ & _ & _ & _ & _ & _ & _ & p & Hp & Hh & _).
    unfold published_hash at 1. rewrite Hpub, Hp. cbn. split; [by rewrite Hh|]. split; [lia|]. split; [|lia]. rewrite Ht. f_equal.
    erewrite bool_decide_ext; [done|]. rewrite Forall_singleton. done.
  - cbn. rewrite ?bool_decide_true by constructor. unfold refresh_publication.
    destruct (is_some_and (has_hash hash) (ts_published s)) eqn:Hs; cbn; [|repeat split; try done; lia].
    destruct (update_published_tip now s hash) as [s'| |] eqn:Hu; cbn; [|repeat split; try done; lia..].
    apply update_published_inv in Hu as (c & _ & _ & _ & _ & _ & Hg & Ht & p & Hp & Hh & _). apply is_some_and_iff in Hs as (q & Hq & Hhash%has_hash_iff).
    unfold published_hash. rewrite Hp, Hq. cbn. rewrite Hh, Hhash. repeat split; try done; lia.
  - cbn. rewrite ?bool_decide_true by constructor. unfold published_hash, record_parent. cbn. split; [|repeat split; try done; lia].
    destruct (ts_published s) as [p|]; [|done]. cbn. by destruct (_ && _).
Qed.
(** The changes of hash along a list of publications. *)
Fixpoint tip_changes (hash : option string) (published : list string) : nat :=
  match published with
  | [] => 0
  | h :: rest => (if bool_decide (hash = Some h) then 0 else 1) + tip_changes (Some h) rest
  end.
Lemma tip_run_published s events :
  published_hash (tip_run s events) = match last (publications s events) with Some hash => Some hash | None => published_hash s end ∧
  ts_publication_generation (tip_run s events) = ts_publication_generation s + Z.of_nat (length (publications s events)) ∧
  ts_tip_generation (tip_run s events) = ts_tip_generation s + Z.of_nat (tip_changes (published_hash s) (publications s events)).
Proof.
  unfold tip_run. revert s. induction events as [|event events IH]; intros s; cbn [foldl publications]; [cbn; repeat split; try done; lia|].
  destruct (IH (tip_step s event)) as (-> & -> & ->). destruct (tip_step_published s event) as (Hh & -> & -> & Hl). rewrite Hh.
  destruct (publishes s event) as [|h [|? ?]]; cbn in Hl; [|cbn [app]|lia].
  - cbn. repeat split; try done; lia.
  - cbn [length]. split; [rewrite last_cons; by destruct (last (publications _ _))|].
    split; [lia|]. cbn [tip_changes]. rewrite (bool_decide_ext _ (published_hash s = Some h) (Forall_singleton (fun x => published_hash s = Some x) h)). repeat case_bool_decide; try done; lia.
Qed.
Lemma tip_changes_zero hash l : tip_changes (Some hash) l = 0%nat ↔ Forall (eq hash) l.
Proof.
  revert hash. induction l as [|h l IH]; intros hash; cbn [tip_changes]; [split; [constructor|done]|]. rewrite Forall_cons.
  destruct (bool_decide_reflect (Some hash = Some h)) as [[= ->]|Hn]; [rewrite <- IH; naive_solver lia|]. split; [lia|]. naive_solver.
Qed.

(** C15: the stamps detect every publication. Between two reads of a published
    tip, over any interleaving of polls, publications, refreshes and parent
    lookups, the publication stamp is unchanged exactly when nothing was
    published in between, and the issuance stamp exactly when only the same
    tip was: a return to an earlier tip (A, B, A) never restores either. *)
Theorem stamps_detect_publications s events p :
  ts_published s = Some p →
  (publication_stamp (tip_run s events) = publication_stamp s ↔ publications s events = []) ∧
  (issuance_tip (tip_run s events) = issuance_tip s ↔ Forall (eq (tv_hash p)) (publications s events)).
Proof.
  intros Hp. destruct (tip_run_published s events) as (Hh & Hg & Ht). unfold publication_stamp, issuance_tip.
  assert (published_hash s = Some (tv_hash p)) as Hs by (unfold published_hash; by rewrite Hp). rewrite Hs in Ht, Hh.
  assert (∃ q, ts_published (tip_run s events) = Some q) as [q Hq].
  { unfold published_hash in Hh. destruct (ts_published (tip_run s events)); [eauto|]. by destruct (last _). }
  unfold published_hash in Hh. rewrite Hq in Hh |- *. rewrite Hp. cbn in *. rewrite Hg, Ht. split; split.
  - intros [= _ Hn]. apply nil_length_inv. lia.
  - intros Hn. rewrite Hn in Hh |- *. cbn in *. injection Hh as ->. repeat f_equal. lia.
  - intros [= _ Hn]. apply tip_changes_zero. lia.
  - intros Hf. pose proof (proj2 (tip_changes_zero _ _) Hf) as ->.
    assert (tv_hash q = tv_hash p) as ->; [|repeat f_equal; lia]. destruct (last (publications s events)) as [h|] eqn:Hl; injection Hh as ->; [|done].
    apply last_Some_elem_of in Hl. rewrite Forall_forall in Hf. by rewrite (Hf _ Hl).
Qed.
Lemma stamps_detect_publications_witness :
  let a := "aa"%string in let b := "bb"%string in
  let s := after tip_default (baseline 5 a) in
  let republish := [(6, Observed a 1 true); (7, Published a)] in
  let away := [(6, Observed b 2 true); (7, Published b); (8, Observed a 3 true); (9, Published a)] in
  publications s republish = [a] ∧ issuance_tip (tip_run s republish) = issuance_tip s ∧
  publications s away = [b; a] ∧ issuance_tip (tip_run s away) ≠ issuance_tip s.
Proof.
  intros a b s republish away.
  destruct (stamps_detect_publications s republish {| tv_hash := a; tv_parent := None; tv_transitioned := false; tv_share_lease := false; tv_observed_at := 5; tv_sequence := 1 |} eq_refl) as [_ H1].
  destruct (stamps_detect_publications s away {| tv_hash := a; tv_parent := None; tv_transitioned := false; tv_share_lease := false; tv_observed_at := 5; tv_sequence := 1 |} eq_refl) as [_ H2].
  assert (publications s republish = [a]) as E1 by reflexivity. assert (publications s away = [b; a]) as E2 by reflexivity.
  rewrite E1 in H1. rewrite E2 in H2. split; [exact E1|]. split; [apply H1; repeat constructor|]. split; [exact E2|].
  intros He. apply H2 in He. inversion He as [|? ? Hab]. discriminate Hab.
Defined.

(** * Well-formed states *)
(** What the types alone do not say: counters fit, the published tip is no
    newer than the current one, generations count publications, and no instant
    lies in the future. *)
Record tip_wf (now : Z) (s : TipState) : Prop := {
  tw_requested : fits U64 (ts_requested s) = true;
  tw_current c : ts_current s = Some c → tv_observed_at c ≤ now ∧ tv_sequence c ≤ ts_requested s;
  tw_published p : ts_published s = Some p → tv_observed_at p ≤ now ∧ (∃ c, ts_current s = Some c ∧ tv_sequence p ≤ tv_sequence c) ∧
    1 ≤ ts_tip_generation s;
  tw_unpublished : ts_published s = None → ts_publication_generation s = 0;
  tw_generations : 0 ≤ ts_tip_generation s ≤ ts_publication_generation s ∧ fits U64 (ts_publication_generation s) = true;
  tw_divergence d : ts_divergence_started s = Some d → d ≤ now;
}.
(** Polls answer with sequences that were reserved, and the clock never runs
    backwards. *)
Fixpoint tip_trace (now : Z) (s : TipState) (events : list (Z * TipEvent)) : Prop :=
  match events with
  | [] => True
  | (at_, event) :: events =>
      now ≤ at_ ∧ match event with Observed _ sequence _ => sequence ≤ ts_requested s | _ => True end ∧
      tip_trace at_ (tip_step s (at_, event)) events
  end.
Definition trace_end (now : Z) (events : list (Z * TipEvent)) : Z := from_option fst now (last events).

Lemma tip_wf_later now now' s : now ≤ now' → tip_wf now s → tip_wf now' s.
Proof.
  intros Hn [Hr Hc Hp Hu Hg Hd]. split; try done.
  - intros c H. specialize (Hc c H). lia.
  - intros p H. destruct (Hp p H) as (? & ? & ?). split; [lia|done].
  - intros d H. specialize (Hd d H). lia.
Qed.
Lemma update_published_wf now s hash s' :
  tip_wf now s → update_published_tip now s hash = Ok s' → (ts_published s = None → ts_publication_generation s = 0) →
  fits U64 (ts_requested s') = true ∧ (∀ c, ts_current s' = Some c → tv_observed_at c ≤ now ∧ tv_sequence c ≤ ts_requested s') ∧
  ts_divergence_started s' = None ∧ ∃ p, ts_published s' = Some p ∧ tv_observed_at p ≤ now ∧ ∃ c, ts_current s' = Some c ∧ tv_sequence p ≤ tv_sequence c.
Proof.
  intros [Hr Hc _ _ _ _] (c & Hcur & Hh & Hc' & Hr' & Hd & _ & _ & p & Hp & _ & Hseq & Hat & _)%update_published_inv _.
  rewrite Hr', Hc'. split; [done|]. split; [done|]. split; [done|]. exists p. split; [done|]. split; [lia|]. exists c. split; [done|lia].
Qed.
Lemma tip_step_wf now s event :
  tip_wf now s → match event with Observed _ sequence _ => sequence ≤ ts_requested s | _ => True end → tip_wf now (tip_step s (now, event)).
Proof.
  intros Hw Hv. pose proof Hw as [Hr Hc Hp Hu Hg Hd]. destruct event as [|hash sequence from_refresh|hash|hash|selected parent]; cbn [tip_step].
  - unfold reserve. destruct (checked_add U64 (ts_requested s) 1) as [r|] eqn:Hadd; cbn; [|done]. apply checked_Some in Hadd as [-> Hfit].
    split; cbn; try done. intros c H. specialize (Hc c H). lia.
  - unfold observe. destruct (is_some_and (fun tip => sequence <? tv_sequence tip) (ts_current s)) eqn:Hs; [done|].
    set (c' := match filtered (has_hash hash) (ts_current s) with Some c => observed_now now sequence c | None => tip_view hash now sequence end).
    assert (tv_observed_at c' = now ∧ tv_sequence c' = sequence) as [Ha Hq] by (unfold c'; by destruct (filtered _ _)).
    assert (∀ p, ts_published s = Some p → tv_sequence p ≤ sequence) as Hnew.
    { intros p H. destruct (Hp p H) as (_ & (c & Hcur & Hle) & _). rewrite Hcur in Hs. cbn in Hs. lia. }
    destruct from_refresh; [destruct (filtered (has_hash hash) (ts_published s)) as [p|] eqn:Hf|]; split; cbn; try done;
      try (intros c [= <-]; lia); try (intros p' H; destruct (Hp p' H) as (? & _ & ?); split; [done|]; split; [|done]; exists c'; split; [done|]; specialize (Hnew _ H); lia).
    + apply filtered_Some in Hf as [Hf _]. intros p' [= <-]. cbn. destruct (Hp p Hf) as (? & _ & ?). split; [lia|]. split; [|done]. exists c'. split; [done|]. specialize (Hnew _ Hf). lia.
    + intros d [= <-]. destruct (ts_divergence_started s) as [d|]; cbn; [by apply Hd|lia].
  - destruct (publish now s hash) as [s'| |] eqn:Hpub; cbn; [|done..].
    apply publish_inv in Hpub as (s1 & Hs1 & Hgen & Htip & Hfit & _ & Hcur & Hpub & Hdiv & Hreq).
    destruct (update_published_wf _ _ _ _ Hw Hs1 Hu) as (? & ? & Hd1 & p & Hp1 & ? & ?).
    assert (0 ≤ ts_tip_generation s' ≤ ts_publication_generation s' ∧ 1 ≤ ts_tip_generation s') as [Hg' Hone].
    { rewrite Hgen, Htip. case_bool_decide as Hb; [|lia]. unfold published_hash in Hb. destruct (ts_published s) as [q|]; [|done].
      destruct (Hp q eq_refl) as (_ & _ & ?). lia. }
    split; rewrite ?Hcur, ?Hpub, ?Hdiv, ?Hreq; try done; [|by rewrite Hp1|by rewrite Hd1]. intros q Hq. rewrite Hp1 in Hq. injection Hq as <-. done.
  - unfold refresh_publication. destruct (is_some_and (has_hash hash) (ts_published s)) eqn:Hs; cbn; [|done].
    destruct (update_published_tip now s hash) as [s'| |] eqn:Hup; cbn; [|done..].
    destruct (update_published_wf _ _ _ _ Hw Hup Hu) as (? & ? & Hd1 & p & Hp1 & ? & ?).
    apply update_published_inv in Hup as (_ & _ & _ & _ & _ & _ & Hg1 & Ht1 & _). apply is_some_and_iff in Hs as (q & Hq & _). destruct (Hp q Hq) as (_ & _ & ?).
    split; rewrite ?Hg1, ?Ht1; try done; [|by rewrite Hp1|by rewrite Hd1]. intros x Hx. rewrite Hp1 in Hx. injection Hx as <-. done.
  - unfold record_parent. split; cbn; try done.
    + intros c Hcur. destruct (ts_current s) as [c0|]; [|done]. injection Hcur as <-. specialize (Hc c0 eq_refl). by destruct (_ && _).
    + intros p Hpub. destruct (ts_published s) as [p0|]; [|done]. injection Hpub as <-. destruct (Hp p0 eq_refl) as (? & (c & Hcur & ?) & ?). rewrite Hcur. cbn.
      split; [by destruct (_ && _)|]. split; [|done]. eexists. split; [done|]. by repeat destruct (_ && _).
    + intros Hpub. apply Hu. by destruct (ts_published s).
Qed.
(** The polls answered so far, and that both tips are such answers. *)
Definition answers (event : Z * TipEvent) : list (string * Z) :=
  match event.2 with Observed hash sequence _ => [(hash, sequence)] | _ => [] end.
Definition tip_observed (seen : list (string * Z)) (s : TipState) : Prop :=
  ∀ tip, ts_current s = Some tip ∨ ts_published s = Some tip → (tv_hash tip, tv_sequence tip) ∈ seen.
Lemma update_published_observed now seen s hash s' :
  tip_observed seen s → update_published_tip now s hash = Ok s' → tip_observed seen s'.
Proof.
  intros Ho (c & Hc & Hh & Hc' & _ & _ & _ & _ & p & Hp & Hph & Hps & _)%update_published_inv tip.
  rewrite Hc', Hp. intros [Ht|[= <-]]; [by apply Ho; left|]. rewrite Hph, Hps, <- Hh. apply Ho. by left.
Qed.
Lemma tip_step_observed now seen s event : tip_observed seen s → tip_observed (seen ++ answers (now, event)) (tip_step s (now, event)).
Proof.
  intros Ho. destruct event as [|hash sequence from_refresh|hash|hash|selected parent]; cbn [tip_step answers snd]; rewrite ?app_nil_r.
  - unfold reserve. by destruct (checked_add U64 (ts_requested s) 1); cbn.
  - assert (tip_observed (seen ++ [(hash, sequence)]) s) as Ho' by (intros tip Ht; apply elem_of_app; left; by apply Ho).
    unfold observe. destruct (is_some_and _ (ts_current s)); [done|].
    set (c' := match filtered (has_hash hash) (ts_current s) with Some c => observed_now now sequence c | None => tip_view hash now sequence end).
    assert ((tv_hash c', tv_sequence c') ∈ seen ++ [(hash, sequence)]) as Hc.
    { apply elem_of_app. right. apply list_elem_of_singleton. unfold c'. destruct (filtered (has_hash hash) (ts_current s)) as [c|] eqn:Hf; [|done].
      apply filtered_Some in Hf as [_ Hh%has_hash_iff]. cbn. by rewrite Hh. }
    destruct from_refresh; [destruct (filtered (has_hash hash) (ts_published s)) as [q|] eqn:Hf|];
      intros tip [[= <-]|Ht]; cbn in *; try done; try (apply Ho'; by right).
    injection Ht as <-. apply filtered_Some in Hf as [Hf _]. cbn. apply Ho'. by right.
  - destruct (publish now s hash) as [s'| |] eqn:Hpub; cbn; [|done..].
    apply publish_inv in Hpub as (s1 & Hs1 & _ & _ & _ & _ & Hcur & Hpub & _).
    pose proof (update_published_observed _ _ _ _ _ Ho Hs1) as Ho1. intros tip. rewrite Hcur, Hpub. apply Ho1.
  - unfold refresh_publication. destruct (ensure _ _); cbn; [|done..].
    destruct (update_published_tip now s hash) as [s'| |] eqn:Hup; cbn; [|done..]. by eapply update_published_observed.
  - unfold record_parent. intros tip. cbn.
    intros [Ht|Ht]; [destruct (ts_current s) as [t|] eqn:He|destruct (ts_published s) as [t|] eqn:He]; try done; cbn in Ht; injection Ht as <-;
      (replace (tv_hash _, tv_sequence _) with (tv_hash t, tv_sequence t) by (by destruct (_ && _))); apply Ho; auto.
Qed.

(** C18: the tip state is well formed at every moment of every execution: the
    counters fit their 64 bits, the current and the published tip are answers
    a poll gave (the same hash under the same sequence number), the published
    tip is no newer than the current one, the generations order publications
    and tip changes, and no recorded instant is in the future. *)
Theorem tip_state_wf now seen s events :
  tip_wf now s → tip_observed seen s → tip_trace now s events →
  tip_wf (trace_end now events) (tip_run s events) ∧ tip_observed (seen ++ (events ≫= answers)) (tip_run s events).
Proof.
  unfold tip_run, trace_end. revert now seen s. induction events as [|[at_ event] events IH]; intros now seen s Hw Ho Ht; [by rewrite app_nil_r|].
  destruct Ht as (Hat & Hv & Ht). cbn [foldl]. rewrite last_cons. specialize (IH at_ (seen ++ answers (at_, event)) (tip_step s (at_, event))).
  replace (from_option fst now _) with (from_option fst at_ (last events)) by (by destruct (last events)).
  rewrite <- app_assoc in IH. apply IH; [|by apply tip_step_observed|done]. by apply tip_step_wf; [eapply tip_wf_later|].
Qed.
Lemma tip_state_wf_witness :
  let events := [(3, Reserve); (5, Observed "aa" 1 true); (6, Published "aa"); (8, Observed "bb" 1 false)] in
  tip_wf 8 (tip_run tip_default events) ∧ tip_observed [("aa", 1); ("bb", 1)]%string (tip_run tip_default events).
Proof.
  refine (tip_state_wf 0 [] tip_default [(3, Reserve); (5, Observed "aa" 1 true); (6, Published "aa"); (8, Observed "bb" 1 false)] _ _ _).
  - split; cbn; try done; lia.
  - intros tip [Ht|Ht]; discriminate Ht.
  - split; cbn; try done; repeat split; try done; lia.
Defined.

(** * The replacement lease *)
(** An event that ends a departure: a publication, a cached refresh of the
    published work, or a refresh that observes the published tip. *)
Definition returns (s : TipState) (event : Z * TipEvent) : bool :=
  match event with
  | (now, Published hash) => match publish now s hash with Ok _ => true | _ => false end
  | (now, Refreshed hash) => match refresh_publication now s hash with Ok _ => true | _ => false end
  | (_, Observed hash sequence true) =>
      negb (is_some_and (fun tip => sequence <? tv_sequence tip) (ts_current s)) && is_some_and (has_hash hash) (ts_published s)
  | _ => false
  end.
Fixpoint departed (s : TipState) (events : list (Z * TipEvent)) : Prop :=
  match events with
  | [] => True
  | event :: events => returns s event = false ∧ departed (tip_step s event) events
  end.
(** While the node is away from the published tip, its hash, the instant it was
    last confirmed and the first departure are fixed. *)
Definition departure (s : TipState) : option (string * Z) * option Z :=
  ((fun tip => (tv_hash tip, tv_observed_at tip)) <$> ts_published s, ts_divergence_started s).
Lemma tip_step_departed s event d :
  ts_divergence_started s = Some d → returns s event = false → departure (tip_step s event) = departure s.
Proof.
  intros Hd. unfold departure. destruct event as [now [|hash sequence from_refresh|hash|hash|selected parent]]; cbn [tip_step returns].
  - intros _. unfold reserve. by destruct (checked_add U64 (ts_requested s) 1).
  - unfold observe. destruct (is_some_and _ (ts_current s)); [done|]. destruct from_refresh; [|done]. cbn [negb andb].
    destruct (filtered (has_hash hash) (ts_published s)) as [p|] eqn:Hf.
    + apply filtered_Some in Hf as [Hp Hh]. rewrite Hp. cbn. by rewrite Hh.
    + intros _. cbn. by rewrite Hd.
  - destruct (publish now s hash) as [s'| |]; done.
  - destruct (refresh_publication now s hash) as [s'| |]; done.
  - intros _. cbn. f_equal. destruct (ts_published s) as [p|]; [|done]. cbn. by destruct (_ && _).
Qed.
Lemma tip_run_departed s events d :
  ts_divergence_started s = Some d → departed s events → departure (tip_run s events) = departure s.
Proof.
  unfold tip_run. revert s. induction events as [|event events IH]; intros s Hd; [done|]. intros [Hr Hs]. cbn [foldl].
  pose proof (tip_step_departed s event d Hd Hr) as He. rewrite IH; [done| |done]. unfold departure in He. by injection He as _ ->.
Qed.
(** C16: failed refreshes and further tips never renew a replacement lease. From
    the state in which a refresh first saw another tip at instant [d], through
    any number of polls, failed publications and observations of other tips,
    the published tip keeps authority exactly while it is younger than the
    maximal age or, with a non-zero budget and the node still away, until
    [d] plus the build budget; settlement yields to the pending refresh no
    longer either. *)
Theorem lease_never_renewed s events d p max_age build_budget now :
  ts_divergence_started s = Some d → ts_published s = Some p → departed s events →
  let s' := tip_run s events in
  (authority s' max_age build_budget now ≠ None ↔
    max_age ≠ 0 ∧ (elapsed now (tv_observed_at p) ≤ max_age ∨
      (observed s' ≠ None ∧ observed s' ≠ Some (tv_hash p) ∧ build_budget ≠ 0 ∧ elapsed now d ≤ build_budget))) ∧
  (refresh_pending s' build_budget now = true → build_budget ≠ 0 ∧ elapsed now d ≤ build_budget).
Proof.
  intros Hd Hp Hdep s'. pose proof (tip_run_departed s events d Hd Hdep) as He. fold s' in He. unfold departure in He. rewrite Hp, Hd in He.
  destruct (ts_published s') as [q|] eqn:Hq; [|done]. cbn in He. injection He as Hh Ha Hd'. split.
  - unfold authority. rewrite Hq. cbn [mbind option_bind]. rewrite Hd', Ha. cbn [is_some_and from_option].
    destruct (Z.eqb_spec max_age 0); [naive_solver|].
    assert (is_some_and (fun tip => negb (has_hash (tv_hash q) tip)) (ts_current s') = true ↔ observed s' ≠ None ∧ observed s' ≠ Some (tv_hash p)) as Hdiv.
    { unfold observed. destruct (ts_current s') as [c|]; cbn; [|split; [done|by intros [? _]]]. rewrite negb_true_iff, <- not_true_iff_false, has_hash_iff, Hh. split; [intros Hx; split; [done|congruence]|intros [_ Hx] Hy; congruence]. }
    destruct (Z.ltb_spec max_age (elapsed now (tv_observed_at p))); cbn [andb]; [|split; [naive_solver|done]].
    destruct (is_some_and _ (ts_current s')); destruct (Z.eqb_spec build_budget 0); destruct (Z.leb_spec (elapsed now d) build_budget); cbn;
      (split; [intros Hx|intros (_ & [Hx|(Hx1 & Hx2 & Hx3 & Hx4)])]); try done; try lia; try (by destruct Hdiv as [_ Hdiv]; discriminate (Hdiv (conj Hx1 Hx2))).
    destruct Hdiv as [Hdiv _]. destruct (Hdiv eq_refl). tauto.
  - unfold refresh_pending. rewrite Hd'. cbn. rewrite !andb_true_iff, negb_true_iff, Z.eqb_neq, Z.leb_le. naive_solver.
Qed.
Lemma lease_never_renewed_witness :
  let s := after tip_default (baseline 5 "aa") in
  let away := tip_step s (10, Observed "bb" 2 true) in
  let events := [(20, Observed "cc" 3 true); (25, Published "bb"); (30, Observed "bb" 4 true)] in
  authority (tip_run away events) 8 40 50 ≠ None ∧ authority (tip_run away events) 8 40 51 = None.
Proof.
  intros s away events.
  pose (p := {| tv_hash := "aa"; tv_parent := None; tv_transitioned := false; tv_share_lease := false; tv_observed_at := 5; tv_sequence := 1 |}).
  assert (departed away events) as Hdep by (repeat split). split.
  - refine (proj2 (proj1 (lease_never_renewed away events 10 p 8 40 50 eq_refl eq_refl Hdep)) _). split; [done|]. right. repeat split; try done; vm_compute; done.
  - destruct (authority (tip_run away events) 8 40 51) as [t|] eqn:Ha; [|reflexivity]. exfalso.
    assert (authority (tip_run away events) 8 40 51 ≠ None) as Hn by congruence.
    apply (proj1 (lease_never_renewed away events 10 p 8 40 51 eq_refl eq_refl Hdep)) in Hn as [_ [Hx|(_ & _ & _ & Hx)]]; vm_compute in Hx; congruence.
Defined.

(** * Commits under a lease *)
Lemma ensure_inv b msg u : ensure b msg = Ok u → b = true.
Proof. unfold ensure. by destruct b. Qed.
Lemma authority_Some s max_age build_budget now tip :
  authority s max_age build_budget now = Some tip →
  ∃ p, ts_published s = Some p ∧ tv_hash tip = tv_hash p ∧ (tv_share_lease tip = true ↔ observed s ≠ None ∧ observed s ≠ Some (tv_hash p)).
Proof.
  unfold authority. destruct (ts_published s) as [p|]; [|done]. cbn [mbind option_bind]. destruct (max_age =? 0); [done|].
  destruct (_ && negb _); [done|]. intros [= <-]. exists p. split; [done|]. split; [done|]. cbn. unfold observed.
  destruct (ts_current s) as [c|]; cbn; [|split; [done|by intros [? _]]]. rewrite negb_true_iff, <- not_true_iff_false, has_hash_iff.
  split; [intros Hx; split; [done|congruence]|intros [_ Hx] Hy; congruence].
Qed.
(** What a selected lease proves of the view it was selected in. *)
Record lease_selected (config : Config) (lease : PublishedLease) (view : AuthorityView) (current : Prepared) : Prop := {
  ls_epoch : rd_generation (av_readiness view) = pl_readiness_epoch lease;
  ls_prepared : av_prepared view = Some current ∧ matches (pl_identity lease) current = true;
  ls_stamp : publication_stamp (av_tip view) = pl_published_tip lease;
  ls_parent : ∃ p, ts_published (av_tip view) = Some p ∧ pi_parent (pl_identity lease) = Some (tv_hash p);
  ls_bound : (observed (av_tip view) ≠ pi_parent (pl_identity lease) ∧ av_now view ≤ pl_deadline lease) ∨
             (observed (av_tip view) = pi_parent (pl_identity lease) ∧ pl_current_revision lease = pi_revision (pl_identity lease) ∧
              ∃ poll, rd_last_poll (av_readiness view) = Some poll ∧ elapsed (av_now view) poll < health_timeout config);
}.
Lemma select_with_cause_Selected config lease view current tip :
  select_with_cause config lease view = Ok (Selected current tip) → lease_selected config lease view current.
Proof.
  unfold select_with_cause. intros (u & [Hg%Z.eqb_eq Hpoll]%ensure_inv%andb_true_iff & Hr)%bind_Ok.
  destruct (filtered (matches (pl_identity lease)) (av_prepared view)) as [cur|] eqn:Hf; [|done]. apply filtered_Some in Hf.
  destruct (bool_decide_reflect (publication_stamp (av_tip view) = pl_published_tip lease)) as [Hs|]; [|done]. cbn [negb] in Hr.
  destruct (authority _ _ _ _) as [t|] eqn:Ha; [|by case_match]. apply authority_Some in Ha as (p & Hp & Hh & Hlease).
  apply bind_Ok in Hr as (u' & He%ensure_inv & Hr).
  set (kept := bool_decide (Some (tv_hash t) = pi_parent (pl_identity lease)) && _) in *. destruct kept eqn:Hk; [|done]. injection Hr as <- <-.
  unfold kept in Hk. apply andb_true_iff in Hk as [Hpar%bool_decide_eq_true Hk]. rewrite Hh in Hpar.
  split; try done; [exists p; by rewrite <- Hpar|].
  destruct (bool_decide_reflect (observed (av_tip view) = pi_parent (pl_identity lease))) as [Ho|Ho].
  - right. split; [done|]. destruct (tv_share_lease t); [exfalso; destruct Hlease as [Hl _]; destruct (Hl eq_refl); congruence|]. cbn in Hk, He.
    apply Z.eqb_eq in Hk. split; [done|]. apply is_some_and_iff in He as (poll & Hpoll' & Hlt%Z.ltb_lt). eauto.
  - left. split; [done|]. rewrite orb_false_r in Hk. apply andb_true_iff in Hk as [_ Hk%Z.leb_le]. done.
Qed.
(** The last instant a lease taken in [s] authorises anything. *)
Definition lease_bound (s : TipState) (p : TipView) (max_age build_budget : Z) : Z :=
  let ordinary := tv_observed_at p + max_age in
  match ts_divergence_started s with
  | Some d => if build_budget =? 0 then ordinary else Z.max ordinary (d + build_budget)
  | None => ordinary
  end.
Lemma lease_deadline_Ok instant_max s p max_age build_budget d :
  ts_published s = Some p → lease_deadline instant_max s max_age build_budget = Ok d → d = lease_bound s p max_age build_budget.
Proof.
  intros Hp. unfold lease_deadline. rewrite Hp. cbn [ok_or mbind result_bind]. unfold instant_add, lease_bound.
  destruct (_ <=? instant_max); [|done]. cbn [ok_or mbind result_bind]. destruct (ts_divergence_started s) as [x|]; cbn; [|by intros [= <-]].
  destruct (build_budget =? 0); cbn; [by intros [= <-]|]. destruct (_ <=? instant_max); [|done]. by intros [= <-].
Qed.
(** C8: a share commits under a replacement lease only while the publication the
    lease was taken with stands. If the pre-commit hook authorises a lease
    taken earlier, then since it was taken nothing was published, the
    published work is the very one it names, on the same parent and readiness
    epoch, the append's own expiry has not passed, and either the node is
    still away and the lease's fixed bound has not passed, or the node is
    back on the parent, the payout revision is the original one and a poll is
    fresh. *)
Theorem lease_commit_sound instant_max config taken p lease events view expires_at :
  ts_published taken = Some p → pl_published_tip lease = publication_stamp taken →
  lease_deadline instant_max taken (submit_tip_max_age config) (template_refresh_failure_exit config) = Ok (pl_deadline lease) →
  av_tip view = tip_run taken events → authorize config lease expires_at view = Ok () →
  publications taken events = [] ∧ pi_parent (pl_identity lease) = Some (tv_hash p) ∧
  (∃ current, av_prepared view = Some current ∧ matches (pl_identity lease) current = true) ∧
  rd_generation (av_readiness view) = pl_readiness_epoch lease ∧ (∀ e, expires_at = Some e → av_now view < e) ∧
  ((observed (av_tip view) ≠ Some (tv_hash p) ∧
    av_now view ≤ lease_bound taken p (submit_tip_max_age config) (template_refresh_failure_exit config)) ∨
   (observed (av_tip view) = Some (tv_hash p) ∧ pl_current_revision lease = pi_revision (pl_identity lease) ∧
    ∃ poll, rd_last_poll (av_readiness view) = Some poll ∧ elapsed (av_now view) poll < health_timeout config)).
Proof.
  intros Hp Hs Hd Hv Ha. unfold authorize in Ha. destruct (is_some_and _ expires_at) eqn:He; [done|].
  destruct (select_with_cause config lease view) as [[cur tip| |]| |] eqn:Hsel; try done. apply select_with_cause_Selected in Hsel as [Hg Hpr Hst (q & Hq & Hpar) Hb].
  rewrite Hv, Hs in Hst. apply (lease_deadline_Ok _ _ p) in Hd; [|done]. destruct (tip_run_published taken events) as (Hh & Hgen & _).
  assert (publications taken events = []) as Hnone.
  { unfold publication_stamp in Hst. rewrite <- Hv, Hq, Hp in Hst. cbn in Hst. injection Hst as _ Hst. rewrite Hv in Hst. apply nil_length_inv. lia. }
  assert (tv_hash q = tv_hash p) as Heq. { rewrite Hnone in Hh. cbn in Hh. unfold published_hash in Hh. rewrite <- Hv, Hq, Hp in Hh. by injection Hh. }
  rewrite Heq in Hpar. rewrite <- Hpar, <- Hd. repeat (split; [by eauto|]). split; [|done].
  intros e ->. cbn in He. lia.
Qed.

(** * Issuance proofs *)
(** Steps that touch a proof between its creation and its use. *)
Inductive ProofStep :=
| Revalidated (expires_at_ms : option Z) (w : Waits) (view : AuthorityView)
| NotedExpiry (expires_at_ms : Z).
Section issuance.
Context (instant_max : Z) (config : Config).
Definition proof_step (proof : IssuanceAuthority) (step : ProofStep) : IssuanceAuthority :=
  match step with
  | Revalidated expires_at_ms w view => (revalidate_issuance_authority instant_max config proof expires_at_ms w view).1
  | NotedExpiry expires_at_ms => note_expiry proof expires_at_ms
  end.
(** What no step changes, and what steps only tighten. *)
Record proof_kept (before after : IssuanceAuthority) : Prop := {
  pk_fixed : ia_identity after = ia_identity before ∧ ia_readiness_epoch after = ia_readiness_epoch before ∧
             ia_published_tip after = ia_published_tip before ∧ ia_same_tip after = ia_same_tip before;
  pk_lease l : ia_lease before = Some l → ia_lease after = Some l;
  pk_deadline d : ia_deadline before = Some d → ∃ d', ia_deadline after = Some d' ∧ d' ≤ d;
  pk_expiry e : ia_expires_at_ms before = Some e → ∃ e', ia_expires_at_ms after = Some e' ∧ e' ≤ e;
}.
#[local] Instance proof_kept_refl : Reflexive proof_kept.
Proof. intros x. split; eauto with lia. Qed.
#[local] Instance proof_kept_trans : Transitive proof_kept.
Proof.
  intros x y z [(F1 & F2 & F3 & F4) L D E] [(G1 & G2 & G3 & G4) L' D' E']. split; [split_and!; congruence|by eauto|..].
  - intros d Hd. destruct (D d Hd) as (d1 & H1 & ?). destruct (D' d1 H1) as (d2 & ? & ?). exists d2. split; [done|lia].
  - intros d Hd. destruct (E d Hd) as (d1 & H1 & ?). destruct (E' d1 H1) as (d2 & ? & ?). exists d2. split; [done|lia].
Qed.
Lemma earlier_le a b d : a = Some d → ∃ d', earlier a b = Some d' ∧ d' ≤ d.
Proof. intros ->. destruct b; cbn; eexists; (split; [done|lia]). Qed.
Lemma with_refusal_kept proof r : proof_kept proof (with_refusal proof r).
Proof. split; cbn; eauto with lia. Qed.

(** What an admission found at [w] and at the last view. *)
Definition revision_proved (identity : PreparedIdentity) (w : Waits) (revision : Z) : Prop :=
  (revision = pi_revision identity ∧ ∃ read, wt_read w = Ok read ∧ cr_payout_revision read = revision) ∨
  (∃ state, wt_payout_state w = Ok state ∧ ps_payout_revision state = revision).
Lemma work_authority_revision identity expires epoch w a :
  work_authority_in_epoch instant_max config identity expires epoch w = Ok (inr a) → revision_proved identity w (wa_revision a).
Proof.
  unfold work_authority_in_epoch. intros (read & Hread & Hr)%bind_Ok. apply bind_Ok in Hr as (clock & _ & Hr). case_match; [done|].
  apply bind_Ok in Hr as (held & _ & Hr). case_match; [done|]. apply bind_Ok in Hr as (? & _ & Hr). apply bind_Ok in Hr as (parent & _ & Hr).
  apply bind_Ok in Hr as (poll & _ & Hr). case_match; [done|]. case_match.
  { apply bind_Ok in Hr as (? & _ & Hr). by apply bind_Ok in Hr as (? & _ & Hr). }
  apply bind_Ok in Hr as (? & _ & Hr). apply bind_Ok in Hr as (deadline & _ & Hr). apply bind_Ok in Hr as (admitted & Had & Hr). case_match; [done|].
  destruct admitted as [a'|]; [|done]. injection Hr as ->. unfold prove_admission in Had. destruct deadline as [d|].
  - apply bind_Ok in Had as (proved & Hp & Had). unfold prove_published_lease in Hp. apply bind_Ok in Hp as (state & Hs & Hp).
    apply bind_Ok in Hp as (sel & _ & Hp). right. exists state. split; [done|].
    destruct (is_some_and _ sel && _); injection Hp as <-; [done|]. destruct sel as [[c t]|]; [|done]. cbn in Had. by injection Had as <-.
  - destruct (Z.eqb_spec (pi_revision identity) (cr_payout_revision read)); [|done]. injection Had as <-. left. cbn. eauto.
Qed.

Record revalidated (proof after : IssuanceAuthority) (w : Waits) (view : AuthorityView) (revision : Z) : Prop := {
  rv_epoch : rd_generation (av_readiness view) = ia_readiness_epoch proof;
  rv_publication : publication_stamp (av_tip view) = ia_published_tip proof ∨
                   ∃ issue, ia_same_tip proof = Some issue ∧ holds issue (ia_identity proof) view = true;
  rv_deadline d : ia_deadline after = Some d → av_now view < d;
  rv_lease l : ia_lease after = Some l → ∃ current, lease_selected config l view current;
  rv_revision : revision_proved (ia_identity proof) w revision;
}.
Lemma select_Some lease view x : select config lease view = Ok (Some x) → ∃ current, lease_selected config lease view current.
Proof.
  unfold select. intros ([cur tip| |] & Hs & Hr)%bind_Ok; [|done..]. exists cur. by eapply select_with_cause_Selected.
Qed.
Lemma revalidate_spec proof expires w view after outcome :
  revalidate_issuance_authority instant_max config proof expires w view = (after, outcome) →
  proof_kept proof after ∧ ∀ revision, outcome = Ok (Some revision) → revalidated proof after w view revision.
Proof.
  unfold revalidate_issuance_authority. cbn [with_refusal ia_identity ia_readiness_epoch ia_expires_at_ms ia_published_tip ia_same_tip ia_lease ia_deadline ia_refusal].
  set (start := with_refusal proof None). assert (proof_kept proof start) as Hk by apply with_refusal_kept.
  destruct (work_authority_in_epoch _ _ _ _ _ _) as [[refusal|current]|e|msg] eqn:Hw; try (intros [= <- <-]; split; [done|by intros]).
  { intros [= <- <-]. split; [|by intros]. etransitivity; [exact Hk|]. apply with_refusal_kept. }
  apply work_authority_revision in Hw.
  destruct (Z.eqb_spec (rd_generation (av_readiness view)) (ia_readiness_epoch proof)) as [Hg|]; [|intros [= <- <-]; split; [done|by intros]]. cbn [negb].
  destruct (negb (bool_decide _) && _) eqn:Hpub; [intros [= <- <-]; split; [done|by intros]|].
  assert (publication_stamp (av_tip view) = ia_published_tip proof ∨ ∃ issue, ia_same_tip proof = Some issue ∧ holds issue (ia_identity proof) view = true) as Hstamp.
  { apply andb_false_iff in Hpub as [Hpub|Hpub]; apply negb_false_iff in Hpub; [left; by apply bool_decide_eq_true in Hpub|right; by apply is_some_and_iff in Hpub]. }
  set (lease := match ia_lease proof with Some l => Some l | None => wa_lease current end).
  assert (∀ l, ia_lease proof = Some l → lease = Some l) as Hfirst by (intros l Hl; unfold lease; by rewrite Hl).
  set (deadline := earlier (ia_deadline proof) (wa_deadline current)).
  assert (∀ after outcome,
    ({| ia_identity := ia_identity proof; ia_readiness_epoch := ia_readiness_epoch proof; ia_published_tip := ia_published_tip proof; ia_lease := lease;
        ia_deadline := deadline; ia_expires_at_ms := earlier (ia_expires_at_ms proof) expires; ia_same_tip := ia_same_tip proof; ia_refusal := None |},
     (Ok (if is_some_and (fun d => negb (live d (av_now view))) deadline then None else Some (wa_revision current)) : result anyhow (option Z))) = (after, outcome) →
    (∀ l, lease = Some l → ∃ current, lease_selected config l view current) →
    proof_kept proof after ∧ ∀ revision, outcome = Ok (Some revision) → revalidated proof after w view revision) as Hfinish.
  { intros a o [= <- <-] Hl. split; [split; cbn; try done; intros; by apply earlier_le|]. intros revision. destruct (is_some_and _ deadline) eqn:Hlive; [done|].
    intros [= <-]. split; cbn; try done. intros d Hd. rewrite Hd in Hlive. unfold live in Hlive. cbn in Hlive. lia. }
  destruct lease as [l|]; [|intros Hf; by apply Hfinish].
  destruct (select config l view) as [[x|]|e|msg] eqn:Hsel; try (intros [= <- <-]; split; [done|by intros]).
  intros Hf. apply Hfinish; [done|]. intros l' [= <-]. by eapply select_Some.
Qed.
Lemma proof_steps_kept proof steps : proof_kept proof (foldl proof_step proof steps).
Proof.
  revert proof. induction steps as [|step steps IH]; intros proof; cbn [foldl]; [done|]. transitivity (proof_step proof step); [|apply IH].
  destruct step as [expires w view|e]; cbn [proof_step].
  - destruct (revalidate_issuance_authority _ _ _ _ _ _) as [after outcome] eqn:Hr. by apply revalidate_spec in Hr as [? _].
  - split; cbn; eauto with lia. intros x ->. cbn. eexists. split; [done|lia].
Qed.
(** C14: an issuance proof never gains authority. However often it was
    revalidated, refused or given an expiry in between, a revalidation that
    succeeds proves, against what the proof held when it was created, that the
    readiness epoch is the original one, that the publication stamp is the
    original one or that the publication kept the original tip, parent,
    revision, balances and fee, that the original deadline has not passed, and
    that the original lease is still selected; and the revision it returns was
    read from the database after the request. *)
Theorem issuance_proof_sound proof steps expires w view after revision :
  revalidate_issuance_authority instant_max config (foldl proof_step proof steps) expires w view = (after, Ok (Some revision)) →
  rd_generation (av_readiness view) = ia_readiness_epoch proof ∧
  (publication_stamp (av_tip view) = ia_published_tip proof ∨ ∃ issue, ia_same_tip proof = Some issue ∧ holds issue (ia_identity proof) view = true) ∧
  (∀ d, ia_deadline proof = Some d → av_now view < d) ∧
  (∀ l, ia_lease proof = Some l → ∃ current, lease_selected config l view current) ∧
  revision_proved (ia_identity proof) w revision.
Proof.
  pose proof (proof_steps_kept proof steps) as [(F1 & F2 & F3 & F4) L D _]. intros [[_ L' D' _] Hr]%revalidate_spec.
  destruct (Hr _ eq_refl) as [Hg Hp Hd Hl Hrev]. rewrite F1, ?F3, ?F4 in *. split; [congruence|]. split; [done|]. split; [|split; [|done]].
  - intros d H. destruct (D d H) as (d1 & H1 & ?). destruct (D' d1 H1) as (d2 & H2 & ?). specialize (Hd _ H2). lia.
  - intros l H. by apply Hl, L', L.
Qed.
End issuance.

(** * A departure in progress *)
Module Departure.
Definition config : Config := {| submit_tip_max_age := 8; template_refresh_failure_exit := 40; health_timeout := 100 |}.
Definition window : WindowRef := {| wr_anchor_ms := 1; wr_prior_balances_digest := [7]; wr_shares := None; wr_cut := None |}.
Definition work : Prepared := {|
  pr_storage_key := "k"; pr_generation := 1; pr_fingerprint := "f"; pr_window := window; pr_payout_revision := 3; pr_parent := Some "aa";
  pr_fee := None; pr_timeline := Some 1 |}.
Definition readiness : ReadinessState := {|
  rd_last_poll := Some 5; rd_generation := 2; rd_ctv_fee_floor := None; rd_ctv_fee_floor_read := None; rd_poll_renews := true;
  rd_refresh_failed_on_database := false |}.
(** Published on "aa" at 5, away on "bb" from 10. *)
Definition tip : TipView := {|
  tv_hash := "aa"; tv_parent := None; tv_transitioned := false; tv_share_lease := false; tv_observed_at := 5; tv_sequence := 1 |}.
Definition away : TipState := tip_step (after tip_default (baseline 5 "aa")) (10, Observed "bb" 2 true).
Definition events : list (Z * TipEvent) := [(20, Observed "cc" 3 true); (25, Published "bb")].
Definition view (now : Z) (s : TipState) : AuthorityView := {| av_prepared := Some work; av_readiness := readiness; av_tip := s; av_now := now |}.
Definition lease : PublishedLease := {|
  pl_identity := identity_of work; pl_published_tip := Some ("aa"%string, 1); pl_readiness_epoch := 2; pl_current_revision := 4; pl_deadline := 50 |}.
Definition waits (at_ : Z) (s : TipState) : Waits := {|
  wt_requested_at := at_; wt_read := Ok {| cr_now_ms := 0; cr_payout_revision := 4; cr_timeline := 1 |}; wt_read_at := at_; wt_window_held := Ok false;
  wt_view := view at_ s; wt_payout_state := Ok {| ps_payout_revision := 4; ps_prior_balances_digest := [7] |}; wt_lease_view := view at_ s; wt_done_at := at_ |}.
Definition issuance : IssuanceAuthority := {|
  ia_identity := identity_of work; ia_readiness_epoch := 2; ia_published_tip := Some ("aa"%string, 1); ia_lease := None; ia_deadline := None;
  ia_expires_at_ms := Some 9; ia_same_tip := None; ia_refusal := None |}.
Definition proof_steps : list ProofStep := [Revalidated (Some 9) (waits 12 away) (view 13 away); NotedExpiry 7].
End Departure.
Import Departure.
Lemma lease_commit_sound_witness : publications away events = [] ∧ pi_parent (pl_identity lease) = Some "aa"%string.
Proof.
  destruct (lease_commit_sound 1000 config away tip lease events (view 30 (tip_run away events)) (Some 45)) as (H1 & H2 & _);
    [reflexivity..|exact (conj H1 H2)].
Defined.
Lemma issuance_proof_sound_witness :
  let r := revalidate_issuance_authority 100000000 config (foldl (proof_step 100000000 config) issuance proof_steps) None (waits 20 away) (view 21 away) in
  r.2 = Ok (Some 4) ∧ publication_stamp (av_tip (view 21 away)) = ia_published_tip issuance.
Proof.
  intros r. assert (r.2 = Ok (Some 4)) as Hr by (vm_compute; reflexivity). split; [exact Hr|].
  destruct (issuance_proof_sound 100000000 config issuance proof_steps None (waits 20 away) (view 21 away) r.1 4) as (_ & [Hs|(i & Hi & _)] & _).
  - rewrite <- Hr. unfold r. apply surjective_pairing.
  - exact Hs.
  - discriminate Hi.
Defined.
