(* ===== verification/ChainObservation.v ===== *)
(** The accepted chain tip of a cluster of nodes: each node's observer
    (qbit-prism-server/src/coordinator/chain_observation.rs) and the ledger's
    side of an observation (ledger/window.rs, [observe_chain_view_checked]).

    An observer's [observe] is two steps around its ledger call: [begin_observe]
    consumes the pending transition before any I/O, [finish_observe] looks at
    the answer.  The ledger call is one transaction under the settlement lock on
    the cluster row.  Statement and connection failures leave the row as it was
    and answer an error of no special type. *)
From Stdlib Require Import ZArith Lia.
From stdpp Require Import base list strings gmap.
From S2P Require Import Prelude Bytes Crates Codec.

Open Scope Z_scope.

(** * Data *)
Record ChainTransition := { predecessor : string; origin_chain_epoch : Z }.
Record ChainObservationState := { os_payout_revision : Z; os_chain_epoch : Z; os_best_tip_hash : option string }.
Record ChainObservation := { co_tip : option string; co_retry_from : option ChainTransition }.
Definition observation_default : ChainObservation := {| co_tip := None; co_retry_from := None |}.
(** The singleton row of [qbit_prism_cluster]. *)
Record Cluster := {
  cl_payout_revision : Z;
  cl_chain_epoch : Z;
  cl_best_chainwork : Z;
  cl_best_tip_hash : option string;
  cl_best_tip_height : option Z;
}.
Inductive ObservationError := Behind | Retry | Refused (e : anyhow).

(** * The observer *)
(** The state left by the part before the ledger call, the witness the call
    carries, and the tip to restore. *)
Definition begin_observe (s : ChainObservation) (tip : string) (observed : ChainObservationState)
  : ChainObservation * option ChainTransition * option string :=
  let previous_tip := co_tip s in
  let s :=
    if match co_tip s with None => true | Some previous => negb (eq_ignore_ascii_case previous tip) end
    then {| co_tip := Some (to_ascii_lowercase tip);
            co_retry_from :=
              p ← co_tip s;
              if bool_decide (os_best_tip_hash observed = Some p)
              then Some {| predecessor := p; origin_chain_epoch := os_chain_epoch observed |} else None |}
    else s in
  ({| co_tip := co_tip s; co_retry_from := None |}, co_retry_from s, previous_tip).
Definition finish_observe (s : ChainObservation) (witness : option ChainTransition) (previous_tip : option string)
    (answer : result ObservationError Z) : ChainObservation :=
  match answer with
  | Err Behind => {| co_tip := previous_tip; co_retry_from := co_retry_from s |}
  | Err Retry => {| co_tip := co_tip s; co_retry_from := witness |}
  | _ => s
  end.

(** * The ledger *)
Definition refused {A} (msg : string) : result ObservationError A := Err (Refused [msg]).
Definition require (b : bool) (msg : string) : result ObservationError unit := if b then Ok () else refused msg.
Fixpoint hexdigits (s : string) : bool :=
  match s with EmptyString => true | String c s => match hex_value c with Some _ => hexdigits s | None => false end end.
(** [BigUint::parse_bytes] in base 16. *)
Fixpoint parse_hex (acc : Z) (s : string) : option Z :=
  match s with EmptyString => Some acc | String c s => d ← hex_value c; parse_hex (acc * 16 + d) s end.
Definition is_tip_hash (s : string) : bool := (String.length s =? 64)%nat && hexdigits s.

Definition chain_observation_state (c : Cluster) : ChainObservationState :=
  {| os_payout_revision := cl_payout_revision c; os_chain_epoch := cl_chain_epoch c; os_best_tip_hash := cl_best_tip_hash c |}.
(** The checks of an equal-work view of another tip. *)
Definition check_transition (c : Cluster) (same_height : bool) (transition : option (ChainTransition * ChainObservationState))
  : result ObservationError unit :=
  match transition with
  | None => Ok ()
  | Some (witness, observed) =>
      let from := to_ascii_lowercase (predecessor witness) in
      _ ← require ((cl_chain_epoch c =? origin_chain_epoch witness) && (os_chain_epoch observed =? origin_chain_epoch witness)
                   && bool_decide (os_best_tip_hash observed = Some from)) "chain observation epoch changed";
      if negb (cl_payout_revision c =? os_payout_revision observed)
      then if bool_decide (cl_best_tip_hash c = Some from) && same_height then Err Retry
           else refused "chain observation revision changed"
      else require (bool_decide (cl_best_tip_hash c = Some from)) "chain transition predecessor changed"
  end.
Definition observe_chain_view_checked (c : Cluster) (tip : string) (height : Z) (chainwork_hex : string)
    (transition : option (ChainTransition * ChainObservationState)) : result ObservationError (Cluster * Z) :=
  _ ← require (is_tip_hash tip) "invalid chain tip hash";
  _ ← require ((0 <? String.length chainwork_hex)%nat && (String.length chainwork_hex <=? 64)%nat && hexdigits chainwork_hex)
        "invalid cumulative chainwork";
  work ← ok_or (parse_hex 0 chainwork_hex) (Refused ["invalid chainwork"]);
  _ ← require (0 <? work) "chainwork must be positive";
  height ← ok_or (checked I64 height) (Refused ["out of range integral type conversion attempted"]);
  let tip := to_ascii_lowercase tip in
  let same := cl_best_chainwork c =? work in
  let greater := cl_best_chainwork c <? work in
  if negb greater && negb same then Err Behind else
  let same_tip := bool_decide (cl_best_tip_hash c = Some tip) in
  _ ← (if same then
         let same_height := bool_decide (cl_best_tip_height c = Some height) in
         _ ← (if negb same_tip then check_transition c same_height transition else Ok ());
         require ((same_tip || bool_decide (is_Some transition)) && same_height) "local node follows a conflicting equal-work chain tip"
       else Ok ());
  if greater || negb same_tip then
    revision ← ok_or (checked_add I64 (cl_payout_revision c) 1) (Refused ["bigint out of range"]);
    epoch ← ok_or (checked_add I64 (cl_chain_epoch c) 1) (Refused ["bigint out of range"]);
    Ok ({| cl_payout_revision := revision; cl_chain_epoch := epoch; cl_best_chainwork := work; cl_best_tip_hash := Some tip;
           cl_best_tip_height := Some height |}, revision)
  else Ok (c, cl_payout_revision c).
Definition observe_chain_view (c : Cluster) (tip : string) (height : Z) (chainwork_hex : string) : result ObservationError (Cluster * Z) :=
  observe_chain_view_checked c tip height chainwork_hex None.
Definition observe_chain_transition (c : Cluster) (transition : ChainTransition) (tip : string) (height : Z) (chainwork_hex : string)
    (observed : ChainObservationState) : result ObservationError (Cluster * Z) :=
  _ ← require (is_tip_hash (predecessor transition) && negb (eq_ignore_ascii_case (predecessor transition) tip)) "invalid chain transition predecessor";
  _ ← require (0 <=? origin_chain_epoch transition) "invalid chain transition epoch";
  observe_chain_view_checked c tip height chainwork_hex (Some (transition, observed)).

(** * The cluster *)
(** The nodes' observers, the row, and every state of it that was read. *)
Record World := { wd_cluster : Cluster; wd_nodes : gmap Z ChainObservation; wd_seen : list ChainObservationState }.
(** A frontend that restarts observes from the default state again.  What
    becomes of a call: answered, its reply lost after the transaction, or
    cancelled or failed before it. *)
Inductive Reply := Answered | ReplyLost | Cancelled.
Inductive WorldEvent :=
| Refresh (node : Z) (tip : string) (height : Z) (chainwork_hex : string) (observed : ChainObservationState) (reply : Reply)
| Account
| Restart (node : Z).
Definition observer (w : World) (node : Z) : ChainObservation := default observation_default (wd_nodes w !! node).
Definition ledger_call (c : Cluster) (witness : option ChainTransition) (tip : string) (height : Z) (chainwork_hex : string)
    (observed : ChainObservationState) : result ObservationError (Cluster * Z) :=
  match witness with
  | Some from => observe_chain_transition c from tip height chainwork_hex observed
  | None => observe_chain_view c tip height chainwork_hex
  end.
Definition commit (c : Cluster) (reply : Reply) (r : result ObservationError (Cluster * Z)) : Cluster :=
  match reply, r with
  | Cancelled, _ => c
  | _, Ok (c', _) => c'
  | _, _ => c
  end.
Definition world_step (w : World) (event : WorldEvent) : World :=
  match event with
  | Refresh node tip height work observed reply =>
      let '(s, witness, previous) := begin_observe (observer w node) tip observed in
      let r := ledger_call (wd_cluster w) witness tip height work observed in
      let s := match reply with Answered => finish_observe s witness previous (snd <$> r) | _ => s end in
      let c := commit (wd_cluster w) reply r in
      {| wd_cluster := c; wd_nodes := <[node := s]> (wd_nodes w); wd_seen := chain_observation_state c :: wd_seen w |}
  | Account =>
      let c := wd_cluster w in
      let c := {| cl_payout_revision := cl_payout_revision c + 1; cl_chain_epoch := cl_chain_epoch c; cl_best_chainwork := cl_best_chainwork c;
                  cl_best_tip_hash := cl_best_tip_hash c; cl_best_tip_height := cl_best_tip_height c |} in
      {| wd_cluster := c; wd_nodes := wd_nodes w; wd_seen := chain_observation_state c :: wd_seen w |}
  | Restart node => {| wd_cluster := wd_cluster w; wd_nodes := delete node (wd_nodes w); wd_seen := wd_seen w |}
  end.

(** * Theorems *)
Fixpoint world_run (w : World) (events : list WorldEvent) : World :=
  match events with [] => w | event :: events => world_run (world_step w event) events end.
(** An observer reads the cluster row before its node proof. *)
Definition reads_seen (w : World) (event : WorldEvent) : Prop :=
  match event with Refresh _ _ _ _ observed _ => observed ∈ wd_seen w | _ => True end.
Fixpoint world_trace (w : World) (events : list WorldEvent) : Prop :=
  match events with [] => True | event :: events => reads_seen w event ∧ world_trace (world_step w event) events end.
Definition world_init (c : Cluster) : World := {| wd_cluster := c; wd_nodes := ∅; wd_seen := [chain_observation_state c] |}.

(** The chain part of the row is a function of its epoch, and a pending
    transition names a state that was read. *)
Record world_inv (w : World) : Prop := {
  wi_seen o : o ∈ wd_seen w → os_chain_epoch o ≤ cl_chain_epoch (wd_cluster w) ∧
    (os_chain_epoch o = cl_chain_epoch (wd_cluster w) → os_best_tip_hash o = cl_best_tip_hash (wd_cluster w));
  wi_retry node tr : co_retry_from (observer w node) = Some tr →
    ∃ o, o ∈ wd_seen w ∧ os_best_tip_hash o = Some (predecessor tr) ∧ os_chain_epoch o = origin_chain_epoch tr;
}.

Lemma require_Ok b msg u : require b msg = Ok u → b = true.
Proof. by destruct b. Qed.
Lemma check_transition_Ok c same_height transition u :
  check_transition c same_height transition = Ok u → ∀ tr o, transition = Some (tr, o) →
  cl_chain_epoch c = origin_chain_epoch tr ∧ os_chain_epoch o = origin_chain_epoch tr ∧ cl_best_tip_hash c = Some (to_ascii_lowercase (predecessor tr)) ∧
  os_payout_revision o = cl_payout_revision c.
Proof.
  intros Hc tr o ->. unfold check_transition in Hc. apply bind_Ok in Hc as (? & Hr%require_Ok & Hc).
  rewrite !andb_true_iff, !Z.eqb_eq in Hr. destruct Hr as [[He Ho] _].
  destruct (Z.eqb_spec (cl_payout_revision c) (os_payout_revision o)); cbn [negb] in Hc; [|destruct (bool_decide _ && same_height); done].
  apply require_Ok, bool_decide_eq_true in Hc. done.
Qed.
(** What a committed observation changed. *)
Lemma observe_checked_inv c tip height hex transition c' revision :
  observe_chain_view_checked c tip height hex transition = Ok (c', revision) →
  c' = c ∨ (cl_chain_epoch c' = cl_chain_epoch c + 1 ∧ cl_payout_revision c' = cl_payout_revision c + 1 ∧ revision = cl_payout_revision c' ∧
    cl_best_tip_hash c' = Some (to_ascii_lowercase tip) ∧
    (cl_best_chainwork c < cl_best_chainwork c' ∨
     (cl_best_chainwork c' = cl_best_chainwork c ∧ cl_best_tip_height c' = cl_best_tip_height c ∧ cl_best_tip_hash c' ≠ cl_best_tip_hash c ∧
      ∃ tr o, transition = Some (tr, o) ∧ cl_chain_epoch c = origin_chain_epoch tr ∧ os_chain_epoch o = origin_chain_epoch tr ∧
        cl_best_tip_hash c = Some (to_ascii_lowercase (predecessor tr)) ∧ os_payout_revision o = cl_payout_revision c))).
Proof.
  unfold observe_chain_view_checked. intros (? & _ & Hr)%bind_Ok. apply bind_Ok in Hr as (? & _ & Hr). apply bind_Ok in Hr as (work & _ & Hr).
  apply bind_Ok in Hr as (? & _ & Hr). apply bind_Ok in Hr as (h & _ & Hr). destruct (_ && negb _) eqn:Hb; [done|].
  apply bind_Ok in Hr as (u & Hsame & Hr). destruct ((_ <? work) || _) eqn:Hw; [|injection Hr as <- _; by left]. right.
  apply bind_Ok in Hr as (r & [-> _]%ok_or_Ok%checked_Some & Hr). apply bind_Ok in Hr as (e & [-> _]%ok_or_Ok%checked_Some & [= <- <-]). cbn.
  repeat (split; [done|]). destruct (Z.ltb_spec (cl_best_chainwork c) work) as [|Hge]; [by left|]. right. cbn in Hb, Hw.
  destruct (Z.eqb_spec (cl_best_chainwork c) work) as [Heq|]; [|done]. split; [done|].
  destruct (bool_decide_reflect (cl_best_tip_hash c = Some (to_ascii_lowercase tip))) as [|Hne]; [done|]. cbn [negb] in Hsame.
  apply bind_Ok in Hsame as (? & Hc & [Ht Hh]%require_Ok%andb_true_iff). apply bool_decide_eq_true in Hh. split; [done|]. split; [congruence|].
  cbn in Ht. apply bool_decide_eq_true in Ht as [[tr o] ->]. exists tr, o. split; [done|]. by eapply check_transition_Ok.
Qed.
Lemma ledger_call_inv c witness tip height hex observed c' revision :
  ledger_call c witness tip height hex observed = Ok (c', revision) →
  c' = c ∨ (cl_chain_epoch c' = cl_chain_epoch c + 1 ∧ cl_payout_revision c' = cl_payout_revision c + 1 ∧
    cl_best_tip_hash c' = Some (to_ascii_lowercase tip) ∧
    (cl_best_chainwork c < cl_best_chainwork c' ∨
     (cl_best_chainwork c' = cl_best_chainwork c ∧ cl_best_tip_height c' = cl_best_tip_height c ∧ cl_best_tip_hash c' ≠ cl_best_tip_hash c ∧
      ∃ tr, witness = Some tr ∧ cl_chain_epoch c = origin_chain_epoch tr ∧ os_chain_epoch observed = origin_chain_epoch tr ∧
        cl_best_tip_hash c = Some (to_ascii_lowercase (predecessor tr)) ∧ os_payout_revision observed = cl_payout_revision c))).
Proof.
  destruct witness as [tr|]; cbn.
  - unfold observe_chain_transition. intros (? & _ & Hr)%bind_Ok. apply bind_Ok in Hr as (? & _ & Hr). apply observe_checked_inv in Hr as [?|(? & ? & _ & ? & Hr)]; [by left|].
    right. repeat (split; [done|]). destruct Hr as [?|(? & ? & ? & tr' & o & [= <- <-] & ?)]; [by left|]. right. naive_solver.
  - unfold observe_chain_view. intros [?|(? & ? & _ & ? & Hr)]%observe_checked_inv; [by left|]. right. repeat (split; [done|]).
    destruct Hr as [?|(_ & _ & _ & ? & ? & ? & _)]; [by left|done].
Qed.
(** A witness is pending from before or made now, from the local predecessor
    the cluster had accepted when it was read. *)
Lemma begin_observe_witness s tip observed s' tr previous :
  begin_observe s tip observed = (s', Some tr, previous) →
  (co_retry_from s = Some tr ∧ co_tip s' = co_tip s) ∨
  (co_tip s = Some (predecessor tr) ∧ os_best_tip_hash observed = Some (predecessor tr) ∧ origin_chain_epoch tr = os_chain_epoch observed ∧
   eq_ignore_ascii_case (predecessor tr) tip = false).
Proof.
  unfold begin_observe. destruct (co_tip s) as [p|] eqn:Ht.
  - destruct (eq_ignore_ascii_case p tip) eqn:He; cbn [negb].
    + intros [= <- Hr _]. left. by rewrite Ht.
    + cbn. destruct (bool_decide_reflect (os_best_tip_hash observed = Some p)); [|done]. intros [= <- <- _]. right. done.
  - cbn. done.
Qed.
Lemma begin_observe_clears s tip observed s' witness previous : begin_observe s tip observed = (s', witness, previous) → co_retry_from s' = None.
Proof. unfold begin_observe. by intros [= <- _ _]. Qed.
Lemma finish_retry s witness previous answer tr :
  co_retry_from s = None → co_retry_from (finish_observe s witness previous answer) = Some tr → witness = Some tr ∧ answer = Err Retry.
Proof. intros Hs. unfold finish_observe. destruct answer as [|[]|]; cbn; intros Hx; first [congruence|done]. Qed.

Lemma world_step_inv w event : world_inv w → reads_seen w event → world_inv (world_step w event).
Proof.
  intros [Hseen Hretry] Hr. destruct event as [node tip height hex observed reply| |node]; cbn [world_step].
  - destruct (begin_observe (observer w node) tip observed) as [[s witness] previous] eqn:Hb.
    set (r := ledger_call (wd_cluster w) witness tip height hex observed). set (c := commit (wd_cluster w) reply r).
    assert (c = wd_cluster w ∨ cl_chain_epoch c = cl_chain_epoch (wd_cluster w) + 1) as Hc.
    { unfold c, commit. destruct reply; try (by left); destruct r as [[c' rev]| |] eqn:Hcall; try (by left);
        (apply ledger_call_inv in Hcall as [->|(? & _)]; [by left|by right]). }
    split; cbn.
    + intros o [->|Ho]%elem_of_cons; [cbn; split; [lia|done]|]. destruct (Hseen o Ho) as [Hle Heq]. destruct Hc as [->|Hc]; [done|]. split; [lia|intros; lia].
    + intros n tr. unfold observer. cbn. destruct (decide (n = node)) as [->|Hn].
      * rewrite lookup_insert_eq. cbn. intros Htr.
        assert (witness = Some tr) as ->.
        { destruct reply; [by apply finish_retry in Htr as [? _]; [|by eapply begin_observe_clears]|..]; apply begin_observe_clears in Hb; congruence. }
        apply begin_observe_witness in Hb as [[Hold _]|(_ & Hbest & Hep & _)].
        -- destruct (Hretry node tr Hold) as (o & ? & ?). exists o. split; [by right|done].
        -- exists observed. split; [by right|done].
      * rewrite lookup_insert_ne by done. intros Htr. destruct (Hretry n tr Htr) as (o & ? & ?). exists o. split; [by right|done].
  - split; cbn.
    + intros o [->|Ho]%elem_of_cons; [cbn; split; [lia|done]|]. by apply Hseen.
    + intros n tr Htr. destruct (Hretry n tr Htr) as (o & ? & ?). exists o. split; [by right|done].
  - split; cbn; [done|]. intros n tr. unfold observer. cbn. destruct (decide (n = node)) as [->|Hn]; [by rewrite lookup_delete_eq|].
    rewrite lookup_delete_ne by done. apply Hretry.
Qed.
Lemma world_run_inv w events : world_inv w → world_trace w events → world_inv (world_run w events).
Proof. revert w. induction events as [|e events IH]; intros w Hw; [done|]. intros [Hr Ht]. cbn. apply IH; [by apply world_step_inv|done]. Qed.
Lemma world_init_inv c : world_inv (world_init c).
Proof. split; cbn; [intros o ->%list_elem_of_singleton; done|]. intros n tr. unfold observer. cbn. rewrite lookup_empty. done. Qed.

(** C12: the cluster's tip moves only forward in work, or from the very tip an
    observer's node left. Whatever the nodes observe in whatever order, with
    lost replies, cancellations, restarts and accounting in between, a step that changes
    the accepted chain advances the epoch and the payout revision by one and
    never lowers the chainwork; and a step that replaces the tip by an
    equal-work one carries a witness of the acting observer, whose predecessor
    is the tip being replaced, taken when the row was in this same epoch: no
    other observer's change lies in between, not even one undone since. *)
Theorem chain_replacement_sound c events node tip height hex observed reply :
  let w := world_run (world_init c) events in
  let event := Refresh node tip height hex observed reply in
  let before := wd_cluster w in let after := wd_cluster (world_step w event) in
  world_trace (world_init c) events → reads_seen w event → after ≠ before →
  cl_chain_epoch after = cl_chain_epoch before + 1 ∧ cl_payout_revision after = cl_payout_revision before + 1 ∧
  cl_best_tip_hash after = Some (to_ascii_lowercase tip) ∧
  (cl_best_chainwork before < cl_best_chainwork after ∨
   (cl_best_chainwork after = cl_best_chainwork before ∧ cl_best_tip_height after = cl_best_tip_height before ∧
    ∃ tr, (begin_observe (observer w node) tip observed).1.2 = Some tr ∧
      cl_best_tip_hash before = Some (predecessor tr) ∧ origin_chain_epoch tr = cl_chain_epoch before ∧
      ∃ o, o ∈ wd_seen w ∧ os_chain_epoch o = cl_chain_epoch before ∧ os_best_tip_hash o = Some (predecessor tr))).
Proof.
  intros w event before after Ht Hr Hne. pose proof (world_run_inv _ _ (world_init_inv c) Ht) as [Hseen Hretry]. fold w in Hseen, Hretry.
  unfold after, event in *. cbn [world_step] in *. destruct (begin_observe (observer w node) tip observed) as [[s witness] previous] eqn:Hb. cbn in *.
  assert (∃ rev, ledger_call before witness tip height hex observed = Ok (commit before reply (ledger_call before witness tip height hex observed), rev)) as [rev Hcall].
  { fold before in Hne. unfold commit in *. destruct reply; try done; destruct (ledger_call before witness tip height hex observed) as [[c' rev]| |]; try done; by exists rev. }
  fold before. apply ledger_call_inv in Hcall as [?|(He & Hp & Htip & Hw)]; [done|]. repeat (split; [done|]).
  destruct Hw as [?|(Hwork & Hheight & _ & tr & -> & Hep & Hoep & Hbest & _)]; [by left|]. right. split; [done|]. split; [done|]. exists tr. split; [done|].
  assert (∃ o, o ∈ wd_seen w ∧ os_best_tip_hash o = Some (predecessor tr) ∧ os_chain_epoch o = origin_chain_epoch tr) as (o & Ho & Hob & Hoe).
  { apply begin_observe_witness in Hb as [[Hold _]|(_ & ? & ? & _)]; [by eapply Hretry|]. exists observed. done. }
  destruct (Hseen o Ho) as [_ Heq]. fold before in Heq. split; [rewrite <- Heq by congruence; done|]. split; [done|]. exists o. split; [done|]. split; [congruence|done].
Qed.

(** The events of a node that change its tip, and those that replace the
    cluster's tip at equal work. *)
Definition local_change (node : Z) (w : World) (event : WorldEvent) : bool :=
  match event with
  | Refresh n tip _ _ _ _ => (n =? node) && from_option (fun p => negb (eq_ignore_ascii_case p tip)) false (co_tip (observer w n))
  | _ => false
  end.
Definition replaces (node : Z) (w : World) (event : WorldEvent) : bool :=
  match event with
  | Refresh n _ _ _ _ _ =>
      let before := wd_cluster w in let after := wd_cluster (world_step w event) in
      (n =? node) && (cl_best_chainwork before =? cl_best_chainwork after) && negb (bool_decide (cl_best_tip_hash before = cl_best_tip_hash after))
  | _ => false
  end.
Fixpoint counted (p : World -> WorldEvent -> bool) (w : World) (events : list WorldEvent) : nat :=
  match events with [] => 0 | event :: events => (if p w event then 1 else 0) + counted p (world_step w event) events end.
Definition pending (w : World) (node : Z) : nat := match co_retry_from (observer w node) with Some _ => 1 | None => 0 end.

Lemma world_step_count node w event :
  ((if replaces node w event then 1 else 0) + pending (world_step w event) node ≤ (if local_change node w event then 1 else 0) + pending w node)%nat.
Proof.
  destruct event as [n tip height hex observed reply| |n]; cbn [replaces local_change world_step]; [|done|].
  2:{ unfold pending, observer. cbn. destruct (decide (node = n)) as [->|Hn]; [rewrite lookup_delete_eq; cbn; lia|by rewrite lookup_delete_ne]. }
  destruct (begin_observe (observer w n) tip observed) as [[s witness] previous] eqn:Hb. cbn [wd_cluster].
  set (r := ledger_call (wd_cluster w) witness tip height hex observed).
  destruct (Z.eqb_spec n node) as [->|Hn]; cbn [andb].
  2:{ unfold pending, observer. cbn. by rewrite lookup_insert_ne. }
  assert ((match witness with Some _ => 1 | None => 0 end ≤ (if from_option (fun p => negb (eq_ignore_ascii_case p tip)) false (co_tip (observer w node)) then 1 else 0) + pending w node)%nat) as Hwit.
  { destruct witness as [tr|]; [|lia]. unfold pending. apply begin_observe_witness in Hb as [[-> _]|(Ht & _ & _ & Hne)]; [lia|]. rewrite Ht. cbn. rewrite Hne. cbn. lia. }
  etransitivity; [|exact Hwit]. clear Hwit. unfold pending, observer. cbn. rewrite lookup_insert_eq. cbn. pose proof (begin_observe_clears _ _ _ _ _ _ Hb) as Hs.
  destruct ((cl_best_chainwork _ =? _) && _) eqn:Hrep; [|].
  - apply andb_true_iff in Hrep as [Hw%Z.eqb_eq Hh]. apply negb_true_iff, bool_decide_eq_false in Hh. unfold commit in Hw, Hh.
    destruct reply; try done; destruct r as [[c' rev]| |] eqn:Hr; try done;
      (apply ledger_call_inv in Hr as [->|(_ & _ & _ & [?|(_ & _ & _ & tr & -> & _)])]; [done|lia|]); cbn; rewrite ?Hs; lia.
  - destruct reply; rewrite ?Hs; try (destruct witness; lia). destruct (co_retry_from (finish_observe _ _ _ _)) as [tr|] eqn:Hf; [|destruct witness; lia].
    apply finish_retry in Hf as [-> _]; [lia|done].
Qed.
(** C17: a node replaces the cluster's tip at equal work at most as often as its
    own tip changes. Retried, lost and cancelled observations, polls that
    repeat the same tip, and excursions below the accepted work never buy a
    second replacement. *)
Theorem replacements_bounded c node events :
  (counted (replaces node) (world_init c) events ≤ counted (local_change node) (world_init c) events)%nat.
Proof.
  assert (∀ w, (counted (replaces node) w events ≤ counted (local_change node) w events + pending w node)%nat) as H.
  { induction events as [|e events IH]; intros w; cbn [counted]; [lia|]. specialize (IH (world_step w e)). pose proof (world_step_count node w e). lia. }
  specialize (H (world_init c)). unfold pending, observer in H. cbn in H. rewrite lookup_empty in H. cbn in H. lia.
Qed.

(** A node that follows its own reorganisation to an equal-work tip. *)
Module EqualWork.
Definition a : string := "aaaaaaaaaaaaaaaaaaaaaaaaaaaaaaaaaaaaaaaaaaaaaaaaaaaaaaaaaaaaaaaa".
Definition b : string := "bbbbbbbbbbbbbbbbbbbbbbbbbbbbbbbbbbbbbbbbbbbbbbbbbbbbbbbbbbbbbbbb".
Definition cluster : Cluster :=
  {| cl_payout_revision := 5; cl_chain_epoch := 2; cl_best_chainwork := 16; cl_best_tip_hash := Some a; cl_best_tip_height := Some 9 |}.
Definition events : list WorldEvent := [Refresh 0 a 9 "10" (chain_observation_state cluster) Answered].
Definition move : WorldEvent := Refresh 0 b 9 "10" (chain_observation_state cluster) ReplyLost.
End EqualWork.
Lemma chain_replacement_sound_witness :
  cl_best_tip_hash (wd_cluster (world_step (world_run (world_init EqualWork.cluster) EqualWork.events) EqualWork.move)) = Some EqualWork.b.
Proof.
  refine (proj1 (proj2 (proj2 (chain_replacement_sound EqualWork.cluster EqualWork.events 0 EqualWork.b 9 "10"
    (chain_observation_state EqualWork.cluster) ReplyLost _ _ _)))).
  - split; [apply list_elem_of_singleton; reflexivity|exact I].
  - right. left.
  - intros H. apply (f_equal cl_chain_epoch) in H. vm_compute in H. discriminate H.
Defined.
Lemma replacements_bounded_attained :
  counted (replaces 0) (world_init EqualWork.cluster) (EqualWork.events ++ [EqualWork.move; EqualWork.move]) = 1%nat ∧
  counted (local_change 0) (world_init EqualWork.cluster) (EqualWork.events ++ [EqualWork.move; EqualWork.move]) = 1%nat.
Proof. by vm_compute. Qed.
