(* ===== verification/ClockedFlight.v ===== *)
(** The shared read of the database clock and payout revision
    (qbit-prism-server/src/coordinator/clocked_flight.rs).

    A flight is one database read, numbered in the order the reads start; every
    caller awaits the outcome of the flight it joined.  A read runs to
    completion whether or not anyone still waits for it. *)
From Stdlib Require Import ZArith Lia.
From stdpp Require Import base list strings.
From S2P Require Import Prelude Codec TipState.

Open Scope Z_scope.

Record Flight := { fl_started : Z; fl_read : nat }.
(** [fs_starts] are the instants the reads started, in order. *)
Record ClockedFlights := { fs_current : option Flight; fs_starts : list Z }.
Definition flights_default : ClockedFlights := {| fs_current := None; fs_starts := [] |}.
(** The critical section of [ClockedFlights::read]: the flight whose outcome the
    caller awaits. *)
Definition flight_read (now requested_at : Z) (s : ClockedFlights) : ClockedFlights * Flight :=
  let start :=
    let flight := {| fl_started := now; fl_read := length (fs_starts s) |} in
    ({| fs_current := Some flight; fs_starts := fs_starts s ++ [now] |}, flight) in
  match fs_current s with
  | Some flight => if requested_at <=? fl_started flight then (s, flight) else start
  | None => start
  end.
(** The flights joined by a sequence of calls, each with its clock and request. *)
Fixpoint flight_run (s : ClockedFlights) (calls : list (Z * Z)) : ClockedFlights * list Flight :=
  match calls with
  | [] => (s, [])
  | (now, requested_at) :: calls =>
      let '(s, flight) := flight_read now requested_at s in
      let '(s, flights) := flight_run s calls in (s, flight :: flights)
  end.
(** A call is made at or after its request, and the clock never runs back. *)
Fixpoint calls_ok (now : Z) (calls : list (Z * Z)) : Prop :=
  match calls with
  | [] => True
  | (at_, requested_at) :: calls => now ≤ at_ ∧ requested_at ≤ at_ ∧ calls_ok at_ calls
  end.

Record flights_wf (now : Z) (s : ClockedFlights) : Prop := {
  fw_current f : fs_current s = Some f → fs_starts s !! fl_read f = Some (fl_started f) ∧ length (fs_starts s) = S (fl_read f);
  fw_past t : t ∈ fs_starts s → t ≤ now;
}.
Lemma flights_wf_default now : flights_wf now flights_default.
Proof. split; [done|]. intros t Ht. by apply elem_of_nil in Ht. Qed.
Lemma flight_read_spec now at_ requested s s' f :
  flights_wf now s → now ≤ at_ → requested ≤ at_ → flight_read at_ requested s = (s', f) →
  flights_wf at_ s' ∧ requested ≤ fl_started f ∧ fs_current s' = Some f.
Proof.
  intros [Hc Hp] Hn Hr. unfold flight_read.
  assert (flights_wf at_ {| fs_current := Some {| fl_started := at_; fl_read := length (fs_starts s) |}; fs_starts := fs_starts s ++ [at_] |}) as Hnew.
  { split; cbn.
    - intros g [= <-]. cbn. split; [by rewrite lookup_app_r, Nat.sub_diag by lia|]. rewrite length_app. cbn. lia.
    - intros t [Ht| ->%list_elem_of_singleton]%elem_of_app; [|done]. specialize (Hp t Ht). lia. }
  destruct (fs_current s) as [g|] eqn:Hg; [destruct (Z.leb_spec requested (fl_started g))|].
  - intros [= <- <-]. split; [|auto]. split; [by rewrite Hg|]. intros t Ht. specialize (Hp t Ht). lia.
  - by intros [= <- <-].
  - by intros [= <- <-].
Qed.
Lemma flight_run_starts s calls : fs_starts s `prefix_of` fs_starts (flight_run s calls).1.
Proof.
  revert s. induction calls as [|[now requested] calls IH]; intros s; cbn; [done|]. destruct (flight_read now requested s) as [s1 f] eqn:Hf.
  destruct (flight_run s1 calls) as [s2 fs] eqn:Hr. specialize (IH s1). rewrite Hr in IH. cbn in *. etransitivity; [|exact IH].
  unfold flight_read in Hf. destruct (fs_current s); [case_match|]; injection Hf as <- _; first [done|by apply prefix_app_r].
Qed.
(** Every caller joins a read that started at or after its request. *)
Lemma flight_run_after_request now s calls i at_ requested f :
  flights_wf now s → calls_ok now calls → calls !! i = Some (at_, requested) → (flight_run s calls).2 !! i = Some f →
  requested ≤ fl_started f ∧ fs_starts (flight_run s calls).1 !! fl_read f = Some (fl_started f).
Proof.
  revert now s i. induction calls as [|[now' requested'] calls IH]; intros now s i Hw Hok Hi Hf; [done|]. destruct Hok as (Hn & Hr & Hok). cbn in Hf |- *.
  destruct (flight_read now' requested' s) as [s1 g] eqn:Hg. destruct (flight_read_spec _ _ _ _ _ _ Hw Hn Hr Hg) as (Hw1 & Hreq & Hcur).
  pose proof (flight_run_starts s1 calls) as Hpre. destruct (flight_run s1 calls) as [s2 fs] eqn:Hrun. cbn in *.
  destruct i as [|i]; cbn in Hi, Hf.
  - injection Hi as -> ->. injection Hf as <-. split; [done|]. eapply prefix_lookup_Some; [|exact Hpre]. by apply (fw_current _ _ Hw1).
  - specialize (IH now' s1 i Hw1 Hok Hi). rewrite Hrun in IH. by apply IH.
Qed.

(** * Deadlines from a shared read *)
Section deadline.
(** The database's clock at a monotonic instant, in nanoseconds: it advances
    with it. *)
Context (instant_max epoch : Z).
Definition database_ms (t : Z) : Z := (epoch + t) / 1000000.

(** An admission's deadline never outlives the expiry it stands for. Any
    number of callers share reads of the database clock; for each of them the
    read it joined started at or after its own request, so the deadline
    computed from the shared clock and the caller's request instant is, while
    it is live, an instant at which the database's own clock has not passed
    the expiry. *)
Theorem joined_deadline_conservative calls i at_ requested f read_at expires deadline now :
  calls_ok 0 calls → calls !! i = Some (at_, requested) → (flight_run flights_default calls).2 !! i = Some f → fl_started f ≤ read_at →
  from_database instant_max (database_ms read_at) requested expires = Ok deadline → requested ≤ now → live deadline now = true →
  requested ≤ fl_started f ∧ database_ms now ≤ expires.
Proof.
  intros Hok Hi Hf Hread Hd Hnow Hlive. destruct (flight_run_after_request 0 flights_default calls i at_ requested f) as [Hreq _]; [apply flights_wf_default|done..|].
  split; [done|]. unfold from_database in Hd. apply bind_Ok in Hd as (remaining & Hr & Hd). apply ok_or_Ok in Hd. unfold instant_add in Hd.
  destruct (_ <=? instant_max); [|done]. injection Hd as <-. unfold live in Hlive. apply Z.ltb_lt in Hlive. unfold database_ms in *.
  pose proof (Z.div_mod (epoch + read_at) 1000000 ltac:(done)) as Hm. pose proof (Z.mod_pos_bound (epoch + read_at) 1000000 ltac:(lia)).
  destruct (Z.leb_spec expires ((epoch + read_at) / 1000000)).
  - injection Hr as <-. lia.
  - apply ok_or_Ok, checked_Some in Hr as [-> _]. apply Z.lt_succ_r, Z.div_lt_upper_bound; lia.
Qed.
End deadline.
Lemma joined_deadline_conservative_witness :
  let calls := [(1000, 900); (1500, 950); (4000, 3000)] in
  (flight_run flights_default calls).2 = [{| fl_started := 1000; fl_read := 0 |}; {| fl_started := 1000; fl_read := 0 |}; {| fl_started := 4000; fl_read := 1 |}] ∧
  database_ms 5000000 1200000 ≤ 8.
Proof.
  intros calls. split; [reflexivity|].
  refine (proj2 (joined_deadline_conservative 1000000000 5000000 calls 1 1500 950 {| fl_started := 1000; fl_read := 0 |} 2000 8 (950 + 3000000) 1200000 _ _ _ _ _ _ _));
    try reflexivity; cbn; lia.
Defined.
