(* ===== verification/IssuedBatcher.v ===== *)
(** The bounded fan-in of issued-job writes
    (qbit-prism-server/src/coordinator/issued_batcher.rs).

    The collector task is a loop over its queue of pending entries and the
    channel of new ones.  What a round receives before its flush instant, which
    callers have given up at each of its three checks, and the ledger's answer
    are its inputs; channels, permits and timers are left out.  An entry is
    identified by [en_id], its place in the order of admission. *)
From Stdlib Require Import ZArith Lia.
From stdpp Require Import base list strings.
From S2P Require Import Prelude Order Codec.
From Stdlib Require Import Sorting.Permutation.

Open Scope Z_scope.

Definition BATCH : nat := 64.
Arguments BATCH : simpl never.
Record Group := {
  gr_key : string;
  gr_original_revision : Z;
  gr_parent : string;
  gr_original_expires_at_ms : Z;
  gr_template_sha256 : string;
  gr_prior_balances_digest : list Z;
  gr_revision : Z;
}.
#[export] Instance group_eq_dec : EqDecision Group.
Proof. solve_decision. Defined.
Record Entry := { en_id : nat; en_group : Group; en_deadline : Z }.
#[export] Instance entry_eq_dec : EqDecision Entry.
Proof. solve_decision. Defined.

Section collector.
(** The answer of the ledger to a batch. *)
Context {Answer : Type}.
Inductive Response := Expired | Stored (answer : Answer).
Definition response : Type := Entry * Response.

(** [canceled]: the callers that are gone at the check; [now]: its clock. *)
Record Check := { ck_canceled : Entry -> bool; ck_now : Z }.
Definition entry_live (c : Check) (entry : Entry) : bool := negb (ck_canceled c entry) && (ck_now c <? en_deadline entry).
Definition expire (entry : Entry) : response := (entry, Expired).
Definition discard_expired (c : Check) (pending : list Entry) : list Entry * list response :=
  (filter (fun e => entry_live c e = true) pending, expire <$> filter (fun e => entry_live c e = false) pending).

(** The rest of the batch from the queue: [batch] is never empty. *)
Fixpoint gather (group : Group) (batch pending : list Entry) : list Entry * list Entry :=
  match pending with
  | [] => (batch, [])
  | entry :: rest =>
      if (length batch <? BATCH)%nat then
        if bool_decide (en_group entry = group) then gather group (batch ++ [entry]) rest
        else let '(batch, rest) := gather group batch rest in (batch, entry :: rest)
      else (batch, pending)
  end.
(** The channel, until the batch is full or the flush instant comes: the batch,
    the queue and what was not received. *)
Fixpoint receive (group : Group) (batch pending incoming : list Entry) : list Entry * list Entry * list Entry :=
  match incoming with
  | [] => (batch, pending, [])
  | entry :: rest =>
      if (length batch <? BATCH)%nat then
        if bool_decide (en_group entry = group) then receive group (batch ++ [entry]) pending rest
        else receive group batch (pending ++ [entry]) rest
      else (batch, pending, incoming)
  end.
Record Collected := { cd_pending : list Entry; cd_unread : list Entry; cd_batch : list Entry; cd_responses : list response }.
(** A turn of the loop from the entry it starts with. *)
Definition serve (entry_check batch_check : Check) (ledger : list Entry -> Answer) (first : Entry) (pending incoming : list Entry) : Collected :=
  if negb (entry_live entry_check first)
  then {| cd_pending := pending; cd_unread := incoming; cd_batch := []; cd_responses := [expire first] |} else
  let '(batch, pending) := gather (en_group first) [first] pending in
  let '(batch, pending, unread) := receive (en_group first) batch pending incoming in
  let '(batch, expired) := discard_expired batch_check batch in
  match batch with
  | [] => {| cd_pending := pending; cd_unread := unread; cd_batch := []; cd_responses := expired |}
  | _ => {| cd_pending := pending; cd_unread := unread; cd_batch := batch;
            cd_responses := expired ++ ((fun e => (e, Stored (ledger batch))) <$> batch) |}
  end.
(** One turn of the loop: [incoming] is what the channel offers in it; a turn
    with nothing to do waits for the channel. *)
Definition collect_round (first_check entry_check batch_check : Check) (ledger : list Entry -> Answer) (pending incoming : list Entry) : Collected :=
  let '(pending, discarded) := discard_expired first_check pending in
  let served := match pending, incoming with
                | first :: pending, incoming => serve entry_check batch_check ledger first pending incoming
                | [], first :: incoming => serve entry_check batch_check ledger first [] incoming
                | [], [] => {| cd_pending := []; cd_unread := []; cd_batch := []; cd_responses := [] |}
                end in
  {| cd_pending := cd_pending served; cd_unread := cd_unread served; cd_batch := cd_batch served; cd_responses := discarded ++ cd_responses served |}.

(** * Theorems *)
(** The first [n] entries of a group, and the others, in order. *)
Fixpoint first_of (n : nat) (group : Group) (l : list Entry) : list Entry * list Entry :=
  match l with
  | [] => ([], [])
  | entry :: rest =>
      match n with
      | O => ([], l)
      | S n' =>
          if bool_decide (en_group entry = group) then let '(b, p) := first_of n' group rest in (entry :: b, p)
          else let '(b, p) := first_of n group rest in (b, entry :: p)
      end
  end.
Lemma first_of_0 group l : first_of 0 group l = ([], l).
Proof. by destruct l. Qed.
Lemma gather_spec group batch pending :
  (length batch ≤ BATCH)%nat →
  gather group batch pending = (batch ++ (first_of (BATCH - length batch) group pending).1, (first_of (BATCH - length batch) group pending).2).
Proof.
  revert batch. induction pending as [|e rest IH]; intros batch Hb; cbn [gather]; [cbn; by rewrite app_nil_r|].
  destruct (Nat.ltb_spec (length batch) BATCH) as [Hlt|Hge].
  - cbn [first_of]. destruct (BATCH - length batch)%nat as [|n] eqn:Hn; [lia|]. destruct (bool_decide _).
    + rewrite IH by (rewrite length_app; cbn; lia). rewrite length_app. cbn. replace (BATCH - (length batch + 1))%nat with n by lia.
      destruct (first_of n group rest). cbn. by rewrite <- app_assoc.
    + rewrite IH, Hn by done. by destruct (first_of (S n) group rest).
  - replace (BATCH - length batch)%nat with 0%nat by lia. rewrite first_of_0. cbn. by rewrite app_nil_r.
Qed.
(** What a round consumes of the channel is split the same way. *)
Lemma receive_spec group batch pending incoming b p u :
  (length batch ≤ BATCH)%nat → receive group batch pending incoming = (b, p, u) →
  ∃ read, incoming = read ++ u ∧ b = batch ++ (first_of (BATCH - length batch) group read).1 ∧
    p = pending ++ (first_of (BATCH - length batch) group read).2 ∧ (u ≠ [] → length b = BATCH) ∧ (length b ≤ BATCH)%nat.
Proof.
  revert batch pending. induction incoming as [|e rest IH]; intros batch pending Hb; cbn [receive].
  { intros [= <- <- <-]. exists []. cbn. rewrite !app_nil_r. done. }
  destruct (Nat.ltb_spec (length batch) BATCH) as [Hlt|Hge].
  - destruct (BATCH - length batch)%nat as [|n] eqn:Hn; [lia|]. destruct (bool_decide (en_group e = group)) eqn:Hg; intros Hr.
    + apply IH in Hr as (read & -> & -> & -> & Hfull & Hle); [|rewrite length_app; cbn; lia]. exists (e :: read). cbn [first_of]. rewrite Hg.
      assert (BATCH - length (batch ++ [e]) = n)%nat as Hn' by (rewrite length_app; cbn; lia). rewrite Hn' in Hfull, Hle |- *.
      destruct (first_of n group read). cbn in *. rewrite <- app_assoc in Hfull, Hle |- *. done.
    + apply IH in Hr as (read & -> & -> & -> & Hfull & Hle); [|done]. exists (e :: read). cbn [first_of]. rewrite Hg, Hn in *.
      destruct (first_of (S n) group read). cbn in *. by rewrite <- app_assoc.
  - intros [= <- <- <-]. exists []. cbn. rewrite !app_nil_r. split; [done|]. split; [done|]. split; [done|]. split; [|done]. intros _. lia.
Qed.
Lemma first_of_group n group l : Forall (fun e => en_group e = group) (first_of n group l).1.
Proof.
  revert n. induction l as [|e l IH]; intros n; cbn [first_of]; [constructor|]. destruct n as [|n]; [constructor|].
  case_bool_decide; [specialize (IH n)|specialize (IH (S n))]; destruct (first_of _ group l); cbn in *; [by constructor|done].
Qed.
Lemma first_of_perm n group l : (first_of n group l).1 ++ (first_of n group l).2 ≡ₚ l.
Proof.
  revert n. induction l as [|e l IH]; intros n; cbn [first_of]; [done|]. destruct n as [|n]; [done|].
  case_bool_decide; [specialize (IH n)|specialize (IH (S n))]; destruct (first_of _ group l) as [b p]; cbn in *; [by constructor|].
  rewrite <- IH. symmetry. apply Permutation_middle.
Qed.
(** The entries of the group are taken from the front: what is left of it comes
    after what was taken. *)
Lemma first_of_fifo n group l :
  (first_of n group l).1 ++ filter (fun e => en_group e = group) (first_of n group l).2 = filter (fun e => en_group e = group) l.
Proof.
  revert n. induction l as [|e l IH]; intros n; cbn [first_of]; [done|]. destruct n as [|n]; [done|].
  rewrite filter_cons. case_bool_decide as Hg.
  - specialize (IH n). destruct (first_of n group l). cbn [fst snd] in *. rewrite decide_True by done. cbn. by f_equal.
  - specialize (IH (S n)). destruct (first_of (S n) group l). cbn [fst snd] in *. rewrite filter_cons, !decide_False by done. done.
Qed.
Lemma first_of_other n group other l : group ≠ other →
  filter (fun e => en_group e = other) (first_of n group l).2 = filter (fun e => en_group e = other) l.
Proof.
  intros Hne. revert n. induction l as [|e l IH]; intros n; cbn [first_of]; [done|]. destruct n as [|n]; [done|].
  case_bool_decide as Hg; rewrite ?filter_cons.
  - specialize (IH n). destruct (first_of n group l). cbn [fst snd] in *. rewrite decide_False by congruence. done.
  - specialize (IH (S n)). destruct (first_of (S n) group l). cbn [fst snd] in *. rewrite filter_cons, IH. done.
Qed.
Lemma discard_expired_perm c l : (discard_expired c l).1 ++ ((discard_expired c l).2).*1 ≡ₚ l.
Proof.
  unfold discard_expired. cbn. rewrite <- list_fmap_compose. cbn. change (fst ∘ expire) with (@id Entry). rewrite list_fmap_id.
  induction l as [|e l IH]; [done|]. rewrite !filter_cons. destruct (entry_live c e) eqn:He.
  - rewrite decide_True, decide_False by done. cbn. by constructor.
  - rewrite decide_False, decide_True by done. rewrite <- IH at 3. symmetry. apply Permutation_middle.
Qed.
Lemma first_of_length n group l : (length (first_of n group l).1 ≤ n)%nat.
Proof.
  revert n. induction l as [|e l IH]; intros n; cbn [first_of]; [cbn; lia|]. destruct n as [|n]; [done|].
  case_bool_decide; [specialize (IH n)|specialize (IH (S n))]; destruct (first_of _ group l); cbn in *; lia.
Qed.
Lemma first_of_short n group l : (length (first_of n group l).1 < n)%nat → filter (fun e => en_group e = group) (first_of n group l).2 = [].
Proof.
  revert n. induction l as [|e l IH]; intros n; cbn [first_of]; [done|]. destruct n as [|n]; [cbn; lia|].
  case_bool_decide; [specialize (IH n)|specialize (IH (S n))]; destruct (first_of _ group l); cbn [fst snd length] in *; [intros; apply IH; lia|].
  rewrite filter_cons, decide_False by done. done.
Qed.
(** The batch a turn collects before its last check: the first entries of the
    group among the queue and what was read, [first] included; the others stay
    in order. *)
Record collected (first : Entry) (pending incoming batch queue unread : list Entry) : Prop := {
  cl_group : Forall (fun e => en_group e = en_group first) batch;
  cl_size : (1 ≤ length batch ≤ BATCH)%nat ∧ (unread ≠ [] → length batch = BATCH);
  cl_all : batch ++ queue ++ unread ≡ₚ first :: pending ++ incoming;
  cl_fifo : ∃ rest, filter (fun e => en_group e = en_group first) (first :: pending ++ incoming) = batch ++ rest;
  cl_others group : group ≠ en_group first →
    filter (fun e => en_group e = group) (queue ++ unread) = filter (fun e => en_group e = group) (pending ++ incoming);
}.
Lemma serve_collected entry_check batch_check ledger first pending incoming :
  entry_live entry_check first = true → ∃ batch,
  let r := serve entry_check batch_check ledger first pending incoming in
  collected first pending incoming batch (cd_pending r) (cd_unread r) ∧ cd_batch r = filter (fun e => entry_live batch_check e = true) batch ∧
  cd_responses r = (expire <$> filter (fun e => entry_live batch_check e = false) batch) ++ ((fun e => (e, Stored (ledger (cd_batch r)))) <$> cd_batch r).
Proof.
  intros Hl. unfold serve. rewrite Hl. cbn [negb]. rewrite gather_spec by (cbn; unfold BATCH; lia). cbn [length].
  pose proof (first_of_length (BATCH - 1) (en_group first) pending) as Hlen. pose proof (first_of_group (BATCH - 1) (en_group first) pending) as Hg.
  pose proof (first_of_perm (BATCH - 1) (en_group first) pending) as Hp. pose proof (first_of_fifo (BATCH - 1) (en_group first) pending) as Hf.
  pose proof (λ group, first_of_other (BATCH - 1) (en_group first) group pending) as Ho.
  pose proof (first_of_short (BATCH - 1) (en_group first) pending) as Hshort.
  destruct (first_of (BATCH - 1) (en_group first) pending) as [b1 p1]. cbn [fst snd] in *.
  destruct (receive (en_group first) ([first] ++ b1) p1 incoming) as [[b p] u] eqn:Hr.
  apply receive_spec in Hr as (read & Hin & Hb & Hpq & Hfull & Hle); [|cbn; unfold BATCH in *; lia]. exists b. cbn.
  assert (collected first pending incoming b p u) as Hc.
  { set (n := (BATCH - length ([first] ++ b1))%nat) in *.
    pose proof (first_of_group n (en_group first) read) as Hg'. pose proof (first_of_perm n (en_group first) read) as Hp'.
    pose proof (first_of_length n (en_group first) read) as Hlen'.
    pose proof (first_of_fifo n (en_group first) read) as Hf'. pose proof (λ group, first_of_other n (en_group first) group read) as Ho'.
    destruct (first_of n (en_group first) read) as [b2 p2]. cbn [fst snd] in *. subst b p incoming. split.
    - apply Forall_app. split; [by constructor|done].
    - split; [|done]. split; [cbn; lia|done].
    - cbn. constructor. rewrite <- Hp, <- Hp', <- !app_assoc. apply Permutation_app_head. rewrite app_assoc, (Permutation_app_comm b2), <- !app_assoc. done.
    - rewrite filter_cons, decide_True, !filter_app, <- Hf by done. destruct (Nat.lt_ge_cases (length b1) (BATCH - 1)) as [Hlt|Hge].
      + rewrite (Hshort Hlt), app_nil_r, <- Hf'. exists (filter (fun e => en_group e = en_group first) p2 ++ filter (fun e => en_group e = en_group first) u).
        cbn. by rewrite <- !app_assoc.
      + assert (n = 0%nat) as Hn by (unfold n; cbn; lia). destruct b2; [|cbn in Hlen'; lia]. rewrite app_nil_r. cbn. eexists. by rewrite <- app_assoc.
    - intros group Hne. rewrite !filter_app, Ho, Ho', <- !app_assoc by congruence. done. }
  destruct (filter (fun e => entry_live batch_check e = true) b) as [|x l] eqn:Hlive; cbn; rewrite ?app_nil_r; split; auto.
Qed.
Lemma filter_split c l : (expire <$> filter (fun e => entry_live c e = false) l).*1 ++ filter (fun e => entry_live c e = true) l ≡ₚ l.
Proof. rewrite <- (discard_expired_perm c l) at 3. apply Permutation_app_comm. Qed.
Lemma fst_responses (l : list Entry) (x : Response) : ((fun e => (e, x)) <$> l).*1 = l.
Proof. induction l as [|e l IH]; [done|]. cbn. by f_equal. Qed.
Lemma serve_conserves entry_check batch_check ledger first pending incoming :
  let r := serve entry_check batch_check ledger first pending incoming in
  (cd_responses r).*1 ++ cd_pending r ++ cd_unread r ≡ₚ first :: pending ++ incoming.
Proof.
  intros r. destruct (entry_live entry_check first) eqn:Hl; [|unfold r, serve; by rewrite Hl].
  destruct (serve_collected entry_check batch_check ledger first pending incoming Hl) as (batch & Hc & Hb & Hr). fold r in Hc, Hb, Hr.
  rewrite Hr, fmap_app, fst_responses, Hb, filter_split. apply (cl_all _ _ _ _ _ _ Hc).
Qed.

(** No issued job is lost or answered twice. One turn of the collector,
    whatever arrives, whoever gives up, whatever the ledger answers, leaves
    every entry exactly once: among the responses, in the queue or unread in
    the channel. *)
Theorem collector_conserves first_check entry_check batch_check ledger pending incoming :
  let r := collect_round first_check entry_check batch_check ledger pending incoming in
  (cd_responses r).*1 ++ cd_pending r ++ cd_unread r ≡ₚ pending ++ incoming.
Proof.
  unfold collect_round. pose proof (discard_expired_perm first_check pending) as Hp.
  destruct (discard_expired first_check pending) as [live discarded]. cbn [fst snd] in Hp. cbn. rewrite <- Hp at 1. rewrite fmap_app.
  rewrite (Permutation_app_comm live), <- !app_assoc. apply Permutation_app_head.
  destruct live as [|first live]; [destruct incoming as [|first incoming]; [done|]|]; apply serve_conserves.
Qed.

(** What a turn offers the ledger. The batch is never empty, of one group,
    and of at most 64 entries, all live at the last check; before that check it
    is the group's entries in the order of the queue and the channel from the
    oldest on; an entry is left in the channel only by a full batch, and the
    other groups keep their entries and their order. *)
Theorem collector_batch_exact first_check entry_check batch_check ledger pending incoming :
  let r := collect_round first_check entry_check batch_check ledger pending incoming in
  cd_batch r ≠ [] → ∃ first rest batch,
  filter (fun e => entry_live first_check e = true) pending ++ incoming = first :: rest ∧
  cd_batch r = filter (fun e => entry_live batch_check e = true) batch ∧
  Forall (fun e => en_group e = en_group first) batch ∧ (length batch ≤ BATCH)%nat ∧ (cd_unread r ≠ [] → length batch = BATCH) ∧
  (∃ later, filter (fun e => en_group e = en_group first) (first :: rest) = batch ++ later) ∧
  (∀ group, group ≠ en_group first → filter (fun e => en_group e = group) (cd_pending r ++ cd_unread r) = filter (fun e => en_group e = group) rest).
Proof.
  unfold collect_round, discard_expired. cbn.
  assert (∀ first queue unread, let r := serve entry_check batch_check ledger first queue unread in cd_batch r ≠ [] → ∃ f rest batch,
    first :: queue ++ unread = f :: rest ∧ cd_batch r = filter (fun e => entry_live batch_check e = true) batch ∧
    Forall (fun e => en_group e = en_group f) batch ∧ (length batch ≤ BATCH)%nat ∧ (cd_unread r ≠ [] → length batch = BATCH) ∧
    (∃ later, filter (fun e => en_group e = en_group f) (f :: rest) = batch ++ later) ∧
    (∀ group, group ≠ en_group f → filter (fun e => en_group e = group) (cd_pending r ++ cd_unread r) = filter (fun e => en_group e = group) rest)) as Hserve.
  { intros first queue unread r Hne. destruct (entry_live entry_check first) eqn:Hl; [|by unfold r, serve in Hne; rewrite Hl in Hne].
    destruct (serve_collected entry_check batch_check ledger first queue unread Hl) as (batch & [Hg [Hs Hfull] _ Hf Ho] & Hb & _). fold r in Hb, Hfull, Ho.
    exists first, (queue ++ unread), batch. split_and!; try done. lia. }
  destruct (filter _ pending) as [|first live]; [destruct incoming as [|first incoming]; [done|]; apply (Hserve first [] incoming)|apply (Hserve first live incoming)].
Qed.
End collector.

(** Two groups, one entry whose caller is gone. *)
Module TwoGroups.
Definition group (key : string) : Group := {|
  gr_key := key; gr_original_revision := 1; gr_parent := "p"; gr_original_expires_at_ms := 9; gr_template_sha256 := "t"; gr_prior_balances_digest := []; gr_revision := 1 |}.
Definition entry (id : nat) (key : string) : Entry := {| en_id := id; en_group := group key; en_deadline := 100 |}.
Definition check (gone : list nat) : Check := {| ck_canceled := fun e => bool_decide (en_id e ∈ gone); ck_now := 10 |}.
Definition pending : list Entry := [entry 0 "a"; entry 1 "b"; entry 2 "a"].
Definition round : Collected := collect_round (check [0%nat]) (check []) (check []) (fun batch => length batch) pending [entry 3 "b"; entry 4 "a"].
End TwoGroups.
Lemma collector_batch_exact_witness :
  cd_batch TwoGroups.round = [TwoGroups.entry 1 "b"; TwoGroups.entry 3 "b"] ∧ cd_pending TwoGroups.round = [TwoGroups.entry 2 "a"; TwoGroups.entry 4 "a"] ∧
  ∃ batch, cd_batch TwoGroups.round = filter (fun e => entry_live (TwoGroups.check []) e = true) batch ∧ (length batch ≤ BATCH)%nat.
Proof.
  split; [reflexivity|]. split; [reflexivity|].
  destruct (collector_batch_exact (TwoGroups.check [0%nat]) (TwoGroups.check []) (TwoGroups.check []) (fun batch => length batch) TwoGroups.pending
    [TwoGroups.entry 3 "b"; TwoGroups.entry 4 "a"]) as (first & rest & batch & _ & Hb & _ & Hl & _); [discriminate|].
  exists batch. exact (conj Hb Hl).
Defined.
