(* ===== verification/Divergence.v ===== *)
(** What a block costs whose work was issued before a landing it does not
    include (qbit-prism-server/src/ledger/divergence.rs): the debt its rows
    create, the bound an offer is held to, and the reservation of the one offer.

    A [HashMap] of balances is a [gmap]; the sums over its values add
    non-negative numbers, so the order of the iteration does not show.  The
    grouped rows are a [BTreeMap].  A plain [i128] operator that overflows is
    [Panic]. *)
From Stdlib Require Import ZArith Lia.
From coqutil Require Import Byte.
From stdpp Require Import base list strings pretty gmap.
From S2P Require Import Prelude Order BTree Bytes Payee ByProgram WindowCut RewardWindow PayoutPolicy Codec.

Open Scope Z_scope.

(** * The debt of a landing *)
(** [bps] basis points of a coinbase value, rounded down; the product of a
    [u64] and a [u16] fits an [i128]. *)
Definition overpay_ceiling_sats (coinbase_value_sats bps : Z) : Z :=
  Z.quot (coinbase_value_sats * bps) 10000.

Definition program_key (hex : string) : string := to_ascii_lowercase hex.

Definition balance_map {E} (balances : list CarryForwardBalance) : result E (gmap string Z) :=
  try_fold (fun m b =>
    let key := program_key (cfb_p2mr_program_hex b) in
    total ← arith I128 (default 0 (m !! key) + cfb_balance_sats b);
    Ok (<[key := total]> m)) ∅ balances.

Definition overpay_bound {E} (issued : list CarryForwardBalance) : result E Z :=
  m ← balance_map issued;
  try_fold (fun s balance => arith I128 (s + Z.max balance 0)) 0 (map_to_list m).*2.

Record AccountOverpay := {
  ao_p2mr_program_hex : string;
  ao_miner_id : string;
  ao_issued_prior_sats : Z;
  ao_current_prior_sats : Z;
  ao_gross_sats : Z;
  ao_onchain_sats : Z;
  ao_overpay_sats : Z;
  ao_debt_after_sats : Z;
}.
Record LandingDivergence := {
  ld_divergent_accounts : Z;
  ld_overpay_sats : Z;
  ld_overpaid_debt_after_sats : Z;
  ld_pool_debt_after_sats : Z;
  ld_overpaid : list AccountOverpay;
}.
Definition divergence_default : LandingDivergence :=
  {| ld_divergent_accounts := 0; ld_overpay_sats := 0; ld_overpaid_debt_after_sats := 0;
     ld_pool_debt_after_sats := 0; ld_overpaid := [] |}.
Record CarryRow := {
  cr_p2mr_program_hex : string;
  cr_miner_id : string;
  cr_issued_prior_sats : Z;
  cr_gross_sats : Z;
  cr_onchain_sats : Z;
}.
(** The local [struct Row] of [rows_divergence]. *)
Record Row := { row_miner_id : string; row_issued : Z; row_gross : Z; row_onchain : Z }.

Definition group_row {E} (rows : list (string * Row)) (row : CarryRow) : result E (list (string * Row)) :=
  let key := program_key (cr_p2mr_program_hex row) in
  let entry := default {| row_miner_id := cr_miner_id row; row_issued := 0; row_gross := 0; row_onchain := 0 |}
                 (bt_get String.compare key rows) in
  issued ← arith I128 (row_issued entry + cr_issued_prior_sats row);
  gross ← arith I128 (row_gross entry + cr_gross_sats row);
  onchain ← arith I128 (row_onchain entry + cr_onchain_sats row);
  Ok (bt_insert String.compare key
        {| row_miner_id := row_miner_id entry; row_issued := issued; row_gross := gross; row_onchain := onchain |} rows).

Definition settle_row {E} (current : gmap string Z) (d : LandingDivergence) (entry : string * Row)
  : result E LandingDivergence :=
  let '(program, row) := entry in
  let before := default 0 (current !! program) in
  earned ← arith I128 (before + row_gross row);
  after ← arith I128 (earned - row_onchain row);
  minus_before ← arith I128 (- before);
  let debt_before := Z.max minus_before 0 in
  minus_after ← arith I128 (- after);
  let debt_after := Z.max minus_after 0 in
  increase ← arith I128 (debt_after - debt_before);
  let overpay := Z.max increase 0 in
  accounts ← arith Usize (ld_divergent_accounts d + (if row_issued row =? before then 0 else 1));
  pool_debt ← arith I128 (ld_pool_debt_after_sats d + debt_after);
  if 0 <? overpay then
    total ← arith I128 (ld_overpay_sats d + overpay);
    owed ← arith I128 (ld_overpaid_debt_after_sats d + debt_after);
    Ok {| ld_divergent_accounts := accounts; ld_overpay_sats := total; ld_overpaid_debt_after_sats := owed;
          ld_pool_debt_after_sats := pool_debt;
          ld_overpaid := ld_overpaid d ++
            [{| ao_p2mr_program_hex := program; ao_miner_id := row_miner_id row;
                ao_issued_prior_sats := row_issued row; ao_current_prior_sats := before;
                ao_gross_sats := row_gross row; ao_onchain_sats := row_onchain row;
                ao_overpay_sats := overpay; ao_debt_after_sats := debt_after |}] |}
  else
    Ok {| ld_divergent_accounts := accounts; ld_overpay_sats := ld_overpay_sats d;
          ld_overpaid_debt_after_sats := ld_overpaid_debt_after_sats d;
          ld_pool_debt_after_sats := pool_debt; ld_overpaid := ld_overpaid d |}.

Definition has_row (rows : list (string * Row)) (program : string) : bool :=
  match bt_get String.compare program rows with Some _ => true | None => false end.
(** The debt of the accounts without a row in the block. *)
Definition untouched_debt {E} (current : gmap string Z) (rows : list (string * Row)) : result E Z :=
  try_fold (fun s '(program, balance) => minus ← arith I128 (- balance); arith I128 (s + Z.max minus 0)) 0
    (filter (fun '(program, _) => has_row rows program = false) (map_to_list current)).

Definition rows_divergence {E} (block_rows : list CarryRow) (current : list CarryForwardBalance)
  : result E LandingDivergence :=
  current ← balance_map current;
  rows ← try_fold group_row [] block_rows;
  d ← try_fold (settle_row current) divergence_default rows;
  rest ← untouched_debt current rows;
  pool_debt ← arith I128 (ld_pool_debt_after_sats d + rest);
  Ok {| ld_divergent_accounts := ld_divergent_accounts d; ld_overpay_sats := ld_overpay_sats d;
        ld_overpaid_debt_after_sats := ld_overpaid_debt_after_sats d; ld_pool_debt_after_sats := pool_debt;
        ld_overpaid := ld_overpaid d |}.

Definition carry_row_of (account : PayoutPolicyAccount) : CarryRow :=
  {| cr_p2mr_program_hex := ppa_p2mr_program_hex account; cr_miner_id := ppa_recipient_id account;
     cr_issued_prior_sats := ppa_prior_balance_sats account; cr_gross_sats := ppa_gross_amount_sats account;
     cr_onchain_sats := ppa_onchain_amount_sats account |}.
Definition landing_divergence {E} (accounts : list PayoutPolicyAccount) (current : list CarryForwardBalance)
  : result E LandingDivergence :=
  rows_divergence (carry_row_of <$> filter (fun a => ppa_account_type a = Miner) accounts) current.

Definition carry_free_rows (rows : list CarryRow) : bool :=
  forallb (fun row => (cr_issued_prior_sats row =? 0) && (cr_onchain_sats row <=? cr_gross_sats row)) rows.

(** * What the sums are *)
Section keyed.
Context {A : Type} (key : A -> string).
Definition keyed_sum (f : A -> Z) (k : string) (l : list A) : Z :=
  sum_of (fun x => if decide (key x = k) then f x else 0) l.

Lemma keyed_sum_app f k l1 l2 : keyed_sum f k (l1 ++ l2) = keyed_sum f k l1 + keyed_sum f k l2.
Proof. apply sum_of_app. Qed.
Lemma keyed_sum_snoc_eq f l x : keyed_sum f (key x) (l ++ [x]) = keyed_sum f (key x) l + f x.
Proof. rewrite keyed_sum_app. unfold keyed_sum at 2. autorewrite with sums. rewrite decide_True by done. lia. Qed.
Lemma keyed_sum_snoc_ne f k l x : key x ≠ k → keyed_sum f k (l ++ [x]) = keyed_sum f k l.
Proof. intros Hk. rewrite keyed_sum_app. unfold keyed_sum at 2. autorewrite with sums. rewrite decide_False by done. lia. Qed.
Lemma keyed_sum_notin f k l : k ∉ key <$> l → keyed_sum f k l = 0.
Proof.
  intros Hk. apply sum_of_zero. intros x Hx. case_decide as Hd; [|done].
  exfalso. apply Hk. rewrite list_elem_of_fmap. eauto.
Qed.
Lemma keyed_sum_unique f l x : NoDup (key <$> l) → x ∈ l → keyed_sum f (key x) l = f x.
Proof.
  induction l as [|y l IH]; intros Hnd Hx; [set_solver|]. cbn in Hnd. apply NoDup_cons in Hnd as [Hy Hnd].
  unfold keyed_sum in *. rewrite sum_of_cons. apply elem_of_cons in Hx as [->|Hx].
  - rewrite decide_True by done. fold (keyed_sum f (key y) l). rewrite keyed_sum_notin by done. lia.
  - rewrite decide_False, IH; [lia|done..|]. intros Heq. apply Hy. rewrite Heq. by apply list_elem_of_fmap_2.
Qed.
End keyed.

Definition balance_key (b : CarryForwardBalance) : string := program_key (cfb_p2mr_program_hex b).
Definition carry_row_key (r : CarryRow) : string := program_key (cr_p2mr_program_hex r).
(** The balance of program [k]. *)
Definition balance_of (k : string) (bs : list CarryForwardBalance) : Z := keyed_sum balance_key cfb_balance_sats k bs.

(** A snoc induction over a fold: what the loop has built of the rounds done. *)
Lemma try_fold_snoc_inv {E A B} (P : list A -> B -> Prop) (f : B -> A -> result E B) b l b' :
  P [] b → (∀ l b x b', P l b → f b x = Ok b' → P (l ++ [x]) b') → try_fold f b l = Ok b' → P l b'.
Proof.
  intros Hb Hstep. revert b'. induction l as [|x l IH] using rev_ind; intros b'; [by intros [= <-]|].
  rewrite try_fold_app. intros (b1 & Hl & Hx)%bind_Ok. cbn in Hx.
  apply bind_Ok in Hx as (b2 & Hf & [= <-]). eapply Hstep; [by apply IH|done].
Qed.

Lemma arith_Ok {E} t z r : @arith E t z = Ok r ↔ r = z ∧ fits t z = true.
Proof. unfold arith. by rewrite expect_Ok, checked_Some. Qed.

Lemma balance_map_spec {E} bs m : @balance_map E bs = Ok m →
  ∀ k, match m !! k with
       | Some z => k ∈ balance_key <$> bs ∧ z = balance_of k bs
       | None => k ∉ balance_key <$> bs end.
Proof.
  apply (try_fold_snoc_inv (fun l (m : gmap string Z) => ∀ k, match m !! k with
       | Some z => k ∈ balance_key <$> l ∧ z = balance_of k l | None => k ∉ balance_key <$> l end)).
  - intros k. rewrite lookup_empty. set_solver.
  - clear. intros l m x m' Hm (z & [-> _]%arith_Ok & [= <-])%bind_Ok k. fold (balance_key x).
    pose proof (Hm (balance_key x)) as Hx. unfold balance_of in *. rewrite fmap_app.
    destruct (decide (balance_key x = k)) as [<-|Hk].
    + rewrite lookup_insert_eq. split; [set_solver|]. rewrite keyed_sum_snoc_eq.
      destruct (m !! balance_key x) as [z|]; cbn; [lia|]. rewrite keyed_sum_notin by done. lia.
    + rewrite lookup_insert_ne by done. specialize (Hm k). rewrite keyed_sum_snoc_ne by done.
      destruct (m !! k); set_solver.
Qed.
Lemma balance_map_get {E} bs m k : @balance_map E bs = Ok m → default 0 (m !! k) = balance_of k bs.
Proof.
  intros Hm. pose proof (balance_map_spec bs m Hm k) as Hk. destruct (m !! k); cbn; [by destruct Hk|].
  symmetry. by apply keyed_sum_notin.
Qed.

(** Sums of non-negative terms over a part of a list. *)
Lemma sum_of_submseteq {A} (f : A -> Z) l1 l2 : (∀ x, 0 ≤ f x) → l1 ⊆+ l2 → sum_of f l1 ≤ sum_of f l2.
Proof.
  intros Hf (k & Hk)%submseteq_Permutation. rewrite (sum_of_perm f _ _ Hk), sum_of_app.
  pose proof (sum_of_nonneg f k ltac:(auto)). lia.
Qed.
(** Distinct keys, of which those outside [l2] count nothing. *)
Lemma sum_of_keys_le {A} `{EqDecision A} (f : A -> Z) l1 l2 :
  (∀ x, 0 ≤ f x) → (∀ x, x ∉ l2 → f x = 0) → NoDup l1 → sum_of f l1 ≤ sum_of f l2.
Proof.
  intros Hf Hz Hnd. rewrite (sum_of_filter_split f (fun x => bool_decide (x ∈ l2)) l1).
  rewrite (sum_of_zero f (filter (fun x => negb (bool_decide (x ∈ l2))) l1)).
  - rewrite Z.add_0_r. apply sum_of_submseteq; [done|]. apply NoDup_submseteq; [by apply NoDup_filter|].
    intros x [Hx _]%list_elem_of_filter. by apply bool_decide_unpack in Hx.
  - intros x [Hx _]%list_elem_of_filter. apply Hz. by destruct (decide (x ∈ l2)); [rewrite bool_decide_true in Hx|].
Qed.

Lemma try_arith_Ok {E A} (t : int_ty) (f : A -> Z) l acc s :
  try_fold (fun s x => @arith E t (s + f x)) acc l = Ok s → s = acc + sum_of f l.
Proof.
  revert acc; induction l as [|x l IH]; intros acc; cbn.
  - intros [= <-]. rewrite sum_of_nil. lia.
  - intros (a & [-> _]%arith_Ok & H)%bind_Ok. apply IH in H. rewrite sum_of_cons. lia.
Qed.

(** ** The bound *)
Lemma overpay_bound_spec {E} issued bound : @overpay_bound E issued = Ok bound →
  0 ≤ bound ∧ ∀ ks, NoDup ks → sum_of (fun k => Z.max (balance_of k issued) 0) ks ≤ bound.
Proof.
  intros (m & Hm & Hs)%bind_Ok. apply try_arith_Ok in Hs. rewrite sum_of_fmap in Hs.
  assert (bound = sum_of (fun k => Z.max (balance_of k issued) 0) (map_to_list m).*1) as ->.
  { rewrite Hs, sum_of_fmap. cbn. apply sum_of_ext. intros [k z] Hk%elem_of_map_to_list. cbn.
    rewrite <- (balance_map_get issued m) by done. by rewrite Hk. }
  split; [apply sum_of_nonneg; lia|]. intros ks Hks. apply sum_of_keys_le; [lia| |done].
  intros k Hk. rewrite <- (balance_map_get issued m) by done. destruct (m !! k) as [z|] eqn:Hz; [|done].
  exfalso. apply Hk, list_elem_of_fmap. exists (k, z). split; [done|]. by apply elem_of_map_to_list.
Qed.

(** ** The grouped rows *)
Definition row_of (l : list CarryRow) (k : string) (r : Row) : Prop :=
  k ∈ carry_row_key <$> l ∧ row_issued r = keyed_sum carry_row_key cr_issued_prior_sats k l ∧
  row_gross r = keyed_sum carry_row_key cr_gross_sats k l ∧
  row_onchain r = keyed_sum carry_row_key cr_onchain_sats k l.
Definition grouped_rows (l : list CarryRow) (rows : list (string * Row)) : Prop :=
  bt_wf String.compare rows ∧
  ∀ k, match bt_get String.compare k rows with Some r => row_of l k r | None => k ∉ carry_row_key <$> l end.

Lemma group_rows_spec {E} l rows : try_fold (@group_row E) [] l = Ok rows → grouped_rows l rows.
Proof.
  apply (try_fold_snoc_inv grouped_rows); [split; [constructor|intros k; cbn; set_solver]|].
  clear. intros l rows x rows' [Hw Hg] H. unfold group_row in H. fold (carry_row_key x) in H.
  apply bind_Ok in H as (i & [-> _]%arith_Ok & H). apply bind_Ok in H as (g & [-> _]%arith_Ok & H).
  apply bind_Ok in H as (o & [-> _]%arith_Ok & [= <-]).
  split; [by apply (bt_insert_wf String.compare)|]. intros k. rewrite fmap_app. pose proof (Hg (carry_row_key x)) as Hx.
  destruct (decide (carry_row_key x = k)) as [<-|Hk].
  - rewrite (bt_get_insert_eq String.compare). unfold row_of; cbn. rewrite !keyed_sum_snoc_eq, fmap_app.
    split; [set_solver|].
    destruct (bt_get String.compare (carry_row_key x) rows) as [r|]; cbn; [destruct Hx as (_ & ? & ? & ?); lia|].
    rewrite !keyed_sum_notin by done. done.
  - rewrite (bt_get_insert_ne String.compare) by done. specialize (Hg k).
    destruct (bt_get String.compare k rows) as [r|]; [|set_solver].
    destruct Hg as (? & ? & ? & ?). unfold row_of. rewrite !keyed_sum_snoc_ne, fmap_app by done. set_solver.
Qed.

(** ** The settled rows *)
Definition debt (balance : Z) : Z := Z.max (- balance) 0.
(** The debt [row] adds to an account at [before]. *)
Definition added_debt (before : Z) (row : Row) : Z :=
  Z.max (debt (before + row_gross row - row_onchain row) - debt before) 0.

Lemma settle_row_Ok {E} current d program row d' : @settle_row E current d (program, row) = Ok d' →
  let before := default 0 (current !! program) in
  ld_overpay_sats d' = ld_overpay_sats d + added_debt before row ∧
  ld_pool_debt_after_sats d' = ld_pool_debt_after_sats d + debt (before + row_gross row - row_onchain row) ∧
  ld_divergent_accounts d' = ld_divergent_accounts d + (if row_issued row =? before then 0 else 1) ∧
  sum_of ao_overpay_sats (ld_overpaid d') = sum_of ao_overpay_sats (ld_overpaid d) + added_debt before row ∧
  0 ≤ ld_overpaid_debt_after_sats d' - ld_overpaid_debt_after_sats d ≤ debt (before + row_gross row - row_onchain row).
Proof.
  cbn zeta. unfold settle_row, added_debt, debt. intros H.
  repeat (apply bind_Ok in H as (? & [-> _]%arith_Ok & H)). destruct (0 <? _) eqn:Ho in H.
  - repeat (apply bind_Ok in H as (? & [-> _]%arith_Ok & H)). injection H as <-. cbn.
    rewrite sum_of_app. autorewrite with sums. cbn. lia.
  - injection H as <-. cbn. lia.
Qed.
Lemma settle_rows_Ok {E} current rows d : try_fold (@settle_row E current) divergence_default rows = Ok d →
  ld_overpay_sats d = sum_of (fun e => added_debt (default 0 (current !! e.1)) e.2) rows ∧
  ld_pool_debt_after_sats d =
    sum_of (fun e => debt (default 0 (current !! e.1) + row_gross e.2 - row_onchain e.2)) rows ∧
  ld_divergent_accounts d = sum_of (fun e => if row_issued e.2 =? default 0 (current !! e.1) then 0 else 1) rows ∧
  sum_of ao_overpay_sats (ld_overpaid d) = ld_overpay_sats d ∧
  0 ≤ ld_overpaid_debt_after_sats d ≤ ld_pool_debt_after_sats d.
Proof.
  apply (try_fold_snoc_inv (fun rows d => ld_overpay_sats d = sum_of _ rows ∧ ld_pool_debt_after_sats d = sum_of _ rows ∧
    ld_divergent_accounts d = sum_of _ rows ∧ sum_of ao_overpay_sats (ld_overpaid d) = ld_overpay_sats d ∧
    0 ≤ ld_overpaid_debt_after_sats d ≤ ld_pool_debt_after_sats d)); [done|].
  clear. intros rows d [program row] d' (H1 & H2 & H3 & H4 & H5) H%settle_row_Ok. cbn zeta in H.
  destruct H as (-> & -> & -> & -> & H6). rewrite !sum_of_app. autorewrite with sums. cbn. lia.
Qed.

(** ** The whole divergence *)
Section divergence.
Context (block : list CarryRow) (current : list CarryForwardBalance).
Definition before_of (k : string) : Z := balance_of k current.
Definition after_of (k : string) : Z :=
  before_of k + keyed_sum carry_row_key cr_gross_sats k block - keyed_sum carry_row_key cr_onchain_sats k block.
Definition row_programs : list string := remove_dups (carry_row_key <$> block).
Definition all_programs : list string := remove_dups ((carry_row_key <$> block) ++ (balance_key <$> current)).

Lemma grouped_rows_keys rows : grouped_rows block rows → rows.*1 ≡ₚ row_programs.
Proof.
  intros [Hw Hg]. apply NoDup_Permutation; [by apply (bt_wf_NoDup String.compare)|apply NoDup_remove_dups|].
  intros k. unfold row_programs. rewrite elem_of_remove_dups. specialize (Hg k).
  destruct (bt_get String.compare k rows) as [r|] eqn:Hr.
  - apply (bt_get_elem String.compare) in Hr; [|done]. destruct Hg. split; [done|]. intros _.
    apply list_elem_of_fmap. by exists (k, r).
  - by apply (bt_get_None String.compare) in Hr.
Qed.
(** A sum over the grouped rows is a sum over their programs. *)
Lemma grouped_rows_sum rows f g : grouped_rows block rows →
  (∀ k r, row_of block k r → f (k, r) = g k) → sum_of f rows = sum_of g row_programs.
Proof.
  intros Hg Hf. rewrite <- (sum_of_perm g _ _ (grouped_rows_keys rows Hg)), sum_of_fmap.
  apply sum_of_ext. intros [k r] Hk. apply Hf. destruct Hg as [Hw Hg]. specialize (Hg k).
  by rewrite (proj2 (bt_get_elem String.compare k r rows Hw) Hk) in Hg.
Qed.

Lemma untouched_perm {E} m rows : @balance_map E current = Ok m → grouped_rows block rows →
  rows.*1 ++ (filter (fun '(program, _) => has_row rows program = false) (map_to_list m)).*1 ≡ₚ all_programs.
Proof.
  intros Hm Hg. pose proof (grouped_rows_keys rows Hg) as Hp. apply NoDup_Permutation.
  - apply NoDup_app. split_and!; [rewrite Hp; apply NoDup_remove_dups| |].
    + intros k Hk ([k' z] & -> & [Hf _]%list_elem_of_filter)%list_elem_of_fmap. unfold has_row in Hf. cbn in *.
      destruct (bt_get String.compare k' rows) eqn:Hr; [done|]. by apply (bt_get_None String.compare) in Hr.
    + eapply sublist_NoDup; [apply (NoDup_fst_map_to_list m)|]. apply fmap_sublist, sublist_filter.
  - apply NoDup_remove_dups.
  - intros k. unfold all_programs. rewrite elem_of_app, elem_of_remove_dups, elem_of_app, Hp. unfold row_programs.
    rewrite elem_of_remove_dups. pose proof (balance_map_spec current m Hm k) as Hk. rewrite (list_elem_of_fmap fst). split.
    + intros [?|([k' z] & -> & [_ Hz%elem_of_map_to_list]%list_elem_of_filter)]; [by left|]. cbn in *.
      rewrite Hz in Hk. right. apply Hk.
    + intros [?|Hin]; [by left|]. destruct (decide (k ∈ carry_row_key <$> block)) as [?|Hnot]; [by left|right].
      destruct (m !! k) as [z|] eqn:Hz; [|done]. exists (k, z). split; [done|]. apply list_elem_of_filter.
      split; [|by apply elem_of_map_to_list]. unfold has_row. destruct Hg as [_ Hg]. specialize (Hg k).
      destruct (bt_get String.compare k rows); [|done]. by destruct Hg.
Qed.

Lemma untouched_debt_Ok {E} m rows rest : @untouched_debt E m rows = Ok rest →
  rest = sum_of (fun e => debt e.2) (filter (fun '(program, _) => has_row rows program = false) (map_to_list m)).
Proof.
  unfold untouched_debt. generalize (filter (fun '(program, _) => has_row rows program = false) (map_to_list m)).
  intros l H. pattern l, rest. revert H. apply (try_fold_snoc_inv (fun l (z : Z) => z = sum_of (fun e => debt e.2) l)); [done|].
  clear. intros l s [k z] s' -> (n & [-> _]%arith_Ok & [-> _]%arith_Ok)%bind_Ok. rewrite sum_of_app.
  autorewrite with sums. unfold debt; cbn. lia.
Qed.

Lemma rows_divergence_spec {E} d : @rows_divergence E block current = Ok d →
  ld_overpay_sats d = sum_of (fun k => Z.max (debt (after_of k) - debt (before_of k)) 0) row_programs ∧
  ld_pool_debt_after_sats d = sum_of (fun k => debt (after_of k)) all_programs ∧
  ld_divergent_accounts d =
    sum_of (fun k => if keyed_sum carry_row_key cr_issued_prior_sats k block =? before_of k then 0 else 1) row_programs ∧
  sum_of ao_overpay_sats (ld_overpaid d) = ld_overpay_sats d.
Proof.
  unfold rows_divergence. intros (m & Hm & (rows & Hr & (d0 & Hd & (rest & Hrest & (p & [-> _]%arith_Ok & [= <-])%bind_Ok)%bind_Ok)%bind_Ok)%bind_Ok)%bind_Ok.
  apply group_rows_spec in Hr. apply settle_rows_Ok in Hd as (-> & -> & -> & Ho & _). cbn.
  pose proof (untouched_perm m rows Hm Hr) as Hperm. apply untouched_debt_Ok in Hrest as ->.
  split_and!; [| | |done].
  - apply grouped_rows_sum; [done|]. intros k r (_ & _ & Hg & Hon). cbn. unfold added_debt, after_of, before_of.
    by rewrite Hg, Hon, (balance_map_get current m k Hm).
  - rewrite <- (sum_of_perm _ _ _ Hperm), sum_of_app, !sum_of_fmap. f_equal.
    + transitivity (sum_of (fun k => debt (after_of k)) row_programs).
      * apply grouped_rows_sum; [done|]. intros k r (_ & _ & Hg & Hon). cbn. unfold after_of, before_of.
        by rewrite Hg, Hon, (balance_map_get current m k Hm).
      * rewrite <- (sum_of_perm _ _ _ (grouped_rows_keys rows Hr)), sum_of_fmap. done.
    + apply sum_of_ext. intros [k z] [Hf Hz%elem_of_map_to_list]%list_elem_of_filter. cbn. unfold after_of, before_of.
      assert (k ∉ carry_row_key <$> block).
      { destruct Hr as [_ Hg]. specialize (Hg k). unfold has_row in Hf. by destruct (bt_get String.compare k rows). }
      rewrite !keyed_sum_notin by done. rewrite <- (balance_map_get current m k Hm). rewrite Hz. cbn. f_equal. lia.
  - apply grouped_rows_sum; [done|]. intros k r (_ & Hi & _). cbn. unfold before_of.
    by rewrite Hi, (balance_map_get current m k Hm).
Qed.
End divergence.

(** ** The sums fit *)
Lemma try_fold_total {E A B} (P : list A -> B -> Prop) (f : B -> A -> result E B) b l :
  P [] b → (∀ l1 x l2 b, l = l1 ++ x :: l2 → P l1 b → ∃ b', f b x = Ok b' ∧ P (l1 ++ [x]) b') →
  ∃ b', try_fold f b l = Ok b' ∧ P l b'.
Proof.
  intros Hb. induction l as [|x l IH] using rev_ind; intros Hstep; [by exists b|].
  destruct IH as (b1 & Hl & H1).
  { intros l1 y l2 b0 ->. apply (Hstep l1 y (l2 ++ [x])). by rewrite <- app_assoc. }
  destruct (Hstep l x [] b1 eq_refl H1) as (b2 & Hx & H2). exists b2. split; [|done].
  rewrite try_fold_app, Hl. cbn. by rewrite Hx.
Qed.
Lemma arith_fits {E} t z : fits t z = true → @arith E t z = Ok z.
Proof. intros H. unfold arith. by rewrite checked_fits. Qed.

Section magnitude.
Context {A : Type} (key : A -> string) (f : A -> Z).
Definition magnitude (l : list A) : Z := sum_of (fun x => Z.abs (f x)) l.
Lemma magnitude_nonneg l : 0 ≤ magnitude l.
Proof. apply sum_of_nonneg. lia. Qed.
Lemma magnitude_prefix l l1 l2 : l = l1 ++ l2 → magnitude l1 ≤ magnitude l.
Proof. intros ->. unfold magnitude. rewrite sum_of_app. pose proof (magnitude_nonneg l2). unfold magnitude in *. lia. Qed.
Lemma keyed_sum_abs k l : Z.abs (keyed_sum key f k l) ≤ magnitude l.
Proof.
  unfold keyed_sum, magnitude. induction l as [|x l IH]; [done|]. rewrite !sum_of_cons. case_decide; lia.
Qed.
(** Each element counts for one key. *)
Lemma keyed_sums_abs ks l : NoDup ks → sum_of (fun k => Z.abs (keyed_sum key f k l)) ks ≤ magnitude l.
Proof.
  intros Hnd. induction l as [|x l IH].
  { rewrite sum_of_zero; [apply magnitude_nonneg|done]. }
  unfold magnitude in *. rewrite sum_of_cons.
  transitivity (sum_of (fun k => (if decide (key x = k) then Z.abs (f x) else 0) + Z.abs (keyed_sum key f k l)) ks).
  { apply sum_of_le. intros k _. unfold keyed_sum. rewrite sum_of_cons. case_decide; lia. }
  rewrite sum_of_add. enough (sum_of (fun k => if decide (key x = k) then Z.abs (f x) else 0) ks ≤ Z.abs (f x)) by lia.
  clear IH. induction Hnd as [|k ks Hk _ IH]; [rewrite sum_of_nil; lia|]. rewrite sum_of_cons. case_decide as Hd; [|lia].
  rewrite sum_of_zero; [lia|]. intros k' Hk'. rewrite decide_False; [done|]. congruence.
Qed.
End magnitude.
Definition row_magnitude (l : list CarryRow) : Z :=
  magnitude cr_issued_prior_sats l + magnitude cr_gross_sats l + magnitude cr_onchain_sats l.
Lemma row_magnitude_nonneg l : 0 ≤ row_magnitude l.
Proof.
  unfold row_magnitude. pose proof (magnitude_nonneg cr_issued_prior_sats l).
  pose proof (magnitude_nonneg cr_gross_sats l). pose proof (magnitude_nonneg cr_onchain_sats l). lia.
Qed.

Lemma balance_map_total {E} bs : magnitude cfb_balance_sats bs < 2 ^ 126 → ∃ m, @balance_map E bs = Ok m.
Proof.
  intros Hbs. edestruct (@try_fold_total E _ _ (fun l (m : gmap string Z) => ∀ k, default 0 (m !! k) = balance_of k l)) as (m & Hm & _); [| |by exists m].
  { intros k. by rewrite lookup_empty. }
  intros l1 x l2 m -> Hm. cbn beta zeta. fold (balance_key x). rewrite Hm, arith_fits.
  - cbn. eexists. split; [done|]. intros k. unfold balance_of. destruct (decide (balance_key x = k)) as [<-|Hk].
    + by rewrite lookup_insert_eq, keyed_sum_snoc_eq.
    + rewrite lookup_insert_ne, keyed_sum_snoc_ne by done. apply Hm.
  - unfold balance_of. rewrite <- keyed_sum_snoc_eq. pose proof (keyed_sum_abs balance_key cfb_balance_sats (balance_key x) (l1 ++ [x])).
    pose proof (magnitude_prefix cfb_balance_sats (l1 ++ x :: l2) (l1 ++ [x]) l2 ltac:(by rewrite <- app_assoc)). widths.
Qed.

Lemma overpay_bound_total {E} issued : magnitude cfb_balance_sats issued < 2 ^ 126 → ∃ bound, @overpay_bound E issued = Ok bound.
Proof.
  intros Hi. destruct (@balance_map_total E issued Hi) as (m & Hm). unfold overpay_bound. rewrite Hm. cbn. eexists.
  apply try_arith_total; [done|widths|lia|].
  rewrite sum_of_fmap. assert (0 ≤ sum_of (fun x : string * Z => Z.max x.2 0) (map_to_list m) ≤ magnitude cfb_balance_sats issued) as Hs; [|widths].
  split; [apply sum_of_nonneg; lia|]. etransitivity; [|apply (keyed_sums_abs balance_key cfb_balance_sats _ issued (NoDup_fst_map_to_list m))].
  rewrite sum_of_fmap. apply sum_of_le. intros [k z] Hk%elem_of_map_to_list. cbn.
  fold (balance_of k issued). rewrite <- (balance_map_get issued m k Hm), Hk. cbn. lia.
Qed.

Lemma group_rows_total {E} l : row_magnitude l < 2 ^ 126 → ∃ rows, try_fold (@group_row E) [] l = Ok rows ∧ grouped_rows l rows.
Proof.
  intros Hl. assert (∃ rows, try_fold (@group_row E) [] l = Ok rows) as [rows Hr]; [|exists rows; split; [done|by eapply group_rows_spec]].
  edestruct (@try_fold_total E _ _ (fun l rows => try_fold (@group_row E) [] l = Ok rows)) as (rows & Hr & _); [done| |by exists rows].
  intros l1 x l2 rows -> Hr. pose proof (group_rows_spec l1 rows Hr) as [_ Hg]. specialize (Hg (carry_row_key x)).
  assert (∀ f, magnitude f (l1 ++ x :: l2) < 2 ^ 126 → fits I128 (keyed_sum carry_row_key f (carry_row_key x) l1 + f x) = true) as Hfit.
  { intros f Hf. rewrite <- keyed_sum_snoc_eq. pose proof (keyed_sum_abs carry_row_key f (carry_row_key x) (l1 ++ [x])).
    pose proof (magnitude_prefix f (l1 ++ x :: l2) (l1 ++ [x]) l2 ltac:(by rewrite <- app_assoc)). widths. }
  unfold row_magnitude in Hl. pose proof (magnitude_nonneg cr_issued_prior_sats (l1 ++ x :: l2)).
  pose proof (magnitude_nonneg cr_gross_sats (l1 ++ x :: l2)). pose proof (magnitude_nonneg cr_onchain_sats (l1 ++ x :: l2)).
  assert (∃ rows', @group_row E rows x = Ok rows') as [rows' Hr'].
  { unfold group_row. fold (carry_row_key x). set (entry := default _ _).
    assert (row_issued entry = keyed_sum carry_row_key cr_issued_prior_sats (carry_row_key x) l1 ∧
      row_gross entry = keyed_sum carry_row_key cr_gross_sats (carry_row_key x) l1 ∧
      row_onchain entry = keyed_sum carry_row_key cr_onchain_sats (carry_row_key x) l1) as (-> & -> & ->).
    { unfold entry. destruct (bt_get String.compare (carry_row_key x) rows); [by destruct Hg|].
      cbn. by rewrite !keyed_sum_notin. }
    rewrite !arith_fits by (apply Hfit; lia). cbn. by eexists. }
  exists rows'. split; [done|]. rewrite try_fold_app, Hr. cbn. by rewrite Hr'.
Qed.

Section total.
Context (block : list CarryRow) (current : list CarryForwardBalance).
Hypothesis Hsize : magnitude cfb_balance_sats current + row_magnitude block < 2 ^ 126.
Hypothesis Hlen : Z.of_nat (length block) < 2 ^ 64.
Abbreviation size := (magnitude cfb_balance_sats current + row_magnitude block).

Lemma after_abs ks : NoDup ks → sum_of (fun k => Z.abs (before_of current k) + Z.abs (keyed_sum carry_row_key cr_gross_sats k block)
  + Z.abs (keyed_sum carry_row_key cr_onchain_sats k block)) ks ≤ size.
Proof.
  intros Hnd. rewrite !sum_of_add. unfold row_magnitude.
  pose proof (keyed_sums_abs balance_key cfb_balance_sats ks current Hnd).
  pose proof (keyed_sums_abs carry_row_key cr_gross_sats ks block Hnd).
  pose proof (keyed_sums_abs carry_row_key cr_onchain_sats ks block Hnd).
  pose proof (magnitude_nonneg cr_issued_prior_sats block). unfold before_of, balance_of. lia.
Qed.
Lemma after_debts ks : NoDup ks → sum_of (fun k => debt (after_of block current k)) ks ≤ size.
Proof.
  intros Hnd. etransitivity; [|by apply after_abs]. apply sum_of_le. intros k _. unfold debt, after_of. lia.
Qed.
Lemma after_abs_one k : Z.abs (before_of current k) + Z.abs (keyed_sum carry_row_key cr_gross_sats k block)
  + Z.abs (keyed_sum carry_row_key cr_onchain_sats k block) ≤ size.
Proof. pose proof (after_abs [k] ltac:(apply NoDup_singleton)) as H. autorewrite with sums in H. lia. Qed.

Lemma grouped_row rows k r : grouped_rows block rows → (k, r) ∈ rows → row_of block k r.
Proof.
  intros [Hw Hg] Hk. specialize (Hg k). by rewrite (proj2 (bt_get_elem String.compare k r rows Hw) Hk) in Hg.
Qed.
(** The debts settled by a part of the rows. *)
Lemma settled_debts {E} m rows l : @balance_map E current = Ok m → grouped_rows block rows → l ⊆+ rows →
  0 ≤ sum_of (fun e => debt (default 0 (m !! e.1) + row_gross e.2 - row_onchain e.2)) l ≤ size ∧
  0 ≤ sum_of (fun e => added_debt (default 0 (m !! e.1)) e.2) l ≤ size.
Proof.
  intros Hm Hg Hl. assert (sum_of (fun e => debt (default 0 (m !! e.1) + row_gross e.2 - row_onchain e.2)) l =
    sum_of (fun k => debt (after_of block current k)) l.*1) as Heq.
  { rewrite sum_of_fmap. apply sum_of_ext. intros [k r] Hk. apply (elem_of_submseteq _ _ _ Hk) in Hl as Hkr.
    destruct (grouped_row rows k r Hg Hkr) as (_ & _ & Hgr & Hon). cbn. unfold after_of, before_of.
    by rewrite Hgr, Hon, (balance_map_get current m k Hm). }
  assert (NoDup l.*1) as Hnd.
  { apply (fmap_submseteq fst) in Hl. rewrite (grouped_rows_keys block rows Hg) in Hl.
    destruct (submseteq_Permutation _ _ Hl) as (rest & Hp). pose proof (NoDup_remove_dups (carry_row_key <$> block)) as Hd.
    fold (row_programs block) in Hd. rewrite Hp in Hd. by apply NoDup_app in Hd as [? _]. }
  assert (∀ f : _ -> Z, (∀ e, 0 ≤ f e) → 0 ≤ sum_of f l) as Hpos by (intros; apply sum_of_nonneg; auto).
  split; (split; [apply Hpos; unfold debt, added_debt; lia|]); [by rewrite Heq; apply after_debts|].
  etransitivity; [|apply (after_debts l.*1 Hnd)]. rewrite <- Heq. apply sum_of_le. intros e _. unfold added_debt, debt. lia.
Qed.

Lemma settle_rows_total {E} m rows : @balance_map E current = Ok m → grouped_rows block rows →
  ∃ d, try_fold (@settle_row E m) divergence_default rows = Ok d ∧
    0 ≤ ld_pool_debt_after_sats d.
Proof.
  intros Hm Hg. pose proof (grouped_rows_keys block rows Hg) as Hkeys.
  assert (NoDup rows.*1) as Hnd by (rewrite Hkeys; apply NoDup_remove_dups).
  assert ((length rows ≤ length block)%nat) as Hrows.
  { rewrite <- (length_fmap fst rows), Hkeys. unfold row_programs. rewrite <- (length_fmap carry_row_key block).
    apply submseteq_length, NoDup_submseteq; [apply NoDup_remove_dups|]. intros x. by rewrite elem_of_remove_dups. }
  edestruct (@try_fold_total E _ _ (fun l d => try_fold (@settle_row E m) divergence_default l = Ok d)) as (d & Hd & _); [done| |].
  - intros l1 [k r] l2 d Hl Hd. pose proof Hd as (H1 & H2 & H3 & _ & H5)%settle_rows_Ok.
    pose proof (grouped_row rows k r Hg ltac:(rewrite Hl; set_solver)) as (_ & _ & Hgr & Hon).
    pose proof (after_abs_one k) as Hone. unfold before_of in Hone.
    destruct (settled_debts m rows (l1 ++ [(k, r)]) Hm Hg) as [Hs1 Hs2].
    { rewrite Hl. apply submseteq_app; [reflexivity|]. apply submseteq_skip, submseteq_nil_l. }
    rewrite !sum_of_app, <- ?H1, <- ?H2 in Hs1, Hs2. autorewrite with sums in Hs1, Hs2. cbn in Hs1, Hs2.
    assert (ld_divergent_accounts d + 1 ≤ Z.of_nat (length rows)) as Hcount.
    { rewrite H3, Hl, length_app. cbn. clear. induction l1 as [|e l1 IH]; [rewrite sum_of_nil; cbn; lia|]. rewrite sum_of_cons. cbn. case_match; lia. }
    assert (0 ≤ ld_divergent_accounts d) by (rewrite H3; apply sum_of_nonneg; intros; case_match; lia).
    enough (∃ d', @settle_row E m d (k, r) = Ok d') as [d' Hd'].
    { exists d'. split; [done|]. rewrite try_fold_app, Hd. cbn [mbind result_bind try_fold]. by rewrite Hd'. }
    unfold settle_row, added_debt, debt in *. rewrite Hgr, Hon, (balance_map_get current m k Hm) in *.
    rewrite <- H1 in Hs2. rewrite <- H2 in Hs1. clear H1 H2 H3 Hd Hl Hgr Hon Hkeys Hnd.
    assert (∀ z, - 2 ^ 126 < z < 2 ^ 126 → fits I128 z = true) as Hfit by (intros; widths).
    assert (∀ c : bool, fits Usize (ld_divergent_accounts d + (if c then 0 else 1)) = true) as Hacc by (intros []; widths).
    repeat (rewrite (arith_fits I128) by (apply Hfit; lia); cbn [mbind result_bind]).
    rewrite (arith_fits Usize) by apply Hacc.
    repeat (rewrite (arith_fits I128) by (apply Hfit; lia); cbn [mbind result_bind]).
    match goal with |- context [if ?b then _ else _] => destruct b end; [|by eexists].
    repeat (rewrite (arith_fits I128) by (apply Hfit; lia); cbn [mbind result_bind]). by eexists.
  - exists d. split; [done|]. apply settle_rows_Ok in Hd as (_ & -> & _). apply sum_of_nonneg. unfold debt. lia.
Qed.

Lemma untouched_debt_total {E} m rows : @balance_map E current = Ok m → grouped_rows block rows →
  ∃ rest, @untouched_debt E m rows = Ok rest ∧ 0 ≤ rest ≤ magnitude cfb_balance_sats current.
Proof.
  intros Hm Hg. unfold untouched_debt.
  set (l := filter (fun '(program, _) => has_row rows program = false) (map_to_list m)).
  assert (∀ l1 l2, l = l1 ++ l2 → 0 ≤ sum_of (fun e => debt e.2) l1 ≤ magnitude cfb_balance_sats current) as Hsum.
  { intros l1 l2 Hl. split; [apply sum_of_nonneg; unfold debt; lia|].
    assert (NoDup l1.*1) as Hnd.
    { eapply sublist_NoDup; [apply (NoDup_fst_map_to_list m)|]. apply fmap_sublist. transitivity l; [|unfold l; apply sublist_filter].
      rewrite Hl. by apply sublist_inserts_r. }
    etransitivity; [|apply (keyed_sums_abs balance_key cfb_balance_sats _ current Hnd)]. rewrite sum_of_fmap.
    apply sum_of_le. intros [k z] Hk. cbn. assert ((k, z) ∈ l) as Hin by (rewrite Hl; set_solver).
    apply list_elem_of_filter in Hin as [_ Hz%elem_of_map_to_list]. fold (balance_of k current).
    rewrite <- (balance_map_get current m k Hm), Hz. cbn. unfold debt. lia. }
  edestruct (@try_fold_total E _ _ (fun l (s : Z) => s = sum_of (fun e => debt e.2) l)
    (fun s '(program, balance) => minus ← arith I128 (- balance); arith I128 (s + Z.max minus 0)) 0 l) as (s & Hs & ->); [done| |].
  - intros l1 [k z] l2 s Hl ->. destruct (Hsum (l1 ++ [(k, z)]) l2 ltac:(by rewrite <- app_assoc)) as [Hs1 Hs2].
    destruct (Hsum l1 ((k, z) :: l2) Hl) as [Hs3 Hs4].
    assert ((k, z) ∈ l) as Hin by (rewrite Hl; set_solver).
    apply list_elem_of_filter in Hin as [_ Hz%elem_of_map_to_list].
    pose proof (balance_map_get current m k Hm) as Hb. rewrite Hz in Hb. cbn in Hb.
    pose proof (keyed_sum_abs balance_key cfb_balance_sats k current) as Habs. fold (balance_of k current) in Habs. rewrite <- Hb in Habs.
    pose proof (row_magnitude_nonneg block).
    rewrite sum_of_app in *. autorewrite with sums in *. cbn in *. unfold debt in *.
    rewrite arith_fits by widths. cbn. rewrite arith_fits by widths. eexists. split; [done|]. lia.
  - exists (sum_of (fun e => debt e.2) l). split; [done|]. apply (Hsum l []). by rewrite app_nil_r.
Qed.

Lemma rows_divergence_total {E} : ∃ d, @rows_divergence E block current = Ok d.
Proof.
  pose proof (row_magnitude_nonneg block) as Hrm.
  pose proof (magnitude_nonneg cfb_balance_sats current) as Hcm.
  destruct (@balance_map_total E current ltac:(lia)) as [m Hm].
  destruct (@group_rows_total E block ltac:(lia)) as (rows & Hr & Hg).
  destruct (@settle_rows_total E m rows Hm Hg) as (d & Hd & Hd0).
  destruct (@untouched_debt_total E m rows Hm Hg) as (rest & Hrest & Hr0).
  unfold rows_divergence. rewrite Hm. cbn [mbind result_bind]. rewrite Hr. cbn [mbind result_bind]. rewrite Hd.
  cbn [mbind result_bind]. rewrite Hrest. cbn [mbind result_bind]. rewrite arith_fits; [by eexists|].
  apply settle_rows_Ok in Hd as (_ & Hp & _).
  destruct (settled_debts m rows rows Hm Hg ltac:(done)) as [Hs _]. rewrite <- Hp in Hs. widths.
Qed.
End total.

(** * Blocks the payout policy built *)
Lemma filter_Forall {A} (P : A -> Prop) `{∀ x, Decision (P x)} l : Forall P l → filter P l = l.
Proof. induction 1 as [|x l Hx _ IH]; [done|]. by rewrite filter_cons_True, IH. Qed.

Section landing.
Context (rm : PrismRewardManifest) (policy : PayoutPolicy) (issued : list CarryForwardBalance) (manifest : PayoutPolicyManifest).
Hypothesis Hwf : wf_policy_input rm policy.
Hypothesis Happly : apply_payout_policy rm issued policy = Ok manifest.

Definition landing_rows : list CarryRow :=
  carry_row_of <$> filter (fun a => ppa_account_type a = Miner) (ppm_accounts manifest).

Lemma landing_rows_miners : ∃ miners, landing_rows ≡ₚ carry_row_of <$> miners ∧
  NoDup (account_program <$> miners) ∧ Forall (miner_account_ok (ppm_min_output_sats manifest) issued) miners ∧
  0 ≤ sum_of ppa_gross_amount_sats miners < 2 ^ 64 ∧ 0 ≤ sum_of ppa_onchain_amount_sats miners < 2 ^ 64.
Proof.
  destruct (apply_payout_policy_outcome _ _ _ _ Hwf Happly) as (miners & earned & dust & Ho). exists miners.
  pose proof (po_miners _ _ _ _ _ _ _ Ho) as Hm. pose proof (po_gross _ _ _ _ _ _ _ Ho). pose proof (po_onchain _ _ _ _ _ _ _ Ho).
  pose proof (po_nonneg _ _ _ _ _ _ _ Ho). pose proof (wpi_value _ _ Hwf) as Hv. apply fits_iff in Hv. cbn in Hv. split_and!.
  - unfold landing_rows. rewrite (po_accounts _ _ _ _ _ _ _ Ho), (sort_by_perm canonical_cmp), filter_app.
    assert (filter (fun a => ppa_account_type a = Miner) (fee_accounts (ppm_pool_fee manifest)) = []) as ->.
    { unfold fee_accounts. by destruct (ppm_pool_fee manifest). }
    rewrite app_nil_r, filter_Forall; [done|]. eapply Forall_impl; [exact Hm|]. intros a Ha. apply (ma_type _ _ _ Ha).
  - pose proof (po_programs _ _ _ _ _ _ _ Ho) as Hnd. rewrite fmap_app in Hnd. by apply NoDup_app in Hnd as [? _].
  - done.
  - apply sum_of_nonneg. intros a Ha. rewrite Forall_forall in Hm. apply (ma_gross _ _ _ (Hm a Ha)).
  - lia.
  - apply sum_of_nonneg. intros a Ha. rewrite Forall_forall in Hm.
    pose proof (ma_action _ _ _ (Hm a Ha)) as Hact. destruct (ppa_action a); lia.
  - lia.
Qed.

Lemma row_program_eq (a : PayoutPolicyAccount) : carry_row_key (carry_row_of a) = account_program a.
Proof. done. Qed.
Lemma balance_program_sum k bs : balance_of k bs = program_sum k bs.
Proof. done. Qed.

(** A program's rows are one miner's account. *)
Lemma landing_row_account k : k ∈ carry_row_key <$> landing_rows →
  ∃ a, miner_account_ok (ppm_min_output_sats manifest) issued a ∧ account_program a = k ∧
    ∀ f, keyed_sum carry_row_key f k landing_rows = f (carry_row_of a).
Proof.
  destruct landing_rows_miners as (miners & Hp & Hnd & Hok & _). rewrite Hp, <- list_fmap_compose.
  intros (a & -> & Ha)%list_elem_of_fmap. exists a. rewrite Forall_forall in Hok. split_and!; [by apply Hok|done|].
  intros f. unfold keyed_sum. rewrite (sum_of_perm _ _ _ Hp).
  apply (keyed_sum_unique carry_row_key f (carry_row_of <$> miners) (carry_row_of a)).
  - by rewrite <- list_fmap_compose.
  - by apply list_elem_of_fmap_2.
Qed.
(** The policy pays at most the candidate balance, so a row takes at most the
    positive part of the issued balance beyond what it earned. *)
Lemma landing_row_paid k : k ∈ carry_row_key <$> landing_rows →
  keyed_sum carry_row_key cr_onchain_sats k landing_rows - keyed_sum carry_row_key cr_gross_sats k landing_rows
    ≤ Z.max (balance_of k issued) 0.
Proof.
  intros (a & Ha & <- & Hf)%landing_row_account. rewrite !Hf. cbn. rewrite balance_program_sum.
  pose proof (ma_prior _ _ _ Ha). pose proof (ma_gross _ _ _ Ha). pose proof (ma_candidate _ _ _ Ha).
  pose proof (ma_action _ _ _ Ha) as Hact. destruct (ppa_action a); lia.
Qed.

Lemma landing_size : magnitude cfb_balance_sats issued < 2 ^ 124 → row_magnitude landing_rows < 2 ^ 125.
Proof.
  intros Hi. destruct landing_rows_miners as (miners & Hp & Hnd & Hok & Hg & Ho). rewrite Forall_forall in Hok.
  unfold row_magnitude, magnitude. rewrite !(sum_of_perm _ _ _ Hp), !sum_of_fmap. cbn.
  assert (sum_of (fun a => Z.abs (ppa_gross_amount_sats a)) miners = sum_of ppa_gross_amount_sats miners) as ->.
  { apply sum_of_ext. intros a Ha. pose proof (ma_gross _ _ _ (Hok a Ha)). lia. }
  assert (sum_of (fun a => Z.abs (ppa_onchain_amount_sats a)) miners = sum_of ppa_onchain_amount_sats miners) as ->.
  { apply sum_of_ext. intros a Ha. pose proof (ma_action _ _ _ (Hok a Ha)) as Hact. destruct (ppa_action a); lia. }
  assert (sum_of (fun a => Z.abs (ppa_prior_balance_sats a)) miners ≤ magnitude cfb_balance_sats issued); [|lia].
  etransitivity; [|apply (keyed_sums_abs balance_key cfb_balance_sats _ issued Hnd)]. rewrite sum_of_fmap.
  apply sum_of_le. intros a Ha. rewrite (ma_prior _ _ _ (Hok a Ha)). done.
Qed.

(** The debt a landing creates is at most the positive float it was issued on,
    whatever the balances are when it counts. *)
Lemma landing_within_bound {E E'} bound current d :
  @overpay_bound E issued = Ok bound → @landing_divergence E' (ppm_accounts manifest) current = Ok d →
  0 ≤ ld_overpay_sats d ≤ bound.
Proof.
  intros [_ Hb]%overpay_bound_spec Hd. apply rows_divergence_spec in Hd as (-> & _). fold landing_rows.
  split; [apply sum_of_nonneg; lia|].
  etransitivity; [|apply (Hb (row_programs landing_rows)), NoDup_remove_dups]. apply sum_of_le. intros k Hk.
  unfold row_programs in Hk. rewrite elem_of_remove_dups in Hk. pose proof (landing_row_paid k Hk). unfold debt, after_of. lia.
Qed.
End landing.

(** C5: a block the payout policy built on the balances [issued] never creates
    more debt than the bound computed from [issued] alone: whatever the
    balances are when its rows start to count, the divergence is computed
    without overflow, the overpay recorded is between zero and
    [overpay_bound issued], it is the sum over the block's programs of the
    increase of [max(0, -balance)], and the pool debt recorded is the debt of
    every account once the block's rows are added. *)
Theorem landing_overpay_bounded rm policy issued manifest current :
  wf_policy_input rm policy → apply_payout_policy rm issued policy = Ok manifest →
  magnitude cfb_balance_sats issued < 2 ^ 124 → magnitude cfb_balance_sats current < 2 ^ 124 →
  Z.of_nat (length (ppm_accounts manifest)) < 2 ^ 64 →
  ∃ bound d, overpay_bound issued = @Ok anyhow _ bound ∧ landing_divergence (ppm_accounts manifest) current = @Ok anyhow _ d ∧
    0 ≤ ld_overpay_sats d ≤ bound ∧
    ld_overpay_sats d = sum_of (fun k => Z.max (debt (after_of (landing_rows manifest) current k) - debt (balance_of k current)) 0)
      (row_programs (landing_rows manifest)) ∧
    ld_pool_debt_after_sats d = sum_of (fun k => debt (after_of (landing_rows manifest) current k))
      (all_programs (landing_rows manifest) current).
Proof.
  intros Hwf Ha Hi Hc Hl. destruct (@overpay_bound_total anyhow issued ltac:(lia)) as [bound Hb].
  pose proof (landing_size rm policy issued manifest Hwf Ha Hi) as Hs.
  destruct (@rows_divergence_total (landing_rows manifest) current) with (E := anyhow) as [d Hd]; [lia| |].
  { unfold landing_rows. rewrite length_fmap. pose proof (length_filter (fun a => ppa_account_type a = Miner) (ppm_accounts manifest)). lia. }
  exists bound, d. split_and!; [done|done| | | |].
  - by eapply (landing_within_bound rm policy issued manifest Hwf Ha bound current d).
  - by eapply (landing_within_bound rm policy issued manifest Hwf Ha bound current d).
  - by apply rows_divergence_spec in Hd as (-> & _).
  - by apply rows_divergence_spec in Hd as (_ & -> & _).
Qed.

(** Dave's 1700 was paid elsewhere before the block landed: 1531 of debt. *)
Lemma landing_overpay_bounded_witness :
  ∃ manifest bound d, apply_payout_policy example_reward_manifest example_prior_balances example_policy = Ok manifest ∧
    overpay_bound example_prior_balances = @Ok anyhow _ bound ∧
    landing_divergence (ppm_accounts manifest) [] = @Ok anyhow _ d ∧ 0 ≤ ld_overpay_sats d ≤ bound.
Proof.
  assert (match apply_payout_policy example_reward_manifest example_prior_balances example_policy with
    | Ok m => Z.of_nat (length (ppm_accounts m)) <? 2 ^ 64 | _ => false end = true) as Hok by (vm_compute; reflexivity).
  destruct (apply_payout_policy example_reward_manifest example_prior_balances example_policy) as [m| |] eqn:Hm; try discriminate Hok.
  destruct (landing_overpay_bounded example_reward_manifest example_policy example_prior_balances m [] example_policy_wf Hm)
    as (bound & d & Hb & Hd & Hle & _); [reflexivity|reflexivity|apply Z.ltb_lt; exact Hok|].
  exists m, bound, d. split; [reflexivity|]. split; [exact Hb|]. split; [exact Hd|exact Hle].
Defined.
Example landing_overpay_example :
  (manifest ← apply_payout_policy example_reward_manifest example_prior_balances example_policy;
   d ← landing_divergence (ppm_accounts manifest) [];
   Ok (ld_overpay_sats d, ld_pool_debt_after_sats d, ao_miner_id <$> ld_overpaid d)) = Ok (1531, 1531, ["dave"]).
Proof. vm_compute. reflexivity. Qed.
