(* ===== verification/CarryGate.v ===== *)
(** The carry gate of a dual-writer frontend (qbit-prism-server/src/ledger/
    carry.rs): which prior balances work is built on, the fence that a change
    of the gate waits for, and what an offer takes for current work.

    The switch is three atomics, read and written one at a time.  The gate
    machine interleaves the guard task's accesses and statements
    ([set_carry_paying], [fence_carry_change]), the snapshot transactions of
    job builds (ledger/window.rs, [snapshot_with_admission]) and every other
    bump of the payout revision; the settlement lock is one exclusive advisory
    lock.  A statement or a commit may fail wherever the code awaits one. *)
From Stdlib Require Import ZArith Lia.
From coqutil Require Import Byte Word.LittleEndianList.
From stdpp Require Import base list strings gmap relations.
From S2P Require Import Prelude Bytes Crates PayoutPolicy AuditBuild Codec.

Open Scope Z_scope.

(** * Node identity (node_identity.rs) *)
Inductive NodeIndex := A | B.
#[export] Instance node_index_eq_dec : EqDecision NodeIndex.
Proof. solve_decision. Defined.
Definition ALL : list NodeIndex := [A; B].
Definition from_index (index : Z) : option NodeIndex :=
  if index =? 0 then Some A else if index =? 1 then Some B else None.
Definition index (n : NodeIndex) : Z := match n with A => 0 | B => 1 end.
Definition peer (n : NodeIndex) : NodeIndex := match n with A => B | B => A end.
Definition share_seq_residue (n : NodeIndex) : Z := index n.
Definition share_seq_at_or_above {E} (n : NodeIndex) (floor : Z) : result E Z :=
  if floor mod 2 =? share_seq_residue n then Ok floor else arith I64 (floor + 1).
Definition extranonce1_range (n : NodeIndex) : Z * Z :=
  match n with A => (1, 0x7fffffff) | B => (0x80000000, 0xffffffff) end.
Definition in_range (r : Z * Z) (z : Z) : bool := (r.1 <=? z) && (z <=? r.2).

Record NodeIdentity := { node : NodeIndex; carry_owner : bool }.

(** * Who found a block *)
Definition finder_node (coinbase_tx tag : list byte) (extranonce2_size : nat) : option Z :=
  match block_coinbase_script_sig coinbase_tx with
  | Ok script_sig =>
      stop ← checked_sub Usize (Z.of_nat (length script_sig)) (Z.of_nat extranonce2_size);
      start ← checked_sub Usize stop 4;
      if negb (ends_with (take (Z.to_nat start) script_sig) tag) then None else
      bytes ← slice_get script_sig start stop;
      let extranonce1 := le_combine (reverse bytes) in
      index <$> head (filter (fun n => in_range (extranonce1_range n) extranonce1 = true) ALL)
  | _ => None
  end.

(** A coinbase of the recorded layout names the node whose half its extranonce1 is in. *)
Lemma finder_node_exact coinbase prefix tag extranonce1 extranonce2 n :
  block_coinbase_script_sig coinbase = Ok (prefix ++ tag ++ be_bytes 4 extranonce1 ++ extranonce2) →
  Z.of_nat (length (prefix ++ tag ++ be_bytes 4 extranonce1 ++ extranonce2)) < 2 ^ 64 →
  in_range (extranonce1_range n) extranonce1 = true → finder_node coinbase tag (length extranonce2) = Some (index n).
Proof.
  intros Hs Hlen Hr. unfold finder_node. rewrite Hs.
  assert (length (be_bytes 4 extranonce1) = 4%nat) as H4 by (unfold be_bytes, le_bytes; rewrite length_reverse; apply length_le_split).
  set (l := prefix ++ tag) in *. rewrite app_assoc in *. fold l in Hlen |- *. set (bs := be_bytes 4 extranonce1) in *.
  assert (Z.of_nat (length (l ++ bs ++ extranonce2)) = Z.of_nat (length l) + 4 + Z.of_nat (length extranonce2)) as Hl.
  { rewrite !length_app, H4. lia. }
  unfold checked_sub. rewrite checked_fits by widths. cbn [mbind option_bind]. rewrite checked_fits by widths. cbn [mbind option_bind].
  replace (Z.of_nat (length (l ++ bs ++ extranonce2)) - Z.of_nat (length extranonce2) - 4) with (Z.of_nat (length l)) by lia.
  rewrite Nat2Z.id, take_app_length.
  assert (ends_with l tag = true) as ->.
  { unfold ends_with, l. rewrite length_app, bool_decide_true; [|rewrite Nat.add_sub, drop_app_length; done].
    rewrite andb_true_r. apply Nat.leb_le. lia. }
  cbn [negb]. unfold slice_get.
  replace (_ && _) with true by (symmetry; apply andb_true_iff; rewrite !Z.leb_le; lia). cbn [mbind option_bind].
  replace (Z.to_nat (Z.of_nat (length (l ++ bs ++ extranonce2)) - Z.of_nat (length extranonce2) - Z.of_nat (length l))) with (length bs) by lia.
  rewrite Nat2Z.id, drop_app_length, take_app_length. unfold bs, be_bytes, le_bytes. rewrite reverse_involutive, le_combine_split.
  unfold in_range, extranonce1_range in Hr. rewrite Z.mod_small by (destruct n; cbn in Hr; lia).
  destruct n; unfold ALL; rewrite !filter_cons; unfold in_range, extranonce1_range; cbn in *; repeat case_decide; try done; lia.
Qed.

(** The tag and the extranonce2 width of a coinbase. *)
Definition Layout : Type := list byte * nat.
(** Why two layouts are not one, with what its message prints. *)
Inductive LayoutMismatch := Differ (own theirs : Layout) | NoPlaceholder (suffix_hex : string).

Fixpoint leading_zeros (l : list byte) : nat :=
  match l with b :: l => if byte.unsigned b =? 0 then S (leading_zeros l) else 0%nat | [] => 0%nat end.
Definition layout_from_suffix `{HexCrate} (suffix_hex : string) : option Layout :=
  match hex_decode suffix_hex with
  | inr suffix =>
      let placeholder := leading_zeros (reverse suffix) in
      if (placeholder <=? 4)%nat then None
      else Some (take (length suffix - placeholder) suffix, (placeholder - 4)%nat)
  | inl _ => None
  end.
Definition layout_difference (own theirs : Layout) : option LayoutMismatch :=
  if bool_decide (own = theirs) then None else Some (Differ own theirs).

(** * The gate *)
Record CarryGate := {
  paying : bool;
  fence_pending : bool;
  generation : Z;
  coinbase_layout : option Layout;
  peer_suffix_live : option string;
}.
Definition gate_default : CarryGate :=
  {| paying := false; fence_pending := false; generation := 0; coinbase_layout := None; peer_suffix_live := None |}.
(** What the gate reads of a [Ledger]. *)
Record GateLedger := { dual_writer_identity : option NodeIdentity; carry : CarryGate }.

Definition dual_writer (l : GateLedger) : bool := bool_decide (is_Some (dual_writer_identity l)).
Definition own_node (l : GateLedger) : option Z := (fun i => index (node i)) <$> dual_writer_identity l.

Definition set_coinbase_layout (g : CarryGate) (tag : list byte) (extranonce2_size : nat)
  : result anyhow () * CarryGate :=
  let recorded := default (tag, extranonce2_size) (coinbase_layout g) in
  (ensure (bool_decide (recorded = (tag, extranonce2_size))) "this ledger already reads coinbases with another layout",
   {| paying := paying g; fence_pending := fence_pending g; generation := generation g;
      coinbase_layout := Some recorded; peer_suffix_live := peer_suffix_live g |}).
Definition set_peer_suffix_live (g : CarryGate) (suffix : option string) : CarryGate :=
  {| paying := paying g; fence_pending := fence_pending g; generation := generation g;
     coinbase_layout := coinbase_layout g; peer_suffix_live := suffix |}.

Definition found_here (l : GateLedger) (coinbase_tx : option (list byte)) (origin_is_own offered : bool) : bool :=
  match own_node l, coinbase_layout (carry l), coinbase_tx with
  | Some own, Some (tag, extranonce2_size), Some coinbase =>
      match finder_node coinbase tag extranonce2_size with
      | Some finder => finder =? own
      | None => origin_is_own && offered
      end
  | _, _, _ => origin_is_own
  end.

Definition layout_mismatch_with `{HexCrate} (g : CarryGate) (peer_suffix_hex : option string) : option LayoutMismatch :=
  own ← coinbase_layout g;
  suffix ← (match peer_suffix_hex with Some suffix => Some suffix | None => peer_suffix_live g end);
  match layout_from_suffix suffix with
  | Some theirs => layout_difference own theirs
  | None => Some (NoPlaceholder suffix)
  end.

Definition carry_paying (l : GateLedger) : bool := negb (dual_writer l) || paying (carry l).

(** The two prior-balance statements. *)
Inductive PriorBalanceSql := PRIOR_BALANCE_SQL | CARRY_FREE_PRIOR_BALANCE_SQL.
Definition job_prior_balance_sql (l : GateLedger) : PriorBalanceSql :=
  if carry_paying l then PRIOR_BALANCE_SQL else CARRY_FREE_PRIOR_BALANCE_SQL.
(** [claims] is what the node's latest journal row says, as the transaction reads it. *)
Definition job_prior_balance_sql_in (l : GateLedger) (claims : option bool) : PriorBalanceSql :=
  match job_prior_balance_sql l, own_node l with
  | PRIOR_BALANCE_SQL, Some _ =>
      if bool_decide (claims = Some true) then PRIOR_BALANCE_SQL else CARRY_FREE_PRIOR_BALANCE_SQL
  | sql, _ => sql
  end.

Section digest.
Context `{Sha256Crate}.
Definition carry_free_prior_digest : list byte := prior_balances_digest [].
Definition carry_free_block (dual_writer : bool) (prior_balances_digest : list byte) : bool :=
  dual_writer && bool_decide (prior_balances_digest = carry_free_prior_digest).
Definition carry_paying_not_current (dual_writer gate_paying fence_pending : bool) (prior_balances_digest : list byte) : bool :=
  dual_writer && (negb gate_paying || fence_pending) && negb (carry_free_block dual_writer prior_balances_digest).
Definition carry_paying_not_current_now (l : GateLedger) (prior_balances_digest : list byte) : bool :=
  carry_paying_not_current (dual_writer l) (carry_paying l) (fence_pending (carry l)) prior_balances_digest.
Definition carry_paying_unsendable (l : GateLedger) (prior_balances_digest : list byte) (reserved_generation : Z) : bool :=
  carry_paying_not_current_now l prior_balances_digest
  || (dual_writer l && negb (carry_free_block true prior_balances_digest)
      && negb (generation (carry l) =? reserved_generation)).
Definition carry_claim_withdrawn (l : GateLedger) (prior_balances_digest : list byte) (claims : option bool) : bool :=
  match own_node l with
  | None => false
  | Some _ => if carry_free_block true prior_balances_digest then false else negb (bool_decide (claims = Some true))
  end.
End digest.

(** * The gate machine *)
(** Single writes of the atomics. *)
Definition swap_paying (g : CarryGate) (p : bool) : CarryGate :=
  {| paying := p; fence_pending := fence_pending g; generation := generation g;
     coinbase_layout := coinbase_layout g; peer_suffix_live := peer_suffix_live g |}.
Definition store_pending (g : CarryGate) (p : bool) : CarryGate :=
  {| paying := paying g; fence_pending := p; generation := generation g;
     coinbase_layout := coinbase_layout g; peer_suffix_live := peer_suffix_live g |}.
(** [generation.fetch_add(1)] wraps. *)
Definition count_change (g : CarryGate) : CarryGate :=
  {| paying := paying g; fence_pending := fence_pending g; generation := (generation g + 1) mod 2 ^ 64;
     coinbase_layout := coinbase_layout g; peer_suffix_live := peer_suffix_live g |}.

(** Where the guard task is: in [set_carry_paying] after the swap or after
    the count, at the start of [fence_carry_change], and in its transaction
    with the lock, with the bump done, with the flag cleared, or just failed. *)
Inductive guard_pc := Idle | Swapped | Counted | Fencing | Locked | Bumped | Cleared | Failed.
(** A snapshot that holds the lock: the revision it read, then its work. *)
Record Work := { w_revision : Z; w_digest : list byte; w_changes : Z }.
Inductive snapshot_pc := Unread (revision : Z) | Gated (w : Work).
Record GateState := {
  gs_gate : CarryGate;
  gs_guard : guard_pc;
  gs_snapshot : option snapshot_pc;
  gs_revision : Z;          (* committed *)
  gs_works : list Work;     (* built so far *)
  gs_changes : Z;           (* how often the gate has changed *)
}.
Definition gate_init (revision : Z) : GateState :=
  {| gs_gate := gate_default; gs_guard := Idle; gs_snapshot := None; gs_revision := revision; gs_works := []; gs_changes := 0 |}.

Definition fence_holds_lock (p : guard_pc) : bool := match p with Locked | Bumped | Cleared => true | _ => false end.
Definition lock_free (s : GateState) : Prop := fence_holds_lock (gs_guard s) = false ∧ gs_snapshot s = None.
(** No other transaction holds the cluster row, so a reader of it [FOR SHARE]
    sees the committed revision. *)
Definition row_free (s : GateState) : Prop := gs_guard s ≠ Bumped ∧ gs_guard s ≠ Cleared.

Section machine.
Context `{Sha256Crate} (id : NodeIdentity).
Definition ledger_of (g : CarryGate) : GateLedger := {| dual_writer_identity := Some id; carry := g |}.
Definition guard_to (s : GateState) (g : CarryGate) (pc : guard_pc) : GateState :=
  {| gs_gate := g; gs_guard := pc; gs_snapshot := gs_snapshot s; gs_revision := gs_revision s;
     gs_works := gs_works s; gs_changes := gs_changes s |}.
Definition with_snapshot (s : GateState) (snapshot : option snapshot_pc) (works : list Work) : GateState :=
  {| gs_gate := gs_gate s; gs_guard := gs_guard s; gs_snapshot := snapshot; gs_revision := gs_revision s;
     gs_works := works; gs_changes := gs_changes s |}.
Definition with_revision (s : GateState) (revision : Z) (pc : guard_pc) : GateState :=
  {| gs_gate := gs_gate s; gs_guard := pc; gs_snapshot := gs_snapshot s; gs_revision := revision;
     gs_works := gs_works s; gs_changes := gs_changes s |}.

Inductive gate_step : GateState -> GateState -> Prop :=
(* set_carry_paying *)
| step_swap s p : gs_guard s = Idle → paying (gs_gate s) ≠ p →
    gate_step s {| gs_gate := swap_paying (gs_gate s) p; gs_guard := Swapped; gs_snapshot := gs_snapshot s;
                   gs_revision := gs_revision s; gs_works := gs_works s; gs_changes := gs_changes s + 1 |}
| step_unchanged s p : gs_guard s = Idle → paying (gs_gate s) = p →
    gate_step s (guard_to s (swap_paying (gs_gate s) p) Fencing)
| step_count s : gs_guard s = Swapped → gate_step s (guard_to s (count_change (gs_gate s)) Counted)
| step_pend s : gs_guard s = Counted → gate_step s (guard_to s (store_pending (gs_gate s) true) Fencing)
(* fence_carry_change, also retried by the loop *)
| step_retry s : gs_guard s = Idle → gate_step s (guard_to s (gs_gate s) Fencing)
| step_nothing_pending s : gs_guard s = Fencing → fence_pending (gs_gate s) = false →
    gate_step s (guard_to s (gs_gate s) Idle)
| step_lock s : gs_guard s = Fencing → fence_pending (gs_gate s) = true → lock_free s →
    gate_step s (guard_to s (gs_gate s) Locked)
| step_lock_fails s : gs_guard s = Fencing → fence_pending (gs_gate s) = true → gate_step s (guard_to s (gs_gate s) Idle)
| step_bump s : gs_guard s = Locked → gate_step s (guard_to s (gs_gate s) Bumped)
| step_bump_fails s : gs_guard s = Locked → gate_step s (guard_to s (gs_gate s) Idle)
| step_clear s : gs_guard s = Bumped → gate_step s (guard_to s (store_pending (gs_gate s) false) Cleared)
| step_commit s : gs_guard s = Cleared → gate_step s (with_revision s (gs_revision s + 1) Idle)
| step_commit_fails s : gs_guard s = Cleared → gate_step s (with_revision s (gs_revision s) Failed)
| step_commit_unknown s : gs_guard s = Cleared → gate_step s (with_revision s (gs_revision s + 1) Failed)
| step_pend_again s : gs_guard s = Failed → gate_step s (guard_to s (store_pending (gs_gate s) true) Idle)
(* snapshot_with_admission *)
| step_read_revision s : lock_free s → gate_step s (with_snapshot s (Some (Unread (gs_revision s))) (gs_works s))
| step_read_gate s revision claims balances :
    gs_snapshot s = Some (Unread revision) →
    (job_prior_balance_sql_in (ledger_of (gs_gate s)) claims = CARRY_FREE_PRIOR_BALANCE_SQL → balances = []) →
    gate_step s (with_snapshot s
      (Some (Gated {| w_revision := revision; w_digest := prior_balances_digest balances; w_changes := gs_changes s |})) (gs_works s))
| step_built s w : gs_snapshot s = Some (Gated w) → gate_step s (with_snapshot s None (w :: gs_works s))
| step_snapshot_fails s pc : gs_snapshot s = Some pc → gate_step s (with_snapshot s None (gs_works s))
(* every other writer of the revision *)
| step_other_bump s : lock_free s → gate_step s (with_revision s (gs_revision s + 1) (gs_guard s)).

Definition built (s : GateState) : list Work :=
  gs_works s ++ match gs_snapshot s with Some (Gated w) => [w] | _ => [] end.
(** The changes a fence must have superseded: all but one that is being made. *)
Definition settled_changes (s : GateState) : Z :=
  match gs_guard s with Swapped | Counted => gs_changes s - 1 | _ => gs_changes s end.

Record work_ok (s : GateState) (w : Work) : Prop := {
  wk_revision : w_revision w ≤ gs_revision s;
  wk_changes : w_changes w ≤ gs_changes s;
  wk_odd : w_digest w ≠ carry_free_prior_digest → Z.odd (w_changes w) = true;
  wk_fenced : w_changes w < settled_changes s → w_revision w < gs_revision s ∨
    fence_pending (gs_gate s) = true ∨ gs_guard s = Cleared ∨ gs_guard s = Failed;
}.
Record gate_inv (s : GateState) : Prop := {
  gi_changes : 0 ≤ gs_changes s;
  gi_parity : paying (gs_gate s) = Z.odd (gs_changes s);
  gi_generation : generation (gs_gate s) = (match gs_guard s with Swapped => gs_changes s - 1 | _ => gs_changes s end) mod 2 ^ 64;
  gi_positive : gs_guard s = Swapped ∨ gs_guard s = Counted → 1 ≤ gs_changes s;
  gi_pending : gs_guard s = Locked ∨ gs_guard s = Bumped → fence_pending (gs_gate s) = true;
  gi_lock : fence_holds_lock (gs_guard s) = true → gs_snapshot s = None;
  gi_snapshot : match gs_snapshot s with
    | Some (Unread r) => r = gs_revision s | Some (Gated w) => w_revision w = gs_revision s | None => True end;
  gi_works : ∀ w, w ∈ built s → work_ok s w;
}.

Lemma gate_init_inv revision : gate_inv (gate_init revision).
Proof. by constructor; cbn; try (intros [=] || intros [|] || set_solver). Qed.

(** The works survive a step that keeps the snapshot and the works. *)
Lemma work_ok_mono s s' w :
  gs_revision s ≤ gs_revision s' → gs_changes s ≤ gs_changes s' →
  (w_revision w ≤ gs_revision s → w_changes w < settled_changes s' → w_changes w < settled_changes s ∨
     w_revision w < gs_revision s' ∨ fence_pending (gs_gate s') = true ∨ gs_guard s' = Cleared ∨ gs_guard s' = Failed) →
  (w_revision w < gs_revision s ∨ fence_pending (gs_gate s) = true ∨ gs_guard s = Cleared ∨ gs_guard s = Failed →
     w_revision w ≤ gs_revision s →
     w_revision w < gs_revision s' ∨ fence_pending (gs_gate s') = true ∨ gs_guard s' = Cleared ∨ gs_guard s' = Failed) →
  work_ok s w → work_ok s' w.
Proof.
  intros Hr Hc Hs Hf [H1 H2 H3 H4]. constructor; [lia|lia|done|]. intros Hw.
  destruct (Hs H1 Hw) as [?|?]; [|done]. auto.
Qed.

Lemma odd_add_1 z : Z.odd (z + 1) = negb (Z.odd z).
Proof. by rewrite Z.odd_add, xorb_true_r. Qed.

(** A step of the guard that keeps the revision, the snapshot and the count. *)
Lemma guard_step_inv s g pc :
  gate_inv s → paying g = paying (gs_gate s) →
  generation g = (match pc with Swapped => gs_changes s - 1 | _ => gs_changes s end) mod 2 ^ 64 →
  (pc = Counted → gs_guard s = Swapped) → pc ≠ Swapped →
  (pc = Locked ∨ pc = Bumped → fence_pending g = true) →
  (fence_holds_lock pc = true → gs_snapshot s = None) →
  (gs_guard s = Counted → fence_pending g = true) → (gs_guard s = Swapped → pc = Counted) →
  (fence_pending (gs_gate s) = true → fence_pending g = true ∨ pc = Cleared) →
  (gs_guard s = Cleared ∨ gs_guard s = Failed → fence_pending g = true) →
  gate_inv (guard_to s g pc).
Proof.
  intros [Hc Hp Hg Hpos Hpend Hl Hsn Hw] Hpay Hgen Hcnt Hsw Hlb Hlock Hfromc Hfroms Hkeep Hfail.
  constructor; cbn; [done|congruence|done| | |done|done|].
  - intros [->| ->]; [done|]. apply Hpos. auto.
  - done.
  - intros w Hin. eapply (work_ok_mono s); [done|done| | |by apply Hw]; cbn.
    + intros _. unfold settled_changes; cbn. intros Hlt. destruct (gs_guard s), pc;
        solve [left; exact Hlt | left; lia | right; auto | exfalso; intuition congruence].
    + intros Hcase Hle. destruct (gs_guard s), pc; intuition congruence.
Qed.

(** A commit that keeps or bumps the revision while no snapshot holds the lock. *)
Lemma revision_step_inv s r pc :
  gate_inv s → gs_snapshot s = None → gs_revision s ≤ r →
  (pc = gs_guard s ∨ gs_guard s = Cleared ∧ (pc = Idle ∧ gs_revision s < r ∨ pc = Failed)) →
  gate_inv (with_revision s r pc).
Proof.
  intros [Hc Hp Hg Hpos Hpend Hl Hsn Hw] Hsnap Hr Hpc. constructor; cbn; [done|done| | | |done|by rewrite Hsnap|].
  - destruct Hpc as [->|[Hcl [[-> _]| ->]]]; [done|rewrite Hcl in Hg; done..].
  - destruct Hpc as [->|[Hcl [[-> _]| ->]]]; [done|intuition congruence..].
  - destruct Hpc as [->|[Hcl [[-> _]| ->]]]; [done|intuition congruence..].
  - intros w Hin. eapply (work_ok_mono s); [done|done| | |by apply Hw]; cbn.
    + intros Hle. unfold settled_changes; cbn. destruct Hpc as [->|[Hcl [[-> Hlt]| ->]]]; [by left|rewrite Hcl; by left..].
    + intros Hcase Hle. destruct Hpc as [->|[Hcl [[-> Hlt]| ->]]]; [intuition lia|left; lia|auto].
Qed.
(** A step of the snapshot that changes nothing else. *)
Lemma snapshot_step_inv s snapshot works :
  gate_inv s → (snapshot ≠ None → fence_holds_lock (gs_guard s) = false) →
  match snapshot with Some (Unread r) => r = gs_revision s | Some (Gated w) => w_revision w = gs_revision s | None => True end →
  (∀ w, w ∈ works ++ match snapshot with Some (Gated w) => [w] | _ => [] end → w ∈ built s ∨ work_ok s w) →
  gate_inv (with_snapshot s snapshot works).
Proof.
  intros [Hc Hp Hg Hpos Hpend Hl Hsn Hw] Hlock Hsnap Hin. constructor; cbn; [done..| |done|].
  - intros Hf. destruct snapshot; [|done]. rewrite Hlock in Hf; done.
  - intros w [Hb|Hb]%Hin; [apply Hw in Hb|]; destruct Hb as [H1 H2 H3 H4]; by constructor.
Qed.

Lemma gate_step_inv s s' : gate_inv s → gate_step s s' → gate_inv s'.
Proof.
  intros Hinv Hstep. pose proof Hinv as [Hc Hp Hg Hpos Hpend Hl Hsn Hw].
  destruct Hstep as [s p Hpc Hne|s p Hpc He|s Hpc|s Hpc|s Hpc|s Hpc Hf|s Hpc Hf [_ Hfree]|s Hpc Hf|s Hpc|s Hpc|s Hpc|s Hpc|s Hpc|s Hpc|s Hpc
    |s [Hfree Hfree']|s r claims bs Hsnap Hbs|s w Hsnap|s pc Hsnap|s [Hfree Hfree']]; try rewrite Hpc in *.
  2-11, 15: apply guard_step_inv; rewrite ?Hpc; cbn; try done; try (intuition congruence).
  - constructor; cbn; [lia| | | |intros [|]; done|done|done|].
    + rewrite odd_add_1, <- Hp. by destruct p, (paying (gs_gate s)).
    + rewrite Hg. f_equal. lia.
    + lia.
    + intros w Hin. eapply (work_ok_mono s); [cbn; lia..| | |by apply Hw]; cbn.
      * unfold settled_changes. rewrite Hpc. cbn. intros _ Hlt. left. lia.
      * rewrite Hpc. intuition congruence.
  - rewrite Hg. rewrite Zplus_mod_idemp_l. f_equal. lia.
  - apply revision_step_inv; [done|by apply Hl|lia|]. rewrite Hpc. right. split; [done|]. left. split; [done|lia].
  - apply revision_step_inv; [done|by apply Hl|lia|]. rewrite Hpc. auto.
  - apply revision_step_inv; [done|by apply Hl|lia|]. rewrite Hpc. auto.
  - apply snapshot_step_inv; [done..|]. intros w Hin. left. unfold built. set_solver.
  - rewrite Hsnap in Hsn. subst r.
    assert (fence_holds_lock (gs_guard s) = false) as Hnl.
    { destruct (fence_holds_lock (gs_guard s)) eqn:Hf; [|done]. by rewrite Hl in Hsnap. }
    apply snapshot_step_inv; [done..|]. intros w [Hin| ->%list_elem_of_singleton]%elem_of_app; [left; unfold built; set_solver|right].
    constructor; cbn; [done|lia| |unfold settled_changes; destruct (gs_guard s); lia].
    intros Hd. rewrite <- Hp. destruct (paying (gs_gate s)) eqn:Hpay; [done|]. exfalso. apply Hd.
    unfold carry_free_prior_digest. rewrite Hbs; [done|]. unfold job_prior_balance_sql_in, job_prior_balance_sql, carry_paying.
    cbn. by rewrite Hpay.
  - rewrite Hsnap in *. apply snapshot_step_inv; [done..|]. rewrite app_nil_r. intros w' Hin. left. unfold built. rewrite Hsnap. set_solver.
  - apply snapshot_step_inv; [done..|]. intros w' Hin. left. unfold built. set_solver.
  - apply revision_step_inv; [done..|lia|]. auto.
Qed.

Lemma gate_steps_inv s s' : gate_inv s → rtc gate_step s s' → gate_inv s'.
Proof. intros Hs. induction 1 as [|x y z Hxy _ IH]; [done|]. apply IH. by eapply gate_step_inv. Qed.
Lemma gate_reachable_inv revision s : rtc gate_step (gate_init revision) s → gate_inv s.
Proof. apply gate_steps_inv, gate_init_inv. Qed.
Lemma changes_mono s s' : rtc gate_step s s' → gs_changes s ≤ gs_changes s'.
Proof. induction 1 as [|x y z Hxy _ IH]; [done|]. etransitivity; [|exact IH]. destruct Hxy; cbn; lia. Qed.

Lemma not_current_false s digest : digest ≠ carry_free_prior_digest →
  carry_paying_not_current_now (ledger_of (gs_gate s)) digest = false →
  paying (gs_gate s) = true ∧ fence_pending (gs_gate s) = false.
Proof.
  intros Hd. unfold carry_paying_not_current_now, carry_paying_not_current, carry_paying, carry_free_block, dual_writer. cbn.
  rewrite (bool_decide_false (digest = carry_free_prior_digest)) by exact Hd. cbn.
  by destruct (paying (gs_gate s)), (fence_pending (gs_gate s)).
Qed.
(** What an offer takes for current work was built since the last change, but
    for the instant between a failed commit of a fence and the flag's store. *)
Lemma current_work s w : gate_inv s → w ∈ gs_works s → w_digest w ≠ carry_free_prior_digest →
  row_free s → gs_revision s = w_revision w →
  paying (gs_gate s) = true → fence_pending (gs_gate s) = false →
  w_changes w = gs_changes s ∨ gs_guard s = Failed ∧ w_changes w < gs_changes s.
Proof.
  intros Hinv Hw Hd [Hrow1 Hrow2] Hr Hp Hf. destruct (gi_works s Hinv w) as [_ Hle Hodd Hfen]; [unfold built; set_solver|].
  specialize (Hodd Hd). rewrite (gi_parity s Hinv) in Hp. destruct (decide (w_changes w = gs_changes s)) as [|Hne]; [by left|].
  assert (w_changes w < settled_changes s) as Hlt.
  { assert (w_changes w ≠ gs_changes s - 1).
    { intros Heq. rewrite Heq, Z.sub_1_r, Z.odd_pred, <- Z.negb_odd, Hp in Hodd. done. }
    unfold settled_changes. destruct (gs_guard s); lia. }
  destruct (Hfen Hlt) as [?|[?|[?|?]]]; [lia|congruence|done|]. right. split; [done|lia].
Qed.
End machine.

(** C4: when a carry-paying block that was reserved as current work is sent,
    the gate is open and has not changed since the reservation's checks; and it
    has not changed since the block's snapshot read it either, unless the
    reservation ran while a fence's commit had just failed and the guard had
    not yet set the pending flag again.  This holds for every interleaving of
    the guard's gate changes and fences (failed and ambiguous commits
    included), of snapshots and of other revision bumps: work on balances that
    are not empty is taken for current when the committed revision is the
    work's and the gate is open with no fence pending, and sent when the last
    check passes against the generation read before the reservation.  The
    reservation holds the cluster row, so no fence's bump is in flight then. *)
Theorem sent_carry_work_current `{Sha256Crate} id revision s0 s1 s2 w :
  rtc (gate_step id) (gate_init revision) s0 → rtc (gate_step id) s0 s1 → rtc (gate_step id) s1 s2 →
  w ∈ gs_works s1 → w_digest w ≠ carry_free_prior_digest →
  row_free s1 → gs_revision s1 = w_revision w →
  carry_paying_not_current_now (ledger_of id (gs_gate s1)) (w_digest w) = false →
  carry_paying_unsendable (ledger_of id (gs_gate s2)) (w_digest w) (generation (gs_gate s0)) = false →
  gs_changes s2 < 2 ^ 64 →
  paying (gs_gate s2) = true ∧ gs_changes s2 = gs_changes s1 ∧
  (w_changes w = gs_changes s1 ∨ gs_guard s1 = Failed ∧ w_changes w < gs_changes s1).
Proof.
  intros H0 H1 H2 Hw Hd Hrow Hr Hcur [Hcur2 Hgen]%orb_false_iff Hbound.
  pose proof (gate_reachable_inv id _ _ H0) as I0. pose proof (gate_steps_inv id _ _ I0 H1) as I1.
  pose proof (gate_steps_inv id _ _ I1 H2) as I2.
  destruct (not_current_false id s1 _ Hd Hcur) as [Hp1 Hf1]. destruct (not_current_false id s2 _ Hd Hcur2) as [Hp2 Hf2].
  split; [done|]. split; [|by apply current_work].
  unfold carry_free_block, dual_writer in Hgen. cbn in Hgen. rewrite (bool_decide_false (w_digest w = carry_free_prior_digest)) in Hgen by exact Hd.
  cbn in Hgen. apply negb_false_iff, Z.eqb_eq in Hgen. rewrite (gi_generation s2 I2), (gi_generation s0 I0) in Hgen.
  pose proof (changes_mono id _ _ H1). pose proof (changes_mono id _ _ H2).
  pose proof (gi_changes s0 I0). pose proof (gi_positive s0 I0). pose proof (gi_positive s2 I2).
  rewrite (gi_parity s1 I1) in Hp1. rewrite (gi_parity s2 I2) in Hp2.
  rewrite !Z.mod_small in Hgen by (destruct (gs_guard s0), (gs_guard s2); intuition lia).
  assert (gs_changes s2 ≠ gs_changes s1 + 1) by (intros Heq; rewrite Heq, odd_add_1, Hp1 in Hp2; done).
  destruct (gs_guard s0), (gs_guard s2); lia.
Qed.

(** * Concrete runs *)
Definition example_identity : NodeIdentity := {| node := A; carry_owner := true |}.
Definition example_carried : list CarryForwardBalance :=
  [{| cfb_recipient_id := "m"; cfb_order_key := "k"; cfb_p2mr_program_hex := "ab"; cfb_balance_sats := 7 |}].
Definition example_work : Work :=
  {| w_revision := 6; w_digest := prior_balances_digest example_carried; w_changes := 1 |}.
(** The gate opened and fenced, and one snapshot built on a carried balance. *)
Definition example_open (guard : guard_pc) (pending : bool) (changes : Z) : GateState :=
  {| gs_gate := {| paying := true; fence_pending := pending; generation := changes; coinbase_layout := None; peer_suffix_live := None |};
     gs_guard := guard; gs_snapshot := None; gs_revision := 6; gs_works := [example_work]; gs_changes := changes |}.

Lemma example_open_reachable : rtc (gate_step example_identity) (gate_init 5) (example_open Idle false 1).
Proof.
  eapply rtc_l; [by apply (step_swap _ _ true)|]. eapply rtc_l; [by apply step_count|]. eapply rtc_l; [by apply step_pend|].
  eapply rtc_l; [by apply step_lock|]. eapply rtc_l; [by apply step_bump|]. eapply rtc_l; [by apply step_clear|].
  eapply rtc_l; [by apply step_commit|]. eapply rtc_l; [by apply step_read_revision|].
  eapply rtc_l; [by apply (step_read_gate _ _ 6 (Some true) example_carried)|]. eapply rtc_l; [by eapply step_built|]. apply rtc_refl.
Qed.
Lemma example_work_carries : w_digest example_work ≠ carry_free_prior_digest.
Proof. intros Heq. apply (f_equal (fun l => byte.unsigned <$> head l)) in Heq. vm_compute in Heq. discriminate Heq. Qed.

Lemma sent_carry_work_current_witness :
  paying (gs_gate (example_open Idle false 1)) = true ∧ gs_changes (example_open Idle false 1) = 1 ∧
  (w_changes example_work = 1 ∨ gs_guard (example_open Idle false 1) = Failed ∧ w_changes example_work < 1).
Proof.
  apply (sent_carry_work_current example_identity 5 (example_open Idle false 1) (example_open Idle false 1) (example_open Idle false 1) example_work).
  - exact example_open_reachable.
  - apply rtc_refl.
  - apply rtc_refl.
  - apply list_elem_of_here.
  - exact example_work_carries.
  - split; discriminate.
  - reflexivity.
  - reflexivity.
  - reflexivity.
  - reflexivity.
Defined.

(** The excepted instant is real: a gate closed and reopened while its fence
    keeps failing is, between the last failed commit and the next store of the
    flag, open with nothing pending at the old revision.  Work of the earlier
    opening is reserved as current there, and once the fence has committed at
    last the check before the send passes too. *)
Lemma failed_fence_window : let s1 := example_open Failed false 3 in
  ∃ s2, rtc (gate_step example_identity) (gate_init 5) s1 ∧ rtc (gate_step example_identity) s1 s2 ∧
  row_free s1 ∧ example_work ∈ gs_works s1 ∧ gs_revision s1 = w_revision example_work ∧
  carry_paying_not_current_now (ledger_of example_identity (gs_gate s1)) (w_digest example_work) = false ∧
  carry_paying_unsendable (ledger_of example_identity (gs_gate s2)) (w_digest example_work) (generation (gs_gate s1)) = false ∧
  gs_guard s2 = Idle ∧ w_changes example_work < gs_changes s1.
Proof.
  eexists. split; [|split].
  - etransitivity; [exact example_open_reachable|].
    eapply rtc_l; [by apply (step_swap _ _ false)|]. eapply rtc_l; [by apply step_count|]. eapply rtc_l; [by apply step_pend|].
    eapply rtc_l; [by apply step_lock_fails|]. eapply rtc_l; [by apply (step_swap _ _ true)|]. eapply rtc_l; [by apply step_count|].
    eapply rtc_l; [by apply step_pend|]. eapply rtc_l; [by apply step_lock|]. eapply rtc_l; [by apply step_bump|].
    eapply rtc_l; [by apply step_clear|]. eapply rtc_l; [by apply step_commit_fails|]. apply rtc_refl.
  - eapply rtc_l; [by apply step_pend_again|]. eapply rtc_l; [by apply step_retry|]. eapply rtc_l; [by apply step_lock|].
    eapply rtc_l; [by apply step_bump|]. eapply rtc_l; [by apply step_clear|]. eapply rtc_l; [by apply step_commit|]. apply rtc_refl.
  - split_and!; try done. apply list_elem_of_here.
Qed.
