(* ===== verification/OfferReservation.v ===== *)
(** The durable reservation before a block's one offer, and the debt record of
    a confirmation (qbit-prism-server/src/ledger/divergence.rs).

    The database is the rows these functions read and write; a function that
    runs one transaction maps the database it sees to the one its commit
    leaves.  [reserve_offer_within] releases its first transaction before it
    reads the snapshot, so its three accesses see three databases, between which
    other frontends may have committed anything.  A statement or connection that
    fails leaves the rows of the open transaction as they were.  The JSON decoder
    of a stored snapshot and the canonical balance read are arguments. *)
From Stdlib Require Import ZArith Lia.
From coqutil Require Import Byte.
From stdpp Require Import base list strings pretty gmap.
From S2P Require Import Prelude Order BTree Bytes Crates Payee ByProgram WindowCut RewardWindow PayoutPolicy AuditBuild Codec Divergence CarryGate.

Open Scope Z_scope.

(** * Data *)
Record OverpayBound := { bound_sats : Z; ceiling_sats : Z; ceiling_bps : Z; observed_revision : Z }.
Inductive OfferReservation := Reserved (bound : option OverpayBound) | Refused (bound : OverpayBound).
Record Candidate := {
  ca_block_hash : string;
  ca_payout_revision : Z;
  ca_prior_balances_digest : list byte;
  ca_block_height : Z;
  ca_coinbase_value_sats : Z;
  ca_leased : bool;
}.
Record CandidateClaim := { candidate : Candidate; claim_token : string }.
Record SubmissionHold := { sh_reason : string; sh_set_at : string; sh_set_by : string }.

(** A row of [qbit_block_candidate_outbox]: the claim columns are NULL
    together, and [ob_next_attempt] is NULL for [infinity].  The payload and
    the columns that only record when something was written are left out. *)
Record ClaimColumns := { cm_token : string; cm_instance_id : string; cm_lease_seconds : Z; cm_renewals : Z }.
Record OfferColumns := { of_reserved_by : option string; of_offered_at_ms : option Z; of_outcome : option string; of_reply : option string }.
Record OutboxRow := {
  ob_state : string;
  ob_claim : option ClaimColumns;
  ob_offer : OfferColumns;
  ob_attempt_count : Z;
  ob_next_attempt : option Z;
  ob_last_error : option string;
}.
Definition ob_claim_token (row : OutboxRow) : option string := cm_token <$> ob_claim row.
(** A row of [qbit_prism_payout_divergences]. *)
Record DivergenceRow := {
  dv_block_height : Z;
  dv_candidate_payout_revision : option Z;
  dv_coinbase_value_sats : option Z;
  dv_as_issued : option string;
  dv_offer : option (Z * option Z * Z * string);  (* observed revision, bound, ceiling, decision *)
  dv_confirmed : option (string * Z * Z * Z * Z); (* digest, accounts, overpay, overpaid debt, pool debt *)
}.
(** Rows of [qbit_payout_carry_forward] and [qbit_pool_blocks]. *)
Record CarryForwardRow := {
  cf_block_hash : string;
  cf_p2mr_program : list byte;
  cf_miner_id : string;
  cf_prior_balance_sats : Z;
  cf_gross_amount_sats : Z;
  cf_onchain_amount_sats : Z;
  cf_maturity_state : string;
}.
Record BlockRow := { bl_height : Z; bl_chain_state : string; bl_maturity_state : string; bl_origin_node : Z }.
Record OfferDb := {
  od_fatal_error : option string;
  od_legacy_live : bool;
  od_hold : option SubmissionHold;
  od_payout_revision : Z;
  od_outbox : gmap string OutboxRow;
  od_divergences : gmap string DivergenceRow;
  od_accounts : gmap string (list AccountOverpay);
  od_snapshots : gmap string (list byte);
  od_carry : list CarryForwardRow;
  od_blocks : gmap string BlockRow;
  od_coinbases : gmap string string;
}.
Definition with_outbox (db : OfferDb) (outbox : gmap string OutboxRow) : OfferDb :=
  {| od_fatal_error := od_fatal_error db; od_legacy_live := od_legacy_live db; od_hold := od_hold db;
     od_payout_revision := od_payout_revision db; od_outbox := outbox; od_divergences := od_divergences db;
     od_accounts := od_accounts db; od_snapshots := od_snapshots db; od_carry := od_carry db;
     od_blocks := od_blocks db; od_coinbases := od_coinbases db |}.
Definition with_divergences (db : OfferDb) (rows : gmap string DivergenceRow) (accounts : gmap string (list AccountOverpay)) : OfferDb :=
  {| od_fatal_error := od_fatal_error db; od_legacy_live := od_legacy_live db; od_hold := od_hold db;
     od_payout_revision := od_payout_revision db; od_outbox := od_outbox db; od_divergences := rows;
     od_accounts := accounts; od_snapshots := od_snapshots db; od_carry := od_carry db;
     od_blocks := od_blocks db; od_coinbases := od_coinbases db |}.

(** * Guards of a transaction (ledger/connect.rs) *)
Definition check_writable (db : OfferDb) : result anyhow () :=
  match od_fatal_error db with
  | Some error => Err ["cluster halted: " +:+ error]
  | None => ensure (negb (od_legacy_live db)) "live legacy Python writer lease"
  end.
Definition writable_unless_held (db : OfferDb) : result anyhow (option SubmissionHold) :=
  _ ← check_writable db; Ok (od_hold db).
Definition submission_held (hold : SubmissionHold) : anyhow :=
  ["the cluster holds block submission, set by " +:+ sh_set_by hold +:+ " at " +:+ sh_set_at hold +:+ ": " +:+ sh_reason hold +:+
   "; no frontend claims a candidate, offers a block or sends a fanout until `qbit-prism-server submission-hold clear`"].
Definition refuse_held (db : OfferDb) : result anyhow () :=
  hold ← writable_unless_held db;
  match hold with Some hold => Err (submission_held hold) | None => Ok () end.

(** [i64::try_from(value)?]. *)
Definition to_i64 (value : Z) : result anyhow Z :=
  ok_or (checked I64 value) ["out of range integral type conversion attempted"].
(** [spawn_blocking(..).await?]: a panic of the task is an error of the caller. *)
Definition spawn_blocking {A} (r : result anyhow A) : result anyhow A :=
  match r with Panic m => Err ["task panicked: " +:+ m] | r => r end.

(** [UPDATE .. WHERE block_hash=$1 AND ..]: [None] when no row matches. *)
Definition update_where (db : OfferDb) (hash : string) (matching : OutboxRow -> bool) (set : OutboxRow -> OutboxRow) : option OfferDb :=
  row ← od_outbox db !! hash;
  if matching row then Some (with_outbox db (<[hash := set row]> (od_outbox db))) else None.
Definition held_by (token : string) (row : OutboxRow) : bool := bool_decide (ob_claim_token row = Some token).
Definition is_state (state : string) (row : OutboxRow) : bool := String.eqb (ob_state row) state.

(** * The reservation *)
Section reservation.
Context `{HexCrate, Sha256Crate} (ledger : GateLedger) (instance_id : string).
Context (decode_balances : list byte -> result anyhow (list CarryForwardBalance)).

Definition record_offer_decision (db : OfferDb) (candidate : Candidate) (observed_revision : Z)
    (bound_sats : option Z) (ceiling_sats : Z) (decision : string) : result anyhow OfferDb :=
  height ← to_i64 (ca_block_height candidate);
  value ← to_i64 (ca_coinbase_value_sats candidate);
  let offer := Some (observed_revision, bound_sats, ceiling_sats, decision) in
  let row := match od_divergences db !! ca_block_hash candidate with
    | Some row =>
        {| dv_block_height := dv_block_height row; dv_candidate_payout_revision := dv_candidate_payout_revision row;
           dv_coinbase_value_sats := dv_coinbase_value_sats row; dv_as_issued := dv_as_issued row;
           dv_offer := offer; dv_confirmed := dv_confirmed row |}
    | None =>
        {| dv_block_height := height; dv_candidate_payout_revision := Some (ca_payout_revision candidate);
           dv_coinbase_value_sats := Some value; dv_as_issued := Some (hex_encode (ca_prior_balances_digest candidate));
           dv_offer := offer; dv_confirmed := None |}
    end in
  Ok (with_divergences db (<[ca_block_hash candidate := row]> (od_divergences db)) (od_accounts db)).

Definition reserve_row (row : OutboxRow) : OutboxRow := {|
  ob_state := "offer_reserved"; ob_claim := ob_claim row;
  ob_offer := {| of_reserved_by := Some instance_id; of_offered_at_ms := of_offered_at_ms (ob_offer row);
                 of_outcome := of_outcome (ob_offer row); of_reply := of_reply (ob_offer row) |};
  ob_attempt_count := ob_attempt_count row; ob_next_attempt := ob_next_attempt row; ob_last_error := ob_last_error row |}.
Definition reserve_in (db : OfferDb) (claim : CandidateClaim) (bound : option OverpayBound)
  : result anyhow (OfferReservation * OfferDb) :=
  db ← ok_or (update_where db (ca_block_hash (candidate claim)) (fun row => held_by (claim_token claim) row && is_state "pending" row) reserve_row)
         ["candidate claim was lost or expired before the offer reservation"];
  Ok (Reserved bound, db).

Definition as_issued_snapshot (db : OfferDb) (candidate : Candidate) : result anyhow (list CarryForwardBalance) :=
  let digest := hex_encode (ca_prior_balances_digest candidate) in
  bytes ← ok_or (od_snapshots db !! digest)
    ["the as-issued balance snapshot " +:+ digest +:+ " is missing, so the overpay bound is unknown"];
  decode_balances bytes.

(** The first transaction ends the call, or leaves a bound to compute. *)
Inductive first_outcome :=
| Finished (r : OfferReservation) (db : OfferDb)
| Superseded (observed ceiling bps : Z).
Definition reserve_first (db : OfferDb) (claim : CandidateClaim) (ceiling_bps : option Z) : result anyhow first_outcome :=
  let candidate := candidate claim in
  _ ← refuse_held db;
  match ceiling_bps, ca_leased candidate with
  | Some bps, false =>
      let observed := od_payout_revision db in
      let not_current := carry_paying_not_current_now ledger (ca_prior_balances_digest candidate) in
      if (observed =? ca_payout_revision candidate) && negb not_current then
        '(r, db) ← reserve_in db claim None; Ok (Finished r db)
      else
        let ceiling := overpay_ceiling_sats (ca_coinbase_value_sats candidate) bps in
        if bps =? 0 then
          db ← record_offer_decision db candidate observed None ceiling "disabled";
          Ok (Finished (Refused {| bound_sats := 0; ceiling_sats := ceiling; ceiling_bps := bps; observed_revision := observed |}) db)
        else Ok (Superseded observed ceiling bps)
  | _, _ => '(r, db) ← reserve_in db claim None; Ok (Finished r db)
  end.
Definition reserve_second (db : OfferDb) (claim : CandidateClaim) (bound : OverpayBound)
  : result anyhow (OfferReservation * OfferDb) :=
  let candidate := candidate claim in
  let offered := bound_sats bound <=? ceiling_sats bound in
  _ ← refuse_held db;
  db ← record_offer_decision db candidate (observed_revision bound) (Some (bound_sats bound)) (ceiling_sats bound)
         (if offered then "offered" else "abandoned");
  if offered then reserve_in db claim (Some bound) else Ok (Refused bound, db).

Definition reserve_offer_within (db1 db2 db3 : OfferDb) (claim : CandidateClaim) (ceiling_bps : option Z)
  : result anyhow (OfferReservation * OfferDb) :=
  first ← reserve_first db1 claim ceiling_bps;
  match first with
  | Finished r db => Ok (r, db)
  | Superseded observed ceiling bps =>
      issued ← as_issued_snapshot db2 (candidate claim);
      bound ← spawn_blocking (overpay_bound issued);
      reserve_second db3 claim {| bound_sats := bound; ceiling_sats := ceiling; ceiling_bps := bps; observed_revision := observed |}
  end.

Definition reserve_offer (db : OfferDb) (claim : CandidateClaim) : result anyhow OfferDb :=
  '(r, db) ← reserve_offer_within db db db claim None;
  match r with Reserved _ => Ok db | Refused _ => Err ["an unbounded reservation refused its offer"] end.

Definition record_capture_disabled (db : OfferDb) (candidate : Candidate) (observed_revision : Z) : result anyhow OfferDb :=
  _ ← check_writable db;
  record_offer_decision db candidate observed_revision None 0 "disabled".
End reservation.

(** * The record of a confirmation *)
Section confirmation.
Context `{HexCrate, Sha256Crate}.

(** The block's carry rows while they do not count yet. *)
Definition carry_record_rows (db : OfferDb) (block_hash : string) : option BlockRow * list CarryForwardRow :=
  match od_blocks db !! block_hash with
  | Some block =>
      if String.eqb (bl_chain_state block) "prepared" || String.eqb (bl_chain_state block) "inactive" then
        (Some block, filter (fun r => cf_block_hash r = block_hash ∧ cf_maturity_state r ≠ "reversed") (od_carry db))
      else (None, [])
  | None => (None, [])
  end.
(** The amounts are [i64] columns; the prior is a [numeric], parsed from its text. *)
Definition carry_row (r : CarryForwardRow) : result anyhow CarryRow :=
  issued ← ok_or (checked I128 (cf_prior_balance_sats r)) ["number too large to fit in target type"];
  Ok {| cr_p2mr_program_hex := hex_encode (cf_p2mr_program r); cr_miner_id := cf_miner_id r; cr_issued_prior_sats := issued;
        cr_gross_sats := cf_gross_amount_sats r; cr_onchain_sats := cf_onchain_amount_sats r |}.
Definition with_divergent (d : LandingDivergence) (accounts : Z) : LandingDivergence :=
  {| ld_divergent_accounts := accounts; ld_overpay_sats := ld_overpay_sats d;
     ld_overpaid_debt_after_sats := ld_overpaid_debt_after_sats d; ld_pool_debt_after_sats := ld_pool_debt_after_sats d;
     ld_overpaid := ld_overpaid d |}.
(** The blocking task: a carry-free block of a dual writer is not divergent. *)
Definition confirmation_divergence (dual_writer : bool) (rows : list CarryForwardRow) (current : list CarryForwardBalance)
  : result anyhow LandingDivergence :=
  rows ← collect carry_row rows;
  let carry_free := dual_writer && carry_free_rows rows in
  d ← rows_divergence rows current;
  Ok (if carry_free && (ld_overpay_sats d =? 0) then with_divergent d 0 else d).

Definition confirmed_row (db : OfferDb) (block_hash : string) (height : Z) (candidate : option Candidate)
    (value : option Z) (confirmed : string * Z * Z * Z * Z) : DivergenceRow :=
  let revision := ca_payout_revision <$> candidate in
  let issued := (fun c => hex_encode (ca_prior_balances_digest c)) <$> candidate in
  let coalesce {A} (a b : option A) := match a with Some a => Some a | None => b end in
  match od_divergences db !! block_hash with
  | Some row =>
      {| dv_block_height := dv_block_height row;
         dv_candidate_payout_revision := coalesce (dv_candidate_payout_revision row) revision;
         dv_coinbase_value_sats := coalesce (dv_coinbase_value_sats row) value;
         dv_as_issued := coalesce (dv_as_issued row) issued;
         dv_offer := dv_offer row; dv_confirmed := Some confirmed |}
  | None =>
      {| dv_block_height := height; dv_candidate_payout_revision := revision; dv_coinbase_value_sats := value;
         dv_as_issued := issued; dv_offer := None; dv_confirmed := Some confirmed |}
  end.

(** [current] is what [read_prior_balances] reads in the transaction. *)
Definition record_confirmation (db : OfferDb) (block_hash : string) (candidate : option Candidate)
    (dual : option GateLedger) (current : list CarryForwardBalance) : result anyhow (option LandingDivergence * OfferDb) :=
  match carry_record_rows db block_hash with
  | (Some block, (_ :: _) as rows) =>
      let recorded := bool_decide (is_Some (od_divergences db !! block_hash)) in
      let found := match dual with
        | Some ledger =>
            let coinbase := hex ← od_coinbases db !! block_hash;
                            match hex_decode hex with inr bytes => Some bytes | inl _ => None end in
            found_here ledger coinbase (bool_decide (own_node ledger = Some (bl_origin_node block)))
              (bool_decide (is_Some (od_outbox db !! block_hash)))
        | None => true end in
      if negb found then Ok (None, db) else
      d ← spawn_blocking (confirmation_divergence (bool_decide (is_Some dual)) rows current);
      if (ld_divergent_accounts d =? 0) && negb recorded then Ok (Some d, db) else
      value ← match candidate with
              | Some c => v ← to_i64 (ca_coinbase_value_sats c); Ok (Some v) | None => Ok None end;
      accounts ← ok_or (if ld_divergent_accounts d <=? 2 ^ 31 - 1 then Some (ld_divergent_accounts d) else None)
                   ["out of range integral type conversion attempted"];
      let row := confirmed_row db block_hash (bl_height block) candidate value
        (hex_encode (prior_balances_digest current), accounts, ld_overpay_sats d, ld_overpaid_debt_after_sats d, ld_pool_debt_after_sats d) in
      Ok (Some d, with_divergences db (<[block_hash := row]> (od_divergences db)) (<[block_hash := ld_overpaid d]> (od_accounts db)))
  | _ => Ok (None, db)
  end.
End confirmation.

(** * What a reservation decides *)
Lemma update_where_Some db hash matching set db' :
  update_where db hash matching set = Some db' ↔
  ∃ row, od_outbox db !! hash = Some row ∧ matching row = true ∧ db' = with_outbox db (<[hash := set row]> (od_outbox db)).
Proof.
  unfold update_where. rewrite bind_Some. split.
  - intros (row & Hrow & Hm). exists row. destruct (matching row); [|done]. by injection Hm as <-.
  - intros (row & Hrow & Hm & ->). exists row. by rewrite Hm.
Qed.
Section decision.
Context `{HexCrate, Sha256Crate} (ledger : GateLedger) (instance_id : string).
Context (decode_balances : list byte -> result anyhow (list CarryForwardBalance)).
Abbreviation within := (reserve_offer_within ledger instance_id decode_balances).

Lemma reserve_in_Ok db claim bound r db' : reserve_in instance_id db claim bound = Ok (r, db') →
  r = Reserved bound ∧ ∃ row, od_outbox db !! ca_block_hash (candidate claim) = Some row ∧ ob_state row = "pending" ∧
    ob_claim_token row = Some (claim_token claim) ∧
    db' = with_outbox db (<[ca_block_hash (candidate claim) := reserve_row instance_id row]> (od_outbox db)).
Proof.
  unfold reserve_in. intros (db0 & (row & Hrow & [Ht%bool_decide_eq_true Hs%String.eqb_eq]%andb_true_iff & ->)%ok_or_Ok%update_where_Some & [= <- <-])%bind_Ok.
  split; [done|]. by exists row.
Qed.
Lemma record_offer_decision_Ok db c observed bound ceiling decision db' :
  record_offer_decision db c observed bound ceiling decision = Ok db' →
  od_outbox db' = od_outbox db ∧
  ∃ row, od_divergences db' !! ca_block_hash c = Some row ∧ dv_offer row = Some (observed, bound, ceiling, decision).
Proof.
  unfold record_offer_decision. intros (h & _ & (v & _ & [= <-])%bind_Ok)%bind_Ok. cbn. split; [done|].
  rewrite lookup_insert_eq. eexists. split; [done|]. by case_match.
Qed.

Lemma superseded_outcome db1 db2 db3 claim ceiling r db :
  within db1 db2 db3 claim ceiling = Ok (r, db) →
  (∃ db', reserve_in instance_id db1 claim None = Ok (r, db') ∧ db = db' ∧ od_hold db1 = None ∧
     (ceiling = None ∨ ca_leased (candidate claim) = true ∨
      od_payout_revision db1 = ca_payout_revision (candidate claim) ∧
      carry_paying_not_current_now ledger (ca_prior_balances_digest (candidate claim)) = false)) ∨
  (∃ bps b, ceiling = Some bps ∧ r = Refused b ∧ ceiling_bps b = bps ∧ od_outbox db = od_outbox (if bps =? 0 then db1 else db3) ∧
     (bps ≠ 0 → ceiling_sats b < bound_sats b)) ∨
  (∃ bps issued b, ceiling = Some bps ∧ bps ≠ 0 ∧ as_issued_snapshot decode_balances db2 (candidate claim) = Ok issued ∧
     overpay_bound issued = @Ok anyhow _ (bound_sats b) ∧ r = Reserved (Some b) ∧
     bound_sats b ≤ ceiling_sats b ∧ ceiling_sats b = overpay_ceiling_sats (ca_coinbase_value_sats (candidate claim)) bps ∧
     od_hold db3 = None ∧
     ∃ row drow, od_outbox db3 !! ca_block_hash (candidate claim) = Some row ∧ ob_state row = "pending" ∧
       ob_claim_token row = Some (claim_token claim) ∧
       od_outbox db !! ca_block_hash (candidate claim) =
         Some (reserve_row instance_id row) ∧
       od_divergences db !! ca_block_hash (candidate claim) = Some drow ∧
       dv_offer drow = Some (observed_revision b, Some (bound_sats b), ceiling_sats b, "offered")).
Proof.
  assert (∀ db, refuse_held db = Ok () → od_hold db = None) as Hheld.
  { intros db0 (hold & (u & _ & [= <-])%bind_Ok & Hh)%bind_Ok. by destruct (od_hold db0). }
  unfold reserve_offer_within, reserve_first. intros (first & Hf & Hr)%bind_Ok.
  apply bind_Ok in Hf as (u & Hheld1 & Hf). destruct u. apply Hheld in Hheld1.
  assert (∀ f, ('(r, db) ← reserve_in instance_id db1 claim None; Ok (Finished r db)) = Ok f → f = first →
    reserve_in instance_id db1 claim None = Ok (r, db)) as Hfin.
  { intros f Hb ->. apply bind_Ok in Hb as ([r0 db0] & Hin & [= <-]). by injection Hr as <- <-. }
  destruct ceiling as [bps|]; [|left; exists db; split_and!; auto; by eapply Hfin].
  destruct (ca_leased (candidate claim)) eqn:Hle; [left; exists db; split_and!; auto; by eapply Hfin|].
  destruct ((od_payout_revision db1 =? _) && _) eqn:Hcur.
  { left. apply andb_true_iff in Hcur as [Hrev%Z.eqb_eq Hnc%negb_true_iff]. exists db. split_and!; auto. by eapply Hfin. }
  right. destruct (bps =? 0) eqn:Hb.
  - left. apply bind_Ok in Hf as (db0 & [Ho _]%record_offer_decision_Ok & [= <-]). injection Hr as <- <-. apply Z.eqb_eq in Hb.
    exists bps. eexists. rewrite Hb. split_and!; try done. 
  - injection Hf as <-. apply Z.eqb_neq in Hb. apply bind_Ok in Hr as (issued & Hi & Hr). apply bind_Ok in Hr as (bound & Hbo & Hr).
    assert (overpay_bound issued = @Ok anyhow _ bound) as Hbound by (by destruct (overpay_bound issued)).
    unfold reserve_second in Hr. set (b := Build_OverpayBound _ _ _ _) in Hr.
    apply bind_Ok in Hr as (u & Hheld3 & Hr). destruct u. apply Hheld in Hheld3.
    apply bind_Ok in Hr as (db0 & [Ho (drow & Hd & Hoffer)]%record_offer_decision_Ok & Hr).
    destruct (bound_sats b <=? ceiling_sats b) eqn:Hle'.
    + right. apply reserve_in_Ok in Hr as (-> & row & Hrow & Hst & Htok & ->). rewrite Ho in Hrow. apply Z.leb_le in Hle'.
      exists bps, issued, b. split_and!; try done. exists row, drow. split_and!; try done. cbn. by rewrite lookup_insert_eq.
    + left. injection Hr as <- <-. apply Z.leb_gt in Hle'. exists bps, b. split_and!; try done.
      apply Z.eqb_neq in Hb. by rewrite Hb.
Qed.
End decision.

(** C6: a superseded block that is offered overpays at most the ceiling.  When
    [reserve_offer_within] reserves a block after checking a bound, the row goes
    from pending, under this claim, to reserved in the transaction that records
    the decision "offered", the bound checked is at most [bps] basis points of the
    block's coinbase value, and if the block's accounts are what the payout
    policy made of the stored as-issued balances, the debt its landing creates is
    at most that ceiling on any balances. *)
Theorem offered_overpay_within_ceiling `{HexCrate, Sha256Crate} ledger instance_id decode_balances
    db1 db2 db3 claim bps b db rm policy issued manifest current d :
  wf_policy_input rm policy → apply_payout_policy rm issued policy = Ok manifest →
  as_issued_snapshot decode_balances db2 (candidate claim) = Ok issued →
  0 ≤ ca_coinbase_value_sats (candidate claim) → 0 ≤ bps →
  reserve_offer_within ledger instance_id decode_balances db1 db2 db3 claim (Some bps) = Ok (Reserved (Some b), db) →
  landing_divergence (ppm_accounts manifest) current = @Ok anyhow _ d →
  0 ≤ ld_overpay_sats d ≤ ca_coinbase_value_sats (candidate claim) * bps / 10000 ∧
  ob_claim_token <$> od_outbox db3 !! ca_block_hash (candidate claim) = Some (Some (claim_token claim)) ∧
  ob_state <$> od_outbox db3 !! ca_block_hash (candidate claim) = Some "pending" ∧
  ob_state <$> od_outbox db !! ca_block_hash (candidate claim) = Some "offer_reserved" ∧
  (od_divergences db !! ca_block_hash (candidate claim)) ≫= dv_offer =
    Some (observed_revision b, Some (bound_sats b), ceiling_sats b, "offered").
Proof.
  intros Hwf Ha Hi Hv Hbps Hr Hd. apply superseded_outcome in Hr as [(db' & Hin%reserve_in_Ok & _)|[(bps' & b' & _ & [=] & _)|
    (bps' & issued' & b' & [= <-] & _ & Hi' & Hb & [= <-] & Hle & Hc & _ & row & drow & Hrow & Hst & Htok & Hout & Hdiv & Hoff)]].
  { by destruct Hin as [[=] _]. }
  rewrite Hi in Hi'. injection Hi' as <-. rewrite Hrow, Hout, Hdiv. cbn. rewrite Hst, Htok, Hoff. split_and!; try done.
  - by eapply (landing_within_bound rm policy issued manifest Hwf Ha (bound_sats b) current d).
  - destruct (landing_within_bound rm policy issued manifest Hwf Ha (bound_sats b) current d Hb Hd) as [_ Hub].
    unfold overpay_ceiling_sats in Hc. rewrite Z.quot_div_nonneg in Hc by lia. lia.
Qed.

(** ** Carry-free work *)
Lemma carry_free_after rows current k : carry_free_rows rows = true → before_of current k ≤ after_of rows current k.
Proof.
  unfold carry_free_rows. rewrite forallb_forall. intros Hf. unfold after_of.
  enough (keyed_sum carry_row_key cr_onchain_sats k rows ≤ keyed_sum carry_row_key cr_gross_sats k rows) by lia.
  apply sum_of_le. intros r Hr. case_decide; [|lia]. specialize (Hf r ltac:(by apply list_elem_of_In)).
  apply andb_true_iff in Hf as [_ Hf%Z.leb_le]. done.
Qed.
Lemma carry_free_no_overpay {E} rows current d : carry_free_rows rows = true → @rows_divergence E rows current = Ok d →
  ld_overpay_sats d = 0.
Proof.
  intros Hf Hd%rows_divergence_spec. destruct Hd as (-> & _). apply sum_of_zero. intros k _.
  pose proof (carry_free_after rows current k Hf). unfold debt. lia.
Qed.

(** C11: carry-free work creates no debt.  A block the policy built on no prior
    balances has carry-free rows; landing it never lowers a balance and never
    records an overpay, whatever the balances are; and a dual writer that
    confirms such rows reports no divergence and writes nothing. *)
Theorem carry_free_creates_no_debt `{HexCrate, Sha256Crate} rm policy manifest :
  wf_policy_input rm policy → apply_payout_policy rm [] policy = Ok manifest →
  carry_free_rows (landing_rows manifest) = true ∧
  (∀ current k, balance_of k current ≤ after_of (landing_rows manifest) current k) ∧
  (∀ current d, landing_divergence (ppm_accounts manifest) current = @Ok anyhow _ d → ld_overpay_sats d = 0) ∧
  (∀ db block_hash candidate ledger current d db',
     collect carry_row (carry_record_rows db block_hash).2 = Ok (landing_rows manifest) →
     od_divergences db !! block_hash = None →
     record_confirmation db block_hash candidate (Some ledger) current = Ok (d, db') →
     db' = db ∧ from_option ld_divergent_accounts 0 d = 0 ∧ from_option ld_overpay_sats 0 d = 0).
Proof.
  intros Hwf Ha. assert (carry_free_rows (landing_rows manifest) = true) as Hcf.
  { destruct (landing_rows_miners rm policy [] manifest Hwf Ha) as (miners & Hp & _ & Hok & _). unfold carry_free_rows.
    apply forallb_forall. intros r Hr%list_elem_of_In. rewrite Hp in Hr. apply list_elem_of_fmap in Hr as (a & -> & Hin).
    rewrite Forall_forall in Hok. specialize (Hok a Hin). cbn. pose proof (ma_prior _ _ _ Hok) as Hprior. cbn in Hprior.
    pose proof (ma_candidate _ _ _ Hok). pose proof (ma_gross _ _ _ Hok). pose proof (ma_action _ _ _ Hok) as Hact.
    change (program_sum (account_program a) []) with 0 in Hprior.
    apply andb_true_iff. split; [by apply Z.eqb_eq|]. apply Z.leb_le. destruct (ppa_action a); lia. }
  split_and!; [done| | |].
  - intros current k. by apply (carry_free_after _ current k).
  - intros current d. by apply carry_free_no_overpay.
  - intros db block_hash candidate ledger current d db' Hrows Hnone. unfold record_confirmation.
    destruct (carry_record_rows db block_hash) as [[block|] [|row rows]]; try (by intros [= <- <-]).
    cbn in Hrows. destruct (negb _); [by intros [= <- <-]|]. intros (d0 & Hd & Hrest)%bind_Ok.
    assert (ld_divergent_accounts d0 = 0 ∧ ld_overpay_sats d0 = 0) as [Hz Ho].
    { unfold confirmation_divergence in Hd. cbn [collect] in *. rewrite Hrows in Hd. cbn [mbind result_bind] in Hd.
      destruct (rows_divergence (landing_rows manifest) current) as [d1| |] eqn:Hd1; try done.
      pose proof (carry_free_no_overpay _ _ _ Hcf Hd1) as Hov. cbn in Hd. rewrite Hcf, Hov in Hd. cbn in Hd.
      injection Hd as <-. cbn. done. }
    rewrite Hz, Hnone in Hrest. rewrite bool_decide_false in Hrest by (by intros [? [=]]). cbn in Hrest.
    by injection Hrest as <- <-.
Qed.

(** * Concrete reservations *)
Definition example_candidate : Candidate := {|
  ca_block_hash := "b17"; ca_payout_revision := 3; ca_prior_balances_digest := prior_balances_digest example_prior_balances;
  ca_block_height := 17; ca_coinbase_value_sats := 10000; ca_leased := false |}.
Definition example_claim : CandidateClaim := {| candidate := example_candidate; claim_token := "t" |}.
Definition example_row : OutboxRow := {|
  ob_state := "pending"; ob_claim := Some {| cm_token := "t"; cm_instance_id := "node"; cm_lease_seconds := 60; cm_renewals := 0 |};
  ob_offer := {| of_reserved_by := None; of_offered_at_ms := None; of_outcome := None; of_reply := None |};
  ob_attempt_count := 1; ob_next_attempt := Some 0; ob_last_error := None |}.
Definition example_offer_db : OfferDb := {|
  od_fatal_error := None; od_legacy_live := false; od_hold := None; od_payout_revision := 4;
  od_outbox := {["b17" := example_row]};
  od_divergences := ∅; od_accounts := ∅;
  od_snapshots := {[hex_encode (prior_balances_digest example_prior_balances) := []]};
  od_carry := []; od_blocks := ∅; od_coinbases := ∅ |}.
Definition example_single_writer : GateLedger := {| dual_writer_identity := None; carry := gate_default |}.
Definition example_decode (bytes : list byte) : result anyhow (list CarryForwardBalance) := Ok example_prior_balances.
(** The revision moved from 3 to 4, and the ceiling is 20% of the coinbase value. *)
Definition example_reservation (db : OfferDb) : result anyhow (OfferReservation * OfferDb) :=
  reserve_offer_within example_single_writer "node" example_decode db db db example_claim (Some 2000).

Lemma offered_overpay_within_ceiling_witness :
  ∃ manifest d, apply_payout_policy example_reward_manifest example_prior_balances example_policy = Ok manifest ∧
    landing_divergence (ppm_accounts manifest) [] = @Ok anyhow _ d ∧ 0 ≤ ld_overpay_sats d ≤ 10000 * 2000 / 10000.
Proof.
  assert (match apply_payout_policy example_reward_manifest example_prior_balances example_policy with
    | Ok m => is_ok (E := anyhow) (landing_divergence (ppm_accounts m) []) | _ => false end = true) as Hok by (vm_compute; reflexivity).
  destruct (apply_payout_policy example_reward_manifest example_prior_balances example_policy) as [m| |] eqn:Hm; try discriminate Hok.
  apply is_ok_ex in Hok as [d Hd].
  assert (match example_reservation example_offer_db with Ok (Reserved (Some _), _) => true | _ => false end = true) as Hr
    by (vm_compute; reflexivity).
  destruct (example_reservation example_offer_db) as [[[[b|]|] db]| |] eqn:Hres; try discriminate Hr.
  exists m, d. split; [reflexivity|]. split; [exact Hd|].
  refine (proj1 (offered_overpay_within_ceiling example_single_writer "node" example_decode example_offer_db example_offer_db
    example_offer_db example_claim 2000 b db example_reward_manifest example_policy example_prior_balances m [] d
    example_policy_wf Hm _ _ _ Hres Hd)).
  - vm_compute. reflexivity.
  - discriminate.
  - discriminate.
Defined.

Lemma carry_free_creates_no_debt_witness :
  ∃ manifest d, apply_payout_policy example_reward_manifest [] example_policy = Ok manifest ∧
    landing_divergence (ppm_accounts manifest) example_prior_balances = @Ok anyhow _ d ∧ ld_overpay_sats d = 0.
Proof.
  assert (match apply_payout_policy example_reward_manifest [] example_policy with
    | Ok m => is_ok (E := anyhow) (landing_divergence (ppm_accounts m) example_prior_balances) | _ => false end = true) as Hok
    by (vm_compute; reflexivity).
  destruct (apply_payout_policy example_reward_manifest [] example_policy) as [m| |] eqn:Hm; try discriminate Hok.
  apply is_ok_ex in Hok as [d Hd]. exists m, d. split; [reflexivity|]. split; [exact Hd|].
  destruct (carry_free_creates_no_debt example_reward_manifest example_policy m example_policy_wf Hm) as (_ & _ & Hz & _).
  exact (Hz example_prior_balances d Hd).
Defined.
