(* ===== verification/CandidateOutbox.v ===== *)
(** The life of a found block's outbox row, and the one offer it gets
    (qbit-prism-server/src/ledger/candidates.rs and blocks.rs, and the offer
    phase of coordinator.rs).

    A ledger method runs one transaction on [OfferDb]; [now] is its
    [clock_timestamp()] in seconds.  The payload columns are left out of a
    row, and so are conditions on them, except where a command asks for a
    document this release wrote, which is its argument [native].  Which due row
    a claim lane selects (its ordering, and the rows other transactions have
    locked) is left open: the hash is the argument.  The
    deferred share that [finish_candidate] credits, the fanout rows that
    [deactivate_pool_block] marks, the policy fingerprints and the list of
    stopped frontends that [policy_transition] checks are in tables [OfferDb]
    has not: they only add ways for a transaction to roll back.

    The frontends of one database run as attempts, each under the token of its
    claim, and interleave in any order; an attempt may stop anywhere.  The
    staleness probe before the reservation, and the renewal and the carry
    gate's check after it, only decide whether an attempt goes on, so each step
    allows both. *)
From Stdlib Require Import ZArith Lia.
From coqutil Require Import Byte.
From stdpp Require Import base list strings gmap relations.
From S2P Require Import Prelude Order Bytes Crates Payee WindowCut RewardWindow PayoutPolicy AuditBuild AuditVerify Codec Divergence CarryGate OfferReservation.

Open Scope Z_scope.

(** * Data *)
Inductive CandidateState := Pending | OfferReserved | Offered | Reconciliation.
Definition as_str (s : CandidateState) : string :=
  match s with Pending => "pending" | OfferReserved => "offer_reserved" | Offered => "offered" | Reconciliation => "reconciliation" end.
Definition parse (state : string) : result anyhow CandidateState :=
  if String.eqb state "pending" then Ok Pending
  else if String.eqb state "offer_reserved" then Ok OfferReserved
  else if String.eqb state "offered" then Ok Offered
  else if String.eqb state "reconciliation" then Ok Reconciliation
  else Err ["claimed candidate row is in state " +:+ state +:+ ", which no claim lane selects"].
Definition ORPHANED_STATE : string := "orphaned".
Definition OFFER_NOT_SENT_REASON_PREFIX : string := "offer not sent".
(** [state IN UNFINISHED_SQL] and [state IN OFFERED_SQL]. *)
Definition unfinished (row : OutboxRow) : bool :=
  bool_decide (ob_state row ∈ ["pending"; "offer_reserved"; "offered"; "reconciliation"]).
Definition in_offer (row : OutboxRow) : bool := bool_decide (ob_state row ∈ ["offer_reserved"; "offered"; "reconciliation"]).

Inductive OfferOutcome := Accepted | Rejected | Unknown.
Definition outcome_str (o : OfferOutcome) : string :=
  match o with Accepted => "accepted" | Rejected => "rejected" | Unknown => "unknown" end.
Definition outcome_parse (o : string) : result anyhow OfferOutcome :=
  if String.eqb o "accepted" then Ok Accepted else if String.eqb o "rejected" then Ok Rejected
  else if String.eqb o "unknown" then Ok Unknown
  else Err ["claimed candidate row records offer outcome " +:+ o].

(** * The node's answer *)
(** The errors of the RPC client the coordinator tells apart, each with its
    text, and the JSON value of an answer. *)
Inductive RpcError :=
| RpcNotSentError (text : string)
| RpcRelayRefused (text : string)
| RpcReplyError (method : string) (code : option Z) (text : string)
| RpcOther (text : string).
Inductive RpcReply := ReplyNull | ReplyString (reason : string) | ReplyOther (text : string).
Definition RPC_IN_WARMUP : Z := -28.
Definition in_warmup (code : option Z) : bool := bool_decide (code = Some RPC_IN_WARMUP).
Definition offer_not_executed (r : RpcError + RpcReply) : option string :=
  match r with
  | inl (RpcNotSentError text) => Some text
  | inl (RpcRelayRefused text) => Some text
  | inl (RpcReplyError method code text) =>
      if String.eqb method "submitblock" && in_warmup code
      then Some (text +:+ "; the node was still warming up and ran no call") else None
  | _ => None
  end.
Definition error_text (e : RpcError) : string :=
  match e with RpcNotSentError t | RpcRelayRefused t | RpcReplyError _ _ t | RpcOther t => t end.
Definition classify_offer (r : RpcError + RpcReply) : OfferOutcome * option string :=
  match r with
  | inr ReplyNull => (Accepted, None)
  | inr (ReplyString reason) => (Rejected, Some reason)
  | inr (ReplyOther text) => (Unknown, Some ("unexpected submitblock reply " +:+ text))
  | inl error => (Unknown, Some (error_text error))
  end.

(** * Rows *)
Definition no_offer : OfferColumns := {| of_reserved_by := None; of_offered_at_ms := None; of_outcome := None; of_reply := None |}.
Definition new_row (now : Z) : OutboxRow := {|
  ob_state := "pending"; ob_claim := None; ob_offer := no_offer; ob_attempt_count := 0; ob_next_attempt := Some now; ob_last_error := None |}.
(** The columns a statement sets together. *)
Definition settled (row : OutboxRow) (state : string) (claim : option ClaimColumns) (offer : OfferColumns)
    (next : option Z) (error : option string) : OutboxRow := {|
  ob_state := state; ob_claim := claim; ob_offer := offer; ob_attempt_count := ob_attempt_count row;
  ob_next_attempt := next; ob_last_error := error |}.
Definition claimed (token instance_id : string) (lease_seconds : Z) (row : OutboxRow) : OutboxRow := {|
  ob_state := ob_state row;
  ob_claim := Some {| cm_token := token; cm_instance_id := instance_id; cm_lease_seconds := lease_seconds; cm_renewals := 0 |};
  ob_offer := ob_offer row; ob_attempt_count := ob_attempt_count row + 1; ob_next_attempt := ob_next_attempt row;
  ob_last_error := ob_last_error row |}.
Definition with_outcome (o : OfferColumns) (outcome : option string) : OfferColumns := {|
  of_reserved_by := of_reserved_by o; of_offered_at_ms := of_offered_at_ms o; of_outcome := outcome; of_reply := of_reply o |}.
(** [COALESCE(offer_outcome,'unknown')]. *)
Definition known_outcome (row : OutboxRow) : OfferColumns :=
  with_outcome (ob_offer row) (Some (default "unknown" (of_outcome (ob_offer row)))).
(** [BACKOFF_BOUND_SQL], in seconds. *)
Definition backoff (row : OutboxRow) : Z :=
  if is_state "reconciliation" row then Z.min 3600 (10 * ob_attempt_count row) else Z.min 60 (ob_attempt_count row).

(** * Transactions *)
Section ledger.
Context `{HexCrate, Sha256Crate} (instance_id : string).

Definition enqueue_candidate (db : OfferDb) (now : Z) (hash : string) : result anyhow (bool * OfferDb) :=
  _ ← check_writable db;
  Ok (match od_outbox db !! hash with
      | Some _ => (false, db)
      | None => (true, with_outbox db (<[hash := new_row now]> (od_outbox db)))
      end).

(** ** Claims *)
Definition lease_valid (lease_seconds : Z) : result anyhow () :=
  ensure ((1 <=? lease_seconds) && (lease_seconds <=? 600)) "invalid candidate lease duration".
Definition is_due (now : Z) (row : OutboxRow) : bool := from_option (fun at_ => at_ <=? now) false (ob_next_attempt row).
Definition lane_selects (fresh : bool) (now : Z) (row : OutboxRow) : bool :=
  (if fresh then is_state "pending" row && (ob_attempt_count row =? 0) else unfinished row)
  && is_due now row && bool_decide (ob_claim row = None).
Definition claim_candidate_lane (db : OfferDb) (now : Z) (fresh : bool) (token : string) (lease_seconds : Z) (hash : string) : option OfferDb :=
  update_where db hash (lane_selects fresh now) (claimed token instance_id lease_seconds).
(** The version of a claim an observer timed. *)
Definition is_version (token : string) (renewals : Z) (row : OutboxRow) : bool :=
  match ob_claim row with Some c => String.eqb (cm_token c) token && (cm_renewals c =? renewals) | None => false end.
Definition take_over_claim (db : OfferDb) (old_token : string) (renewals : Z) (token : string) (lease_seconds : Z) (hash : string) : option OfferDb :=
  update_where db hash (fun row => is_version old_token renewals row && unfinished row && bool_decide (is_Some (ob_next_attempt row)))
    (claimed token instance_id lease_seconds).
Definition renewed (lease_seconds : Z) (c : ClaimColumns) : ClaimColumns := {|
  cm_token := cm_token c; cm_instance_id := cm_instance_id c; cm_lease_seconds := lease_seconds; cm_renewals := cm_renewals c + 1 |}.
Definition renew_candidate_claim (db : OfferDb) (claim : CandidateClaim) (lease_seconds : Z) : result anyhow OfferDb :=
  _ ← lease_valid lease_seconds;
  _ ← check_writable db;
  ok_or (update_where db (ca_block_hash (candidate claim)) (fun row => held_by (claim_token claim) row && unfinished row)
           (fun row => settled row (ob_state row) (renewed lease_seconds <$> ob_claim row) (ob_offer row) (ob_next_attempt row) (ob_last_error row)))
    ["candidate claim was lost or expired"].
Definition release_candidate_claim (db : OfferDb) (now : Z) (claim : CandidateClaim) (error : string) : result anyhow (bool * OfferDb) :=
  _ ← check_writable db;
  Ok (match update_where db (ca_block_hash (candidate claim)) (fun row => held_by (claim_token claim) row && unfinished row)
              (fun row => settled row (ob_state row) None (ob_offer row) (Some (now + backoff row)) (Some error)) with
      | Some db => (true, db) | None => (false, db) end).
Definition retry_candidate (db : OfferDb) (now : Z) (claim : CandidateClaim) (error : string) : result anyhow OfferDb :=
  '(released, db) ← release_candidate_claim db now claim error;
  _ ← ensure released "candidate claim was lost or expired";
  Ok db.
Definition park_candidate (db : OfferDb) (hash token state reason : string) : result anyhow OfferDb :=
  ok_or (update_where db hash (fun row => held_by token row && is_state state row && unfinished row)
           (fun row => settled row (ob_state row) None (ob_offer row) None (Some reason)))
    ["candidate to park was not held by this claim"].

(** ** The offer *)
Definition record_offer (db : OfferDb) (claim : CandidateClaim) (offered_at_ms : Z) (outcome : OfferOutcome) (reply : option string)
  : result anyhow OfferDb :=
  _ ← check_writable db;
  ok_or (update_where db (ca_block_hash (candidate claim)) (fun row => held_by (claim_token claim) row && is_state "offer_reserved" row)
           (fun row => settled row "offered" (ob_claim row)
              {| of_reserved_by := of_reserved_by (ob_offer row); of_offered_at_ms := Some offered_at_ms;
                 of_outcome := Some (outcome_str outcome); of_reply := reply |} (ob_next_attempt row) (ob_last_error row)))
    ["candidate claim was lost or expired while recording the offer outcome"].
Definition release_unsent (db : OfferDb) (now : Z) (claim : CandidateClaim) (reason : string) (with_backoff : bool) : result anyhow OfferDb :=
  _ ← ensure (String.prefix OFFER_NOT_SENT_REASON_PREFIX reason)
        ("an unsent offer's reason must start with " +:+ OFFER_NOT_SENT_REASON_PREFIX);
  _ ← check_writable db;
  ok_or (update_where db (ca_block_hash (candidate claim))
           (fun row => held_by (claim_token claim) row && is_state "offer_reserved" row
                       && bool_decide (of_offered_at_ms (ob_offer row) = None) && bool_decide (of_outcome (ob_offer row) = None))
           (fun row => settled row "pending" None
              {| of_reserved_by := None; of_offered_at_ms := of_offered_at_ms (ob_offer row);
                 of_outcome := of_outcome (ob_offer row); of_reply := of_reply (ob_offer row) |}
              (Some (now + if with_backoff then Z.min 60 (ob_attempt_count row) else 0)) (Some reason)))
    ["candidate claim was lost or expired before the unsent offer was returned to pending; the reservation stays and recovers as delivery unknown"].
Definition release_unsent_offer (db : OfferDb) (now : Z) (claim : CandidateClaim) (reason : string) : result anyhow OfferDb :=
  release_unsent db now claim reason true.
Definition release_unmade_offer (db : OfferDb) (now : Z) (claim : CandidateClaim) (reason : string) : result anyhow OfferDb :=
  release_unsent db now claim reason false.
Definition is_blank (s : string) : bool := String.eqb (trim s) "".
Definition adopt_active_candidate (db : OfferDb) (claim : CandidateClaim) (evidence reason : string) : result anyhow OfferDb :=
  _ ← ensure (negb (is_blank reason) && negb (is_blank evidence)) "an adoption needs its reason and the node's evidence";
  _ ← check_writable db;
  ok_or (update_where db (ca_block_hash (candidate claim)) (fun row => held_by (claim_token claim) row && is_state "pending" row)
           (fun row => settled row "reconciliation" (ob_claim row)
              {| of_reserved_by := Some instance_id; of_offered_at_ms := of_offered_at_ms (ob_offer row);
                 of_outcome := Some "unknown"; of_reply := Some evidence |} (ob_next_attempt row) (Some reason)))
    ["candidate claim was lost or expired before the active block was adopted"].
Definition OFFERED_CLAIM_LOST : string := "candidate claim was lost or expired, or the row was never offered".
Definition reconcile_candidate (db : OfferDb) (now : Z) (claim : CandidateClaim) (reason : string) : result anyhow OfferDb :=
  _ ← ensure (negb (is_blank reason)) "a reconciliation row needs a reason";
  _ ← check_writable db;
  ok_or (update_where db (ca_block_hash (candidate claim)) (fun row => held_by (claim_token claim) row && in_offer row)
           (fun row => settled row "reconciliation" None (known_outcome row)
              (Some (now + Z.min 3600 (10 * ob_attempt_count row))) (Some reason)))
    [OFFERED_CLAIM_LOST].

(** ** Settlement (ledger/blocks.rs) *)
Definition require_claim (db : OfferDb) (claim : CandidateClaim) : result anyhow CandidateState :=
  match od_outbox db !! ca_block_hash (candidate claim) with
  | Some row => if held_by (claim_token claim) row && unfinished row then parse (ob_state row)
                else Err ["candidate claim was lost or expired"]
  | None => Err ["candidate claim was lost or expired"]
  end.
Definition is_pending (s : CandidateState) : bool := match s with Pending => true | _ => false end.
Definition require_revision (db : OfferDb) (expected : Z) : result anyhow () :=
  ensure (od_payout_revision db =? expected) "payout revision changed while observing chain state".
Definition with_blocks (db : OfferDb) (blocks : gmap string BlockRow) (payout_revision : Z) : OfferDb := {|
  od_fatal_error := od_fatal_error db; od_legacy_live := od_legacy_live db; od_hold := od_hold db;
  od_payout_revision := payout_revision; od_outbox := od_outbox db; od_divergences := od_divergences db;
  od_accounts := od_accounts db; od_snapshots := od_snapshots db; od_carry := od_carry db;
  od_blocks := blocks; od_coinbases := od_coinbases db |}.
Definition bump_revision (db : OfferDb) : OfferDb := with_blocks db (od_blocks db) (od_payout_revision db + 1).
Definition in_chain_state (block : BlockRow) (state : string) : BlockRow := {|
  bl_height := bl_height block; bl_chain_state := state; bl_maturity_state := bl_maturity_state block; bl_origin_node := bl_origin_node block |}.
(** [UPDATE qbit_pool_blocks SET chain_state=.. WHERE chain_state IN .. AND
    maturity_state='immature'], and whether it changed the row. *)
Definition move_pool_block (db : OfferDb) (hash : string) (states : list string) (state : string) : bool * OfferDb :=
  match od_blocks db !! hash with
  | Some block =>
      if bool_decide (bl_chain_state block ∈ states) && String.eqb (bl_maturity_state block) "immature"
      then (true, with_blocks db (<[hash := in_chain_state block state]> (od_blocks db)) (od_payout_revision db)) else (false, db)
  | None => (false, db)
  end.
Definition deactivate_pool_block (db : OfferDb) (hash : string) : bool * OfferDb :=
  move_pool_block db hash ["prepared"; "confirmed"] "inactive".
Definition block_is (db : OfferDb) (hash : string) (p : BlockRow -> bool) : bool := from_option p false (od_blocks db !! hash).
(** The accounting of a settlement: what it does before the outbox row ends. *)
Definition settle_accounting (dual : option GateLedger) (db : OfferDb) (claim : CandidateClaim) (state : CandidateState) (submitted : bool)
    (current : list CarryForwardBalance) : result anyhow OfferDb :=
  let hash := ca_block_hash (candidate claim) in
  if submitted then
    '(_, db) ← record_confirmation db hash (Some (candidate claim)) dual current;
    let '(changed, db) := move_pool_block db hash ["prepared"; "inactive"] "confirmed" in
    _ ← ensure (block_is db hash (fun b => String.eqb (bl_chain_state b) "confirmed"))
          "cannot confirm candidate without prepared audit and payout rows";
    Ok (if changed then bump_revision db else db)
  else
    _ ← ensure (is_pending state)
          ("cannot abandon a candidate in state " +:+ as_str state +:+ ": an offered block keeps its evidence in reconciliation");
    _ ← ensure (negb (block_is db hash (fun b => String.eqb (bl_maturity_state b) "mature"))) "cannot abandon a mature candidate";
    let '(changed, db) := deactivate_pool_block db hash in
    Ok (if changed then bump_revision db else db).
Definition finish_candidate (dual : option GateLedger) (db : OfferDb) (claim : CandidateClaim) (submitted : bool) (error : option string)
    (expected_revision : Z) (current : list CarryForwardBalance) : result anyhow OfferDb :=
  _ ← check_writable db;
  _ ← require_revision db expected_revision;
  state ← require_claim db claim;
  db ← settle_accounting dual db claim state submitted current;
  Ok (default db (update_where db (ca_block_hash (candidate claim)) (held_by (claim_token claim))
        (fun row => settled row (if submitted then "submitted" else "abandoned") None
           (if in_offer row then known_outcome row else ob_offer row) (ob_next_attempt row) error))).
Definition orphan_candidate (db : OfferDb) (claim : CandidateClaim) (reason : string) (expected_revision : Z) : result anyhow OfferDb :=
  let hash := ca_block_hash (candidate claim) in
  _ ← ensure (negb (is_blank reason)) "an orphaned row needs the chain's evidence as its reason";
  _ ← check_writable db;
  _ ← require_revision db expected_revision;
  state ← require_claim db claim;
  _ ← ensure (negb (is_pending state))
        "cannot settle a pending candidate as orphaned: a block that was never offered is abandoned, not orphaned";
  _ ← match od_blocks db !! hash with
      | Some block =>
          ensure (negb (String.eqb (bl_chain_state block) "confirmed") && String.eqb (bl_maturity_state block) "immature")
            ("cannot settle candidate " +:+ hash +:+ " as orphaned: its block is " +:+ bl_chain_state block +:+ " and " +:+
             bl_maturity_state block +:+ " in the ledger")
      | None => Ok () end;
  let '(changed, db) := deactivate_pool_block db hash in
  let db := if changed then bump_revision db else db in
  ok_or (update_where db hash (fun row => held_by (claim_token claim) row && in_offer row)
           (fun row => settled row ORPHANED_STATE None (known_outcome row) (ob_next_attempt row) (Some reason)))
    [OFFERED_CLAIM_LOST].

(** ** Operator commands and the clock *)
(** Which claim may be taken: none or the version watched for its lease, or
    one the database clock shows [expired]. *)
Inductive RecoveryTakeover := Observed (taken : option (string * Z)) | DatabaseClock (expired : bool).
Definition claimable (takeover : RecoveryTakeover) (row : OutboxRow) : bool :=
  match takeover with
  | Observed taken =>
      bool_decide (ob_claim row = None) || match taken with Some (token, renewals) => is_version token renewals row | None => false end
  | DatabaseClock expired => bool_decide (ob_claim row = None) || expired
  end.
Definition claim_candidate_for_recovery (db : OfferDb) (hash : string) (lease_seconds : Z) (token : string)
    (takeover : RecoveryTakeover) (native : bool) : result anyhow (option OfferDb) :=
  _ ← lease_valid lease_seconds;
  _ ← check_writable db;
  Ok (update_where db hash (fun row => unfinished row && claimable takeover row && native) (claimed token instance_id lease_seconds)).
(** [reason] is what [bounded_reason] leaves of it. *)
Definition release_recovery_token (db : OfferDb) (now : Z) (hash token reason : string) : result anyhow (bool * OfferDb) :=
  _ ← check_writable db;
  Ok (match update_where db hash (fun row => held_by token row && unfinished row)
              (fun row => settled row (ob_state row) None (ob_offer row)
                 (Z.min (now + backoff row) <$> ob_next_attempt row) (Some reason)) with
      | Some db => (true, db) | None => (false, db) end).
Definition abandon_candidate (db : OfferDb) (hash reason : string) (takeover : RecoveryTakeover) (native : bool) : result anyhow (option OfferDb) :=
  _ ← check_writable db;
  Ok (update_where db hash
        (fun row => is_state "pending" row && native && claimable takeover row && bool_decide (od_blocks db !! hash = None))
        (fun row => settled row "abandoned" None (ob_offer row) (ob_next_attempt row) (Some reason))).
Definition revoked (now : Z) (due_now : bool) (row : OutboxRow) : OutboxRow :=
  settled row (ob_state row)
    ((fun c => {| cm_token := cm_token c; cm_instance_id := cm_instance_id c; cm_lease_seconds := 0; cm_renewals := cm_renewals c |}) <$> ob_claim row)
    (ob_offer row) (if due_now then Some now else ob_next_attempt row) (ob_last_error row).
Definition revoke_candidate_claims (db : OfferDb) (now : Z) (hash : option string) (due_now : bool) : OfferDb :=
  with_outbox db (match hash with
    | Some hash => alter (revoked now due_now) hash (od_outbox db)
    | None => revoked now due_now <$> od_outbox db end).
(** A poll makes an unclaimed row due whose schedule the clock stepped back
    over. *)
Definition made_due (db : OfferDb) (now : Z) (hash : string) : option OfferDb :=
  update_where db hash
    (fun row => unfinished row && bool_decide (ob_claim row = None) && from_option (fun at_ => now <? at_) false (ob_next_attempt row))
    (fun row => settled row (ob_state row) (ob_claim row) (ob_offer row) (Some now) (ob_last_error row)).
Definition superseded_row (now : Z) (row : OutboxRow) : OutboxRow :=
  if is_state "pending" row then settled row "abandoned" None (ob_offer row) (ob_next_attempt row) (Some "epoch-superseded")
  else if in_offer row then settled row (ob_state row) None (ob_offer row) ((fun _ => now) <$> ob_next_attempt row) (ob_last_error row)
  else row.
Definition policy_transition (db : OfferDb) (now : Z) : result anyhow OfferDb :=
  _ ← check_writable db;
  _ ← ensure (forallb (fun '(hash, row) => negb (is_state "pending" row) || bool_decide (od_blocks db !! hash = None)) (map_to_list (od_outbox db)))
        "reconcile pending candidates with landed blocks before policy-transition";
  Ok (bump_revision (with_outbox db (superseded_row now <$> od_outbox db))).
End ledger.

(** * The frontends *)
(** What a claim reads of its row's life, and what its attempt then does. *)
Definition decode_lifecycle (row : OutboxRow) : result anyhow (CandidateState * option OfferOutcome) :=
  state ← parse (ob_state row);
  outcome ← match of_outcome (ob_offer row) with Some o => o ← outcome_parse o; Ok (Some o) | None => Ok None end;
  Ok (state, outcome).
Inductive Dispatch := Offers | Settles (outcome : OfferOutcome) (reply : option string).
Definition process_candidate_inner (state : CandidateState) (outcome : option OfferOutcome) (offer : OfferColumns) : result anyhow Dispatch :=
  match state with
  | Pending => Ok Offers
  | OfferReserved =>
      Ok (Settles Unknown (Some ("offer reservation recovered from " +:+ default "an unknown instance" (of_reserved_by offer) +:+
        ": the submitblock call may or may not have been made and its outcome was never recorded; delivery unknown")))
  | Offered | Reconciliation =>
      outcome ← ok_or outcome ["offered candidate row records no offer outcome"];
      Ok (Settles outcome (of_reply offer))
  end.
Definition dispatch (row : OutboxRow) : result anyhow Dispatch :=
  '(state, outcome) ← decode_lifecycle row; process_candidate_inner state outcome (ob_offer row).

(** Where [offer_candidate] is: before its reservation, between the
    reservation's two transactions with the bound still to compute or computed,
    with the reservation, and with the call's result. *)
Inductive offer_pc :=
| AtOffer
| AtSnapshot (observed ceiling bps : Z)
| AtSecond (bound : OverpayBound)
| HoldsReservation
| CallReturned (r : RpcError + RpcReply).
Record Attempt := { at_claim : CandidateClaim; at_pc : offer_pc }.
(** What happens to a block's offer, newest first: [Ran] is a call that ran on
    the node, or may have. *)
Inductive OfferEvent := Reserve (hash token : string) | Release (hash token : string) | Ran (hash token : string).
(** What the client and the node document of a call that cannot have run: its
    request was never written to a connection, a client built without relay
    refused it before sending, or the node answered it from its warmup, in
    which it dispatches no call. *)
Inductive cannot_have_run : RpcError + RpcReply -> Prop :=
| never_written text : cannot_have_run (inl (RpcNotSentError text))
| relay_refused text : cannot_have_run (inl (RpcRelayRefused text))
| answered_in_warmup text : cannot_have_run (inl (RpcReplyError "submitblock" (Some (-28)) text)).
(** Attempts by the token of their claim. *)
Record System := { sy_db : OfferDb; sy_attempts : gmap string Attempt; sy_log : list OfferEvent }.
Definition sys_init (db : OfferDb) : System := {| sy_db := db; sy_attempts := ∅; sy_log := [] |}.

Section system.
Context `{HexCrate, Sha256Crate}.

(** A claim of the row [hash] by a lane or a takeover. *)
Inductive claims (db : OfferDb) (token hash : string) (db' : OfferDb) : Prop :=
| claims_lane instance_id now fresh lease : claim_candidate_lane instance_id db now fresh token lease hash = Some db' → claims db token hash db'
| claims_takeover instance_id old renewals lease : take_over_claim instance_id db old renewals token lease hash = Some db' → claims db token hash db'.

(** The transactions any frontend or operator may run at any time, whatever
    its attempt believes, and every change that leaves the outbox alone. *)
Inductive ledger_tx (db : OfferDb) : OfferDb -> Prop :=
| tx_enqueue now hash b db' : enqueue_candidate db now hash = Ok (b, db') → ledger_tx db db'
| tx_renew claim lease db' : renew_candidate_claim db claim lease = Ok db' → ledger_tx db db'
| tx_release now claim error b db' : release_candidate_claim db now claim error = Ok (b, db') → ledger_tx db db'
| tx_park hash token state reason db' : park_candidate db hash token state reason = Ok db' → ledger_tx db db'
| tx_adopt instance_id claim evidence reason db' : adopt_active_candidate instance_id db claim evidence reason = Ok db' → ledger_tx db db'
| tx_reconcile now claim reason db' : reconcile_candidate db now claim reason = Ok db' → ledger_tx db db'
| tx_finish dual claim submitted error revision current db' :
    finish_candidate dual db claim submitted error revision current = Ok db' → ledger_tx db db'
| tx_orphan claim reason revision db' : orphan_candidate db claim reason revision = Ok db' → ledger_tx db db'
| tx_recovery_claim instance_id hash lease token takeover native db' :
    claim_candidate_for_recovery instance_id db hash lease token takeover native = Ok (Some db') → ledger_tx db db'
| tx_recovery_release now hash token reason b db' : release_recovery_token db now hash token reason = Ok (b, db') → ledger_tx db db'
| tx_abandon hash reason takeover native db' : abandon_candidate db hash reason takeover native = Ok (Some db') → ledger_tx db db'
| tx_revoke now hash due_now : ledger_tx db (revoke_candidate_claims db now hash due_now)
| tx_made_due now hash db' : made_due db now hash = Some db' → ledger_tx db db'
| tx_policy now db' : policy_transition db now = Ok db' → ledger_tx db db'
| tx_other db' : od_outbox db' = od_outbox db → ledger_tx db db'.

(** The attempt under [token] goes on at [pc], or is gone: its reply was lost,
    it failed, or it is past the offer. *)
Definition goes_on (s : System) (token : string) (a : Attempt) (pc : option offer_pc) : gmap string Attempt :=
  match pc with
  | Some pc => <[token := {| at_claim := at_claim a; at_pc := pc |}]> (sy_attempts s)
  | None => delete token (sy_attempts s)
  end.
Definition reserved_hash (a : Attempt) : string := ca_block_hash (candidate (at_claim a)).
Definition at_pc_of (s : System) (token : string) (a : Attempt) (pc : offer_pc) : Prop :=
  sy_attempts s !! token = Some a ∧ at_pc a = pc.
Definition stays (pc : offer_pc) (pc' : option offer_pc) : Prop := pc' = Some pc ∨ pc' = None.

Inductive sys_step (s : System) : System -> Prop :=
| sys_ledger db' : ledger_tx (sy_db s) db' → sys_step s {| sy_db := db'; sy_attempts := sy_attempts s; sy_log := sy_log s |}
(* a claim whose row cannot be decoded, or that settles, starts no offer *)
| sys_claim token hash db' : claims (sy_db s) token hash db' →
    sys_step s {| sy_db := db'; sy_attempts := sy_attempts s; sy_log := sy_log s |}
| sys_claim_offers token hash db' row claim :
    claims (sy_db s) token hash db' → od_outbox db' !! hash = Some row → dispatch row = Ok Offers →
    ca_block_hash (candidate claim) = hash → claim_token claim = token → sy_attempts s !! token = None →
    sys_step s {| sy_db := db'; sy_attempts := <[token := {| at_claim := claim; at_pc := AtOffer |}]> (sy_attempts s); sy_log := sy_log s |}
| sys_stop token : sys_step s {| sy_db := sy_db s; sy_attempts := delete token (sy_attempts s); sy_log := sy_log s |}
| sys_reserve_first ledger instance_id token a bps bound db' pc' :
    at_pc_of s token a AtOffer → reserve_first ledger instance_id (sy_db s) (at_claim a) bps = Ok (Finished (Reserved bound) db') →
    stays HoldsReservation pc' →
    sys_step s {| sy_db := db'; sy_attempts := goes_on s token a pc'; sy_log := Reserve (reserved_hash a) token :: sy_log s |}
| sys_refuse_first ledger instance_id token a bps b db' :
    at_pc_of s token a AtOffer → reserve_first ledger instance_id (sy_db s) (at_claim a) bps = Ok (Finished (Refused b) db') →
    sys_step s {| sy_db := db'; sy_attempts := goes_on s token a None; sy_log := sy_log s |}
| sys_superseded ledger instance_id token a bps observed ceiling b :
    at_pc_of s token a AtOffer → reserve_first ledger instance_id (sy_db s) (at_claim a) bps = Ok (Superseded observed ceiling b) →
    sys_step s {| sy_db := sy_db s; sy_attempts := goes_on s token a (Some (AtSnapshot observed ceiling b)); sy_log := sy_log s |}
| sys_bound decode_balances token a observed ceiling bps issued bound :
    at_pc_of s token a (AtSnapshot observed ceiling bps) →
    as_issued_snapshot decode_balances (sy_db s) (candidate (at_claim a)) = Ok issued → spawn_blocking (overpay_bound issued) = Ok bound →
    sys_step s {| sy_db := sy_db s; sy_log := sy_log s;
      sy_attempts := goes_on s token a (Some (AtSecond {| bound_sats := bound; ceiling_sats := ceiling; ceiling_bps := bps; observed_revision := observed |})) |}
| sys_reserve_second instance_id token a b bound db' pc' :
    at_pc_of s token a (AtSecond b) → reserve_second instance_id (sy_db s) (at_claim a) b = Ok (Reserved bound, db') →
    stays HoldsReservation pc' →
    sys_step s {| sy_db := db'; sy_attempts := goes_on s token a pc'; sy_log := Reserve (reserved_hash a) token :: sy_log s |}
| sys_refuse_second instance_id token a b b' db' :
    at_pc_of s token a (AtSecond b) → reserve_second instance_id (sy_db s) (at_claim a) b = Ok (Refused b', db') →
    sys_step s {| sy_db := db'; sy_attempts := goes_on s token a None; sy_log := sy_log s |}
(* the gate moved: nothing is sent *)
| sys_unmade token a now reason db' :
    at_pc_of s token a HoldsReservation → release_unmade_offer (sy_db s) now (at_claim a) reason = Ok db' →
    sys_step s {| sy_db := db'; sy_attempts := goes_on s token a None; sy_log := Release (reserved_hash a) token :: sy_log s |}
(* submitblock *)
| sys_call token a r (ran : bool) pc' :
    at_pc_of s token a HoldsReservation → (ran = true → ¬ cannot_have_run r) → stays (CallReturned r) pc' →
    sys_step s {| sy_db := sy_db s; sy_attempts := goes_on s token a pc';
      sy_log := if ran then Ran (reserved_hash a) token :: sy_log s else sy_log s |}
| sys_unsent token a r why now reason db' :
    at_pc_of s token a (CallReturned r) → offer_not_executed r = Some why → release_unsent_offer (sy_db s) now (at_claim a) reason = Ok db' →
    sys_step s {| sy_db := db'; sy_attempts := goes_on s token a None; sy_log := Release (reserved_hash a) token :: sy_log s |}
| sys_record token a r offered_at_ms db' :
    at_pc_of s token a (CallReturned r) → offer_not_executed r = None →
    record_offer (sy_db s) (at_claim a) offered_at_ms (classify_offer r).1 (classify_offer r).2 = Ok db' →
    sys_step s {| sy_db := db'; sy_attempts := goes_on s token a None; sy_log := sy_log s |}.
End system.

(** * What is promised: one offer *)
(** The life of a block's offer: free, held by a token, or sent under it. *)
Inductive offer_phase := Free | Held (token : string) | Sent (token : string).
Definition offer_step (hash : string) (event : OfferEvent) (p : option offer_phase) : option offer_phase :=
  match event, p with
  | Reserve h t, Some p => if String.eqb h hash then match p with Free => Some (Held t) | _ => None end else Some p
  | Release h t, Some p =>
      if String.eqb h hash then match p with Held t' => if String.eqb t t' then Some Free else None | _ => None end else Some p
  | Ran h t, Some p =>
      if String.eqb h hash then match p with Held t' => if String.eqb t t' then Some (Sent t) else None | _ => None end else Some p
  | _, None => None
  end.
(** The phase a log leaves the block in, if the log is a legal one. *)
Definition offer_run (hash : string) (log : list OfferEvent) : option offer_phase := foldr (offer_step hash) (Some Free) log.
Definition is_ran (hash : string) (event : OfferEvent) : bool := match event with Ran h _ => String.eqb h hash | _ => false end.
Fixpoint times_ran (hash : string) (log : list OfferEvent) : nat :=
  match log with [] => 0 | event :: log => (if is_ran hash event then 1 else 0) + times_ran hash log end.
(** A row that keeps its offer: not pending, not abandoned, its reservation
    recorded. *)
Definition keeps_offer (row : OutboxRow) : Prop :=
  ob_state row ∈ ["offer_reserved"; "offered"; "reconciliation"; "submitted"; ORPHANED_STATE] ∧ is_Some (of_reserved_by (ob_offer row)).

(** ** Logs *)
Definition event_hash (e : OfferEvent) : string := match e with Reserve h _ | Release h _ | Ran h _ => h end.
Lemma offer_run_other hash e log : event_hash e ≠ hash → offer_run hash (e :: log) = offer_run hash log.
Proof.
  intros Hne%String.eqb_neq. unfold offer_run. cbn [foldr]. destruct e, (foldr _ _ log); cbn in *; try done; by rewrite Hne.
Qed.
(** What a legal log says of the calls in it. *)
Lemma offer_run_ran hash log p : offer_run hash log = Some p →
  times_ran hash log = (match p with Sent _ => 1 | _ => 0 end)%nat ∧ ∀ t, Ran hash t ∈ log → p = Sent t.
Proof.
  revert p. induction log as [|e log IH]; intros p.
  { intros [= <-]. split; [done|]. intros t Ht. by apply not_elem_of_nil in Ht. }
  destruct (decide (event_hash e = hash)) as [<-|Hne].
  - unfold offer_run. cbn [foldr]. fold (offer_run (event_hash e) log). intros Hp.
    destruct (offer_run (event_hash e) log) as [q|]; [|by destruct e]. destruct (IH q eq_refl) as [Hn Hin]. cbn [times_ran]. rewrite Hn.
    destruct e as [h t|h t|h t]; cbn in *; rewrite String.eqb_refl in *; destruct q as [|t'|t']; try done;
      try (destruct (String.eqb_spec t t') as [->|]; [|done]); injection Hp as <-; (split; [done|]); intros u [Hu|Hu]%elem_of_cons;
      first [discriminate Hu | by apply Hin in Hu | by injection Hu as ->].
  - rewrite offer_run_other by done. intros Hp. destruct (IH p Hp) as [Hn Hin]. split.
    + cbn [times_ran]. rewrite Hn. destruct e as [h t|h t|h t]; cbn in *; [done..|]. by rewrite (proj2 (String.eqb_neq h hash) Hne).
    + intros t [<-|Ht]%elem_of_cons; [done|by apply Hin].
Qed.

(** ** Rows that keep their offer *)
Definition keeps_offer_at (db db' : OfferDb) (hash : string) : Prop :=
  ∀ row, od_outbox db !! hash = Some row → keeps_offer row → ∃ row', od_outbox db' !! hash = Some row' ∧ keeps_offer row'.
Definition keeps (db db' : OfferDb) : Prop := ∀ hash, keeps_offer_at db db' hash.
Lemma keeps_refl db : keeps db db.
Proof. intros hash row. eauto. Qed.
Lemma keeps_same db db' : od_outbox db' = od_outbox db → keeps db db'.
Proof. intros He hash row. rewrite He. eauto. Qed.
Lemma keeps_map db (f : OutboxRow -> OutboxRow) : (∀ row, keeps_offer row → keeps_offer (f row)) → keeps db (with_outbox db (f <$> od_outbox db)).
Proof. intros Hf hash row Hrow Hk. cbn. rewrite lookup_fmap, Hrow. eauto. Qed.
Lemma update_where_keeps db hash matching set db' :
  (∀ row, matching row = true → keeps_offer row → keeps_offer (set row)) → update_where db hash matching set = Some db' → keeps db db'.
Proof.
  intros Hs (row & Hrow & Hm & ->)%update_where_Some h row' Hrow' Hk. cbn. destruct (decide (h = hash)) as [->|Hne].
  - rewrite lookup_insert_eq. rewrite Hrow in Hrow'. injection Hrow' as <-. eauto.
  - rewrite lookup_insert_ne by done. eauto.
Qed.
Lemma keeps_not_pending row : keeps_offer row → is_state "pending" row = false.
Proof. intros [Hs _]. unfold is_state. apply String.eqb_neq. intros He. rewrite He in Hs. set_solver. Qed.
(** A statement that keeps the offer's reservation and moves the state of a
    row in the offer only within it. *)
Lemma settled_keeps row state claim offer next error :
  keeps_offer row → of_reserved_by offer = of_reserved_by (ob_offer row) →
  state = ob_state row ∨ state ∈ ["offered"; "reconciliation"; "submitted"; ORPHANED_STATE] → keeps_offer (settled row state claim offer next error).
Proof. intros [Hs Hr] Ho Hst. split; cbn; [|by rewrite Ho]. destruct Hst as [->|Hst]; [done|]. set_solver. Qed.
Lemma claimed_keeps token instance_id lease row : keeps_offer row → keeps_offer (claimed token instance_id lease row).
Proof. done. Qed.

(** The update at the end of a transaction. *)
Ltac in_update H := repeat (apply bind_Ok in H as (? & _ & H)); apply ok_or_Ok in H.
Ltac keeps_row := intros row Hm Hk; first
  [ by apply settled_keeps; [|done|left]
  | by apply settled_keeps; [|done|right; set_solver]
  | by apply claimed_keeps
  | exfalso; apply keeps_not_pending in Hk; rewrite !andb_true_iff in Hm; rewrite Hk in Hm; intuition done ].
Ltac keeps_update H := eapply update_where_keeps; [|exact H]; keeps_row.

Section invariant.
Context `{HexCrate, Sha256Crate}.

Lemma move_pool_block_outbox db hash states state : od_outbox (move_pool_block db hash states state).2 = od_outbox db.
Proof. unfold move_pool_block. by repeat case_match. Qed.
Lemma record_confirmation_outbox db hash c dual current d db' :
  record_confirmation db hash c dual current = Ok (d, db') → od_outbox db' = od_outbox db.
Proof.
  unfold record_confirmation. intros Hr. destruct (carry_record_rows db hash) as [[block|] [|row rows]]; try (by injection Hr as <- <-).
  destruct (negb _); [by injection Hr as <- <-|]. apply bind_Ok in Hr as (d0 & _ & Hr).
  destruct (_ && _); [by injection Hr as <- <-|]. apply bind_Ok in Hr as (value & _ & (accounts & _ & [= <- <-])%bind_Ok). done.
Qed.
Lemma settle_accounting_Ok dual db claim state submitted current db' :
  settle_accounting dual db claim state submitted current = Ok db' →
  od_outbox db' = od_outbox db ∧ (submitted = true ∨ is_pending state = true).
Proof.
  unfold settle_accounting. destruct submitted.
  - intros ([d db1] & Hc%record_confirmation_outbox & Hr)%bind_Ok. split; [|by left]. rewrite <- Hc.
    pose proof (move_pool_block_outbox db1 (ca_block_hash (candidate claim)) ["prepared"; "inactive"] "confirmed") as Hm.
    destruct (move_pool_block _ _ _ _) as [changed db2]. apply bind_Ok in Hr as (_ & _ & [= <-]). by destruct changed.
  - intros (_ & Hp%ensure_Ok & (_ & _ & Hr)%bind_Ok)%bind_Ok. split; [|by right].
    pose proof (move_pool_block_outbox db (ca_block_hash (candidate claim)) ["prepared"; "confirmed"] "inactive") as Hm.
    unfold deactivate_pool_block in Hr. destruct (move_pool_block _ _ _ _) as [changed db2]. injection Hr as <-. by destruct changed.
Qed.
Lemma keeps_same_l db1 db2 db' : od_outbox db1 = od_outbox db2 → keeps db1 db' → keeps db2 db'.
Proof. intros He Hk hash row. rewrite <- He. apply Hk. Qed.
Lemma finish_keeps dual db claim submitted error revision current db' :
  finish_candidate dual db claim submitted error revision current = Ok db' → keeps db db'.
Proof.
  unfold finish_candidate.
  intros (_ & _ & (_ & _ & (state & Hst & (db1 & [Ho Hg]%settle_accounting_Ok & [= <-])%bind_Ok)%bind_Ok)%bind_Ok)%bind_Ok.
  apply (keeps_same_l db1); [done|]. destruct (update_where _ _ _ _) as [db'|] eqn:Hu; cbn; [|apply keeps_refl].
  apply update_where_Some in Hu as (row & Hrow & Hheld & ->). unfold require_claim in Hst. rewrite <- Ho, Hrow, Hheld in Hst.
  intros h row' Hrow' Hk. cbn. destruct (decide (h = ca_block_hash (candidate claim))) as [->|Hne]; [|rewrite lookup_insert_ne by done; eauto].
  rewrite lookup_insert_eq. rewrite Hrow in Hrow'. injection Hrow' as <-. eexists. split; [done|].
  destruct submitted; [apply settled_keeps; [done|by destruct (in_offer row)|right; set_solver]|exfalso].
  destruct Hg as [|Hg]; [done|]. destruct (unfinished row), state; try done. apply keeps_not_pending in Hk.
  unfold parse, is_state in *. cbn in Hst. rewrite Hk in Hst. by repeat case_match.
Qed.
Lemma orphan_keeps db claim reason revision db' : orphan_candidate db claim reason revision = Ok db' → keeps db db'.
Proof.
  unfold orphan_candidate. intros Ht. do 6 (apply bind_Ok in Ht as (? & _ & Ht)).
  pose proof (move_pool_block_outbox db (ca_block_hash (candidate claim)) ["prepared"; "confirmed"] "inactive") as Ho.
  unfold deactivate_pool_block in Ht. destruct (move_pool_block _ _ _ _) as [changed db2]. apply ok_or_Ok in Ht.
  apply (keeps_same_l (if changed then bump_revision db2 else db2)); [by destruct changed|]. keeps_update Ht.
Qed.
Lemma ledger_tx_keeps db db' : ledger_tx db db' → keeps db db'.
Proof.
  destruct 1 as [now hash b db' Ht|claim lease db' Ht|now claim error b db' Ht|hash token state reason db' Ht|instance_id claim evidence reason db' Ht
    |now claim reason db' Ht|dual claim submitted error revision current db' Ht|claim reason revision db' Ht|instance_id hash lease token takeover native db' Ht
    |now hash token reason b db' Ht|hash reason takeover native db' Ht|now hash due_now|now hash db' Ht|now db' Ht|db' Ht].
  - apply bind_Ok in Ht as (? & _ & Ht). destruct (od_outbox db !! hash) eqn:Hh; injection Ht as <- <-; [apply keeps_refl|].
    intros h row Hrow Hk. cbn. rewrite lookup_insert_ne by congruence. eauto.
  - in_update Ht. keeps_update Ht.
  - apply bind_Ok in Ht as (? & _ & Ht). destruct (update_where _ _ _ _) as [db0|] eqn:Hu; injection Ht as <- <-; [keeps_update Hu|apply keeps_refl].
  - in_update Ht. keeps_update Ht.
  - in_update Ht. keeps_update Ht.
  - in_update Ht. keeps_update Ht.
  - by eapply finish_keeps.
  - by eapply orphan_keeps.
  - do 2 (apply bind_Ok in Ht as (? & _ & Ht)). injection Ht as Ht. keeps_update Ht.
  - apply bind_Ok in Ht as (? & _ & Ht). destruct (update_where _ _ _ _) as [db0|] eqn:Hu; injection Ht as <- <-; [keeps_update Hu|apply keeps_refl].
  - apply bind_Ok in Ht as (? & _ & Ht). injection Ht as Ht. keeps_update Ht.
  - assert (∀ row, keeps_offer row → keeps_offer (revoked now due_now row)) as Hr by done.
    destruct hash as [hash|]; [|by apply keeps_map]. intros h row Hrow Hk. cbn. destruct (decide (h = hash)) as [->|Hne].
    + rewrite lookup_alter_eq, Hrow. cbn. eauto.
    + rewrite lookup_alter_ne by done. eauto.
  - keeps_update Ht.
  - do 2 (apply bind_Ok in Ht as (? & _ & Ht)). injection Ht as <-. apply (keeps_map db (superseded_row now)). intros row Hk. unfold superseded_row. rewrite (keeps_not_pending row Hk).
    by destruct (in_offer row).
  - by apply keeps_same.
Qed.
Lemma claims_keeps db token hash db' : claims db token hash db' → keeps db db'.
Proof. intros [instance_id now fresh lease Hu|instance_id old renewals lease Hu]; keeps_update Hu. Qed.
Lemma record_offer_keeps db claim at_ outcome reply db' : record_offer db claim at_ outcome reply = Ok db' → keeps db db'.
Proof. intros Ht. in_update Ht. keeps_update Ht. Qed.

(** What a reservation and a release do to the outbox. *)
Definition reserves (db : OfferDb) (claim : CandidateClaim) (db' : OfferDb) : Prop :=
  ∃ instance_id row, od_outbox db !! ca_block_hash (candidate claim) = Some row ∧ ob_state row = "pending" ∧
    ob_claim_token row = Some (claim_token claim) ∧
    od_outbox db' = <[ca_block_hash (candidate claim) := reserve_row instance_id row]> (od_outbox db).
Lemma reserve_in_reserves instance_id db claim bound r db' : reserve_in instance_id db claim bound = Ok (r, db') → reserves db claim db'.
Proof. intros (_ & row & ? & ? & ? & ->)%reserve_in_Ok. by exists instance_id, row. Qed.
Lemma reserve_first_outbox ledger instance_id db claim bps r db' :
  reserve_first ledger instance_id db claim bps = Ok (Finished r db') →
  match r with Reserved _ => reserves db claim db' | Refused _ => od_outbox db' = od_outbox db end.
Proof.
  unfold reserve_first. intros (_ & _ & Hr)%bind_Ok.
  assert (∀ x, ('(r, db) ← reserve_in instance_id db claim None; Ok (Finished r db)) = Ok x → x = Finished r db' →
    match r with Reserved _ => reserves db claim db' | Refused _ => od_outbox db' = od_outbox db end) as Hin.
  { intros x ([r0 db0] & Hi & [= <-])%bind_Ok [= -> ->]. pose proof (reserve_in_Ok _ _ _ _ _ _ Hi) as [-> _]. by eapply reserve_in_reserves. }
  destruct bps as [bps|]; [|by eapply Hin]. destruct (ca_leased (candidate claim)); [by eapply Hin|].
  destruct (_ && _); [by eapply Hin|]. destruct (bps =? 0); [|done].
  apply bind_Ok in Hr as (db0 & [Ho _]%record_offer_decision_Ok & [= <- <-]). done.
Qed.
Lemma reserve_second_outbox instance_id db claim b r db' :
  reserve_second instance_id db claim b = Ok (r, db') →
  match r with Reserved _ => reserves db claim db' | Refused _ => od_outbox db' = od_outbox db end.
Proof.
  unfold reserve_second. intros (_ & _ & (db0 & [Ho _]%record_offer_decision_Ok & Hr)%bind_Ok)%bind_Ok.
  destruct (_ <=? _); [|by injection Hr as <- <-]. pose proof (reserve_in_Ok _ _ _ _ _ _ Hr) as (-> & row & Hrow & ? & ? & ->).
  rewrite Ho in Hrow. exists instance_id, row. cbn. by rewrite Ho.
Qed.
Lemma release_unsent_outbox db now claim reason with_backoff db' :
  release_unsent db now claim reason with_backoff = Ok db' → ∀ h, h ≠ ca_block_hash (candidate claim) → od_outbox db' !! h = od_outbox db !! h.
Proof. intros Ht. in_update Ht. apply update_where_Some in Ht as (row & _ & _ & ->). intros h Hne. cbn. by rewrite lookup_insert_ne. Qed.

(** ** The invariant *)
(** An attempt that may still return its reservation. *)
Definition holds (pc : offer_pc) : bool :=
  match pc with HoldsReservation => true | CallReturned r => bool_decide (is_Some (offer_not_executed r)) | _ => false end.
Definition phase_ok (db : OfferDb) (log : list OfferEvent) (hash : string) : Prop :=
  ∃ p, offer_run hash log = Some p ∧ (p = Free ∨ ∃ row, od_outbox db !! hash = Some row ∧ keeps_offer row).
Definition attempt_ok (log : list OfferEvent) (token : string) (a : Attempt) : Prop :=
  claim_token (at_claim a) = token ∧ (holds (at_pc a) = true → offer_run (reserved_hash a) log = Some (Held token)).
Record sys_inv (s : System) : Prop := {
  si_phase hash : phase_ok (sy_db s) (sy_log s) hash;
  si_attempt token a : sy_attempts s !! token = Some a → attempt_ok (sy_log s) token a;
}.
Lemma phase_ok_keeps db db' log hash : keeps db db' → phase_ok db log hash → phase_ok db' log hash.
Proof.
  intros Hk (p & Hp & Hr). exists p. split; [done|]. destruct Hr as [->|(row & Hrow & Hro)]; [by left|right]. by eapply Hk.
Qed.

(** Steps that log nothing. *)
Lemma inv_quiet s db' attempts :
  sys_inv s → keeps (sy_db s) db' →
  (∀ token a, attempts !! token = Some a → sy_attempts s !! token = Some a ∨ claim_token (at_claim a) = token ∧ holds (at_pc a) = false) →
  sys_inv {| sy_db := db'; sy_attempts := attempts; sy_log := sy_log s |}.
Proof.
  intros [Hp Ha] Hk Hn. split; cbn.
  - intros hash. by eapply phase_ok_keeps.
  - intros token a [Hold|[Ht Hh]]%Hn; [by apply Ha|]. split; [done|]. by rewrite Hh.
Qed.
Lemma goes_on_lookup s token a pc t b : goes_on s token a pc !! t = Some b →
  (t ≠ token ∧ sy_attempts s !! t = Some b) ∨ t = token ∧ ∃ pc', pc = Some pc' ∧ b = {| at_claim := at_claim a; at_pc := pc' |}.
Proof.
  unfold goes_on. destruct (decide (t = token)) as [->|Hne].
  - destruct pc as [pc|]; [rewrite lookup_insert_eq; intros [= <-]; eauto|by rewrite lookup_delete_eq].
  - destruct pc; [rewrite lookup_insert_ne by done|rewrite lookup_delete_ne by done]; auto.
Qed.
Lemma inv_quiet_on s db' token a pc :
  sys_inv s → keeps (sy_db s) db' → sy_attempts s !! token = Some a → (∀ pc', pc = Some pc' → holds pc' = false) →
  sys_inv {| sy_db := db'; sy_attempts := goes_on s token a pc; sy_log := sy_log s |}.
Proof.
  intros Hinv Hk Ha Hpc. apply inv_quiet; [done..|]. intros t b [[_ Hb]|(-> & pc' & -> & ->)]%goes_on_lookup; [by left|]. right. cbn.
  split; [apply (si_attempt s Hinv _ _ Ha)|by apply Hpc].
Qed.
(** Steps that log an event of the block the attempt is about: no other
    attempt holds the reservation. *)
Lemma inv_event s db' token a pc e p p' :
  sys_inv s → sy_attempts s !! token = Some a → event_hash e = reserved_hash a →
  offer_run (reserved_hash a) (sy_log s) = Some p → (∀ t, t ≠ token → p ≠ Held t) →
  offer_step (reserved_hash a) e (Some p) = Some p' →
  (∀ hash, hash ≠ reserved_hash a → keeps_offer_at (sy_db s) db' hash) →
  (p' = Free ∨ ∃ row, od_outbox db' !! reserved_hash a = Some row ∧ keeps_offer row) →
  (∀ pc', pc = Some pc' → holds pc' = true → p' = Held token) →
  sys_inv {| sy_db := db'; sy_attempts := goes_on s token a pc; sy_log := e :: sy_log s |}.
Proof.
  intros Hinv Ha He Hp Hother Hstep Hk Hrow Hpc.
  assert (offer_run (reserved_hash a) (e :: sy_log s) = Some p') as Hp' by (unfold offer_run in *; cbn [foldr]; by rewrite Hp).
  split; cbn.
  - intros hash. destruct (decide (hash = reserved_hash a)) as [->|Hne]; [by exists p'|].
    destruct (si_phase s Hinv hash) as (q & Hq & Hr). exists q. rewrite offer_run_other by congruence. split; [done|].
    destruct Hr as [->|(row & Hrow' & Hkeep)]; [by left|right]. by eapply Hk.
  - intros t b [[Hne Hb]|(-> & pc' & -> & ->)]%goes_on_lookup.
    + destruct (si_attempt s Hinv _ _ Hb) as [Htok Hh]. split; [done|]. intros Hholds. specialize (Hh Hholds).
      destruct (decide (reserved_hash b = reserved_hash a)) as [Heq|Hneq]; [|by rewrite offer_run_other by congruence].
      rewrite Heq, Hp in Hh. injection Hh as ->. by destruct (Hother t Hne).
    + split; [apply (si_attempt s Hinv _ _ Ha)|]. cbn. intros Hholds. change (reserved_hash _) with (reserved_hash a).
      rewrite <- (Hpc pc' eq_refl Hholds). exact Hp'.
Qed.

Lemma inv_reserve s token a db' pc' :
  sys_inv s → sy_attempts s !! token = Some a → reserves (sy_db s) (at_claim a) db' → stays HoldsReservation pc' →
  sys_inv {| sy_db := db'; sy_attempts := goes_on s token a pc'; sy_log := Reserve (reserved_hash a) token :: sy_log s |}.
Proof.
  intros Hinv Ha (instance_id & row & Hrow & Hst & _ & Hdb) Hpc. fold (reserved_hash a) in *.
  destruct (si_phase s Hinv (reserved_hash a)) as (p & Hp & [->|(row' & Hrow' & Hk)]).
  2:{ rewrite Hrow in Hrow'. injection Hrow' as <-. apply keeps_not_pending in Hk. unfold is_state in Hk. by rewrite Hst in Hk. }
  eapply (inv_event s db' token a pc' _ Free (Held token)); try done.
  - cbn. by rewrite String.eqb_refl.
  - intros hash Hne r Hr Hk. rewrite Hdb, lookup_insert_ne by done. eauto.
  - right. rewrite Hdb, lookup_insert_eq. eexists. split; [done|]. split; cbn; [set_solver|by eexists].
Qed.
Lemma inv_release s token a db' :
  sys_inv s → sy_attempts s !! token = Some a → holds (at_pc a) = true →
  (∀ h, h ≠ reserved_hash a → od_outbox db' !! h = od_outbox (sy_db s) !! h) →
  sys_inv {| sy_db := db'; sy_attempts := goes_on s token a None; sy_log := Release (reserved_hash a) token :: sy_log s |}.
Proof.
  intros Hinv Ha Hh Hdb. destruct (si_attempt s Hinv _ _ Ha) as [_ Hp]. specialize (Hp Hh).
  eapply (inv_event s db' token a None _ (Held token) Free); try done.
  - congruence.
  - cbn. by rewrite !String.eqb_refl.
  - intros hash Hne r Hr Hk. rewrite Hdb by done. eauto.
  - by left.
Qed.
Lemma offer_not_executed_sound r why : offer_not_executed r = Some why → cannot_have_run r.
Proof.
  destruct r as [[text|text|method code text|text]|reply]; cbn; [constructor|constructor| |done|done].
  destruct (String.eqb_spec method "submitblock") as [->|]; [|done]. unfold in_warmup. case_bool_decide as Hc; [|done]. rewrite Hc. constructor.
Qed.
Lemma inv_ran s token a r pc' :
  sys_inv s → sy_attempts s !! token = Some a → holds (at_pc a) = true → offer_not_executed r = None → stays (CallReturned r) pc' →
  sys_inv {| sy_db := sy_db s; sy_attempts := goes_on s token a pc'; sy_log := Ran (reserved_hash a) token :: sy_log s |}.
Proof.
  intros Hinv Ha Hh Hr Hpc. destruct (si_attempt s Hinv _ _ Ha) as [_ Hp]. specialize (Hp Hh).
  eapply (inv_event s (sy_db s) token a pc' _ (Held token) (Sent token)); try done.
  - congruence.
  - cbn. by rewrite !String.eqb_refl.
  - intros hash Hne. apply keeps_refl.
  - right. destruct (si_phase s Hinv (reserved_hash a)) as (p & Hp' & [->|?]); [|done]. by rewrite Hp in Hp'.
  - intros pc1 -> Hh1. destruct Hpc as [[= ->]|[=]]. cbn in Hh1. rewrite Hr in Hh1. by apply bool_decide_eq_true in Hh1 as [? [=]].
Qed.

Lemma sys_step_inv s s' : sys_inv s → sys_step s s' → sys_inv s'.
Proof.
  intros Hinv Hstep.
  destruct Hstep as [db' Ht|token hash db' Hc|token hash db' row claim Hc Hrow Hd Hh Htok Hnone|token
    |ledger instance_id token a bps bound db' pc' [Ha Hpc] Hr Hs|ledger instance_id token a bps b db' [Ha Hpc] Hr
    |ledger instance_id token a bps observed ceiling b [Ha Hpc] Hr|decode_balances token a observed ceiling bps issued bound [Ha Hpc] Hi Hb
    |instance_id token a b bound db' pc' [Ha Hpc] Hr Hs|instance_id token a b b' db' [Ha Hpc] Hr
    |token a now reason db' [Ha Hpc] Hr|token a r ran pc' [Ha Hpc] Hran Hs|token a r why now reason db' [Ha Hpc] Hw Hr
    |token a r offered_at_ms db' [Ha Hpc] Hw Hr].
  - apply inv_quiet; [done|by apply ledger_tx_keeps|auto].
  - apply inv_quiet; [done|by eapply claims_keeps|auto].
  - apply inv_quiet; [done|by eapply claims_keeps|]. intros t b. destruct (decide (t = token)) as [->|Hne].
    + rewrite lookup_insert_eq. intros [= <-]. by right.
    + rewrite lookup_insert_ne by done. by left.
  - apply inv_quiet; [done|apply keeps_refl|]. intros t b. rewrite lookup_delete_Some. intros [_ ?]. by left.
  - apply reserve_first_outbox in Hr. by apply inv_reserve.
  - apply reserve_first_outbox in Hr. by apply inv_quiet_on; [|apply keeps_same| |].
  - by apply inv_quiet_on; [|apply keeps_refl| |intros ? [= <-]].
  - by apply inv_quiet_on; [|apply keeps_refl| |intros ? [= <-]].
  - apply reserve_second_outbox in Hr. by apply inv_reserve.
  - apply reserve_second_outbox in Hr. by apply inv_quiet_on; [|apply keeps_same| |].
  - apply inv_release; [done|done|by rewrite Hpc|]. by eapply release_unsent_outbox.
  - assert (ran = true → offer_not_executed r = None) as Hexec.
    { intros Hr. destruct (offer_not_executed r) as [why|] eqn:Hw; [|done]. destruct (Hran Hr). by eapply offer_not_executed_sound. }
    destruct ran; [by apply (inv_ran _ _ _ r); [| |rewrite Hpc|apply Hexec|]|].
    destruct (si_attempt s Hinv _ _ Ha) as [Htok Hp]. rewrite Hpc in Hp. specialize (Hp eq_refl). split; cbn.
    + intros hash. apply Hinv.
    + intros t b' [[Hne Hb']|(-> & pc1 & -> & ->)]%goes_on_lookup; [by apply (si_attempt s Hinv)|]. by split.
  - apply inv_release; [done|done|rewrite Hpc; cbn; rewrite Hw; by apply bool_decide_eq_true|]. by eapply release_unsent_outbox.
  - apply inv_quiet_on; [done|by eapply record_offer_keeps|done..].
Qed.
Lemma sys_reachable_inv db s : od_outbox db = ∅ → rtc sys_step (sys_init db) s → sys_inv s.
Proof.
  intros Hdb Hr. assert (sys_inv (sys_init db)) as Hi.
  { split; cbn; [intros hash; exists Free; auto|]. intros token a. by rewrite lookup_empty. }
  induction Hr as [|x y z Hxy _ IH]; [done|]. by eapply IH, sys_step_inv.
Qed.
End invariant.

(** C9: a found block is offered at most once.  Over any interleaving of the
    frontends of one database, with takeovers, operator commands, policy
    transitions, lost replies and attempts that stop anywhere, the
    reservations, releases and calls of each block follow the one-offer rule:
    a reservation is taken only while none is held, only the attempt that holds
    it returns it, and only when its call provably did not run, and a call runs
    only under the reservation held.  So at most one [submitblock] of the block
    ever runs, and once a block is reserved for good its row keeps the record
    of the reservation and is neither pending nor abandoned.  Two facts of
    the outside are in the steps: concurrent attempts have distinct claim
    tokens, and a call that was not sent, was refused by the client or was
    answered from the node's warmup did not run. *)
Theorem block_offered_once `{HexCrate, Sha256Crate} db s hash :
  od_outbox db = ∅ → rtc sys_step (sys_init db) s →
  ∃ p, offer_run hash (sy_log s) = Some p ∧ (times_ran hash (sy_log s) ≤ 1)%nat ∧
    (∀ token, Ran hash token ∈ sy_log s → p = Sent token) ∧
    (p ≠ Free → ∃ row, od_outbox (sy_db s) !! hash = Some row ∧ keeps_offer row) ∧
    (∀ row, od_outbox (sy_db s) !! hash = Some row → ob_state row ∈ ["pending"; "abandoned"] → p = Free ∧ times_ran hash (sy_log s) = 0%nat).
Proof.
  intros Hdb Hr. destruct (si_phase s (sys_reachable_inv db s Hdb Hr) hash) as (p & Hp & Hk). exists p.
  destruct (offer_run_ran _ _ _ Hp) as [Hn Hin]. split; [done|]. split; [rewrite Hn; destruct p; lia|]. split; [done|].
  split; [naive_solver|]. intros row Hrow Hst. assert (p = Free) as ->; [|done].
  destruct Hk as [|(row' & Hrow' & [Hst' _])]; [done|]. rewrite Hrow in Hrow'. injection Hrow' as <-.
  unfold ORPHANED_STATE in Hst'. rewrite !elem_of_cons, elem_of_nil in Hst. rewrite !elem_of_cons, elem_of_nil in Hst'. intuition congruence.
Qed.

(** * A concrete life *)
(** One block, offered on the second attempt: the first call was never sent. *)
Definition example_outbox : OfferDb := {|
  od_fatal_error := None; od_legacy_live := false; od_hold := None; od_payout_revision := 3; od_outbox := ∅; od_divergences := ∅;
  od_accounts := ∅; od_snapshots := ∅; od_carry := []; od_blocks := ∅; od_coinbases := ∅ |}.
Definition example_claim_of (token : string) : CandidateClaim := {|
  candidate := {| ca_block_hash := "b17"; ca_payout_revision := 3; ca_prior_balances_digest := []; ca_block_height := 17;
                  ca_coinbase_value_sats := 10000; ca_leased := false |}; claim_token := token |}.
Definition example_life_row (state : string) (token : option string) (reserved_by : option string) (attempts next : Z)
    (error : option string) : OutboxRow := {|
  ob_state := state;
  ob_claim := (fun token => {| cm_token := token; cm_instance_id := "node"; cm_lease_seconds := 60; cm_renewals := 0 |}) <$> token;
  ob_offer := {| of_reserved_by := reserved_by; of_offered_at_ms := None; of_outcome := None; of_reply := None |};
  ob_attempt_count := attempts; ob_next_attempt := Some next; ob_last_error := error |}.
Definition example_db (row : OutboxRow) : OfferDb := with_outbox example_outbox {["b17" := row]}.
Definition example_system (row : OutboxRow) (attempt : option (string * offer_pc)) (log : list OfferEvent) : System := {|
  sy_db := example_db row;
  sy_attempts := match attempt with Some (token, pc) => {[token := {| at_claim := example_claim_of token; at_pc := pc |}]} | None => ∅ end;
  sy_log := log |}.
Lemma step_then s s1 s2 s3 : sys_step s s1 → s1 = s2 → rtc sys_step s2 s3 → rtc sys_step s s3.
Proof. intros Hs <-. by apply rtc_l. Qed.
Tactic Notation "step" "to" constr(s) "by" tactic3(t) := eapply step_then with (s2 := s); [t|vm_compute; reflexivity|].
Lemma example_life : ∃ s, rtc sys_step (sys_init example_outbox) s ∧
  sy_log s = [Ran "b17" "t2"; Reserve "b17" "t2"; Release "b17" "t1"; Reserve "b17" "t1"].
Proof.
  pose (unsent := "offer not sent: connection refused"). pose (refused := inl (RpcNotSentError "connection refused") : RpcError + RpcReply).
  pose (at_ token pc := {| at_claim := example_claim_of token; at_pc := pc |}).
  pose (row0 := example_life_row "pending" None None 0 0 None).
  pose (row1 := example_life_row "pending" (Some "t1") None 1 0 None).
  pose (row2 := example_life_row "offer_reserved" (Some "t1") (Some "node") 1 0 None).
  pose (row3 := example_life_row "pending" None None 1 2 (Some unsent)).
  pose (row4 := example_life_row "pending" (Some "t2") None 2 2 (Some unsent)).
  pose (row5 := example_life_row "offer_reserved" (Some "t2") (Some "node") 2 2 (Some unsent)).
  pose (log3 := [Release "b17" "t1"; Reserve "b17" "t1"]).
  exists (example_system row5 (Some ("t2", CallReturned (inr ReplyNull))) (Ran "b17" "t2" :: Reserve "b17" "t2" :: log3)). split; [|reflexivity].
  step to (example_system row0 None []) by
    (apply sys_ledger, (tx_enqueue _ 0 "b17" true); vm_compute; reflexivity).
  step to (example_system row1 (Some ("t1", AtOffer)) []) by
    (apply (sys_claim_offers _ "t1" "b17" (example_db row1) row1 (example_claim_of "t1")); [apply (claims_lane _ _ _ _ "node" 0 true 60)|..]; vm_compute; reflexivity).
  step to (example_system row2 (Some ("t1", HoldsReservation)) [Reserve "b17" "t1"]) by
    (apply (sys_reserve_first _ example_single_writer "node" "t1" (at_ "t1" AtOffer) (Some 2000) None (example_db row2) (Some HoldsReservation)); [split|..|by left]; vm_compute; reflexivity).
  step to (example_system row2 (Some ("t1", CallReturned refused)) [Reserve "b17" "t1"]) by
    (apply (sys_call _ "t1" (at_ "t1" HoldsReservation) refused false (Some (CallReturned refused))); [split; vm_compute; reflexivity|done|by left]).
  step to (example_system row3 None log3) by
    (apply (sys_unsent _ "t1" (at_ "t1" (CallReturned refused)) refused "connection refused" 1 unsent (example_db row3)); [split|..]; vm_compute; reflexivity).
  step to (example_system row4 (Some ("t2", AtOffer)) log3) by
    (apply (sys_claim_offers _ "t2" "b17" (example_db row4) row4 (example_claim_of "t2")); [apply (claims_lane _ _ _ _ "node" 2 false 60)|..]; vm_compute; reflexivity).
  step to (example_system row5 (Some ("t2", HoldsReservation)) (Reserve "b17" "t2" :: log3)) by
    (apply (sys_reserve_first _ example_single_writer "node" "t2" (at_ "t2" AtOffer) (Some 2000) None (example_db row5) (Some HoldsReservation)); [split|..|by left]; vm_compute; reflexivity).
  eapply step_then with (3 := rtc_refl _ _).
  { apply (sys_call _ "t2" (at_ "t2" HoldsReservation) (inr ReplyNull) true (Some (CallReturned (inr ReplyNull)))); [split; vm_compute; reflexivity|inversion 2|by left]. }
  vm_compute. reflexivity.
Qed.
Lemma block_offered_once_witness :
  ∃ s, rtc sys_step (sys_init example_outbox) s ∧
    sy_log s = [Ran "b17" "t2"; Reserve "b17" "t2"; Release "b17" "t1"; Reserve "b17" "t1"] ∧
    offer_run "b17" (sy_log s) = Some (Sent "t2") ∧ (times_ran "b17" (sy_log s) ≤ 1)%nat.
Proof.
  destruct example_life as (s & Hrun & Hlog). exists s. split; [exact Hrun|]. split; [exact Hlog|].
  destruct (block_offered_once example_outbox s "b17" eq_refl Hrun) as (p & Hp & Hn & Hs & _). split; [|exact Hn].
  rewrite Hp, (Hs "t2"); [reflexivity|]. rewrite Hlog. left.
Defined.
