(* ===== verification/CarryOwner.v ===== *)
(** The carry owner guard and its journal (qbit-prism-server/src/carry_owner.rs).

    A journal is the rows of [qbit_prism_node_roles] one database holds, of both
    nodes.  Of a row's JSON detail the two numbers the code reads are kept, with
    the rest as text.  Clocks are arguments. *)
From Stdlib Require Import ZArith Lia.
From stdpp Require Import base list strings.
From S2P Require Import Prelude CarryGate.

Open Scope Z_scope.

(** * Data *)
Record RoleDetail := { rd_tip_height : option Z; rd_peer_epoch : option Z; rd_text : string }.
Record RoleRow := {
  origin_node : Z;
  epoch : Z;
  rr_carry_owner : bool;
  action : string;
  detail : RoleDetail;
}.
#[export] Instance role_detail_eq_dec : EqDecision RoleDetail.
Proof. solve_decision. Defined.
#[export] Instance role_row_eq_dec : EqDecision RoleRow.
Proof. solve_decision. Defined.

Definition tip_height (r : RoleRow) : option Z := rd_tip_height (detail r).
Definition acquired_after (r release : RoleRow) : bool :=
  String.eqb (action r) "acquire" &&
  match rd_peer_epoch (detail r) with Some e => epoch release <=? e | None => false end.

Inductive PeerRead :=
| Answered (pr_peer own_at_peer : option RoleRow) (primary : bool)
| ReadFailed.
Definition peer_live (r : PeerRead) : option RoleRow :=
  match r with Answered peer _ _ => peer | ReadFailed => None end.

Record GuardInputs := {
  gi_node_index : Z;
  gi_database_node : option Z;
  gi_env_owner : bool;
  gi_own : option RoleRow;
  gi_peer_synced : option RoleRow;
  gi_peer_read : PeerRead;
  gi_layout_mismatch : option LayoutMismatch;
}.
Inductive CarryFreeReason :=
| NotOwner | NodeUnidentified | NoJournalRow | ConfigMismatch | SettingPending | OwnJournalBehindPeer
| OwnJournalRolledBack | ClaimNotVetted | PeerClaimsOwnership | PeerJournalBehind | PeerNotSeeded
| PeerUnconfirmed | LayoutsDiffer.
Definition reason_alerts (r : CarryFreeReason) : bool :=
  match r with NotOwner | PeerUnconfirmed | SettingPending => false | _ => true end.
Inductive CarryDecision := Paying | CarryFree (reason : CarryFreeReason).
Definition decision_paying (d : CarryDecision) : bool := match d with Paying => true | CarryFree _ => false end.
Definition decision_alerts (d : CarryDecision) : bool := match d with Paying => false | CarryFree r => reason_alerts r end.

Record Guard := { peer_confirmed : bool; highest_own_epoch : option Z }.
Definition guard_default : Guard := {| peer_confirmed := false; highest_own_epoch := None |}.
Definition seen_own_row (g : Guard) : bool := match highest_own_epoch g with Some _ => true | None => false end.
Definition with_confirmed (g : Guard) (c : bool) : Guard :=
  {| peer_confirmed := c; highest_own_epoch := highest_own_epoch g |}.

(** [[live, synced].into_iter().flatten().max_by_key(epoch)]: the later of two
    equal epochs. *)
Definition newest (live synced : option RoleRow) : option RoleRow :=
  match live, synced with
  | Some l, Some s => if epoch s <? epoch l then Some l else Some s
  | Some l, None => Some l
  | None, s => s
  end.
Definition claims (r : option RoleRow) : bool := match r with Some r => rr_carry_owner r | None => false end.

(** * The decision *)
Definition not_claiming (g : Guard) (reason : CarryFreeReason) : CarryDecision * Guard :=
  (CarryFree reason, with_confirmed g false).
Definition rolled_back (own : option RoleRow) (highest : option Z) : bool :=
  match own, highest with
  | None, Some _ => true
  | Some own, Some highest => epoch own <? highest
  | _, None => false
  end.
Definition behind_peer (read : PeerRead) (own : RoleRow) : bool :=
  match read with Answered _ (Some theirs) _ => epoch own <? epoch theirs | _ => false end.
Definition peer_claim (peer live : option RoleRow) : option CarryFreeReason :=
  if claims peer then Some PeerClaimsOwnership else if claims live then Some PeerJournalBehind else None.
Definition unvetted (own : RoleRow) (peer : option RoleRow) : bool :=
  match peer with Some row => String.eqb (action row) "release" && negb (acquired_after own row) | None => false end.
Definition confirmed_by (read : PeerRead) (g : Guard) : Guard :=
  match read with Answered _ _ true => with_confirmed g true | _ => g end.

(** The node claims ownership, by setting and journal. *)
Definition decide_claiming (g : Guard) (inputs : GuardInputs) (own : RoleRow) : CarryDecision * Guard :=
  let read := gi_peer_read inputs in
  if behind_peer read own then not_claiming g OwnJournalBehindPeer else
  let live := peer_live read in
  let peer := newest live (gi_peer_synced inputs) in
  match peer_claim peer live with
  | Some reason => not_claiming g reason
  | None =>
      if unvetted own peer then not_claiming g ClaimNotVetted else
      match read, peer with
      | Answered _ _ _, None => not_claiming g PeerNotSeeded
      | _, _ =>
          let g := confirmed_by read g in
          (if peer_confirmed g then Paying else CarryFree PeerUnconfirmed, g)
      end
  end.
Definition guard_decide (g : Guard) (inputs : GuardInputs) : CarryDecision * Guard :=
  if negb (bool_decide (gi_database_node inputs = Some (gi_node_index inputs))) then not_claiming g NodeUnidentified else
  if bool_decide (is_Some (gi_layout_mismatch inputs)) then not_claiming g LayoutsDiffer else
  if rolled_back (gi_own inputs) (highest_own_epoch g) then not_claiming g OwnJournalRolledBack else
  match gi_own inputs with
  | None => not_claiming g NoJournalRow
  | Some own =>
      let g := {| peer_confirmed := peer_confirmed g; highest_own_epoch := Some (epoch own) |} in
      if negb (Bool.eqb (rr_carry_owner own) (gi_env_owner inputs)) then
        not_claiming g (if String.eqb (action own) "release" || String.eqb (action own) "acquire" then SettingPending else ConfigMismatch)
      else if negb (rr_carry_owner own) then not_claiming g NotOwner
      else decide_claiming g inputs own
  end.

(** * The journal *)
Abbreviation Journal := (list RoleRow).
Definition peer_index (node_index : Z) : Z := 1 - node_index.
(** [DISTINCT ON (origin_node) .. ORDER BY epoch DESC]. *)
Fixpoint latest (origin : Z) (j : Journal) : option RoleRow :=
  match j with
  | [] => None
  | r :: j => if origin_node r =? origin then newest (Some r) (latest origin j) else latest origin j
  end.
Record LatestRoles := { lr_own : option RoleRow; lr_peer : option RoleRow }.
Definition read_latest_roles (j : Journal) (node_index : Z) : LatestRoles :=
  {| lr_own := latest node_index j; lr_peer := latest (peer_index node_index) j |}.
Definition read_latest_claim (j : Journal) (origin : Z) : option RoleRow :=
  latest origin (filter (fun r => rr_carry_owner r = true) j).
(** [GREATEST(now_ms, COALESCE(max(epoch),0)+1)]. *)
Definition next_epoch (j : Journal) (now_ms : Z) : Z :=
  Z.max now_ms (match j with [] => 1 | r :: rest => foldr (fun r m => Z.max (epoch r) m) (epoch r) rest + 1 end).
Definition append_role (j : Journal) (now_ms : Z) (node_index : Z) (carry_owner : bool) (action : string) (detail : RoleDetail)
  : Z * Journal :=
  let epoch := next_epoch j now_ms in
  (epoch, {| origin_node := node_index; epoch := epoch; rr_carry_owner := carry_owner; action := action; detail := detail |} :: j).
Definition seed_detail : RoleDetail := {| rd_tip_height := None; rd_peer_epoch := None; rd_text := "PRISM_CARRY_OWNER" |}.
Definition seed_role (j : Journal) (now_ms : Z) (node_index : Z) (carry_owner : bool) : option Z * Journal :=
  match lr_own (read_latest_roles j node_index) with
  | Some _ => (None, j)
  | None => let '(epoch, j) := append_role j now_ms node_index carry_owner "seed" seed_detail in (Some epoch, j)
  end.
(** [PeerJournal::read] of a database that holds [j]. *)
Definition peer_answer (j : Journal) (node_index : Z) (primary : bool) : PeerRead :=
  let there := read_latest_roles j node_index in Answered (lr_peer there) (lr_own there) primary.

(** * One check, between its reads *)
Definition identified (database_node : option Z) (node_index : Z) : bool := bool_decide (database_node = Some node_index).
Definition may_seed (identified : bool) (own : option RoleRow) (g : Guard) (own_log_caught_up : bool) : bool :=
  identified && bool_decide (own = None) && negb (seen_own_row g) && own_log_caught_up.
Definition seeds_on (read : PeerRead) : bool := match read with Answered _ None true => true | _ => false end.
Definition needs_peer (identified setting : bool) (own : option RoleRow) : bool := identified && setting && claims own.

(** * Alerts *)
Definition SETTING_PENDING_ALERT_AFTER : Z := 30 * 60.
Definition STARTUP_ALERT_AFTER : Z := 120.
Definition STARTUP_ALERT_CEILING : Z := 600.
Record StartUp := { started : Z; first_latched : option Z }.
Definition under_way (s : StartUp) (now : Z) : bool :=
  match first_latched s with
  | Some latched => now - latched <? STARTUP_ALERT_AFTER
  | None => now - started s <? STARTUP_ALERT_CEILING
  end.
Definition alerting (d : CarryDecision) (since : Z) (start_up : StartUp) (now : Z) : bool :=
  match d with
  | CarryFree SettingPending => SETTING_PENDING_ALERT_AFTER <=? now - since
  | CarryFree NoJournalRow | CarryFree PeerNotSeeded => negb (under_way start_up now)
  | d => decision_alerts d
  end.

(** Ages are in seconds. *)
Definition SPONSOR_TAKEOVER_AFTER : Z := 30 * 60.
Definition youngest_work_age (answers : list (option Z)) (primary_answered : bool) : option (option Z) :=
  let youngest := foldl (fun y age => match age with
    | Some age => Some (match y with Some known => Z.min known age | None => age end) | None => y end) None answers in
  let empty := existsb (fun age => match age with None => true | Some _ => false end) answers in
  match answers with
  | [] => None
  | _ =>
      match youngest with
      | Some age =>
          if age <? SPONSOR_TAKEOVER_AFTER then Some (Some age)
          else if negb primary_answered then None
          else if negb empty then Some (Some age) else Some None
      | None => if negb primary_answered then None else Some None
      end
  end.
