(* ===== verification/CarryTransfer.v ===== *)
(** The operator's transfer of ownership (qbit-prism-server/src/carry_owner/
    transfer.rs): the walk of the active chain, the scan of the pool's blocks,
    and the checks of [transfer].

    The chain answers through a state of its own, which a walk cannot see: any
    answer may differ from the one before.  The walk's loop takes fuel for its
    rounds.  A check keeps its name and verdict; its text is for the operator. *)
From Stdlib Require Import ZArith Lia Sorting.Sorted.
From coqutil Require Import Byte.
From stdpp Require Import base list strings pretty gmap.
From S2P Require Import Prelude Order BTree Bytes Crates Maturity Codec CarryGate CarryOwner.

Open Scope Z_scope.

(** * Recognising the pool's blocks *)
Record CoinbaseView := { cv_block_hash : string; cv_script_sig : list byte; cv_output_scripts : list (list byte) }.
Record PoolRecognizer := { tags : list (list byte); fee_scripts : list (list byte) }.
Definition no_markers : PoolRecognizer := {| tags := []; fee_scripts := [] |}.

Section recognizer.
Context `{HexCrate}.
Definition also_tag (r : PoolRecognizer) (tag : string) : result anyhow PoolRecognizer :=
  _ ← ensure (negb (String.eqb tag "")) "a coinbase tag is empty";
  Ok {| tags := tags r ++ [str_bytes tag]; fee_scripts := fee_scripts r |}.
Definition also_fee (r : PoolRecognizer) (hex : string) : result anyhow PoolRecognizer :=
  program ← match hex_decode hex with
            | inr program => Ok program | inl error => Err ["a pool-fee program is not hex"; error] end;
  _ ← ensure (length program =? 32)%nat "a pool-fee program is not 32 bytes";
  Ok {| tags := tags r; fee_scripts := fee_scripts r ++ [byte.of_Z 0x52 :: byte.of_Z 0x20 :: program] |}.
Definition also (r : PoolRecognizer) (tags fee_programs_hex : list string) : result anyhow PoolRecognizer :=
  r ← try_fold also_tag r tags;
  try_fold also_fee r (filter (fun hex => hex ≠ "") fee_programs_hex).
Definition recognizer_new (tag : string) (fee_program_hex : option string) : result anyhow PoolRecognizer :=
  also no_markers [tag] (option_list fee_program_hex).
End recognizer.

(** [script.windows(n).any(|window| window == tag)]. *)
Fixpoint has_window (tag script : list byte) : bool :=
  bool_decide (take (length tag) script = tag) || match script with [] => false | _ :: script => has_window tag script end.
Definition is_pool_block (r : PoolRecognizer) (coinbase : CoinbaseView) : bool :=
  existsb (fun tag => has_window tag (cv_script_sig coinbase)) (tags r)
  || existsb (fun fee => existsb (fun script => bool_decide (script = fee)) (cv_output_scripts coinbase)) (fee_scripts r).

(** * The walk *)
Record WalkedBlock := { wb_hash : string; wb_parent : option string; wb_pool : bool }.
Abbreviation Blocks := (list (Z * WalkedBlock)).
Record ChainWalk := { cw_tip_height : Z; cw_tip_hash : string; cw_blocks : Blocks }.

Definition link_break (from_height : Z) (pair : (Z * WalkedBlock) * (Z * WalkedBlock)) : bool :=
  let '((low_height, low), (high_height, high)) := pair in
  (from_height <=? low_height) && (high_height =? low_height + 1)
  && match wb_parent high with Some parent => negb (String.eqb parent (wb_hash low)) | None => false end.
Definition first_link_break (blocks : Blocks) (from_height : Z) : option Z :=
  (fun pair => pair.2.1) <$> head (filter (fun pair => link_break from_height pair = true) (zip blocks (drop 1 blocks))).

Section walk.
Context {W : Type}.
Definition chain (A : Type) : Type := W -> result anyhow (A * W).
#[export] Instance chain_ret : MRet chain := fun _ a w => Ok (a, w).
#[export] Instance chain_bind : MBind chain := fun _ _ f m w => '(a, w) ← m w; f a w.

Context (tip : chain (Z * string)) (block_hash : Z -> chain string).
Context (linked_coinbase : Z -> chain (CoinbaseView * option string)) (recognizer : PoolRecognizer).

Definition read_block (height : Z) : chain (Z * WalkedBlock) :=
  '(coinbase, parent) ← linked_coinbase height;
  mret (height, {| wb_hash := cv_block_hash coinbase; wb_parent := parent; wb_pool := is_pool_block recognizer coinbase |}).
Fixpoint read_blocks (heights : list Z) : chain (list (Z * WalkedBlock)) :=
  match heights with
  | [] => mret []
  | h :: heights => b ← read_block h; bs ← read_blocks heights; mret (b :: bs)
  end.
Definition heights (first last : Z) : list Z := seqZ first (last - first + 1).
Definition extend (blocks : Blocks) (new : list (Z * WalkedBlock)) : Blocks :=
  foldl (fun m '(h, b) => bt_insert Z.compare h b m) blocks new.

(** The highest block read at or below [height] that is still active. *)
Fixpoint find_keep (fuel : nat) (blocks : Blocks) (from_height height : Z) : chain (option Z) :=
  match fuel with
  | O => mret None
  | S fuel =>
      if negb (from_height <=? height) then mret None else
      let next := if height =? 0 then mret None else find_keep fuel blocks from_height (height - 1) in
      match bt_get Z.compare height blocks with
      | Some block => hash ← block_hash height; if String.eqb (wb_hash block) hash then mret (Some height) else next
      | None => next
      end
  end.

Definition top_is_tip (blocks : Blocks) (from_height tip_height : Z) (tip_hash : string) : bool :=
  (tip_height <? from_height)
  || match bt_get Z.compare tip_height blocks with Some block => String.eqb (wb_hash block) tip_hash | None => false end.
Definition broken_at (blocks : Blocks) (from_height tip_height : Z) (tip_hash : string) : option Z :=
  match first_link_break blocks from_height with
  | Some broken => Some broken
  | None => if top_is_tip blocks from_height tip_height tip_hash then None else Some tip_height
  end.
Definition retain (p : Z -> bool) (blocks : Blocks) : Blocks := filter (fun e => p e.1 = true) blocks.

(** [None]: the fuel ran out. *)
Fixpoint walk_loop (fuel : nat) (from_height : Z) (blocks : Blocks) (tip_height : Z) (tip_hash : string) (next : Z)
  : chain (option ChainWalk) :=
  match fuel with
  | O => mret None
  | S fuel =>
      new ← (if next <=? tip_height then read_blocks (heights next tip_height) else mret []);
      let blocks := extend blocks new in
      match broken_at blocks from_height tip_height tip_hash with
      | Some broken =>
          let again := Z.max (saturating_sub U64 broken 1) from_height in
          '(tip_height, tip_hash) ← tip;
          walk_loop fuel from_height (retain (fun h => h <? again) blocks) tip_height tip_hash again
      | None =>
          '(now_height, now_hash) ← tip;
          if String.eqb now_hash tip_hash then
            mret (Some {| cw_tip_height := tip_height; cw_tip_hash := tip_hash; cw_blocks := blocks |})
          else
            keep ← find_keep (Z.to_nat (Z.min tip_height now_height + 1)) blocks from_height (Z.min tip_height now_height);
            let blocks := retain (fun h => match keep with Some k => h <=? k | None => false end) blocks in
            let next := match keep with Some k => k + 1 | None => from_height end in
            walk_loop fuel from_height blocks now_height now_hash next
      end
  end.
Definition walk_chain (fuel : nat) (from_height : Z) : chain (option ChainWalk) :=
  '(tip_height, tip_hash) ← tip;
  walk_loop fuel from_height [] tip_height tip_hash from_height.
End walk.

(** * The scan *)
Inductive Landing := Confirmed | Unconfirmed | Missing.
#[export] Instance landing_eq_dec : EqDecision Landing.
Proof. solve_decision. Defined.
Record ScannedBlock := { sb_height : Z; sb_block_hash : string; sb_landing : Landing }.
Record ChainScan := {
  cs_from_height : Z;
  cs_tip_height : Z;
  cs_tip_hash : string;
  cs_scanned_blocks : Z;
  cs_pool_blocks : list ScannedBlock;
}.
Definition unresolved (scan : ChainScan) : list ScannedBlock :=
  filter (fun b => sb_landing b ≠ Confirmed) (cs_pool_blocks scan).
(** [landed] is the ledger's [qbit_pool_blocks]: the chain state of a block and
    whether its audit bundle is stored. *)
Definition landing_of (landed : gmap string (string * bool)) (block_hash : string) : Landing :=
  match landed !! block_hash with
  | Some (state, true) => if String.eqb state "confirmed" then Confirmed else Unconfirmed
  | _ => Missing
  end.
Definition scan_of (landed : gmap string (string * bool)) (from_height : Z) (walk : ChainWalk) : ChainScan := {|
  cs_from_height := from_height; cs_tip_height := cw_tip_height walk; cs_tip_hash := cw_tip_hash walk;
  cs_scanned_blocks := Z.of_nat (length (cw_blocks walk));
  cs_pool_blocks := (fun e => {| sb_height := e.1; sb_block_hash := wb_hash e.2; sb_landing := landing_of landed (wb_hash e.2) |})
    <$> filter (fun e => wb_pool e.2 = true) (cw_blocks walk) |}.

(** * The checks *)
Record Check := { check_name : string; check_ok : bool }.
Record TransferFacts := {
  tf_node_index : Z;
  tf_database_node : option Z;
  tf_own : option RoleRow;
  tf_peer_read : PeerRead;
  tf_peer_synced : option RoleRow;
  tf_peer_claim : option RoleRow;
  tf_peer_claim_read : bool;
  tf_peer_claim_conflict : bool;
  tf_tip_height : Z;
  tf_release_depth : Z;
  tf_scan : ChainScan;
}.
Definition SCAN_REORG_MARGIN : Z := QBIT_COINBASE_MATURITY_BLOCKS.
Definition MIN_RELEASE_DEPTH : Z := 2.

Definition scan_start (facts : TransferFacts) : Check :=
  let start := cs_from_height (tf_scan facts) in
  {| check_name := "scan_start"; check_ok :=
    if negb (tf_peer_claim_read facts) then false else
    if tf_peer_claim_conflict facts then false else
    match tf_peer_claim facts with
    | None => negb (existsb (fun row => String.eqb (action row) "release")
                (option_list (peer_live (tf_peer_read facts)) ++ option_list (tf_peer_synced facts)))
    | Some claim =>
        match tip_height claim with
        | Some tip => start <=? saturating_sub U64 tip SCAN_REORG_MARGIN
        | None => start =? 0
        end
    end |}.
(** Two rows at one epoch that differ. *)
Definition conflicting (a b : option RoleRow) : bool :=
  match a, b with Some a, Some b => (epoch a =? epoch b) && negb (bool_decide (a = b)) | _, _ => false end.
Definition peer_not_owner (live synced : option RoleRow) : bool :=
  match newest live synced with
  | None => false
  | Some peer => negb (conflicting live synced) && negb (rr_carry_owner peer) && negb (claims live)
  end.
Definition own_journal_current (own own_at_peer : option RoleRow) : bool :=
  match own_at_peer, own with
  | Some theirs, Some own => epoch theirs <=? epoch own
  | Some _, None => false
  | None, _ => true
  end.
Definition release_deep (row : RoleRow) (tip release_depth : Z) : bool :=
  match tip_height row with Some released => saturating_add U64 released release_depth <=? tip | None => false end.
Definition transfer_checks (facts : TransferFacts) : list Check :=
  [{| check_name := "node_identity"; check_ok := bool_decide (tf_database_node facts = Some (tf_node_index facts)) |};
   {| check_name := "this_node_not_owner"; check_ok := negb (claims (tf_own facts)) |}]
  ++ match tf_peer_read facts with
     | ReadFailed => [{| check_name := "peer_answered"; check_ok := false |}]
     | Answered live own_at_peer _ =>
         let synced := tf_peer_synced facts in
         [{| check_name := "peer_answered"; check_ok := true |};
          {| check_name := "peer_not_owner"; check_ok := peer_not_owner live synced |};
          {| check_name := "own_journal_current"; check_ok := own_journal_current (tf_own facts) own_at_peer |};
          scan_start facts]
         ++ match newest live synced with
            | Some peer => if String.eqb (action peer) "release"
                then [{| check_name := "release_depth"; check_ok := release_deep peer (tf_tip_height facts) (tf_release_depth facts) |}]
                else []
            | None => [] end
     end
  ++ [{| check_name := "chain_scan"; check_ok := bool_decide (unresolved (tf_scan facts) = []) |}].
Definition passed (checks : list Check) : bool := forallb check_ok checks.

(** * The commands, between their reads *)
Definition release_checks (database_node : option Z) (node_index : Z) (own : option RoleRow) : list Check :=
  [{| check_name := "node_identity"; check_ok := bool_decide (database_node = Some node_index) |};
   {| check_name := "this_node_owner"; check_ok := claims own |}].
(** The transaction of [release] on journal [j]: [own] is the row its checks
    read, [tip] the height read under the lock. *)
Definition release_tx (j : Journal) (node_index : Z) (own : option RoleRow) (now_ms tip : Z) (reason : string) : result anyhow (Z * Journal) :=
  _ ← ensure (bool_decide (lr_own (read_latest_roles j node_index) = own))
        "this node's journal changed while release was checking; run it again";
  Ok (append_role j now_ms node_index false "release" {| rd_tip_height := Some tip; rd_peer_epoch := None; rd_text := reason |}).

Record PeerView := { pv_latest : LatestRoles; pv_peer_claim : option RoleRow }.
(** [PeerJournal::view] of a database that holds [j]. *)
Definition journal_view (j : Journal) (node_index : Z) : PeerView :=
  {| pv_latest := read_latest_roles j node_index; pv_peer_claim := read_latest_claim j (peer_index node_index) |}.
(** What [transfer] decides from: the view of the peer, its database's
    identity and rows, and the scan. *)
Definition transfer_facts (node_index : Z) (database_node : option Z) (peer_view : option PeerView) (local : LatestRoles)
    (synced_claim : option RoleRow) (release_depth : Z) (scan : ChainScan) : TransferFacts :=
  let live_claim := peer_view ≫= pv_peer_claim in
  {| tf_node_index := node_index; tf_database_node := database_node; tf_own := lr_own local;
     tf_peer_read := match peer_view with
       | Some v => Answered (lr_peer (pv_latest v)) (lr_own (pv_latest v)) true | None => ReadFailed end;
     tf_peer_synced := lr_peer local; tf_peer_claim := newest live_claim synced_claim;
     tf_peer_claim_read := bool_decide (is_Some peer_view); tf_peer_claim_conflict := conflicting live_claim synced_claim;
     tf_tip_height := cs_tip_height scan; tf_release_depth := Z.max release_depth MIN_RELEASE_DEPTH; tf_scan := scan |}.
(** The second read of the peer: [tail] is [None] when it could not be read. *)
Definition reread_tail (checked_live : option RoleRow) (tail : option (option RoleRow)) : result anyhow RoleRow :=
  row ← match tail with
        | Some (Some row) => Ok row
        | _ => Err ["the peer's journal changed or could not be read again; nothing was written"] end;
  _ ← ensure (bool_decide (Some row = checked_live)) ("the peer's journal changed while transfer was checking: its latest row is now epoch " +:+ pretty (epoch row) +:+ ", " +:+ action row +:+ "; nothing was written");
  _ ← ensure (negb (rr_carry_owner row)) ("the peer holds ownership (epoch " +:+ pretty (epoch row) +:+ ", " +:+ action row +:+ "); nothing was written; run carry-owner release on it first");
  Ok row.
(** The transaction of the acquire: [active] is the block at the scanned tip. *)
Definition acquire_tx (j : Journal) (node_index : Z) (local : LatestRoles) (checked_live : option RoleRow) (scan : ChainScan)
    (active : string) (now_ms : Z) (reason : string) : result anyhow (Z * Journal) :=
  let now := read_latest_roles j node_index in
  _ ← ensure (bool_decide (lr_own now = lr_own local)) "this node's journal changed while transfer was checking; the acquire was not written; run it again";
  let checked := newest checked_live (lr_peer local) in
  _ ← ensure (bool_decide (lr_peer now = checked)) "the peer's journal changed while transfer was checking; the acquire was not written; run it again";
  _ ← ensure (String.eqb active (cs_tip_hash scan)) ("the scanned tip " +:+ cs_tip_hash scan +:+ " at height " +:+ pretty (cs_tip_height scan) +:+ " is no longer on the active chain (" +:+ active +:+ " is); the acquire was not written; run it again");
  Ok (append_role j now_ms node_index true "acquire"
        {| rd_tip_height := Some (cs_tip_height scan); rd_peer_epoch := epoch <$> checked; rd_text := reason |}).

(** * What a finished walk is *)
Definition spans (blocks : Blocks) (from next : Z) : Prop :=
  bt_wf Z.compare blocks ∧ ∀ h, is_Some (bt_get Z.compare h blocks) ↔ from ≤ h < next.

Lemma extend_wf blocks new : bt_wf Z.compare blocks → bt_wf Z.compare (extend blocks new).
Proof.
  unfold extend. revert blocks. induction new as [|[h b] new IH]; intros blocks Hw; [done|]. cbn. apply IH.
  by apply (bt_insert_wf Z.compare).
Qed.
Lemma extend_get blocks new h :
  is_Some (bt_get Z.compare h (extend blocks new)) ↔ is_Some (bt_get Z.compare h blocks) ∨ h ∈ new.*1.
Proof.
  unfold extend. revert blocks. induction new as [|[k b] new IH]; intros blocks; cbn; [set_solver|]. rewrite IH.
  destruct (decide (k = h)) as [->|Hk].
  - rewrite (bt_get_insert_eq Z.compare). split; [set_solver|]. intros _. left. by eexists.
  - rewrite (bt_get_insert_ne Z.compare) by done. set_solver.
Qed.
Lemma extend_spans blocks new from next tip_height :
  spans blocks from next → from ≤ next → new.*1 = (if next <=? tip_height then heights next tip_height else []) →
  spans (extend blocks new) from (Z.max next (tip_height + 1)).
Proof.
  intros [Hw Hc] Hle Hnew. split; [by apply extend_wf|]. intros h. rewrite extend_get, Hc, Hnew.
  destruct (Z.leb_spec next tip_height); unfold heights; [rewrite elem_of_seqZ|rewrite elem_of_nil]; lia.
Qed.
Lemma retain_get p blocks h : bt_wf Z.compare blocks →
  bt_get Z.compare h (retain p blocks) = if p h then bt_get Z.compare h blocks else None.
Proof.
  unfold bt_wf, retain. induction 1 as [|[k v] blocks Hs IH Hk]; [by destruct (p h)|].
  rewrite filter_cons. cbn. destruct (decide (h = k)) as [->|Hne].
  - rewrite (bt_get_cons_eq Z.compare). case_decide as Hp; [by rewrite (bt_get_cons_eq Z.compare), Hp|].
    rewrite IH. destruct (p k); [done|done].
  - rewrite (bt_get_cons_ne Z.compare) by done. case_decide; [rewrite (bt_get_cons_ne Z.compare) by done|]; exact IH.
Qed.
Lemma retain_wf p blocks : bt_wf Z.compare blocks → bt_wf Z.compare (retain p blocks).
Proof.
  unfold bt_wf, retain. induction 1 as [|[k v] blocks Hs IH Hk]; [constructor|]. rewrite filter_cons. case_decide; [|done].
  constructor; [done|]. rewrite Forall_forall in *. intros x [_ Hx]%list_elem_of_filter. by apply Hk.
Qed.
Lemma retain_spans p blocks from next next' :
  spans blocks from next → (∀ h, from ≤ h < next → p h = true ↔ h < next') → next' ≤ next → spans (retain p blocks) from next'.
Proof.
  intros [Hw Hc] Hp Hle. split; [by apply retain_wf|]. intros h. rewrite retain_get by done. destruct (p h) eqn:Hph.
  - rewrite Hc. split; [|lia]. intros Hh. split; [lia|]. by apply Hp.
  - split; [by intros [? [=]]|]. intros Hh. assert (p h = true) by (apply Hp; lia). congruence.
Qed.

(** Neighbouring heights are neighbours in the map. *)
Lemma adjacent_zip (l : Blocks) k a b : bt_wf Z.compare l → (k, a) ∈ l → (k + 1, b) ∈ l →
  ((k, a), (k + 1, b)) ∈ zip l (drop 1 l).
Proof.
  unfold bt_wf. induction 1 as [|x l Hs IH Hx]; [set_solver|]. intros Ha Hb. cbn [drop].
  rewrite Forall_forall in Hx. unfold key_lt in Hx.
  apply elem_of_cons in Ha as [<-|Ha].
  - apply elem_of_cons in Hb as [Hb|Hb]; [exfalso; injection Hb; lia|].
    destruct l as [|y l]; [set_solver|]. cbn [zip_with zip]. apply elem_of_cons. left. f_equal.
    apply elem_of_cons in Hb as [<-|Hb]; [done|]. exfalso. inversion Hs as [|? ? Hs' Hy]; subst. rewrite Forall_forall in Hy.
    specialize (Hy _ Hb). specialize (Hx y ltac:(set_solver)). unfold key_lt in Hy. cbn in *.
    rewrite Z.compare_lt_iff in Hx, Hy. lia.
  - apply elem_of_cons in Hb as [<-|Hb]; [exfalso; specialize (Hx _ Ha); cbn in Hx; rewrite Z.compare_lt_iff in Hx; lia|].
    destruct l as [|y l]; [set_solver|]. cbn [zip_with zip]. apply elem_of_cons. right. by apply IH.
Qed.
Lemma no_link_break blocks from h lo hi parent : bt_wf Z.compare blocks → first_link_break blocks from = None → from ≤ h →
  bt_get Z.compare h blocks = Some lo → bt_get Z.compare (h + 1) blocks = Some hi → wb_parent hi = Some parent → parent = wb_hash lo.
Proof.
  intros Hw Hn Hh Hlo Hhi Hp. apply (bt_get_elem Z.compare) in Hlo, Hhi; try done.
  pose proof (adjacent_zip blocks h lo hi Hw Hlo Hhi) as Hin. unfold first_link_break in Hn.
  destruct (decide (parent = wb_hash lo)) as [|Hne]; [done|]. exfalso.
  destruct (filter _ _) as [|e es] eqn:Hf in Hn; [|done].
  assert (((h, lo), (h + 1, hi)) ∈ ([] : list ((Z * WalkedBlock) * (Z * WalkedBlock)))) as Hc; [|by apply elem_of_nil in Hc].
  rewrite <- Hf. apply list_elem_of_filter. split; [|done]. cbn. rewrite Hp, (proj2 (Z.leb_le _ _) Hh), Z.eqb_refl. cbn.
  apply negb_true_iff. by apply String.eqb_neq.
Qed.

Section walked.
Context {W : Type} (tip : chain (W := W) (Z * string)) (block_hash : Z -> chain (W := W) string).
Context (linked_coinbase : Z -> chain (W := W) (CoinbaseView * option string)) (recognizer : PoolRecognizer).

Lemma chain_bind_Ok {A B} (m : chain (W := W) A) (f : A -> chain B) w b w' :
  (m ≫= f) w = Ok (b, w') → ∃ a w1, m w = Ok (a, w1) ∧ f a w1 = Ok (b, w').
Proof. intros ([a w1] & Hm & Hf)%bind_Ok. eauto. Qed.

Lemma read_blocks_keys hs w bs w' : read_blocks linked_coinbase recognizer hs w = Ok (bs, w') → bs.*1 = hs.
Proof.
  revert w bs w'. induction hs as [|h hs IH]; intros w bs w'; cbn [read_blocks]; [by intros [= <- <-]|].
  intros (b & w1 & ([c p] & w2 & _ & [= <- <-])%chain_bind_Ok & (bs' & w3 & Hbs & [= <- <-])%chain_bind_Ok)%chain_bind_Ok.
  cbn. f_equal. by eapply IH.
Qed.
Lemma find_keep_range fuel blocks from height w k w' :
  find_keep block_hash fuel blocks from height w = Ok (Some k, w') → from ≤ k ≤ height.
Proof.
  revert height w. induction fuel as [|fuel IH]; intros height w; cbn [find_keep]; [by intros [=]|].
  destruct (Z.leb_spec from height); cbn [negb]; [|by intros [=]].
  assert (∀ w, (if height =? 0 then mret None else find_keep block_hash fuel blocks from (height - 1)) w = Ok (Some k, w') →
    from ≤ k ≤ height) as Hnext.
  { intros w1. destruct (height =? 0); [by intros [=]|]. intros Hk%IH. lia. }
  destruct (bt_get Z.compare height blocks); [|apply Hnext].
  intros (hash & w1 & _ & Hk)%chain_bind_Ok. destruct (String.eqb _ _); [|by eapply Hnext]. injection Hk as <- _. lia.
Qed.

Record linked_walk (from_height : Z) (walk : ChainWalk) : Prop := {
  lw_complete : ∀ h, from_height ≤ h ≤ cw_tip_height walk → is_Some (bt_get Z.compare h (cw_blocks walk));
  lw_from : ∀ h b, bt_get Z.compare h (cw_blocks walk) = Some b → from_height ≤ h;
  lw_top : from_height ≤ cw_tip_height walk →
    wb_hash <$> bt_get Z.compare (cw_tip_height walk) (cw_blocks walk) = Some (cw_tip_hash walk);
  lw_linked : ∀ h lo hi parent, bt_get Z.compare h (cw_blocks walk) = Some lo →
    bt_get Z.compare (h + 1) (cw_blocks walk) = Some hi → wb_parent hi = Some parent → parent = wb_hash lo;
  lw_sorted : bt_wf Z.compare (cw_blocks walk);
}.

Lemma top_is_tip_hash blocks from tip_height tip_hash : top_is_tip blocks from tip_height tip_hash = true →
  from ≤ tip_height → wb_hash <$> bt_get Z.compare tip_height blocks = Some tip_hash.
Proof.
  unfold top_is_tip. intros [Ht%Z.ltb_lt|Ht]%orb_true_iff Hle; [lia|].
  destruct (bt_get Z.compare tip_height blocks); [|done]. apply String.eqb_eq in Ht. cbn. by rewrite Ht.
Qed.
Lemma broken_at_below blocks from next tip_height tip_hash broken : spans blocks from next → tip_height < next →
  broken_at blocks from tip_height tip_hash = Some broken → broken < next.
Proof.
  intros [Hw Hc] Htip. unfold broken_at. destruct (first_link_break blocks from) as [b|] eqn:Hb.
  - intros [= <-]. unfold first_link_break in Hb. destruct (filter _ _) as [|e es] eqn:Hf in Hb; [done|]. injection Hb as <-.
    assert (e ∈ zip blocks (drop 1 blocks)) as He.
    { assert (e ∈ filter (fun pair => link_break from pair = true) (zip blocks (drop 1 blocks))) as He by (rewrite Hf; set_solver).
      by apply list_elem_of_filter in He as [_ He]. }
    destruct e as [lo [h hi]]. apply elem_of_zip_r in He. cbn. apply (Hc h). exists hi. apply (bt_get_elem Z.compare); [done|].
    eapply elem_of_submseteq; [exact He|]. apply sublist_submseteq, sublist_drop.
  - destruct (top_is_tip _ _ _ _); [done|]. by intros [= <-].
Qed.

Lemma walk_loop_linked fuel from blocks tip_height tip_hash next w walk w' :
  0 ≤ from → from ≤ next → spans blocks from next →
  walk_loop tip block_hash linked_coinbase recognizer fuel from blocks tip_height tip_hash next w = Ok (Some walk, w') →
  linked_walk from walk.
Proof.
  intros Hf0. revert blocks tip_height tip_hash next w. induction fuel as [|fuel IH]; intros blocks tip_height tip_hash next w Hle Hc; [by intros [=]|].
  cbn [walk_loop]. intros (new & w1 & Hnew & Hrest)%chain_bind_Ok.
  assert (spans (extend blocks new) from (Z.max next (tip_height + 1))) as Hcov.
  { apply extend_spans; [done..|]. destruct (next <=? tip_height); [by eapply read_blocks_keys|by injection Hnew as <- _]. }
  set (blocks' := extend blocks new) in *. destruct (broken_at blocks' from tip_height tip_hash) as [broken|] eqn:Hb.
  - apply chain_bind_Ok in Hrest as ([th hh] & w2 & _ & Hrest).
    set (again := Z.max (saturating_sub U64 broken 1) from) in *.
    pose proof (broken_at_below blocks' from _ tip_height tip_hash broken Hcov ltac:(lia) Hb) as Hbr.
    assert (again ≤ Z.max next (tip_height + 1)) by (unfold again, saturating_sub, saturating; cbn [int_min int_max]; lia).
    eapply (IH _ _ _ again); [lia| |exact Hrest].
    eapply retain_spans; [exact Hcov| |lia]. intros h Hh. apply Z.ltb_lt.
  - apply chain_bind_Ok in Hrest as ([now_height now_hash] & w2 & _ & Hrest).
    destruct (String.eqb now_hash tip_hash).
    + injection Hrest as <- <-. unfold broken_at in Hb. destruct (first_link_break blocks' from) eqn:Hlb; [done|].
      destruct (top_is_tip blocks' from tip_height tip_hash) eqn:Htop; [|done]. destruct Hcov as [Hw Hcov].
      constructor; cbn; [|  |by apply top_is_tip_hash| |done].
      * intros h Hh. apply Hcov. lia.
      * intros h b Hh. apply (Hcov h). by eexists.
      * intros h lo hi parent Hlo. eapply no_link_break; [done|done| |done]. apply (Hcov h). by eexists.
    + apply chain_bind_Ok in Hrest as (keep & w3 & Hkeep & Hrest). destruct keep as [k|].
      * apply find_keep_range in Hkeep. eapply (IH _ _ _ (k + 1)); [lia| |exact Hrest].
        eapply retain_spans; [exact Hcov| |lia]. intros h Hh. rewrite Z.leb_le. lia.
      * eapply (IH _ _ _ from); [lia| |exact Hrest]. eapply retain_spans; [exact Hcov| |lia]. intros h Hh. split; [done|lia].
Qed.
End walked.

(** ** A still chain *)
Lemma extend_get_val blocks f hs h :
  bt_get Z.compare h (extend blocks ((fun h => (h, f h)) <$> hs)) = if decide (h ∈ hs) then Some (f h) else bt_get Z.compare h blocks.
Proof.
  unfold extend. revert blocks. induction hs as [|k hs IH]; intros blocks; cbn; [by rewrite decide_False by set_solver|].
  rewrite IH. destruct (decide (h ∈ hs)) as [Hin|Hin]; [by rewrite decide_True by set_solver|].
  destruct (decide (k = h)) as [->|Hk].
  - rewrite (bt_get_insert_eq Z.compare), decide_True by set_solver. done.
  - rewrite (bt_get_insert_ne Z.compare), decide_False by (done || set_solver). done.
Qed.

Section still.
Context {W : Type} (recognizer : PoolRecognizer) (tip_height : Z) (view : Z -> CoinbaseView) (parent : Z -> option string).
Hypothesis Hlinked : ∀ h p, parent (h + 1) = Some p → p = cv_block_hash (view h).
Definition still_block (h : Z) : WalkedBlock :=
  {| wb_hash := cv_block_hash (view h); wb_parent := parent h; wb_pool := is_pool_block recognizer (view h) |}.
Definition still_tip : chain (W := W) (Z * string) := mret (tip_height, cv_block_hash (view tip_height)).
Definition still_coinbase (h : Z) : chain (W := W) (CoinbaseView * option string) := mret (view h, parent h).

Lemma read_still hs w : read_blocks still_coinbase recognizer hs w = Ok ((fun h => (h, still_block h)) <$> hs, w).
Proof.
  induction hs as [|h hs IH]; [done|].
  cbn [read_blocks fmap list_fmap].
  unfold mbind, chain_bind.
  change (read_block still_coinbase recognizer h w) with (@Ok anyhow _ ((h, still_block h), w)).
  cbn [mbind result_bind]. by rewrite IH.
Qed.

Lemma no_break_of blocks from : bt_wf Z.compare blocks →
  (∀ h b, bt_get Z.compare h blocks = Some b → b = still_block h) → first_link_break blocks from = None.
Proof.
  intros Hw Hb. unfold first_link_break. destruct (filter _ _) as [|e es] eqn:Hf; [done|]. exfalso.
  assert (e ∈ filter (fun pair => link_break from pair = true) (zip blocks (drop 1 blocks))) as He by (rewrite Hf; set_solver).
  apply list_elem_of_filter in He as [He Hin]. destruct e as [[lh lo] [hh hi]]. cbn in He.
  pose proof (elem_of_zip_l _ _ _ _ Hin) as Hlo. apply elem_of_zip_r in Hin as Hhi.
  assert ((hh, hi) ∈ blocks) as Hhi' by (eapply elem_of_submseteq; [exact Hhi|]; apply sublist_submseteq, sublist_drop).
  apply (bt_get_elem Z.compare) in Hlo as Hlo'; [|done]. apply (bt_get_elem Z.compare) in Hhi' as Hhi''; [|done].
  apply Hb in Hlo', Hhi''. subst. apply andb_true_iff in He as [[_ ->%Z.eqb_eq]%andb_true_iff Hp]. cbn in Hp.
  destruct (parent (lh + 1)) as [p|] eqn:Hpar; [|done]. apply Hlinked in Hpar. apply negb_true_iff, String.eqb_neq in Hp. done.
Qed.

Lemma walk_still fuel from block_hash w : 0 ≤ from →
  ∃ walk, walk_chain still_tip block_hash still_coinbase recognizer (S fuel) from w = Ok (Some walk, w) ∧
    cw_tip_height walk = tip_height ∧ cw_tip_hash walk = cv_block_hash (view tip_height) ∧
    ∀ h, bt_get Z.compare h (cw_blocks walk) = if decide (from ≤ h ≤ tip_height) then Some (still_block h) else None.
Proof.
  intros Hf. set (new := if from <=? tip_height then (fun h => (h, still_block h)) <$> heights from tip_height else []).
  assert (∀ h, bt_get Z.compare h (extend [] new) = if decide (from ≤ h ≤ tip_height) then Some (still_block h) else None) as Hget.
  { intros h. unfold new. destruct (Z.leb_spec from tip_height).
    - rewrite extend_get_val. unfold heights. destruct (decide (h ∈ seqZ _ _)) as [Hin|Hin]; rewrite elem_of_seqZ in Hin;
        [rewrite decide_True by lia|rewrite decide_False by lia]; done.
    - rewrite decide_False by lia. done. }
  exists {| cw_tip_height := tip_height; cw_tip_hash := cv_block_hash (view tip_height); cw_blocks := extend [] new |}.
  split; [|split; [|split; [|exact Hget]]]; [|done|done].
  unfold walk_chain, mbind, chain_bind. change (still_tip w) with (@Ok anyhow _ ((tip_height, cv_block_hash (view tip_height)), w)).
  cbn [mbind result_bind walk_loop]. unfold mbind, chain_bind.
  assert ((if from <=? tip_height then read_blocks still_coinbase recognizer (heights from tip_height) else mret []) w = Ok (new, w)) as ->.
  { unfold new. destruct (from <=? tip_height); [apply read_still|done]. }
  assert (broken_at (extend [] new) from tip_height (cv_block_hash (view tip_height)) = None) as Hbr.
  { unfold broken_at. rewrite no_break_of.
    - unfold top_is_tip. rewrite Hget. destruct (Z.ltb_spec tip_height from); [done|]. rewrite decide_True by lia. cbn. by rewrite String.eqb_refl.
    - apply extend_wf. constructor.
    - intros h b. rewrite Hget. case_decide; [by intros [= <-]|done]. }
  cbn [mbind result_bind]. rewrite Hbr.
  change (still_tip w) with (@Ok anyhow _ ((tip_height, cv_block_hash (view tip_height)), w)).
  cbn [mbind result_bind]. by rewrite String.eqb_refl.
Qed.
End still.

(** C10: what a passed transfer has seen of the chain.  Whatever the chain
    answers between the reads, if a walk from [from_height] finishes and every
    check passes on its scan, then: the walk holds a block at every height from
    there to the tip, the top one is the tip it reports, and every block whose
    parent is known names the block below it; every pool block among them is
    landed, audited and confirmed in this node's ledger; the scan starts at least
    the reorganization margin below the tip the peer's last claim recorded, or at
    0 when it recorded none; and neither this node nor the newest row of the peer
    claims ownership. *)
Theorem transfer_scan_complete {W} tip block_hash linked_coinbase recognizer fuel from_height (w w' : W) walk landed facts :
  0 ≤ from_height →
  walk_chain tip block_hash linked_coinbase recognizer fuel from_height w = Ok (Some walk, w') →
  tf_scan facts = scan_of landed from_height walk → passed (transfer_checks facts) = true →
  linked_walk from_height walk ∧
  (∀ h b, bt_get Z.compare h (cw_blocks walk) = Some b → wb_pool b = true → landed !! wb_hash b = Some ("confirmed", true)) ∧
  (∀ claim, tf_peer_claim facts = Some claim →
     match tip_height claim with Some t => from_height ≤ Z.max 0 (t - SCAN_REORG_MARGIN) | None => from_height = 0 end) ∧
  claims (tf_own facts) = false ∧ claims (newest (peer_live (tf_peer_read facts)) (tf_peer_synced facts)) = false ∧
  claims (peer_live (tf_peer_read facts)) = false.
Proof.
  intros Hf Hwalk Hscan Hpass. unfold walk_chain in Hwalk. apply chain_bind_Ok in Hwalk as ([th hh] & w1 & _ & Hwalk).
  assert (linked_walk from_height walk) as Hlw.
  { eapply walk_loop_linked; [done| | |exact Hwalk]; [done|]. split; [constructor|]. intros h. split; [by intros [? [=]]|lia]. }
  unfold passed, transfer_checks in Hpass. rewrite !forallb_app in Hpass. apply andb_true_iff in Hpass as [Hhead Hpass].
  apply andb_true_iff in Hpass as [Hpeer Htail]. cbn in Hhead, Htail. apply andb_true_iff in Hhead as [_ Hown].
  rewrite andb_true_r in Hown. apply negb_true_iff in Hown. rewrite andb_true_r, bool_decide_eq_true in Htail.
  destruct (tf_peer_read facts) as [live own_at_peer primary|] eqn:Hread; [|done].
  cbn in Hpeer. apply andb_true_iff in Hpeer as [Hnot Hpeer]. apply andb_true_iff in Hpeer as [_ Hpeer].
  apply andb_true_iff in Hpeer as [Hstart _]. split_and!; [done| | |done| |].
  - intros h b Hb Hpool. rewrite Hscan in Htail. unfold unresolved, scan_of in Htail. cbn in Htail.
    destruct (decide (landing_of landed (wb_hash b) = Confirmed)) as [Hl|Hl].
    { unfold landing_of in Hl. destruct (landed !! wb_hash b) as [[st [|]]|]; [|done..]. destruct (String.eqb_spec st "confirmed"); [by subst|done]. }
    exfalso. set (sb := {| sb_height := h; sb_block_hash := wb_hash b; sb_landing := landing_of landed (wb_hash b) |}).
    assert (sb ∈ ([] : list ScannedBlock)) as Hin; [|by apply elem_of_nil in Hin]. rewrite <- Htail. apply list_elem_of_filter.
    split; [done|]. apply list_elem_of_fmap. exists (h, b). split; [done|]. apply list_elem_of_filter. split; [done|].
    apply (bt_get_elem Z.compare); [by apply (lw_sorted from_height)|done].
  - intros claim Hc. destruct (tf_peer_claim_read facts); [|done]. destruct (tf_peer_claim_conflict facts); [done|]. cbn in Hstart.
    rewrite Hc, Hscan in Hstart. cbn in Hstart. destruct (tip_height claim) as [t|]; [|by apply Z.eqb_eq].
    apply Z.leb_le in Hstart. unfold saturating_sub, saturating in Hstart. cbn [int_min int_max] in Hstart. lia.
  - unfold peer_not_owner in Hnot. cbn [peer_live]. destruct (newest live (tf_peer_synced facts)); [|done].
    cbn. destruct (rr_carry_owner r); [by rewrite andb_false_r in Hnot|done].
  - unfold peer_not_owner in Hnot. cbn [peer_live]. destruct (newest live (tf_peer_synced facts)); [|done].
    by apply andb_true_iff in Hnot as [_ Hnot%negb_true_iff].
Qed.

(** On a chain that does not move, the walk ends in its first round with
    exactly the blocks from [from_height] to the tip. *)
Theorem still_chain_walk_ends {W} recognizer tip_height view parent fuel from_height block_hash (w : W) :
  0 ≤ from_height → (∀ h p, parent (h + 1) = Some p → p = cv_block_hash (view h)) →
  ∃ walk, walk_chain (still_tip tip_height view) block_hash (still_coinbase view parent) recognizer (S fuel) from_height w = Ok (Some walk, w) ∧
    cw_tip_height walk = tip_height ∧ cw_tip_hash walk = cv_block_hash (view tip_height) ∧
    ∀ h, bt_get Z.compare h (cw_blocks walk) =
      if decide (from_height ≤ h ≤ tip_height) then Some (still_block recognizer view parent h) else None.
Proof. intros Hf Hl. by apply walk_still. Qed.

(** * A concrete transfer *)
Definition example_height_name (h : Z) : string := if h =? 0 then "g" else if h =? 1 then "one" else "two".
Definition example_view (h : Z) : CoinbaseView :=
  {| cv_block_hash := example_height_name h; cv_script_sig := if h =? 1 then str_bytes "x/PRISM/y" else []; cv_output_scripts := [] |}.
Definition example_parent (h : Z) : option string := if (1 <=? h) && (h <=? 2) then Some (example_height_name (h - 1)) else None.
Definition example_recognizer : PoolRecognizer := {| tags := [str_bytes "/PRISM/"]; fee_scripts := [] |}.
Definition example_walk : result anyhow (option ChainWalk * ()) :=
  walk_chain (still_tip 2 example_view) (fun _ => mret "") (still_coinbase example_view example_parent) example_recognizer 1 0 ().
Definition example_landed : gmap string (string * bool) := {["one" := ("confirmed", true)]}.
Definition example_role (origin epoch : Z) (owner : bool) (action : string) (tip : option Z) : RoleRow :=
  {| origin_node := origin; epoch := epoch; rr_carry_owner := owner; action := action;
     detail := {| rd_tip_height := tip; rd_peer_epoch := None; rd_text := "" |} |}.
Definition example_facts (walk : ChainWalk) : TransferFacts := {|
  tf_node_index := 1; tf_database_node := Some 1; tf_own := Some (example_role 1 7 false "seed" None);
  tf_peer_read := Answered (Some (example_role 0 9 false "release" (Some 0))) None true; tf_peer_synced := None;
  tf_peer_claim := Some (example_role 0 5 true "seed" None); tf_peer_claim_read := true; tf_peer_claim_conflict := false;
  tf_tip_height := 2; tf_release_depth := 2; tf_scan := scan_of example_landed 0 walk |}.

Lemma transfer_scan_complete_witness :
  ∃ walk, example_walk = Ok (Some walk, ()) ∧ passed (transfer_checks (example_facts walk)) = true ∧ linked_walk 0 walk.
Proof.
  assert (match example_walk with Ok (Some walk, _) => passed (transfer_checks (example_facts walk)) | _ => false end = true) as Hok
    by (vm_compute; reflexivity).
  destruct example_walk as [[[walk|] []]| |] eqn:Hw; try discriminate Hok. exists walk. split; [reflexivity|]. split; [exact Hok|].
  refine (proj1 (transfer_scan_complete _ _ _ _ 1 0 () () walk example_landed (example_facts walk) _ Hw eq_refl Hok)). discriminate.
Defined.
Lemma still_chain_walk_ends_witness : ∃ walk, example_walk = Ok (Some walk, ()) ∧ cw_tip_hash walk = "two".
Proof.
  destruct (still_chain_walk_ends example_recognizer 2 example_view example_parent 0 0 (fun _ => mret "") ()) as (walk & Hw & _ & Hh & _).
  - discriminate.
  - intros h p. unfold example_parent. destruct (_ && _); [|discriminate]. intros Hp. injection Hp as <-.
    unfold example_view. cbn [cv_block_hash]. f_equal. ring.
  - exists walk. split; [exact Hw|exact Hh].
Defined.

(** The tip can move down while a break is read again; blocks above it stay. *)
Definition moving_tip : chain (W := nat) (Z * string) := fun n =>
  Ok (if (n =? 0)%nat then (3, "stale") else (0, "g"), S n).
Example blocks_above_the_tip :
  match walk_chain moving_tip (fun _ n => Ok ("", n)) (fun h n => Ok ((example_view h, example_parent h), n)) example_recognizer 3 0 0%nat with
  | Ok (Some walk, _) => (cw_tip_height walk, (cw_blocks walk).*1) | _ => (0, []) end = (0, [0; 1]).
Proof. vm_compute. reflexivity. Qed.
