(* ===== verification/CarryPair.v ===== *)
(** The pair of dual-writer nodes (qbit-prism-server/src/carry_owner.rs and
    carry_owner/transfer.rs): each node's guard checks, the peer sync of the
    journals, restarts, and the operator's [release] and [transfer], interleaved
    at the reads and transactions they make.

    A node's journal is never rolled back, each database carries its own node
    identity, and the operator runs one [release] or [transfer] on the pair at a
    time.  A check fails wherever it awaits; a read of the peer fails, answers
    from the peer's journal, or, over the fallback, from any part of it. *)
From Stdlib Require Import ZArith Lia.
From stdpp Require Import base list strings relations.
From S2P Require Import Prelude Codec CarryGate CarryOwner CarryTransfer.

Open Scope Z_scope.

(** * State *)
(** Where a check is: after the local read; after the peer read that may lead
    to a seed, before it and after it; and with everything read. *)
Inductive check_pc :=
| NoCheck
| LocalRead (local : LatestRoles)
| SeedRead (local : LatestRoles) (read : PeerRead)
| SeedDone (read : PeerRead)
| AllRead (local : LatestRoles) (read : PeerRead).
Record NodeState := {
  ns_journal : Journal;
  ns_setting : bool;        (* PRISM_CARRY_OWNER *)
  ns_guard : Guard;
  ns_gate : bool;           (* the carry gate *)
  ns_check : check_pc;
}.
(** A [transfer] on node [n]: the live row of the peer and the local rows its
    checks read, before and after it has read the peer again. *)
Inductive operator_pc :=
| NoOperator
| Checked (n : NodeIndex) (live : option RoleRow) (local : LatestRoles) (scan : ChainScan)
| Reread (n : NodeIndex) (live : RoleRow) (local : LatestRoles) (scan : ChainScan).
Record Pair := { node_a : NodeState; node_b : NodeState; operator : operator_pc }.

Definition at_node (s : Pair) (n : NodeIndex) : NodeState := match n with A => node_a s | B => node_b s end.
Definition set_node (s : Pair) (n : NodeIndex) (x : NodeState) : Pair :=
  match n with
  | A => {| node_a := x; node_b := node_b s; operator := operator s |}
  | B => {| node_a := node_a s; node_b := x; operator := operator s |}
  end.
Definition set_operator (s : Pair) (o : operator_pc) : Pair := {| node_a := node_a s; node_b := node_b s; operator := o |}.
Definition with_journal (x : NodeState) (j : Journal) : NodeState :=
  {| ns_journal := j; ns_setting := ns_setting x; ns_guard := ns_guard x; ns_gate := ns_gate x; ns_check := ns_check x |}.
Definition with_check (x : NodeState) (c : check_pc) : NodeState :=
  {| ns_journal := ns_journal x; ns_setting := ns_setting x; ns_guard := ns_guard x; ns_gate := ns_gate x; ns_check := c |}.
Definition fresh (setting : bool) (j : Journal) : NodeState :=
  {| ns_journal := j; ns_setting := setting; ns_guard := guard_default; ns_gate := false; ns_check := NoCheck |}.
Definition journal_at (s : Pair) (n : NodeIndex) : Journal := ns_journal (at_node s n).
Definition pair_init (setting_a setting_b : bool) : Pair :=
  {| node_a := fresh setting_a []; node_b := fresh setting_b []; operator := NoOperator |}.

(** What a read of the peer of [n] may return. *)
Inductive may_read (s : Pair) (n : NodeIndex) : PeerRead -> Prop :=
| read_primary : may_read s n (peer_answer (journal_at s (peer n)) (index n) true)
| read_fallback j : j ⊆ journal_at s (peer n) → may_read s n (peer_answer j (index n) false)
| read_fails : may_read s n ReadFailed.

(** The read a check decides with, once the local rows are known. *)
Definition final_read (x : NodeState) (local : LatestRoles) (read : PeerRead) : PeerRead :=
  if needs_peer true (ns_setting x) (lr_own local) then read else ReadFailed.
Definition inputs_of (x : NodeState) (n : NodeIndex) (local : LatestRoles) (read : PeerRead) (mismatch : option LayoutMismatch)
  : GuardInputs :=
  {| gi_node_index := index n; gi_database_node := Some (index n); gi_env_owner := ns_setting x; gi_own := lr_own local;
     gi_peer_synced := lr_peer local; gi_peer_read := read; gi_layout_mismatch := mismatch |}.

Inductive pair_step : Pair -> Pair -> Prop :=
(* one check *)
| check_local s n : ns_check (at_node s n) = NoCheck →
    pair_step s (set_node s n (with_check (at_node s n) (LocalRead (read_latest_roles (journal_at s n) (index n)))))
| check_seed_read s n local read caught_up :
    ns_check (at_node s n) = LocalRead local → may_seed true (lr_own local) (ns_guard (at_node s n)) caught_up = true → may_read s n read →
    pair_step s (set_node s n (with_check (at_node s n) (SeedRead local read)))
| check_seed s n local read now_ms :
    ns_check (at_node s n) = SeedRead local read → seeds_on read = true →
    pair_step s (set_node s n (with_check
      (with_journal (at_node s n) (seed_role (journal_at s n) now_ms (index n) (ns_setting (at_node s n))).2) (SeedDone read)))
| check_no_seed s n local read :
    ns_check (at_node s n) = SeedRead local read → seeds_on read = false →
    pair_step s (set_node s n (with_check (at_node s n) (AllRead local (final_read (at_node s n) local read))))
| check_reread s n read : ns_check (at_node s n) = SeedDone read →
    let local := read_latest_roles (journal_at s n) (index n) in
    pair_step s (set_node s n (with_check (at_node s n) (AllRead local (final_read (at_node s n) local read))))
| check_peer s n local read caught_up :
    ns_check (at_node s n) = LocalRead local → may_seed true (lr_own local) (ns_guard (at_node s n)) caught_up = false → may_read s n read →
    pair_step s (set_node s n (with_check (at_node s n) (AllRead local (final_read (at_node s n) local read))))
| check_decide s n local read mismatch : ns_check (at_node s n) = AllRead local read →
    let decided := guard_decide (ns_guard (at_node s n)) (inputs_of (at_node s n) n local read mismatch) in
    pair_step s (set_node s n {| ns_journal := journal_at s n; ns_setting := ns_setting (at_node s n); ns_guard := decided.2;
                                 ns_gate := decision_paying decided.1; ns_check := NoCheck |})
| check_fails s n : pair_step s (set_node s n (with_check (at_node s n) NoCheck))
(* a frontend restarts, with any setting *)
| restart s n setting : pair_step s (set_node s n (fresh setting (journal_at s n)))
(* peer sync copies a row of the peer's *)
| sync s n r : r ∈ journal_at s (peer n) → origin_node r = index (peer n) →
    pair_step s (set_node s n (with_journal (at_node s n) (r :: journal_at s n)))
(* carry-owner release: its transaction, after checks that passed on [own] *)
| release s n own now_ms tip reason e j : operator s = NoOperator → passed (release_checks (Some (index n)) (index n) own) = true →
    release_tx (journal_at s n) (index n) own now_ms tip reason = Ok (e, j) →
    pair_step s (set_node s n (with_journal (at_node s n) j))
(* carry-owner transfer: the checks (their view of the peer came before the local read),
   the second read of the peer, the copy of its row, the acquire *)
| transfer_check s n j claim depth scan :
    operator s = NoOperator → j ⊆ journal_at s (peer n) →
    passed (transfer_checks (transfer_facts (index n) (Some (index n)) (Some (journal_view j (index n)))
      (read_latest_roles (journal_at s n) (index n)) claim depth scan)) = true →
    pair_step s (set_operator s (Checked n (latest (index (peer n)) j) (read_latest_roles (journal_at s n) (index n)) scan))
| transfer_reread s n checked_live local scan row :
    operator s = Checked n checked_live local scan →
    reread_tail checked_live (Some (latest (index (peer n)) (journal_at s (peer n)))) = Ok row →
    pair_step s (set_operator s (Reread n row local scan))
| transfer_copy s n live local scan : operator s = Reread n live local scan →
    pair_step s (set_node s n (with_journal (at_node s n) (live :: journal_at s n)))
| transfer_acquire s n live local scan active now_ms reason e j :
    operator s = Reread n live local scan →
    acquire_tx (journal_at s n) (index n) local (Some live) scan active now_ms reason = Ok (e, j) →
    pair_step s (set_operator (set_node s n (with_journal (at_node s n) j)) NoOperator)
| transfer_stops s : pair_step s (set_operator s NoOperator).

(** Node [n] builds carry-paying work: its gate is open and its journal claims. *)
Definition pays (s : Pair) (n : NodeIndex) : Prop :=
  job_prior_balance_sql_in {| dual_writer_identity := Some {| node := n; carry_owner := ns_setting (at_node s n) |};
      carry := swap_paying gate_default (ns_gate (at_node s n)) |} (rr_carry_owner <$> latest (index n) (journal_at s n))
  = PRIOR_BALANCE_SQL.

(** * Journals *)
Definition own_rows (n : Z) (j : Journal) : list RoleRow := filter (fun r => origin_node r = n) j.
(** Newest first. *)
Definition descending (l : list RoleRow) : Prop := Sorted.StronglySorted (fun a b => epoch b < epoch a) l.

Lemma newest_in a b r : newest a b = Some r → a = Some r ∨ b = Some r.
Proof. destruct a as [a|], b as [b|]; cbn; try case_match; naive_solver. Qed.
Lemma latest_in n j r : latest n j = Some r → r ∈ j ∧ origin_node r = n.
Proof.
  induction j as [|x j IH]; [done|]. cbn [latest]. destruct (Z.eqb_spec (origin_node x) n).
  - intros [[= <-]|Hr]%newest_in; [set_solver|]. apply IH in Hr. set_solver.
  - intros Hr%IH. set_solver.
Qed.
Lemma latest_own_in n j r : latest n j = Some r → r ∈ own_rows n j.
Proof. intros [Hr Ho]%latest_in. by apply list_elem_of_filter. Qed.
Lemma latest_head n j : descending (own_rows n j) → latest n j = head (own_rows n j).
Proof.
  unfold own_rows. induction j as [|x j IH]; [done|]. rewrite filter_cons. cbn [latest].
  destruct (Z.eqb_spec (origin_node x) n); [rewrite decide_True by done|rewrite decide_False by done; exact IH].
  intros Hd. inversion Hd as [|? ? Hs Hx]; subst. cbn [head]. destruct (latest _ j) as [r|] eqn:Hr; [|done].
  cbn. assert (r ∈ own_rows (origin_node x) j) as Hin by (by apply latest_own_in). rewrite Forall_forall in Hx. specialize (Hx r Hin).
  destruct (Z.ltb_spec (epoch r) (epoch x)); [done|lia].
Qed.
Lemma next_epoch_above j now_ms r : r ∈ j → epoch r < next_epoch j now_ms.
Proof.
  intros Hr. unfold next_epoch. destruct j as [|x j]; [set_solver|].
  enough (epoch r ≤ foldr (fun r m => Z.max (epoch r) m) (epoch x) j) by lia.
  apply elem_of_cons in Hr as [->|Hr]; [induction j; cbn; lia|].
  induction j as [|y j IH]; [set_solver|]. cbn. apply elem_of_cons in Hr as [->|Hr]; [lia|]. specialize (IH Hr). lia.
Qed.
Lemma own_rows_cons_ne n r j : origin_node r ≠ n → own_rows n (r :: j) = own_rows n j.
Proof. intros Hr. unfold own_rows. by rewrite filter_cons_False. Qed.
Lemma own_rows_cons_eq n r j : origin_node r = n → own_rows n (r :: j) = r :: own_rows n j.
Proof. intros Hr. unfold own_rows. by rewrite filter_cons_True. Qed.

Lemma peer_peer n : peer (peer n) = n.
Proof. by destruct n. Qed.
Lemma peer_ne n : peer n ≠ n.
Proof. by destruct n. Qed.
Lemma index_peer_ne n : index (peer n) ≠ index n.
Proof. by destruct n. Qed.
Lemma other_node m n : m ≠ n → m = peer n.
Proof. by destruct m, n. Qed.
Lemma at_set_eq s n x : at_node (set_node s n x) n = x.
Proof. by destruct n. Qed.
Lemma at_set_peer s n x : at_node (set_node s n x) (peer n) = at_node s (peer n).
Proof. by destruct n. Qed.
Lemma at_set_operator s o n : at_node (set_operator s o) n = at_node s n.
Proof. by destruct n. Qed.
Lemma operator_set s n x : operator (set_node s n x) = operator s.
Proof. by destruct n. Qed.

(** ** Shapes of a node's own rows *)
Definition later_row (r : RoleRow) : Prop :=
  action r = "release" ∧ rr_carry_owner r = false ∨ action r = "acquire" ∧ rr_carry_owner r = true.
Definition first_row (r : RoleRow) : Prop := action r = "seed" ∨ action r = "acquire" ∧ rr_carry_owner r = true.
Fixpoint shaped (l : list RoleRow) : Prop :=
  match l with [] => True | [r] => first_row r | r :: l => later_row r ∧ shaped l end.

Lemma shaped_cons r l : shaped l → (l = [] → first_row r) → (l ≠ [] → later_row r) → shaped (r :: l).
Proof. destruct l as [|x l]; cbn; [naive_solver|]. intros Hs _ Hl. split; [by apply Hl|done]. Qed.
Lemma shaped_row l r : shaped l → r ∈ l → action r = "seed" ∧ last l = Some r ∨ later_row r.
Proof.
  induction l as [|x l IH]; [set_solver|]. destruct l as [|y l].
  - intros Hf ->%list_elem_of_singleton. destruct Hf as [?|?]; [by left|right; by right].
  - intros [Hx Hs] [->|Hr]%elem_of_cons; [by right|]. by destruct (IH Hs Hr) as [[? ?]|?]; [left|right].
Qed.
Lemma later_not_seed r : later_row r → action r ≠ "seed".
Proof. intros [[-> _]|[-> _]]; done. Qed.
Lemma shaped_head_seed l r : shaped l → head l = Some r → action r = "seed" → l = [r].
Proof.
  destruct l as [|x [|y l]]; [done|by intros _ [= ->]|]. intros [Hx _] [= ->] Ha. by apply later_not_seed in Hx.
Qed.

(** * The invariant *)
Definition own (s : Pair) (n : NodeIndex) : list RoleRow := own_rows (index n) (journal_at s n).
(** A node that claims by its seed has seen a peer whose first row does not claim. *)
Definition evidence (s : Pair) (n : NodeIndex) : Prop :=
  own s n ≠ [] ∧ ∀ r, head (own s n) = Some r → action r = "seed" →
    ∃ f, last (own s (peer n)) = Some f ∧ rr_carry_owner f = false.
Definition local_ok (s : Pair) (n : NodeIndex) (local : LatestRoles) : Prop :=
  (∀ r, lr_own local = Some r → r ∈ own s n) ∧ (∀ r, lr_peer local = Some r → r ∈ own s (peer n)).
Definition read_ok (s : Pair) (n : NodeIndex) (read : PeerRead) : Prop := ∀ r, peer_live read = Some r → r ∈ own s (peer n).
Definition check_ok_at (s : Pair) (n : NodeIndex) (c : check_pc) : Prop :=
  match c with
  | NoCheck => True
  | LocalRead local => local_ok s n local
  | SeedRead local read => local_ok s n local ∧ read_ok s n read
  | SeedDone read => read_ok s n read
  | AllRead local read => local_ok s n local ∧ read_ok s n read
  end.
Definition operator_ok (s : Pair) (o : operator_pc) : Prop :=
  match o with Reread n live _ _ => head (own s (peer n)) = Some live ∧ rr_carry_owner live = false | _ => True end.

Record pair_inv (s : Pair) : Prop := {
  pi_descending n : descending (own s n);
  pi_shaped n : shaped (own s n);
  pi_copies n r : r ∈ journal_at s n → origin_node r = index (peer n) → r ∈ own s (peer n);
  pi_exclusive n a b : head (own s n) = Some a → head (own s (peer n)) = Some b →
    rr_carry_owner a = true → rr_carry_owner b = true → action a = "seed";
  pi_acquired n r : r ∈ own s n → action r = "acquire" → own s (peer n) ≠ [];
  pi_evidence n : ns_gate (at_node s n) = true ∨ peer_confirmed (ns_guard (at_node s n)) = true → evidence s n;
  pi_check n : check_ok_at s n (ns_check (at_node s n));
  pi_operator : operator_ok s (operator s);
}.

(** Invariants that speak of own rows alone carry over to equal or longer ones. *)
Lemma check_ok_mono s s' n c : (∀ m r, r ∈ own s m → r ∈ own s' m) → check_ok_at s n c → check_ok_at s' n c.
Proof. intros Hsub. destruct c; unfold check_ok_at, local_ok, read_ok; naive_solver. Qed.

Lemma inv_same_own s s' : pair_inv s → (∀ n, own s' n = own s n) →
  (∀ n r, r ∈ journal_at s' n → origin_node r = index (peer n) → r ∈ own s (peer n)) →
  (∀ n, ns_gate (at_node s' n) = true ∨ peer_confirmed (ns_guard (at_node s' n)) = true → evidence s n) →
  (∀ n, check_ok_at s n (ns_check (at_node s' n))) → operator_ok s (operator s') → pair_inv s'.
Proof.
  intros [Hd Hs Hc He Ha Hev Hch Hop] Hown Hcopies Hevid Hcheck Hoper.
  constructor; intros *; rewrite ?Hown; eauto.
  - intros Hg. specialize (Hevid n Hg). unfold evidence in *. by rewrite !Hown.
  - eapply check_ok_mono; [|apply Hcheck]. intros m r. by rewrite Hown.
  - unfold operator_ok in *. destruct (operator s'); try done. by rewrite Hown.
Qed.
(** A change of node [n] alone that keeps its own rows. *)
Lemma inv_set_node s n x : pair_inv s → own_rows (index n) (ns_journal x) = own s n →
  (∀ r, r ∈ ns_journal x → origin_node r = index (peer n) → r ∈ own s (peer n)) →
  (ns_gate x = true ∨ peer_confirmed (ns_guard x) = true → evidence s n) → check_ok_at s n (ns_check x) → pair_inv (set_node s n x).
Proof.
  intros Hinv Hown Hcopies Hevid Hcheck.
  apply (inv_same_own s); [done| | | | |].
  - intros m. unfold own, journal_at. destruct (decide (m = n)) as [->|Hm]; [by rewrite at_set_eq|]. rewrite (other_node m n Hm). by rewrite at_set_peer.
  - intros m r. unfold journal_at. destruct (decide (m = n)) as [->|Hm]; [rewrite at_set_eq; apply Hcopies|].
    rewrite (other_node m n Hm), at_set_peer. apply (pi_copies s Hinv).
  - intros m. destruct (decide (m = n)) as [->|Hm]; [by rewrite at_set_eq|]. rewrite (other_node m n Hm), at_set_peer. apply (pi_evidence s Hinv).
  - intros m. destruct (decide (m = n)) as [->|Hm]; [by rewrite at_set_eq|]. rewrite (other_node m n Hm), at_set_peer. apply (pi_check s Hinv).
  - rewrite operator_set. apply (pi_operator s Hinv).
Qed.
Lemma inv_check s n c : pair_inv s → check_ok_at s n c → pair_inv (set_node s n (with_check (at_node s n) c)).
Proof. intros Hinv Hc. apply inv_set_node; [done|done| | |done]; cbn; [apply (pi_copies s Hinv)|apply (pi_evidence s Hinv)]. Qed.

(** Node [n] appends a row of its own. *)
Lemma inv_append s n row c : pair_inv s → origin_node row = index n → (∀ r, r ∈ journal_at s n → epoch r < epoch row) →
  (own s n = [] → first_row row) → (own s n ≠ [] → later_row row) →
  (∀ b, rr_carry_owner row = true → head (own s (peer n)) = Some b → rr_carry_owner b = true → action row = "seed" ∧ action b = "seed") →
  (action row = "acquire" → own s (peer n) ≠ []) →
  (∀ live local scan, operator s ≠ Reread (peer n) live local scan) → check_ok_at s n c →
  pair_inv (set_node s n (with_check (with_journal (at_node s n) (row :: journal_at s n)) c)).
Proof.
  intros Hinv Hor Hep Hfirst Hlater Hexc Hacq Hoper Hc. set (s' := set_node _ _ _).
  assert (own s' n = row :: own s n) as Hn.
  { unfold own, journal_at, s'. rewrite at_set_eq. cbn [ns_journal with_check with_journal]. by apply own_rows_cons_eq. }
  assert (own s' (peer n) = own s (peer n)) as Hp by (unfold own, journal_at, s'; by rewrite at_set_peer).
  assert (∀ m r, r ∈ own s m → r ∈ own s' m) as Hsub.
  { intros m r. destruct (decide (m = n)) as [->|Hm]; [rewrite Hn; set_solver|]. by rewrite (other_node m n Hm), Hp. }
  assert (∀ P : NodeIndex -> Prop, P n → P (peer n) → ∀ m, P m) as Hboth by (intros P H1 H2 []; destruct n; done).
  constructor.
  - apply (Hboth (fun m => descending (own s' m))); [|rewrite Hp; apply (pi_descending s Hinv)]. rewrite Hn.
    constructor; [apply (pi_descending s Hinv)|]. apply Forall_forall. intros r [_ Hr]%list_elem_of_filter. by apply Hep.
  - apply (Hboth (fun m => shaped (own s' m))); [|rewrite Hp; apply (pi_shaped s Hinv)]. rewrite Hn.
    apply shaped_cons; [apply (pi_shaped s Hinv)|done|done].
  - apply (Hboth (fun m => ∀ r, r ∈ journal_at s' m → origin_node r = index (peer m) → r ∈ own s' (peer m))).
    + intros r. unfold journal_at, s'. rewrite at_set_eq. cbn [ns_journal with_check with_journal]. fold s'. rewrite Hp. intros [->|Hr]%elem_of_cons Ho.
      * exfalso. rewrite Hor in Ho. by apply (index_peer_ne n).
      * by apply (pi_copies s Hinv n).
    + intros r. unfold journal_at, s'. rewrite at_set_peer. fold s'. intros Hr Ho. apply Hsub. by apply (pi_copies s Hinv (peer n)).
  - apply (Hboth (fun m => ∀ a b, head (own s' m) = Some a → head (own s' (peer m)) = Some b →
      rr_carry_owner a = true → rr_carry_owner b = true → action a = "seed")).
    + intros a b. rewrite Hn, Hp. intros [= <-] Hb Hca Hcb. by destruct (Hexc b Hca Hb Hcb).
    + intros a b. rewrite peer_peer, Hn, Hp. intros Ha [= <-] Hca Hcb. by destruct (Hexc a Hcb Ha Hca).
  - apply (Hboth (fun m => ∀ r, r ∈ own s' m → action r = "acquire" → own s' (peer m) ≠ [])).
    + intros r. rewrite Hn, Hp. intros [->|Hr]%elem_of_cons; [done|]. by apply (pi_acquired s Hinv n).
    + intros r. rewrite peer_peer, Hn. done.
  - apply (Hboth (fun m => ns_gate (at_node s' m) = true ∨ peer_confirmed (ns_guard (at_node s' m)) = true → evidence s' m)).
    + unfold s' at 1 2. rewrite at_set_eq. cbn. intros [Hne _]%(pi_evidence s Hinv n). unfold evidence. rewrite Hn. split; [done|].
      intros r [= <-] Hs. by apply later_not_seed in Hs; [|apply Hlater].
    + unfold s' at 1 2. rewrite at_set_peer. intros [Hne Hev]%(pi_evidence s Hinv (peer n)). unfold evidence. rewrite Hp, peer_peer, Hn.
      rewrite peer_peer in Hev. split; [done|]. intros r Hr Hs. destruct (Hev r Hr Hs) as (f & Hf & Hcf). exists f. split; [|done].
      destruct (own s n) as [|y l]; [done|]. done.
  - apply (Hboth (fun m => check_ok_at s' m (ns_check (at_node s' m)))).
    + unfold s' at 2. rewrite at_set_eq. cbn. by eapply check_ok_mono.
    + unfold s' at 2. rewrite at_set_peer. eapply check_ok_mono; [exact Hsub|apply (pi_check s Hinv)].
  - unfold s' at 2. rewrite operator_set. pose proof (pi_operator s Hinv) as Ho. unfold operator_ok in *.
    destruct (operator s) as [| |m live local scan] eqn:Hop; try done. destruct (decide (m = n)) as [->|Hm]; [by rewrite Hp|].
    exfalso. rewrite (other_node m n Hm) in Hoper. by eapply Hoper.
Qed.

(** The operator moves. *)
Lemma inv_operator s o : pair_inv s → operator_ok s o → pair_inv (set_operator s o).
Proof.
  intros Hinv Ho. apply (inv_same_own s); [done| | | | |done]; intros m; unfold own, journal_at; rewrite ?at_set_operator;
    [done|apply (pi_copies s Hinv)|apply (pi_evidence s Hinv)|apply (pi_check s Hinv)].
Qed.

(** ** The reads *)
Lemma local_read_ok s n : pair_inv s → local_ok s n (read_latest_roles (journal_at s n) (index n)).
Proof.
  intros Hinv. split; cbn; intros r Hr; [by apply latest_own_in|]. apply latest_in in Hr as [Hr Ho].
  apply (pi_copies s Hinv n r Hr). rewrite Ho. by destruct n.
Qed.
Lemma peer_read_ok s n read : pair_inv s → may_read s n read → read_ok s n read.
Proof.
  intros Hinv Hr r. destruct Hr as [|j Hj|]; cbn; [| |done]; intros [Hin Ho]%latest_in;
    (apply list_elem_of_filter; split; [rewrite Ho; by destruct n|]); [done|by apply Hj].
Qed.
Lemma final_read_ok s n x local read : read_ok s n read → read_ok s n (final_read x local read).
Proof. intros Hr. unfold final_read. case_match; [done|]. by intros r. Qed.

(** ** The decision *)
Lemma paying_decision g inputs d g' : guard_decide g inputs = (d, g') →
  peer_confirmed g' = true →
  ∃ own, gi_own inputs = Some own ∧ rr_carry_owner own = true ∧
    (peer_confirmed g = true ∨ ∃ row, newest (peer_live (gi_peer_read inputs)) (gi_peer_synced inputs) = Some row ∧
       rr_carry_owner row = false ∧ (action row = "release" → action own = "acquire")).
Proof.
  unfold guard_decide, not_claiming. intros Hd Hc.
  destruct (negb _); [by injection Hd as <- <-|]. destruct (bool_decide (is_Some _)); [by injection Hd as <- <-|].
  destruct (rolled_back _ _); [by injection Hd as <- <-|]. destruct (gi_own inputs) as [own|]; [|by injection Hd as <- <-].
  destruct (negb (Bool.eqb _ _)); [by injection Hd as <- <-|].
  destruct (rr_carry_owner own) eqn:Hown; cbn [negb] in Hd; [|by injection Hd as <- <-].
  exists own. split; [done|]. split; [done|]. unfold decide_claiming, not_claiming in Hd.
  destruct (behind_peer _ _); [by injection Hd as <- <-|].
  set (live := peer_live (gi_peer_read inputs)) in *. set (peer := newest live (gi_peer_synced inputs)) in *.
  destruct (peer_claim peer live) eqn:Hclaim; [by injection Hd as <- <-|].
  destruct (unvetted own peer) eqn:Hv; [by injection Hd as <- <-|].
  destruct peer as [row|] eqn:Hpeer.
  - right. exists row. split; [done|]. unfold peer_claim in Hclaim. cbn in Hclaim. destruct (rr_carry_owner row); [done|]. split; [done|].
    intros Hrel. cbn in Hv. rewrite Hrel in Hv. cbn in Hv. apply negb_false_iff in Hv. unfold acquired_after in Hv.
    apply andb_true_iff in Hv as [Hv _]. by apply String.eqb_eq in Hv.
  - left. destruct (gi_peer_read inputs); [by injection Hd as <- <-|]. by injection Hd as <- <-.
Qed.
Lemma paying_confirmed g inputs d g' : guard_decide g inputs = (d, g') → decision_paying d = true → peer_confirmed g' = true.
Proof.
  unfold guard_decide, not_claiming. intros Hd Hp.
  destruct (negb _); [by injection Hd as <- <-|]. destruct (bool_decide (is_Some _)); [by injection Hd as <- <-|].
  destruct (rolled_back _ _); [by injection Hd as <- <-|]. destruct (gi_own inputs) as [own|]; [|by injection Hd as <- <-].
  destruct (negb (Bool.eqb _ _)); [by injection Hd as <- <-|]. destruct (negb (rr_carry_owner own)); [by injection Hd as <- <-|].
  unfold decide_claiming, not_claiming in Hd. destruct (behind_peer _ _); [by injection Hd as <- <-|].
  destruct (peer_claim _ _); [by injection Hd as <- <-|]. destruct (unvetted _ _); [by injection Hd as <- <-|].
  repeat case_match; injection Hd as <- <-; cbn in *; try done; try (by destruct (peer_confirmed g)).
Qed.

Lemma decision_evidence s n local read mismatch d g' : pair_inv s → local_ok s n local → read_ok s n read →
  guard_decide (ns_guard (at_node s n)) (inputs_of (at_node s n) n local read mismatch) = (d, g') →
  decision_paying d = true ∨ peer_confirmed g' = true → evidence s n.
Proof.
  intros Hinv [Hown Hpeer] Hread Hd Hpay. assert (peer_confirmed g' = true) as Hc by (destruct Hpay; [by eapply paying_confirmed|done]).
  destruct (paying_decision _ _ _ _ Hd Hc) as (o & Ho & Hco & [Hg|(row & Hrow & Hcr & Hrel)]); [apply (pi_evidence s Hinv); by right|].
  cbn in Ho, Hrow. apply Hown in Ho as Hin. split; [by intros Hnil; rewrite Hnil in Hin; apply elem_of_nil in Hin|].
  intros r Hr Hseed. rewrite (shaped_head_seed _ _ (pi_shaped s Hinv n) Hr Hseed) in Hin. apply list_elem_of_singleton in Hin as ->.
  assert (row ∈ own s (peer n)) as Hrin by (apply newest_in in Hrow as [?|?]; auto).
  destruct (shaped_row _ _ (pi_shaped s Hinv (peer n)) Hrin) as [[_ Hl]|[[Ha _]|[_ Hcl]]]; [by exists row| |congruence].
  exfalso. rewrite (Hrel Ha) in Hseed. done.
Qed.

Lemma append_fresh s n now_ms carry_owner act d : ∀ r, r ∈ journal_at s n →
  epoch r < epoch (default {| origin_node := 0; epoch := 0; rr_carry_owner := false; action := ""; detail := d |}
    (head (append_role (journal_at s n) now_ms (index n) carry_owner act d).2)).
Proof. intros r Hr. cbn. by apply next_epoch_above. Qed.
Lemma latest_own s n : pair_inv s → latest (index n) (journal_at s n) = head (own s n).
Proof. intros Hinv. apply latest_head, (pi_descending s Hinv). Qed.
Lemma latest_peer_own s n : pair_inv s → latest (index (peer n)) (journal_at s (peer n)) = head (own s (peer n)).
Proof. apply latest_own. Qed.
Lemma head_ne {X} (l : list X) x : head l = Some x → l ≠ [].
Proof. by destruct l. Qed.

Lemma pair_step_inv s s' : pair_inv s → pair_step s s' → pair_inv s'.
Proof.
  intros Hinv Hstep. destruct Hstep as [s n Hpc|s n local read cu Hpc _ Hr|s n local read now Hpc Hse|s n local read Hpc Hse|s n read Hpc local
    |s n local read cu Hpc _ Hr|s n local read mm Hpc decided|s n|s n setting|s n r Hr Ho|s n o now tip reason e j Hop Hpass Htx
    |s n j cl depth scan Hop Hj Hpass|s n cl local scan row Hop Hrow|s n live local scan Hop|s n live local scan active now reason e j Hop Htx|s].
  all: try (pose proof (pi_check s Hinv n) as Hck; rewrite Hpc in Hck; cbn in Hck).
  - apply inv_check; [done|]. by apply local_read_ok.
  - apply inv_check; [done|]. split; [done|]. by apply peer_read_ok.
  - unfold seed_role. cbn [lr_own read_latest_roles]. rewrite (latest_own s n Hinv).
    destruct (head (own s n)) as [r|] eqn:Hh; cbn [snd].
    + apply (inv_set_node s n); [done|done|apply (pi_copies s Hinv)|apply (pi_evidence s Hinv)|]. apply Hck.
    + assert (own s n = []) as Hnil by (by destruct (own s n)).
      apply inv_append; [done|done| | |done| | | |apply Hck].
      * apply (append_fresh s n now (ns_setting (at_node s n)) "seed" seed_detail).
      * intros _. by left.
      * intros b _ Hb Hcb. split; [done|]. destruct (shaped_row _ b (pi_shaped s Hinv (peer n))) as [[? _]|[[_ ?]|[Ha _]]]; [|done|congruence|].
        { destruct (own s (peer n)); [done|]. injection Hb as ->. set_solver. }
        exfalso. apply (pi_acquired s Hinv (peer n) b); [|done|by rewrite peer_peer].
        destruct (own s (peer n)); [done|]. injection Hb as ->. set_solver.
      * done.
      * intros live local' scan' Hop. pose proof (pi_operator s Hinv) as Ho. rewrite Hop in Ho. cbn in Ho. rewrite peer_peer, Hnil in Ho. by destruct Ho.
  - apply inv_check; [done|]. split; [apply Hck|]. apply final_read_ok, Hck.
  - apply inv_check; [done|]. split; [by apply local_read_ok|]. by apply final_read_ok.
  - apply inv_check; [done|]. split; [done|]. by apply final_read_ok, peer_read_ok.
  - apply (inv_set_node s n); [done|done|apply (pi_copies s Hinv)| |done]. cbn.
    destruct Hck as [Hlo Hre]. destruct decided as [dd gg] eqn:Hd. cbn. by eapply decision_evidence.
  - by apply inv_check.
  - apply (inv_set_node s n); [done|done|apply (pi_copies s Hinv)| |done]. cbn. by intros [|].
  - apply (inv_set_node s n); [done| | |apply (pi_evidence s Hinv)|apply (pi_check s Hinv)]; cbn [ns_journal with_journal].
    + apply own_rows_cons_ne. rewrite Ho. apply index_peer_ne.
    + intros r' [->|Hr']%elem_of_cons Hor; [|by apply (pi_copies s Hinv n)]. by apply list_elem_of_filter.
  - apply bind_Ok in Htx as ([] & Heq%ensure_Ok%bool_decide_eq_true & [= <- <-]). cbn in Heq.
    cbn in Hpass. rewrite andb_true_r in Hpass. apply andb_true_iff in Hpass as [_ Hcl].
    rewrite <- Heq, (latest_own s n Hinv) in Hcl. destruct (head (own s n)) as [r|] eqn:Hh; [|done].
    apply (inv_append s n _ (ns_check (at_node s n))); [done|done| | | |done|done| |apply (pi_check s Hinv)].
    + apply (append_fresh s n now false "release" _).
    + intros Hnil. by rewrite Hnil in Hh.
    + intros _. by left.
    + congruence.
  - by apply inv_operator.
  - apply inv_operator; [done|]. unfold reread_tail in Hrow. rewrite (latest_peer_own s n Hinv) in Hrow.
    destruct (head (own s (peer n))) as [l|] eqn:Hh; [|done]. apply bind_Ok in Hrow as (row' & [= <-] & Hrow).
    apply bind_Ok in Hrow as ([] & _ & Hrow). apply bind_Ok in Hrow as ([] & Hcl%ensure_Ok%negb_true_iff & [= <-]). done.
  - pose proof (pi_operator s Hinv) as Ho. rewrite Hop in Ho. destruct Ho as [Hh Hcl].
    assert (live ∈ own s (peer n)) as Hin by (destruct (own s (peer n)); [done|]; injection Hh as ->; set_solver).
    apply (inv_set_node s n); [done| | |apply (pi_evidence s Hinv)|apply (pi_check s Hinv)]; cbn [ns_journal with_journal].
    + apply own_rows_cons_ne. apply list_elem_of_filter in Hin as [-> _]. apply index_peer_ne.
    + intros r' [->|Hr']%elem_of_cons Hor; [done|]. by apply (pi_copies s Hinv n).
  - pose proof (pi_operator s Hinv) as Ho. rewrite Hop in Ho. destruct Ho as [Hh Hcl]. apply inv_operator; [|done].
    apply bind_Ok in Htx as ([] & _ & Htx). apply bind_Ok in Htx as ([] & _ & Htx). apply bind_Ok in Htx as ([] & _ & [= <- <-]).
    apply (inv_append s n _ (ns_check (at_node s n))); [done|done| | | | |by intros _; eapply head_ne| |apply (pi_check s Hinv)].
    + apply (append_fresh s n now true "acquire" _).
    + intros _. by right.
    + intros _. by right.
    + intros b _ Hb Hcb. rewrite Hh in Hb. injection Hb as <-. congruence.
    + intros live' local' scan' Hop'. rewrite Hop in Hop'. injection Hop' as Heq _ _ _. by destruct n.
  - by apply inv_operator.
Qed.

Lemma pair_init_inv a b : pair_inv (pair_init a b).
Proof.
  constructor; intros *; try destruct n; cbn; try done; try apply Sorted.SSorted_nil; try (by intros Hr; apply elem_of_nil in Hr); by intros [|].
Qed.
Lemma pair_reachable_inv a b s : rtc pair_step (pair_init a b) s → pair_inv s.
Proof.
  intros Hs. assert (∀ x y, pair_inv x → rtc pair_step x y → pair_inv y) as Hmono.
  { intros x y Hx. induction 1 as [|x y z Hxy _ IH]; [done|]. apply IH. by eapply pair_step_inv. }
  eapply Hmono; [apply pair_init_inv|exact Hs].
Qed.
Lemma pays_claims s n : pays s n → ns_gate (at_node s n) = true ∧ claims (latest (index n) (journal_at s n)) = true.
Proof.
  unfold pays, job_prior_balance_sql_in, job_prior_balance_sql, carry_paying. cbn. destruct (ns_gate (at_node s n)); [|done].
  case_bool_decide as Hc; [|done]. split; [done|]. destruct (latest (index n) (journal_at s n)); [by injection Hc|done].
Qed.

(** C3: the two nodes never both pay carried balances.  In every state the pair
    reaches, from empty journals and any settings, by any interleaving of both
    guards' checks (failed and lagging reads of the peer included), of seeds, of
    the journals' sync, of restarts with any setting, and of the operator's
    releases and transfers, at most one node builds work on the canonical
    balances: its gate is open and its journal claims ownership. *)
Theorem one_carry_payer setting_a setting_b s n :
  rtc pair_step (pair_init setting_a setting_b) s → pays s n → ¬ pays s (peer n).
Proof.
  intros Hs%pair_reachable_inv [Hg Hc]%pays_claims [Hg' Hc']%pays_claims.
  rewrite (latest_own s n Hs) in Hc. rewrite (latest_own s (peer n) Hs) in Hc'.
  destruct (head (own s n)) as [a|] eqn:Ha; [|done]. destruct (head (own s (peer n))) as [b|] eqn:Hb; [|done]. cbn in Hc, Hc'.
  pose proof (pi_exclusive s Hs n a b Ha Hb Hc Hc') as Hsa.
  assert (action b = "seed") as Hsb by (apply (pi_exclusive s Hs (peer n) b a); rewrite ?peer_peer; done).
  destruct (pi_evidence s Hs n (or_introl Hg)) as [_ Hev]. destruct (Hev a Ha Hsa) as (f & Hf & Hcf).
  rewrite (shaped_head_seed _ _ (pi_shaped s Hs (peer n)) Hb Hsb) in Hf. injection Hf as <-. congruence.
Qed.

(** * A concrete pair *)
(** Node B seeds as configured, then node A seeds as owner and decides. *)
Lemma example_pair_pays : ∃ s, rtc pair_step (pair_init true false) s ∧ pays s A.
Proof.
  eexists. split.
  - eapply rtc_l; [by apply (check_local _ B)|].
    eapply rtc_l; [by eapply (check_seed_read _ B _ _ true); [reflexivity|reflexivity|apply read_primary]|].
    eapply rtc_l; [by eapply (check_seed _ B _ _ 1000)|].
    eapply rtc_l; [by apply (check_local _ A)|].
    eapply rtc_l; [by eapply (check_seed_read _ A _ _ true); [reflexivity|reflexivity|apply read_primary]|].
    eapply rtc_l; [by eapply (check_seed _ A _ _ 2000)|].
    eapply rtc_l; [by eapply (check_reread _ A)|].
    eapply rtc_l; [by eapply (check_decide _ A _ _ None)|]. apply rtc_refl.
  - vm_compute. reflexivity.
Qed.
Lemma one_carry_payer_witness : ∃ s, rtc pair_step (pair_init true false) s ∧ pays s A ∧ ¬ pays s B.
Proof.
  destruct example_pair_pays as (s & Hs & Hp). exists s. split; [exact Hs|]. split; [exact Hp|].
  exact (one_carry_payer true false s A Hs Hp).
Defined.
